(* ===== verification/_CoqProject ===== *)
-Q . S2P
Prelude.v
Text.v
PathFacts.v
VectorClock.v
Types.v
Reconciler.v
Delta.v
Fork.v
Fs.v
BlobStore.v
E2ee.v
Publisher.v
ConflictWriter.v
Guard.v
Scanner.v
Sql.v
MetaDb.v
Billing.v
MetaFiles.v
MetaVersions.v
MetaSync.v
MetaSyncProps.v
SyncLoop.v
Auth.v
Acl.v
Tenancy.v
SyncService.v
SyncServiceProps.v
Enforcer.v
SyncUpload.v
SyncUploadProps.v
SyncUploadErrors.v
Enrollment.v
EnrollmentProps.v
ShareIndex.v
ShareIndexProps.v
Wire.v
WireProps.v
Http.v
Accounts.v
OAuth.v
Sharing.v
Orgs.v
Compliance.v
AccountsProps.v
AccountsTheorems.v
OAuthProps.v
SharingTheorems.v
Restore.v
RestoreProps.v
Agents.v
AgentsProps.v
Capture.v
Parent.v
ParentBackend.v
ParentProps.v
ParentTheorems.v
ParentService.v
Provider.v
ProviderProps.v
ProviderRuns.v
ProviderTheorems.v
Lan.v
LanProps.v
Daemon.v
DaemonProps.v
Config.v
Watcher.v
DaemonTask.v
Embeddings.v
Storage.v
StorageProps.v
VaultKey.v
VaultKeyProps.v
Stripe.v
Journal.v
JournalProps.v
Vfs.v
AuditLog.v
ImportState.v
