(* ===== verification/Prelude.v ===== *)
(** * Disk Arcana: a verification development

    Disk Arcana keeps folders of several machines in step through a server.
    Paths below are under [src/crates/].

    ** The program's parts and how they meet

    A client scans its folder ([disk-core/src/scanner]), skips what the filter
    excludes ([filter.rs]), and sends what it found to the server's
    [exchange_state] ([disk-server/src/services/sync.rs]). The server checks
    the session ([auth/]), the tenant ([tenant.rs]) and the certificate's role
    ([acl/]), picks the tenant's database ([tenant_db.rs]), and reconciles its
    rows, the client's report and the node's stored baseline
    ([reconciler/]), comparing vector clocks where both sides changed. It
    answers with uploads, downloads, deletions and conflicts, and records
    conflicts, tombstones and the new baseline in the metadata index
    ([meta_db/]). The client's cycle ([disk-client/src/sync_loop/wire.rs])
    then streams the files asked for ([delta_upload], through a spool, a
    publisher gate and a quota gate), fetches and verifies the downloads,
    writes the losing side of a conflict beside the original ([conflict/],
    [conflict_writer.rs]), applies deletions, and the loop around it
    ([sync_loop/mod.rs]) retries with backoff. File bytes move as blocks of
    4 KiB ([delta/]), encrypted for an encrypted vault ([e2ee/]); superseded
    contents go to a content-addressed store ([content_store.rs]). Files that
    change on the server's own disk enter the index through a watcher and a
    reconcile ([share_index/]). Nodes join by a one-time token
    ([enrollment/]) and register with a key ([services/auth.rs]).

    On a client the daemon ([disk-cli/src/daemon.rs]) runs one task per share:
    it holds the session, loads the baselines, runs a cycle and reports to a
    state that a loopback REST surface shows and steers ([rest_api/]);
    conflicts are resolved there. Its configuration is validated and reloaded
    while it runs ([config/]), files are watched ([watcher/]), peers on the
    local network are asked for content first ([lan_sync/]), and embedding
    sidecars are kept beside the notes ([disk-core/src/embeddings]).

    The daemon's TLS material and the vault's key come from stores of named
    secrets ([mtls.rs], [keychain.rs], [vault_key.rs] of [disk-client]).

    A company drive ([disk-storage/src]) keeps objects by path behind one
    trait, with a metadata table and the contents on a local disk or in an S3
    bucket.

    A personal build ([disk-personal/src]) keeps captures, notes with their
    attachments, for one owner: a parent service ([parent_adapter.rs]) asks a
    control plane for leases ([parent_authority.rs]), stores the parts in an
    SQLite backend ([parent_backend.rs]) under the owner's contract
    ([parent_native.rs], [capture_binding.rs]), and a provider ([provider/])
    keeps blobs as files beside an inventory that survives a power loss. The
    owner's outcomes go to a directory of records ([parent_journal.rs]), and
    SQLite's files through a guarded file layer ([parent_vfs.rs]).

    ** Files

    - Prelude: this file. Results and the [<?-] bind, the state-and-error monad
      [stm] with its [<~] bind, machine integers and their casts, the tactics
      and hint databases, sorting, first match, boolean orders.
    - Text, PathFacts: strings, UTF-8, [std::path] components, join, parent,
      and their lemmas.
    - VectorClock: [vector_clock.rs]. Types: [types.rs], [tombstone.rs] and the
      errors of [error.rs].
    - Reconciler: [reconciler/triple.rs] (Module Triple) and [tree.rs]
      (Module Tree); Module Matrix is the conflict table as a specification,
      Module Reconcile the theorems.
    - Delta: [delta/rolling.rs], [chunker.rs], [reconcile.rs]; readers are a
      class [Read] with laws and two instances.
    - Fork: [conflict/fork.rs] (Calendar, ForkName) and [merge.rs] (Merge).
    - Fs, ConflictWriter: a file system whose every call may fail, a look at a
      path included ([Path::exists] then says no), and
      [conflict_writer.rs] on it. BlobStore: [content_store.rs] and the client's
      [blob_cache.rs] on it.
    - E2ee: [e2ee/]; the cipher is a class [Cipher] with its laws and a toy
      instance.
    - Guard: [path_guard.rs], [filter.rs], [selective_sync.rs], [tenant.rs],
      [embeddings/paths.rs]. Scanner: [scanner/] and [platform.rs].
    - Sql, MetaDb: tables as lists of rows with [UNIQUE] constraints that do
      not compare NULL, and the rows of the migrations. MetaFiles: [files.rs],
      [versions.rs], [trash.rs]; MetaVersions holds theorems on them. MetaSync:
      [tombstones.rs], [conflicts.rs], [node_baseline.rs], [snapshots.rs],
      [billing.rs] of [meta_db/]; MetaSyncProps holds theorems on them.
      Billing: [billing/tier.rs], [quota.rs].
    - SyncLoop: [sync_loop/mod.rs].
    - Auth: [auth/rate_limit.rs], [api_key.rs], [storage.rs] and
      [middleware/replay.rs]. Acl: [acl/mod.rs], [loader.rs], [reload.rs].
    - Tenancy: [tenant_db.rs], [meta_db/nodes.rs], [meta_db/selective_sync.rs].
    - SyncService, SyncServiceProps: the checks, conversions and
      [exchange_state] of [services/sync.rs], and theorems on them. SyncUpload:
      its streaming calls [delta_upload], [delta_download], [sync_state] and
      the spool; SyncUploadProps and SyncUploadErrors hold the theorems.
    - Publisher: [publisher/mod.rs]. Enforcer: [billing/enforcer.rs],
      [billing/mode.rs], [middleware/bomb_guard.rs]. Enrollment,
      EnrollmentProps: [enrollment/mod.rs], [auth/register_gate.rs],
      [services/auth.rs] and the node hydration of [main.rs].
    - ShareIndex, ShareIndexProps: [share_index/mod.rs].
    - Wire, WireProps: [sync_loop/wire.rs] and [delta_upload] of
      [connection.rs].
    - Http: what the HTTP handlers of the server share: the control file's
      tables, the tenant router, the files, the webhook queue, status codes, and
      the clock, random and statement-fault oracles of a request.
    - Accounts, AccountsProps, AccountsTheorems: [accounts/] of [disk-core] and
      [disk-server], [meta_db/accounts.rs], [consent.rs], [telemetry.rs],
      [onboarding.rs] and their handlers. Sharing: [meta_db/sharing.rs],
      [sharing/]. Orgs: [meta_db/orgs.rs], [orgs/routes.rs]. Compliance:
      [meta_db/compliance.rs], [dashboard.rs], [compliance/], [dashboard/],
      [selective_sync/routes.rs]. SharingTheorems: theorems on the last three.
      OAuth, OAuthProps: [oauth.rs], [oauth_mode.rs], [oidc_client.rs],
      [token_refresh.rs], [jwks.rs] and [verify_jwks] of [accounts/]; its
      callback and refresh are requests of the account tables' invariant.
    - Restore, RestoreProps: [trash/routes.rs], [versions/routes.rs],
      [snapshots/routes.rs].
    - Agents, AgentsProps: [meta_db/agents.rs], [agents/webhook_sig.rs],
      [agents/routes.rs], [agents/dispatch.rs].
    - Capture: [capture_binding.rs]. Parent: [parent_adapter.rs] (Module
      Adapter, with the storage, the authority and the contract as classes),
      [parent_wire.rs], [parent_native.rs] (Native), [parent_authority.rs]
      (NativeAuthority). ParentBackend, ParentProps: [parent_backend.rs] and its
      invariant; ParentTheorems: concrete codecs (Module ParentExample) and
      the backend alone, ParentService: the service composed of all of them.
    - Provider, ProviderProps, ProviderRuns, ProviderTheorems: [provider/], its
      disk with power loss, its invariant, its runs without failures, a concrete
      root and the theorems.

    - Lan, LanProps: [lan_sync/], the serving and the fetching side and their
      composition. Daemon, DaemonProps: [rest_api/], the state and the handlers.
      Config: [config/] and the share filter of
      [embeddings_sweep.rs]. Watcher: [watcher/mod.rs] with its theorems.
      DaemonTask: the share tasks of [disk-cli/src/daemon.rs], on Wire,
      SyncLoop, Daemon and Config. Embeddings: [embeddings/manifest.rs],
      [scan.rs], [write.rs] and [embeddings_sweep.rs].
    - Storage, StorageProps: [disk-storage/]; the trait is the class
      StorageBackend, its contract the class StorageContract over a map of
      paths, which the local and the S3 backend are proved to meet.
    - VaultKey, VaultKeyProps: [mtls.rs], [keychain.rs] (a KeyStore record of
      operations with the class KeyStoreLaws, which both stores discharge),
      [vault_key.rs].
    - Stripe: [billing/stripe.rs], [billing/stripe_sig.rs] of [disk-core] and
      [billing/webhook.rs] of [disk-server].
    - Journal, JournalProps: [parent_journal.rs], on a directory
      that keeps what was synced. Vfs: [parent_vfs.rs], with its theorems.
    - AuditLog: [audit/mod.rs], [audit/ops_bot.rs], with its theorems.
      ImportState: [disk-client/src/import_state.rs], with its theorems.

    A definition has the name of the function it models. A method is a function
    of the state that returns the new state; a fallible one returns [result] or
    is a computation in [stm], where what was done before an error stays done.
    [option] around a result is a panic or, in a function with fuel, a loop that
    has not ended.

    ** What the theorems show

    - The exchange: an answer needs a live session, is for the tenant the node
      is bound to, if any, and, where there are an access list and a
      certificate, needs a role; it is exactly the declarative lists over the
      reconciliation ([exchange_answers]); a receive-only caller is never told
      to upload, creates no conflict and is offered the server's copy
      ([receive_only_server_wins]).
    - Reconciliation refines the conflict matrix path by path, never loses an
      edit silently, and its rename pass rewrites exactly the matching pairs.
    - Clocks: comparison is the causal order, merge its least upper bound.
    - Delta: chunks partition a file whatever the reader does, rolling equals
      recomputing, a plan rebuilds the file, a bad plan is an error.
    - Client writes: conflicts lose nothing under any I/O failure but, when the
      look at a fork's path fails, a fork of the same second
      ([apply_conflict_no_loss]); forks stay inside the vault, accepted paths lie
      under the root, the filter and the scan are characterised exactly.
    - Metadata index: the tables are finite maps with the null tenant included,
      in every reachable database; histories, pruning, trash, baselines,
      conflicts, snapshots and plans behave as documented, with the exceptions
      proved as such.
    - Access: the pruning limiter agrees with a full history, sessions go back
      to a matching key, replays are refused, the loaded access list is that of
      one verified file of the highest version, tenants do not share a database.
    - The sync loop's states are consistent and its delays bounded.
    - Uploads: an accepted upload is on disk at the guarded path, exactly the
      bytes that were streamed and checked ([upload_commits]); a refused one
      leaves every file as it was ([upload_failure_safe]); what is uploaded is
      downloaded, as long as the path resolves to the same place
      ([upload_download_roundtrip]).
    - The client's cycle: what is sent is what is on disk, or its ciphertext;
      what is written and recorded was fetched and passed the digest check, if
      the entry names a digest ([transfers_safe]).
    - The share index fails closed, tombstones only files that a call found gone
      or could not examine, and a reconcile makes the index agree with the disk
      ([full_reconcile_safe], [reconcile_restores]).
    - Joining: a token enrolls once and opens the gate for its certificate;
      a publisher's counters are accepted in increasing order only.
    - Stores: a blob is at every moment the whole contents of one [put] under
      any failure, and has its digest as far as the callers pass it
      ([blob_stores_integrity]); decompression ends and is bounded; the quota
      check is exact, with what a trashed file distorts
      ([check_upload_exact]).
    - Accounts and vaults: who signs up can log in and is the user the token
      names ([signup_login_roundtrip]); an access decision goes back to owning
      the vault or to a membership row ([access_justified]), and an invitation
      grants its role once ([invite_grants]). A login through an identity
      provider binds its identity to one account ([oauth_callback_binds]), with
      a state only the server can have signed ([oauth_state_authentic]); an
      external token is accepted under a current key only
      ([jwks_key_current]).
    - Restoring: the trashed content is on disk and recorded
      ([restore_trash_exact]), and no handler writes outside the root and the
      store ([restore_contained]).
    - Agents: revision bumps served one after another are counters
      ([bumps_refine_counters]); a delivered webhook verifies at its receiver
      and is tried at most three times ([delivery_bounded],
      [webhook_sig_roundtrip]).
    - The personal build: the backend's tables agree on every resource after
      any sequence of calls, failures and reopenings ([backend_never_split]);
      what the service reports as stored or erased is so when the backend is
      opened again ([parent_outcomes], [stage_readback], [cleanup_erases]).
      What the provider committed survives every power loss
      ([durable_survives]), is read back ([stage_read_roundtrip]), and what a
      retry does is decided by the files a crash left ([retry_decides]).
    - The client's daemon: resolving a conflict keeps every content on disk
      unless the remote side was chosen ([resolve_no_loss]); the configuration
      in force is the last valid one ([config_in_force]); the debouncer returns
      exactly the last event of each path once its window has passed
      ([debounce_exact]); the status surface refines a map of shares
      ([status_refines]) and an iteration reports what happened
      ([iteration_reports]); a peer's file arrives with its digest
      ([lan_transfer]) and a peer serves nothing outside its shares
      ([lan_serve_contained]); a sidecar just written is fresh
      ([sidecar_fresh]) and the sweep's numbers add up ([sweep_counts]).
    - The company drive: either backend, from an empty store, refines a map from
      paths to contents and metadata over any sequence of calls
      ([storage_refines]).
    - Keys: both stores are maps of labels under any failure
      ([keystores_refine]), a key others can read is not loaded
      ([load_audited]), and what was unlocked is resolved until it is locked
      ([vault_key_lifecycle]).
    - Payments: a plan changes only by a signed event ([stripe_plan_signed]) and
      a signed event takes effect ([stripe_event_applies]).
    - The owner's journal: a recorded outcome is one new record that survives a
      power loss, and an error leaves the others as they were
      ([journal_append]); it is read back ([journal_readback]); a partial append
      is never taken for a record ([pending_blocks]). The file layer stops at
      the first failure ([vfs_fail_stop]) and reads back what it wrote
      ([page_roundtrip]).
    - Audit: events are appended and found ([audit_appends]); the forwarder
      delivers or counts every event in every interleaving
      ([forwarder_conserves]) and drains its channel ([forwarder_drains]). An
      import writes exactly the files it reports ([import_exact]).

    Theorems that state where the code does not do what it says are
    [scan_failure_deletes], [prepared_wedges], [cas_both_win],
    [restore_poisons_store], [restore_version_drops_nonce],
    [signup_joins_tenant], [invite_lost], [org_without_owner],
    [delete_account_blocked], [purge_misses_shards], [e2ee_nonce_lost],
    [indexed_edit_yields], [enroll_breaks_boot], [acl_no_recovery],
    [purge_breaks_versioning], [retry_deadline_ignored],
    [reconcile_error_ends_loop], [unverified_cycle_ok], [discovery_stops],
    [merge_only_forks], [included_is_excluded], [plaintext_fallback],
    [keyring_never_used], [external_address_is_account], and those of
    SyncUploadErrors; smaller ones are [reconcile_output_unsorted],
    [register_vault_idempotence], [register_race], [legacy_shard_shared],
    [publisher_counter_race], [enroll_race] and [cache_put_lost]. Runs of the
    whole code on a concrete input that show such a case are Examples:
    [two_cycles_undo_update] (an update on the server is undone by a client that
    holds the old version), [trashed_file_overruns_plan], and, for a
    [Path::exists] or [Path::is_file] that says no because the stat failed,
    [failing_stat_overwrites_fork], [put_failing_stat], [fork_local_blind],
    [failing_stat_not_found], [failing_look_replaces_key] and
    [failing_stat_tombstones].

    ** Assumptions and bounds

    Third-party code is a parameter of the definitions that use it: [blake3]
    (no law but, for deltas, that the two files at hand do not collide), the
    base-32 encoder, [diffy]'s merge, the glob compiler, [canonicalize] (its
    results are absolute, canonical and have no parent segment), the JSON
    encoding of clocks (class VcCodec, with an instance), the YAML parser and
    the signature checks, the cipher and the key derivation (class Cipher:
    decryption inverts encryption), the password hash and the token library
    (classes Argon2 and JwtLib), HMAC, base64 (class Base64), what an identity
    provider answers, the JSON serializer, the decompressor's reads, the TOML parser, the mDNS library, the JSON text of a
    sidecar's manifest (class ManifestJson), the JSON columns of a storage row
    (class StorageJson) and the S3 client, with SHA-256 injective on the
    contents at hand, the operating system's keyring (classes Keyring and
    KeyringLaws) and the JSON text of a stored key (class KeyJson), the
    JSON text of a journal record (class JournalJson), the parser of a payment
    event. In the personal build SHA-256 and the JSON codecs
    (classes CaptureLib, NativeJson, ProviderJson: a printed value parses to
    itself, and printing is injective where identities are compared) and the
    control plane (its scopes leave the backend alone) are such parameters, each
    with a concrete instance; an SQLite statement may fail, a failed COMMIT may
    have taken effect, a transaction that committed is durable, and so is a file
    or an entry whose sync succeeded. A request's statements may fail one by one; requests
    are served one at a time, except where an interleaving of statements is the
    subject ([cas_both_win]). What the network
    answers and what the operating system says of a directory are oracles that
    may fail at each call. Readings of the clock and random draws are arguments.
    A jitter draw is an exact rational where the source has a double.

    Fuel: the calendar's year and month loops are bounded by the year 9999,
    which is past every time stamp the theorems admit; the path guard climbs at
    most once per component; the chunk iterator needs one step per byte and one
    more; the share index walks at most [PATH_MAX] levels; the decompressor
    needs one step per byte up to its limit. Each has a theorem that the fuel
    is enough.

    ** Not modelled, and the plan

    Left out: the command line's printing and argument parsing and the desktop
    build; TLS, start-up and health; the personal build's binding to SQLite's
    C interface; cryptographic and archive libraries and generated protocol
    code. *)

From stdpp Require Import prelude gmap strings sorting.
From Stdlib Require Import ZArith Lia Strings.Byte Strings.Ascii.

Declare Scope disk_scope.
Delimit Scope disk_scope with disk.
#[global] Open Scope disk_scope.
#[global] Open Scope Z_scope.

(** ** Fallible computations

    Rust's [Result<T, E>] and the [?] operator. *)
Inductive result (A E : Type) : Type :=
  | Ok (a : A)
  | Err (e : E).
Arguments Ok {A E} _.
Arguments Err {A E} _.

#[global] Instance Ok_inj {A E} : Inj (=) (=) (@Ok A E).
Proof. by intros x y [= ->]. Qed.

Definition res_bind {A B E} (r : result A E) (k : A → result B E) : result B E :=
  match r with Ok a => k a | Err e => Err e end.

Definition map_err {A E F} (f : E → F) (r : result A E) : result A F :=
  match r with Ok a => Ok a | Err e => Err (f e) end.

Definition is_ok {A E} (r : result A E) : bool :=
  match r with Ok _ => true | Err _ => false end.

Definition ok_or {A E} (o : option A) (e : E) : result A E :=
  match o with Some a => Ok a | None => Err e end.

Notation "x '<?-' r ';;' k" := (res_bind r (λ x, k))
  (at level 100, r at next level, right associativity) : disk_scope.

(** [rows.into_iter().map(f).collect::<Result<Vec<_>, _>>()]: the first error
    wins, otherwise the images in order. *)
Fixpoint collect_results {A B E} (f : A → result B E) (l : list A) : result (list B) E :=
  match l with
  | [] => Ok []
  | x :: l => y <?- f x ;; ys <?- collect_results f l ;; Ok (y :: ys)
  end.

(** [Option<Result<T, E>>::transpose]. *)
Definition transpose {A E} (o : option (result A E)) : result (option A) E :=
  match o with
  | None => Ok None
  | Some (Ok a) => Ok (Some a)
  | Some (Err e) => Err e
  end.

(** ** Stateful fallible computations

    A [&mut self] method or a sequence of I/O calls: the state is threaded
    through, and what was done before an error stays done. *)
Definition stm (S E A : Type) : Type := S → result A E * S.

Definition st_ret {S E A} (a : A) : stm S E A := λ s, (Ok a, s).
Definition st_err {S E A} (e : E) : stm S E A := λ s, (Err e, s).
Definition st_bind {S E A B} (m : stm S E A) (k : A → stm S E B) : stm S E B := λ s,
  match m s with
  | (Ok a, s) => k a s
  | (Err e, s) => (Err e, s)
  end.
Definition st_lift {S E A} (r : result A E) : stm S E A := λ s, (r, s).

(** A sequence that succeeded did so at each step. *)
Lemma st_bind_ok {S E A B} (m : stm S E A) (k : A → stm S E B) s b s' :
  st_bind m k s = (Ok b, s') ↔ ∃ a s1, m s = (Ok a, s1) ∧ k a s1 = (Ok b, s').
Proof.
  unfold st_bind. destruct (m s) as [[a|e] s1]; split.
  - intros Hk. by exists a, s1.
  - by intros (?&?&[= <- <-]&?).
  - done.
  - by intros (?&?&?&?).
Qed.

(** The two ways through a bind. *)
Lemma st_bind_cases {S E A B} (m : stm S E A) (k : A → stm S E B) s r s' :
  st_bind m k s = (r, s') →
  (∃ a s1, m s = (Ok a, s1) ∧ k a s1 = (r, s')) ∨ (∃ e, m s = (Err e, s') ∧ r = Err e).
Proof. unfold st_bind. destruct (m s) as [[a|e] s1]; [by eauto|]. intros [= <- <-]. by eauto. Qed.

Lemma st_lift_ok {S E A} (r : result A E) (s : S) a s' : st_lift r s = (Ok a, s') ↔ r = Ok a ∧ s' = s.
Proof. unfold st_lift. naive_solver. Qed.

Notation "x '<~' m ';;' k" := (st_bind m (λ x, k))
  (at level 100, m at next level, right associativity) : disk_scope.

(** ** Machine integers

    A [w]-bit integer is a [Z]; the wrap-around of [as] casts and of release
    arithmetic is written out. *)
Definition u8_max : Z := 2 ^ 8 - 1.
Definition u32_max : Z := 2 ^ 32 - 1.
Definition u64_max : Z := 2 ^ 64 - 1.
Definition i64_max : Z := 2 ^ 63 - 1.
Definition i64_min : Z := - 2 ^ 63.

Definition in_u32 (z : Z) : Prop := 0 ≤ z ≤ u32_max.
Definition in_u64 (z : Z) : Prop := 0 ≤ z ≤ u64_max.
Definition in_i64 (z : Z) : Prop := i64_min ≤ z ≤ i64_max.

Definition as_u32 (z : Z) : Z := z mod 2 ^ 32.
Definition as_u64 (z : Z) : Z := z mod 2 ^ 64.
Definition as_i64 (z : Z) : Z :=
  let m := z mod 2 ^ 64 in if bool_decide (m < 2 ^ 63) then m else m - 2 ^ 64.

Definition u64_saturating_add (a b : Z) : Z := Z.min (a + b) u64_max.
Definition u64_saturating_sub (a b : Z) : Z := Z.max (a - b) 0.
Definition i64_saturating_add (a b : Z) : Z := Z.max i64_min (Z.min (a + b) i64_max).
Definition i64_saturating_sub (a b : Z) : Z := Z.max i64_min (Z.min (a - b) i64_max).

(** ** The development's tactics *)
Ltac unfold_ints :=
  unfold in_u32, in_u64, in_i64, as_u32, as_u64, as_i64, u64_saturating_add,
    u64_saturating_sub, i64_saturating_add, i64_saturating_sub,
    u8_max, u32_max, u64_max, i64_max, i64_min in *.

(** Case on every [if decide], [bool_decide], [match] on a hypothesis-free
    scrutinee of the goal, then finish with arithmetic or congruence. *)
Ltac split_cases :=
  repeat first
    [ progress simplify_eq/=
    | case_decide
    | case_bool_decide
    | case_match ].

Ltac crush := split_cases; try solve [ done | lia | f_equal; lia | congruence | naive_solver lia ].

Create HintDb disk.
Create Rewrite HintDb disk.

(** ** Casts *)
Lemma as_u64_id z : in_u64 z → as_u64 z = z.
Proof. unfold_ints. intros. apply Z.mod_small. lia. Qed.

Lemma as_u64_range z : in_u64 (as_u64 z).
Proof. unfold_ints. pose proof (Z.mod_pos_bound z (2 ^ 64)). lia. Qed.

Lemma as_i64_id z : in_i64 z → as_i64 z = z.
Proof.
  unfold_ints. intros.
  destruct (decide (0 ≤ z)).
  - rewrite Z.mod_small by lia. crush.
  - rewrite <-(Z.mod_add z 1), Z.mod_small by lia. crush.
Qed.

Lemma as_i64_range z : in_i64 (as_i64 z).
Proof. unfold_ints. pose proof (Z.mod_pos_bound z (2 ^ 64)). crush. Qed.

(** Storing a [u64] in an SQLite [INTEGER] column ([as i64]) and reading it
    back ([as u64]) loses nothing. *)
Lemma as_u64_as_i64 z : in_u64 z → as_u64 (as_i64 z) = z.
Proof.
  unfold_ints. intros. rewrite (Z.mod_small z) by lia.
  case_bool_decide; [apply Z.mod_small; lia|].
  rewrite <-(Z.mod_add _ 1), Z.mod_small by lia. lia.
Qed.

Lemma as_i64_as_u64 z : as_i64 (as_u64 z) = as_i64 z.
Proof. unfold as_i64, as_u64. by rewrite Z.mod_mod by lia. Qed.

Lemma as_u32_id z : in_u32 z → as_u32 z = z.
Proof. unfold_ints. intros. apply Z.mod_small. lia. Qed.

#[export] Hint Resolve as_u64_range as_i64_range : disk.
#[export] Hint Rewrite as_u64_as_i64 as_u64_id as_i64_id using (auto with disk) : disk.

(** ** Bytes *)
#[global] Instance byte_eq_decision : EqDecision byte := byte_eq_dec.

#[global] Instance byte_countable : Countable byte.
Proof.
  refine (inj_countable Byte.to_N Byte.of_N _). intros b. apply Byte.of_to_N.
Defined.

Definition byteZ (b : byte) : Z := Z.of_N (Byte.to_N b).

Lemma byteZ_range b : 0 ≤ byteZ b < 256.
Proof. unfold byteZ. pose proof (Byte.to_N_bounded b). lia. Qed.

#[export] Hint Resolve byteZ_range : disk.

(** A 32-byte digest ([[u8; 32]]) is a byte list; [hash32] says its length. *)
Abbreviation bytes := (list byte).
Definition hash32 (h : bytes) : Prop := length h = 32%nat.
#[global] Instance hash32_dec h : Decision (hash32 h).
Proof. unfold hash32. apply _. Defined.
Definition zero_hash : bytes := replicate 32 Byte.x00.

(** ** Stable sorting

    [slice::sort_by] with a comparison: insertion sort, which is stable. *)
Section sort_by.
Context {A : Type} (le : A → A → bool).

Fixpoint insert_by (x : A) (l : list A) : list A :=
  match l with
  | [] => [x]
  | y :: l => if le x y then x :: y :: l else y :: insert_by x l
  end.

Definition sort_by (l : list A) : list A := foldr insert_by [] l.

Lemma insert_by_perm x l : insert_by x l ≡ₚ x :: l.
Proof.
  induction l as [|y l IH]; simpl; [done|].
  destruct (le x y); [done|]. rewrite IH. constructor.
Qed.

Lemma sort_by_perm l : sort_by l ≡ₚ l.
Proof. induction l as [|x l IH]; simpl; [done|]. by rewrite insert_by_perm, IH. Qed.

Lemma elem_of_sort_by x l : x ∈ sort_by l ↔ x ∈ l.
Proof. by rewrite sort_by_perm. Qed.

Lemma length_sort_by l : length (sort_by l) = length l.
Proof. by rewrite sort_by_perm. Qed.

Context (le_total : ∀ x y, le x y = false → le y x = true)
        (le_trans : ∀ x y z, le x y = true → le y z = true → le x z = true).

Let leP x y := le x y = true.

Lemma insert_by_sorted x l : StronglySorted leP l → StronglySorted leP (insert_by x l).
Proof.
  induction 1 as [|y l Hl IH Hy]; simpl; [repeat constructor|].
  destruct (le x y) eqn:E.
  - repeat constructor; auto.
    eapply Forall_impl; [exact Hy|]. unfold leP. eauto.
  - constructor; [done|]. apply Forall_forall. intros z Hz.
    rewrite insert_by_perm in Hz. apply elem_of_cons in Hz as [->|Hz].
    + by apply le_total.
    + by eapply Forall_forall in Hy.
Qed.

Lemma sort_by_sorted l : StronglySorted leP (sort_by l).
Proof. induction l; simpl; [constructor|]. by apply insert_by_sorted. Qed.

(** Sorting an already sorted list changes nothing. *)
Lemma insert_by_head x l : Forall (leP x) l → insert_by x l = x :: l.
Proof. intros H. destruct H as [|y l Hy ?]; simpl; [done|]. by rewrite Hy. Qed.

Lemma sort_by_id l : StronglySorted leP l → sort_by l = l.
Proof.
  induction 1 as [|x l Hl IH Hx]; simpl; [done|]. rewrite IH. by apply insert_by_head.
Qed.
End sort_by.

(** ** Lists *)
Lemma collect_results_ok {A B E} (f : A → result B E) (g : A → B) l :
  (∀ x, x ∈ l → f x = Ok (g x)) → collect_results f l = Ok (g <$> l).
Proof.
  induction l as [|x l IH]; intros H; simpl; [done|].
  rewrite H by constructor. simpl. rewrite IH; [done|].
  intros y Hy. apply H. by constructor.
Qed.

Lemma collect_results_inv {A B E} (f : A → result B E) l ys :
  collect_results f l = Ok ys → Forall2 (λ x y, f x = Ok y) l ys.
Proof.
  revert ys. induction l as [|x l IH]; intros ys; simpl; [by intros [= <-]|].
  destruct (f x) eqn:Hf; simpl; [|done].
  destruct (collect_results f l); simpl; [|done]. intros [= <-]. eauto.
Qed.

Lemma collect_results_id {A E} (l : list A) :
  collect_results (E:=E) id (Ok <$> l) = Ok l.
Proof.
  induction l as [|x l IH]; [done|].
  rewrite fmap_cons. cbn [collect_results]. unfold id at 1. cbn [res_bind]. by rewrite IH.
Qed.

(** Elements of a list sorted strictly by a key are identified by it. *)
Lemma sorted_key_inj {A B} (R : relation B) `{!Irreflexive R} (f : A → B) l x y :
  StronglySorted R (f <$> l) → x ∈ l → y ∈ l → f x = f y → x = y.
Proof.
  induction l as [|z l IH]; [set_solver|].
  rewrite fmap_cons. intros [Hz Hs]%StronglySorted_cons Hx Hy Heq.
  rewrite Forall_fmap, Forall_forall in Hz.
  apply elem_of_cons in Hx as [->|Hx], Hy as [->|Hy]; try done.
  - destruct (irreflexivity R (f z)). rewrite Heq at 2. by apply Hz.
  - destruct (irreflexivity R (f z)). rewrite <-Heq at 2. by apply Hz.
  - by apply IH.
Qed.

Lemma NoDup_omap_strong {A B} (f : A → option B) (l : list A) :
  (∀ x y z, x ∈ l → y ∈ l → f x = Some z → f y = Some z → x = y) →
  NoDup l → NoDup (omap f l).
Proof.
  intros Hinj Hnd. induction Hnd as [|x l Hx Hnd IH]; simpl; [constructor|].
  assert (NoDup (omap f l)) by (apply IH; set_solver).
  destruct (f x) as [z|] eqn:Hz; [|done]. apply NoDup_cons. split; [|done].
  intros (y&Hy&Hfy)%list_elem_of_omap. rewrite (Hinj x y z) in Hx by set_solver. done.
Qed.

Lemma NoDup_fmap_inj_elem {A B} (f : A → B) (l : list A) x y :
  NoDup (f <$> l) → x ∈ l → y ∈ l → f x = f y → x = y.
Proof.
  induction l as [|z l IH]; simpl; [set_solver|]. intros [Hz Hnd]%NoDup_cons Hx Hy Heq.
  apply elem_of_cons in Hx as [->|Hx], Hy as [->|Hy]; try done.
  - destruct Hz. rewrite Heq. by apply list_elem_of_fmap_2.
  - destruct Hz. rewrite <-Heq. by apply list_elem_of_fmap_2.
  - by apply IH.
Qed.

(** [iter().find(p)]. *)
Definition find_first {A} (p : A → bool) (l : list A) : option A := List.find p l.

Lemma find_first_spec {A} (p : A → bool) l x :
  find_first p l = Some x → x ∈ l ∧ p x = true.
Proof. intros [H ?]%List.find_some. by rewrite list_elem_of_In. Qed.

Lemma find_first_none {A} (p : A → bool) l :
  find_first p l = None ↔ ∀ x, x ∈ l → p x = false.
Proof.
  setoid_rewrite list_elem_of_In. split; [apply List.find_none|].
  induction l as [|y l IH]; simpl; intros H; [done|].
  rewrite (H y) by auto. apply IH. auto.
Qed.

(** ** Boolean strict total orders

    The interface the sorted containers rely on ([BTreeMap], [BTreeSet],
    [sort_by], [ORDER BY]), with the lexicographic order on lists. *)
Class BoolOrder {A} (ltb : A → A → bool) := {
  bo_irrefl x : ltb x x = false;
  bo_trans x y z : ltb x y = true → ltb y z = true → ltb x z = true;
  bo_total x y : ltb x y = false → ltb y x = false → x = y
}.

Section lex.
Context {A : Type} (ltb : A → A → bool).

Fixpoint lex_ltb (a b : list A) : bool :=
  match a, b with
  | _, [] => false
  | [], _ :: _ => true
  | x :: a, y :: b =>
      if ltb x y then true else if ltb y x then false else lex_ltb a b
  end.

#[global] Instance lex_order `{!BoolOrder ltb} : BoolOrder lex_ltb.
Proof.
  split.
  - intros x. induction x as [|a x IH]; simpl; [done|]. by rewrite bo_irrefl.
  - intros x y z. revert x y. induction z as [|c z IH]; intros [|a x] [|b y]; simpl;
      try done.
    destruct (ltb a b) eqn:Hab, (ltb b c) eqn:Hbc.
    + by rewrite (bo_trans _ _ _ Hab Hbc).
    + destruct (ltb c b) eqn:Hcb; [done|].
      rewrite <-(bo_total _ _ Hbc Hcb). by rewrite Hab.
    + destruct (ltb b a) eqn:Hba; [done|].
      rewrite (bo_total _ _ Hab Hba). by rewrite Hbc.
    + destruct (ltb b a) eqn:Hba, (ltb c b) eqn:Hcb; try done.
      rewrite (bo_total _ _ Hab Hba), (bo_total _ _ Hbc Hcb), bo_irrefl. apply IH.
  - intros x y. revert y. induction x as [|a x IH]; intros [|b y]; simpl; try done.
    destruct (ltb a b) eqn:Hab; [done|]. destruct (ltb b a) eqn:Hba; [done|].
    intros. rewrite (bo_total _ _ Hab Hba). f_equal. auto.
Qed.
End lex.

Lemma bo_asym {A} (ltb : A → A → bool) `{!BoolOrder ltb} x y : ltb x y = true → ltb y x = false.
Proof.
  intros Hxy. destruct (ltb y x) eqn:Hyx; [|done].
  by rewrite <-(bo_irrefl x), (bo_trans _ _ _ Hxy Hyx).
Qed.

Lemma bo_leb_trans {A} (ltb : A → A → bool) `{!BoolOrder ltb} x y z :
  negb (ltb y x) = true → negb (ltb z y) = true → negb (ltb z x) = true.
Proof.
  rewrite !negb_true_iff. intros Hyx Hzy. destruct (ltb z x) eqn:Hzx; [|done].
  destruct (ltb x y) eqn:Hxy.
  - by rewrite (bo_trans _ _ _ Hzx Hxy) in Hzy.
  - by rewrite (bo_total _ _ Hxy Hyx), Hzy in Hzx.
Qed.
