(* ===== verification/Text.v ===== *)
(** * Text and paths

    What the sources use of Rust's [str] and [std::path::Path] (Unix): byte
    strings, ASCII case folding, Unicode trimming, UTF-8 validation, and the
    component view of a path, which is what [PathBuf]'s [Eq], [Hash] and [Ord]
    are defined by. *)

From stdpp Require Import prelude gmap strings.
From Stdlib Require Import ZArith Lia Strings.Byte Strings.Ascii.
From S2P Require Import Prelude.

(** ** Characters *)
Definition ascii_code (c : ascii) : Z := Z.of_N (N_of_ascii c).

Definition is_ascii_upper (c : ascii) : bool :=
  bool_decide (65 ≤ ascii_code c ≤ 90).
Definition is_ascii_lower (c : ascii) : bool :=
  bool_decide (97 ≤ ascii_code c ≤ 122).
Definition is_ascii_digit (c : ascii) : bool :=
  bool_decide (48 ≤ ascii_code c ≤ 57).
Definition is_ascii_hexdigit (c : ascii) : bool :=
  is_ascii_digit c || bool_decide (97 ≤ ascii_code c ≤ 102)
  || bool_decide (65 ≤ ascii_code c ≤ 70).
Definition is_ascii_alphanumeric (c : ascii) : bool :=
  is_ascii_upper c || is_ascii_lower c || is_ascii_digit c.

Definition to_ascii_lower (c : ascii) : ascii :=
  if is_ascii_upper c then ascii_of_N (N_of_ascii c + 32) else c.

(** ** Strings as character lists *)
Abbreviation chars := (list ascii).
Definition explode (s : string) : chars := String.list_ascii_of_string s.
Definition implode (l : chars) : string := String.string_of_list_ascii l.

Lemma implode_explode s : implode (explode s) = s.
Proof. apply String.string_of_list_ascii_of_string. Qed.
Lemma explode_implode l : explode (implode l) = l.
Proof. apply String.list_ascii_of_string_of_list_ascii. Qed.
Lemma explode_inj s1 s2 : explode s1 = explode s2 → s1 = s2.
Proof. intros H. by rewrite <-(implode_explode s1), H, implode_explode. Qed.
Lemma explode_app s1 s2 : explode (s1 +:+ s2) = explode s1 ++ explode s2.
Proof.
  induction s1 as [|c s1 IH]; [done|].
  change (c :: explode (s1 +:+ s2) = c :: (explode s1 ++ explode s2)). by rewrite IH.
Qed.
Lemma implode_app l1 l2 : implode (l1 ++ l2) = implode l1 +:+ implode l2.
Proof.
  induction l1 as [|c l1 IH]; [done|].
  change (String c (implode (l1 ++ l2)) = String c (implode l1 +:+ implode l2)). by rewrite IH.
Qed.
Lemma explode_nil s : explode s = [] ↔ s = "".
Proof. by destruct s. Qed.
#[export] Hint Rewrite implode_explode explode_implode explode_app implode_app : disk.

Definition str_len (s : string) : Z := Z.of_nat (String.length s).

Definition to_ascii_lowercase (s : string) : string :=
  implode (to_ascii_lower <$> explode s).
Definition eq_ignore_ascii_case (a b : string) : bool :=
  bool_decide (to_ascii_lowercase a = to_ascii_lowercase b).

(** [l.strip_prefix(p)]. *)
Fixpoint strip_prefix (p l : chars) : option chars :=
  match p, l with
  | [], _ => Some l
  | c :: p, d :: l => if decide (c = d) then strip_prefix p l else None
  | _ :: _, [] => None
  end.

Lemma strip_prefix_spec p l r : strip_prefix p l = Some r ↔ l = p ++ r.
Proof.
  revert l. induction p as [|c p IH]; intros [|d l]; simpl; try naive_solver.
  case_decide; rewrite ?IH; naive_solver.
Qed.

Definition starts_with (s p : string) : bool :=
  bool_decide (is_Some (strip_prefix (explode p) (explode s))).

Lemma starts_with_spec s p : starts_with s p = true ↔ ∃ r, s = p +:+ r.
Proof.
  unfold starts_with. rewrite bool_decide_eq_true. split.
  - intros [r Hr%strip_prefix_spec]. exists (implode r). apply explode_inj.
    by rewrite explode_app, explode_implode.
  - intros [r ->]. exists (explode r). apply strip_prefix_spec. apply explode_app.
Qed.

(** [s.contains(p)] for a pattern string. *)
Fixpoint contains_chars (p l : chars) : bool :=
  bool_decide (is_Some (strip_prefix p l)) ||
  match l with [] => false | _ :: l => contains_chars p l end.
Definition contains (s p : string) : bool := contains_chars (explode p) (explode s).

Lemma contains_chars_spec p l : contains_chars p l = true ↔ ∃ l1 l2, l = l1 ++ p ++ l2.
Proof.
  induction l as [|c l IH]; simpl.
  - rewrite orb_true_iff, bool_decide_eq_true. split.
    + intros [[r Hr%strip_prefix_spec]|?]; [|done]. by exists [], r.
    + intros (l1&l2&H). left. destruct l1, p; naive_solver.
  - rewrite orb_true_iff, bool_decide_eq_true, IH. split.
    + intros [[r Hr%strip_prefix_spec]|(l1&l2&->)]; [by exists [], r|].
      by exists (c :: l1), l2.
    + intros ([|d l1]&l2&H); simpl in H.
      * left. exists l2. by apply strip_prefix_spec.
      * right. simplify_eq. eauto.
Qed.

(** [s.replace(from_char, to_char)]. *)
Definition replace_char (a b : ascii) (s : string) : string :=
  implode ((λ c, if decide (c = a) then b else c) <$> explode s).

(** [str::split(c)]: always at least one piece. *)
Fixpoint split_chars (c : ascii) (l : chars) : list chars :=
  match l with
  | [] => [[]]
  | d :: l =>
      if decide (d = c) then [] :: split_chars c l
      else match split_chars c l with
           | [] => [[d]]
           | p :: ps => (d :: p) :: ps
           end
  end.
Definition split_on (c : ascii) (s : string) : list string :=
  implode <$> split_chars c (explode s).

Fixpoint join_chars (c : ascii) (ps : list chars) : chars :=
  match ps with
  | [] => []
  | [p] => p
  | p :: ps => p ++ c :: join_chars c ps
  end.
Definition join_with (c : ascii) (ps : list string) : string :=
  implode (join_chars c (explode <$> ps)).

Lemma split_chars_nonempty c l : split_chars c l ≠ [].
Proof. destruct l; simpl; [done|]. case_decide; [done|]. by destruct (split_chars c l). Qed.

Lemma join_split_chars c l : join_chars c (split_chars c l) = l.
Proof.
  induction l as [|d l IH]; simpl; [done|].
  pose proof (split_chars_nonempty c l).
  case_decide; subst; simpl.
  - destruct (split_chars c l) eqn:?; [done|]. by rewrite <-IH.
  - destruct (split_chars c l) as [|p [|q ps]] eqn:?; [done|..]; simpl in *; by rewrite <-IH.
Qed.

Lemma split_chars_free c l p : p ∈ split_chars c l → c ∉ p.
Proof.
  revert p. induction l as [|d l IH]; intros p; simpl;
    [intros ->%list_elem_of_singleton; by intros ?%not_elem_of_nil|].
  case_decide; [rewrite elem_of_cons; intros [->|?]; [by intros ?%not_elem_of_nil|auto]|].
  destruct (split_chars c l) as [|q ps].
  - intros ->%list_elem_of_singleton. rewrite list_elem_of_singleton. congruence.
  - rewrite elem_of_cons. intros [->|Hp]; [|apply IH; by constructor].
    rewrite elem_of_cons. intros [->|Hc]; [done|]. apply (IH q); [by constructor|done].
Qed.

(** ** Trimming

    [str::trim] removes Unicode [White_Space]; on valid UTF-8 that is the
    removal of these encoded characters at both ends. *)
Definition whitespace_encodings : list chars :=
  ((λ n : N, [ascii_of_N n]) <$> [9; 10; 11; 12; 13; 32]%N) ++
  [ascii_of_N <$> [194; 133]%N; ascii_of_N <$> [194; 160]%N;
   ascii_of_N <$> [225; 154; 128]%N] ++
  ((λ n : N, ascii_of_N <$> [226%N; 128%N; n])
     <$> [128; 129; 130; 131; 132; 133; 134; 135; 136; 137; 138; 168; 169; 175]%N) ++
  [ascii_of_N <$> [226; 129; 159]%N; ascii_of_N <$> [227; 128; 128]%N].

Fixpoint strip_any (ps : list chars) (l : chars) : option chars :=
  match ps with
  | [] => None
  | p :: ps => match strip_prefix p l with Some r => Some r | None => strip_any ps l end
  end.

(** The fuel is the length of the text: each step removes at least one byte. *)
Fixpoint trim_start_with (fuel : nat) (ps : list chars) (l : chars) : chars :=
  match fuel with
  | O => l
  | S fuel =>
      match strip_any ps l with Some r => trim_start_with fuel ps r | None => l end
  end.

Definition trim (s : string) : string :=
  let l := explode s in
  let l1 := trim_start_with (length l) whitespace_encodings l in
  let r1 := reverse l1 in
  implode (reverse (trim_start_with (length r1) (reverse <$> whitespace_encodings) r1)).

(** [trim_start_matches(c)] and [trim_matches(c)] for one character. *)
Fixpoint drop_while_char (c : ascii) (l : chars) : chars :=
  match l with
  | d :: l' => if decide (d = c) then drop_while_char c l' else l
  | [] => []
  end.
Definition trim_start_matches (c : ascii) (s : string) : string :=
  implode (drop_while_char c (explode s)).
Definition trim_matches_chars (c : ascii) (l : chars) : chars :=
  reverse (drop_while_char c (reverse (drop_while_char c l))).
Definition trim_matches (c : ascii) (s : string) : string :=
  implode (trim_matches_chars c (explode s)).

Lemma drop_while_char_suffix c l : ∃ n, l = replicate n c ++ drop_while_char c l.
Proof.
  induction l as [|d l [n IH]]; simpl; [by exists 0%nat|].
  case_decide; subst; [|by exists 0%nat]. exists (S n). simpl. by rewrite <-IH.
Qed.

Lemma drop_while_char_head c l d r : drop_while_char c l = d :: r → d ≠ c.
Proof. induction l; simpl; [done|]. case_decide; [done|]. naive_solver. Qed.

Lemma drop_while_char_fix c l : head l ≠ Some c → drop_while_char c l = l.
Proof. destruct l; simpl; [done|]. case_decide; congruence. Qed.

Lemma drop_while_char_cons_fix c d l : d ≠ c → drop_while_char c (d :: l) = d :: l.
Proof. simpl. by case_decide. Qed.

(** What trimming leaves has no [c] at either end, and re-trimming is the identity. *)
Lemma trim_matches_chars_ends c l :
  head (trim_matches_chars c l) ≠ Some c ∧ last (trim_matches_chars c l) ≠ Some c.
Proof.
  unfold trim_matches_chars. set (l1 := drop_while_char c l).
  assert (head l1 ≠ Some c) as Hh.
  { destruct l1 as [|d r] eqn:Hl; simpl; [done|]. intros [= ->].
    by eapply drop_while_char_head in Hl. }
  split.
  - destruct (drop_while_char_suffix c (reverse l1)) as [n Hn].
    assert (l1 = reverse (drop_while_char c (reverse l1)) ++ reverse (replicate n c)) as He.
    { by rewrite <-reverse_app, <-Hn, reverse_involutive. }
    destruct (reverse (drop_while_char c (reverse l1))) as [|d r]; [done|].
    rewrite He in Hh. exact Hh.
  - rewrite last_reverse.
    destruct (drop_while_char c (reverse l1)) as [|d r] eqn:Hd; simpl; [done|].
    intros [= ->]. by eapply drop_while_char_head in Hd.
Qed.

Lemma trim_matches_chars_fix c l :
  head l ≠ Some c → last l ≠ Some c → trim_matches_chars c l = l.
Proof.
  intros H1 H2. unfold trim_matches_chars. rewrite (drop_while_char_fix _ l H1).
  rewrite drop_while_char_fix; [apply reverse_involutive|].
  by rewrite head_reverse.
Qed.

(** ** UTF-8 validity ([std::str::from_utf8], RFC 3629)

    Over byte values; surrogates and overlong forms are refused by the bounds
    on the second byte. *)
Definition is_cont (b : Z) : bool := bool_decide (128 ≤ b ≤ 191).

Fixpoint utf8_valid (l : list Z) : bool :=
  match l with
  | [] => true
  | b0 :: l0 =>
      if bool_decide (0 ≤ b0 ≤ 127) then utf8_valid l0
      else match l0 with
      | [] => false
      | b1 :: l1 =>
          if bool_decide (194 ≤ b0 ≤ 223) then is_cont b1 && utf8_valid l1
          else match l1 with
          | [] => false
          | b2 :: l2 =>
              if bool_decide (224 ≤ b0 ≤ 239) then
                bool_decide ((if decide (b0 = 224) then 160 else 128) ≤ b1 ≤
                             (if decide (b0 = 237) then 159 else 191))
                && is_cont b2 && utf8_valid l2
              else match l2 with
              | [] => false
              | b3 :: l3 =>
                  bool_decide (240 ≤ b0 ≤ 244)
                  && bool_decide ((if decide (b0 = 240) then 144 else 128) ≤ b1 ≤
                                  (if decide (b0 = 244) then 143 else 191))
                  && is_cont b2 && is_cont b3 && utf8_valid l3
              end
          end
      end
  end.

Definition str_utf8 (s : string) : bool := utf8_valid (ascii_code <$> explode s).
Definition bytes_utf8 (b : bytes) : bool := utf8_valid (byteZ <$> b).

(** ** Lossy strings *)
Module Lossy.
(** [String::from_utf8_lossy]: each maximal invalid piece becomes U+FFFD. *)
Definition replacement : list Z := [239; 191; 189].

Fixpoint lossy (l : list Z) : list Z :=
  match l with
  | [] => []
  | b0 :: l0 =>
      if bool_decide (0 ≤ b0 ≤ 127) then b0 :: lossy l0
      else if bool_decide (194 ≤ b0 ≤ 223) then
        match l0 with
        | b1 :: l1 => if is_cont b1 then b0 :: b1 :: lossy l1 else replacement ++ lossy l0
        | [] => replacement
        end
      else if bool_decide (224 ≤ b0 ≤ 239) then
        match l0 with
        | b1 :: l1 =>
            if bool_decide ((if decide (b0 = 224) then 160 else 128) ≤ b1 ≤
                            (if decide (b0 = 237) then 159 else 191)) then
              match l1 with
              | b2 :: l2 => if is_cont b2 then b0 :: b1 :: b2 :: lossy l2 else replacement ++ lossy l1
              | [] => replacement
              end
            else replacement ++ lossy l0
        | [] => replacement
        end
      else if bool_decide (240 ≤ b0 ≤ 244) then
        match l0 with
        | b1 :: l1 =>
            if bool_decide ((if decide (b0 = 240) then 144 else 128) ≤ b1 ≤
                            (if decide (b0 = 244) then 143 else 191)) then
              match l1 with
              | b2 :: l2 =>
                  if is_cont b2 then
                    match l2 with
                    | b3 :: l3 =>
                        if is_cont b3 then b0 :: b1 :: b2 :: b3 :: lossy l3
                        else replacement ++ lossy l2
                    | [] => replacement
                    end
                  else replacement ++ lossy l1
              | [] => replacement
              end
            else replacement ++ lossy l0
        | [] => replacement
        end
      else replacement ++ lossy l0
  end.

Definition to_string_lossy (s : string) : string :=
  implode ((λ z, ascii_of_N (Z.to_N z)) <$> lossy (ascii_code <$> explode s)).

(** Valid text is unchanged. *)
Lemma lossy_valid l : utf8_valid l = true → lossy l = l.
Proof.
  remember (length l) as n eqn:Hn. revert l Hn.
  induction (lt_wf n) as [n _ IH]. intros l -> H.
  destruct l as [|b0 l0]; [done|]. cbn [lossy utf8_valid] in *.
  case_bool_decide; [f_equal; apply (IH (length l0)); simpl in *; lia || done|].
  destruct l0 as [|b1 l1]; [done|].
  case_bool_decide.
  { apply andb_true_iff in H as [-> H]. do 2 f_equal. apply (IH (length l1)); simpl in *; lia || done. }
  destruct l1 as [|b2 l2]; [done|].
  case_bool_decide.
  { apply andb_true_iff in H as [[Ha Hb]%andb_true_iff H]. rewrite Ha, Hb. do 3 f_equal.
    apply (IH (length l2)); simpl in *; lia || done. }
  destruct l2 as [|b3 l3]; [done|].
  apply andb_true_iff in H as [H He]. apply andb_true_iff in H as [H Hd].
  apply andb_true_iff in H as [H Hc]. apply andb_true_iff in H as [Ha Hb].
  rewrite bool_decide_eq_true_2 by (by apply bool_decide_eq_true in Ha); rewrite Hb, Hc, Hd. do 4 f_equal. apply (IH (length l3)); simpl in *; lia || done.
Qed.

Lemma to_string_lossy_valid s : str_utf8 s = true → to_string_lossy s = s.
Proof.
  intros H. unfold to_string_lossy. rewrite lossy_valid by done.
  rewrite <-(implode_explode s) at 2. f_equal. rewrite <-list_fmap_compose.
  rewrite <-(list_fmap_id (explode s)) at 2. apply list_fmap_ext. intros i c _.
  unfold compose, ascii_code. simpl. rewrite N2Z.id. apply ascii_N_embedding.
Qed.

Definition bytes_lossy (b : bytes) : bytes := (λ z, default Byte.x00 (Byte.of_N (Z.to_N z))) <$> lossy (byteZ <$> b).

Lemma bytes_lossy_valid b : bytes_utf8 b = true → bytes_lossy b = b.
Proof.
  intros H. unfold bytes_lossy. rewrite lossy_valid by done. rewrite <-list_fmap_compose. rewrite <-(list_fmap_id b) at 2.
  apply list_fmap_ext. intros i c _. unfold compose, byteZ. simpl. by rewrite N2Z.id, Byte.of_to_N.
Qed.
End Lossy.

(** ** Paths *)
Module Path.

(** [std::path::Component] on Unix (there is no prefix component). *)
Inductive component :=
  | RootDir
  | CurDir
  | ParentDir
  | Normal (s : string).

#[global] Instance component_eq_dec : EqDecision component.
Proof. solve_decision. Defined.

#[global] Instance component_countable : Countable component.
Proof.
  refine (inj_countable'
    (λ c, match c with
          | RootDir => inl 0%N | CurDir => inl 1%N | ParentDir => inl 2%N
          | Normal s => inr s end)
    (λ x, match x with
          | inl 0%N => RootDir | inl 1%N => CurDir | inl _ => ParentDir
          | inr s => Normal s end) _).
  by intros [].
Defined.

Definition sep : ascii := "/"%char.

Definition segments (p : string) : list string := split_on sep p.

Definition has_root (p : string) : bool := starts_with p "/".
Definition is_absolute (p : string) : bool := has_root p.

Definition component_of (s : string) : option component :=
  if decide (s = "") then None
  else if decide (s = ".") then None
  else if decide (s = "..") then Some ParentDir
  else Some (Normal s).

(** [Path::components]: repeated separators and inner [.] segments vanish,
    a leading [.] of a relative path is kept. *)
Definition components (p : string) : list component :=
  (if has_root p then [RootDir]
   else match segments p with "." :: _ => [CurDir] | _ => [] end)
  ++ omap component_of (segments p).

(** [PathBuf]'s equality, hash and order only see the components. *)
Definition path_eqb (p q : string) : bool := bool_decide (components p = components q).

Definition component_rank (c : component) : Z :=
  match c with RootDir => 0 | CurDir => 1 | ParentDir => 2 | Normal _ => 3 end.

(** Byte-wise lexicographic order of strings ([OsStr], [str], and SQLite's
    [BINARY] collation). *)
Definition ascii_ltb (c d : ascii) : bool := bool_decide (ascii_code c < ascii_code d).
Definition chars_ltb : chars → chars → bool := lex_ltb ascii_ltb.
Definition str_ltb (a b : string) : bool := chars_ltb (explode a) (explode b).
Definition str_leb (a b : string) : bool := negb (str_ltb b a).

Definition component_ltb (c d : component) : bool :=
  match c, d with
  | Normal s, Normal t => str_ltb s t
  | _, _ => bool_decide (component_rank c < component_rank d)
  end.

Definition components_ltb : list component → list component → bool :=
  lex_ltb component_ltb.

#[global] Instance ascii_order : BoolOrder ascii_ltb.
Proof.
  unfold ascii_ltb, ascii_code. split.
  - intros x. apply bool_decide_eq_false. lia.
  - intros x y z. rewrite !bool_decide_eq_true. lia.
  - intros x y. rewrite !bool_decide_eq_false. intros.
    rewrite <-(ascii_N_embedding x), <-(ascii_N_embedding y). f_equal. lia.
Qed.

#[global] Instance str_order : BoolOrder str_ltb.
Proof.
  pose proof (lex_order ascii_ltb) as H. unfold str_ltb, chars_ltb. split.
  - intros. apply bo_irrefl.
  - intros x y z. apply bo_trans.
  - intros x y ??. apply explode_inj. by apply bo_total.
Qed.

#[global] Instance component_order : BoolOrder component_ltb.
Proof.
  split.
  - intros []; simpl; try done. apply bo_irrefl.
  - intros [] [] []; simpl; try done. apply bo_trans.
  - intros [] []; simpl; try done. intros ??. f_equal. by apply bo_total.
Qed.

#[global] Instance components_order : BoolOrder components_ltb.
Proof. apply lex_order, _. Qed.

Definition path_ltb (p q : string) : bool := components_ltb (components p) (components q).

(** [Path::file_name]: the last component when it is a normal one. *)
Definition file_name (p : string) : option string :=
  match last (components p) with Some (Normal s) => Some s | _ => None end.

(** [Path::extension]: after the last dot, unless the name starts with it. *)
Fixpoint rfind_aux (c : ascii) (l : chars) (i : nat) : option nat :=
  match l with
  | [] => None
  | d :: l =>
      match rfind_aux c l (S i) with
      | Some j => Some j
      | None => if decide (d = c) then Some i else None
      end
  end.
Definition rfind (c : ascii) (l : chars) : option nat := rfind_aux c l 0.

Definition extension (p : string) : option string :=
  match file_name p with
  | None => None
  | Some name =>
      if decide (name = "..") then None
      else match rfind "."%char (explode name) with
           | None | Some O => None
           | Some i => Some (implode (drop (S i) (explode name)))
           end
  end.

(** [Path::join] / [PathBuf::push]. *)
Definition join (p q : string) : string :=
  if is_absolute q then q
  else if decide (p = "") then q
  else if decide (last (explode p) = Some sep) then p +:+ q
  else p +:+ "/" +:+ q.

(** [Path::parent]: drop the last component together with the separators and
    [.] segments around it, keeping the spelling of what is before. *)
Definition is_junk (s : string) : bool := bool_decide (s = "" ∨ s = ".").
Fixpoint drop_junk (rev_segs : list string) : list string :=
  match rev_segs with
  | s :: l => if is_junk s then drop_junk l else rev_segs
  | [] => []
  end.
(** The same, never dropping the first segment of a relative path: a leading
    [.] is a component. *)
Fixpoint drop_junk_keep1 (rev_segs : list string) : list string :=
  match rev_segs with
  | [s] => [s]
  | s :: l => if is_junk s then drop_junk_keep1 l else rev_segs
  | [] => []
  end.

Definition parent (p : string) : option string :=
  if has_root p then
    match drop_junk (reverse (tail (segments p))) with
    | [] => None
    | _ :: l => Some ("/" +:+ join_with sep (reverse (drop_junk l)))
    end
  else
    match drop_junk_keep1 (reverse (segments p)) with
    | [] => None
    | [s] => if decide (s = "") then None else Some ""
    | _ :: l => Some (join_with sep (reverse (drop_junk_keep1 l)))
    end.

(** [Path::starts_with]: component-wise prefix. *)
Definition path_starts_with (p base : string) : bool :=
  bool_decide (components base `prefix_of` components p).

Lemma str_leb_total a b : str_leb a b = false → str_leb b a = true.
Proof. unfold str_leb. rewrite negb_false_iff, negb_true_iff. by apply (bo_asym _). Qed.

Lemma str_leb_trans a b c : str_leb a b = true → str_leb b c = true → str_leb a c = true.
Proof. apply (bo_leb_trans _). Qed.

End Path.

Section path_examples.
Import Path.
Example components_ex1 : components "/a//b/./../c/" = [RootDir; Normal "a"; Normal "b"; ParentDir; Normal "c"].
Proof. reflexivity. Qed.
Example components_ex2 : components "./a" = [CurDir; Normal "a"] ∧ components "" = [].
Proof. split; reflexivity. Qed.
Example parent_ex : parent <$> ["a//b//c"; "/a"; "a"; "/"; ""; "./a"; "a/./b"; "."; "//x/y"]
  = [Some "a//b"; Some "/"; Some ""; None; None; Some "."; Some "a"; Some ""; Some "//x"].
Proof. reflexivity. Qed.
Example extension_ex : extension <$> ["a/b.tar.gz"; ".git"; "x"; "a.b/"; "..a"]
  = [Some "gz"; None; None; Some "b"; Some "a"].
Proof. reflexivity. Qed.
Example trim_ex : trim "  a b
" = "a b".
Proof. reflexivity. Qed.
Example order_ex : path_ltb "a/b" "a.b" = true ∧ str_ltb "a/b" "a.b" = false.
Proof. split; reflexivity. Qed.
End path_examples.
