(* ===== verification/PathFacts.v ===== *)
(** * Facts about paths

    How [join] and [parent] act on the components of a path: a join appends
    the components of a relative path, and the parent of a path with a file
    name is the path without its last component, and is shorter. *)

From stdpp Require Import prelude gmap strings.
From Stdlib Require Import ZArith Lia Strings.Ascii.
From S2P Require Import Prelude Text.

Import Path.

(** ** Segments *)
Lemma split_chars_app c l1 l2 : split_chars c (l1 ++ c :: l2) = split_chars c l1 ++ split_chars c l2.
Proof.
  induction l1 as [|d l1 IH]; simpl; [by rewrite decide_True|].
  case_decide; [by rewrite IH|]. rewrite IH.
  pose proof (split_chars_nonempty c l1). by destruct (split_chars c l1).
Qed.

Lemma split_chars_single c l : c ∉ l → split_chars c l = [l].
Proof.
  induction l as [|d l IH]; [done|]. rewrite not_elem_of_cons. intros [??]. simpl.
  rewrite decide_False, IH by done. done.
Qed.

Lemma join_chars_cons c p q ps :
  join_chars c (p :: q :: ps) = p ++ c :: join_chars c (q :: ps).
Proof. done. Qed.

Lemma split_join_chars c ps :
  ps ≠ [] → Forall (λ p, c ∉ p) ps → split_chars c (join_chars c ps) = ps.
Proof.
  induction ps as [|p [|q ps] IH]; intros Hne Hf; [done| |].
  - apply split_chars_single. by inv Hf.
  - inv Hf. rewrite join_chars_cons, split_chars_app, split_chars_single, IH by done. done.
Qed.

Lemma segments_nonempty p : segments p ≠ [].
Proof. unfold segments, split_on. intros H%fmap_nil_inv. by apply split_chars_nonempty in H. Qed.

Lemma join_segments p : join_with sep (segments p) = p.
Proof.
  unfold join_with, segments, split_on. rewrite <-list_fmap_compose.
  rewrite (list_fmap_ext _ id); [|intros; apply explode_implode].
  by rewrite list_fmap_id, join_split_chars, implode_explode.
Qed.

Definition sep_free (s : string) : Prop := sep ∉ explode s.

Lemma segments_free p : Forall sep_free (segments p).
Proof.
  unfold segments, split_on. apply Forall_fmap, Forall_forall. intros l Hl. unfold compose, sep_free.
  rewrite explode_implode. by eapply split_chars_free.
Qed.

Lemma segments_join segs :
  segs ≠ [] → Forall sep_free segs → segments (join_with sep segs) = segs.
Proof.
  intros Hne Hf. unfold segments, split_on, join_with. rewrite explode_implode, split_join_chars.
  - rewrite <-list_fmap_compose. rewrite (list_fmap_ext _ id); [apply list_fmap_id|].
    intros; apply implode_explode.
  - by intros ?%fmap_nil_inv.
  - by apply Forall_fmap.
Qed.

Lemma segments_single s : sep_free s → segments s = [s].
Proof.
  intros Hs. unfold segments, split_on. rewrite split_chars_single by done. simpl.
  by rewrite implode_explode.
Qed.

Lemma segments_app p q : segments (p +:+ "/" +:+ q) = segments p ++ segments q.
Proof.
  unfold segments, split_on. rewrite !explode_app, <-fmap_app. f_equal. apply split_chars_app.
Qed.

Lemma has_root_cons p : has_root p = true ↔ ∃ r, p = "/" +:+ r.
Proof. apply starts_with_spec. Qed.

Lemma segments_root r : segments ("/" +:+ r) = "" :: segments r.
Proof. apply (segments_app "" r). Qed.

(** A relative path starts with a segment that is not empty, unless it is the
    empty path itself. *)
Lemma segments_rel p s segs : has_root p = false → segments p = s :: segs → s = "" → p = "".
Proof.
  intros Hr Hs ->. destruct segs as [|t segs].
  - rewrite <-(join_segments p), Hs. done.
  - exfalso. assert (has_root p = true) as Ht; [|congruence].
    rewrite <-(join_segments p), Hs. apply has_root_cons.
    exists (join_with sep (t :: segs)). unfold join_with. apply explode_inj.
    by rewrite explode_app, !explode_implode.
Qed.

(** ** Components *)
Definition lead (segs : list string) : list component :=
  match segs with "." :: _ => [CurDir] | _ => [] end.

Lemma components_rel p :
  has_root p = false → components p = lead (segments p) ++ omap component_of (segments p).
Proof. intros H. unfold components. by rewrite H. Qed.

Lemma components_abs p :
  has_root p = true → components p = RootDir :: omap component_of (segments p).
Proof. intros H. unfold components. by rewrite H. Qed.

Lemma lead_app s1 s2 : s1 ≠ [] → lead (s1 ++ s2) = lead s1.
Proof. by destruct s1. Qed.

Lemma component_of_junk s : component_of s = None ↔ is_junk s = true.
Proof.
  unfold component_of, is_junk. rewrite bool_decide_eq_true. repeat case_decide; naive_solver.
Qed.

Lemma has_root_app p q : p ≠ "" → has_root (p +:+ q) = has_root p.
Proof.
  intros Hp. destruct p as [|c p]; [done|].
  destruct (has_root (String c p)) eqn:Hr.
  - apply has_root_cons in Hr as [r Hr]. apply has_root_cons. exists (r +:+ q). by rewrite Hr.
  - apply not_true_is_false. intros [r Hq]%has_root_cons.
    assert (has_root (String c p) = true); [|congruence].
    apply has_root_cons. exists p. injection Hq as -> _. done.
Qed.

(** [join] with a relative path appends its components. *)
Lemma components_join p q :
  p ≠ "" → is_absolute q = false →
  components (join p q) = components p ++ omap component_of (segments q).
Proof.
  intros Hp Hq. unfold join. rewrite Hq, decide_False by done.
  assert (∀ p', (p' ≠ "" ∨ p = "/") → p' +:+ "/" = p ∨ p' = p →
            omap component_of (segments p') = omap component_of (segments p) →
            (p' = "" ∨ lead (segments p') = lead (segments p)) →
            components (p' +:+ "/" +:+ q) = components p ++ omap component_of (segments q)) as Hgen.
  { intros p' Hne Hor Hom Hld.
    assert (has_root (p' +:+ "/" +:+ q) = has_root p) as Hroot.
    { destruct (decide (p' = "")) as [->|].
      - assert (p = "/") as -> by (destruct Hor; naive_solver). done.
      - rewrite has_root_app by done. destruct Hor as [<-| ->]; [|done]. by rewrite has_root_app. }
    unfold components. rewrite Hroot, segments_app, omap_app, Hom. destruct (has_root p) eqn:Hr; [done|].
    destruct Hld as [->|Hld]; [assert (p = "/") as -> by (destruct Hor; naive_solver); done|].
    fold (lead (segments p' ++ segments q)). fold (lead (segments p)).
    rewrite lead_app by apply segments_nonempty. by rewrite Hld, (assoc_L (++)). }
  case_decide as Hl; [|apply Hgen; auto].
  apply last_Some in Hl as [l Hl].
  assert (p = implode l +:+ "/") as Heq.
  { apply explode_inj. by rewrite explode_app, explode_implode, Hl. }
  assert (segments p = segments (implode l) ++ [""]) as Hsp.
  { rewrite Heq. exact (segments_app (implode l) ""). }
  rewrite Heq at 1. replace ((implode l +:+ "/") +:+ q) with (implode l +:+ "/" +:+ q).
  2: { apply explode_inj. rewrite !explode_app. by rewrite <-(assoc_L (++)). }
  apply Hgen.
  - destruct (decide (implode l = "")) as [He|]; [right|by left]. by rewrite Heq, He.
  - by left.
  - rewrite Hsp, omap_app; simpl. by rewrite app_nil_r.
  - right. rewrite Hsp, lead_app by apply segments_nonempty. done.
Qed.

(** ** Parents *)
Lemma drop_junk_spec l :
  ∃ junk, l = junk ++ drop_junk l ∧ Forall (λ s, is_junk s = true) junk
    ∧ (∀ s, head (drop_junk l) = Some s → is_junk s = false).
Proof.
  induction l as [|s l (junk&Hl&Hj&Hh)]; [by exists []|]. simpl. destruct (is_junk s) eqn:Hs.
  - exists (s :: junk). split_and!; [simpl; by rewrite <-Hl|by constructor|done].
  - exists []. split_and!; [done|done|]. by intros ? [= <-].
Qed.

Lemma drop_junk_keep1_spec l :
  l ≠ [] →
  ∃ junk, l = junk ++ drop_junk_keep1 l ∧ Forall (λ s, is_junk s = true) junk
    ∧ drop_junk_keep1 l ≠ []
    ∧ ((length (drop_junk_keep1 l) = 1)%nat
       ∨ ∀ s, head (drop_junk_keep1 l) = Some s → is_junk s = false).
Proof.
  induction l as [|s l IH]; intros Hne; [done|]. destruct l as [|t l].
  - exists []. split_and!; try done. by left.
  - destruct (IH ltac:(done)) as (junk&Hl&Hj&Hn&Hh).
    change (drop_junk_keep1 (s :: t :: l))
      with (if is_junk s then drop_junk_keep1 (t :: l) else s :: t :: l).
    destruct (is_junk s) eqn:Hs.
    + exists (s :: junk). split_and!; [exact (f_equal (cons s) Hl)|by constructor|done|done].
    + exists []. split_and!; try done. right. by intros ? [= <-].
Qed.

Lemma omap_junk l : Forall (λ s, is_junk s = true) l → omap component_of l = [].
Proof.
  induction 1 as [|s l Hs _ IH]; simpl; [done|]. apply component_of_junk in Hs. by rewrite Hs.
Qed.

Lemma omap_reverse_junk junk l :
  Forall (λ s, is_junk s = true) junk →
  omap component_of (reverse (junk ++ l)) = omap component_of (reverse l).
Proof.
  intros Hj. rewrite reverse_app, omap_app, (omap_junk (reverse junk)), app_nil_r; [done|].
  by apply Forall_reverse.
Qed.

Lemma component_of_normal s name : component_of s = Some (Normal name) → s = name.
Proof. unfold component_of. repeat case_decide; naive_solver. Qed.

Lemma join_chars_app c ps qs :
  ps ≠ [] → qs ≠ [] → join_chars c (ps ++ qs) = join_chars c ps ++ c :: join_chars c qs.
Proof.
  induction ps as [|p [|r ps] IH]; intros Hp Hq; [done|by destruct qs|].
  change ((p :: r :: ps) ++ qs) with (p :: r :: (ps ++ qs)). rewrite !join_chars_cons.
  change (r :: ps ++ qs) with ((r :: ps) ++ qs). rewrite IH by done.
  by rewrite <-(assoc_L (++)).
Qed.

(** Joining a proper prefix of the segments is a proper prefix of the path. *)
Lemma join_with_prefix_length ps qs :
  ps ≠ [] → qs ≠ [] →
  (length (explode (join_with sep ps)) < length (explode (join_with sep (ps ++ qs))))%nat.
Proof.
  intros Hp Hq. unfold join_with. rewrite !explode_implode, fmap_app, join_chars_app.
  - rewrite length_app. simpl. lia.
  - by intros ?%fmap_nil_inv.
  - by intros ?%fmap_nil_inv.
Qed.

Lemma join_chars_length_elem c p ps : p ∈ ps → (length p ≤ length (join_chars c ps))%nat.
Proof.
  induction ps as [|q [|r ps] IH]; [set_solver|intros ->%list_elem_of_singleton; done|].
  rewrite join_chars_cons, length_app, elem_of_cons. cbn [length].
  intros [->|Hp]; [lia|]. apply IH in Hp. lia.
Qed.

Definition path_len (p : string) : nat := length (explode p).

Lemma reverse_eq_nil {A} (l : list A) : reverse l = [] → l = [].
Proof. intros H. by rewrite <-(reverse_involutive l), H. Qed.

Lemma join_rel_root segs s :
  head segs = Some s → s ≠ "" → sep_free s → has_root (join_with sep segs) = false.
Proof.
  destruct segs as [|s' segs]; intros [= ->] Hs Hf. apply not_true_is_false.
  intros [r Hr]%has_root_cons. apply (f_equal explode) in Hr.
  unfold join_with in Hr. rewrite explode_implode, explode_app in Hr.
  destruct (explode s) as [|c l] eqn:Hc; [by apply explode_nil in Hc|].
  unfold sep_free in Hf. rewrite Hc in Hf. apply Hf.
  assert (c = sep) as ->; [|constructor].
  rewrite fmap_cons, Hc in Hr. destruct (explode <$> segs); simpl in Hr; by injection Hr as -> _.
Qed.

(** The relative case. Counting from the end, the segments are junk, the file
    name, junk, and a rest that keeps the first segment. *)
Lemma parent_rel p name :
  has_root p = false → file_name p = Some name →
  ∃ q, parent p = Some q ∧ components p = components q ++ [Normal name]
     ∧ (path_len q < path_len p)%nat.
Proof.
  intros Hroot Hfn. unfold parent. rewrite Hroot.
  pose proof (segments_free p) as Hfree.
  assert (p ≠ "") as Hpne by (by intros ->).
  destruct (drop_junk_keep1_spec (reverse (segments p))) as (junk&Hl&Hj&Hn&Hh).
  { intros ?%reverse_eq_nil. by apply (segments_nonempty p). }
  set (rs := drop_junk_keep1 (reverse (segments p))) in *. clearbody rs.
  assert (segments p = reverse rs ++ reverse junk) as Hsegs.
  { by rewrite <-reverse_app, <-Hl, reverse_involutive. }
  unfold file_name in Hfn.
  rewrite components_rel, Hsegs, lead_app, omap_app, (omap_junk (reverse junk)), app_nil_r in *
    by (by apply Forall_reverse || by intros ?%reverse_eq_nil || done).
  destruct rs as [|s [|t l]]; [done| |].
  - cbn [reverse rev_append] in *. clear Hh. change (reverse [s]) with [s] in *.
    assert (component_of s = Some (Normal name)) as Hc.
    { destruct (decide (s = ".")) as [->|]; [done|]. destruct (lead [s]) eqn:Hld.
      - simpl in Hfn. destruct (component_of s) as [[]|]; naive_solver.
      - destruct (decide (s = ".")); [done|]. simpl in Hld. by repeat case_match. }
    rewrite decide_False by (by intros ->). eexists. split; [done|]. split.
    + assert (lead [s] = []) as -> by (simpl; repeat case_match; naive_solver).
      simpl. by rewrite Hc.
    + unfold path_len. rewrite <-(join_segments p), Hsegs. unfold join_with. rewrite explode_implode.
      rewrite fmap_app. destruct s as [|c s]; [done|]. simpl.
      destruct (explode <$> reverse junk); simpl; lia.
  - assert (is_junk s = false) as Hs by (destruct Hh as [?|Hh]; [done|by apply Hh]).
    destruct (drop_junk_keep1_spec (t :: l)) as (junk2&Hl2&Hj2&Hn2&_); [done|].
    set (rest := drop_junk_keep1 (t :: l)) in *. clearbody rest.
    assert (reverse (s :: t :: l) = reverse rest ++ reverse junk2 ++ [s]) as Hrev.
    { rewrite reverse_cons, Hl2, reverse_app. by rewrite (assoc_L (++)). }
    assert (reverse rest ≠ []) as Hrn by (by intros ?%reverse_eq_nil).
    rewrite Hrev in *. eexists. split; [reflexivity|]. split.
    + rewrite lead_app, !omap_app, (omap_junk (reverse junk2)) by (done || by apply Forall_reverse).
      rewrite lead_app, !omap_app, (omap_junk (reverse junk2)) in Hfn
        by (done || by apply Forall_reverse).
      simpl in *. destruct (component_of s) as [c|] eqn:Hc;
        [|apply component_of_junk in Hc; congruence].
      rewrite app_assoc, last_snoc in Hfn. destruct c; simplify_eq.
      rewrite app_assoc. f_equal. symmetry.
      assert (Forall sep_free (reverse rest)) as Hfr.
      { rewrite !Forall_app in Hfree. naive_solver. }
      destruct (reverse rest) as [|s0 rr] eqn:Hrr; [done|].
      rewrite components_rel; [by rewrite segments_join|].
      apply (join_rel_root _ s0); [done| |by inv Hfr].
      intros Hs0. eapply Hpne, (segments_rel p s0 _ Hroot); [exact Hsegs|done].
    + unfold path_len. rewrite <-(join_segments p), Hsegs, <-!(assoc_L (++)).
      apply join_with_prefix_length; [done|]. by destruct (reverse junk2).
Qed.

Lemma segments_abs p : has_root p = true → ∃ r, p = "/" +:+ r ∧ segments p = "" :: segments r.
Proof. intros [r ->]%has_root_cons. exists r. split; [done|apply segments_root]. Qed.

Lemma components_root_join segs :
  Forall sep_free segs →
  components ("/" +:+ join_with sep segs) = RootDir :: omap component_of segs.
Proof.
  intros Hf. rewrite components_abs, segments_root by done. simpl. f_equal.
  destruct segs as [|s segs]; [done|]. by rewrite segments_join.
Qed.

Lemma parent_abs p name :
  has_root p = true → file_name p = Some name →
  ∃ q, parent p = Some q ∧ components p = components q ++ [Normal name]
     ∧ (path_len q < path_len p)%nat ∧ has_root q = true.
Proof.
  intros Hroot Hfn. destruct (segments_abs p Hroot) as (r&Hp&Hsp).
  unfold parent. rewrite Hroot, Hsp. cbn [tail].
  pose proof (segments_free r) as Hfree.
  destruct (drop_junk_spec (reverse (segments r))) as (junk&Hl&Hj&Hh).
  set (rs := drop_junk (reverse (segments r))) in *. clearbody rs.
  assert (segments r = reverse rs ++ reverse junk) as Hsegs.
  { by rewrite <-reverse_app, <-Hl, reverse_involutive. }
  unfold file_name in Hfn. rewrite components_abs, Hsp in * by done. simpl in *.
  rewrite Hsegs, omap_app, (omap_junk (reverse junk)), app_nil_r in * by (by apply Forall_reverse).
  destruct rs as [|s l]; [done|].
  destruct (drop_junk_spec l) as (junk2&Hl2&Hj2&_).
  set (rest := drop_junk l) in *. clearbody rest.
  assert (reverse (s :: l) = reverse rest ++ reverse junk2 ++ [s]) as Hrev.
  { rewrite reverse_cons, Hl2, reverse_app. by rewrite (assoc_L (++)). }
  rewrite Hrev in *. eexists. split; [reflexivity|].
  assert (is_junk s = false) as Hs by (by apply Hh).
  rewrite !omap_app, (omap_junk (reverse junk2)) in * by (by apply Forall_reverse).
  assert (Forall sep_free (reverse rest)) as Hfr by (rewrite !Forall_app in Hfree; naive_solver).
  split_and!; [|..|done].
  - rewrite components_root_join by done. simpl in *.
    destruct (component_of s) as [c|] eqn:Hc; [|apply component_of_junk in Hc; congruence].
    rewrite app_comm_cons, last_snoc in Hfn. by destruct c; simplify_eq.
  - unfold path_len. rewrite Hp, !explode_app, !length_app. apply Nat.add_lt_mono_l.
    rewrite <-(join_segments r), Hsegs, <-!(assoc_L (++)).
    destruct (reverse rest) as [|s0 rr].
    + unfold join_with. rewrite !explode_implode. simpl.
      assert (0 < length (explode s))%nat by (destruct s; [done|simpl; lia]).
      eapply Nat.lt_le_trans; [done|]. apply join_chars_length_elem.
      apply list_elem_of_fmap_2. set_solver.
    + apply join_with_prefix_length; [done|]. by destruct (reverse junk2).
Qed.

(** The parent of a path with a file name drops that name. *)
Lemma parent_spec p name :
  file_name p = Some name →
  ∃ q, parent p = Some q ∧ components p = components q ++ [Normal name]
     ∧ (path_len q < path_len p)%nat ∧ has_root q = has_root p.
Proof.
  intros Hfn. destruct (has_root p) eqn:Hr.
  - by apply parent_abs.
  - destruct (parent_rel p name Hr Hfn) as (q&Hq&Hc&Hlen). exists q. split_and!; try done.
    rewrite components_rel in Hc by done.
    destruct (has_root q) eqn:Hrq; [|done]. rewrite (components_abs q) in Hc by done.
    exfalso. simpl in Hc. assert (RootDir ∈ lead (segments p) ++ omap component_of (segments p)) as Hin
      by (rewrite Hc; constructor).
    apply elem_of_app in Hin as [Hin|(s&_&Hs)%list_elem_of_omap].
    + unfold lead in Hin. repeat case_match; set_solver.
    + unfold component_of in Hs. repeat case_decide; simplify_eq.
Qed.

(** A single clean name, as [file_name] returns it. *)
Definition plain_name (s : string) : Prop :=
  s ≠ "" ∧ s ≠ "." ∧ s ≠ ".." ∧ sep_free s.

Lemma plain_segments s : plain_name s → omap component_of (segments s) = [Normal s].
Proof.
  intros (?&?&?&Hf). rewrite segments_single by done. simpl. unfold component_of.
  by rewrite !decide_False.
Qed.

Lemma plain_relative s : plain_name s → is_absolute s = false.
Proof.
  intros (?&?&?&Hf). unfold is_absolute. apply not_true_is_false. intros [r ->]%has_root_cons.
  apply Hf. rewrite explode_app. apply elem_of_app. left. constructor.
Qed.

Lemma components_join_plain p s :
  p ≠ "" → plain_name s → components (join p s) = components p ++ [Normal s].
Proof. intros Hp Hs. rewrite components_join, plain_segments; auto using plain_relative. Qed.

Lemma file_name_plain p name : file_name p = Some name → plain_name name.
Proof.
  unfold file_name. destruct (last (components p)) as [[| | |s]|] eqn:Hl; try done.
  intros [= ->]. apply last_Some_elem_of in Hl. unfold components in Hl.
  apply elem_of_app in Hl as [Hl|(seg&Hs&Hc)%list_elem_of_omap].
  { destruct (has_root p); [set_solver|]. fold (lead (segments p)) in Hl.
    unfold lead in Hl. repeat case_match; set_solver. }
  pose proof (segments_free p) as Hf. rewrite Forall_forall in Hf.
  unfold component_of in Hc. repeat case_decide; simplify_eq. split_and!; auto.
Qed.

(** A path is absolute exactly when the root is one of its components. *)
Lemma has_root_components p : has_root p = true ↔ RootDir ∈ components p.
Proof.
  split; [intros; rewrite components_abs by done; constructor|].
  intros Hin. destruct (has_root p) eqn:Hr; [done|]. rewrite components_rel in Hin by done.
  apply elem_of_app in Hin as [Hin|(s&_&Hs)%list_elem_of_omap].
  - unfold lead in Hin. repeat case_match; set_solver.
  - unfold component_of in Hs. repeat case_decide; simplify_eq.
Qed.
