(* ===== verification/VectorClock.v ===== *)
(** * Vector clocks ([disk-core/src/vector_clock.rs])

    A clock is a [BTreeMap<String, u64>]; iteration order never shows in the
    results, so it is a [gmap]. The module states the clock operations, the
    lattice the merge computes in, and what [compare] decides. *)

From stdpp Require Import prelude gmap strings.
From Stdlib Require Import ZArith Lia.
From S2P Require Import Prelude Text.

Abbreviation VectorClock := (gmap string Z).

Inductive Causality := Equal | Before | After | Concurrent.

#[global] Instance causality_eq_dec : EqDecision Causality.
Proof. solve_decision. Defined.

Module VC.

Definition new : VectorClock := ∅.

(** [entry(node).or_insert(0)], then a saturating increment. *)
Definition advance (node_id : string) (c : VectorClock) : VectorClock :=
  let entry := default 0 (c !! node_id) in
  <[node_id := u64_saturating_add entry 1]> c.

(** One iteration of the merge loop. *)
Definition merge_entry (k : string) (v : Z) (c : VectorClock) : VectorClock :=
  let slot := default 0 (c !! k) in
  <[k := if bool_decide (slot < v) then v else slot]> c.

Definition merge (self other : VectorClock) : VectorClock :=
  map_fold merge_entry self other.

Definition get (c : VectorClock) (node_id : string) : Z := default 0 (c !! node_id).

(** The loop body of [compare] over the flags [(self_lt_other, other_lt_self)]. *)
Definition compare_step (self other : VectorClock) (flags : bool * bool) (k : string)
    : bool * bool :=
  let a := get self k in
  let b := get other k in
  if bool_decide (a < b) then (true, flags.2)
  else if bool_decide (b < a) then (flags.1, true)
  else flags.

Definition compare (self other : VectorClock) : Causality :=
  let keys : gset string := dom self ∪ dom other in
  match foldl (compare_step self other) (false, false) (elements keys) with
  | (false, false) => Equal
  | (true, false) => Before
  | (false, true) => After
  | (true, true) => Concurrent
  end.

Definition happens_before (self other : VectorClock) : bool :=
  bool_decide (compare self other = Before).

(** Well-formed clocks hold [u64] counters. *)
Definition wf (c : VectorClock) : Prop := map_Forall (λ _ v, in_u64 v) c.

(** ** Pointwise view *)

(** The causal order the clocks stand for. *)
Definition leq (a b : VectorClock) : Prop := ∀ k, get a k ≤ get b k.

Lemma get_wf c k : wf c → in_u64 (get c k).
Proof.
  intros Hc. unfold get. destruct (c !! k) eqn:H; simpl.
  - by eapply Hc.
  - unfold_ints. lia.
Qed.

Lemma get_insert c k v k' : get (<[k := v]> c) k' = if decide (k = k') then v else get c k'.
Proof. unfold get. rewrite lookup_insert. by case_decide. Qed.

Lemma get_advance c n k :
  get (advance n c) k = if decide (n = k) then u64_saturating_add (get c k) 1 else get c k.
Proof. unfold advance. rewrite get_insert. case_decide; by subst. Qed.

Lemma merge_lookup a b k :
  merge a b !! k =
  match a !! k, b !! k with
  | None, None => None
  | x, None => x
  | x, Some v => Some (Z.max (default 0 x) v)
  end.
Proof.
  unfold merge. revert k.
  apply (map_fold_weak_ind (λ r b, ∀ k, r !! k =
    match a !! k, b !! k with
    | None, None => None | x, None => x | x, Some v => Some (Z.max (default 0 x) v) end)).
  - intros k. rewrite lookup_empty. by destruct (a !! k).
  - intros i v m r Hi IH k. unfold merge_entry.
    destruct (decide (i = k)) as [<-|Hne].
    + rewrite !lookup_insert_eq, IH, Hi. destruct (a !! i); simpl; crush.
    + by rewrite !lookup_insert_ne, IH.
Qed.

Lemma get_merge a b k : wf a → wf b → get (merge a b) k = Z.max (get a k) (get b k).
Proof.
  intros Ha Hb. unfold get. rewrite merge_lookup.
  pose proof (get_wf _ k Ha) as Hak. pose proof (get_wf _ k Hb) as Hbk.
  unfold get in *. unfold_ints.
  destruct (a !! k), (b !! k); simpl in *; lia.
Qed.

Lemma wf_insert c k v : wf c → in_u64 v → wf (<[k := v]> c).
Proof. intros. by apply map_Forall_insert_2. Qed.

(** Both mutators keep the counters inside [u64]. *)
Lemma advance_wf c n : wf c → wf (advance n c).
Proof.
  intros Hc. apply wf_insert; [done|]. pose proof (get_wf c n Hc).
  unfold get in *. unfold_ints. lia.
Qed.

Lemma merge_wf a b : wf a → wf b → wf (merge a b).
Proof.
  intros Ha Hb k v. rewrite merge_lookup.
  pose proof (get_wf _ k Ha) as Hak. unfold get in Hak.
  destruct (a !! k) eqn:?, (b !! k) eqn:Hbk; intros [= <-]; simpl in *; try done.
  all: pose proof (Hb _ _ Hbk); simpl in *; unfold_ints; lia.
Qed.

#[global] Instance leq_preorder : PreOrder leq.
Proof. split; [intros ??; lia|]. intros a b c H1 H2 k. specialize (H1 k). specialize (H2 k). lia. Qed.

(** ** What [compare] decides *)

Lemma compare_fold a b ks f1 f2 :
  foldl (compare_step a b) (f1, f2) ks =
    (f1 || existsb (λ k, bool_decide (get a k < get b k)) ks,
     f2 || existsb (λ k, bool_decide (get b k < get a k)) ks).
Proof.
  revert f1 f2. induction ks as [|k ks IH]; intros f1 f2; simpl.
  - by rewrite !orb_false_r.
  - unfold compare_step at 2; simpl.
    repeat case_bool_decide; try lia; rewrite IH; simpl; f_equal; by destruct f1, f2.
Qed.

(** A key with a non-zero counter is a key of the map: quantifying over the
    loop's keys is quantifying over all keys. *)
Lemma exists_lt_keys a b (ks : gset string) :
  wf a → wf b → dom b ⊆ ks →
  existsb (λ k, bool_decide (get a k < get b k)) (elements ks) = true ↔ ¬ leq b a.
Proof.
  intros Ha Hb Hks. rewrite existsb_exists. split.
  - intros (k&_&Hlt%bool_decide_eq_true) Hle. specialize (Hle k). lia.
  - intros Hn.
    destruct (decide (Exists (λ k, get a k < get b k) (elements ks))) as [Hex|Hex].
    { apply Exists_exists in Hex as (k&Hk&Hlt). exists k.
      rewrite <-list_elem_of_In, bool_decide_eq_true. done. }
    destruct Hn. intros k. destruct (decide (get b k ≤ get a k)) as [|Hgt]; [done|].
    destruct Hex. apply Exists_exists. exists k. split; [|lia].
    apply elem_of_elements, Hks, elem_of_dom.
    pose proof (get_wf a k Ha) as Hwf. unfold get, in_u64 in *.
    destruct (b !! k); simpl in *; [done|lia].
Qed.

Lemma compare_flags a b :
  wf a → wf b →
  ∃ f1 f2, compare a b = match (f1, f2) with
      | (false, false) => Equal | (true, false) => Before
      | (false, true) => After | (true, true) => Concurrent end
    ∧ (f1 = true ↔ ¬ leq b a) ∧ (f2 = true ↔ ¬ leq a b).
Proof.
  intros Ha Hb. unfold compare. rewrite compare_fold. simpl. do 2 eexists.
  split; [reflexivity|]. rewrite !exists_lt_keys by (done || set_solver). done.
Qed.

#[global] Instance leq_dec a b : wf a → wf b → Decision (leq a b).
Proof.
  intros Ha Hb.
  destruct (existsb (λ k, bool_decide (get b k < get a k)) (elements (dom a))) eqn:E.
  - right. by apply exists_lt_keys in E.
  - left. intros k. destruct (decide (get a k ≤ get b k)) as [|Hgt]; [done|]. exfalso.
    assert (existsb (λ k, bool_decide (get b k < get a k)) (elements (dom a)) = true); [|congruence].
    apply exists_lt_keys; [done..|]. intros H. specialize (H k). lia.
Defined.

Lemma compare_cases a b :
  wf a → wf b →
  match compare a b with
  | Equal => leq a b ∧ leq b a
  | Before => leq a b ∧ ¬ leq b a
  | After => ¬ leq a b ∧ leq b a
  | Concurrent => ¬ leq a b ∧ ¬ leq b a
  end.
Proof.
  intros Ha Hb. destruct (compare_flags a b Ha Hb) as (f1&f2&->&H1&H2).
  assert (f1 = false → leq b a) as H1'
    by (intros ->; apply (@dec_stable _ (leq_dec b a Hb Ha)); naive_solver).
  assert (f2 = false → leq a b) as H2'
    by (intros ->; apply (@dec_stable _ (leq_dec a b Ha Hb)); naive_solver).
  destruct f1, f2; naive_solver.
Qed.

Ltac by_cases a b :=
  let H := fresh in
  pose proof (compare_cases a b) as H; destruct (compare a b); naive_solver.

Lemma compare_before a b : wf a → wf b → leq a b → ¬ leq b a → compare a b = Before.
Proof. by_cases a b. Qed.
Lemma compare_equal a b : wf a → wf b → leq a b → leq b a → compare a b = Equal.
Proof. by_cases a b. Qed.

(** The answer seen from the other side. *)
Definition flip (c : Causality) : Causality :=
  match c with Equal => Equal | Before => After | After => Before | Concurrent => Concurrent end.

Lemma compare_flip a b : wf a → wf b → compare b a = flip (compare a b).
Proof.
  intros Ha Hb. pose proof (compare_cases a b Ha Hb). pose proof (compare_cases b a Hb Ha).
  destruct (compare a b), (compare b a); naive_solver.
Qed.

(** ** Properties *)

(** [compare] decides the causal order exactly. For clocks holding [u64]
    counters its four answers are the four possible relations between the
    clocks read pointwise, a missing node counting as zero, and comparing the
    other way round gives the mirrored answer. *)
Theorem compare_spec a b (Ha : wf a) (Hb : wf b) :
  (compare a b = Equal ↔ leq a b ∧ leq b a)
  ∧ (compare a b = Before ↔ leq a b ∧ ¬ leq b a)
  ∧ (compare a b = After ↔ leq b a ∧ ¬ leq a b)
  ∧ (compare a b = Concurrent ↔ ¬ leq a b ∧ ¬ leq b a)
  ∧ compare b a = flip (compare a b).
Proof.
  pose proof (compare_flip a b Ha Hb). pose proof (compare_cases a b Ha Hb).
  destruct (compare a b); naive_solver.
Qed.

Definition clock_ab : VectorClock := {["n1" := 2; "n2" := 1]}.
Definition clock_ba : VectorClock := {["n1" := 1; "n2" := 2]}.

Lemma wf_of_check c : forallb (λ kv, bool_decide (0 ≤ kv.2 ≤ u64_max)) (map_to_list c) = true → wf c.
Proof.
  intros H k v Hkv. rewrite forallb_forall in H. specialize (H (k, v)).
  rewrite <-list_elem_of_In, elem_of_map_to_list in H.
  by apply H, bool_decide_eq_true in Hkv.
Qed.

Lemma compare_spec_witness :
  compare clock_ab clock_ba = Concurrent ∧ ¬ leq clock_ab clock_ba ∧ ¬ leq clock_ba clock_ab.
Proof.
  assert (wf clock_ab) as Ha by (apply wf_of_check; vm_compute; reflexivity).
  assert (wf clock_ba) as Hb by (apply wf_of_check; vm_compute; reflexivity).
  split; [vm_compute; reflexivity|].
  apply (compare_spec clock_ab clock_ba Ha Hb). vm_compute. reflexivity.
Defined.

(** [merge] is the least upper bound of the causal order, and as an
    operation on the stored maps it is idempotent, commutative and
    associative: replicas that exchange clocks in any order and any number of
    times end with the same map. *)
Theorem merge_join a b c (Ha : wf a) (Hb : wf b) (Hc : wf c) :
  (leq a (merge a b) ∧ leq b (merge a b))
  ∧ (leq a c → leq b c → leq (merge a b) c)
  ∧ merge a a = a
  ∧ merge a b = merge b a
  ∧ merge a (merge b c) = merge (merge a b) c.
Proof.
  split; [split; intros k; rewrite get_merge by done; lia|].
  split. { intros H1 H2 k. rewrite get_merge by done. specialize (H1 k). specialize (H2 k). lia. }
  assert (∀ m k v, wf m → m !! k = Some v → 0 ≤ v) as Hpos.
  { intros m k v Hm Hk. apply (Hm _ _ Hk). }
  split_and!; apply map_eq; intros k; rewrite !merge_lookup;
    destruct (a !! k) eqn:Hka, (b !! k) eqn:Hkb, (c !! k) eqn:Hkc; simpl; try done;
    repeat match goal with
      | H : ?m !! k = Some ?v |- _ => pose proof (Hpos m k v ltac:(done) H); clear H
      end; f_equal; lia.
Qed.

Lemma merge_join_witness :
  merge clock_ab clock_ba = merge clock_ba clock_ab ∧ leq clock_ab (merge clock_ab clock_ba).
Proof.
  assert (wf clock_ab) as Ha by (apply wf_of_check; vm_compute; reflexivity).
  assert (wf clock_ba) as Hb by (apply wf_of_check; vm_compute; reflexivity).
  destruct (merge_join clock_ab clock_ba ∅ Ha Hb) as ([H1 _]&_&_&H2&_);
    [apply map_Forall_empty|]. exact (conj H2 H1).
Defined.

(** [advance] makes a clock strictly later than it was, for every other
    observer too, until the [u64] counter saturates; at saturation the clock is
    unchanged in the causal order, never earlier. *)
Theorem advance_later c n (Hc : wf c) :
  wf (advance n c)
  ∧ (get c n < u64_max → compare c (advance n c) = Before ∧ happens_before c (advance n c) = true)
  ∧ (get c n = u64_max → compare c (advance n c) = Equal).
Proof.
  pose proof (advance_wf c n Hc) as Hw.
  assert (leq c (advance n c)) as Hle.
  { intros k. rewrite get_advance. pose proof (get_wf c k Hc). unfold_ints. case_decide; lia. }
  split_and!; [done| |].
  - intros Hlt. assert (compare c (advance n c) = Before) as Hb.
    { apply compare_before; try done. intros H. specialize (H n).
      rewrite get_advance, decide_True in H by done. unfold_ints. lia. }
    split; [done|]. unfold happens_before. by apply bool_decide_eq_true.
  - intros Heq. apply compare_equal; try done. intros k. rewrite get_advance.
    unfold_ints. case_decide; subst; lia.
Qed.

Lemma advance_later_witness :
  compare clock_ab (advance "n2" clock_ab) = Before.
Proof.
  assert (wf clock_ab) as Ha by (apply wf_of_check; vm_compute; reflexivity).
  apply (advance_later clock_ab "n2" Ha). vm_compute. reflexivity.
Defined.

End VC.
