(* ===== verification/Types.v ===== *)
(** * Core value types ([disk-core/src/types.rs], [tombstone.rs], [error.rs])

    The records and enumerations the components exchange, with the source's
    field names inside a module per type. *)

From stdpp Require Import prelude gmap strings.
From Stdlib Require Import ZArith Lia.
From S2P Require Import Prelude Text VectorClock.

(** Snapshot of one file as recorded by the scanner or the metadata store. *)
Module FileMeta.
Record t := mk {
  path : string;
  content_hash : bytes;
  size : Z;
  mtime_ns : Z;
  inode : option Z;
  vector_clock : VectorClock;
  deleted : bool;
  deleted_at : option Z;
  node_id : string;
  encryption_nonce : option bytes;
  version_id : option Z;
  parent_version_id : option Z
}.

#[global] Instance eq_dec : EqDecision t.
Proof. solve_decision. Defined.

(** The field types of the source: [u64]/[i64] ranges and the digest length. *)
Definition wf (m : t) : Prop :=
  hash32 (content_hash m) ∧ in_u64 (size m) ∧ in_i64 (mtime_ns m)
  ∧ (∀ i, inode m = Some i → in_u64 i)
  ∧ VC.wf (vector_clock m)
  ∧ (∀ d, deleted_at m = Some d → in_i64 d)
  ∧ (∀ v, version_id m = Some v → in_u64 v)
  ∧ (∀ v, parent_version_id m = Some v → in_u64 v).

(** [FileMeta { deleted, deleted_at, ..m.clone() }]. *)
Definition set_deleted (d : bool) (at_ : option Z) (m : t) : t :=
  mk (path m) (content_hash m) (size m) (mtime_ns m) (inode m) (vector_clock m)
     d at_ (node_id m) (encryption_nonce m) (version_id m) (parent_version_id m).
End FileMeta.
Abbreviation FileMeta := FileMeta.t.

Inductive ActionType :=
  | Skip
  | Upload
  | Download
  | DeleteLocal
  | DeleteRemote
  | ConflictFork
  | ConflictMerge
  | RenameRemote
  | RenameLocal.

#[global] Instance action_type_eq_dec : EqDecision ActionType.
Proof. solve_decision. Defined.

Inductive ConflictKind :=
  | KConcurrent
  | ModifiedDeleted
  | RenameRename
  | DirDeleteChildModify.

#[global] Instance conflict_kind_eq_dec : EqDecision ConflictKind.
Proof. solve_decision. Defined.

Module ConflictReport.
Record t := mk {
  kind : ConflictKind;
  local_hash : option bytes;
  remote_hash : option bytes;
  base_hash : option bytes
}.
#[global] Instance eq_dec : EqDecision t.
Proof. solve_decision. Defined.
End ConflictReport.
Abbreviation ConflictReport := ConflictReport.t.

Module SyncAction.
Record t := mk {
  path : string;
  action : ActionType;
  server_version : option FileMeta;
  conflict : option ConflictReport;
  rename_to : option string
}.
#[global] Instance eq_dec : EqDecision t.
Proof. solve_decision. Defined.
End SyncAction.
Abbreviation SyncAction := SyncAction.t.

Module RenamePair.
Record t := mk {
  from : string;
  to : string;
  inode : Z;
  content_hash : bytes
}.
#[global] Instance eq_dec : EqDecision t.
Proof. solve_decision. Defined.
End RenamePair.
Abbreviation RenamePair := RenamePair.t.

(** Persisted conflict row. *)
Module ConflictRecord.
Record t := mk {
  id : option Z;
  vault_id : string;
  path : string;
  conflict_type : string;
  local_hash : option bytes;
  remote_hash : option bytes;
  base_hash : option bytes;
  resolution : option string;
  fork_path : option string;
  resolved : bool;
  created_at : Z;
  resolved_at : option Z
}.
End ConflictRecord.
Abbreviation ConflictRecord := ConflictRecord.t.

(** [ReconcileError]. *)
Inductive ReconcileError := Inconsistent (path reason : string).

(** [MetaDbError]; the payload of a driver error is the violated constraint. *)
Inductive MetaDbError :=
  | Sqlx (msg : string)
  | Serde (msg : string)
  | Invalid (msg : string).

(** ** Tombstones *)
Module Tombstone.
Record t := mk {
  path : string;
  last_hash : bytes;
  deleted_by : string;
  deleted_at : Z;
  ttl_expires : Z;
  propagated : bool
}.

Definition DEFAULT_TTL_SECS : Z := 30 * 24 * 60 * 60.

Definition new (path : string) (last_hash : bytes) (deleted_by : string)
    (deleted_at ttl_secs : Z) : t :=
  mk path last_hash deleted_by deleted_at
     (i64_saturating_add deleted_at (as_i64 ttl_secs)) false.

Definition is_expired (self : t) (now : Z) : bool := bool_decide (ttl_expires self ≤ now).

(** A tombstone whose TTL fits an [i64] lives exactly [ttl_secs] seconds, and
    one whose expiry saturates never expires before the end of time. *)
Lemma is_expired_new p h by_ at_ ttl now :
  in_i64 at_ → 0 ≤ ttl ≤ i64_max → in_i64 now →
  is_expired (new p h by_ at_ ttl) now = true ↔
    at_ + ttl ≤ now ∨ (i64_max < at_ + ttl ∧ now = i64_max).
Proof.
  intros ? ? ?. unfold is_expired, new; simpl. rewrite as_i64_id by (unfold_ints; lia).
  rewrite bool_decide_eq_true. unfold_ints. lia.
Qed.
End Tombstone.
Abbreviation Tombstone := Tombstone.t.
