(* ===== verification/Reconciler.v ===== *)
(** * Reconciliation engine ([disk-core/src/reconciler/])

    [triple.rs] indexes the three snapshots by path; [tree.rs] decides one
    action per path with a cascade of guards and then turns matching
    upload/delete pairs into renames. The cascade is proved equal to a decision
    table over the states of the three sides, from which its totality and
    its safety follow. *)

From stdpp Require Import prelude gmap strings sorting.
From Stdlib Require Import ZArith Lia Strings.Byte.
From S2P Require Import Prelude Text VectorClock Types.

Module Triple.

(** [HashMap<PathBuf, &FileMeta>]: keyed by the path's components, keeping
    the first spelling of the key, the last value wins. *)
Abbreviation index := (gmap (list Path.component) (string * FileMeta)).

Definition index_insert (m : index) (f : FileMeta) : index :=
  let k := Path.components (FileMeta.path f) in
  <[k := (match m !! k with Some (p, _) => p | None => FileMeta.path f end, f)]> m.

Definition index_by_path (items : list FileMeta) : index := foldl index_insert ∅ items.

Definition get (m : index) (p : string) : option FileMeta := snd <$> m !! Path.components p.

Definition keys (m : index) : list string := (λ kv, kv.2.1) <$> map_to_list m.

(** [BTreeSet<PathBuf>::insert]: an equal path already in the set is kept. *)
Fixpoint btree_insert (p : string) (s : list string) : list string :=
  match s with
  | [] => [p]
  | q :: s' =>
      if Path.path_ltb p q then p :: s
      else if Path.path_ltb q p then q :: btree_insert p s'
      else s
  end.

Definition btree_extend (s : list string) (ps : list string) : list string :=
  foldl (λ s p, btree_insert p s) s ps.

Definition union_paths (local remote indexed : index) : list string :=
  btree_extend (btree_extend (btree_extend [] (keys local)) (keys remote)) (keys indexed).

End Triple.

Module Tree.
Import FileMeta.

Definition hashes_eq (a b : option FileMeta) : bool :=
  match a, b with
  | Some x, Some y => bool_decide (content_hash x = content_hash y)
  | _, _ => false
  end.

Definition clock_compare (a b : option FileMeta) : Causality :=
  match a, b with
  | Some x, Some y => VC.compare (vector_clock x) (vector_clock y)
  | _, _ => Concurrent
  end.

Definition bool_str (b : bool) : string := if b then "true" else "false".

Definition is_none {A} (o : option A) : bool := match o with None => true | Some _ => false end.

(** The two closures of [resolve_one]. *)
Definition make (path : string) (remote : option FileMeta) (action : ActionType) : SyncAction :=
  SyncAction.mk path action remote None None.

Definition make_with_conflict (path : string) (local remote indexed : option FileMeta)
    (action : ActionType) (kind : ConflictKind) : SyncAction :=
  SyncAction.mk path action remote
    (Some (ConflictReport.mk kind (content_hash <$> local) (content_hash <$> remote)
             (content_hash <$> indexed)))
    None.

Definition resolve_one (path : string) (local remote indexed : option FileMeta)
    : result SyncAction ReconcileError :=
  let l_present := default false ((λ m, negb (deleted m)) <$> local) in
  let l_tomb := default false (deleted <$> local) in
  let r_present := default false ((λ m, negb (deleted m)) <$> remote) in
  let r_tomb := default false (deleted <$> remote) in
  let i_present := default false ((λ m, negb (deleted m)) <$> indexed) in
  let i_tomb := default false (deleted <$> indexed) in
  let mk := make path remote in
  let mkc := make_with_conflict path local remote indexed in
  (* scenarios 1-2 *)
  if l_present && is_none remote && is_none indexed then Ok (mk Upload)
  else if is_none local && r_present && is_none indexed then Ok (mk Download)
  (* scenarios 3-4 *)
  else if l_present && r_present && is_none indexed then
    if hashes_eq local remote then Ok (mk Skip) else Ok (mkc ConflictFork KConcurrent)
  (* scenarios 5-8 *)
  else if l_present && r_present && i_present then
    let l_changed := negb (hashes_eq local indexed) in
    let r_changed := negb (hashes_eq remote indexed) in
    match l_changed, r_changed with
    | false, false => Ok (mk Skip)
    | true, false => Ok (mk Upload)
    | false, true => Ok (mk Download)
    | true, true =>
        if hashes_eq local remote then Ok (mk Skip)
        else match clock_compare local remote with
             | Before => Ok (mk Download)
             | After => Ok (mk Upload)
             | Equal | Concurrent => Ok (mkc ConflictFork KConcurrent)
             end
    end
  (* scenarios 9-13 *)
  else if l_tomb && r_present && i_present then
    if hashes_eq remote indexed then Ok (mk DeleteRemote)
    else Ok (mkc Download ModifiedDeleted)
  else if l_present && r_tomb && i_present then
    if hashes_eq local indexed then Ok (mk DeleteLocal)
    else Ok (mkc Upload ModifiedDeleted)
  else if l_tomb && r_tomb then Ok (mk Skip)
  (* scenarios 24-26 *)
  else if l_present && is_none remote && i_tomb then
    if hashes_eq local indexed then Ok (mk Skip) else Ok (mk Upload)
  else if is_none local && r_present && i_tomb then Ok (mk Download)
  (* scenario 35 *)
  else if l_present && r_present && i_tomb then
    if hashes_eq local remote then Ok (mk Skip) else Ok (mkc Download ModifiedDeleted)
  (* scenarios 36-39 *)
  else if l_present && r_tomb && is_none indexed then Ok (mkc Upload ModifiedDeleted)
  else if l_present && r_tomb && i_tomb then Ok (mkc Upload ModifiedDeleted)
  else if l_tomb && r_present && is_none indexed then Ok (mkc Download ModifiedDeleted)
  else if l_tomb && r_present && i_tomb then Ok (mk Download)
  (* tombstone on one side, nothing on the other *)
  else if is_none local && r_tomb then Ok (mk DeleteLocal)
  else if l_tomb && is_none remote && i_tomb then Ok (mk Skip)
  else if l_tomb && is_none remote then Ok (mk DeleteRemote)
  (* disappeared from both sides *)
  else if is_none local && is_none remote then Ok (mk Skip)
  (* scenario 27 *)
  else if l_present && is_none remote && i_present then
    if hashes_eq local indexed then Ok (mk DeleteLocal) else Ok (mkc Upload ModifiedDeleted)
  else if is_none local && r_present && i_present then
    if hashes_eq remote indexed then Ok (mk DeleteRemote) else Ok (mkc Download ModifiedDeleted)
  else Err (Inconsistent path
    ("unhandled triple state: l_present=" +:+ bool_str l_present +:+ " l_tomb=" +:+ bool_str l_tomb
     +:+ " r_present=" +:+ bool_str r_present +:+ " r_tomb=" +:+ bool_str r_tomb
     +:+ " i_present=" +:+ bool_str i_present +:+ " i_tomb=" +:+ bool_str i_tomb)).

(** ** Rename detection *)
Abbreviation rename_key := (Z * bytes)%type.

(** One step of the [enumerate] loop over the two index maps
    [(delete_remote_idx, upload_idx)]. *)
Definition rename_scan (local indexed : Triple.index)
    (maps : gmap rename_key nat * gmap rename_key nat) (ia : nat * SyncAction)
    : gmap rename_key nat * gmap rename_key nat :=
  let idx := ia.1 in
  let action := ia.2 in
  match SyncAction.action action with
  | DeleteRemote =>
      match Triple.get indexed (SyncAction.path action) with
      | Some prev =>
          match inode prev with
          | Some ino => (<[(ino, content_hash prev) := idx]> maps.1, maps.2)
          | None => maps
          end
      | None => maps
      end
  | Upload =>
      match Triple.get local (SyncAction.path action) with
      | Some now =>
          match inode now with
          | Some ino => (maps.1, <[(ino, content_hash now) := idx]> maps.2)
          | None => maps
          end
      | None => maps
      end
  | _ => maps
  end.

(** The rewrite of one [(upload, delete)] pair; both indices are in range. *)
Definition apply_rename (actions : list SyncAction) (pair : nat * nat) : list SyncAction :=
  let upload_idx := pair.1 in
  let delete_idx := pair.2 in
  match actions !! upload_idx, actions !! delete_idx with
  | Some up, Some del =>
      let renamed_to := SyncAction.path up in
      let renamed_from := SyncAction.path del in
      let actions :=
        <[upload_idx := SyncAction.mk renamed_from RenameRemote (SyncAction.server_version up)
                          (SyncAction.conflict up) (Some renamed_to)]> actions in
      alter (λ d, SyncAction.mk (SyncAction.path d) Skip (SyncAction.server_version d)
                    (SyncAction.conflict d) None) delete_idx actions
  | _, _ => actions
  end.

Definition rename_maps (local indexed : Triple.index) (actions : list SyncAction) :=
  foldl (rename_scan local indexed) (∅, ∅) (imap pair actions).

(** [upload_idx.iter().filter_map(..)]: the pairs with both an upload and a
    delete, in the map's iteration order. *)
Definition rename_pairs (local indexed : Triple.index) (actions : list SyncAction)
    : list (nat * nat) :=
  let maps := rename_maps local indexed actions in
  omap (λ kv : rename_key * nat, (λ d : nat, (kv.2, d)) <$> maps.1 !! kv.1) (map_to_list maps.2).

Definition detect_remote_renames (local indexed : Triple.index) (actions : list SyncAction)
    : list SyncAction :=
  foldl apply_rename actions (rename_pairs local indexed actions).

(** [ReconciliationEngine::reconcile]. *)
Definition reconcile (local remote indexed : list FileMeta)
    : result (list SyncAction) ReconcileError :=
  let local_idx := Triple.index_by_path local in
  let remote_idx := Triple.index_by_path remote in
  let indexed_idx := Triple.index_by_path indexed in
  let paths := Triple.union_paths local_idx remote_idx indexed_idx in
  actions <?- collect_results
    (λ p, resolve_one p (Triple.get local_idx p) (Triple.get remote_idx p)
            (Triple.get indexed_idx p)) paths ;;
  Ok (detect_remote_renames local_idx indexed_idx actions).

End Tree.

(** ** The conflict matrix as a table

    The specification of [resolve_one]: what each side knows of the path, and
    which contents agree, decide the action. *)
Module Matrix.
Import FileMeta.

Inductive side := Absent | Tomb | Live.

Definition side_of (o : option FileMeta) : side :=
  match o with None => Absent | Some m => if deleted m then Tomb else Live end.

Definition same_content (a b : option FileMeta) : Prop :=
  ∃ x y, a = Some x ∧ b = Some y ∧ content_hash x = content_hash y.

Definition table (l r i : side) (lr li ri : bool) (c : Causality)
    : ActionType * option ConflictKind :=
  match l, r, i with
  | Absent, Absent, _ => (Skip, None)
  | Tomb, Tomb, _ => (Skip, None)
  | Live, Absent, Absent => (Upload, None)
  | Absent, Live, Absent => (Download, None)
  | Live, Live, Absent => if lr then (Skip, None) else (ConflictFork, Some KConcurrent)
  | Live, Live, Live =>
      if lr then (Skip, None)
      else if ri then (Upload, None)
      else if li then (Download, None)
      else match c with
           | Before => (Download, None)
           | After => (Upload, None)
           | Equal | Concurrent => (ConflictFork, Some KConcurrent)
           end
  | Live, Live, Tomb => if lr then (Skip, None) else (Download, Some ModifiedDeleted)
  | Tomb, Live, Live => if ri then (DeleteRemote, None) else (Download, Some ModifiedDeleted)
  | Tomb, Live, Absent => (Download, Some ModifiedDeleted)
  | Tomb, Live, Tomb => (Download, None)
  | Live, Tomb, Live => if li then (DeleteLocal, None) else (Upload, Some ModifiedDeleted)
  | Live, Tomb, (Absent | Tomb) => (Upload, Some ModifiedDeleted)
  | Live, Absent, Live => if li then (DeleteLocal, None) else (Upload, Some ModifiedDeleted)
  | Live, Absent, Tomb => if li then (Skip, None) else (Upload, None)
  | Absent, Live, Live => if ri then (DeleteRemote, None) else (Download, Some ModifiedDeleted)
  | Absent, Live, Tomb => (Download, None)
  | Absent, Tomb, _ => (DeleteLocal, None)
  | Tomb, Absent, Tomb => (Skip, None)
  | Tomb, Absent, (Absent | Live) => (DeleteRemote, None)
  end.

(** The action record the table row stands for. *)
Definition action_of (p : string) (l r i : option FileMeta)
    (row : ActionType * option ConflictKind) : SyncAction :=
  SyncAction.mk p row.1 r
    ((λ k, ConflictReport.mk k (content_hash <$> l) (content_hash <$> r) (content_hash <$> i))
       <$> row.2)
    None.

Definition decision (l r i : option FileMeta) : ActionType * option ConflictKind :=
  table (side_of l) (side_of r) (side_of i)
    (Tree.hashes_eq l r) (Tree.hashes_eq l i) (Tree.hashes_eq r i) (Tree.clock_compare l r).

Lemma resolve_one_table p l r i : Tree.resolve_one p l r i = Ok (action_of p l r i (decision l r i)).
Proof.
  unfold Tree.resolve_one, decision, side_of.
  destruct l as [ml|], r as [mr|], i as [mi|]; simpl;
    try destruct (deleted ml); try destruct (deleted mr); try destruct (deleted mi); simpl;
    try reflexivity;
    unfold Tree.hashes_eq, action_of, Tree.make, Tree.make_with_conflict;
    repeat case_bool_decide; simpl; try reflexivity; try congruence;
    by destruct (VC.compare _ _).
Qed.

Lemma hashes_eq_true a b : Tree.hashes_eq a b = true ↔ same_content a b.
Proof.
  unfold same_content. destruct a as [x|], b as [y|]; simpl; rewrite ?bool_decide_eq_true;
    naive_solver.
Qed.

Lemma hashes_eq_false a b : Tree.hashes_eq a b = false ↔ ¬ same_content a b.
Proof. rewrite <-hashes_eq_true. by destruct (Tree.hashes_eq a b). Qed.

End Matrix.

(** ** The path index and the sorted union *)
Section paths.
Import Triple.

Abbreviation key f := (Path.components (FileMeta.path f)).
Definition path_lt (p q : string) : Prop := Path.path_ltb p q = true.

Lemma path_ltb_total p q :
  Path.path_ltb p q = false → Path.path_ltb q p = false → Path.components p = Path.components q.
Proof. apply (bo_total (ltb:=Path.components_ltb)). Qed.

Lemma path_lt_trans p q r : path_lt p q → path_lt q r → path_lt p r.
Proof. apply (bo_trans (ltb:=Path.components_ltb)). Qed.

Lemma btree_insert_keys p s k :
  k ∈ (Path.components <$> btree_insert p s)
  ↔ k = Path.components p ∨ k ∈ (Path.components <$> s).
Proof.
  induction s as [|q s IH]; simpl; [set_solver|].
  destruct (Path.path_ltb p q) eqn:Hpq; simpl; [by rewrite elem_of_cons|].
  destruct (Path.path_ltb q p) eqn:Hqp; simpl; rewrite !elem_of_cons.
  - rewrite IH. naive_solver.
  - rewrite (path_ltb_total _ _ Hpq Hqp). naive_solver.
Qed.

Lemma btree_insert_elem p s q : q ∈ btree_insert p s → q = p ∨ q ∈ s.
Proof.
  induction s as [|r s IH]; simpl; [set_solver|].
  destruct (Path.path_ltb p r); [set_solver|].
  destruct (Path.path_ltb r p); set_solver.
Qed.

Lemma btree_insert_sorted p s :
  StronglySorted path_lt s → StronglySorted path_lt (btree_insert p s).
Proof.
  induction 1 as [|q s Hs IH Hq]; simpl; [repeat constructor|].
  destruct (Path.path_ltb p q) eqn:Hpq.
  - repeat constructor; auto. eapply Forall_impl; [exact Hq|].
    intros r. by apply path_lt_trans.
  - destruct (Path.path_ltb q p) eqn:Hqp; [|by constructor].
    constructor; [done|]. apply Forall_forall. intros r [->|Hr]%btree_insert_elem; [done|].
    by eapply Forall_forall in Hq.
Qed.

Lemma btree_extend_sorted ps s :
  StronglySorted path_lt s → StronglySorted path_lt (btree_extend s ps).
Proof. revert s. induction ps; simpl; auto using btree_insert_sorted. Qed.

Lemma btree_extend_keys ps s k :
  k ∈ (Path.components <$> btree_extend s ps)
  ↔ k ∈ (Path.components <$> s) ∨ k ∈ (Path.components <$> ps).
Proof.
  revert s. induction ps as [|p ps IH]; intros s; simpl; [set_solver|].
  rewrite IH, btree_insert_keys, elem_of_cons. naive_solver.
Qed.

(** The index maps a key to the last item with that path; the kept key
    spelling has the same components. *)
Lemma index_by_path_snoc items f :
  index_by_path (items ++ [f]) = index_insert (index_by_path items) f.
Proof. unfold index_by_path. by rewrite foldl_app. Qed.

Lemma index_by_path_wf items k q f :
  index_by_path items !! k = Some (q, f) → Path.components q = k ∧ key f = k ∧ f ∈ items.
Proof.
  revert k q f. induction items as [|g items IH] using rev_ind; intros k q f.
  { unfold index_by_path; simpl. by rewrite lookup_empty. }
  rewrite index_by_path_snoc. unfold index_insert. rewrite lookup_insert.
  case_decide as Hk; [|intros (?&?&?)%IH; set_solver].
  intros [= <- <-]. rewrite elem_of_app, list_elem_of_singleton.
  split_and!; [|done|by right].
  destruct (index_by_path items !! key g) as [[q' f']|] eqn:Hg; [|done].
  apply IH in Hg. naive_solver.
Qed.

Lemma index_by_path_dom items k :
  is_Some (index_by_path items !! k) ↔ ∃ f, f ∈ items ∧ key f = k.
Proof.
  induction items as [|g items IH] using rev_ind.
  { unfold index_by_path; simpl. rewrite lookup_empty, is_Some_alt. set_solver. }
  rewrite index_by_path_snoc. unfold index_insert. rewrite lookup_insert.
  setoid_rewrite elem_of_app. setoid_rewrite list_elem_of_singleton.
  case_decide as Hk; [split; [eauto|by intros; eexists]|]. rewrite IH. naive_solver.
Qed.

Lemma get_last items p :
  get (index_by_path items) p
  = find_first (λ f, Path.path_eqb (FileMeta.path f) p) (reverse items).
Proof.
  unfold get. induction items as [|g items IH] using rev_ind.
  { unfold index_by_path; simpl. by rewrite lookup_empty. }
  rewrite index_by_path_snoc, reverse_snoc. unfold index_insert, find_first in *; simpl.
  rewrite lookup_insert. unfold Path.path_eqb at 1.
  case_decide as Hk; [rewrite bool_decide_eq_true_2 by done; done|].
  by rewrite bool_decide_eq_false_2, <-IH.
Qed.

Lemma keys_components items k :
  k ∈ (Path.components <$> keys (index_by_path items)) ↔ ∃ f, f ∈ items ∧ key f = k.
Proof.
  rewrite <-index_by_path_dom. unfold keys. rewrite <-list_fmap_compose, list_elem_of_fmap.
  split.
  - intros ([k' [q f]]&->&Hm%elem_of_map_to_list). simpl.
    destruct (index_by_path_wf _ _ _ _ Hm) as (->&_&_). eauto.
  - intros [[q f] Hm]. exists (k, (q, f)). split; [|by apply elem_of_map_to_list].
    by destruct (index_by_path_wf _ _ _ _ Hm) as (<-&_&_).
Qed.

Lemma union_paths_sorted l r i : StronglySorted path_lt (union_paths l r i).
Proof. unfold union_paths. repeat apply btree_extend_sorted. constructor. Qed.

Lemma union_paths_keys l r i k :
  k ∈ (Path.components <$> union_paths (index_by_path l) (index_by_path r) (index_by_path i))
  ↔ ∃ f, f ∈ l ++ r ++ i ∧ key f = k.
Proof.
  unfold union_paths. rewrite !btree_extend_keys, !keys_components. simpl.
  setoid_rewrite elem_of_app. setoid_rewrite elem_of_app.
  rewrite elem_of_nil. naive_solver.
Qed.
End paths.

(** ** The rename pass *)
Section renames.
Import Tree.
Implicit Types (acts : list SyncAction) (ps : list (nat * nat)).

Definition renamed (up del : SyncAction) : SyncAction :=
  SyncAction.mk (SyncAction.path del) RenameRemote (SyncAction.server_version up)
    (SyncAction.conflict up) (Some (SyncAction.path up)).

Definition skipped (del : SyncAction) : SyncAction :=
  SyncAction.mk (SyncAction.path del) Skip (SyncAction.server_version del)
    (SyncAction.conflict del) None.

Lemma apply_rename_lookup acts u d up del i :
  acts !! u = Some up → acts !! d = Some del → u ≠ d →
  apply_rename acts (u, d) !! i =
    if decide (i = u) then Some (renamed up del)
    else if decide (i = d) then Some (skipped del) else acts !! i.
Proof.
  intros Hu Hd Hne. unfold apply_rename; simpl. rewrite Hu, Hd.
  assert (u < length acts)%nat by (by eapply lookup_lt_Some).
  rewrite list_lookup_alter.
  repeat case_decide; subst; try done; try congruence.
  - by rewrite list_lookup_insert_ne, Hd by done.
  - by rewrite list_lookup_insert_eq.
  - by rewrite list_lookup_insert_ne.
Qed.

Lemma apply_rename_length acts p : length (apply_rename acts p) = length acts.
Proof.
  unfold apply_rename. destruct (acts !! p.1), (acts !! p.2); try done.
  by rewrite length_alter, length_insert.
Qed.

Lemma foldl_rename_length ps acts : length (foldl apply_rename acts ps) = length acts.
Proof. revert acts. induction ps; simpl; intros; [done|]. by rewrite IHps, apply_rename_length. Qed.

Definition pair_in (acts : list SyncAction) (p : nat * nat) : Prop :=
  is_Some (acts !! p.1) ∧ is_Some (acts !! p.2).

(** Disjoint pairs are rewritten independently of each other and of their
    order. *)
Lemma foldl_rename_spec ps acts :
  NoDup (ps.*1 ++ ps.*2) → Forall (pair_in acts) ps →
  (∀ u d, (u, d) ∈ ps → ∃ up del, acts !! u = Some up ∧ acts !! d = Some del
     ∧ foldl apply_rename acts ps !! u = Some (renamed up del)
     ∧ foldl apply_rename acts ps !! d = Some (skipped del))
  ∧ (∀ i, i ∉ ps.*1 ++ ps.*2 → foldl apply_rename acts ps !! i = acts !! i).
Proof.
  revert acts. induction ps as [|[u d] ps IH]; intros acts Hnd Hin; simpl; [set_solver|].
  apply Forall_cons in Hin as [[[up Hu] [del Hd]] Hin]; simpl in *.
  apply NoDup_cons in Hnd as [Hu' Hnd].
  assert (NoDup (d :: ps.*1 ++ ps.*2)) as [Hd' Hnd']%NoDup_cons.
  { by rewrite Permutation_middle. }
  assert (u ≠ d) as Hne by set_solver.
  pose proof (λ i, apply_rename_lookup acts u d up del i Hu Hd Hne) as Hl.
  destruct (IH (apply_rename acts (u, d))) as [IHp IHo]; [done| |].
  { eapply Forall_impl; [exact Hin|]. intros [u' d'] [[??] [??]]; simpl in *.
    split; simpl; rewrite Hl; repeat case_decide; eauto. }
  split.
  - intros u' d' [[= -> ->]|Hp]%elem_of_cons.
    + exists up, del. rewrite !IHo, !Hl by set_solver.
      split_and!; try done; repeat case_decide; congruence.
    + destruct (IHp _ _ Hp) as (up' & del' & Hu1 & Hd1 & Hru & Hrd).
      apply (list_elem_of_fmap_2 fst) in Hp as Hp1.
      apply (list_elem_of_fmap_2 snd) in Hp as Hp2. simpl in *.
      exists up', del'. rewrite Hl in Hu1, Hd1. split_and!; try done.
      * rewrite !decide_False in Hu1 by set_solver. done.
      * rewrite !decide_False in Hd1 by set_solver. done.
  - intros i Hi. rewrite IHo by set_solver. rewrite Hl.
    rewrite !decide_False by set_solver. done.
Qed.

(** What an entry of the two maps records. *)
Definition upload_key (local : Triple.index) (a : SyncAction) : option rename_key :=
  if decide (SyncAction.action a = Upload) then
    m ← Triple.get local (SyncAction.path a);
    ino ← FileMeta.inode m; Some (ino, FileMeta.content_hash m)
  else None.

Definition delete_key (indexed : Triple.index) (a : SyncAction) : option rename_key :=
  if decide (SyncAction.action a = DeleteRemote) then
    m ← Triple.get indexed (SyncAction.path a);
    ino ← FileMeta.inode m; Some (ino, FileMeta.content_hash m)
  else None.

Definition put_key (m : gmap rename_key nat) (o : option rename_key) (i : nat) :=
  match o with Some k => <[k := i]> m | None => m end.

Lemma rename_scan_eq local indexed maps i a :
  rename_scan local indexed maps (i, a)
  = (put_key maps.1 (delete_key indexed a) i, put_key maps.2 (upload_key local a) i).
Proof.
  unfold rename_scan, upload_key, delete_key; simpl.
  destruct maps as [m1 m2]; simpl.
  destruct (SyncAction.action a); simpl; try done.
  - by destruct (Triple.get _ _) as [m|]; simpl; [destruct (FileMeta.inode m)|].
  - by destruct (Triple.get _ _) as [m|]; simpl; [destruct (FileMeta.inode m)|].
Qed.

Lemma rename_maps_snoc local indexed acts a :
  rename_maps local indexed (acts ++ [a])
  = (put_key (rename_maps local indexed acts).1 (delete_key indexed a) (length acts),
     put_key (rename_maps local indexed acts).2 (upload_key local a) (length acts)).
Proof.
  unfold rename_maps. rewrite imap_app, foldl_app; simpl.
  rewrite rename_scan_eq. by rewrite Nat.add_0_r.
Qed.

(** The last action with a key owns the key's slot. *)
Lemma rename_maps_spec local indexed acts (k : rename_key) :
  (∀ i, (rename_maps local indexed acts).1 !! k = Some i →
     ∃ a, acts !! i = Some a ∧ delete_key indexed a = Some k)
  ∧ (∀ i, (rename_maps local indexed acts).2 !! k = Some i →
     ∃ a, acts !! i = Some a ∧ upload_key local a = Some k)
  ∧ (∀ a, a ∈ acts → delete_key indexed a = Some k →
     is_Some ((rename_maps local indexed acts).1 !! k))
  ∧ (∀ a, a ∈ acts → upload_key local a = Some k →
     is_Some ((rename_maps local indexed acts).2 !! k)).
Proof.
  induction acts as [|a acts IH] using rev_ind.
  { unfold rename_maps; simpl. setoid_rewrite lookup_empty. split_and!; set_solver. }
  destruct IH as (IH1 & IH2 & IH3 & IH4). rewrite rename_maps_snoc; simpl.
  assert (∀ i b, acts !! i = Some b → (acts ++ [a]) !! i = Some b) as Hl.
  { intros. by apply lookup_app_l_Some. }
  split_and!.
  - intros i. unfold put_key. destruct (delete_key indexed a) as [k'|] eqn:Hk; [|naive_solver].
    rewrite lookup_insert. case_decide; [|naive_solver].
    intros [= <-]. exists a. subst. by rewrite list_lookup_middle.
  - intros i. unfold put_key. destruct (upload_key local a) as [k'|] eqn:Hk; [|naive_solver].
    rewrite lookup_insert. case_decide; [|naive_solver].
    intros [= <-]. exists a. subst. by rewrite list_lookup_middle.
  - intros b [Hb| ->%list_elem_of_singleton]%elem_of_app Hk; unfold put_key.
    + destruct (delete_key indexed a); [|eauto]. rewrite lookup_insert. case_decide; eauto.
    + rewrite Hk, lookup_insert_eq. eauto.
  - intros b [Hb| ->%list_elem_of_singleton]%elem_of_app Hk; unfold put_key.
    + destruct (upload_key local a); [|eauto]. rewrite lookup_insert. case_decide; eauto.
    + rewrite Hk, lookup_insert_eq. eauto.
Qed.
End renames.

Section rename_pairs.
Import Tree.
Context (local indexed : Triple.index) (acts : list SyncAction).

Lemma elem_of_rename_pairs u d :
  (u, d) ∈ rename_pairs local indexed acts ↔
  ∃ k, (rename_maps local indexed acts).2 !! k = Some u
     ∧ (rename_maps local indexed acts).1 !! k = Some d.
Proof.
  unfold rename_pairs. rewrite list_elem_of_omap. split.
  - intros ([k u']&Hk%elem_of_map_to_list&(d'&Hd&[= -> ->])%fmap_Some). eauto.
  - intros (k&Hu&Hd). exists (k, u). simpl. rewrite Hd. split; [|done].
    by apply elem_of_map_to_list.
Qed.

Lemma rename_pair_keys u d :
  (u, d) ∈ rename_pairs local indexed acts →
  ∃ k up del, acts !! u = Some up ∧ acts !! d = Some del
    ∧ upload_key local up = Some k ∧ delete_key indexed del = Some k.
Proof.
  intros (k&Hu&Hd)%elem_of_rename_pairs.
  destruct (rename_maps_spec local indexed acts k) as (H1&H2&_).
  destruct (H1 _ Hd) as (del&?&?), (H2 _ Hu) as (up&?&?). eauto 10.
Qed.

Lemma rename_maps_inj k1 k2 i :
  (rename_maps local indexed acts).2 !! k1 = Some i →
  (rename_maps local indexed acts).2 !! k2 = Some i → k1 = k2.
Proof.
  intros (a1&?&?)%(rename_maps_spec local indexed acts k1)
    (a2&?&?)%(rename_maps_spec local indexed acts k2). congruence.
Qed.

Lemma rename_pairs_inj p q :
  p ∈ rename_pairs local indexed acts → q ∈ rename_pairs local indexed acts →
  p.1 = q.1 ∨ p.2 = q.2 → p = q.
Proof.
  destruct p as [u d], q as [u' d'].
  intros (k&Hu&Hd)%elem_of_rename_pairs (k'&Hu'&Hd')%elem_of_rename_pairs; simpl.
  intros [<-|<-].
  - rewrite (rename_maps_inj _ _ _ Hu Hu') in Hd. congruence.
  - destruct (rename_maps_spec local indexed acts k) as (H1&_).
    destruct (rename_maps_spec local indexed acts k') as (H2&_).
    destruct (H1 _ Hd) as (?&?&?), (H2 _ Hd') as (?&?&?). congruence.
Qed.

(** No action takes part in two renames, nor on both sides of one. *)
Lemma rename_pairs_NoDup :
  NoDup ((rename_pairs local indexed acts).*1 ++ (rename_pairs local indexed acts).*2).
Proof.
  assert (NoDup (rename_pairs local indexed acts)) as Hnd.
  { apply NoDup_omap_strong; [|apply NoDup_map_to_list].
    intros [k1 u1] [k2 u2] [u d] Hk1%elem_of_map_to_list Hk2%elem_of_map_to_list; simpl.
    intros (?&?&[= -> ->])%fmap_Some (?&?&[= -> ->])%fmap_Some.
    by rewrite (rename_maps_inj _ _ _ Hk1 Hk2). }
  apply NoDup_app. split_and!.
  - apply NoDup_fmap_2_strong; [|done]. eauto using rename_pairs_inj.
  - intros i ([u d]&->&(?&up&del&?&?&?&?)%rename_pair_keys)%list_elem_of_fmap
      ([u' d']&?&(?&up'&del'&?&?&?&?)%rename_pair_keys)%list_elem_of_fmap.
    unfold upload_key, delete_key in *. simpl in *. crush.
  - apply NoDup_fmap_2_strong; [|done]. eauto using rename_pairs_inj.
Qed.

Lemma rename_pairs_in : Forall (pair_in acts) (rename_pairs local indexed acts).
Proof.
  apply Forall_forall. intros [u d] (?&?&?&?&?&_)%rename_pair_keys. by split; eexists.
Qed.

(** The pass does not depend on the order in which the hash map yields the
    pairs. *)
Lemma rename_order_irrelevant ps :
  ps ≡ₚ rename_pairs local indexed acts →
  foldl apply_rename acts ps = detect_remote_renames local indexed acts.
Proof.
  intros Hp. unfold detect_remote_renames.
  destruct (foldl_rename_spec _ acts rename_pairs_NoDup rename_pairs_in) as [H1 H2].
  destruct (foldl_rename_spec ps acts) as [H3 H4].
  { rewrite Hp. apply rename_pairs_NoDup. }
  { rewrite Hp. apply rename_pairs_in. }
  apply list_eq. intros i.
  destruct (decide (i ∈ ps.*1 ++ ps.*2)) as [Hi|Hi].
  - apply elem_of_app in Hi as [([u d]&->&Hi)%list_elem_of_fmap|([u d]&->&Hi)%list_elem_of_fmap];
      simpl; destruct (H3 _ _ Hi) as (?&?&?&?&?&?);
      rewrite Hp in Hi; destruct (H1 _ _ Hi) as (?&?&?&?&?&?); congruence.
  - rewrite H4 by done. rewrite Hp in Hi. by rewrite H2.
Qed.
End rename_pairs.

(** ** The rename pass and the whole reconciliation *)
Module Reconcile.
Import Tree Matrix.

(** The entry of a snapshot the engine sees for a path: the last item with
    an equal path. *)
Definition latest (items : list FileMeta) (p : string) : option FileMeta :=
  find_first (λ f, Path.path_eqb (FileMeta.path f) p) (reverse items).

(** The matrix applied to each path of the union, before renames. *)
Definition plan (local remote indexed : list FileMeta) (p : string) : SyncAction :=
  action_of p (latest local p) (latest remote p) (latest indexed p)
    (decision (latest local p) (latest remote p) (latest indexed p)).

Definition union (local remote indexed : list FileMeta) : list string :=
  Triple.union_paths (Triple.index_by_path local) (Triple.index_by_path remote)
    (Triple.index_by_path indexed).

Lemma reconcile_eq local remote indexed :
  reconcile local remote indexed
  = Ok (detect_remote_renames (Triple.index_by_path local) (Triple.index_by_path indexed)
          (plan local remote indexed <$> union local remote indexed)).
Proof.
  unfold reconcile. erewrite collect_results_ok; [done|].
  intros p _. rewrite !get_last. apply resolve_one_table.
Qed.

(** What becomes of the action at a position of the plan. *)
Lemma detect_cases local indexed acts i a' :
  detect_remote_renames local indexed acts !! i = Some a' →
  acts !! i = Some a'
  ∨ (∃ up del k, acts !! i = Some up ∧ del ∈ acts ∧ a' = renamed up del
       ∧ upload_key local up = Some k ∧ delete_key indexed del = Some k)
  ∨ (∃ del, acts !! i = Some del ∧ SyncAction.action del = DeleteRemote ∧ a' = skipped del).
Proof.
  unfold detect_remote_renames.
  destruct (foldl_rename_spec _ acts (rename_pairs_NoDup local indexed acts)
              (rename_pairs_in local indexed acts)) as [Hp Ho].
  destruct (decide (i ∈ (rename_pairs local indexed acts).*1
                     ++ (rename_pairs local indexed acts).*2)) as [Hi|Hi];
    [|rewrite Ho by done; by left].
  apply elem_of_app in Hi as [([u d]&->&Hi)%list_elem_of_fmap|([u d]&->&Hi)%list_elem_of_fmap];
    simpl; destruct (Hp _ _ Hi) as (up&del&Hu&Hd&Hru&Hrd);
    destruct (rename_pair_keys _ _ _ _ _ Hi) as (k&up'&del'&?&?&?&?); simplify_eq.
  - rewrite Hru. intros [= <-]. right; left. exists up, del, k.
    split_and!; try done. by eapply list_elem_of_lookup_2.
  - rewrite Hrd. intros [= <-]. right; right. exists del. split_and!; try done.
    unfold delete_key in *. crush.
Qed.

Lemma elem_of_plan local remote indexed a :
  a ∈ (plan local remote indexed <$> union local remote indexed) →
  a = plan local remote indexed (SyncAction.path a).
Proof. by intros (p&->&_)%list_elem_of_fmap. Qed.

(** Every emitted action is the matrix's, or one half of a rename. *)
Lemma reconcile_action local remote indexed acts a :
  reconcile local remote indexed = Ok acts → a ∈ acts →
  a = plan local remote indexed (SyncAction.path a)
  ∨ (∃ q, a = renamed (plan local remote indexed q) (plan local remote indexed (SyncAction.path a))
       ∧ (decision (latest local q) (latest remote q) (latest indexed q)).1 = Upload
       ∧ (decision (latest local (SyncAction.path a)) (latest remote (SyncAction.path a))
            (latest indexed (SyncAction.path a))).1 = DeleteRemote
       ∧ same_content (latest local q) (latest indexed (SyncAction.path a))
       ∧ (FileMeta.inode <$> latest local q) = (FileMeta.inode <$> latest indexed (SyncAction.path a)))
  ∨ (a = skipped (plan local remote indexed (SyncAction.path a))
     ∧ (decision (latest local (SyncAction.path a)) (latest remote (SyncAction.path a))
            (latest indexed (SyncAction.path a))).1 = DeleteRemote).
Proof.
  rewrite reconcile_eq. intros [= <-] [i Hi]%list_elem_of_lookup.
  apply detect_cases in Hi
    as [Hi|[(up&del&k&Hu&Hd&->&Hku&Hkd)|(del&Hd&Ha&->)]].
  - left. eapply elem_of_plan, list_elem_of_lookup_2, Hi.
  - right; left. apply list_elem_of_lookup_2, elem_of_plan in Hu. apply elem_of_plan in Hd.
    simpl. exists (SyncAction.path up). rewrite <-Hu, <-Hd.
    unfold upload_key, delete_key in *. rewrite !get_last in *. fold latest in *.
    fold (latest local (SyncAction.path up)) in *.
    fold (latest indexed (SyncAction.path del)) in *.
    destruct (decide (SyncAction.action up = Upload)) as [Hup|]; [|done].
    destruct (decide (SyncAction.action del = DeleteRemote)) as [Hdel|]; [|done].
    rewrite Hu in Hup. rewrite Hd in Hdel. split_and!; try done.
    + destruct (latest local _) as [x|]; [|done].
      destruct (latest indexed _) as [y|]; [|done]. simpl in *.
      exists x, y. split_and!; try done.
      destruct (FileMeta.inode x), (FileMeta.inode y); naive_solver.
    + destruct (latest local _) as [x|]; [|done].
      destruct (latest indexed _) as [y|]; [|done]. simpl in *. f_equal.
      destruct (FileMeta.inode x), (FileMeta.inode y); naive_solver.
  - right; right. apply list_elem_of_lookup_2, elem_of_plan in Hd. simpl.
    rewrite <-Hd. rewrite Hd in Ha. done.
Qed.

(** C4: [reconcile] never fails. It visits every path named by one of the
    three snapshots exactly once, in strictly increasing path order, decides
    each with the conflict matrix on the latest entry of each snapshot, and
    hands the plan to the rename pass, whose result has one action per
    planned action whatever order the hash map yields the pairs in. *)
Theorem reconcile_refines_matrix local remote indexed :
  ∃ paths,
    StronglySorted path_lt paths
    ∧ (∀ k, k ∈ (Path.components <$> paths) ↔
         ∃ f, f ∈ local ++ remote ++ indexed ∧ Path.components (FileMeta.path f) = k)
    ∧ ∀ order,
        order ≡ₚ rename_pairs (Triple.index_by_path local) (Triple.index_by_path indexed)
                   (plan local remote indexed <$> paths) →
        ∃ acts,
          reconcile local remote indexed = Ok acts
          ∧ acts = foldl apply_rename (plan local remote indexed <$> paths) order
          ∧ length acts = length paths.
Proof.
  exists (union local remote indexed). split_and!.
  - apply union_paths_sorted.
  - apply union_paths_keys.
  - intros order Hp. rewrite reconcile_eq. eexists. split; [reflexivity|].
    rewrite (rename_order_irrelevant _ _ _ _ Hp). split; [done|].
    unfold detect_remote_renames. by rewrite foldl_rename_length, length_fmap.
Qed.

(** The two copies exist and their clocks are in this relation. *)
Definition causally (c : Causality) (l r : option FileMeta) : Prop :=
  ∃ x y, l = Some x ∧ r = Some y ∧ VC.compare (FileMeta.vector_clock x) (FileMeta.vector_clock y) = c.

Lemma clock_compare_causally c l r : c ≠ Concurrent → clock_compare l r = c → causally c l r.
Proof. intros Hc. destruct l as [x|], r as [y|]; simpl; try congruence. intros <-. by exists x, y. Qed.

(** What each kind of action is allowed to do to the two copies. *)
Definition justified (l r i : option FileMeta) (a : SyncAction)
    (l_at : string → option FileMeta) : Prop :=
  match SyncAction.action a with
  | Skip => side_of l = Live → side_of r = Live → same_content l r
  | Upload =>
      side_of l = Live
      ∧ (side_of r = Live →
           same_content r i ∨ causally After l r)
  | Download =>
      side_of r = Live
      ∧ (side_of l = Live →
           same_content l i ∨ causally Before l r ∨ is_Some (SyncAction.conflict a))
  | DeleteLocal => side_of r ≠ Live ∧ (side_of l = Live → same_content l i)
  | DeleteRemote => side_of l ≠ Live ∧ (side_of r = Live → same_content r i)
  | ConflictFork =>
      side_of l = Live ∧ side_of r = Live ∧ ¬ same_content l r
      ∧ SyncAction.conflict a
        = Some (ConflictReport.mk KConcurrent (FileMeta.content_hash <$> l)
                  (FileMeta.content_hash <$> r) (FileMeta.content_hash <$> i))
  | RenameRemote =>
      side_of l ≠ Live ∧ (side_of r = Live → same_content r i)
      ∧ ∃ q, SyncAction.rename_to a = Some q ∧ side_of (l_at q) = Live
           ∧ same_content (l_at q) i
  | ConflictMerge | RenameLocal => False
  end.

Lemma plan_justified local remote indexed p :
  justified (latest local p) (latest remote p) (latest indexed p)
    (plan local remote indexed p) (latest local).
Proof.
  unfold plan, decision. set (l := latest local p). set (r := latest remote p).
  set (i := latest indexed p). unfold justified, action_of; simpl.
  destruct (hashes_eq l r) eqn:Hlr; [apply hashes_eq_true in Hlr|apply hashes_eq_false in Hlr];
  (destruct (hashes_eq l i) eqn:Hli; [apply hashes_eq_true in Hli|apply hashes_eq_false in Hli]);
  (destruct (hashes_eq r i) eqn:Hri; [apply hashes_eq_true in Hri|apply hashes_eq_false in Hri]);
  destruct (side_of l) eqn:Hl, (side_of r) eqn:Hr, (side_of i) eqn:Hi; simpl;
    try (destruct (clock_compare l r) eqn:Hc; simpl; try (apply clock_compare_causally in Hc; [|discriminate])); naive_solver.
Qed.

(** C5: No emitted action loses an edit silently. A delete removes a live
    copy only when its content is the one last synchronised and the other
    side no longer has the file; a transfer overwrites a live copy only when
    that copy is unchanged since the last sync, or is causally older, or the
    action carries a conflict report; a skip of two live copies means equal
    contents; a fork reports both hashes; a rename removes a remote copy only
    when a live local file holds its synchronised content. *)
Theorem reconcile_no_silent_loss local remote indexed acts a :
  reconcile local remote indexed = Ok acts → a ∈ acts →
  justified (latest local (SyncAction.path a)) (latest remote (SyncAction.path a))
    (latest indexed (SyncAction.path a)) a (latest local).
Proof.
  intros Hr Ha. destruct (reconcile_action _ _ _ _ _ Hr Ha) as [Hp|[(q&Hp&Hu&Hd&Hc&_)|[Hp Hd]]].
  - rewrite Hp at 4. apply plan_justified.
  - pose proof (plan_justified local remote indexed q) as Jq.
    pose proof (plan_justified local remote indexed (SyncAction.path a)) as Jp.
    rewrite Hp at 4. unfold justified in *. simpl in *. rewrite Hu in Jq. rewrite Hd in Jp.
    naive_solver.
  - pose proof (plan_justified local remote indexed (SyncAction.path a)) as Jp.
    rewrite Hp at 4. unfold justified in *. simpl in *. rewrite Hd in Jp. naive_solver.
Qed.

(** A small vault: [a.md] was renamed to [b.md] locally, [z.md] edited on
    both sides. *)
Definition demo_file (p : string) (b : byte) (ino : Z) (clock : VectorClock) : FileMeta :=
  FileMeta.mk p (replicate 32 b) 10 0 (Some ino) clock false None "n1" None None None.

Definition demo_local : list FileMeta :=
  [demo_file "b.md" x01 7 {["n1" := 2]}; demo_file "z.md" x03 9 {["n1" := 2]}].
Definition demo_remote : list FileMeta :=
  [demo_file "a.md" x01 70 {["n1" := 1]}; demo_file "z.md" x04 90 {["n2" := 1]}].
Definition demo_indexed : list FileMeta :=
  [demo_file "a.md" x01 7 {["n1" := 1]}; demo_file "z.md" x02 9 {["n1" := 1]}].

Lemma reconcile_no_silent_loss_witness :
  ∃ acts a, reconcile demo_local demo_remote demo_indexed = Ok acts
    ∧ SyncAction.action a = RenameRemote
    ∧ justified (latest demo_local (SyncAction.path a)) (latest demo_remote (SyncAction.path a))
        (latest demo_indexed (SyncAction.path a)) a (latest demo_local).
Proof.
  eexists _, (renamed (plan demo_local demo_remote demo_indexed "b.md")
                      (plan demo_local demo_remote demo_indexed "a.md")).
  split; [vm_compute; reflexivity|]. split; [reflexivity|].
  eapply reconcile_no_silent_loss; [vm_compute; reflexivity|].
  vm_compute. right. left.
Defined.

(** The rename pass keeps the number of actions and rewrites exactly
    the pairs it matched: an upload and a remote delete that share an inode
    and a content hash become a remote rename and a skip, every other action
    is left as it was, and whenever some upload and some remote delete share
    a key, one such pair is rewritten. *)
Theorem detect_remote_renames_spec local indexed acts :
  let acts' := detect_remote_renames local indexed acts in
  length acts' = length acts
  ∧ (∀ i a', acts' !! i = Some a' →
       acts !! i = Some a'
       ∨ (∃ up del k, acts !! i = Some up ∧ del ∈ acts ∧ a' = renamed up del
            ∧ upload_key local up = Some k ∧ delete_key indexed del = Some k)
       ∨ (∃ del, acts !! i = Some del ∧ SyncAction.action del = DeleteRemote
            ∧ a' = skipped del))
  ∧ (∀ k up del, up ∈ acts → del ∈ acts →
       upload_key local up = Some k → delete_key indexed del = Some k →
       ∃ u d up' del', acts !! u = Some up' ∧ acts !! d = Some del'
         ∧ upload_key local up' = Some k ∧ delete_key indexed del' = Some k
         ∧ acts' !! u = Some (renamed up' del') ∧ acts' !! d = Some (skipped del')).
Proof.
  split_and!.
  - apply foldl_rename_length.
  - apply detect_cases.
  - intros k up del Hup Hdel Hku Hkd.
    destruct (rename_maps_spec local indexed acts k) as (H1&H2&H3&H4).
    destruct (H3 _ Hdel Hkd) as [d Hd], (H4 _ Hup Hku) as [u Hu].
    assert ((u, d) ∈ rename_pairs local indexed acts) as Hp by (apply elem_of_rename_pairs; eauto).
    destruct (foldl_rename_spec _ acts (rename_pairs_NoDup local indexed acts)
                (rename_pairs_in local indexed acts)) as [Hps _].
    destruct (H1 _ Hd) as (del'&?&?), (H2 _ Hu) as (up'&?&?).
    destruct (Hps _ _ Hp) as (?&?&?&?&?&?). simplify_eq. eauto 15.
Qed.

(** The order promised by the documentation of [reconcile] ends with the
    rename pass: the rewritten upload takes the old path. *)
Lemma reconcile_output_unsorted :
  ∃ acts, reconcile demo_local demo_remote demo_indexed = Ok acts
    ∧ (SyncAction.path <$> acts) = ["a.md"; "a.md"; "z.md"].
Proof. eexists. split; [vm_compute; reflexivity|reflexivity]. Qed.
End Reconcile.
