(* ===== verification/Delta.v ===== *)
(** * Delta transfer ([disk-core/src/delta/])

    The rolling weak checksum ([rolling.rs]), the 4 KiB chunk iterator over any
    reader ([chunker.rs]), and the plan that rebuilds the client's file from
    the server's copy and the missing chunks ([reconcile.rs]). The strong hash
    ([strong.rs], a call of the blake3 crate) is a parameter. *)

From stdpp Require Import prelude gmap strings pretty sorting.
From Stdlib Require Import ZArith Lia Strings.Byte.
From S2P Require Import Prelude Text.

(** ** Rolling checksum *)
Module Rolling.
Definition MOD_ADLER : Z := 65521.

Record RollingChecksum := mk { s1 : Z; s2 : Z; n : Z }.

(** The loop body shared by [new] and [adler32_full]. *)
Definition absorb (s : Z * Z) (b : byte) : Z * Z :=
  let s1 := as_u64 (s.1 + byteZ b) mod MOD_ADLER in
  (s1, as_u64 (s.2 + s1) mod MOD_ADLER).

Definition new (window : bytes) : RollingChecksum :=
  let s := foldl absorb (0, 0) window in
  mk s.1 s.2 (Z.of_nat (length window)).

Definition roll (self : RollingChecksum) (removed added : byte) : RollingChecksum :=
  let s1' := as_u64 (s1 self + byteZ added + MOD_ADLER - byteZ removed) mod MOD_ADLER in
  let s2' := as_u64 (s2 self + s1' + MOD_ADLER * n self - n self * byteZ removed) mod MOD_ADLER in
  mk s1' s2' (n self).

Definition digest (self : RollingChecksum) : Z :=
  as_u32 (Z.lor (as_u64 (Z.shiftl (s2 self) 16)) (s1 self)).

Definition adler32_full (data : bytes) : Z :=
  let s := foldl absorb (0, 0) data in
  as_u32 (Z.lor (as_u64 (Z.shiftl s.2 16)) s.1).

(** The exact sums the two halves are residues of. *)
Fixpoint sum1 (w : bytes) : Z :=
  match w with [] => 0 | b :: w => byteZ b + sum1 w end.
Fixpoint sum2 (w : bytes) : Z :=
  match w with [] => 0 | b :: w => Z.of_nat (S (length w)) * byteZ b + sum2 w end.

Lemma sum1_snoc w a : sum1 (w ++ [a]) = sum1 w + byteZ a.
Proof. induction w; simpl; lia. Qed.

Lemma sum2_snoc w a : sum2 (w ++ [a]) = sum2 w + sum1 (w ++ [a]).
Proof.
  induction w as [|b w IH]; cbn [app sum1 sum2]; [simpl; lia|].
  rewrite IH, length_app. simpl length. nia.
Qed.

Lemma as_u64_small z : 0 ≤ z < 2 ^ 64 → as_u64 z = z.
Proof. intros. apply as_u64_id. unfold_ints. lia. Qed.

Lemma absorb_sums w :
  foldl absorb (0, 0) w = (sum1 w mod MOD_ADLER, sum2 w mod MOD_ADLER).
Proof.
  induction w as [|a w IH] using rev_ind; [done|].
  rewrite foldl_snoc, IH. unfold absorb; simpl. rewrite sum2_snoc, sum1_snoc.
  pose proof (byteZ_range a).
  assert (0 ≤ sum1 w mod MOD_ADLER < MOD_ADLER) by (by apply Z.mod_pos_bound).
  assert (0 ≤ sum2 w mod MOD_ADLER < MOD_ADLER) by (by apply Z.mod_pos_bound).
  assert (0 ≤ (sum1 w mod MOD_ADLER + byteZ a) mod MOD_ADLER < MOD_ADLER)
    by (by apply Z.mod_pos_bound).
  unfold MOD_ADLER in *. rewrite !as_u64_small by (rewrite ?as_u64_small by lia; lia).
  by rewrite Zplus_mod_idemp_l, Zplus_mod_idemp_l, Zplus_mod_idemp_r.
Qed.

Lemma new_digest w : digest (new w) = adler32_full w.
Proof. done. Qed.

(** Rolling the window one byte is recomputing the checksum of the
    shifted window, for every window a [u64] product cannot overflow on, and
    the digest agrees with the full checksum. *)
Theorem roll_recomputes (removed added : byte) (w : bytes) :
  Z.of_nat (length w) < 2 ^ 40 →
  roll (new (removed :: w)) removed added = new (w ++ [added])
  ∧ digest (roll (new (removed :: w)) removed added) = adler32_full (w ++ [added]).
Proof.
  intros Hlen.
  assert (roll (new (removed :: w)) removed added = new (w ++ [added])) as ->; [|done].
  unfold new, roll. rewrite !absorb_sums. cbn [s1 s2 n fst snd length].
  rewrite sum2_snoc, sum1_snoc, length_app. cbn [sum1 sum2 length].
  pose proof (byteZ_range removed). pose proof (byteZ_range added).
  set (N := Z.of_nat (S (length w))). assert (0 < N ≤ 2 ^ 40) by lia.
  assert (MOD_ADLER = 65521) as HM by done.
  set (S1 := (byteZ removed + sum1 w) mod MOD_ADLER).
  set (S2 := (N * byteZ removed + sum2 w) mod MOD_ADLER).
  assert (0 ≤ S1 < MOD_ADLER) by (by apply Z.mod_pos_bound).
  assert (0 ≤ S2 < MOD_ADLER) by (by apply Z.mod_pos_bound).
  assert (as_u64 (S1 + byteZ added + MOD_ADLER - byteZ removed) mod MOD_ADLER
          = (sum1 w + byteZ added) mod MOD_ADLER) as ->.
  { rewrite as_u64_small by lia. unfold S1.
    replace ((byteZ removed + sum1 w) mod MOD_ADLER + byteZ added + MOD_ADLER - byteZ removed)
      with ((byteZ removed + sum1 w) mod MOD_ADLER + (byteZ added - byteZ removed)
            + 1 * MOD_ADLER) by lia.
    rewrite Z.mod_add by done. rewrite Zplus_mod_idemp_l. f_equal. lia. }
  set (S1' := (sum1 w + byteZ added) mod MOD_ADLER).
  assert (0 ≤ S1' < MOD_ADLER) by (by apply Z.mod_pos_bound).
  f_equal; [|lia].
  rewrite as_u64_small by nia. unfold S2.
  replace ((N * byteZ removed + sum2 w) mod MOD_ADLER + S1' + MOD_ADLER * N - N * byteZ removed)
    with ((N * byteZ removed + sum2 w) mod MOD_ADLER + (S1' - N * byteZ removed)
          + N * MOD_ADLER) by lia.
  rewrite Z.mod_add by done. rewrite Zplus_mod_idemp_l.
  replace (N * byteZ removed + sum2 w + (S1' - N * byteZ removed)) with (sum2 w + S1') by lia.
  unfold S1'. by rewrite Zplus_mod_idemp_r.
Qed.

Lemma roll_recomputes_witness :
  roll (new [x61; x62; x63]) x61 x64 = new [x62; x63; x64]
  ∧ digest (roll (new [x61; x62; x63]) x61 x64) = adler32_full [x62; x63; x64].
Proof. apply (roll_recomputes x61 x64 [x62; x63]). vm_compute. reflexivity. Defined.
End Rolling.

(** ** Readers

    [std::io::Read]: one call returns at most the requested bytes and may
    return fewer. *)
Class Read (R : Type) := read : R → nat → result bytes string * R.

(** A reader that never fails, with the bytes it has left: a call returns a
    prefix of them, and returns nothing only at the end or when asked for
    nothing. *)
Class ReadLaws (R : Type) `{!Read R} (rest : R → bytes) := read_law r k :
  ∃ d r', read r k = (Ok d, r') ∧ rest r = d ++ rest r' ∧ (length d ≤ k)%nat
    ∧ (d = [] → k = 0%nat ∨ rest r = []).

(** [impl Read for &[u8]]. *)
#[global] Instance slice_read : Read bytes := λ s k, (Ok (take k s), drop k s).

#[global] Instance slice_read_laws : ReadLaws bytes id.
Proof.
  intros s k. exists (take k s), (drop k s). unfold id. split_and!.
  - done.
  - by rewrite take_drop.
  - rewrite length_take. lia.
  - destruct k, s; naive_solver.
Qed.

(** A source that delivers its bytes in packets, such as a socket. *)
Record packets := Packets { queue : list bytes }.
#[global] Instance packets_read : Read packets := λ p k,
  match filter (λ b, b ≠ []) (queue p) with
  | [] => (Ok [], p)
  | b :: q => (Ok (take k b), Packets (drop k b :: q))
  end.

Lemma concat_filter_nonempty (q : list bytes) : mjoin (filter (λ b, b ≠ []) q) = mjoin q.
Proof.
  induction q as [|b q IH]; [done|]. rewrite filter_cons. destruct (decide (b ≠ [])) as [|Hb]; simpl.
  - by rewrite IH.
  - apply dec_stable in Hb as ->. done.
Qed.

#[global] Instance packets_read_laws : ReadLaws packets (mjoin ∘ queue).
Proof.
  intros [q] k. unfold read, packets_read; simpl.
  rewrite <-(concat_filter_nonempty q).
  destruct (filter (λ b, b ≠ []) q) as [|b q'] eqn:Hq; simpl.
  - eexists _, _. split_and!; [done| |simpl;lia|by right]. simpl.
    by rewrite <-(concat_filter_nonempty q), Hq.
  - assert (b ≠ []).
    { assert (b ∈ filter (λ b, b ≠ []) q) as Hb by (rewrite Hq; constructor).
      apply list_elem_of_filter in Hb. naive_solver. }
    eexists _, _. split_and!; [done| | |].
    + simpl. by rewrite app_assoc, take_drop.
    + rewrite length_take. lia.
    + intros Ht. left. destruct k; [done|]. by destruct b.
Qed.

(** ** Chunk iterator *)
Module Chunk.
Record t := mk { offset : Z; weak : Z; strong : bytes; data : bytes }.
End Chunk.
Abbreviation Chunk := Chunk.t.

Module Chunker.
Import Chunk.
Definition BLOCK_SIZE : nat := 4096.
#[global] Opaque BLOCK_SIZE.

Lemma BLOCK_SIZE_pos : (0 < BLOCK_SIZE)%nat.
Proof. rewrite <-(Nat2Z.id 0), <-(Nat2Z.id BLOCK_SIZE). vm_compute. lia. Qed.

Section chunker.
Context (blake3_hash : bytes → bytes).
Context {R : Type} `{!Read R}.

(** The closure's captured state. *)
Record iter := Iter { reader : R; pos : Z; done : bool }.

(** The inner [loop]: [Ok acc] on [break], the reader's error otherwise.
    Every turn but the last adds a byte, so [BLOCK_SIZE] turns and the one
    that sees the end are enough fuel; [None] is never returned then
    ([fill_block_spec]). *)
Fixpoint fill_block (fuel : nat) (r : R) (acc : bytes) : option (result bytes string * R) :=
  match fuel with
  | O => None
  | S fuel =>
      match read r (BLOCK_SIZE - length acc) with
      | (Ok [], r) => Some (Ok acc, r)
      | (Ok d, r) =>
          let acc := acc ++ d in
          if bool_decide (length acc = BLOCK_SIZE) then Some (Ok acc, r)
          else fill_block fuel r acc
      | (Err e, r) => Some (Err e, r)
      end
  end.

(** One call of the [from_fn] closure. *)
Definition next (it : iter) : option (option (result Chunk string) * iter) :=
  if done it then Some (None, it)
  else
    f ← fill_block (S BLOCK_SIZE) (reader it) [];
    match f with
    | (Err e, r) => Some (Some (Err e), Iter r (pos it) (done it))
    | (Ok [], r) => Some (None, Iter r (pos it) true)
    | (Ok data, r) =>
        let c := mk (pos it) (Rolling.adler32_full data) (blake3_hash data) data in
        Some (Some (Ok c), Iter r (as_u64 (pos it + Z.of_nat (length data))) (done it))
    end.

Definition chunks (r : R) : iter := Iter r 0 false.

(** Draining the iterator; [None] when the fuel is not enough. *)
Fixpoint collect (fuel : nat) (it : iter) : option (list (result Chunk string)) :=
  match fuel with
  | O => None
  | S fuel =>
      x ← next it;
      match x with
      | (None, _) => Some []
      | (Some c, it) => cs ← collect fuel it; Some (c :: cs)
      end
  end.

(** The reference: cut the contents every [BLOCK_SIZE] bytes. *)
Fixpoint cut (fuel : nat) (off : Z) (content : bytes) : list Chunk :=
  match fuel, content with
  | S fuel, _ :: _ =>
      let d := take BLOCK_SIZE content in
      mk off (Rolling.adler32_full d) (blake3_hash d) d
      :: cut fuel (as_u64 (off + Z.of_nat (length d))) (drop BLOCK_SIZE content)
  | _, _ => []
  end.

Context (rest : R → bytes) `{!ReadLaws R rest}.

Lemma fill_block_spec fuel r acc :
  (BLOCK_SIZE - length acc < fuel)%nat → (length acc < BLOCK_SIZE)%nat →
  ∃ r', fill_block fuel r acc
          = Some (Ok (acc ++ take (BLOCK_SIZE - length acc) (rest r)), r')
      ∧ rest r' = drop (BLOCK_SIZE - length acc) (rest r).
Proof.
  revert r acc. induction fuel as [|fuel IH]; intros r acc Hf Hacc; [lia|]; simpl.
  destruct (read_law r (BLOCK_SIZE - length acc)) as (d&r'&->&Hr&Hd&Hnil).
  destruct d as [|b d].
  - destruct (Hnil eq_refl) as [?|Hr0]; [lia|].
    exists r'. rewrite Hr0 in *. simpl in Hr. rewrite <-Hr.
    by rewrite take_nil, drop_nil, app_nil_r.
  - set (d' := b :: d) in *. assert (0 < length d')%nat by (simpl; lia).
    rewrite Hr. case_bool_decide as Hl; rewrite length_app in Hl.
    + exists r'. replace (BLOCK_SIZE - length acc)%nat with (length d') by lia.
      by rewrite take_app_length, drop_app_length.
    + destruct (IH r' (acc ++ d')) as (r''&->&Hr''); [rewrite length_app; lia..|].
      exists r''. rewrite Hr'', length_app.
      rewrite take_app, drop_app, (take_ge d'), (drop_ge d') by lia.
      rewrite <-app_assoc, Nat.sub_add_distr. done.
Qed.

Lemma next_spec r off :
  ∃ r', rest r' = drop BLOCK_SIZE (rest r)
    ∧ next (Iter r off false) =
        match rest r with
        | [] => Some (None, Iter r' off true)
        | _ :: _ =>
            let d := take BLOCK_SIZE (rest r) in
            Some (Some (Ok (mk off (Rolling.adler32_full d) (blake3_hash d) d)),
                  Iter r' (as_u64 (off + Z.of_nat (length d))) false)
        end.
Proof.
  destruct (fill_block_spec (S BLOCK_SIZE) r []) as (r'&Hf&Hr'); [simpl; lia| |].
  { simpl. apply BLOCK_SIZE_pos. }
  simpl in Hr'. rewrite Nat.sub_0_r in *. exists r'. split; [done|].
  unfold next. cbn [done reader pos]. rewrite Hf. cbn [mbind option_bind].
  rewrite ?app_nil_l, ?Nat.sub_0_r. pose proof BLOCK_SIZE_pos.
  destruct (rest r) as [|b l]; [by rewrite take_nil|].
  destruct BLOCK_SIZE as [|bs]; [lia|]. done.
Qed.

Lemma collect_spec fuel r off :
  (length (rest r) < fuel)%nat →
  collect fuel (Iter r off false) = Some (Ok <$> cut fuel off (rest r)).
Proof.
  revert r off. induction fuel as [|fuel IH]; intros r off Hf; [lia|]. simpl.
  destruct (next_spec r off) as (r'&Hr'&->).
  destruct (rest r) as [|b l] eqn:Hr; [done|]. cbn [mbind option_bind].
  rewrite IH, Hr'; [done|].
  rewrite Hr', length_drop. pose proof BLOCK_SIZE_pos. simpl in *. lia.
Qed.

(** The chunk iterator always finishes on a reader that does not
  fail, and yields the fixed cut of its contents however the reader splits
  them into short reads. *)
Theorem chunks_cut r :
  collect (S (length (rest r))) (chunks r) = Some (Ok <$> cut (S (length (rest r))) 0 (rest r)).
Proof. apply collect_spec. lia. Qed.
End chunker.
End Chunker.

Section cut.
Import Chunk Chunker.
Context (blake3_hash : bytes → bytes).
Abbreviation cut := (Chunker.cut blake3_hash).

Definition all_chunks (content : bytes) : list Chunk := cut (S (length content)) 0 content.

Lemma cut_cons fuel off b content :
  cut (S fuel) off (b :: content)
  = let d := take BLOCK_SIZE (b :: content) in
    mk off (Rolling.adler32_full d) (blake3_hash d) d
    :: cut fuel (as_u64 (off + Z.of_nat (length d))) (drop BLOCK_SIZE (b :: content)).
Proof. done. Qed.

Lemma drop_block_length (content : bytes) fuel :
  (length content < S fuel)%nat → content ≠ [] →
  (length (drop BLOCK_SIZE content) < fuel)%nat.
Proof.
  intros. rewrite length_drop. pose proof BLOCK_SIZE_pos. destruct content; simpl in *; [done|lia].
Qed.

Lemma cut_concat fuel off content :
  (length content < fuel)%nat → mjoin (data <$> cut fuel off content) = content.
Proof.
  revert off content. induction fuel as [|fuel IH]; intros off [|b content] Hf; try (done || (simpl in Hf; lia)).
  rewrite cut_cons; cbv zeta. rewrite fmap_cons; cbn [data mjoin list_join].
  rewrite IH by (by apply drop_block_length).
  apply take_drop.
Qed.

(** Every chunk is the slice of the file at its own offset, carries its two
    checksums, is not empty, and is a full block unless it ends the file. *)
Definition slice_of (content : bytes) (c : Chunk) : Prop :=
  data c = take (length (data c)) (drop (Z.to_nat (offset c)) content)
  ∧ 0 ≤ offset c ∧ (0 < length (data c) ≤ BLOCK_SIZE)%nat
  ∧ (Z.to_nat (offset c) + length (data c) ≤ length content)%nat
  ∧ ((length (data c) < BLOCK_SIZE)%nat →
       (Z.to_nat (offset c) + length (data c))%nat = length content)
  ∧ weak c = Rolling.adler32_full (data c) ∧ strong c = blake3_hash (data c).

Lemma cut_slices fuel pre content :
  (length content < fuel)%nat → Z.of_nat (length (pre ++ content)) < 2 ^ 64 →
  Forall (slice_of (pre ++ content)) (cut fuel (Z.of_nat (length pre)) content)
  ∧ StronglySorted Z.lt (offset <$> cut fuel (Z.of_nat (length pre)) content)
  ∧ Forall (λ c, Z.of_nat (length pre) ≤ offset c) (cut fuel (Z.of_nat (length pre)) content).
Proof.
  revert pre content. induction fuel as [|fuel IH]; intros pre [|b content] Hf Hu;
    try (by repeat constructor); try (simpl in Hf; lia).
  rewrite cut_cons; cbv zeta. pose proof BLOCK_SIZE_pos.
  set (cc := b :: content) in *. set (d := take BLOCK_SIZE cc).
  assert (cc = d ++ drop BLOCK_SIZE cc) as Hcc by (symmetry; apply take_drop).
  assert (length d = Nat.min BLOCK_SIZE (length cc)) as Hd by apply length_take.
  assert (0 < length cc)%nat by (simpl; lia).
  assert (length (pre ++ cc) = (length pre + length cc)%nat) as Hpc by apply length_app.
  rewrite Rolling.as_u64_small by lia.
  rewrite <-Nat2Z.inj_add, <-length_app.
  destruct (IH (pre ++ d) (drop BLOCK_SIZE cc)) as (IH1&IH2&IH3).
  { by apply drop_block_length. }
  { by rewrite <-app_assoc, <-Hcc. }
  rewrite <-app_assoc, <-Hcc in IH1.
  split_and!.
  - constructor; [|done]. unfold slice_of; cbn [data offset weak strong].
    rewrite Nat2Z.id. split_and!; try done; try lia.
    rewrite drop_app_length, Hcc. by rewrite take_app_length.
  - rewrite fmap_cons; cbn [offset]. constructor; [done|].
    apply Forall_fmap. eapply Forall_impl; [exact IH3|].
    intros c; simpl. rewrite length_app. lia.
  - constructor; cbn [offset]; [lia|]. eapply Forall_impl; [exact IH3|].
    intros c; simpl. rewrite length_app. lia.
Qed.

Lemma all_chunks_slices content :
  Z.of_nat (length content) < 2 ^ 64 →
  Forall (slice_of content) (all_chunks content)
  ∧ StronglySorted Z.lt (offset <$> all_chunks content).
Proof.
  intros Hu. destruct (cut_slices (S (length content)) [] content) as (H1&H2&_);
    [lia|done|]. done.
Qed.

Lemma all_chunks_strong content : Forall (λ c, strong c = blake3_hash (data c)) (all_chunks content).
Proof.
  unfold all_chunks. generalize (S (length content)) as fuel, 0 as off. intros fuel. revert content.
  induction fuel as [|fuel IH]; intros [|b content] off; try constructor; [done|]. apply IH.
Qed.

Lemma all_chunks_concat content : mjoin (data <$> all_chunks content) = content.
Proof. apply cut_concat. lia. Qed.
End cut.

(** ** Delta plans *)
Module Delta.
Import Chunk.

Record ChunkSig := mkSig { offset : Z; weak : Z; strong : bytes }.

Definition sig_of (c : Chunk) : ChunkSig :=
  mkSig (Chunk.offset c) (Chunk.weak c) (Chunk.strong c).

Inductive DeltaEntry :=
  | Hit (server_offset : Z) (len : nat)
  | Miss (data : bytes).

Section plans.
Context (blake3_hash : bytes → bytes).

(** [chunks(base).map(|r| r.unwrap()).collect()]; a slice never fails, so
    neither branch with [[]] is taken ([base_chunks_cut]). *)
Definition base_chunks (base : bytes) : list Chunk :=
  match Chunker.collect blake3_hash (S (length base)) (Chunker.chunks (R:=bytes) base) with
  | Some rs => match collect_results id rs with Ok cs => cs | Err _ => [] end
  | None => []
  end.

Definition base_index (cs : list Chunk) : gmap (Z * bytes) Z :=
  foldl (λ m c, <[(Chunk.weak c, Chunk.strong c) := Chunk.offset c]> m) ∅ cs.

(** The length of the base chunk at an offset, [dflt] if there is none. *)
Definition len_at (cs : list Chunk) (server_offset : Z) (dflt : nat) : nat :=
  default dflt ((λ c, length (Chunk.data c)) <$>
    find_first (λ c, bool_decide (Chunk.offset c = server_offset)) cs).

Definition build_plan (client_sigs : list ChunkSig) (base : bytes) : list DeltaEntry :=
  let cs := base_chunks base in
  let index := base_index cs in
  (λ sig, match index !! (weak sig, strong sig) with
          | Some server_offset => Hit server_offset (len_at cs server_offset Chunker.BLOCK_SIZE)
          | None => Miss []
          end) <$> client_sigs.

Definition build_plan_with_data (client_chunks : list Chunk) (base : bytes) : list DeltaEntry :=
  let cs := base_chunks base in
  let index := base_index cs in
  (λ c, match index !! (Chunk.weak c, Chunk.strong c) with
        | Some server_offset => Hit server_offset (len_at cs server_offset (length (Chunk.data c)))
        | None => Miss (Chunk.data c)
        end) <$> client_chunks.
End plans.

Definition usize_max : Z := u64_max.

(** [start.checked_add(len)] with the bound of [base]. *)
Definition hit_end (base : bytes) (start : Z) (len : nat) : option Z :=
  let e := start + Z.of_nat len in
  if bool_decide (e ≤ usize_max) && bool_decide (e ≤ Z.of_nat (length base)) then Some e else None.

Definition apply_entry (base out : bytes) (e : DeltaEntry) : result bytes string :=
  match e with
  | Hit server_offset len =>
      match hit_end base server_offset len with
      | Some _ => Ok (out ++ take len (drop (Z.to_nat server_offset) base))
      | None => Err ("Hit out of bounds: offset=" +:+ pretty server_offset +:+ " len="
                     +:+ pretty len +:+ " base_len=" +:+ pretty (length base))
      end
  | Miss data =>
      match data with
      | [] => Err "Miss entry has no data (use build_plan_with_data)"
      | _ => Ok (out ++ data)
      end
  end.

Fixpoint apply_loop (base out : bytes) (entries : list DeltaEntry) : result bytes string :=
  match entries with
  | [] => Ok out
  | e :: entries => out <?- apply_entry base out e ;; apply_loop base out entries
  end.

Definition apply_plan (base : bytes) (plan : list DeltaEntry) : result bytes string :=
  apply_loop base [] plan.
End Delta.

Section index.
Import Delta.

Lemma base_index_lookup cs (w : Z) (s : bytes) off :
  base_index cs !! (w, s) = Some off →
  ∃ c, c ∈ cs ∧ Chunk.weak c = w ∧ Chunk.strong c = s ∧ Chunk.offset c = off.
Proof.
  unfold base_index. induction cs as [|c cs IH] using rev_ind; simpl; [by rewrite lookup_empty|].
  rewrite foldl_snoc, lookup_insert. case_decide as Hk.
  - intros [= <-]. exists c. set_solver.
  - intros (c'&?&?)%IH. exists c'. set_solver.
Qed.

Lemma base_index_complete cs c :
  c ∈ cs → is_Some (base_index cs !! (Chunk.weak c, Chunk.strong c)).
Proof.
  unfold base_index. induction cs as [|c' cs IH] using rev_ind; [set_solver|].
  rewrite foldl_snoc. intros [?| ->%list_elem_of_singleton]%elem_of_app.
  - rewrite lookup_insert. case_decide; eauto.
  - rewrite lookup_insert_eq. eauto.
Qed.
End index.

Section delta_lemmas.
Import Delta.
Context (blake3_hash : bytes → bytes).
Abbreviation all_chunks := (all_chunks blake3_hash).

Lemma base_chunks_cut base : base_chunks blake3_hash base = all_chunks base.
Proof.
  unfold base_chunks, Chunker.chunks.
  pose proof (Chunker.collect_spec (R:=bytes) blake3_hash id (S (length base)) base 0) as H.
  unfold id in H. rewrite H by lia. clear H.
  by rewrite collect_results_id.
Qed.

(** Offsets identify the chunks of a file, so the length lookup finds the
    chunk the index points at. *)
Lemma len_at_chunk base c dflt :
  Z.of_nat (length base) < 2 ^ 64 → c ∈ all_chunks base →
  len_at (all_chunks base) (Chunk.offset c) dflt = length (Chunk.data c).
Proof.
  intros Hu Hc. destruct (all_chunks_slices blake3_hash base Hu) as [_ Hs].
  unfold len_at. destruct (find_first _ _) as [c'|] eqn:Hf; simpl.
  - apply find_first_spec in Hf as [Hc' Ho%bool_decide_eq_true].
    by rewrite (sorted_key_inj Z.lt Chunk.offset _ _ _ Hs Hc Hc').
  - rewrite find_first_none in Hf. specialize (Hf c Hc). by rewrite bool_decide_eq_false in Hf.
Qed.

End delta_lemmas.

(** ** Applying a plan *)
Section applying.
Import Delta.

Definition entry_valid (base : bytes) (e : DeltaEntry) : Prop :=
  match e with
  | Hit off len => off + Z.of_nat len ≤ Z.of_nat (length base)
  | Miss data => data ≠ []
  end.

Definition entry_bytes (base : bytes) (e : DeltaEntry) : bytes :=
  match e with
  | Hit off len => take len (drop (Z.to_nat off) base)
  | Miss data => data
  end.

Lemma apply_entry_spec base out e :
  Z.of_nat (length base) < 2 ^ 64 →
  (entry_valid base e ∧ apply_entry base out e = Ok (out ++ entry_bytes base e))
  ∨ (¬ entry_valid base e ∧ ∃ msg, apply_entry base out e = Err msg).
Proof.
  intros Hu. destruct e as [off len|[|b d]]; simpl; [|right; eauto|by left].
  unfold hit_end, usize_max. destruct (decide (off + Z.of_nat len ≤ Z.of_nat (length base))).
  - left. split; [done|]. rewrite !bool_decide_eq_true_2 by (unfold_ints; lia). done.
  - right. split; [lia|]. rewrite (bool_decide_eq_false_2 (_ ≤ Z.of_nat (length base))) by lia.
    rewrite andb_false_r. eauto.
Qed.

Lemma apply_loop_spec base out plan :
  Z.of_nat (length base) < 2 ^ 64 →
  (Forall (entry_valid base) plan
     ∧ apply_loop base out plan = Ok (out ++ mjoin (entry_bytes base <$> plan)))
  ∨ (¬ Forall (entry_valid base) plan ∧ ∃ msg, apply_loop base out plan = Err msg).
Proof.
  intros Hu. revert out. induction plan as [|e plan IH]; intros out; simpl.
  - left. by rewrite app_nil_r.
  - rewrite Forall_cons. destruct (apply_entry_spec base out e Hu) as [[Hv ->]|[Hv [msg ->]]];
      simpl; [|right; naive_solver].
    destruct (IH (out ++ entry_bytes base e)) as [[? ->]|[? [msg ->]]]; [left|right; naive_solver].
    by rewrite app_assoc.
Qed.

End applying.

Section hits.
Import Delta.
Context (blake3_hash : bytes → bytes).
Abbreviation all_chunks := (all_chunks blake3_hash).

(** The server's index answers a client chunk with a slice of the base that
    has the chunk's own bytes. *)
Definition no_collision (client base : bytes) : Prop :=
  ∀ c b, c ∈ all_chunks client → b ∈ all_chunks base →
    Chunk.weak c = Chunk.weak b → Chunk.strong c = Chunk.strong b → Chunk.data c = Chunk.data b.

Lemma plan_entry_bytes client base c :
  Z.of_nat (length base) < 2 ^ 64 → Z.of_nat (length client) < 2 ^ 64 →
  no_collision client base → c ∈ all_chunks client →
  let e := match base_index (all_chunks base) !! (Chunk.weak c, Chunk.strong c) with
           | Some off => Hit off (len_at (all_chunks base) off (length (Chunk.data c)))
           | None => Miss (Chunk.data c)
           end in
  entry_valid base e ∧ entry_bytes base e = Chunk.data c.
Proof.
  intros Hb Hc Hnc Hin.
  destruct (base_index _ !! _) as [off|] eqn:Hi; simpl.
  - apply base_index_lookup in Hi as (b&Hb'&Hw&Hs&<-). rewrite (len_at_chunk blake3_hash base b) by done.
    destruct (all_chunks_slices blake3_hash base Hb) as [Hsl _].
    eapply Forall_forall in Hsl as (Hd&?&?&?&?&?); [|exact Hb'].
    split; [lia|]. rewrite <-Hd. symmetry. by apply Hnc.
  - destruct (all_chunks_slices blake3_hash client Hc) as [Hsl _].
    eapply Forall_forall in Hsl as (Hd&?&?&?&?&?); [|exact Hin].
    split; [|done]. intros Hnil. rewrite Hnil in *. simpl in *. lia.
Qed.
End hits.

(** ** The transfer theorems *)
Module DeltaProps.
Import Delta.

(** The chunks of a file partition it: concatenated they are the file,
    each is the slice at its offset with its own checksums, offsets increase
    strictly, and only the last chunk may be shorter than a block. *)
Theorem chunks_partition (blake3_hash : bytes → bytes) (content : bytes) :
  Z.of_nat (length content) < 2 ^ 64 →
  mjoin (Chunk.data <$> base_chunks blake3_hash content) = content
  ∧ Forall (slice_of blake3_hash content) (base_chunks blake3_hash content)
  ∧ StronglySorted Z.lt (Chunk.offset <$> base_chunks blake3_hash content).
Proof.
  intros Hu. rewrite base_chunks_cut. split; [apply all_chunks_concat|].
  by apply all_chunks_slices.
Qed.

Lemma chunks_partition_witness :
  let content := replicate 5000 x61 in
  mjoin (Chunk.data <$> base_chunks (λ _, zero_hash) content) = content
  ∧ Forall (slice_of (λ _, zero_hash) content) (base_chunks (λ _, zero_hash) content)
  ∧ StronglySorted Z.lt (Chunk.offset <$> base_chunks (λ _, zero_hash) content).
Proof. apply (chunks_partition (λ _, zero_hash) (replicate 5000 x61)). vm_compute. reflexivity. Defined.

Lemma chunks_cut_witness :
  let r := Packets [[x61; x62]; []; [x63]] in
  Chunker.collect (λ _, zero_hash) 4 (Chunker.chunks r)
  = Some (Ok <$> Chunker.cut (λ _, zero_hash) 4 0 [x61; x62; x63]).
Proof.
  exact (Chunker.chunks_cut (λ _, zero_hash) (mjoin ∘ queue) (Packets [[x61; x62]; []; [x63]])).
Defined.

(** C8: Transfer by delta is exact. Applying the plan built from the
    client's chunks to the server's copy rebuilds the client's file byte for
    byte, whenever no client chunk collides with a different base chunk on
    both checksums. *)
Theorem delta_roundtrip (blake3_hash : bytes → bytes) (client base : bytes) :
  Z.of_nat (length base) < 2 ^ 64 → Z.of_nat (length client) < 2 ^ 64 →
  no_collision blake3_hash client base →
  apply_plan base (build_plan_with_data blake3_hash (base_chunks blake3_hash client) base)
  = Ok client.
Proof.
  intros Hb Hc Hnc. unfold build_plan_with_data. rewrite !base_chunks_cut.
  set (plan := _ <$> _).
  assert (Forall2 (λ c e, entry_valid base e ∧ entry_bytes base e = Chunk.data c)
            (all_chunks blake3_hash client) plan) as Hp.
  { apply Forall2_fmap_r, Forall_Forall2_diag, Forall_forall. intros c Hin.
    by apply (plan_entry_bytes blake3_hash client). }
  unfold apply_plan. destruct (apply_loop_spec base [] plan Hb) as [[_ ->]|[[] _]].
  - f_equal; simpl. etrans; [|apply (all_chunks_concat blake3_hash)]. f_equal.
    clear -Hp. induction Hp as [|c e cs es [_ He] _ IH]; [done|].
    rewrite !fmap_cons. by rewrite He, IH.
  - clear -Hp. induction Hp as [|c e cs es [Hv _] _ IH]; constructor; done.
Qed.

Lemma delta_roundtrip_witness :
  apply_plan [x61; x62] (build_plan_with_data (λ d, d) (base_chunks (λ d, d) [x61; x63; x64]) [x61; x62])
  = Ok [x61; x63; x64].
Proof.
  apply (delta_roundtrip (λ d, d)); [vm_compute; reflexivity..|].
  intros c b Hc Hb _. pose proof (all_chunks_slices (λ d, d) [x61; x63; x64] ltac:(done)) as [H1 _].
  pose proof (all_chunks_slices (λ d, d) [x61; x62] ltac:(done)) as [H2 _].
  eapply Forall_forall in H1 as (_&_&_&_&_&_&Hs); [|exact Hc].
  eapply Forall_forall in H2 as (_&_&_&_&_&_&Hs'); [|exact Hb]. congruence.
Defined.

(** [apply_plan] succeeds exactly on the plans whose hits lie inside
    the base and whose misses carry data, and then returns the entries'
    bytes in order; on every other plan it returns an error. *)
Theorem apply_plan_spec (base : bytes) (plan : list DeltaEntry) :
  Z.of_nat (length base) < 2 ^ 64 →
  (∀ out, apply_plan base plan = Ok out ↔
     Forall (entry_valid base) plan ∧ out = mjoin (entry_bytes base <$> plan))
  ∧ (¬ Forall (entry_valid base) plan → ∃ msg, apply_plan base plan = Err msg).
Proof.
  intros Hb. unfold apply_plan. destruct (apply_loop_spec base [] plan Hb) as [[? ->]|[? [msg ->]]];
    naive_solver.
Qed.

Lemma apply_plan_spec_witness :
  (∀ out, apply_plan [x61] [Hit 0 1; Miss [x62]] = Ok out ↔
     Forall (entry_valid [x61]) [Hit 0 1; Miss [x62]]
     ∧ out = mjoin (entry_bytes [x61] <$> [Hit 0 1; Miss [x62]]))
  ∧ (¬ Forall (entry_valid [x61]) [Hit 0 1; Miss [x62]] →
       ∃ msg, apply_plan [x61] [Hit 0 1; Miss [x62]] = Err msg).
Proof. apply apply_plan_spec. vm_compute. reflexivity. Defined.

(** The plan built from signatures alone marks the same hits, with an empty
    miss wherever the client must send data. *)
Lemma build_plan_same_hits (blake3_hash : bytes → bytes) (cs : list Chunk) (base : bytes) :
  Z.of_nat (length base) < 2 ^ 64 →
  build_plan blake3_hash (sig_of <$> cs) base
  = (λ e, match e with Hit o l => Hit o l | Miss _ => Miss [] end)
      <$> build_plan_with_data blake3_hash cs base.
Proof.
  intros Hu. unfold build_plan, build_plan_with_data. rewrite base_chunks_cut.
  rewrite <-!list_fmap_compose. apply list_fmap_ext. intros _ c _. simpl.
  destruct (base_index _ !! _) as [off|] eqn:Hi; [|done].
  apply base_index_lookup in Hi as (b&Hb&_&_&<-).
  by rewrite !(len_at_chunk blake3_hash base b) by done.
Qed.
End DeltaProps.
