(* ===== verification/Fork.v ===== *)
(** * Conflict copies and three-way merge ([disk-core/src/conflict/])

    [fork.rs] names the conflict copy of a file from the writer's node id and a
    UTC timestamp it decomposes by hand; [merge.rs] guards a call of the diffy
    crate, which is a parameter here. *)

From stdpp Require Import prelude gmap strings pretty.
From Stdlib Require Import ZArith Lia Strings.Byte Strings.Ascii.
From S2P Require Import Prelude Text PathFacts.

(** ** Calendar *)
Module Calendar.

Definition is_leap (y : Z) : bool :=
  (bool_decide (y mod 4 = 0) && negb (bool_decide (y mod 100 = 0)))
  || bool_decide (y mod 400 = 0).

Definition days_in_year (y : Z) : Z := if is_leap y then 366 else 365.

(** [None] is the [panic!] of the last arm. *)
Definition days_in_month (y mo : Z) : option Z :=
  if bool_decide (mo ∈ [1; 3; 5; 7; 8; 10; 12]) then Some 31
  else if bool_decide (mo ∈ [4; 6; 9; 11]) then Some 30
  else if bool_decide (mo = 2) then Some (if is_leap y then 29 else 28)
  else None.

(** The year loop; a turn takes at least 365 days off [rem]. *)
Fixpoint year_loop (fuel : nat) (rem year : Z) : option (Z * Z) :=
  match fuel with
  | O => None
  | S fuel =>
      let dy := days_in_year year in
      if bool_decide (rem < dy) then Some (rem, year)
      else year_loop fuel (rem - dy) (as_u32 (year + 1))
  end.

Fixpoint month_loop (fuel : nat) (year rem mo : Z) : option (Z * Z) :=
  match fuel with
  | O => None
  | S fuel =>
      dm ← days_in_month year mo;
      if bool_decide (rem < dm) then Some (rem, mo)
      else month_loop fuel year (rem - dm) (as_u32 (mo + 1))
  end.

(** The year loop runs at most [days / 365 + 1] turns, the month loop twelve
    ([unix_to_ymd_hms_inverse] shows neither runs out). *)
Definition unix_to_ymd_hms (secs : Z) : option (Z * Z * Z * Z * Z * Z) :=
  let s := secs mod 60 in
  let mins := secs / 60 in
  let mi := mins mod 60 in
  let hours := mins / 60 in
  let h := hours mod 24 in
  let days := hours / 24 in
  '(rem, year) ← year_loop (Z.to_nat (days / 365 + 1)) days 1970;
  '(rem, mo) ← month_loop 12 year rem 1;
  Some (year, mo, as_u32 (rem + 1), as_u32 h, as_u32 mi, as_u32 s).

(** ** The proleptic Gregorian calendar in closed form *)
Definition days_before_year (y : Z) : Z :=
  365 * (y - 1970) + (y - 1) / 4 - (y - 1) / 100 + (y - 1) / 400 - 477.

Definition days_before_month (y mo : Z) : Z :=
  (367 * mo - 362) / 12 + (if decide (mo ≤ 2) then 0 else if is_leap y then -1 else -2).

Definition epoch_secs (y mo d h mi s : Z) : Z :=
  ((days_before_year y + days_before_month y mo + (d - 1)) * 24 + h) * 3600 + mi * 60 + s.

Lemma days_before_year_succ y :
  1 ≤ y → days_before_year (y + 1) = days_before_year y + days_in_year y.
Proof.
  unfold days_before_year, days_in_year, is_leap. intros.
  replace (y + 1 - 1) with y by lia.
  repeat case_bool_decide; simpl; Z.to_euclidean_division_equations; lia.
Qed.

Lemma days_in_year_bounds y : 365 ≤ days_in_year y ≤ 366.
Proof. unfold days_in_year. destruct (is_leap y); lia. Qed.

Lemma days_before_year_mono y z : y ≤ z → days_before_year y ≤ days_before_year z.
Proof. unfold days_before_year. intros. Z.to_euclidean_division_equations. lia. Qed.

Lemma year_loop_spec fuel rem year :
  0 ≤ rem → 1970 ≤ year → year + rem / 365 < 2 ^ 32 - 1 → rem / 365 < Z.of_nat fuel →
  ∃ rem' year', year_loop fuel rem year = Some (rem', year')
    ∧ 1970 ≤ year' ∧ 0 ≤ rem' < days_in_year year'
    ∧ days_before_year year' + rem' = days_before_year year + rem.
Proof.
  revert rem year. induction fuel as [|fuel IH]; intros rem year Hr Hy Hov Hf.
  { Z.to_euclidean_division_equations. lia. }
  simpl. pose proof (days_in_year_bounds year). case_bool_decide as Hlt; [eauto 10|].
  assert ((rem - days_in_year year) / 365 ≤ rem / 365 - 1).
  { Z.to_euclidean_division_equations. lia. }
  assert (0 ≤ rem / 365) by (apply Z.div_pos; lia).
  rewrite as_u32_id by (unfold_ints; lia).
  destruct (IH (rem - days_in_year year) (year + 1)) as (rem'&year'&->&?&?&He); [lia..|].
  rewrite days_before_year_succ in He by lia. eexists _, _. split_and!; [done|lia..].
Qed.

(** The month table, as the closed form has it. *)
Lemma days_in_month_spec y mo :
  1 ≤ mo ≤ 12 →
  ∃ dm, days_in_month y mo = Some dm ∧ 28 ≤ dm ≤ 31
    ∧ (mo < 12 → days_before_month y (mo + 1) = days_before_month y mo + dm)
    ∧ (mo = 12 → days_before_month y mo + dm = days_in_year y).
Proof.
  intros Hm.
  assert (mo = 1 ∨ mo = 2 ∨ mo = 3 ∨ mo = 4 ∨ mo = 5 ∨ mo = 6 ∨ mo = 7 ∨ mo = 8
          ∨ mo = 9 ∨ mo = 10 ∨ mo = 11 ∨ mo = 12) as Hc by lia.
  unfold days_in_month, days_before_month, days_in_year.
  destruct (is_leap y);
    repeat (destruct Hc as [->|Hc]); subst;
    (eexists; split; [reflexivity|]; split_and!; [lia|lia|intros; reflexivity || lia..]).
Qed.

Lemma month_loop_spec fuel year rem mo :
  0 ≤ rem → 1 ≤ mo ≤ 12 → 12 < mo + Z.of_nat fuel →
  days_before_month year mo + rem < days_in_year year →
  ∃ rem' mo' dm, month_loop fuel year rem mo = Some (rem', mo')
    ∧ 1 ≤ mo' ≤ 12 ∧ days_in_month year mo' = Some dm ∧ 0 ≤ rem' < dm
    ∧ days_before_month year mo' + rem' = days_before_month year mo + rem.
Proof.
  revert rem mo. induction fuel as [|fuel IH]; intros rem mo Hr Hmo Hf Hd; [lia|].
  simpl. destruct (days_in_month_spec year mo Hmo) as (dm&Hdm&?&Hnext&Hlast).
  rewrite Hdm; simpl. case_bool_decide as Hlt; [eauto 15|].
  destruct (decide (mo = 12)) as [He|Hne]; [specialize (Hlast He); lia|].
  specialize (Hnext ltac:(lia)). rewrite as_u32_id by (unfold_ints; lia).
  destruct (IH (rem - dm) (mo + 1)) as (rem'&mo'&dm'&->&?&?&?&?); [lia..|].
  eexists _, _, _. split_and!; [done|lia|lia|done|lia..].
Qed.

(** End of the year 9999. *)
Definition max_secs : Z := 253402300800.

Lemma decompose secs :
  0 ≤ secs < max_secs →
  ∃ y mo d h mi s dm,
    unix_to_ymd_hms secs = Some (y, mo, d, h, mi, s)
    ∧ 1970 ≤ y ≤ 9999 ∧ 1 ≤ mo ≤ 12 ∧ days_in_month y mo = Some dm ∧ 1 ≤ d ≤ dm ∧ dm ≤ 31
    ∧ 0 ≤ h < 24 ∧ 0 ≤ mi < 60 ∧ 0 ≤ s < 60
    ∧ epoch_secs y mo d h mi s = secs.
Proof.
  intros Hs. unfold unix_to_ymd_hms, max_secs in *.
  set (days := secs / 60 / 60 / 24).
  assert (0 ≤ days < 2932897 ∧ secs = ((days * 24 + (secs / 60 / 60) mod 24) * 60
            + (secs / 60) mod 60) * 60 + secs mod 60) as [Hdays Hsum].
  { unfold days. Z.to_euclidean_division_equations. lia. }
  assert (0 ≤ days / 365 ≤ 8036) by (Z.to_euclidean_division_equations; lia).
  destruct (year_loop_spec (Z.to_nat (days / 365 + 1)) days 1970)
    as (rem&year&->&Hy&Hrem&Hyd); [lia..|]. cbn [mbind option_bind].
  change (days_before_year 1970) with 0 in Hyd.
  assert (year ≤ 9999) as Hymax.
  { destruct (decide (year ≤ 9999)) as [|Hn]; [done|].
    pose proof (days_before_year_mono 10000 year ltac:(lia)) as Hm.
    change (days_before_year 10000) with 2932897 in Hm. lia. }
  destruct (month_loop_spec 12 year rem 1) as (rem'&mo&dm&->&Hmo&Hdm&Hrem'&Hmd); [lia..| |].
  { change (days_before_month year 1) with 0. lia. }
  change (days_before_month year 1) with 0 in Hmd. cbn [mbind option_bind].
  destruct (days_in_month_spec year mo Hmo) as (dm'&Hdm'&?&_). simplify_eq.
  pose proof (Z.mod_pos_bound (secs / 60 / 60) 24). pose proof (Z.mod_pos_bound (secs / 60) 60).
  pose proof (Z.mod_pos_bound secs 60).
  rewrite !as_u32_id by (unfold_ints; lia).
  eexists _, _, _, _, _, _, _. split; [reflexivity|]. split_and!; try done; try lia.
  unfold epoch_secs. lia.
Qed.

(** The hand-written UTC decomposition terminates without reaching the
    month [panic!] for every second up to the end of the year 9999, yields
    fields in their calendar ranges, and is inverted by the closed form of
    the Gregorian calendar. *)
Theorem unix_to_ymd_hms_inverse secs :
  0 ≤ secs < max_secs →
  ∃ y mo d h mi s dm,
    unix_to_ymd_hms secs = Some (y, mo, d, h, mi, s)
    ∧ 1970 ≤ y ≤ 9999 ∧ 1 ≤ mo ≤ 12 ∧ days_in_month y mo = Some dm ∧ 1 ≤ d ≤ dm
    ∧ 0 ≤ h < 24 ∧ 0 ≤ mi < 60 ∧ 0 ≤ s < 60
    ∧ epoch_secs y mo d h mi s = secs.
Proof.
  intros Hs. destruct (decompose secs Hs) as (y&mo&d&h&mi&s&dm&H). exists y, mo, d, h, mi, s, dm.
  naive_solver.
Qed.

Lemma unix_to_ymd_hms_inverse_witness :
  unix_to_ymd_hms 1767268800 = Some (2026, 1, 1, 12, 0, 0)
  ∧ ∃ y mo d h mi s dm,
    unix_to_ymd_hms 1767268800 = Some (y, mo, d, h, mi, s)
    ∧ 1970 ≤ y ≤ 9999 ∧ 1 ≤ mo ≤ 12 ∧ days_in_month y mo = Some dm ∧ 1 ≤ d ≤ dm
    ∧ 0 ≤ h < 24 ∧ 0 ≤ mi < 60 ∧ 0 ≤ s < 60
    ∧ epoch_secs y mo d h mi s = 1767268800.
Proof.
  split; [vm_compute; reflexivity|]. apply unix_to_ymd_hms_inverse. unfold max_secs. lia.
Defined.
End Calendar.

(** ** Fork names *)
Module ForkName.
Import Calendar.

Definition NODE_ID_PREFIX_LEN : nat := 8.

(** [format!("{n:0w$}")]. *)
Definition zero_pad (w : nat) (s : chars) : chars := replicate (w - length s) "0"%char ++ s.
Definition dec (w : nat) (n : Z) : chars := zero_pad w (explode (pretty n)).

(** A [SystemTime] is nanoseconds relative to the epoch; times before it read
    as zero. *)
Definition ts_secs (ts : Z) : Z := if bool_decide (0 ≤ ts) then ts / 1000000000 else 0.

Definition format_timestamp (ts : Z) : option chars :=
  '(y, mo, d, h, mi, s) ← unix_to_ymd_hms (ts_secs ts);
  Some (dec 4 y ++ dec 2 mo ++ dec 2 d ++ "-"%char :: dec 2 h ++ dec 2 mi ++ dec 2 s).

Definition split_stem_ext (name : chars) : chars * chars :=
  let search_from := match name with "."%char :: _ => 1%nat | _ => 0%nat end in
  match Path.rfind "."%char (drop search_from name) with
  | None => (name, [])
  | Some rel_pos =>
      let dot_pos := (search_from + rel_pos)%nat in
      (take dot_pos name, drop (S dot_pos) name)
  end.

(** The filter to [[0-9a-f]], the cut to eight characters and the padding of
    [format!("{:0<8}", ..)]. *)
Definition keep_id_char (c : ascii) : bool :=
  (is_ascii_hexdigit c && is_ascii_lower c) || is_ascii_digit c.
Definition node_id8 (node_id : string) : chars :=
  let kept := take NODE_ID_PREFIX_LEN (List.filter keep_id_char (explode node_id)) in
  kept ++ replicate (8 - length kept) "0"%char.

Definition fork_suffix (node_id : string) (ts_str : chars) : chars :=
  explode "sync-conflict-" ++ node_id8 node_id ++ "-"%char :: ts_str.

Definition fork_name (file_name : chars) (suffix : chars) : chars :=
  let '(stem, ext) := split_stem_ext file_name in
  match ext with
  | [] => stem ++ "."%char :: suffix
  | _ => stem ++ "."%char :: suffix ++ "."%char :: ext
  end.

(** [if parent.is_empty() { name } else { parent.join(name) }]. *)
Definition place (parent name : string) : string :=
  if decide (parent = "") then name else Path.join parent name.

Definition fork_filename (rel_path node_id : string) (ts : Z) : option string :=
  let parent := default "" (Path.parent rel_path) in
  let file_name := default "" (Path.file_name rel_path) in
  ts_str ← format_timestamp ts;
  Some (place parent (implode (fork_name (explode file_name) (fork_suffix node_id ts_str)))).

Example fork_ex1 :
  (λ p, fork_filename p "abc12345deadbeef" (1767268800 * 1000000000))
    <$> ["notes/todo.md"; "archive.tar.gz"; "README"; ".obsidian/config"]
  = Some <$> ["notes/todo.sync-conflict-abc12345-20260101-120000.md";
              "archive.tar.sync-conflict-abc12345-20260101-120000.gz";
              "README.sync-conflict-abc12345-20260101-120000";
              ".obsidian/config.sync-conflict-abc12345-20260101-120000"].
Proof. vm_compute. reflexivity. Qed.
End ForkName.

Section fork_lemmas.
Import Calendar ForkName.

Lemma rfind_aux_spec c l i j :
  Path.rfind_aux c l i = Some j →
  (i ≤ j)%nat ∧ l !! (j - i)%nat = Some c ∧ c ∉ drop (S (j - i)) l.
Proof.
  revert i. induction l as [|d l IH]; intros i; simpl; [done|].
  destruct (Path.rfind_aux c l (S i)) as [j'|] eqn:Hr.
  - intros [= ->]. destruct (IH _ Hr) as (?&Hl&Hn). split; [lia|].
    replace (j - i)%nat with (S (j - S i)) by lia. done.
  - case_decide; [|done]. intros [= ->]. rewrite Nat.sub_diag. split; [done|]. split; [by subst|].
    simpl. clear IH. revert Hr. generalize (S j). subst. clear.
    induction l as [|e l IH]; intros k; simpl; [set_solver|].
    destruct (Path.rfind_aux c l (S k)) eqn:?; [done|]. case_decide; [done|].
    intros _ [->|?]%elem_of_cons; [done|]. by eapply IH.
Qed.

(** The name is the stem, or the stem, the last dot and the extension. *)
Lemma split_stem_ext_spec name :
  let '(stem, ext) := split_stem_ext name in
  (ext = [] ∧ (name = stem ∨ name = stem ++ ["."%char]))
  ∨ (ext ≠ [] ∧ name = stem ++ "."%char :: ext).
Proof.
  unfold split_stem_ext. set (k := match name with "."%char :: _ => 1%nat | _ => 0%nat end).
  unfold Path.rfind. destruct (Path.rfind_aux _ _ _) as [j|] eqn:Hr; [|auto].
  apply rfind_aux_spec in Hr as (_&Hl&_). rewrite Nat.sub_0_r, lookup_drop in Hl.
  apply take_drop_middle in Hl. destruct (drop (S (k + j)) name); eauto 6.
Qed.

Definition digit_run (w : nat) (n : Z) (s : chars) : Prop :=
  length s = w ∧ Forall (λ c, is_ascii_digit c = true) s
  ∧ foldl (λ a c, 10 * a + (ascii_code c - 48)) 0 s = n.

#[local] Instance digit_run_dec w n s : Decision (digit_run w n s).
Proof. unfold digit_run. apply _. Defined.

(** Fixed-width decimal fields, checked over their whole range. *)
Lemma dec2_run n : 0 ≤ n < 100 → digit_run 2 n (dec 2 n).
Proof.
  intros Hn. assert (Forall (λ n, digit_run 2 n (dec 2 n)) (seqZ 0 100)) as H
    by (apply (bool_decide_unpack _); vm_compute; exact I).
  rewrite Forall_forall in H. apply H, elem_of_seqZ. lia.
Qed.

Lemma dec4_run n : 1970 ≤ n < 10000 → digit_run 4 n (dec 4 n).
Proof.
  intros Hn. assert (Forall (λ n, digit_run 4 n (dec 4 n)) (seqZ 1970 8030)) as H
    by (apply (bool_decide_unpack _); vm_compute; exact I).
  rewrite Forall_forall in H. apply H, elem_of_seqZ. lia.
Qed.

Lemma digit_run_inj w n1 n2 s : digit_run w n1 s → digit_run w n2 s → n1 = n2.
Proof. intros (_&_&?) (_&_&?). congruence. Qed.

Definition stamp_chars (s : chars) : Prop :=
  Forall (λ c, is_ascii_digit c = true ∨ c = "-"%char) s.

Lemma digits_stamp w n s : digit_run w n s → stamp_chars s.
Proof. intros (_&H&_). eapply Forall_impl; [exact H|]. auto. Qed.

Lemma ts_secs_nonneg ts : 0 ≤ ts_secs ts.
Proof. unfold ts_secs. case_bool_decide; [apply Z.div_pos; lia|done]. Qed.

Lemma format_timestamp_spec ts :
  ts_secs ts < max_secs →
  ∃ s, format_timestamp ts = Some s ∧ length s = 15%nat ∧ stamp_chars s.
Proof.
  intros Hs. pose proof (ts_secs_nonneg ts).
  destruct (decompose (ts_secs ts)) as (y&mo&d&h&mi&se&dm&Hu&?&?&?&?&?&?&?&?&_); [lia|].
  unfold format_timestamp. rewrite Hu; cbn [mbind option_bind]. eexists. split; [done|].
  pose proof (dec4_run y ltac:(lia)) as Hy. pose proof (dec2_run mo ltac:(lia)) as Hmo.
  pose proof (dec2_run d ltac:(lia)) as Hd. pose proof (dec2_run h ltac:(lia)) as Hh.
  pose proof (dec2_run mi ltac:(lia)) as Hmi. pose proof (dec2_run se ltac:(lia)) as Hse.
  split.
  - rewrite !length_app. cbn [length]. rewrite !length_app.
    by rewrite (proj1 Hy), (proj1 Hmo), (proj1 Hd), (proj1 Hh), (proj1 Hmi), (proj1 Hse).
  - unfold stamp_chars. rewrite !Forall_app, Forall_cons, !Forall_app.
    split_and!; try (by right); by eapply digits_stamp.
Qed.

(** Distinct seconds have distinct stamps. *)
Lemma format_timestamp_inj ts1 ts2 :
  ts_secs ts1 < max_secs → ts_secs ts2 < max_secs →
  format_timestamp ts1 = format_timestamp ts2 → ts_secs ts1 = ts_secs ts2.
Proof.
  intros Hs1 Hs2. pose proof (ts_secs_nonneg ts1). pose proof (ts_secs_nonneg ts2).
  destruct (decompose (ts_secs ts1)) as (y&mo&d&h&mi&se&dm&Hu&?&?&?&?&?&?&?&?&He); [lia|].
  destruct (decompose (ts_secs ts2)) as (y2&mo2&d2&h2&mi2&se2&dm2&Hu2&?&?&?&?&?&?&?&?&He2); [lia|].
  unfold format_timestamp. rewrite Hu, Hu2; cbn [mbind option_bind]. intros [= Heq].
  pose proof (dec4_run y ltac:(lia)) as Ry. pose proof (dec4_run y2 ltac:(lia)) as Ry2.
  pose proof (dec2_run mo ltac:(lia)) as Rmo. pose proof (dec2_run mo2 ltac:(lia)) as Rmo2.
  pose proof (dec2_run d ltac:(lia)) as Rd. pose proof (dec2_run d2 ltac:(lia)) as Rd2.
  pose proof (dec2_run h ltac:(lia)) as Rh. pose proof (dec2_run h2 ltac:(lia)) as Rh2.
  pose proof (dec2_run mi ltac:(lia)) as Rmi. pose proof (dec2_run mi2 ltac:(lia)) as Rmi2.
  pose proof (dec2_run se ltac:(lia)) as Rs. pose proof (dec2_run se2 ltac:(lia)) as Rs2.
  assert (∀ w n n2, digit_run w n (dec w n) → digit_run w n2 (dec w n2) →
            length (dec w n) = length (dec w n2)) as Hlen
    by (intros ??? [] []; congruence).
  apply app_inj_1 in Heq as [E1 Heq]; [|by apply Hlen].
  apply app_inj_1 in Heq as [E2 Heq]; [|by apply Hlen].
  apply app_inj_1 in Heq as [E3 Heq]; [|by apply Hlen].
  injection Heq as Heq.
  apply app_inj_1 in Heq as [E4 Heq]; [|by apply Hlen].
  apply app_inj_1 in Heq as [E5 E6]; [|by apply Hlen].
  rewrite <-He, <-He2.
  rewrite E1 in Ry. rewrite E2 in Rmo. rewrite E3 in Rd. rewrite E4 in Rh. rewrite E5 in Rmi.
  rewrite E6 in Rs. f_equal; eauto using digit_run_inj.
Qed.
End fork_lemmas.

Section fork_props.
Import Calendar ForkName.

Lemma node_id8_spec node_id :
  length (node_id8 node_id) = 8%nat
  ∧ Forall (λ c, keep_id_char c = true) (node_id8 node_id).
Proof.
  unfold node_id8. set (kept := take _ _). split.
  - assert (length kept ≤ 8)%nat by (unfold kept; rewrite length_take; unfold NODE_ID_PREFIX_LEN; lia).
    rewrite length_app, length_replicate. lia.
  - apply Forall_app. split.
    + apply Forall_take, Forall_forall. intros c Hc%list_elem_of_In%List.filter_In. naive_solver.
    + by apply Forall_replicate.
Qed.

Lemma slash_not_digit : is_ascii_digit "/"%char = false. Proof. done. Qed.
Lemma slash_not_id : keep_id_char "/"%char = false. Proof. done. Qed.

Lemma fork_suffix_no_slash node_id s :
  stamp_chars s → "/"%char ∉ fork_suffix node_id s.
Proof.
  intros Hs. unfold fork_suffix. rewrite !elem_of_app, elem_of_cons.
  destruct (node_id8_spec node_id) as [_ Hid]. rewrite Forall_forall in Hid.
  unfold stamp_chars in Hs. rewrite Forall_forall in Hs.
  assert ("/"%char ∉ explode "sync-conflict-")
    by (apply (bool_decide_unpack _); vm_compute; exact I).
  intros [Hc|[Hc|[Hc|Hc]]]; [done|by apply Hid in Hc|done|].
  by apply Hs in Hc as [|].
Qed.

Lemma fork_name_no_slash name suffix :
  "/"%char ∉ name → "/"%char ∉ suffix → "/"%char ∉ fork_name name suffix.
Proof.
  intros Hn Hs. unfold fork_name. pose proof (split_stem_ext_spec name) as Hsp.
  destruct (split_stem_ext name) as [stem ext].
  assert ("/"%char ≠ "."%char) as Hne by done. revert Hne Hn Hs.
  generalize "/"%char "."%char. intros c d Hne Hn Hs.
  destruct ext as [|e ext]; destruct Hsp as [[? [->| ->]]|[? ->]]; try done; set_solver.
Qed.

Lemma fork_name_longer name suffix :
  suffix ≠ [] → (length name < length (fork_name name suffix))%nat.
Proof.
  intros Hs. unfold fork_name. pose proof (split_stem_ext_spec name) as Hsp.
  destruct suffix; [done|]. destruct (split_stem_ext name) as [stem ext].
  destruct ext as [|e ext]; destruct Hsp as [[? [->| ->]]|[? ->]]; try done;
    rewrite !length_app; simpl; rewrite ?length_app; simpl; lia.
Qed.

Lemma fork_name_inj name node_id s1 s2 :
  length s1 = length s2 →
  fork_name name (fork_suffix node_id s1) = fork_name name (fork_suffix node_id s2) → s1 = s2.
Proof.
  intros Hl. unfold fork_name, fork_suffix. destruct (split_stem_ext name) as [stem [|e ext]].
  - intros [= Heq]%(inj (app stem)). by apply (inj (app _)) in Heq as [= ?].
  - intros [= Heq]%(inj (app stem)).
    rewrite <-!(assoc_L (++)) in Heq. apply (inj (app _)) in Heq. simpl in Heq. simplify_eq.
    by apply app_inj_1 in Heq as [? _].
Qed.
End fork_props.

Section fork_components.
Import Calendar ForkName.

Lemma place_components parent name :
  plain_name name → Path.components (place parent name) = Path.components parent ++ [Path.Normal name].
Proof.
  intros Hn. unfold place. case_decide as Hp; [subst|by apply components_join_plain].
  rewrite components_rel by (by apply plain_relative). rewrite plain_segments by done.
  destruct Hn as (?&?&?&Hf). rewrite segments_single by done. simpl.
  by repeat case_match; simplify_eq.
Qed.

(** Whatever the original, the copy's own name is one plain path segment. *)
Lemma fork_name_plain name node_id stamp :
  "/"%char ∉ name → stamp_chars stamp →
  plain_name (implode (fork_name name (fork_suffix node_id stamp))).
Proof.
  intros Hn Hs.
  pose proof (fork_name_no_slash name _ Hn (fork_suffix_no_slash node_id _ Hs)) as Hns.
  assert (2 < length (fork_name name (fork_suffix node_id stamp)))%nat as Hlen.
  { unfold fork_name, fork_suffix. destruct (split_stem_ext name) as [stem []];
      rewrite !length_app; simpl; lia. }
  split_and!; [intros Heq%(f_equal (length ∘ explode));
               unfold compose in Heq; rewrite explode_implode in Heq; simpl in Heq; lia..|].
  unfold sep_free. by rewrite explode_implode.
Qed.

Lemma fork_filename_components rel_path node_id ts fork_rel :
  ts_secs ts < max_secs → fork_filename rel_path node_id ts = Some fork_rel →
  ∃ name, plain_name name
    ∧ Path.components fork_rel
      = Path.components (default "" (Path.parent rel_path)) ++ [Path.Normal name].
Proof.
  intros Hts. destruct (format_timestamp_spec ts Hts) as (stamp&Hst&_&Hs).
  unfold fork_filename. rewrite Hst; cbn [mbind option_bind]. intros [= <-].
  eexists. assert (plain_name (implode (fork_name (explode (default "" (Path.file_name rel_path)))
                                 (fork_suffix node_id stamp)))) as Hp.
  { apply fork_name_plain; [|done]. destruct (Path.file_name rel_path) eqn:Hf; simpl.
    - by apply file_name_plain in Hf as (_&_&_&?).
    - by intros ?%not_elem_of_nil. }
  split; [exact Hp|]. by apply place_components.
Qed.
End fork_components.

Module ForkProps.
Import Calendar ForkName.

Lemma place_inj parent n1 n2 :
  "/"%char ∉ explode n1 → "/"%char ∉ explode n2 → place parent n1 = place parent n2 → n1 = n2.
Proof.
  intros H1 H2. unfold place, Path.join. case_decide; [done|].
  assert (∀ n, "/"%char ∉ explode n → Path.is_absolute n = false) as Hrel.
  { intros n Hn. unfold Path.is_absolute, Path.has_root. apply not_true_is_false.
    intros [r ->]%starts_with_spec. apply Hn. rewrite explode_app. apply elem_of_app. left.
    constructor. }
  rewrite !Hrel by done. case_decide; intros Heq%(f_equal explode);
    rewrite !explode_app in Heq; repeat apply (inj (app _)) in Heq; by apply explode_inj.
Qed.

(** The conflict copy sits beside the original under a name that is the
    original's stem, a fixed tag, eight lowercase hex characters, a 15-byte
    stamp and the original's extension; the name is longer than the original's
    and free of path separators, whatever bytes the node id has. *)
Theorem fork_filename_shape rel_path node_id ts name :
  Path.file_name rel_path = Some name → ts_secs ts < max_secs →
  ∃ stem ext stamp new_name,
    fork_filename rel_path node_id ts = Some (place (default "" (Path.parent rel_path)) new_name)
    ∧ explode new_name
      = stem ++ explode ".sync-conflict-" ++ node_id8 node_id ++ ("-"%char :: stamp ++ ext)
    ∧ (explode name = stem ++ ext ∨ (ext = [] ∧ explode name = stem ++ ["."%char]))
    ∧ length (node_id8 node_id) = 8%nat
    ∧ Forall (λ c, keep_id_char c = true) (node_id8 node_id)
    ∧ length stamp = 15%nat ∧ stamp_chars stamp
    ∧ ("/"%char ∉ explode new_name) ∧ new_name ≠ name.
Proof.
  intros Hname Hs. destruct (format_timestamp_spec ts Hs) as (stamp&Hst&Hlen&Hstamp).
  destruct (node_id8_spec node_id) as [Hid1 Hid2].
  destruct (file_name_plain _ _ Hname) as (_&_&_&Hslash).
  pose proof (fork_name_longer (explode name) (fork_suffix node_id stamp) ltac:(done)) as Hlong.
  pose proof (fork_name_no_slash (explode name) (fork_suffix node_id stamp) Hslash
                (fork_suffix_no_slash _ _ Hstamp)) as Hns.
  unfold fork_filename. rewrite Hst, Hname. cbn [mbind option_bind default].
  set (nn := fork_name (explode name) (fork_suffix node_id stamp)) in *.
  destruct (split_stem_ext (explode name)) as [stem ext] eqn:Hsp.
  pose proof (split_stem_ext_spec (explode name)) as Hspec. rewrite Hsp in Hspec.
  exists stem, (match ext with [] => [] | _ => "."%char :: ext end), stamp, (implode nn).
  rewrite explode_implode. split_and!; try done.
  - unfold nn, fork_name, fork_suffix. rewrite Hsp.
    destruct ext; simpl; rewrite ?app_nil_r; [done|]. f_equal.
    change (explode ".sync-conflict-") with ("."%char :: explode "sync-conflict-").
    simpl. by rewrite <-!(assoc_L (++)).
  - destruct Hspec as [[-> [?|?]]|[? ?]]; [left; by rewrite app_nil_r|by right|].
    destruct ext; [done|by left].
  - intros Heq. rewrite <-Heq, explode_implode in Hlong. unfold nn in Hlong. lia.
Qed.

Lemma fork_filename_shape_witness :
  ∃ stem ext stamp new_name,
    fork_filename "notes/todo.md" "../etc" 0 = Some (place "notes" new_name)
    ∧ explode new_name
      = stem ++ explode ".sync-conflict-" ++ node_id8 "../etc" ++ ("-"%char :: stamp ++ ext)
    ∧ (explode "todo.md" = stem ++ ext ∨ (ext = [] ∧ explode "todo.md" = stem ++ ["."%char]))
    ∧ length (node_id8 "../etc") = 8%nat
    ∧ Forall (λ c, keep_id_char c = true) (node_id8 "../etc")
    ∧ length stamp = 15%nat ∧ stamp_chars stamp
    ∧ ("/"%char ∉ explode new_name) ∧ new_name ≠ "todo.md".
Proof.
  apply (fork_filename_shape "notes/todo.md" "../etc" 0 "todo.md"); vm_compute; reflexivity.
Defined.

(** Two conflicts of one file at different seconds get different copies
    on the same node, so neither overwrites the other. *)
Theorem fork_filename_unique rel_path node_id ts1 ts2 name :
  Path.file_name rel_path = Some name →
  ts_secs ts1 < max_secs → ts_secs ts2 < max_secs →
  fork_filename rel_path node_id ts1 = fork_filename rel_path node_id ts2 →
  ts_secs ts1 = ts_secs ts2.
Proof.
  intros Hname Hs1 Hs2.
  destruct (file_name_plain _ _ Hname) as (_&_&_&Hslash).
  destruct (format_timestamp_spec ts1 Hs1) as (s1&H1&Hl1&Hc1).
  destruct (format_timestamp_spec ts2 Hs2) as (s2&H2&Hl2&Hc2).
  unfold fork_filename. rewrite H1, H2, Hname. cbn [mbind option_bind default].
  intros [= Heq]. apply format_timestamp_inj; [done..|]. rewrite H1, H2. f_equal.
  apply place_inj in Heq; [|rewrite explode_implode;
    auto using fork_name_no_slash, fork_suffix_no_slash..].
  apply (f_equal explode) in Heq. rewrite !explode_implode in Heq.
  apply fork_name_inj in Heq; congruence.
Qed.

Lemma fork_filename_unique_witness :
  ts_secs 1000000001 = ts_secs 1999999999.
Proof. apply (fork_filename_unique "a.md" "n" _ _ "a.md"); vm_compute; reflexivity. Defined.
End ForkProps.

(** ** Three-way merge *)
Module Merge.
Definition SIZE_CAP : Z := 10 * 1024 * 1024.
Definition BINARY_SCAN_LEN : nat := 1024.

Inductive RefuseReason := NoBase | TooLarge | Binary | NotText.

Inductive MergeOutput :=
  | Clean (content : bytes)
  | Conflicted (content : bytes)
  | Refused (r : RefuseReason).

Definition has_nul (data : bytes) : bool :=
  bool_decide (x00 ∈ take (Nat.min (length data) BINARY_SCAN_LEN) data).

Definition oversize (data : bytes) : bool := bool_decide (SIZE_CAP < Z.of_nat (length data)).

(** [opts.merge(base, local, remote)] of the diffy crate: the merged text, or
    the text with conflict markers as the error. *)
Definition three_way_merge (diffy_merge : bytes → bytes → bytes → result bytes bytes)
    (base : option bytes) (local remote : bytes) : MergeOutput :=
  match base with
  | None => Refused NoBase
  | Some base =>
      if oversize base || oversize local || oversize remote then Refused TooLarge
      else if has_nul base || has_nul local || has_nul remote then Refused Binary
      else if negb (bytes_utf8 base) then Refused NotText
      else if negb (bytes_utf8 local) then Refused NotText
      else if negb (bytes_utf8 remote) then Refused NotText
      else match diffy_merge base local remote with
           | Ok merged => Clean merged
           | Err conflicted => Conflicted conflicted
           end
  end.

Definition mergeable (d : bytes) : Prop :=
  Z.of_nat (length d) ≤ SIZE_CAP ∧ has_nul d = false ∧ bytes_utf8 d = true.

(** A clean result is diffy's own, on three bounded NUL-free texts. *)
Lemma three_way_merge_clean diffy base local remote m :
  three_way_merge diffy base local remote = Clean m ↔
  ∃ b, base = Some b ∧ diffy b local remote = Ok m
    ∧ mergeable b ∧ mergeable local ∧ mergeable remote.
Proof.
  unfold three_way_merge, oversize, mergeable. destruct base as [b|]; [|naive_solver].
  repeat case_bool_decide; simpl;
    try (split; [done|intros (?&[= <-]&?&?); lia]).
  destruct (has_nul b) eqn:?, (has_nul local) eqn:?, (has_nul remote) eqn:?; simpl;
    try (split; [done|intros (?&[= <-]&?&?); intuition congruence]).
  destruct (bytes_utf8 b) eqn:?, (bytes_utf8 local) eqn:?, (bytes_utf8 remote) eqn:?; simpl;
    try (split; [done|intros (?&[= <-]&?&?); intuition congruence]).
  split.
  - destruct (diffy b local remote) eqn:?; [|by intros].
    intros [= <-]. exists b. split_and!; done || lia.
  - intros (?&[= <-]&->&_). done.
Qed.
End Merge.
