(* ===== verification/Fs.v ===== *)
(** * The file system

    What client and server use of [std::fs] and [tempfile]: regular files keyed by
    the components of their absolute path, directories, and calls any of which
    may fail. A temporary file is private to its handle until [persist] renames
    it into place, and vanishes with the handle. *)

From stdpp Require Import prelude gmap strings.
From Stdlib Require Import ZArith Lia.
From S2P Require Import Prelude Text.

Module Fs.
Import Path.

Inductive io_kind := AlreadyExists | NotFound | OtherKind.
Record io_error := IoError { kind : io_kind; msg : string }.

Record t := mk {
  files : gmap (list component) bytes;
  dirs : gset (list component);
  calls : nat
}.

(** Every system call may fail: the environment decides by the number of
    calls made so far. *)
Abbreviation faults := (nat → option io_error).
Abbreviation io := (stm t io_error).

Definition syscall (f : faults) : io unit := λ fs,
  (match f (calls fs) with Some e => Err e | None => Ok tt end,
   mk (files fs) (dirs fs) (S (calls fs))).

Definition prefixes (p : list component) : list (list component) :=
  (λ n, take n p) <$> seq 0 (S (length p)).

Definition create_dir_all (f : faults) (p : string) : io unit :=
  _ <~ syscall f ;;
  λ fs,
    if bool_decide (Exists (λ q, is_Some (files fs !! q)) (prefixes (components p)))
    then (Err (IoError OtherKind "not a directory"), fs)
    else (Ok tt, mk (files fs) (list_to_set (prefixes (components p)) ∪ dirs fs) (calls fs)).

(** A file, and a file or a directory, is there. *)
Definition regular (fs : t) (p : string) : bool := bool_decide (is_Some (files fs !! components p)).
Definition there (fs : t) (p : string) : bool := regular fs p || bool_decide (components p ∈ dirs fs).

(** [Path::exists] and [Path::is_file] call [stat], and say [false] of what
    could not be examined. *)
Definition stat (f : faults) (P : t → bool) : io bool := λ fs,
  (Ok (match f (calls fs) with Some _ => false | None => P fs end),
   mk (files fs) (dirs fs) (S (calls fs))).
Definition exists_ (f : faults) (p : string) : io bool := stat f (λ fs, there fs p).
Definition is_file (f : faults) (p : string) : io bool := stat f (λ fs, regular fs p).

(** [NamedTempFile::new_in(parent)], [write_all], [flush]. *)
Definition temp_with (f : faults) (contents : bytes) : io bytes :=
  _ <~ syscall f ;; _ <~ syscall f ;; _ <~ syscall f ;; st_ret contents.

(** [NamedTempFile::persist]: an atomic rename. *)
Definition persist (f : faults) (tmp : bytes) (p : string) : io unit :=
  _ <~ syscall f ;;
  λ fs,
    if bool_decide (components p ∈ dirs fs) then (Err (IoError OtherKind "is a directory"), fs)
    else (Ok tt, mk (<[components p := tmp]> (files fs)) (dirs fs) (calls fs)).

(** ** The calls on named files the server makes

    Creating a file needs its directory. A failing [write_all] may leave any
    prefix of what it was given; [cut] says how much. *)
Abbreviation cuts := (nat → nat).

Definition in_dir (fs : t) (p : list component) : bool := bool_decide (removelast p ∈ dirs fs).
Definition set_files (m : gmap (list component) bytes) (fs : t) : t := mk m (dirs fs) (calls fs).

(** [File::create], and [OpenOptions] with [create_new] when [fresh]. *)
Definition create (f : faults) (fresh : bool) (p : string) : io unit :=
  _ <~ syscall f ;;
  λ fs,
    if bool_decide (components p ∈ dirs fs) then (Err (IoError OtherKind "is a directory"), fs)
    else if fresh && regular fs p then (Err (IoError AlreadyExists "file exists"), fs)
    else if in_dir fs (components p) then (Ok tt, set_files (<[components p := []]> (files fs)) fs)
    else (Err (IoError NotFound "no such directory"), fs).

(** [write_all] at the end of the open file [p]. *)
Definition write_all (f : faults) (cut : cuts) (p : string) (data : bytes) : io unit := λ fs,
  let put b := set_files (<[components p := default [] (files fs !! components p) ++ b]> (files fs)) fs in
  let n := calls fs in
  match f n with
  | Some e => (Err e, mk (files (put (take (cut n) data))) (dirs fs) (S n))
  | None => (Ok tt, mk (files (put data)) (dirs fs) (S n))
  end.

Definition remove_file (f : faults) (p : string) : io unit :=
  _ <~ syscall f ;;
  λ fs,
    if regular fs p then (Ok tt, set_files (delete (components p) (files fs)) fs)
    else (Err (IoError NotFound "no such file"), fs).

Definition rename (f : faults) (src dst : string) : io unit :=
  _ <~ syscall f ;;
  λ fs,
    match files fs !! components src with
    | None => (Err (IoError NotFound "no such file"), fs)
    | Some b =>
        if bool_decide (components dst ∈ dirs fs) then (Err (IoError OtherKind "is a directory"), fs)
        else if in_dir fs (components dst)
        then (Ok tt, set_files (<[components dst := b]> (delete (components src) (files fs))) fs)
        else (Err (IoError NotFound "no such directory"), fs)
    end.

Definition read (f : faults) (p : string) : io bytes :=
  _ <~ syscall f ;;
  λ fs, (ok_or (files fs !! components p) (IoError NotFound "no such file"), fs).

(** [std::fs::write] and [std::fs::copy]. *)
Definition write (f : faults) (cut : cuts) (p : string) (data : bytes) : io unit :=
  _ <~ create f false p ;; write_all f cut p data.
Definition copy (f : faults) (cut : cuts) (src dst : string) : io unit :=
  data <~ read f src ;; write f cut dst data.

(** A call whose result is dropped. *)
Definition attempt {A} (m : io A) : io unit := λ fs, (Ok tt, (m fs).2).

(** ** What each call does to the regular files *)
Lemma syscall_files f fs r fs' : syscall f fs = (r, fs') → files fs' = files fs ∧ dirs fs' = dirs fs.
Proof. unfold syscall. by intros [= <- <-]. Qed.

(** A stat changes nothing; [true] is never wrong, and [false] only when the
    stat failed. *)
Lemma stat_spec f P fs r fs' :
  stat f P fs = (r, fs') →
  files fs' = files fs ∧ dirs fs' = dirs fs
  ∧ ∃ b, r = Ok b ∧ (b = true → P fs = true) ∧ (b = false → P fs = false ∨ is_Some (f (calls fs))).
Proof.
  unfold stat. intros [= <- <-]. split_and!; [done..|]. eexists. split; [done|]. case_match; naive_solver.
Qed.

Lemma stat_quiet f P fs : f (calls fs) = None → (stat f P fs).1 = Ok (P fs).
Proof. unfold stat. by intros ->. Qed.

Lemma there_regular fs p : regular fs p = true → there fs p = true.
Proof. unfold there. by intros ->. Qed.

Lemma not_there fs p :
  there fs p = false → files fs !! components p = None ∧ components p ∉ dirs fs.
Proof.
  unfold there, regular. intros [H H2]%orb_false_iff. apply bool_decide_eq_false in H, H2.
  split; [by apply eq_None_not_Some|done].
Qed.

Lemma there_file fs p :
  components p ∉ dirs fs → there fs p = true → is_Some (files fs !! components p).
Proof.
  unfold there, regular. intros Hd. rewrite (bool_decide_false _ Hd), orb_false_r. apply bool_decide_eq_true.
Qed.

Lemma create_dir_all_files f p fs r fs' :
  create_dir_all f p fs = (r, fs') → files fs' = files fs.
Proof.
  unfold create_dir_all, st_bind, syscall; simpl. destruct (f (calls fs)); [by intros [= <- <-]|].
  case_bool_decide; by intros [= <- <-].
Qed.

Lemma temp_with_files f c fs r fs' :
  temp_with f c fs = (r, fs') →
  files fs' = files fs ∧ (∀ d, r = Ok d → d = c).
Proof.
  unfold temp_with, st_bind, st_ret, syscall; simpl.
  repeat (case_match; simplify_eq/=; try (intros [= <- <-]; naive_solver)).
Qed.

Lemma persist_files f tmp p fs r fs' :
  persist f tmp p fs = (r, fs') →
  (r = Ok tt ∧ files fs' = <[components p := tmp]> (files fs))
  ∨ ((∃ e, r = Err e) ∧ files fs' = files fs).
Proof.
  unfold persist, st_bind, syscall; simpl. destruct (f (calls fs)); [intros [= <- <-]; eauto|].
  case_bool_decide; intros [= <- <-]; eauto.
Qed.
(** ** What they leave alone

    [frame P m]: whatever happens, [m] changes no file outside [P]. *)
Definition frame {A} (P : list component → Prop) (m : io A) : Prop :=
  ∀ fs r fs', m fs = (r, fs') → ∀ q, ¬ P q → files fs' !! q = files fs !! q.

Section frames.
Implicit Types P : list component → Prop.

Lemma frame_ret {A} P (a : A) : frame P (st_ret a).
Proof. intros fs r fs' [= <- <-] q _. done. Qed.

Lemma frame_err {A} P e : frame (A:=A) P (st_err e).
Proof. intros fs r fs' [= <- <-] q _. done. Qed.

Lemma frame_bind {A B} P (m : io A) (k : A → io B) :
  frame P m → (∀ a, frame P (k a)) → frame P (st_bind m k).
Proof.
  intros Hm Hk fs r fs' H q Hq. unfold st_bind in H. destruct (m fs) as [[a|e] fs1] eqn:E.
  - rewrite (Hk a _ _ _ H q Hq). eauto.
  - simplify_eq. eauto.
Qed.

Lemma frame_mono {A} P (Q : list component → Prop) (m : io A) : frame P m → (∀ q, P q → Q q) → frame Q m.
Proof. intros Hm HPQ fs r fs' H q Hq. eapply Hm; eauto. Qed.

Lemma frame_syscall P f : frame P (syscall f).
Proof. intros fs r fs' [H _]%syscall_files q _. by rewrite H. Qed.

Lemma frame_stat P f Q : frame P (stat f Q).
Proof. intros fs r fs' (H&_)%stat_spec q _. by rewrite H. Qed.

Lemma frame_create_dir_all P f p : frame P (create_dir_all f p).
Proof. intros fs r fs' H%create_dir_all_files q _. by rewrite H. Qed.

Lemma frame_create f fresh p : frame (λ q, q = components p) (create f fresh p).
Proof.
  apply frame_bind; [apply frame_syscall|]. intros _ fs r fs' H q Hq.
  repeat case_match; simplify_eq/=; rewrite ?lookup_insert_ne by congruence; done.
Qed.

Lemma frame_write_all f cut p d : frame (λ q, q = components p) (write_all f cut p d).
Proof.
  intros fs r fs' H q Hq. unfold write_all in H.
  case_match; simplify_eq/=; by rewrite lookup_insert_ne by congruence.
Qed.

Lemma frame_remove_file f p : frame (λ q, q = components p) (remove_file f p).
Proof.
  apply frame_bind; [apply frame_syscall|]. intros _ fs r fs' H q Hq.
  case_match; simplify_eq/=; by rewrite ?lookup_delete_ne by congruence.
Qed.

Lemma frame_rename f src dst : frame (λ q, q = components src ∨ q = components dst) (rename f src dst).
Proof.
  apply frame_bind; [apply frame_syscall|]. intros _ fs r fs' H q Hq.
  repeat case_match; simplify_eq/=; rewrite ?lookup_insert_ne, ?lookup_delete_ne by naive_solver; done.
Qed.

Lemma frame_read P f p : frame P (read f p).
Proof.
  apply frame_bind; [apply frame_syscall|]. intros _ fs r fs' [= _ <-] q Hq. done.
Qed.

Lemma frame_write f cut p d : frame (λ q, q = components p) (write f cut p d).
Proof. apply frame_bind; [apply frame_create|]. intros _. apply frame_write_all. Qed.

Lemma frame_copy f cut src dst : frame (λ q, q = components dst) (copy f cut src dst).
Proof. apply frame_bind; [apply frame_read|]. intros d. apply frame_write. Qed.

Lemma frame_attempt {A} P (m : io A) : frame P m → frame P (attempt m).
Proof.
  intros Hm fs r fs' H q Hq. unfold attempt in H. destruct (m fs) eqn:E. simplify_eq/=. eauto.
Qed.
End frames.

(** A rename that succeeded moved the bytes; one that failed did nothing. *)
Lemma rename_spec f src dst fs r fs' :
  rename f src dst fs = (r, fs') →
  (r = Ok tt ∧ ∃ b, files fs !! components src = Some b
     ∧ files fs' = <[components dst := b]> (delete (components src) (files fs)))
  ∨ ((∃ e, r = Err e) ∧ files fs' = files fs).
Proof.
  unfold rename, st_bind, syscall; cbn. intros H. repeat case_match; simplify_eq/=; eauto 10.
Qed.

Lemma write_all_ok f cut p d fs r fs' :
  write_all f cut p d fs = (Ok r, fs') →
  files fs' !! components p = Some (default [] (files fs !! components p) ++ d).
Proof. unfold write_all. case_match; intros [= <- <-]. simpl. by rewrite lookup_insert_eq. Qed.

Lemma create_ok f fresh p fs r fs' :
  create f fresh p fs = (Ok r, fs') → files fs' !! components p = Some [].
Proof.
  unfold create, st_bind, syscall; cbn. intros H. repeat case_match; simplify_eq/=; by rewrite lookup_insert_eq.
Qed.
(** Only [create_dir_all] makes directories, the ancestors of its argument. *)
Lemma prefixes_length p d : d ∈ prefixes p → (length d ≤ length p)%nat.
Proof. unfold prefixes. intros (n&->&_)%list_elem_of_fmap. rewrite length_take. lia. Qed.

Lemma create_dir_all_dirs f p fs r fs' d :
  create_dir_all f p fs = (r, fs') → d ∈ dirs fs' →
  d ∈ dirs fs ∨ (length d ≤ length (components p))%nat.
Proof.
  unfold create_dir_all, st_bind, syscall; cbn -[prefixes]. intros H Hd.
  repeat case_match; simplify_eq; try (by left); cbn [dirs] in Hd.
  apply elem_of_union in Hd as [Hd|Hd]; [right|by left].
  by apply elem_of_list_to_set, prefixes_length in Hd.
Qed.

Lemma create_dirs f fresh p fs r fs' : create f fresh p fs = (r, fs') → dirs fs' = dirs fs.
Proof. unfold create, st_bind, syscall; cbn. intros H. by repeat case_match; simplify_eq/=. Qed.

Lemma write_all_dirs f cut p d fs r fs' : write_all f cut p d fs = (r, fs') → dirs fs' = dirs fs.
Proof. unfold write_all. intros H. by case_match; simplify_eq/=. Qed.

Lemma rename_dirs f src dst fs r fs' : rename f src dst fs = (r, fs') → dirs fs' = dirs fs.
Proof. unfold rename, st_bind, syscall; cbn. intros H. by repeat case_match; simplify_eq/=. Qed.

Lemma remove_file_dirs f p fs r fs' : remove_file f p fs = (r, fs') → dirs fs' = dirs fs.
Proof. unfold remove_file, st_bind, syscall; cbn. intros H. by repeat case_match; simplify_eq/=. Qed.

(** ** When nothing failed

    The calls a computation made are numbered from [calls fs] to [calls fs'];
    [quiet] says that none of them failed. *)
Definition quiet (f : faults) (fs fs' : t) : Prop := ∀ n, (calls fs ≤ n < calls fs')%nat → f n = None.

Definition grows {E A} (m : stm t E A) : Prop := ∀ fs r fs', m fs = (r, fs') → (calls fs ≤ calls fs')%nat.

Lemma quiet_mono f fs fs1 fs2 fs3 :
  (calls fs ≤ calls fs1)%nat → (calls fs2 ≤ calls fs3)%nat → quiet f fs fs3 → quiet f fs1 fs2.
Proof. intros H1 H2 Hq n Hn. apply Hq. lia. Qed.

Section grow.
Context {E : Type}.

Lemma grows_ret {A} (a : A) : grows (E:=E) (st_ret a).
Proof. by intros fs r fs' [= _ <-]. Qed.

Lemma grows_err {A} (e : E) : grows (A:=A) (st_err e).
Proof. by intros fs r fs' [= _ <-]. Qed.

Lemma grows_lift {A} (x : result A E) : grows (st_lift x).
Proof. by intros fs r fs' [= _ <-]. Qed.

Lemma grows_bind {A B} (m : stm t E A) (k : A → stm t E B) :
  grows m → (∀ a, grows (k a)) → grows (st_bind m k).
Proof.
  intros Hm Hk fs r fs' H. unfold st_bind in H. destruct (m fs) as [[a|e] fs1] eqn:E1; apply Hm in E1.
  - apply Hk in H. lia.
  - by simplify_eq.
Qed.

End grow.

Lemma grows_syscall f : grows (syscall f).
Proof. intros fs r fs' [= _ <-]. simpl. lia. Qed.

Lemma grows_stat f P : grows (stat f P).
Proof. intros fs r fs' [= _ <-]. simpl. lia. Qed.

Lemma grows_create_dir_all f p : grows (create_dir_all f p).
Proof.
  apply grows_bind; [apply grows_syscall|]. intros _ fs r fs' H. by case_match; simplify_eq/=.
Qed.

Lemma grows_temp_with f c : grows (temp_with f c).
Proof. unfold temp_with. repeat (apply grows_bind; [apply grows_syscall|intros _]). apply grows_ret. Qed.

Lemma grows_persist f d p : grows (persist f d p).
Proof.
  apply grows_bind; [apply grows_syscall|]. intros _ fs r fs' H. by case_match; simplify_eq/=.
Qed.

Lemma grows_read f p : grows (read f p).
Proof. apply grows_bind; [apply grows_syscall|]. by intros _ fs r fs' [= _ <-]. Qed.

(** What a stat that did not fail says. *)
Lemma stat_false f P fs fs' : stat f P fs = (Ok false, fs') → quiet f fs fs' → P fs = false.
Proof.
  unfold stat. intros [= H <-] Hq. rewrite (Hq (calls fs)) in H by (simpl; lia). done.
Qed.
End Fs.
