(* ===== verification/BlobStore.v ===== *)
(** * Content-addressed stores ([disk-core/src/content_store.rs],
      [disk-client/src/blob_cache.rs])

    Both keep a blob in the file named by its digest in hexadecimal, two
    characters of directory and sixty-two of file name. The server's store
    writes a named temporary file and renames it; the client's cache uses
    [tempfile] and drops the result of the rename. *)

From stdpp Require Import prelude gmap strings pretty.
From Stdlib Require Import ZArith Lia Strings.Byte Strings.Ascii.
From S2P Require Import Prelude Text PathFacts Fs.

#[local] Open Scope Z_scope.

(** ** [hex::encode] *)
Module Hex.
Definition digit (d : Z) : ascii :=
  Ascii.ascii_of_nat (Z.to_nat (if bool_decide (d < 10) then 48 + d else 87 + d)).

Definition chars_of (b : bytes) : list ascii :=
  b ≫= λ x, [digit (byteZ x / 16); digit (byteZ x mod 16)].

Definition encode (b : bytes) : string := implode (chars_of b).

Lemma digit_code d : 0 ≤ d < 16 → ascii_code (digit d) = if bool_decide (d < 10) then 48 + d else 87 + d.
Proof.
  intros Hd. unfold digit, ascii_code, N_of_ascii.
  assert (d = 0 ∨ d = 1 ∨ d = 2 ∨ d = 3 ∨ d = 4 ∨ d = 5 ∨ d = 6 ∨ d = 7 ∨ d = 8 ∨ d = 9 ∨ d = 10
          ∨ d = 11 ∨ d = 12 ∨ d = 13 ∨ d = 14 ∨ d = 15) as Hc by lia.
  destruct_or! Hc; subst; reflexivity.
Qed.

Lemma digit_inj d e : 0 ≤ d < 16 → 0 ≤ e < 16 → digit d = digit e → d = e.
Proof.
  intros Hd He Heq. assert (ascii_code (digit d) = ascii_code (digit e)) as H by congruence.
  rewrite !digit_code in H by done. crush.
Qed.

(** Every character is a lower-case hexadecimal digit. *)
Lemma chars_of_hex b c : c ∈ chars_of b → 48 ≤ ascii_code c ≤ 57 ∨ 97 ≤ ascii_code c ≤ 102.
Proof.
  unfold chars_of. intros (x&Hc&_)%list_elem_of_bind. pose proof (byteZ_range x) as Hx.
  assert (0 ≤ byteZ x / 16 < 16) by (split; [apply Z.div_pos; lia|apply Z.div_lt_upper_bound; lia]).
  pose proof (Z.mod_pos_bound (byteZ x) 16).
  apply elem_of_cons in Hc as [->|Hc%list_elem_of_singleton]; [|subst c];
    rewrite digit_code by lia; case_bool_decide; lia.
Qed.

Lemma byteZ_inj x y : byteZ x = byteZ y → x = y.
Proof.
  unfold byteZ. intros H%N2Z.inj. apply (inj Some). by rewrite <-!Byte.of_to_N, H.
Qed.

Lemma chars_of_inj b c : chars_of b = chars_of c → b = c.
Proof.
  revert c. induction b as [|x b IH]; intros [|y c]; try done. cbn. intros [= H1 H2 H3%IH].
  pose proof (byteZ_range x). pose proof (byteZ_range y).
  apply digit_inj in H1; [|split; [apply Z.div_pos; lia|apply Z.div_lt_upper_bound; lia]..].
  apply digit_inj in H2; [|apply Z.mod_pos_bound; lia..].
  f_equal; [|done]. apply byteZ_inj.
  rewrite (Z.div_mod (byteZ x) 16), (Z.div_mod (byteZ y) 16) by lia. congruence.
Qed.

Lemma length_chars_of b : length (chars_of b) = (2 * length b)%nat.
Proof.
  induction b as [|x b IH]; [done|]. change (2 + length (chars_of b) = 2 * length (x :: b))%nat.
  rewrite IH. simpl. lia.
Qed.

(** A non-empty slice of an encoding is a plain file name. *)
Lemma slice_plain b l : l ≠ [] → (∀ c, c ∈ l → c ∈ chars_of b) → plain_name (implode l).
Proof.
  intros Hl Hin.
  assert (∀ c, c ∈ explode (implode l) → c ≠ "."%char ∧ c ≠ "/"%char) as Hc.
  { intros c. rewrite explode_implode. intros Hcl%Hin%chars_of_hex.
    split; intros ->; vm_compute in Hcl; naive_solver lia. }
  split_and!.
  - intros H. apply Hl. by rewrite <-(explode_implode l), H.
  - intros H. destruct (Hc "."%char) as [[] _]; [|done]. rewrite H. set_solver.
  - intros H. destruct (Hc "."%char) as [[] _]; [|done]. rewrite H. set_solver.
  - intros H. by destruct (Hc _ H).
Qed.
End Hex.

(** ** The shared layout *)
Module BlobLayout.
Import Path.

Definition fan (hash : bytes) : string := implode (take 2 (Hex.chars_of hash)).
Definition leaf (hash : bytes) : string := implode (drop 2 (Hex.chars_of hash)).
Definition blob_path (root : string) (hash : bytes) : string := join (join root (fan hash)) (leaf hash).

Lemma fan_plain h : hash32 h → plain_name (fan h).
Proof.
  intros Hh. apply (Hex.slice_plain h).
  - intros H%(f_equal length). rewrite length_take, Hex.length_chars_of, Hh in H. simpl in H. lia.
  - intros c Hc. rewrite <-(take_drop 2 (Hex.chars_of h)). apply elem_of_app. by left.
Qed.

Lemma leaf_plain h : hash32 h → plain_name (leaf h).
Proof.
  intros Hh. apply (Hex.slice_plain h).
  - intros H%(f_equal length). rewrite length_drop, Hex.length_chars_of, Hh in H. simpl in H. lia.
  - intros c Hc. rewrite <-(take_drop 2 (Hex.chars_of h)). apply elem_of_app. by right.
Qed.

Lemma join_nonempty p q : p ≠ "" → join p q ≠ "".
Proof.
  intros Hp. unfold join. destruct (is_absolute q) eqn:Hq.
  { intros ->. done. }
  rewrite decide_False by done. destruct p; [done|]. case_decide; done.
Qed.

(** A blob's path is the root, the directory and the leaf. *)
Lemma blob_path_components root h :
  root ≠ "" → hash32 h →
  components (blob_path root h) = components root ++ [Normal (fan h); Normal (leaf h)].
Proof.
  intros Hr Hh. unfold blob_path.
  rewrite !components_join_plain by eauto using fan_plain, leaf_plain, join_nonempty.
  by rewrite <-(assoc_L (++)).
Qed.

Lemma blob_path_inj root h1 h2 :
  root ≠ "" → hash32 h1 → hash32 h2 →
  components (blob_path root h1) = components (blob_path root h2) → h1 = h2.
Proof.
  intros Hr H1 H2. rewrite !blob_path_components by done. intros H%(inj (app _)).
  injection H as Hf Hl. apply Hex.chars_of_inj.
  rewrite <-(take_drop 2 (Hex.chars_of h1)), <-(take_drop 2 (Hex.chars_of h2)).
  f_equal; [rewrite <-(explode_implode (take 2 _))|rewrite <-(explode_implode (drop 2 _))].
  - unfold fan in Hf. by rewrite Hf, explode_implode.
  - unfold leaf in Hl. by rewrite Hl, explode_implode.
Qed.
End BlobLayout.

(** ** [ContentBlobStore] *)
Module ContentBlobStore.
Import Path BlobLayout.

Section store.
Context (f : Fs.faults) (cut : Fs.cuts) (root : string).

Definition tmp_path (nanos : Z) (hash : bytes) : string :=
  join (default "." (parent (blob_path root hash))) (".tmp-" +:+ pretty nanos).

(** [nanos] is the clock's reading. *)
Definition put (nanos : Z) (hash contents : bytes) : Fs.io unit :=
  let dest := blob_path root hash in
  there <~ Fs.exists_ f dest ;;
  if (there : bool) then st_ret tt
  else
    _ <~ match parent dest with Some p => Fs.create_dir_all f p | None => st_ret tt end ;;
    let tmp := tmp_path nanos hash in
    _ <~ Fs.create f false tmp ;;
    _ <~ Fs.write_all f cut tmp contents ;;
    _ <~ Fs.syscall f ;;
    λ fs, match Fs.rename f tmp dest fs with
          | (Ok _, fs) => (Ok tt, fs)
          | (Err e, fs) =>
              (there <~ Fs.exists_ f dest ;;
               if (there : bool) then Fs.attempt (Fs.remove_file f tmp) else st_err e) fs
          end.

Definition get (hash : bytes) : Fs.io (option bytes) := λ fs,
  let '(r, fs) := Fs.read f (blob_path root hash) fs in
  (Ok (match r with Ok b => Some b | Err _ => None end), fs).

Definition contains (hash : bytes) : Fs.io bool := Fs.is_file f (blob_path root hash).
End store.
#[global] Arguments put : simpl never.
#[global] Arguments contains : simpl never.
End ContentBlobStore.

(** ** [BlobCache] *)
Module BlobCache.
Import Path BlobLayout.

Inductive BlobCacheError := Io (e : Fs.io_error).

Section cache.
Context (f : Fs.faults) (root : string).

(** The result of [persist] is dropped. *)
Definition put (hash contents : bytes) : stm Fs.t BlobCacheError unit := λ fs,
  let dest := blob_path root hash in
  let '(r, fs) :=
    (there <~ Fs.exists_ f dest ;;
     if (there : bool) then st_ret tt
     else
       _ <~ match parent dest with Some p => Fs.create_dir_all f p | None => st_ret tt end ;;
       tmp <~ Fs.temp_with f contents ;;
       Fs.attempt (Fs.persist f tmp dest)) fs in
  (map_err Io r, fs).

Definition get (hash : bytes) : stm Fs.t BlobCacheError (option bytes) := λ fs,
  let '(r, fs) := Fs.read f (blob_path root hash) fs in
  (Ok (match r with Ok b => Some b | Err _ => None end), fs).
End cache.
End BlobCache.

(** ** Lemmas *)

(** Numbers are written in digits and a sign. *)
Lemma pretty_N_go_digits x s :
  (∀ d, d ∈ explode s → is_ascii_digit d = true) →
  ∀ d, d ∈ explode (pretty_N_go x s) → is_ascii_digit d = true.
Proof.
  revert s. induction (N.lt_wf_0 x) as [x _ IH]. intros s Hs d.
  assert (x = 0 ∨ 0 < x)%N as [->|?] by lia; [by rewrite pretty_N_go_0; apply Hs|].
  rewrite pretty_N_go_step by done. apply IH; [by apply N.div_lt|].
  intros e. simpl. intros [->|He]%elem_of_cons; [|by apply Hs].
  unfold pretty_N_char. by repeat case_match.
Qed.

Lemma pretty_N_digits (n : N) c : c ∈ explode (pretty n) → is_ascii_digit c = true.
Proof.
  unfold pretty, pretty_N. case_decide.
  - by intros ->%list_elem_of_singleton.
  - apply pretty_N_go_digits. cbn. set_solver.
Qed.

Lemma pretty_Z_sep_free (z : Z) : "/"%char ∉ explode (pretty z).
Proof.
  unfold pretty, pretty_Z. intros H. destruct z as [|p|p]; cbn [explode] in H.
  - by apply list_elem_of_singleton in H.
  - by apply (pretty_N_digits (Npos p)) in H.
  - rewrite explode_app in H. apply elem_of_app in H as [H|H].
    + by apply list_elem_of_singleton in H.
    + by apply (pretty_N_digits (Npos p)) in H.
Qed.

Section stores.
Import Path BlobLayout.
Context (f : Fs.faults) (cut : Fs.cuts) (root : string).

Definition tmp_name (z : Z) : string := ".tmp-" +:+ pretty z.

Lemma tmp_name_plain z : plain_name (tmp_name z).
Proof.
  unfold tmp_name. split_and!; [done..|]. unfold sep_free. rewrite explode_app.
  intros [H|H]%elem_of_app; [|by apply pretty_Z_sep_free in H].
  cbn in H. set_solver.
Qed.

(** No temporary name is a blob's name. *)
Lemma tmp_name_not_leaf z h : tmp_name z ≠ leaf h.
Proof.
  intros H. assert ("."%char ∈ explode (leaf h)) as Hin.
  { rewrite <-H. unfold tmp_name. rewrite explode_app. apply elem_of_app. left. constructor. }
  unfold leaf in Hin. rewrite explode_implode in Hin.
  assert ("."%char ∈ Hex.chars_of h) as Hc%Hex.chars_of_hex.
  { rewrite <-(take_drop 2 (Hex.chars_of h)). apply elem_of_app. by right. }
  vm_compute in Hc. naive_solver lia.
Qed.

Lemma components_nonempty p : components p ≠ [] → p ≠ "".
Proof. by intros H ->. Qed.

Lemma blob_parent h :
  root ≠ "" → hash32 h →
  ∃ q, parent (blob_path root h) = Some q ∧ components q = components root ++ [Normal (fan h)].
Proof.
  intros Hr Hh. destruct (parent_spec (blob_path root h) (leaf h)) as (q&Hq&Hc&_).
  { unfold file_name. rewrite blob_path_components, cons_middle, (assoc_L (++)), last_snoc by done. done. }
  exists q. split; [done|]. rewrite blob_path_components, cons_middle, (assoc_L (++)) in Hc by done.
  by apply app_inj_tail in Hc as [-> _].
Qed.

Lemma tmp_path_components z h :
  root ≠ "" → hash32 h →
  components (ContentBlobStore.tmp_path root z h)
  = components root ++ [Normal (fan h); Normal (tmp_name z)].
Proof.
  intros Hr Hh. destruct (blob_parent h) as (q&Hq&Hc); [done..|].
  unfold ContentBlobStore.tmp_path. rewrite Hq. simpl.
  fold (tmp_name z). rewrite components_join_plain, Hc.
  - by rewrite <-(assoc_L (++)).
  - apply components_nonempty. rewrite Hc. by destruct (components root).
  - apply tmp_name_plain.
Qed.

(** Making the blob's directory does not make a directory of the blob. *)
Lemma created_dirs h q0 fs r fs' :
  root ≠ "" → hash32 h → components q0 = components root ++ [Normal (fan h)] →
  Fs.create_dir_all f q0 fs = (r, fs') →
  components (blob_path root h) ∈ Fs.dirs fs' → components (blob_path root h) ∈ Fs.dirs fs.
Proof.
  intros Hr Hh Hc0 E1 Hin. destruct (Fs.create_dir_all_dirs _ _ _ _ _ _ E1 Hin) as [Hd|Hl]; [done|].
  rewrite Hc0, blob_path_components, !length_app in Hl by done. simpl in Hl. lia.
Qed.

(** Writing a blob through a temporary file, wherever that is. *)
Definition put_via (tmp : string) (h contents : bytes) : Fs.io unit :=
  let dest := blob_path root h in
  there <~ Fs.exists_ f dest ;;
  if (there : bool) then st_ret tt
  else
    _ <~ match parent dest with Some p => Fs.create_dir_all f p | None => st_ret tt end ;;
    _ <~ Fs.create f false tmp ;;
    _ <~ Fs.write_all f cut tmp contents ;;
    _ <~ Fs.syscall f ;;
    λ fs, match Fs.rename f tmp dest fs with
          | (Ok _, fs) => (Ok tt, fs)
          | (Err e, fs) =>
              (there <~ Fs.exists_ f dest ;;
               if (there : bool) then Fs.attempt (Fs.remove_file f tmp) else st_err e) fs
          end.

(** The calls change only the temporary file and the blob. *)
Lemma put_via_frame tmp h contents :
  Fs.frame (λ q, q = components (blob_path root h) ∨ q = components tmp) (put_via tmp h contents).
Proof.
  unfold put_via. apply Fs.frame_bind; [apply Fs.frame_stat|]. intros [|]; [apply Fs.frame_ret|].
  apply Fs.frame_bind; [destruct (parent _); [apply Fs.frame_create_dir_all|apply Fs.frame_ret]|]. intros _.
  apply Fs.frame_bind; [eapply Fs.frame_mono; [apply Fs.frame_create|by right]|]. intros _.
  apply Fs.frame_bind; [eapply Fs.frame_mono; [apply Fs.frame_write_all|by right]|]. intros _.
  apply Fs.frame_bind; [apply Fs.frame_syscall|]. intros _ fs r fs' H q Hq.
  destruct (Fs.rename f tmp _ fs) as [r1 fs1] eqn:E1.
  assert (Fs.files fs1 !! q = Fs.files fs !! q) as <- by (eapply Fs.frame_rename; [done|naive_solver]).
  destruct r1; [by simplify_eq|]. revert H q Hq. apply Fs.frame_bind; [apply Fs.frame_stat|].
  intros [|]; [|apply Fs.frame_err]. apply Fs.frame_attempt. eapply Fs.frame_mono; [apply Fs.frame_remove_file|by right].
Qed.

(** What a call that may store [contents] at [p] does there, whatever fails:
    an error leaves what was there; success leaves the whole contents, or what
    was there when something was; and a stat that works leaves a blob alone. *)
Definition stored_at (p : string) (contents : bytes) (fs : Fs.t) (r : result unit Fs.io_error) (fs' : Fs.t) : Prop :=
  let c := components p in
  match r with
  | Ok _ => Fs.files fs' !! c = Some contents ∨ (Fs.there fs p = true ∧ Fs.files fs' !! c = Fs.files fs !! c)
  | Err _ => Fs.files fs' !! c = Fs.files fs !! c
  end
  ∧ (f (Fs.calls fs) = None → Fs.there fs p = true → r = Ok tt ∧ Fs.files fs' = Fs.files fs).

(** Writing the temporary file and moving it. *)
Lemma staged_spec tmp dest contents fs r fs' :
  components tmp ≠ components dest →
  (_ <~ Fs.create f false tmp ;; _ <~ Fs.write_all f cut tmp contents ;; _ <~ Fs.syscall f ;; Fs.rename f tmp dest) fs = (r, fs') →
  Fs.dirs fs' = Fs.dirs fs
  ∧ Fs.files fs' !! components dest = match r with Ok _ => Some contents | Err _ => Fs.files fs !! components dest end.
Proof.
  intros Hne. unfold st_bind. intros H.
  destruct (Fs.create f false tmp fs) as [[[]|e] fs2] eqn:E2;
    pose proof (Fs.frame_create _ _ _ _ _ _ E2) as F2; simpl in F2;
    pose proof (Fs.create_dirs _ _ _ _ _ _ E2) as D2; [apply Fs.create_ok in E2|simplify_eq; by rewrite F2].
  destruct (Fs.write_all f cut tmp contents fs2) as [[[]|e] fs3] eqn:E3;
    pose proof (Fs.frame_write_all _ _ _ _ _ _ _ E3) as F3; simpl in F3;
    pose proof (Fs.write_all_dirs _ _ _ _ _ _ _ E3) as D3;
    [apply Fs.write_all_ok in E3; rewrite E2 in E3; simpl in E3|simplify_eq; rewrite F3, F2 by done; split; [congruence|done]].
  destruct (Fs.syscall f fs3) as [[[]|e] fs4] eqn:E4; apply Fs.syscall_files in E4 as [E4 D4];
    [|simplify_eq; rewrite E4, F3, F2 by done; split; [congruence|done]].
  pose proof (Fs.rename_dirs _ _ _ _ _ _ H) as D5.
  apply Fs.rename_spec in H as [[-> (b&Hb&E5)]|[[e ->] E5]]; rewrite E5; (split; [congruence|]).
  - rewrite E4, E3 in Hb. simplify_eq. by rewrite lookup_insert_eq.
  - by rewrite E4, F3, F2.
Qed.

Lemma put_via_stored tmp h contents fs r fs' :
  root ≠ "" → hash32 h → components tmp ≠ components (blob_path root h) →
  put_via tmp h contents fs = (r, fs') → stored_at (blob_path root h) contents fs r fs'.
Proof.
  intros Hr Hh Hne. unfold put_via. set (dest := blob_path root h) in *.
  destruct (blob_parent h Hr Hh) as (q0&Hq0&Hc0). fold dest in Hq0. rewrite Hq0.
  unfold st_bind at 1. destruct (Fs.exists_ f dest fs) as [r0 fs0] eqn:E0.
  apply Fs.stat_spec in E0 as (F0&D0&there&->&Ht&Hn). destruct there.
  { intros [= <- <-]. split; [|by rewrite F0]. right. by rewrite F0, Ht. }
  intros H. split.
  2:{ intros Hq Hth. destruct (Hn eq_refl) as [?|[? Hf]]; congruence. }
  unfold st_bind at 1 in H.
  destruct (Fs.create_dir_all f q0 fs0) as [[[]|e] fs1] eqn:E1; [|simplify_eq;
    by rewrite !(Fs.create_dir_all_files _ _ _ _ _ E1), F0].
  pose proof (created_dirs h q0 _ _ _ Hr Hh Hc0 E1) as D1. fold dest in D1.
  apply Fs.create_dir_all_files in E1.
  destruct ((_ <~ Fs.create f false tmp ;; _ <~ Fs.write_all f cut tmp contents ;; _ <~ Fs.syscall f ;; Fs.rename f tmp dest) fs1)
    as [r5 fs5] eqn:E5.
  assert (match r5 with Ok _ => (Ok tt, fs5)
          | Err e => (there <~ Fs.exists_ f dest ;;
                      if (there : bool) then Fs.attempt (Fs.remove_file f tmp) else st_err e) fs5 end = (r, fs')
          ∨ ∃ e, r5 = Err e ∧ r = Err e ∧ fs' = fs5) as Hend.
  { revert H E5. unfold st_bind. destruct (Fs.create f false tmp fs1) as [[?|?] ?]; [|naive_solver].
    destruct (Fs.write_all _ _ _ _ _) as [[?|?] ?]; [|naive_solver].
    destruct (Fs.syscall f _) as [[?|?] ?]; [|naive_solver]. intros H E5. rewrite E5 in H. left.
    by destruct r5. }
  apply staged_spec in E5 as [D5 E5]; [|done]. rewrite E1, F0 in E5.
  destruct Hend as [Hend|(e&->&->&->)]; [|done].
  destruct r5 as [[]|e]; [injection Hend as <- <-; by left|].
  unfold st_bind in Hend. destruct (Fs.exists_ f dest fs5) as [r6 fs6] eqn:E6.
  apply Fs.stat_spec in E6 as (F6&_&there&->&Ht6&_). destruct there; [|injection Hend as <- <-; by rewrite F6].
  unfold Fs.attempt in Hend. injection Hend as <- <-. right.
  destruct (Fs.remove_file f tmp fs6) as [r7 fs7] eqn:E7. simpl. split.
  - specialize (Ht6 eq_refl). destruct (Fs.there fs dest) eqn:Hth; [done|].
    apply Fs.not_there in Hth as [Hno Hnd]. apply Fs.there_file in Ht6; [|rewrite D5, <-D0 in *; auto].
    rewrite E5, Hno in Ht6. by destruct Ht6.
  - rewrite (Fs.frame_remove_file _ _ _ _ _ E7) by done. by rewrite F6.
Qed.

Lemma put_frame nanos h contents :
  Fs.frame (λ q, q = components (blob_path root h) ∨ q = components (ContentBlobStore.tmp_path root nanos h))
    (ContentBlobStore.put f cut root nanos h contents).
Proof. apply put_via_frame. Qed.

Lemma put_stored nanos h contents fs r fs' :
  root ≠ "" → hash32 h → ContentBlobStore.put f cut root nanos h contents fs = (r, fs') →
  stored_at (blob_path root h) contents fs r fs'.
Proof.
  intros Hr Hh. apply put_via_stored; [done..|]. rewrite tmp_path_components, blob_path_components by done.
  intros H%(inj (app _)). injection H as H. by apply tmp_name_not_leaf in H.
Qed.
End stores.

(** ** What a store promises

    [put h c fs fs']: a call on [h] and [c], whatever it returned, went from
    [fs] to [fs']. The promise is that such a call leaves every other blob
    alone, and the blob of [h] as it was or equal to the whole of [c]. Neither
    store looks at whether [h] is the digest of [c]. *)
Definition blob (root : string) (fs : Fs.t) (h : bytes) : option bytes :=
  Fs.files fs !! Path.components (BlobLayout.blob_path root h).

Class AtomicStore (root : string) (put : bytes → bytes → Fs.t → Fs.t → Prop) := {
  atomic_other h c fs fs' g : put h c fs fs' → hash32 h → hash32 g → g ≠ h → blob root fs' g = blob root fs g;
  atomic_self h c fs fs' : put h c fs fs' → hash32 h →
    blob root fs' h = blob root fs h ∨ blob root fs' h = Some c
}.

(** A run of calls, with the digests and contents they were given. *)
Inductive puts (put : bytes → bytes → Fs.t → Fs.t → Prop) : list (bytes * bytes) → Fs.t → Fs.t → Prop :=
| puts_nil fs : puts put [] fs fs
| puts_cons h c l fs fs1 fs2 :
    hash32 h → put h c fs fs1 → puts put l fs1 fs2 → puts put ((h, c) :: l) fs fs2.

Section atomic.
Context (blake3 : bytes → bytes) (root : string) (put : bytes → bytes → Fs.t → Fs.t → Prop).
Context `{!AtomicStore root put}.

Definition addressed (fs : Fs.t) : Prop := ∀ h b, hash32 h → blob root fs h = Some b → blake3 b = h.

Lemma atomic_step h c g fs fs' :
  put h c fs fs' → hash32 h → hash32 g →
  blob root fs' g = blob root fs g ∨ (g = h ∧ blob root fs' g = Some c).
Proof.
  intros Hp Hh Hg. destruct (decide (g = h)) as [->|Hne]; [|left; by eapply atomic_other].
  destruct (atomic_self _ _ _ _ Hp Hh); auto.
Qed.

Lemma puts_whole log fs fs' h :
  puts put log fs fs' → hash32 h →
  (∀ b, blob root fs' h = Some b → blob root fs h = Some b ∨ (h, b) ∈ log)
  ∧ (is_Some (blob root fs h) → is_Some (blob root fs' h)).
Proof.
  intros Hrun Hh. induction Hrun as [fs|g c l fs fs1 fs2 Hg Hp _ [IH1 IH2]]; [by auto|].
  destruct (atomic_step _ _ h _ _ Hp Hg Hh) as [He|[-> He]]; rewrite He in IH1, IH2; split.
  - intros b [?|?]%IH1; [by left|right; by constructor].
  - done.
  - intros b [[= <-]|?]%IH1; right; [by constructor|by constructor].
  - intros _. by apply IH2.
Qed.

Lemma puts_addressed log fs fs' :
  puts put log fs fs' → (∀ h c, (h, c) ∈ log → blake3 c = h) → addressed fs → addressed fs'.
Proof.
  intros Hp Hlog Ha h b Hh Hb. destruct (puts_whole _ _ _ h Hp Hh) as [Hw _].
  destruct (Hw b Hb) as [?|?]; [by apply Ha|by apply Hlog].
Qed.
End atomic.

Module BlobProps.
Import Path BlobLayout.

Definition content_put (root : string) (h c : bytes) (fs fs' : Fs.t) : Prop :=
  ∃ f cut nanos, (ContentBlobStore.put f cut root nanos h c fs).2 = fs'.
Definition cache_put (root : string) (h c : bytes) (fs fs' : Fs.t) : Prop :=
  ∃ f, (BlobCache.put f root h c fs).2 = fs'.

Lemma tmp_path_not_blob root z h g :
  root ≠ "" → hash32 h → hash32 g → components (blob_path root g) ≠ components (ContentBlobStore.tmp_path root z h).
Proof.
  intros Hr Hh Hg. rewrite tmp_path_components, blob_path_components by done.
  intros H%(inj (app _)). injection H as _ H. symmetry in H. by apply tmp_name_not_leaf in H.
Qed.

#[export] Instance content_atomic root : root ≠ "" → AtomicStore root (content_put root).
Proof.
  intros Hr. split.
  - intros h c fs fs' g (f&cut&nanos&<-) Hh Hg Hne.
    destruct (ContentBlobStore.put f cut root nanos h c fs) as [r fs1] eqn:E.
    eapply put_frame; [exact E|]. intros [H|H].
    + apply Hne. by eapply blob_path_inj.
    + by apply tmp_path_not_blob in H.
  - intros h c fs fs' (f&cut&nanos&<-) Hh.
    destruct (ContentBlobStore.put f cut root nanos h c fs) as [r fs1] eqn:E.
    apply put_stored in E as [E _]; [|done..]. unfold blob. destruct r; naive_solver.
Qed.

(** The cache's call in one step: nothing, or the whole blob; and nothing when
    a stat that works finds it. *)
Lemma cache_put_files f root h c fs :
  (Fs.files (BlobCache.put f root h c fs).2 = Fs.files fs
   ∨ Fs.files (BlobCache.put f root h c fs).2 = <[components (blob_path root h) := c]> (Fs.files fs))
  ∧ (f (Fs.calls fs) = None → Fs.there fs (blob_path root h) = true →
     (BlobCache.put f root h c fs).1 = Ok tt ∧ Fs.files (BlobCache.put f root h c fs).2 = Fs.files fs).
Proof.
  destruct (BlobCache.put f root h c fs) as [r fs'] eqn:E. cbn [fst snd]. revert E.
  unfold BlobCache.put, st_bind at 1. destruct (Fs.exists_ f (blob_path root h) fs) as [r0 fs0] eqn:E0.
  apply Fs.stat_spec in E0 as (F0&_&there&->&_&Hn).
  destruct there; [intros [= <- <-]; rewrite F0; auto|]. intros E. split.
  2:{ intros Hq Hth. destruct (Hn eq_refl) as [?|[??]]; congruence. }
  clear Hn. revert E. set (mkdir := match parent (blob_path root h) with
                | Some p => Fs.create_dir_all f p | None => st_ret tt end).
  destruct (mkdir fs0) as [r1 fs1] eqn:E1.
  assert (Fs.files fs1 = Fs.files fs) as <-.
  { rewrite <-F0. subst mkdir. destruct (parent _); [by eapply Fs.create_dir_all_files|by injection E1 as _ ->]. }
  unfold st_bind. rewrite E1. destruct r1 as [[]|e]; [|intros [= _ <-]; by left].
  destruct (Fs.temp_with f c fs1) as [[d|e] fs2] eqn:E2; apply Fs.temp_with_files in E2 as [E2 Hd];
    [|intros [= _ <-]; by left]. rewrite <-E2, (Hd _ eq_refl). unfold Fs.attempt.
  destruct (Fs.persist f c (blob_path root h) fs2) as [r3 fs3] eqn:E3. intros [= _ <-].
  apply Fs.persist_files in E3 as [[_ E3]|[_ E3]]; cbn; rewrite E3; auto.
Qed.

#[export] Instance cache_atomic root : root ≠ "" → AtomicStore root (cache_put root).
Proof.
  intros Hr. split.
  - intros h c fs fs' g (f&<-) Hh Hg Hne. unfold blob.
    destruct (cache_put_files f root h c fs) as [[->| ->] _]; [done|].
    rewrite lookup_insert_ne; [done|]. intros H. apply Hne. symmetry. by eapply blob_path_inj.
  - intros h c fs fs' (f&<-) Hh. unfold blob.
    destruct (cache_put_files f root h c fs) as [[->| ->] _]; [by left|right]. by rewrite lookup_insert_eq.
Qed.

Lemma blob_there root fs h b : blob root fs h = Some b → Fs.there fs (blob_path root h) = true.
Proof. intros H. apply Fs.there_regular, bool_decide_eq_true. by exists b. Qed.

(** C28: Content blobs, in the server's store and the client's cache. Through
    any run of [put]s, with any digests and contents and under any I/O failures,
    a blob is at every moment whole: what is under a digest was there before,
    or is exactly the contents some [put] of the run was given for that digest;
    and a digest that had a blob still has one. Neither store checks the digest,
    so the files hold contents with the digest they are named after exactly as
    far as the callers pass them: when all of them do, that is preserved. A
    further [put] on the server that reports success leaves, unless the path is
    a directory, a blob that [get] then returns, its own contents or the blob
    that was there; one that fails changes no blob; and in both stores a [put]
    whose first look at the path works leaves a blob that is there alone and
    reports success. *)
Theorem blob_stores_integrity blake3 root log fs fs' :
  root ≠ "" →
  puts (content_put root) log fs fs' ∨ puts (cache_put root) log fs fs' →
  (∀ h b, hash32 h → blob root fs' h = Some b → blob root fs h = Some b ∨ (h, b) ∈ log)
  ∧ (∀ h, hash32 h → is_Some (blob root fs h) → is_Some (blob root fs' h))
  ∧ ((∀ h c, (h, c) ∈ log → blake3 c = h) → addressed blake3 root fs → addressed blake3 root fs')
  ∧ (∀ f cut nanos h c r fs1, hash32 h →
       ContentBlobStore.put f cut root nanos h c fs' = (r, fs1) →
       (r = Ok tt → components (blob_path root h) ∉ Fs.dirs fs' →
        ∀ g, (∀ n, g n = None) →
        ∃ b, (ContentBlobStore.get g root h fs1).1 = Ok (Some b) ∧ (b = c ∨ blob root fs' h = Some b))
       ∧ (is_ok r = false → blob root fs1 h = blob root fs' h)
       ∧ (f (Fs.calls fs') = None → is_Some (blob root fs' h) → r = Ok tt ∧ blob root fs1 h = blob root fs' h))
  ∧ (∀ f h c r fs1, BlobCache.put f root h c fs' = (r, fs1) →
       f (Fs.calls fs') = None → is_Some (blob root fs' h) → r = Ok tt ∧ blob root fs1 h = blob root fs' h).
Proof.
  intros Hr Hst.
  assert (∀ h, hash32 h → (∀ b, blob root fs' h = Some b → blob root fs h = Some b ∨ (h, b) ∈ log)
            ∧ (is_Some (blob root fs h) → is_Some (blob root fs' h))) as Hw.
  { intros h Hh. destruct Hst as [Hst|Hst].
    - exact (puts_whole (AtomicStore0:=content_atomic root Hr) root _ _ _ _ h Hst Hh).
    - exact (puts_whole (AtomicStore0:=cache_atomic root Hr) root _ _ _ _ h Hst Hh). }
  split_and!.
  - intros h b Hh. by apply Hw.
  - intros h Hh. by apply Hw.
  - intros Hlog Ha h b Hh [Hb|Hin]%Hw; [by apply Ha|by apply Hlog|done].
  - intros f cut nanos h c r fs1 Hh [E1 E2]%put_stored; [|done..]. split_and!.
    + intros -> Hdir g Hg. unfold ContentBlobStore.get, Fs.read, st_bind, Fs.syscall. rewrite Hg. cbn.
      destruct E1 as [->|[Hth ->]]; [by eauto|].
      destruct (Fs.there_file _ _ Hdir Hth) as [b Hb]. exists b. unfold blob. rewrite Hb. auto.
    + destruct r; [done|]. intros _. exact E1.
    + intros Hq [b Hb]. destruct E2 as [-> E2]; [done|by eapply blob_there|]. unfold blob. by rewrite E2.
  - intros f h c r fs1 E Hq [b Hb]. pose proof (cache_put_files f root h c fs') as [_ H].
    rewrite E in H. destruct H as [H1 H2]; [done|by eapply blob_there|]. simpl in *. unfold blob. by rewrite H2.
Qed.

Definition no_faults : Fs.faults := λ _, None.
Definition demo_fs : Fs.t := Fs.mk ∅ {[ [] ; [RootDir]; [RootDir; Normal "b"] ]} 0.
Definition demo_stored : Fs.t :=
  (ContentBlobStore.put no_faults (λ _, O) "/b" 7 zero_hash [Byte.x41] demo_fs).2.

Lemma blob_stores_integrity_witness :
  blob "/b" demo_stored zero_hash = Some [Byte.x41]
  ∧ (∀ h b, hash32 h → blob "/b" demo_stored h = Some b → h = zero_hash ∧ b = [Byte.x41]).
Proof.
  split; [vm_compute; reflexivity|].
  intros h b Hh Hb.
  destruct (blob_stores_integrity (λ _, zero_hash) "/b" [(zero_hash, [Byte.x41])] demo_fs demo_stored) as (H&_).
  - done.
  - left. apply puts_cons with (fs1 := demo_stored); [reflexivity| |apply puts_nil].
    exists no_faults, (λ _, O), 7. reflexivity.
  - destruct (H h b Hh Hb) as [He|Hin].
    + unfold blob, demo_fs in He. cbn [Fs.files] in He. by rewrite lookup_empty in He.
    + apply list_elem_of_singleton in Hin. by injection Hin.
Defined.

(** A blob that is there is replaced when the look at its path fails. *)
Example put_failing_stat :
  let f n := if decide (n = Fs.calls demo_stored) then Some (Fs.IoError Fs.OtherKind "EIO") else None in
  let '(r, fs) := ContentBlobStore.put f (λ _, O) "/b" 8 zero_hash [Byte.x42] demo_stored in
  r = Ok tt ∧ blob "/b" fs zero_hash = Some [Byte.x42].
Proof. vm_compute. done. Qed.

(** The cache reports success although nothing was stored: a failing rename
    is dropped with its error. *)
Lemma cache_put_lost :
  let f n := if decide (n = 5%nat) then Some (Fs.IoError Fs.OtherKind "disk full") else None in
  let '(r, fs) := BlobCache.put f "/b" zero_hash [Byte.x41] demo_fs in
  r = Ok tt ∧ blob "/b" fs zero_hash = None.
Proof. vm_compute. done. Qed.
End BlobProps.
