(* ===== verification/E2ee.v ===== *)
(** * End-to-end encryption ([disk-core/src/e2ee/])

    What goes on the wire and what comes back from it: payloads with their
    digests, the index of ciphertexts an unchanged file keeps, and the escrow
    of the vault key. The cipher and the key derivation are an interface, the
    random bytes arguments. *)

From stdpp Require Import prelude strings pretty.
From Stdlib Require Import ZArith Lia Strings.Byte Strings.Ascii.
From S2P Require Import Prelude Text Types VectorClock Fs BlobStore.

#[local] Open Scope Z_scope.

(** ** [hex::decode]: both cases of the digits, an even number of them *)
Module HexDecode.
Definition value (c : ascii) : option Z :=
  let z := ascii_code c in
  if bool_decide (48 ≤ z ≤ 57) then Some (z - 48)
  else if bool_decide (97 ≤ z ≤ 102) then Some (z - 87)
  else if bool_decide (65 ≤ z ≤ 70) then Some (z - 55)
  else None.

Fixpoint chars (l : list ascii) : option bytes :=
  match l with
  | [] => Some []
  | h :: l' :: rest =>
      x ← value h; y ← value l'; b ← Byte.of_N (Z.to_N (16 * x + y)); bs ← chars rest; Some (b :: bs)
  | [_] => None
  end.

Definition decode (s : string) : option bytes := chars (explode s).

Lemma value_digit d : 0 ≤ d < 16 → value (Hex.digit d) = Some d.
Proof. intros Hd. unfold value. rewrite Hex.digit_code by done. crush. Qed.

Lemma chars_chars_of b : chars (Hex.chars_of b) = Some b.
Proof.
  induction b as [|x b IH]; [done|]. pose proof (byteZ_range x) as Hx.
  change (Hex.chars_of (x :: b))
    with (Hex.digit (byteZ x / 16) :: Hex.digit (byteZ x mod 16) :: Hex.chars_of b).
  cbn [chars]. rewrite (value_digit (byteZ x / 16)) by (split; [apply Z.div_pos; lia|apply Z.div_lt_upper_bound; lia]).
  simpl. rewrite value_digit by (apply Z.mod_pos_bound; lia). simpl.
  rewrite <-Z.div_mod by lia. unfold byteZ. rewrite N2Z.id, Byte.of_to_N. simpl. by rewrite IH.
Qed.

Lemma decode_encode b : decode (Hex.encode b) = Some b.
Proof. unfold decode, Hex.encode. rewrite explode_implode. apply chars_chars_of. Qed.
End HexDecode.

(** ** The cipher

    XChaCha20-Poly1305 and Argon2id: what is sealed opens under the same key
    and nonce, and a derived key has the length asked for. *)
Class Cipher := {
  seal : bytes → bytes → bytes → result bytes string;
  open_ : bytes → bytes → bytes → option bytes;
  kdf : bytes → bytes → result bytes string;
  open_seal k n p c : seal k n p = Ok c → open_ k n c = Some p;
  kdf_length p s k : kdf p s = Ok k → length k = 32%nat
}.

Module E2ee.
Definition NONCE_LEN : nat := 24.
Definition KEY_LEN : nat := 32.
Definition SALT_LEN : nat := 16.

Inductive E2eeError :=
  | SaltTooShort
  | KeyDerivation (msg : string)
  | CipherInit (msg : string)
  | Encrypt (msg : string)
  | DecryptFailed
  | WireHashMismatch
  | InvalidNonce
  | VaultKeyRequired.

Record EncryptedBlob := { nonce : bytes; ciphertext : bytes }.
Record UploadPayload := { wire_bytes : bytes; content_hash : bytes; encryption_nonce : bytes }.
Record DownloadPayload := { plaintext : bytes; wire_content_hash : bytes }.

Section e2ee.
Context {cipher : Cipher} (blake3 : bytes → bytes).

Definition derive_from_passphrase (passphrase salt : bytes) : result bytes E2eeError :=
  if bool_decide (length salt < 8)%nat then Err SaltTooShort
  else map_err KeyDerivation (kdf passphrase salt).

(** [rnd] is the fresh nonce. *)
Definition encrypt (rnd plain key : bytes) : result EncryptedBlob E2eeError :=
  c <?- map_err Encrypt (seal key rnd plain) ;;
  Ok {| nonce := rnd; ciphertext := c |}.

Definition decrypt (blob : EncryptedBlob) (key : bytes) : result bytes E2eeError :=
  ok_or (open_ key (nonce blob) (ciphertext blob)) DecryptFailed.

Definition from_plaintext (plain : bytes) : UploadPayload :=
  {| wire_bytes := plain; content_hash := blake3 plain; encryption_nonce := [] |}.

Definition from_plaintext_encrypted (rnd plain key : bytes) : result UploadPayload E2eeError :=
  blob <?- encrypt rnd plain key ;;
  Ok {| wire_bytes := ciphertext blob; content_hash := blake3 (ciphertext blob);
        encryption_nonce := nonce blob |}.

(** A digest of another length or of zeros only stands for an unknown one. *)
Definition hash_is_placeholder (h : bytes) : bool :=
  negb (bool_decide (length h = 32%nat)) || forallb (λ b, bool_decide (b = Byte.x00)) h.

Definition from_wire_bytes (wire nonce_bytes expected : bytes) (key : option bytes)
    : result DownloadPayload E2eeError :=
  if negb (hash_is_placeholder expected) && negb (bool_decide (blake3 wire = expected))
  then Err WireHashMismatch
  else if decide (nonce_bytes = []) then Ok {| plaintext := wire; wire_content_hash := blake3 wire |}
  else
    k <?- ok_or key VaultKeyRequired ;;
    if negb (bool_decide (length nonce_bytes = NONCE_LEN)) then Err InvalidNonce
    else
      p <?- decrypt {| nonce := nonce_bytes; ciphertext := wire |} k ;;
      Ok {| plaintext := p; wire_content_hash := blake3 wire |}.

(** ** The wire index of an unchanged file *)
Record E2eeCachedWire := mkWire {
  w_content_hash : bytes;
  w_encryption_nonce : bytes;
  w_mtime_ns : Z;
  w_size : Z
}.

Definition from_file_meta (m : FileMeta) : option E2eeCachedWire :=
  n ← FileMeta.encryption_nonce m;
  if decide (n = []) then None
  else Some (mkWire (FileMeta.content_hash m) n (FileMeta.mtime_ns m) (FileMeta.size m)).

Definition matches_scan (self : E2eeCachedWire) (scanned : FileMeta) : bool :=
  bool_decide (w_mtime_ns self = FileMeta.mtime_ns scanned) && bool_decide (w_size self = FileMeta.size scanned).

Definition set_wire (h n : bytes) (m : FileMeta) : FileMeta :=
  FileMeta.mk (FileMeta.path m) h (FileMeta.size m) (FileMeta.mtime_ns m) (FileMeta.inode m)
    (FileMeta.vector_clock m) (FileMeta.deleted m) (FileMeta.deleted_at m) (FileMeta.node_id m)
    (Some n) (FileMeta.version_id m) (FileMeta.parent_version_id m).

(** The rewritten entry, and the new index entry when it was encrypted anew. *)
Definition overlay_scanned_meta (rnd : bytes) (scanned : FileMeta) (key : bytes)
    (cached : option E2eeCachedWire) (plain : bytes)
    : result (FileMeta * option E2eeCachedWire) E2eeError :=
  let fresh :=
    p <?- from_plaintext_encrypted rnd plain key ;;
    Ok (set_wire (content_hash p) (encryption_nonce p) scanned,
        Some (mkWire (content_hash p) (encryption_nonce p) (FileMeta.mtime_ns scanned)
                (FileMeta.size scanned))) in
  match cached with
  | Some c => if matches_scan c scanned
              then Ok (set_wire (w_content_hash c) (w_encryption_nonce c) scanned, None)
              else fresh
  | None => fresh
  end.

(** ** Escrow of the vault key *)
Definition ESCROW_FORMAT_VERSION : Z := 1.
Definition ESCROW_FILE_SUFFIX : string := ".escrow.json".

Record EscrowBlob := { v : Z; recovery_salt_hex : string; nonce_hex : string; ciphertext_hex : string }.

(** The check [from_json] makes after parsing. *)
Definition check_version (blob : EscrowBlob) : result EscrowBlob E2eeError :=
  if decide (v blob = ESCROW_FORMAT_VERSION) then Ok blob
  else Err (KeyDerivation ("unsupported escrow version " +:+ pretty (v blob))).

Definition create_escrow (salt rnd vault_key recovery_passphrase : bytes) : result EscrowBlob E2eeError :=
  if decide (recovery_passphrase = [])
  then Err (KeyDerivation "recovery passphrase must not be empty")
  else
    wrap_key <?- derive_from_passphrase recovery_passphrase salt ;;
    e <?- encrypt rnd vault_key wrap_key ;;
    Ok {| v := ESCROW_FORMAT_VERSION; recovery_salt_hex := Hex.encode salt;
          nonce_hex := Hex.encode (nonce e); ciphertext_hex := Hex.encode (ciphertext e) |}.

Definition unhex (what s : string) : result bytes E2eeError :=
  ok_or (HexDecode.decode (trim s)) (KeyDerivation ("invalid " +:+ what)).

Definition recover_from_escrow (blob : EscrowBlob) (recovery_passphrase : bytes) : result bytes E2eeError :=
  salt <?- unhex "recovery_salt_hex" (recovery_salt_hex blob) ;;
  if bool_decide (length salt < 8)%nat then Err SaltTooShort
  else
    n <?- unhex "nonce_hex" (nonce_hex blob) ;;
    if negb (bool_decide (length n = NONCE_LEN)) then Err InvalidNonce
    else
      c <?- unhex "ciphertext_hex" (ciphertext_hex blob) ;;
      wrap_key <?- derive_from_passphrase recovery_passphrase salt ;;
      p <?- decrypt {| nonce := n; ciphertext := c |} wrap_key ;;
      if negb (bool_decide (length p = KEY_LEN)) then Err DecryptFailed else Ok p.

Definition escrow_path (state_dir node_id : string) : string :=
  Path.join (Path.join state_dir "escrow") (node_id +:+ ESCROW_FILE_SUFFIX).
End e2ee.
End E2ee.

Section e2ee_lemmas.
Import E2ee.

(** Hexadecimal text has nothing to trim. *)
Lemma strip_any_head ps c l :
  forallb (λ p, match p with [] => false | d :: _ => negb (bool_decide (d = c)) end) ps = true →
  strip_any ps (c :: l) = None.
Proof.
  induction ps as [|p ps IH]; [done|]. cbn [forallb strip_any]. intros [Hp Hps]%andb_true_iff.
  destruct p as [|d p]; [done|]. simpl. apply negb_true_iff, bool_decide_eq_false in Hp.
  rewrite decide_False by done. auto.
Qed.

Definition hex_chars : list ascii := Hex.digit <$> [0;1;2;3;4;5;6;7;8;9;10;11;12;13;14;15].

Lemma chars_of_hex_chars b c : c ∈ Hex.chars_of b → c ∈ hex_chars.
Proof.
  unfold Hex.chars_of. intros (x&Hc&_)%list_elem_of_bind. pose proof (byteZ_range x) as Hx.
  assert (∀ d, 0 ≤ d < 16 → Hex.digit d ∈ hex_chars) as Hd.
  { intros d Hd. apply list_elem_of_fmap_2.
    assert (d = 0 ∨ d = 1 ∨ d = 2 ∨ d = 3 ∨ d = 4 ∨ d = 5 ∨ d = 6 ∨ d = 7 ∨ d = 8 ∨ d = 9 ∨ d = 10
          ∨ d = 11 ∨ d = 12 ∨ d = 13 ∨ d = 14 ∨ d = 15) as Hor by lia. set_solver. }
  apply elem_of_cons in Hc as [Hc|Hc%list_elem_of_singleton]; subst c; apply Hd.
  - split; [apply Z.div_pos; lia|apply Z.div_lt_upper_bound; lia].
  - apply Z.mod_pos_bound. lia.
Qed.

Lemma trim_start_hex ps n l :
  (∀ c, c ∈ hex_chars →
    forallb (λ p, match p with [] => false | d :: _ => negb (bool_decide (d = c)) end) ps = true) →
  (∀ c, c ∈ l → c ∈ hex_chars) → trim_start_with n ps l = l.
Proof.
  intros Hps Hl. destruct n as [|n]; [done|]. destruct l as [|c l].
  - cbn [trim_start_with]. assert (strip_any ps [] = None) as ->; [|done].
    specialize (Hps "0"%char ltac:(vm_compute; set_solver)). clear -Hps.
    induction ps as [|p ps IH]; [done|]. cbn [forallb strip_any] in *. apply andb_true_iff in Hps as [Hp Hps].
    destruct p; [done|]. simpl. auto.
  - cbn [trim_start_with]. rewrite strip_any_head; [done|]. apply Hps, Hl. constructor.
Qed.

Lemma whitespace_not_hex c :
  c ∈ hex_chars →
  forallb (λ p, match p with [] => false | d :: _ => negb (bool_decide (d = c)) end) whitespace_encodings = true
  ∧ forallb (λ p, match p with [] => false | d :: _ => negb (bool_decide (d = c)) end)
      (reverse <$> whitespace_encodings) = true.
Proof.
  assert (forallb (λ c,
    forallb (λ p, match p with [] => false | d :: _ => negb (bool_decide (d = c)) end) whitespace_encodings
    && forallb (λ p, match p with [] => false | d :: _ => negb (bool_decide (d = c)) end)
         (reverse <$> whitespace_encodings)) hex_chars = true) as H by (vm_compute; reflexivity).
  rewrite forallb_forall in H. intros Hc%list_elem_of_In. by apply andb_true_iff, H.
Qed.

Lemma trim_encode b : trim (Hex.encode b) = Hex.encode b.
Proof.
  unfold trim, Hex.encode. rewrite explode_implode.
  rewrite (trim_start_hex _ _ (Hex.chars_of b)); [|by intros; apply whitespace_not_hex|apply chars_of_hex_chars].
  rewrite trim_start_hex; [by rewrite reverse_involutive|by intros; apply whitespace_not_hex|].
  intros c. rewrite elem_of_reverse. apply chars_of_hex_chars.
Qed.

Lemma unhex_encode what b : unhex what (Hex.encode b) = Ok b.
Proof. unfold unhex. by rewrite trim_encode, HexDecode.decode_encode. Qed.
End e2ee_lemmas.

Module E2eeProps.
Import E2ee.
Section theorems.
Context {cipher : Cipher} (blake3 : bytes → bytes).

(** What is sent comes back. A payload made from a file, plain or
    encrypted under a key and a fresh nonce, is turned back into the file by
    a download that carries the payload's digest and nonce and holds the same
    key; and an escrow made from a vault key gives the key back to the holder
    of the recovery passphrase. *)
Theorem e2ee_roundtrip rnd salt plain key pass :
  length rnd = NONCE_LEN → length key = KEY_LEN → (SALT_LEN ≤ length salt)%nat →
  from_wire_bytes blake3 (wire_bytes (from_plaintext blake3 plain)) []
    (content_hash (from_plaintext blake3 plain)) None
    = Ok {| plaintext := plain; wire_content_hash := blake3 plain |}
  ∧ (∀ p, from_plaintext_encrypted blake3 rnd plain key = Ok p →
       from_wire_bytes blake3 (wire_bytes p) (encryption_nonce p) (content_hash p) (Some key)
       = Ok {| plaintext := plain; wire_content_hash := content_hash p |})
  ∧ (∀ e, create_escrow salt rnd key pass = Ok e →
       check_version e = Ok e ∧ recover_from_escrow e pass = Ok key).
Proof.
  intros Hn Hk Hs. split; [|split].
  - unfold from_wire_bytes, from_plaintext; simpl. rewrite (bool_decide_eq_true_2 (blake3 plain = _)) by done.
    by rewrite andb_false_r.
  - intros p. unfold from_plaintext_encrypted, encrypt. destruct (seal key rnd plain) as [c|] eqn:Hc; [|done].
    simpl. intros [= <-]. simpl. unfold from_wire_bytes.
    rewrite (bool_decide_eq_true_2 (blake3 c = _)) by done. rewrite andb_false_r.
    rewrite decide_False by (by intros ->). simpl.
    rewrite bool_decide_eq_true_2 by done. simpl. unfold decrypt. simpl. by rewrite (open_seal _ _ _ _ Hc).
  - intros e. unfold create_escrow. case_decide; [done|].
    destruct (derive_from_passphrase pass salt) as [w|] eqn:Hw; [|done]. simpl. unfold encrypt.
    destruct (seal w rnd key) as [c|] eqn:Hc; [|done]. simpl. intros [= <-]. split; [done|].
    unfold recover_from_escrow. simpl. rewrite !unhex_encode. simpl.
    rewrite bool_decide_eq_false_2 by (unfold SALT_LEN in Hs; lia). simpl.
    rewrite bool_decide_eq_true_2 by done. simpl. rewrite Hw. simpl. unfold decrypt. simpl.
    rewrite (open_seal _ _ _ _ Hc). simpl. by rewrite bool_decide_eq_true_2.
Qed.

(** A download that passes holds the announced bytes, unless the announced
    digest was a placeholder. *)
Lemma download_verified wire n expected key p :
  from_wire_bytes blake3 wire n expected key = Ok p →
  hash_is_placeholder expected = true ∨ blake3 wire = expected.
Proof.
  unfold from_wire_bytes. destruct (hash_is_placeholder expected); [by left|]. simpl.
  case_bool_decide; [by right|done].
Qed.
End theorems.

(** A toy cipher to evaluate the theorems on: the key is a pad. *)
Definition toy : Cipher.
Proof.
  refine {| seal k n p := Ok (n ++ p); open_ k n c := Some (drop (length n) c);
            kdf p s := Ok (replicate 32 Byte.x07) |}.
  - intros k n p c [= <-]. by rewrite drop_app_length.
  - by intros p s k [= <-].
Defined.

Lemma e2ee_roundtrip_witness :
  ∃ p e, from_plaintext_encrypted (cipher:=toy) (λ b, b) (replicate 24 Byte.x09) [Byte.x41] (replicate 32 Byte.x01) = Ok p
    ∧ from_wire_bytes (cipher:=toy) (λ b, b) (wire_bytes p) (encryption_nonce p) (content_hash p)
        (Some (replicate 32 Byte.x01)) = Ok {| plaintext := [Byte.x41]; wire_content_hash := content_hash p |}
    ∧ create_escrow (cipher:=toy) (replicate 16 Byte.x02) (replicate 24 Byte.x09) (replicate 32 Byte.x01) [Byte.x50] = Ok e
    ∧ recover_from_escrow (cipher:=toy) e [Byte.x50] = Ok (replicate 32 Byte.x01).
Proof.
  destruct (@e2ee_roundtrip toy (λ b, b) (replicate 24 Byte.x09) (replicate 16 Byte.x02) [Byte.x41]
    (replicate 32 Byte.x01) [Byte.x50]) as (_&Hp&He); [reflexivity|reflexivity|vm_compute; lia|].
  do 2 eexists. split; [vm_compute; reflexivity|]. split; [apply Hp; vm_compute; reflexivity|].
  split; [vm_compute; reflexivity|]. apply He. vm_compute. reflexivity.
Defined.
End E2eeProps.
