(* ===== verification/Publisher.v ===== *)
(** * Publisher signatures ([disk-server/src/publisher/mod.rs])

    A publisher's upload carries a signature over a canonical payload and a
    counter. The verifier takes the key from a 24-hour cache or from Vault,
    checks the signature, and accepts a counter only above the stored maximum.

    Vault and Ed25519 are parameters. [publisher_keys] and [publisher_counter]
    are keyed by their primary keys; [cert_ids] is what the key cache's foreign
    key refers to. Every query may fail. *)

From stdpp Require Import prelude gmap strings sorting.
From Stdlib Require Import ZArith Lia Strings.Byte Strings.Ascii.
From S2P Require Import Prelude Text.

#[local] Open Scope Z_scope.

Module Publisher.
Record FileMetadata := { path : string; blake3 : bytes }.

Record PublisherSignatureProof := {
  ed25519_signature : bytes;
  vault_key_ref : string;
  signed_at_unix_ms : Z;
  counter : Z
}.

Inductive VerifyError :=
  | KeyFetchFailed (reason : string)
  | SignatureMismatch
  | ReplayDetected (incoming stored : Z)
  | Db (reason : string)
  | InvalidPublicKey (reason : string).

Record KeyRow := { key_ref : string; pubkey_ed25519 : bytes; fetched_at : Z }.

Record PublisherDb := mkDb {
  publisher_keys : gmap bytes KeyRow;
  publisher_counter : gmap (bytes * string) (Z * Z);
  cert_ids : gset bytes
}.

Abbreviation pub := (stm PublisherDb VerifyError).

(** What each query of a call fails with. *)
Record faults := { f_lookup : option string; f_cache : option string;
                   f_counter : option string; f_advance : option string }.

Definition query (fault : option string) : pub unit :=
  match fault with Some e => st_err (Db e) | None => st_ret tt end.

Definition le_byte (z : Z) (i : nat) : byte :=
  default Byte.x00 (Byte.of_N (Z.to_N (z / 256 ^ Z.of_nat i mod 256))).

(** [u64::to_le_bytes]. *)
Definition to_le_bytes (z : Z) : bytes := le_byte z <$> seq 0 8.

Definition str_bytes (s : string) : bytes := String.list_byte_of_string s.

Definition build_signed_payload (file : FileMetadata) (share : string) (signed_at counter : Z) : bytes :=
  blake3 file ++ str_bytes share ++ [Byte.x00] ++ str_bytes (path file) ++ [Byte.x00]
  ++ to_le_bytes (as_u64 signed_at) ++ to_le_bytes counter.

Section verifier.
Context (fetch_pubkey : string → result bytes VerifyError).
Context (from_bytes : bytes → result unit string).
Context (ed25519_verify : bytes → bytes → bytes → bool).

Definition TTL_MS : Z := 24 * 3600 * 1000.

(** A miss: ask Vault, and cache the answer if that succeeds. *)
Definition fetch_key (fl : faults) (now_ms : Z) (cert_fp : bytes) (kref : string) : pub bytes :=
  key <~ st_lift (fetch_pubkey kref) ;;
  λ db, (Ok key,
         if bool_decide (f_cache fl = None ∧ cert_fp ∈ cert_ids db)
         then mkDb (<[cert_fp := {| key_ref := kref; pubkey_ed25519 := key; fetched_at := now_ms |}]>
                      (publisher_keys db)) (publisher_counter db) (cert_ids db)
         else db).

Definition get_pubkey (fl : faults) (now_ms : Z) (cert_fp : bytes) (kref : string) : pub bytes :=
  _ <~ query (f_lookup fl) ;;
  λ db,
    match publisher_keys db !! cert_fp with
    | Some row =>
        if bool_decide (now_ms - fetched_at row < TTL_MS)
        then ((if decide (hash32 (pubkey_ed25519 row)) then Ok (pubkey_ed25519 row)
               else Err (InvalidPublicKey "cached key wrong length")), db)
        else fetch_key fl now_ms cert_fp kref db
    | None => fetch_key fl now_ms cert_fp kref db
    end.

(** The first half of [check_and_advance_counter]: the query and the test. *)
Definition check_counter (fl : faults) (cert_fp : bytes) (share : string) (incoming : Z) : pub unit :=
  _ <~ query (f_counter fl) ;;
  λ db,
    let max_stored := default 0 ((λ r, as_u64 r.1) <$> publisher_counter db !! (cert_fp, share)) in
    if bool_decide (incoming ≤ max_stored) then (Err (ReplayDetected incoming max_stored), db)
    else (Ok tt, db).

(** The second half: the upsert. *)
Definition advance_counter (fl : faults) (now_ms : Z) (cert_fp : bytes) (share : string) (incoming : Z)
    : pub unit :=
  _ <~ query (f_advance fl) ;;
  λ db, (Ok tt, mkDb (publisher_keys db)
                  (<[(cert_fp, share) := (as_i64 incoming, now_ms)]> (publisher_counter db)) (cert_ids db)).

Definition check_and_advance_counter (fl : faults) (now_ms : Z) (cert_fp : bytes) (share : string)
    (incoming : Z) : pub unit :=
  _ <~ check_counter fl cert_fp share incoming ;; advance_counter fl now_ms cert_fp share incoming.

(** [now_ms] is read for the key cache, [now_ms'] for the counter. *)
Definition verify (fl : faults) (now_ms now_ms' : Z) (proof : PublisherSignatureProof) (cert_fp : bytes)
    (share : string) (file : FileMetadata) : pub unit :=
  raw_pubkey <~ get_pubkey fl now_ms cert_fp (vault_key_ref proof) ;;
  _ <~ st_lift (map_err InvalidPublicKey (from_bytes raw_pubkey)) ;;
  let payload := build_signed_payload file share (signed_at_unix_ms proof) (counter proof) in
  _ <~ (if decide (length (ed25519_signature proof) = 64%nat) then st_ret tt else st_err SignatureMismatch) ;;
  _ <~ (if ed25519_verify raw_pubkey payload (ed25519_signature proof) then st_ret tt
        else st_err SignatureMismatch) ;;
  check_and_advance_counter fl now_ms' cert_fp share (counter proof).
End verifier.
End Publisher.

(** ** The payload *)
Section payload.
Import Publisher.

Lemma le_byte_val z i : byteZ (le_byte z i) = z / 256 ^ Z.of_nat i mod 256.
Proof.
  unfold le_byte, byteZ. pose proof (Z.mod_pos_bound (z / 256 ^ Z.of_nat i) 256).
  destruct (Byte.of_N (Z.to_N (z / 256 ^ Z.of_nat i mod 256))) as [b|] eqn:E; simpl.
  - apply Byte.to_of_N in E. rewrite E. lia.
  - apply Byte.of_N_None_iff in E. lia.
Qed.

(** Eight little-endian bytes determine a [u64]. *)
Lemma to_le_bytes_inj x y : in_u64 x → in_u64 y → to_le_bytes x = to_le_bytes y → x = y.
Proof.
  unfold_ints. intros Hx Hy H.
  assert (∀ i, (i < 8)%nat → x / 256 ^ Z.of_nat i mod 256 = y / 256 ^ Z.of_nat i mod 256) as Hd.
  { intros i Hi. rewrite <-!le_byte_val. f_equal.
    assert (to_le_bytes x !! i = to_le_bytes y !! i) as He by (by rewrite H).
    unfold to_le_bytes in He. rewrite !list_lookup_fmap, !lookup_seq_lt in He by lia.
    simpl in He. congruence. }
  assert (∀ i : nat, (i ≤ 8)%nat → x / 256 ^ (8 - Z.of_nat i) = y / 256 ^ (8 - Z.of_nat i)) as Hup.
  { induction i as [|i IH]; intros Hi.
    - rewrite !Z.div_small by (simpl; lia). done.
    - specialize (IH ltac:(lia)). specialize (Hd (7 - i)%nat ltac:(lia)).
      replace (8 - Z.of_nat (S i)) with (Z.of_nat (7 - i)) by lia.
      replace (8 - Z.of_nat i) with (Z.of_nat (7 - i) + 1) in IH by lia.
      rewrite !Z.pow_add_r, !Z.pow_1_r, <-!Z.div_div in IH by lia.
      rewrite (Z.div_mod (x / 256 ^ Z.of_nat (7 - i)) 256), (Z.div_mod (y / 256 ^ Z.of_nat (7 - i)) 256) by lia.
      congruence. }
  specialize (Hup 8%nat ltac:(lia)). change (256 ^ (8 - Z.of_nat 8)) with 1 in Hup. by rewrite !Z.div_1_r in Hup.
Qed.

Lemma length_to_le_bytes z : length (to_le_bytes z) = 8%nat.
Proof. done. Qed.

Lemma str_bytes_inj s t : str_bytes s = str_bytes t → s = t.
Proof.
  intros H. rewrite <-(String.string_of_list_byte_of_string s), <-(String.string_of_list_byte_of_string t).
  unfold str_bytes in H. by rewrite H.
Qed.

(** Two NUL-terminated strings at the head of equal lists agree. *)
Lemma nul_terminated {A} (x : A) (l1 l2 k1 k2 : list A) :
  x ∉ l1 → x ∉ l2 → l1 ++ x :: k1 = l2 ++ x :: k2 → l1 = l2 ∧ k1 = k2.
Proof.
  revert l2. induction l1 as [|a l1 IH]; intros [|b l2] H1 H2 E; simplify_eq/=; [done|set_solver..|].
  destruct (IH l2) as [-> ->]; [set_solver..|done|done].
Qed.
End payload.

(** ** The counter *)
Section counter.
Import Publisher.
Context (fetch_pubkey : string → result bytes VerifyError).
Context (from_bytes : bytes → result unit string).
Context (ed25519_verify : bytes → bytes → bytes → bool).

(** The stored maximum as the check reads it. *)
Definition max_stored (db : PublisherDb) (k : bytes * string) : Z :=
  default 0 ((λ r, as_u64 r.1) <$> publisher_counter db !! k).

Lemma check_counter_spec fl fp share n db r db' :
  check_counter fl fp share n db = (r, db') →
  db' = db ∧ (r = Ok tt → max_stored db (fp, share) < n).
Proof.
  unfold check_counter, st_bind, query. destruct (f_counter fl); [by intros [= <- <-]|].
  cbn. fold (max_stored db (fp, share)). case_bool_decide; intros [= <- <-]; split; try done. lia.
Qed.

Lemma advance_counter_spec fl now fp share n db r db' :
  advance_counter fl now fp share n db = (r, db') →
  (r = Ok tt ∧ publisher_counter db' = <[(fp, share) := (as_i64 n, now)]> (publisher_counter db)
     ∧ publisher_keys db' = publisher_keys db)
  ∨ ((∃ e, r = Err e) ∧ db' = db).
Proof.
  unfold advance_counter, st_bind, query. destruct (f_advance fl); intros [= <- <-]; eauto.
Qed.

(** The whole check: on success the counter was above the maximum and is the
    maximum now; on failure no counter changed. *)
Lemma check_and_advance_spec fl now fp share n db r db' :
  check_and_advance_counter fl now fp share n db = (r, db') →
  publisher_keys db' = publisher_keys db
  ∧ match r with
    | Ok _ => max_stored db (fp, share) < n
              ∧ publisher_counter db' = <[(fp, share) := (as_i64 n, now)]> (publisher_counter db)
    | Err _ => publisher_counter db' = publisher_counter db
    end.
Proof.
  unfold check_and_advance_counter, st_bind.
  destruct (check_counter fl fp share n db) as [[[]|e] db1] eqn:E1;
    apply check_counter_spec in E1 as [-> H1]; [|by intros [= <- <-]].
  intros E2. apply advance_counter_spec in E2 as [(->&->&->)|[[e ->] ->]]; auto.
Qed.

(** Where an accepted key came from: the cache, fetched within the day for
    this certificate, or Vault under the proof's reference. *)
Definition key_source (now : Z) (fp : bytes) (kref : string) (db : PublisherDb) (key : bytes) : Prop :=
  (∃ row, publisher_keys db !! fp = Some row ∧ pubkey_ed25519 row = key ∧ now - fetched_at row < TTL_MS)
  ∨ fetch_pubkey kref = Ok key.

Lemma fetch_key_spec fl now fp kref db r db' :
  fetch_key fetch_pubkey fl now fp kref db = (r, db') →
  publisher_counter db' = publisher_counter db ∧ (∀ key, r = Ok key → fetch_pubkey kref = Ok key).
Proof.
  unfold fetch_key, st_bind, st_lift. destruct (fetch_pubkey kref) as [key|e]; intros [= <- <-].
  - split; [by case_bool_decide|]. by intros ? [= ->].
  - done.
Qed.

Lemma get_pubkey_spec fl now fp kref db r db' :
  get_pubkey fetch_pubkey fl now fp kref db = (r, db') →
  publisher_counter db' = publisher_counter db ∧ (∀ key, r = Ok key → key_source now fp kref db key).
Proof.
  unfold get_pubkey, st_bind, query, key_source.
  destruct (f_lookup fl); [by intros [= <- <-]|]. unfold st_ret.
  destruct (publisher_keys db !! fp) as [row|]; [case_bool_decide|];
    [|intros [Hc Hk]%fetch_key_spec; split; [done|]; eauto..].
  case_decide; intros [= <- <-]; split; try done. intros key [= <-]. eauto.
Qed.

Lemma verify_inv fl now now' proof fp share file db r db' :
  verify fetch_pubkey from_bytes ed25519_verify fl now now' proof fp share file db = (r, db') →
  match r with
  | Ok _ => ∃ key, key_source now fp (vault_key_ref proof) db key
      ∧ length (ed25519_signature proof) = 64%nat
      ∧ ed25519_verify key (build_signed_payload file share (signed_at_unix_ms proof) (counter proof))
          (ed25519_signature proof) = true
      ∧ max_stored db (fp, share) < counter proof
      ∧ publisher_counter db' = <[(fp, share) := (as_i64 (counter proof), now')]> (publisher_counter db)
  | Err _ => publisher_counter db' = publisher_counter db
  end.
Proof.
  unfold verify. unfold st_bind at 1.
  destruct (get_pubkey fetch_pubkey fl now fp (vault_key_ref proof) db) as [[key|e] db1] eqn:E1;
    apply get_pubkey_spec in E1 as [Hc Hk]; [|by intros [= <- <-]].
  specialize (Hk _ eq_refl). unfold st_bind at 1, st_lift.
  destruct (from_bytes key); cbn [map_err]; [|by intros [= <- <-]].
  unfold st_bind at 1. case_decide as Hl; [|by intros [= <- <-]]. unfold st_ret at 1.
  unfold st_bind at 1. destruct (ed25519_verify _ _ _) eqn:Hv; [|by intros [= <- <-]]. unfold st_ret at 1.
  intros E2. apply check_and_advance_spec in E2 as [_ E2]. unfold max_stored in *. rewrite Hc in E2.
  destruct r; [|done]. exists key. naive_solver.
Qed.
(** A call caches a key only for its certificate, as Vault gave it. *)
Lemma verify_keys fl now now' proof fp share file db r db' fp' row :
  verify fetch_pubkey from_bytes ed25519_verify fl now now' proof fp share file db = (r, db') →
  publisher_keys db' !! fp' = Some row →
  publisher_keys db !! fp' = Some row ∨ fp' = fp ∧ fetch_pubkey (vault_key_ref proof) = Ok (pubkey_ed25519 row).
Proof.
  unfold verify. unfold st_bind at 1.
  destruct (get_pubkey fetch_pubkey fl now fp (vault_key_ref proof) db) as [r1 db1] eqn:E1.
  assert (publisher_keys db1 !! fp' = Some row →
    publisher_keys db !! fp' = Some row ∨ fp' = fp ∧ fetch_pubkey (vault_key_ref proof) = Ok (pubkey_ed25519 row)) as H1.
  { intros Hr. assert (∀ r2 db2, fetch_key fetch_pubkey fl now fp (vault_key_ref proof) db = (r2, db2) →
      publisher_keys db2 !! fp' = Some row → publisher_keys db !! fp' = Some row
        ∨ fp' = fp ∧ fetch_pubkey (vault_key_ref proof) = Ok (pubkey_ed25519 row)) as Hfetch.
    { intros r2 db2. unfold fetch_key, st_bind, st_lift. destruct (fetch_pubkey (vault_key_ref proof)) as [key|e];
        intros [= <- <-]; [|by left]. case_bool_decide; [|by left]. cbn. rewrite lookup_insert_Some.
      intros [[<- <-]|[_ ?]]; auto. }
    revert E1. unfold get_pubkey, st_bind, query, st_ret. destruct (f_lookup fl); [intros [= <- <-]; by left|].
    destruct (publisher_keys db !! fp) as [k|]; [|intros E; by eapply Hfetch].
    case_bool_decide; [|intros E; by eapply Hfetch]. intros [= <- <-]. by left. }
  destruct r1 as [key|e]; [|by intros [= <- <-]]. unfold st_bind at 1, st_lift.
  destruct (from_bytes key); cbn [map_err]; [|by intros [= <- <-]].
  unfold st_bind at 1. case_decide; [|by intros [= <- <-]]. unfold st_ret at 1.
  unfold st_bind at 1. destruct (ed25519_verify _ _ _); [|by intros [= <- <-]]. unfold st_ret at 1.
  intros E2. apply check_and_advance_spec in E2 as [-> _]. done.
Qed.
End counter.

Module PublisherProps.
Import Publisher.

(** The signed payload is unambiguous: for share names without a NUL
    byte, two payloads are equal only if the content hash, the share, the path,
    the time stamp and the counter are, so that a signature for one upload is
    not a signature for another. *)
Theorem signed_payload_injective f1 f2 s1 s2 t1 t2 n1 n2 :
  hash32 (blake3 f1) → hash32 (blake3 f2) →
  Byte.x00 ∉ str_bytes s1 → Byte.x00 ∉ str_bytes s2 →
  in_i64 t1 → in_i64 t2 → in_u64 n1 → in_u64 n2 →
  build_signed_payload f1 s1 t1 n1 = build_signed_payload f2 s2 t2 n2 →
  f1 = f2 ∧ s1 = s2 ∧ t1 = t2 ∧ n1 = n2.
Proof.
  intros Hh1 Hh2 Hs1 Hs2 Ht1 Ht2 Hn1 Hn2. unfold build_signed_payload. intros H.
  apply app_inj_1 in H as [Hb H]; [|by rewrite Hh1, Hh2].
  apply nul_terminated in H as [Hs H]; [|done..]. rewrite !(assoc_L (++)) in H.
  apply app_inj_2 in H as [H Hn]; [|done]. apply app_inj_2 in H as [H Ht]; [|done].
  apply app_inj_2 in H as [Hp _]; [|done].
  apply str_bytes_inj in Hs, Hp. apply to_le_bytes_inj in Hn; [|done..].
  apply to_le_bytes_inj in Ht; [|apply as_u64_range..].
  split_and!; [destruct f1, f2; simpl in *; congruence|done| |done].
  by rewrite <-(as_i64_id t1), <-(as_i64_id t2), <-as_i64_as_u64, Ht, as_i64_as_u64.
Qed.

Lemma signed_payload_injective_witness :
  let f := {| path := "a.md"; blake3 := zero_hash |} in
  build_signed_payload f "docs" 5 9 = build_signed_payload f "docs" 5 9 ∧ f = f.
Proof.
  intros f. split; [reflexivity|].
  apply (signed_payload_injective f f "docs" "docs" 5 5 9 9); try done;
    try (by vm_compute); vm_compute; intros H; repeat (inversion H as [|????]; subst; clear H; rename select (_ ∈ _) into H).
Defined.

Section calls.
Context (fetch_pubkey : string → result bytes VerifyError).
Context (from_bytes : bytes → result unit string).
Context (ed25519_verify : bytes → bytes → bytes → bool).

Record call := { c_faults : faults; c_now : Z; c_now' : Z; c_proof : PublisherSignatureProof;
                 c_cert : bytes; c_share : string; c_file : FileMetadata }.

(** The calls that were accepted, in order, and the database after them. *)
Fixpoint accepted (cs : list call) (db : PublisherDb) : list call * PublisherDb :=
  match cs with
  | [] => ([], db)
  | c :: cs =>
      let '(r, db) := verify fetch_pubkey from_bytes ed25519_verify (c_faults c) (c_now c) (c_now' c)
                        (c_proof c) (c_cert c) (c_share c) (c_file c) db in
      let '(l, db) := accepted cs db in
      (if is_ok r then c :: l else l, db)
  end.

Definition counters_of (k : bytes * string) (l : list call) : list Z :=
  (λ c, counter (c_proof c)) <$> List.filter (λ c, bool_decide ((c_cert c, c_share c) = k)) l.

(** A certificate's key: cached for it at the start, or given by Vault under
    the reference of a call of this certificate. *)
Definition key_of (cs : list call) (db : PublisherDb) (cert key : bytes) : Prop :=
  (∃ row, publisher_keys db !! cert = Some row ∧ pubkey_ed25519 row = key)
  ∨ ∃ c, c ∈ cs ∧ c_cert c = cert ∧ fetch_pubkey (vault_key_ref (c_proof c)) = Ok key.

Definition signed (cs : list call) (db : PublisherDb) (c : call) : Prop :=
  ∃ key, key_of cs db (c_cert c) key
    ∧ length (ed25519_signature (c_proof c)) = 64%nat
    ∧ ed25519_verify key (build_signed_payload (c_file c) (c_share c)
        (signed_at_unix_ms (c_proof c)) (counter (c_proof c))) (ed25519_signature (c_proof c)) = true.

(** C25: Publisher replay protection over any sequence of calls with any
    query failures: what is accepted for a certificate and share has strictly
    increasing counters, all above the stored maximum, so no proof is accepted
    twice; the maximum afterwards is the last accepted counter; and every
    accepted call carries a 64-byte signature that verifies over its own file,
    share, time stamp and counter under a key of its certificate: one cached for
    it before, or one Vault gave for the reference that a call of this
    certificate named. *)
Theorem publisher_replay_safe cs db l db' k :
  Forall (λ c, in_u64 (counter (c_proof c))) cs → accepted cs db = (l, db') →
  StronglySorted Z.lt (max_stored db k :: counters_of k l)
  ∧ max_stored db' k = default (max_stored db k) (last (counters_of k l))
  ∧ Forall (signed cs db) l.
Proof.
  revert db l. induction cs as [|c cs IH]; intros db l Hu; simpl.
  { intros [= <- <-]. cbn. split_and!; [repeat constructor|done|constructor]. }
  apply Forall_cons in Hu as [Hc Hu].
  destruct (verify _ _ _ _ _ _ _ _ _ _ db) as [r db1] eqn:E.
  destruct (accepted cs db1) as [l1 db2] eqn:E1. intros [= <- <-].
  specialize (IH db1 l1 Hu E1) as (IHs&IHm&IHf).
  assert (Forall (signed (c :: cs) db) l1) as IHf'.
  { eapply Forall_impl; [exact IHf|]. intros x (key&Hkey&Hx). exists key. split; [|done].
    destruct Hkey as [(row&Hrow&<-)|(c'&Hc'&Hcert&Hf)]; [|right; exists c'; split; [by right|done]].
    destruct (verify_keys _ _ _ _ _ _ _ _ _ _ _ _ _ _ _ E Hrow) as [?|[Hcert Hf]]; [left; eauto|].
    right. exists c. split; [left|done]. }
  clear IHf. apply verify_inv in E.
  destruct r as [[]|e]; cbn [is_ok].
  - destruct E as (key&Hsrc&Hlen&Hsig&Hlt&Hdb).
    assert (∀ k', max_stored db1 k' = if bool_decide ((c_cert c, c_share c) = k')
              then counter (c_proof c) else max_stored db k') as Hm.
    { intros k'. unfold max_stored. rewrite Hdb. case_bool_decide as Hk.
      - subst k'. rewrite lookup_insert_eq. simpl. by apply as_u64_as_i64.
      - by rewrite lookup_insert_ne. }
    rewrite Hm in IHs, IHm. unfold counters_of in *. cbn [List.filter].
    split_and!; [| |constructor; [exists key; split; [|done]; by destruct Hsrc as [(row&?&?&_)|?]; [left; exists row|right; exists c; split; [left|]]|done]]; case_bool_decide as Hk.
    + subst k. rewrite fmap_cons. constructor; [done|]. constructor; [done|].
      apply StronglySorted_cons in IHs as [Hall _]. eapply Forall_impl; [exact Hall|]. cbn. lia.
    + done.
    + rewrite fmap_cons, IHm, last_cons. by destruct (last _).
    + done.
  - unfold max_stored in *. by rewrite E in IHs, IHm.
Qed.
End calls.

Definition demo_call (n : Z) : call :=
  {| c_faults := {| f_lookup := None; f_cache := None; f_counter := None; f_advance := None |};
     c_now := 0; c_now' := 0;
     c_proof := {| ed25519_signature := replicate 64 Byte.x01; vault_key_ref := "k";
                   signed_at_unix_ms := 0; counter := n |};
     c_cert := [Byte.x02]; c_share := "docs"; c_file := {| path := "a"; blake3 := zero_hash |} |}.
Definition demo_db : PublisherDb := mkDb ∅ ∅ ∅.
Definition demo_fetch : string → result bytes VerifyError := λ _, Ok zero_hash.

Lemma publisher_replay_safe_witness :
  let r := accepted demo_fetch (λ _, Ok tt) (λ _ _ _, true) [demo_call 3; demo_call 3; demo_call 2; demo_call 7] demo_db in
  r.1 = [demo_call 3; demo_call 7]
  ∧ max_stored r.2 ([Byte.x02], "docs") = default 0 (last (counters_of ([Byte.x02], "docs") r.1)).
Proof.
  intros r. split; [vm_compute; reflexivity|].
  apply (publisher_replay_safe demo_fetch (λ _, Ok tt) (λ _ _ _, true)
           [demo_call 3; demo_call 3; demo_call 2; demo_call 7] demo_db r.1 r.2 ([Byte.x02], "docs")).
  - repeat constructor; vm_compute; done.
  - apply surjective_pairing.
Defined.

(** Check and upsert are two queries without a transaction. When two calls
    interleave, both are accepted and the smaller counter can be written last:
    the maximum goes back, and a counter already used passes the check again. *)
Lemma publisher_counter_race :
  let fl := {| f_lookup := None; f_cache := None; f_counter := None; f_advance := None |} in
  let cert := [Byte.x02] in
  ∃ db, (_ <~ check_counter fl cert "docs" 7 ;; _ <~ check_counter fl cert "docs" 6 ;;
         _ <~ advance_counter fl 0 cert "docs" 7 ;; _ <~ advance_counter fl 0 cert "docs" 6 ;;
         check_counter fl cert "docs" 7) demo_db = (Ok tt, db)
    ∧ max_stored db (cert, "docs") = 6.
Proof. eexists. split; [vm_compute; reflexivity|vm_compute; reflexivity]. Qed.
End PublisherProps.
