(* ===== verification/ConflictWriter.v ===== *)
(** * Applying a conflict on the client ([disk-client/src/conflict_writer.rs])

    Either the merged text replaces the live file or the losing bytes are
    written to a fork; the theorem is the module's zero-data-loss promise under
    any pattern of I/O failures. *)

From stdpp Require Import prelude gmap strings pretty.
From Stdlib Require Import ZArith Lia Strings.Byte Strings.Ascii.
From S2P Require Import Prelude Text PathFacts Fork Fs.

Module ConflictWriter.
Import Path ForkName Merge.

Inductive ForkWriteError :=
  | Io (e : Fs.io_error)
  | Persist (e : Fs.io_error)
  | PathTraversal.

Definition MAX_COLLISION_ATTEMPTS : nat := 100.
Definition MERGE_ELIGIBLE_EXTENSIONS : list string := ["md"; "txt"].

(** [e.to_lowercase()] agrees with ASCII folding on the two extensions: no
    other character folds to one of their letters. *)
Definition is_merge_eligible (rel_path : string) : bool :=
  match extension rel_path with
  | Some e => bool_decide (to_ascii_lowercase e ∈ MERGE_ELIGIBLE_EXTENSIONS)
  | None => false
  end.

(** A returned [PathBuf] is its components. *)
Inductive ConflictApplyOutcome :=
  | Merged
  | Forked (rel : list component).

Abbreviation fork_io := (stm Fs.t ForkWriteError).

(** The [?] conversions [From<io::Error>] and [From<PersistError>]. *)
Definition lift_io {A} (m : Fs.io A) : fork_io A := λ fs,
  let '(r, fs) := m fs in (map_err Io r, fs).
Definition lift_persist {A} (m : Fs.io A) : fork_io A := λ fs,
  let '(r, fs) := m fs in (map_err Persist r, fs).

Definition validate_no_traversal (rel : string) : result unit ForkWriteError :=
  if bool_decide ("000"%char ∈ explode rel) then Err PathTraversal
  else if bool_decide (Exists (λ c, c = ParentDir ∨ c = RootDir) (components rel))
  then Err PathTraversal
  else Ok tt.

Definition with_collision_suffix (path : string) (counter : nat) : string :=
  let parent := default "" (Path.parent path) in
  let name := explode (default "" (file_name path)) in
  let new_name :=
    match rfind "."%char name with
    | None => name ++ explode ("-" +:+ pretty counter)
    | Some dot => take dot name ++ explode ("-" +:+ pretty counter) ++ drop dot name
    end in
  place parent (implode new_name).

Section io.
Context (f : Fs.faults).

Definition write_atomic (path : string) (contents : bytes) : fork_io unit :=
  there <~ lift_io (Fs.exists_ f path) ;;
  if (there : bool) then st_err (Io (Fs.IoError Fs.AlreadyExists "fork path already exists"))
  else
    tmp <~ lift_io (Fs.temp_with f contents) ;;
    lift_persist (Fs.persist f tmp path).

(** [candidate.strip_prefix(base_dir).unwrap_or(&candidate)]. *)
Definition relative_to (base_dir candidate : string) : list component :=
  let b := components base_dir in
  let c := components candidate in
  if decide (take (length b) c = b) then drop (length b) c else c.

(** The loop over [attempt]; [todo] counts the attempts left. *)
Fixpoint try_attempts (base_dir fork_abs : string) (contents : bytes) (todo attempt : nat)
    : fork_io (list component) :=
  match todo with
  | O => st_err (Io (Fs.IoError Fs.AlreadyExists "exceeded collision counter limit"))
  | S todo => λ fs,
      let candidate :=
        match attempt with O => fork_abs | _ => with_collision_suffix fork_abs attempt end in
      match write_atomic candidate contents fs with
      | (Ok _, fs) => (Ok (relative_to base_dir candidate), fs)
      | (Err e, fs) =>
          match e with
          | Io (Fs.IoError Fs.AlreadyExists _) =>
              try_attempts base_dir fork_abs contents todo (S attempt) fs
          | _ => (Err e, fs)
          end
      end
  end.

(** [now] is [SystemTime::now()]. *)
Definition write_fork (base_dir rel_path : string) (contents : bytes) (node_id : string)
    (now : Z) : fork_io (list component) :=
  match fork_filename rel_path node_id now with
  | None => st_err PathTraversal
  | Some fork_rel =>
      _ <~ st_lift (validate_no_traversal fork_rel) ;;
      let fork_abs := join base_dir fork_rel in
      _ <~ match Path.parent fork_abs with
           | Some parent => lift_io (Fs.create_dir_all f parent)
           | None => st_ret tt
           end ;;
      try_attempts base_dir fork_abs contents MAX_COLLISION_ATTEMPTS 0
  end.

Definition apply_conflict (diffy_merge : bytes → bytes → bytes → result bytes bytes)
    (base_dir rel_path : string) (base : option bytes) (local remote : bytes)
    (node_id : string) (now : Z) : fork_io ConflictApplyOutcome :=
  let fork :=
    fork_rel <~ write_fork base_dir rel_path remote node_id now ;;
    st_ret (Forked fork_rel) in
  if is_merge_eligible rel_path then
    match three_way_merge diffy_merge base local remote with
    | Clean merged =>
        let live_abs := join base_dir rel_path in
        _ <~ match Path.parent live_abs with
             | Some parent => lift_io (Fs.create_dir_all f parent)
             | None => st_ret tt
             end ;;
        tmp <~ lift_io (Fs.temp_with f merged) ;;
        _ <~ lift_persist (Fs.persist f tmp live_abs) ;;
        st_ret Merged
    | _ => fork
    end
  else fork.
End io.
End ConflictWriter.

(** ** Fork paths stay inside the vault *)
Section containment.
Import Path ForkName Merge ConflictWriter.
Context (base_dir : string) (Hbase : is_absolute base_dir = true).

Definition inside (p : string) : Prop :=
  ∃ cs name, components p = components base_dir ++ cs ++ [Normal name].

Lemma inside_file_name p : inside p → ∃ name, file_name p = Some name.
Proof.
  intros (cs&name&Hp). exists name. unfold file_name. rewrite Hp, (assoc_L (++)). by rewrite last_snoc.
Qed.

Lemma pretty_counter_plain n : (n < 100)%nat → "/"%char ∉ explode (pretty n).
Proof.
  intros Hn. assert (Forall (λ n : nat, "/"%char ∉ explode (pretty n)) (seq 0 100)) as H
    by (apply (bool_decide_unpack _); vm_compute; exact I).
  rewrite Forall_forall in H. apply H, elem_of_seq. lia.
Qed.

Lemma base_dir_ne : base_dir ≠ "".
Proof. intros He. rewrite He in Hbase. done. Qed.

Lemma inside_root p : inside p → has_root p = true.
Proof.
  intros (cs&name&Hp). apply has_root_components. rewrite Hp.
  apply elem_of_app. left. by apply has_root_components.
Qed.

Lemma join_inside rel cs name :
  is_absolute rel = false → components rel = cs ++ [Normal name] → inside (join base_dir rel).
Proof.
  intros Hrel Hc. unfold inside. rewrite components_join by (done || apply base_dir_ne).
  rewrite components_rel in Hc by done.
  destruct (omap component_of (segments rel)) as [|x l] using rev_ind.
  - exfalso. rewrite app_nil_r in Hc. unfold lead in Hc. repeat case_match; destruct cs as [|?[]];
      simplify_eq/=; by destruct cs.
  - rewrite (assoc_L (++)) in Hc. apply app_inj_2 in Hc as [_ [= ->]]; [|done]. eauto.
Qed.

Lemma suffix_inside p n : (n < 100)%nat → inside p → inside (with_collision_suffix p n).
Proof.
  intros Hn Hin. destruct (inside_file_name p Hin) as [nm Hnm].
  destruct (parent_spec p nm Hnm) as (q&Hq&Hc&_&Hr).
  unfold with_collision_suffix. rewrite Hq, Hnm. cbn [from_option id].
  destruct Hin as (cs&name&Hp). rewrite Hp, (assoc_L (++)) in Hc.
  apply app_inj_2 in Hc as [Hc [= ->]]; [|done].
  match goal with |- inside (place _ (implode ?nn)) => set (new_name := nn) end.
  assert (plain_name (implode new_name)) as Hplain.
  { destruct (file_name_plain p nm Hnm) as (Hne&_&_&Hfree). unfold sep_free, sep in *.
    pose proof (pretty_counter_plain n Hn) as Hpc.
    assert (∃ l1 l2, explode nm = l1 ++ l2 ∧ new_name = l1 ++ explode ("-" +:+ pretty n) ++ l2)
      as (l1&l2&Hl&Hnn).
    { unfold new_name. destruct (rfind _ _) as [dot|].
      - eexists _, _. split; [|done]. by rewrite take_drop.
      - exists (explode nm), []. by rewrite !app_nil_r. }
    assert (explode (pretty n) ≠ []).
    { intros H. rewrite H in Hpc. assert (Forall (λ n : nat, explode (pretty n) ≠ []) (seq 0 100)) as H2
        by (apply (bool_decide_unpack _); vm_compute; exact I).
      rewrite Forall_forall in H2. by apply (H2 n); [apply elem_of_seq; lia|]. }
    rewrite explode_app in Hnn. change (explode "-") with ["-"%char] in Hnn.
    assert (length new_name = length (explode nm) + 1 + length (explode (pretty n)))%nat as Hlen.
    { rewrite Hnn, Hl, !length_app. simpl. lia. }
    assert (0 < length (explode nm))%nat by (destruct nm; [done|simpl; lia]).
    assert (0 < length (explode (pretty n)))%nat by (destruct (explode (pretty n)); [done|simpl; lia]).
    split_and!; [intros Heq%(f_equal (length ∘ explode));
                 unfold compose in Heq; rewrite explode_implode in Heq; simpl in Heq; lia..|].
    unfold sep_free, sep. rewrite explode_implode, Hnn. rewrite Hl in Hfree.
    rewrite !elem_of_app, list_elem_of_singleton in *. naive_solver. }
  exists cs, (implode new_name). rewrite place_components by done.
  by rewrite <-Hc, (assoc_L (++)).
Qed.
End containment.

Section lemmas.
Import Path ForkName Merge ConflictWriter.
Context (f : Fs.faults).

Lemma temp_persist_files c p fs r fs' :
  (tmp <~ lift_io (Fs.temp_with f c) ;; lift_persist (Fs.persist f tmp p)) fs = (r, fs') →
  (r = Ok tt ∧ Fs.files fs' = <[components p := c]> (Fs.files fs))
  ∨ ((∃ e, r = Err e) ∧ Fs.files fs' = Fs.files fs).
Proof.
  unfold st_bind, lift_io, lift_persist.
  destruct (Fs.temp_with f c fs) as [r1 fs1] eqn:Ht.
  apply Fs.temp_with_files in Ht as [Hf1 Hd].
  destruct r1 as [d|e]; simpl; [|intros [= <- <-]; eauto].
  rewrite (Hd d eq_refl). destruct (Fs.persist f c p fs1) as [r2 fs2] eqn:Hp.
  apply Fs.persist_files in Hp as [[-> Hf2]|[[e ->] Hf2]]; simpl; intros [= <- <-];
    rewrite Hf2, Hf1; eauto.
Qed.

Lemma grows_lift_io {A} (m : Fs.io A) : Fs.grows m → Fs.grows (lift_io m).
Proof. intros Hm fs r fs'. unfold lift_io. destruct (m fs) eqn:E. intros [= _ <-]. by eapply Hm. Qed.

Lemma grows_temp_persist c p :
  Fs.grows (tmp <~ lift_io (Fs.temp_with f c) ;; lift_persist (Fs.persist f tmp p)).
Proof.
  apply Fs.grows_bind; [apply grows_lift_io, Fs.grows_temp_with|]. intros d fs r fs'.
  unfold lift_persist. destruct (Fs.persist f d p fs) eqn:E. intros [= _ <-]. by eapply Fs.grows_persist.
Qed.

Lemma grows_write_atomic p c : Fs.grows (write_atomic f p c).
Proof.
  apply Fs.grows_bind; [apply grows_lift_io, Fs.grows_stat|]. intros [|]; [apply Fs.grows_err|].
  apply grows_temp_persist.
Qed.

(** The bytes go to a path that, if the look at it did not fail, was free. *)
Lemma write_atomic_files p c fs r fs' :
  write_atomic f p c fs = (r, fs') →
  (r = Ok tt ∧ (Fs.quiet f fs fs' → Fs.files fs !! components p = None)
     ∧ Fs.files fs' = <[components p := c]> (Fs.files fs))
  ∨ ((∃ e, r = Err e) ∧ Fs.files fs' = Fs.files fs).
Proof.
  unfold write_atomic, st_bind at 1, lift_io at 1. destruct (Fs.exists_ f p fs) as [r0 fs0] eqn:E0.
  pose proof (Fs.grows_stat _ _ _ _ _ E0) as G0. pose proof E0 as (F0&_&there&->&_)%Fs.stat_spec. simpl.
  destruct there; [intros [= <- <-]; eauto|]. intros Hw. pose proof (grows_temp_persist _ _ _ _ _ Hw) as G1.
  apply temp_persist_files in Hw as [[-> Hf]|[? Hf]]; rewrite F0 in Hf; [left|by right].
  split_and!; [done| |done]. intros Hq. apply Fs.stat_false in E0; [by apply Fs.not_there in E0 as [? _]|].
  by eapply Fs.quiet_mono; [..|exact Hq].
Qed.

(** A successful fork fills one slot and touches nothing else; the slot was
    free, unless a look at a path failed. *)
Definition forked (base_dir : string) (contents : bytes) (fs fs' : Fs.t) (rel : list component) : Prop :=
  ∃ slot, Fs.files fs' = <[slot := contents]> (Fs.files fs)
    ∧ (slot = components base_dir ++ rel ∨ slot = rel)
    ∧ (Fs.quiet f fs fs' → Fs.files fs !! slot = None).

Lemma forked_after base_dir c fs fs1 fs2 fs3 rel :
  Fs.files fs1 = Fs.files fs → Fs.files fs3 = Fs.files fs2 →
  (Fs.calls fs ≤ Fs.calls fs1)%nat → (Fs.calls fs2 ≤ Fs.calls fs3)%nat →
  forked base_dir c fs1 fs2 rel → forked base_dir c fs fs3 rel.
Proof.
  intros E1 E2 H1 H2 (slot&Hf&Hs&Hq). exists slot. rewrite E2, Hf, E1. split_and!; [done..|].
  rewrite <- E1. intros. eapply Hq, Fs.quiet_mono; [exact H1|exact H2|done].
Qed.

Lemma relative_to_spec base_dir p :
  components p = components base_dir ++ relative_to base_dir p ∨ components p = relative_to base_dir p.
Proof.
  unfold relative_to. case_decide as H; [left|by right].
  rewrite <-(take_drop (length (components base_dir)) (components p)) at 1. by rewrite H.
Qed.

Lemma try_attempts_files base_dir abs c todo attempt fs r fs' :
  try_attempts f base_dir abs c todo attempt fs = (r, fs') →
  match r with
  | Ok rel => forked base_dir c fs fs' rel
  | Err _ => Fs.files fs' = Fs.files fs
  end.
Proof.
  revert attempt fs. induction todo as [|todo IH]; intros attempt fs; simpl.
  { by intros [= <- <-]. }
  set (cand := match attempt with O => abs | _ => _ end).
  destruct (write_atomic f cand c fs) as [r1 fs1] eqn:Hw. pose proof (grows_write_atomic _ _ _ _ _ Hw) as G.
  apply write_atomic_files in Hw as [(->&Hn&Hf)|[[e ->] Hf]].
  - intros [= <- <-]. exists (components cand). split_and!; try done.
    apply relative_to_spec.
  - assert (∀ r, (Err e, fs1) = (r, fs') → match r with
              | Ok rel => forked base_dir c fs fs' rel
              | Err _ => Fs.files fs' = Fs.files fs end) as Hdone
      by (by intros ? [= <- <-]).
    destruct e as [[[] ?]| |]; try apply Hdone.
    intros Hr%IH. destruct r; [|congruence]. by eapply forked_after.
Qed.

Lemma mkdir_files abs fs r fs' :
  (match Path.parent abs with
   | Some parent => lift_io (Fs.create_dir_all f parent)
   | None => st_ret tt
   end) fs = (r, fs') → Fs.files fs' = Fs.files fs ∧ (Fs.calls fs ≤ Fs.calls fs')%nat.
Proof.
  destruct (Path.parent abs) as [p|]; [|by intros [= <- <-]]. intros H. split.
  - unfold lift_io in H. destruct (Fs.create_dir_all f p fs) as [r1 fs1] eqn:Hc.
    apply Fs.create_dir_all_files in Hc. by simplify_eq.
  - revert H. apply grows_lift_io, Fs.grows_create_dir_all.
Qed.

Lemma write_fork_files base_dir rel_path c node_id now fs r fs' :
  write_fork f base_dir rel_path c node_id now fs = (r, fs') →
  match r with
  | Ok rel => forked base_dir c fs fs' rel
  | Err _ => Fs.files fs' = Fs.files fs
  end.
Proof.
  unfold write_fork. destruct (fork_filename _ _ _) as [fr|]; [|by intros [= <- <-]].
  unfold st_bind at 1, st_lift. destruct (validate_no_traversal fr); [|by intros [= <- <-]].
  unfold st_bind. destruct (_ fs) as [[u|e] fs1] eqn:Hm at 1; apply mkdir_files in Hm as [Hm Hc].
  - intros Hr%try_attempts_files. destruct r; [|congruence]. by eapply forked_after.
  - by intros [= <- <-].
Qed.
End lemmas.

Section placement.
Import Calendar Path ForkName ConflictWriter.

Lemma validate_relative rel : validate_no_traversal rel = Ok tt →
  is_absolute rel = false ∧ ParentDir ∉ components rel.
Proof.
  unfold validate_no_traversal. case_bool_decide; [done|]. case_bool_decide as He; [done|].
  intros _. rewrite Exists_exists in He. split.
  - apply not_true_is_false. intros ?%has_root_components. naive_solver.
  - naive_solver.
Qed.

Context (f : Fs.faults) (base_dir : string) (Hbase : is_absolute base_dir = true).

Lemma relative_to_inside p :
  inside base_dir p → components p = components base_dir ++ relative_to base_dir p
    ∧ ∃ cs name, relative_to base_dir p = cs ++ [Normal name].
Proof.
  intros (cs&name&Hp). unfold relative_to.
  rewrite Hp, take_app_length, decide_True by done. rewrite drop_app_length. eauto.
Qed.

Lemma try_attempts_inside abs c todo attempt fs rel fs' :
  (attempt + todo ≤ 100)%nat → inside base_dir abs →
  try_attempts f base_dir abs c todo attempt fs = (Ok rel, fs') →
  (Fs.quiet f fs fs' → Fs.files fs !! (components base_dir ++ rel) = None)
  ∧ Fs.files fs' = <[components base_dir ++ rel := c]> (Fs.files fs)
  ∧ ∃ cs name, rel = cs ++ [Normal name].
Proof.
  revert attempt fs. induction todo as [|todo IH]; intros attempt fs Hn Hin; simpl; [done|].
  set (cand := match attempt with O => abs | _ => _ end).
  assert (inside base_dir cand) as Hcand.
  { unfold cand. destruct attempt; [done|]. apply suffix_inside; [lia|done]. }
  destruct (relative_to_inside cand Hcand) as [Hrel Hshape].
  destruct (write_atomic f cand c fs) as [r1 fs1] eqn:Hw. pose proof (grows_write_atomic _ _ _ _ _ _ Hw) as G.
  apply write_atomic_files in Hw as [(->&Hno&Hf)|[[e ->] Hf]].
  - intros [= <- <-]. by rewrite <-Hrel.
  - destruct e as [[[] ?]| |]; try done. intros (Hq&Hr&?)%IH; [|lia|done]. rewrite Hf in Hq, Hr.
    split_and!; [|done..]. intros Hq'. eapply Hq, Fs.quiet_mono; [exact G|reflexivity|done].
Qed.
End placement.

Module ConflictWriterProps.
Import Path ForkName Merge ConflictWriter.

Lemma forked_keeps f base_dir c fs fs' rel k v :
  forked f base_dir c fs fs' rel → Fs.quiet f fs fs' → Fs.files fs !! k = Some v → Fs.files fs' !! k = Some v.
Proof.
  intros (slot&->&_&Hn) Hq Hk. rewrite lookup_insert_ne; [done|]. intros ->. rewrite Hn in Hk; done.
Qed.

(** C16: Zero data loss. Whatever I/O fails, applying a conflict either
    replaces the live file by diffy's clean merge of three bounded texts and
    changes no other file; or writes the remote bytes to the one path it
    returns and changes no other file, that path having been free and so no
    file lost, unless one of the looks at a path failed ([Path::exists] then
    says it is free); or reports an error and changes no file at all. A merge
    that cannot be written is such an error: nothing is forked then. *)
Theorem apply_conflict_no_loss (f : Fs.faults) diffy base_dir rel_path base local remote
    node_id now fs r fs' :
  apply_conflict f diffy base_dir rel_path base local remote node_id now fs = (r, fs') →
  match r with
  | Ok Merged =>
      ∃ b m, base = Some b ∧ diffy b local remote = Ok m
        ∧ is_merge_eligible rel_path = true
        ∧ mergeable b ∧ mergeable local ∧ mergeable remote
        ∧ Fs.files fs' = <[components (join base_dir rel_path) := m]> (Fs.files fs)
  | Ok (Forked rel) =>
      ∃ slot, (slot = components base_dir ++ rel ∨ slot = rel)
        ∧ Fs.files fs' = <[slot := remote]> (Fs.files fs)
        ∧ (Fs.quiet f fs fs' →
           Fs.files fs !! slot = None ∧ ∀ k v, Fs.files fs !! k = Some v → Fs.files fs' !! k = Some v)
  | Err _ => Fs.files fs' = Fs.files fs
  end.
Proof.
  assert ((fork_rel <~ write_fork f base_dir rel_path remote node_id now ;;
           st_ret (Forked fork_rel)) fs = (r, fs') →
          match r with
          | Ok Merged => False
          | Ok (Forked rel) => forked f base_dir remote fs fs' rel
          | Err _ => Fs.files fs' = Fs.files fs
          end) as Hfork.
  { unfold st_bind. destruct (write_fork _ _ _ _ _ _ fs) as [[rel|e] fs1] eqn:Hw;
      apply write_fork_files in Hw; by intros [= <- <-]. }
  assert (∀ rel, forked f base_dir remote fs fs' rel → ∃ slot, (slot = components base_dir ++ rel ∨ slot = rel)
        ∧ Fs.files fs' = <[slot := remote]> (Fs.files fs)
        ∧ (Fs.quiet f fs fs' →
           Fs.files fs !! slot = None ∧ ∀ k v, Fs.files fs !! k = Some v → Fs.files fs' !! k = Some v)) as Hk.
  { intros rel Hf. pose proof Hf as (slot&Hs&Hp&Hn). exists slot. split_and!; [done..|]. intros Hq.
    split; [by apply Hn|]. intros k v. by eapply forked_keeps. }
  unfold apply_conflict. destruct (is_merge_eligible rel_path) eqn:He;
    [|intros Hr%Hfork; destruct r as [[]|]; by auto].
  destruct (three_way_merge _ _ _ _) as [m| |] eqn:Hm;
    [|intros Hr%Hfork; destruct r as [[]|]; by auto..].
  apply three_way_merge_clean in Hm as (b&->&Hd&?&?&?). clear Hfork Hk.
  unfold st_bind at 1. destruct (_ fs) as [[u|e] fs1] eqn:Hk at 1; apply mkdir_files in Hk as [Hk _];
    [|by intros [= <- <-]].
  intros Hr. assert ((_ <~ (tmp <~ lift_io (Fs.temp_with f m) ;;
      lift_persist (Fs.persist f tmp (join base_dir rel_path))) ;; st_ret Merged) fs1 = (r, fs')) as Hr'.
  { rewrite <-Hr. unfold st_bind. destruct (lift_io _ _) as [[?|?] ?]; [|done].
    by destruct (lift_persist _ _) as [[?|?] ?]. }
  clear Hr. unfold st_bind at 1 in Hr'. destruct (st_bind _ _ fs1) as [r2 fs2] eqn:Hp.
  apply temp_persist_files in Hp as [[-> Hf]|[[e ->] Hf]]; injection Hr' as <- <-.
  - exists b, m. rewrite Hf, Hk. done.
  - by rewrite Hf.
Qed.

Definition demo_fs : Fs.t :=
  Fs.mk {[components "/v/a.bin" := [x01]]} {[components "/v"]} 0.
Definition no_faults : Fs.faults := λ _, None.

Lemma apply_conflict_no_loss_witness :
  ∃ rel slot fs', apply_conflict no_faults (λ _ _ _, Err []) "/v" "a.bin" None [x01] [x02] "n" 0 demo_fs
               = (Ok (Forked rel), fs')
    ∧ Fs.files fs' = <[slot := [x02]]> (Fs.files demo_fs) ∧ Fs.files demo_fs !! slot = None.
Proof.
  destruct (apply_conflict no_faults (λ _ _ _, Err []) "/v" "a.bin" None [x01] [x02] "n" 0 demo_fs)
    as [r fs'] eqn:Hr.
  assert (r = Ok (Forked [Normal "a.sync-conflict-00000000-19700101-000000.bin"])) as ->.
  { apply (f_equal fst) in Hr. etrans; [symmetry; exact Hr|]. vm_compute. reflexivity. }
  destruct (apply_conflict_no_loss _ _ _ _ _ _ _ _ _ _ _ _ Hr) as (slot&_&Hf&Hq).
  eexists _, slot, fs'. split; [reflexivity|]. split; [exact Hf|].
  apply Hq. intros n _. reflexivity.
Defined.

(** A fork of the same second is overwritten when the look at its path fails:
    its bytes are gone although the call reports success. *)
Example failing_stat_overwrites_fork :
  let again (fault : nat → bool) := write_fork (λ n, if fault n then Some (Fs.IoError Fs.OtherKind "EIO") else None)
                       "/v" "a.bin" [x03] "n" 0 (write_fork no_faults "/v" "a.bin" [x02] "n" 0 demo_fs).2 in
  let slot := components "/v/a.sync-conflict-00000000-19700101-000000.bin" in
  let '(r1, fs1) := again (λ _, false) in
  let '(r2, fs2) := again (λ n, bool_decide (n = 7%nat)) in
  Fs.files fs1 !! slot = Some [x02] ∧ is_ok r2 = true ∧ Fs.files fs2 !! slot = Some [x03]
  ∧ bool_decide ([x02] ∈ (map_to_list (Fs.files fs2)).*2) = false.
Proof. vm_compute. done. Qed.

(** A merge that cannot be written is an error, and nothing is forked. *)
Example merge_write_error_not_forked :
  let '(r, fs) := apply_conflict (λ n, if bool_decide (n = 1%nat) then Some (Fs.IoError Fs.OtherKind "EIO") else None)
                    (λ _ _ _, Ok [x41]) "/v" "a.md" (Some [x40]) [x41] [x42] "n" 0 demo_fs in
  is_ok r = false ∧ Fs.files fs = Fs.files demo_fs.
Proof. vm_compute. done. Qed.

(** A fork that is written lands inside the vault: the returned path,
    resolved against the vault root, is a slot that was free, unless a look at
    a path failed, and now holds the losing bytes; it has no [..] component. *)
Theorem write_fork_inside (f : Fs.faults) base_dir rel_path contents node_id now fs rel fs' :
  is_absolute base_dir = true → ts_secs now < Calendar.max_secs →
  write_fork f base_dir rel_path contents node_id now fs = (Ok rel, fs') →
  (Fs.quiet f fs fs' → Fs.files fs !! (components base_dir ++ rel) = None)
  ∧ Fs.files fs' = <[components base_dir ++ rel := contents]> (Fs.files fs)
  ∧ (∃ cs name, rel = cs ++ [Normal name])
  ∧ ∃ fork_rel, fork_filename rel_path node_id now = Some fork_rel
      ∧ is_absolute fork_rel = false ∧ ParentDir ∉ components fork_rel.
Proof.
  intros Hb Hts. unfold write_fork.
  destruct (fork_filename rel_path node_id now) as [fr|] eqn:Hfr; [|done].
  unfold st_bind at 1, st_lift. destruct (validate_no_traversal fr) as [[]|] eqn:Hv; [|done].
  apply validate_relative in Hv as [Hrel Hpd].
  destruct (fork_filename_components _ _ _ _ Hts Hfr) as (name&_&Hc).
  pose proof (join_inside base_dir Hb _ _ _ Hrel Hc) as Hin.
  unfold st_bind. destruct (_ fs) as [[u|e] fs1] eqn:Hm at 1; apply mkdir_files in Hm as [Hm Hg]; [|done].
  intros Hr. apply try_attempts_inside in Hr as (H1&H2&H3);
    [|unfold MAX_COLLISION_ATTEMPTS; lia|done].
  rewrite Hm in H1, H2. split_and!; eauto. intros Hq. eapply H1, Fs.quiet_mono; [exact Hg|reflexivity|done].
Qed.

(** Where the bytes of a fork went. *)
Lemma write_fork_slot (f : Fs.faults) base_dir rel_path contents node_id now fs rel fs' :
  write_fork f base_dir rel_path contents node_id now fs = (Ok rel, fs') →
  ∃ slot, Fs.files fs' = <[slot := contents]> (Fs.files fs)
    ∧ (Fs.quiet f fs fs' → Fs.files fs !! slot = None)
    ∧ (is_absolute base_dir = true → ts_secs now < Calendar.max_secs → slot = components base_dir ++ rel).
Proof.
  intros H. destruct (decide (is_absolute base_dir = true ∧ ts_secs now < Calendar.max_secs)) as [[Ha Ht]|Hn].
  - destruct (write_fork_inside _ _ _ _ _ _ _ _ _ Ha Ht H) as (Hq&Hf&_). by eexists.
  - apply write_fork_files in H as (slot&Hf&_&Hq). exists slot. naive_solver.
Qed.

Lemma grows_write_fork (f : Fs.faults) base_dir rel_path contents node_id now :
  Fs.grows (write_fork f base_dir rel_path contents node_id now).
Proof.
  unfold write_fork. destruct (fork_filename _ _ _) as [fr|]; [|apply Fs.grows_err].
  apply Fs.grows_bind; [apply Fs.grows_lift|]. intros _. apply Fs.grows_bind.
  { intros fs r fs' H. by apply mkdir_files in H as [_ H]. }
  intros _. generalize MAX_COLLISION_ATTEMPTS, 0%nat. intros todo.
  induction todo as [|todo IH]; intros n; simpl; [apply Fs.grows_err|]. intros fs r fs'.
  destruct (write_atomic f _ _ fs) as [r1 fs1] eqn:Hw. apply grows_write_atomic in Hw.
  destruct r1 as [|[[[] ?]| |]]; intros H; simplify_eq; try done. apply IH in H. lia.
Qed.

Lemma write_fork_inside_witness :
  ∃ rel fs', write_fork no_faults "/v" "sub/a.bin" [x02] "n" 0 demo_fs = (Ok rel, fs')
    ∧ Fs.files demo_fs !! (components "/v" ++ rel) = None
    ∧ Fs.files fs' = <[components "/v" ++ rel := [x02]]> (Fs.files demo_fs).
Proof.
  destruct (write_fork no_faults "/v" "sub/a.bin" [x02] "n" 0 demo_fs) as [r fs'] eqn:Hr.
  assert (r = Ok [Normal "sub"; Normal "a.sync-conflict-00000000-19700101-000000.bin"]) as ->.
  { apply (f_equal fst) in Hr. etrans; [symmetry; exact Hr|]. vm_compute. reflexivity. }
  eexists _, fs'. split; [reflexivity|].
  destruct (write_fork_inside no_faults "/v" "sub/a.bin" [x02] "n" 0 demo_fs _ fs'
              eq_refl ltac:(vm_compute; reflexivity) Hr) as (H1&H2&_).
  split; [apply H1; intros n _; reflexivity|exact H2].
Defined.
End ConflictWriterProps.
