(* ===== verification/Guard.v ===== *)
(** * Path admission ([path_guard.rs], [filter.rs], [selective_sync.rs],
      [tenant.rs], [embeddings/paths.rs] of disk-core)

    The checks a path or a request passes before it reaches the index or the
    file system. [Path::canonicalize] and the globset crate are parameters. *)

From stdpp Require Import prelude gmap strings.
From Stdlib Require Import ZArith Lia Strings.Ascii.
From S2P Require Import Prelude Text PathFacts.

(** ** Path guard *)
Module PathGuard.
Import Path.

Inductive PathGuardError :=
  | NullByte
  | InvalidUtf8
  | RelativeWithDotDot
  | OutsideRoot
  | SymlinkOutsideRoot
  | PathTooLong.

Definition path_max : Z := 4096.

Section guard.
Context (canonicalize : string → option string).

(** The ancestor loop: climb until something exists, collecting the names
    that do not. Each turn shortens the path, so its length is enough fuel
    ([climb_spec]). *)
Fixpoint climb (fuel : nat) (ancestor : string) (suffix : list string)
    : option (result (string * list string) PathGuardError) :=
  match fuel with
  | O => None
  | S fuel =>
      match canonicalize ancestor with
      | Some p => Some (Ok (p, suffix))
      | None =>
          match file_name ancestor with
          | None => Some (Err OutsideRoot)
          | Some name =>
              match parent ancestor with
              | None => Some (Err OutsideRoot)
              | Some up =>
                  if decide (up = "") then Some (Err OutsideRoot)
                  else climb fuel up (suffix ++ [name])
              end
          end
      end
  end.

(** [match absolute.canonicalize()]: the canonical form, or the nearest
    existing ancestor's with the missing names re-attached. *)
Definition resolve (absolute : string) : option (result string PathGuardError) :=
  match canonicalize absolute with
  | Some p => Some (Ok p)
  | None =>
      c ← climb (S (path_len absolute)) absolute [];
      Some (match c with
            | Ok (canon_ancestor, suffix) => Ok (foldl join canon_ancestor (reverse suffix))
            | Err e => Err e
            end)
  end.

Definition validate (candidate root : string) : option (result string PathGuardError) :=
  if bool_decide ("000"%char ∈ explode candidate) then Some (Err NullByte)
  else if negb (str_utf8 candidate) then Some (Err InvalidUtf8)
  else if bool_decide (ParentDir ∈ components candidate) then Some (Err RelativeWithDotDot)
  else
    let absolute := if is_absolute candidate then candidate else join root candidate in
    match canonicalize root with
    | None => Some (Err OutsideRoot)
    | Some canonical_root =>
        canonical ← resolve absolute;
        Some (canonical <?- canonical ;;
              if negb (path_starts_with canonical canonical_root) then Err SymlinkOutsideRoot
              else if bool_decide (path_max < Z.of_nat (path_len canonical)) then Err PathTooLong
              else Ok canonical)
    end.
End guard.
End PathGuard.

Section guard_lemmas.
Import Path PathGuard.
Context (canonicalize : string → option string).

(** The loop ends, and what it found is an existing ancestor with the plain
    names that separate it from the start. *)
Lemma climb_spec fuel p suffix :
  (path_len p < fuel)%nat →
  ∃ r, climb canonicalize fuel p suffix = Some r
    ∧ ∀ ca names, r = Ok (ca, names) →
        ∃ anc more, names = suffix ++ more ∧ canonicalize anc = Some ca
          ∧ Forall plain_name more
          ∧ components p = components anc ++ (Normal <$> reverse more).
Proof.
  revert p suffix. induction fuel as [|fuel IH]; intros p suffix Hf; [lia|]. simpl.
  destruct (canonicalize p) as [c|] eqn:Hc.
  { eexists. split; [done|]. intros ? ? [= <- <-]. exists p, [].
    by rewrite app_nil_r, app_nil_r. }
  destruct (file_name p) as [name|] eqn:Hn; [|eexists; split; [done|]; by intros].
  destruct (parent_spec p name Hn) as (up&->&Hup&Hlen&_).
  case_decide; [eexists; split; [done|]; by intros|].
  destruct (IH up (suffix ++ [name])) as (r&->&Hr); [lia|].
  eexists. split; [done|]. intros ca names ->.
  destruct (Hr ca names eq_refl) as (anc&more&->&Hca&Hpl&Hcomp).
  exists anc, (name :: more). split_and!; [by rewrite <-app_assoc|done| |].
  - constructor; [by eapply file_name_plain|done].
  - rewrite Hup, Hcomp, reverse_cons, fmap_app, <-!(assoc_L (++)). done.
Qed.

Lemma foldl_join_components p names :
  p ≠ "" → Forall plain_name names →
  components (foldl join p names) = components p ++ (Normal <$> names).
Proof.
  intros Hp Hn. revert p Hp. induction Hn as [|n names Hpl Hn IH]; intros p Hp; simpl.
  - by rewrite app_nil_r.
  - rewrite IH, components_join_plain by
      (done || (unfold join; rewrite plain_relative by done; rewrite decide_False by done;
                destruct p; [done|]; case_decide; done)).
    by rewrite <-(assoc_L (++)).
Qed.
(** An accepted path is UTF-8 and lies under the canonical root. *)
Lemma validate_inside can p base t :
  PathGuard.validate can p base = Some (Ok t) →
  str_utf8 p = true ∧ ∃ root, can base = Some root ∧ Path.components root `prefix_of` Path.components t.
Proof.
  unfold PathGuard.validate. case_bool_decide; [done|].
  destruct (str_utf8 p); [|done]. cbn [negb]. case_bool_decide; [done|].
  destruct (can base) as [root|]; [|done].
  destruct (PathGuard.resolve _ _) as [[c|]|]; [|done..]. cbn.
  destruct (Path.path_starts_with c root) eqn:Hs; [|done]. cbn. case_bool_decide; [done|]. intros [= ->].
  split; [done|]. exists root. split; [done|]. by apply bool_decide_eq_true in Hs.
Qed.
End guard_lemmas.

Module GuardProps.
Import Path PathGuard.

(** What the documentation of [Path::canonicalize] promises: an absolute path
    with no [..] left in it. *)
Definition canonical_law (canonicalize : string → option string) : Prop :=
  ∀ p q, canonicalize p = Some q → is_absolute q = true ∧ ParentDir ∉ components q.

(** C17: The guard always answers. An accepted path lies under the canonical
    root component by component, has no [..], fits the path limit, and is
    either the canonical form of the candidate or an existing ancestor's
    canonical form followed by the candidate's remaining plain names; the
    candidate itself had no NUL byte, was UTF-8 and had no [..]. *)
Theorem validate_sound canonicalize candidate root :
  canonical_law canonicalize →
  ∃ r, validate canonicalize candidate root = Some r
    ∧ ∀ p, r = Ok p →
        let absolute := if is_absolute candidate then candidate else join root candidate in
        ("000"%char ∉ explode candidate) ∧ str_utf8 candidate = true
        ∧ (ParentDir ∉ components candidate)
        ∧ (∃ croot, canonicalize root = Some croot ∧ components croot `prefix_of` components p)
        ∧ (ParentDir ∉ components p) ∧ Z.of_nat (path_len p) ≤ path_max
        ∧ (canonicalize absolute = Some p
           ∨ ∃ anc ca names, canonicalize anc = Some ca ∧ Forall plain_name names
               ∧ components absolute = components anc ++ (Normal <$> names)
               ∧ components p = components ca ++ (Normal <$> names)).
Proof.
  intros Hlaw. unfold validate.
  case_bool_decide as Hnul; [eexists; split; [done|]; by intros|].
  destruct (str_utf8 candidate) eqn:Hutf; simpl; [|eexists; split; [done|]; by intros].
  case_bool_decide as Hdd; [eexists; split; [done|]; by intros|].
  set (absolute := if is_absolute candidate then _ else _).
  destruct (canonicalize root) as [croot|] eqn:Hroot; [|eexists; split; [done|]; by intros].
  assert (∃ c, resolve canonicalize absolute = Some c
           ∧ ∀ p, c = Ok p → (ParentDir ∉ components p)
               ∧ (canonicalize absolute = Some p
                  ∨ ∃ anc ca names, canonicalize anc = Some ca ∧ Forall plain_name names
                      ∧ components absolute = components anc ++ (Normal <$> names)
                      ∧ components p = components ca ++ (Normal <$> names))) as (c&->&Hc).
  { unfold resolve. destruct (canonicalize absolute) as [p|] eqn:Habs.
    - eexists. split; [done|]. intros ? [= <-]. split; [by apply Hlaw in Habs as []|by left].
    - destruct (climb_spec canonicalize (S (path_len absolute)) absolute []) as (r&->&Hr); [lia|].
      cbn [mbind option_bind]. eexists. split; [done|].
      destruct r as [[ca suffix]|e]; [|by intros]. intros p [= <-].
      destruct (Hr _ _ eq_refl) as (anc&more&->&Hca&Hpl&Hcomp). cbn [app].
      destruct (Hlaw _ _ Hca) as [Hab Hpd].
      assert (components (foldl join ca (reverse more)) = components ca ++ (Normal <$> reverse more)) as He.
      { apply foldl_join_components; [by intros ->|by apply Forall_reverse]. }
      rewrite He. split.
      + rewrite elem_of_app, list_elem_of_fmap. naive_solver.
      + right. exists anc, ca, (reverse more). split_and!; [done| |done..].
        by apply Forall_reverse. }
  cbn [mbind option_bind]. eexists. split; [done|]. intros p.
  destruct c as [q|e]; simpl; [|done].
  destruct (path_starts_with q croot) eqn:Hpre; simpl; [|done].
  case_bool_decide; [done|]. intros [= ->]. destruct (Hc p eq_refl) as [Hpd Hres].
  apply bool_decide_eq_true in Hpre. split_and!; eauto. lia.
Qed.

(** A file system with a vault directory and a symbolic link out of it. *)
Definition demo_canonicalize (p : string) : option string :=
  if path_eqb p "/vault" then Some "/vault"
  else if path_eqb p "/vault/link" then Some "/etc"
  else if path_eqb p "/" then Some "/" else None.

Lemma validate_sound_witness :
  ∃ r, validate demo_canonicalize "notes/a.md" "/vault" = Some r ∧ r = Ok "/vault/notes/a.md"
    ∧ ∃ croot, demo_canonicalize "/vault" = Some croot
        ∧ components croot `prefix_of` components "/vault/notes/a.md".
Proof.
  destruct (validate_sound demo_canonicalize "notes/a.md" "/vault") as (r&Hr&Hok).
  { intros p q. unfold demo_canonicalize.
    repeat (case_match; [intros [= <-]; split; [reflexivity|];
      apply (bool_decide_unpack _); vm_compute; exact I|]). done. }
  exists r. split; [exact Hr|].
  assert (r = Ok "/vault/notes/a.md") as ->.
  { apply (inj Some). etrans; [symmetry; exact Hr|]. vm_compute. reflexivity. }
  split; [reflexivity|]. by destruct (Hok _ eq_refl) as (_&_&_&H&_).
Defined.

Example validate_rejects :
  validate demo_canonicalize "link" "/vault" = Some (Err SymlinkOutsideRoot)
  ∧ validate demo_canonicalize "link/passwd" "/vault" = Some (Err SymlinkOutsideRoot)
  ∧ validate demo_canonicalize "../x" "/vault" = Some (Err RelativeWithDotDot).
Proof. vm_compute. done. Qed.
End GuardProps.

(** ** Embedding sidecar paths *)
Module EmbeddingPaths.
Import Path.

Definition CO_STORAGE_ROOT : string := ".disk-embeddings".
Definition MANIFEST_SUFFIX : string := ".manifest.json".
Definition VECTOR_SUFFIX : string := ".vec.bin".

Definition is_co_storage_path (rel : string) : bool :=
  match head (components rel) with
  | Some (Normal seg) => eq_ignore_ascii_case seg CO_STORAGE_ROOT
  | _ => false
  end.

(** [PathBuf::set_file_name]: drop the file name if there is one, push. *)
Definition set_file_name (p name : string) : string :=
  match file_name p with
  | Some _ => join (default "" (parent p)) name
  | None => join p name
  end.

Definition sidecar (suffix source_rel : string) : string :=
  set_file_name (join CO_STORAGE_ROOT source_rel) (default "" (file_name source_rel) +:+ suffix).

Definition manifest_rel_path (source_rel : string) : string := sidecar MANIFEST_SUFFIX source_rel.
Definition vector_blob_rel_path (source_rel : string) : string := sidecar VECTOR_SUFFIX source_rel.

Lemma plain_app name suffix :
  plain_name name → plain_name suffix → plain_name (name +:+ suffix).
Proof.
  intros (Hn&?&?&Hf) (Hs&?&?&Hfs).
  assert (sep_free (name +:+ suffix)) as Hfree.
  { unfold sep_free in *. rewrite explode_app, elem_of_app. naive_solver. }
  destruct name as [|c name]; [done|]. split_and!; try done.
  - intros [= -> Heq]. apply (f_equal explode) in Heq. rewrite explode_app in Heq.
    apply app_eq_nil in Heq as [_ Hs']. by apply explode_nil in Hs'.
  - intros [= -> Heq]. apply (f_equal explode) in Heq. rewrite explode_app in Heq.
    destruct (explode name) as [|d l] eqn:Hname.
    + simpl in Heq. change (explode ".") with ["."%char] in Heq.
      assert (suffix = ".") by (apply explode_inj; exact Heq). done.
    + injection Heq as -> Heq. apply app_eq_nil in Heq as [_ Hs']. by apply explode_nil in Hs'.
Qed.

(** A sidecar mirrors the source below the co-storage root. *)
Lemma sidecar_components suffix p name :
  plain_name suffix → is_absolute p = false → file_name p = Some name →
  components (sidecar suffix p)
  = Normal CO_STORAGE_ROOT :: removelast (omap component_of (segments p)) ++ [Normal (name +:+ suffix)].
Proof.
  intros Hsuf Hrel Hfn. unfold sidecar. rewrite Hfn. cbn [from_option id].
  pose proof (file_name_plain _ _ Hfn) as Hplain.
  assert (components (join CO_STORAGE_ROOT p)
          = Normal CO_STORAGE_ROOT :: omap component_of (segments p)) as Hj
    by (by rewrite components_join).
  assert (∃ l, omap component_of (segments p) = l ++ [Normal name]) as [l Hl].
  { unfold file_name in Hfn. rewrite components_rel in Hfn by done.
    destruct (omap component_of (segments p)) as [|x l _] using rev_ind.
    - rewrite app_nil_r in Hfn. unfold lead in Hfn. by repeat case_match; simplify_eq/=.
    - rewrite (assoc_L (++)), last_snoc in Hfn. destruct x; simplify_eq. eauto. }
  rewrite Hl in *. rewrite removelast_last.
  assert (file_name (join CO_STORAGE_ROOT p) = Some name) as Hfj.
  { unfold file_name. rewrite Hj, app_comm_cons, last_snoc. done. }
  unfold set_file_name. rewrite Hfj.
  destruct (parent_spec _ _ Hfj) as (q&->&Hq&_&_). cbn [from_option id].
  rewrite Hj, app_comm_cons in Hq. apply app_inj_2 in Hq as [Hq _]; [|done].
  rewrite components_join_plain, <-Hq; [done| |by apply plain_app].
  intros ->. done.
Qed.
End EmbeddingPaths.

(** ** Scan filter *)
Module Filter.
Import Path EmbeddingPaths.

Definition HARDCODED_DENY_SEGMENTS : list string := [".git"; ".disk-archive"; ".dreamer"].
Definition SYNC_EPHEMERAL_MARKER_BASENAMES : list string := [".kb-last-push"].

Definition is_sync_ephemeral_marker (rel_path : string) : bool :=
  match file_name rel_path with
  | Some name => existsb (eq_ignore_ascii_case name) SYNC_EPHEMERAL_MARKER_BASENAMES
  | None => false
  end.

Module FilterRules.
Record t := mk {
  extensions_whitelist : list string;
  deny_segments : list string;
  ignore_globs : list string
}.
End FilterRules.

(** The compiled glob set is its match predicate. *)
Record t := mk {
  extensions_whitelist : list string;
  deny_segments : list string;
  ignore : string → bool
}.

Inductive FilterError := InvalidGlob (pattern reason : string).

(** [Glob::new] and [GlobSetBuilder::build] of the globset crate. *)
Definition from_config {glob} (glob_new : string → result glob string)
    (glob_build : list glob → result (string → bool) string) (cfg : FilterRules.t)
    : result t FilterError :=
  globs <?- collect_results (λ raw, map_err (InvalidGlob raw) (glob_new raw))
              (FilterRules.ignore_globs cfg) ;;
  ignore <?- map_err (InvalidGlob "<aggregate>") (glob_build globs) ;;
  Ok (mk ((λ s, to_ascii_lowercase (trim_start_matches "."%char s))
            <$> FilterRules.extensions_whitelist cfg)
         (FilterRules.deny_segments cfg) ignore).

Definition denied_by (segs : list string) (c : component) : bool :=
  match c with Normal s => existsb (eq_ignore_ascii_case s) segs | _ => false end.

(** The loop over the components. *)
Fixpoint denied_loop (deny : list string) (cs : list component) : bool :=
  match cs with
  | [] => false
  | c :: cs =>
      if denied_by HARDCODED_DENY_SEGMENTS c then true
      else if denied_by deny c then true
      else denied_loop deny cs
  end.

Definition is_excluded (self : t) (rel_path : string) : bool :=
  if is_sync_ephemeral_marker rel_path then true
  else if denied_loop (deny_segments self) (components rel_path) then true
  else
    let wrong_extension :=
      if decide (extensions_whitelist self = []) then false
      else if is_co_storage_path rel_path then false
      else match to_ascii_lowercase <$> extension rel_path with
           | Some e => negb (bool_decide (e ∈ extensions_whitelist self))
           | None => true
           end in
    if wrong_extension then true
    else ignore self rel_path.

Lemma denied_loop_true deny cs :
  denied_loop deny cs = true ↔
  ∃ s, Normal s ∈ cs ∧ (existsb (eq_ignore_ascii_case s) HARDCODED_DENY_SEGMENTS = true
                      ∨ existsb (eq_ignore_ascii_case s) deny = true).
Proof.
  assert (denied_loop deny cs
          = existsb (λ c, denied_by HARDCODED_DENY_SEGMENTS c || denied_by deny c) cs) as ->.
  { induction cs as [|c cs IH]; [done|]. cbn [denied_loop existsb]. rewrite IH.
    by destruct (denied_by HARDCODED_DENY_SEGMENTS c), (denied_by deny c). }
  rewrite existsb_exists. split.
  - intros (c&Hc%list_elem_of_In&H%orb_true_iff). destruct c as [| | |s]; try (by destruct H).
    exists s. split; [done|exact H].
  - intros (s&Hs&H). exists (Normal s). split; [by apply list_elem_of_In|by apply orb_true_iff].
Qed.
End Filter.

(** ** Selective sync *)
Module SelectiveSync.
Definition normalize_include_prefix (raw : string) : result string string :=
  let trimmed := replace_char "\"%char "/"%char (trim raw) in
  if decide (trimmed = "") then Err "include prefix must not be empty"
  else if contains trimmed ".." then Err "include prefix must not contain '..'"
  else
    let normalized := trim_matches "/"%char trimmed in
    if decide (normalized = "") then Err "include prefix must not be empty"
    else Ok normalized.

(** The form a path is compared in. *)
Definition clean_path (rel_path : string) : string :=
  trim_matches "/"%char (replace_char "\"%char "/"%char (trim rel_path)).

Definition path_matches_includes (rel_path : string) (includes : list string) : bool :=
  match includes with
  | [] => true
  | _ =>
      let path := clean_path rel_path in
      if decide (path = "") then false
      else existsb (λ prefix,
             bool_decide (path = prefix) || starts_with path (prefix +:+ "/")
             || bool_decide (prefix = "")) includes
  end.

(** Matching a prefix textually is matching it segment by segment. *)
Lemma prefix_segments path prefix :
  (path = prefix ∨ ∃ r, path = prefix +:+ "/" +:+ r) ↔
  Path.segments prefix `prefix_of` Path.segments path.
Proof.
  split.
  - intros [->|[r ->]]; [done|]. rewrite segments_app. by exists (Path.segments r).
  - intros [[|s l] Hl].
    + left. rewrite app_nil_r in Hl. by rewrite <-(join_segments path), Hl, join_segments.
    + right. exists (join_with Path.sep (s :: l)).
      rewrite <-(join_segments path), Hl. apply explode_inj. unfold join_with.
      rewrite !explode_app, !explode_implode, fmap_app, join_chars_app.
      * rewrite <-(join_segments prefix) at 2. unfold join_with. by rewrite explode_implode.
      * intros ?%fmap_nil_inv. by apply (segments_nonempty prefix).
      * done.
Qed.
End SelectiveSync.

(** ** Tenants *)
Module Tenant.
Inductive TenantViolation := Mismatch.

Definition resolve_tenant_id (metadata_header : option string) (proto_field : string)
    : option string :=
  match metadata_header with
  | Some t => if decide (t = "") then None else Some t
  | None => if decide (proto_field = "") then None else Some proto_field
  end.

Definition enforce_node_tenant (request_tenant node_tenant : option string)
    : result (option string) TenantViolation :=
  match node_tenant, request_tenant with
  | None, req => Ok req
  | Some bound, None => Ok (Some bound)
  | Some bound, Some req => if decide (bound = req) then Ok (Some bound) else Err Mismatch
  end.

Record TenantScope := Scope { tenant_id : option string; vault_id : string }.

#[global] Instance scope_eq_dec : EqDecision TenantScope.
Proof. solve_decision. Defined.
End Tenant.

Section include_lemmas.
Import SelectiveSync.

Lemma trim_matches_chars_sub c l : ∃ a b, l = a ++ trim_matches_chars c l ++ b.
Proof.
  unfold trim_matches_chars. destruct (drop_while_char_suffix c l) as [n Hn].
  set (m := drop_while_char c l) in *. destruct (drop_while_char_suffix c (reverse m)) as [k Hk].
  exists (replicate n c), (reverse (replicate k c)).
  by rewrite <-reverse_app, <-Hk, reverse_involutive.
Qed.

Lemma replace_char_free a b s : a ≠ b → a ∉ explode (replace_char a b s).
Proof.
  intros Hab. unfold replace_char. rewrite explode_implode, list_elem_of_fmap.
  intros (c&Hc&_). case_decide; congruence.
Qed.

(** A stored prefix is not empty, uses [/] only and inside, and has no [..]. *)
Definition clean_prefix (s : string) : Prop :=
  s ≠ "" ∧ ("\"%char ∉ explode s) ∧ head (explode s) ≠ Some "/"%char
  ∧ last (explode s) ≠ Some "/"%char ∧ contains s ".." = false.

Lemma normalize_clean raw s : normalize_include_prefix raw = Ok s → clean_prefix s.
Proof.
  unfold normalize_include_prefix. set (t := replace_char _ _ _).
  case_decide; [done|]. destruct (contains t "..") eqn:Hdd; [done|]. case_decide; [done|].
  intros [= <-]. unfold clean_prefix, trim_matches in *. rewrite explode_implode.
  destruct (trim_matches_chars_sub "/"%char (explode t)) as (a&b&Hsub).
  destruct (trim_matches_chars_ends "/"%char (explode t)) as [Hh Hl]. split_and!; try done.
  - intros Hin. assert ("\"%char ∉ explode t) as Hf by (by apply replace_char_free).
    apply Hf. rewrite Hsub, !elem_of_app. auto.
  - apply not_true_is_false. unfold contains. rewrite explode_implode, contains_chars_spec.
    intros (l1&l2&Hc). apply not_true_iff_false in Hdd. apply Hdd.
    apply contains_chars_spec. exists (a ++ l1), (l2 ++ b).
    rewrite Hsub, Hc. by rewrite <-!(assoc_L (++)).
Qed.
End include_lemmas.

Module AdmissionProps.
Import Path EmbeddingPaths Filter SelectiveSync Tenant.

(** A compiled filter lets a path through exactly when it is not a sync
    marker, none of its segments is a built-in or configured deny entry in
    any letter case, its extension is whitelisted (or the whitelist is empty,
    or the file is an embedding sidecar), and no compiled glob matches. The
    built-in entries are therefore out of reach of the configuration. *)
Theorem filter_admits {glob} glob_new (glob_build : list glob → result (string → bool) string) cfg f p :
  from_config glob_new glob_build cfg = Ok f →
  is_excluded f p = false ↔
    is_sync_ephemeral_marker p = false
    ∧ (∀ s, Normal s ∈ components p →
         existsb (eq_ignore_ascii_case s)
           (HARDCODED_DENY_SEGMENTS ++ FilterRules.deny_segments cfg) = false)
    ∧ (FilterRules.extensions_whitelist cfg = [] ∨ is_co_storage_path p = true
       ∨ ∃ e w, extension p = Some e ∧ w ∈ FilterRules.extensions_whitelist cfg
           ∧ to_ascii_lowercase e = to_ascii_lowercase (trim_start_matches "."%char w))
    ∧ ignore f p = false.
Proof.
  unfold from_config. destruct (collect_results _ _) as [globs|]; cbn [res_bind]; [|done].
  destruct (glob_build globs) as [ig|]; cbn [res_bind map_err]; [|done]. intros [= <-].
  unfold is_excluded. cbn [extensions_whitelist deny_segments ignore].
  destruct (is_sync_ephemeral_marker p) eqn:Hm; [naive_solver|].
  destruct (denied_loop _ _) eqn:Hd.
  { apply denied_loop_true in Hd as (s&Hs&Hor). split; [done|]. intros (_&Hall&_).
    specialize (Hall s Hs). rewrite existsb_app, orb_false_iff in Hall. naive_solver. }
  assert (∀ s, Normal s ∈ components p →
    existsb (eq_ignore_ascii_case s) (HARDCODED_DENY_SEGMENTS ++ FilterRules.deny_segments cfg) = false)
    as Hall.
  { intros s Hs. rewrite existsb_app. apply orb_false_iff.
    apply not_true_iff_false in Hd. rewrite denied_loop_true in Hd.
    split; apply not_true_is_false; intros ?; apply Hd; exists s; auto. }
  case_decide as Hw.
  { apply fmap_nil_inv in Hw. naive_solver. }
  assert (FilterRules.extensions_whitelist cfg ≠ []) by (by intros Hnil; rewrite Hnil in Hw).
  destruct (is_co_storage_path p) eqn:Hco; [naive_solver|].
  destruct (extension p) as [e|] eqn:He; simpl; [|naive_solver].
  case_bool_decide as Hin; simpl.
  - apply list_elem_of_fmap in Hin as (w&Hew&Hw'). naive_solver.
  - split; [done|]. intros (_&_&[?|[?|(e'&w&[= <-]&Hw'&Heq)]]&_); try done.
    destruct Hin. apply list_elem_of_fmap. eauto.
Qed.

Definition demo_rules : FilterRules.t := FilterRules.mk [".MD"] ["tmp"] [].

Lemma filter_admits_witness :
  ∃ f, from_config (λ g, Ok g) (λ _ : list string, Ok (λ _, false)) demo_rules = Ok f
    ∧ is_excluded f "a/.GIT/x.md" = true ∧ is_excluded f "a/x.Md" = false
    ∧ (is_excluded f "a/x.md" = false ↔
         is_sync_ephemeral_marker "a/x.md" = false
         ∧ (∀ s, Normal s ∈ components "a/x.md" →
              existsb (eq_ignore_ascii_case s) (HARDCODED_DENY_SEGMENTS ++ ["tmp"]) = false)
         ∧ ([".MD"] = [] ∨ is_co_storage_path "a/x.md" = true
            ∨ ∃ e w, extension "a/x.md" = Some e ∧ w ∈ [".MD"]
                ∧ to_ascii_lowercase e = to_ascii_lowercase (trim_start_matches "."%char w))
         ∧ ignore f "a/x.md" = false).
Proof.
  eexists. split; [reflexivity|]. split; [vm_compute; reflexivity|]. split; [vm_compute; reflexivity|].
  exact (filter_admits (λ g, Ok g) (λ _ : list string, Ok (λ _, false)) demo_rules _ "a/x.md" eq_refl).
Defined.

(** A stored include prefix is clean, and a path matches it exactly when
    the prefix is a whole-segment prefix of the cleaned path: [notes] admits
    [notes] and [notes/a.md] but not [notes2/a.md]. *)
Theorem include_prefix_matches raw prefix rel_path :
  normalize_include_prefix raw = Ok prefix →
  clean_prefix prefix
  ∧ (path_matches_includes rel_path [prefix] = true ↔
       clean_path rel_path ≠ "" ∧ segments prefix `prefix_of` segments (clean_path rel_path)).
Proof.
  intros Hn%normalize_clean. split; [done|]. destruct Hn as (Hne&_).
  unfold path_matches_includes. rewrite <-prefix_segments. cbn [existsb].
  case_decide as Hc; [naive_solver|].
  rewrite orb_false_r, !orb_true_iff, !bool_decide_eq_true, starts_with_spec.
  assert (∀ r, prefix +:+ "/" +:+ r = (prefix +:+ "/") +:+ r) as Hassoc.
  { intros r. apply explode_inj. rewrite !explode_app. by rewrite (assoc_L (++)). }
  split.
  - intros [[Hp|[r Hr]]|Hp]; [by auto|rewrite <-Hassoc in Hr; eauto|done].
  - intros [_ [Hp|[r Hr]]]; [by auto|]. rewrite Hassoc in Hr. eauto.
Qed.

Lemma include_prefix_matches_witness :
  normalize_include_prefix " /notes\work/ " = Ok "notes/work"
  ∧ clean_prefix "notes/work"
  ∧ (path_matches_includes "notes/work2/a.md" ["notes/work"] = true ↔
       clean_path "notes/work2/a.md" ≠ ""
       ∧ segments "notes/work" `prefix_of` segments (clean_path "notes/work2/a.md")).
Proof.
  split; [vm_compute; reflexivity|].
  apply (include_prefix_matches " /notes\work/ "). vm_compute. reflexivity.
Defined.

(** A request served for a node that is bound to a tenant runs under
    that tenant or not at all; an unbound node runs under the tenant the
    request names, a header overriding the message field and an empty header
    clearing it. *)
Theorem tenant_binding header field node t :
  enforce_node_tenant (resolve_tenant_id header field) node = Ok t →
  (∀ bound, node = Some bound → t = Some bound)
  ∧ (node = None → t = match header with
                       | Some h => if decide (h = "") then None else Some h
                       | None => if decide (field = "") then None else Some field
                       end).
Proof.
  unfold enforce_node_tenant, resolve_tenant_id.
  destruct node as [b|]; repeat case_match; intros; repeat case_decide; naive_solver.
Qed.

Lemma tenant_binding_witness :
  (∀ bound, Some "acme" = Some bound → Some "acme" = Some bound)
  ∧ (Some "acme" = None → Some "acme" = Some "acme").
Proof. exact (tenant_binding (Some "acme") "x" (Some "acme") (Some "acme") eq_refl). Defined.
End AdmissionProps.
