(* ===== verification/Scanner.v ===== *)
(** * Scanner ([disk-core/src/scanner/], [platform.rs])

    One pass over a directory tree into sorted [FileMeta] snapshots, with the
    size+mtime shortcut of [hash.rs], and the pairing of disappeared and new
    paths into renames. The walkdir iterator, the file-id crate and blake3 are
    parameters: an entry carries what its queries return. *)

From stdpp Require Import prelude gmap strings sorting.
From Stdlib Require Import ZArith Lia Strings.Byte.
From S2P Require Import Prelude Text PathFacts VectorClock Types Guard.

Module Scanner.
Import Path FileMeta.

(** ** Renames between two scans *)
Abbreviation key := (Z * bytes)%type.

Definition key_of (f : FileMeta) : option key :=
  (λ i, (i, content_hash f)) <$> inode f.

(** [prior_by_key]: the last entry with a key wins. *)
Definition prior_by_key (prior : list FileMeta) : gmap key FileMeta :=
  foldl (λ m f, match key_of f with Some k => <[k := f]> m | None => m end) ∅ prior.

Definition has_path (fs : list FileMeta) (p : string) : bool :=
  existsb (λ f, path_eqb (path f) p) fs.

Definition detect_one (prior current : list FileMeta) (f : FileMeta) : option RenamePair :=
  match inode f with
  | None => None
  | Some ino =>
      match prior_by_key prior !! (ino, content_hash f) with
      | None => None
      | Some prev =>
          if path_eqb (path prev) (path f) then None
          else if has_path current (path prev) then None
          else if has_path prior (path f) then None
          else Some (RenamePair.mk (path prev) (path f) ino (content_hash f))
      end
  end.

Definition detect_renames (prior current : list FileMeta) : list RenamePair :=
  omap (detect_one prior current) current.

(** ** Hashing *)
Definition fast_path_hash (prior : option FileMeta) (sz mtime : Z) : option bytes :=
  match prior with
  | None => None
  | Some p => if bool_decide (size p = sz) && bool_decide (mtime_ns p = mtime)
              then Some (content_hash p) else None
  end.

(** [file_id::FileId]. *)
Inductive FileId :=
  | Inode (device_id inode_number : Z)
  | LowRes (volume_serial_number file_index : Z)
  | HighRes (volume_serial_number file_id : Z).

Definition encode_file_id (id : FileId) : Z :=
  match id with
  | Inode _ n => n
  | LowRes v i => Z.lor (as_u64 (Z.shiftl v 32)) i
  | HighRes _ i => as_u64 i
  end.

Inductive ScannerError := Io (msg : string) | Walk (msg : string).

(** What the walk yields for one directory entry: [stat] is the length and
    the two halves of the modification time, [digest] the streamed hash of
    the file's bytes or the read error. *)
Record entry := Entry {
  abs : string;
  is_file : bool;
  stat : result (Z * Z * Z) string;
  file_id : option FileId;
  digest : result bytes string
}.

Definition inode_from_path (e : entry) : option Z := encode_file_id <$> file_id e.

(** [m.mtime() * 1_000_000_000 + i64::from(m.mtime_nsec() as i32)]. *)
Definition as_i32 (z : Z) : Z :=
  let m := z mod 2 ^ 32 in if bool_decide (m < 2 ^ 31) then m else m - 2 ^ 32.
Definition mtime_nanos (mtime mtime_nsec : Z) : Z := as_i64 (mtime * 1000000000 + as_i32 mtime_nsec).

Definition hash_file (e : entry) : result bytes ScannerError := map_err Io (digest e).

(** [abs.strip_prefix(root)]: the components below the root, [None] for a
    path that is not below it. *)
Definition component_str (c : component) : string :=
  match c with RootDir => "/" | CurDir => "." | ParentDir => ".." | Normal s => s end.
Definition strip_root (root p : string) : option string :=
  let b := components root in
  let c := components p in
  if decide (take (length b) c = b)
  then Some (join_with sep (component_str <$> drop (length b) c)) else None.

Record FileScanner := mk {
  root : string;
  filter : Filter.t;
  last_known : gmap (list component) FileMeta;
  node : string
}.

(** The loop body: [Ok None] is [continue]. *)
Definition scan_entry (self : FileScanner) (r : result entry string)
    : result (option FileMeta) ScannerError :=
  e <?- map_err Walk r ;;
  if negb (is_file e) then Ok None
  else match strip_root (root self) (abs e) with
  | None => Ok None
  | Some rel =>
      if decide (rel = "") then Ok None
      else if Filter.is_excluded (filter self) rel then Ok None
      else
        m <?- map_err Walk (stat e) ;;
        let '(sz, mt, ns) := m in
        let mtime := mtime_nanos mt ns in
        let prior := last_known self !! components rel in
        h <?- match fast_path_hash prior sz mtime with
              | Some h => Ok h
              | None => hash_file e
              end ;;
        Ok (Some (FileMeta.mk rel h sz mtime (inode_from_path e)
                    (default VC.new (vector_clock <$> prior)) false None (node self)
                    None None None))
  end.

Definition path_leb (a b : FileMeta) : bool := negb (path_ltb (path b) (path a)).

Definition scan (self : FileScanner) (walker : list (result entry string))
    : result (list FileMeta) ScannerError :=
  out <?- collect_results (scan_entry self) walker ;;
  Ok (sort_by path_leb (omap id out)).

Definition scan_root (root : string) (filter : Filter.t) (node_id : string)
    (walker : list (result entry string)) : result (list FileMeta) ScannerError :=
  scan (mk root filter ∅ node_id) walker.
End Scanner.

Section rename_lemmas.
Import Path FileMeta Scanner.

Lemma prior_by_key_last prior k :
  prior_by_key prior !! k = find_first (λ f, bool_decide (key_of f = Some k)) (reverse prior).
Proof.
  unfold prior_by_key. induction prior as [|f prior IH] using rev_ind; [done|].
  rewrite foldl_snoc, reverse_snoc. unfold find_first in *; simpl.
  destruct (key_of f) as [k'|] eqn:Hk.
  - rewrite lookup_insert. case_decide as He.
    + by rewrite bool_decide_eq_true_2 by congruence.
    + by rewrite bool_decide_eq_false_2 by congruence.
  - by rewrite bool_decide_eq_false_2.
Qed.

Lemma has_path_true fs p :
  has_path fs p = true ↔ ∃ f, f ∈ fs ∧ components (path f) = components p.
Proof.
  unfold has_path. rewrite existsb_exists. setoid_rewrite <-list_elem_of_In.
  unfold path_eqb. setoid_rewrite bool_decide_eq_true. done.
Qed.

Lemma has_path_false fs p :
  has_path fs p = false ↔ ∀ f, f ∈ fs → components (path f) ≠ components p.
Proof. rewrite <-not_true_iff_false, has_path_true. naive_solver. Qed.
End rename_lemmas.

Module ScannerProps.
Import Path FileMeta Scanner.

(** Rename detection reports exactly the files of the current scan whose
    path is new, whose inode and content hash are those of the latest prior
    entry with that key, and whose prior path no longer exists. *)
Theorem detect_renames_spec prior current pair :
  pair ∈ detect_renames prior current ↔
  ∃ f prev ino,
    f ∈ current ∧ inode f = Some ino
    ∧ find_first (λ g, bool_decide (key_of g = Some (ino, content_hash f))) (reverse prior) = Some prev
    ∧ (∀ g, g ∈ current → components (path g) ≠ components (path prev))
    ∧ (∀ g, g ∈ prior → components (path g) ≠ components (path f))
    ∧ pair = RenamePair.mk (path prev) (path f) ino (content_hash f).
Proof.
  unfold detect_renames. rewrite list_elem_of_omap. split.
  - intros (f&Hf&Hd). unfold detect_one in Hd. destruct (inode f) as [ino|] eqn:Hi; [|done].
    rewrite prior_by_key_last in Hd. destruct (find_first _ _) as [prev|] eqn:Hp; [|done].
    destruct (path_eqb _ _); [done|]. destruct (has_path current _) eqn:H1; [done|].
    destruct (has_path prior _) eqn:H2; [done|]. injection Hd as <-.
    rewrite has_path_false in H1, H2. by exists f, prev, ino.
  - intros (f&prev&ino&Hf&Hi&Hp&H1&H2&->). exists f. split; [done|].
    unfold detect_one. rewrite Hi, prior_by_key_last, Hp.
    rewrite <-has_path_false in H1, H2. rewrite H1, H2.
    apply find_first_spec in Hp as [Hprev _]. rewrite elem_of_reverse in Hprev.
    rewrite has_path_false in H2. unfold path_eqb.
    rewrite bool_decide_eq_false_2; [done|]. by apply H2.
Qed.

(** The cached hash of an unchanged (size, mtime) pair is the file's. *)
Definition cache_coherent (self : FileScanner) (e : entry) : Prop :=
  ∀ rel p sz mt ns h,
    strip_root (root self) (abs e) = Some rel → last_known self !! components rel = Some p →
    stat e = Ok (sz, mt, ns) → size p = sz → mtime_ns p = mtime_nanos mt ns →
    digest e = Ok h → content_hash p = h.

(** The entries a scan must report. *)
Definition scanned (self : FileScanner) (e : entry) (rel : string) : Prop :=
  is_file e = true ∧ strip_root (root self) (abs e) = Some rel ∧ rel ≠ ""
  ∧ Filter.is_excluded (filter self) rel = false.

Lemma scan_entry_some self r m :
  scan_entry self r = Ok (Some m) →
  ∃ e, r = Ok e ∧ scanned self e (path m)
    ∧ (∀ h, cache_coherent self e → digest e = Ok h → content_hash m = h)
    ∧ vector_clock m = default VC.new (vector_clock <$> last_known self !! components (path m))
    ∧ deleted m = false.
Proof.
  unfold scan_entry. destruct r as [e|]; simpl; [|done].
  destruct (is_file e) eqn:Hfile; simpl; [|done].
  destruct (strip_root (root self) (abs e)) as [rel|] eqn:Hrel; [|done].
  case_decide; [done|]. destruct (Filter.is_excluded _ _) eqn:Hex; [done|].
  destruct (stat e) as [[[sz mt] ns]|] eqn:Hst; simpl; [|done].
  destruct (fast_path_hash _ _ _) as [h|] eqn:Hfast; simpl.
  - intros [= <-]. exists e. simpl. split_and!; try done.
    intros h' Hcc Hd. unfold fast_path_hash in Hfast.
    destruct (last_known self !! components rel) as [p|] eqn:Hp; [|done].
    destruct (bool_decide (size p = sz)) eqn:H1; [|done].
    destruct (bool_decide (mtime_ns p = mtime_nanos mt ns)) eqn:H2; [|done].
    apply bool_decide_eq_true in H1, H2. simpl in Hfast. injection Hfast as <-.
    by eapply Hcc.
  - unfold hash_file. destruct (digest e) as [h|] eqn:Hd; simpl; [|done].
    intros [= <-]. exists e. simpl. split_and!; try done. intros h' _ Hd'. congruence.
Qed.

(** A scan that succeeds is sorted by path and holds one live entry per
    surviving file and nothing else: each entry comes from a regular file
    below the root that the filter admits, its hash is the file's whenever
    the size+mtime cache is coherent, and its clock is carried over from the
    previous scan. *)
Theorem scan_spec self walker out :
  scan self walker = Ok out →
  StronglySorted (λ a b, path_leb a b = true) out
  ∧ (∃ per_entry, collect_results (scan_entry self) walker = Ok per_entry
       ∧ out ≡ₚ omap id per_entry)
  ∧ ∀ m, m ∈ out → ∃ e, Ok e ∈ walker ∧ scanned self e (path m)
      ∧ (∀ h, cache_coherent self e → digest e = Ok h → content_hash m = h)
      ∧ vector_clock m = default VC.new (vector_clock <$> last_known self !! components (path m))
      ∧ deleted m = false.
Proof.
  unfold scan. destruct (collect_results _ _) as [per|] eqn:Hc; simpl; [|done]. intros [= <-].
  split_and!.
  - apply sort_by_sorted.
    + unfold path_leb. intros x y. rewrite negb_false_iff, negb_true_iff.
      apply (bo_asym components_ltb).
    + intros x y z. apply (bo_leb_trans components_ltb).
  - exists per. split; [done|apply sort_by_perm].
  - intros m Hm. rewrite elem_of_sort_by in Hm. apply list_elem_of_omap in Hm as (o&Ho&He).
    unfold id in He. subst o. apply collect_results_inv in Hc.
    apply list_elem_of_lookup in Ho as [i Hi].
    destruct (Forall2_lookup_r _ _ _ _ _ Hc Hi) as (r&Hr&Hse).
    destruct (scan_entry_some _ _ _ Hse) as (e&->&?). exists e. split; [|done].
    by eapply list_elem_of_lookup_2.
Qed.

Definition demo_scanner : FileScanner := mk "/v" (Filter.mk [] [] (λ _, false)) ∅ "n1".
Definition demo_entry (p : string) : entry := Entry p true (Ok (3, 1, 0)) None (Ok zero_hash).
Definition demo_walk : list (result entry string) :=
  Ok <$> [demo_entry "/v/b.md"; demo_entry "/v/a/x.md"; demo_entry "/v/.git/config"].

Lemma scan_spec_witness :
  ∃ out, scan demo_scanner demo_walk = Ok out ∧ (path <$> out) = ["a/x.md"; "b.md"]
    ∧ StronglySorted (λ a b, path_leb a b = true) out.
Proof.
  destruct (scan demo_scanner demo_walk) as [out|] eqn:Hs; [|vm_compute in Hs; discriminate].
  exists out. split; [reflexivity|]. split.
  - assert (Ok out = scan demo_scanner demo_walk) as Ho by (symmetry; exact Hs).
    vm_compute in Ho. injection Ho as ->. reflexivity.
  - exact (proj1 (scan_spec _ _ _ Hs)).
Defined.
End ScannerProps.
