(* ===== verification/Sql.v ===== *)
(** * SQLite tables

    What the metadata index uses of SQL: a table is its rows in rowid order.
    [WHERE] is a boolean predicate, [IS] the null-safe comparison, a [UNIQUE]
    constraint treats two NULLs as different, [ORDER BY] is a stable sort, and
    an [INSERT] that violates a constraint fails and changes nothing. *)

From stdpp Require Import prelude gmap strings sorting.
From Stdlib Require Import ZArith Lia.
From S2P Require Import Prelude Text Types.

(** [a IS b]. *)
Definition is_eqb (a b : option string) : bool := bool_decide (a = b).

(** Equality as a [UNIQUE] index sees it: NULL differs from everything. *)
Definition uniq_eqb (a b : option string) : bool :=
  match a, b with Some x, Some y => bool_decide (x = y) | _, _ => false end.

Section table.
Context {A : Type}.
Implicit Types (t : list A) (p : A → bool).

Definition select p t : list A := List.filter p t.
Definition update p (f : A → A) t : list A := (λ r, if p r then f r else r) <$> t.
Definition delete_where p t : list A := List.filter (λ r, negb (p r)) t.
Definition affected p t : nat := length (select p t).
Definition limit_offset (limit offset : Z) t : list A := take (Z.to_nat limit) (drop (Z.to_nat offset) t).

(** [INSERT] under one constraint; [clash r s] says the rows violate it. *)
Definition insert_row (clash : A → A → bool) (r : A) t : option (list A) :=
  if existsb (clash r) t then None else Some (t ++ [r]).

Lemma elem_of_select p t r : r ∈ select p t ↔ r ∈ t ∧ p r = true.
Proof. unfold select. rewrite !list_elem_of_In. apply List.filter_In. Qed.

Lemma elem_of_delete_where p t r : r ∈ delete_where p t ↔ r ∈ t ∧ p r = false.
Proof.
  unfold delete_where. rewrite !list_elem_of_In, List.filter_In, negb_true_iff. done.
Qed.

Lemma elem_of_update p f t r :
  r ∈ update p f t ↔ ∃ s, s ∈ t ∧ r = if p s then f s else s.
Proof. unfold update. rewrite list_elem_of_fmap. naive_solver. Qed.

Lemma select_nil p t : select p t = [] ↔ ∀ r, r ∈ t → p r = false.
Proof.
  split.
  - intros Hn r Hr. apply not_true_is_false. intros Hp.
    assert (r ∈ select p t) as Hin by (by apply elem_of_select). rewrite Hn in Hin. set_solver.
  - intros H. destruct (select p t) as [|r l] eqn:Hs; [done|].
    assert (r ∈ select p t) as [Hr Hp]%elem_of_select by (rewrite Hs; constructor).
    by rewrite H in Hp.
Qed.

Lemma affected_0 p t : affected p t = 0%nat ↔ ∀ r, r ∈ t → p r = false.
Proof.
  rewrite <-select_nil. unfold affected. split; [by intros ?%length_zero_iff_nil|by intros ->].
Qed.

Lemma insert_row_some clash r t :
  (∀ s, s ∈ t → clash r s = false) → insert_row clash r t = Some (t ++ [r]).
Proof.
  intros H. unfold insert_row. destruct (existsb (clash r) t) eqn:He; [|done].
  apply existsb_exists in He as (s&Hs%list_elem_of_In&Hc). by rewrite H in Hc.
Qed.

Lemma insert_row_inv clash r t t' : insert_row clash r t = Some t' → t' = t ++ [r].
Proof. unfold insert_row. destruct (existsb _ _); naive_solver. Qed.

Lemma select_app p t1 t2 : select p (t1 ++ t2) = select p t1 ++ select p t2.
Proof. apply List.filter_app. Qed.

Lemma select_delete_other p q t :
  (∀ r, r ∈ t → q r = true → p r = false) → select p (delete_where q t) = select p t.
Proof.
  unfold select, delete_where. induction t as [|r t IH]; intros H; simpl; [done|].
  destruct (q r) eqn:Hq; simpl.
  - rewrite (H r) by (done || constructor). apply IH. intros; apply H; [by constructor|done].
  - destruct (p r); [f_equal|]; apply IH; intros; apply H; (by constructor || done).
Qed.

Lemma select_update_other p q f t :
  (∀ r, r ∈ t → q r = true → p r = false ∧ p (f r) = false) →
  select p (update q f t) = select p t.
Proof.
  unfold select, update. induction t as [|r t IH]; intros H; [done|].
  rewrite fmap_cons. cbn [List.filter]. rewrite IH by (intros; apply H; [by constructor|done]).
  destruct (q r) eqn:Hq; [|done].
  destruct (H r) as [-> ->]; [constructor|done|done].
Qed.
Lemma update_ext (p q : A → bool) f t : (∀ r, p r = q r) → update p f t = update q f t.
Proof. intros H. apply list_fmap_ext. intros _ r _. by rewrite H. Qed.

Lemma select_ext (p q : A → bool) t : (∀ r, p r = q r) → select p t = select q t.
Proof. intros H. by apply List.filter_ext. Qed.

Lemma delete_ext (p q : A → bool) t : (∀ r, p r = q r) → delete_where p t = delete_where q t.
Proof. intros H. apply List.filter_ext. intros r. by rewrite H. Qed.
End table.

Lemma NoDup_fmap_delete {A B} (f : A → B) p (l : list A) :
  NoDup (f <$> l) → NoDup (f <$> delete_where p l).
Proof.
  unfold delete_where. induction l as [|x l IH]; simpl; [done|].
  intros [Hx Hnd]%NoDup_cons. destruct (p x); simpl; [by apply IH|].
  apply NoDup_cons. split; [|by apply IH]. rewrite list_elem_of_fmap in *.
  intros (y&Hy&Hin). apply Hx. exists y. split; [done|].
  by apply elem_of_delete_where in Hin as [].
Qed.

(** ** Keyed tables

    When no two rows share a key, the table is a finite map, and the statements
    by key are the map's operations. *)
Section keyed.
Context {A K : Type} `{EqDecision K, !Countable K} (key : A → K).
Implicit Types (t : list A) (k : K).

Definition keyed (t : list A) : Prop := NoDup (key <$> t).
Definition table_map (t : list A) : gmap K A := list_to_map ((λ r, (key r, r)) <$> t).
Definition at_key (k : K) (r : A) : bool := bool_decide (key r = k).

Lemma table_map_fst t : ((λ r, (key r, r)) <$> t).*1 = key <$> t.
Proof. rewrite <-list_fmap_compose. by apply list_fmap_ext. Qed.

Lemma table_map_Some t k r : keyed t → table_map t !! k = Some r ↔ r ∈ t ∧ key r = k.
Proof.
  intros Ht. unfold table_map. rewrite <-elem_of_list_to_map by (by rewrite table_map_fst).
  rewrite list_elem_of_fmap. naive_solver.
Qed.

Lemma table_map_None t k : table_map t !! k = None ↔ ∀ r, r ∈ t → key r ≠ k.
Proof.
  unfold table_map. rewrite <-not_elem_of_list_to_map, table_map_fst, list_elem_of_fmap. naive_solver.
Qed.

(** [SELECT .. WHERE key = k] fetches the map's entry. *)
Lemma select_key t k : keyed t → head (select (at_key k) t) = table_map t !! k.
Proof.
  intros Ht. destruct (table_map t !! k) as [r|] eqn:Hm.
  - apply table_map_Some in Hm as [Hr Hk]; [|done].
    destruct (select (at_key k) t) as [|s l] eqn:Hs.
    + assert (r ∈ select (at_key k) t) as Hin.
      { apply elem_of_select. split; [done|]. by apply bool_decide_eq_true. }
      rewrite Hs in Hin. set_solver.
    + assert (s ∈ select (at_key k) t) as [Hst Hsk]%elem_of_select by (rewrite Hs; constructor).
      apply bool_decide_eq_true in Hsk. simpl. f_equal.
      assert (table_map t !! k = Some s) as H1 by (by apply table_map_Some).
      assert (table_map t !! k = Some r) as H2 by (by apply table_map_Some). congruence.
  - rewrite table_map_None in Hm. destruct (select (at_key k) t) as [|s l] eqn:Hs; [done|].
    assert (s ∈ select (at_key k) t) as [Hst Hsk]%elem_of_select by (rewrite Hs; constructor).
    apply bool_decide_eq_true in Hsk. by destruct (Hm s Hst).
Qed.

Lemma keyed_delete p t : keyed t → keyed (delete_where p t).
Proof.
  unfold keyed, delete_where. induction t as [|r t IH]; simpl; [done|].
  intros [Hr Hnd]%NoDup_cons. destruct (p r); simpl; [by apply IH|].
  apply NoDup_cons. split; [|by apply IH].
  rewrite list_elem_of_fmap in *. intros (s&Hs&Hin). apply Hr. exists s.
  split; [done|]. by apply elem_of_delete_where in Hin as [].
Qed.

Lemma keyed_select p t : keyed t → keyed (select p t).
Proof.
  intros Hk. assert (select p t = delete_where (λ r, negb (p r)) t) as ->; [|by apply keyed_delete].
  apply List.filter_ext. intros r. by rewrite negb_involutive.
Qed.

Lemma keyed_update p f t : (∀ r, key (f r) = key r) → keyed t → keyed (update p f t).
Proof.
  unfold keyed, update. intros Hf Ht.
  assert (key <$> ((λ r, if p r then f r else r) <$> t) = key <$> t) as ->; [|done].
  rewrite <-list_fmap_compose. apply list_fmap_ext. intros _ r _. simpl. by destruct (p r).
Qed.

Lemma keyed_snoc r t : keyed t → (∀ s, s ∈ t → key s ≠ key r) → keyed (t ++ [r]).
Proof.
  unfold keyed. intros Ht H. rewrite fmap_app. apply NoDup_app. split_and!; [done| |].
  - intros k (s&->&Hs)%list_elem_of_fmap Hk. apply (H s Hs). set_solver.
  - apply NoDup_singleton.
Qed.

Lemma table_map_snoc r t :
  (∀ s, s ∈ t → key s ≠ key r) → table_map (t ++ [r]) = <[key r := r]> (table_map t).
Proof.
  intros H. unfold table_map. rewrite fmap_app. simpl. rewrite list_to_map_snoc; [done|].
  rewrite table_map_fst, list_elem_of_fmap. naive_solver.
Qed.

Lemma table_map_update k f t :
  keyed t → (∀ r, key (f r) = key r) →
  table_map (update (at_key k) f t) = alter f k (table_map t).
Proof.
  intros Ht Hf. apply map_eq. intros k'. apply option_eq. intros r.
  rewrite table_map_Some by (by apply keyed_update).
  rewrite elem_of_update, lookup_alter_Some. setoid_rewrite table_map_Some; [|done..].
  unfold at_key. split.
  - intros [(s&Hs&->) Hk]. case_bool_decide as Hsk; [left|right].
    + rewrite Hf in Hk. split; [congruence|]. exists s. by subst.
    + subst. by split.
  - intros [(->&s&[Hs <-]&->)|(Hne&Hr&<-)].
    + split; [|done]. exists s. by rewrite bool_decide_eq_true_2.
    + split; [|done]. exists r. by rewrite bool_decide_eq_false_2.
Qed.

Lemma table_map_delete p t :
  keyed t → table_map (delete_where p t) = filter (λ kr, p kr.2 = false) (table_map t).
Proof.
  intros Ht. apply map_eq. intros k. apply option_eq. intros r.
  rewrite table_map_Some by (by apply keyed_delete).
  rewrite elem_of_delete_where, map_lookup_filter_Some, table_map_Some by done. naive_solver.
Qed.
End keyed.
