(* ===== verification/MetaDb.v ===== *)
(** * The metadata index: state and codecs ([disk-core/src/meta_db/mod.rs])

    The SQLite database as a record of tables (the columns the sources read or
    write, [migrations/]), the [serde_json] codec of vector clocks as an
    interface, and the conversions every table shares. *)

From stdpp Require Import prelude gmap strings pretty.
From Stdlib Require Import ZArith Lia Strings.Byte Strings.Ascii.
From S2P Require Import Prelude Text VectorClock Types Sql.

(** ** The codec of the [vector_clock] column *)
Class VcCodec := {
  vc_to_json : VectorClock → string;
  vc_from_json : string → option VectorClock;
  vc_roundtrip v : VC.wf v → vc_from_json (vc_to_json v) = Some v
}.

(** A concrete codec: the clock's code number written in binary. *)
Module BinaryCodec.
Fixpoint bits (p : positive) : string :=
  match p with
  | xH => ""
  | xO p => String "0" (bits p)
  | xI p => String "1" (bits p)
  end.
Fixpoint unbits (s : string) : positive :=
  match s with
  | EmptyString => xH
  | String c s => if decide (c = "0"%char) then xO (unbits s) else xI (unbits s)
  end.
Lemma unbits_bits p : unbits (bits p) = p.
Proof. induction p as [p IH|p IH|]; simpl; by rewrite ?IH. Qed.

#[global] Instance codec : VcCodec.
Proof.
  refine {| vc_to_json v := bits (encode v); vc_from_json s := decode (unbits s) |}.
  intros v _. by rewrite unbits_bits, decode_encode.
Defined.
End BinaryCodec.

(** ** Rows *)
Module FileRow.
Record t := mk {
  tenant_id : option string;
  vault_id : string;
  path : string;
  content_hash : bytes;
  size : Z;
  mtime_ns : Z;
  inode : option Z;
  vector_clock : string;
  deleted : Z;
  deleted_at : option Z;
  encryption_nonce : option bytes;
  version_id : option Z;
  parent_version_id : option Z;
  created_at : Z;
  updated_at : Z
}.
End FileRow.

Module VersionRow.
Record t := mk {
  tenant_id : option string;
  vault_id : string;
  path : string;
  version_id : Z;
  parent_version_id : Z;
  content_hash : bytes;
  size : Z;
  mtime_ns : Z;
  created_at : Z;
  created_by : option string
}.
End VersionRow.

Module TombstoneRow.
Record t := mk {
  tenant_id : option string;
  vault_id : string;
  path : string;
  last_hash : bytes;
  deleted_by : string;
  deleted_at : Z;
  ttl_expires : Z;
  propagated : Z;
  created_at : Z
}.
End TombstoneRow.

Module ConflictRow.
Record t := mk {
  id : Z;
  tenant_id : option string;
  vault_id : string;
  path : string;
  conflict_type : string;
  local_hash : option bytes;
  remote_hash : option bytes;
  base_hash : option bytes;
  resolution : option string;
  fork_path : option string;
  resolved : Z;
  created_at : Z;
  resolved_at : option Z
}.
End ConflictRow.

Module BaselineRow.
Record t := mk {
  tenant_key : string;
  node_id : string;
  vault_id : string;
  path : string;
  content_hash : bytes;
  size : Z;
  mtime_ns : Z;
  vector_clock : string;
  deleted : Z;
  deleted_at : option Z;
  node_id_writer : string;
  updated_at : Z;
  tenant_id : option string
}.
End BaselineRow.

Module SnapshotRow.
Record t := mk {
  id : Z;
  tenant_id : option string;
  vault_id : string;
  label : option string;
  file_count : Z;
  bytes_total : Z;
  created_at : Z;
  created_by : option string
}.
End SnapshotRow.

Module SnapshotFileRow.
Record t := mk {
  snapshot_id : Z;
  tenant_id : option string;
  vault_id : string;
  path : string;
  version_id : Z;
  content_hash : bytes;
  size : Z;
  deleted : Z
}.
End SnapshotFileRow.

Module BillingRow.
Record t := mk {
  tenant_id : option string;
  plan_tier : string;
  stripe_customer_id : option string;
  stripe_subscription_id : option string;
  created_at : Z;
  updated_at : Z
}.
End BillingRow.

Module VaultRow.
Record t := mk {
  tenant_id : option string;
  vault_id : string;
  created_at : Z
}.
End VaultRow.

(** ** The database

    [conflict_seq] and [snapshot_seq] are the [AUTOINCREMENT] counters: the
    largest id ever handed out. *)
Record MetaDb := mkDb {
  files : list FileRow.t;
  file_versions : list VersionRow.t;
  tombstones : list TombstoneRow.t;
  conflicts : list ConflictRow.t;
  conflict_seq : Z;
  node_baselines : list BaselineRow.t;
  vault_snapshots : list SnapshotRow.t;
  snapshot_seq : Z;
  vault_snapshot_files : list SnapshotFileRow.t;
  tenant_billing : list BillingRow.t;
  tenant_vaults : list VaultRow.t
}.

(** The state after the migrations. *)
Definition empty_db : MetaDb := mkDb [] [] [] [] 0 [] [] 0 [] [] [].

Definition set_files (f : list FileRow.t → list FileRow.t) (db : MetaDb) : MetaDb :=
  mkDb (f (files db)) (file_versions db) (tombstones db) (conflicts db) (conflict_seq db)
    (node_baselines db) (vault_snapshots db) (snapshot_seq db) (vault_snapshot_files db)
    (tenant_billing db) (tenant_vaults db).
Definition set_file_versions (f : list VersionRow.t → list VersionRow.t) (db : MetaDb) : MetaDb :=
  mkDb (files db) (f (file_versions db)) (tombstones db) (conflicts db) (conflict_seq db)
    (node_baselines db) (vault_snapshots db) (snapshot_seq db) (vault_snapshot_files db)
    (tenant_billing db) (tenant_vaults db).
Definition set_tombstones (f : list TombstoneRow.t → list TombstoneRow.t) (db : MetaDb) : MetaDb :=
  mkDb (files db) (file_versions db) (f (tombstones db)) (conflicts db) (conflict_seq db)
    (node_baselines db) (vault_snapshots db) (snapshot_seq db) (vault_snapshot_files db)
    (tenant_billing db) (tenant_vaults db).
Definition set_conflicts (f : list ConflictRow.t → list ConflictRow.t) (seq : Z) (db : MetaDb) : MetaDb :=
  mkDb (files db) (file_versions db) (tombstones db) (f (conflicts db)) seq
    (node_baselines db) (vault_snapshots db) (snapshot_seq db) (vault_snapshot_files db)
    (tenant_billing db) (tenant_vaults db).
Definition set_baselines (f : list BaselineRow.t → list BaselineRow.t) (db : MetaDb) : MetaDb :=
  mkDb (files db) (file_versions db) (tombstones db) (conflicts db) (conflict_seq db)
    (f (node_baselines db)) (vault_snapshots db) (snapshot_seq db) (vault_snapshot_files db)
    (tenant_billing db) (tenant_vaults db).
Definition set_snapshots (f : list SnapshotRow.t → list SnapshotRow.t) (seq : Z)
    (g : list SnapshotFileRow.t → list SnapshotFileRow.t) (db : MetaDb) : MetaDb :=
  mkDb (files db) (file_versions db) (tombstones db) (conflicts db) (conflict_seq db)
    (node_baselines db) (f (vault_snapshots db)) seq (g (vault_snapshot_files db))
    (tenant_billing db) (tenant_vaults db).
Definition set_billing (f : list BillingRow.t → list BillingRow.t) (db : MetaDb) : MetaDb :=
  mkDb (files db) (file_versions db) (tombstones db) (conflicts db) (conflict_seq db)
    (node_baselines db) (vault_snapshots db) (snapshot_seq db) (vault_snapshot_files db)
    (f (tenant_billing db)) (tenant_vaults db).
Definition set_vaults (f : list VaultRow.t → list VaultRow.t) (db : MetaDb) : MetaDb :=
  mkDb (files db) (file_versions db) (tombstones db) (conflicts db) (conflict_seq db)
    (node_baselines db) (vault_snapshots db) (snapshot_seq db) (vault_snapshot_files db)
    (tenant_billing db) (f (tenant_vaults db)).

(** ** Statements

    A query reads the database; a statement may fail on a constraint, which
    rolls it back. *)
Abbreviation dbm := (stm MetaDb MetaDbError).

Definition query {A} (f : MetaDb → A) : dbm A := λ db, (Ok (f db), db).
Definition execute (f : MetaDb → MetaDb) : dbm unit := λ db, (Ok tt, f db).
Definition unique_violation : MetaDbError := Sqlx "UNIQUE constraint failed".

(** ** Shared conversions *)

(** [path.to_str()] with [\] replaced; a non-UTF-8 path is refused. *)
Definition path_as_str (p : string) : result string MetaDbError :=
  if str_utf8 p then Ok (replace_char "\"%char "/"%char p)
  else Err (Invalid "path contains non-UTF-8 bytes").

Definition bool_int (b : bool) : Z := if b then 1 else 0.
Definition int_bool (z : Z) : bool := negb (bool_decide (z = 0)).

(** The [[u8; 32]] check of the [row_to_..] functions; [what] starts the
    message. *)
Definition hash_of_blob (what : string) (blob : bytes) : result bytes MetaDbError :=
  if decide (hash32 blob) then Ok blob
  else Err (Invalid (what +:+ " length = " +:+ pretty (length blob) +:+ ", expected 32")).

Lemma int_bool_int b : int_bool (bool_int b) = b.
Proof. by destruct b. Qed.

Lemma hash_of_blob_ok what h : hash32 h → hash_of_blob what h = Ok h.
Proof. intros. unfold hash_of_blob. by rewrite decide_True. Qed.
