(* ===== verification/Billing.v ===== *)
(** * Plans, quotas and retention ([disk-core/src/billing/]) *)

From stdpp Require Import prelude gmap strings.
From Stdlib Require Import ZArith Lia.
From S2P Require Import Prelude Text.

Module QuotaLimits.
Record t := mk { max_storage_bytes : Z; max_nodes : Z; max_vaults : Z }.
End QuotaLimits.
Abbreviation QuotaLimits := QuotaLimits.t.

Module VersionRetention.
Record t := mk { max_versions : Z; max_age_secs : Z }.
End VersionRetention.
Abbreviation VersionRetention := VersionRetention.t.

Module SnapshotRetention.
Record t := mk { max_snapshots : Z; max_age_secs : Z }.
End SnapshotRetention.
Abbreviation SnapshotRetention := SnapshotRetention.t.

Module TrashRetention.
Record t := mk { max_age_secs : Z }.
End TrashRetention.
Abbreviation TrashRetention := TrashRetention.t.

Module PlanTier.
Inductive t := Free | Pro | Team.

#[global] Instance eq_dec : EqDecision t.
Proof. solve_decision. Defined.

Inductive TierParseError := Unknown (raw : string).

Definition parse (raw : string) : result t TierParseError :=
  let s := to_ascii_lowercase raw in
  if decide (s = "free") then Ok Free
  else if decide (s = "pro") then Ok Pro
  else if decide (s = "team") then Ok Team
  else Err (Unknown s).

Definition as_str (self : t) : string :=
  match self with Free => "free" | Pro => "pro" | Team => "team" end.

Definition limits (self : t) : QuotaLimits :=
  match self with
  | Free => QuotaLimits.mk (5 * 1024 * 1024 * 1024) 2 1
  | Pro => QuotaLimits.mk (100 * 1024 * 1024 * 1024) 10 5
  | Team => QuotaLimits.mk (1024 * 1024 * 1024 * 1024) 50 20
  end.

Definition from_stripe_lookup_key (key : string) : option t :=
  if decide (key = "disk_free") then Some Free
  else if decide (key = "disk_pro") then Some Pro
  else if decide (key = "disk_team") then Some Team
  else None.

Definition version_retention (self : t) : VersionRetention :=
  match self with
  | Free => VersionRetention.mk 5 (7 * 24 * 3600)
  | Pro => VersionRetention.mk 30 (90 * 24 * 3600)
  | Team => VersionRetention.mk 100 (365 * 24 * 3600)
  end.

Definition snapshot_retention (self : t) : SnapshotRetention :=
  match self with
  | Free => SnapshotRetention.mk 2 (7 * 24 * 3600)
  | Pro => SnapshotRetention.mk 20 (90 * 24 * 3600)
  | Team => SnapshotRetention.mk 100 (365 * 24 * 3600)
  end.

Definition trash_retention (self : t) : TrashRetention :=
  match self with
  | Free => TrashRetention.mk (7 * 24 * 3600)
  | Pro => TrashRetention.mk (90 * 24 * 3600)
  | Team => TrashRetention.mk (365 * 24 * 3600)
  end.

Lemma parse_as_str tier : parse (as_str tier) = Ok tier.
Proof. by destruct tier. Qed.
End PlanTier.
Abbreviation PlanTier := PlanTier.t.

(** ** Quota checks *)
Module Quota.
Inductive QuotaError :=
  | StorageExceeded (used_bytes delta_bytes limit_bytes : Z)
  | NodesExceeded (active_nodes limit_nodes : Z)
  | VaultsExceeded (known_vaults limit_vaults : Z).

Definition check_storage_delta (used_bytes delta_bytes : Z) (limits : QuotaLimits)
    : result unit QuotaError :=
  let limit := QuotaLimits.max_storage_bytes limits in
  let projected :=
    if bool_decide (0 ≤ delta_bytes) then u64_saturating_add used_bytes (as_u64 delta_bytes)
    else u64_saturating_sub used_bytes (as_u64 (as_i64 (- delta_bytes))) in
  if bool_decide (limit < projected) then Err (StorageExceeded used_bytes delta_bytes limit)
  else Ok tt.

Definition check_node_capacity (active_nodes : Z) (limits : QuotaLimits) : result unit QuotaError :=
  if bool_decide (QuotaLimits.max_nodes limits ≤ active_nodes)
  then Err (NodesExceeded active_nodes (QuotaLimits.max_nodes limits)) else Ok tt.

Definition check_vault_capacity (known_vaults : Z) (vault_already_known : bool)
    (limits : QuotaLimits) : result unit QuotaError :=
  if vault_already_known then Ok tt
  else if bool_decide (QuotaLimits.max_vaults limits ≤ known_vaults)
  then Err (VaultsExceeded known_vaults (QuotaLimits.max_vaults limits)) else Ok tt.

(** [(-delta) as u64] for a negative delta, the wrapping one included. *)
Lemma neg_cast delta : in_i64 delta → delta < 0 → as_u64 (as_i64 (- delta)) = - delta.
Proof.
  intros Hd Hn. unfold_ints. rewrite (Z.mod_small (- delta) (2 ^ 64)) by lia.
  case_bool_decide; [apply Z.mod_small; lia|].
  replace (- delta - 2 ^ 64) with (- delta + (-1) * 2 ^ 64) by lia.
  rewrite Z.mod_add by lia. apply Z.mod_small. lia.
Qed.

(** The saturating arithmetic and the casts decide the exact comparison for
    every limit below the largest [u64], the most negative delta included,
    whose negation wraps. *)
Theorem check_storage_delta_exact used delta limits :
  in_u64 used → in_i64 delta → 0 ≤ QuotaLimits.max_storage_bytes limits < u64_max →
  check_storage_delta used delta limits = Ok tt
  ↔ used + delta ≤ QuotaLimits.max_storage_bytes limits.
Proof.
  intros Hu Hd Hl. unfold check_storage_delta. destruct (decide (0 ≤ delta)) as [H0|H0].
  - rewrite (bool_decide_true (0 ≤ delta)) by done. rewrite as_u64_id by (unfold_ints; lia). case_bool_decide as Hp; unfold_ints; split; intros; try done; lia.
  - rewrite (bool_decide_false (0 ≤ delta)) by done. rewrite neg_cast by (done || lia). case_bool_decide as Hp; unfold_ints; split; intros; try done; lia.
Qed.
End Quota.
