(* ===== verification/MetaFiles.v ===== *)
(** * The [files] and [file_versions] tables
      ([disk-core/src/meta_db/files.rs], [versions.rs], [trash.rs])

    Scoped CRUD on the file index, version history with tier retention, and
    the recycle bin over soft-deleted rows. The [files] table refines a finite
    map keyed by (tenant, vault, path), null tenant included. *)

From stdpp Require Import prelude gmap strings sorting.
From Stdlib Require Import ZArith Lia Strings.Byte.
From S2P Require Import Prelude Text VectorClock Types Sql MetaDb Billing.

Module MetaFiles.
Module FileVersionRow.
Record t := mk {
  version_id : Z;
  parent_version_id : Z;
  path : string;
  content_hash : bytes;
  size : Z;
  mtime_ns : Z;
  created_at : Z;
  created_by : option string
}.
End FileVersionRow.

Module TrashRow.
Record t := mk {
  path : string;
  content_hash : bytes;
  size : Z;
  deleted_at : Z;
  version_id : option Z
}.
End TrashRow.

Section ops.
Context {codec : VcCodec}.

Definition VAULT_DEFAULT : string := "default".

(** [WHERE tenant_id IS ?1 AND vault_id = ?2 [AND path = ?3]]. *)
Definition in_scope (tenant : option string) (vault : string) (r : FileRow.t) : bool :=
  is_eqb (FileRow.tenant_id r) tenant && bool_decide (FileRow.vault_id r = vault).
Definition is_file (tenant : option string) (vault path : string) (r : FileRow.t) : bool :=
  in_scope tenant vault r && bool_decide (FileRow.path r = path).

(** [UNIQUE (tenant_id, vault_id, path)]. *)
Definition file_clash (r s : FileRow.t) : bool :=
  uniq_eqb (FileRow.tenant_id r) (FileRow.tenant_id s)
  && bool_decide (FileRow.vault_id r = FileRow.vault_id s)
  && bool_decide (FileRow.path r = FileRow.path s).

Definition insert_file (r : FileRow.t) : dbm unit := λ db,
  match insert_row file_clash r (files db) with
  | Some t => (Ok tt, set_files (λ _, t) db)
  | None => (Err unique_violation, db)
  end.

(** The [UPDATE files SET ..] of [upsert_file_scoped]: version ids and
    [created_at] stay. *)
Definition update_columns (meta : FileMeta) (now : Z) (r : FileRow.t) : FileRow.t :=
  FileRow.mk (FileRow.tenant_id r) (FileRow.vault_id r) (FileRow.path r)
    (FileMeta.content_hash meta) (as_i64 (FileMeta.size meta)) (FileMeta.mtime_ns meta)
    (as_i64 <$> FileMeta.inode meta) (vc_to_json (FileMeta.vector_clock meta))
    (bool_int (FileMeta.deleted meta)) (FileMeta.deleted_at meta)
    (FileMeta.encryption_nonce meta) (FileRow.version_id r) (FileRow.parent_version_id r)
    (FileRow.created_at r) now.

(** The row of the [INSERT]; version columns are NULL unless given. *)
Definition new_row (tenant : option string) (vault path_str : string) (meta : FileMeta)
    (version parent : option Z) (now : Z) : FileRow.t :=
  FileRow.mk tenant vault path_str
    (FileMeta.content_hash meta) (as_i64 (FileMeta.size meta)) (FileMeta.mtime_ns meta)
    (as_i64 <$> FileMeta.inode meta) (vc_to_json (FileMeta.vector_clock meta))
    (bool_int (FileMeta.deleted meta)) (FileMeta.deleted_at meta)
    (FileMeta.encryption_nonce meta) version parent now now.

Definition upsert_file_scoped (now : Z) (tenant : option string) (vault : string)
    (meta : FileMeta) : dbm unit :=
  path_str <~ st_lift (path_as_str (FileMeta.path meta)) ;;
  updated <~ query (λ db, affected (is_file tenant vault path_str) (files db)) ;;
  _ <~ execute (set_files (update (is_file tenant vault path_str) (update_columns meta now))) ;;
  if bool_decide (0 < updated)%nat then st_ret tt
  else insert_file (new_row tenant vault path_str meta None None now).

Definition upsert_file (now : Z) (meta : FileMeta) : dbm unit :=
  upsert_file_scoped now None VAULT_DEFAULT meta.

Definition row_to_meta (r : FileRow.t) : result FileMeta MetaDbError :=
  h <?- hash_of_blob "content_hash" (FileRow.content_hash r) ;;
  Ok (FileMeta.mk (FileRow.path r) h (as_u64 (FileRow.size r)) (FileRow.mtime_ns r)
        (as_u64 <$> FileRow.inode r)
        (default VC.new (vc_from_json (FileRow.vector_clock r)))
        (int_bool (FileRow.deleted r)) (FileRow.deleted_at r) ""
        (FileRow.encryption_nonce r)
        (as_u64 <$> FileRow.version_id r) (as_u64 <$> FileRow.parent_version_id r)).

(** [fetch_optional(..)?.map(row_to_meta).transpose()]. *)
Definition fetch_file (tenant : option string) (vault path : string) (db : MetaDb)
    : option FileRow.t :=
  head (select (is_file tenant vault path) (files db)).

Definition get_file_scoped (tenant : option string) (vault path : string) : dbm (option FileMeta) :=
  row <~ query (fetch_file tenant vault path) ;;
  st_lift (transpose (row_to_meta <$> row)).

Definition get_file (path : string) : dbm (option FileMeta) :=
  get_file_scoped None VAULT_DEFAULT path.

Definition delete_file_scoped (tenant : option string) (vault path : string) : dbm unit :=
  execute (set_files (delete_where (is_file tenant vault path))).

Definition delete_file (path : string) : dbm unit := delete_file_scoped None VAULT_DEFAULT path.

Definition by_path (a b : FileRow.t) : bool := Path.str_leb (FileRow.path a) (FileRow.path b).

Definition list_files_scoped (tenant : option string) (vault : string) : dbm (list FileMeta) :=
  rows <~ query (λ db, sort_by by_path (select (in_scope tenant vault) (files db))) ;;
  st_lift (collect_results row_to_meta rows).

Definition list_all_files : dbm (list FileMeta) := list_files_scoped None VAULT_DEFAULT.

(** ** Versions *)
Definition has_version (tenant : option string) (vault path : string) (r : VersionRow.t) : bool :=
  is_eqb (VersionRow.tenant_id r) tenant && bool_decide (VersionRow.vault_id r = vault)
  && bool_decide (VersionRow.path r = path).

(** [UNIQUE (tenant_id, vault_id, path, version_id)]. *)
Definition version_clash (r s : VersionRow.t) : bool :=
  uniq_eqb (VersionRow.tenant_id r) (VersionRow.tenant_id s)
  && bool_decide (VersionRow.vault_id r = VersionRow.vault_id s)
  && bool_decide (VersionRow.path r = VersionRow.path s)
  && bool_decide (VersionRow.version_id r = VersionRow.version_id s).

Definition insert_file_version (tenant : option string) (vault path : string)
    (version_id parent_version_id : Z) (meta : FileMeta) (created_at : Z)
    (created_by : option string) : dbm unit := λ db,
  let r := VersionRow.mk tenant vault path (as_i64 version_id) (as_i64 parent_version_id)
             (FileMeta.content_hash meta) (as_i64 (FileMeta.size meta)) (FileMeta.mtime_ns meta)
             created_at created_by in
  match insert_row version_clash r (file_versions db) with
  | Some t => (Ok tt, set_file_versions (λ _, t) db)
  | None => (Err unique_violation, db)
  end.

(** The [UPDATE] of [write_file_row] also sets the version columns. *)
Definition update_versioned (meta : FileMeta) (version parent now : Z) (r : FileRow.t) : FileRow.t :=
  FileRow.mk (FileRow.tenant_id r) (FileRow.vault_id r) (FileRow.path r)
    (FileMeta.content_hash meta) (as_i64 (FileMeta.size meta)) (FileMeta.mtime_ns meta)
    (as_i64 <$> FileMeta.inode meta) (vc_to_json (FileMeta.vector_clock meta))
    (bool_int (FileMeta.deleted meta)) (FileMeta.deleted_at meta)
    (FileMeta.encryption_nonce meta) (Some (as_i64 version)) (Some (as_i64 parent))
    (FileRow.created_at r) now.

Definition write_file_row (tenant : option string) (vault : string) (meta : FileMeta)
    (version parent now : Z) : dbm unit :=
  path_str <~ st_lift (path_as_str (FileMeta.path meta)) ;;
  updated <~ query (λ db, affected (is_file tenant vault path_str) (files db)) ;;
  _ <~ execute (set_files (update (is_file tenant vault path_str)
                             (update_versioned meta version parent now))) ;;
  if bool_decide (0 < updated)%nat then st_ret tt
  else insert_file (new_row tenant vault path_str meta (Some (as_i64 version))
                      (Some (as_i64 parent)) now).

Definition newest_first (a b : VersionRow.t) : bool :=
  bool_decide (VersionRow.version_id b ≤ VersionRow.version_id a).

(** The ids the subquery keeps: the [LIMIT] newest. *)
Definition kept_versions (tenant : option string) (vault path : string) (limit : Z)
    (t : list VersionRow.t) : list Z :=
  VersionRow.version_id <$>
    take (Z.to_nat limit) (sort_by newest_first (select (has_version tenant vault path) t)).

(** The [DELETE] of [prune_file_versions]. *)
Definition prune_rows (cutoff : Z) (tenant : option string) (vault path : string) (limit : Z)
    (t : list VersionRow.t) : list VersionRow.t :=
  let kept := kept_versions tenant vault path limit t in
  delete_where (λ r,
    has_version tenant vault path r
    && (bool_decide (VersionRow.created_at r < cutoff)
        || negb (bool_decide (VersionRow.version_id r ∈ kept)))) t.

(** [now] is this call's own clock reading. *)
Definition prune_file_versions (now : Z) (tenant : option string) (vault path : string)
    (retention : VersionRetention) : dbm unit :=
  let cutoff := as_i64 (now - VersionRetention.max_age_secs retention) in
  execute (set_file_versions
    (prune_rows cutoff tenant vault path (VersionRetention.max_versions retention))).

(** [get_file_row_scoped]: the row and its stored version id. *)
Definition get_file_row_scoped (tenant : option string) (vault path : string)
    : dbm (option (FileMeta * option Z)) :=
  row <~ query (fetch_file tenant vault path) ;;
  st_lift (transpose ((λ r, m <?- row_to_meta r ;; Ok (m, as_u64 <$> FileRow.version_id r)) <$> row)).

(** [let (new_version_id, parent_version_id) = ..]: a live row with another
    content is pushed to the history. *)
Definition next_version_ids (now : Z) (tenant : option string) (vault path_str : string)
    (meta : FileMeta) (created_by : string) (existing : option (FileMeta * option Z))
    : dbm (Z * Z) :=
  match existing with
  | Some (prior, prior_vid) =>
      let prior_vid := default 1 prior_vid in
      let prior_parent := default 0 (FileMeta.parent_version_id prior) in
      if bool_decide (FileMeta.content_hash prior ≠ FileMeta.content_hash meta)
         && negb (FileMeta.deleted prior)
      then
        _ <~ insert_file_version tenant vault path_str prior_vid prior_parent prior now
               (Some created_by) ;;
        st_ret (as_u64 (prior_vid + 1), prior_vid)
      else st_ret (prior_vid, prior_parent)
  | None => st_ret (1, 0)
  end.

(** [now] is read at the start, [now'] by the prune. *)
Definition upsert_file_scoped_versioned (now now' : Z) (tenant : option string) (vault : string)
    (meta : FileMeta) (created_by : string) (retention : VersionRetention) : dbm Z :=
  path_str <~ st_lift (path_as_str (FileMeta.path meta)) ;;
  existing <~ get_file_row_scoped tenant vault path_str ;;
  ids <~ next_version_ids now tenant vault path_str meta created_by existing ;;
  _ <~ write_file_row tenant vault meta ids.1 ids.2 now ;;
  _ <~ prune_file_versions now' tenant vault path_str retention ;;
  st_ret ids.1.

Definition count_file_versions (tenant : option string) (vault path : string) : dbm Z :=
  query (λ db, as_u32 (Z.of_nat (affected (has_version tenant vault path) (file_versions db)))).

Definition row_to_version (r : VersionRow.t) : result FileVersionRow.t MetaDbError :=
  h <?- hash_of_blob "content_hash" (VersionRow.content_hash r) ;;
  Ok (FileVersionRow.mk (as_u64 (VersionRow.version_id r)) (as_u64 (VersionRow.parent_version_id r))
        (VersionRow.path r) h (as_u64 (VersionRow.size r)) (VersionRow.mtime_ns r)
        (VersionRow.created_at r) (VersionRow.created_by r)).

Definition list_file_versions (tenant : option string) (vault path : string) (limit offset : Z)
    : dbm (list FileVersionRow.t) :=
  let cap := Z.max 1 (Z.min limit 200) in
  let skip := Z.min offset 10000 in
  rows <~ query (λ db, limit_offset cap skip
                   (sort_by newest_first (select (has_version tenant vault path) (file_versions db)))) ;;
  st_lift (collect_results row_to_version rows).

Definition get_file_version (tenant : option string) (vault path : string) (version_id : Z)
    : dbm (option FileVersionRow.t) :=
  row <~ query (λ db, head (select (λ r, has_version tenant vault path r
                              && bool_decide (VersionRow.version_id r = as_i64 version_id))
                      (file_versions db))) ;;
  st_lift (transpose (row_to_version <$> row)).

Definition delete_file_versions_for_path (tenant : option string) (vault path : string) : dbm unit :=
  execute (set_file_versions (delete_where (has_version tenant vault path))).

Definition delete_file_versions_for_tenant (tenant : string) : dbm unit :=
  execute (set_file_versions (delete_where (λ r, is_eqb (VersionRow.tenant_id r) (Some tenant)))).

(** ** Trash *)
Definition in_trash (tenant : option string) (vault : string) (r : FileRow.t) : bool :=
  in_scope tenant vault r && bool_decide (FileRow.deleted r = 1).

(** [try_get::<i64>] fails on a NULL [deleted_at]. *)
Definition row_to_trash (r : FileRow.t) : result TrashRow.t MetaDbError :=
  deleted_at <?- ok_or (FileRow.deleted_at r) (Sqlx "unexpected null; try decoding as an Option") ;;
  h <?- hash_of_blob "content_hash" (FileRow.content_hash r) ;;
  Ok (TrashRow.mk (FileRow.path r) h (as_u64 (FileRow.size r)) deleted_at
        (as_u64 <$> FileRow.version_id r)).

(** [ORDER BY deleted_at DESC, path ASC]; NULL is the smallest value. *)
Definition opt_ltb (a b : option Z) : bool :=
  match a, b with
  | None, Some _ => true
  | Some x, Some y => bool_decide (x < y)
  | _, None => false
  end.
Definition recent_first (a b : FileRow.t) : bool :=
  if opt_ltb (FileRow.deleted_at b) (FileRow.deleted_at a) then true
  else if opt_ltb (FileRow.deleted_at a) (FileRow.deleted_at b) then false
  else by_path a b.

Definition list_trash (tenant : option string) (vault : string) (limit offset : Z)
    : dbm (list TrashRow.t) :=
  rows <~ query (λ db, limit_offset limit offset
                   (sort_by recent_first (select (in_trash tenant vault) (files db)))) ;;
  st_lift (collect_results row_to_trash rows).

Definition count_trash (tenant : option string) (vault : string) : dbm Z :=
  query (λ db, as_u32 (Z.of_nat (affected (in_trash tenant vault) (files db)))).

(** [DELETE FROM files WHERE ..] with its [rows_affected()]. *)
Definition delete_files (p : FileRow.t → bool) : dbm Z :=
  n <~ query (λ db, affected p (files db)) ;;
  _ <~ execute (set_files (delete_where p)) ;;
  st_ret (Z.of_nat n).

Definition expired (tenant : option string) (vault : string) (cutoff : Z) (r : FileRow.t) : bool :=
  in_trash tenant vault r
  && match FileRow.deleted_at r with Some d => bool_decide (d < cutoff) | None => false end.

Definition prune_expired_trash (now : Z) (tenant : option string) (vault : string)
    (retention : TrashRetention) : dbm Z :=
  n <~ delete_files (expired tenant vault (as_i64 (now - TrashRetention.max_age_secs retention))) ;;
  st_ret (as_u32 n).

Definition delete_trash_item (tenant : option string) (vault path : string) : dbm bool :=
  n <~ delete_files (λ r, is_file tenant vault path r && bool_decide (FileRow.deleted r = 1)) ;;
  st_ret (bool_decide (0 < n)).

Definition empty_trash (tenant : option string) (vault : string) : dbm Z :=
  n <~ delete_files (in_trash tenant vault) ;; st_ret (as_u32 n).

Definition list_trash_tenant_ids : dbm (list (option string)) :=
  query (λ db, remove_dups (FileRow.tenant_id <$>
                 select (λ r, bool_decide (FileRow.deleted r = 1)) (files db))).

Definition list_vaults_with_trash (tenant : option string) : dbm (list string) :=
  query (λ db, remove_dups (FileRow.vault_id <$>
                 select (λ r, is_eqb (FileRow.tenant_id r) tenant
                              && bool_decide (FileRow.deleted r = 1)) (files db))).

Definition mark_trash_restored (now : Z) (tenant : option string) (vault path : string)
    : dbm (option FileMeta) :=
  existing <~ get_file_scoped tenant vault path ;;
  match existing with
  | None => st_ret None
  | Some meta =>
      if negb (FileMeta.deleted meta) then st_ret (Some meta)
      else
        let meta := FileMeta.set_deleted false None meta in
        _ <~ upsert_file_scoped now tenant vault meta ;;
        st_ret (Some meta)
  end.
End ops.
End MetaFiles.

(** ** The file table as a finite map *)
Abbreviation fkey := (option string * string * string)%type.

Section files_map.
Import MetaFiles.
Context {codec : VcCodec}.

Definition file_key (r : FileRow.t) : fkey :=
  (FileRow.tenant_id r, FileRow.vault_id r, FileRow.path r).

Definition files_keyed (db : MetaDb) : Prop := keyed file_key (files db).
Definition file_map (db : MetaDb) : gmap fkey FileRow.t := table_map file_key (files db).

Lemma is_file_key t v p r : is_file t v p r = at_key file_key (t, v, p) r.
Proof.
  unfold is_file, in_scope, is_eqb, at_key, file_key.
  rewrite <-!bool_decide_and. apply bool_decide_ext. naive_solver.
Qed.

(** A clash on the constraint is a clash on the key. *)
Lemma file_clash_key r s : file_clash r s = true → file_key r = file_key s.
Proof.
  unfold file_clash, file_key, uniq_eqb. destruct (FileRow.tenant_id r), (FileRow.tenant_id s); simpl;
    try done. rewrite !andb_true_iff, !bool_decide_eq_true. naive_solver congruence.
Qed.

Lemma fetch_file_map db t v p : files_keyed db → fetch_file t v p db = file_map db !! (t, v, p).
Proof.
  intros Hk. unfold fetch_file, file_map. rewrite <-select_key by done. f_equal.
  apply select_ext. intros. apply is_file_key.
Qed.

(** Update-then-insert by key is an insertion into the map. *)
Lemma update_insert_map (f : FileRow.t → FileRow.t) (r : FileRow.t) (db : MetaDb) :
  files_keyed db → (∀ s, file_key (f s) = file_key s) →
  let k := file_key r in
  let db' :=
    if bool_decide (0 < affected (is_file k.1.1 k.1.2 k.2) (files db))%nat
    then (Ok tt, set_files (update (is_file k.1.1 k.1.2 k.2) f) db)
    else insert_file r (set_files (update (is_file k.1.1 k.1.2 k.2) f) db) in
  ∃ t', db' = (Ok tt, set_files (λ _, t') db) ∧ keyed file_key t'
    ∧ table_map file_key t'
      = <[k := match file_map db !! k with Some old => f old | None => r end]> (file_map db).
Proof.
  intros Hk Hf k. cbv zeta.
  assert (update (is_file k.1.1 k.1.2 k.2) f (files db) = update (at_key file_key k) f (files db)) as Hu.
  { apply update_ext. intros s. rewrite is_file_key. by destruct k as [[??]?]. }
  case_bool_decide as Hn.
  - exists (update (at_key file_key k) f (files db)).
    split; [unfold set_files; by rewrite Hu|].
    split; [by apply keyed_update|].
    rewrite table_map_update by done. unfold file_map.
    destruct (table_map file_key (files db) !! k) as [old|] eqn:Hm.
    + apply map_eq. intros k'. destruct (decide (k' = k)) as [->|].
      * by rewrite lookup_alter_eq, lookup_insert_eq, Hm.
      * by rewrite lookup_alter_ne, lookup_insert_ne by done.
    + exfalso. rewrite table_map_None in Hm. unfold affected in Hn.
      destruct (select (is_file k.1.1 k.1.2 k.2) (files db)) as [|s l] eqn:Hs; [simpl in Hn; lia|].
      assert (s ∈ select (is_file k.1.1 k.1.2 k.2) (files db)) as [Hin Hp]%elem_of_select
        by (rewrite Hs; constructor).
      rewrite is_file_key in Hp. apply bool_decide_eq_true in Hp. apply (Hm s Hin).
      rewrite Hp. by destruct k as [[??]?].
  - assert (∀ s, s ∈ files db → file_key s ≠ k) as Hno.
    { assert (affected (is_file k.1.1 k.1.2 k.2) (files db) = 0%nat) as H0 by lia.
      rewrite affected_0 in H0. intros s Hs Hsk. specialize (H0 s Hs).
      rewrite is_file_key in H0. apply bool_decide_eq_false in H0. apply H0.
      rewrite Hsk. by destruct k as [[??]?]. }
    assert (update (at_key file_key k) f (files db) = files db) as Hid.
    { unfold update. rewrite <-(list_fmap_id (files db)) at 2. apply list_fmap_ext. intros i s Hi.
      unfold at_key. rewrite bool_decide_eq_false_2; [done|]. apply Hno.
      by eapply list_elem_of_lookup_2. }
    unfold insert_file, set_files. cbn [files]. rewrite Hu, Hid.
    rewrite insert_row_some.
    2: { intros s Hs. apply not_true_is_false. intros Hc%file_clash_key. by apply (Hno s). }
    eexists. split; [done|]. split; [by apply keyed_snoc|].
    rewrite table_map_snoc by done. unfold file_map.
    by rewrite (proj2 (table_map_None file_key (files db) k)) by done.
Qed.

(** The row of a path after an upsert: the metadata's columns, the version
    columns and creation time of the row that was there, if any. *)
Definition upserted (now : Z) (t : option string) (v ps : string) (meta : FileMeta)
    (old : option FileRow.t) : FileRow.t :=
  {| FileRow.tenant_id := t;
     FileRow.vault_id := v;
     FileRow.path := ps;
     FileRow.content_hash := FileMeta.content_hash meta;
     FileRow.size := as_i64 (FileMeta.size meta);
     FileRow.mtime_ns := FileMeta.mtime_ns meta;
     FileRow.inode := as_i64 <$> FileMeta.inode meta;
     FileRow.vector_clock := vc_to_json (FileMeta.vector_clock meta);
     FileRow.deleted := bool_int (FileMeta.deleted meta);
     FileRow.deleted_at := FileMeta.deleted_at meta;
     FileRow.encryption_nonce := FileMeta.encryption_nonce meta;
     FileRow.version_id := old ≫= FileRow.version_id;
     FileRow.parent_version_id := old ≫= FileRow.parent_version_id;
     FileRow.created_at := default now (FileRow.created_at <$> old);
     FileRow.updated_at := now |}.

Lemma upserted_row now t v ps meta old :
  (∀ r, old = Some r → file_key r = (t, v, ps)) →
  upserted now t v ps meta old
  = match old with Some r => update_columns meta now r | None => new_row t v ps meta None None now end.
Proof. intros Hk. destruct old as [r|]; [|done]. by injection (Hk r eq_refl) as <- <- <-. Qed.

Lemma upsert_map now t v meta ps db :
  files_keyed db → path_as_str (FileMeta.path meta) = Ok ps →
  ∃ t', upsert_file_scoped now t v meta db = (Ok tt, set_files (λ _, t') db)
    ∧ keyed file_key t'
    ∧ table_map file_key t'
      = <[(t, v, ps) := upserted now t v ps meta (file_map db !! (t, v, ps))]> (file_map db).
Proof.
  intros Hk Hp. unfold upsert_file_scoped, st_bind, st_lift, query, execute. rewrite Hp.
  destruct (update_insert_map (update_columns meta now) (new_row t v ps meta None None now) db)
    as (t'&Ht'&Hkey&Hm); [done|done|].
  simpl in Ht'. exists t'. split; [|split; [done|]].
  - rewrite <-Ht'. by case_bool_decide.
  - rewrite Hm, upserted_row; [done|]. intros r Hr. by apply table_map_Some in Hr as [_ ?].
Qed.

Lemma write_map t v meta ver par now ps db :
  files_keyed db → path_as_str (FileMeta.path meta) = Ok ps →
  ∃ t', write_file_row t v meta ver par now db = (Ok tt, set_files (λ _, t') db)
    ∧ keyed file_key t'
    ∧ table_map file_key t'
      = <[(t, v, ps) := match file_map db !! (t, v, ps) with
                        | Some old => update_versioned meta ver par now old
                        | None => new_row t v ps meta (Some (as_i64 ver)) (Some (as_i64 par)) now
                        end]> (file_map db).
Proof.
  intros Hk Hp. unfold write_file_row, st_bind, st_lift, query, execute. rewrite Hp.
  destruct (update_insert_map (update_versioned meta ver par now)
              (new_row t v ps meta (Some (as_i64 ver)) (Some (as_i64 par)) now) db)
    as (t'&Ht'&Hkey&Hm); [done|done|].
  simpl in Ht'. exists t'. split; [|by split].
  rewrite <-Ht'. by case_bool_decide.
Qed.
End files_map.

Module MetaFilesProps.
Import MetaFiles.

(** The metadata a row read back stands for: the writer's node id is not
    stored, and version ids are the row's own. *)
Definition stored (ps : string) (ver par : option Z) (meta : FileMeta) : FileMeta :=
  FileMeta.mk ps (FileMeta.content_hash meta) (FileMeta.size meta) (FileMeta.mtime_ns meta)
    (FileMeta.inode meta) (FileMeta.vector_clock meta) (FileMeta.deleted meta)
    (FileMeta.deleted_at meta) "" (FileMeta.encryption_nonce meta) ver par.

Section roundtrip.
Context {codec : VcCodec}.

Lemma inode_roundtrip (o : option Z) :
  (∀ i, o = Some i → in_u64 i) → as_u64 <$> (as_i64 <$> o) = o.
Proof. destruct o as [i|]; intros Hi; simpl; [|done]. by rewrite as_u64_as_i64 by auto. Qed.

Lemma row_to_meta_write r (meta : FileMeta) :
  FileMeta.wf meta →
  FileRow.content_hash r = FileMeta.content_hash meta →
  FileRow.size r = as_i64 (FileMeta.size meta) →
  FileRow.mtime_ns r = FileMeta.mtime_ns meta →
  FileRow.inode r = (as_i64 <$> FileMeta.inode meta) →
  FileRow.vector_clock r = vc_to_json (FileMeta.vector_clock meta) →
  FileRow.deleted r = bool_int (FileMeta.deleted meta) →
  FileRow.deleted_at r = FileMeta.deleted_at meta →
  FileRow.encryption_nonce r = FileMeta.encryption_nonce meta →
  row_to_meta r = Ok (stored (FileRow.path r) (as_u64 <$> FileRow.version_id r)
                        (as_u64 <$> FileRow.parent_version_id r) meta).
Proof.
  intros (Hh&Hs&Hm&Hi&Hv&_) E1 E2 E3 E4 E5 E6 E7 E8. unfold row_to_meta.
  rewrite E1, E2, E3, E4, E5, E6, E7, E8. rewrite hash_of_blob_ok by done. simpl.
  rewrite as_u64_as_i64, inode_roundtrip, vc_roundtrip, int_bool_int by done. done.
Qed.

Lemma upserted_to_meta now t v ps meta old :
  FileMeta.wf meta → (∀ r, old = Some r → FileRow.path r = ps) →
  row_to_meta (upserted now t v ps meta old)
  = Ok (stored ps (as_u64 <$> (old ≫= FileRow.version_id))
          (as_u64 <$> (old ≫= FileRow.parent_version_id)) meta).
Proof.
  intros Hwf Hp. by rewrite (row_to_meta_write _ meta).
Qed.

Lemma file_map_path db k r : files_keyed db → file_map db !! k = Some r → FileRow.path r = k.2.
Proof. intros Hk Hr. apply table_map_Some in Hr as [_ <-]; [|done]. done. Qed.

Lemma get_map db t v p :
  files_keyed db →
  get_file_scoped t v p db = (transpose (row_to_meta <$> file_map db !! (t, v, p)), db).
Proof.
  intros Hk. unfold get_file_scoped, st_bind, query, st_lift. by rewrite fetch_file_map.
Qed.

Lemma in_scope_key t v r : in_scope t v r = true ↔ file_key r = (t, v, FileRow.path r).
Proof.
  unfold in_scope, is_eqb, file_key. rewrite andb_true_iff, !bool_decide_eq_true. naive_solver.
Qed.

(** The rows of a vault, each once, sorted. *)
Lemma list_map db t v :
  files_keyed db →
  ∃ rows, list_files_scoped t v db = (collect_results row_to_meta rows, db)
    ∧ (∀ r, r ∈ rows ↔ ∃ q, file_map db !! (t, v, q) = Some r)
    ∧ NoDup (FileRow.path <$> rows)
    ∧ StronglySorted (λ a b, Path.str_leb a b = true) (FileRow.path <$> rows).
Proof.
  intros Hk. exists (sort_by by_path (select (in_scope t v) (files db))). split; [done|].
  assert (∀ r, r ∈ select (in_scope t v) (files db) ↔ ∃ q, file_map db !! (t, v, q) = Some r) as Hin.
  { intros r. rewrite elem_of_select, in_scope_key. unfold file_map. setoid_rewrite table_map_Some; [|done].
    split; [intros [??]; eauto|]. intros (q&?&Hq). split; [done|]. injection Hq as <- <- <-. done. }
  split_and!.
  - intros r. by rewrite elem_of_sort_by.
  - rewrite sort_by_perm. eapply (NoDup_fmap_1 (λ q, (t, v, q))). rewrite <-list_fmap_compose.
    assert ((λ q, (t, v, q)) ∘ FileRow.path <$> select (in_scope t v) (files db)
            = file_key <$> select (in_scope t v) (files db)) as ->.
    { apply list_fmap_ext. intros i r Hi%list_elem_of_lookup_2. apply elem_of_select in Hi as [_ Hi].
      simpl. symmetry. by apply in_scope_key. }
    by apply keyed_select.
  - assert (StronglySorted (λ a b, by_path a b = true) (sort_by by_path (select (in_scope t v) (files db)))) as Hs.
    { apply sort_by_sorted; unfold by_path; eauto using Path.str_leb_total, Path.str_leb_trans. }
    revert Hs. clear. induction 1 as [|r l _ IH Hr]; simpl; constructor; [done|]. by apply Forall_fmap.
Qed.
End roundtrip.

(** C18: The file table refines a finite map from (tenant, vault, path) to
    rows, the null tenant included: with no two rows on one key, an upsert (of
    a path that is UTF-8) is an insertion of the metadata's columns that keeps
    the version columns and the creation time of a row already there, a delete
    is a deletion, a fetch is a lookup, and a listing decodes the rows of the
    tenant's vault, each once and in the order of their paths; each keeps the
    keys unique and touches no other table. *)
Theorem files_refine_map {codec : VcCodec} db now t v p ps meta :
  files_keyed db → path_as_str (FileMeta.path meta) = Ok ps →
  (∃ db', upsert_file_scoped now t v meta db = (Ok tt, db')
     ∧ files_keyed db' ∧ db' = set_files (λ _, files db') db
     ∧ file_map db' = <[(t, v, ps) := upserted now t v ps meta (file_map db !! (t, v, ps))]> (file_map db))
  ∧ (∃ db', delete_file_scoped t v p db = (Ok tt, db')
       ∧ files_keyed db' ∧ db' = set_files (λ _, files db') db
       ∧ file_map db' = delete (t, v, p) (file_map db))
  ∧ get_file_scoped t v p db = (transpose (row_to_meta <$> file_map db !! (t, v, p)), db)
  ∧ (∃ rows, list_files_scoped t v db = (collect_results row_to_meta rows, db)
       ∧ (∀ r, r ∈ rows ↔ ∃ q, file_map db !! (t, v, q) = Some r)
       ∧ NoDup (FileRow.path <$> rows)
       ∧ StronglySorted (λ a b, Path.str_leb a b = true) (FileRow.path <$> rows)).
Proof.
  intros Hk Hp. split_and!.
  - destruct (upsert_map now t v meta ps db Hk Hp) as (t'&->&Hkey&Hm).
    eexists. split; [done|]. by split_and!.
  - eexists. split; [done|]. split_and!; [by apply keyed_delete|done|].
    unfold file_map, set_files; cbn [files]. rewrite table_map_delete by done.
    apply map_eq. intros k. apply option_eq. intros r.
    rewrite map_lookup_filter_Some, lookup_delete_Some. simpl. rewrite is_file_key.
    unfold at_key. rewrite bool_decide_eq_false. split.
    + intros [Hr Hne]. split; [|done]. apply table_map_Some in Hr as [_ <-]; [|done]. done.
    + intros [Hne Hr]. split; [done|]. apply table_map_Some in Hr as [_ <-]; [|done]. congruence.
  - by apply get_map.
  - by apply list_map.
Qed.

Definition demo_meta (p : string) (b : byte) : FileMeta :=
  FileMeta.mk p (replicate 32 b) 5 7 (Some 9) {["n1" := 1]} false None "n1" None None None.

Lemma demo_meta_wf p b : FileMeta.wf (demo_meta p b).
Proof.
  unfold FileMeta.wf, demo_meta; simpl. split_and!.
  - reflexivity.
  - unfold_ints; lia.
  - unfold_ints; lia.
  - intros i [= <-]. unfold_ints; lia.
  - unfold VC.wf. rewrite map_Forall_singleton. unfold_ints; lia.
  - done.
  - done.
  - done.
Qed.

Lemma files_refine_map_witness :
  (∃ db', upsert_file_scoped 1 None "v" (demo_meta "a" x01) empty_db = (Ok tt, db')
     ∧ files_keyed db' ∧ db' = set_files (λ _, files db') empty_db
     ∧ file_map db' = <[(None, "v", "a") := upserted 1 None "v" "a" (demo_meta "a" x01)
                                             (file_map empty_db !! (None, "v", "a"))]> (file_map empty_db))
  ∧ (∃ db', delete_file_scoped None "v" "a" empty_db = (Ok tt, db')
       ∧ files_keyed db' ∧ db' = set_files (λ _, files db') empty_db
       ∧ file_map db' = delete (None, "v", "a") (file_map empty_db))
  ∧ get_file_scoped None "v" "a" empty_db
    = (transpose (row_to_meta <$> file_map empty_db !! (None, "v", "a")), empty_db).
Proof.
  destruct (files_refine_map empty_db 1 None "v" "a" "a" (demo_meta "a" x01)) as (H1&H2&H3&_);
    [apply NoDup_nil_2|vm_compute; reflexivity|]. split_and!; [exact H1|exact H2|exact H3].
Defined.

(** What is upserted is what is read back: every field of the metadata
    survives the [as i64] casts and the JSON clock, up to the path with [\]
    read as [/], the node id, which is not stored, and the version ids, which
    are the row's; entries under any other key, in particular of any other
    tenant or vault, read as before. *)
Theorem upsert_get_roundtrip {codec : VcCodec} db db' now t v ps meta :
  files_keyed db → FileMeta.wf meta → path_as_str (FileMeta.path meta) = Ok ps →
  upsert_file_scoped now t v meta db = (Ok tt, db') →
  (∃ old, old = file_map db !! (t, v, ps)
     ∧ get_file_scoped t v ps db'
       = (Ok (Some (stored ps (as_u64 <$> (old ≫= FileRow.version_id))
                      (as_u64 <$> (old ≫= FileRow.parent_version_id)) meta)), db'))
  ∧ ∀ t2 v2 p2, (t2, v2, p2) ≠ (t, v, ps) →
      (get_file_scoped t2 v2 p2 db').1 = (get_file_scoped t2 v2 p2 db).1.
Proof.
  intros Hk Hwf Hp. destruct (upsert_map now t v meta ps db Hk Hp) as (t'&->&Hkey&Hm).
  intros [= <-]. set (db' := set_files (λ _, t') db) in *.
  assert (files_keyed db') as Hk' by exact Hkey.
  assert (file_map db' = <[(t, v, ps) := upserted now t v ps meta (file_map db !! (t, v, ps))]> (file_map db))
    as Hmap by exact Hm.
  split.
  - eexists. split; [done|]. rewrite get_map, Hmap, lookup_insert_eq by done. simpl.
    rewrite upserted_to_meta; [done|done|].
    intros r Hr. by apply file_map_path in Hr.
  - intros t2 v2 p2 Hne. rewrite !get_map, Hmap, lookup_insert_ne by done. done.
Qed.

Lemma upsert_get_roundtrip_witness :
  ∃ db', upsert_file_scoped 1 None "v" (demo_meta "a\b" x01) empty_db = (Ok tt, db')
    ∧ get_file_scoped None "v" "a/b" db'
      = (Ok (Some (stored "a/b" None None (demo_meta "a\b" x01))), db').
Proof.
  destruct (upsert_file_scoped 1 None "v" (demo_meta "a\b" x01) empty_db) as [r db'] eqn:Hu.
  assert (r = Ok tt) as ->.
  { apply (f_equal fst) in Hu. etrans; [symmetry; exact Hu|]. vm_compute. reflexivity. }
  exists db'. split; [reflexivity|].
  destruct (upsert_get_roundtrip empty_db db' 1 None "v" "a/b" (demo_meta "a\b" x01)
              (NoDup_nil_2 : files_keyed empty_db) (demo_meta_wf _ _) eq_refl Hu) as [(old&Hold&Hget) _].
  rewrite Hold in Hget. exact Hget.
Defined.
End MetaFilesProps.
