(* ===== verification/MetaVersions.v ===== *)
(** * Version history, retention and the recycle bin: theorems

    Over the operations of MetaFiles: the uniqueness of file keys holds in
    every reachable database, a versioned upsert extends the history without
    collisions, pruning keeps the newest rows within the tier's limits, and
    purging trash removes only expired soft-deleted rows. *)

From stdpp Require Import prelude gmap strings sorting relations.
From Stdlib Require Import ZArith Lia Strings.Byte.
From S2P Require Import Prelude Text VectorClock Types Sql MetaDb Billing MetaFiles.

(** ** Reachable databases *)
Section reachable.
Import MetaFiles.
Context {codec : VcCodec}.

(** One call on the file tables, with any arguments and whatever result. *)
Inductive file_step (db : MetaDb) : MetaDb → Prop :=
  | step_upsert now t v m : file_step db (upsert_file_scoped now t v m db).2
  | step_upsert_versioned now now' t v m by_ ret :
      file_step db (upsert_file_scoped_versioned now now' t v m by_ ret db).2
  | step_delete t v p : file_step db (delete_file_scoped t v p db).2
  | step_prune_versions now t v p ret : file_step db (prune_file_versions now t v p ret db).2
  | step_delete_versions t v p : file_step db (delete_file_versions_for_path t v p db).2
  | step_delete_versions_tenant t : file_step db (delete_file_versions_for_tenant t db).2
  | step_prune_trash now t v ret : file_step db (prune_expired_trash now t v ret db).2
  | step_delete_trash t v p : file_step db (delete_trash_item t v p db).2
  | step_empty_trash t v : file_step db (empty_trash t v db).2
  | step_restore now t v p : file_step db (mark_trash_restored now t v p db).2.

Lemma upsert_keyed now t v m db :
  files_keyed db → files_keyed (upsert_file_scoped now t v m db).2.
Proof.
  intros Hk. destruct (path_as_str (FileMeta.path m)) as [ps|e] eqn:Hp.
  - destruct (upsert_map now t v m ps db Hk Hp) as (t'&->&Hkey&_). done.
  - unfold upsert_file_scoped, st_bind, st_lift. by rewrite Hp.
Qed.

Lemma write_keyed t v m ver par now db :
  files_keyed db → files_keyed (write_file_row t v m ver par now db).2.
Proof.
  intros Hk. destruct (path_as_str (FileMeta.path m)) as [ps|e] eqn:Hp.
  - destruct (write_map t v m ver par now ps db Hk Hp) as (t'&->&Hkey&_). done.
  - unfold write_file_row, st_bind, st_lift. by rewrite Hp.
Qed.

Lemma insert_version_files t v p ver par m at_ by_ db :
  files (insert_file_version t v p ver par m at_ by_ db).2 = files db.
Proof. unfold insert_file_version. by destruct (insert_row _ _ _). Qed.

Lemma next_ids_files now t v ps m by_ existing db :
  files (next_version_ids now t v ps m by_ existing db).2 = files db.
Proof.
  unfold next_version_ids. destruct existing as [[prior pv]|]; [|done]. destruct (_ && _); [|done].
  unfold st_bind. pose proof (insert_version_files t v ps (default 1 pv)
    (default 0 (FileMeta.parent_version_id prior)) prior now (Some by_) db) as Hf.
  by destruct (insert_file_version _ _ _ _ _ _ _ _ _) as [[u|e] db1].
Qed.

Lemma delete_files_keyed p db : files_keyed db → files_keyed (delete_files p db).2.
Proof. intros Hk. apply keyed_delete, Hk. Qed.

Lemma versioned_keyed now now' t v m by_ ret db :
  files_keyed db → files_keyed (upsert_file_scoped_versioned now now' t v m by_ ret db).2.
Proof.
  intros Hk. unfold upsert_file_scoped_versioned.
  unfold st_bind at 1, st_lift. destruct (path_as_str _) as [ps|e]; [|done].
  unfold st_bind at 1. unfold get_file_row_scoped, st_bind at 1, query, st_lift.
  destruct (transpose _) as [existing|e]; [|done].
  unfold st_bind at 1.
  pose proof (next_ids_files now t v ps m by_ existing db) as Hf.
  destruct (next_version_ids _ _ _ _ _ _ _ _) as [[ids|e] db1]; simpl in Hf;
    (assert (files_keyed db1) as Hk1 by (unfold files_keyed; by rewrite Hf)); [|exact Hk1].
  unfold st_bind at 1.
  pose proof (write_keyed t v m ids.1 ids.2 now db1 Hk1) as Hk2.
  destruct (write_file_row _ _ _ _ _ _ _) as [[u|e] db2]; [|exact Hk2]. exact Hk2.
Qed.

Lemma file_step_keyed db db' : file_step db db' → files_keyed db → files_keyed db'.
Proof.
  intros [] Hk; try (by apply keyed_delete); try exact Hk.
  - by apply upsert_keyed.
  - by apply versioned_keyed.
  - unfold mark_trash_restored. unfold st_bind at 1. rewrite MetaFilesProps.get_map by done.
    destruct (transpose _) as [[meta|]|]; [|exact Hk..].
    destruct (negb _); [exact Hk|]. unfold st_bind.
    pose proof (upsert_keyed now t v (FileMeta.set_deleted false None meta) db Hk) as Hk'.
    by destruct (upsert_file_scoped _ _ _ _ _) as [[]].
Qed.
End reachable.

(** ** Version history *)
Section history.
Import MetaFiles.
Context {codec : VcCodec}.

Definition version_key (h : VersionRow.t) : fkey :=
  (VersionRow.tenant_id h, VersionRow.vault_id h, VersionRow.path h).

(** The version a live row stands for; a row written before versioning
    counts as version 1. *)
Definition live_version (r : FileRow.t) : Z := default 1 (as_u64 <$> FileRow.version_id r).

(** Every history row belongs to a file in the index and is older than its
    live version; no version is recorded twice. *)
Definition history_ok (db : MetaDb) : Prop :=
  files_keyed db
  ∧ (∀ k r, file_map db !! k = Some r →
       hash32 (FileRow.content_hash r) ∧ 1 ≤ live_version r ≤ i64_max)
  ∧ (∀ h, h ∈ file_versions db →
       ∃ r, file_map db !! version_key h = Some r ∧ VersionRow.version_id h < live_version r)
  ∧ NoDup ((λ h, (version_key h, VersionRow.version_id h)) <$> file_versions db).

Lemma has_version_key t v p h : has_version t v p h = true ↔ version_key h = (t, v, p).
Proof.
  unfold has_version, is_eqb, version_key. rewrite !andb_true_iff, !bool_decide_eq_true. naive_solver.
Qed.

Lemma version_clash_key h s :
  version_clash h s = true →
  version_key h = version_key s ∧ VersionRow.version_id h = VersionRow.version_id s.
Proof.
  unfold version_clash, version_key, uniq_eqb.
  destruct (VersionRow.tenant_id h), (VersionRow.tenant_id s); simpl; try done.
  rewrite !andb_true_iff, !bool_decide_eq_true. naive_solver congruence.
Qed.

Lemma history_ok_fewer p db :
  history_ok db → history_ok (set_file_versions (delete_where p) db).
Proof.
  intros (H1&H2&H3&H4). split_and!; [exact H1|exact H2| |].
  - intros h [Hh _]%elem_of_delete_where. exact (H3 h Hh).
  - by apply NoDup_fmap_delete.
Qed.

(** Rows of the index never lose their history when one entry moves to a
    version that is at least as new. *)
Lemma history_ok_write db db' k r' :
  history_ok db → files_keyed db' → file_map db' = <[k := r']> (file_map db) →
  hash32 (FileRow.content_hash r') → 1 ≤ live_version r' ≤ i64_max →
  NoDup ((λ h, (version_key h, VersionRow.version_id h)) <$> file_versions db') →
  (∀ h, h ∈ file_versions db' → h ∈ file_versions db ∨ version_key h = k) →
  (∀ h, h ∈ file_versions db' → version_key h = k → VersionRow.version_id h < live_version r') →
  history_ok db'.
Proof.
  intros (H1&H2&H3&H4) Hk Hm Hh Hv Hnd Hold Hnew. split_and!; [done| | |done].
  - intros k' r. rewrite Hm, lookup_insert_Some. intros [[<- <-]|[_ Hr]]; [done|].
    by eapply H2.
  - intros h Hin. rewrite Hm. destruct (decide (version_key h = k)) as [Hke|Hke].
    + rewrite Hke, lookup_insert_eq. exists r'. split; [done|]. by apply Hnew.
    + rewrite lookup_insert_ne by done. destruct (Hold h Hin); [|done]. by apply H3.
Qed.

Definition changed (r : FileRow.t) (meta : FileMeta) : bool :=
  bool_decide (FileRow.content_hash r ≠ FileMeta.content_hash meta)
  && negb (int_bool (FileRow.deleted r)).

(** The history row a superseded live row leaves; columns are 64-bit. *)
Definition superseded (k : fkey) (r : FileRow.t) (now : Z) (by_ : string) (h : VersionRow.t) : Prop :=
  version_key h = k ∧ VersionRow.version_id h = live_version r
  ∧ VersionRow.content_hash h = FileRow.content_hash r
  ∧ (in_i64 (FileRow.size r) → VersionRow.size h = FileRow.size r)
  ∧ VersionRow.mtime_ns h = FileRow.mtime_ns r
  ∧ VersionRow.created_at h = now ∧ VersionRow.created_by h = Some by_.

(** The row of a versioned upsert. *)
Definition versioned (k : fkey) (now : Z) (meta : FileMeta) (old : option FileRow.t) (r : FileRow.t) : Prop :=
  file_key r = k ∧ FileRow.content_hash r = FileMeta.content_hash meta
  ∧ FileRow.size r = as_i64 (FileMeta.size meta) ∧ FileRow.mtime_ns r = FileMeta.mtime_ns meta
  ∧ int_bool (FileRow.deleted r) = FileMeta.deleted meta
  ∧ FileRow.created_at r = default now (FileRow.created_at <$> old) ∧ FileRow.updated_at r = now.

Lemma row_to_meta_hash r : hash32 (FileRow.content_hash r) →
  ∃ m, row_to_meta r = Ok m ∧ FileMeta.content_hash m = FileRow.content_hash r
     ∧ FileMeta.deleted m = int_bool (FileRow.deleted r)
     ∧ FileMeta.size m = as_u64 (FileRow.size r) ∧ FileMeta.mtime_ns m = FileRow.mtime_ns r.
Proof. intros Hh. unfold row_to_meta. rewrite hash_of_blob_ok by done. simpl. eexists. by split_and!. Qed.

Lemma live_version_i64 z r :
  1 ≤ z ≤ i64_max → FileRow.version_id r = Some (as_i64 z) → live_version r = z.
Proof.
  intros Hz Hr. unfold live_version. rewrite Hr. simpl. apply as_u64_as_i64. unfold_ints. lia.
Qed.

(** The version ids the upsert picks, with the history it leaves. *)
Lemma next_ids_spec now t v ps meta by_ db :
  history_ok db →
  let k := (t, v, ps) in
  (∀ r, file_map db !! k = Some r → live_version r < i64_max) →
  ∃ existing ver par hist,
    get_file_row_scoped t v ps db = (Ok existing, db)
    ∧ next_version_ids now t v ps meta by_ existing db
      = (Ok (ver, par), set_file_versions (λ _, hist) db)
    ∧ 1 ≤ ver ≤ i64_max
    ∧ NoDup ((λ h, (version_key h, VersionRow.version_id h)) <$> hist)
    ∧ (∀ h, h ∈ hist → h ∈ file_versions db ∨ version_key h = k)
    ∧ (∀ h, h ∈ hist → version_key h = k → VersionRow.version_id h < ver)
    ∧ match file_map db !! k with
      | None => ver = 1 ∧ hist = file_versions db
      | Some r =>
          if changed r meta
          then ver = live_version r + 1 ∧ ∃ h, superseded k r now by_ h ∧ hist = file_versions db ++ [h]
          else ver = live_version r ∧ hist = file_versions db
      end.
Proof.
  intros (H1&H2&H3&H4) k Hmax. unfold get_file_row_scoped, st_bind, query, st_lift.
  rewrite fetch_file_map by done. fold k. destruct (file_map db !! k) as [r|] eqn:Hr; simpl.
  2: { exists None, 1, 0, (file_versions db). split_and!; try done; [by destruct db|by auto|].
       intros h Hh Hk. destruct (H3 h Hh) as (r&Hrk&_). by rewrite Hk, Hr in Hrk. }
  destruct (H2 k r Hr) as [Hhash Hver]. destruct (row_to_meta_hash r Hhash) as (m&Hm&Hmh&Hmd&Hms&Hmt).
  rewrite Hm. simpl.
  assert (∀ h, h ∈ file_versions db → version_key h = k → VersionRow.version_id h < live_version r) as Hlt.
  { intros h Hh Hk. destruct (H3 h Hh) as (r2&Hr2&?). rewrite Hk, Hr in Hr2. by simplify_eq. }
  specialize (Hmax r eq_refl). fold (live_version r).
  exists (Some (m, as_u64 <$> FileRow.version_id r)). unfold next_version_ids.
  fold (live_version r). unfold changed. rewrite Hmh, Hmd.
  destruct (_ && _) eqn:Hch.
  2: { exists (live_version r), (default 0 (FileMeta.parent_version_id m)), (file_versions db).
       split_and!; try done; try lia; [by destruct db|by auto]. }
  unfold st_bind, insert_file_version. rewrite insert_row_some.
  2: { intros s Hs. apply not_true_is_false. intros [Hk Hv]%version_clash_key.
       assert (version_key s = k) as Hsk by (by rewrite <-Hk).
       specialize (Hlt s Hs Hsk). simpl in Hv. rewrite as_i64_id in Hv by (unfold_ints; lia). lia. }
  rewrite (as_u64_id (live_version r + 1)) by (unfold_ints; lia).
  exists (live_version r + 1), (live_version r). eexists. split; [done|]. split; [done|].
  rewrite (as_i64_id (live_version r)) by (unfold_ints; lia). split_and!; try lia; try done.
  - rewrite fmap_app. apply NoDup_app. split_and!; [done| |apply NoDup_singleton].
    intros x (h&->&Hh)%list_elem_of_fmap Hin%list_elem_of_singleton.
    assert (version_key h = k) as Hk by exact (f_equal fst Hin).
    assert (VersionRow.version_id h = live_version r) by exact (f_equal snd Hin).
    specialize (Hlt h Hh Hk). lia.
  - intros h [Hh|Hh]%elem_of_app; [by left|right]. apply list_elem_of_singleton in Hh as ->. done.
  - intros h [Hh|Hh]%elem_of_app Hk; [specialize (Hlt h Hh Hk); lia|].
    apply list_elem_of_singleton in Hh as ->. simpl. lia.
  - eexists. split; [|done]. unfold superseded; simpl. split_and!; try done.
    intros Hs. by rewrite Hms, as_i64_as_u64, as_i64_id.
Qed.
End history.

Module MetaVersionsProps.
Import MetaFiles.

(** C20: No sequence of index operations, failing ones included, ever leaves
    two rows for one (tenant, vault, path), although SQLite's [UNIQUE] does
    not see the null tenant. *)
Theorem reachable_keyed {codec : VcCodec} db :
  rtc file_step empty_db db → files_keyed db.
Proof.
  intros Hr. assert (files_keyed empty_db) as H0 by apply NoDup_nil_2.
  revert H0. induction Hr as [|x y z Hxy _ IH]; [done|].
  intros Hx. by eapply IH, file_step_keyed.
Qed.

Lemma reachable_keyed_witness :
  let db := (upsert_file_scoped 1 None "v" (MetaFilesProps.demo_meta "a" x02)
               (upsert_file_scoped 1 None "v" (MetaFilesProps.demo_meta "a" x01) empty_db).2).2 in
  length (files db) = 1%nat ∧ files_keyed db.
Proof.
  split; [reflexivity|]. apply reachable_keyed.
  eapply rtc_l; [apply (step_upsert _ 1 None "v" (MetaFilesProps.demo_meta "a" x01))|].
  eapply rtc_l; [apply (step_upsert _ 1 None "v" (MetaFilesProps.demo_meta "a" x02))|].
  apply rtc_refl.
Defined.

Lemma newest_total x y : newest_first x y = false → newest_first y x = true.
Proof. unfold newest_first. rewrite bool_decide_eq_false, bool_decide_eq_true. lia. Qed.
Lemma newest_trans x y z :
  newest_first x y = true → newest_first y z = true → newest_first x z = true.
Proof. unfold newest_first. rewrite !bool_decide_eq_true. lia. Qed.

Lemma kept_newest t v p limit l r s :
  r ∈ l → has_version t v p r = true → VersionRow.version_id r ∉ kept_versions t v p limit l →
  VersionRow.version_id s ∈ kept_versions t v p limit l →
  VersionRow.version_id r < VersionRow.version_id s.
Proof.
  intros Hr Hp Hnot Hs. unfold kept_versions in *.
  set (sorted := sort_by newest_first (select (has_version t v p) l)) in *.
  assert (r ∈ sorted) as Hin by (unfold sorted; rewrite elem_of_sort_by; by apply elem_of_select).
  pose proof (sort_by_sorted newest_first newest_total newest_trans
                (select (has_version t v p) l)) as Hsort. fold sorted in Hsort.
  rewrite <-(take_drop (Z.to_nat limit) sorted) in Hin, Hsort.
  apply elem_of_app in Hin as [Hin|Hin].
  { destruct Hnot. by apply list_elem_of_fmap_2. }
  apply list_elem_of_fmap in Hs as (s'&Hs'&Hst).
  assert (VersionRow.version_id r ≠ VersionRow.version_id s).
  { intros Heq. apply Hnot. rewrite Heq, Hs'. by apply list_elem_of_fmap_2. }
  pose proof (StronglySorted_app_1_elem_of _ _ _ _ _ Hsort Hst Hin) as Hle.
  apply bool_decide_eq_true in Hle. lia.
Qed.

(** Pruning one path's history keeps at most the tier's number of rows,
    drops every row older than the cutoff, never drops a recent row that is
    newer than one it keeps, and leaves the history of every other path as
    it was. *)
Theorem prune_keeps_newest cutoff t v p limit l :
  0 ≤ limit →
  NoDup ((λ h, (version_key h, VersionRow.version_id h)) <$> l) →
  let l' := prune_rows cutoff t v p limit l in
  Z.of_nat (affected (has_version t v p) l') ≤ limit
  ∧ (∀ r, r ∈ l' → has_version t v p r = true → cutoff ≤ VersionRow.created_at r)
  ∧ (∀ r s, r ∈ l → r ∉ l' → s ∈ l' → has_version t v p r = true → has_version t v p s = true →
       cutoff ≤ VersionRow.created_at r → VersionRow.version_id r < VersionRow.version_id s)
  ∧ (∀ r, has_version t v p r = false → r ∈ l' ↔ r ∈ l).
Proof.
  intros Hlim Hnd l'.
  assert (∀ r, r ∈ l' ↔ r ∈ l ∧ (has_version t v p r = false
            ∨ (cutoff ≤ VersionRow.created_at r
               ∧ VersionRow.version_id r ∈ kept_versions t v p limit l))) as Hin.
  { intros r. unfold l', prune_rows. rewrite elem_of_delete_where.
    rewrite andb_false_iff, orb_false_iff, bool_decide_eq_false, negb_false_iff, bool_decide_eq_true.
    rewrite Z.nlt_ge. done. }
  split_and!.
  - assert (length (VersionRow.version_id <$> select (has_version t v p) l')
            ≤ length (kept_versions t v p limit l))%nat as Hle.
    { apply submseteq_length, NoDup_submseteq.
      - assert (NoDup ((λ h, (version_key h, VersionRow.version_id h)) <$> select (has_version t v p) l'))
          as Hnd'.
        { assert (select (has_version t v p) l' = delete_where (λ r, negb (has_version t v p r)) l') as ->.
          { unfold select, delete_where. apply List.filter_ext. intros. by rewrite negb_involutive. }
          unfold l', prune_rows. by do 2 apply NoDup_fmap_delete. }
        apply NoDup_fmap_2_strong; [|by apply NoDup_fmap_1 in Hnd'].
        intros x y [Hx Hx']%elem_of_select [Hy Hy']%elem_of_select Heq.
        apply has_version_key in Hx', Hy'.
        eapply (NoDup_fmap_inj_elem _ _ _ _ Hnd'); [by apply elem_of_select; split; [|apply has_version_key]..|].
        simpl. congruence.
      - intros x (h&->&[Hh Hv]%elem_of_select)%list_elem_of_fmap.
        apply Hin in Hh as [_ [?|[_ ?]]]; [congruence|done]. }
    rewrite length_fmap in Hle. unfold affected. unfold kept_versions in Hle.
    rewrite length_fmap, length_take in Hle. lia.
  - intros r [_ [?|[? _]]]%Hin Hv; [congruence|done].
  - intros r s Hr Hnr Hs Hvr Hvs Hage.
    apply (kept_newest t v p limit l); try done.
    + intros Hk. apply Hnr, Hin. auto.
    + apply Hin in Hs as [_ [?|[_ ?]]]; [congruence|done].
  - intros r Hv. rewrite Hin. naive_solver.
Qed.

Definition demo_version (n at_ : Z) : VersionRow.t :=
  VersionRow.mk None "v" "a" n (n - 1) zero_hash 1 1 at_ None.

Lemma prune_keeps_newest_witness :
  let l := [demo_version 1 50; demo_version 2 100; demo_version 3 110; demo_version 4 120] in
  (VersionRow.version_id <$> prune_rows 90 None "v" "a" 2 l) = [3; 4]
  ∧ Z.of_nat (affected (has_version None "v" "a") (prune_rows 90 None "v" "a" 2 l)) ≤ 2.
Proof.
  split; [vm_compute; reflexivity|].
  apply (prune_keeps_newest 90 None "v" "a" 2); [lia|].
  apply (bool_decide_unpack _). vm_compute. exact I.
Defined.

(** What pruning a path's history to a retention may do to it. *)
Definition pruned (cutoff : Z) (k : fkey) (limit : Z) (l l' : list VersionRow.t) : Prop :=
  (∀ h, h ∈ l' → h ∈ l) ∧ (∀ h, h ∈ l → version_key h ≠ k → h ∈ l')
  ∧ (∀ h, h ∈ l' → version_key h = k → cutoff ≤ VersionRow.created_at h)
  ∧ (∀ h, h ∈ l → h ∉ l' → cutoff ≤ VersionRow.created_at h →
       limit ≤ Z.of_nat (length (select (λ s, bool_decide (version_key s = k)
                            && bool_decide (VersionRow.version_id h < VersionRow.version_id s)) l)))
  ∧ (0 ≤ limit → Z.of_nat (length (select (λ s, bool_decide (version_key s = k)) l')) ≤ limit).

Lemma select_select {A} (q q' : A → bool) (l : list A) : select q (select q' l) = select (λ x, q' x && q x) l.
Proof.
  unfold select. induction l as [|x l IH]; simpl; [done|]. destruct (q' x); simpl; [|done].
  destruct (q x); by rewrite IH.
Qed.

Lemma select_perm {A} (q : A → bool) (l l' : list A) : l ≡ₚ l' → select q l ≡ₚ select q l'.
Proof.
  unfold select. induction 1 as [|x l l' _ IH|x y l|l l' l'' _ IH1 _ IH2]; simpl; [done|..].
  - destruct (q x); by rewrite IH.
  - destruct (q x), (q y); try done. constructor.
  - by etrans.
Qed.

Lemma select_all {A} (q : A → bool) (l : list A) : Forall (λ x, q x = true) l → select q l = l.
Proof. unfold select. induction 1 as [|x l Hx _ IH]; simpl; [done|]. by rewrite Hx, IH. Qed.

(** A row the limit cut off has as many newer ones. *)
Lemma cut_off t v p limit l h :
  h ∈ l → has_version t v p h = true → VersionRow.version_id h ∉ kept_versions t v p limit l →
  limit ≤ Z.of_nat (length (select (λ s, has_version t v p s
                       && bool_decide (VersionRow.version_id h < VersionRow.version_id s)) l)).
Proof.
  intros Hh Hv Hk. rewrite <-(select_select (λ s, bool_decide (VersionRow.version_id h < VersionRow.version_id s))).
  set (sorted := sort_by newest_first (select (has_version t v p) l)).
  rewrite <-(select_perm _ sorted) by (apply sort_by_perm).
  assert (h ∈ drop (Z.to_nat limit) sorted) as Hd.
  { assert (h ∈ sorted) as Hin by (unfold sorted; rewrite elem_of_sort_by; by apply elem_of_select).
    rewrite <-(take_drop (Z.to_nat limit) sorted) in Hin. apply elem_of_app in Hin as [Hin|]; [|done].
    destruct Hk. by apply list_elem_of_fmap_2. }
  assert (Z.to_nat limit < length sorted)%nat as Hlen.
  { apply list_elem_of_lookup in Hd as [i Hi]. apply lookup_lt_Some in Hi. rewrite length_drop in Hi. lia. }
  rewrite <-(take_drop (Z.to_nat limit) sorted). unfold select. rewrite List.filter_app, length_app.
  fold (select (λ s, bool_decide (VersionRow.version_id h < VersionRow.version_id s)) (take (Z.to_nat limit) sorted)).
  rewrite select_all, length_take; [lia|]. apply Forall_forall. intros s Hs. apply bool_decide_eq_true_2.
  apply (kept_newest t v p limit l); try done. by apply list_elem_of_fmap_2.
Qed.

Lemma prune_rows_pruned cutoff t v p limit l :
  NoDup ((λ h, (version_key h, VersionRow.version_id h)) <$> l) →
  pruned cutoff (t, v, p) limit l (prune_rows cutoff t v p limit l).
Proof.
  intros Hnd.
  assert (∀ h, has_version t v p h = bool_decide (version_key h = (t, v, p))) as Hkey.
  { intros h. apply eq_true_iff_eq. by rewrite has_version_key, bool_decide_eq_true. }
  assert (∀ h, h ∈ prune_rows cutoff t v p limit l ↔ h ∈ l ∧ (version_key h ≠ (t, v, p)
            ∨ (cutoff ≤ VersionRow.created_at h ∧ VersionRow.version_id h ∈ kept_versions t v p limit l))) as Hin.
  { intros h. unfold prune_rows. rewrite elem_of_delete_where, andb_false_iff, orb_false_iff, Hkey.
    by rewrite !bool_decide_eq_false, negb_false_iff, bool_decide_eq_true, Z.nlt_ge. }
  split_and!.
  - by intros h [? _]%Hin.
  - intros h Hh Hne. apply Hin. auto.
  - intros h [_ [?|[? _]]]%Hin Hk; [congruence|done].
  - intros h Hh Hno Hage. destruct (decide (version_key h = (t, v, p))) as [Hk|Hk];
      [|destruct Hno; apply Hin; by auto].
    assert (VersionRow.version_id h ∉ kept_versions t v p limit l) as Hcut.
    { intros H. apply Hno, Hin. auto. }
    etrans; [apply (cut_off t v p limit l h); [done|by apply has_version_key|done]|].
    apply Z.eq_le_incl. do 2 f_equal. apply select_ext. intros s. by rewrite Hkey.
  - intros Hlim. destruct (prune_keeps_newest cutoff t v p limit l Hlim Hnd) as [Hn _].
    etrans; [|exact Hn]. apply Z.eq_le_incl. unfold affected. do 2 f_equal. apply select_ext. intros s. by rewrite Hkey.
Qed.

(** C19: On a consistent index a versioned upsert (of a UTF-8 path, with a
    32-byte digest, below the last version number) always succeeds and keeps it
    consistent. The path's row gets the new digest, size, time and deletion
    flag, and keeps its creation time; no other file is touched. A new path
    becomes version 1; a live file whose content changes moves to the next
    version, and its old digest, size, time and version are appended to the
    history, under the caller's name; anything else keeps its version. The
    history is then pruned to the retention: it loses only rows of this path,
    the ones older than the cutoff and, of the path's rows, all but the newest
    up to the limit. *)
Theorem versioned_upsert_history {codec : VcCodec} now now' t v ps meta by_ ret db :
  history_ok db → path_as_str (FileMeta.path meta) = Ok ps →
  hash32 (FileMeta.content_hash meta) →
  (∀ r, file_map db !! (t, v, ps) = Some r → live_version r < i64_max) →
  ∃ ver db' hist,
    upsert_file_scoped_versioned now now' t v meta by_ ret db = (Ok ver, db')
    ∧ history_ok db'
    ∧ (∃ r', file_map db' = <[(t, v, ps) := r']> (file_map db) ∧ live_version r' = ver
         ∧ versioned (t, v, ps) now meta (file_map db !! (t, v, ps)) r')
    ∧ pruned (as_i64 (now' - VersionRetention.max_age_secs ret)) (t, v, ps)
        (VersionRetention.max_versions ret) hist (file_versions db')
    ∧ match file_map db !! (t, v, ps) with
      | None => ver = 1 ∧ hist = file_versions db
      | Some r =>
          if changed r meta
          then ver = live_version r + 1
               ∧ ∃ h, superseded (t, v, ps) r now by_ h ∧ hist = file_versions db ++ [h]
          else ver = live_version r ∧ hist = file_versions db
      end.
Proof.
  intros Hok Hp Hh Hmax.
  destruct (next_ids_spec now t v ps meta by_ db Hok Hmax)
    as (existing&ver&par&hist&Hget&Hids&Hver&Hnd&Hold&Hlt&Hcase).
  unfold upsert_file_scoped_versioned. unfold st_bind at 1, st_lift. rewrite Hp.
  unfold st_bind at 1. rewrite Hget. unfold st_bind at 1. rewrite Hids. cbn [fst snd].
  set (db1 := set_file_versions (λ _, hist) db).
  assert (files_keyed db1) as Hk1 by exact (proj1 Hok).
  destruct (write_map t v meta ver par now ps db1 Hk1 Hp) as (t'&Hw&Hkey&Hm).
  unfold st_bind at 1. rewrite Hw. unfold st_bind, prune_file_versions, execute, st_ret.
  set (db2 := set_files (λ _, t') db1) in *.
  assert (∃ r', table_map file_key t' = <[(t, v, ps) := r']> (file_map db)
            ∧ FileRow.version_id r' = Some (as_i64 ver)
            ∧ versioned (t, v, ps) now meta (file_map db !! (t, v, ps)) r') as (r'&Hr'&Hrv&Hvers).
  { rewrite Hm. change (file_map db1) with (file_map db). unfold versioned.
    destruct (file_map db !! (t, v, ps)) as [old|] eqn:Hold0; eexists; split_and!;
      try done; try apply int_bool_int. by apply table_map_Some in Hold0 as [_ ?]; [|exact (proj1 Hok)]. }
  pose proof Hvers as (_&Hrh&_).
  assert (live_version r' = ver) as Hlive by (by apply live_version_i64).
  assert (history_ok db2) as Hok2.
  { apply (history_ok_write db db2 (t, v, ps) r'); try done.
    - by rewrite Hrh.
    - by rewrite Hlive.
    - by rewrite Hlive. }
  eexists ver, _, hist. split; [done|]. split_and!; [by apply history_ok_fewer| | |done].
  - exists r'. by split_and!.
  - by apply prune_rows_pruned.
Qed.

Definition demo_db1 : MetaDb :=
  (upsert_file_scoped_versioned (codec:=BinaryCodec.codec) 10 10 (Some "t") "v"
     (MetaFilesProps.demo_meta "a" x01) "n1" (PlanTier.version_retention PlanTier.Free) empty_db).2.

Lemma demo_db1_ok : history_ok demo_db1.
Proof.
  assert (history_ok empty_db) as H0.
  { split_and!; [apply NoDup_nil_2|done|set_solver|apply NoDup_nil_2]. }
  set (r := new_row (Some "t") "v" "a" (MetaFilesProps.demo_meta "a" x01)
              (Some (as_i64 1)) (Some (as_i64 0)) 10).
  apply (history_ok_write empty_db demo_db1 (Some "t", "v", "a") r); try done.
  - by apply NoDup_singleton.
  - apply NoDup_nil_2.
  - intros h Hh. change (file_versions demo_db1) with (@nil VersionRow.t) in Hh. set_solver.
  - intros h Hh. change (file_versions demo_db1) with (@nil VersionRow.t) in Hh. set_solver.
Qed.

Lemma versioned_upsert_history_witness :
  ∃ ver db' hist,
    upsert_file_scoped_versioned (codec:=BinaryCodec.codec) 20 20 (Some "t") "v"
      (MetaFilesProps.demo_meta "a" x02) "n1" (PlanTier.version_retention PlanTier.Free) demo_db1
      = (Ok ver, db')
    ∧ history_ok db' ∧ ver = 2
    ∧ pruned (as_i64 (20 - 7 * 24 * 3600)) (Some "t", "v", "a") 5 hist (file_versions db')
    ∧ ∃ h, hist = [h] ∧ VersionRow.size h = 5 ∧ VersionRow.version_id h = 1.
Proof.
  destruct (versioned_upsert_history 20 20 (Some "t") "v" "a" (MetaFilesProps.demo_meta "a" x02)
              "n1" (PlanTier.version_retention PlanTier.Free) demo_db1 demo_db1_ok
              eq_refl eq_refl) as (ver&db'&hist&H1&H2&_&H3&H4).
  { intros r Hr. vm_compute in Hr. injection Hr as <-. vm_compute. reflexivity. }
  exists ver, db', hist. split; [exact H1|]. split; [exact H2|].
  assert (∃ r, file_map demo_db1 !! (Some "t", "v", "a") = Some r ∧ changed r (MetaFilesProps.demo_meta "a" x02) = true
            ∧ live_version r = 1 ∧ FileRow.size r = 5) as (r&Hr&Hc&Hl&Hs).
  { eexists. split; [vm_compute; reflexivity|]. split_and!; vm_compute; reflexivity. }
  rewrite Hr, Hc in H4. destruct H4 as (Hv&h&(_&Hhv&_&Hsz&_)&Hh).
  split; [lia|]. split; [exact H3|]. exists h. split; [rewrite Hh; vm_compute; reflexivity|].
  rewrite Hsz, Hhv, Hl, Hs; [done|]. rewrite Hs. unfold_ints. lia.
Defined.

(** Emptying, pruning or purging the recycle bin removes exactly the
    soft-deleted rows it names (for a prune, those whose deletion time is
    before the cutoff), reports their number, and keeps every live file and
    every row of another vault or tenant. *)
Theorem trash_purge_exact now t v p ret db :
  (∃ db', prune_expired_trash now t v ret db
          = (Ok (as_u32 (Z.of_nat (affected (expired t v (as_i64 (now - TrashRetention.max_age_secs ret)))
                                      (files db)))), db')
     ∧ (∀ r, r ∈ files db' ↔ r ∈ files db
          ∧ ¬ (FileRow.tenant_id r = t ∧ FileRow.vault_id r = v ∧ FileRow.deleted r = 1
               ∧ ∃ d, FileRow.deleted_at r = Some d
                   ∧ d < as_i64 (now - TrashRetention.max_age_secs ret))))
  ∧ (∃ n db', empty_trash t v db = (Ok n, db')
       ∧ (∀ r, r ∈ files db' ↔ r ∈ files db
            ∧ ¬ (FileRow.tenant_id r = t ∧ FileRow.vault_id r = v ∧ FileRow.deleted r = 1)))
  ∧ (∃ b db', delete_trash_item t v p db = (Ok b, db')
       ∧ (∀ r, r ∈ files db' ↔ r ∈ files db
            ∧ ¬ (file_key r = (t, v, p) ∧ FileRow.deleted r = 1))
       ∧ (b = true ↔ ∃ r, r ∈ files db ∧ file_key r = (t, v, p) ∧ FileRow.deleted r = 1)).
Proof.
  assert (∀ (q : FileRow.t → bool) (P : FileRow.t → Prop),
            (∀ r, q r = true ↔ P r) → ∀ r, r ∈ delete_where q (files db) ↔ r ∈ files db ∧ ¬ P r) as Hdel.
  { intros q P Hq r. rewrite elem_of_delete_where, <-Hq. by rewrite not_true_iff_false. }
  assert (∀ r, in_trash t v r = true ↔
            FileRow.tenant_id r = t ∧ FileRow.vault_id r = v ∧ FileRow.deleted r = 1) as Htr.
  { intros r. unfold in_trash, in_scope, is_eqb. rewrite !andb_true_iff, !bool_decide_eq_true. tauto. }
  split_and!.
  - eexists. split; [done|]. apply (Hdel (expired _ _ _)). intros r. unfold expired.
    rewrite andb_true_iff, Htr. destruct (FileRow.deleted_at r) as [d|].
    + rewrite bool_decide_eq_true. naive_solver.
    + naive_solver.
  - eexists _, _. split; [done|]. by apply (Hdel (in_trash t v)).
  - assert (∀ r, is_file t v p r && bool_decide (FileRow.deleted r = 1) = true ↔
              file_key r = (t, v, p) ∧ FileRow.deleted r = 1) as Hq.
    { intros r. rewrite andb_true_iff, is_file_key. unfold at_key. by rewrite !bool_decide_eq_true. }
    eexists _, _. split; [done|]. split; [by apply (Hdel (λ r, is_file t v p r && _))|].
    rewrite bool_decide_eq_true. setoid_rewrite <-Hq.
    set (n := affected _ _). split.
    + intros Hn. destruct (select (λ r, is_file t v p r && bool_decide (FileRow.deleted r = 1)) (files db))
        as [|r l] eqn:Hs; [unfold n, affected in Hn; rewrite Hs in Hn; simpl in Hn; lia|].
      assert (r ∈ select (λ r, is_file t v p r && bool_decide (FileRow.deleted r = 1)) (files db))
        as ?%elem_of_select by (rewrite Hs; constructor). eauto.
    + intros (r&Hr&Hp). destruct (decide (n = 0%nat)) as [H0|]; [|lia].
      unfold n in H0. rewrite affected_0 in H0. by rewrite H0 in Hp.
Qed.

(** ** Purging loses the version counter

    Removing a trashed row leaves its history behind; a file created again at
    the path restarts at version 1 and its first change tries to record
    version 1 a second time. *)
Definition demo_upsert (b : byte) (deleted : bool) (db : MetaDb) : result Z MetaDbError * MetaDb :=
  upsert_file_scoped_versioned (codec:=BinaryCodec.codec) 10 10 (Some "t") "v"
    (FileMeta.set_deleted deleted (if deleted then Some 10 else None) (MetaFilesProps.demo_meta "a" b))
    "n1" (PlanTier.version_retention PlanTier.Free) db.

(** Create, change, delete, empty the trash, create again. *)
Definition purged_db : MetaDb :=
  let db := (demo_upsert x01 false empty_db).2 in
  let db := (demo_upsert x02 false db).2 in
  let db := (demo_upsert x02 true db).2 in
  let db := (empty_trash (Some "t") "v" db).2 in
  (demo_upsert x03 false db).2.

(** After a path is created, changed, deleted, purged from the trash and
    created again, the next change of its content is refused by the
    uniqueness of versions and the index keeps the old content. *)
Theorem purge_breaks_versioning :
  (demo_upsert x04 false purged_db).1 = Err unique_violation
  ∧ (FileRow.content_hash <$> files (demo_upsert x04 false purged_db).2) = [replicate 32 x03]
  ∧ ¬ history_ok purged_db.
Proof.
  split; [vm_compute; reflexivity|]. split; [vm_compute; reflexivity|].
  intros (_&_&H3&_). destruct (file_versions purged_db) as [|h l] eqn:Hv; [vm_compute in Hv; done|].
  destruct (H3 h) as (r&Hr&Hlt); [constructor|].
  vm_compute in Hv. injection Hv as <- _. vm_compute in Hr. injection Hr as <-.
  vm_compute in Hlt. discriminate.
Qed.
End MetaVersionsProps.
