(* ===== verification/MetaSync.v ===== *)
(** * Tombstones, conflicts, node baselines, snapshots and billing rows
      ([disk-core/src/meta_db/tombstones.rs], [conflicts.rs],
      [node_baseline.rs], [snapshots.rs], [billing.rs]) *)

From stdpp Require Import prelude gmap strings sorting.
From Stdlib Require Import ZArith Lia Strings.Byte.
From S2P Require Import Prelude Text VectorClock Types Sql MetaDb Billing MetaFiles.

(** ** Tombstones *)
Module MetaTombstones.
Definition VAULT_DEFAULT : string := "default".

Definition create_tombstone (now : Z) (t : Tombstone) : dbm unit :=
  execute (set_tombstones (λ l, l ++
    [TombstoneRow.mk None VAULT_DEFAULT (Tombstone.path t) (Tombstone.last_hash t)
       (Tombstone.deleted_by t) (Tombstone.deleted_at t) (Tombstone.ttl_expires t)
       (bool_int (Tombstone.propagated t)) now])).

Definition row_to_tombstone (r : TombstoneRow.t) : result Tombstone MetaDbError :=
  h <?- hash_of_blob "last_hash" (TombstoneRow.last_hash r) ;;
  Ok (Tombstone.mk (TombstoneRow.path r) h (TombstoneRow.deleted_by r) (TombstoneRow.deleted_at r)
        (TombstoneRow.ttl_expires r) (int_bool (TombstoneRow.propagated r))).

Definition at_path (path : string) (r : TombstoneRow.t) : bool :=
  bool_decide (TombstoneRow.vault_id r = VAULT_DEFAULT) && bool_decide (TombstoneRow.path r = path).

(** [ORDER BY created_at DESC LIMIT 1]. *)
Definition get_tombstone (path : string) : dbm (option Tombstone) :=
  row <~ query (λ db, head (sort_by
           (λ a b, bool_decide (TombstoneRow.created_at b ≤ TombstoneRow.created_at a))
           (select (at_path path) (tombstones db)))) ;;
  st_lift (transpose (row_to_tombstone <$> row)).

Definition list_active_tombstones (now : Z) : dbm (list Tombstone) :=
  rows <~ query (λ db, sort_by (λ a b, Path.str_leb (TombstoneRow.path a) (TombstoneRow.path b))
            (select (λ r, bool_decide (TombstoneRow.vault_id r = VAULT_DEFAULT)
                          && bool_decide (now < TombstoneRow.ttl_expires r)) (tombstones db))) ;;
  st_lift (collect_results row_to_tombstone rows).

Definition delete_tombstone (path : string) : dbm unit :=
  execute (set_tombstones (delete_where (at_path path))).
End MetaTombstones.

(** ** Conflicts *)
Module MetaConflicts.
Definition DEFAULT_CONFLICT_TTL_SECS : Z := 30 * 24 * 3600.

Definition create_conflict_scoped (now : Z) (tenant : option string) (c : ConflictRecord) : dbm Z :=
  λ db,
    let id := conflict_seq db + 1 in
    let r := ConflictRow.mk id tenant (ConflictRecord.vault_id c) (ConflictRecord.path c)
               (ConflictRecord.conflict_type c) (ConflictRecord.local_hash c)
               (ConflictRecord.remote_hash c) (ConflictRecord.base_hash c)
               (ConflictRecord.resolution c) (ConflictRecord.fork_path c)
               (bool_int (ConflictRecord.resolved c)) now (ConflictRecord.resolved_at c) in
    (Ok id, set_conflicts (λ l, l ++ [r]) id db).

Definition create_conflict (now : Z) (c : ConflictRecord) : dbm Z := create_conflict_scoped now None c.

Definition opt_hash (blob : option bytes) : result (option bytes) MetaDbError :=
  match blob with
  | None => Ok None
  | Some b => h <?- hash_of_blob "hash blob" b ;; Ok (Some h)
  end.

Definition row_to_conflict (r : ConflictRow.t) : result ConflictRecord MetaDbError :=
  l <?- opt_hash (ConflictRow.local_hash r) ;;
  rm <?- opt_hash (ConflictRow.remote_hash r) ;;
  b <?- opt_hash (ConflictRow.base_hash r) ;;
  Ok (ConflictRecord.mk (Some (ConflictRow.id r)) (ConflictRow.vault_id r) (ConflictRow.path r)
        (ConflictRow.conflict_type r) l rm b (ConflictRow.resolution r) (ConflictRow.fork_path r)
        (int_bool (ConflictRow.resolved r)) (ConflictRow.created_at r) (ConflictRow.resolved_at r)).

Definition list_unresolved_conflicts : dbm (list ConflictRecord) :=
  rows <~ query (λ db, sort_by (λ a b, bool_decide (ConflictRow.created_at a ≤ ConflictRow.created_at b))
                         (select (λ r, bool_decide (ConflictRow.resolved r = 0)) (conflicts db))) ;;
  st_lift (collect_results row_to_conflict rows).

Definition mark_resolved (resolution : string) (now : Z) (r : ConflictRow.t) : ConflictRow.t :=
  ConflictRow.mk (ConflictRow.id r) (ConflictRow.tenant_id r) (ConflictRow.vault_id r)
    (ConflictRow.path r) (ConflictRow.conflict_type r) (ConflictRow.local_hash r)
    (ConflictRow.remote_hash r) (ConflictRow.base_hash r) (Some resolution)
    (ConflictRow.fork_path r) 1 (ConflictRow.created_at r) (Some now).

Definition resolve_conflict (now id : Z) (resolution : string) : dbm unit :=
  execute (λ db, set_conflicts (update (λ r, bool_decide (ConflictRow.id r = id))
                                  (mark_resolved resolution now)) (conflict_seq db) db).

Definition stale (cutoff : Z) (r : ConflictRow.t) : bool :=
  bool_decide (ConflictRow.resolved r = 1)
  && match ConflictRow.resolved_at r with Some d => bool_decide (d ≤ cutoff) | None => false end.

Definition cleanup_resolved_conflicts (now ttl_secs : Z) : dbm Z :=
  let cutoff := as_i64 (now - ttl_secs) in
  n <~ query (λ db, affected (stale cutoff) (conflicts db)) ;;
  _ <~ execute (λ db, set_conflicts (delete_where (stale cutoff)) (conflict_seq db) db) ;;
  st_ret (Z.of_nat n).
End MetaConflicts.

(** ** Node baselines *)
Module MetaBaselines.
Section ops.
Context {codec : VcCodec}.

Definition tenant_key (tenant : option string) : string := default "" tenant.

Definition in_baseline (tenant : option string) (node vault : string) (r : BaselineRow.t) : bool :=
  bool_decide (BaselineRow.tenant_key r = tenant_key tenant)
  && bool_decide (BaselineRow.node_id r = node) && bool_decide (BaselineRow.vault_id r = vault).

Definition baseline_row_to_meta (r : BaselineRow.t) : result FileMeta MetaDbError :=
  h <?- hash_of_blob "node_baseline content_hash" (BaselineRow.content_hash r) ;;
  Ok (FileMeta.mk (BaselineRow.path r) h (as_u64 (BaselineRow.size r)) (BaselineRow.mtime_ns r) None
        (default VC.new (vc_from_json (BaselineRow.vector_clock r)))
        (int_bool (BaselineRow.deleted r)) (BaselineRow.deleted_at r)
        (BaselineRow.node_id_writer r) None None None).

Definition load_node_baseline_scoped (tenant : option string) (node vault : string)
    : dbm (list FileMeta) :=
  rows <~ query (λ db, sort_by (λ a b, Path.str_leb (BaselineRow.path a) (BaselineRow.path b))
                         (select (in_baseline tenant node vault) (node_baselines db))) ;;
  st_lift (collect_results baseline_row_to_meta rows).

Definition load_node_baseline (node vault : string) : dbm (list FileMeta) :=
  load_node_baseline_scoped None node vault.

Definition baseline_row (now : Z) (tenant : option string) (node vault : string) (meta : FileMeta)
    : BaselineRow.t :=
  BaselineRow.mk (tenant_key tenant) node vault (FileMeta.path meta) (FileMeta.content_hash meta)
    (as_i64 (FileMeta.size meta)) (FileMeta.mtime_ns meta) (vc_to_json (FileMeta.vector_clock meta))
    (bool_int (FileMeta.deleted meta)) (FileMeta.deleted_at meta) (FileMeta.node_id meta) now tenant.

(** [PRIMARY KEY (tenant_key, node_id, vault_id, path)], all [NOT NULL]. *)
Definition same_baseline (r s : BaselineRow.t) : bool :=
  bool_decide (BaselineRow.tenant_key r = BaselineRow.tenant_key s)
  && bool_decide (BaselineRow.node_id r = BaselineRow.node_id s)
  && bool_decide (BaselineRow.vault_id r = BaselineRow.vault_id s)
  && bool_decide (BaselineRow.path r = BaselineRow.path s).

(** [INSERT .. ON CONFLICT DO UPDATE SET ..]: every other column is replaced. *)
Definition upsert_baseline_row (r : BaselineRow.t) (t : list BaselineRow.t) : list BaselineRow.t :=
  if existsb (same_baseline r) t then update (same_baseline r) (λ _, r) t else t ++ [r].

(** The loop of the transaction: an error leaves the caller's rows alone. *)
Fixpoint upsert_rows (now : Z) (tenant : option string) (node vault : string)
    (baselines : list FileMeta) (t : list BaselineRow.t) : result (list BaselineRow.t) MetaDbError :=
  match baselines with
  | [] => Ok t
  | meta :: baselines =>
      if str_utf8 (FileMeta.path meta)
      then upsert_rows now tenant node vault baselines
             (upsert_baseline_row (baseline_row now tenant node vault meta) t)
      else Err (Invalid "path contains non-UTF-8 bytes")
  end.

Definition upsert_node_baselines_scoped (now : Z) (tenant : option string) (node vault : string)
    (baselines : list FileMeta) : dbm unit := λ db,
  match upsert_rows now tenant node vault baselines (node_baselines db) with
  | Ok t => (Ok tt, set_baselines (λ _, t) db)
  | Err e => (Err e, db)
  end.

Definition upsert_node_baselines (now : Z) (node vault : string) (baselines : list FileMeta)
    : dbm unit := upsert_node_baselines_scoped now None node vault baselines.

(** The tenant is not part of the condition. *)
Definition delete_node_baseline (node vault path : string) : dbm unit :=
  execute (set_baselines (delete_where (λ r,
    bool_decide (BaselineRow.node_id r = node) && bool_decide (BaselineRow.vault_id r = vault)
    && bool_decide (BaselineRow.path r = path)))).
End ops.
End MetaBaselines.

(** ** Vault snapshots *)
Module MetaSnapshots.
Module VaultSnapshotRow.
Record t := mk {
  id : Z;
  vault_id : string;
  label : option string;
  file_count : Z;
  bytes_total : Z;
  created_at : Z;
  created_by : option string
}.
End VaultSnapshotRow.

Module VaultSnapshotFileRow.
Record t := mk {
  path : string;
  version_id : Z;
  content_hash : bytes;
  size : Z;
  deleted : bool
}.
End VaultSnapshotFileRow.

Section ops.
Context {codec : VcCodec}.

Definition in_vault (tenant : option string) (vault : string) (r : SnapshotRow.t) : bool :=
  is_eqb (SnapshotRow.tenant_id r) tenant && bool_decide (SnapshotRow.vault_id r = vault).

(** [ORDER BY created_at DESC, id DESC]. *)
Definition latest_first (a b : SnapshotRow.t) : bool :=
  if bool_decide (SnapshotRow.created_at b < SnapshotRow.created_at a) then true
  else if bool_decide (SnapshotRow.created_at a < SnapshotRow.created_at b) then false
  else bool_decide (SnapshotRow.id b ≤ SnapshotRow.id a).

(** [DELETE FROM vault_snapshots WHERE ..] cascades to the file pointers. *)
Definition delete_snapshots (p : SnapshotRow.t → bool) (db : MetaDb) : MetaDb :=
  let gone := SnapshotRow.id <$> select p (vault_snapshots db) in
  set_snapshots (delete_where p) (snapshot_seq db)
    (delete_where (λ f, bool_decide (SnapshotFileRow.snapshot_id f ∈ gone))) db.

Definition prune_vault_snapshots (now : Z) (tenant : option string) (vault : string)
    (retention : SnapshotRetention) : dbm unit :=
  let cutoff := as_i64 (now - SnapshotRetention.max_age_secs retention) in
  execute (λ db,
    let kept := SnapshotRow.id <$>
                  take (Z.to_nat (SnapshotRetention.max_snapshots retention))
                    (sort_by latest_first (select (in_vault tenant vault) (vault_snapshots db))) in
    delete_snapshots (λ r, in_vault tenant vault r
      && (bool_decide (SnapshotRow.created_at r < cutoff)
          || negb (bool_decide (SnapshotRow.id r ∈ kept)))) db).

(** [INSERT INTO vault_snapshot_files] for each file, in one transaction;
    [PRIMARY KEY (snapshot_id, path)]. *)
Fixpoint insert_pointers (id : Z) (tenant : option string) (vault : string) (metas : list FileMeta)
    (t : list SnapshotFileRow.t) : result (list SnapshotFileRow.t) MetaDbError :=
  match metas with
  | [] => Ok t
  | meta :: metas =>
      path <?- path_as_str (FileMeta.path meta) ;;
      let r := SnapshotFileRow.mk id tenant vault path
                 (as_i64 (default 1 (FileMeta.version_id meta))) (FileMeta.content_hash meta)
                 (as_i64 (FileMeta.size meta)) (bool_int (FileMeta.deleted meta)) in
      match insert_row (λ r s, bool_decide (SnapshotFileRow.snapshot_id r = SnapshotFileRow.snapshot_id s)
                               && bool_decide (SnapshotFileRow.path r = SnapshotFileRow.path s)) r t with
      | Some t => insert_pointers id tenant vault metas t
      | None => Err unique_violation
      end
  end.

(** [iter().sum()] over the live files; a release build wraps. *)
Definition live_bytes (metas : list FileMeta) : Z :=
  as_u64 (foldr (λ m a, FileMeta.size m + a) 0
            (List.filter (λ m, negb (FileMeta.deleted m)) metas)).

(** [now] is read at the capture, [now'] by the prune. *)
Definition create_vault_snapshot (now now' : Z) (tenant : option string) (vault : string)
    (label : option string) (created_by : string) (retention : SnapshotRetention)
    : dbm VaultSnapshotRow.t :=
  metas <~ MetaFiles.list_files_scoped tenant vault ;;
  let file_count := as_u32 (Z.of_nat (length metas)) in
  let bytes_total := live_bytes metas in
  id <~ (λ db,
    let id := snapshot_seq db + 1 in
    match insert_pointers id tenant vault metas (vault_snapshot_files db) with
    | Ok t =>
        (Ok id, set_snapshots (λ l, l ++
           [SnapshotRow.mk id tenant vault label file_count (as_i64 bytes_total) now (Some created_by)])
           id (λ _, t) db)
    | Err e => (Err e, db)
    end) ;;
  _ <~ prune_vault_snapshots now' tenant vault retention ;;
  st_ret (VaultSnapshotRow.mk id vault label file_count bytes_total now (Some created_by)).

Definition row_to_snapshot (r : SnapshotRow.t) : VaultSnapshotRow.t :=
  VaultSnapshotRow.mk (as_u64 (SnapshotRow.id r)) (SnapshotRow.vault_id r) (SnapshotRow.label r)
    (as_u32 (SnapshotRow.file_count r)) (as_u64 (SnapshotRow.bytes_total r))
    (SnapshotRow.created_at r) (SnapshotRow.created_by r).

Definition list_vault_snapshots (tenant : option string) (vault : string) (limit offset : Z)
    : dbm (list VaultSnapshotRow.t) :=
  let cap := Z.max 1 (Z.min limit 200) in
  let skip := Z.min offset 10000 in
  query (λ db, row_to_snapshot <$> limit_offset cap skip
           (sort_by latest_first (select (in_vault tenant vault) (vault_snapshots db)))).

Definition count_vault_snapshots (tenant : option string) (vault : string) : dbm Z :=
  query (λ db, as_u32 (Z.of_nat (affected (in_vault tenant vault) (vault_snapshots db)))).

Definition get_vault_snapshot (tenant : option string) (vault : string) (snapshot_id : Z)
    : dbm (option VaultSnapshotRow.t) :=
  query (λ db, row_to_snapshot <$>
    head (select (λ r, in_vault tenant vault r && bool_decide (SnapshotRow.id r = as_i64 snapshot_id))
            (vault_snapshots db))).

Definition row_to_snapshot_file (r : SnapshotFileRow.t) : result VaultSnapshotFileRow.t MetaDbError :=
  h <?- hash_of_blob "content_hash" (SnapshotFileRow.content_hash r) ;;
  Ok (VaultSnapshotFileRow.mk (SnapshotFileRow.path r) (as_u64 (SnapshotFileRow.version_id r)) h
        (as_u64 (SnapshotFileRow.size r)) (int_bool (SnapshotFileRow.deleted r))).

Definition list_snapshot_files (tenant : option string) (vault : string) (snapshot_id : Z)
    : dbm (list VaultSnapshotFileRow.t) :=
  rows <~ query (λ db, sort_by (λ a b, Path.str_leb (SnapshotFileRow.path a) (SnapshotFileRow.path b))
            (select (λ r, is_eqb (SnapshotFileRow.tenant_id r) tenant
                          && bool_decide (SnapshotFileRow.vault_id r = vault)
                          && bool_decide (SnapshotFileRow.snapshot_id r = as_i64 snapshot_id))
               (vault_snapshot_files db))) ;;
  st_lift (collect_results row_to_snapshot_file rows).

Definition delete_vault_snapshots_for_tenant (tenant : string) : dbm unit :=
  execute (delete_snapshots (λ r, is_eqb (SnapshotRow.tenant_id r) (Some tenant))).
End ops.
End MetaSnapshots.

(** ** Billing rows *)
Module MetaBilling.
Definition of_tenant (tenant : option string) (r : BillingRow.t) : bool :=
  is_eqb (BillingRow.tenant_id r) tenant.

Definition get_plan_tier (tenant : option string) (dflt : PlanTier) : dbm PlanTier :=
  row <~ query (λ db, head (select (of_tenant tenant) (tenant_billing db))) ;;
  st_lift (match row with
           | Some r => map_err (λ e, match e with PlanTier.Unknown s =>
                         Invalid ("unknown plan tier: " +:+ s) end)
                         (PlanTier.parse (BillingRow.plan_tier r))
           | None => Ok dflt
           end).

Definition billing_clash (r s : BillingRow.t) : bool :=
  uniq_eqb (BillingRow.tenant_id r) (BillingRow.tenant_id s).

(** The shared update-then-insert; [f] is the [UPDATE], [r] the [INSERT]. *)
Definition upsert_billing (tenant : option string) (f : BillingRow.t → BillingRow.t)
    (r : BillingRow.t) : dbm unit :=
  n <~ query (λ db, affected (of_tenant tenant) (tenant_billing db)) ;;
  _ <~ execute (set_billing (update (of_tenant tenant) f)) ;;
  if bool_decide (0 < n)%nat then st_ret tt
  else λ db, match insert_row billing_clash r (tenant_billing db) with
             | Some t => (Ok tt, set_billing (λ _, t) db)
             | None => (Err unique_violation, db)
             end.

Definition set_plan_tier (now : Z) (tenant : option string) (tier : PlanTier) : dbm unit :=
  upsert_billing tenant
    (λ r, BillingRow.mk (BillingRow.tenant_id r) (PlanTier.as_str tier)
            (BillingRow.stripe_customer_id r) (BillingRow.stripe_subscription_id r)
            (BillingRow.created_at r) now)
    (BillingRow.mk tenant (PlanTier.as_str tier) None None now now).

Definition apply_stripe_subscription (now : Z) (tenant : option string) (customer subscription : string)
    (tier : PlanTier) : dbm unit :=
  upsert_billing tenant
    (λ r, BillingRow.mk (BillingRow.tenant_id r) (PlanTier.as_str tier) (Some customer)
            (Some subscription) (BillingRow.created_at r) now)
    (BillingRow.mk tenant (PlanTier.as_str tier) (Some customer) (Some subscription) now now).

(** [COALESCE(SUM(size), 0)]; SQLite raises on integer overflow. *)
Definition sum_storage_bytes (tenant : option string) : dbm Z := λ db,
  let total := foldr (λ r a, FileRow.size r + a) 0
                 (select (λ r, is_eqb (FileRow.tenant_id r) tenant
                               && bool_decide (FileRow.deleted r = 0)) (files db)) in
  if bool_decide (i64_min ≤ total ≤ i64_max) then (Ok (as_u64 (Z.max total 0)), db)
  else (Err (Sqlx "integer overflow"), db).

Definition vault_row (tenant : option string) (vault : string) (r : VaultRow.t) : bool :=
  is_eqb (VaultRow.tenant_id r) tenant && bool_decide (VaultRow.vault_id r = vault).

Definition count_tenant_vaults (tenant : option string) : dbm Z :=
  query (λ db, as_u32 (Z.of_nat (affected (λ r, is_eqb (VaultRow.tenant_id r) tenant) (tenant_vaults db)))).

Definition tenant_vault_exists (tenant : option string) (vault : string) : dbm bool :=
  query (λ db, bool_decide (0 < affected (vault_row tenant vault) (tenant_vaults db))%nat).

(** [INSERT OR IGNORE] under [UNIQUE (tenant_id, vault_id)]. *)
Definition register_tenant_vault (now : Z) (tenant : option string) (vault : string) : dbm unit :=
  let r := VaultRow.mk tenant vault now in
  execute (set_vaults (λ t,
    default t (insert_row (λ r s, uniq_eqb (VaultRow.tenant_id r) (VaultRow.tenant_id s)
                                  && bool_decide (VaultRow.vault_id r = VaultRow.vault_id s)) r t))).
End MetaBilling.
