(* ===== verification/MetaSyncProps.v ===== *)
(** * Baselines, conflicts, snapshots and billing: theorems *)

From stdpp Require Import prelude gmap strings sorting.
From Stdlib Require Import ZArith Lia Strings.Byte.
From S2P Require Import Prelude Text VectorClock Types Sql MetaDb Billing MetaFiles MetaSync.

(** ** Baselines as a finite map *)
Abbreviation bkey := (string * string * string * string)%type.

Section baselines.
Import MetaBaselines.
Context {codec : VcCodec}.

Definition baseline_key (r : BaselineRow.t) : bkey :=
  (BaselineRow.tenant_key r, BaselineRow.node_id r, BaselineRow.vault_id r, BaselineRow.path r).

Definition baseline_map (db : MetaDb) : gmap bkey BaselineRow.t :=
  table_map baseline_key (node_baselines db).
Definition baselines_keyed (db : MetaDb) : Prop := keyed baseline_key (node_baselines db).

Lemma same_baseline_key r s : same_baseline r s = at_key baseline_key (baseline_key r) s.
Proof.
  unfold same_baseline, at_key, baseline_key. rewrite <-!bool_decide_and.
  apply bool_decide_ext. split; [intros [[[-> ->] ->] ->]; done|intros [= -> -> -> ->]; done].
Qed.

(** [ON CONFLICT DO UPDATE] is insertion into the map. *)
Lemma upsert_baseline_map r t :
  keyed baseline_key t →
  keyed baseline_key (upsert_baseline_row r t)
  ∧ table_map baseline_key (upsert_baseline_row r t)
    = <[baseline_key r := r]> (table_map baseline_key t).
Proof.
  intros Hk. unfold upsert_baseline_row. destruct (existsb (same_baseline r) t) eqn:He.
  - assert (update (same_baseline r) (λ _, r) t
            = update (at_key baseline_key (baseline_key r))
                (λ s, if bool_decide (baseline_key s = baseline_key r) then r else s) t) as ->.
    { unfold update. apply list_fmap_ext. intros _ s _. rewrite same_baseline_key. unfold at_key.
      by case_bool_decide. }
    assert (∀ s, baseline_key (if bool_decide (baseline_key s = baseline_key r) then r else s)
                 = baseline_key s) as Hf by (intros s; by case_bool_decide).
    split; [by apply keyed_update|]. rewrite table_map_update by done.
    apply existsb_exists in He as (s&Hs%list_elem_of_In&Hc).
    rewrite same_baseline_key in Hc. apply bool_decide_eq_true in Hc.
    assert (table_map baseline_key t !! baseline_key r = Some s) as Hm by (by apply table_map_Some).
    apply map_eq. intros k. destruct (decide (k = baseline_key r)) as [->|].
    + rewrite lookup_alter_eq, lookup_insert_eq, Hm. simpl. by rewrite bool_decide_eq_true_2.
    + by rewrite lookup_alter_ne, lookup_insert_ne by done.
  - assert (∀ s, s ∈ t → baseline_key s ≠ baseline_key r) as Hno.
    { intros s Hs Heq. apply not_true_iff_false in He. apply He. apply existsb_exists.
      exists s. split; [by apply list_elem_of_In|]. rewrite same_baseline_key.
      by apply bool_decide_eq_true. }
    split; [by apply keyed_snoc|by apply table_map_snoc].
Qed.

Definition baseline_insert (now : Z) (tenant : option string) (node vault : string)
    (m : gmap bkey BaselineRow.t) (meta : FileMeta) : gmap bkey BaselineRow.t :=
  <[(tenant_key tenant, node, vault, FileMeta.path meta) := baseline_row now tenant node vault meta]> m.

Lemma upsert_rows_map now tenant node vault metas t :
  keyed baseline_key t → Forall (λ m, str_utf8 (FileMeta.path m) = true) metas →
  ∃ t', upsert_rows now tenant node vault metas t = Ok t' ∧ keyed baseline_key t'
    ∧ table_map baseline_key t'
      = foldl (baseline_insert now tenant node vault) (table_map baseline_key t) metas.
Proof.
  intros Hk Hu. revert t Hk. induction Hu as [|m metas Hm _ IH]; intros t Hk; simpl; [eauto|].
  rewrite Hm. destruct (upsert_baseline_map (baseline_row now tenant node vault m) t Hk) as [Hk' Hmap].
  destruct (IH _ Hk') as (t'&Ht'&Hkt'&Hmt'). exists t'. split_and!; [done..|].
  by rewrite Hmt', Hmap.
Qed.

(** What a baseline row gives back: the inode, the nonce and the version ids
    are not part of a baseline. *)
Definition baseline_view (meta : FileMeta) : FileMeta :=
  FileMeta.mk (FileMeta.path meta) (FileMeta.content_hash meta) (FileMeta.size meta)
    (FileMeta.mtime_ns meta) None (FileMeta.vector_clock meta) (FileMeta.deleted meta)
    (FileMeta.deleted_at meta) (FileMeta.node_id meta) None None None.

Lemma baseline_row_roundtrip now tenant node vault meta :
  FileMeta.wf meta →
  baseline_row_to_meta (baseline_row now tenant node vault meta) = Ok (baseline_view meta).
Proof.
  intros (Hh&Hs&_&_&Hv&_). unfold baseline_row_to_meta, baseline_row; simpl.
  rewrite hash_of_blob_ok by done. simpl.
  by rewrite as_u64_as_i64, vc_roundtrip, int_bool_int by done.
Qed.

(** A load returns the scope's rows sorted by path. *)
Lemma load_elem tenant node vault db metas :
  baselines_keyed db → load_node_baseline_scoped tenant node vault db = (Ok metas, db) →
  (∀ m, m ∈ metas ↔ ∃ p r, baseline_map db !! (tenant_key tenant, node, vault, p) = Some r
                        ∧ baseline_row_to_meta r = Ok m)
  ∧ length metas = affected (in_baseline tenant node vault) (node_baselines db).
Proof.
  intros Hk. unfold load_node_baseline_scoped, st_bind, query, st_lift.
  set (rows := sort_by _ _). intros [= Hc]. apply collect_results_inv in Hc.
  assert (∀ r, r ∈ rows ↔ ∃ p, baseline_map db !! (tenant_key tenant, node, vault, p) = Some r) as Hrows.
  { intros r. unfold rows. rewrite elem_of_sort_by, elem_of_select.
    unfold in_baseline. rewrite !andb_true_iff, !bool_decide_eq_true. unfold baseline_map.
    setoid_rewrite table_map_Some; [|done..]. unfold baseline_key. split.
    - intros (Hr&(H1&H2)&H3). exists (BaselineRow.path r). by rewrite H1, H2, H3.
    - intros (p&Hr&[= H1 H2 H3 _]). done. }
  split.
  - intros m. split.
    + intros [i Hi]%list_elem_of_lookup. destruct (Forall2_lookup_r _ _ _ _ _ Hc Hi) as (r&Hr&Hm).
      apply list_elem_of_lookup_2, Hrows in Hr as [p Hp]. eauto.
    + intros (p&r&Hp&Hm). assert (r ∈ rows) as [i Hi]%list_elem_of_lookup by (apply Hrows; eauto).
      destruct (Forall2_lookup_l _ _ _ _ _ Hc Hi) as (m'&Hm'&Hr'). rewrite Hm in Hr'. injection Hr' as <-.
      by eapply list_elem_of_lookup_2.
  - apply Forall2_length in Hc. rewrite <-Hc. unfold rows. by rewrite length_sort_by.
Qed.
End baselines.

Module MetaSyncTheorems.
Import MetaBaselines MetaConflicts MetaSnapshots MetaBilling MetaTombstones.

(** Recording a node's baseline is one transaction that inserts its
    entries, the last one per path winning, into a finite map keyed by
    (tenant, node, vault, path); keys stay unique, and a later load returns
    for each recorded path the metadata that was written, without the inode,
    the nonce and the version ids. *)
Theorem baseline_upsert_load {codec : VcCodec} now tenant node vault metas db :
  baselines_keyed db → Forall (λ m, str_utf8 (FileMeta.path m) = true) metas →
  ∃ db', upsert_node_baselines_scoped now tenant node vault metas db = (Ok tt, db')
    ∧ baselines_keyed db'
    ∧ baseline_map db' = foldl (baseline_insert now tenant node vault) (baseline_map db) metas
    ∧ (∀ pre m post loaded,
         metas = pre ++ m :: post → FileMeta.wf m →
         Forall (λ m', FileMeta.path m' ≠ FileMeta.path m) post →
         load_node_baseline_scoped tenant node vault db' = (Ok loaded, db') →
         baseline_view m ∈ loaded).
Proof.
  intros Hk Hu. destruct (upsert_rows_map now tenant node vault metas _ Hk Hu) as (t'&Ht'&Hk'&Hm').
  unfold upsert_node_baselines_scoped. rewrite Ht'. eexists. split; [done|]. split; [exact Hk'|].
  split; [exact Hm'|]. intros pre m post loaded -> Hwf Hpost Hload.
  apply load_elem in Hload as [Hl _]; [|exact Hk']. apply Hl.
  exists (FileMeta.path m), (baseline_row now tenant node vault m).
  split; [|by apply baseline_row_roundtrip].
  unfold baseline_map, set_baselines; cbn [node_baselines]. rewrite Hm', foldl_app. simpl.
  clear -Hpost. set (mm := baseline_insert _ _ _ _ (foldl _ _ pre) m).
  assert (mm !! (tenant_key tenant, node, vault, FileMeta.path m)
          = Some (baseline_row now tenant node vault m)) as Hmm by apply lookup_insert_eq.
  revert Hmm. generalize mm. induction Hpost as [|x post Hx _ IH]; intros mm' Hmm; simpl; [done|].
  apply IH. unfold baseline_insert. rewrite lookup_insert_ne; [done|]. congruence.
Qed.

Lemma baseline_upsert_load_witness :
  ∃ db', upsert_node_baselines_scoped (codec:=BinaryCodec.codec) 1 None "n" "v"
           [MetaFilesProps.demo_meta "a" x01] empty_db = (Ok tt, db') ∧ baselines_keyed db'.
Proof.
  destruct (baseline_upsert_load 1 None "n" "v" [MetaFilesProps.demo_meta "a" x01] empty_db)
    as (db'&H1&H2&_).
  - apply NoDup_nil_2.
  - repeat constructor.
  - exists db'. split; [exact H1|exact H2].
Defined.

(** Conflict ids are the counter's, each used once. *)
Definition conflicts_ok (db : MetaDb) : Prop :=
  NoDup (ConflictRow.id <$> conflicts db)
  ∧ Forall (λ r, ConflictRow.id r ≤ conflict_seq db) (conflicts db).

(** A conflict is created under a fresh id and stays in the list of
    unresolved conflicts until it is resolved by that id; resolving marks
    that row alone; cleanup deletes only resolved rows whose resolution is at
    least the given age old, so no unresolved conflict is ever lost. *)
Theorem conflict_lifecycle now tenant c id res ttl db :
  conflicts_ok db →
  (∃ id' db', create_conflict_scoped now tenant c db = (Ok id', db') ∧ conflicts_ok db'
     ∧ (id' ∉ (ConflictRow.id <$> conflicts db))
     ∧ ∃ r, conflicts db' = conflicts db ++ [r] ∧ ConflictRow.id r = id'
         ∧ ConflictRow.created_at r = now)
  ∧ (∃ db', resolve_conflict now id res db = (Ok tt, db') ∧ conflicts_ok db'
       ∧ (∀ r, r ∈ conflicts db' ↔
            (r ∈ conflicts db ∧ ConflictRow.id r ≠ id)
            ∨ ∃ r0, r0 ∈ conflicts db ∧ ConflictRow.id r0 = id ∧ r = mark_resolved res now r0))
  ∧ (∃ n db', cleanup_resolved_conflicts now ttl db = (Ok n, db') ∧ conflicts_ok db'
       ∧ (∀ r, ConflictRow.resolved r = 0 → r ∈ conflicts db' ↔ r ∈ conflicts db)
       ∧ (∀ r, r ∈ conflicts db → r ∉ conflicts db' →
            ConflictRow.resolved r = 1
            ∧ ∃ d, ConflictRow.resolved_at r = Some d ∧ d ≤ as_i64 (now - ttl))).
Proof.
  intros [Hnd Hle]. split_and!.
  - eexists _, _. split; [done|]. split_and!.
    + split; simpl.
      * rewrite fmap_app. apply NoDup_app. split_and!; [done| |apply NoDup_singleton].
        intros x (r&->&Hr)%list_elem_of_fmap Hx%list_elem_of_singleton. simpl in Hx.
        rewrite Forall_forall in Hle. specialize (Hle r Hr). lia.
      * apply Forall_app. split; [|repeat constructor; simpl; lia].
        eapply Forall_impl; [exact Hle|]. simpl. lia.
    + intros (r&Heq&Hr)%list_elem_of_fmap. rewrite Forall_forall in Hle. specialize (Hle r Hr). lia.
    + eexists. split; [done|]. done.
  - eexists. split; [done|]. split_and!.
    + split; cbn [set_conflicts conflicts conflict_seq].
      * apply (keyed_update ConflictRow.id); done.
      * apply Forall_forall. intros r (s&Hs&->)%elem_of_update. rewrite Forall_forall in Hle.
        specialize (Hle s Hs). by case_bool_decide.
    + intros r. cbn [set_conflicts conflicts]. rewrite elem_of_update. split.
      * intros (s&Hs&->). case_bool_decide; [right; eauto|by left].
      * intros [[Hr Hne]|(r0&Hr0&Hid&->)].
        -- exists r. by rewrite bool_decide_eq_false_2.
        -- exists r0. by rewrite bool_decide_eq_true_2.
  - eexists _, _. split; [done|]. cbn [set_conflicts conflicts conflict_seq]. split_and!.
    + split; [by apply NoDup_fmap_delete|]. apply Forall_forall. intros r [Hr _]%elem_of_delete_where.
      rewrite Forall_forall in Hle. auto.
    + intros r H0. rewrite elem_of_delete_where. unfold stale. rewrite H0. naive_solver.
    + intros r Hr Hnr. rewrite elem_of_delete_where in Hnr.
      destruct (stale (as_i64 (now - ttl)) r) eqn:Hs; [|naive_solver].
      unfold stale in Hs. apply andb_true_iff in Hs as [H1%bool_decide_eq_true H2].
      destruct (ConflictRow.resolved_at r) as [d|]; [|done]. apply bool_decide_eq_true in H2. eauto.
Qed.

Definition demo_conflict : ConflictRecord :=
  ConflictRecord.mk None "v" "a" "concurrent" None None None None None false 0 None.

Lemma conflict_lifecycle_witness :
  ∃ id' db', create_conflict_scoped 5 None demo_conflict empty_db = (Ok id', db') ∧ conflicts_ok db'
    ∧ id' ∉ (ConflictRow.id <$> conflicts empty_db).
Proof.
  destruct (conflict_lifecycle 5 None demo_conflict 1 "keep" 0 empty_db) as [(id'&db'&H1&H2&H3&_) _].
  { split; [apply NoDup_nil_2|constructor]. }
  exists id', db'. split; [exact H1|]. split; [exact H2|exact H3].
Defined.

(** ** Snapshots *)

(** Snapshot ids come from the counter, each once, and every file pointer
    belongs to a snapshot that exists. *)
Definition snapshots_ok (db : MetaDb) : Prop :=
  NoDup (SnapshotRow.id <$> vault_snapshots db)
  ∧ Forall (λ r, SnapshotRow.id r ≤ snapshot_seq db) (vault_snapshots db)
  ∧ Forall (λ f, SnapshotFileRow.snapshot_id f ∈ (SnapshotRow.id <$> vault_snapshots db))
      (vault_snapshot_files db).

Lemma delete_snapshots_ok p db : snapshots_ok db → snapshots_ok (delete_snapshots p db).
Proof.
  intros (H1&H2&H3). unfold delete_snapshots, snapshots_ok. cbn. split_and!.
  - by apply NoDup_fmap_delete.
  - apply Forall_forall. intros r [Hr _]%elem_of_delete_where. rewrite Forall_forall in H2. auto.
  - apply Forall_forall. intros f [Hf Hgone%bool_decide_eq_false]%elem_of_delete_where.
    rewrite Forall_forall in H3. specialize (H3 f Hf).
    apply list_elem_of_fmap in H3 as (r&Hid&Hr). rewrite Hid in *.
    apply list_elem_of_fmap. exists r. split; [done|]. apply elem_of_delete_where. split; [done|].
    apply not_true_is_false. intros Hp. apply Hgone. apply list_elem_of_fmap_2, elem_of_select. auto.
Qed.

Lemma insert_pointers_spec id t v metas l l' :
  insert_pointers id t v metas l = Ok l' →
  ∃ new, l' = l ++ new ∧ length new = length metas
    ∧ Forall2 (λ m f, path_as_str (FileMeta.path m) = Ok (SnapshotFileRow.path f)
                 ∧ SnapshotFileRow.snapshot_id f = id
                 ∧ SnapshotFileRow.content_hash f = FileMeta.content_hash m
                 ∧ SnapshotFileRow.version_id f = as_i64 (default 1 (FileMeta.version_id m))) metas new.
Proof.
  revert l. induction metas as [|m metas IH]; intros l; simpl.
  { intros [= <-]. exists []. by rewrite app_nil_r. }
  destruct (path_as_str (FileMeta.path m)) as [p|] eqn:Hp; simpl; [|done].
  destruct (insert_row _ _ _) as [l1|] eqn:Hi; [|done]. intros Hr.
  apply insert_row_inv in Hi as ->. apply IH in Hr as (new&->&Hlen&Hf).
  eexists (_ :: new). rewrite <-(assoc_L (++)). split; [done|]. split; [simpl; lia|].
  constructor; [|done]. by rewrite Hp.
Qed.

(** Capturing a snapshot freezes one pointer per file of the vault, with
    its hash and version, under a fresh id, all or nothing; with the
    retention prune that follows, ids stay unique and no pointer is left
    without its snapshot. *)
Theorem snapshot_capture {codec : VcCodec} now now' t v label by_ ret db row db' :
  snapshots_ok db →
  create_vault_snapshot now now' t v label by_ ret db = (Ok row, db') →
  snapshots_ok db'
  ∧ VaultSnapshotRow.id row = snapshot_seq db + 1
  ∧ ∃ metas new mid,
      MetaFiles.list_files_scoped t v db = (Ok metas, db)
      ∧ VaultSnapshotRow.bytes_total row = live_bytes metas
      ∧ Forall2 (λ m f, path_as_str (FileMeta.path m) = Ok (SnapshotFileRow.path f)
                   ∧ SnapshotFileRow.snapshot_id f = snapshot_seq db + 1
                   ∧ SnapshotFileRow.content_hash f = FileMeta.content_hash m
                   ∧ SnapshotFileRow.version_id f = as_i64 (default 1 (FileMeta.version_id m))) metas new
      ∧ vault_snapshot_files mid = vault_snapshot_files db ++ new
      ∧ prune_vault_snapshots now' t v ret mid = (Ok tt, db').
Proof.
  intros (H1&H2&H3). unfold create_vault_snapshot. unfold st_bind at 1.
  destruct (MetaFiles.list_files_scoped t v db) as [[metas|e] db0] eqn:Hl; [|done].
  assert (db0 = db) as ->.
  { unfold MetaFiles.list_files_scoped, st_bind, query, st_lift in Hl. by injection Hl. }
  unfold st_bind at 1. destruct (insert_pointers _ _ _ _ _) as [files'|e] eqn:Hi; [|done].
  apply insert_pointers_spec in Hi as (new&->&Hlen&Hf).
  unfold st_bind, st_ret. cbn [prune_vault_snapshots execute]. intros [= <- <-].
  set (mid := set_snapshots _ _ _ db).
  assert (snapshots_ok mid) as Hok.
  { unfold mid, snapshots_ok. cbn. rewrite fmap_app. cbn. split_and!.
    - apply NoDup_app. split_and!; [done| |apply NoDup_singleton].
      intros x (r&->&Hr)%list_elem_of_fmap Hx%list_elem_of_singleton.
      rewrite Forall_forall in H2. specialize (H2 r Hr). lia.
    - apply Forall_app. split; [|repeat constructor; cbn; lia].
      eapply Forall_impl; [exact H2|]. cbn. lia.
    - apply Forall_app. split.
      + eapply Forall_impl; [exact H3|]. intros f Hin. apply elem_of_app. by left.
      + apply Forall_forall. intros f [i Hfi]%list_elem_of_lookup.
        destruct (Forall2_lookup_r _ _ _ _ _ Hf Hfi) as (m&_&_&->&_).
        apply elem_of_app. right. constructor. }
  split; [by apply delete_snapshots_ok|]. split; [done|].
  exists metas, new, mid. split_and!; done.
Qed.

Definition demo_snap_db : MetaDb :=
  (MetaFiles.upsert_file_scoped (codec:=BinaryCodec.codec) 1 None "v"
     (MetaFilesProps.demo_meta "a" x01) empty_db).2.

Lemma snapshot_capture_witness :
  ∃ row db', create_vault_snapshot (codec:=BinaryCodec.codec) 5 5 None "v" None "n"
               (PlanTier.snapshot_retention PlanTier.Free) demo_snap_db = (Ok row, db')
    ∧ snapshots_ok db' ∧ VaultSnapshotRow.id row = 1.
Proof.
  destruct (create_vault_snapshot (codec:=BinaryCodec.codec) 5 5 None "v" None "n"
              (PlanTier.snapshot_retention PlanTier.Free) demo_snap_db) as [[row|e] db'] eqn:Hc.
  - exists row, db'. split; [reflexivity|].
    assert (snapshots_ok demo_snap_db) as H0.
    { split_and!; [apply NoDup_nil_2|constructor|constructor]. }
    destruct (snapshot_capture _ _ _ _ _ _ _ _ _ _ H0 Hc) as (Hok&Hid&_). split; [exact Hok|exact Hid].
  - exfalso. apply (f_equal fst) in Hc. vm_compute in Hc. discriminate.
Defined.

(** ** Billing *)
Definition billing_ok (db : MetaDb) : Prop := keyed BillingRow.tenant_id (tenant_billing db).

Lemma upsert_billing_map t f r db :
  billing_ok db → BillingRow.tenant_id r = t → (∀ s, BillingRow.tenant_id (f s) = BillingRow.tenant_id s) →
  ∃ tb, upsert_billing t f r db = (Ok tt, set_billing (λ _, tb) db) ∧ keyed BillingRow.tenant_id tb
    ∧ table_map BillingRow.tenant_id tb
      = <[t := match table_map BillingRow.tenant_id (tenant_billing db) !! t with
               | Some old => f old | None => r end]> (table_map BillingRow.tenant_id (tenant_billing db)).
Proof.
  intros Hk Hr Hf. unfold upsert_billing, st_bind, query, execute, st_ret.
  case_bool_decide as Hn.
  - exists (update (of_tenant t) f (tenant_billing db)). split; [done|].
    split; [by apply keyed_update|].
    change (of_tenant t) with (at_key BillingRow.tenant_id t).
    rewrite table_map_update by done.
    destruct (table_map BillingRow.tenant_id (tenant_billing db) !! t) as [old|] eqn:Hm.
    + apply map_eq. intros k. destruct (decide (k = t)) as [->|].
      * by rewrite lookup_alter_eq, lookup_insert_eq, Hm.
      * by rewrite lookup_alter_ne, lookup_insert_ne by done.
    + exfalso. rewrite table_map_None in Hm.
      destruct (decide (affected (of_tenant t) (tenant_billing db) = 0%nat)); [lia|].
      unfold affected in *. destruct (select (of_tenant t) (tenant_billing db)) as [|s l] eqn:Hs; [done|].
      assert (s ∈ select (of_tenant t) (tenant_billing db)) as [Hin Hp%bool_decide_eq_true]%elem_of_select
        by (rewrite Hs; constructor).
      by apply (Hm s Hin).
  - assert (∀ s, s ∈ tenant_billing db → BillingRow.tenant_id s ≠ t) as Hno.
    { assert (affected (of_tenant t) (tenant_billing db) = 0%nat) as H0 by lia.
      rewrite affected_0 in H0. intros s Hs Hst. specialize (H0 s Hs).
      by apply bool_decide_eq_false in H0. }
    unfold set_billing; cbn [tenant_billing].
    assert (update (of_tenant t) f (tenant_billing db) = tenant_billing db) as ->.
    { unfold update. rewrite <-(list_fmap_id (tenant_billing db)) at 2. apply list_fmap_ext.
      intros i s Hi. unfold of_tenant, is_eqb. rewrite bool_decide_eq_false_2; [done|].
      apply Hno. by eapply list_elem_of_lookup_2. }
    rewrite insert_row_some.
    2: { intros s Hs. unfold billing_clash, uniq_eqb. rewrite Hr. specialize (Hno s Hs).
         destruct t, (BillingRow.tenant_id s); try done. apply bool_decide_eq_false. congruence. }
    eexists. split; [done|]. split.
    + apply keyed_snoc; [done|]. by rewrite Hr.
    + rewrite table_map_snoc by (by rewrite Hr). rewrite Hr.
      by rewrite (proj2 (table_map_None BillingRow.tenant_id (tenant_billing db) t)) by done.
Qed.

Lemma get_plan_map t dflt db :
  billing_ok db →
  get_plan_tier t dflt db
  = (match table_map BillingRow.tenant_id (tenant_billing db) !! t with
     | Some r => map_err (λ e, match e with PlanTier.Unknown s =>
                    Invalid ("unknown plan tier: " +:+ s) end) (PlanTier.parse (BillingRow.plan_tier r))
     | None => Ok dflt
     end, db).
Proof.
  intros Hk. unfold get_plan_tier, st_bind, query, st_lift.
  change (of_tenant t) with (at_key BillingRow.tenant_id t). by rewrite select_key.
Qed.

(** A plan change, by the administrator or by a Stripe event, is read
    back as that plan, keeps one billing row per tenant (the null tenant
    included), and changes no other tenant's plan. *)
Theorem plan_tier_roundtrip now t tier dflt customer sub db :
  billing_ok db →
  ∀ m, m = set_plan_tier now t tier ∨ m = apply_stripe_subscription now t customer sub tier →
  ∃ db', m db = (Ok tt, db') ∧ billing_ok db'
    ∧ get_plan_tier t dflt db' = (Ok tier, db')
    ∧ ∀ t2, t2 ≠ t → (get_plan_tier t2 dflt db').1 = (get_plan_tier t2 dflt db).1.
Proof.
  intros Hk m Hm.
  assert (∃ f r, m = upsert_billing t f r ∧ BillingRow.tenant_id r = t
            ∧ BillingRow.plan_tier r = PlanTier.as_str tier
            ∧ (∀ s, BillingRow.tenant_id (f s) = BillingRow.tenant_id s)
            ∧ (∀ s, BillingRow.plan_tier (f s) = PlanTier.as_str tier)) as (f&r&->&Hr&Hp&Hf&Hfp).
  { destruct Hm as [-> | ->]; eexists _, _; split_and!; done. }
  destruct (upsert_billing_map t f r db Hk Hr Hf) as (tb&->&Hkey&Hmap).
  eexists. split; [done|]. split; [exact Hkey|]. split.
  - rewrite get_plan_map by exact Hkey. unfold set_billing; cbn [tenant_billing].
    rewrite Hmap, lookup_insert_eq.
    destruct (table_map _ (tenant_billing db) !! t); rewrite ?Hfp, ?Hp, PlanTier.parse_as_str; done.
  - intros t2 Hne. rewrite !get_plan_map by done. unfold set_billing; cbn [tenant_billing fst].
    by rewrite Hmap, lookup_insert_ne by done.
Qed.

Lemma plan_tier_roundtrip_witness :
  ∃ db', set_plan_tier 1 None PlanTier.Pro empty_db = (Ok tt, db')
    ∧ get_plan_tier None PlanTier.Free db' = (Ok PlanTier.Pro, db').
Proof.
  destruct (plan_tier_roundtrip 1 None PlanTier.Pro PlanTier.Free "c" "s" empty_db
              (NoDup_nil_2 : billing_ok empty_db) _ (or_introl eq_refl)) as (db'&H1&_&H2&_).
  exists db'. split; [exact H1|exact H2].
Defined.

(** Registering a vault is idempotent for a named tenant, but not for
    the null tenant of a single-tenant deployment: the uniqueness constraint
    does not compare nulls, so each registration adds a row and the vault
    count grows past the number of vaults. *)
Theorem register_vault_idempotence t v now1 now2 :
  (∀ db, let db1 := (register_tenant_vault now1 (Some t) v db).2 in
         (register_tenant_vault now2 (Some t) v db1).2 = db1)
  ∧ (count_tenant_vaults None
       (register_tenant_vault now2 None v (register_tenant_vault now1 None v empty_db).2).2).1 = Ok 2.
Proof.
  split; [|vm_compute; reflexivity]. intros db. cbv zeta.
  unfold register_tenant_vault, execute, set_vaults. cbn [snd tenant_vaults].
  set (clash := λ r s : VaultRow.t, uniq_eqb (VaultRow.tenant_id r) (VaultRow.tenant_id s)
                  && bool_decide (VaultRow.vault_id r = VaultRow.vault_id s)).
  set (t1 := default (tenant_vaults db) (insert_row clash (VaultRow.mk (Some t) v now1) (tenant_vaults db))).
  assert (insert_row clash (VaultRow.mk (Some t) v now2) t1 = None) as ->; [|done].
  unfold t1, insert_row.
  destruct (existsb (clash (VaultRow.mk (Some t) v now1)) (tenant_vaults db)) eqn:He; cbn [default from_option id].
  - change (clash (VaultRow.mk (Some t) v now2)) with (clash (VaultRow.mk (Some t) v now1)).
    by rewrite He.
  - rewrite existsb_app. cbn [existsb]. unfold clash at 2. cbn. rewrite !bool_decide_eq_true_2 by done.
    by rewrite orb_true_r.
Qed.
End MetaSyncTheorems.
