(* ===== verification/SyncLoop.v ===== *)
(** * The client's sync loop ([disk-client/src/sync_loop/mod.rs])

    The state machine that admits sync attempts and records their outcome, and
    its exponential backoff. Instants and durations are nanoseconds. A jitter
    draw is a rational number in the configured band; the product is taken
    exactly, where the source rounds to a double. *)

From stdpp Require Import prelude strings relations.
From Stdlib Require Import ZArith Lia QArith Qround Qminmax Lqa.
From S2P Require Import Prelude.

#[local] Close Scope Q_scope.
#[local] Open Scope Z_scope.

Module Backoff.
Definition secs (n : Z) : Z := n * 1000000000.

Definition POLL_INTERVAL : Z := secs 5.
Definition CYCLE_DEADLINE : Z := secs 600.
Definition BACKOFF_BASE : Z := secs 1.
Definition BACKOFF_CAP : Z := secs 60.
Definition BACKOFF_JITTER : Q := 1 # 10.

Record t := mk { base : Z; cap : Z; jitter : Q; attempt : Z }.

Definition with_defaults : t := mk BACKOFF_BASE BACKOFF_CAP BACKOFF_JITTER 0.

(** [base.as_nanos() as u64 * 2^attempt], saturating, clamped to the cap. *)
Definition capped_nanos (self : t) : Z :=
  let exp_factor := if bool_decide (attempt self < 64) then 2 ^ attempt self else u64_max in
  let unscaled_nanos := Z.min (as_u64 (base self) * exp_factor) u64_max in
  Z.min unscaled_nanos (as_u64 (cap self)).

(** [draw] is the generator's answer in [-jitter ..= jitter]; with no jitter
    none is asked for. The last cast truncates and saturates. *)
Definition next_delay (draw : Q) (self : t) : Z * t :=
  let capped := capped_nanos self in
  let jitter_scale := if Qeq_bool (jitter self) 0 then 1%Q else (1 + draw)%Q in
  let jittered := Qmax (inject_Z capped * jitter_scale) 0 in
  let final_nanos := Qmin jittered (inject_Z (cap self)) in
  (Z.min (Qfloor final_nanos) u64_max,
   mk (base self) (cap self) (jitter self) (Z.min (attempt self + 1) u32_max)).

Definition reset (self : t) : t := mk (base self) (cap self) (jitter self) 0.

(** The curve is the clamped power, for every attempt count. *)
Lemma capped_curve b :
  0 < base b ≤ cap b → cap b ≤ u64_max → 0 ≤ attempt b →
  capped_nanos b = Z.min (base b * 2 ^ attempt b) (cap b).
Proof.
  intros Hb Hc Ha. unfold capped_nanos.
  rewrite !as_u64_id by (unfold_ints; lia).
  case_bool_decide as H64; [lia|].
  assert (2 ^ 64 ≤ 2 ^ attempt b) by (apply Z.pow_le_mono_r; lia).
  assert (u64_max ≤ base b * u64_max) by (unfold_ints; nia).
  assert (u64_max ≤ base b * 2 ^ attempt b) by (unfold_ints; nia). lia.
Qed.
End Backoff.
Abbreviation Backoff := Backoff.t.

Module SyncLoop.
Inductive LoopState := Idle | Syncing | BackoffS | AclMismatch | ServerUnreachable | ErrorS.

Inductive LoopError :=
  | ShareUnknown
  | TransportUnavailable
  | AclRoleMismatch
  | AllTransfersFailed (attempted failed : Z)
  | CycleDeadlineExceeded (secs : Z).

#[global] Instance loop_state_eq_dec : EqDecision LoopState.
Proof. solve_decision. Defined.

Definition should_backoff (e : LoopError) : bool :=
  match e with AclRoleMismatch => false | _ => true end.

Record t := mk {
  cycle_deadline : Z;
  state : LoopState;
  backoff : Backoff;
  poll_interval : Z;
  backoff_until : option Z;
  last_error : option LoopError
}.

Definition new : t :=
  mk Backoff.CYCLE_DEADLINE Idle Backoff.with_defaults Backoff.POLL_INTERVAL None None.

Definition set_state (s : LoopState) (b : Backoff) (u : option Z) (e : option LoopError) (self : t) : t :=
  mk (cycle_deadline self) s b (poll_interval self) u e.

Definition with_poll_interval (poll : Z) (self : t) : t :=
  mk (cycle_deadline self) (state self) (backoff self) poll (backoff_until self) (last_error self).

Definition with_cycle_deadline (deadline : Z) (self : t) : t :=
  mk deadline (state self) (backoff self) (poll_interval self) (backoff_until self) (last_error self).

(** The trigger is an argument the source does not read. *)
Definition begin_sync (now : Z) (self : t) : bool * t :=
  let start u := (true, set_state Syncing (backoff self) u (last_error self) self) in
  match state self with
  | AclMismatch => (false, self)
  | BackoffS =>
      match backoff_until self with
      | Some deadline => if bool_decide (now < deadline) then (false, self) else start None
      | None => start None
      end
  | _ => start (backoff_until self)
  end.

Definition finish_sync (outcome : result unit LoopError) (now : Z) (draw : Q) (self : t) : t :=
  match outcome with
  | Ok _ => set_state Idle (Backoff.reset (backoff self)) None None self
  | Err err =>
      if should_backoff err then
        let '(delay, b) := Backoff.next_delay draw (backoff self) in
        let s := match err with
                 | TransportUnavailable => ServerUnreachable
                 | AllTransfersFailed _ _ | CycleDeadlineExceeded _ => ErrorS
                 | _ => BackoffS
                 end in
        set_state s b (Some (now + delay)) (Some err) self
      else set_state AclMismatch (backoff self) None (Some err) self
  end.

Definition clear_acl_mismatch (self : t) : t :=
  if decide (state self = AclMismatch)
  then set_state Idle (Backoff.reset (backoff self)) (backoff_until self) None self
  else self.

(** One iteration: [execute] is what the transport returned, [None] when it
    was still running at the cycle's deadline. *)
Definition run_iteration (now now' : Z) (draw : Q) (execute : option (result unit LoopError))
    (self : t) : option (result unit LoopError) * t :=
  let '(began, self) := begin_sync now self in
  if began then
    let outcome := default (Err (CycleDeadlineExceeded (cycle_deadline self / 1000000000))) execute in
    (Some outcome, finish_sync outcome now' draw self)
  else (None, self).

(** The loop's life: any sequence of its public operations. *)
Inductive step (self : t) : t → Prop :=
  | step_begin now : step self (begin_sync now self).2
  | step_finish outcome now draw : step self (finish_sync outcome now draw self)
  | step_poll poll : step self (with_poll_interval poll self)
  | step_deadline deadline : step self (with_cycle_deadline deadline self)
  | step_clear : step self (clear_acl_mismatch self)
  | step_run now now' draw execute : step self (run_iteration now now' draw execute self).2.

(** What the observable state says of the last error and the deadline. A sync
    in flight still shows what the attempt before it left, less the deadline
    that [Backoff] waited for. *)
Definition inv (self : t) : Prop :=
  0 ≤ Backoff.attempt (backoff self) ≤ u32_max
  ∧ Backoff.base (backoff self) = Backoff.BACKOFF_BASE
  ∧ Backoff.cap (backoff self) = Backoff.BACKOFF_CAP
  ∧ Backoff.jitter (backoff self) = Backoff.BACKOFF_JITTER
  ∧ match state self with
    | Idle => last_error self = None ∧ backoff_until self = None ∧ Backoff.attempt (backoff self) = 0
    | Syncing => match last_error self with
                 | None | Some ShareUnknown => backoff_until self = None
                 | Some AclRoleMismatch => False
                 | Some _ => is_Some (backoff_until self)
                 end
    | BackoffS => last_error self = Some ShareUnknown ∧ is_Some (backoff_until self)
    | AclMismatch => last_error self = Some AclRoleMismatch ∧ backoff_until self = None
    | ServerUnreachable => last_error self = Some TransportUnavailable ∧ is_Some (backoff_until self)
    | ErrorS => is_Some (backoff_until self)
        ∧ ∃ e, last_error self = Some e
            ∧ match e with AllTransfersFailed _ _ | CycleDeadlineExceeded _ => True | _ => False end
    end.

Lemma begin_inv now s : inv s → inv (begin_sync now s).2.
Proof.
  intros Hi. unfold begin_sync. destruct Hi as (?&?&?&?&Hs).
  destruct (state s) eqn:Hst; simpl; try (unfold inv; simpl; by naive_solver).
  - unfold inv; simpl. destruct Hs as (->&?&_). done.
  - destruct Hs as [He [d Hd]]. rewrite Hd. case_bool_decide; unfold inv; simpl; [|by rewrite He].
    rewrite Hst, Hd. by eauto 10.
  - unfold inv. rewrite Hst. naive_solver.
  - unfold inv; simpl. destruct Hs as [-> ?]. done.
  - unfold inv; simpl. destruct Hs as (?&e&->&?). by destruct e.
Qed.

Lemma finish_inv o now draw s : inv s → inv (finish_sync o now draw s).
Proof.
  intros ([Ha1 Ha2]&?&?&?&_).
  assert (0 ≤ Z.min (Backoff.attempt (backoff s) + 1) u32_max ≤ u32_max) by (unfold_ints; lia).
  unfold finish_sync. destruct o as [u|[]]; unfold inv; cbn; repeat split; eauto; try (unfold_ints; lia).
  all: eexists; split; [reflexivity|exact I].
Qed.

Lemma step_inv s s' : step s s' → inv s → inv s'.
Proof.
  intros [] Hi.
  - by apply begin_inv.
  - by apply finish_inv.
  - exact Hi.
  - exact Hi.
  - unfold clear_acl_mismatch. case_decide as Hs; [|done].
    destruct Hi as (?&?&?&?&Hm). rewrite Hs in Hm. destruct Hm as [_ Hu].
    unfold inv; simpl. split_and!; try done; unfold_ints; lia.
  - unfold run_iteration. pose proof (begin_inv now s Hi) as Hb.
    destruct (begin_sync now s) as [[] s1]; simpl in *; [by apply finish_inv|done].
Qed.

Lemma new_inv : inv new.
Proof. unfold inv, new; simpl. split_and!; try done; unfold_ints; lia. Qed.

Lemma reachable_inv s : rtc step new s → inv s.
Proof.
  intros Hr. cut (inv new); [|apply new_inv]. revert Hr. generalize new.
  induction 1; eauto using step_inv.
Qed.
End SyncLoop.

Module SyncLoopProps.
Import Backoff SyncLoop.

Lemma next_delay_bounds b draw :
  0 < base b ≤ cap b → cap b ≤ u64_max → 0 ≤ attempt b →
  (- jitter b <= draw)%Q → (draw <= jitter b)%Q → (0 <= jitter b)%Q → (jitter b <= 1)%Q →
  let d := (next_delay draw b).1 in
  let m := Z.min (base b * 2 ^ attempt b) (cap b) in
  0 ≤ d ≤ cap b
  ∧ (inject_Z m * (1 - jitter b) < inject_Z d + 1)%Q
  ∧ (inject_Z d <= inject_Z m * (1 + jitter b))%Q.
Proof.
  intros Hb Hc Ha Hlo Hhi Hj0 Hj1. cbv zeta. unfold next_delay; cbn [fst].
  rewrite capped_curve by done. set (m := Z.min (base b * 2 ^ attempt b) (cap b)).
  assert (0 < m ≤ cap b) as Hm by (unfold m; pose proof (Z.pow_pos_nonneg 2 (attempt b)); nia).
  set (scale := if Qeq_bool (jitter b) 0 then 1%Q else (1 + draw)%Q).
  assert ((1 - jitter b <= scale)%Q ∧ (scale <= 1 + jitter b)%Q) as [Hs1 Hs2].
  { unfold scale. destruct (Qeq_bool (jitter b) 0) eqn:He; split; lra. }
  assert (0 <= scale)%Q by lra.
  assert (0 < inject_Z m)%Q by (change 0%Q with (inject_Z 0); rewrite <-Zlt_Qlt; lia).
  assert (inject_Z m <= inject_Z (cap b))%Q by (rewrite <-Zle_Qle; lia).
  assert (0 <= inject_Z m * scale)%Q by nra.
  set (x := Qmin (Qmax (inject_Z m * scale) 0) (inject_Z (cap b))).
  assert (x <= inject_Z (cap b))%Q by apply Q.le_min_r.
  assert (x <= inject_Z m * scale)%Q.
  { eapply Qle_trans; [apply Q.le_min_l|]. apply Q.max_lub; lra. }
  assert (inject_Z m * (1 - jitter b) <= x)%Q.
  { apply Q.min_glb; [|nra]. eapply Qle_trans; [|apply Q.le_max_l]. nra. }
  assert (0 <= x)%Q by nra.
  pose proof (Qfloor_le x) as Hfl. pose proof (Qlt_floor x) as Hfl2.
  rewrite (Z.min_l (Qfloor x)).
  2:{ pose proof (Qfloor_resp_le x (inject_Z (cap b))) as Hf. rewrite Qfloor_Z in Hf.
      specialize (Hf ltac:(done)). lia. }
  rewrite inject_Z_plus in Hfl2. change (inject_Z 1) with 1%Q in Hfl2. split_and!.
  - change 0 with (Qfloor 0). by apply Qfloor_resp_le.
  - rewrite <-(Qfloor_Z (cap b)). by apply Qfloor_resp_le.
  - lra.
  - nra.
Qed.

Lemma next_delay_positive b draw :
  base b = BACKOFF_BASE → cap b = BACKOFF_CAP → jitter b = BACKOFF_JITTER →
  0 ≤ attempt b → (- BACKOFF_JITTER <= draw)%Q → (draw <= BACKOFF_JITTER)%Q →
  0 < (next_delay draw b).1.
Proof.
  intros Hb Hc Hj Ha Hlo Hhi.
  destruct (next_delay_bounds b draw) as (_&H2&_); rewrite ?Hb, ?Hc, ?Hj; try done.
  rewrite Hb, Hc, Hj in H2. revert H2. generalize ((next_delay draw b).1). intros d H2.
  assert (BACKOFF_BASE ≤ Z.min (BACKOFF_BASE * 2 ^ attempt b) BACKOFF_CAP) as Hm.
  { assert (1 ≤ 2 ^ attempt b) by (pose proof (Z.pow_pos_nonneg 2 (attempt b)); lia).
    unfold BACKOFF_BASE, BACKOFF_CAP, secs. lia. }
  rewrite Zle_Qle in Hm. rewrite Zlt_Qlt.
  unfold BACKOFF_JITTER in H2. change (inject_Z BACKOFF_BASE) with (1000000000 # 1)%Q in Hm.
  change (inject_Z 0) with 0%Q. apply Qnot_le_lt. intros Hd. lra.
Qed.

(** The delay after the n-th failure in a row is the base doubled n
    times and clamped to the cap, up to the jitter band and a nanosecond of
    truncation; it never exceeds the cap, for any attempt count up to the
    counter's saturation, and success starts the curve again. *)
Theorem backoff_curve b draw :
  base b = BACKOFF_BASE → cap b = BACKOFF_CAP → jitter b = BACKOFF_JITTER →
  0 ≤ attempt b ≤ u32_max → (- BACKOFF_JITTER <= draw)%Q → (draw <= BACKOFF_JITTER)%Q →
  let d := (next_delay draw b).1 in
  let m := Z.min (BACKOFF_BASE * 2 ^ attempt b) BACKOFF_CAP in
  0 ≤ d ≤ BACKOFF_CAP
  ∧ (inject_Z m * (9 # 10) < inject_Z d + 1)%Q
  ∧ (inject_Z d <= inject_Z m * (11 # 10))%Q
  ∧ attempt (next_delay draw b).2 = Z.min (attempt b + 1) u32_max
  ∧ attempt (reset b) = 0.
Proof.
  intros Hb Hc Hj Ha Hlo Hhi. cbv zeta.
  destruct (next_delay_bounds b draw) as (H1&H2&H3);
    rewrite ?Hb, ?Hc, ?Hj; try done; try lia.
  rewrite Hb, Hc, Hj in *. split_and!; try done; try lia.
Qed.

Lemma backoff_curve_witness :
  let d := (next_delay 0 (Backoff.mk BACKOFF_BASE BACKOFF_CAP BACKOFF_JITTER 3)).1 in
  d = secs 8 ∧ 0 ≤ d ≤ BACKOFF_CAP.
Proof.
  split; [vm_compute; reflexivity|].
  apply (backoff_curve (Backoff.mk BACKOFF_BASE BACKOFF_CAP BACKOFF_JITTER 3) 0); try reflexivity;
    try (vm_compute; discriminate). split; vm_compute; discriminate.
Defined.


Definition after_unknown_share : SyncLoop.t :=
  (run_iteration 0 (secs 1) 0 (Some (Err ShareUnknown)) new).2.


(** The retry deadline is not honoured after a transport failure, a
    cycle that moved nothing or a cycle past its deadline: from every
    reachable state the loop records a deadline that lies in the future, yet
    the next attempt is admitted at any time, even at once, and the stale
    deadline stays visible while that attempt runs. *)
Theorem retry_deadline_ignored err draw now now' s :
  rtc step new s → (- BACKOFF_JITTER <= draw)%Q → (draw <= BACKOFF_JITTER)%Q →
  err = TransportUnavailable ∨ (∃ a f, err = AllTransfersFailed a f)
    ∨ (∃ n, err = CycleDeadlineExceeded n) →
  let s' := finish_sync (Err err) now draw s in
  (∃ deadline, backoff_until s' = Some deadline ∧ now < deadline
     ∧ backoff_until (begin_sync now' s').2 = Some deadline)
  ∧ (begin_sync now' s').1 = true
  ∧ state (begin_sync now' s').2 = Syncing.
Proof.
  intros Hr Hlo Hhi. destruct (reachable_inv s Hr) as (Ha&Hb&Hc&Hj&_).
  pose proof (next_delay_positive (backoff s) draw Hb Hc Hj (proj1 Ha) Hlo Hhi) as Hd.
  assert (now < now + (next_delay draw (backoff s)).1) by lia.
  intros [->|[(a&f&->)|(n&->)]]; (split; [eexists; split_and!; [reflexivity|done|reflexivity]|done]).
Qed.

Lemma retry_deadline_ignored_witness :
  let s' := finish_sync (Err TransportUnavailable) 0 0 new in
  backoff_until s' = Some (secs 1) ∧ (begin_sync 0 s').1 = true.
Proof.
  split; [vm_compute; reflexivity|].
  exact (proj1 (proj2 (retry_deadline_ignored TransportUnavailable 0 0 0 new
    (rtc_refl _ _) ltac:(vm_compute; discriminate) ltac:(vm_compute; discriminate)
    (or_introl eq_refl)))).
Defined.
End SyncLoopProps.
