(* ===== verification/Auth.v ===== *)
(** * Authentication of nodes ([disk-server/src/auth/], [middleware/replay.rs])

    The failed-attempt limiter, API keys and session tokens, the store of
    nodes and sessions, and the replay guard. The clock's reading is an
    argument of each call, as is what the random generator fills; [blake3] and
    the base-32 encoder are third-party code and parameters. *)

From stdpp Require Import prelude strings gmap relations.
From Stdlib Require Import ZArith Lia.
From Stdlib Require String.
From S2P Require Import Prelude Text.

#[local] Open Scope Z_scope.

(** ** [auth/rate_limit.rs] *)
Module RateLimit.
Definition DEFAULT_MAX_FAILURES : Z := 5.
Definition DEFAULT_ENROLL_MAX_FAILURES : Z := 10.
Definition DEFAULT_WINDOW : Z := 60.

Record RateLimitError := { retry_after : Z }.

Record t := mk { failures : gmap string (list Z); max_failures : Z; window_secs : Z }.

Definition new (max_failures window : Z) : t := mk ∅ max_failures (Z.max window 1).

Definition default : t := new DEFAULT_MAX_FAILURES DEFAULT_WINDOW.

Definition with_failures (m : gmap string (list Z)) (self : t) : t :=
  mk m (max_failures self) (window_secs self).

Definition recent (self : t) (now_secs t : Z) : bool :=
  bool_decide (u64_saturating_sub now_secs t < window_secs self).

Definition retain (self : t) (now_secs : Z) (l : list Z) : list Z :=
  filter (λ t, recent self now_secs t = true) l.

Definition prune_and_count (node_id : string) (now_secs : Z) (self : t) : Z * t :=
  match failures self !! node_id with
  | None => (0, self)
  | Some entry =>
      let entry := retain self now_secs entry in
      (as_u32 (Z.of_nat (length entry)),
       with_failures (<[node_id := entry]> (failures self)) self)
  end.

Definition list_min (l : list Z) : option Z :=
  match l with [] => None | x :: l => Some (foldl Z.min x l) end.

Definition retry_after_secs (self : t) (node_id : string) (now_secs : Z) : Z :=
  match failures self !! node_id with
  | None => window_secs self
  | Some entry =>
      let oldest := from_option id now_secs (list_min entry) in
      let elapsed := u64_saturating_sub now_secs oldest in
      Z.max (u64_saturating_sub (window_secs self) elapsed) 1
  end.

Definition check (node_id : string) (now_secs : Z) (self : t) : result unit RateLimitError * t :=
  let '(count, self) := prune_and_count node_id now_secs self in
  if bool_decide (max_failures self ≤ count)
  then (Err {| retry_after := retry_after_secs self node_id now_secs |}, self)
  else (Ok tt, self).

Definition record_failure (node_id : string) (now_secs : Z) (self : t) : t :=
  let entry := from_option id [] (failures self !! node_id) in
  with_failures (<[node_id := retain self now_secs entry ++ [now_secs]]> (failures self)) self.

Definition clear (node_id : string) (self : t) : t :=
  with_failures (delete node_id (failures self)) self.
End RateLimit.

(** ** [auth/api_key.rs] *)
Module ApiKey.
Section keys.
Context (blake3 : bytes → bytes) (base32 : bytes → string).

(** [raw] is what the generator fills the 32-byte buffer with. *)
Definition generate (raw : bytes) : string := "arc_disk_" +:+ base32 raw.

Definition hash (key : string) : bytes := blake3 (String.list_byte_of_string key).

Definition verify (candidate : string) (stored_hash : bytes) : bool :=
  bool_decide (blake3 (String.list_byte_of_string candidate) = stored_hash).

Definition display (_ : string) : string := "arc_disk_***".
End keys.
End ApiKey.

Module SessionToken.
Definition generate (base32 : bytes → string) (raw : bytes) : string :=
  "arc_disk_sess_" +:+ base32 raw.

Definition from_bearer (value : string) : option string :=
  s ← implode <$> strip_prefix (explode "Bearer ") (explode value);
  if starts_with s "arc_disk_sess_" then Some s else None.

Definition display (_ : string) : string := "arc_disk_sess_***".
End SessionToken.

(** ** [auth/storage.rs] *)
Module AuthStore.
Definition SESSION_TTL : Z := 24 * 60 * 60.

Record NodeEntry := {
  node_id : string;
  api_key_hash : bytes;
  display_name : string;
  platform : string;
  registered_at : Z;
  tenant_id : option string
}.

Record SessionEntry := { session_node : string; expires_at : Z }.

Record t := mk {
  nodes : gmap string NodeEntry;
  sessions : gmap string SessionEntry;
  limiter : option RateLimit.t
}.

Inductive AuthError := AlreadyExists | Unauthenticated | RateLimited (retry_after_secs : Z) | SessionExpired.

Definition with_rate_limiter (l : option RateLimit.t) : t := mk ∅ ∅ l.
Definition new : t := with_rate_limiter (Some RateLimit.default).

Definition set_limiter (l : option RateLimit.t) (self : t) : t := mk (nodes self) (sessions self) l.
Definition set_nodes (m : gmap string NodeEntry) (self : t) : t := mk m (sessions self) (limiter self).
Definition set_sessions (m : gmap string SessionEntry) (self : t) : t := mk (nodes self) m (limiter self).

Definition has_node (self : t) (node : string) : bool := bool_decide (is_Some (nodes self !! node)).
Definition node_count (self : t) : nat := size (nodes self).
Definition session_count (self : t) : nat := size (sessions self).
Definition node_tenant (self : t) (node : string) : option string :=
  nodes self !! node ≫= tenant_id.

Section store.
Context (blake3 : bytes → bytes) (base32 : bytes → string).

(** [register_node] tests and inserts in two separate accesses to the map. *)
Definition register_insert (now : Z) (raw : bytes) (node display platform : string)
    (tenant : option string) (self : t) : string * t :=
  let key := ApiKey.generate base32 raw in
  (key, set_nodes (<[node := {| node_id := node; api_key_hash := ApiKey.hash blake3 key;
                                display_name := display; platform := platform;
                                registered_at := as_i64 now; tenant_id := tenant |}]> (nodes self)) self).

Definition register_node (now : Z) (raw : bytes) (node display platform : string)
    (tenant : option string) (self : t) : result string AuthError * t :=
  if has_node self node then (Err AlreadyExists, self)
  else let '(key, self) := register_insert now raw node display platform tenant self in (Ok key, self).

Definition limiter_check (node : string) (now : Z) (self : t) : result unit AuthError * t :=
  match limiter self with
  | None => (Ok tt, self)
  | Some l =>
      let '(r, l) := RateLimit.check node now l in
      (map_err (λ e, RateLimited (RateLimit.retry_after e)) r, set_limiter (Some l) self)
  end.

(** [now] is the first reading of the clock and [now'] the second. *)
Definition authenticate (now now' : Z) (raw : bytes) (node api_key : string) (self : t)
    : result (string * Z) AuthError * t :=
  match limiter_check node now self with
  | (Err e, self) => (Err e, self)
  | (Ok _, self) =>
      let authed := match nodes self !! node with
                    | Some entry => ApiKey.verify blake3 api_key (api_key_hash entry)
                    | None => false
                    end in
      if authed then
        let self := set_limiter (RateLimit.clear node <$> limiter self) self in
        let expires := now' + SESSION_TTL in
        let token := SessionToken.generate base32 raw in
        (Ok (token, as_i64 expires),
         set_sessions (<[token := {| session_node := node; expires_at := expires |}]> (sessions self)) self)
      else
        (Err Unauthenticated, set_limiter (RateLimit.record_failure node now <$> limiter self) self)
  end.
End store.

Definition validate_session (now : Z) (token : string) (self : t) : option string * t :=
  match sessions self !! token with
  | None => (None, self)
  | Some entry =>
      if bool_decide (expires_at entry ≤ now)
      then (None, set_sessions (delete token (sessions self)) self)
      else (Some (session_node entry), self)
  end.

Definition hydrate_node (node display platform : string) (key_hash : bytes) (registered : Z)
    (tenant : option string) (self : t) : bool * t :=
  match nodes self !! node with
  | Some _ => (false, self)
  | None =>
      (true, set_nodes (<[node := {| node_id := node; api_key_hash := key_hash;
                                     display_name := display; platform := platform;
                                     registered_at := registered; tenant_id := tenant |}]>
                          (nodes self)) self)
  end.
End AuthStore.

(** ** [middleware/replay.rs] *)
Module ReplayGuard.
Inductive ReplayError := Replayed (received last_seen : Z).

(** Last sequence number seen on each [(node_id, stream_id)]. *)
Abbreviation t := (gmap (string * Z) Z).

Definition new : t := ∅.

Definition check_and_advance (node_id : string) (stream_id seq_id : Z) (self : t)
    : result unit ReplayError * t :=
  let key := (node_id, stream_id) in
  let entry := from_option id 0 (self !! key) in
  if bool_decide (seq_id ≤ entry)
  then (Err (Replayed seq_id entry), <[key := entry]> self)
  else (Ok tt, <[key := seq_id]> self).

Definition close_stream (node_id : string) (stream_id : Z) (self : t) : t :=
  delete (node_id, stream_id) self.
End ReplayGuard.

(** ** The limiter against its full history *)
Section limiter.
Import RateLimit.

Inductive event := Fail (node : string) (at_ : Z) | Clear (node : string) | Check (node : string) (at_ : Z).

Definition event_time (e : event) : option Z :=
  match e with Fail _ t | Check _ t => Some t | Clear _ => None end.

Definition apply_event (l : RateLimit.t) (e : event) : RateLimit.t :=
  match e with
  | Fail n t => record_failure n t l
  | Clear n => clear n l
  | Check n t => (check n t l).2
  end.

Definition run (max window : Z) (h : list event) : RateLimit.t := foldl apply_event (new max window) h.

(** The failures of a node since it was last cleared, none forgotten. *)
Definition add_pending (node : string) (acc : list Z) (e : event) : list Z :=
  match e with
  | Fail n t => if decide (n = node) then acc ++ [t] else acc
  | Clear n => if decide (n = node) then [] else acc
  | Check _ _ => acc
  end.
Definition pending (node : string) (h : list event) : list Z := foldl (add_pending node) [] h.

(** Those of them less than a window old. *)
Definition in_window (window now : Z) (l : list Z) : list Z := filter (λ t, now - t < window) l.

(** Every reading of the clock up to [now], in order. *)
Fixpoint clocked (from : Z) (h : list event) (now : Z) : Prop :=
  match h with
  | [] => from ≤ now
  | e :: h => from ≤ from_option id from (event_time e)
              ∧ clocked (from_option id from (event_time e)) h now
  end.

Lemma clocked_snoc from h e now :
  clocked from (h ++ [e]) now ↔
  ∃ now', clocked from h now' ∧ from_option id now' (event_time e) ≤ now
          ∧ now' ≤ from_option id now' (event_time e).
Proof.
  revert from. induction h as [|x h IH]; intros from; simpl.
  - split.
    + intros [H1 H2]. exists from. destruct (event_time e); simpl in *; lia.
    + intros (n&H1&H2&H3). destruct (event_time e); simpl in *; lia.
  - rewrite IH. naive_solver.
Qed.

Lemma clocked_le from h now now' : clocked from h now → now ≤ now' → clocked from h now'.
Proof. revert from. induction h; simpl; intros; [lia|naive_solver]. Qed.

Lemma clocked_pending from h now node :
  clocked from h now → from ≤ now ∧ Forall (λ t, from ≤ t ≤ now) (pending node h).
Proof.
  unfold pending. revert now. induction h as [|e h IH] using rev_ind; intros now; simpl.
  - intros. split; [lia|constructor].
  - rewrite clocked_snoc. intros (n&H1&H2&H3). destruct (IH _ H1) as [Hf Hp].
    assert (n ≤ now) by lia. split; [lia|]. rewrite foldl_app. simpl.
    assert (Forall (λ t, from ≤ t ≤ now) (foldl (add_pending node) [] h)) as Hp'.
    { eapply Forall_impl; [exact Hp|]. simpl. lia. }
    destruct e; simpl in *; repeat case_decide; try done; try by constructor.
    apply Forall_app. split; [done|]. constructor; [lia|constructor].
Qed.

Lemma retain_window l now ts :
  Forall (λ t, t ≤ now) ts → retain l now ts = in_window (window_secs l) now ts.
Proof.
  intros Hts. unfold retain, in_window. induction Hts as [|t ts Ht _ IH]; [done|].
  rewrite !filter_cons, IH. unfold recent.
  repeat case_decide; case_bool_decide; unfold_ints; try done; lia.
Qed.

Lemma in_window_later w now now' ts :
  now ≤ now' → in_window w now' (in_window w now ts) = in_window w now' ts.
Proof.
  intros Hn. unfold in_window. induction ts as [|t ts IH]; [done|].
  rewrite !filter_cons. case_decide; case_decide; rewrite ?filter_cons, ?IH; try done.
  - by rewrite decide_True.
  - by rewrite decide_False.
  - lia.
Qed.

Lemma in_window_app w now l k : in_window w now (l ++ k) = in_window w now l ++ in_window w now k.
Proof. unfold in_window. by rewrite filter_app. Qed.

Lemma in_window_subset w now ts t : t ∈ in_window w now ts → t ∈ ts ∧ now - t < w.
Proof. unfold in_window. rewrite list_elem_of_filter. tauto. Qed.

Lemma run_config max window h :
  max_failures (run max window h) = max ∧ window_secs (run max window h) = Z.max window 1.
Proof.
  unfold run. induction h as [|e h IH] using rev_ind; [done|]. rewrite foldl_app. simpl.
  revert IH. generalize (foldl apply_event (new max window) h). intros l IH.
  destruct e; simpl; try exact IH. unfold check, prune_and_count.
  destruct (failures l !! node); simpl; case_bool_decide; exact IH.
Qed.

Lemma prune_entry node now l :
  failures (prune_and_count node now l).2
    = match failures l !! node with
      | Some entry => <[node := retain l now entry]> (failures l)
      | None => failures l
      end.
Proof. unfold prune_and_count. by case_match. Qed.

Lemma check_state node now l : (check node now l).2 = (prune_and_count node now l).2.
Proof. unfold check. destruct (prune_and_count node now l) as [c l']. by case_bool_decide. Qed.

Definition entry_of (node : string) (l : RateLimit.t) : list Z :=
  from_option id [] (failures l !! node).

(** What the limiter remembers agrees with the whole history on every window
    that ends now or later, and holds no invented failure. *)
Lemma run_entry max window h now node :
  clocked 0 h now →
  entry_of node (run max window h) ⊆ pending node h
  ∧ ∀ now', now ≤ now' →
      in_window (Z.max window 1) now' (entry_of node (run max window h))
      = in_window (Z.max window 1) now' (pending node h).
Proof.
  revert now. induction h as [|e h IH] using rev_ind; intros now.
  { intros _. unfold run, entry_of; simpl. rewrite lookup_empty. done. }
  rewrite clocked_snoc. intros (n0&Hc&Hle&Hge). specialize (IH _ Hc) as [Hsub Heq].
  destruct (clocked_pending _ _ _ node Hc) as [_ Hpend].
  destruct (run_config max window h) as [_ Hw].
  unfold run, pending in *. rewrite !foldl_app. cbn [foldl].
  set (l := foldl apply_event (new max window) h) in *.
  set (p := foldl (add_pending node) [] h) in *.
  assert (∀ t, n0 ≤ t → retain l t (entry_of node l) = in_window (Z.max window 1) t (entry_of node l)) as Hret.
  { intros t Ht. rewrite retain_window, Hw; [done|]. apply Forall_forall. intros x Hx.
    eapply Forall_forall in Hpend; [|by apply Hsub]. simpl in *. lia. }
  destruct e as [n t|n|n t]; simpl in *.
  - unfold entry_of; simpl. case_decide as Hn.
    + subst n. rewrite lookup_insert_eq. simpl. fold (entry_of node l). rewrite Hret by lia. split.
      * intros x. rewrite !elem_of_app. intros [Hx|?]; [left|by right].
        by apply Hsub, (in_window_subset (Z.max window 1) t).
      * intros now' Hn'. rewrite !in_window_app, in_window_later by lia. by rewrite Heq by lia.
    + rewrite lookup_insert_ne by done. split; [done|]. intros. apply Heq. lia.
  - unfold entry_of; simpl. case_decide as Hn.
    + subst n. rewrite lookup_delete_eq. done.
    + rewrite lookup_delete_ne by done. split; [done|]. intros. apply Heq. lia.
  - unfold entry_of. rewrite check_state, prune_entry.
    destruct (failures l !! n) as [en|] eqn:Hen; [|split; [done|]; intros; apply Heq; lia].
    destruct (decide (n = node)) as [->|Hn].
    + rewrite lookup_insert_eq. simpl.
      assert (en = entry_of node l) as -> by (unfold entry_of; by rewrite Hen).
      rewrite Hret by lia. split.
      * intros x Hx. by apply Hsub, (in_window_subset (Z.max window 1) t).
      * intros. rewrite in_window_later by lia. apply Heq. lia.
    + rewrite lookup_insert_ne by done. split; [done|]. intros. apply Heq. lia.
Qed.

Lemma run_entry_length max window h node :
  (length (entry_of node (run max window h)) ≤ length h)%nat.
Proof.
  unfold run, entry_of. induction h as [|e h IH] using rev_ind; [done|].
  rewrite foldl_app, length_app. cbn [foldl length].
  revert IH. generalize (foldl apply_event (new max window) h). intros l IH.
  destruct e as [n t|n|n t]; cbn [apply_event].
  - unfold record_failure. cbn. destruct (decide (n = node)) as [->|].
    + rewrite lookup_insert_eq. cbn. rewrite length_app. cbn.
      pose proof (length_filter (λ x, recent l t x = true) (from_option id [] (failures l !! node))).
      unfold retain. lia.
    + rewrite lookup_insert_ne by done. lia.
  - unfold clear. cbn. destruct (decide (n = node)) as [->|].
    + rewrite lookup_delete_eq. cbn. lia.
    + rewrite lookup_delete_ne by done. lia.
  - rewrite check_state, prune_entry. destruct (failures l !! n) as [en|] eqn:Hen; [|lia].
    destruct (decide (n = node)) as [->|].
    + rewrite lookup_insert_eq. rewrite Hen in IH. cbn in *.
      pose proof (length_filter (λ x, recent l t x = true) en). unfold retain. lia.
    + rewrite lookup_insert_ne by done. lia.
Qed.

Lemma fold_min_spec l x : foldl Z.min x l ∈ x :: l ∧ Forall (λ t, foldl Z.min x l ≤ t) (x :: l).
Proof.
  revert x. induction l as [|y l IH]; intros x; simpl.
  - split; [by left|]. constructor; [lia|constructor].
  - destruct (IH (x `min` y)) as [H1 H2]. apply Forall_cons in H2 as [H2 H3]. split.
    + set_unfold. destruct H1 as [->|?]; [destruct (Z.min_spec x y); naive_solver|tauto].
    + repeat constructor; try lia. done.
Qed.

Lemma list_min_spec l : l ≠ [] → ∃ m, list_min l = Some m ∧ m ∈ l ∧ Forall (λ t, m ≤ t) l.
Proof. destruct l as [|x l]; [done|]. intros _. eexists. split; [done|]. apply fold_min_spec. Qed.
End limiter.

Section check_lemmas.
Import RateLimit.

(** The whole check in terms of the pruned entry. *)
Lemma check_spec node now l :
  Forall (λ t, t ≤ now) (entry_of node l) → Z.of_nat (length (entry_of node l)) ≤ u32_max →
  1 ≤ window_secs l →
  let L := in_window (window_secs l) now (entry_of node l) in
  (check node now l).1 =
    if decide (max_failures l ≤ Z.of_nat (length L))
    then Err {| retry_after := window_secs l - (now - from_option id now (list_min L)) |}
    else Ok tt.
Proof.
  intros Hle Hlen Hw. cbv zeta. unfold check, prune_and_count, entry_of in *.
  destruct (failures l !! node) as [en|] eqn:Hen; cbn [from_option id] in *.
  - rewrite retain_window by done. cbn [fst snd max_failures with_failures].
    set (L := in_window _ _ _). assert (length L ≤ length en)%nat by apply length_filter.
    unfold as_u32. rewrite Z.mod_small by (unfold_ints; lia).
    case_bool_decide; case_decide; try lia; [|done]. cbn [fst]. do 2 f_equal.
    unfold retry_after_secs. cbn [failures with_failures window_secs]. rewrite lookup_insert_eq.
    destruct (decide (L = [])) as [HL|HL].
    + rewrite HL. cbn [list_min from_option id]. unfold_ints. lia.
    + destruct (list_min_spec L HL) as (m&Hm&Hin&_). rewrite Hm. cbn [from_option id].
      apply in_window_subset in Hin as [Hin Hrec].
      eapply Forall_forall in Hin; [|exact Hle]. simpl in Hin. unfold_ints. lia.
  - cbn [in_window filter]. unfold in_window. simpl.
    case_bool_decide; case_decide; simpl in *; try lia; [|done].
    unfold retry_after_secs. rewrite Hen. do 2 f_equal. lia.
Qed.

(** Before the oldest failure of a window leaves it, the window is whole. *)
Lemma window_until w now now' ts m :
  now ≤ now' < w + m → Forall (λ t, m ≤ t) (in_window w now ts) →
  in_window w now' ts = in_window w now ts.
Proof.
  intros [H1 H2] Hm. rewrite <-(in_window_later w now) by done. revert Hm.
  generalize (in_window w now ts). intros l Hl. unfold in_window.
  induction Hl as [|t l Ht _ IH]; [done|]. rewrite filter_cons, decide_True by lia. by rewrite IH.
Qed.

Lemma window_after w now now' ts m :
  now ≤ now' → m ∈ in_window w now ts → w ≤ now' - m →
  (length (in_window w now' ts) < length (in_window w now ts))%nat.
Proof.
  intros Hn Hin Hm. rewrite <-(in_window_later w now) by done. revert Hin.
  generalize (in_window w now ts). intros l Hin. unfold in_window.
  apply list_elem_of_split in Hin as (l1&l2&->).
  rewrite filter_app, filter_cons, decide_False by lia. rewrite !length_app. simpl.
  pose proof (length_filter (λ t, now' - t < w) l1).
  pose proof (length_filter (λ t, now' - t < w) l2). lia.
Qed.
End check_lemmas.

(** ** The store's life *)
Section store_trace.
Import AuthStore.
Context (blake3 : bytes → bytes) (base32 : bytes → string).

Inductive auth_op :=
  | Register (now : Z) (raw : bytes) (node display platform : string) (tenant : option string)
  | Hydrate (node display platform : string) (key_hash : bytes) (registered : Z) (tenant : option string)
  | Authenticate (now now' : Z) (raw : bytes) (node api_key : string)
  | Validate (now : Z) (token : string).

Definition apply_op (s : AuthStore.t) (o : auth_op) : AuthStore.t :=
  match o with
  | Register now raw node d p t => (register_node blake3 base32 now raw node d p t s).2
  | Hydrate node d p h r t => (hydrate_node node d p h r t s).2
  | Authenticate now now' raw node key => (authenticate blake3 base32 now now' raw node key s).2
  | Validate now token => (validate_session now token s).2
  end.

Definition run_ops (l : option RateLimit.t) (ops : list auth_op) : AuthStore.t :=
  foldl apply_op (with_rate_limiter l) ops.

Lemma limiter_check_frame node now s :
  nodes (limiter_check node now s).2 = nodes s
  ∧ sessions (limiter_check node now s).2 = sessions s.
Proof.
  unfold limiter_check. destruct (limiter s); [|done]. by destruct (RateLimit.check node now _).
Qed.

(** The key presented is the one on record. *)
Definition good_key (s : AuthStore.t) (node key : string) : Prop :=
  ∃ entry, nodes s !! node = Some entry ∧ ApiKey.hash blake3 key = api_key_hash entry.

Lemma authenticate_cases now now' raw node key s :
  let '(r, s') := authenticate blake3 base32 now now' raw node key s in
  nodes s' = nodes s
  ∧ ((∃ e, r = Err e ∧ sessions s' = sessions s)
     ∨ (good_key s node key
        ∧ r = Ok (SessionToken.generate base32 raw, as_i64 (now' + SESSION_TTL))
        ∧ sessions s' = <[SessionToken.generate base32 raw :=
              {| session_node := node; expires_at := now' + SESSION_TTL |}]> (sessions s))).
Proof.
  unfold authenticate. pose proof (limiter_check_frame node now s) as [Hn Hs].
  destruct (limiter_check node now s) as [[u|e] s1]; cbn [snd] in *; [|eauto 10].
  rewrite Hn. destruct (nodes s !! node) as [en|] eqn:Hen; cbn.
  2:{ split; [done|]. left. eauto. }
  unfold ApiKey.verify. case_bool_decide as Hk; cbn; (split; [done|]).
  - right. split; [by exists en|]. by rewrite Hs.
  - left. eauto.
Qed.

(** A registered node's record never changes and is never dropped. *)
Lemma node_stable s o node en :
  nodes s !! node = Some en → nodes (apply_op s o) !! node = Some en.
Proof.
  intros Hn. destruct o; cbn [apply_op].
  - unfold register_node, has_node. case_bool_decide as Hs; [done|]. cbn.
    rewrite lookup_insert_ne; [done|]. intros ->. rewrite Hn in Hs. by destruct Hs.
  - unfold hydrate_node. destruct (nodes s !! node0) eqn:He; [done|]. cbn.
    rewrite lookup_insert_ne; [done|]. congruence.
  - pose proof (authenticate_cases now now' raw node0 api_key s) as Ha.
    destruct (authenticate _ _ _ _ _ _ _ _). cbn [snd]. destruct Ha as [-> _]. done.
  - unfold validate_session. destruct (sessions s !! token); [|done]. by case_bool_decide.
Qed.

Lemma good_key_stable s ops node key :
  good_key s node key → good_key (foldl apply_op s ops) node key.
Proof.
  intros (en&Hn&Hk). exists en. split; [|done].
  revert s Hn. induction ops; intros s Hn; simpl; eauto using node_stable.
Qed.

(** A session present after an operation was present before it or comes from
    a successful authentication. *)
Lemma session_step s o token en :
  sessions (apply_op s o) !! token = Some en →
  sessions s !! token = Some en
  ∨ ∃ t t' raw key, o = Authenticate t t' raw (session_node en) key
      ∧ token = SessionToken.generate base32 raw ∧ good_key s (session_node en) key
      ∧ expires_at en = t' + SESSION_TTL.
Proof.
  destruct o; cbn [apply_op].
  - unfold register_node. case_match; auto.
  - unfold hydrate_node. case_match; auto.
  - pose proof (authenticate_cases now now' raw node api_key s) as Ha.
    destruct (authenticate _ _ _ _ _ _ _ _) as [r s']. cbn [snd].
    destruct Ha as [_ [(e&_&->)|(Hk&_&->)]]; [by left|].
    destruct (decide (token = SessionToken.generate base32 raw)) as [->|Hne].
    + rewrite lookup_insert_eq. intros [= <-]. right. eauto 10.
    + rewrite lookup_insert_ne by done. by left.
  - unfold validate_session. destruct (sessions s !! token0) eqn:He; [|by left].
    case_bool_decide; [|by left]. cbn. rewrite lookup_delete_Some. naive_solver.
Qed.

Lemma session_origin l ops token en :
  sessions (run_ops l ops) !! token = Some en →
  ∃ pre post t t' raw key,
    ops = pre ++ Authenticate t t' raw (session_node en) key :: post
    ∧ token = SessionToken.generate base32 raw
    ∧ good_key (run_ops l pre) (session_node en) key
    ∧ expires_at en = t' + SESSION_TTL.
Proof.
  unfold run_ops. induction ops as [|o ops IH] using rev_ind; [done|].
  rewrite foldl_app. cbn [foldl]. intros Hs. apply session_step in Hs as [Hs|Hs].
  - destruct (IH Hs) as (pre&post&t&t'&raw&key&->&?). exists pre, (post ++ [o]), t, t', raw, key.
    rewrite <-app_assoc. done.
  - destruct Hs as (t&t'&raw&key&->&?). exists ops, [], t, t', raw, key. done.
Qed.
End store_trace.

Module AuthProps.
Import RateLimit.

(** C23: The limiter prunes as it goes, yet it decides exactly as one that
    remembers every failure: a check is refused if and only if the node's
    failures since it was last cleared that are less than a window old reach
    the limit. A refusal's [retry_after] is at least a second and at most the
    window, and it is exact: the count does not fall before that time has
    passed and has fallen when it has. *)
Theorem limiter_refines_history max window h node now :
  clocked 0 h now → Z.of_nat (length h) ≤ u32_max → 0 < max →
  let w := Z.max window 1 in
  let count at_ := Z.of_nat (length (in_window w at_ (pending node h))) in
  match (check node now (run max window h)).1 with
  | Ok _ => count now < max
  | Err e => max ≤ count now
      ∧ 1 ≤ retry_after e ≤ w
      ∧ (∀ now', now ≤ now' < now + retry_after e → count now' = count now)
      ∧ count (now + retry_after e) < count now
  end.
Proof.
  intros Hc Hlen Hmax. cbv zeta.
  destruct (run_config max window h) as [Hm Hw]. destruct (run_entry max window h now node Hc) as [Hsub Heq].
  destruct (clocked_pending _ _ _ node Hc) as [_ Hpend].
  assert (Forall (λ t, t ≤ now) (entry_of node (run max window h))) as Hle.
  { apply Forall_forall. intros x Hx. eapply Forall_forall in Hpend; [|by apply Hsub]. simpl in *. lia. }
  pose proof (run_entry_length max window h node) as Hel.
  rewrite check_spec; [|done|lia|lia]. rewrite Hm, Hw, Heq by lia.
  set (p := pending node h) in *. case_decide as Hd; [|lia]. cbn [retry_after].
  set (L := in_window (window `max` 1) now p) in *.
  destruct (list_min_spec L) as (m&Hmin&Hin&Hall); [by intros ->; simpl in Hd; lia|].
  rewrite Hmin. cbn [from_option id].
  pose proof (in_window_subset _ _ _ _ Hin) as [Hmp Hrec].
  eapply Forall_forall in Hmp; [|exact Hpend]. simpl in Hmp. split_and!; try lia.
  - intros now' Hn'. unfold L. rewrite (window_until _ now now' p m); [done|lia|done].
  - apply inj_lt. eapply (window_after _ _ _ _ m); [lia|done|lia].
Qed.

Lemma limiter_refines_history_witness :
  let h := [Fail "n" 10; Fail "n" 20; Clear "m"; Fail "n" 30] in
  (check "n" 40 (run 3 60 h)).1 = Err {| retry_after := 30 |}
  ∧ Z.of_nat (length (in_window 60 70 (pending "n" h))) < 3.
Proof.
  set (h := [Fail "n" 10; Fail "n" 20; Clear "m"; Fail "n" 30]).
  split; [vm_compute; reflexivity|].
  refine (proj2 (proj2 (proj2 (limiter_refines_history 3 60 h "n" 40 _ _ _)))).
  - vm_compute. repeat split; discriminate.
  - vm_compute. discriminate.
  - lia.
Defined.

(** C22: Whatever was done to the store before, a token that validates at
    [now] was issued to that very node by an earlier successful
    authentication whose key matched the node's record, less than
    [SESSION_TTL] before; and the key still matches, since a registered
    node's record never changes. *)
Theorem session_soundness blake3 base32 l ops token node now :
  (AuthStore.validate_session now token (run_ops blake3 base32 l ops)).1 = Some node →
  ∃ pre post t t' raw key,
    ops = pre ++ Authenticate t t' raw node key :: post
    ∧ token = SessionToken.generate base32 raw
    ∧ good_key blake3 (run_ops blake3 base32 l pre) node key
    ∧ good_key blake3 (run_ops blake3 base32 l ops) node key
    ∧ now < t' + AuthStore.SESSION_TTL.
Proof.
  unfold AuthStore.validate_session.
  destruct (AuthStore.sessions _ !! token) as [en|] eqn:Hs; [|done].
  case_bool_decide as Hexp; [done|]. cbn [fst]. intros [= <-].
  destruct (session_origin _ _ _ _ _ _ Hs) as (pre&post&t&t'&raw&key&Hops&Htok&Hk&He).
  exists pre, post, t, t', raw, key. split_and!; try done; [|lia].
  rewrite Hops. unfold run_ops. rewrite foldl_app. by apply good_key_stable.
Qed.

Definition demo_ops : list auth_op :=
  [Register 5 [Byte.x01] "laptop" "Laptop" "linux" None;
   Authenticate 10 10 [Byte.x02] "laptop" "arc_disk_K";
   Authenticate 11 11 [Byte.x03] "laptop" "guess"].

Lemma session_soundness_witness :
  ∃ pre post t t' raw key,
    demo_ops = pre ++ Authenticate t t' raw "laptop" key :: post
    ∧ "arc_disk_sess_K" = SessionToken.generate (λ _, "K") raw
    ∧ good_key id (run_ops id (λ _, "K") None pre) "laptop" key
    ∧ good_key id (run_ops id (λ _, "K") None demo_ops) "laptop" key
    ∧ 100 < t' + AuthStore.SESSION_TTL.
Proof.
  apply (session_soundness id (λ _, "K") None demo_ops "arc_disk_sess_K" "laptop" 100).
  vm_compute. reflexivity.
Defined.

(** The key a registration returns authenticates, and the session it opens
    is good until exactly [SESSION_TTL] after it was opened. *)
Theorem register_session_roundtrip blake3 base32 now raw node d p tenant s key s1 now1 now1' raw1 t :
  AuthStore.limiter s = None →
  AuthStore.register_node blake3 base32 now raw node d p tenant s = (Ok key, s1) →
  ∃ tok exp s2,
    AuthStore.authenticate blake3 base32 now1 now1' raw1 node key s1 = (Ok (tok, exp), s2)
    ∧ (AuthStore.validate_session t tok s2).1
      = if decide (t < now1' + AuthStore.SESSION_TTL) then Some node else None.
Proof.
  intros Hl. unfold AuthStore.register_node. destruct (AuthStore.has_node s node); [done|]. cbn.
  intros [= <- <-]. unfold AuthStore.authenticate, AuthStore.limiter_check. cbn. rewrite Hl. cbn.
  rewrite lookup_insert_eq. cbn. unfold ApiKey.verify, ApiKey.hash. rewrite bool_decide_true by done.
  do 3 eexists. split; [reflexivity|]. unfold AuthStore.validate_session. cbn.
  rewrite lookup_insert_eq. cbn. case_bool_decide; case_decide; try done; lia.
Qed.

(** Two registrations of one node whose tests both precede the insertions
    both succeed, and the key given to the first does not authenticate. *)
Theorem register_race :
  let s := AuthStore.with_rate_limiter None in
  let '(key1, s1) := AuthStore.register_insert id (λ raw, implode (Ascii.ascii_of_byte <$> raw))
                       0 [Byte.x61] "n" "" "" None s in
  let '(key2, s2) := AuthStore.register_insert id (λ raw, implode (Ascii.ascii_of_byte <$> raw))
                       0 [Byte.x62] "n" "" "" None s1 in
  AuthStore.has_node s "n" = false
  ∧ (AuthStore.authenticate id (λ _, "") 1 1 [] "n" key1 s2).1 = Err AuthStore.Unauthenticated.
Proof. vm_compute. done. Qed.
End AuthProps.

(** ** Replay protection *)
Module ReplayProps.
Import ReplayGuard.

(** Messages presented, oldest first: node, stream, sequence number. *)
Definition present (g : ReplayGuard.t) (m : string * Z * Z) : ReplayGuard.t :=
  (check_and_advance m.1.1 m.1.2 m.2 g).2.

Definition after (h : list (string * Z * Z)) : ReplayGuard.t := foldl present ReplayGuard.new h.

Lemma present_lookup g m k :
  from_option id 0 (present g m !! k)
    = if decide (m.1 = k) then Z.max (from_option id 0 (g !! k)) m.2
      else from_option id 0 (g !! k).
Proof.
  destruct m as [[n st] q]. unfold present, check_and_advance. cbn.
  case_decide as Hk; [subst k|]; case_bool_decide; cbn;
    rewrite ?lookup_insert_eq, ?lookup_insert_ne by done; cbn; try done; lia.
Qed.

Lemma after_below h k q :
  0 ≤ q → (from_option id 0 (after h !! k) ≤ q ↔ ∀ m, m ∈ h → m.1 = k → m.2 ≤ q).
Proof.
  intros Hq. unfold after. induction h as [|m h IH] using rev_ind.
  - cbn [foldl]. unfold ReplayGuard.new. rewrite lookup_empty. cbn. set_solver.
  - rewrite foldl_app. cbn [foldl]. rewrite present_lookup. case_decide as Hk.
    + rewrite Z.max_lub_iff, IH. set_solver.
    + rewrite IH. set_solver.
Qed.

(** A message is accepted if and only if its sequence number is positive
    and greater than every number presented before on the same node and
    stream, accepted or not; so what was once presented is never accepted
    again, whatever other nodes and streams did in between. *)
Theorem replay_accepts h node stream seq :
  (check_and_advance node stream seq (after h)).1 = Ok tt
  ↔ 0 < seq ∧ ∀ m, m ∈ h → m.1 = (node, stream) → m.2 < seq.
Proof.
  unfold check_and_advance. destruct (decide (0 < seq)) as [Hs|Hs].
  - pose proof (after_below h (node, stream) (seq - 1) ltac:(lia)) as Hb.
    case_bool_decide as Hd; cbn.
    + split; [done|]. intros [_ Hall]. exfalso.
      assert (from_option id 0 (after h !! (node, stream)) ≤ seq - 1); [|lia].
      apply Hb. intros m Hm Hk. specialize (Hall m Hm Hk). lia.
    + split; [|done]. intros _. split; [done|]. intros m Hm Hk.
      assert (from_option id 0 (after h !! (node, stream)) ≤ seq - 1) as Hle by lia.
      pose proof (proj1 Hb Hle m Hm Hk). lia.
  - rewrite bool_decide_true; [cbn; split; [done|lia]|].
    assert (∀ g, 0 ≤ from_option id 0 (foldl present ReplayGuard.new g !! (node, stream))) as Hnn.
    { intros g. induction g as [|m g IH] using rev_ind; [done|].
      rewrite foldl_app. cbn [foldl]. rewrite present_lookup. case_decide; lia. }
    specialize (Hnn h). unfold after. lia.
Qed.
End ReplayProps.
