(* ===== verification/Acl.v ===== *)
(** * Access control by client certificate ([disk-server/src/acl/])

    Roles, the enforcement table, the enforcer's state, the loader of the
    signed YAML file and the reload driver. The signature verifier and the
    YAML parser are third-party code and parameters; what reading the file
    gave is an argument. [None] is a panic. *)

From stdpp Require Import prelude strings gmap pretty.
From Stdlib Require Import ZArith Lia Ascii.
From S2P Require Import Prelude Text Fs.

#[local] Open Scope Z_scope.

Module Acl.
Abbreviation CertFingerprint := bytes.

Inductive EnforcedRole := Bidirectional | ReceiveOnly | SendOnly | Publisher.

#[global] Instance role_eq_dec : EqDecision EnforcedRole.
Proof. solve_decision. Defined.

Definition as_str (r : EnforcedRole) : string :=
  match r with
  | Bidirectional => "bidirectional"
  | ReceiveOnly => "receive_only"
  | SendOnly => "send_only"
  | Publisher => "publisher"
  end.

Definition parse (s : string) : option EnforcedRole :=
  if decide (s = "bidirectional") then Some Bidirectional
  else if decide (s = "receive_only") then Some ReceiveOnly
  else if decide (s = "send_only") then Some SendOnly
  else if decide (s = "publisher") then Some Publisher
  else None.

Record EnforcementTable := mk_table {
  version : Z;
  entries : gmap (CertFingerprint * string) EnforcedRole
}.

Definition table_new (v : Z) : EnforcementTable := mk_table v ∅.

Definition table_insert (fp : CertFingerprint) (share : string) (role : EnforcedRole)
    (self : EnforcementTable) : EnforcementTable :=
  mk_table (version self) (<[(fp, share) := role]> (entries self)).

Definition lookup (self : EnforcementTable) (fp : CertFingerprint) (share : string) : option EnforcedRole :=
  entries self !! (fp, share).

Definition len (self : EnforcementTable) : nat := size (entries self).

Inductive UnhealthyReason :=
  | NeverLoaded
  | ParseError (s : string)
  | SignatureFailedReason (s : string)
  | VersionRegressReason (stored attempted : Z)
  | FileMissingReason
  | SignerRevokedReason.

Inductive AclState := Loaded (t : EnforcementTable) | Unhealthy (r : UnhealthyReason).

Inductive AclError :=
  | Unavailable (r : UnhealthyReason)
  | ShareUnknown (share cert_fp_short : string).

Definition new_unhealthy : AclState := Unhealthy NeverLoaded.

Definition hex_char (d : Z) : ascii :=
  Ascii.ascii_of_nat (Z.to_nat (if bool_decide (d < 10) then 48 + d else 87 + d)).

Definition hex_first_n (b : bytes) (n : nat) : string :=
  implode (mjoin ((λ x, [hex_char (byteZ x / 16); hex_char (byteZ x mod 16)]) <$> take n b)).

Definition short_fp (fp : CertFingerprint) : string := hex_first_n fp 8.

Definition resolve (state : AclState) (fp : CertFingerprint) (share : string)
    : result EnforcedRole AclError :=
  match state with
  | Loaded table => ok_or (lookup table fp share) (ShareUnknown share (short_fp fp))
  | Unhealthy reason => Err (Unavailable reason)
  end.

Definition unhealthy_reason (state : AclState) : option UnhealthyReason :=
  match state with Loaded _ => None | Unhealthy r => Some r end.

Definition current_version (state : AclState) : option Z :=
  match state with Loaded t => Some (version t) | Unhealthy _ => None end.
End Acl.

(** ** [acl/loader.rs] *)
Module AclLoader.
Import Acl.

(** The shares of a node in key order, as the [BTreeMap] iterates. *)
Record AclNodeEntry := {
  cert_fingerprint : string;
  node_id_hint : string;
  enabled : bool;
  shares : list (string * string)
}.

Record AclYamlFile := {
  file_version : Z;
  updated_at : string;
  signed_by : string;
  nodes : list AclNodeEntry
}.

Inductive AclLoadError :=
  | Io (e : Fs.io_error)
  | FileMissing (path : string)
  | Parse (s : string)
  | SignatureFailed (s : string)
  | SignerRevoked (s : string)
  | VersionRegress (stored attempted : Z)
  | BadFingerprint (index : nat) (detail : string)
  | BadRole (index : nat) (share role : string).

Definition into_unhealthy_reason (e : AclLoadError) : UnhealthyReason :=
  match e with
  | Io e => match Fs.kind e with
            | Fs.NotFound => FileMissingReason
            | _ => ParseError ("io: " +:+ Fs.msg e)
            end
  | FileMissing _ => FileMissingReason
  | Parse s => ParseError s
  | SignatureFailed s => SignatureFailedReason s
  | SignerRevoked _ => SignerRevokedReason
  | VersionRegress stored attempted => VersionRegressReason stored attempted
  | BadFingerprint index detail =>
      ParseError ("node[" +:+ pretty index +:+ "].cert_fingerprint: " +:+ detail)
  | BadRole index share role =>
      ParseError ("node[" +:+ pretty index +:+ "].shares[" +:+ share +:+ "]: invalid role `"
                  +:+ role +:+ "`")
  end.

Record LoadOutcome := {
  table : EnforcementTable;
  new_version : Z;
  outcome_signed_by : string;
  file_sha256 : bytes
}.

Definition hex_digit (c : ascii) : option Z :=
  let z := ascii_code c in
  if bool_decide (48 ≤ z ≤ 57) then Some (z - 48)
  else if bool_decide (65 ≤ z ≤ 70) then Some (z - 55)
  else if bool_decide (97 ≤ z ≤ 102) then Some (z - 87)
  else None.

(** [u8::from_str_radix(s, 16)] on two bytes: a leading plus is a sign. *)
Definition from_str_radix16 (c d : ascii) : option Z :=
  if decide (c = "+"%char) then hex_digit d
  else h ← hex_digit c; l ← hex_digit d; Some (16 * h + l).

(** The slices [&hex_part[2*i .. 2*i+2]] in turn: one whose end is inside a
    character panics. *)
Fixpoint parse_pairs (index i : nat) (l : chars) : option (result bytes AclLoadError) :=
  match l with
  | c :: d :: l =>
      if is_cont (ascii_code c) || match l with [] => false | e :: _ => is_cont (ascii_code e) end
      then None
      else match from_str_radix16 c d with
           | None => Some (Err (BadFingerprint index ("non-hex char near offset " +:+ pretty (i * 2)%nat)))
           | Some z =>
               r ← parse_pairs index (S i) l;
               Some (rest <?- r ;; Ok (Ascii.byte_of_ascii (Ascii.ascii_of_nat (Z.to_nat z)) :: rest))
           end
  | _ => Some (Ok [])
  end.

Definition parse_fingerprint (index : nat) (raw : string) : option (result CertFingerprint AclLoadError) :=
  let hex_part := from_option id (explode raw) (strip_prefix (explode "sha256:") (explode raw)) in
  if decide (length hex_part = 64%nat) then parse_pairs index 0 hex_part
  else Some (Err (BadFingerprint index
               ("expected 64 hex chars, got " +:+ pretty (length hex_part)))).

Fixpoint insert_shares (index : nat) (fp : CertFingerprint) (shares : list (string * string))
    (table : EnforcementTable) : result EnforcementTable AclLoadError :=
  match shares with
  | [] => Ok table
  | (share, role_str) :: shares =>
      match parse role_str with
      | None => Err (BadRole index share role_str)
      | Some role => insert_shares index fp shares (table_insert fp share role table)
      end
  end.

Fixpoint insert_nodes (index : nat) (nodes : list AclNodeEntry) (table : EnforcementTable)
    : option (result EnforcementTable AclLoadError) :=
  match nodes with
  | [] => Some (Ok table)
  | node :: nodes =>
      if enabled node then
        match parse_fingerprint index (cert_fingerprint node) with
        | None => None
        | Some (Err e) => Some (Err e)
        | Some (Ok fp) =>
            match insert_shares index fp (shares node) table with
            | Err e => Some (Err e)
            | Ok table => insert_nodes (S index) nodes table
            end
        end
      else insert_nodes (S index) nodes table
  end.

Section load.
Context (blake3 : bytes → bytes).
Context (from_slice : bytes → result AclYamlFile string).
Context (verify : bytes → result unit AclLoadError).

Definition load_from_yaml (path : string) (read : result bytes Fs.io_error) (stored_version : Z)
    : option (result LoadOutcome AclLoadError) :=
  match read with
  | Err e => Some (Err (match Fs.kind e with Fs.NotFound => FileMissing path | _ => Io e end))
  | Ok bytes =>
      match verify bytes with
      | Err e => Some (Err e)
      | Ok _ =>
          match from_slice bytes with
          | Err s => Some (Err (Parse s))
          | Ok parsed =>
              if bool_decide (file_version parsed ≤ stored_version) && bool_decide (0 < stored_version)
              then Some (Err (VersionRegress stored_version (file_version parsed)))
              else
                r ← insert_nodes 0 (nodes parsed) (table_new (file_version parsed));
                Some (t <?- r ;;
                      Ok {| table := t; new_version := file_version parsed;
                            outcome_signed_by := signed_by parsed; file_sha256 := blake3 bytes |})
          end
      end
  end.
End load.
End AclLoader.

(** ** [acl/reload.rs] *)
Module AclReload.
Import Acl AclLoader.

Inductive AuditKind := AclLoadOk (version : Z) (signed_by : string)
  | AclVersionRegress (stored attempted : Z) | AclLoadFailure (reason : UnhealthyReason).

Record SessionInvalidate := { fingerprint : CertFingerprint; new_role : option EnforcedRole }.

Definition sentinel : CertFingerprint := replicate 32 Byte.xff.

(** The driver's variables, the shared enforcer, and what it has sent. *)
Record t := mk {
  enforcer : AclState;
  stored_version : Z;
  last_table : option EnforcementTable;
  sent : list SessionInvalidate;
  audited : list AuditKind
}.

Definition boot : t := mk new_unhealthy 0 None [] [].

Definition broadcast_invalidations (prev next : EnforcementTable) : list SessionInvalidate :=
  if negb (bool_decide (len prev = len next)) || negb (bool_decide (version prev = version next))
  then [{| fingerprint := sentinel; new_role := None |}] else [].

Section reload.
Context (blake3 : bytes → bytes).
Context (from_slice : bytes → result AclYamlFile string).
Context (verify : bytes → result unit AclLoadError).

Definition apply_load (path : string) (read : result bytes Fs.io_error) (self : t) : option t :=
  r ← load_from_yaml blake3 from_slice verify path read (stored_version self);
  Some match r with
  | Ok outcome =>
      mk (Loaded (table outcome)) (new_version outcome) (Some (table outcome))
        (sent self ++ match last_table self with
                      | Some prev => broadcast_invalidations prev (table outcome)
                      | None => []
                      end)
        (audited self ++ [AclLoadOk (new_version outcome) (outcome_signed_by outcome)])
  | Err (VersionRegress stored attempted) =>
      mk (enforcer self) (stored_version self) (last_table self) (sent self)
        (audited self ++ [AclVersionRegress stored attempted])
  | Err e =>
      let reason := into_unhealthy_reason e in
      mk (Unhealthy reason) (stored_version self) (last_table self) (sent self)
        (audited self ++ [AclLoadFailure reason])
  end.

(** The start-up load and every reload: what reading the file gave at each
    trigger, until a panic ends the task. *)
Fixpoint reload_loop (path : string) (reads : list (result bytes Fs.io_error)) (self : t) : t :=
  match reads with
  | [] => self
  | read :: reads =>
      match apply_load path read self with
      | None => self
      | Some self => reload_loop path reads self
      end
  end.
End reload.
End AclReload.

(** ** What a loaded table grants *)
Section grants.
Import Acl AclLoader.

Definition fp_of (raw : string) : option CertFingerprint :=
  match parse_fingerprint 0 raw with Some (Ok fp) => Some fp | _ => None end.

(** A node of the file that speaks about a certificate's access to a share. *)
Definition mentions (fp : CertFingerprint) (share : string) (n : AclNodeEntry) : Prop :=
  enabled n = true ∧ fp_of (cert_fingerprint n) = Some fp ∧ share ∈ (shares n).*1.

(** The last enabled node to mention the share for the certificate gives it
    this role. *)
Definition granted (ns : list AclNodeEntry) (fp : CertFingerprint) (share : string)
    (role : EnforcedRole) : Prop :=
  ∃ before n after, ns = before ++ n :: after ∧ mentions fp share n
    ∧ (share, as_str role) ∈ shares n ∧ Forall (λ m, ¬ mentions fp share m) after.

Lemma parse_role_as_str s role : parse s = Some role ↔ s = as_str role.
Proof.
  unfold parse. split.
  - repeat case_decide; intros; simplify_eq; done.
  - intros ->. by destruct role.
Qed.

Lemma parse_pairs_index i j k k' l fp :
  parse_pairs i k l = Some (Ok fp) → parse_pairs j k' l = Some (Ok fp).
Proof.
  revert k k' fp. induction l as [l IH] using (induction_ltof1 _ length). intros k k' fp.
  destruct l as [|c [|d l]]; cbn [parse_pairs]; try done.
  case_match; [done|]. destruct (from_str_radix16 c d); [|done].
  destruct (parse_pairs i (S k) l) as [[r|e]|] eqn:Hp; cbn; try done. intros [= <-].
  by rewrite (IH l ltac:(unfold ltof; simpl; lia) (S k) (S k') r Hp).
Qed.

Lemma parse_fingerprint_fp i raw fp : parse_fingerprint i raw = Some (Ok fp) → fp_of raw = Some fp.
Proof.
  unfold fp_of, parse_fingerprint. case_decide; [|done]. intros Hp.
  by rewrite (parse_pairs_index i 0 0 0 _ _ Hp).
Qed.

Lemma insert_shares_spec i fp sh t t' :
  NoDup sh.*1 → insert_shares i fp sh t = Ok t' →
  version t' = version t
  ∧ ∀ fp' s role, lookup t' fp' s = Some role ↔
      (fp' = fp ∧ (s, as_str role) ∈ sh)
      ∨ (¬ (fp' = fp ∧ s ∈ sh.*1) ∧ lookup t fp' s = Some role).
Proof.
  revert t. induction sh as [|[s0 r0] sh IH]; intros t; cbn [fmap list_fmap insert_shares fst].
  - intros _ [= <-]. split; [done|]. intros. set_solver.
  - intros [Hn0 Hnd]%NoDup_cons. destruct (parse r0) as [role0|] eqn:Hr; [|done].
    apply parse_role_as_str in Hr as ->. intros Hins. destruct (IH _ Hnd Hins) as [Hv Hl]. split; [done|].
    intros fp' s role. rewrite Hl. unfold lookup, table_insert; cbn [entries].
    destruct (decide ((fp, s0) = (fp', s))) as [[= <- <-]|Hne].
    + rewrite lookup_insert_eq.
      assert (as_str role0 = as_str role ↔ role0 = role) as Hinj.
      { split; [|by intros ->]. intros Has. apply (f_equal parse) in Has. by destruct role0, role. }
      assert ((s0, as_str role) ∉ sh).
      { intros Hin. apply Hn0. apply list_elem_of_fmap. by exists (s0, as_str role). }
      set_unfold. naive_solver.
    + rewrite lookup_insert_ne by done. set_unfold. naive_solver.
Qed.

Lemma granted_cons n ns fp s role :
  granted (n :: ns) fp s role ↔
  granted ns fp s role
  ∨ (Forall (λ m, ¬ mentions fp s m) ns ∧ mentions fp s n ∧ (s, as_str role) ∈ shares n).
Proof.
  split.
  - intros ([|b before]&m&after&Heq&Hm&Hin&Hall); simplify_list_eq; [by right|].
    left. by exists before, m, after.
  - intros [(before&m&after&->&?)|(Hall&Hm&Hin)].
    + exists (n :: before), m, after. done.
    + exists [], n, ns. done.
Qed.

Lemma insert_nodes_spec i ns t t' :
  Forall (λ n, NoDup (shares n).*1) ns → insert_nodes i ns t = Some (Ok t') →
  version t' = version t
  ∧ ∀ fp s role, lookup t' fp s = Some role ↔
      granted ns fp s role
      ∨ (Forall (λ m, ¬ mentions fp s m) ns ∧ lookup t fp s = Some role).
Proof.
  revert i t. induction ns as [|n ns IH]; intros i t; cbn [insert_nodes].
  - intros _ [= <-]. split; [done|]. intros. split; [by right|].
    intros [([|??]&?&?&?&_)|[_ ?]]; done.
  - intros [Hnd Hnds]%Forall_cons. destruct (enabled n) eqn:Hen.
    + destruct (parse_fingerprint i (cert_fingerprint n)) as [[fp0|e]|] eqn:Hfp; try done.
      destruct (insert_shares i fp0 (shares n) t) as [t1|e] eqn:Hsh; [|done]. intros Hins.
      apply parse_fingerprint_fp in Hfp.
      destruct (insert_shares_spec _ _ _ _ _ Hnd Hsh) as [Hv1 Hl1].
      destruct (IH _ _ Hnds Hins) as [Hv Hl]. split; [congruence|]. intros fp s role.
      rewrite Hl, granted_cons, Hl1, Forall_cons.
      assert (mentions fp s n ↔ fp = fp0 ∧ s ∈ (shares n).*1) as Hm.
      { unfold mentions. rewrite Hfp. naive_solver. }
      rewrite Hm.
      assert ((s, as_str role) ∈ shares n → s ∈ (shares n).*1).
      { intros Hin. apply list_elem_of_fmap. by exists (s, as_str role). }
      tauto.
    + intros Hins. destruct (IH _ _ Hnds Hins) as [Hv Hl]. split; [done|]. intros fp s role.
      rewrite Hl, granted_cons, Forall_cons.
      assert (¬ mentions fp s n) by (unfold mentions; rewrite Hen; naive_solver). tauto.
Qed.
End grants.

Module AclProps.
Import Acl AclLoader AclReload.

Section reload_props.
Context (blake3 : bytes → bytes) (from_slice : bytes → result AclYamlFile string)
  (verify : bytes → result unit AclLoadError) (path : string).
(** What the deserialiser gives: maps have distinct keys, versions are unsigned. *)
Context (parsed_wf : ∀ b f, from_slice b = Ok f →
  Forall (λ n, NoDup (shares n).*1) (nodes f) ∧ 0 ≤ file_version f).

(** A file that was read, verified and parsed, and what its table grants. *)
Definition backs (reads : list (result bytes Fs.io_error)) (t : EnforcementTable) (v : Z) : Prop :=
  ∃ b f, Ok b ∈ reads ∧ verify b = Ok tt ∧ from_slice b = Ok f ∧ file_version f = v ∧ version t = v
    ∧ ∀ fp s role, lookup t fp s = Some role ↔ granted (nodes f) fp s role.

Lemma load_ok b v out :
  load_from_yaml blake3 from_slice verify path (Ok b) v = Some (Ok out) →
  backs [Ok b] (table out) (new_version out) ∧ 0 ≤ new_version out ∧ (0 < v → v < new_version out).
Proof using parsed_wf.
  unfold load_from_yaml. destruct (verify b) as [[]|e] eqn:Hv; [|done].
  destruct (from_slice b) as [f|e] eqn:Hf; [|done].
  destruct (bool_decide (file_version f ≤ v) && bool_decide (0 < v)) eqn:Hb; [done|].
  destruct (insert_nodes 0 (nodes f) _) as [[t|e]|] eqn:Hi; cbn; try done. intros [= <-]; cbn.
  destruct (parsed_wf _ _ Hf) as [Hnd H0]. destruct (insert_nodes_spec _ _ _ _ Hnd Hi) as [Hver Hl].
  split_and!; [|done|].
  - exists b, f. split_and!; try done; [by left|]. intros fp s role. rewrite Hl.
    unfold lookup, table_new; cbn [entries]. rewrite lookup_empty. naive_solver.
  - intros Hp. apply andb_false_iff in Hb. rewrite !bool_decide_eq_false in Hb. lia.
Qed.

Definition reload_inv (reads : list (result bytes Fs.io_error)) (s : AclReload.t) : Prop :=
  0 ≤ stored_version s
  ∧ Forall (λ a, match a with AclLoadOk v _ => v ≤ stored_version s | _ => True end) (audited s)
  ∧ match enforcer s with Loaded t => backs reads t (stored_version s) | Unhealthy _ => True end.

Lemma backs_mono reads reads' t v : reads ⊆ reads' → backs reads t v → backs reads' t v.
Proof. intros Hsub (b&f&?&?). exists b, f. auto. Qed.

Lemma audit_snoc v v' l a :
  v ≤ v' → Forall (λ a, match a with AclLoadOk w _ => w ≤ v | _ => True end) l →
  match a with AclLoadOk w _ => w ≤ v' | _ => True end →
  Forall (λ a, match a with AclLoadOk w _ => w ≤ v' | _ => True end) (l ++ [a]).
Proof.
  intros Hv Hl Ha. apply Forall_app. split; [|by repeat constructor].
  eapply Forall_impl; [exact Hl|]. intros []; simpl; lia.
Qed.

Lemma apply_load_inv reads read s s' :
  apply_load blake3 from_slice verify path read s = Some s' →
  reload_inv reads s → reload_inv (reads ++ [read]) s'.
Proof using parsed_wf.
  unfold apply_load. intros Ha (H0&Haud&Hst).
  destruct (load_from_yaml _ _ _ _ _ _) as [r|] eqn:Hl; cbn in Ha; [|done].
  assert (match enforcer s with Loaded t => backs (reads ++ [read]) t (stored_version s) | _ => True end) as Hkeep.
  { destruct (enforcer s); [|done]. eapply backs_mono; [|exact Hst]. set_solver. }
  destruct r as [out|e].
  - destruct read as [b|e]; [|done]. destruct (load_ok _ _ _ Hl) as (Hb&Hn&Hlt).
    injection Ha as <-. unfold reload_inv; cbn. split_and!; [done| |].
    + eapply audit_snoc; [|exact Haud|simpl; lia]. lia.
    + eapply backs_mono; [|exact Hb]. set_solver.
  - destruct e; injection Ha as <-; unfold reload_inv; cbn; (split_and!; [done| |done]);
      (eapply audit_snoc; [|exact Haud|done]); lia.
Qed.

Lemma reload_loop_inv reads done_ s :
  reload_inv done_ s →
  reload_inv (done_ ++ reads) (reload_loop blake3 from_slice verify path reads s).
Proof using parsed_wf.
  revert done_ s. induction reads as [|r reads IH]; intros dn s Hi; cbn [reload_loop].
  - by rewrite app_nil_r.
  - destruct (apply_load _ _ _ _ r s) as [s'|] eqn:Ha.
    + rewrite (app_assoc dn [r] reads : dn ++ r :: reads = _). apply IH. by eapply apply_load_inv.
    + destruct Hi as (H0&Haud&Hst). split_and!; try done.
      destruct (enforcer s); [|done]. eapply backs_mono; [|exact Hst]. set_solver.
Qed.
End reload_props.

(** C21: From a cold boot, after any sequence of reload triggers and whatever
    reading the file gave at each: if the enforcer is loaded, its table comes
    from one file that was read, passed the signature check and parsed, whose
    version is the stored one and not below any version accepted before; and
    a certificate has a role on a share exactly when the last enabled node of
    that file to mention them grants it. If it is not loaded, every request
    is refused as unavailable. *)
Theorem acl_reload_safety blake3 from_slice verify path reads :
  (∀ b f, from_slice b = Ok f → Forall (λ n, NoDup (shares n).*1) (nodes f) ∧ 0 ≤ file_version f) →
  let s := reload_loop blake3 from_slice verify path reads boot in
  match enforcer s with
  | Loaded t =>
      ∃ b f, Ok b ∈ reads ∧ verify b = Ok tt ∧ from_slice b = Ok f
        ∧ file_version f = stored_version s
        ∧ (∀ v who, AclLoadOk v who ∈ audited s → v ≤ file_version f)
        ∧ ∀ fp share role, resolve (enforcer s) fp share = Ok role ↔ granted (nodes f) fp share role
  | Unhealthy r => ∀ fp share, resolve (enforcer s) fp share = Err (Unavailable r)
  end.
Proof.
  intros Hwf s.
  assert (reload_inv from_slice verify reads s) as (H0&Haud&Hst).
  { apply (reload_loop_inv blake3 from_slice verify path Hwf reads []). split_and!; [done|constructor|done]. }
  destruct (enforcer s) as [t|r]; [|done].
  destruct Hst as (b&f&?&?&?&Hv&_&Hl). exists b, f. split_and!; try done.
  - intros v who Hin. eapply Forall_forall in Hin; [|exact Haud]. simpl in Hin. lia.
  - intros fp share role. rewrite <-Hl. cbn [resolve]. destruct (lookup t fp share); cbn; naive_solver.
Qed.

Definition hex64 : string := implode (replicate 64 "a"%char).
Definition demo_acl (v : Z) : AclYamlFile :=
  {| file_version := v; updated_at := ""; signed_by := "ops";
     nodes := [{| cert_fingerprint := hex64; node_id_hint := ""; enabled := true;
                  shares := [("kb", "receive_only")] |}] |}.
(** A one-byte file names its version. *)
Definition demo_parse (b : bytes) : result AclYamlFile string :=
  match b with [x] => Ok (demo_acl (byteZ x)) | _ => Err "syntax" end.
Definition demo_reload (reads : list (result bytes Fs.io_error)) : AclReload.t :=
  reload_loop id demo_parse (λ _, Ok tt) "acl.yaml" reads boot.

Lemma demo_parse_wf b f :
  demo_parse b = Ok f → Forall (λ n, NoDup (shares n).*1) (nodes f) ∧ 0 ≤ file_version f.
Proof.
  destruct b as [|x [|]]; cbn; try done. intros [= <-]. split; [|apply byteZ_range].
  repeat constructor; cbn; set_solver.
Qed.

Definition demo_reads : list (result bytes Fs.io_error) :=
  [Ok [Byte.x01]; Ok [Byte.x02]; Ok [Byte.x01]].

Lemma acl_reload_safety_witness :
  ∃ b f, Ok b ∈ demo_reads ∧ demo_parse b = Ok f
    ∧ file_version f = 2
    ∧ ∀ fp share role,
        resolve (enforcer (demo_reload demo_reads)) fp share = Ok role
        ↔ granted (nodes f) fp share role.
Proof.
  destruct (acl_reload_safety id demo_parse (λ _, Ok tt) "acl.yaml"
    demo_reads demo_parse_wf) as (b&f&H1&_&H2&H3&_&H4).
  exists b, f. split_and!; [exact H1|exact H2| |exact H4].
  rewrite H3. vm_compute. reflexivity.
Defined.

(** Once a reload has failed for any reason but a version regress, the
    enforcer cannot recover without a version bump: restoring the very file
    that was in force, and any number of reloads of files that are not newer,
    leave every request refused, although the driver calls this case keeping
    the loaded state. *)
Theorem acl_no_recovery blake3 from_slice verify path reads s r fp share :
  enforcer s = Unhealthy r → 0 < stored_version s →
  (∀ b f, Ok b ∈ reads → verify b = Ok tt → from_slice b = Ok f → file_version f ≤ stored_version s) →
  ∃ r', resolve (enforcer (reload_loop blake3 from_slice verify path reads s)) fp share
          = Err (Unavailable r').
Proof.
  intros Hr Hpos Hold. revert s r Hr Hpos Hold. induction reads as [|rd reads IH]; intros s r Hr Hpos Hold.
  { cbn. rewrite Hr. by eexists. }
  cbn [reload_loop]. destruct (apply_load _ _ _ _ rd s) as [s'|] eqn:Ha.
  2:{ rewrite Hr. by eexists. }
  assert ((∃ r', enforcer s' = Unhealthy r') ∧ stored_version s' = stored_version s) as [[r' Hr'] Hs'].
  { unfold apply_load in Ha. destruct (load_from_yaml _ _ _ _ _ _) as [[out|e]|] eqn:Hl; cbn in Ha; try done.
    - exfalso. unfold load_from_yaml in Hl. destruct rd as [b|?]; [|done].
      destruct (verify b) as [[]|] eqn:Hv; [|done]. destruct (from_slice b) as [f|] eqn:Hf; [|done].
      specialize (Hold b f ltac:(by left) Hv Hf).
      by rewrite !bool_decide_true in Hl by done.
    - destruct e; injection Ha as <-; cbn; eauto. }
  eapply IH; [exact Hr'|lia|]. intros b f Hin. rewrite Hs'. apply Hold. by right.
Qed.

Lemma acl_no_recovery_witness :
  is_ok (resolve (enforcer (demo_reload [Ok [Byte.x01]])) (replicate 32 Byte.xaa) "kb") = true
  ∧ ∃ r', resolve (enforcer (reload_loop id demo_parse (λ _, Ok tt) "acl.yaml" [Ok [Byte.x01]]
             (demo_reload [Ok [Byte.x01]; Ok []]))) (replicate 32 Byte.xaa) "kb"
          = Err (Unavailable r').
Proof.
  split; [vm_compute; reflexivity|].
  eapply (acl_no_recovery id demo_parse (λ _, Ok tt) "acl.yaml" [Ok [Byte.x01]]
    (demo_reload [Ok [Byte.x01]; Ok []]) (ParseError "syntax")).
  - vm_compute. reflexivity.
  - vm_compute. reflexivity.
  - intros b f Hin _. apply list_elem_of_singleton in Hin as [= ->]. intros [= <-].
    vm_compute. discriminate.
Defined.
End AclProps.
