(* ===== verification/Tenancy.v ===== *)
(** * The control database and tenant routing ([disk-core/src/tenant_db.rs],
      [meta_db/nodes.rs], [meta_db/selective_sync.rs])

    The tables that stay in the control database, registered nodes and the
    folders a device includes, and the router that gives each tenant its own
    database file. *)

From stdpp Require Import prelude gmap strings sorting pretty.
From Stdlib Require Import ZArith Lia Strings.Ascii.
From S2P Require Import Prelude Text PathFacts Types Guard Sql MetaDb.

#[local] Open Scope Z_scope.

Module NodeRow.
Record t := mk {
  tenant_id : option string;
  node_id : string;
  display_name : option string;
  platform : option string;
  api_key_hash : bytes;
  registered_at : Z;
  revoked : Z
}.
End NodeRow.

Module IncludeRow.
Record t := mk {
  tenant_id : option string;
  user_id : string;
  node_id : string;
  vault_id : string;
  path_prefix : string;
  created_at : Z
}.
End IncludeRow.

Module AuthNodeRow.
Record t := mk {
  node_id : string;
  display_name : string;
  platform : string;
  api_key_hash : bytes;
  registered_at : Z;
  tenant_id : option string
}.
End AuthNodeRow.

(** The control tables; [user_accounts] is its set of ids, which the includes'
    foreign key refers to. *)
Record ControlDb := mkControl {
  nodes : list NodeRow.t;
  device_sync_includes : list IncludeRow.t;
  user_accounts : gset string
}.

Abbreviation ctl := (stm ControlDb MetaDbError).

Module ControlDb.
Definition set_nodes (f : list NodeRow.t → list NodeRow.t) (db : ControlDb) : ControlDb :=
  mkControl (f (nodes db)) (device_sync_includes db) (user_accounts db).
Definition set_includes (f : list IncludeRow.t → list IncludeRow.t) (db : ControlDb) : ControlDb :=
  mkControl (nodes db) (f (device_sync_includes db)) (user_accounts db).

Definition non_empty (o : option string) : option string :=
  match o with Some s => if decide (s = "") then None else Some s | None => None end.

Definition row_to_auth_node (r : NodeRow.t) : result AuthNodeRow.t MetaDbError :=
  if decide (hash32 (NodeRow.api_key_hash r)) then
    Ok (AuthNodeRow.mk (NodeRow.node_id r) (default "" (NodeRow.display_name r))
          (default "" (NodeRow.platform r)) (NodeRow.api_key_hash r) (NodeRow.registered_at r)
          (non_empty (NodeRow.tenant_id r)))
  else Err (Invalid ("node api_key_hash length " +:+ pretty (length (NodeRow.api_key_hash r))
                     +:+ " (want 32)")).

Definition list_active_auth_nodes : ctl (list AuthNodeRow.t) := λ db,
  (collect_results row_to_auth_node
     (sort_by (λ a b, bool_decide (NodeRow.registered_at a ≤ NodeRow.registered_at b))
        (select (λ r, bool_decide (NodeRow.revoked r = 0)) (nodes db))), db).

Definition is_node (node : string) (r : NodeRow.t) : bool := bool_decide (NodeRow.node_id r = node).

(** [UPDATE nodes ..], or [INSERT] when no row was changed; [node_id] is
    [UNIQUE], so the insert cannot clash. *)
Definition upsert_node_tenant (now : Z) (node : string) (tenant : option string) (key_hash : bytes)
    (display platform : string) : ctl unit := λ db,
  if bool_decide (0 < affected (is_node node) (nodes db))%nat then
    (Ok tt, set_nodes (update (is_node node) (λ r,
       NodeRow.mk tenant (NodeRow.node_id r) (Some display) (Some platform) key_hash
         (NodeRow.registered_at r) (NodeRow.revoked r))) db)
  else
    (Ok tt, set_nodes (λ t, t ++ [NodeRow.mk tenant node (Some display) (Some platform) key_hash now 0]) db).

Definition get_node_tenant (node : string) : ctl (option string) := λ db,
  (Ok (r ← head (select (is_node node) (nodes db)); non_empty (NodeRow.tenant_id r)), db).

Definition of_device (tenant : option string) (user node vault : string) (r : IncludeRow.t) : bool :=
  is_eqb (IncludeRow.tenant_id r) tenant && bool_decide (IncludeRow.user_id r = user)
  && bool_decide (IncludeRow.node_id r = node) && bool_decide (IncludeRow.vault_id r = vault).

Definition list_device_sync_includes (tenant : option string) (user node vault : string)
    : ctl (list string) := λ db,
  (Ok (sort_by Path.str_leb
         (IncludeRow.path_prefix <$> select (of_device tenant user node vault) (device_sync_includes db))),
   db).

(** [SELECT DISTINCT path_prefix], any user. *)
Definition list_node_sync_includes (tenant : option string) (node vault : string)
    : ctl (list string) := λ db,
  (Ok (sort_by Path.str_leb
         (remove_dups (IncludeRow.path_prefix <$>
            select (λ r, is_eqb (IncludeRow.tenant_id r) tenant
                         && bool_decide (IncludeRow.node_id r = node)
                         && bool_decide (IncludeRow.vault_id r = vault)) (device_sync_includes db)))),
   db).

(** The loop that normalises the prefixes and skips repeated ones. *)
Fixpoint normalize_all (raw : list string) (acc : list string) : result (list string) MetaDbError :=
  match raw with
  | [] => Ok acc
  | r :: raw =>
      prefix <?- map_err Invalid (SelectiveSync.normalize_include_prefix r) ;;
      normalize_all raw (if bool_decide (prefix ∈ acc) then acc else acc ++ [prefix])
  end.

Definition foreign_key_violation : MetaDbError := Sqlx "FOREIGN KEY constraint failed".

(** Delete and insert in one transaction; an insert for an unknown user fails
    and rolls it back. *)
Definition replace_device_sync_includes (now : Z) (tenant : option string) (user node vault : string)
    (raw_prefixes : list string) : ctl (list string) := λ db,
  match normalize_all raw_prefixes [] with
  | Err e => (Err e, db)
  | Ok normalized =>
      let normalized := sort_by Path.str_leb normalized in
      if bool_decide (normalized ≠ []) && negb (bool_decide (user ∈ user_accounts db))
      then (Err foreign_key_violation, db)
      else
        (Ok normalized,
         set_includes (λ t, delete_where (of_device tenant user node vault) t
           ++ ((λ p, IncludeRow.mk tenant user node vault p now) <$> normalized)) db)
  end.
End ControlDb.

(** ** [tenant_db.rs] *)
Module TenantMetaRouter.
Definition sanitize_tenant_id (tenant_id : string) : result string MetaDbError :=
  if bool_decide (64 < str_len tenant_id) then Err (Invalid "tenant_id exceeds 64 characters")
  else if forallb (λ c, is_ascii_alphanumeric c || bool_decide (c = "-"%char) || bool_decide (c = "_"%char))
            (explode tenant_id)
  then Ok tenant_id
  else Err (Invalid "tenant_id contains invalid characters").

Definition tenant_shard_key (tenant : option string) : result string MetaDbError :=
  match ControlDb.non_empty tenant with
  | None => Ok "_legacy"
  | Some t => sanitize_tenant_id t
  end.

Definition tenant_db_path (root shard_key : string) : string :=
  Path.join (Path.join root shard_key) "meta.sqlite".

(** [data] is the tenant tables of the control file, [disk] the databases
    that exist in shard files, by path, and [shards] the open handles: a
    handle is the path of its file. *)
Record t := mk {
  control : ControlDb;
  data : MetaDb;
  tenant_root : option string;
  shards : gmap string string;
  disk : gmap string MetaDb
}.

Definition single (c : ControlDb) (db : MetaDb) : t := mk c db None ∅ ∅.
Definition split (c : ControlDb) (db : MetaDb) (root : string) : t := mk c db (Some root) ∅ ∅.
Definition is_split (self : t) : bool := bool_decide (is_Some (tenant_root self)).

Inductive handle := Control | Shard (file : string).

(** [open_fault] is what creating the directory or opening the file failed
    with. Opening a file that does not exist creates an empty database. *)
Definition tenant_data (open_fault : option MetaDbError) (tenant : option string) (self : t)
    : result handle MetaDbError * t :=
  match tenant_root self with
  | None => (Ok Control, self)
  | Some root =>
      match tenant_shard_key tenant with
      | Err e => (Err e, self)
      | Ok key =>
          match shards self !! key with
          | Some file => (Ok (Shard file), self)
          | None =>
              let path := tenant_db_path root key in
              match open_fault with
              | Some e => (Err e, self)
              | None =>
                  (Ok (Shard path),
                   mk (control self) (data self) (tenant_root self) (<[key := path]> (shards self))
                     (<[path := default empty_db (disk self !! path)]> (disk self)))
              end
          end
      end
  end.

Definition read_db (h : handle) (self : t) : MetaDb :=
  match h with Control => data self | Shard file => default empty_db (disk self !! file) end.

Definition write_db (h : handle) (db : MetaDb) (self : t) : t :=
  match h with
  | Control => mk (control self) db (tenant_root self) (shards self) (disk self)
  | Shard file => mk (control self) (data self) (tenant_root self) (shards self) (<[file := db]> (disk self))
  end.

(** A call on the database a handle names. *)
Definition with_db {A} (h : handle) (m : dbm A) : stm t MetaDbError A := λ self,
  let '(r, db) := m (read_db h self) in (r, write_db h db self).
End TenantMetaRouter.

Section router.
Import ControlDb TenantMetaRouter Path.

Lemma sanitize_plain t : t ≠ "" → sanitize_tenant_id t = Ok t → plain_name t.
Proof.
  intros Hne. unfold sanitize_tenant_id. case_bool_decide; [done|].
  destruct (forallb _ (explode t)) eqn:Hall; [|done]. intros _.
  assert (∀ c, c ∈ explode t → is_ascii_alphanumeric c = true ∨ c = "-"%char ∨ c = "_"%char) as Hc.
  { intros c Hc. apply list_elem_of_In in Hc. eapply forallb_forall in Hall; [|exact Hc].
    apply orb_true_iff in Hall as [[?|?%bool_decide_eq_true]%orb_true_iff|?%bool_decide_eq_true]; auto. }
  assert (∀ c, is_ascii_alphanumeric c = false → c ≠ "-"%char → c ≠ "_"%char → c ∉ explode t) as Hno.
  { intros c H1 H2 H3 Hin. destruct (Hc c Hin) as [?|[?|?]]; congruence. }
  repeat split; try done.
  - intros ->. apply (Hno "."%char); try done; by left.
  - intros ->. apply (Hno "."%char); try done; by left.
  - unfold sep_free, sep. by apply Hno.
Qed.

Lemma legacy_plain : plain_name "_legacy".
Proof. by apply sanitize_plain. Qed.

Lemma shard_key_plain t k : tenant_shard_key t = Ok k → plain_name k.
Proof.
  unfold tenant_shard_key, non_empty. destruct t as [t|].
  - case_decide as Ht; [intros [= <-]; apply legacy_plain|]. intros Hk.
    assert (k = t) as -> by (revert Hk; unfold sanitize_tenant_id; repeat case_match; congruence).
    by apply sanitize_plain.
  - intros [= <-]. apply legacy_plain.
Qed.

Lemma shard_key_eq t1 t2 k :
  tenant_shard_key t1 = Ok k → tenant_shard_key t2 = Ok k → k ≠ "_legacy" →
  non_empty t1 = non_empty t2.
Proof.
  unfold tenant_shard_key. destruct (non_empty t1) as [a|], (non_empty t2) as [b|];
    unfold sanitize_tenant_id; repeat case_match; congruence.
Qed.

Lemma shard_key_legacy t : tenant_shard_key t = Ok "_legacy" → non_empty t = None ∨ t = Some "_legacy".
Proof.
  unfold tenant_shard_key, non_empty, sanitize_tenant_id. destruct t as [t|]; [|by left].
  repeat case_match; try done; try (by left). intros [= ->]. by right.
Qed.

Lemma db_path_components root k :
  root ≠ "" → plain_name k →
  components (tenant_db_path root k) = components root ++ [Normal k; Normal "meta.sqlite"].
Proof.
  intros Hr Hk. unfold tenant_db_path.
  assert (plain_name "meta.sqlite") as Hm.
  { repeat split; try done. unfold sep_free, sep. vm_compute. set_solver. }
  assert (join root k ≠ "").
  { intros Hj. pose proof (components_join_plain root k Hr Hk) as Hc. rewrite Hj in Hc.
    symmetry in Hc. by apply app_eq_nil in Hc as [_ ?]. }
  rewrite !components_join_plain by done. by rewrite <-app_assoc.
Qed.

(** The router's life: opening shards and any call on an open database. *)
Inductive router_step (s : TenantMetaRouter.t) : TenantMetaRouter.t → Prop :=
  | step_open f tenant : router_step s (tenant_data f tenant s).2
  | step_call {A} h (m : dbm A) : router_step s (with_db h m s).2.

Definition router_inv (root : string) (s : TenantMetaRouter.t) : Prop :=
  tenant_root s = Some root ∧ ∀ k f, shards s !! k = Some f → f = tenant_db_path root k.

Lemma tenant_data_inv root f tenant s : router_inv root s → router_inv root (tenant_data f tenant s).2.
Proof.
  intros [Hr Hs]. unfold tenant_data. rewrite Hr.
  destruct (tenant_shard_key tenant) as [key|e]; [|done].
  destruct (shards s !! key) eqn:Hk; [done|]. destruct f; [done|]. split; [done|]. cbn.
  intros k f. destruct (decide (key = k)) as [->|].
  - rewrite lookup_insert_eq. congruence.
  - rewrite lookup_insert_ne by done. apply Hs.
Qed.

Lemma reachable_router_inv c db root s : rtc router_step (split c db root) s → router_inv root s.
Proof.
  intros Hr. assert (router_inv root (split c db root)) as Hi.
  { split; [done|]. intros k f. cbn. by rewrite lookup_empty. }
  revert Hi. induction Hr as [|s1 s2 s3 Hst _ IH]; [done|]. intros Hi. apply IH.
  destruct Hst as [f t|A h m]; [by apply tenant_data_inv|].
  unfold with_db. destruct (m _). by destruct h.
Qed.

Lemma tenant_data_handle root f tenant s h s' :
  router_inv root s → tenant_data f tenant s = (Ok h, s') →
  ∃ k, tenant_shard_key tenant = Ok k ∧ h = Shard (tenant_db_path root k).
Proof.
  intros [Hr Hs]. unfold tenant_data. rewrite Hr.
  destruct (tenant_shard_key tenant) as [key|e]; [|done]. intros Ht. exists key. split; [done|].
  destruct (shards s !! key) as [file|] eqn:Hk.
  - injection Ht as <- _. by rewrite (Hs _ _ Hk).
  - destruct f; [done|]. by injection Ht as <- _.
Qed.
End router.

Module TenancyProps.
Import ControlDb TenantMetaRouter Path.

(** C26: With a tenant root, the databases of two tenants are different files
    below that root whatever was opened before: a call made through one
    tenant's handle changes nothing the other's handle reads. The tenants
    must differ as the router sees them (none and the empty name are one) and
    neither may be named like the directory of the tenantless data. *)
Theorem tenant_shard_isolation {A} c db root s f1 f2 t1 t2 h1 h2 s1 s2 (m : dbm A) :
  root ≠ "" → rtc router_step (split c db root) s →
  tenant_data f1 t1 s = (Ok h1, s1) → tenant_data f2 t2 s1 = (Ok h2, s2) →
  non_empty t1 ≠ non_empty t2 → t1 ≠ Some "_legacy" → t2 ≠ Some "_legacy" →
  read_db h2 (with_db h1 m s2).2 = read_db h2 s2
  ∧ ∃ k, h1 = Shard (tenant_db_path root k)
      ∧ components (tenant_db_path root k) = components root ++ [Normal k; Normal "meta.sqlite"].
Proof.
  intros Hroot Hreach Ht1 Ht2 Hne Hl1 Hl2. pose proof (reachable_router_inv _ _ _ _ Hreach) as Hi.
  pose proof (tenant_data_inv root f1 t1 s Hi) as Hi1. rewrite Ht1 in Hi1.
  destruct (tenant_data_handle _ _ _ _ _ _ Hi Ht1) as (k1&Hk1&->).
  destruct (tenant_data_handle _ _ _ _ _ _ Hi1 Ht2) as (k2&Hk2&->).
  pose proof (shard_key_plain _ _ Hk1) as Hp1. pose proof (shard_key_plain _ _ Hk2) as Hp2. split.
  - unfold with_db. destruct (m _). cbn. rewrite lookup_insert_ne; [done|]. intros Heq.
    apply (f_equal components) in Heq. rewrite !db_path_components in Heq by done.
    apply (inj (app _)) in Heq. injection Heq as ->.
    destruct (decide (k2 = "_legacy")) as [->|Hk]; [|by eapply Hne, shard_key_eq].
    destruct (shard_key_legacy _ Hk1) as [?|?], (shard_key_legacy _ Hk2) as [?|?]; congruence.
  - exists k1. split; [done|]. by apply db_path_components.
Qed.

Definition no_control : ControlDb := mkControl [] [] ∅.
Definition demo_router : TenantMetaRouter.t := split no_control empty_db "/data".

Lemma tenant_shard_isolation_witness :
  let s1 := (tenant_data None (Some "acme") demo_router).2 in
  let s2 := (tenant_data None (Some "zeta") s1).2 in
  read_db (Shard "/data/zeta/meta.sqlite")
    (with_db (Shard "/data/acme/meta.sqlite") (execute (set_vaults (λ _, [VaultRow.mk None "v" 0]))) s2).2
  = read_db (Shard "/data/zeta/meta.sqlite") s2.
Proof.
  refine (proj1 (tenant_shard_isolation no_control empty_db "/data" demo_router None None
    (Some "acme") (Some "zeta") _ _ (tenant_data None (Some "acme") demo_router).2 _
    (execute (set_vaults (λ _, [VaultRow.mk None "v" 0]))) _ (rtc_refl _ _) _ _ _ _ _)); try done.
Defined.

(** A tenant may be named like the directory of the tenantless data, and then
    both are kept in one file. *)
Lemma legacy_shard_shared f s :
  tenant_shard_key (Some "_legacy") = tenant_shard_key None
  ∧ tenant_data f (Some "_legacy") s = tenant_data f None s.
Proof. done. Qed.
End TenancyProps.
