(* ===== verification/SyncService.v ===== *)
(** * The sync service's state exchange ([disk-server/src/services/sync.rs])

    Authentication, tenant and role checks of a call, the conversions between
    protocol and domain metadata, and [exchange_state]: the server reconciles
    its own rows with what the client reports and the client's baseline,
    answers with the work the client has to do, and records conflicts,
    tombstones and the new baseline.

    Readings of the clock are arguments. Paths come from protocol strings and
    text columns, which are UTF-8, so [to_string_lossy] leaves them alone. A
    status that prints another error carries it. *)

From stdpp Require Import prelude gmap strings.
From Stdlib Require Import ZArith Lia Strings.Ascii.
From S2P Require Import Prelude Text VectorClock Types Reconciler Fork Guard Sql MetaDb MetaFiles MetaSync.
From S2P Require Import Billing Fs Publisher Auth Acl Tenancy.

#[local] Open Scope Z_scope.

(** ** Protocol messages *)
Module Proto.
Module FileMetadata.
Record t := mk {
  path : string;
  content_hash : bytes;
  size : Z;
  mtime_ns : Z;
  inode : Z;
  vector_clock : gmap string Z;
  deleted : bool;
  deleted_at : Z;
  node_id : string;
  encryption_nonce : bytes;
  tenant_id : string;
  vault_id : string;
  user_id : string;
  version_id : Z;
  parent_version_id : Z
}.

Definition default : t := mk "" [] 0 0 0 ∅ false 0 "" [] "" "" "" 0 0.
(** [FileMetadata { path, ..Default::default() }]. *)
Definition of_path (p : string) : t := mk p [] 0 0 0 ∅ false 0 "" [] "" "" "" 0 0.
End FileMetadata.

Module ConflictReport.
Record t := mk {
  path : string;
  local : option FileMetadata.t;
  remote : option FileMetadata.t;
  suggested_resolution : string
}.
End ConflictReport.

Record SyncStateResponse := mk_response {
  to_upload : list FileMetadata.t;
  to_download : list FileMetadata.t;
  to_delete : list FileMetadata.t;
  conflicts : list ConflictReport.t;
  server_clock : gmap string Z
}.

Definition empty_response : SyncStateResponse := mk_response [] [] [] [] ∅.

Record AclMismatchDetails := {
  claimed_role : string;
  enforced_role : string;
  share : string;
  cert_fingerprint : bytes;
  ts_ms : Z
}.

Inductive Status :=
  | Unauthenticated (msg : string)
  | PermissionDenied (msg : string) (details : option AclMismatchDetails)
  | UnavailableAcl (r : Acl.UnhealthyReason)
  | InternalDb (what : string) (e : MetaDbError)
  | InternalReconcile (e : ReconcileError)
  | Unimplemented (msg : string)
  | InvalidArgument (msg : string)
  | PathRejected (e : PathGuard.PathGuardError)
  | DataLoss (msg : string)
  | NotFoundIo (e : Fs.io_error)
  | InternalIo (what : string) (e : Fs.io_error)
  | Internal (msg : string)
  | QuotaExceeded (what : string) (e : Quota.QuotaError)
  | ResourceExhausted (retry_after : Z)
  | PublisherInvalid (e : Publisher.VerifyError)
  | AlreadyExists (msg : string)
  | Aborted (msg : string)
  | FromClient (code : Z).
End Proto.
Abbreviation FileMetadata := Proto.FileMetadata.t.

(** ** Conversions *)
Module Convert.
Import Proto.

Definition zero_none (z : Z) : option Z := if decide (z = 0) then None else Some z.

Definition proto_to_file_meta (m : FileMetadata) : FileMeta :=
  let content_hash :=
    if decide (hash32 (FileMetadata.content_hash m)) then FileMetadata.content_hash m else zero_hash in
  FileMeta.mk (FileMetadata.path m) content_hash (FileMetadata.size m) (FileMetadata.mtime_ns m)
    (zero_none (FileMetadata.inode m)) (FileMetadata.vector_clock m) (FileMetadata.deleted m)
    (zero_none (FileMetadata.deleted_at m)) (FileMetadata.node_id m)
    (if decide (FileMetadata.encryption_nonce m = []) then None else Some (FileMetadata.encryption_nonce m))
    (zero_none (FileMetadata.version_id m)) (zero_none (FileMetadata.parent_version_id m)).

Definition file_meta_to_proto (m : FileMeta) : FileMetadata :=
  FileMetadata.mk (FileMeta.path m) (FileMeta.content_hash m) (FileMeta.size m) (FileMeta.mtime_ns m)
    (default 0 (FileMeta.inode m)) (FileMeta.vector_clock m) (FileMeta.deleted m)
    (default 0 (FileMeta.deleted_at m)) (FileMeta.node_id m) (default [] (FileMeta.encryption_nonce m))
    "" "" "" (default 0 (FileMeta.version_id m)) (default 0 (FileMeta.parent_version_id m)).

Definition suggested_resolution_for (kind : ConflictKind) : string :=
  match kind with
  | KConcurrent => "merge"
  | ModifiedDeleted => "keep-local"
  | RenameRename => "fork-local"
  | DirDeleteChildModify => "keep-local"
  end.

(** [{:?}] of a [ConflictKind]. *)
Definition debug_kind (kind : ConflictKind) : string :=
  match kind with
  | KConcurrent => "Concurrent"
  | ModifiedDeleted => "ModifiedDeleted"
  | RenameRename => "RenameRename"
  | DirDeleteChildModify => "DirDeleteChildModify"
  end.

Definition find_path (fs : list FileMeta) (p : string) : option FileMeta :=
  find_first (λ m, Path.path_eqb (FileMeta.path m) p) fs.

Definition filter_proto_paths (items : list FileMetadata) (includes : list string) : list FileMetadata :=
  if decide (includes = []) then items
  else List.filter (λ m, SelectiveSync.path_matches_includes (FileMetadata.path m) includes) items.

(** The baseline the client should hold after applying the actions. *)
Definition baseline_entry (now_secs : Z) (server_files : list FileMeta) (a : SyncAction) : option FileMeta :=
  match SyncAction.action a with
  | Upload | Skip => find_path server_files (SyncAction.path a)
  | Download => SyncAction.server_version a
  | DeleteLocal | DeleteRemote =>
      FileMeta.set_deleted true (Some now_secs) <$> find_path server_files (SyncAction.path a)
  | _ => None
  end.

Definition build_post_sync_baseline (now_secs : Z) (server_files : list FileMeta)
    (actions : list SyncAction) : list FileMeta :=
  omap (baseline_entry now_secs server_files) actions.

(** The maximum tick of each node over the server's rows. *)
Definition clock_max (acc : gmap string Z) (m : FileMeta) : gmap string Z :=
  map_fold (λ node tick acc,
    let entry := default 0 (acc !! node) in
    <[node := if bool_decide (entry < tick) then tick else entry]> acc) acc (FileMeta.vector_clock m).

Definition build_server_clock (server_files : list FileMeta) : gmap string Z :=
  foldl clock_max ∅ server_files.
End Convert.

(** ** The service *)
Module SyncService.
Import Proto Acl.

Record AuditRow := { a_cert : CertFingerprint; a_share : string; a_claimed : string; a_enforced : string }.

(** [sync_file_changed_payload] and [sync_file_deleted_payload]. *)
Inductive Payload :=
  | FileChanged (path content_hash_hex : string) (size : Z) (node_id : string)
  | FileDeleted (path node_id : string) (deleted_at : Z).

Record AgentWebhookJob := {
  job_tenant : option string;
  job_vault : string;
  job_event : string;
  job_payload : Payload
}.

(** The fields the calls modelled here use. *)
Record t := mk {
  store : AuthStore.t;
  meta_router : option TenantMetaRouter.t;
  server_node_id : string;
  acl_enforcer : option AclState;
  audit : option (list AuditRow);
  agent_webhooks : list AgentWebhookJob
}.

Abbreviation srv := (stm t Status).

Definition set_store (x : AuthStore.t) (s : t) : t :=
  mk x (meta_router s) (server_node_id s) (acl_enforcer s) (audit s) (agent_webhooks s).
Definition set_router (x : TenantMetaRouter.t) (s : t) : t :=
  mk (store s) (Some x) (server_node_id s) (acl_enforcer s) (audit s) (agent_webhooks s).

(** gRPC metadata, [HeaderValue::to_str]: visible ASCII and tab only. *)
Abbreviation MetadataMap := (gmap string string).

Definition visible (c : ascii) : bool :=
  bool_decide (32 ≤ ascii_code c < 127) || bool_decide (ascii_code c = 9).

Definition header (md : MetadataMap) (name : string) : option string :=
  v ← md !! name; if forallb visible (explode v) then Some v else None.

Definition require_auth (now : Z) (md : MetadataMap) : srv string := λ s,
  match header md "authorization" with
  | None => (Err (Unauthenticated "missing authorization header"), s)
  | Some raw =>
      match SessionToken.from_bearer raw with
      | None => (Err (Unauthenticated "invalid bearer token format"), s)
      | Some token =>
          let '(r, st) := AuthStore.validate_session now token (store s) in
          (ok_or r (Unauthenticated "session expired or unknown"), set_store st s)
      end
  end.

Definition extract_share (md : MetadataMap) : string := default "default" (header md "x-disk-share").

Definition extract_tenant (md : MetadataMap) : option string :=
  ControlDb.non_empty (header md "x-disk-tenant").

(** A query of the control database. *)
Definition control {A} (what : string) (r : TenantMetaRouter.t) (q : ctl A) : srv A :=
  st_lift (map_err (InternalDb what) (q (TenantMetaRouter.control r)).1).

Definition resolve_session_tenant (md : MetadataMap) (node_id : string) : srv (option string) := λ s,
  (node_tenant <~ match AuthStore.node_tenant (store s) node_id with
                  | Some t => st_ret (Some t)
                  | None =>
                      match meta_router s with
                      | Some router => control "node tenant lookup" router (ControlDb.get_node_tenant node_id)
                      | None => st_ret None
                      end
                  end ;;
   st_lift (map_err (λ _, PermissionDenied "tenant mismatch" None)
              (Tenant.enforce_node_tenant (extract_tenant md) node_tenant))) s.

Definition selective_includes_for_node (tenant : option string) (node_id vault_id : string)
    : srv (list string) := λ s,
  match meta_router s with
  | None => (Ok [], s)
  | Some router =>
      control "selective sync lookup" router (ControlDb.list_node_sync_includes tenant node_id vault_id) s
  end.

Definition require_selective_path (path : string) (includes : list string) : result unit Status :=
  if SelectiveSync.path_matches_includes path includes then Ok tt
  else Err (PermissionDenied "path outside selective sync includes" None).

Definition resolved_role (s : t) (cert : option CertFingerprint) (share : string) : option EnforcedRole :=
  enforcer ← acl_enforcer s; fp ← cert;
  match resolve enforcer fp share with Ok role => Some role | Err _ => None end.

Definition emit_role_mismatch_audit (fp : CertFingerprint) (share claimed enforced : string) (s : t) : t :=
  mk (store s) (meta_router s) (server_node_id s) (acl_enforcer s)
    ((λ l, l ++ [{| a_cert := fp; a_share := share; a_claimed := claimed; a_enforced := enforced |}]) <$> audit s)
    (agent_webhooks s).

Definition check_acl_by_cert (now_ms : Z) (cert : option CertFingerprint) (share : string)
    (allowed : list EnforcedRole) (hint : string) : srv unit := λ s,
  match acl_enforcer s, cert with
  | None, _ | _, None => (Ok tt, s)
  | Some enforcer, Some fp =>
      match resolve enforcer fp share with
      | Ok role =>
          if bool_decide (role ∈ allowed) then (Ok tt, s)
          else
            (Err (PermissionDenied
                   ("ACL role mismatch: enforced=" +:+ as_str role +:+ " claimed=" +:+ hint)
                   (Some {| claimed_role := hint; enforced_role := as_str role; share := share;
                            cert_fingerprint := fp; ts_ms := now_ms |})),
             emit_role_mismatch_audit fp share hint (as_str role) s)
      | Err (ShareUnknown sh _) =>
          (Err (PermissionDenied ("share unknown: " +:+ sh +:+ "; retry after ACL provisioning") None), s)
      | Err (Unavailable reason) => (Err (UnavailableAcl reason), s)
      end
  end.

Definition WRITE_ROLES : list EnforcedRole := [Bidirectional; SendOnly; Publisher].
Definition READ_ROLES : list EnforcedRole := [Bidirectional; ReceiveOnly].

(** ** [exchange_state] *)

(** What the clock read at each place: the session check, the mismatch
    details, the fork name and the row of the n-th action's conflict, the
    tombstones, the n-th action's upsert, the baseline and its rows. *)
Record clock := {
  at_auth : Z;
  at_details_ms : Z;
  at_fork : nat → Z;
  at_conflict : nat → Z;
  at_tombstone : Z;
  at_upsert : nat → Z;
  at_baseline : Z;
  at_writeback : Z
}.

Record work := mk_work {
  w_upload : list FileMetadata.t;
  w_download : list FileMetadata.t;
  w_delete : list FileMetadata.t;
  w_conflicts : list Proto.ConflictReport.t
}.

Section exchange.
Context {codec : VcCodec}.
Context (clk : clock) (share node_id : string) (tenant : option string) (role : option EnforcedRole).
Context (server_files client_files : list FileMeta).

Definition db_call {A} (what : string) (h : TenantMetaRouter.handle) (m : dbm A) : srv A := λ s,
  match meta_router s with
  | None => (Err (InternalDb what (Invalid "no router")), s)
  | Some r => let '(x, r) := TenantMetaRouter.with_db h m r in (map_err (InternalDb what) x, set_router r s)
  end.

(** A call whose error is only logged. *)
Definition db_try {A} (h : TenantMetaRouter.handle) (m : dbm A) : srv unit := λ s,
  (Ok tt, (db_call "" h m s).2).

Definition conflict_record (i : nat) (a : SyncAction) : ConflictRecord :=
  ConflictRecord.mk None share (SyncAction.path a)
    (default "Concurrent" ((λ c, Convert.debug_kind (ConflictReport.kind c)) <$> SyncAction.conflict a))
    (SyncAction.conflict a ≫= ConflictReport.local_hash)
    (SyncAction.conflict a ≫= ConflictReport.remote_hash)
    (SyncAction.conflict a ≫= ConflictReport.base_hash)
    None (ForkName.fork_filename (SyncAction.path a) node_id (at_fork clk i)) false 0 None.

Definition conflict_report (a : SyncAction) : Proto.ConflictReport.t :=
  Proto.ConflictReport.mk (SyncAction.path a)
    (Convert.file_meta_to_proto <$> Convert.find_path client_files (SyncAction.path a))
    (Convert.file_meta_to_proto <$> Convert.find_path server_files (SyncAction.path a))
    (default "fork-local"
       ((λ c, Convert.suggested_resolution_for (ConflictReport.kind c)) <$> SyncAction.conflict a)).

Definition route_action (h : TenantMetaRouter.handle) (i : nat) (a : SyncAction) (w : work) : srv work :=
  let push_download o :=
    match o with
    | Some m => mk_work (w_upload w) (w_download w ++ [Convert.file_meta_to_proto m]) (w_delete w) (w_conflicts w)
    | None => w
    end in
  let push_upload o :=
    match o with
    | Some m => mk_work (w_upload w ++ [Convert.file_meta_to_proto m]) (w_download w) (w_delete w) (w_conflicts w)
    | None => w
    end in
  if Filter.is_sync_ephemeral_marker (SyncAction.path a) then st_ret w
  else match SyncAction.action a with
  | Upload =>
      st_ret (push_download match SyncAction.server_version a with
                            | Some m => Some m
                            | None => Convert.find_path server_files (SyncAction.path a)
                            end)
  | Download =>
      st_ret (push_upload match SyncAction.server_version a with
                          | Some m => Some m
                          | None => Convert.find_path client_files (SyncAction.path a)
                          end)
  | DeleteLocal | DeleteRemote =>
      st_ret (mk_work (w_upload w) (w_download w)
                (w_delete w ++ [FileMetadata.of_path (SyncAction.path a)]) (w_conflicts w))
  | ConflictFork | ConflictMerge =>
      if decide (role = Some ReceiveOnly)
      then st_ret (push_download (Convert.find_path server_files (SyncAction.path a)))
      else
        _ <~ db_try h (MetaConflicts.create_conflict_scoped (at_conflict clk i) tenant (conflict_record i a)) ;;
        st_ret (mk_work (w_upload w) (w_download w) (w_delete w) (w_conflicts w ++ [conflict_report a]))
  | Skip | RenameRemote | RenameLocal => st_ret w
  end.

Fixpoint route_actions (h : TenantMetaRouter.handle) (i : nat) (actions : list SyncAction) (w : work) : srv work :=
  match actions with
  | [] => st_ret w
  | a :: actions => w <~ route_action h i a w ;; route_actions h (S i) actions w
  end.

Definition enqueue (j : AgentWebhookJob) (s : t) : t :=
  mk (store s) (meta_router s) (server_node_id s) (acl_enforcer s) (audit s) (agent_webhooks s ++ [j]).

(** Tombstones for what the client deleted; the row's clock is kept. *)
Fixpoint tombstone_actions (h : TenantMetaRouter.handle) (i : nat) (actions : list SyncAction) : srv unit :=
  match actions with
  | [] => st_ret tt
  | a :: actions =>
      _ <~ match SyncAction.action a, Convert.find_path server_files (SyncAction.path a) with
           | DeleteLocal, Some m =>
               if FileMeta.deleted m then st_ret tt
               else
                 _ <~ db_call "tombstone upsert" h
                        (MetaFiles.upsert_file_scoped (at_upsert clk i) tenant share
                           (FileMeta.set_deleted true (Some (at_tombstone clk)) m)) ;;
                 (λ s, (Ok tt, enqueue {| job_tenant := tenant; job_vault := share;
                                          job_event := "sync.file_deleted";
                                          job_payload := FileDeleted (SyncAction.path a) node_id (at_tombstone clk) |} s))
           | _, _ => st_ret tt
           end ;;
      tombstone_actions h (S i) actions
  end.
End exchange.

Definition not_marker (m : FileMeta) : bool := negb (Filter.is_sync_ephemeral_marker (FileMeta.path m)).

Section handler.
Context {codec : VcCodec}.

(** From the authenticated, authorised call on: [files] is the request's
    list of files. *)
Definition exchange (clk : clock) (share node_id : string) (tenant : option string)
    (role : option EnforcedRole) (open_fault : option MetaDbError) (files : list FileMetadata.t)
    : srv SyncStateResponse := λ s,
  match meta_router s with
  | None => (Ok empty_response, s)
  | Some router =>
      let '(rh, router) := TenantMetaRouter.tenant_data open_fault tenant router in
      (h <~ st_lift (map_err (InternalDb "tenant meta db") rh) ;;
       server <~ db_call "meta_db list_files_scoped" h (MetaFiles.list_files_scoped tenant share) ;;
       let server_files := List.filter not_marker server in
       let client_files := List.filter not_marker (Convert.proto_to_file_meta <$> files) in
       loaded <~ db_call "baseline load" h (MetaBaselines.load_node_baseline_scoped tenant node_id share) ;;
       let baseline := List.filter not_marker loaded in
       actions <~ st_lift (map_err InternalReconcile (Tree.reconcile server_files client_files baseline)) ;;
       w <~ route_actions clk share node_id tenant role server_files client_files h 0 actions (mk_work [] [] [] []) ;;
       let clock := Convert.build_server_clock server_files in
       _ <~ tombstone_actions clk share node_id tenant server_files h 0 actions ;;
       let new_baseline := Convert.build_post_sync_baseline (at_baseline clk) server_files actions in
       _ <~ db_call "baseline writeback" h
              (MetaBaselines.upsert_node_baselines_scoped (at_writeback clk) tenant node_id share new_baseline) ;;
       includes <~ selective_includes_for_node tenant node_id share ;;
       let uploads := if decide (role = Some ReceiveOnly) then [] else w_upload w in
       st_ret (mk_response (Convert.filter_proto_paths uploads includes)
                 (Convert.filter_proto_paths (w_download w) includes)
                 (Convert.filter_proto_paths (w_delete w) includes)
                 (w_conflicts w) clock)) (set_router router s)
  end.

Definition exchange_state (clk : clock) (md : MetadataMap) (cert : option CertFingerprint)
    (open_fault : option MetaDbError) (files : list FileMetadata.t) : srv SyncStateResponse :=
  node_id <~ require_auth (at_auth clk) md ;;
  tenant <~ resolve_session_tenant md node_id ;;
  let share := extract_share md in
  _ <~ check_acl_by_cert (at_details_ms clk) cert share
         [Bidirectional; SendOnly; ReceiveOnly; Publisher] "bidirectional" ;;
  λ s, exchange clk share node_id tenant (resolved_role s cert share) open_fault files s.

(** The unary upload only checks the role. *)
Definition upload_delta (now_ms : Z) (md : MetadataMap) (cert : option CertFingerprint) : srv unit :=
  _ <~ check_acl_by_cert now_ms cert (extract_share md) WRITE_ROLES "send_only" ;;
  st_err (Unimplemented "use DeltaUpload streaming").
End handler.
End SyncService.
