(* ===== verification/SyncServiceProps.v ===== *)
(** * Properties of the state exchange

    The loops of [exchange_state] against declarative lists, the frame of each
    of its database calls, and the theorems on what a client is told. *)

From stdpp Require Import prelude gmap strings.
From Stdlib Require Import ZArith Lia.
From S2P Require Import Prelude Text VectorClock Types Reconciler Guard Sql MetaDb MetaFiles MetaSync.
From S2P Require Import Auth Acl Tenancy SyncService.

#[local] Open Scope Z_scope.

(** ** The response, declaratively *)
Section response.
Import Proto Acl SyncService Convert.
Context {codec : VcCodec}.
Context (role : option EnforcedRole) (server_files client_files : list FileMeta).

Definition live (a : SyncAction) : bool := negb (Filter.is_sync_ephemeral_marker (SyncAction.path a)).

Definition or_else {A} (x y : option A) : option A := match x with Some _ => x | None => y end.

Definition download_of (a : SyncAction) : option FileMetadata :=
  if live a then
    match SyncAction.action a with
    | Upload => file_meta_to_proto <$>
        or_else (SyncAction.server_version a) (find_path server_files (SyncAction.path a))
    | ConflictFork | ConflictMerge =>
        if decide (role = Some ReceiveOnly)
        then file_meta_to_proto <$> find_path server_files (SyncAction.path a) else None
    | _ => None
    end
  else None.

Definition upload_of (a : SyncAction) : option FileMetadata :=
  if live a then
    match SyncAction.action a with
    | Download => file_meta_to_proto <$>
        or_else (SyncAction.server_version a) (find_path client_files (SyncAction.path a))
    | _ => None
    end
  else None.

Definition delete_of (a : SyncAction) : option FileMetadata :=
  if live a then
    match SyncAction.action a with
    | DeleteLocal | DeleteRemote => Some (FileMetadata.of_path (SyncAction.path a))
    | _ => None
    end
  else None.

Definition conflict_of (a : SyncAction) : option Proto.ConflictReport.t :=
  if live a then
    match SyncAction.action a with
    | ConflictFork | ConflictMerge =>
        if decide (role = Some ReceiveOnly) then None
        else Some (conflict_report server_files client_files a)
    | _ => None
    end
  else None.

Definition routed (actions : list SyncAction) (w : work) : work :=
  mk_work (w_upload w ++ omap upload_of actions) (w_download w ++ omap download_of actions)
    (w_delete w ++ omap delete_of actions) (w_conflicts w ++ omap conflict_of actions).

Lemma routed_cons a actions w : routed (a :: actions) w = routed actions (routed [a] w).
Proof.
  unfold routed. cbn.
  destruct (upload_of a), (download_of a), (delete_of a), (conflict_of a); cbn;
    rewrite <-?app_assoc, ?app_nil_r; done.
Qed.

(** Everything but the databases. *)
Definition same_frame (s s' : SyncService.t) : Prop :=
  store s' = store s ∧ acl_enforcer s' = acl_enforcer s ∧ audit s' = audit s
  ∧ server_node_id s' = server_node_id s
  ∧ TenantMetaRouter.control <$> meta_router s' = TenantMetaRouter.control <$> meta_router s.

Lemma db_call_frame {A} what h (m : dbm A) s : same_frame s (db_call what h m s).2.
Proof.
  unfold db_call. destruct (meta_router s) as [r|] eqn:Hr; [|done].
  unfold TenantMetaRouter.with_db. destruct (m _), h; unfold same_frame; cbn; by rewrite Hr.
Qed.

Lemma same_frame_refl s : same_frame s s.
Proof. done. Qed.

Lemma same_frame_trans s1 s2 s3 : same_frame s1 s2 → same_frame s2 s3 → same_frame s1 s3.
Proof. intros (?&?&?&?&?) (?&?&?&?&?). repeat split; congruence. Qed.

Context (clk : clock) (share node_id : string) (tenant : option string).

Lemma route_action_spec h i a w s :
  ∃ s', route_action clk share node_id tenant role server_files client_files h i a w s = (Ok (routed [a] w), s')
    ∧ same_frame s s' ∧ (role = Some ReceiveOnly → s' = s).
Proof.
  unfold route_action, routed, upload_of, download_of, delete_of, conflict_of, live. cbn [omap list_omap].
  destruct (Filter.is_sync_ephemeral_marker (SyncAction.path a)); cbn [negb].
  { eexists. rewrite !app_nil_r. destruct w. repeat split; eauto. }
  destruct (SyncAction.action a); unfold or_else; try case_decide as Hr;
    try destruct (SyncAction.server_version a);
    try destruct (find_path server_files (SyncAction.path a));
    try destruct (find_path client_files (SyncAction.path a));
    cbn; rewrite ?app_nil_r; destruct w; eexists;
    (split_and!; [reflexivity|first [apply db_call_frame|apply same_frame_refl]|done]).
Qed.

Lemma route_actions_spec h i actions w s :
  ∃ s', route_actions clk share node_id tenant role server_files client_files h i actions w s
          = (Ok (routed actions w), s')
    ∧ same_frame s s' ∧ (role = Some ReceiveOnly → s' = s).
Proof.
  revert i w s. induction actions as [|a actions IH]; intros i w s; cbn [route_actions].
  - exists s. unfold routed; cbn. rewrite !app_nil_r. destruct w. done.
  - destruct (route_action_spec h i a w s) as (s1&Hs1&Hf1&Hr1).
    destruct (IH (S i) (routed [a] w) s1) as (s2&Hs2&Hf2&Hr2).
    exists s2. unfold st_bind. rewrite Hs1, Hs2, <-routed_cons. split_and!; [done| |].
    + by eapply same_frame_trans.
    + intros Hr. by rewrite Hr2, Hr1.
Qed.
End response.

(** ** Databases through handles *)
Section handles.
Import TenantMetaRouter SyncService Proto.

#[global] Instance handle_eq_dec : EqDecision handle.
Proof. solve_decision. Defined.

Lemma read_with_db {A} h h' (m : dbm A) r :
  read_db h' (with_db h m r).2 = if decide (h = h') then (m (read_db h r)).2 else read_db h' r.
Proof.
  unfold with_db. destruct (m (read_db h r)) as [x db]. destruct h as [|f], h' as [|f']; cbn; try done.
  case_decide as Hf; [simplify_eq|].
  - by rewrite lookup_insert_eq.
  - by rewrite lookup_insert_ne by congruence.
Qed.

(** A table no call touches reads the same through every handle. *)
Lemma read_with_db_frame {A B} (tbl : MetaDb → B) h h' (m : dbm A) r :
  (∀ db, tbl (m db).2 = tbl db) → tbl (read_db h' (with_db h m r).2) = tbl (read_db h' r).
Proof. intros Hm. rewrite read_with_db. case_decide; [subst; apply Hm|done]. Qed.

Lemma read_tenant_data f tenant r h :
  read_db h (tenant_data f tenant r).2 = read_db h r.
Proof.
  unfold tenant_data. destruct (tenant_root r) as [root|]; [|done].
  destruct (tenant_shard_key tenant) as [key|]; [|done]. destruct (shards r !! key); [done|].
  destruct f; [done|]. destruct h as [|file]; cbn; [done|].
  destruct (decide (tenant_db_path root key = file)) as [<-|].
  - rewrite lookup_insert_eq. by destruct (disk r !! _).
  - by rewrite lookup_insert_ne.
Qed.

Lemma tenant_data_control f tenant r :
  TenantMetaRouter.control (tenant_data f tenant r).2 = TenantMetaRouter.control r.
Proof. unfold tenant_data. by repeat case_match. Qed.

Lemma db_call_inv {A} what h (m : dbm A) s x s' :
  db_call what h m s = (Ok x, s') →
  ∃ r, meta_router s = Some r ∧ (m (read_db h r)).1 = Ok x ∧ meta_router s' = Some (with_db h m r).2
    ∧ same_frame s s'.
Proof.
  intros Hc. pose proof (db_call_frame what h m s) as Hf. rewrite Hc in Hf. cbn in Hf. revert Hc.
  unfold db_call. destruct (meta_router s) as [r|] eqn:Hr; [|done].
  unfold with_db. destruct (m (read_db h r)) as [y db] eqn:Hm. destruct y as [y|e]; [|done]. cbn.
  intros [= -> <-]. exists r. rewrite Hm. split_and!; [done|done|done|exact Hf].
Qed.

(** Rows of a table, whatever the handle. *)
Definition rows {B} (tbl : MetaDb → B) (s : SyncService.t) (h : handle) : option B :=
  (λ r, tbl (read_db h r)) <$> meta_router s.

Lemma db_call_rows {A B} (tbl : MetaDb → B) what h h' (m : dbm A) s :
  (∀ db, tbl (m db).2 = tbl db) → rows tbl (db_call what h m s).2 h' = rows tbl s h'.
Proof.
  intros Hm. unfold rows, db_call. destruct (meta_router s) as [r|] eqn:Hr; [|by cbn; rewrite Hr].
  destruct (with_db h m r) as [x r'] eqn:Hw. cbn. f_equal.
  pose proof (read_with_db_frame tbl h h' m r Hm) as Hf. by rewrite Hw in Hf.
Qed.
End handles.

Section queries.
Context {codec : VcCodec}.

Lemma list_files_state tenant vault db : (MetaFiles.list_files_scoped tenant vault db).2 = db.
Proof. done. Qed.

Lemma load_baseline_state tenant node vault db :
  (MetaBaselines.load_node_baseline_scoped tenant node vault db).2 = db.
Proof. done. Qed.

Lemma upsert_file_conflicts now tenant vault m db :
  MetaDb.conflicts (MetaFiles.upsert_file_scoped now tenant vault m db).2 = MetaDb.conflicts db.
Proof.
  unfold MetaFiles.upsert_file_scoped, st_bind, st_lift, MetaFiles.insert_file.
  destruct (path_as_str _); [|done]. cbn. case_bool_decide; [done|].
  by destruct (insert_row _ _ _).
Qed.

Lemma upsert_baselines_conflicts now tenant node vault l db :
  MetaDb.conflicts (MetaBaselines.upsert_node_baselines_scoped now tenant node vault l db).2 = MetaDb.conflicts db.
Proof. unfold MetaBaselines.upsert_node_baselines_scoped. by case_match. Qed.
End queries.

(** ** The handler, inverted *)
Section handler.
Import Proto Acl SyncService Convert.
Context {codec : VcCodec}.

Lemma enqueue_frame j s h : same_frame s (enqueue j s) ∧ rows MetaDb.conflicts (enqueue j s) h = rows MetaDb.conflicts s h.
Proof. done. Qed.

Lemma tombstone_frame clk share node tenant sf h h' i actions s :
  let s' := (tombstone_actions clk share node tenant sf h i actions s).2 in
  same_frame s s' ∧ rows MetaDb.conflicts s' h' = rows MetaDb.conflicts s h'.
Proof.
  cbv zeta. revert i s. induction actions as [|a actions IH]; intros i s; cbn [tombstone_actions]; [done|].
  destruct (SyncAction.action a); try apply IH.
  destruct (find_path sf (SyncAction.path a)) as [m|]; [|apply IH].
  destruct (FileMeta.deleted m); [apply IH|]. unfold st_bind.
  pose proof (db_call_frame "tombstone upsert" h (MetaFiles.upsert_file_scoped (at_upsert clk i) tenant share
    (FileMeta.set_deleted true (Some (at_tombstone clk)) m)) s) as Hf.
  pose proof (db_call_rows MetaDb.conflicts "tombstone upsert" h h' (MetaFiles.upsert_file_scoped (at_upsert clk i) tenant share
    (FileMeta.set_deleted true (Some (at_tombstone clk)) m)) s (upsert_file_conflicts _ _ _ _)) as Hr.
  destruct (db_call _ _ _ s) as [[[]|e] s1]; cbn [snd] in *; [|split; [exact Hf|exact Hr]].
  match goal with |- context [tombstone_actions _ _ _ _ _ _ _ _ ?x] => specialize (IH (S i) x) as [Hf2 Hr2] end.
  split.
  - eapply same_frame_trans; [exact Hf|]. eapply same_frame_trans; [|exact Hf2]. done.
  - rewrite Hr2. exact Hr.
Qed.

(** The answer for a set of actions. *)
Definition answer (role : option EnforcedRole) (includes : list string) (sf cf : list FileMeta)
    (actions : list SyncAction) : SyncStateResponse :=
  mk_response
    (filter_proto_paths (if decide (role = Some ReceiveOnly) then [] else omap (upload_of cf) actions) includes)
    (filter_proto_paths (omap (download_of role sf) actions) includes)
    (filter_proto_paths (omap delete_of actions) includes)
    (omap (conflict_of role sf cf) actions)
    (build_server_clock sf).

(** The server's rows, the client's report and the baseline as the engine
    gets them. *)
Definition inputs (share node : string) (tenant : option string) (files : list FileMetadata) (db : MetaDb)
    (sf cf base : list FileMeta) : Prop :=
  (∃ all, (MetaFiles.list_files_scoped tenant share db).1 = Ok all ∧ sf = List.filter not_marker all)
  ∧ cf = List.filter not_marker (proto_to_file_meta <$> files)
  ∧ (∃ all, (MetaBaselines.load_node_baseline_scoped tenant node share db).1 = Ok all
       ∧ base = List.filter not_marker all).

Lemma includes_inv tenant node share s c includes s' :
  selective_includes_for_node tenant node share s = (Ok includes, s') →
  TenantMetaRouter.control <$> meta_router s = Some c →
  (ControlDb.list_node_sync_includes tenant node share c).1 = Ok includes ∧ s' = s.
Proof.
  unfold selective_includes_for_node. destruct (meta_router s) as [r|]; [|done].
  intros [Hinc ->]%st_lift_ok [= <-]. split; [|done]. cbn in *. by injection Hinc as <-.
Qed.

Lemma writeback_frame now tenant node share l h h' s u s' :
  db_call "baseline writeback" h (MetaBaselines.upsert_node_baselines_scoped now tenant node share l) s
    = (Ok u, s') →
  same_frame s s' ∧ rows MetaDb.conflicts s' h' = rows MetaDb.conflicts s h'.
Proof.
  intros Hc. split; [by apply db_call_inv in Hc as (_&_&_&_&?)|].
  pose proof (db_call_rows MetaDb.conflicts "baseline writeback" h h' _ s
    (upsert_baselines_conflicts now tenant node share l)) as Hr.
  by rewrite Hc in Hr.
Qed.

Lemma exchange_inv clk share node tenant role fault files s r resp s' :
  meta_router s = Some r →
  exchange clk share node tenant role fault files s = (Ok resp, s') →
  ∃ h r1 sf cf base actions includes,
    TenantMetaRouter.tenant_data fault tenant r = (Ok h, r1)
    ∧ inputs share node tenant files (TenantMetaRouter.read_db h r) sf cf base
    ∧ Tree.reconcile sf cf base = Ok actions
    ∧ (ControlDb.list_node_sync_includes tenant node share (TenantMetaRouter.control r)).1 = Ok includes
    ∧ resp = answer role includes sf cf actions
    ∧ same_frame s s'
    ∧ (role = Some ReceiveOnly → ∀ h', rows MetaDb.conflicts s' h' = rows MetaDb.conflicts s h').
Proof.
  intros Hr. unfold exchange. rewrite Hr.
  destruct (TenantMetaRouter.tenant_data fault tenant r) as [rh r1] eqn:Htd.
  pose proof (tenant_data_control fault tenant r) as Hctl. rewrite Htd in Hctl. cbn [snd] in Hctl.
  assert (∀ h', TenantMetaRouter.read_db h' r1 = TenantMetaRouter.read_db h' r) as Hread.
  { intros h'. pose proof (read_tenant_data fault tenant r h') as H. by rewrite Htd in H. }
  set (s0 := set_router r1 s).
  assert (same_frame s s0) as Hf0. { unfold same_frame, s0. cbn. by rewrite Hr, Hctl. }
  intros (h&?&[Hh ->]%st_lift_ok&Hk)%st_bind_ok. destruct rh as [h0|]; [|done]. injection Hh as ->.
  apply st_bind_ok in Hk as (all&s1&Hc1&Hk). cbv zeta in Hk.
  apply st_bind_ok in Hk as (loaded&s2&Hc2&Hk). cbv zeta in Hk.
  apply st_bind_ok in Hk as (actions&?&[Hrec ->]%st_lift_ok&Hk).
  apply st_bind_ok in Hk as (w&s3&Hroute&Hk). cbv zeta in Hk.
  apply st_bind_ok in Hk as (u&s4&Htomb&Hk). cbv zeta in Hk.
  apply st_bind_ok in Hk as (u'&s5&Hc5&Hk).
  apply st_bind_ok in Hk as (includes&s6&Hinc&Hk). cbv zeta in Hk. injection Hk as <- <-.
  apply db_call_inv in Hc1 as (ra&Hra&Hall&Hr1&Hf1). injection Hra as <-.
  apply db_call_inv in Hc2 as (rb&Hrb&Hload&Hr2&Hf2). rewrite Hr1 in Hrb. apply (inj Some) in Hrb as <-.
  rewrite read_with_db, decide_True, list_files_state in Hload by done. rewrite Hread in Hall, Hload.
  destruct (Tree.reconcile _ _ _) as [acts|] eqn:Hrecon; [|done]. injection Hrec as <-.
  match type of Hroute with route_actions _ _ _ _ _ ?sf ?cf _ _ _ _ _ = _ =>
    destruct (route_actions_spec role sf cf clk share node tenant h 0 acts (mk_work [] [] [] []) s2)
      as (s3'&Hroute'&Hf3&Hro);
    pose proof (tombstone_frame clk share node tenant sf h h 0 acts s3) as [Hf4 _];
    pose proof (λ h', proj2 (tombstone_frame clk share node tenant sf h h' 0 acts s3)) as Hrow4
  end.
  rewrite Hroute in Hroute'. injection Hroute' as -> <-.
  rewrite Htomb in Hf4, Hrow4. cbn [snd] in Hf4, Hrow4.
  pose proof (λ h', writeback_frame _ _ _ _ _ _ h' _ _ _ Hc5) as Hw5.
  assert (same_frame s s5) as Hf.
  { pose proof (proj1 (Hw5 h)).
    do 5 (eapply same_frame_trans; [eassumption|]). eassumption. }
  destruct (includes_inv _ _ _ _ (TenantMetaRouter.control r) _ _ Hinc) as [Hinc' ->].
  { rewrite (proj2 (proj2 (proj2 (proj2 Hf)))). by rewrite Hr. }
  exists h, r1, (List.filter not_marker all), (List.filter not_marker (proto_to_file_meta <$> files)),
    (List.filter not_marker loaded), acts, includes.
  split_and!; try done.
  - split_and!; [by exists all|done|by exists loaded].
  - intros Hrole h'. specialize (Hro Hrole). subst s3.
    rewrite (proj2 (Hw5 h')), Hrow4. unfold rows. rewrite Hr2, Hr. cbn [fmap option_fmap option_map].
    rewrite !read_with_db. repeat case_decide; subst; rewrite ?list_files_state, ?load_baseline_state, ?Hread; done.
Qed.
End handler.

Section entry.
Import Proto Acl SyncService Convert.
Context {codec : VcCodec}.

(** The tenant a node is bound to: the store's, else the control database's. *)
Definition bound_tenant (s : SyncService.t) (node : string) : option string :=
  match AuthStore.node_tenant (store s) node with
  | Some t => Some t
  | None => r ← meta_router s; from_option id None
              match (ControlDb.get_node_tenant node (TenantMetaRouter.control r)).1 with
              | Ok t => Some t | Err _ => None
              end
  end.

(** The caller holds a session for the node that has not expired. *)
Definition session_of (now : Z) (md : MetadataMap) (s : SyncService.t) (node : string) : Prop :=
  ∃ raw token entry, header md "authorization" = Some raw ∧ SessionToken.from_bearer raw = Some token
    ∧ AuthStore.sessions (store s) !! token = Some entry ∧ AuthStore.session_node entry = node
    ∧ now < AuthStore.expires_at entry.

(** The tenant a call runs for: that of the node when it is bound to one, and a
    header that names another is refused; the header's otherwise. *)
Definition runs_for (md : MetadataMap) (s : SyncService.t) (node : string) (tenant : option string) : Prop :=
  match bound_tenant s node with
  | Some t => tenant = Some t ∧ (extract_tenant md = None ∨ extract_tenant md = Some t)
  | None => tenant = extract_tenant md
  end.

Lemma enforced_runs_for md s node tenant :
  Tenant.enforce_node_tenant (extract_tenant md) (bound_tenant s node) = Ok tenant → runs_for md s node tenant.
Proof.
  unfold Tenant.enforce_node_tenant, runs_for. destruct (bound_tenant s node) as [t|]; [|naive_solver].
  destruct (extract_tenant md); [case_decide|]; naive_solver.
Qed.

(** What [check_acl_by_cert] lets pass: with both an enforcer and a certificate,
    only a certificate with one of the roles on the share; without an enforcer
    (legacy mode) or a certificate (one-way TLS), everyone. *)
Definition role_allows (allowed : list EnforcedRole) (s : SyncService.t) (cert : option CertFingerprint)
    (share : string) : Prop :=
  ∀ e fp, acl_enforcer s = Some e → cert = Some fp → ∃ role, resolve e fp share = Ok role ∧ role ∈ allowed.

Lemma require_auth_inv now md s node s' :
  require_auth now md s = (Ok node, s') → session_of now md s node ∧ s' = s.
Proof.
  unfold require_auth, session_of. destruct (header md _) as [raw|] eqn:Hh; [|done].
  destruct (SessionToken.from_bearer raw) as [token|] eqn:Ht; [|done].
  unfold AuthStore.validate_session. destruct (AuthStore.sessions (store s) !! token) as [en|] eqn:He; [|done].
  case_bool_decide; [done|]. cbn. intros [= <- <-]. split; [|by destruct s].
  exists raw, token, en. split_and!; try done. lia.
Qed.

Lemma resolve_tenant_inv md node s tenant s' :
  resolve_session_tenant md node s = (Ok tenant, s') →
  Tenant.enforce_node_tenant (extract_tenant md) (bound_tenant s node) = Ok tenant ∧ s' = s.
Proof.
  unfold resolve_session_tenant, bound_tenant. intros (nt&s1&Hn&Ht)%st_bind_ok.
  apply st_lift_ok in Ht as [Ht ->].
  assert (Tenant.enforce_node_tenant (extract_tenant md) nt = Ok tenant) as Hok.
  { destruct (Tenant.enforce_node_tenant _ _); cbn in Ht; congruence. }
  destruct (AuthStore.node_tenant (store s) node) as [t|]; [by injection Hn as <- <-|].
  destruct (meta_router s) as [r|]; [|by injection Hn as <- <-].
  unfold SyncService.control in Hn. apply st_lift_ok in Hn as [Hn ->]. cbn in Hn. injection Hn as <-.
  cbn. done.
Qed.

Lemma check_acl_inv now cert share allowed hint s u s' :
  check_acl_by_cert now cert share allowed hint s = (Ok u, s') → role_allows allowed s cert share ∧ s' = s.
Proof.
  unfold check_acl_by_cert, role_allows. destruct (acl_enforcer s) as [e|]; [|by intros [= _ <-]].
  destruct cert as [fp|]; [|by intros [= _ <-]].
  destruct (resolve e fp share) as [role|[]] eqn:Hr; try done. case_bool_decide as Ha; [|done].
  intros [= _ <-]. split; [|done]. intros ?? [= <-] [= <-]. by exists role.
Qed.

Lemma exchange_state_inv clk md cert fault files s resp s' :
  exchange_state clk md cert fault files s = (Ok resp, s') →
  ∃ node tenant,
    session_of (at_auth clk) md s node
    ∧ Tenant.enforce_node_tenant (extract_tenant md) (bound_tenant s node) = Ok tenant
    ∧ role_allows [Bidirectional; SendOnly; ReceiveOnly; Publisher] s cert (extract_share md)
    ∧ exchange clk (extract_share md) node tenant (resolved_role s cert (extract_share md)) fault files s
      = (Ok resp, s').
Proof.
  unfold exchange_state. intros (node&s1&Ha&Hk)%st_bind_ok. apply require_auth_inv in Ha as [Ha ->].
  apply st_bind_ok in Hk as (tenant&s2&Ht&Hk). apply resolve_tenant_inv in Ht as [Ht ->].
  cbv zeta in Hk. apply st_bind_ok in Hk as (u&s3&Hc&Hk). apply check_acl_inv in Hc as [Hc ->].
  by exists node, tenant.
Qed.

Lemma filter_paths_includes items includes m :
  m ∈ filter_proto_paths items includes →
  m ∈ items ∧ SelectiveSync.path_matches_includes (FileMetadata.path m) includes = true.
Proof.
  unfold filter_proto_paths. case_decide as Hi.
  - intros Hm. split; [done|]. by rewrite Hi.
  - rewrite list_elem_of_In, List.filter_In, <-list_elem_of_In. done.
Qed.

Lemma filter_paths_elem items includes m :
  m ∈ items → SelectiveSync.path_matches_includes (FileMetadata.path m) includes = true →
  m ∈ filter_proto_paths items includes.
Proof.
  intros Hm Hp. unfold filter_proto_paths. case_decide; [done|].
  rewrite list_elem_of_In, List.filter_In, <-list_elem_of_In. done.
Qed.

(** An upload order is the matrix's own: what it carries is the client's entry. *)
Lemma upload_action_version sf cf base actions a :
  Tree.reconcile sf cf base = Ok actions → a ∈ actions → SyncAction.action a = Upload →
  SyncAction.server_version a = Reconcile.latest cf (SyncAction.path a).
Proof.
  intros Hr Ha Hu. destruct (Reconcile.reconcile_action _ _ _ _ _ Hr Ha) as [Heq|[(q&Heq&_)|[Heq _]]].
  - rewrite Heq at 1. done.
  - rewrite Heq in Hu. done.
  - rewrite Heq in Hu. done.
Qed.
End entry.

Module SyncServiceTheorems.
Import Proto Acl SyncService Convert.

(** A server with one database, one session and one file that is newer than
    what the node was last given. *)
Definition demo_hash (b : Byte.byte) : bytes := replicate 32 b.
Definition demo_meta (p : string) (b : Byte.byte) (tick : Z) : FileMeta :=
  FileMeta.mk p (demo_hash b) 5 7 None {["w" := tick]} false None "" None None None.
Definition demo_db : MetaDb :=
  let db := (MetaFiles.upsert_file_scoped (codec:=BinaryCodec.codec) 1 None "default"
               (demo_meta "a.txt" Byte.x02 2) empty_db).2 in
  (MetaBaselines.upsert_node_baselines_scoped (codec:=BinaryCodec.codec) 1 None "n" "default"
     [demo_meta "a.txt" Byte.x01 1] db).2.
Definition demo_store : AuthStore.t :=
  AuthStore.mk ∅ {["arc_disk_sess_A" := AuthStore.Build_SessionEntry "n" 100]} None.
Definition demo_table : EnforcementTable :=
  table_insert [] "default" ReceiveOnly (table_new 1).
Definition demo_server : SyncService.t :=
  SyncService.mk demo_store (Some (TenantMetaRouter.single (mkControl [] [] ∅) demo_db)) "server"
    (Some (Loaded demo_table)) None [].
Definition demo_clock : clock := Build_clock 50 0 (λ _, 0) (λ _, 0) 50 (λ _, 50) 50 50.
Definition demo_md : MetadataMap := {["authorization" := "Bearer arc_disk_sess_A"]}.
Definition demo_exchange (cert : option CertFingerprint) (files : list FileMetadata) :=
  exchange_state (codec:=BinaryCodec.codec) demo_clock demo_md cert None files demo_server.

(** C1: A state exchange that answers was made by the holder of a live session.
    It ran for the tenant its node is bound to, and a header naming another
    tenant is refused; only for a node bound to no tenant is it the header's.
    When the server has an access list and the request a certificate, the
    certificate has a role on the share; without either of them no role is
    asked for. The answer is exactly the declarative lists over the
    reconciliation of the rows stored for that tenant and share, the reported
    files and the node's baseline; its uploads, downloads and deletions, though
    not its conflict reports, lie in the folders the device includes. *)
Theorem exchange_answers `{codec : VcCodec} clk md cert fault files s r resp s' :
  exchange_state clk md cert fault files s = (Ok resp, s') → meta_router s = Some r →
  let share := extract_share md in
  let role := resolved_role s cert share in
  ∃ node tenant h sf cf base actions includes,
    session_of (at_auth clk) md s node
    ∧ runs_for md s node tenant
    ∧ match acl_enforcer s, cert with
      | Some e, Some fp => ∃ granted, resolve e fp share = Ok granted
          ∧ granted ∈ [Bidirectional; SendOnly; ReceiveOnly; Publisher]
      | _, _ => True
      end
    ∧ (TenantMetaRouter.tenant_data fault tenant r).1 = Ok h
    ∧ inputs share node tenant files (TenantMetaRouter.read_db h r) sf cf base
    ∧ Tree.reconcile sf cf base = Ok actions
    ∧ (ControlDb.list_node_sync_includes tenant node share (TenantMetaRouter.control r)).1 = Ok includes
    ∧ resp = answer role includes sf cf actions
    ∧ ∀ m, m ∈ to_upload resp ++ to_download resp ++ to_delete resp →
        SelectiveSync.path_matches_includes (FileMetadata.path m) includes = true.
Proof.
  intros He Hr. cbv zeta. destruct (exchange_state_inv _ _ _ _ _ _ _ _ He) as (node&tenant&Hs&Ht&Ha&Hx).
  destruct (exchange_inv _ _ _ _ _ _ _ _ _ _ _ Hr Hx)
    as (h&r1&sf&cf&base&actions&includes&Htd&Hin&Hrec&Hinc&->&_&_).
  exists node, tenant, h, sf, cf, base, actions, includes. split_and!; try done.
  - by apply enforced_runs_for.
  - unfold role_allows in Ha. destruct (acl_enforcer s), cert; naive_solver.
  - by rewrite Htd.
  - intros m. rewrite !elem_of_app.
    intros [Hm|[Hm|Hm]]; by apply filter_paths_includes in Hm as [_ ?].
Qed.

Lemma exchange_answers_witness :
  ∃ node tenant h sf cf base actions includes,
    session_of 50 demo_md demo_server node
    ∧ runs_for demo_md demo_server node tenant
    ∧ (TenantMetaRouter.tenant_data None tenant (TenantMetaRouter.single (mkControl [] [] ∅) demo_db)).1 = Ok h
    ∧ inputs (codec:=BinaryCodec.codec) "default" node tenant []
        (TenantMetaRouter.read_db h (TenantMetaRouter.single (mkControl [] [] ∅) demo_db)) sf cf base
    ∧ Tree.reconcile sf cf base = Ok actions
    ∧ FileMetadata.path <$> to_download (answer None includes sf cf actions) = ["a.txt"].
Proof.
  destruct (exchange_answers (codec:=BinaryCodec.codec) demo_clock demo_md None None [] demo_server
    (TenantMetaRouter.single (mkControl [] [] ∅) demo_db)
    (match (demo_exchange None []).1 with Ok x => x | Err _ => empty_response end)
    (demo_exchange None []).2) as (node&tenant&h&sf&cf&base&actions&includes&H1&H2&_&H3&H4&H5&_&H6&_).
  - vm_compute. reflexivity.
  - reflexivity.
  - exists node, tenant, h, sf, cf, base, actions, includes.
    split; [exact H1|]. split; [exact H2|]. split; [exact H3|]. split; [exact H4|]. split; [exact H5|].
    change (resolved_role demo_server None (extract_share demo_md)) with (@None EnforcedRole) in H6.
    rewrite <-H6. vm_compute. reflexivity.
Defined.

(** C10: A certificate whose role on the share is receive-only is never asked
    to upload and never sees a conflict: the answer has no upload and no
    conflict report, no conflict row is written to any database, and over the
    reconciliation of the rows stored for the share, the reported files and the
    node's baseline, for each path in conflict that the server has, the
    server's own entry is offered for download if the device includes the
    path. *)
Theorem receive_only_server_wins `{codec : VcCodec} clk md cert fault files s r resp s' :
  exchange_state clk md cert fault files s = (Ok resp, s') → meta_router s = Some r →
  resolved_role s cert (extract_share md) = Some ReceiveOnly →
  to_upload resp = []
  ∧ Proto.conflicts resp = []
  ∧ (∀ h, rows MetaDb.conflicts s' h = rows MetaDb.conflicts s h)
  ∧ ∃ node tenant h sf cf base actions includes,
      session_of (at_auth clk) md s node
      ∧ runs_for md s node tenant
      ∧ (TenantMetaRouter.tenant_data fault tenant r).1 = Ok h
      ∧ inputs (extract_share md) node tenant files (TenantMetaRouter.read_db h r) sf cf base
      ∧ Tree.reconcile sf cf base = Ok actions
      ∧ (ControlDb.list_node_sync_includes tenant node (extract_share md) (TenantMetaRouter.control r)).1 = Ok includes
      ∧ ∀ a m, a ∈ actions → SyncAction.action a = ConflictFork → live a = true →
          find_path sf (SyncAction.path a) = Some m →
          SelectiveSync.path_matches_includes (FileMeta.path m) includes = true →
          file_meta_to_proto m ∈ to_download resp.
Proof.
  intros He Hr Hrole. destruct (exchange_state_inv _ _ _ _ _ _ _ _ He) as (node&tenant&Hs&Ht&_&Hx).
  rewrite Hrole in Hx.
  destruct (exchange_inv _ _ _ _ _ _ _ _ _ _ _ Hr Hx)
    as (h&r1&sf&cf&base&actions&includes&Htd&Hin&Hrec&Hinc&->&_&Hconf).
  unfold answer. cbn [to_upload Proto.conflicts to_download]. rewrite decide_True by done. split_and!.
  - unfold filter_proto_paths. by case_decide.
  - clear. induction actions as [|a actions IH]; [done|]. cbn. unfold conflict_of at 1.
    destruct (live a); [|done]. destruct (SyncAction.action a); try done; by rewrite decide_True.
  - intros h'. by apply Hconf.
  - exists node, tenant, h, sf, cf, base, actions, includes. split_and!; try done.
    + by apply enforced_runs_for.
    + by rewrite Htd.
    + intros a m Ha Hfork Hlive Hm Hincl.
      apply filter_paths_elem; [|done]. apply list_elem_of_omap. exists a. split; [done|].
      unfold download_of. by rewrite Hlive, Hfork, decide_True, Hm.
Qed.

(** The node changed the file too, concurrently. *)
Definition demo_edit : FileMetadata :=
  file_meta_to_proto (FileMeta.mk "a.txt" (demo_hash Byte.x03) 5 7 None {["c" := 1]} false None "" None None None).

Lemma receive_only_server_wins_witness :
  let resp := match (demo_exchange (Some []) [demo_edit]).1 with Ok x => x | Err _ => empty_response end in
  to_upload resp = [] ∧ Proto.conflicts resp = []
  ∧ FileMetadata.content_hash <$> to_download resp = [demo_hash Byte.x02].
Proof.
  destruct (receive_only_server_wins (codec:=BinaryCodec.codec) demo_clock demo_md (Some []) None [demo_edit]
    demo_server (TenantMetaRouter.single (mkControl [] [] ∅) demo_db)
    (match (demo_exchange (Some []) [demo_edit]).1 with Ok x => x | Err _ => empty_response end)
    (demo_exchange (Some []) [demo_edit]).2) as (H1&H2&_&_).
  - vm_compute. reflexivity.
  - reflexivity.
  - vm_compute. reflexivity.
  - split_and!; [exact H1|exact H2|vm_compute; reflexivity].
Defined.

(** When the server's copy of a file is newer than the one the client
    reports, the entry offered for download is the client's own report, so
    its hash, size, clock and nonce are the old ones: for every upload order
    of the engine on a path the client reports, the response carries the
    client's entry, not the server's. *)
Theorem download_carries_client_entry `{codec : VcCodec} clk md cert fault files s r resp s' :
  exchange_state clk md cert fault files s = (Ok resp, s') → meta_router s = Some r →
  ∃ node tenant h sf cf base actions includes,
    inputs (extract_share md) node tenant files (TenantMetaRouter.read_db h r) sf cf base
    ∧ Tree.reconcile sf cf base = Ok actions
    ∧ ∀ a m, a ∈ actions → SyncAction.action a = Upload → live a = true →
        Reconcile.latest cf (SyncAction.path a) = Some m →
        SelectiveSync.path_matches_includes (FileMeta.path m) includes = true →
        file_meta_to_proto m ∈ to_download resp.
Proof.
  intros He Hr. destruct (exchange_state_inv _ _ _ _ _ _ _ _ He) as (node&tenant&_&_&_&Hx).
  destruct (exchange_inv _ _ _ _ _ _ _ _ _ _ _ Hr Hx)
    as (h&r1&sf&cf&base&actions&includes&_&Hin&Hrec&_&->&_&_).
  exists node, tenant, h, sf, cf, base, actions, includes. split_and!; [done|done|].
  intros a m Ha Hu Hlive Hm Hinc. unfold answer. cbn [to_download]. apply filter_paths_elem; [|done].
  apply list_elem_of_omap. exists a. split; [done|]. unfold download_of. rewrite Hlive, Hu.
  by rewrite (upload_action_version _ _ _ _ _ Hrec Ha Hu), Hm.
Qed.

Lemma download_carries_client_entry_witness :
  let report := file_meta_to_proto (demo_meta "a.txt" Byte.x01 1) in
  let resp := match (demo_exchange None [report]).1 with Ok x => x | Err _ => empty_response end in
  to_download resp = [report]
  ∧ ∃ node tenant h sf cf base actions includes,
      inputs (codec:=BinaryCodec.codec) "default" node tenant [report]
        (TenantMetaRouter.read_db h (TenantMetaRouter.single (mkControl [] [] ∅) demo_db)) sf cf base
      ∧ Tree.reconcile sf cf base = Ok actions
      ∧ ∀ a m, a ∈ actions → SyncAction.action a = Upload → live a = true →
          Reconcile.latest cf (SyncAction.path a) = Some m →
          SelectiveSync.path_matches_includes (FileMeta.path m) includes = true →
          file_meta_to_proto m ∈ to_download resp.
Proof.
  intros report resp. split; [vm_compute; reflexivity|].
  apply (download_carries_client_entry (codec:=BinaryCodec.codec) demo_clock demo_md None None [report]
    demo_server (TenantMetaRouter.single (mkControl [] [] ∅) demo_db) resp (demo_exchange None [report]).2).
  - vm_compute. reflexivity.
  - reflexivity.
Defined.

(** What the protocol can carry: a full hash, and no option that holds zero
    or the empty string, which stand for none on the wire. *)
Definition wire_ok (m : FileMeta) : Prop :=
  hash32 (FileMeta.content_hash m) ∧ FileMeta.inode m ≠ Some 0 ∧ FileMeta.deleted_at m ≠ Some 0
  ∧ FileMeta.encryption_nonce m ≠ Some [] ∧ FileMeta.version_id m ≠ Some 0
  ∧ FileMeta.parent_version_id m ≠ Some 0.

Lemma zero_none_default o : zero_none (default 0 o) = o ↔ o ≠ Some 0.
Proof. destruct o as [z|]; cbn; unfold zero_none; [case_decide|]; naive_solver. Qed.

(** Metadata survives the trip over the protocol exactly when it has a
    full hash and no zero or empty optional field; a deletion stamped with the
    epoch, for one, comes back with no deletion time. *)
Theorem file_meta_proto_roundtrip m :
  proto_to_file_meta (file_meta_to_proto m) = m ↔ wire_ok m.
Proof.
  assert ((if decide (default [] (FileMeta.encryption_nonce m) = []) then None
           else Some (default [] (FileMeta.encryption_nonce m))) = FileMeta.encryption_nonce m
          ↔ FileMeta.encryption_nonce m ≠ Some []) as Hn.
  { destruct (FileMeta.encryption_nonce m) as [n|]; cbn; [case_decide|]; naive_solver. }
  assert ((if decide (hash32 (FileMeta.content_hash m)) then FileMeta.content_hash m else zero_hash)
          = FileMeta.content_hash m ↔ hash32 (FileMeta.content_hash m)) as Hh.
  { destruct (decide (hash32 (FileMeta.content_hash m))) as [Hd|Hd]; [tauto|].
    split; [|tauto]. intros <-. reflexivity. }
  unfold wire_ok. rewrite <-!zero_none_default, <-Hn, <-Hh. unfold proto_to_file_meta, file_meta_to_proto. cbn.
  destruct m; cbn in *. split; [by intros [= ??????]|]. intros (->&->&->&->&->&->). done.
Qed.
End SyncServiceTheorems.
