(* ===== verification/Enforcer.v ===== *)
(** * Quota gates and request guards ([disk-server/src/billing/mode.rs],
      [billing/enforcer.rs], [middleware/bomb_guard.rs])

    The enforcer's router is a handle on the databases the sync service writes,
    so its checks read the same state. The zstd decoder is a parameter: what it
    yields read by read. *)

From stdpp Require Import prelude gmap strings.
From Stdlib Require Import ZArith Lia Strings.Byte Strings.Ascii.
From S2P Require Import Prelude Text VectorClock Types Sql MetaDb Billing MetaFiles MetaSync.
From S2P Require Import Tenancy SyncService.

#[local] Open Scope Z_scope.

Module BillingMode.
Inductive t := Disabled | Enforce | Stripe.

Definition parse (raw : string) : result t (string * string) :=
  let s := to_ascii_lowercase raw in
  if decide (s = "disabled" ∨ s = "") then Ok Disabled
  else if decide (s = "enforce" ∨ s = "local") then Ok Enforce
  else if decide (s = "stripe") then Ok Stripe
  else Err ("DISK_BILLING_MODE",
            "unknown value '" +:+ s +:+ "'; expected disabled, enforce, or stripe").

Definition is_active (m : t) : bool := match m with Enforce | Stripe => true | Disabled => false end.

(** [raw] is the environment variable. *)
Definition default_plan_tier_from_env (raw : option string) : result PlanTier (string * string) :=
  map_err (λ e, match e with PlanTier.Unknown s => ("DISK_BILLING_DEFAULT_TIER", "unknown plan tier: " +:+ s) end)
    (PlanTier.parse (default "free" raw)).
End BillingMode.

Module QuotaEnforcer.
Import Proto TenantMetaRouter.

Record t := mk { mode : BillingMode.t; default_tier : PlanTier; test_limits : option QuotaLimits }.

Definition new (mode : BillingMode.t) (env : option string) : result t (string * string) :=
  tier <?- BillingMode.default_plan_tier_from_env env ;; Ok (mk mode tier None).

Definition with_test_limits (l : QuotaLimits) (self : t) : t := mk (mode self) (default_tier self) (Some l).

Definition limits_for_tier (self : t) (tier : PlanTier) : QuotaLimits :=
  default (PlanTier.limits tier) (test_limits self).

Abbreviation rt := (stm TenantMetaRouter.t Status).

(** A call on the control database, and one on the tenant's. *)
Definition control_db {A} (what : string) (m : dbm A) : rt A := λ r,
  let '(x, r) := with_db Control m r in (map_err (InternalDb what) x, r).
Definition tenant_call {A} (what : string) (open_fault : option MetaDbError) (tenant : option string)
    (m : dbm A) : rt A := λ r,
  let '(h, r) := tenant_data open_fault tenant r in
  match h with
  | Err e => (Err (InternalDb what e), r)
  | Ok h => let '(x, r) := with_db h m r in (map_err (InternalDb what) x, r)
  end.

Definition tier_and_limits (self : t) (tenant : option string) : rt QuotaLimits :=
  tier <~ control_db "billing lookup" (MetaBilling.get_plan_tier tenant (default_tier self)) ;;
  st_ret (limits_for_tier self tier).

Definition tenant_from_metadata (header : option string) : option string := ControlDb.non_empty header.

Definition quota {A} (what : string) (r : result A Quota.QuotaError) : rt A :=
  st_lift (map_err (QuotaExceeded what) r).

Definition check_register_node (self : t) (tenant_header : option string) (active_nodes : Z) : rt unit :=
  if BillingMode.is_active (mode self) then
    limits <~ tier_and_limits self (tenant_from_metadata tenant_header) ;;
    quota "node quota" (Quota.check_node_capacity active_nodes limits)
  else st_ret tt.

Section upload.
Context {codec : VcCodec}.

(** The two routed lookups open the tenant's database separately. *)
Definition check_upload (self : t) (open1 open2 : option MetaDbError) (tenant_header : option string)
    (share path : string) (new_size : Z) : rt unit :=
  if BillingMode.is_active (mode self) then
    let tenant := tenant_from_metadata tenant_header in
    limits <~ tier_and_limits self tenant ;;
    known_vaults <~ control_db "vault count" (MetaBilling.count_tenant_vaults tenant) ;;
    vault_known <~ control_db "vault lookup" (MetaBilling.tenant_vault_exists tenant share) ;;
    _ <~ quota "vault quota" (Quota.check_vault_capacity known_vaults vault_known limits) ;;
    used <~ tenant_call "storage sum" open1 tenant (MetaBilling.sum_storage_bytes tenant) ;;
    old <~ tenant_call "file lookup" open2 tenant (MetaFiles.get_file_scoped tenant share path) ;;
    let old_size := default 0 (FileMeta.size <$> old) in
    let delta := as_i64 (as_i64 new_size - as_i64 old_size) in
    quota "storage quota" (Quota.check_storage_delta used delta limits)
  else st_ret tt.
End upload.

Definition record_vault_usage (self : t) (now : Z) (tenant_header : option string) (share : string) : rt unit :=
  if BillingMode.is_active (mode self) then
    control_db "vault register" (MetaBilling.register_tenant_vault now (tenant_from_metadata tenant_header) share)
  else st_ret tt.
End QuotaEnforcer.

(** ** The decompression guard *)
Module BombGuard.
Definition MAX_COMPRESSED_BYTES : Z := 4 * 1024 * 1024.
Definition MAX_DECOMPRESSED_BYTES : Z := 16 * 1024 * 1024.
Definition MAX_STREAM_DECOMPRESSED : Z := 256 * 1024 * 1024.

Inductive BombError := CompressedCapExceeded | DecompressedCapExceeded | StreamCapExceeded.

(** One [read] of the decoder into a 16 KiB buffer. *)
Inductive read_result := Data (b : bytes) | UnexpectedEof | OtherError.

(** [new] is the decoder made from the input, or a refusal of its header; it
    answers the n-th read. *)
Section guard.
Context (decoder : bytes → option (nat → read_result)).

Definition blen (b : bytes) : Z := Z.of_nat (length b).

(** The read loop from read [i] on. [None]: the loop has not ended within the
    fuel. *)
Fixpoint read_loop (fuel i : nat) (next : nat → read_result) (out : bytes)
    : option (result bytes BombError) :=
  match fuel with
  | O => None
  | S fuel =>
      match next i with
      | Data [] => Some (Ok out)
      | Data b =>
          if bool_decide (MAX_DECOMPRESSED_BYTES + 1 < blen out + blen b)
          then Some (Err DecompressedCapExceeded)
          else read_loop fuel (S i) next (out ++ b)
      | UnexpectedEof => Some (Ok out)
      | OtherError => Some (Err DecompressedCapExceeded)
      end
  end.

(** Every turn but the last adds a byte to at most [cap] bytes. *)
Definition read_fuel : nat := Z.to_nat (MAX_DECOMPRESSED_BYTES + 3).

Definition decompress_guarded (fuel : nat) (compressed : bytes) (so_far : Z)
    : option (result bytes BombError * Z) :=
  if bool_decide (MAX_COMPRESSED_BYTES < blen compressed) then Some (Err CompressedCapExceeded, so_far)
  else match decoder compressed with
  | None => Some (Err DecompressedCapExceeded, so_far)
  | Some next =>
      r ← read_loop fuel 0 next [];
      Some match r with
      | Err e => (Err e, so_far)
      | Ok out =>
          if bool_decide (MAX_DECOMPRESSED_BYTES < blen out) then (Err DecompressedCapExceeded, so_far)
          else
            let new_total := so_far + blen out in
            if bool_decide (MAX_STREAM_DECOMPRESSED < new_total) then (Err StreamCapExceeded, so_far)
            else (Ok out, new_total)
      end
  end.
End guard.
End BombGuard.

(** ** Lemmas *)
Section bomb.
Import BombGuard.
Context (decoder : bytes → option (nat → read_result)).

(** The bytes of the first [n] reads. *)
Definition reads (next : nat → read_result) (n : nat) : bytes :=
  mjoin ((λ i, match next i with Data b => b | _ => [] end) <$> seq 0 n).

Lemma reads_S next n :
  reads next (S n) = reads next n ++ match next n with Data b => b | _ => [] end.
Proof.
  unfold reads. rewrite seq_S, fmap_app, join_app. simpl. by rewrite app_nil_r.
Qed.

(** The loop ends whatever the decoder does, and its output is what was read. *)
Lemma read_loop_spec fuel i next out :
  blen out ≤ MAX_DECOMPRESSED_BYTES + 1 → out = reads next i →
  MAX_DECOMPRESSED_BYTES + 1 - blen out < Z.of_nat fuel →
  ∃ r, read_loop fuel i next out = Some r
    ∧ ∀ o, r = Ok o → blen o ≤ MAX_DECOMPRESSED_BYTES + 1
        ∧ ∃ n, o = reads next n ∧ (next n = Data [] ∨ next n = UnexpectedEof).
Proof.
  revert i out. induction fuel as [|fuel IH]; intros i out Hle Hout Hf; [lia|]. cbn [read_loop].
  destruct (next i) as [[|x b]| |] eqn:Hn.
  - eexists. split; [done|]. intros o [= <-]. split; [done|]. exists i. auto.
  - case_bool_decide as Hc; [by eexists|]. apply IH.
    + unfold blen in *. rewrite length_app. lia.
    + by rewrite reads_S, Hn, Hout.
    + unfold blen in *. rewrite length_app in *. simpl length in *. lia.
  - eexists. split; [done|]. intros o [= <-]. split; [done|]. exists i. auto.
  - by eexists.
Qed.

(** Decompressing the messages of a stream one after another. *)
Fixpoint stream (msgs : list bytes) (so_far : Z) : list (result bytes BombError) * Z :=
  match msgs with
  | [] => ([], so_far)
  | m :: msgs =>
      match decompress_guarded decoder read_fuel m so_far with
      | None => ([], so_far)
      | Some (r, so_far) => let '(l, t) := stream msgs so_far in (r :: l, t)
      end
  end.

Definition delivered (l : list (result bytes BombError)) : Z :=
  foldr (λ r a, match r with Ok b => blen b + a | Err _ => a end) 0 l.

Lemma guarded_spec m so_far :
  0 ≤ so_far ≤ MAX_STREAM_DECOMPRESSED →
  ∃ r t, decompress_guarded decoder read_fuel m so_far = Some (r, t)
    ∧ 0 ≤ t ≤ MAX_STREAM_DECOMPRESSED
    ∧ match r with
      | Ok b => t = so_far + blen b ∧ blen b ≤ MAX_DECOMPRESSED_BYTES ∧ blen m ≤ MAX_COMPRESSED_BYTES
                ∧ ∃ next n, decoder m = Some next ∧ b = reads next n
                    ∧ (next n = Data [] ∨ next n = UnexpectedEof)
      | Err _ => t = so_far
      end.
Proof.
  intros Hs. unfold decompress_guarded. case_bool_decide as Hm; [by eexists _, _|].
  destruct (decoder m) as [next|] eqn:Hd; [|by eexists _, _].
  destruct (read_loop_spec read_fuel 0 next []) as (r&->&Hr).
  { unfold blen, MAX_DECOMPRESSED_BYTES. simpl. lia. }
  { done. }
  { unfold read_fuel, blen, MAX_DECOMPRESSED_BYTES. rewrite Z2Nat.id by lia. simpl. lia. }
  simpl. destruct r as [o|e]; [|by eexists _, _]. destruct (Hr o eq_refl) as (_&n&Ho&Hn).
  case_bool_decide as H1; [by eexists _, _|]. case_bool_decide as H2; [by eexists _, _|].
  eexists _, _. split; [done|]. pose proof (Zle_0_nat (length o)).
  split; [unfold blen in *; lia|]. split_and!; [done|lia|lia|]. exists next, n. auto.
Qed.
End bomb.

Section quota.
Import QuotaEnforcer TenantMetaRouter Proto.

(** A read-only call on a handle's database. *)
Lemma write_read_db h r : write_db h (read_db h r) r = r ∨ ∃ f, h = Shard f ∧ disk r !! f = None.
Proof.
  destruct h as [|f]; [left; by destruct r|]. destruct (disk r !! f) as [db|] eqn:Hd; [left|right; eauto].
  destruct r. simpl in *. rewrite Hd. simpl. by rewrite insert_id.
Qed.

Lemma control_read {A} what (f : MetaDb → A) r :
  control_db what (query f) r = (Ok (f (data r)), r).
Proof. unfold control_db, with_db, query. cbn. by destruct r. Qed.

(** Opening a tenant's database twice gives the same handle and state. *)
Lemma tenant_data_again f1 f2 tenant r h r1 :
  tenant_data f1 tenant r = (Ok h, r1) → tenant_data f2 tenant r1 = (Ok h, r1).
Proof.
  unfold tenant_data. destruct (tenant_root r) as [root|] eqn:Hr; [|intros [= <- <-]; by rewrite Hr].
  destruct (tenant_shard_key tenant) as [key|e] eqn:Hk; [|done].
  destruct (shards r !! key) as [file|] eqn:Hs.
  - intros [= <- <-]. by rewrite Hr, Hs.
  - destruct f1; [done|]. intros [= <- <-]. cbn. by rewrite lookup_insert_eq.
Qed.

Lemma tenant_call_eq {A} what f tenant (m : dbm A) r h r1 :
  tenant_data f tenant r = (Ok h, r1) →
  tenant_call what f tenant m r
  = (map_err (InternalDb what) (m (read_db h r1)).1, write_db h (m (read_db h r1)).2 r1).
Proof. unfold tenant_call, with_db. intros ->. by destruct (m (read_db h r1)). Qed.

(** A write through a handle is read back, and changes no routing. *)
Lemma read_write_db h db r : read_db h (write_db h db r) = db.
Proof. destruct h; cbn; [done|]. by rewrite lookup_insert_eq. Qed.

Lemma tenant_data_write f tenant h db r h' r' :
  tenant_data f tenant r = (Ok h', r') → r' = r →
  tenant_data f tenant (write_db h db r) = (Ok h', write_db h db r).
Proof.
  intros H ->. revert H. unfold tenant_data.
  destruct h; cbn; destruct (tenant_root r); intros H; repeat case_match; simplify_eq/=; try done;
    match goal with H : mk _ _ _ (<[?k := _]> _) _ = ?r, H1 : shards ?r !! ?k = None |- _ =>
      rewrite <-H in H1; cbn in H1; by rewrite lookup_insert_eq in H1 end.
Qed.
End quota.

Module EnforcerProps.
Import BombGuard.

(** C29: The decompression guard ends on every decoder, one that never stops
    included, after at most one read per byte of the cap and one more. An accepted
    message is exactly what the decoder produced up to its end, came from at
    most 4 MiB and has at most 16 MiB; a refusal leaves the stream's count
    alone; and over a whole stream no more than 256 MiB are delivered. *)
Theorem bomb_guard_total decoder msgs :
  length (stream decoder msgs 0).1 = length msgs
  ∧ delivered (stream decoder msgs 0).1 = (stream decoder msgs 0).2
  ∧ (stream decoder msgs 0).2 ≤ MAX_STREAM_DECOMPRESSED
  ∧ Forall2 (λ m r, ∀ b, r = Ok b →
      blen m ≤ MAX_COMPRESSED_BYTES ∧ blen b ≤ MAX_DECOMPRESSED_BYTES
      ∧ ∃ next n, decoder m = Some next ∧ b = reads next n ∧ (next n = Data [] ∨ next n = UnexpectedEof))
    msgs (stream decoder msgs 0).1.
Proof.
  assert (∀ s, 0 ≤ s ≤ MAX_STREAM_DECOMPRESSED →
    length (stream decoder msgs s).1 = length msgs
    ∧ s + delivered (stream decoder msgs s).1 = (stream decoder msgs s).2
    ∧ (stream decoder msgs s).2 ≤ MAX_STREAM_DECOMPRESSED
    ∧ Forall2 (λ m r, ∀ b, r = Ok b →
        blen m ≤ MAX_COMPRESSED_BYTES ∧ blen b ≤ MAX_DECOMPRESSED_BYTES
        ∧ ∃ next n, decoder m = Some next ∧ b = reads next n ∧ (next n = Data [] ∨ next n = UnexpectedEof))
      msgs (stream decoder msgs s).1) as Hgen.
  { induction msgs as [|m msgs IH]; intros s Hs; cbn [stream].
    { cbn. split_and!; [done|lia|lia|constructor]. }
    destruct (guarded_spec decoder m s Hs) as (r&t&->&Ht&Hr).
    destruct (IH t Ht) as (H1&H2&H3&H4). destruct (stream decoder msgs t) as [l t'].
    cbn [fst snd delivered foldr length] in *. split_and!; [lia| |done|].
    - fold (delivered l) in *. destruct r as [b|e]; [destruct Hr as [-> _]|subst t]; lia.
    - constructor; [|done]. intros b ->. destruct Hr as (_&?&?&?). auto. }
  destruct (Hgen 0) as (H1&H2&H3&H4); [unfold MAX_STREAM_DECOMPRESSED; lia|]. auto.
Qed.

Import QuotaEnforcer TenantMetaRouter.

(** The decision, from what the lookups answer. *)
Lemma check_upload_decides {codec : VcCodec} self r tenant share path new_size h r1 tier used old :
  let t := tenant_from_metadata tenant in
  let limits := limits_for_tier self tier in
  let old_size := default 0 (FileMeta.size <$> old) in
  BillingMode.is_active (mode self) = true →
  tenant_data None t r = (Ok h, r1) →
  (MetaBilling.get_plan_tier t (default_tier self) (data r)).1 = Ok tier →
  (MetaBilling.sum_storage_bytes t (read_db h r1)).1 = Ok used →
  (MetaFiles.get_file_scoped t share path (read_db h r1)).1 = Ok old →
  0 ≤ new_size ≤ i64_max → 0 ≤ old_size ≤ i64_max →
  0 ≤ QuotaLimits.max_storage_bytes limits < u64_max →
  (check_upload self None None tenant share path new_size r).1 = Ok tt
  ↔ (MetaBilling.tenant_vault_exists t share (data r) = (Ok true, data r)
     ∨ ∃ n, MetaBilling.count_tenant_vaults t (data r) = (Ok n, data r) ∧ n < QuotaLimits.max_vaults limits)
    ∧ used + new_size - old_size ≤ QuotaLimits.max_storage_bytes limits.
Proof.
  intros t limits old_size Hact Hopen Htier Hused Hold Hn Ho Hl.
  assert (in_u64 used) as Hu.
  { unfold MetaBilling.sum_storage_bytes in Hused. case_bool_decide; simplify_eq/=. apply as_u64_range. }
  assert (check_upload self None None tenant share path new_size r
    = (_ <~ quota "vault quota" (Quota.check_vault_capacity
              (default 0 (match (MetaBilling.count_tenant_vaults t (data r)).1 with Ok n => Some n | _ => None end))
              (match (MetaBilling.tenant_vault_exists t share (data r)).1 with Ok b => b | _ => false end) limits) ;;
       used <~ tenant_call "storage sum" None t (MetaBilling.sum_storage_bytes t) ;;
       old <~ tenant_call "file lookup" None t (MetaFiles.get_file_scoped t share path) ;;
       quota "storage quota" (Quota.check_storage_delta used
         (as_i64 (as_i64 new_size - as_i64 (default 0 (FileMeta.size <$> old)))) limits)) r) as ->.
  { unfold check_upload. rewrite Hact. fold t. unfold tier_and_limits.
    assert (control_db "billing lookup" (MetaBilling.get_plan_tier t (default_tier self)) r = (Ok tier, r)) as Ht.
    { unfold control_db, with_db. cbn [read_db]. revert Htier.
      unfold MetaBilling.get_plan_tier, st_bind, st_lift, query. cbn. intros ->. cbn. by destruct r. }
    unfold st_bind at 1 2. rewrite Ht. unfold st_ret at 1.
    unfold MetaBilling.count_tenant_vaults, MetaBilling.tenant_vault_exists.
    unfold st_bind at 1. rewrite control_read. unfold st_bind at 1. rewrite control_read. done. }
  set (known := match (MetaBilling.tenant_vault_exists t share (data r)).1 with Ok b => b | _ => false end).
  set (count := default 0 _).
  assert ((MetaBilling.tenant_vault_exists t share (data r) = (Ok true, data r) ∨
     (∃ n, MetaBilling.count_tenant_vaults t (data r) = (Ok n, data r) ∧ n < QuotaLimits.max_vaults limits))
     ↔ Quota.check_vault_capacity count known limits = Ok tt) as ->.
  { subst known count. unfold MetaBilling.tenant_vault_exists, MetaBilling.count_tenant_vaults, query.
    cbn [fst default]. unfold Quota.check_vault_capacity.
    destruct (bool_decide (0 < affected _ _)%nat); [naive_solver|].
    case_bool_decide; split; naive_solver lia. }
  unfold quota, st_bind, st_lift.
  destruct (Quota.check_vault_capacity count known limits) as [[]|e]; cbn [map_err]; [|naive_solver].
  rewrite (tenant_call_eq _ _ _ _ _ _ _ Hopen), Hused. cbn [map_err].
  assert ((MetaBilling.sum_storage_bytes t (read_db h r1)).2 = read_db h r1) as ->.
  { unfold MetaBilling.sum_storage_bytes. by case_bool_decide. }
  assert (tenant_data None t (write_db h (read_db h r1) r1) = (Ok h, write_db h (read_db h r1) r1)) as Hopen2.
  { eapply tenant_data_write; [|done]. by eapply tenant_data_again. }
  rewrite (tenant_call_eq _ _ _ _ _ _ _ Hopen2), read_write_db, Hold. cbn [map_err fst].
  fold old_size. rewrite (as_i64_id new_size), (as_i64_id old_size), (as_i64_id (new_size - old_size))
    by (unfold_ints; lia).
  pose proof (Quota.check_storage_delta_exact used (new_size - old_size) limits Hu
                ltac:(unfold_ints; lia) Hl) as Hex.
  destruct (Quota.check_storage_delta _ _ _) as [[]|e]; cbn; split; intros; naive_solver lia.
Qed.

(** ** In terms of the tenant's files

    The bytes of its live files, and those of a file in the trash at a path. *)
Definition live_bytes (t : option string) (rows : list FileRow.t) : Z :=
  foldr (λ r a, FileRow.size r + a) 0
    (select (λ r, bool_decide (FileRow.tenant_id r = t) && bool_decide (FileRow.deleted r = 0)) rows).

Definition trashed_bytes (k : fkey) (rows : list FileRow.t) : Z :=
  match List.find (λ r, bool_decide (file_key r = k)) rows with
  | Some r => if decide (FileRow.deleted r = 0) then 0 else FileRow.size r
  | None => 0
  end.

Definition others (k : fkey) (rows : list FileRow.t) : list FileRow.t :=
  select (λ r, bool_decide (file_key r ≠ k)) rows.

Lemma live_bytes_nonneg t rows : Forall (λ r, 0 ≤ FileRow.size r) rows → 0 ≤ live_bytes t rows.
Proof.
  unfold live_bytes, select. induction 1 as [|r rows Hr _ IH]; simpl; [done|].
  destruct (_ && _); simpl; lia.
Qed.

Lemma find_others k rows : (∀ r, r ∈ rows → file_key r ≠ k) →
  others k rows = rows ∧ List.find (λ r, bool_decide (file_key r = k)) rows = None.
Proof.
  unfold others, select. induction rows as [|r rows IH]; intros Hk; simpl; [done|].
  rewrite bool_decide_eq_true_2 by (apply Hk; constructor).
  rewrite (bool_decide_eq_false_2 (file_key r = k)) by (apply Hk; constructor).
  destruct IH as [-> ->]; [|done]. intros x Hx. apply Hk. by constructor.
Qed.

(** The file at a path and the others make up the whole. *)
Lemma live_bytes_split t v p rows :
  NoDup (file_key <$> rows) →
  let old := default 0 (FileRow.size <$> List.find (λ r, bool_decide (file_key r = (t, v, p))) rows) in
  live_bytes t rows - old = live_bytes t (others (t, v, p) rows) - trashed_bytes (t, v, p) rows.
Proof.
  set (k := (t, v, p)). induction rows as [|r rows IH]; [done|]. rewrite fmap_cons, NoDup_cons. intros [Hr Hnd].
  cbv zeta in *. specialize (IH Hnd). unfold trashed_bytes in *. cbn [List.find].
  unfold others, live_bytes, select in *. cbn [List.filter]. destruct (decide (file_key r = k)) as [Hk|Hk].
  - destruct (find_others k rows) as [Ho _].
    { intros x Hx Hxk. apply Hr. rewrite Hk, <-Hxk. by apply list_elem_of_fmap_2. }
    rewrite (bool_decide_eq_true_2 (file_key r = k)), (bool_decide_eq_false_2 (file_key r ≠ k)) by naive_solver.
    unfold others, select in Ho. rewrite Ho. cbn.
    assert (FileRow.tenant_id r = t) as Ht by (by injection Hk).
    rewrite (bool_decide_eq_true_2 (FileRow.tenant_id r = t)) by done. cbn.
    case_decide as Hd; [rewrite bool_decide_eq_true_2 by done|rewrite bool_decide_eq_false_2 by done]; cbn; lia.
  - rewrite (bool_decide_eq_false_2 (file_key r = k)), (bool_decide_eq_true_2 (file_key r ≠ k)) by done. cbn.
    destruct (bool_decide (FileRow.tenant_id r = t) && _); cbn; lia.
Qed.

Lemma sum_live t db : live_bytes t (files db) ≤ i64_max → 0 ≤ live_bytes t (files db) →
  (MetaBilling.sum_storage_bytes t db).1 = Ok (live_bytes t (files db)).
Proof.
  intros H1 H2. unfold MetaBilling.sum_storage_bytes. fold (live_bytes t (files db)).
  change (foldr (λ r a, FileRow.size r + a) 0 (select (λ r, is_eqb (FileRow.tenant_id r) t
            && bool_decide (FileRow.deleted r = 0)) (files db))) with (live_bytes t (files db)).
  rewrite bool_decide_eq_true_2 by (unfold_ints; lia). cbn. f_equal. rewrite Z.max_l by done.
  apply as_u64_id. unfold_ints. lia.
Qed.

Lemma fetched_size {codec : VcCodec} t v p db :
  Forall (λ r, hash32 (FileRow.content_hash r) ∧ 0 ≤ FileRow.size r ≤ i64_max) (files db) →
  ∃ old, (MetaFiles.get_file_scoped t v p db).1 = Ok old
    ∧ default 0 (FileMeta.size <$> old)
      = default 0 (FileRow.size <$> List.find (λ r, bool_decide (file_key r = (t, v, p))) (files db)).
Proof.
  intros Hrows. unfold MetaFiles.get_file_scoped, st_bind, query, st_lift, MetaFiles.fetch_file.
  assert (head (select (MetaFiles.is_file t v p) (files db))
          = List.find (λ r, bool_decide (file_key r = (t, v, p))) (files db)) as ->.
  { unfold select. induction (files db) as [|r l IH]; simpl; [done|]. inversion Hrows; subst.
    rewrite is_file_key. unfold at_key. destruct (bool_decide _); [done|]. by apply IH. }
  destruct (List.find _ (files db)) as [r|] eqn:Hf; [|by exists None].
  apply List.find_some in Hf as [Hin _]. apply list_elem_of_In in Hin.
  destruct (proj1 (Forall_forall _ _) Hrows r Hin) as [Hh Hs].
  unfold MetaFiles.row_to_meta. simpl. rewrite hash_of_blob_ok by done. eexists. split; [done|]. simpl.
  rewrite as_u64_id; [done|]. unfold_ints. lia.
Qed.

(** C30: When quotas are enforced and the databases answer, over an index with
    one row per path, digests of 32 bytes and sizes that add up within 64 bits:
    an upload is admitted exactly when its vault is known or the plan has room
    for another, and the tenant's other live files, plus the new one, stay
    within the plan's storage, where a file in the trash at the path counts as
    space gained by its size. So when nothing is in the trash there, the live
    files fit the plan after an admitted upload; otherwise they may exceed it,
    by at most the size of the trashed file. *)
Theorem check_upload_exact {codec : VcCodec} self r tenant share path new_size h r1 tier :
  let t := tenant_from_metadata tenant in
  let limits := limits_for_tier self tier in
  let rows := files (read_db h r1) in
  let k := (t, share, path) in
  BillingMode.is_active (mode self) = true →
  tenant_data None t r = (Ok h, r1) →
  (MetaBilling.get_plan_tier t (default_tier self) (data r)).1 = Ok tier →
  files_keyed (read_db h r1) →
  Forall (λ x, hash32 (FileRow.content_hash x) ∧ 0 ≤ FileRow.size x ≤ i64_max) rows →
  live_bytes t rows ≤ i64_max → 0 ≤ new_size ≤ i64_max →
  0 ≤ QuotaLimits.max_storage_bytes limits < u64_max →
  (check_upload self None None tenant share path new_size r).1 = Ok tt
  ↔ (MetaBilling.tenant_vault_exists t share (data r) = (Ok true, data r)
     ∨ ∃ n, MetaBilling.count_tenant_vaults t (data r) = (Ok n, data r) ∧ n < QuotaLimits.max_vaults limits)
    ∧ live_bytes t (others k rows) + new_size - trashed_bytes k rows ≤ QuotaLimits.max_storage_bytes limits.
Proof.
  intros t limits rows k Hact Hopen Htier Hk Hrows Hmax Hn Hl.
  destruct (fetched_size t share path (read_db h r1) Hrows) as (old&Hold&Hsz).
  assert (0 ≤ live_bytes t rows) as H0.
  { apply live_bytes_nonneg. eapply Forall_impl; [exact Hrows|]. cbn. lia. }
  assert (0 ≤ default 0 (FileMeta.size <$> old) ≤ i64_max) as Hos.
  { rewrite Hsz. destruct (List.find _ _) as [x|] eqn:Hf; [|unfold_ints; cbn; lia].
    apply List.find_some in Hf as [Hin _]. apply list_elem_of_In in Hin.
    exact (proj2 (proj1 (Forall_forall _ _) Hrows x Hin)). }
  rewrite (check_upload_decides self r tenant share path new_size h r1 tier (live_bytes t rows) old); try done;
    [|by apply sum_live].
  pose proof (live_bytes_split t share path rows Hk) as Hsplit. cbv zeta in Hsplit. unfold rows in Hsplit at 2.
  rewrite <-Hsz in Hsplit. subst k. fold limits t. split; intros [? Hle]; (split; [done|lia]).
Qed.

Definition demo_router : TenantMetaRouter.t := split (mkControl [] [] ∅) empty_db "/data".
Definition demo_enforcer : QuotaEnforcer.t := QuotaEnforcer.mk BillingMode.Enforce PlanTier.Free None.

Lemma check_upload_exact_witness :
  (check_upload (codec := BinaryCodec.codec) demo_enforcer None None (Some "acme") "docs" "a.md" 100 demo_router).1
  = Ok tt.
Proof.
  destruct (tenant_data None (Some "acme") demo_router) as [[h|e] r1] eqn:E; [|by vm_compute in E].
  eapply (check_upload_exact (codec := BinaryCodec.codec) demo_enforcer demo_router (Some "acme") "docs" "a.md" 100
    h r1 PlanTier.Free).
  - reflexivity.
  - exact E.
  - reflexivity.
  - injection E as <- <-. apply NoDup_nil_2.
  - injection E as <- <-. constructor.
  - injection E as <- <-. vm_compute. discriminate.
  - vm_compute. split; discriminate.
  - vm_compute. split; [discriminate|reflexivity].
  - injection E as <- <-. split; [right; eexists; split; [reflexivity|vm_compute; reflexivity]|vm_compute; discriminate].
Defined.

(** A plan of ten bytes, full, with a ten-byte file in the trash: uploading ten
    bytes to the trashed path is admitted, and the live files then take
    twenty. *)
Example trashed_file_overruns_plan :
  let row p del := FileRow.mk None "docs" p (replicate 32 Byte.x01) 10 1 None (vc_to_json (VcCodec:=BinaryCodec.codec) VC.new)
                     del None None None None 1 1 in
  let db := set_files (λ _, [row "a.md" 1; row "b.md" 0]) empty_db in
  let r := single (mkControl [] [] ∅) db in
  let e := QuotaEnforcer.mk BillingMode.Enforce PlanTier.Free
             (Some {| QuotaLimits.max_storage_bytes := 10; QuotaLimits.max_nodes := 1; QuotaLimits.max_vaults := 1 |}) in
  (check_upload (codec := BinaryCodec.codec) e None None None "docs" "a.md" 10 r).1 = Ok tt
  ∧ live_bytes None (others (None, "docs", "a.md") (files db)) + 10 = 20.
Proof. vm_compute. split; reflexivity. Qed.
End EnforcerProps.
