(* ===== verification/SyncUpload.v ===== *)
(** * Streaming calls of the sync service ([disk-server/src/services/sync.rs])

    [delta_upload] with its upload spool, [delta_download] and [sync_state],
    on a host state of the service's own fields, the file system, the
    publisher tables and the replay guard.

    The hasher is its input so far. [canonicalize] reads the file system and is
    a parameter. A message stream is the list of what [next] yields; a client
    that hangs up while the answer is sent only ends the sending. The quota
    enforcer's router is the service's, as [main.rs] sets them up. *)

From stdpp Require Import prelude gmap strings pretty.
From Stdlib Require Import ZArith Lia Strings.Byte Strings.Ascii.
From S2P Require Import Prelude Text PathFacts VectorClock Types Delta Fs BlobStore Publisher Guard.
From S2P Require Import Sql MetaDb Billing MetaFiles MetaSync Auth Acl Tenancy SyncService Enforcer.

#[local] Open Scope Z_scope.

(** ** Messages *)
Module Stream.
Record DeltaChunk := { offset : Z; weak_checksum : Z; strong_hash : bytes; data : bytes }.

Record DeltaUploadRequest := {
  path : string;
  content_hash : bytes;
  chunks : list DeltaChunk;
  publisher_proof : option Publisher.PublisherSignatureProof
}.

Record DeltaUploadResponse := { accepted : bool; resulting_hash : bytes }.
Record SyncStateAck := { session_token : string; sequence_id : Z }.
End Stream.

(** ** The host *)
Module Host.
Import Proto.

Record PublisherFailure := { pf_cert : bytes; pf_share : string; pf_path : option string;
                             pf_error : Publisher.VerifyError }.

Record t := mk {
  svc : SyncService.t;
  fs : Fs.t;
  pubdb : Publisher.PublisherDb;
  replay : ReplayGuard.t;
  pub_audit : list PublisherFailure
}.

Abbreviation hm := (stm t Status).

Definition set_svc (x : SyncService.t) (h : t) : t := mk x (fs h) (pubdb h) (replay h) (pub_audit h).
Definition set_fs (x : Fs.t) (h : t) : t := mk (svc h) x (pubdb h) (replay h) (pub_audit h).
Definition set_pubdb (x : Publisher.PublisherDb) (h : t) : t := mk (svc h) (fs h) x (replay h) (pub_audit h).
Definition set_replay (x : ReplayGuard.t) (h : t) : t := mk (svc h) (fs h) (pubdb h) x (pub_audit h).

Definition on_svc {A} (m : stm SyncService.t Status A) : hm A := λ h,
  let '(r, s) := m (svc h) in (r, set_svc s h).

Definition on_fs {A} (what : string) (m : Fs.io A) : hm A := λ h,
  let '(r, x) := m (fs h) in (map_err (InternalIo what) r, set_fs x h).

(** A call whose result is dropped. *)
Definition try_fs {A} (m : Fs.io A) : hm unit := λ h, (Ok tt, set_fs (m (fs h)).2 h).

(** A call on the router the service and the enforcer share. *)
Definition on_router {A} (m : stm TenantMetaRouter.t Status A) : hm A := λ h,
  match SyncService.meta_router (svc h) with
  | None => (Err (InternalDb "router" (Invalid "no router")), h)
  | Some r => let '(x, r) := m r in (x, set_svc (SyncService.set_router r (svc h)) h)
  end.
End Host.

(** ** [UploadSpool] *)
Module UploadSpool.
Import Proto Host.

Record t := mk { path : string; hasher : bytes; size : Z }.

Section spool.
Context (blake3 : bytes → bytes) (f : Fs.faults) (cut : Fs.cuts).

(** [rnd] is the random number of the name. *)
Definition create (rnd : Z) (share_root : string) : hm t :=
  let path := Path.join share_root (".tmp-" +:+ pretty rnd) in
  _ <~ on_fs "create upload spool" (Fs.create f true path) ;;
  st_ret (mk path [] 0).

Definition append (self : t) (data : bytes) : hm t :=
  _ <~ on_fs "spool write" (Fs.write_all f cut (path self) data) ;;
  st_ret (mk (path self) (hasher self ++ data) (as_u64 (size self + Z.of_nat (length data)))).

(** [Drop] without [keep_on_drop]. *)
Definition drop (self : t) : hm unit :=
  if decide (path self = "") then st_ret tt else try_fs (Fs.remove_file f (path self)).

(** [sync_all], and the spool is dropped when it fails. *)
Definition finalize (self : t) : hm (bytes * string * Z) := λ h,
  match on_fs "spool fsync" (Fs.syscall f) h with
  | (Ok _, h) => (Ok (blake3 (hasher self), path self, size self), h)
  | (Err e, h) => (Err e, (drop self h).2)
  end.
End spool.
End UploadSpool.

(** ** The calls *)
Module SyncUpload.
Import Proto Acl Stream Host SyncService.

(** The fields of [SyncServiceImpl] that do not change. [publisher_verifier]
    is set when the feature is compiled in and a verifier is attached. *)
Record config := {
  root : string;
  share_roots : gmap string string;
  quota_enforcer : option QuotaEnforcer.t;
  publisher_verifier : bool
}.

Definition root_for (cfg : config) (share : string) : string := default (root cfg) (share_roots cfg !! share).
Definition version_blobs (cfg : config) : string := Path.join (root cfg) ".version-blobs".

(** Clock readings, the random number, the modification time read back, the
    failures of opening a tenant's database and of the publisher's queries. *)
Record uenv := {
  u_auth : Z;
  u_details_ms : Z;
  u_rnd : Z;
  u_nanos : Z;
  u_verify_ms : Z;
  u_counter_ms : Z;
  u_mtime_ns : Z;
  u_upsert : Z;
  u_prune : Z;
  u_vault : Z;
  u_open_quota1 : option MetaDbError;
  u_open_quota2 : option MetaDbError;
  u_open_archive : option MetaDbError;
  u_open_upsert : option MetaDbError;
  u_publisher : Publisher.faults
}.

Record loop_state := mkLoop {
  spool : option UploadSpool.t;
  expected_hash : option bytes;
  last_path : option string;
  last_proto_proof : option Publisher.PublisherSignatureProof
}.

Section calls.
Context {codec : VcCodec}.
Context (blake3 : bytes → bytes) (f : Fs.faults) (cut : Fs.cuts).
Context (canonicalize : Fs.t → string → option string).
Context (fetch_pubkey : string → result bytes Publisher.VerifyError).
Context (key_from_bytes : bytes → result unit string).
Context (ed25519_verify : bytes → bytes → bytes → bool).
Context (cfg : config) (env : uenv).

(** [path_guard::validate]; it always answers. *)
Definition guard (p share_root : string) : hm string := λ h,
  (match PathGuard.validate (canonicalize (fs h)) p share_root with
   | Some r => map_err PathRejected r
   | None => Err (PathRejected PathGuard.OutsideRoot)
   end, h).

Definition first_message (includes : list string) (share_root : string) (req : DeltaUploadRequest)
    (st : loop_state) : hm loop_state :=
  match last_path st with
  | Some _ => st_ret st
  | None =>
      _ <~ st_lift (require_selective_path (path req) includes) ;;
      _ <~ guard (path req) share_root ;;
      st_ret (mkLoop (spool st) (Some (content_hash req)) (Some (path req)) (publisher_proof req))
  end.

Definition verify_chunk (chunk : DeltaChunk) : result unit Status :=
  if decide (length (strong_hash chunk) = 32%nat) then
    if decide (blake3 (data chunk) = strong_hash chunk) then Ok tt
    else Err (DataLoss "chunk integrity failure (T-Tampering)")
  else Ok tt.

Definition with_spool (s : UploadSpool.t) (st : loop_state) : loop_state :=
  mkLoop (Some s) (expected_hash st) (last_path st) (last_proto_proof st).

Definition drop_spool (st : loop_state) : hm unit :=
  match spool st with Some s => UploadSpool.drop f s | None => st_ret tt end.

(** [m] inside the loops: an error returns from the function, which drops the
    spool. *)
Definition or_drop {A} (st : loop_state) (m : hm A) : hm A := λ h,
  match m h with
  | (Ok a, h) => (Ok a, h)
  | (Err e, h) => (Err e, (drop_spool st h).2)
  end.

Definition chunk_step (share_root : string) (st : loop_state) (chunk : DeltaChunk) : hm loop_state :=
  _ <~ or_drop st (st_lift (verify_chunk chunk)) ;;
  s <~ match spool st with
       | Some s => st_ret s
       | None => UploadSpool.create f (u_rnd env) share_root
       end ;;
  or_drop (with_spool s st) (s <~ UploadSpool.append f cut s (data chunk) ;; st_ret (with_spool s st)).

Fixpoint chunks_loop (share_root : string) (cs : list DeltaChunk) (st : loop_state) : hm loop_state :=
  match cs with
  | [] => st_ret st
  | c :: cs => st <~ chunk_step share_root st c ;; chunks_loop share_root cs st
  end.

Fixpoint messages_loop (includes : list string) (share_root : string)
    (msgs : list (result DeltaUploadRequest Z)) (st : loop_state) : hm loop_state :=
  match msgs with
  | [] => st_ret st
  | Err code :: _ => or_drop st (st_err (FromClient code))
  | Ok req :: msgs =>
      st <~ or_drop st (first_message includes share_root req st) ;;
      st <~ chunks_loop share_root (chunks req) st ;;
      messages_loop includes share_root msgs st
  end.

Definition finalize_spool (st : loop_state) : hm (bytes * Z * option string) :=
  match spool st with
  | Some s => x <~ UploadSpool.finalize blake3 f s ;; st_ret (x.1.1, x.2, Some x.1.2)
  | None => st_ret (blake3 [], 0, None)
  end.

(** The final hash; on a mismatch the staged file is removed. *)
Definition check_final_hash (expected : option bytes) (resulting : bytes) (staged : option string) : hm unit :=
  match expected with
  | Some e =>
      if decide (e = []) then st_ret tt
      else if decide (length e = 32%nat) then
        if decide (resulting = e) then st_ret tt
        else
          _ <~ match staged with Some tmp => try_fs (Fs.remove_file f tmp) | None => st_ret tt end ;;
          st_err (DataLoss "content_hash mismatch")
      else st_err (InvalidArgument "invalid content_hash length")
  | None => st_ret tt
  end.

Definition quarantine_path (share : string) (fp : bytes) (p : option string) : string :=
  Path.join (Path.join (Path.join (Path.join (root cfg) ".quarantine") share) (hex_first_n fp 8))
    (default "unknown" p).

(** On a bad signature the bytes go to the quarantine and the failure is
    recorded; nothing is committed. *)
Definition publisher_gate (share : string) (cert : option CertFingerprint) (st : loop_state)
    (resulting : bytes) (staged : option string) : hm unit :=
  match publisher_verifier cfg, cert, last_proto_proof st with
  | true, Some fp, Some proof => λ h,
      let file := {| Publisher.path := default "" (last_path st); Publisher.blake3 := resulting |} in
      let '(r, db) := Publisher.verify fetch_pubkey key_from_bytes ed25519_verify (u_publisher env)
                        (u_verify_ms env) (u_counter_ms env) proof fp share file (pubdb h) in
      let h := set_pubdb db h in
      match r with
      | Ok _ => (Ok tt, h)
      | Err e =>
          let qpath := quarantine_path share fp (last_path st) in
          (_ <~ match Path.parent qpath with Some p => try_fs (Fs.create_dir_all f p) | None => st_ret tt end ;;
           _ <~ match staged with
                | Some src => try_fs (Fs.copy f cut src qpath)
                | None => try_fs (Fs.write f cut qpath [])
                end ;;
           _ <~ (λ h, (Ok tt, match audit (svc h) with
                              | Some _ => Host.mk (svc h) (fs h) (pubdb h) (replay h)
                                  (pub_audit h ++ [{| pf_cert := fp; pf_share := share;
                                                      pf_path := last_path st; pf_error := e |}])
                              | None => h
                              end)) ;;
           st_err (PublisherInvalid e)) h
      end
  | _, _, _ => st_ret tt
  end.

Definition quota_gate (tenant : option string) (share : string) (st : loop_state) (size : Z) : hm unit :=
  match quota_enforcer cfg, last_path st with
  | Some enforcer, Some p =>
      on_router (QuotaEnforcer.check_upload enforcer (u_open_quota1 env) (u_open_quota2 env) tenant share p size)
  | _, _ => st_ret tt
  end.

(** Keep the superseded bytes under the hash of the stored row; every failure
    is ignored. *)
Definition archive_old (tenant : option string) (share p target : string) : hm unit := λ h,
  match on_fs "" (Fs.exists_ f target) h with
  | (Ok true, h) =>
    match on_fs "" (Fs.read f target) h with
    | (Err _, h) => (Ok tt, h)
    | (Ok old_bytes, h) =>
        match meta_router (svc h) with
        | None => (Ok tt, h)
        | Some _ =>
            match on_router (QuotaEnforcer.tenant_call "" (u_open_archive env) tenant
                               (MetaFiles.get_file_scoped tenant share p)) h with
            | (Ok (Some old_meta), h) =>
                try_fs (ContentBlobStore.put f cut (version_blobs cfg) (u_nanos env)
                          (FileMeta.content_hash old_meta) old_bytes) h
            | (_, h) => (Ok tt, h)
            end
        end
    end
  | (_, h) => (Ok tt, h)
  end.

Definition version_retention_for_tenant (tenant : option string) (r : TenantMetaRouter.t) : VersionRetention :=
  match quota_enforcer cfg with
  | Some enforcer =>
      PlanTier.version_retention
        match (MetaBilling.get_plan_tier tenant (QuotaEnforcer.default_tier enforcer) (TenantMetaRouter.data r)).1 with
        | Ok tier => tier
        | Err _ => QuotaEnforcer.default_tier enforcer
        end
  | None => PlanTier.version_retention PlanTier.Free
  end.

(** [target.strip_prefix(canonical_root).unwrap_or(&target)]: what follows the
    root, which has plain names only. *)
Definition relative_path (h : Host.t) (share_root target : string) : string :=
  let b := Path.components (default share_root (canonicalize (fs h) share_root)) in
  let c := Path.components target in
  if decide (take (length b) c = b) then
    join_with Path.sep ((λ x, match x with Path.Normal s => s | _ => "" end) <$> drop (length b) c)
  else target.

Definition upload_meta (h : Host.t) (share_root target : string) (resulting : bytes) (size : Z) : FileMeta :=
  FileMeta.mk (relative_path h share_root target) resulting size (u_mtime_ns env) None
    (VC.advance (server_node_id (svc h)) VC.new) false None (server_node_id (svc h)) None None None.

(** The metadata row after the bytes are in place: a failing upsert is
    ignored, a database that cannot be opened is not. *)
Definition commit_row (node_id : string) (tenant : option string) (share share_root target : string)
    (resulting : bytes) (size : Z) : hm unit := λ h,
  match meta_router (svc h) with
  | None => (Ok tt, h)
  | Some r =>
      let '(rh, r) := TenantMetaRouter.tenant_data (u_open_upsert env) tenant r in
      let h := set_svc (set_router r (svc h)) h in
      match rh with
      | Err e => (Err (InternalDb "tenant meta db" e), h)
      | Ok db =>
          let meta := upload_meta h share_root target resulting size in
          let retention := version_retention_for_tenant tenant r in
          let '(x, r) := TenantMetaRouter.with_db db
                (MetaFiles.upsert_file_scoped_versioned (u_upsert env) (u_prune env) tenant share meta
                   (server_node_id (svc h)) retention) r in
          let h := set_svc (set_router r (svc h)) h in
          (Ok tt,
           if is_ok x then
             set_svc (enqueue {| job_tenant := tenant; job_vault := share; job_event := "sync.file_changed";
                                 job_payload := FileChanged (FileMeta.path meta) (Hex.encode resulting) size node_id |}
                        (svc h)) h
           else h)
      end
  end.

(** Staging, the atomic rename, and the row. *)
Definition commit (node_id : string) (tenant : option string) (share share_root p : string)
    (resulting : bytes) (size : Z) (staged : option string) : hm unit :=
  target <~ guard p share_root ;;
  _ <~ archive_old tenant share p target ;;
  _ <~ match Path.parent target with
       | Some d => on_fs "create parent dir" (Fs.create_dir_all f d)
       | None => st_ret tt
       end ;;
  tmp <~ match staged with
         | Some tmp => st_ret tmp
         | None =>
             let tmp := Path.join share_root (".tmp-" +:+ pretty (u_rnd env)) in
             _ <~ on_fs "create empty temp" (Fs.create f false tmp) ;;
             _ <~ on_fs "open temp for fsync" (Fs.syscall f) ;;
             _ <~ on_fs "fsync temp" (Fs.syscall f) ;;
             st_ret tmp
         end ;;
  _ <~ on_fs "rename temp to target" (Fs.rename f tmp target) ;;
  commit_row node_id tenant share share_root target resulting size.

Definition record_usage (tenant : option string) (share : string) : hm unit :=
  match quota_enforcer cfg with
  | Some enforcer => on_router (QuotaEnforcer.record_vault_usage enforcer (u_vault env) tenant share)
  | None => st_ret tt
  end.

(** From the authorised call on. *)
Definition upload (node_id : string) (tenant : option string) (share : string) (includes : list string)
    (cert : option CertFingerprint) (msgs : list (result DeltaUploadRequest Z)) : hm DeltaUploadResponse :=
  let share_root := root_for cfg share in
  st <~ messages_loop includes share_root msgs (mkLoop None None None None) ;;
  fin <~ finalize_spool st ;;
  let resulting := fin.1.1 in
  let size := fin.1.2 in
  let staged := fin.2 in
  _ <~ check_final_hash (expected_hash st) resulting staged ;;
  _ <~ publisher_gate share cert st resulting staged ;;
  _ <~ quota_gate tenant share st size ;;
  _ <~ match last_path st with
       | Some p => commit node_id tenant share share_root p resulting size staged
       | None => st_ret tt
       end ;;
  _ <~ record_usage tenant share ;;
  st_ret {| accepted := true; resulting_hash := resulting |}.

(** The checks a streaming call makes before its body. *)
Definition admit_call (roles : list EnforcedRole) (hint : string) (md : MetadataMap)
    (cert : option CertFingerprint) : srv (string * option string * list string) :=
  node_id <~ require_auth (u_auth env) md ;;
  tenant <~ resolve_session_tenant md node_id ;;
  let share := extract_share md in
  includes <~ selective_includes_for_node tenant node_id share ;;
  _ <~ check_acl_by_cert (u_details_ms env) cert share roles hint ;;
  st_ret (node_id, tenant, includes).

Definition delta_upload (md : MetadataMap) (cert : option CertFingerprint)
    (msgs : list (result DeltaUploadRequest Z)) : hm DeltaUploadResponse :=
  x <~ on_svc (admit_call WRITE_ROLES "send_only" md cert) ;;
  upload x.1.1 x.1.2 (extract_share md) x.2 cert msgs.

Definition to_proto_chunk (c : Chunk) : DeltaChunk :=
  {| offset := Chunk.offset c; weak_checksum := Chunk.weak c;
     strong_hash := Chunk.strong c; data := Chunk.data c |}.

(** The answer stream: the chunks up to the first read error. *)
Definition delta_download (md : MetadataMap) (cert : option CertFingerprint) (p : string)
    : hm (list (result DeltaChunk string)) :=
  x <~ on_svc (admit_call READ_ROLES "receive_only" md cert) ;;
  let share := extract_share md in
  _ <~ st_lift (require_selective_path p x.2) ;;
  canonical <~ guard p (root_for cfg share) ;;
  data <~ (λ h, let '(r, x) := Fs.read f canonical (fs h) in (map_err NotFoundIo r, set_fs x h)) ;;
  st_ret ((λ c, match c with Ok c => Ok (to_proto_chunk c) | Err e => Err e end)
            <$> default [] (Chunker.collect blake3 (S (length data)) (Chunker.chunks data))).

(** The acknowledgement loop of [sync_state]: the answers and the guard. *)
Fixpoint acks (node_id : string) (stream_id seq : Z) (msgs : list (result string Z)) (g : ReplayGuard.t)
    : list (result SyncStateAck Status) * ReplayGuard.t :=
  match msgs with
  | [] => ([], g)
  | Err code :: _ => ([Err (FromClient code)], g)
  | Ok token :: msgs =>
      let seq := as_u64 (seq + 1) in
      match ReplayGuard.check_and_advance node_id stream_id seq g with
      | (Err _, g) => ([Err (Aborted "replay")], g)
      | (Ok _, g) =>
          let '(l, g) := acks node_id stream_id seq msgs g in
          (Ok {| session_token := token; sequence_id := seq |} :: l, g)
      end
  end.

(** [msgs] are the requests' session tokens, [stream_id] the random number. *)
Definition sync_state (stream_id : Z) (md : MetadataMap) (cert : option CertFingerprint)
    (msgs : list (result string Z)) : hm (list (result SyncStateAck Status)) :=
  node_id <~ on_svc
    (node_id <~ require_auth (u_auth env) md ;;
     _ <~ resolve_session_tenant md node_id ;;
     _ <~ check_acl_by_cert (u_details_ms env) cert (extract_share md)
            [Bidirectional; SendOnly; ReceiveOnly; Publisher] "bidirectional" ;;
     st_ret node_id) ;;
  λ h, let '(l, g) := acks node_id stream_id 0 msgs (replay h) in
       (Ok l, set_replay (ReplayGuard.close_stream node_id stream_id g) h).
End calls.
End SyncUpload.
