(* ===== verification/SyncUploadProps.v ===== *)
(** * Theorems on the streaming calls

    What an upload does to the file system, on success and on failure, and
    what a download or an acknowledgement stream yields. *)

From stdpp Require Import prelude gmap strings pretty.
From Stdlib Require Import ZArith Lia Strings.Byte Strings.Ascii.
From S2P Require Import Prelude Text PathFacts VectorClock Types Delta Fs BlobStore Publisher Guard.
From S2P Require Import Sql MetaDb Billing MetaFiles MetaSync Auth Acl Tenancy SyncService Enforcer SyncUpload.
From S2P Require Import SyncServiceProps.

#[local] Open Scope Z_scope.

(** ** What a step leaves alone

    [hframe P m]: whatever [m] returns, it changes no file outside [P]. *)
Section hframes.
Import Host Proto.

Definition same_files (P : list Path.component → Prop) (h h' : Host.t) : Prop :=
  ∀ q, ¬ P q → Fs.files (fs h') !! q = Fs.files (fs h) !! q.

Definition hframe {A} (P : list Path.component → Prop) (m : hm A) : Prop :=
  ∀ h r h', m h = (r, h') → same_files P h h'.

Implicit Types P Q : list Path.component → Prop.

Lemma same_files_refl P h : same_files P h h.
Proof. by intros q _. Qed.

Lemma same_files_trans P h1 h2 h3 : same_files P h1 h2 → same_files P h2 h3 → same_files P h1 h3.
Proof. intros H12 H23 q Hq. by rewrite H23, H12. Qed.

Lemma same_files_mono P Q h h' : same_files P h h' → (∀ q, P q → Q q) → same_files Q h h'.
Proof. intros H HPQ q Hq. apply H. auto. Qed.

Lemma hframe_mono {A} P Q (m : hm A) : hframe P m → (∀ q, P q → Q q) → hframe Q m.
Proof. intros H HPQ h r h' Hm. eapply same_files_mono; eauto. Qed.

Lemma hframe_ret {A} P (a : A) : hframe P (st_ret a).
Proof. intros h r h' [= <- <-]. apply same_files_refl. Qed.

Lemma hframe_err {A} P e : hframe (A:=A) P (st_err e).
Proof. intros h r h' [= <- <-]. apply same_files_refl. Qed.

Lemma hframe_lift {A} P (x : result A Status) : hframe P (st_lift x).
Proof. intros h r h' [= <- <-]. apply same_files_refl. Qed.

Lemma hframe_bind {A B} P (m : hm A) (k : A → hm B) :
  hframe P m → (∀ a, hframe P (k a)) → hframe P (st_bind m k).
Proof.
  intros Hm Hk h r h' H. unfold st_bind in H. destruct (m h) as [[a|e] h1] eqn:E.
  - eapply same_files_trans; [by eapply Hm|by eapply Hk].
  - simplify_eq. by eapply Hm.
Qed.

Lemma hframe_svc {A} P (m : stm SyncService.t Status A) : hframe P (on_svc m).
Proof. intros h r h' H. unfold on_svc in H. destruct (m (svc h)). by simplify_eq. Qed.

Lemma hframe_router {A} P (m : stm TenantMetaRouter.t Status A) : hframe P (on_router m).
Proof.
  intros h r h' H. unfold on_router in H. destruct (SyncService.meta_router (svc h)) as [x|];
    [destruct (m x)|]; by simplify_eq.
Qed.

Lemma hframe_fs {A} P what (m : Fs.io A) : Fs.frame P m → hframe P (on_fs what m).
Proof.
  intros Hm h r h' H. unfold on_fs in H. destruct (m (fs h)) as [x s] eqn:E. simplify_eq.
  intros q Hq. cbn. eauto.
Qed.

Lemma hframe_try {A} P (m : Fs.io A) : Fs.frame P m → hframe P (try_fs m).
Proof.
  intros Hm h r h' H. unfold try_fs in H. destruct (m (fs h)) as [x s] eqn:E. simplify_eq.
  intros q Hq. cbn. eauto.
Qed.
End hframes.

Create HintDb hframes.
#[export] Hint Resolve hframe_ret hframe_err hframe_lift hframe_svc hframe_router hframe_fs hframe_try
  Fs.frame_syscall Fs.frame_create_dir_all Fs.frame_read : hframes.

(** ** The spool and the loops *)
Section upload.
Import Proto Acl Stream Host SyncService SyncUpload.
Context {codec : VcCodec}.
Context (blake3 : bytes → bytes) (f : Fs.faults) (cut : Fs.cuts).
Context (canonicalize : Fs.t → string → option string).
Context (fetch_pubkey : string → result bytes Publisher.VerifyError).
Context (key_from_bytes : bytes → result unit string).
Context (ed25519_verify : bytes → bytes → bytes → bool).
Context (cfg : config) (env : uenv).

Definition spool_path (share_root : string) : string := Path.join share_root (".tmp-" +:+ pretty (u_rnd env)).
Definition is_spool (share_root : string) (q : list Path.component) : Prop :=
  q = Path.components (spool_path share_root).

(** The spool holds the bytes received so far. *)
Definition spooled (share_root : string) (acc : bytes) (st : loop_state) (h : Host.t) : Prop :=
  match spool st with
  | None => acc = []
  | Some s => UploadSpool.path s = spool_path share_root ∧ UploadSpool.hasher s = acc
      ∧ UploadSpool.size s = as_u64 (Z.of_nat (length acc))
      ∧ Fs.files (fs h) !! Path.components (spool_path share_root) = Some acc
  end.

Definition rest_same (st st' : loop_state) : Prop :=
  expected_hash st' = expected_hash st ∧ last_path st' = last_path st
  ∧ last_proto_proof st' = last_proto_proof st.

(** Everything of the host but the files is untouched. *)
Definition fs_only (h h' : Host.t) : Prop := h' = set_fs (fs h') h ∧ Fs.dirs (fs h') = Fs.dirs (fs h).

Lemma fs_only_refl h : fs_only h h.
Proof. split; [by destruct h|done]. Qed.

Lemma fs_only_trans h1 h2 h3 : fs_only h1 h2 → fs_only h2 h3 → fs_only h1 h3.
Proof. unfold fs_only. intros [-> H1] [-> H2]. split; [done|]. cbn in *. congruence. Qed.

Lemma as_u64_add a b : as_u64 (as_u64 a + b) = as_u64 (a + b).
Proof. unfold as_u64. by rewrite Zplus_mod_idemp_l. Qed.

Definition spool_at (share_root : string) (st : loop_state) : Prop :=
  ∀ s, spool st = Some s → UploadSpool.path s = spool_path share_root.

Lemma spooled_at share_root acc st h : spooled share_root acc st h → spool_at share_root st.
Proof. unfold spooled, spool_at. intros H s Hs. rewrite Hs in H. by destruct H. Qed.

Lemma fs_only_on_fs {A} what (m : Fs.io A) h r h' :
  (∀ x r x', m x = (r, x') → Fs.dirs x' = Fs.dirs x) → on_fs what m h = (r, h') → fs_only h h'.
Proof. unfold on_fs, fs_only. intros Hm. destruct (m (fs h)) eqn:E. intros [= <- <-]. split; [done|]. by eapply Hm. Qed.

Lemma fs_only_try {A} (m : Fs.io A) h r h' :
  (∀ x r x', m x = (r, x') → Fs.dirs x' = Fs.dirs x) → try_fs m h = (r, h') → fs_only h h'.
Proof. unfold try_fs, fs_only. intros Hm. destruct (m (fs h)) eqn:E. intros [= <- <-]. split; [done|]. by eapply Hm. Qed.

Lemma syscall_dirs x r x' : Fs.syscall f x = (r, x') → Fs.dirs x' = Fs.dirs x.
Proof. by intros [_ ?]%Fs.syscall_files. Qed.

Lemma drop_spool_spec share_root st h :
  spool_at share_root st →
  same_files (is_spool share_root) h (drop_spool f st h).2 ∧ fs_only h (drop_spool f st h).2.
Proof.
  intros Hs. unfold drop_spool. destruct (spool st) as [s|] eqn:E;
    [|split; [apply same_files_refl|apply fs_only_refl]].
  unfold UploadSpool.drop. rewrite (Hs s E). case_decide; [split; [apply same_files_refl|apply fs_only_refl]|].
  split; [|split; [done|]; cbn; eapply Fs.remove_file_dirs; apply surjective_pairing].
  eapply hframe_try; [|apply surjective_pairing].
  eapply Fs.frame_mono; [apply Fs.frame_remove_file|done].
Qed.

(** A step of the loops, with the spool dropped when it fails. *)
Lemma or_drop_spec {A} share_root st (m : hm A) h r h' :
  spool_at share_root st → or_drop f st m h = (r, h') →
  same_files (is_spool share_root) h (m h).2 → fs_only h (m h).2 →
  same_files (is_spool share_root) h h' ∧ fs_only h h' ∧ (∀ a, r = Ok a → m h = (Ok a, h')).
Proof.
  intros Hs H H1 H2. unfold or_drop in H. destruct (m h) as [[a|e] h1]; cbn in *; simplify_eq.
  - naive_solver.
  - destruct (drop_spool_spec share_root st h1 Hs) as [D1 D2]. split_and!; [| |done].
    + by eapply same_files_trans.
    + by eapply fs_only_trans.
Qed.

Lemma verify_chunk_ok c : verify_chunk blake3 c = Ok tt →
  length (strong_hash c) = 32%nat → strong_hash c = blake3 (data c).
Proof. unfold verify_chunk. intros H Hl. rewrite decide_True in H by done. by case_decide. Qed.

Definition chunk_good (c : DeltaChunk) : Prop :=
  length (strong_hash c) = 32%nat → strong_hash c = blake3 (data c).

(** Appending, from a spool whose file holds what was hashed. *)
Lemma append_spec share_root s acc d h r h' :
  UploadSpool.path s = spool_path share_root →
  UploadSpool.append f cut s d h = (r, h') →
  same_files (is_spool share_root) h h' ∧ fs_only h h'
  ∧ (Fs.files (fs h) !! Path.components (spool_path share_root) = Some acc →
     UploadSpool.hasher s = acc → UploadSpool.size s = as_u64 (Z.of_nat (length acc)) →
     ∀ s' st, r = Ok s' → spooled share_root (acc ++ d) (with_spool s' st) h').
Proof.
  intros Hp H. unfold UploadSpool.append, st_bind, st_ret in H. rewrite Hp in H.
  destruct (on_fs "spool write" _ h) as [[[]|e] h1] eqn:E; simplify_eq.
  - split_and!.
    + eapply hframe_fs; [|exact E]. eapply Fs.frame_mono; [apply Fs.frame_write_all|done].
    + by (eapply fs_only_on_fs; [|exact E]; eauto using Fs.write_all_dirs, Fs.create_dirs, syscall_dirs).
    + intros Hf Hh Hz s' st [= <-]. unfold spooled. cbn. split_and!; [done|by rewrite Hh| |].
      * rewrite Hz, as_u64_add, length_app. f_equal. lia.
      * unfold on_fs in E. destruct (Fs.write_all _ _ _ _ _) as [[]] eqn:W; simplify_eq/=.
        apply Fs.write_all_ok in W. by rewrite W, Hf.
  - split_and!; [|by (eapply fs_only_on_fs; [|exact E]; eauto using Fs.write_all_dirs, Fs.create_dirs, syscall_dirs)|done].
    eapply hframe_fs; [|exact E]. eapply Fs.frame_mono; [apply Fs.frame_write_all|done].
Qed.

Lemma create_spec share_root h r h' :
  UploadSpool.create f (u_rnd env) share_root h = (r, h') →
  same_files (is_spool share_root) h h' ∧ fs_only h h'
  ∧ (∀ s st, r = Ok s → spooled share_root [] (with_spool s st) h').
Proof.
  unfold UploadSpool.create, st_bind, st_ret. fold (spool_path share_root). intros H.
  destruct (on_fs "create upload spool" _ h) as [[[]|e] h1] eqn:E; simplify_eq;
    (split_and!; [eapply hframe_fs; [|exact E]; eapply Fs.frame_mono; [apply Fs.frame_create|done]
                 |by (eapply fs_only_on_fs; [|exact E]; eauto using Fs.write_all_dirs, Fs.create_dirs, syscall_dirs)|]); [|done].
  intros s st [= <-]. unfold spooled. cbn. split_and!; try done.
  unfold on_fs in E. destruct (Fs.create _ _ _ _) as [[]] eqn:W; simplify_eq/=. by eapply Fs.create_ok.
Qed.

Lemma chunk_step_spec share_root acc st c h r h' :
  spooled share_root acc st h → chunk_step blake3 f cut env share_root st c h = (r, h') →
  same_files (is_spool share_root) h h' ∧ fs_only h h'
  ∧ (∀ st', r = Ok st' → spooled share_root (acc ++ data c) st' h' ∧ rest_same st st' ∧ chunk_good c).
Proof.
  intros Hs H. unfold chunk_step in H. unfold st_bind at 1 in H.
  destruct (or_drop f st (st_lift (verify_chunk blake3 c)) h) as [r1 h1] eqn:E1.
  apply or_drop_spec with (share_root := share_root) in E1 as (F1&G1&O1);
    [|by eapply spooled_at|apply same_files_refl|apply fs_only_refl].
  destruct r1 as [[]|e]; [|by simplify_eq].
  specialize (O1 tt eq_refl). apply st_lift_ok in O1 as [Hv ->].
  assert (chunk_good c) as Hgood by (intros Hl; by apply verify_chunk_ok).
  unfold st_bind at 1 in H.
  assert (∃ r2 h2, match spool st with Some s => st_ret s | None => UploadSpool.create f (u_rnd env) share_root end h
            = (r2, h2) ∧ same_files (is_spool share_root) h h2 ∧ fs_only h h2
            ∧ (∀ s, r2 = Ok s → spooled share_root acc (with_spool s st) h2)) as (r2&h2&E2&F2&G2&O2).
  { unfold spooled in Hs. destruct (spool st) as [s|] eqn:Es.
    - eexists _, _. split; [done|]. split_and!; [apply same_files_refl|apply fs_only_refl|].
      intros s' [= <-]. unfold spooled. cbn. done.
    - destruct (UploadSpool.create f (u_rnd env) share_root h) as [r2 h2] eqn:E2.
      apply create_spec in E2 as (?&?&O2). eexists _, _. split; [done|]. split_and!; [done..|].
      intros s ->. rewrite Hs. by apply O2. }
  rewrite E2 in H. destruct r2 as [s|e]; [|by simplify_eq].
  specialize (O2 s eq_refl). pose proof O2 as O2'. unfold spooled in O2'. cbn in O2'.
  destruct O2' as (Hp&Hh&Hz&Hf).
  destruct (UploadSpool.append f cut s (data c) h2) as [r3 h3] eqn:E3.
  apply (append_spec share_root s acc (data c) h2 r3 h3 Hp) in E3 as E3'. destruct E3' as (F3&G3&O3).
  apply or_drop_spec with (share_root := share_root) in H as (F4&G4&O4).
  - split_and!; [by eapply same_files_trans|by eapply fs_only_trans|].
    intros st' ->. specialize (O4 st' eq_refl). unfold st_bind in O4. rewrite E3 in O4.
    destruct r3 as [s'|e]; [|done]. unfold st_ret in O4. simplify_eq. split_and!; [|done..]. by eapply O3.
  - by eapply spooled_at.
  - unfold st_bind. rewrite E3. by destruct r3.
  - unfold st_bind. rewrite E3. by destruct r3.
Qed.

Lemma chunks_loop_spec share_root acc st cs h r h' :
  spooled share_root acc st h → chunks_loop blake3 f cut env share_root cs st h = (r, h') →
  same_files (is_spool share_root) h h' ∧ fs_only h h'
  ∧ (∀ st', r = Ok st' → spooled share_root (acc ++ mjoin (data <$> cs)) st' h' ∧ rest_same st st'
       ∧ Forall chunk_good cs).
Proof.
  revert acc st h. induction cs as [|c cs IH]; intros acc st h Hs; cbn [chunks_loop].
  { intros [= <- <-]. split_and!; [apply same_files_refl|apply fs_only_refl|].
    intros st' [= <-]. cbn. rewrite app_nil_r. done. }
  unfold st_bind. destruct (chunk_step blake3 f cut env share_root st c h) as [r1 h1] eqn:E1.
  apply (chunk_step_spec _ acc) in E1 as (F1&G1&O1); [|done].
  destruct r1 as [st1|e]; [|by intros [= <- <-]].
  destruct (O1 st1 eq_refl) as (Hs1&(R1&R2&R3)&Hg). intros E2.
  apply (IH (acc ++ data c)) in E2 as (F2&G2&O2); [|done].
  split_and!; [by eapply same_files_trans|by eapply fs_only_trans|].
  intros st' ->. destruct (O2 st' eq_refl) as (Hs2&(R4&R5&R6)&Hg2).
  split_and!; [|split_and!; congruence|by constructor].
  rewrite fmap_cons. cbn. by rewrite (assoc_L (++)).
Qed.

Definition all_chunks (reqs : list DeltaUploadRequest) : list DeltaChunk := mjoin (chunks <$> reqs).
Definition all_data (reqs : list DeltaUploadRequest) : bytes := mjoin (data <$> all_chunks reqs).

(** The fields the first message sets. *)
Definition headed (includes : list string) (st : loop_state) (reqs : list DeltaUploadRequest)
    (st' : loop_state) : Prop :=
  match last_path st, reqs with
  | None, req :: _ => last_path st' = Some (path req) ∧ expected_hash st' = Some (content_hash req)
      ∧ last_proto_proof st' = publisher_proof req
      ∧ SelectiveSync.path_matches_includes (path req) includes = true
  | _, _ => rest_same st st'
  end.

Lemma guard_spec p share_root h r h' :
  guard canonicalize p share_root h = (r, h') →
  h' = h ∧ (∀ t, r = Ok t → PathGuard.validate (canonicalize (fs h)) p share_root = Some (Ok t)).
Proof.
  unfold guard. intros [= <- <-]. split; [done|]. intros t.
  destruct (PathGuard.validate _ _ _) as [[x|e]|]; cbn; [by intros [= <-]|done..].
Qed.

Lemma first_message_spec share_root includes req st h r h' :
  first_message canonicalize includes share_root req st h = (r, h') →
  h' = h ∧ (∀ st', r = Ok st' → headed includes st [req] st' ∧ spool st' = spool st ∧ is_Some (last_path st')).
Proof.
  unfold first_message, headed. destruct (last_path st) as [p|] eqn:Hp.
  { intros [= <- <-]. split; [done|]. intros st' [= <-]. rewrite Hp. by split_and!. }
  unfold st_bind, st_lift, require_selective_path.
  destruct (SelectiveSync.path_matches_includes (path req) includes) eqn:Hi; [|by intros [= <- <-]].
  destruct (guard canonicalize (path req) share_root h) as [[t|e] h1] eqn:E; apply guard_spec in E as [-> _];
    intros [= <- <-]; (split; [done|]); [|done]. intros st' [= <-]. by split_and!.
Qed.

Lemma messages_loop_spec share_root includes acc st msgs h r h' :
  spooled share_root acc st h →
  messages_loop blake3 f cut canonicalize env includes share_root msgs st h = (r, h') →
  same_files (is_spool share_root) h h' ∧ fs_only h h'
  ∧ (∀ st', r = Ok st' → ∃ reqs, msgs = Ok <$> reqs ∧ spooled share_root (acc ++ all_data reqs) st' h'
       ∧ headed includes st reqs st' ∧ Forall chunk_good (all_chunks reqs)).
Proof.
  revert acc st h. induction msgs as [|[req|code] msgs IH]; intros acc st h Hs; cbn [messages_loop].
  { intros [= <- <-]. split_and!; [apply same_files_refl|apply fs_only_refl|].
    intros st' [= <-]. exists []. cbn. rewrite app_nil_r. unfold headed.
    split_and!; [done|done| |constructor]. by destruct (last_path st). }
  2:{ intros H. apply or_drop_spec with (share_root := share_root) in H as (F&G&O);
        [|by eapply spooled_at|apply same_files_refl|apply fs_only_refl].
      split_and!; [done..|]. intros st' ->. by specialize (O st' eq_refl). }
  unfold st_bind.
  destruct (or_drop f st (first_message canonicalize includes share_root req st) h) as [r1 h1] eqn:E1.
  destruct (first_message canonicalize includes share_root req st h) as [r0 h0] eqn:E0.
  apply first_message_spec in E0 as E0'. destruct E0' as [-> O0].
  apply or_drop_spec with (share_root := share_root) in E1 as (F1&G1&O1);
    [|by eapply spooled_at|rewrite E0; apply same_files_refl|rewrite E0; apply fs_only_refl].
  destruct r1 as [st1|e]; [|by intros [= <- <-]]. specialize (O1 st1 eq_refl). rewrite E0 in O1. simplify_eq.
  destruct (O0 st1 eq_refl) as (Hd1&Hsp&[p1 Hp1]).
  assert (spooled share_root acc st1 h1) as Hs1 by (unfold spooled in *; by rewrite Hsp).
  destruct (chunks_loop blake3 f cut env share_root (chunks req) st1 h1) as [r2 h2] eqn:E2.
  apply (chunks_loop_spec _ acc) in E2 as (F2&G2&O2); [|done].
  destruct r2 as [st2|e]; [|by intros [= <- <-]].
  destruct (O2 st2 eq_refl) as (Hs2&(R1&R2&R3)&Hg). intros E3.
  apply (IH (acc ++ mjoin (data <$> chunks req))) in E3 as (F3&G3&O3); [|done].
  split_and!; [by eapply same_files_trans|by eapply fs_only_trans|].
  intros st' ->. destruct (O3 st' eq_refl) as (reqs&->&Hs3&Hd3&Hg3). exists (req :: reqs).
  split_and!; [done| | |].
  - unfold all_data, all_chunks. rewrite fmap_cons. cbn. by rewrite fmap_app, join_app, (assoc_L (++)).
  - unfold headed in *. rewrite R2, Hp1 in Hd3. destruct Hd3 as (D1&D2&D3).
    destruct (last_path st); [|naive_solver congruence].
    destruct Hd1 as (D4&D5&D6). split_and!; congruence.
  - unfold all_chunks. rewrite fmap_cons. cbn. by apply Forall_app.
Qed.

(** ** The gates *)
Definition staged_as (share_root : string) (acc : bytes) (staged : option string) (h : Host.t) : Prop :=
  match staged with
  | Some tmp => tmp = spool_path share_root ∧ Fs.files (fs h) !! Path.components (spool_path share_root) = Some acc
  | None => acc = []
  end.

Lemma finalize_spec share_root acc st h r h' :
  spooled share_root acc st h → finalize_spool blake3 f st h = (r, h') →
  same_files (is_spool share_root) h h' ∧ fs_only h h'
  ∧ (∀ x, r = Ok x → x.1 = (blake3 acc, as_u64 (Z.of_nat (length acc))) ∧ staged_as share_root acc x.2 h').
Proof.
  intros Hs H. pose proof (spooled_at _ _ _ _ Hs) as Hat. unfold finalize_spool, staged_as in *. unfold spooled in Hs.
  destruct (spool st) as [s|] eqn:Es.
  2:{ unfold st_ret in H. simplify_eq. split_and!; [apply same_files_refl|apply fs_only_refl|].
      intros x [= <-]. done. }
  destruct Hs as (Hp&Hh&Hz&Hf). unfold st_bind, UploadSpool.finalize in H.
  destruct (on_fs "spool fsync" (Fs.syscall f) h) as [[[]|e] h1] eqn:E.
  - unfold st_ret in H. simplify_eq/=.
    assert (Fs.files (fs h') = Fs.files (fs h)) as Hsame.
    { unfold on_fs in E. destruct (Fs.syscall f (fs h)) as [x s'] eqn:E'. simplify_eq/=.
      by apply Fs.syscall_files in E' as [-> _]. }
    split_and!; [intros q _; by rewrite Hsame|by (eapply fs_only_on_fs; [|exact E]; eauto using Fs.write_all_dirs, Fs.create_dirs, syscall_dirs)|].
    intros x [= <-]. cbn. rewrite Hsame, Hz. by split_and!.
  - simplify_eq/=. destruct (drop_spool_spec share_root st h1 Hat) as [D1 D2].
    unfold drop_spool in D1, D2. rewrite Es in D1, D2.
    split_and!; [eapply same_files_trans; [|exact D1]|eapply fs_only_trans; [|exact D2]|done].
    + eapply hframe_fs; [|exact E]. apply Fs.frame_syscall.
    + by (eapply fs_only_on_fs; [|exact E]; eauto using Fs.write_all_dirs, Fs.create_dirs, syscall_dirs).
Qed.

Lemma final_hash_spec share_root acc expected resulting staged h r h' :
  staged_as share_root acc staged h →
  check_final_hash f expected resulting staged h = (r, h') →
  same_files (is_spool share_root) h h' ∧ fs_only h h'
  ∧ (r = Ok tt → h' = h ∧ (∀ e, expected = Some e → e = [] ∨ e = resulting)).
Proof.
  intros Hst H. unfold check_final_hash in H.
  destruct expected as [e|]; [case_decide; [|case_decide; [case_decide|]]|];
    try (unfold st_ret, st_err in H; simplify_eq;
         split_and!; [apply same_files_refl|apply fs_only_refl|naive_solver]).
  unfold st_bind, staged_as in *. destruct staged as [tmp|]; unfold st_ret, st_err in H.
  - destruct Hst as [-> _]. destruct (try_fs _ h) as [[[]|?] h1] eqn:E; simplify_eq;
      (split_and!; [eapply hframe_try; [|exact E]; eapply Fs.frame_mono; [apply Fs.frame_remove_file|done]
                   |by eapply fs_only_try; [apply Fs.remove_file_dirs|exact E]|done]).
  - simplify_eq. split_and!; [apply same_files_refl|apply fs_only_refl|done].
Qed.

Definition is_quarantine (share : string) (cert : option bytes) (p : option string) (q : list Path.component) : Prop :=
  ∃ fp, cert = Some fp ∧ q = Path.components (quarantine_path cfg share fp p).

(** The publisher gate changes files only when it refuses. *)
Lemma publisher_gate_spec share cert st resulting staged h r h' :
  publisher_gate f cut fetch_pubkey key_from_bytes ed25519_verify cfg env share cert st resulting staged h = (r, h') →
  svc h' = svc h ∧ same_files (is_quarantine share cert (last_path st)) h h'
  ∧ match r with Ok _ => fs h' = fs h | Err e => ∃ v, e = PublisherInvalid v end.
Proof.
  unfold publisher_gate. intros H.
  destruct (publisher_verifier cfg); [|unfold st_ret in H; simplify_eq; split_and!; [done|apply same_files_refl|done]].
  destruct cert as [fp|]; [|unfold st_ret in H; simplify_eq; split_and!; [done|apply same_files_refl|done]].
  destruct (last_proto_proof st) as [proof|];
    [|unfold st_ret in H; simplify_eq; split_and!; [done|apply same_files_refl|done]].
  destruct (Publisher.verify _ _ _ _ _ _ _ _ _ _ (pubdb h)) as [[[]|e] db]; [by simplify_eq|].
  set (qp := quarantine_path cfg share fp (last_path st)) in *.
  unfold st_bind in H.
  set (m1 := match Path.parent qp with Some p => try_fs (Fs.create_dir_all f p) | None => st_ret tt end) in *.
  set (m2 := match staged with Some src => try_fs (Fs.copy f cut src qp) | None => try_fs (Fs.write f cut qp []) end) in *.
  destruct (m1 (set_pubdb db h)) as [r1 h1] eqn:E1.
  assert (r1 = Ok tt ∧ svc h1 = svc h) as [-> Hv1].
  { subst m1. destruct (Path.parent qp); unfold try_fs, st_ret in E1; by simplify_eq/=. }
  destruct (m2 h1) as [r2 h2] eqn:E2.
  assert (r2 = Ok tt ∧ svc h2 = svc h1) as [-> Hv2].
  { subst m2. destruct staged; unfold try_fs in E2; by simplify_eq/=. }
  assert (hframe (is_quarantine share (Some fp) (last_path st)) m1) as Hf1.
  { subst m1. destruct (Path.parent qp); eauto with hframes. }
  assert (hframe (is_quarantine share (Some fp) (last_path st)) m2) as Hf2.
  { subst m2. destruct staged; apply hframe_try; (eapply Fs.frame_mono; [apply Fs.frame_copy||apply Fs.frame_write|]);
      intros q ->; by exists fp. }
  unfold st_err in H. simplify_eq. split_and!; [| |by eexists].
  - rewrite <-Hv1, <-Hv2. by destruct (audit (svc h2)).
  - apply Hf1 in E1. apply Hf2 in E2. intros q Hq. transitivity (Fs.files (fs h2) !! q).
    + by destruct (audit (svc h2)).
    + rewrite E2 by done. by rewrite E1.
Qed.

Lemma quota_gate_spec tenant share st size h r h' :
  quota_gate cfg env tenant share st size h = (r, h') → fs h' = fs h.
Proof.
  unfold quota_gate. destruct (quota_enforcer cfg); [|by intros [= <- <-]].
  destruct (last_path st); [|by intros [= <- <-]]. unfold on_router.
  destruct (meta_router (svc h)); [|by intros [= <- <-]]. case_match. by intros [= <- <-].
Qed.

(** ** The commit *)
Definition in_blobs (q : list Path.component) : Prop :=
  ∃ hash, hash32 hash ∧ (q = Path.components (BlobLayout.blob_path (version_blobs cfg) hash)
                     ∨ q = Path.components (ContentBlobStore.tmp_path (version_blobs cfg) (u_nanos env) hash)).

Lemma version_blobs_nonempty : version_blobs cfg ≠ "".
Proof.
  unfold version_blobs. destruct (decide (root cfg = "")) as [->|]; [done|]. by apply BlobLayout.join_nonempty.
Qed.

Lemma get_file_hash32 t v p db m : (MetaFiles.get_file_scoped t v p db).1 = Ok (Some m) → hash32 (FileMeta.content_hash m).
Proof.
  unfold MetaFiles.get_file_scoped, st_bind, query, st_lift. cbn.
  destruct (MetaFiles.fetch_file t v p db) as [row|]; [|done]. cbn. unfold MetaFiles.row_to_meta, hash_of_blob.
  case_decide; [|done]. cbn. by intros [= <-].
Qed.

Lemma archive_spec tenant share p target h r h' :
  archive_old f cut cfg env tenant share p target h = (r, h') → r = Ok tt ∧ same_files in_blobs h h'.
Proof.
  unfold archive_old. destruct (on_fs "" (Fs.exists_ f target) h) as [r0 h0] eqn:E0.
  assert (same_files in_blobs h h0) as F0 by (eapply hframe_fs; [apply Fs.frame_stat|exact E0]).
  destruct r0 as [[|]|e0]; [|by intros [= <- <-]..].
  destruct (on_fs "" (Fs.read f target) h0) as [r1 h1] eqn:E1.
  assert (same_files in_blobs h h1) as F1
    by (eapply same_files_trans; [exact F0|eapply hframe_fs; [apply Fs.frame_read|exact E1]]).
  destruct r1 as [old|e]; [|by intros [= <- <-]].
  destruct (meta_router (svc h1)) as [rt|] eqn:Hrt; [|by intros [= <- <-]].
  destruct (on_router _ h1) as [r2 h2] eqn:E2.
  assert (same_files in_blobs h1 h2) as F2 by (eapply hframe_router; exact E2).
  assert (∀ m, r2 = Ok (Some m) → hash32 (FileMeta.content_hash m)) as Hm.
  { intros m ->. unfold on_router in E2. rewrite Hrt in E2. unfold QuotaEnforcer.tenant_call in E2.
    destruct (TenantMetaRouter.tenant_data _ _ _) as [[hd|e] rt']; [|by simplify_eq].
    unfold TenantMetaRouter.with_db in E2.
    destruct (MetaFiles.get_file_scoped tenant share p (TenantMetaRouter.read_db hd rt')) as [[x|e] db'] eqn:Eg;
      simplify_eq/=. eapply get_file_hash32. by rewrite Eg. }
  destruct r2 as [[m|]|e]; [|intros [= <- <-]; split; [done|by eapply same_files_trans]..].
  specialize (Hm m eq_refl). unfold try_fs. intros [= <- <-]. split; [done|].
  eapply same_files_trans; [exact F1|]. eapply same_files_trans; [exact F2|].
  intros q Hq. cbn. destruct (ContentBlobStore.put _ _ _ _ _ _ _) as [r3 s3] eqn:E3. cbn.
  eapply put_frame; [exact E3|]. intros Hc. apply Hq. eexists; eauto.
Qed.

Lemma commit_row_spec node tenant share share_root target resulting size h r h' :
  commit_row canonicalize cfg env node tenant share share_root target resulting size h = (r, h') →
  fs h' = fs h ∧ (∀ e, r = Err e → ∃ w x, e = InternalDb w x).
Proof.
  unfold commit_row. destruct (meta_router (svc h)) as [rt|]; [|by intros [= <- <-]].
  destruct (TenantMetaRouter.tenant_data _ _ _) as [[hd|e] rt']; [|intros [= <- <-]; naive_solver].
  destruct (TenantMetaRouter.with_db _ _ _) as [x rt2]. intros [= <- <-]. split; [by destruct x|done].
Qed.

(** Staging: the temporary file holds the bytes. *)
Definition stage (share_root : string) (staged : option string) : hm string :=
  match staged with
  | Some tmp => st_ret tmp
  | None =>
      let tmp := Path.join share_root (".tmp-" +:+ pretty (u_rnd env)) in
      _ <~ on_fs "create empty temp" (Fs.create f false tmp) ;;
      _ <~ on_fs "open temp for fsync" (Fs.syscall f) ;;
      _ <~ on_fs "fsync temp" (Fs.syscall f) ;;
      st_ret tmp
  end.

Lemma stage_spec share_root acc staged h r h' :
  staged_as share_root acc staged h → stage share_root staged h = (r, h') →
  same_files (is_spool share_root) h h'
  ∧ (∀ tmp, r = Ok tmp → tmp = spool_path share_root
       ∧ Fs.files (fs h') !! Path.components (spool_path share_root) = Some acc).
Proof.
  unfold staged_as, stage. destruct staged as [tmp|].
  { intros [-> Hf] [= <- <-]. split; [apply same_files_refl|]. by intros ? [= <-]. }
  intros ->. fold (spool_path share_root). unfold st_bind, st_ret.
  destruct (on_fs "create empty temp" _ h) as [[[]|e] h1] eqn:E1.
  2:{ intros [= <- <-]. split; [|done]. eapply hframe_fs; [|exact E1].
      eapply Fs.frame_mono; [apply Fs.frame_create|done]. }
  assert (same_files (is_spool share_root) h h1
          ∧ Fs.files (fs h1) !! Path.components (spool_path share_root) = Some []) as [F1 H1].
  { split; [eapply hframe_fs; [|exact E1]; eapply Fs.frame_mono; [apply Fs.frame_create|done]|].
    unfold on_fs in E1. destruct (Fs.create _ _ _ _) as [[]] eqn:W; simplify_eq/=. by eapply Fs.create_ok. }
  assert (∀ w r h1 h2, on_fs w (Fs.syscall f) h1 = (r, h2) → Fs.files (fs h2) = Fs.files (fs h1)) as Hsys.
  { intros w r0 g1 g2 E. unfold on_fs in E. destruct (Fs.syscall f (fs g1)) eqn:W.
    apply Fs.syscall_files in W as [W _]. by simplify_eq/=. }
  destruct (on_fs "open temp for fsync" _ h1) as [[[]|e] h2] eqn:E2; apply Hsys in E2;
    [|intros [= <- <-]; split; [intros q Hq; rewrite E2; by apply F1|done]].
  destruct (on_fs "fsync temp" _ h2) as [[[]|e] h3] eqn:E3; apply Hsys in E3; intros [= <- <-];
    (split; [intros q Hq; rewrite E3, E2; by apply F1|]); [|done].
  intros tmp [= <-]. split; [done|]. by rewrite E3, E2.
Qed.

(** A commit that fails before the rename changed only the spool and the
    blobs; one that succeeds put the bytes at the guarded path. *)
Definition committed (share_root target : string) (q : list Path.component) : Prop :=
  is_spool share_root q ∨ in_blobs q ∨ q = Path.components target.

Lemma commit_spec node tenant share share_root p acc resulting size staged h r h' :
  ¬ in_blobs (Path.components (spool_path share_root)) →
  staged_as share_root acc staged h →
  commit f cut canonicalize cfg env node tenant share share_root p resulting size staged h = (r, h') →
  ((∃ e, r = Err e) ∧ same_files (λ q, is_spool share_root q ∨ in_blobs q) h h')
  ∨ (∃ target, PathGuard.validate (canonicalize (fs h)) p share_root = Some (Ok target)
      ∧ Fs.files (fs h') !! Path.components target = Some acc
      ∧ same_files (committed share_root target) h h'
      ∧ (Path.components (spool_path share_root) ≠ Path.components target →
           Fs.files (fs h') !! Path.components (spool_path share_root) = None)
      ∧ (∀ e, r = Err e → ∃ w x, e = InternalDb w x)).
Proof.
  intros Hnb Hst. unfold commit. fold (stage share_root staged). intros H.
  unfold st_bind at 1 in H. destruct (guard canonicalize p share_root h) as [r0 h0] eqn:E0.
  apply guard_spec in E0 as [-> Hg]. destruct r0 as [target|e];
    [|simplify_eq; left; split; [eauto|apply same_files_refl]].
  specialize (Hg target eq_refl). unfold st_bind at 1 in H.
  destruct (archive_old f cut cfg env tenant share p target h) as [r1 h1] eqn:E1.
  apply archive_spec in E1 as [-> F1].
  assert (staged_as share_root acc staged h1) as Hst1.
  { unfold staged_as in *. destruct staged; [|done]. destruct Hst as [-> Hst]. split; [done|]. by rewrite F1. }
  unfold st_bind at 1 in H.
  set (mkdir := match Path.parent target with Some d => _ | None => _ end) in H.
  destruct (mkdir h1) as [r2 h2] eqn:E2.
  assert (Fs.files (fs h2) = Fs.files (fs h1)) as F2.
  { subst mkdir. destruct (Path.parent target); [|unfold st_ret in E2; by simplify_eq].
    unfold on_fs in E2. destruct (Fs.create_dir_all _ _ _) eqn:W. simplify_eq/=. by eapply Fs.create_dir_all_files. }
  assert (same_files (λ q, is_spool share_root q ∨ in_blobs q) h h2) as F2'.
  { intros q Hq. rewrite F2. apply F1. naive_solver. }
  destruct r2 as [[]|e]; [|simplify_eq; left; eauto].
  assert (staged_as share_root acc staged h2) as Hst2 by (unfold staged_as in *; by rewrite F2).
  unfold st_bind at 1 in H. destruct (stage share_root staged h2) as [r3 h3] eqn:E3.
  apply (stage_spec share_root acc) in E3 as [F3 Hs3]; [|done].
  assert (same_files (λ q, is_spool share_root q ∨ in_blobs q) h h3) as F3'.
  { eapply same_files_trans; [exact F2'|]. eapply same_files_mono; [exact F3|]. auto. }
  destruct r3 as [tmp|e]; [|simplify_eq; left; eauto]. destruct (Hs3 tmp eq_refl) as [-> Hf3].
  unfold st_bind at 1 in H.
  destruct (on_fs "rename temp to target" _ h3) as [r4 h4] eqn:E4. unfold on_fs in E4.
  destruct (Fs.rename f (spool_path share_root) target (fs h3)) as [x4 s4] eqn:W.
  apply Fs.rename_spec in W as [[-> (b&Hb&W)]|[[e ->] W]]; cbn in E4; injection E4 as <- <-.
  2:{ simplify_eq. left. split; [eauto|]. intros q Hq. cbn. rewrite W. by apply F3'. }
  right. rewrite Hf3 in Hb. injection Hb as <-. apply commit_row_spec in H as [Hfs He].
  cbn in Hfs. exists target. split_and!; [done| | | |done].
  - by rewrite Hfs, W, lookup_insert_eq.
  - intros q Hq. rewrite Hfs, W. unfold committed, is_spool in Hq.
    rewrite lookup_insert_ne, lookup_delete_ne by naive_solver. apply F3'. unfold is_spool. naive_solver.
  - intros Hne. rewrite Hfs, W, lookup_insert_ne by done. by rewrite lookup_delete_eq.
Qed.

(** ** The whole call *)

(** The shares do not lie inside the blob store. *)
Definition separate (share : string) : Prop :=
  root_for cfg share ≠ ""
  ∧ ∀ k, Path.components (root_for cfg share) ≠ Path.components (version_blobs cfg) ++ k.

Lemma spool_components share_root :
  share_root ≠ "" →
  Path.components (spool_path share_root) = Path.components share_root ++ [Path.Normal (tmp_name (u_rnd env))].
Proof. intros Hr. apply components_join_plain; [done|]. apply tmp_name_plain. Qed.

Lemma snoc_two {A} (l k : list A) x a b : l ++ [x] = k ++ [a; b] → l = k ++ [a].
Proof. intros H. change [a; b] with ([a] ++ [b]) in H. rewrite (assoc_L (++)) in H. by apply app_inj_tail in H as [H _]. Qed.

Lemma separate_spool share : separate share → ¬ in_blobs (Path.components (spool_path (root_for cfg share))).
Proof.
  intros [Hr Hs] (hash&Hh&Hc). rewrite spool_components in Hc by done.
  rewrite BlobLayout.blob_path_components, tmp_path_components in Hc by (done || apply version_blobs_nonempty).
  destruct Hc as [Hc|Hc]; apply snoc_two in Hc; by apply Hs in Hc.
Qed.

Lemma record_usage_spec tenant share h r h' :
  record_usage cfg env tenant share h = (r, h') →
  fs h' = fs h ∧ (∀ e, r = Err e → ∃ w x, e = InternalDb w x).
Proof.
  unfold record_usage. destruct (quota_enforcer cfg) as [en|]; [|by intros [= <- <-]].
  unfold on_router. destruct (meta_router (svc h)) as [rt|]; [|intros [= <- <-]; naive_solver].
  unfold QuotaEnforcer.record_vault_usage, QuotaEnforcer.control_db. destruct (BillingMode.is_active _).
  - destruct (TenantMetaRouter.with_db _ _ _) as [[x|x] rt']; intros [= <- <-]; naive_solver.
  - by intros [= <- <-].
Qed.

Definition first_path (msgs : list (result DeltaUploadRequest Z)) : option string :=
  match msgs with Ok req :: _ => Some (path req) | _ => None end.

(** What an upload may have changed when it failed: the spool, the blobs, and
    the quarantined copy when the signature was refused. *)
Definition leftovers (share : string) (cert : option bytes) (msgs : list (result DeltaUploadRequest Z)) (e : Status)
    (q : list Path.component) : Prop :=
  is_spool (root_for cfg share) q ∨ in_blobs q
  ∨ ((∃ v, e = PublisherInvalid v) ∧ is_quarantine share cert (first_path msgs) q).

(** The bytes and hashes a successful upload stands for. The path was guarded in
    a state with the files of the start but for the spool. *)
Definition upload_ok (share : string) (includes : list string) (reqs : list DeltaUploadRequest)
    (resp : DeltaUploadResponse) (h h' : Host.t) : Prop :=
  let share_root := root_for cfg share in
  resp = {| accepted := true; resulting_hash := blake3 (all_data reqs) |}
  ∧ Forall chunk_good (all_chunks reqs)
  ∧ match reqs with
    | [] => fs h' = fs h
    | req :: _ =>
        (content_hash req = [] ∨ content_hash req = blake3 (all_data reqs))
        ∧ SelectiveSync.path_matches_includes (path req) includes = true
        ∧ ∃ target fs0, (∀ q, ¬ is_spool share_root q → Fs.files fs0 !! q = Fs.files (fs h) !! q)
            ∧ Fs.dirs fs0 = Fs.dirs (fs h)
            ∧ PathGuard.validate (canonicalize fs0) (path req) share_root = Some (Ok target)
            ∧ Fs.files (fs h') !! Path.components target = Some (all_data reqs)
            ∧ same_files (committed share_root target) h h'
            ∧ (Path.components (spool_path share_root) ≠ Path.components target →
                 Fs.files (fs h') !! Path.components (spool_path share_root) = None)
    end.

Lemma upload_empty node tenant share includes cert h :
  upload blake3 f cut canonicalize fetch_pubkey key_from_bytes ed25519_verify cfg env
    node tenant share includes cert [] h
  = (_ <~ record_usage cfg env tenant share ;; st_ret {| accepted := true; resulting_hash := blake3 [] |}) h.
Proof.
  unfold upload, publisher_gate, quota_gate. cbn.
  destruct (publisher_verifier cfg), cert, (quota_enforcer cfg); done.
Qed.

Lemma upload_spec node tenant share includes cert msgs h r h' :
  separate share →
  upload blake3 f cut canonicalize fetch_pubkey key_from_bytes ed25519_verify cfg env
    node tenant share includes cert msgs h = (r, h') →
  match r with
  | Ok resp => ∃ reqs, msgs = Ok <$> reqs ∧ upload_ok share includes reqs resp h h'
  | Err e => (∃ w x, e = InternalDb w x) ∨ same_files (leftovers share cert msgs e) h h'
  end.
Proof.
  intros Hsep. destruct (decide (msgs = [])) as [->|Hmsgs0].
  { rewrite upload_empty. unfold st_bind. destruct (record_usage cfg env tenant share h) as [r7 h7] eqn:E7.
    apply record_usage_spec in E7 as [F7 He7]. destruct r7 as [[]|e]; [|intros [= <- <-]; left; by apply He7].
    unfold st_ret. intros [= <- <-]. exists []. split; [done|]. unfold upload_ok. split_and!; [done|constructor|done]. }
  set (sr := root_for cfg share). unfold upload. fold sr. unfold st_bind at 1.
  destruct (messages_loop _ _ _ _ _ _ _ _ _ h) as [r1 h1] eqn:E1.
  apply (messages_loop_spec sr includes []) in E1 as (F1&G1&O1); [|done].
  assert (∀ e g, same_files (is_spool sr) h g → same_files (leftovers share cert msgs e) h g) as Hleft.
  { intros e g Hg. eapply same_files_mono; [exact Hg|]. unfold leftovers. auto. }
  destruct r1 as [st|e]; [|intros [= <- <-]; right; by apply Hleft].
  destruct (O1 st eq_refl) as (reqs&Hmsgs&Hs1&Hd&Hg). rewrite app_nil_l in Hs1. unfold st_bind at 1.
  destruct (finalize_spool blake3 f st h1) as [r2 h2] eqn:E2.
  apply (finalize_spec sr (all_data reqs)) in E2 as (F2&G2&O2); [|done].
  pose proof (same_files_trans _ _ _ _ F1 F2) as F12.
  destruct r2 as [[[resulting size] staged]|e]; [|intros [= <- <-]; right; by apply Hleft].
  destruct (O2 _ eq_refl) as [[= -> ->] Hst]. cbn [fst snd] in Hst |- *. unfold st_bind at 1.
  destruct (check_final_hash f _ _ _ h2) as [r3 h3] eqn:E3.
  apply (final_hash_spec sr (all_data reqs)) in E3 as (F3&G3&O3); [|done].
  destruct r3 as [[]|e]; [|intros [= <- <-]; right; apply Hleft; by eapply same_files_trans].
  destruct (O3 eq_refl) as [-> Hexp]. unfold st_bind at 1.
  destruct (publisher_gate _ _ _ _ _ _ _ _ _ _ _ _ h2) as [r4 h4] eqn:E4.
  apply publisher_gate_spec in E4 as (_&F4&O4).
  assert (last_path st = first_path msgs) as Hlp.
  { subst msgs. unfold headed in Hd. cbn in Hd. destruct reqs as [|req reqs]; cbn; [by destruct Hd as (_&->&_)|].
    by destruct Hd as (->&_). }
  destruct r4 as [[]|e].
  2:{ intros [= <- <-]. right. eapply same_files_trans; [by apply Hleft|].
      eapply same_files_mono; [exact F4|]. rewrite Hlp. unfold leftovers. auto. }
  unfold st_bind at 1. destruct (quota_gate _ _ _ _ _ _ h4) as [r5 h5] eqn:E5.
  apply quota_gate_spec in E5 as F5.
  assert (same_files (is_spool sr) h h5) as F15 by (intros q Hq; rewrite F5, O4; by apply F12).
  assert (staged_as sr (all_data reqs) staged h5) as Hst5 by (unfold staged_as in *; by rewrite F5, O4).
  destruct r5 as [[]|e]; [|intros [= <- <-]; right; by apply Hleft].
  unfold st_bind at 1.
  destruct (last_path st) as [p|] eqn:Ep.
  - destruct reqs as [|req reqs]; [by subst msgs|]. subst msgs. injection Hlp as ->.
    destruct (commit _ _ _ _ _ _ _ _ _ _ _ _ _ h5) as [r6 h6] eqn:E6.
    apply (commit_spec node tenant share sr (path req) (all_data (req :: reqs))) in E6; [|by apply separate_spool|done].
    destruct E6 as [[[e ->] F6]|(target&Hval&Hdata&F6&Hsp&He)].
    + intros [= <- <-]. right. intros q Hq. rewrite F6; [apply F15|]; unfold leftovers in Hq; naive_solver.
    + destruct r6 as [[]|e]; [|intros [= <- <-]; left; by apply He].
      unfold st_bind at 1. destruct (record_usage cfg env tenant share h6) as [r7 h7] eqn:E7.
      apply record_usage_spec in E7 as [F7 He7].
      destruct r7 as [[]|e]; [|intros [= <- <-]; left; by apply He7]. unfold st_ret. intros [= <- <-].
      exists (req :: reqs). split; [done|]. unfold upload_ok. fold sr. split; [done|]. split; [done|]. split.
      * unfold headed in Hd. cbn in Hd. destruct Hd as (_&Hh&_&_). by apply Hexp.
      * split; [by destruct Hd as (_&_&_&?)|]. exists target, (fs h5). split; [exact F15|]. split; [rewrite F5, O4; by destruct G1, G2; congruence|]. split; [done|]. split; [by rewrite F7|].
        split; [|intros Hne; rewrite F7; by apply Hsp].
        intros q Hq. rewrite F7, F6 by done. apply F15. unfold committed in Hq. naive_solver.
  - destruct reqs as [|req reqs]; by subst msgs.
Qed.
End upload.

(** ** Admission, download, acknowledgements *)
Section other.
Import Proto Acl Stream Host SyncService SyncUpload.

Lemma on_svc_ok {A} (m : stm SyncService.t Status A) h a h' :
  on_svc m h = (Ok a, h') → ∃ s, m (svc h) = (Ok a, s) ∧ h' = set_svc s h.
Proof. unfold on_svc. destruct (m (svc h)) as [r s]. intros [= -> <-]. eauto. Qed.

Lemma set_svc_id h : set_svc (svc h) h = h.
Proof. by destruct h. Qed.

Context (env : uenv).

(** Who may call: the holder of a live session, for the tenant of its node; and,
    when the server has an access list and the request a certificate, only a
    certificate with one of the roles on the share. *)
Definition admitted (roles : list EnforcedRole) (md : MetadataMap) (cert : option CertFingerprint)
    (s : SyncService.t) (node : string) (tenant : option string) : Prop :=
  session_of (u_auth env) md s node
  ∧ runs_for md s node tenant
  ∧ match acl_enforcer s, cert with
    | Some e, Some fp => ∃ role, resolve e fp (extract_share md) = Ok role ∧ role ∈ roles
    | _, _ => True
    end.

Lemma role_allows_match roles s cert share :
  role_allows roles s cert share →
  match acl_enforcer s, cert with
  | Some e, Some fp => ∃ role, resolve e fp share = Ok role ∧ role ∈ roles
  | _, _ => True
  end.
Proof. unfold role_allows. destruct (acl_enforcer s), cert; naive_solver. Qed.

Lemma admit_call_inv roles hint md cert s x s' :
  admit_call env roles hint md cert s = (Ok x, s') →
  s' = s ∧ admitted roles md cert s x.1.1 x.1.2.
Proof.
  unfold admit_call. intros (node&s1&Ha&Hk)%st_bind_ok. apply require_auth_inv in Ha as [Ha ->].
  apply st_bind_ok in Hk as (tenant&s2&Ht&Hk). apply resolve_tenant_inv in Ht as [Ht ->].
  cbv zeta in Hk. apply st_bind_ok in Hk as (includes&s3&Hi&Hk).
  assert (s3 = s) as ->.
  { unfold selective_includes_for_node in Hi. destruct (meta_router s); [|by simplify_eq].
    unfold control in Hi. by apply st_lift_ok in Hi as [_ ->]. }
  apply st_bind_ok in Hk as (u&s4&Hc&Hk). apply check_acl_inv in Hc as [Hc ->].
  unfold st_ret in Hk. simplify_eq. split; [done|].
  split_and!; [done|by apply enforced_runs_for|by apply role_allows_match].
Qed.

Context (blake3 : bytes → bytes) (f : Fs.faults) (canonicalize : Fs.t → string → option string) (cfg : config).

Lemma download_inv md cert p h l h' :
  delta_download blake3 f canonicalize cfg env md cert p h = (Ok l, h') →
  ∃ node tenant target content,
    admitted READ_ROLES md cert (svc h) node tenant
    ∧ PathGuard.validate (canonicalize (fs h)) p (root_for cfg (extract_share md)) = Some (Ok target)
    ∧ Fs.files (fs h) !! Path.components target = Some content
    ∧ l = Ok <$> (to_proto_chunk <$> Delta.all_chunks blake3 content)
    ∧ Fs.files (fs h') = Fs.files (fs h) ∧ svc h' = svc h.
Proof.
  unfold delta_download. intros (x&h1&(s1&Ea&->)%on_svc_ok&Hk)%st_bind_ok.
  apply admit_call_inv in Ea as [-> Had]. rewrite set_svc_id in Hk. cbv zeta in Hk.
  apply st_bind_ok in Hk as ([]&h2&Hi&Hk). apply st_lift_ok in Hi as [_ ->].
  apply st_bind_ok in Hk as (target&h3&Hg&Hk). apply guard_spec in Hg as [-> Hg].
  apply st_bind_ok in Hk as (content&h4&Hr&Hk). cbn in Hr.
  pose proof (Chunker.chunks_cut blake3 id content) as Hcut. unfold id in Hcut. rewrite Hcut in Hk. clear Hcut.
  destruct (Fs.read f target (fs h)) as [r0 s4] eqn:Er. unfold st_ret in Hk. simplify_eq.
  unfold Fs.read, st_bind, Fs.syscall in Er. destruct (f (Fs.calls (fs h))); [by simplify_eq|].
  cbn in Er. destruct (Fs.files (fs h) !! Path.components target) as [c|] eqn:Hc; simplify_eq/=.
  exists x.1.1, x.1.2, target, content. split_and!; [done|by apply Hg|done| |done|by destruct h].
  unfold Delta.all_chunks. rewrite <-!list_fmap_compose. by apply list_fmap_ext.
Qed.

(** A download that is let in, of a file that is there and can be read. *)
Lemma download_total md cert p h x s target content :
  admit_call env READ_ROLES "receive_only" md cert (svc h) = (Ok x, s) →
  SelectiveSync.path_matches_includes p x.2 = true →
  PathGuard.validate (canonicalize (fs h)) p (root_for cfg (extract_share md)) = Some (Ok target) →
  Fs.files (fs h) !! Path.components target = Some content → f (Fs.calls (fs h)) = None →
  ∃ h', delta_download blake3 f canonicalize cfg env md cert p h
        = (Ok (Ok <$> (to_proto_chunk <$> Delta.all_chunks blake3 content)), h').
Proof.
  intros Ha Hi Hv Hc Hf. pose proof Ha as [-> _]%admit_call_inv.
  unfold delta_download, st_bind at 1, on_svc. rewrite Ha, set_svc_id. cbv zeta.
  unfold st_bind at 1, st_lift, require_selective_path. rewrite Hi.
  unfold st_bind at 1, guard. rewrite Hv. cbn [map_err].
  unfold st_bind at 1, Fs.read, st_bind at 1, Fs.syscall. rewrite Hf. cbn [Fs.files]. rewrite Hc. cbn [ok_or map_err].
  pose proof (Chunker.chunks_cut blake3 id content) as Hcut. unfold id in Hcut. rewrite Hcut. eexists.
  unfold st_ret. cbn [default from_option id]. unfold Delta.all_chunks.
  match goal with |- (Ok ?a, _) = (Ok ?b, _) => assert (a = b) as ->; [|done] end.
  rewrite <-!list_fmap_compose. by apply list_fmap_ext.
Qed.

Lemma acks_fresh node stream tokens seq g :
  default 0 (g !! (node, stream)) = seq → 0 ≤ seq → seq + Z.of_nat (length tokens) < 2 ^ 64 →
  acks node stream seq (Ok <$> tokens) g
  = (imap (λ i t, Ok {| session_token := t; sequence_id := seq + Z.of_nat i + 1 |}) tokens,
     match tokens with [] => g | _ => <[(node, stream) := seq + Z.of_nat (length tokens)]> g end).
Proof.
  revert seq g. induction tokens as [|t tokens IH]; intros seq g Hg H0 Hl; [done|].
  rewrite fmap_cons. cbn [acks length] in *. rewrite Nat2Z.inj_succ in Hl. rewrite as_u64_id by (unfold_ints; lia).
  unfold ReplayGuard.check_and_advance. rewrite Hg.
  rewrite bool_decide_false by lia. rewrite IH; [|by rewrite lookup_insert_eq|lia|lia].
  rewrite imap_cons. f_equal.
  - f_equal; [do 2 f_equal; lia|]. apply imap_ext. intros i x _. simpl. do 2 f_equal. lia.
  - rewrite Nat2Z.inj_succ. destruct tokens; [cbn; f_equal; lia|].
    rewrite insert_insert_eq. f_equal. lia.
Qed.
End other.

Module UploadTheorems.
Import Proto Acl Stream Host SyncService SyncUpload.

Section theorems.
Context {codec : VcCodec}.
Context (blake3 : bytes → bytes) (f : Fs.faults) (cut : Fs.cuts).
Context (canonicalize : Fs.t → string → option string).
Context (fetch_pubkey : string → result bytes Publisher.VerifyError).
Context (key_from_bytes : bytes → result unit string).
Context (ed25519_verify : bytes → bytes → bytes → bool).
Context (cfg : config) (env : uenv).
Abbreviation delta_upload :=
  (SyncUpload.delta_upload blake3 f cut canonicalize fetch_pubkey key_from_bytes ed25519_verify cfg env).

Lemma delta_upload_inv md cert msgs h r h' :
  delta_upload md cert msgs h = (r, h') →
  (∃ s, h' = set_svc s h ∧ ∃ e, r = Err e)
  ∨ ∃ node tenant includes, admitted env WRITE_ROLES md cert (svc h) node tenant
      ∧ upload blake3 f cut canonicalize fetch_pubkey key_from_bytes ed25519_verify cfg env
          node tenant (extract_share md) includes cert msgs h = (r, h').
Proof.
  unfold SyncUpload.delta_upload. unfold st_bind, on_svc.
  destruct (admit_call env WRITE_ROLES "send_only" md cert (svc h)) as [[x|e] s1] eqn:Ea.
  - apply admit_call_inv in Ea as [-> Had]. intros H. right. exists x.1.1, x.1.2, x.2. split; [done|].
    by destruct h.
  - intros [= <- <-]. left. eauto.
Qed.


(** C7: A refused upload, to a share whose root is a non-empty path that is not
    inside the version store, commits nothing: unless the failure is the metadata
    database's, which comes after the bytes are in place, every file keeps its
    content but the spool, version blobs and, when a publisher's signature was
    refused, the quarantined copy. *)
Theorem upload_failure_safe md cert msgs h e h' :
  separate cfg (extract_share md) →
  delta_upload md cert msgs h = (Err e, h') → (∀ what x, e ≠ InternalDb what x) →
  same_files (leftovers cfg env (extract_share md) cert msgs e) h h'.
Proof.
  intros Hsep [(s&->&_)|(node&tenant&includes&Had&Hu)]%delta_upload_inv Hne.
  - by intros q _.
  - apply upload_spec in Hu as [(w&x&->)|Hs]; [|done|done]. by destruct (Hne w x).
Qed.

(** C9: Upload, then download, on a share whose root is a non-empty path that
    is not inside the version store. A successful upload of at least one message
    wrote to the place its path resolved to on the files before the call, the
    spool aside; and from the state it leaves, as long as the path still
    resolves to that place, a download of the path by whoever is let in with
    the folder included, and whose read of the file does not fail, succeeds and
    yields chunks whose data is the uploaded bytes in order, each under its own
    digest. *)
Theorem upload_download_roundtrip md cert req reqs h resp h1 :
  separate cfg (extract_share md) →
  delta_upload md cert (Ok <$> (req :: reqs)) h = (Ok resp, h1) →
  let root := root_for cfg (extract_share md) in
  ∃ target fs0,
    (∀ q, ¬ is_spool env root q → Fs.files fs0 !! q = Fs.files (fs h) !! q)
    ∧ Fs.dirs fs0 = Fs.dirs (fs h)
    ∧ PathGuard.validate (canonicalize fs0) (path req) root = Some (Ok target)
    ∧ ∀ f' env' md' cert' x s,
        extract_share md' = extract_share md →
        admit_call env' READ_ROLES "receive_only" md' cert' (svc h1) = (Ok x, s) →
        SelectiveSync.path_matches_includes (path req) x.2 = true →
        f' (Fs.calls (fs h1)) = None →
        PathGuard.validate (canonicalize (fs h1)) (path req) root = Some (Ok target) →
        ∃ cs h2, delta_download blake3 f' canonicalize cfg env' md' cert' (path req) h1 = (Ok (Ok <$> cs), h2)
          ∧ mjoin (data <$> cs) = all_data (req :: reqs)
          ∧ Forall (λ c, strong_hash c = blake3 (data c)) cs.
Proof.
  intros Hsep [(s&_&e&[=])|(node&tenant&includes&Had&Hu)]%delta_upload_inv root.
  apply upload_spec in Hu as (reqs'&Hm&Hok); [|done].
  assert (reqs' = req :: reqs) as ->.
  { symmetry. by apply (inj (fmap (Ok (E:=Z)))) in Hm. }
  destruct Hok as (_&_&_&_&target&fs0&Hfs0&Hdirs0&Hv&Hdata&_). exists target, fs0. split_and!; [done..|].
  intros f' env' md' cert' x s Hsh Ha Hi Hf' Hv1.
  assert (∃ h2, delta_download blake3 f' canonicalize cfg env' md' cert' (path req) h1
            = (Ok (Ok <$> (to_proto_chunk <$> Delta.all_chunks blake3 (all_data (req :: reqs)))), h2)) as [h2 Hd].
  { eapply download_total; [exact Ha|exact Hi|rewrite Hsh; exact Hv1|exact Hdata|exact Hf']. }
  eexists _, h2. split; [exact Hd|]. split.
  - rewrite <-(Delta.all_chunks_concat blake3 (all_data (req :: reqs))) at 2.
    by rewrite <-list_fmap_compose.
  - rewrite Forall_fmap. eapply Forall_impl; [apply Delta.all_chunks_strong|done].
Qed.
End theorems.

(** The acknowledgement stream: for a live session with a role, on a
    stream number not in use, every request is acknowledged in order with its
    token and the numbers 1, 2, 3, .. (the replay guard never refuses), and the
    guard is left as it was. *)
Theorem sync_state_acks env stream md cert tokens h l h' :
  Z.of_nat (length tokens) < 2 ^ 64 →
  (∀ node, replay h !! (node, stream) = None) →
  sync_state env stream md cert (Ok <$> tokens) h = (Ok l, h') →
  ∃ node tenant, admitted env [Bidirectional; SendOnly; ReceiveOnly; Publisher] md cert (svc h) node tenant
    ∧ l = imap (λ i t, Ok {| session_token := t; sequence_id := Z.of_nat i + 1 |}) tokens
    ∧ h' = h.
Proof.
  intros Hlen Hfresh. unfold sync_state. intros (node'&h1&(s1&Ea&->)%on_svc_ok&Hk)%st_bind_ok.
  apply st_bind_ok in Ea as (node&s2&H1&Hk1). apply require_auth_inv in H1 as [H1 ->].
  apply st_bind_ok in Hk1 as (tenant&s3&H2&Hk1). apply resolve_tenant_inv in H2 as [H2 ->].
  apply st_bind_ok in Hk1 as (u&s4&H3&Hk1). apply check_acl_inv in H3 as [H3 ->].
  unfold st_ret in Hk1. injection Hk1 as <- <-.
  rewrite set_svc_id in Hk.
  rewrite acks_fresh in Hk; [|by rewrite Hfresh|done|done].
  injection Hk as <- <-. exists node, tenant. split_and!.
  - split_and!; [done|by apply enforced_runs_for|by apply role_allows_match].
  - apply imap_ext. intros i t _. do 2 f_equal; lia.
  - destruct h as [a b c d e]. cbn in *. unfold set_replay, ReplayGuard.close_stream. cbn. f_equal.
    destruct tokens; [|rewrite delete_insert_eq]; by apply delete_id.
Qed.

(** A server with one empty share and a two-message upload to it; paths that are
    there resolve to themselves. *)
Definition demo_canon : Fs.t → string → option string := λ x p, if Fs.there x p then Some p else None.
Definition demo_cfg : config :=
  {| root := "/srv"; share_roots := ∅; quota_enforcer := None; publisher_verifier := false |}.
Definition no_pub : Publisher.faults :=
  {| Publisher.f_lookup := None; Publisher.f_cache := None; Publisher.f_counter := None; Publisher.f_advance := None |}.
Definition demo_env : uenv := Build_uenv 50 0 7 9 0 0 11 60 60 60 None None None None no_pub.
Definition demo_fs : Fs.t :=
  Fs.mk ∅ {[ []; [Path.RootDir]; [Path.RootDir; Path.Normal "srv"] ]} 0.
Definition demo_host : Host.t :=
  Host.mk SyncServiceTheorems.demo_server demo_fs (Publisher.mkDb ∅ ∅ ∅) ∅ [].
Definition demo_blake3 : bytes → bytes := λ b, take 32 (b ++ replicate 32 Byte.x07).
Definition demo_chunk (b : bytes) : DeltaChunk :=
  {| offset := 0; weak_checksum := 0; strong_hash := demo_blake3 b; data := b |}.
Definition demo_req (p : string) (b : bytes) : DeltaUploadRequest :=
  {| path := p; content_hash := []; chunks := [demo_chunk b]; publisher_proof := None |}.
Definition demo_upload (cfg : config) (cert : option CertFingerprint) (msgs : list (result DeltaUploadRequest Z))
    (h : Host.t) :=
  SyncUpload.delta_upload (codec := BinaryCodec.codec) demo_blake3 (λ _, None) (λ _, O) demo_canon
    (λ _, Ok zero_hash) (λ _, Ok tt) (λ _ _ _, false) cfg demo_env SyncServiceTheorems.demo_md cert msgs h.
Definition demo_reqs : list DeltaUploadRequest := [demo_req "d/a.txt" [Byte.x41]; demo_req "d/a.txt" [Byte.x42]].
Definition demo_done : Host.t := (demo_upload demo_cfg None (Ok <$> demo_reqs) demo_host).2.

Lemma demo_separate cfg : root cfg = "/srv" → share_roots cfg = ∅ → separate cfg "default".
Proof.
  intros Hr Hs. unfold separate, root_for, version_blobs. rewrite Hr, Hs. split; [done|].
  intros k H. vm_compute in H. discriminate.
Qed.

(** The same server with an access list on which the certificate may write. *)
Definition demo_acl : SyncService.t :=
  let s := SyncServiceTheorems.demo_server in
  SyncService.mk (store s) (meta_router s) "server" (Some (Loaded (table_insert [] "default" SendOnly (table_new 1)))) None [].
Definition demo_acl_host : Host.t := Host.mk demo_acl demo_fs (Publisher.mkDb ∅ ∅ ∅) ∅ [].


Definition bad_reqs : list DeltaUploadRequest :=
  [{| path := "a.txt"; content_hash := zero_hash; chunks := [demo_chunk [Byte.x41]]; publisher_proof := None |}].

Lemma upload_failure_safe_witness :
  same_files (leftovers demo_cfg demo_env "default" None (Ok <$> bad_reqs) (DataLoss "content_hash mismatch"))
    demo_host (demo_upload demo_cfg None (Ok <$> bad_reqs) demo_host).2.
Proof.
  apply (upload_failure_safe (codec := BinaryCodec.codec) demo_blake3 (λ _, None) (λ _, O) demo_canon
    (λ _, Ok zero_hash) (λ _, Ok tt) (λ _ _ _, false) demo_cfg demo_env SyncServiceTheorems.demo_md None).
  - by apply demo_separate.
  - vm_compute. reflexivity.
  - done.
Defined.

(** On files like these the path of the upload resolves under the share. *)
Lemma demo_resolves fs0 target :
  Fs.dirs fs0 = Fs.dirs demo_fs →
  (∀ p, p ∈ ["/srv/d"; "/srv/d/a.txt"] → Fs.files fs0 !! Path.components p = None) →
  PathGuard.validate (demo_canon fs0) "d/a.txt" "/srv" = Some (Ok target) → target = "/srv/d/a.txt".
Proof.
  intros Hd Hf. unfold demo_canon, Fs.there, Fs.regular. rewrite Hd.
  set (c := λ p : string, _). assert (c "/srv" = Some "/srv") as C1 by (unfold c; by case_bool_decide).
  assert (c "/srv/d" = None) as C2 by (unfold c; rewrite Hf by set_solver; by vm_compute).
  assert (c "/srv/d/a.txt" = None) as C3 by (unfold c; rewrite Hf by set_solver; by vm_compute).
  clearbody c. clear Hd Hf. intros Hv. unfold PathGuard.validate in Hv.
  unfold PathGuard.resolve in Hv. vm_compute in C1, C2, C3, Hv.
  repeat first [rewrite C1 in Hv|rewrite C2 in Hv|rewrite C3 in Hv]. vm_compute in Hv. congruence.
Qed.

Lemma upload_download_roundtrip_witness :
  ∃ cs h2, delta_download demo_blake3 (λ _, None) demo_canon demo_cfg demo_env SyncServiceTheorems.demo_md None
           "d/a.txt" demo_done = (Ok (Ok <$> cs), h2)
    ∧ mjoin (data <$> cs) = [Byte.x41; Byte.x42].
Proof.
  destruct (upload_download_roundtrip (codec := BinaryCodec.codec) demo_blake3 (λ _, None) (λ _, O) demo_canon
    (λ _, Ok zero_hash) (λ _, Ok tt) (λ _ _ _, false) demo_cfg demo_env SyncServiceTheorems.demo_md None
    (demo_req "d/a.txt" [Byte.x41]) [demo_req "d/a.txt" [Byte.x42]] demo_host
    {| accepted := true; resulting_hash := demo_blake3 [Byte.x41; Byte.x42] |} demo_done) as (target&fs0&Hfs0&Hdirs0&Hv&Hd).
  - by apply demo_separate.
  - vm_compute. reflexivity.
  - assert (target = "/srv/d/a.txt") as ->.
    { eapply demo_resolves; [exact Hdirs0| |exact Hv].
      intros p Hp. assert (p = "/srv/d" ∨ p = "/srv/d/a.txt") as [-> | ->] by set_solver;
        (rewrite Hfs0; [reflexivity|vm_compute; discriminate]). }
    destruct (Hd (λ _, None) demo_env SyncServiceTheorems.demo_md None ("n", None, []) (svc demo_done)) as (cs&h2&H1&H2&_).
    + reflexivity.
    + vm_compute. reflexivity.
    + vm_compute. reflexivity.
    + reflexivity.
    + vm_compute. reflexivity.
    + exists cs, h2. split; [exact H1|exact H2].
Defined.

Lemma sync_state_acks_witness :
  (sync_state demo_env 5 SyncServiceTheorems.demo_md None (Ok <$> ["t"; "u"]) demo_host).1
  = Ok [Ok {| session_token := "t"; sequence_id := 1 |}; Ok {| session_token := "u"; sequence_id := 2 |}].
Proof.
  destruct (sync_state_acks demo_env 5 SyncServiceTheorems.demo_md None ["t"; "u"] demo_host
    [Ok {| session_token := "t"; sequence_id := 1 |}; Ok {| session_token := "u"; sequence_id := 2 |}] demo_host)
    as (node&tenant&_&Hl&_).
  - vm_compute. reflexivity.
  - intros node. reflexivity.
  - vm_compute. reflexivity.
  - rewrite Hl. vm_compute. reflexivity.
Defined.
End UploadTheorems.
