(* ===== verification/SyncUploadErrors.v ===== *)
(** * Where the streaming upload does not do what it says

    Each theorem is a run of [delta_upload], or a fact about all of them, that
    contradicts a comment of the sources or the purpose of a check. *)

From stdpp Require Import prelude gmap strings pretty.
From Stdlib Require Import ZArith Lia Strings.Byte Strings.Ascii.
From S2P Require Import Prelude Text PathFacts VectorClock Types Delta Fs BlobStore Publisher Guard.
From S2P Require Import Sql MetaDb Billing MetaFiles MetaSync Auth Acl Tenancy SyncService Enforcer SyncUpload.
From S2P Require Import SyncServiceProps SyncUploadProps.

#[local] Open Scope Z_scope.

Module UploadErrors.
Import Proto Acl Stream Host SyncService SyncUpload UploadTheorems.

(** ** A quarantine that commits *)
Definition fp : CertFingerprint := replicate 32 Byte.x05.
Definition pub_cfg : config :=
  {| root := "/srv"; share_roots := ∅; quota_enforcer := None; publisher_verifier := true |}.
Definition pub_server : SyncService.t :=
  SyncService.mk SyncServiceTheorems.demo_store None "server"
    (Some (Loaded (table_insert fp "default" Publisher (table_new 1)))) None [].
Definition live_fs : Fs.t :=
  Fs.mk {[ [Path.RootDir; Path.Normal "srv"; Path.Normal "a.txt"] := [Byte.x01] ]}
    {[ []; [Path.RootDir]; [Path.RootDir; Path.Normal "srv"] ]} 0.
Definition pub_host : Host.t := Host.mk pub_server live_fs (Publisher.mkDb ∅ ∅ ∅) ∅ [].
Definition forged : DeltaUploadRequest :=
  {| path := "/srv/a.txt"; content_hash := []; chunks := [demo_chunk [Byte.x42]];
     publisher_proof := Some {| Publisher.ed25519_signature := replicate 64 Byte.x00;
       Publisher.vault_key_ref := "k"; Publisher.signed_at_unix_ms := 0; Publisher.counter := 1 |} |}.

(** The quarantine is not one for absolute paths. The path guard admits
    an absolute path below the root, and joining it to the quarantine directory
    gives the path itself: an upload whose publisher signature is refused
    replaces the live file with the refused bytes. *)
Theorem quarantine_overwrites_live :
  (∀ cfg share cert p, Path.is_absolute p = true → quarantine_path cfg share cert (Some p) = p)
  ∧ let '(r, h) := demo_upload pub_cfg (Some fp) [Ok forged] pub_host in
    r = Err (PublisherInvalid Publisher.SignatureMismatch)
    ∧ Fs.files (fs pub_host) !! Path.components "/srv/a.txt" = Some [Byte.x01]
    ∧ Fs.files (fs h) !! Path.components "/srv/a.txt" = Some [Byte.x42].
Proof.
  split.
  - intros cfg share cert p Hp. unfold quarantine_path. cbn [default from_option id].
    unfold Path.join at 1. by rewrite Hp.
  - vm_compute. done.
Qed.

(** ** A quota that is not one *)
Definition tight : QuotaLimits := QuotaLimits.mk 0 0 1.
Definition tight_cfg : config :=
  {| root := "/srv"; share_roots := ∅;
     quota_enforcer := Some (QuotaEnforcer.mk BillingMode.Enforce PlanTier.Free (Some tight));
     publisher_verifier := false |}.

(** A refused upload keeps its bytes. The spool is kept once it is
    finalised, and only a hash mismatch removes it: an upload refused for
    storage leaves the whole file in the share's root, outside the index and
    the quota. *)
Theorem quota_refusal_leaks :
  let '(r, h) := demo_upload tight_cfg None (Ok <$> demo_reqs) demo_host in
  r = Err (QuotaExceeded "storage quota" (Quota.StorageExceeded 5 2 0))
  ∧ Fs.files (fs h) !! Path.components "/srv/.tmp-7" = Some [Byte.x41; Byte.x42].
Proof. vm_compute. done. Qed.

Section vaults.
Context {codec : VcCodec}.
Context (blake3 : bytes → bytes) (f : Fs.faults) (cut : Fs.cuts).
Context (canonicalize : Fs.t → string → option string).
Context (fetch_pubkey : string → result bytes Publisher.VerifyError).
Context (key_from_bytes : bytes → result unit string).
Context (ed25519_verify : bytes → bytes → bytes → bool).
Context (cfg : config) (env : uenv).

Lemma register_then_exists now tenant vault db :
  (MetaBilling.tenant_vault_exists tenant vault (MetaBilling.register_tenant_vault now tenant vault db).2).1 = Ok true.
Proof.
  unfold MetaBilling.tenant_vault_exists, MetaBilling.register_tenant_vault, query, execute. cbn [fst snd].
  f_equal. apply bool_decide_eq_true_2. apply Nat.neq_0_lt_0. rewrite affected_0. intros Hno.
  unfold set_vaults in Hno. cbn [tenant_vaults] in Hno. unfold insert_row in Hno.
  destruct (existsb _ (tenant_vaults db)) eqn:He; cbn [default from_option id] in Hno.
  - apply existsb_exists in He as (s&Hs%list_elem_of_In&Hc). specialize (Hno s Hs).
    apply andb_true_iff in Hc as [Hu Hv]. apply bool_decide_eq_true in Hv. cbn in Hu, Hv.
    unfold MetaBilling.vault_row, is_eqb in Hno. rewrite <-Hv, (bool_decide_true (vault = vault)) in Hno by done.
    rewrite andb_true_r in Hno. apply bool_decide_eq_false in Hno. apply Hno. unfold uniq_eqb in Hu.
    destruct tenant, (VaultRow.tenant_id s); try done. by apply bool_decide_eq_true in Hu as ->.
  - specialize (Hno (VaultRow.mk tenant vault now)).
    unfold MetaBilling.vault_row, is_eqb in Hno. cbn in Hno. rewrite !bool_decide_true in Hno by done.
    assert (true = false) by (apply Hno; set_solver). done.
Qed.

(** An upload stream without a message registers the share as a vault of
    the tenant, whatever the plan allows: the capacity check needs a path, the
    registration does not. *)
Theorem empty_upload_registers_vault en rt md cert x h :
  quota_enforcer cfg = Some en → BillingMode.is_active (QuotaEnforcer.mode en) = true →
  meta_router (svc h) = Some rt →
  admit_call env WRITE_ROLES "send_only" md cert (svc h) = (Ok x, svc h) →
  ∃ h' rt', SyncUpload.delta_upload blake3 f cut canonicalize fetch_pubkey key_from_bytes ed25519_verify cfg env
      md cert [] h = (Ok {| accepted := true; resulting_hash := blake3 [] |}, h')
    ∧ meta_router (svc h') = Some rt'
    ∧ (MetaBilling.tenant_vault_exists (QuotaEnforcer.tenant_from_metadata x.1.2) (extract_share md)
         (TenantMetaRouter.data rt')).1 = Ok true.
Proof.
  intros Hq Hact Hrt Had. unfold SyncUpload.delta_upload. unfold st_bind at 1, on_svc. rewrite Had.
  assert (set_svc (svc h) h = h) as -> by (by destruct h). rewrite upload_empty.
  unfold record_usage. rewrite Hq. unfold st_bind, on_router. rewrite Hrt.
  unfold QuotaEnforcer.record_vault_usage. rewrite Hact.
  unfold QuotaEnforcer.control_db, TenantMetaRouter.with_db. cbn [TenantMetaRouter.read_db].
  set (t := QuotaEnforcer.tenant_from_metadata x.1.2). set (share := extract_share md).
  destruct (MetaBilling.register_tenant_vault (u_vault env) t share (TenantMetaRouter.data rt)) as [r db] eqn:Er.
  assert (r = Ok tt) as -> by (unfold MetaBilling.register_tenant_vault, execute in Er; by simplify_eq).
  cbn [map_err]. eexists _, _. split; [reflexivity|]. split; [reflexivity|]. cbn [TenantMetaRouter.data].
  pose proof (register_then_exists (u_vault env) t share (TenantMetaRouter.data rt)) as Hex.
  rewrite Er in Hex. exact Hex.
Qed.

(** A publisher's upload that carries no proof is not checked at all. *)
Lemma publisher_gate_no_proof share cert st resulting staged h :
  last_proto_proof st = None →
  publisher_gate f cut fetch_pubkey key_from_bytes ed25519_verify cfg env share cert st resulting staged h = (Ok tt, h).
Proof. intros H. unfold publisher_gate. rewrite H. by destruct (publisher_verifier cfg), cert. Qed.

(** Every committed row carries the clock of a first write: a later upload is
    not causally after an earlier one. *)
Lemma upload_clock_constant h1 h2 sr1 sr2 t1 t2 r1 r2 n1 n2 :
  server_node_id (svc h1) = server_node_id (svc h2) →
  VC.compare (FileMeta.vector_clock (upload_meta canonicalize env h1 sr1 t1 r1 n1))
    (FileMeta.vector_clock (upload_meta canonicalize env h2 sr2 t2 r2 n2)) = Equal.
Proof.
  unfold upload_meta. cbn [FileMeta.vector_clock]. intros ->.
  assert (VC.wf (VC.advance (server_node_id (svc h2)) VC.new)) as Hwf.
  { unfold VC.wf, VC.advance, VC.new. apply map_Forall_insert_2; [by vm_compute|apply map_Forall_empty]. }
  by apply VC.compare_equal.
Qed.
End vaults.

Lemma empty_upload_registers_vault_witness :
  ∃ h' rt', demo_upload tight_cfg None [] demo_host
      = (Ok {| accepted := true; resulting_hash := demo_blake3 [] |}, h')
    ∧ meta_router (svc h') = Some rt'
    ∧ (MetaBilling.tenant_vault_exists None "default" (TenantMetaRouter.data rt')).1 = Ok true.
Proof.
  apply (empty_upload_registers_vault (codec := BinaryCodec.codec) demo_blake3 (λ _, None) (λ _, O) demo_canon
    (λ _, Ok zero_hash) (λ _, Ok tt) (λ _ _ _, false) tight_cfg demo_env
    (QuotaEnforcer.mk BillingMode.Enforce PlanTier.Free (Some tight))
    (TenantMetaRouter.single (mkControl [] [] ∅) SyncServiceTheorems.demo_db)
    SyncServiceTheorems.demo_md None ("n", None, [])); reflexivity.
Defined.

(** ** Superseded bytes under the wrong digest *)
Definition stale_server : SyncService.t :=
  SyncService.mk SyncServiceTheorems.demo_store
    (Some (TenantMetaRouter.single (mkControl [] [] ∅) SyncServiceTheorems.demo_db)) "server" None None [].
Definition stale_host : Host.t :=
  Host.mk stale_server live_fs (Publisher.mkDb ∅ ∅ ∅) ∅ [].

(** The superseded bytes are archived under the row's hash, not their
    own: when the file on disk is not the one the row describes, as after a
    crash between the rename and the row or a dropped upsert, an accepted
    upload files them under a digest they do not have, and the content store
    never replaces that blob. *)
Theorem archive_misfiles_blob :
  let '(r, h) := demo_upload demo_cfg None (Ok <$> [demo_req "a.txt" [Byte.x42]]) stale_host in
  let hash := SyncServiceTheorems.demo_hash Byte.x02 in
  is_ok r = true
  ∧ blob "/srv/.version-blobs" (fs h) hash = Some [Byte.x01]
  ∧ demo_blake3 [Byte.x01] ≠ hash.
Proof. vm_compute. done. Qed.
End UploadErrors.
