(* ===== verification/Enrollment.v ===== *)
(** * Enrollment and registration ([disk-server/src/enrollment/mod.rs],
      [auth/register_gate.rs], [auth/cert_fingerprint.rs], [services/auth.rs])

    One-time tokens are exchanged for client certificates; a certificate then
    lets its node register and get an API key. The statements of a call are
    separate queries, any of which may fail: what was written before stays.

    The certificate authority and the PEM parser are parameters. A certificate
    row names its node by the unique [node_id] text its numeric key stands for.
    Clock readings are in milliseconds; [None] is a clock before the epoch. *)

From stdpp Require Import prelude gmap strings.
From Stdlib Require Import ZArith Lia Strings.Byte Strings.Ascii.
From S2P Require Import Prelude Text Types Guard Sql MetaDb Billing Auth Acl Tenancy.
From S2P Require Import SyncService Enforcer.

#[local] Open Scope Z_scope.

Module PendingRow.
Record t := mk {
  token_hash : bytes;
  node_id_hint : string;
  issued_at : Z;
  expires_at : Z;
  consumed_at : option Z;
  consumed_cert_fp : option bytes;
  revoked_at : option Z;
  tenant_id : option string
}.
End PendingRow.

Module CertRow.
Record t := mk {
  cert_fingerprint : bytes;
  node : string;
  enrolled_at : Z;
  expires_at : Z;
  revoked_at : option Z
}.
End CertRow.

Module Enrollment.
Import Proto.

Definition DEFAULT_TTL_SECS : Z := 3600.
Definition MAX_TTL_SECS : Z := 86400.

Inductive EnrollErrorKind := NotFound | Replay | Expired | Revoked.

Definition as_str (k : EnrollErrorKind) : string :=
  match k with
  | NotFound => "enrollment.not_found"
  | Replay => "enrollment.replay"
  | Expired => "enrollment.expired"
  | Revoked => "enrollment.revoked"
  end.

Inductive EnrollEvent :=
  | TokenIssued (node_id_hint : string)
  | EnrollmentPending (kind : EnrollErrorKind)
  | EnrollmentRevoked (pending : bool)
  | EnrollmentTokenExpired
  | EnrollmentCompleted (node_id_hint : string).

Record t := mk {
  control : ControlDb;
  pending : list PendingRow.t;
  certs : list CertRow.t;
  limiter : option RateLimit.t;
  events : list EnrollEvent
}.

Inductive EnrollError :=
  | Denied (s : Status)
  | FailedPrecondition (k : EnrollErrorKind)
  | RateLimited (retry_after_secs : Z)
  | DbError (what : string) (reason : string)
  | ConstraintFailed (what : string)
  | CaFailed (reason : string)
  | BadCertificate (reason : string)
  | ClockBeforeEpoch.

Abbreviation em := (stm t EnrollError).

Definition set_control (x : ControlDb) (s : t) : t := mk x (pending s) (certs s) (limiter s) (events s).
Definition set_pending (x : list PendingRow.t) (s : t) : t := mk (control s) x (certs s) (limiter s) (events s).
Definition set_certs (x : list CertRow.t) (s : t) : t := mk (control s) (pending s) x (limiter s) (events s).
Definition set_limiter (x : option RateLimit.t) (s : t) : t := mk (control s) (pending s) (certs s) x (events s).
Definition emit (e : EnrollEvent) : em unit := λ s,
  (Ok tt, mk (control s) (pending s) (certs s) (limiter s) (events s ++ [e])).

(** Queries fail by their name within a call. *)
Abbreviation faults := (string → option string).

Definition statement (fl : faults) (what : string) (f : t → t) : em unit := λ s,
  match fl what with Some e => (Err (DbError what e), s) | None => (Ok tt, f s) end.

Definition clock (now_ms : option Z) : em Z := st_lift (ok_or now_ms ClockBeforeEpoch).

Section service.
Context (blake3 : bytes → bytes).
Context (issue_cert : string → result (bytes * bytes) string).
Context (pem_contents : bytes → result bytes string).

Definition fingerprint_der (der : bytes) : bytes := blake3 der.
Definition fingerprint_from_pem (pem : bytes) : result bytes string :=
  der <?- pem_contents pem ;; Ok (fingerprint_der der).

(** [configured] is the override or the environment variable. *)
Definition require_admin (configured : option string) (md : SyncService.MetadataMap) : result unit EnrollError :=
  let expected := default "" configured in
  if decide (expected = "") then Err (Denied (Unauthenticated "DISK_ADMIN_TOKEN is not configured"))
  else if decide (default "" (SyncService.header md "x-disk-admin-token") = expected) then Ok tt
  else Err (Denied (Unauthenticated "invalid admin token")).

Definition is_token (hash : bytes) (r : PendingRow.t) : bool := bool_decide (PendingRow.token_hash r = hash).

Record EnrollmentTokenResponse := { opaque_token : bytes; token_expires_at_ms : Z }.

(** [token] is the 32 random bytes. *)
Definition issue_pending_token (fl : faults) (configured : option string) (now_ms : option Z) (token : bytes)
    (md : SyncService.MetadataMap) (node_id_hint tenant_field : string) (ttl_seconds : Z)
    : em EnrollmentTokenResponse :=
  _ <~ st_lift (require_admin configured md) ;;
  let tenant := Tenant.resolve_tenant_id (SyncService.header md "x-disk-tenant") tenant_field in
  now_ms <~ clock now_ms ;;
  let ttl_secs := if decide (ttl_seconds = 0) then DEFAULT_TTL_SECS else Z.min ttl_seconds MAX_TTL_SECS in
  let expires_at_ms := now_ms + ttl_secs * 1000 in
  let row := PendingRow.mk (blake3 token) node_id_hint (as_i64 now_ms) (as_i64 expires_at_ms)
               None None None tenant in
  _ <~ statement fl "db" id ;;
  _ <~ (λ s, match insert_row (λ r s, is_token (PendingRow.token_hash r) s) row (pending s) with
             | None => (Err (ConstraintFailed "db"), s)
             | Some p => (Ok tt, set_pending p s)
             end) ;;
  _ <~ emit (TokenIssued node_id_hint) ;;
  st_ret {| opaque_token := token; token_expires_at_ms := as_i64 expires_at_ms |}.

Definition on_limiter (f : RateLimit.t → RateLimit.t) : em unit := λ s,
  (Ok tt, set_limiter (f <$> limiter s) s).

Definition check_enroll_rate_limit_peer (peer : string) (now_secs : Z) : em unit := λ s,
  match limiter s with
  | None => (Ok tt, s)
  | Some l =>
      let '(r, l) := RateLimit.check peer now_secs l in
      (map_err (λ e, RateLimited (RateLimit.retry_after e)) r, set_limiter (Some l) s)
  end.

(** A refused token: the peer's failure is counted and recorded. *)
Definition refuse {A} (peer : string) (now_secs : Z) (ev : EnrollEvent) (k : EnrollErrorKind) : em A :=
  _ <~ on_limiter (RateLimit.record_failure peer now_secs) ;;
  _ <~ emit ev ;;
  st_err (FailedPrecondition k).

(** [enroll] up to the expiry test: the token's row. *)
Definition check_token (fl : faults) (now_ms : Z) (peer : string) (token : bytes) : em PendingRow.t :=
  let now_secs := now_ms / 1000 in
  _ <~ check_enroll_rate_limit_peer peer now_secs ;;
  _ <~ statement fl "db" id ;;
  λ s,
    match head (select (is_token (blake3 token)) (pending s)) with
    | None => refuse peer now_secs (EnrollmentPending NotFound) NotFound s
    | Some r =>
        if decide (is_Some (PendingRow.revoked_at r)) then refuse peer now_secs (EnrollmentRevoked false) Revoked s
        else if decide (is_Some (PendingRow.consumed_at r))
        then refuse peer now_secs (EnrollmentPending Replay) Replay s
        else if bool_decide (as_u64 (PendingRow.expires_at r) < now_ms)
        then refuse peer now_secs EnrollmentTokenExpired Expired s
        else (Ok r, s)
    end.

Record EnrollResponse := { client_cert_pem : bytes; ca_chain_pem : bytes; cert_expires_at_ms : Z }.

(** [INSERT OR IGNORE INTO nodes]: an empty API key hash. *)
Definition insert_node (now_ms : Z) (tenant : option string) (node : string) (c : ControlDb) : ControlDb :=
  if existsb (ControlDb.is_node node) (nodes c) then c
  else ControlDb.set_nodes (λ l, l ++ [NodeRow.mk tenant node (Some node) (Some "unknown") [] (as_i64 now_ms) 0]) c.

(** [UPDATE nodes SET tenant_id]. *)
Definition bind_tenant (tenant : option string) (node : string) (c : ControlDb) : ControlDb :=
  ControlDb.set_nodes (update (ControlDb.is_node node) (λ r,
    NodeRow.mk tenant (NodeRow.node_id r) (NodeRow.display_name r) (NodeRow.platform r)
      (NodeRow.api_key_hash r) (NodeRow.registered_at r) (NodeRow.revoked r))) c.

Definition consume (now_ms : Z) (fp : bytes) (r : PendingRow.t) : PendingRow.t :=
  PendingRow.mk (PendingRow.token_hash r) (PendingRow.node_id_hint r) (PendingRow.issued_at r)
    (PendingRow.expires_at r) (Some (as_i64 now_ms)) (Some fp) (PendingRow.revoked_at r) (PendingRow.tenant_id r).

Definition CERT_TTL_MS : Z := 90 * 24 * 3600 * 1000.

(** The rest of [enroll]: the certificate and its rows. *)
Definition issue (fl : faults) (now_ms : Z) (peer : string) (token : bytes) (node_id_hint csr : string)
    (row : PendingRow.t) : em EnrollResponse :=
  cert <~ st_lift (map_err CaFailed (issue_cert csr)) ;;
  fp <~ st_lift (map_err BadCertificate (fingerprint_from_pem cert.1)) ;;
  let tenant := PendingRow.tenant_id row in
  _ <~ statement fl "db (node insert)" (λ s, set_control (insert_node now_ms tenant node_id_hint (control s)) s) ;;
  _ <~ (if decide (is_Some tenant)
        then statement fl "db (node tenant bind)"
               (λ s, set_control (bind_tenant tenant node_id_hint (control s)) s)
        else st_ret tt) ;;
  _ <~ statement fl "db (node lookup)" id ;;
  let expires := now_ms + CERT_TTL_MS in
  _ <~ statement fl "db (cert insert)" id ;;
  _ <~ (λ s, match insert_row (λ r s, bool_decide (CertRow.cert_fingerprint r = CertRow.cert_fingerprint s))
                     (CertRow.mk fp node_id_hint (as_i64 now_ms) (as_i64 expires) None) (certs s) with
             | None => (Err (ConstraintFailed "db (cert insert)"), s)
             | Some c => (Ok tt, set_certs c s)
             end) ;;
  _ <~ statement fl "db (token consume)"
         (λ s, set_pending (update (is_token (blake3 token)) (consume now_ms fp) (pending s)) s) ;;
  _ <~ emit (EnrollmentCompleted node_id_hint) ;;
  _ <~ on_limiter (RateLimit.clear peer) ;;
  st_ret {| client_cert_pem := cert.1; ca_chain_pem := cert.2; cert_expires_at_ms := as_i64 expires |}.

Definition enroll (fl : faults) (now_ms : option Z) (peer : string) (token : bytes) (node_id_hint csr : string)
    : em EnrollResponse :=
  now_ms <~ clock now_ms ;;
  row <~ check_token fl now_ms peer token ;;
  issue fl now_ms peer token node_id_hint csr row.

Definition pending_only (hash : bytes) (r : PendingRow.t) : bool :=
  is_token hash r && bool_decide (PendingRow.consumed_at r = None) && bool_decide (PendingRow.revoked_at r = None).

Definition revoke (now_ms : Z) (r : PendingRow.t) : PendingRow.t :=
  PendingRow.mk (PendingRow.token_hash r) (PendingRow.node_id_hint r) (PendingRow.issued_at r)
    (PendingRow.expires_at r) (PendingRow.consumed_at r) (PendingRow.consumed_cert_fp r)
    (Some (as_i64 now_ms)) (PendingRow.tenant_id r).

Definition revoke_pending (fl : faults) (configured : option string) (now_ms : option Z)
    (md : SyncService.MetadataMap) (token : bytes) : em bool :=
  _ <~ st_lift (require_admin configured md) ;;
  now_ms <~ clock now_ms ;;
  _ <~ statement fl "db" id ;;
  λ s,
    let revoked := bool_decide (0 < affected (pending_only (blake3 token)) (pending s))%nat in
    let s := set_pending (update (pending_only (blake3 token)) (revoke now_ms) (pending s)) s in
    if revoked then (_ <~ emit (EnrollmentRevoked true) ;; st_ret true) s else (Ok false, s).
End service.
End Enrollment.

(** ** The register gate *)
Module RegisterGate.
Import Proto Enrollment.

Inductive RegisterNodeMode := Open | Enrolled | Disabled | Admin.

Definition parse (raw : string) : result RegisterNodeMode (string * string) :=
  let s := to_ascii_lowercase raw in
  if decide (s = "open") then Ok Open
  else if decide (s = "enrolled") then Ok Enrolled
  else if decide (s = "disabled") then Ok Disabled
  else if decide (s = "admin") then Ok Admin
  else Err ("DISK_REGISTER_NODE_MODE",
            "unknown value '" +:+ s +:+ "'; expected open, enrolled, disabled, or admin").

(** The join of [node_certs] and [nodes]. *)
Definition enrolled_row (now_ms : Z) (fp : bytes) (node_id : string) (db : Enrollment.t) : bool :=
  existsb (λ c,
    bool_decide (CertRow.cert_fingerprint c = fp) && bool_decide (CertRow.revoked_at c = None)
    && bool_decide (now_ms < CertRow.expires_at c)
    && existsb (λ n, bool_decide (NodeRow.node_id n = CertRow.node c) && bool_decide (NodeRow.node_id n = node_id)
                     && bool_decide (NodeRow.revoked n = 0)) (nodes (control db)))
    (certs db).

Definition verify_enrolled_register (now_ms : Z) (fault : option string) (db : Enrollment.t) (fp : bytes)
    (node_id : string) : result unit Status :=
  match fault with
  | Some e => Err (Internal ("db (register gate): " +:+ e))
  | None =>
      if enrolled_row now_ms fp node_id db then Ok tt
      else Err (PermissionDenied "RegisterNode requires enrolled mTLS certificate matching node_id" None)
  end.

Definition check_admin_metadata (md : SyncService.MetadataMap) (admin_token : option string) : result unit Status :=
  match ControlDb.non_empty admin_token with
  | None => Err (PermissionDenied "RegisterNode admin mode but DISK_ADMIN_TOKEN is unset" None)
  | Some expected =>
      if decide (default "" (SyncService.header md "x-disk-admin-token") = expected) then Ok tt
      else Err (PermissionDenied "missing or invalid x-disk-admin-token" None)
  end.

Definition check_register_gate (mode : RegisterNodeMode) (now_ms : Z) (fault : option string)
    (pool : option Enrollment.t) (admin_token : option string) (md : SyncService.MetadataMap)
    (cert : option bytes) (node_id : string) : result unit Status :=
  match mode with
  | Open => Ok tt
  | Disabled => Err (PermissionDenied "RegisterNode is disabled" None)
  | Admin => check_admin_metadata md admin_token
  | Enrolled =>
      match pool with
      | None => Err (Internal "RegisterNode enrolled mode requires SQLite pool")
      | Some db =>
          match cert with
          | None => Err (Unauthenticated "mTLS client certificate required for RegisterNode")
          | Some fp => verify_enrolled_register now_ms fault db fp node_id
          end
      end
  end.
End RegisterGate.

(** ** [AuthService] *)
Module AuthService.
Import Proto Enrollment RegisterGate.

Record config := {
  register_mode : RegisterNodeMode;
  admin_token : option string;
  quota_enforcer : option QuotaEnforcer.t;
  with_meta_db : bool
}.

(** [pool], [meta_db] and the enforcer's router are the control file: its
    enrollment and node tables are [pool], its other tables [data]. *)
Record t := mk { store : AuthStore.t; pool : Enrollment.t; data : MetaDb }.

Record NodeRegisterRequest := { req_node_id : string; req_display_name : string; req_platform : string;
                                req_tenant_id : string }.
Record NodeRegisterResponse := { api_key : string; assigned_id : string; registered_at : Z }.

Abbreviation am := (stm t Status).

Section service.
Context (blake3 : bytes → bytes) (base32 : bytes → string) (cfg : config).

Definition set_store (x : AuthStore.t) (s : t) : t := mk x (pool s) (data s).
Definition set_pool (x : Enrollment.t) (s : t) : t := mk (store s) x (data s).

(** Readings of the clock in seconds: the store, the node row, the answer. *)
Definition register_node (now_ms now now_row now' : Z) (fault : option string) (raw : bytes)
    (md : SyncService.MetadataMap) (cert : option bytes) (req : NodeRegisterRequest) : am NodeRegisterResponse := λ s,
  let node_id := trim (req_node_id req) in
  if decide (node_id = "") then (Err (InvalidArgument "node_id must not be empty"), s)
  else
    (_ <~ st_lift (check_register_gate (register_mode cfg) now_ms fault (Some (pool s)) (admin_token cfg) md cert node_id) ;;
     let tenant := Tenant.resolve_tenant_id (SyncService.header md "x-disk-tenant") (req_tenant_id req) in
     _ <~ st_lift match quota_enforcer cfg with
                  | Some enforcer =>
                      if AuthStore.has_node (store s) node_id then Ok tt
                      else (QuotaEnforcer.check_register_node enforcer tenant
                              (as_u32 (Z.of_nat (AuthStore.node_count (store s))))
                              (TenantMetaRouter.single (control (pool s)) (data s))).1
                  | None => Ok tt
                  end ;;
     let display_name := trim (req_display_name req) in
     let platform := trim (req_platform req) in
     λ s,
       match AuthStore.register_node blake3 base32 now raw node_id display_name platform tenant (store s) with
       | (Ok key, st) =>
           let s := set_store st s in
           (_ <~ (if with_meta_db cfg then λ s,
                    let '(r, c) := ControlDb.upsert_node_tenant now_row node_id tenant (ApiKey.hash blake3 key)
                                     display_name platform (control (pool s)) in
                    (map_err (InternalDb "persist node tenant") r, set_pool (set_control c (pool s)) s)
                  else st_ret tt) ;;
            st_ret {| api_key := key; assigned_id := node_id; registered_at := as_i64 now' |}) s
       | (Err AuthStore.AlreadyExists, st) => (Err (AlreadyExists "node_id already registered"), set_store st s)
       | (Err _, st) => (Err (Internal "auth"), set_store st s)
       end) s.

Definition authenticate (now now' : Z) (raw : bytes) (node_id api_key : string) : am (string * Z) := λ s,
  let '(r, st) := AuthStore.authenticate blake3 base32 now now' raw node_id api_key (store s) in
  (match r with
   | Ok x => Ok x
   | Err AuthStore.Unauthenticated => Err (Unauthenticated "invalid node_id or api_key")
   | Err (AuthStore.RateLimited secs) => Err (ResourceExhausted secs)
   | Err _ => Err (Internal "auth")
   end, set_store st s).

(** The start-up of [main.rs]: every stored node is put back in the store. *)
Definition hydrate (rows : list AuthNodeRow.t) (st : AuthStore.t) : AuthStore.t :=
  foldl (λ st r, (AuthStore.hydrate_node (AuthNodeRow.node_id r) (AuthNodeRow.display_name r)
                    (AuthNodeRow.platform r) (AuthNodeRow.api_key_hash r) (AuthNodeRow.registered_at r)
                    (AuthNodeRow.tenant_id r) st).2) st rows.

Definition boot (st : AuthStore.t) (db : ControlDb) : result AuthStore.t MetaDbError :=
  rows <?- (ControlDb.list_active_auth_nodes db).1 ;; Ok (hydrate rows st).
End service.
End AuthService.
