(* ===== verification/EnrollmentProps.v ===== *)
(** * Theorems on enrollment, registration and restart *)

From stdpp Require Import prelude gmap strings.
From Stdlib Require Import ZArith Lia Strings.Byte Strings.Ascii.
From S2P Require Import Prelude Text Types Guard Sql MetaDb Billing Auth Acl Tenancy.
From S2P Require Import SyncService Enforcer Enrollment.

#[local] Open Scope Z_scope.

(** ** What the steps of a call change *)
Section steps.
Import Enrollment.
Context (blake3 : bytes → bytes).
Context (issue_cert : string → result (bytes * bytes) string).
Context (pem_contents : bytes → result bytes string).

(** A row that is spent: consumed or revoked. *)
Definition spent (r : PendingRow.t) : Prop :=
  is_Some (PendingRow.consumed_at r) ∨ is_Some (PendingRow.revoked_at r).

(** A token that no [enroll] accepts any more. *)
Definition dead (h : bytes) (s : t) : Prop :=
  ∃ r, r ∈ pending s ∧ PendingRow.token_hash r = h
    ∧ ∀ r', r' ∈ pending s → PendingRow.token_hash r' = h → spent r'.

(** Tokens survive, and a spent one stays spent. *)
Definition ages (s s' : t) : Prop := ∀ h, dead h s → dead h s'.

Lemma ages_refl s : ages s s.
Proof. by intros h. Qed.
Lemma ages_trans s1 s2 s3 : ages s1 s2 → ages s2 s3 → ages s1 s3.
Proof. intros H1 H2 h Hh. auto. Qed.
Lemma ages_pending s s' : pending s' = pending s → ages s s'.
Proof. intros H h. unfold dead. by rewrite H. Qed.

Lemma ages_bind {A B} (m : em A) (k : A → em B) s r s' :
  st_bind m k s = (r, s') → (∀ r1 s1, m s = (r1, s1) → ages s s1) →
  (∀ a s1 r2 s2, m s = (Ok a, s1) → k a s1 = (r2, s2) → ages s1 s2) → ages s s'.
Proof.
  intros H Hm Hk. unfold st_bind in H. destruct (m s) as [[a|e] s1] eqn:E.
  - eapply ages_trans; eauto.
  - simplify_eq. eauto.
Qed.

Lemma statement_spec fl what f s r s' :
  statement fl what f s = (r, s') → (r = Ok tt ∧ s' = f s) ∨ (s' = s ∧ ∃ e, r = Err e).
Proof. unfold statement. destruct (fl what); intros [= <- <-]; eauto. Qed.

Lemma update_spent p f l h :
  (∀ r, PendingRow.token_hash (f r) = PendingRow.token_hash r) → (∀ r, spent r → spent (f r)) →
  (∃ r, r ∈ l ∧ PendingRow.token_hash r = h ∧ ∀ r', r' ∈ l → PendingRow.token_hash r' = h → spent r') →
  ∃ r, r ∈ update p f l ∧ PendingRow.token_hash r = h
    ∧ ∀ r', r' ∈ update p f l → PendingRow.token_hash r' = h → spent r'.
Proof.
  intros Hh Hs (r&Hr&Hrh&Hall). exists (if p r then f r else r). split_and!.
  - apply elem_of_update. eauto.
  - destruct (p r); [by rewrite Hh|done].
  - intros r' (q&Hq&->)%elem_of_update Hq'. destruct (p q); [rewrite Hh in Hq'; apply Hs|]; by apply Hall.
Qed.

(** A failing or ageing step before a successful end. *)
Lemma emit_pending e s r s' : emit e s = (r, s') → pending s' = pending s ∧ control s' = control s ∧ certs s' = certs s ∧ r = Ok tt.
Proof. by intros [= <- <-]. Qed.

Lemma refuse_spec {A} peer now ev k s (r : result A EnrollError) s' :
  refuse peer now ev k s = (r, s') → pending s' = pending s ∧ ∃ e, r = Err e.
Proof. unfold refuse, st_bind, on_limiter, emit, st_err. intros [= <- <-]. eauto. Qed.

Lemma check_limit_pending peer now s r s' :
  check_enroll_rate_limit_peer peer now s = (r, s') →
  pending s' = pending s ∧ control s' = control s ∧ certs s' = certs s.
Proof.
  unfold check_enroll_rate_limit_peer. destruct (limiter s); [|by intros [= <- <-]].
  destruct (RateLimit.check _ _ _). by intros [= <- <-].
Qed.

(** A token that passes the check has a live, unexpired row. *)
Lemma check_token_spec fl now peer token s r s' :
  check_token blake3 fl now peer token s = (r, s') →
  pending s' = pending s
  ∧ ∀ row, r = Ok row → control s' = control s ∧ certs s' = certs s
      ∧ row ∈ pending s ∧ PendingRow.token_hash row = blake3 token
      ∧ ¬ spent row ∧ now ≤ as_u64 (PendingRow.expires_at row).
Proof.
  unfold check_token, st_bind. intros H.
  destruct (check_enroll_rate_limit_peer peer (now / 1000) s) as [[[]|e] s1] eqn:E1;
    apply check_limit_pending in E1 as (P1&C1&D1); [|by simplify_eq].
  destruct (statement fl "db" id s1) as [[[]|e] s2] eqn:E2;
    apply statement_spec in E2 as [[? ->]|[-> ?]]; simplify_eq; try naive_solver.
  unfold id in H. destruct (head (select (is_token (blake3 token)) (pending s1))) as [row|] eqn:Hd.
  2:{ apply refuse_spec in H as [H [e ->]]. split; [congruence|done]. }
  assert (row ∈ select (is_token (blake3 token)) (pending s1)) as [Hin Hh]%elem_of_select.
  { destruct (select _ _); simplify_eq/=. constructor. }
  apply bool_decide_eq_true in Hh. rewrite P1 in Hin.
  case_decide as H1; [apply refuse_spec in H as [H [e ->]]; split; [congruence|done]|].
  case_decide as H2; [apply refuse_spec in H as [H [e ->]]; split; [congruence|done]|].
  case_bool_decide as H3; [apply refuse_spec in H as [H [e ->]]; split; [congruence|done]|].
  simplify_eq. split; [done|]. intros row' [= <-]. split_and!; try done; [|lia].
  intros [?|?]; auto.
Qed.

(** The final state of a certificate that was issued. *)
Definition issued (now : Z) (token : bytes) (hint : string) (row : PendingRow.t) (fp : bytes) (s s' : t) : Prop :=
  let c := insert_node now (PendingRow.tenant_id row) hint (control s) in
  control s' = (if decide (is_Some (PendingRow.tenant_id row)) then bind_tenant (PendingRow.tenant_id row) hint c else c)
  ∧ certs s' = certs s ++ [CertRow.mk fp hint (as_i64 now) (as_i64 (now + CERT_TTL_MS)) None]
  ∧ pending s' = update (is_token (blake3 token)) (consume now fp) (pending s).

Lemma issue_spec fl now peer token hint csr row s r s' :
  issue blake3 issue_cert pem_contents fl now peer token hint csr row s = (r, s') →
  match r with
  | Ok resp => ∃ cert fp, issue_cert csr = Ok cert ∧ fingerprint_from_pem blake3 pem_contents cert.1 = Ok fp
      ∧ client_cert_pem resp = cert.1 ∧ issued now token hint row fp s s'
  | Err _ => pending s' = pending s
  end.
Proof.
  unfold issue, st_lift. intros H. unfold st_bind at 1 in H.
  destruct (issue_cert csr) as [cert|e]; cbn [map_err] in H; [|by simplify_eq]. unfold st_bind at 1 in H.
  destruct (fingerprint_from_pem blake3 pem_contents cert.1) as [fp|e] eqn:Hfp; cbn [map_err] in H; [|by simplify_eq].
  unfold st_bind at 1 in H. destruct (statement fl "db (node insert)" _ s) as [r1 s1] eqn:E1.
  apply statement_spec in E1 as [[-> ->]|[-> [e ->]]]; [|by simplify_eq].
  unfold st_bind at 1 in H.
  set (s1 := set_control _ s) in H.
  assert (∃ r2 s2, (if decide (is_Some (PendingRow.tenant_id row)) then statement fl "db (node tenant bind)"
       (λ s, set_control (bind_tenant (PendingRow.tenant_id row) hint (control s)) s) else st_ret tt) s1 = (r2, s2)
     ∧ pending s2 = pending s ∧ certs s2 = certs s
     ∧ (r2 = Ok tt → control s2 = (if decide (is_Some (PendingRow.tenant_id row))
          then bind_tenant (PendingRow.tenant_id row) hint (control s1) else control s1)))
    as (r2&s2&E2&P2&C2&D2).
  { case_decide; [|by eexists _, _].
    destruct (statement fl "db (node tenant bind)" _ s1) as [r2 s2] eqn:E2. eexists _, _. split; [done|].
    apply statement_spec in E2 as [[-> ->]|[-> [e ->]]]; by split_and!. }
  rewrite E2 in H. destruct r2 as [[]|e]; [|by simplify_eq]. specialize (D2 eq_refl).
  unfold st_bind at 1 in H. destruct (statement fl "db (node lookup)" id s2) as [r3 s3] eqn:E3.
  apply statement_spec in E3 as [[-> ->]|[-> [e ->]]]; [|by simplify_eq]. change (id s2) with s2 in H.
  unfold st_bind at 1 in H. destruct (statement fl "db (cert insert)" id s2) as [r4 s4] eqn:E4.
  apply statement_spec in E4 as [[-> ->]|[-> [e ->]]]; [|by simplify_eq]. change (id s2) with s2 in H.
  unfold st_bind at 1 in H.
  destruct (insert_row _ _ (certs s2)) as [cs|] eqn:Hins; [|by simplify_eq]. apply insert_row_inv in Hins.
  unfold st_bind at 1 in H. destruct (statement fl "db (token consume)" _ _) as [r5 s5] eqn:E5.
  apply statement_spec in E5 as [[-> ->]|[-> [e ->]]]; [|by simplify_eq].
  unfold st_bind, emit, on_limiter, st_ret in H. simplify_eq. cbn. exists cert, fp. split_and!; [done..|].
  unfold issued. cbn. rewrite D2, C2, P2. by split_and!.
Qed.

Lemma consume_spent now fp r : spent (consume now fp r).
Proof. left. by eexists. Qed.

Lemma consumed_dead now fp token s s' row :
  row ∈ pending s → PendingRow.token_hash row = blake3 token →
  pending s' = update (is_token (blake3 token)) (consume now fp) (pending s) → dead (blake3 token) s'.
Proof.
  intros Hin Hh Hp. unfold dead. rewrite Hp. exists (consume now fp row). split_and!.
  - apply elem_of_update. exists row. split; [done|]. unfold is_token. by rewrite bool_decide_true.
  - done.
  - intros r' (q&_&->)%elem_of_update Hq. unfold is_token in *. case_bool_decide; [apply consume_spent|done].
Qed.

Lemma enroll_spec fl now peer token hint csr s r s' :
  enroll blake3 issue_cert pem_contents fl now peer token hint csr s = (r, s') →
  ages s s'
  ∧ match r with
    | Ok resp => ∃ t row cert fp, now = Some t ∧ row ∈ pending s ∧ PendingRow.token_hash row = blake3 token
        ∧ ¬ spent row ∧ t ≤ as_u64 (PendingRow.expires_at row)
        ∧ issue_cert csr = Ok cert ∧ fingerprint_from_pem blake3 pem_contents cert.1 = Ok fp
        ∧ client_cert_pem resp = cert.1 ∧ issued t token hint row fp s s' ∧ dead (blake3 token) s'
    | Err _ => True
    end.
Proof.
  unfold enroll, st_bind, clock, st_lift. intros H.
  destruct now as [t|]; cbn [ok_or] in H; [|simplify_eq; split; [apply ages_refl|done]].
  destruct (check_token blake3 fl t peer token s) as [[row|e] s1] eqn:E1;
    apply check_token_spec in E1 as [P1 O1]; [|simplify_eq; split; [by apply ages_pending|done]].
  destruct (O1 row eq_refl) as (C1&D1&Hin&Hh&Hns&Hexp). apply issue_spec in H.
  destruct r as [resp|e]; [|split; [apply ages_pending; congruence|done]].
  destruct H as (cert&fp&Hc&Hfp&Hr&Hi). unfold issued in Hi. rewrite C1, D1, P1 in Hi. split.
  - intros h Hd. destruct Hi as (_&_&Hp). unfold dead. rewrite Hp. apply update_spent; [done| |done].
    intros r _. apply consume_spent.
  - exists t, row, cert, fp. split_and!; try done. destruct Hi as (_&_&Hp). by eapply consumed_dead.
Qed.

(** No success with a dead token. *)
Lemma enroll_dead fl now peer token hint csr s r s' :
  dead (blake3 token) s → enroll blake3 issue_cert pem_contents fl now peer token hint csr s = (r, s') → is_ok r = false.
Proof.
  intros (r0&_&_&Hall) H. apply enroll_spec in H as [_ H]. destruct r as [resp|]; [|done].
  destruct H as (t&row&cert&fp&_&Hin&Hh&Hns&_). destruct Hns. by apply Hall.
Qed.

Lemma issue_token_ages fl cfgd now token md hint field ttl s r s' :
  issue_pending_token blake3 fl cfgd now token md hint field ttl s = (r, s') → ages s s'.
Proof.
  unfold issue_pending_token, clock, st_lift. intros H. unfold st_bind at 1 in H.
  destruct (require_admin cfgd md); [|simplify_eq; apply ages_refl].
  unfold st_bind at 1 in H. destruct now as [t|]; cbn [ok_or] in H; [|simplify_eq; apply ages_refl].
  unfold st_bind at 1 in H. destruct (statement fl "db" id s) as [r1 s1] eqn:E1.
  apply statement_spec in E1 as [[-> ->]|[-> [e ->]]]; [|simplify_eq; apply ages_refl]. change (id s) with s in H.
  unfold st_bind at 1 in H. destruct (insert_row _ _ (pending s)) as [p|] eqn:Hins; [|simplify_eq; apply ages_refl].
  unfold st_bind, emit, st_ret in H. simplify_eq. intros h (r0&Hr0&Hh0&Hall). unfold dead. cbn.
  unfold insert_row in Hins. destruct (existsb _ (pending s)) eqn:Hex; [done|]. simplify_eq.
  exists r0. split_and!; [set_solver|done|]. intros r' Hr' Hh'.
  apply elem_of_app in Hr' as [Hr'|Hr']; [by apply Hall|]. apply list_elem_of_singleton in Hr' as ->. cbn in Hh'. apply not_true_iff_false in Hex. destruct Hex. apply existsb_exists. exists r0.
  rewrite <-list_elem_of_In. split; [done|]. unfold is_token. cbn. apply bool_decide_eq_true_2. congruence.
Qed.

Lemma revoke_ages fl cfgd now md token s r s' :
  revoke_pending blake3 fl cfgd now md token s = (r, s') → ages s s'.
Proof.
  unfold revoke_pending, clock, st_lift. intros H. unfold st_bind at 1 in H.
  destruct (require_admin cfgd md); [|simplify_eq; apply ages_refl].
  unfold st_bind at 1 in H. destruct now as [t|]; cbn [ok_or] in H; [|simplify_eq; apply ages_refl].
  unfold st_bind at 1 in H. destruct (statement fl "db" id s) as [r1 s1] eqn:E1.
  apply statement_spec in E1 as [[-> ->]|[-> [e ->]]]; [|simplify_eq; apply ages_refl]. change (id s) with s in H.
  assert (pending s' = update (pending_only (blake3 token)) (revoke t) (pending s)) as Hp.
  { case_bool_decide; unfold st_bind, emit, st_ret in H; by simplify_eq. }
  intros h Hd. unfold dead. rewrite Hp. apply update_spent; [done| |done].
  intros r0 _. right. by eexists.
Qed.

(** Calls of the service in sequence. *)
Inductive op :=
  | OpIssue (fl : faults) (configured : option string) (now_ms : option Z) (token : bytes)
      (md : SyncService.MetadataMap) (hint field : string) (ttl : Z)
  | OpEnroll (fl : faults) (now_ms : option Z) (peer : string) (token : bytes) (hint csr : string)
  | OpRevoke (fl : faults) (configured : option string) (now_ms : option Z)
      (md : SyncService.MetadataMap) (token : bytes).

Definition apply_op (o : op) (s : t) : option bytes * t :=
  match o with
  | OpIssue fl c now token md hint field ttl =>
      (None, (issue_pending_token blake3 fl c now token md hint field ttl s).2)
  | OpEnroll fl now peer token hint csr =>
      let '(r, s) := enroll blake3 issue_cert pem_contents fl now peer token hint csr s in
      (if is_ok r then Some (blake3 token) else None, s)
  | OpRevoke fl c now md token => (None, (revoke_pending blake3 fl c now md token s).2)
  end.

(** The token hashes of the successful enrolments of a run, in order. *)
Fixpoint enrolled (ops : list op) (s : t) : list bytes :=
  match ops with
  | [] => []
  | o :: ops => let '(x, s) := apply_op o s in
      match x with Some h => h :: enrolled ops s | None => enrolled ops s end
  end.

Lemma apply_op_ages o s : ages s (apply_op o s).2.
Proof.
  destruct o; cbn [apply_op snd].
  - eapply issue_token_ages, surjective_pairing.
  - destruct (enroll _ _ _ _ _ _ _ _ _ s) as [r s1] eqn:E. by apply enroll_spec in E as [E _].
  - eapply revoke_ages, surjective_pairing.
Qed.

Lemma apply_op_enrolled o s h s' : apply_op o s = (Some h, s') → ¬ dead h s ∧ dead h s'.
Proof.
  destruct o; cbn [apply_op]; [done| |done]. destruct (enroll _ _ _ _ _ _ _ _ _ s) as [r s1] eqn:E.
  destruct r as [resp|e] eqn:Hr; [|done]. cbn [is_ok]. intros [= <- <-]. split.
  - intros Hd. by apply (enroll_dead _ _ _ _ _ _ _ _ _ Hd) in E.
  - apply enroll_spec in E as [_ E]. naive_solver.
Qed.

Lemma dead_enrolled ops s h : dead h s → h ∉ enrolled ops s.
Proof.
  revert s. induction ops as [|o ops IH]; intros s Hd; cbn; [set_solver|].
  pose proof (apply_op_ages o s h Hd) as Hd'. destruct (apply_op o s) as [x s'] eqn:E. cbn in Hd'.
  destruct x as [h'|]; [|by apply IH]. apply apply_op_enrolled in E as [Hn _].
  intros [->|Hin]%elem_of_cons; [done|]. by apply IH in Hin.
Qed.
End steps.

Module EnrollmentTheorems.
Import Enrollment RegisterGate.

(** C24: An enrollment token works once: in any sequence of issues,
    enrolments and revocations, with any query failing, no two successful
    enrolments used the same token, and none used one that was spent at the
    start. *)
Theorem enroll_once blake3 issue_cert pem_contents ops s :
  NoDup (enrolled blake3 issue_cert pem_contents ops s)
  ∧ ∀ h, dead h s → h ∉ enrolled blake3 issue_cert pem_contents ops s.
Proof.
  split; [|intros h; apply dead_enrolled].
  revert s. induction ops as [|o ops IH]; intros s; cbn; [constructor|].
  destruct (apply_op blake3 issue_cert pem_contents o s) as [[h|] s'] eqn:E; [|apply IH].
  apply apply_op_enrolled in E as [_ Hd]. apply NoDup_cons. split; [by apply dead_enrolled|apply IH].
Qed.

Lemma find_node_insert now tenant hint c :
  ∃ r, r ∈ nodes (insert_node now tenant hint c) ∧ NodeRow.node_id r = hint.
Proof.
  unfold insert_node. destruct (existsb (ControlDb.is_node hint) (nodes c)) eqn:E.
  - apply existsb_exists in E as (r&Hr&Hn). exists r. rewrite list_elem_of_In. split; [done|].
    by apply bool_decide_eq_true in Hn.
  - eexists. split; [cbn; apply elem_of_app; right; constructor|done].
Qed.

(** A successful enrolment opens the register gate for its node and only
    it: the token was live, unexpired and is spent now; for the next ninety
    days the issued certificate is accepted for the named node, as long as no
    row of that node is revoked, and for no other. *)
Theorem enroll_opens_gate blake3 issue_cert pem_contents fl now peer token hint csr s resp s' fp cert :
  0 ≤ now < 2 ^ 62 →
  enroll blake3 issue_cert pem_contents fl (Some now) peer token hint csr s = (Ok resp, s') →
  issue_cert csr = Ok cert → fingerprint_from_pem blake3 pem_contents cert.1 = Ok fp →
  ¬ dead (blake3 token) s ∧ dead (blake3 token) s'
  ∧ (∀ t admin md, t < now + CERT_TTL_MS →
       (∀ r, r ∈ nodes (control s') → NodeRow.node_id r = hint → NodeRow.revoked r = 0) →
       check_register_gate Enrolled t None (Some s') admin md (Some fp) hint = Ok tt)
  ∧ (∀ t admin md node, (∀ c, c ∈ certs s → CertRow.cert_fingerprint c ≠ fp) → node ≠ hint →
       is_ok (check_register_gate Enrolled t None (Some s') admin md (Some fp) node) = false).
Proof.
  intros Hnow He Hcert Hfp.
  assert (¬ dead (blake3 token) s) as Hnd.
  { intros Hd. by apply (enroll_dead _ _ _ _ _ _ _ _ _ _ _ _ Hd) in He. }
  apply enroll_spec in He as (_&t0&row&cert'&fp'&[= <-]&_&_&_&_&Hc'&Hf'&_&(Hctl&Hcerts&_)&Hdead).
  rewrite Hcert in Hc'. injection Hc' as <-. rewrite Hfp in Hf'. injection Hf' as <-.
  assert (∃ r, r ∈ nodes (control s') ∧ NodeRow.node_id r = hint) as (nr&Hnr&Hnid).
  { rewrite Hctl. destruct (find_node_insert now (PendingRow.tenant_id row) hint (control s)) as (r&Hr&Hid).
    case_decide; [|eauto]. unfold bind_tenant. cbn.
    eexists. split; [apply elem_of_update; by exists r|]. by destruct (ControlDb.is_node hint r). }
  split_and!; [done..| |].
  - intros t admin md Ht Hrev. cbn. unfold verify_enrolled_register, enrolled_row.
    assert (existsb (λ c, bool_decide (CertRow.cert_fingerprint c = fp) && bool_decide (CertRow.revoked_at c = None)
      && bool_decide (t < CertRow.expires_at c)
      && existsb (λ n, bool_decide (NodeRow.node_id n = CertRow.node c) && bool_decide (NodeRow.node_id n = hint)
           && bool_decide (NodeRow.revoked n = 0)) (nodes (control s'))) (certs s') = true) as ->; [|done].
    apply existsb_exists. eexists. split; [apply list_elem_of_In; rewrite Hcerts; apply elem_of_app; right; constructor|].
    cbn. rewrite (as_i64_id (now + CERT_TTL_MS)) by (unfold_ints; unfold CERT_TTL_MS; lia).
    rewrite !bool_decide_true by done. apply existsb_exists. exists nr.
    split; [by apply list_elem_of_In|]. rewrite !bool_decide_true by auto. done.
  - intros t admin md node Hfresh Hne. cbn. unfold verify_enrolled_register.
    destruct (enrolled_row t fp node s') eqn:E; [|done]. exfalso. unfold enrolled_row in E.
    apply existsb_exists in E as (c&Hc%list_elem_of_In&Hb).
    apply andb_true_iff in Hb as [[[Hb1%bool_decide_eq_true _]%andb_true_iff _]%andb_true_iff Hb].
    rewrite Hcerts in Hc. apply elem_of_app in Hc as [Hc|Hc]; [by apply Hfresh in Hc|].
    apply list_elem_of_singleton in Hc as ->.
    apply existsb_exists in Hb as (n&_&Hb). cbn in Hb.
    apply andb_true_iff in Hb as [[H1%bool_decide_eq_true H2%bool_decide_eq_true]%andb_true_iff _]. congruence.
Qed.

Definition demo_blake3 : bytes → bytes := λ b, take 32 (b ++ replicate 32 Byte.x07).
Definition demo_ca : string → result (bytes * bytes) string := λ csr, Ok (String.list_byte_of_string csr, []).
Definition demo_pem : bytes → result bytes string := λ b, Ok b.
Definition no_faults : faults := λ _, None.
Definition demo_node (node : string) (tenant : option string) : NodeRow.t :=
  NodeRow.mk tenant node (Some node) (Some "linux") (demo_blake3 []) 5 0.
Definition demo_state (tenant : option string) (ns : list NodeRow.t) : Enrollment.t :=
  Enrollment.mk (mkControl ns [] ∅)
    [PendingRow.mk (demo_blake3 [Byte.x01]) "a" 0 1000 None None None tenant] [] None [].
Definition demo_enroll (hint : string) (s : Enrollment.t) :=
  enroll demo_blake3 demo_ca demo_pem no_faults (Some 500) "peer" [Byte.x01] hint "csr" s.

Lemma enroll_opens_gate_witness :
  check_register_gate Enrolled 700 None (Some (demo_enroll "a" (demo_state None [])).2) None ∅
    (Some (demo_blake3 (String.list_byte_of_string "csr"))) "a" = Ok tt.
Proof.
  eapply (enroll_opens_gate demo_blake3 demo_ca demo_pem no_faults 500 "peer" [Byte.x01] "a" "csr" (demo_state None [])).
  - lia.
  - vm_compute. reflexivity.
  - reflexivity.
  - reflexivity.
  - vm_compute. reflexivity.
  - intros r Hr _. vm_compute in Hr. apply list_elem_of_singleton in Hr as ->. reflexivity.
Defined.

Lemma collect_results_all {A B E} (f : A → result B E) l ys x :
  collect_results f l = Ok ys → x ∈ l → ∃ y, f x = Ok y.
Proof.
  intros H%collect_results_inv Hx. induction H as [|x' y l ys Hf _ IH]; [set_solver|].
  apply elem_of_cons in Hx as [->|Hx]; eauto.
Qed.

(** An enrolment before the first registration stops the server from
    starting: the placeholder node row has an empty API key hash, which the
    start-up's loading of nodes rejects for the whole table, until the node
    registers. *)
Theorem enroll_breaks_boot blake3 issue_cert pem_contents fl now peer token hint csr s resp s' st :
  enroll blake3 issue_cert pem_contents fl now peer token hint csr s = (Ok resp, s') →
  existsb (ControlDb.is_node hint) (nodes (control s)) = false →
  is_ok (AuthService.boot st (control s')) = false.
Proof.
  intros He Hnew. apply enroll_spec in He as (_&t0&row&cert&fp&->&_&_&_&_&_&_&_&(Hctl&_&_)&_).
  assert (∃ r, r ∈ nodes (control s') ∧ NodeRow.revoked r = 0 ∧ NodeRow.api_key_hash r = []) as (r&Hr&Hrev&Hk).
  { rewrite Hctl. unfold insert_node. rewrite Hnew.
    set (nr := NodeRow.mk _ _ _ _ [] _ 0).
    assert (nr ∈ nodes (ControlDb.set_nodes (λ l, l ++ [nr]) (control s))) as Hin
      by (cbn; apply elem_of_app; right; constructor).
    case_decide; [|eauto]. unfold bind_tenant.
    eexists. split; [cbn; apply elem_of_update; exists nr; split; [exact Hin|reflexivity]|].
    by destruct (ControlDb.is_node hint nr). }
  unfold AuthService.boot, ControlDb.list_active_auth_nodes. cbn.
  destruct (collect_results _ _) as [ys|e] eqn:E; [|done]. exfalso.
  apply (collect_results_all _ _ _ r) in E as [y Hy].
  - unfold ControlDb.row_to_auth_node in Hy. rewrite Hk in Hy. by case_decide.
  - apply elem_of_sort_by, elem_of_select. split; [done|]. by apply bool_decide_eq_true_2.
Qed.

Lemma enroll_breaks_boot_witness :
  is_ok (AuthService.boot AuthStore.new (control (demo_enroll "a" (demo_state None [demo_node "z" None])).2)) = false
  ∧ is_ok (AuthService.boot AuthStore.new (control (demo_state None [demo_node "z" None]))) = true.
Proof.
  split; [|vm_compute; reflexivity].
  eapply (enroll_breaks_boot demo_blake3 demo_ca demo_pem no_faults (Some 500) "peer" [Byte.x01] "a" "csr"
    (demo_state None [demo_node "z" None])); vm_compute; reflexivity.
Defined.

(** A token is not bound to the node it was issued for: the name the
    caller gives decides. A token issued for node [a] by tenant [evil] yields a
    certificate the gate accepts for node [b], and moves [b] to that tenant. *)
Theorem enroll_ignores_hint :
  let s := demo_state (Some "evil") [demo_node "b" (Some "acme")] in
  let '(r, s') := demo_enroll "b" s in
  is_ok r = true
  ∧ (PendingRow.node_id_hint <$> pending s = ["a"])
  ∧ check_register_gate Enrolled 700 None (Some s') None ∅
      (Some (demo_blake3 (String.list_byte_of_string "csr"))) "b" = Ok tt
  ∧ (NodeRow.tenant_id <$> nodes (control s) = [Some "acme"])
  ∧ (NodeRow.tenant_id <$> nodes (control s') = [Some "evil"]).
Proof. vm_compute. done. Qed.

(** The check of a token and its consumption are separate queries: two calls
    that interleave turn one token into two certificates. *)
Lemma enroll_race :
  let s := demo_state None [] in
  let '(r, s') :=
    (row1 <~ check_token demo_blake3 no_faults 500 "p" [Byte.x01] ;;
     row2 <~ check_token demo_blake3 no_faults 500 "q" [Byte.x01] ;;
     _ <~ issue demo_blake3 demo_ca demo_pem no_faults 500 "p" [Byte.x01] "a" "csr1" row1 ;;
     issue demo_blake3 demo_ca demo_pem no_faults 500 "q" [Byte.x01] "b" "csr2" row2) s in
  is_ok r = true ∧ (CertRow.node <$> certs s' = ["a"; "b"]).
Proof. vm_compute. done. Qed.

Lemma Forall2_elem_l {A B} (R : A → B → Prop) l k x : Forall2 R l k → x ∈ l → ∃ y, y ∈ k ∧ R x y.
Proof.
  induction 1 as [|x' y l k Hxy _ IH]; [set_solver|]. intros [->|Hx]%elem_of_cons; [exists y; split; [constructor|done]|].
  destruct (IH Hx) as (z&?&?). exists z. split; [by constructor|done].
Qed.

Lemma Forall2_elem_r {A B} (R : A → B → Prop) l k y : Forall2 R l k → y ∈ k → ∃ x, x ∈ l ∧ R x y.
Proof. intros H%Forall2_flip Hy. exact (Forall2_elem_l _ _ _ _ H Hy). Qed.

(** Loading rows that all carry the same key for a node gives it that key. *)
Lemma hydrate_lookup rows st node hash :
  (∀ r, r ∈ rows → AuthNodeRow.node_id r = node → AuthNodeRow.api_key_hash r = hash) →
  (∃ e, AuthStore.nodes st !! node = Some e ∧ AuthStore.api_key_hash e = hash)
  ∨ (AuthStore.nodes st !! node = None ∧ ∃ r, r ∈ rows ∧ AuthNodeRow.node_id r = node) →
  ∃ e, AuthStore.nodes (AuthService.hydrate rows st) !! node = Some e ∧ AuthStore.api_key_hash e = hash.
Proof.
  revert st. induction rows as [|r rows IH]; intros st Hall Hst; cbn.
  { destruct Hst as [?|(_&r&Hr&_)]; [done|set_solver]. }
  apply IH; [intros; apply Hall; [by constructor|done]|]. unfold AuthStore.hydrate_node.
  destruct (AuthStore.nodes st !! AuthNodeRow.node_id r) as [e0|] eqn:E; cbn.
  - destruct Hst as [?|(Hn&r'&Hr'&Hid)]; [by left|right]. split; [done|].
    apply elem_of_cons in Hr' as [->|Hr']; [congruence|eauto].
  - destruct (decide (AuthNodeRow.node_id r = node)) as [Hid|Hid].
    + left. eexists. split; [rewrite Hid; apply lookup_insert_eq|]. cbn. apply Hall; [constructor|done].
    + destruct Hst as [(e&He&Hh)|(Hn&r'&Hr'&Hid')].
      * left. exists e. by rewrite lookup_insert_ne.
      * right. rewrite lookup_insert_ne by done. split; [done|].
        apply elem_of_cons in Hr' as [->|Hr']; [done|eauto].
Qed.

Lemma hydrate_limiter rows st : AuthStore.limiter (AuthService.hydrate rows st) = AuthStore.limiter st.
Proof.
  unfold AuthService.hydrate. revert st. induction rows as [|r rows IH]; intros st; [done|]. cbn [foldl].
  rewrite IH. unfold AuthStore.hydrate_node. by destruct (AuthStore.nodes st !! _).
Qed.

Lemma upsert_node_rows now node tenant hash d p db :
  let db' := (ControlDb.upsert_node_tenant now node tenant hash d p db).2 in
  (∀ r, r ∈ nodes db' → NodeRow.node_id r = node → NodeRow.api_key_hash r = hash)
  ∧ ∃ r, r ∈ nodes db' ∧ NodeRow.node_id r = node
      ∧ (NodeRow.revoked r = 0 ∨ ∃ r0, r0 ∈ nodes db ∧ NodeRow.node_id r0 = node ∧ NodeRow.revoked r = NodeRow.revoked r0).
Proof.
  unfold ControlDb.upsert_node_tenant. case_bool_decide as Ha; cbn.
  - split.
    + intros r (q&Hq&->)%elem_of_update. unfold ControlDb.is_node. by case_bool_decide.
    + apply Nat.neq_0_lt_0 in Ha. unfold affected in Ha.
      destruct (select (ControlDb.is_node node) (nodes db)) as [|q l] eqn:E; [done|].
      assert (q ∈ select (ControlDb.is_node node) (nodes db)) as [Hq Hn]%elem_of_select by (rewrite E; constructor).
      eexists. split; [apply elem_of_update; by exists q|]. rewrite Hn. cbn.
      apply bool_decide_eq_true in Hn. split; [done|]. right. by exists q.
  - assert (affected (ControlDb.is_node node) (nodes db) = 0%nat) as H0 by lia. rewrite affected_0 in H0. split.
    + intros r [Hr|Hr]%elem_of_app Hid.
      * apply H0 in Hr. by apply bool_decide_eq_false in Hr.
      * by apply list_elem_of_singleton in Hr as ->.
    + eexists. split; [apply elem_of_app; right; constructor|]. auto.
Qed.

(** A registration survives a restart: when the server that stored it
    starts again, the API key it gave out still opens a session of that node. *)
Theorem register_survives_restart blake3 base32 cfg now_ms now now_row now' fault raw md cert req s resp s' st t t' raw' :
  AuthService.with_meta_db cfg = true → (∀ b, hash32 (blake3 b)) →
  AuthService.register_node blake3 base32 cfg now_ms now now_row now' fault raw md cert req s = (Ok resp, s') →
  (∀ r, r ∈ nodes (control (AuthService.pool s)) →
     NodeRow.node_id r = AuthService.assigned_id resp → NodeRow.revoked r = 0) →
  AuthService.boot AuthStore.new (control (AuthService.pool s')) = Ok st →
  ∃ token exp st', AuthStore.authenticate blake3 base32 t t' raw' (AuthService.assigned_id resp)
      (AuthService.api_key resp) st = (Ok (token, exp), st')
    ∧ AuthStore.session_node <$> AuthStore.sessions st' !! token = Some (AuthService.assigned_id resp).
Proof.
  intros Hdb Hlen Hreg Hrev Hboot. unfold AuthService.register_node in Hreg.
  set (node := trim (AuthService.req_node_id req)) in Hreg. case_decide; [done|].
  apply st_bind_ok in Hreg as (u1&s1&H1&Hreg). apply st_lift_ok in H1 as [_ ->].
  apply st_bind_ok in Hreg as (u2&s2&H2&Hreg). apply st_lift_ok in H2 as [_ ->].
  destruct (AuthStore.register_node _ _ _ _ _ _ _ _ _) as [[key|e] st1] eqn:Er; [|by destruct e].
  apply st_bind_ok in Hreg as (u3&s3&H3&Hreg). rewrite Hdb in H3.
  destruct (ControlDb.upsert_node_tenant _ _ _ _ _ _ _) as [r3 c3] eqn:Eu.
  unfold st_ret in Hreg. injection H3 as Hr3 <-. injection Hreg as <- <-.
  cbn [AuthService.pool AuthService.set_pool AuthService.set_store control set_control
    AuthService.assigned_id AuthService.api_key] in Hrev, Hboot |- *.
  pose proof (upsert_node_rows now_row node
    (Tenant.resolve_tenant_id (SyncService.header md "x-disk-tenant") (AuthService.req_tenant_id req))
    (ApiKey.hash blake3 key) (trim (AuthService.req_display_name req)) (trim (AuthService.req_platform req))
    (control (AuthService.pool s))) as Hrows.
  cbn in Eu. rewrite Eu in Hrows. cbv zeta in Hrows. cbn [snd] in Hrows. destruct Hrows as [Hall (nr&Hnr&Hnid&Hnrev)].
  assert (NodeRow.revoked nr = 0) as Hact by (destruct Hnrev as [?|(r0&Hr0&Hid0&->)]; auto).
  unfold AuthService.boot, ControlDb.list_active_auth_nodes, res_bind in Hboot. cbn [fst] in Hboot.
  destruct (collect_results _ _) as [rows|e] eqn:Ec; [|done]. injection Hboot as <-.
  apply collect_results_inv in Ec as Hf.
  assert (∀ r, r ∈ rows → ∃ x, x ∈ nodes c3 ∧ AuthNodeRow.node_id r = NodeRow.node_id x
            ∧ AuthNodeRow.api_key_hash r = NodeRow.api_key_hash x) as Hback.
  { intros r Hr. destruct (Forall2_elem_r _ _ _ _ Hf Hr) as (x&Hx&Hxr).
    apply elem_of_sort_by, elem_of_select in Hx as [Hx _]. exists x. split; [done|].
    unfold ControlDb.row_to_auth_node in Hxr. case_decide; by simplify_eq. }
  destruct (hydrate_lookup rows AuthStore.new node (ApiKey.hash blake3 key)) as (e&He&Hh).
  { intros r Hr Hid. destruct (Hback r Hr) as (x&Hx&Hi&->). apply Hall; [done|congruence]. }
  { right. split; [done|].
    assert (nr ∈ sort_by (λ a b, bool_decide (NodeRow.registered_at a ≤ NodeRow.registered_at b))
              (select (λ r, bool_decide (NodeRow.revoked r = 0)) (nodes c3))) as Hin.
    { apply elem_of_sort_by, elem_of_select. split; [done|]. by apply bool_decide_eq_true_2. }
    destruct (Forall2_elem_l _ _ _ _ Hf Hin) as (r&Hr&Hxr). exists r. split; [done|].
    unfold ControlDb.row_to_auth_node in Hxr. case_decide; by simplify_eq. }
  assert (AuthStore.limiter (AuthService.hydrate rows AuthStore.new) = Some RateLimit.default) as Hl
    by apply hydrate_limiter.
  set (hs := AuthService.hydrate rows AuthStore.new) in *. clearbody hs.
  unfold AuthStore.authenticate, AuthStore.limiter_check. rewrite Hl.
  assert (RateLimit.check node t RateLimit.default = (Ok tt, RateLimit.default)) as -> by reflexivity.
  cbn -[ApiKey.verify]. rewrite He. unfold ApiKey.verify. rewrite Hh, bool_decide_true by done.
  eexists _, _, _. split; [reflexivity|]. cbn. by rewrite lookup_insert_eq.
Qed.

Definition demo_base32 : bytes → string := λ b, String.string_of_list_byte b.
Definition demo_cfg (q : option QuotaEnforcer.t) : AuthService.config :=
  {| AuthService.register_mode := Open; AuthService.admin_token := None;
     AuthService.quota_enforcer := q; AuthService.with_meta_db := true |}.
Definition demo_req (tenant : string) : AuthService.NodeRegisterRequest :=
  AuthService.Build_NodeRegisterRequest " laptop " "Laptop" "linux" tenant.
Definition demo_auth : AuthService.t :=
  AuthService.mk AuthStore.new (Enrollment.mk (mkControl [demo_node "z" None] [] ∅) [] [] None []) empty_db.
Definition demo_register := AuthService.register_node demo_blake3 demo_base32 (demo_cfg None) 0 1 1 1 None
  [Byte.x41] ∅ None (demo_req "acme") demo_auth.

Lemma register_survives_restart_witness :
  ∃ token exp st', AuthStore.authenticate demo_blake3 demo_base32 9 9 [Byte.x42] "laptop" "arc_disk_A"
      (match AuthService.boot AuthStore.new (control (AuthService.pool demo_register.2)) with
       | Ok st => st | Err _ => AuthStore.new end) = (Ok (token, exp), st')
    ∧ AuthStore.session_node <$> AuthStore.sessions st' !! token = Some "laptop".
Proof.
  apply (register_survives_restart demo_blake3 demo_base32 (demo_cfg None) 0 1 1 1 None [Byte.x41] ∅ None
    (demo_req "acme") demo_auth (AuthService.Build_NodeRegisterResponse "arc_disk_A" "laptop" 1) demo_register.2
    (match AuthService.boot AuthStore.new (control (AuthService.pool demo_register.2)) with
     | Ok st => st | Err _ => AuthStore.new end) 9 9 [Byte.x42]).
  - reflexivity.
  - intros b. unfold hash32, demo_blake3. rewrite length_take, length_app, length_replicate. lia.
  - vm_compute. reflexivity.
  - intros r Hr. vm_compute in Hr. by apply list_elem_of_singleton in Hr as ->.
  - vm_compute. reflexivity.
Defined.

(** The node quota counts the nodes of every tenant: with room for one
    node per tenant, a tenant that has none is refused because another tenant's
    node is registered. *)
Theorem node_quota_counts_all_tenants :
  let limits := QuotaLimits.mk 1000 1 1 in
  let enforcer := QuotaEnforcer.mk BillingMode.Enforce PlanTier.Free (Some limits) in
  let '(r1, s1) := AuthService.register_node demo_blake3 demo_base32 (demo_cfg (Some enforcer)) 0 1 1 1 None
    [Byte.x41] ∅ None (demo_req "acme") demo_auth in
  let other := AuthService.Build_NodeRegisterRequest "desktop" "Desktop" "linux" "globex" in
  let '(r2, s2) := AuthService.register_node demo_blake3 demo_base32 (demo_cfg (Some enforcer)) 0 2 2 2 None
    [Byte.x42] ∅ None other s1 in
  is_ok r1 = true
  ∧ r2 = Err (Proto.QuotaExceeded "node quota" (Quota.NodesExceeded 1 1))
  ∧ map_to_list (AuthStore.tenant_id <$> AuthStore.nodes (AuthService.store s2)) = [("laptop", Some "acme")].
Proof. vm_compute. done. Qed.
End EnrollmentTheorems.
