(* ===== verification/ShareIndex.v ===== *)
(** * The share index ([disk-server/src/share_index/mod.rs])

    Files under a share root are also written outside [delta_upload]; a
    watcher per root turns file system events into index updates, and a full
    reconciliation recovers the events a full channel dropped. The operating
    system is a parameter: [view n] is what its queries answer at the [n]-th
    call of the index, so a file may come and go between any two calls, and
    any statement of the database may fail. *)

From stdpp Require Import prelude gmap strings.
From Stdlib Require Import ZArith Lia Strings.Ascii Strings.Byte.
From S2P Require Import Prelude Text PathFacts VectorClock Types Fs Guard Scanner Sql MetaDb MetaFiles.

#[local] Open Scope Z_scope.

(** ** Standard library: path prefixes *)
Module PathStrip.
Import Path.

(** [Path::strip_prefix] on absolute paths: what follows the components of
    [base] keeps its spelling, less the separators and [.] segments at its
    two ends. *)
Fixpoint skip (n : nat) (segs : list string) : list string :=
  match segs with
  | [] => []
  | s :: l => if is_junk s then skip n l
              else match n with O => segs | S n => skip n l end
  end.

Definition strip_prefix (p base : string) : option string :=
  if path_starts_with p base then
    Some (join_with sep (reverse (drop_junk (reverse
            (skip (length (components base) - 1) (tail (segments p)))))))
  else None.

Example strip_ex1 : strip_prefix "/srv/kb//a//b/./" "/srv/kb" = Some "a//b".
Proof. reflexivity. Qed.
Example strip_ex2 : strip_prefix "/srv/kb" "/srv/kb/" = Some "".
Proof. reflexivity. Qed.
Example strip_ex3 : strip_prefix "/srv/kb2/a" "/srv/kb" = None.
Proof. reflexivity. Qed.
End PathStrip.

(** ** Events *)
Module Notify.
(** [notify::event::EventKind], with the parts the index distinguishes. *)
Inductive RenameMode := ModeAny | To | From_ | Both | ModeOther.
Inductive ModifyKind := ModAny | Data | Metadata | Name (m : RenameMode) | ModOther.
Inductive RemoveKind := RemAny | RemFile | RemFolder | RemOther.
Inductive EventKind := Any | Access | Create | Modify (m : ModifyKind) | Remove (r : RemoveKind) | Other.

Record Event := { kind : EventKind; paths : list string }.
End Notify.

Module ShareIndex.
Import Path.

Inductive IndexEventKind := Upsert | Tombstone.
Record IndexEvent := { vault_id : string; abs_path : string; kind : IndexEventKind }.

Inductive ShareIndexError :=
  | MissingRoot (root : string)
  | ConfiguredRootsUnavailable (configured available : nat)
  | WatcherStartup (msg : string)
  | NotifyErr (msg : string)
  | MetaDbErr (e : MetaDbError)
  | ScannerErr (e : Scanner.ScannerError)
  | Io (path : string) (source : Fs.io_error).

(** ** The operating system *)
Inductive FileType := File | Dir | Symlink | Special.
#[global] Instance FileType_eq_dec : EqDecision FileType.
Proof. solve_decision. Defined.

Record Metadata := { file_type : FileType; len : Z; mtime : Z; mtime_nsec : Z }.
Record DirEntry := { entry_path : string; entry_type : result FileType Fs.io_error }.

(** What the calls answer at one moment, with the kind of the error when they
    fail. [digest] is [hash_file]. *)
Record View := {
  symlink_metadata : string → result Metadata Fs.io_error;
  metadata : string → result Metadata Fs.io_error;
  canonicalize : string → result string Fs.io_error;
  read_dir : string → result (list (result DirEntry Fs.io_error)) Fs.io_error;
  digest : string → result bytes string;
  file_id : string → option Scanner.FileId;
  is_dir : string → bool
}.

Record Env := {
  view : nat → View;
  unix_now : nat → Z;
  db_fault : nat → option MetaDbError
}.

Record st := mk { db : MetaDb; calls : nat }.
Abbreviation m := (stm st ShareIndexError).

(** [HashMap<String, PathBuf>] in its iteration order, which no operation
    here changes. *)
Abbreviation roots := (list (string * string)).

Definition INTERNAL_DIR_NAMES : list string := [".version-blobs"].

Definition is_internal_component (c : component) : bool :=
  match c with Normal name => bool_decide (name ∈ INTERNAL_DIR_NAMES) | _ => false end.

Definition is_internal_path (root path : string) : bool :=
  match PathStrip.strip_prefix path root with
  | None => false
  | Some rel => existsb is_internal_component (components rel)
  end.

(** ** Watcher start-up *)
Definition sync_root_is_unwatched (share_roots : roots) (sync_root : string) : bool :=
  negb (existsb (λ r, path_eqb r.2 sync_root) share_roots).

Definition canonicalize_roots (v : View) (share_roots : roots) : roots :=
  omap (λ r, match canonicalize v r.2 with Ok c => Some (r.1, c) | Err _ => None end) share_roots.

Inductive WatcherBackend := Native | Poll.
Record ArmedWatcher := { backend : WatcherBackend; native_failure : option string }.

(** What arming each of the two backends answers. *)
Definition native_or_poll (native poll : result unit string) : result ArmedWatcher (string * string) :=
  match native with
  | Ok _ => Ok {| backend := Native; native_failure := None |}
  | Err native_error =>
      match poll with
      | Ok _ => Ok {| backend := Poll; native_failure := Some native_error |}
      | Err poll_error => Err (native_error, poll_error)
      end
  end.

(** The checks of [spawn_share_index_watcher] and what it hands to the index
    loop: the canonical roots; [None] when there is nothing to watch. An
    answer that does not come before the deadline is a missing element of
    [starts]. *)
Fixpoint startup (n : nat) (starts : list (string * result ArmedWatcher (string * string)))
    : list string :=
  match n, starts with
  | O, _ => []
  | S _, [] => ["timed out waiting on channel"]
  | S n, (v, Ok _) :: starts => startup n starts
  | S n, (v, Err (native, poll)) :: starts =>
      (v +:+ ": native watcher failed: " +:+ native +:+ "; poll watcher failed: " +:+ poll)
      :: startup n starts
  end.

Definition join_msgs (l : list string) : string :=
  match l with [] => "" | s :: l => foldl (λ a b, a +:+ "; " +:+ b) s l end.

Definition spawn_share_index_watcher (v : View) (share_roots : roots)
    (starts : list (string * result ArmedWatcher (string * string)))
    : result (option roots) ShareIndexError :=
  if decide (share_roots = []) then Ok None
  else
    let canonical := canonicalize_roots v share_roots in
    if negb (bool_decide (length canonical = length share_roots))
       || existsb (λ r, negb (is_dir v r.2)) share_roots
    then Err (ConfiguredRootsUnavailable (length share_roots) (length canonical))
    else match startup (length share_roots) starts with
         | [] => Ok (Some canonical)
         | fails => Err (WatcherStartup (join_msgs fails))
         end.

(** ** From notifications to index events *)
Definition event_kind (k : Notify.EventKind) : option IndexEventKind :=
  match k with
  | Notify.Create | Notify.Modify _ => Some Upsert
  | Notify.Remove _ => Some Tombstone
  | Notify.Any | Notify.Access | Notify.Other => None
  end.

Definition per_path_kind (k : Notify.EventKind) (i : nat) (kind : IndexEventKind) : IndexEventKind :=
  match k with
  | Notify.Modify (Notify.Name Notify.From_) => Tombstone
  | Notify.Modify (Notify.Name Notify.Both) => match i with O => Tombstone | S _ => Upsert end
  | _ => kind
  end.

Definition translate_notify_event (ev : Notify.Event) (vault root : string) : list IndexEvent :=
  match event_kind (Notify.kind ev) with
  | None => []
  | Some kind =>
      omap (λ '(i, p),
        if path_starts_with p root && negb (is_internal_path root p)
        then Some {| vault_id := vault; abs_path := p;
                     kind := per_path_kind (Notify.kind ev) i kind |}
        else None) (zip (seq 0 (length (Notify.paths ev))) (Notify.paths ev))
  end.

Section with_env.
Context {codec : VcCodec} (env : Env).

Definition bump (s : st) : st := mk (db s) (S (calls s)).

(** One query of the file system, one statement of the database, and a
    reading of the clock. *)
Definition sys {A} (f : View → A) : m A := λ s, (Ok (f (view env (calls s))), bump s).
Definition io_at {A} (p : string) (f : View → result A Fs.io_error) : m A :=
  r <~ sys f ;; st_lift (map_err (Io p) r).
Definition db_call {A} (q : dbm A) : m A := λ s,
  match db_fault env (calls s) with
  | Some e => (Err (MetaDbErr e), bump s)
  | None => let '(r, d) := q (db s) in (map_err MetaDbErr r, mk d (S (calls s)))
  end.
Definition now : m Z := λ s, (Ok (unix_now env (calls s)), s).

(** [if let Err(e) = .. { tracing::warn!(..) }]. *)
Definition warn {A} (c : m A) : m unit := λ s, (Ok tt, (c s).2).

(** ** Walking a root

    A path of more than [PATH_MAX] bytes cannot be opened, so the recursion is
    at most that deep. *)
Definition PATH_MAX : nat := 4096.

(** The loop over the entries of [dir]; [walk] is the recursive call. *)
Fixpoint walk_entries (walk : string → m (list string)) (root dir : string)
    (es : list (result DirEntry Fs.io_error)) : m (list string) :=
  match es with
  | [] => st_ret []
  | e :: es =>
      entry <~ st_lift (map_err (Io dir) e) ;;
      ft <~ st_lift (map_err (Io (entry_path entry)) (entry_type entry)) ;;
      found <~ (if decide (ft = Symlink) then st_ret []
                else if is_internal_path root (entry_path entry) then st_ret []
                else if decide (ft = File) then
                  c <~ io_at (entry_path entry) (λ v, canonicalize v (entry_path entry)) ;;
                  st_ret (if path_starts_with c dir then [c] else [])
                else if decide (ft = Dir) then
                  c <~ io_at (entry_path entry) (λ v, canonicalize v (entry_path entry)) ;;
                  if path_starts_with c dir then walk c else st_ret []
                else st_ret []) ;;
      rest <~ walk_entries walk root dir es ;;
      st_ret (found ++ rest)
  end.

Fixpoint walk_files_impl (fuel : nat) (root dir : string) : m (list string) :=
  match fuel with
  | O => st_err (Io dir (Fs.IoError Fs.OtherKind "File name too long"))
  | S fuel =>
      entries <~ io_at dir (λ v, read_dir v dir) ;;
      walk_entries (walk_files_impl fuel root) root dir entries
  end.

Definition walk_files (root : string) : m (list string) := walk_files_impl PATH_MAX root root.

(** ** One file *)
Definition resolve_present_file (root abs : string) : m (option string) :=
  meta <~ sys (λ v, symlink_metadata v abs) ;;
  match meta with
  | Err _ => st_ret None
  | Ok md =>
      if negb (bool_decide (file_type md = File)) then st_ret None
      else if negb (path_starts_with abs root) then st_ret None
      else
        c <~ sys (λ v, canonicalize v abs) ;;
        st_ret (match c with
                | Ok c => if path_starts_with c root then Some c else None
                | Err _ => None
                end)
  end.

(** [for attempt in 0..6]; the sleeps are the calls in between. *)
Fixpoint resolve_attempts (n : nat) (root abs : string) : m (option string) :=
  match n with
  | O => st_ret None
  | S n =>
      meta <~ sys (λ v, symlink_metadata v abs) ;;
      match meta with
      | Err _ => resolve_attempts n root abs
      | Ok md =>
          if negb (bool_decide (file_type md = File)) then st_ret None
          else if path_starts_with abs root then
            c <~ sys (λ v, canonicalize v abs) ;;
            match c with
            | Ok c => if path_starts_with c root then st_ret (Some c) else resolve_attempts n root abs
            | Err _ => resolve_attempts n root abs
            end
          else resolve_attempts n root abs
      end
  end.
Definition resolve_existing_file (root abs : string) : m (option string) :=
  resolve_attempts 6 root abs.

Definition upsert_local_file (vault node_id root abs : string) : m unit :=
  entry <~ resolve_existing_file root abs ;;
  match entry with
  | None => st_ret tt
  | Some canonical =>
      if negb (path_starts_with canonical root) then st_ret tt
      else
        ft <~ io_at canonical (λ v, symlink_metadata v canonical) ;;
        if negb (bool_decide (file_type ft = File)) then st_ret tt
        else
          rel <~ st_lift (ok_or (PathStrip.strip_prefix canonical root) (MissingRoot root)) ;;
          if decide (rel = "") then st_ret tt
          else
            md <~ io_at canonical (λ v, metadata v canonical) ;;
            h <~ sys (λ v, digest v canonical) ;;
            h <~ st_lift (map_err (λ e, ScannerErr (Scanner.Io e)) h) ;;
            ino <~ sys (λ v, Scanner.encode_file_id <$> file_id v canonical) ;;
            t <~ now ;;
            db_call (MetaFiles.upsert_file_scoped t None vault
              (FileMeta.mk rel h (len md) (Scanner.mtime_nanos (mtime md) (mtime_nsec md)) ino
                 VC.new false None node_id None None None))
  end.

Definition zero_hash : bytes := replicate 32 Byte.x00.

Definition tombstone_of (rel node_id : string) (now_secs : Z) (existing : option FileMeta) : FileMeta :=
  match existing with
  | Some row => FileMeta.set_deleted true (Some now_secs) row
  | None => FileMeta.mk rel zero_hash 0 0 None VC.new true (Some now_secs) node_id None None None
  end.

Definition tombstone_local_file (vault node_id root abs : string) : m unit :=
  rel <~ match PathStrip.strip_prefix abs root with
         | Some r => st_ret r
         | None =>
             c <~ sys (λ v, canonicalize v abs) ;;
             st_ret (match c with
                     | Ok c => default "" (PathStrip.strip_prefix c root)
                     | Err _ => ""
                     end)
         end ;;
  if decide (rel = "") then st_err (MissingRoot root)
  else
    let path_str := replace_char "\"%char "/"%char (Lossy.to_string_lossy rel) in
    now_secs <~ now ;;
    existing <~ db_call (MetaFiles.get_file_scoped None vault path_str) ;;
    t <~ now ;;
    db_call (MetaFiles.upsert_file_scoped t None vault (tombstone_of rel node_id now_secs existing)).

(** ** Full reconciliation *)
Definition LEGACY_VAULT : string := "default".

Fixpoint for_each {A} (f : A → m unit) (l : list A) : m unit :=
  match l with
  | [] => st_ret tt
  | x :: l => _ <~ f x ;; for_each f l
  end.

Fixpoint collect {A B} (f : A → m B) (l : list A) : m (list B) :=
  match l with
  | [] => st_ret []
  | x :: l => y <~ f x ;; ys <~ collect f l ;; st_ret (y :: ys)
  end.

(** The [removed] counter counts the deletions that went through. *)
Fixpoint sweep_rows (claimed : gset string) (rows : list FileMeta) : m nat :=
  match rows with
  | [] => st_ret O
  | row :: rows =>
      let path := Lossy.to_string_lossy (FileMeta.path row) in
      if negb (bool_decide (path ∈ claimed)) then sweep_rows claimed rows
      else λ s,
        match db_call (MetaFiles.delete_file_scoped None LEGACY_VAULT path) s with
        | (Err _, s) => sweep_rows claimed rows s
        | (Ok _, s) => (n <~ sweep_rows claimed rows ;; st_ret (S n)) s
        end
  end.

Definition sweep_shadowed_default_rows (canonical_roots : roots) : m nat :=
  if bool_decide (LEGACY_VAULT ∈ canonical_roots.*1) then st_ret O
  else
    legacy_rows <~ db_call (MetaFiles.list_files_scoped None LEGACY_VAULT) ;;
    if decide (legacy_rows = []) then st_ret O
    else
      claimed <~ collect (λ r, db_call (MetaFiles.list_files_scoped None r.1)) canonical_roots ;;
      sweep_rows (list_to_set ((λ row, Lossy.to_string_lossy (FileMeta.path row)) <$> concat claimed))
        legacy_rows.

(** [seen]: a [HashSet<PathBuf>], compared by components. *)
Definition seen_set (files : list string) : gset (list component) :=
  list_to_set (components <$> files).

Definition revive_pass (vault node_id root : string) (files : list string) : m unit :=
  for_each (λ abs, warn (upsert_local_file vault node_id root abs)) files.

Definition tombstone_missing (vault node_id root : string) (seen : gset (list component))
    (row : FileMeta) : m unit :=
  if FileMeta.deleted row then st_ret tt
  else
    let abs := join root (FileMeta.path row) in
    if bool_decide (components abs ∈ seen) then st_ret tt
    else
      present <~ resolve_present_file root abs ;;
      match present with
      | Some _ => st_ret tt
      | None => warn (tombstone_local_file vault node_id root abs)
      end.

Definition revived (root : string) (seen : gset (list component)) (rows : list FileMeta) : nat :=
  length (List.filter (λ row, FileMeta.deleted row
    && bool_decide (components (join root (FileMeta.path row)) ∈ seen)) rows).

(** The gathered files and rows of each vault come in the order of the roots,
    whose names are distinct, so looking a vault up by name finds its own. *)
Definition reconcile_vault (node_id : string)
    (g : string * string * list string * list FileMeta) : m nat :=
  let '(vault, root, files, tracked) := g in
  _ <~ revive_pass vault node_id root files ;;
  let seen := seen_set files in
  _ <~ for_each (tombstone_missing vault node_id root seen) tracked ;;
  st_ret (revived root seen tracked).

Definition gather (canonical_roots : roots) : m (list (string * string * list string * list FileMeta)) :=
  vault_files <~ collect (λ r, walk_files r.2) canonical_roots ;;
  vault_db_rows <~ collect (λ r, db_call (MetaFiles.list_files_scoped None r.1)) canonical_roots ;;
  st_ret (zip (zip canonical_roots vault_files) vault_db_rows).

Definition full_reconcile (node_id : string) (canonical_roots : roots) : m nat :=
  gathered <~ gather canonical_roots ;;
  _ <~ sweep_shadowed_default_rows canonical_roots ;;
  counts <~ collect (reconcile_vault node_id) gathered ;;
  st_ret (foldr Nat.add O counts).

(** ** The index loop *)
Definition lookup_root (canonical_roots : roots) (vault : string) : option string :=
  snd <$> List.find (λ r, bool_decide (r.1 = vault)) canonical_roots.

Definition process_event (node_id : string) (canonical_roots : roots) (ev : IndexEvent) : m unit :=
  match lookup_root canonical_roots (vault_id ev) with
  | None => st_ret tt
  | Some root =>
      match kind ev with
      | Upsert => warn (upsert_local_file (vault_id ev) node_id root (abs_path ev))
      | Tombstone =>
          present <~ resolve_present_file root (abs_path ev) ;;
          match present with
          | Some resolved => warn (upsert_local_file (vault_id ev) node_id root resolved)
          | None => warn (tombstone_local_file (vault_id ev) node_id root (abs_path ev))
          end
      end
  end.

(** The loop's state between two turns: the bounded channel, the saturation
    flag shared with the watcher callbacks and the handle, and whether the
    task still runs. *)
Record Loop := mkLoop {
  chan : list IndexEvent;
  saturation : bool;
  alive : bool;
  state : st
}.

Definition CHANNEL : nat := 256.

(** [tx.try_send]: fails when the channel is full or the receiver is gone. *)
Definition try_send (ev : IndexEvent) (l : Loop) : Loop :=
  if alive l && bool_decide (length (chan l) < CHANNEL)%nat
  then mkLoop (chan l ++ [ev]) (saturation l) (alive l) (state l)
  else mkLoop (chan l) true (alive l) (state l).

(** The callback of [make_event_handler]; an [Err] of the backend is dropped. *)
Definition on_notify (vault root : string) (r : result Notify.Event string) (l : Loop) : Loop :=
  match r with
  | Ok ev => foldl (λ l e, try_send e l) l (translate_notify_event ev vault root)
  | Err _ => l
  end.

Definition request_full_reconcile (l : Loop) : Loop := mkLoop (chan l) true (alive l) (state l).

(** [if saturation.swap(false) { full_reconcile(..).await?; }]: an error ends
    the task and drops the receiver. *)
Definition reconcile_if_saturated (node_id : string) (canonical_roots : roots) (l : Loop) : Loop :=
  if saturation l then
    match full_reconcile node_id canonical_roots (state l) with
    | (Ok _, s) => mkLoop (chan l) false (alive l) s
    | (Err _, s) => mkLoop [] false false s
    end
  else l.

(** One turn. [debounce] arrives while the loop sleeps after the first event,
    [during] while it processes the batch. *)
Definition turn (node_id : string) (canonical_roots : roots)
    (debounce during : list IndexEvent) (l : Loop) : Loop :=
  if negb (alive l) then l
  else
    let l := reconcile_if_saturated node_id canonical_roots l in
    if negb (alive l) then l
    else match chan l with
    | [] => l
    | first :: rest =>
        let l := foldl (λ l e, try_send e l) (mkLoop rest (saturation l) true (state l)) debounce in
        let batch := first :: chan l in
        let s := (for_each (process_event node_id canonical_roots) batch (state l)).2 in
        let l := foldl (λ l e, try_send e l) (mkLoop [] (saturation l) true s) during in
        reconcile_if_saturated node_id canonical_roots l
    end.
End with_env.
End ShareIndex.
