(* ===== verification/ShareIndexProps.v ===== *)
(** * What the share index guarantees

    Full reconciliation is all or nothing up to its first write, writes a
    tombstone only for a file a call of this very run found missing, and
    revives what is on disk; and where the index falls short. *)

From stdpp Require Import prelude gmap strings.
From Stdlib Require Import ZArith Lia Strings.Ascii Strings.Byte.
From S2P Require Import Prelude Text PathFacts VectorClock Types Reconciler Fs Guard Scanner Sql MetaDb MetaFiles ShareIndex.

#[local] Open Scope Z_scope.

Section paths.
Import Path PathStrip.

(** A relative path as the index writes it. *)
Definition clean (p : string) : Prop :=
  Forall (λ s, is_junk s = false) (segments p) ∧ ("\"%char ∉ explode p) ∧ str_utf8 p = true.

Lemma clean_relative p : clean p → has_root p = false ∧ p ≠ "".
Proof.
  intros (Hj&_&_). split.
  - apply not_true_is_false. intros [r ->]%has_root_cons. rewrite segments_root in Hj.
    by inversion Hj.
  - intros ->. by inversion Hj.
Qed.

Lemma replace_char_absent a b s : a ∉ explode s → replace_char a b s = s.
Proof.
  intros Ha. unfold replace_char. rewrite <-(implode_explode s) at 2. f_equal.
  rewrite <-(list_fmap_id (explode s)) at 2. apply list_fmap_ext. intros i c Hc.
  rewrite decide_False; [done|]. intros ->. apply Ha. by eapply list_elem_of_lookup_2.
Qed.

Lemma clean_path_as_str p : clean p → path_as_str p = Ok p.
Proof. intros (_&Hb&Hu). unfold path_as_str. by rewrite Hu, replace_char_absent. Qed.

(** [join] glues with one separator. *)
Lemma join_glue p q :
  p ≠ "" → is_absolute q = false →
  ∃ p', join p q = p' +:+ "/" +:+ q
    ∧ omap component_of (segments p') = omap component_of (segments p)
    ∧ (has_root p = true → head (segments p') = Some "").
Proof.
  intros Hp Hq. unfold join. rewrite Hq, decide_False by done. case_decide as Hl.
  - apply last_Some in Hl as [l Hl]. exists (implode l).
    assert (p = implode l +:+ "/") as Heq.
    { apply explode_inj. by rewrite explode_app, explode_implode, Hl. }
    split_and!.
    + apply explode_inj. rewrite Heq at 1. rewrite !explode_app. by rewrite <-(assoc_L (++)).
    + assert (segments p = segments (implode l) ++ [""]) as ->.
      { rewrite Heq. exact (segments_app (implode l) ""). }
      rewrite omap_app. simpl. by rewrite app_nil_r.
    + intros [r Hr]%has_root_cons. destruct (decide (implode l = "")) as [->|Hne]; [done|].
      destruct (segments_abs (implode l)) as (r'&_&->); [|done].
      rewrite <-(has_root_app _ "/") by done. rewrite <-Heq, Hr. by apply has_root_cons; exists r.
  - exists p. split_and!; [done..|]. intros Hr. by destruct (segments_abs p Hr) as (r&_&->).
Qed.

Lemma skip_app l1 l2 :
  Forall (λ s, is_junk s = false) l2 →
  skip (length (omap component_of l1)) (l1 ++ l2) = l2.
Proof.
  intros H2. induction l1 as [|s l1 IH]; simpl.
  - destruct l2 as [|s l2]; [done|]. inversion H2 as [|?? Hs]; subst. simpl. by rewrite Hs.
  - destruct (component_of s) eqn:Hc; simpl.
    + destruct (is_junk s) eqn:Hj; [apply component_of_junk in Hj; congruence|]. done.
    + apply component_of_junk in Hc. by rewrite Hc.
Qed.

Lemma drop_junk_fix l : Forall (λ s, is_junk s = false) l → drop_junk l = l.
Proof. destruct 1 as [|s l Hs]; [done|]. simpl. by rewrite Hs. Qed.

(** A clean path below a root comes back from it. *)
Lemma strip_join root p :
  has_root root = true → clean p → strip_prefix (join root p) root = Some p.
Proof.
  intros Hr Hc. destruct (clean_relative p Hc) as [Hrel Hne].
  assert (root ≠ "") as Hroot by (intros ->; done).
  destruct (join_glue root p) as (p'&Hj&Hom&Hhd); [done..|].
  unfold strip_prefix, path_starts_with. rewrite components_join by done.
  rewrite bool_decide_eq_true_2 by (by eexists).
  rewrite components_abs by done. cbn [length]. rewrite Nat.sub_succ, Nat.sub_0_r, <-Hom.
  rewrite Hj, segments_app. specialize (Hhd Hr).
  destruct (segments p') as [|x l]; [done|]. injection Hhd as ->. simpl.
  destruct Hc as [Hjunk _]. rewrite skip_app by done.
  rewrite drop_junk_fix by (by apply Forall_reverse).
  by rewrite reverse_involutive, join_segments.
Qed.

Lemma clean_components_inj l1 l2 :
  Forall (λ s, is_junk s = false) l1 → Forall (λ s, is_junk s = false) l2 →
  omap component_of l1 = omap component_of l2 → l1 = l2.
Proof.
  assert (∀ s, is_junk s = false → ∃ c, component_of s = Some c ∧ ∀ s', component_of s' = Some c → s = s') as H.
  { intros s Hs. destruct (component_of s) as [c|] eqn:Hc; [|apply component_of_junk in Hc; congruence].
    exists c. split; [done|]. intros s'. revert Hc. unfold component_of.
    repeat case_decide; intros; simplify_eq; done. }
  intros H1. revert l2. induction H1 as [|s l1 Hs _ IH]; intros l2 H2; destruct H2 as [|s' l2 Hs' H2]; simpl.
  - done.
  - destruct (H s' Hs') as (c&->&_). done.
  - destruct (H s Hs) as (c&->&_). done.
  - destruct (H s Hs) as (c&->&Hinj), (H s' Hs') as (c'&Hc'&_). rewrite Hc'. intros [= -> ?].
    f_equal; auto.
Qed.

Lemma clean_join_inj root p q :
  has_root root = true → clean p → clean q →
  components (join root p) = components (join root q) → p = q.
Proof.
  intros Hr Hp Hq. destruct (clean_relative p Hp), (clean_relative q Hq).
  rewrite !components_join by (done || by intros ->). intros Heq%(inj _).
  rewrite <-(join_segments p), <-(join_segments q). f_equal.
  apply clean_components_inj; [apply Hp|apply Hq|done].
Qed.
End paths.

Lemma collect_results_exists {A B E} (f : A → result B E) l :
  (∀ x, x ∈ l → ∃ y, f x = Ok y) → ∃ ys, collect_results f l = Ok ys.
Proof.
  induction l as [|x l IH]; intros Hf; simpl; [by eexists|].
  destruct (Hf x) as [y ->]; [constructor|]. destruct IH as [ys ->]; [|by eexists].
  intros z Hz. apply Hf. by constructor.
Qed.

Module ShareIndexLemmas.
Import ShareIndex.

Section quiet.
Context {codec : VcCodec} (env : Env).

(** A computation that only looks, as time passes. *)
Definition quiet {A} (c : m A) : Prop := ∀ s, db (c s).2 = db s ∧ (calls s ≤ calls (c s).2)%nat.
Definition infallible {A} (c : m A) : Prop := ∀ s, ∃ a, (c s).1 = Ok a.

Lemma quiet_ret {A} (a : A) : quiet (st_ret a).
Proof. by intros s. Qed.
Lemma quiet_err {A} e : quiet (A:=A) (st_err e).
Proof. by intros s. Qed.
Lemma quiet_lift {A} (r : result A ShareIndexError) : quiet (st_lift r).
Proof. by intros s. Qed.
Lemma quiet_sys {A} (f : View → A) : quiet (sys env f).
Proof. intros s. split; [done|simpl; lia]. Qed.
Lemma quiet_now : quiet (now env).
Proof. by intros s. Qed.
Lemma quiet_bind {A B} (c : m A) (k : A → m B) : quiet c → (∀ a, quiet (k a)) → quiet (st_bind c k).
Proof.
  intros Hc Hk s. unfold st_bind. destruct (Hc s) as [Hd Hn].
  destruct (c s) as [[a|e] s1]; simpl in *; [|done]. destruct (Hk a s1) as [-> ?]. split; [done|lia].
Qed.
Lemma quiet_io_at {A} p (f : View → result A Fs.io_error) : quiet (io_at env p f).
Proof. apply quiet_bind; [apply quiet_sys|intros; apply quiet_lift]. Qed.
Lemma quiet_db {A} (q : dbm A) : (∀ d, (q d).2 = d) → quiet (db_call env q).
Proof.
  intros Hq s. unfold db_call. destruct (db_fault env (calls s)); [split; [done|simpl; lia]|].
  specialize (Hq (db s)). destruct (q (db s)) as [r d]; simpl in *. subst. split; [done|lia].
Qed.
Lemma quiet_list t v : quiet (db_call env (MetaFiles.list_files_scoped t v)).
Proof. by apply quiet_db. Qed.
Lemma quiet_get t v p : quiet (db_call env (MetaFiles.get_file_scoped t v p)).
Proof. by apply quiet_db. Qed.
Lemma quiet_collect {A B} (f : A → m B) l : (∀ x, quiet (f x)) → quiet (collect f l).
Proof.
  intros Hf. induction l as [|x l IH]; cbn [collect]; [apply quiet_ret|].
  apply quiet_bind; [done|]. intros y. apply quiet_bind; [done|]. intros; apply quiet_ret.
Qed.

Create HintDb quiet.
#[local] Hint Resolve quiet_ret quiet_err quiet_lift quiet_sys quiet_now quiet_io_at quiet_list quiet_get : quiet.

Lemma quiet_walk_entries walk root dir es :
  (∀ c, quiet (walk c)) → quiet (walk_entries env walk root dir es).
Proof.
  intros Hw. induction es as [|e es IHes]; cbn [walk_entries]; [auto with quiet|].
  apply quiet_bind; [auto with quiet|]. intros entry.
  apply quiet_bind; [auto with quiet|]. intros ft.
  apply quiet_bind; [|intros found; apply quiet_bind; [done|auto with quiet]].
  repeat case_decide; [auto with quiet|destruct (is_internal_path _ _); [auto with quiet|]..];
    try (apply quiet_bind; [auto with quiet|]; intros c; try destruct (Path.path_starts_with c dir));
    auto with quiet.
Qed.

Lemma quiet_walk_impl fuel root dir : quiet (walk_files_impl env fuel root dir).
Proof.
  revert dir. induction fuel as [|fuel IH]; intros dir; cbn [walk_files_impl]; [auto with quiet|].
  apply quiet_bind; [auto with quiet|]. intros es. by apply quiet_walk_entries.
Qed.

Lemma quiet_walk root : quiet (walk_files env root).
Proof. apply quiet_walk_impl. Qed.

Lemma quiet_present root abs : quiet (resolve_present_file env root abs).
Proof.
  apply quiet_bind; [auto with quiet|]. intros [md|e]; [|auto with quiet].
  repeat (case_match; [auto with quiet|]). apply quiet_bind; auto with quiet.
Qed.

Lemma quiet_existing root abs : quiet (resolve_existing_file env root abs).
Proof.
  unfold resolve_existing_file. generalize 6%nat. intros n.
  induction n as [|n IH]; cbn [resolve_attempts]; [auto with quiet|].
  apply quiet_bind; [auto with quiet|]. intros [md|e]; [|done].
  case_match; [auto with quiet|]. case_match; [|done].
  apply quiet_bind; [auto with quiet|]. intros [c|e]; [|done]. case_match; auto with quiet.
Qed.

Lemma quiet_gather roots : quiet (gather env roots).
Proof.
  apply quiet_bind; [apply quiet_collect; intros; apply quiet_walk|]. intros vf.
  apply quiet_bind; [apply quiet_collect; intros; apply quiet_list|]. intros; apply quiet_ret.
Qed.

(** ** What cannot fail *)
Lemma infallible_warn {A} (c : m A) : infallible (warn c).
Proof. intros s. by exists tt. Qed.
Lemma infallible_bind {A B} (c : m A) (k : A → m B) :
  infallible c → (∀ a, infallible (k a)) → infallible (st_bind c k).
Proof.
  intros Hc Hk s. unfold st_bind. destruct (Hc s) as [a Ha]. destruct (c s) as [r s1]. simpl in Ha.
  subst. apply Hk.
Qed.
Lemma infallible_ret {A} (a : A) : infallible (st_ret a).
Proof. intros s. by eexists. Qed.
Lemma infallible_for_each {A} (f : A → m unit) l : (∀ x, infallible (f x)) → infallible (for_each f l).
Proof.
  intros Hf. induction l as [|x l IH]; cbn [for_each]; [apply infallible_ret|].
  apply infallible_bind; [done|]. by intros.
Qed.
Lemma infallible_collect {A B} (f : A → m B) l : (∀ x, infallible (f x)) → infallible (collect f l).
Proof.
  intros Hf. induction l as [|x l IH]; cbn [collect]; [apply infallible_ret|].
  apply infallible_bind; [done|]. intros y. apply infallible_bind; [done|]. intros; apply infallible_ret.
Qed.
Lemma infallible_sys {A} (f : View → A) : infallible (sys env f).
Proof. intros s. by eexists. Qed.
Lemma infallible_present root abs : infallible (resolve_present_file env root abs).
Proof.
  apply infallible_bind; [apply infallible_sys|]. intros [md|e]; [|apply infallible_ret].
  repeat (case_match; [apply infallible_ret|]).
  apply infallible_bind; [apply infallible_sys|intros; apply infallible_ret].
Qed.
Lemma infallible_missing v n root seen row : infallible (tombstone_missing env v n root seen row).
Proof.
  unfold tombstone_missing. repeat (case_match; [apply infallible_ret|]).
  apply infallible_bind; [apply infallible_present|]. intros [c|]; [apply infallible_ret|apply infallible_warn].
Qed.
Lemma infallible_vault n g : infallible (reconcile_vault env n g).
Proof.
  destruct g as [[[v root] fs] rows]. cbn [reconcile_vault].
  apply infallible_bind; [apply infallible_for_each; intros; apply infallible_warn|]. intros _.
  apply infallible_bind; [apply infallible_for_each; intros; apply infallible_missing|].
  intros; apply infallible_ret.
Qed.
Lemma infallible_sweep_rows claimed rows : infallible (sweep_rows env claimed rows).
Proof.
  induction rows as [|row rows IH]; cbn [sweep_rows]; [apply infallible_ret|].
  case_match; [apply IH|]. intros s. destruct (db_call _ _ s) as [[a|e] s1]; [|apply IH].
  by apply (infallible_bind _ _ IH); intros; apply infallible_ret.
Qed.

(** An error before an infallible tail comes from the quiet part. *)
Lemma err_quiet {A B} (c : m A) (k : A → m B) s e s' :
  quiet c → (∀ a s1 e s2, k a s1 = (Err e, s2) → db s2 = db s1) →
  st_bind c k s = (Err e, s') → db s' = db s.
Proof.
  intros Hc Hk. unfold st_bind. destruct (Hc s) as [Hd _]. destruct (c s) as [[a|e1] s1]; simpl in Hd.
  - intros H%Hk. congruence.
  - intros [= <- <-]. done.
Qed.

Lemma infallible_no_err {A} (c : m A) s e s' : infallible c → c s = (Err e, s') → False.
Proof. intros Hc H. destruct (Hc s) as [a Ha]. by rewrite H in Ha. Qed.

Lemma sweep_err roots s e s' :
  sweep_shadowed_default_rows env roots s = (Err e, s') → db s' = db s.
Proof.
  unfold sweep_shadowed_default_rows. case_match; [done|].
  apply err_quiet; [apply quiet_list|]. intros rows s1 e1 s2. destruct (decide (rows = [])); [done|].
  apply err_quiet; [apply quiet_collect; intros; apply quiet_list|].
  intros cl s3 e3 s4 H3. destruct (infallible_no_err _ _ _ _ (infallible_sweep_rows _ _) H3).
Qed.

(** A run that fails has written nothing. *)
Lemma full_reconcile_err node roots s e s' :
  full_reconcile env node roots s = (Err e, s') → db s' = db s.
Proof.
  unfold full_reconcile. apply err_quiet; [apply quiet_gather|]. intros g s1 e1 s2 H1.
  unfold st_bind at 1 in H1. destruct (sweep_shadowed_default_rows env roots s1) as [[n|e2] s3] eqn:Hs.
  - exfalso. revert H1. apply infallible_no_err.
    apply infallible_bind; [apply infallible_collect; intros; apply infallible_vault|].
    intros; apply infallible_ret.
  - injection H1 as <- <-. by apply (sweep_err _ _ _ _ Hs).
Qed.
End quiet.

(** ** A logic of runs

    A property of computations that looking around has, and that sequencing
    keeps, is had by the compound operations when their writes have it. *)
Class RunLogic (P : ∀ A, m A → Prop) := {
  rl_quiet A (c : m A) : quiet c → P A c;
  rl_bind_post A B (Q : A → Prop) (c : m A) (k : A → m B) :
    (∀ s a s', c s = (Ok a, s') → Q a) → P A c → (∀ a, Q a → P B (k a)) → P B (st_bind c k);
  rl_either A B (c : m A) (k1 k2 : m B) :
    P A c → P B k1 → P B k2 →
    P B (λ s, match c s with (Err _, s) => k1 s | (Ok _, s) => k2 s end);
  rl_warn A (c : m A) : P A c → P unit (warn c)
}.

Section logic.
Context {codec : VcCodec} (env : Env) (P : ∀ A, m A → Prop) {HP : RunLogic P}.

Lemma rl_bind A B (c : m A) (k : A → m B) : P A c → (∀ a, P B (k a)) → P B (st_bind c k).
Proof. intros Hc Hk. by apply (rl_bind_post A B (λ _, True)). Qed.

Lemma rl_look A B (c : m A) (k : A → m B) : quiet c → (∀ a, P B (k a)) → P B (st_bind c k).
Proof. intros Hc Hk. apply rl_bind; [by apply rl_quiet|done]. Qed.

Lemma rl_ret A (a : A) : P A (st_ret a).
Proof. apply rl_quiet, quiet_ret. Qed.

Lemma rl_for_each A (f : A → m unit) l : (∀ x, x ∈ l → P _ (f x)) → P _ (for_each f l).
Proof.
  induction l as [|x l IH]; intros Hf; cbn [for_each]; [apply rl_ret|].
  apply rl_bind; [apply Hf; constructor|]. intros _. apply IH. intros y Hy. apply Hf. by constructor.
Qed.

Lemma rl_collect A B (f : A → m B) l : (∀ x, x ∈ l → P _ (f x)) → P _ (collect f l).
Proof.
  induction l as [|x l IH]; intros Hf; cbn [collect]; [apply rl_ret|].
  apply rl_bind; [apply Hf; constructor|]. intros y.
  apply rl_bind; [apply IH; intros z Hz; apply Hf; by constructor|]. intros; apply rl_ret.
Qed.

Lemma rl_upsert_local v node root abs :
  (∀ now meta, FileMeta.deleted meta = false →
     P _ (db_call env (MetaFiles.upsert_file_scoped now None v meta))) →
  P _ (upsert_local_file env v node root abs).
Proof.
  intros Hup. unfold upsert_local_file.
  apply rl_look; [apply quiet_existing|]. intros [c|]; [|apply rl_ret].
  case_match; [apply rl_ret|]. apply rl_look; [apply quiet_io_at|]. intros ft.
  case_match; [apply rl_ret|]. apply rl_look; [apply quiet_lift|]. intros rel.
  destruct (decide (rel = "")); [apply rl_ret|].
  apply rl_look; [apply quiet_io_at|]. intros md. apply rl_look; [apply quiet_sys|]. intros h.
  apply rl_look; [apply quiet_lift|]. intros h'. apply rl_look; [apply quiet_sys|]. intros ino.
  apply rl_look; [apply quiet_now|]. intros t. by apply Hup.
Qed.

Lemma rl_sweep roots :
  (LEGACY_VAULT ∉ roots.*1 → ∀ p, P _ (db_call env (MetaFiles.delete_file_scoped None LEGACY_VAULT p))) →
  P _ (sweep_shadowed_default_rows env roots).
Proof.
  intros Hdel. unfold sweep_shadowed_default_rows. case_bool_decide as Hin; [apply rl_ret|].
  specialize (Hdel Hin). apply rl_look; [apply quiet_list|]. intros rows.
  destruct (decide (rows = [])); [apply rl_ret|].
  apply rl_look; [apply quiet_collect; intros; apply quiet_list|]. intros cl.
  generalize (list_to_set (C:=gset string)
    ((λ row, Lossy.to_string_lossy (FileMeta.path row)) <$> concat cl)). intros claimed.
  clear -Hdel HP. induction rows as [|row rows IH]; cbn [sweep_rows]; [apply rl_ret|].
  case_match; [apply IH|]. apply rl_either; [apply Hdel|apply IH|].
  apply rl_bind; [apply IH|]. intros; apply rl_ret.
Qed.

Lemma get_file_path t v p d row d' :
  MetaFiles.get_file_scoped t v p d = (Ok (Some row), d') → FileMeta.path row = p.
Proof.
  unfold MetaFiles.get_file_scoped, st_bind, query, st_lift.
  destruct (MetaFiles.fetch_file t v p d) as [r|] eqn:Hf; [|done]. simpl.
  unfold MetaFiles.fetch_file in Hf.
  assert (r ∈ select (MetaFiles.is_file t v p) (files d)) as Hin
    by (destruct (select _ _); [done|]; injection Hf as ->; constructor).
  apply elem_of_select in Hin as [_ Hp]. rewrite is_file_key in Hp. apply bool_decide_eq_true in Hp.
  unfold MetaFiles.row_to_meta. destruct (hash_of_blob _ _); [|done]. simpl. intros [= <- _].
  simpl. by injection Hp.
Qed.

Lemma db_call_ok {A} (q : dbm A) s a s' :
  db_call env q s = (Ok a, s') → q (db s) = (Ok a, db s') ∧ calls s' = S (calls s).
Proof.
  unfold db_call. destruct (db_fault env (calls s)); [done|].
  destruct (q (db s)) as [[?|?] d]; [|done]. by intros [= <- <-].
Qed.

(** On a clean path the tombstone goes under the path's own key. *)
Definition write_tombstone (v node p : string) : m unit :=
  now_secs <~ now env ;;
  existing <~ db_call env (MetaFiles.get_file_scoped None v p) ;;
  t <~ now env ;;
  db_call env (MetaFiles.upsert_file_scoped t None v (tombstone_of p node now_secs existing)).

Lemma tombstone_clean v node root p s :
  Path.has_root root = true → clean p →
  tombstone_local_file env v node root (Path.join root p) s = write_tombstone v node p s.
Proof.
  intros Hr Hc. pose proof Hc as (_&Hb&Hu). destruct (clean_relative p Hc) as [_ Hne].
  unfold tombstone_local_file. rewrite strip_join by done.
  unfold st_bind at 1, st_ret. rewrite decide_False by done.
  by rewrite Lossy.to_string_lossy_valid, replace_char_absent by done.
Qed.

Lemma rl_tombstone v node p :
  clean p →
  (∀ now meta, FileMeta.path meta = p → FileMeta.deleted meta = true →
     P _ (db_call env (MetaFiles.upsert_file_scoped now None v meta))) →
  P _ (write_tombstone v node p).
Proof.
  intros Hc Hup. apply rl_look; [apply quiet_now|]. intros ns.
  apply (rl_bind_post _ _ (λ o, ∀ row, o = Some row → FileMeta.path row = p)).
  { intros s o s' [Hg _]%db_call_ok row ->. by eapply get_file_path. }
  { apply rl_quiet, quiet_get. }
  intros o Ho. apply rl_look; [apply quiet_now|]. intros t.
  apply Hup; destruct o as [row|]; try done. simpl. by apply Ho.
Qed.
End logic.

(** ** Tombstones and why they were written *)
Section tombstones.
Context {codec : VcCodec} (env : Env).

Definition tomb (r : FileRow.t) : Prop := int_bool (FileRow.deleted r) = true.

(** What a run may add to the tombstones: each new one is justified by [J] at
    a call of the run. *)
Definition tracks (J : nat → fkey → Prop) A (c : m A) : Prop := ∀ s,
  files_keyed (db s) →
  (calls s ≤ calls (c s).2)%nat ∧ files_keyed (db (c s).2)
  ∧ ∀ k r', file_map (db (c s).2) !! k = Some r' → tomb r' →
      (∃ r, file_map (db s) !! k = Some r ∧ tomb r)
      ∨ ∃ n, (calls s ≤ n < calls (c s).2)%nat ∧ J n k.

Lemma tracks_trans {A} J s s1 (c : m A) :
  tracks J _ c → (calls s ≤ calls s1)%nat → files_keyed (db s1) →
  (∀ k r', file_map (db s1) !! k = Some r' → tomb r' →
     (∃ r, file_map (db s) !! k = Some r ∧ tomb r) ∨ ∃ n, (calls s ≤ n < calls s1)%nat ∧ J n k) →
  (calls s ≤ calls (c s1).2)%nat ∧ files_keyed (db (c s1).2)
  ∧ ∀ k r', file_map (db (c s1).2) !! k = Some r' → tomb r' →
      (∃ r, file_map (db s) !! k = Some r ∧ tomb r)
      ∨ ∃ n, (calls s ≤ n < calls (c s1).2)%nat ∧ J n k.
Proof.
  intros Hc Hn Hs1 H1. destruct (Hc s1 Hs1) as (Hn2&Hs2&H2). split_and!; [lia|done|].
  intros key r' Hr Ht. destruct (H2 key r' Hr Ht) as [(r&Hr1&Ht1)|(n&Hn3&HJ)].
  - destruct (H1 key r Hr1 Ht1) as [?|(n&Hn3&HJ)]; [by left|right; exists n]. split; [lia|done].
  - right. exists n. split; [lia|done].
Qed.

#[global] Instance tracks_logic J : RunLogic (tracks J).
Proof.
  split.
  - intros A c Hq s Hk. destruct (Hq s) as [-> Hn]. split_and!; [done..|].
    intros k r' Hr Ht. left. eauto.
  - intros A B Q c k HQ Hc Hk s Hs. unfold st_bind. destruct (Hc s Hs) as (Hn&Hs1&H1).
    destruct (c s) as [[a|e] s1] eqn:Hcs; simpl in *; [|done]. apply tracks_trans; eauto.
  - intros A B c k1 k2 Hc H1 H2 s Hs. destruct (Hc s Hs) as (Hn&Hs1&Hr).
    destruct (c s) as [[a|e] s1]; simpl in *; by apply tracks_trans.
  - intros A c Hc s. apply Hc.
Qed.

(** A row is deleted, or written from [meta] under the key of its path. *)
Lemma tracks_delete J t v p : tracks J _ (db_call env (MetaFiles.delete_file_scoped t v p)).
Proof.
  intros s Hk. unfold db_call. destruct (db_fault env (calls s)).
  { simpl. split_and!; [lia|done|]. intros; left; eauto. }
  simpl. split_and!; [lia|by apply keyed_delete|].
  intros k r' Hr Ht. left. exists r'. split; [|done]. revert Hr. unfold file_map, set_files. cbn [files].
  rewrite table_map_delete by done. by intros [??]%map_lookup_filter_Some.
Qed.

Lemma tracks_upsert (J : nat → fkey → Prop) now t v meta :
  (∀ n ps, path_as_str (FileMeta.path meta) = Ok ps → FileMeta.deleted meta = true → J n (t, v, ps)) →
  tracks J _ (db_call env (MetaFiles.upsert_file_scoped now t v meta)).
Proof.
  intros HJ s Hk. unfold db_call. destruct (db_fault env (calls s)).
  { simpl. split_and!; [lia|done|]. intros; left; eauto. }
  destruct (path_as_str (FileMeta.path meta)) as [ps|e] eqn:Hp.
  - destruct (upsert_map now t v meta ps (db s) Hk Hp) as (t'&->&Hkey&Hm). simpl.
    split_and!; [lia|done|]. intros k r' Hr Ht. unfold file_map in Hr. cbn [files set_files] in Hr.
    rewrite Hm, lookup_insert_Some in Hr. destruct Hr as [[<- <-]|[_ Hr]]; [|left; by eauto].
    right. exists (calls s). split; [lia|]. apply HJ; [done|]. unfold tomb in Ht.
    revert Ht. unfold upserted. by destruct (file_map (db s) !! _); simpl; rewrite int_bool_int.
  - unfold MetaFiles.upsert_file_scoped, st_bind, st_lift. rewrite Hp. simpl.
    split_and!; [lia|done|]. intros; left; eauto.
Qed.

Lemma tracks_tombstone (J : nat → fkey → Prop) v node p :
  clean p → (∀ n, J n (None, v, p)) → tracks J _ (write_tombstone env v node p).
Proof.
  intros Hc HJ. apply rl_tombstone; [apply _|done|]. intros now meta Hp _. apply tracks_upsert.
  intros n ps Hps _. rewrite Hp, clean_path_as_str in Hps by done. by injection Hps as <-.
Qed.

(** ** Absence

    [resolve_present_file] answers no on what it saw at call [n] and the next:
    no regular file of that name, or one that resolves outside the root... *)
Definition gone_at (n : nat) (root abs : string) : Prop :=
  match symlink_metadata (view env n) abs with
  | Ok md => file_type md ≠ File
             ∨ match canonicalize (view env (S n)) abs with
               | Ok c => Path.path_starts_with c root = false
               | Err e => Fs.kind e = Fs.NotFound
               end
  | Err e => Fs.kind e = Fs.NotFound
  end.

(** ... and also when a call failed otherwise, and so tells nothing. *)
Definition unexamined_at (n : nat) (abs : string) : Prop :=
  match symlink_metadata (view env n) abs with
  | Ok md => ∃ e, canonicalize (view env (S n)) abs = Err e ∧ Fs.kind e ≠ Fs.NotFound
  | Err e => Fs.kind e ≠ Fs.NotFound
  end.

Definition absent_at (n : nat) (root abs : string) : Prop := gone_at n root abs ∨ unexamined_at n abs.

Lemma present_none root abs s s' :
  resolve_present_file env root abs s = (Ok None, s') → Path.path_starts_with abs root = true →
  absent_at (calls s) root abs ∧ (calls s < calls s')%nat.
Proof.
  unfold resolve_present_file, st_bind, sys, st_ret. simpl. intros H Hs. rewrite Hs in H. revert H.
  unfold absent_at, gone_at, unexamined_at. destruct (symlink_metadata _ abs) as [md|e]; simpl.
  - case_bool_decide; simpl.
    + intros [= Hres <-]; simpl. split; [|lia]. destruct (canonicalize _ abs) as [c|e].
      * left. right. by destruct (Path.path_starts_with c root).
      * destruct (Fs.kind e) eqn:Hkind; [right; exists e; by rewrite Hkind|left; by right|right; exists e; by rewrite Hkind].
    + intros [= <-]. split; [left; by left|simpl; lia].
  - intros [= <-]. simpl. split; [|lia]. destruct (Fs.kind e); [by right|by left|by right].
Qed.

Lemma join_under root p :
  Path.has_root root = true → clean p → Path.path_starts_with (Path.join root p) root = true.
Proof.
  intros Hr [Hrel _]%clean_relative. apply bool_decide_eq_true_2.
  rewrite components_join; [by eexists|by intros ->|done].
Qed.

Lemma tracks_missing (J : nat → fkey → Prop) v node root seen row :
  Path.has_root root = true → clean (FileMeta.path row) →
  (∀ n, FileMeta.deleted row = false → absent_at n root (Path.join root (FileMeta.path row)) →
        J n (None, v, FileMeta.path row)) →
  tracks J _ (tombstone_missing env v node root seen row).
Proof.
  intros Hr Hc HJ. unfold tombstone_missing. destruct (FileMeta.deleted row); [apply rl_ret, _|].
  case_match; [apply rl_ret, _|]. intros s Hs.
  destruct (infallible_present env root (Path.join root (FileMeta.path row)) s) as [o Ho].
  destruct (quiet_present env root (Path.join root (FileMeta.path row)) s) as [Hd Hn].
  unfold st_bind.
  destruct (resolve_present_file env root (Path.join root (FileMeta.path row)) s) as [r s1] eqn:Hp.
  simpl in *. subst r. destruct o as [c|]; simpl.
  { rewrite Hd. split_and!; [done..|]. intros; left; eauto. }
  destruct (present_none _ _ _ _ Hp) as [Habs Hlt]; [by apply join_under|].
  rewrite tombstone_clean by done.
  destruct (tracks_tombstone (λ _ k, k = (None, v, FileMeta.path row)) v node (FileMeta.path row)
              Hc (λ _, eq_refl) s1) as (Hn2&Hk2&H2); [by rewrite Hd|].
  simpl in *. rewrite Hd in H2. split_and!; [lia|done|]. intros k r' Hr' Ht.
  destruct (H2 k r' Hr' Ht) as [?|(n&Hrange& ->)]; [by left|]. right. exists (calls s).
  split; [lia|]. by apply HJ.
Qed.

(** ** What reconciliation gathers *)
Lemma list_rows t v d metas d' meta :
  MetaFiles.list_files_scoped t v d = (Ok metas, d') → meta ∈ metas →
  ∃ r, r ∈ files d ∧ file_key r = (t, v, FileMeta.path meta)
    ∧ FileMeta.deleted meta = int_bool (FileRow.deleted r).
Proof.
  unfold MetaFiles.list_files_scoped, st_bind, query, st_lift. intros [= Hc <-] Hm.
  apply collect_results_inv in Hc. apply list_elem_of_lookup in Hm as [i Hi].
  destruct (Forall2_lookup_r _ _ _ _ _ Hc Hi) as (r&Hr&Hrm).
  apply list_elem_of_lookup_2, elem_of_sort_by, elem_of_select in Hr as [Hr Hsc]. exists r. split; [done|].
  unfold MetaFiles.in_scope, is_eqb in Hsc. apply andb_true_iff in Hsc as [H1 H2].
  apply bool_decide_eq_true in H1, H2. revert Hrm. unfold MetaFiles.row_to_meta.
  destruct (hash_of_blob _ _); [|done]. simpl. intros [= <-]. unfold file_key. simpl. by subst.
Qed.

Lemma collect_ok {A B} (f : A → m B) l s ys s' :
  (∀ x, quiet (f x)) → collect f l s = (Ok ys, s') →
  Forall2 (λ x y, ∃ s1 s2, db s1 = db s ∧ f x s1 = (Ok y, s2)) l ys.
Proof.
  intros Hq. revert s ys. induction l as [|x l IH]; intros s ys; cbn [collect].
  { intros [= <- _]. constructor. }
  intros (y&s1&Hy&(zs&s2&Hzs&[= <- <-])%st_bind_ok)%st_bind_ok.
  destruct (Hq x s) as [Hd _]. rewrite Hy in Hd. simpl in Hd. constructor; [by exists s, s1|].
  eapply Forall2_impl; [by apply (IH _ _ Hzs)|]. intros a b (s3&s4&Hd'&Hf). exists s3, s4.
  split; [congruence|done].
Qed.

Lemma gather_ok roots s g s' v root fs rows :
  gather env roots s = (Ok g, s') → (v, root, fs, rows) ∈ g →
  (v, root) ∈ roots ∧ MetaFiles.list_files_scoped None v (db s) = (Ok rows, db s).
Proof.
  intros (vf&s1&Hvf&(vr&s2&Hvr&[= <- <-])%st_bind_ok)%st_bind_ok [i Hi]%list_elem_of_lookup.
  apply collect_ok in Hvr; [|intros; apply quiet_list].
  rewrite lookup_zip_with_Some in Hi. destruct Hi as (y&rs&[= <- <-]&Hy&Hrs).
  rewrite lookup_zip_with_Some in Hy. destruct Hy as ([v' root']&fs'&[= <- <- <-]&Hroot&_).
  split; [by eapply list_elem_of_lookup_2|].
  destruct (Forall2_lookup_r _ _ _ _ _ Hvr Hrs) as (x&Hx&(s3&s4&Hd&Hl%db_call_ok)).
  rewrite Hroot in Hx. injection Hx as <-. destruct Hl as [Hl _]. simpl in Hl.
  destruct (quiet_collect (λ r, walk_files env r.2) roots (λ r, quiet_walk env r.2) s) as [Hd2 _].
  rewrite Hvf in Hd2. simpl in Hd2. rewrite <-Hd2, <-Hd.
  assert (db s4 = db s3) as Hd4 by (by injection Hl).
  by rewrite Hl, Hd4.
Qed.

End tombstones.
(** ** What each step touches, and runs without faults *)
Section runs.
Context {codec : VcCodec} (env : Env).

Definition touches (K : fkey → Prop) A (c : m A) : Prop := ∀ s,
  files_keyed (db s) →
  files_keyed (db (c s).2) ∧ ∀ k, ¬ K k → file_map (db (c s).2) !! k = file_map (db s) !! k.

#[global] Instance touches_logic K : RunLogic (touches K).
Proof.
  split.
  - intros A c Hq s Hs. destruct (Hq s) as [Hd _]. by rewrite Hd.
  - intros A B Q c k HQ Hc Hk s Hs. unfold st_bind. destruct (Hc s Hs) as [Hs1 H1].
    destruct (c s) as [[a|e] s1] eqn:Hcs; simpl in *; [|done].
    destruct (Hk a (HQ _ _ _ Hcs) s1 Hs1) as [Hs2 H2]. split; [done|]. intros key Hkey. by rewrite H2, H1.
  - intros A B c k1 k2 Hc Hk1 Hk2 s Hs. destruct (Hc s Hs) as [Hs1 H1].
    destruct (c s) as [[a|e] s1]; simpl in *.
    + destruct (Hk2 s1 Hs1) as [Hs2 H2]. split; [done|]. intros key Hkey. by rewrite H2, H1.
    + destruct (Hk1 s1 Hs1) as [Hs2 H2]. split; [done|]. intros key Hkey. by rewrite H2, H1.
  - intros A c Hc s. apply Hc.
Qed.

Lemma touches_weaken {A} (K K' : fkey → Prop) (c : m A) :
  touches K _ c → (∀ k, K k → K' k) → touches K' _ c.
Proof. intros Hc HK s Hs. destruct (Hc s Hs) as [? H]. split; [done|]. intros k Hk. apply H. auto. Qed.

Lemma touches_upsert now t v meta :
  touches (λ k, ∃ ps, path_as_str (FileMeta.path meta) = Ok ps ∧ k = (t, v, ps)) _
    (db_call env (MetaFiles.upsert_file_scoped now t v meta)).
Proof.
  intros s Hk. unfold db_call. destruct (db_fault env (calls s)); [done|].
  destruct (path_as_str (FileMeta.path meta)) as [ps|e] eqn:Hp.
  - destruct (upsert_map now t v meta ps (db s) Hk Hp) as (t'&->&Hkey&Hm). simpl. split; [done|].
    intros k Hne. unfold file_map. cbn [files set_files]. rewrite Hm, lookup_insert_ne; [done|].
    intros <-. apply Hne. by eexists.
  - unfold MetaFiles.upsert_file_scoped, st_bind, st_lift. rewrite Hp. done.
Qed.

Lemma touches_delete t v p :
  touches (λ k, k = (t, v, p)) _ (db_call env (MetaFiles.delete_file_scoped t v p)).
Proof.
  intros s Hk. unfold db_call. destruct (db_fault env (calls s)); [done|]. simpl.
  split; [by apply keyed_delete|]. intros k Hne. unfold file_map, set_files. cbn [files].
  rewrite table_map_delete by done. apply option_eq. intros r.
  rewrite map_lookup_filter_Some. split; [by intros [? _]|]. intros Hr. split; [done|]. simpl.
  rewrite is_file_key. apply bool_decide_eq_false_2.
  apply table_map_Some in Hr as [_ Hr]; [|done]. congruence.
Qed.

Abbreviation vault_keys v := (λ k : fkey, ∃ ps, k = (None, v, ps)).

Lemma touches_upsert_local v node root abs :
  touches (vault_keys v) _ (upsert_local_file env v node root abs).
Proof.
  apply rl_upsert_local; [apply _|]. intros. eapply touches_weaken; [apply touches_upsert|].
  intros k (ps&_&->). by eexists.
Qed.

Lemma touches_missing v node root seen row :
  Path.has_root root = true → clean (FileMeta.path row) →
  touches (λ k, k = (None, v, FileMeta.path row)) _ (tombstone_missing env v node root seen row).
Proof.
  intros Hr Hc. unfold tombstone_missing. repeat (case_match; [apply rl_ret, _|]).
  apply rl_look; [apply _|apply quiet_present|]. intros [c|]; [apply rl_ret, _|]. apply rl_warn.
  intros s Hs. rewrite tombstone_clean by done. revert s Hs.
  apply (rl_tombstone env (touches (λ k, k = (None, v, FileMeta.path row)))); [done|].
  intros now meta Hp _. eapply touches_weaken; [apply touches_upsert|]. intros k (ps&Hps&->).
  rewrite Hp, clean_path_as_str in Hps by done. by injection Hps as <-.
Qed.

Lemma touches_vault node v root fs rows :
  Path.has_root root = true → Forall (λ row, clean (FileMeta.path row)) rows →
  touches (vault_keys v) _ (reconcile_vault env node (v, root, fs, rows)).
Proof.
  intros Hr Hrows. cbn [reconcile_vault]. unfold revive_pass.
  apply rl_bind; [apply _|apply rl_for_each; [apply _|]; intros; apply rl_warn, touches_upsert_local|].
  intros _. apply rl_bind; [apply _| |intros; apply rl_ret, _].
  apply rl_for_each; [apply _|]. intros row Hin. rewrite Forall_forall in Hrows.
  eapply touches_weaken; [apply touches_missing; auto|]. intros k ->. by eexists.
Qed.

Lemma touches_sweep roots :
  touches (λ k, (LEGACY_VAULT ∉ roots.*1) ∧ vault_keys LEGACY_VAULT k) _
    (sweep_shadowed_default_rows env roots).
Proof.
  apply rl_sweep; [apply _|]. intros Hn p. eapply touches_weaken; [apply touches_delete|].
  intros k ->. split; [done|]. by eexists.
Qed.
End runs.

(** ** A file system at rest and a database without faults *)
Section stable.
Context {codec : VcCodec} (env : Env) (V : View).
Context (Hview : ∀ n, view env n = V) (Hdb : ∀ n, db_fault env n = None).
Context (node : string).

(** The regular file [rel] of a canonical root, with its digest. *)
Definition on_disk (root rel : string) (h : bytes) : Prop :=
  (∃ md, symlink_metadata V (Path.join root rel) = Ok md ∧ file_type md = File)
  ∧ canonicalize V (Path.join root rel) = Ok (Path.join root rel)
  ∧ is_Some (match metadata V (Path.join root rel) with Ok md => Some md | Err _ => None end)
  ∧ digest V (Path.join root rel) = Ok h.

Definition live_with (d : MetaDb) (k : fkey) (h : bytes) : Prop :=
  ∃ row, file_map d !! k = Some row ∧ ¬ tomb row ∧ FileRow.content_hash row = h.

Lemma upsert_row now v meta s ps :
  files_keyed (db s) → path_as_str (FileMeta.path meta) = Ok ps →
  file_map (db (db_call env (MetaFiles.upsert_file_scoped now None v meta) s).2) !! (None, v, ps)
  = Some (upserted now None v ps meta (file_map (db s) !! (None, v, ps))).
Proof.
  intros Hk Hp. unfold db_call. rewrite Hdb.
  destruct (upsert_map now None v meta ps (db s) Hk Hp) as (t'&->&_&Hm). simpl.
  unfold file_map. cbn [files set_files]. by rewrite Hm, lookup_insert_eq.
Qed.

(** The row an upsert writes, read back. *)
Lemma upserted_meta now v ps meta old :
  hash32 (FileMeta.content_hash meta) → VC.wf (FileMeta.vector_clock meta) →
  ∃ m, MetaFiles.row_to_meta (upserted now None v ps meta old) = Ok m
    ∧ FileMeta.content_hash m = FileMeta.content_hash meta
    ∧ FileMeta.vector_clock m = FileMeta.vector_clock meta ∧ FileMeta.deleted m = FileMeta.deleted meta.
Proof.
  intros Hh Hw. unfold MetaFiles.row_to_meta.
  destruct old as [r|]; simpl; rewrite hash_of_blob_ok by done; simpl;
    (eexists; split; [done|]); simpl; by rewrite vc_roundtrip, int_bool_int.
Qed.

(** Indexing a file at rest is one upsert of what is on disk. *)
Lemma upsert_local_run v root rel h s :
  Path.has_root root = true → clean rel → on_disk root rel h →
  ∃ s0 now meta, db s0 = db s
    ∧ upsert_local_file env v node root (Path.join root rel) s
      = db_call env (MetaFiles.upsert_file_scoped now None v meta) s0
    ∧ FileMeta.path meta = rel ∧ FileMeta.deleted meta = false ∧ FileMeta.content_hash meta = h
    ∧ FileMeta.vector_clock meta = VC.new.
Proof.
  intros Hr Hc ((md&Hl&Hf)&Hcan&[md' Hm]&Hd).
  destruct (metadata V _) as [md2|] eqn:Hm2; [|done]. clear md' Hm.
  destruct (clean_relative rel Hc) as [_ Hne].
  unfold upsert_local_file, resolve_existing_file. cbn [resolve_attempts].
  unfold st_bind, sys, io_at, st_lift, st_ret, now, map_err, ok_or, st_bind, sys, st_lift. simpl.
  rewrite ?Hview, Hl. rewrite bool_decide_eq_true_2 by done. simpl. rewrite join_under by done. simpl.
  rewrite ?Hview, Hcan, join_under by done. simpl. rewrite join_under by done. simpl.
  rewrite ?Hview, Hl. simpl. rewrite bool_decide_eq_true_2 by done. simpl. rewrite strip_join by done.
  simpl. rewrite decide_False by done. simpl. rewrite ?Hview, Hm2. simpl. rewrite ?Hview, Hd. simpl.
  eexists (bump (bump (bump (bump (bump (bump s)))))), _, _. by split_and!.
Qed.

Lemma upsert_on_disk v root rel h s :
  Path.has_root root = true → clean rel → on_disk root rel h → files_keyed (db s) →
  live_with (db (upsert_local_file env v node root (Path.join root rel) s).2) (None, v, rel) h
  ∧ ∀ k, k ≠ (None, v, rel) →
      file_map (db (upsert_local_file env v node root (Path.join root rel) s).2) !! k
      = file_map (db s) !! k.
Proof.
  intros Hr Hc Hd Hk. destruct (upsert_local_run v root rel h s) as (s0&t&meta&Hs0&->&Hp&Hdel&Hh&_); [done..|].
  rewrite <-Hs0 in Hk |- *.
  assert (path_as_str (FileMeta.path meta) = Ok rel) as Hps by (rewrite Hp; by apply clean_path_as_str).
  split.
  - eexists. split; [by apply upsert_row|].
    unfold tomb, upserted. destruct (file_map _ !! _); simpl; by rewrite Hdel.
  - intros k Hne. apply (touches_upsert env t None v meta); [done|]. intros (ps&Hps'&->). congruence.
Qed.

(** The pass over the files of a root leaves each of them live. *)
Lemma revive_pass_live v root rels s rel h :
  Path.has_root root = true → Forall clean rels →
  (∀ rel, rel ∈ rels → ∃ h, on_disk root rel h) → rel ∈ rels → on_disk root rel h →
  files_keyed (db s) →
  live_with (db (revive_pass env v node root (Path.join root <$> rels) s).2) (None, v, rel) h.
Proof.
  intros Hr. unfold revive_pass. revert s. induction rels as [|x rels IH]; intros s Hc Hdisk Hin Hd Hk.
  { by apply elem_of_nil in Hin. }
  inversion Hc as [|?? Hcx Hcr]; subst.
  cbn [fmap list_fmap for_each]. unfold st_bind, warn at 1.
  set (s1 := (upsert_local_file env v node root (Path.join root x) s).2).
  assert (files_keyed (db s1)) as Hk1 by (by apply (touches_upsert_local env v node root)).
  destruct (decide (rel ∈ rels)) as [Hrel|Hrel].
  { apply IH; auto. intros rel' Hrel'. apply Hdisk. by constructor. }
  apply elem_of_cons in Hin as [->|]; [|done].
  destruct (upsert_on_disk v root x h s) as [(row&Hrow&Ht&Hh) _]; [done..|].
  exists row. split; [|done]. rewrite <-Hrow. clear row Hrow Ht Hh IH Hd. fold s1. clearbody s1.
  revert s1 Hk1. induction rels as [|y rels IH]; intros s1 Hk1; [done|].
  inversion Hcr as [|?? Hcy Hcr']; subst. cbn [fmap list_fmap for_each]. unfold st_bind, warn at 1.
  destruct (Hdisk y) as [hy Hy]; [set_solver|].
  fold (Path.join root <$> rels). rewrite IH.
  - apply (upsert_on_disk v root y hy); auto. intros [= ->]. set_solver.
  - constructor; auto.
  - intros z Hz. apply Hdisk. set_solver.
  - done.
  - set_solver.
  - by apply (touches_upsert_local env v node root).
Qed.

(** A row whose digest column is a digest. *)
Definition decodable (d : MetaDb) (k : fkey) : Prop :=
  ∃ r, file_map d !! k = Some r ∧ hash32 (FileRow.content_hash r).
Definition tomb_at (d : MetaDb) (k : fkey) : Prop := ∃ r, file_map d !! k = Some r ∧ tomb r.

Definition missing (root abs : string) : Prop :=
  (∀ md, symlink_metadata V abs = Ok md → file_type md ≠ File)
  ∨ (∀ c, canonicalize V abs = Ok c → Path.path_starts_with c root = false).

Lemma write_tombstone_row v p s :
  clean p → files_keyed (db s) → decodable (db s) (None, v, p) →
  let d := db (write_tombstone env v node p s).2 in
  decodable d (None, v, p) ∧ tomb_at d (None, v, p).
Proof.
  intros Hc Hk (r&Hr&Hh) d. subst d.
  assert (∃ meta, MetaFiles.row_to_meta r = Ok meta ∧ FileMeta.path meta = p
            ∧ FileMeta.content_hash meta = FileRow.content_hash r) as (meta&Hmeta&Hpath&Hhash).
  { unfold MetaFiles.row_to_meta. rewrite hash_of_blob_ok by done. eexists. split; [done|].
    split; [by apply (MetaFilesProps.file_map_path _ _ _ Hk Hr)|done]. }
  assert (db_call env (MetaFiles.get_file_scoped None v p) s = (Ok (Some meta), mk (db s) (S (calls s)))) as Hget.
  { unfold db_call. rewrite Hdb, MetaFilesProps.get_map, Hr by done. simpl.
    by rewrite Hmeta. }
  unfold write_tombstone, st_bind, now. rewrite Hget. cbn [tombstone_of].
  match goal with |- context [MetaFiles.upsert_file_scoped ?t None v ?m] =>
    pose proof (upsert_row t v m (mk (db s) (S (calls s))) p Hk) as Hup end.
  simpl in Hup. rewrite Hpath, clean_path_as_str in Hup by done. specialize (Hup eq_refl).
  split; (eexists; split; [exact Hup|]); rewrite Hr; [by simpl; rewrite Hhash|done].
Qed.

Lemma missing_none root abs s :
  missing root abs → (resolve_present_file env root abs s).1 = Ok None.
Proof.
  intros Hm. unfold resolve_present_file, st_bind, sys, st_ret. simpl. rewrite ?Hview.
  destruct (symlink_metadata V abs) as [md|e] eqn:Hl; [|done].
  case_bool_decide as Hf; simpl; [|done]. case_match; [done|]. simpl. rewrite ?Hview.
  destruct Hm as [Hm|Hm]; [by destruct (Hm md)|].
  destruct (canonicalize V abs) as [c|e]; [|done]. by rewrite Hm.
Qed.

Lemma missing_step v root seen row p s :
  Path.has_root root = true → clean (FileMeta.path row) → files_keyed (db s) →
  decodable (db s) (None, v, p) →
  let d := db (tombstone_missing env v node root seen row s).2 in
  decodable d (None, v, p)
  ∧ (tomb_at (db s) (None, v, p) ∨
     (FileMeta.path row = p ∧ FileMeta.deleted row = false
      ∧ (Path.components (Path.join root p) ∉ seen) ∧ missing root (Path.join root p)) →
     tomb_at d (None, v, p)).
Proof.
  intros Hr Hc Hk Hdec d. destruct (decide (FileMeta.path row = p)) as [<-|Hne].
  2: { destruct (touches_missing env v node root seen row Hr Hc s Hk) as [_ Ht].
       specialize (Ht (None, v, p)). unfold d, decodable, tomb_at. rewrite Ht by congruence.
       split; [done|]. intros [?|[? _]]; [done|congruence]. }
  subst d. unfold tombstone_missing. destruct (FileMeta.deleted row) eqn:Hdel.
  { simpl. split; [done|]. naive_solver. }
  case_bool_decide as Hseen; [simpl; split; [done|]; naive_solver|].
  unfold st_bind.
  destruct (infallible_present env root (Path.join root (FileMeta.path row)) s) as [o Ho].
  destruct (quiet_present env root (Path.join root (FileMeta.path row)) s) as [Hd _].
  pose proof (missing_none root (Path.join root (FileMeta.path row)) s) as Hmiss.
  destruct (resolve_present_file env root (Path.join root (FileMeta.path row)) s) as [r0 s1].
  simpl in *. subst r0. destruct o as [c|]; simpl.
  - rewrite Hd. split; [done|]. intros [?|(_&_&_&Hm)]; [done|]. by specialize (Hmiss Hm).
  - rewrite tombstone_clean by done. rewrite <-Hd in Hk, Hdec.
    destruct (write_tombstone_row v (FileMeta.path row) s1 Hc Hk Hdec). done.
Qed.

Lemma missing_pass v root seen rows p s :
  Path.has_root root = true → Forall (λ row, clean (FileMeta.path row)) rows → files_keyed (db s) →
  decodable (db s) (None, v, p) →
  tomb_at (db s) (None, v, p) ∨
  (∃ row, row ∈ rows ∧ FileMeta.path row = p ∧ FileMeta.deleted row = false
     ∧ (Path.components (Path.join root p) ∉ seen) ∧ missing root (Path.join root p)) →
  tomb_at (db (for_each (tombstone_missing env v node root seen) rows s).2) (None, v, p).
Proof.
  intros Hr. revert s. induction rows as [|x rows IH]; intros s Hc Hk Hdec Hor; cbn [for_each].
  { destruct Hor as [?|(row&Hrow&_)]; [done|]. by apply elem_of_nil in Hrow. }
  inversion Hc as [|?? Hcx Hcr]; subst. unfold st_bind.
  destruct (infallible_missing env v node root seen x s) as [[] Ha].
  destruct (missing_step v root seen x p s Hr Hcx Hk Hdec) as [Hdec1 Ht1].
  destruct (touches_missing env v node root seen x Hr Hcx s Hk) as [Hk1 _].
  destruct (tombstone_missing env v node root seen x s) as [r0 s1]. simpl in *. subst r0.
  apply IH; [done..|]. destruct Hor as [?|(row&[->|Hrow]%elem_of_cons&H)]; [left; auto|left; naive_solver|].
  right. by exists row.
Qed.

(** A path that was seen keeps its row through the tombstone pass. *)
Lemma seen_untouched v root seen rows rel :
  Path.has_root root = true → Forall (λ row, clean (FileMeta.path row)) rows →
  Path.components (Path.join root rel) ∈ seen →
  touches (λ k, k ≠ (None, v, rel)) _ (for_each (tombstone_missing env v node root seen) rows).
Proof.
  intros Hr Hc Hseen. apply rl_for_each; [apply _|]. intros row Hrow. rewrite Forall_forall in Hc.
  destruct (decide (FileMeta.path row = rel)) as [<-|Hne].
  - unfold tombstone_missing. destruct (FileMeta.deleted row); [apply rl_ret, _|].
    rewrite bool_decide_eq_true_2 by done. apply rl_ret, _.
  - eapply touches_weaken; [apply touches_missing; auto|]. intros k -> [= ?]. done.
Qed.

Lemma vault_restored v root rels rows s :
  Path.has_root root = true → Forall clean rels → Forall (λ row, clean (FileMeta.path row)) rows →
  (∀ rel, rel ∈ rels → ∃ h, on_disk root rel h) → files_keyed (db s) →
  let d := db (reconcile_vault env node (v, root, Path.join root <$> rels, rows) s).2 in
  (∀ rel h, rel ∈ rels → on_disk root rel h → live_with d (None, v, rel) h)
  ∧ (∀ row, row ∈ rows → FileMeta.deleted row = false → FileMeta.path row ∉ rels →
       missing root (Path.join root (FileMeta.path row)) →
       decodable (db s) (None, v, FileMeta.path row) → tomb_at d (None, v, FileMeta.path row)).
Proof.
  intros Hr Hrels Hrows Hdisk Hk d. unfold d. cbn [reconcile_vault].
  set (s1 := (revive_pass env v node root (Path.join root <$> rels) s).2).
  set (seen := seen_set (Path.join root <$> rels)).
  assert (touches (λ k, ∃ y, y ∈ rels ∧ k = (None, v, y)) _
            (revive_pass env v node root (Path.join root <$> rels))) as Hrev.
  { unfold revive_pass. apply rl_for_each; [apply _|]. intros f (y&->&Hy)%list_elem_of_fmap. apply rl_warn.
    intros s0 Hk0. destruct (Hdisk y Hy) as [h Hh]. rewrite Forall_forall in Hrels. split.
    - by apply (touches_upsert_local env v node root).
    - intros k Hne. apply (upsert_on_disk v root y h); auto. intros ->. apply Hne. by exists y. }
  destruct (Hrev s Hk) as [Hk1 Hsame].
  assert (db (st_bind (revive_pass env v node root (Path.join root <$> rels)) (λ _,
             st_bind (for_each (tombstone_missing env v node root seen) rows)
               (λ _, st_ret (revived root seen rows))) s).2
          = db (for_each (tombstone_missing env v node root seen) rows s1).2) as ->.
  { unfold st_bind.
    destruct (infallible_for_each (λ abs, warn (upsert_local_file env v node root abs))
      (Path.join root <$> rels) (λ x, infallible_warn _) s) as [[] Ha].
    unfold s1, revive_pass in *. destruct (for_each _ (Path.join root <$> rels) s) as [r0 s0].
    simpl in Ha. subst r0. simpl. destruct (for_each _ rows s0) as [[?|?] ?]; done. }
  split.
  - intros rel h Hin Hd. destruct (revive_pass_live v root rels s rel h) as (row&Hrow&H); [done..|].
    exists row. split; [|done]. rewrite <-Hrow. fold s1.
    apply (seen_untouched v root seen rows rel); [done..| |done|naive_solver].
    apply elem_of_list_to_set, list_elem_of_fmap. eexists; split; [done|]. by apply list_elem_of_fmap_2.
  - intros row Hin Hdel Hno Hmiss Hdec. assert (file_map (db s1) !! (None, v, FileMeta.path row)
      = file_map (db s) !! (None, v, FileMeta.path row)) as Heq.
    { apply Hsame. by intros (y&Hy&[= <-]). }
    apply missing_pass; [done..|unfold decodable; by rewrite Heq|]. right. exists row. split_and!; try done.
    intros (f&Hf&(y&->&Hy)%list_elem_of_fmap)%elem_of_list_to_set%list_elem_of_fmap.
    apply Hno. rewrite Forall_forall in Hrels. rewrite Forall_forall in Hrows.
    by rewrite (clean_join_inj root (FileMeta.path row) y) by auto.
Qed.
End stable.
End ShareIndexLemmas.

Module ShareIndexTheorems.
Import ShareIndex ShareIndexLemmas.

(** The rows of the index hold relative paths as the index writes them. *)
Definition rows_clean (d : MetaDb) : Prop := ∀ r, r ∈ files d → clean (FileRow.path r).

(** C6: Full reconciliation, over roots that are absolute paths and an index
    whose rows are unique and hold clean relative paths. Whatever the file
    system does meanwhile and whichever calls fail: a run that returns an error
    has left every table as it was; and a row that is a tombstone after a run,
    and was none before, was live under a configured root, and a call of this
    run either found its path gone (no entry, no regular file, or one resolving
    outside the root) or could not examine it (a stat or a canonicalization
    that failed with another error, which the code takes for absence). So a path
    that every call of the run can examine is tombstoned only when it was found
    gone, and never while its file is on disk. *)
Theorem full_reconcile_safe {codec : VcCodec} env node roots s k row' :
  files_keyed (db s) → rows_clean (db s) → Forall (λ r, Path.has_root r.2 = true) roots →
  (∀ e s', full_reconcile env node roots s = (Err e, s') → db s' = db s)
  ∧ (file_map (db (full_reconcile env node roots s).2) !! k = Some row' → tomb row' →
     (∃ row, file_map (db s) !! k = Some row ∧ tomb row)
     ∨ ∃ v root p row n,
         k = (None, v, p) ∧ (v, root) ∈ roots ∧ file_map (db s) !! k = Some row ∧ ¬ tomb row
         ∧ (calls s ≤ n < calls (full_reconcile env node roots s).2)%nat
         ∧ (gone_at env n root (Path.join root p) ∨ unexamined_at env n (Path.join root p))).
Proof.
  intros Hk Hclean Hroots. split; [apply full_reconcile_err|]. intros Hrow Ht. set (J := λ n (k : fkey), ∃ v root p row,
    k = (None, v, p) ∧ (v, root) ∈ roots ∧ file_map (db s) !! k = Some row ∧ ¬ tomb row
    ∧ absent_at env n root (Path.join root p)).
  unfold full_reconcile in *. unfold st_bind at 1 in Hrow. unfold st_bind at 1.
  destruct (quiet_gather env roots s) as [Hd Hn].
  destruct (gather env roots s) as [[g|e] s1] eqn:Hg; simpl in Hd, Hn; [|left; rewrite <-Hd; eauto].
  assert (tracks J _ (_ <~ sweep_shadowed_default_rows env roots ;;
                      counts <~ collect (reconcile_vault env node) g ;;
                      st_ret (foldr Nat.add O counts))) as Htr.
  { apply rl_bind; [apply _|apply rl_sweep; [apply _|intros; apply tracks_delete]|]. intros _.
    apply rl_bind; [apply _| |intros; apply rl_ret, _].
    apply rl_collect; [apply _|]. intros [[[v root] fs] rows] Hin.
    destruct (gather_ok _ _ _ _ _ _ _ _ _ Hg Hin) as [Hroot Hlist].
    pose proof (proj1 (Forall_forall _ _) Hroots _ Hroot) as Habs. simpl in Habs.
    cbn [reconcile_vault]. unfold revive_pass. apply rl_bind; [apply _| |].
    { apply rl_for_each; [apply _|]. intros f _. apply rl_warn, rl_upsert_local; [apply _|].
      intros now meta Hdel. apply tracks_upsert. congruence. }
    intros _. apply rl_bind; [apply _| |intros; apply rl_ret, _].
    apply rl_for_each; [apply _|]. intros row Hr.
    destruct (list_rows _ _ _ _ _ _ Hlist Hr) as (r&Hr0&Hkey&Hdel).
    assert (FileRow.path r = FileMeta.path row) as Hpath by (by injection Hkey).
    apply tracks_missing; [done|rewrite <-Hpath; by apply Hclean|]. intros n Hlive Habsent.
    exists v, root, (FileMeta.path row), r. split_and!; [done|done| |by unfold tomb; rewrite <-Hdel, Hlive|done].
    by apply table_map_Some. }
  destruct (Htr s1) as (Hn1&_&H1); [by rewrite Hd|].
  destruct (H1 k row' Hrow Ht) as [Hold|(n&Hrange&v&root&p&row&->&?&?&?&?)]; [left; by rewrite <-Hd|].
  right. exists v, root, p, row, n. split_and!; try done; lia.
Qed.

(** ** Reconciling a file system at rest *)
Section at_rest.
Context {codec : VcCodec} (env : Env) (V : View).
Context (Hview : ∀ n, view env n = V) (Hdb : ∀ n, db_fault env n = None).
Context (node : string).

Lemma list_ok v d :
  (∀ r, r ∈ files d → hash32 (FileRow.content_hash r)) →
  ∃ metas, MetaFiles.list_files_scoped None v d = (Ok metas, d).
Proof.
  intros Hd. unfold MetaFiles.list_files_scoped, st_bind, query, st_lift.
  destruct (collect_results_exists MetaFiles.row_to_meta
    (sort_by MetaFiles.by_path (select (MetaFiles.in_scope None v) (files d)))) as [metas ->]; [|by eexists].
  intros r [Hr _]%elem_of_sort_by%elem_of_select. unfold MetaFiles.row_to_meta.
  rewrite hash_of_blob_ok by auto. by eexists.
Qed.

Lemma collect_all {A B} (f : A → m B) (g : A → B) l d s :
  (∀ x, quiet (f x)) → (∀ x s, x ∈ l → db s = d → (f x s).1 = Ok (g x)) → db s = d →
  (collect f l s).1 = Ok (g <$> l).
Proof.
  intros Hq. revert s. induction l as [|x l IH]; intros s Hf Hs; cbn [collect]; [done|].
  unfold st_bind. specialize (Hf x s ltac:(constructor) Hs) as Hx. destruct (Hq x s) as [Hd _].
  destruct (f x s) as [r s1]. simpl in *. subst r.
  specialize (IH s1). destruct (collect f l s1) as [r s2]. simpl in IH.
  rewrite IH; [done| |congruence]. intros y s' Hy. apply Hf. by constructor.
Qed.

Lemma db_call_list v d metas s :
  MetaFiles.list_files_scoped None v d = (Ok metas, d) → db s = d →
  (db_call env (MetaFiles.list_files_scoped None v) s).1 = Ok metas.
Proof. intros Hl <-. unfold db_call. by rewrite Hdb, Hl. Qed.

Lemma sweep_ok roots s :
  (∀ r, r ∈ files (db s) → hash32 (FileRow.content_hash r)) →
  ∃ n, (sweep_shadowed_default_rows env roots s).1 = Ok n.
Proof.
  intros Hd. unfold sweep_shadowed_default_rows. case_match; [by eexists|].
  destruct (list_ok LEGACY_VAULT (db s) Hd) as [metas Hm]. unfold st_bind.
  destruct (quiet_list env None LEGACY_VAULT s) as [Hq _].
  pose proof (db_call_list _ _ _ s Hm eq_refl) as Hl. destruct (db_call _ _ s) as [r s1].
  simpl in *. subst r. destruct (decide (metas = [])); [by eexists|].
  assert (∃ lists, ∀ v, MetaFiles.list_files_scoped None v (db s) = (Ok (lists v), db s)) as [lists Hlists].
  { exists (λ v, match (MetaFiles.list_files_scoped None v (db s)).1 with Ok l => l | Err _ => [] end).
    intros v. by destruct (list_ok v (db s) Hd) as [? ->]. }
  pose proof (collect_all (λ r : string * string, db_call env (MetaFiles.list_files_scoped None r.1))
    (λ r, lists r.1) roots (db s) s1 (λ r, quiet_list env None r.1)
    (λ r s' _, db_call_list _ _ _ s' (Hlists r.1)) Hq) as Hc.
  destruct (collect _ roots s1) as [r s2]. simpl in Hc. subst r. apply infallible_sweep_rows.
Qed.

Lemma list_rows_inv v d metas r :
  MetaFiles.list_files_scoped None v d = (Ok metas, d) → r ∈ files d →
  FileRow.tenant_id r = None → FileRow.vault_id r = v →
  ∃ meta, meta ∈ metas ∧ FileMeta.path meta = FileRow.path r
    ∧ FileMeta.deleted meta = int_bool (FileRow.deleted r).
Proof.
  unfold MetaFiles.list_files_scoped, st_bind, query, st_lift. intros [= Hc] Hr Ht Hv.
  apply collect_results_inv in Hc.
  assert (r ∈ sort_by MetaFiles.by_path (select (MetaFiles.in_scope None v) (files d))) as [i Hi]%list_elem_of_lookup.
  { apply elem_of_sort_by, elem_of_select. split; [done|]. unfold MetaFiles.in_scope, is_eqb.
    by rewrite !bool_decide_eq_true_2. }
  destruct (Forall2_lookup_l _ _ _ _ _ Hc Hi) as (meta&Hm&Hrm). exists meta.
  split; [by eapply list_elem_of_lookup_2|]. revert Hrm. unfold MetaFiles.row_to_meta.
  destruct (hash_of_blob _ _); [|done]. simpl. by intros [= <-].
Qed.

(** Running the vaults one after the other. *)
Lemma collect_app {A B} (f : A → m B) l1 x l2 s :
  (∀ x, infallible (f x)) →
  (collect f (l1 ++ x :: l2) s).2 = (collect f l2 (f x (collect f l1 s).2).2).2.
Proof.
  intros Hf. revert s. induction l1 as [|y l1 IH]; intros s; cbn [collect app]; unfold st_bind.
  - unfold st_ret. cbn [snd]. destruct (Hf x s) as [a Ha]. destruct (f x s) as [r s1]. simpl in *. subst r.
    by destruct (collect f l2 s1) as [[?|?] ?].
  - destruct (Hf y s) as [a Ha]. destruct (f y s) as [r s1]. simpl in *. subst r.
    specialize (IH s1). destruct (infallible_collect f (l1 ++ x :: l2) Hf s1) as [b Hb].
    destruct (infallible_collect f l1 Hf s1) as [b1 Hb1].
    destruct (collect f (l1 ++ x :: l2) s1) as [? ?], (collect f l1 s1) as [? ?]. simpl in *. subst. done.
Qed.

(** What the two gathering loops bring back for one root. *)
Definition vault_of (disk : string → list string) (lists : string → list FileMeta) (r : string * string) :=
  (r.1, r.2, Path.join r.2 <$> disk r.1, lists r.1).

Lemma gather_all roots disk lists s :
  (∀ r s, r ∈ roots → (walk_files env r.2 s).1 = Ok (Path.join r.2 <$> disk r.1)) →
  (∀ v, MetaFiles.list_files_scoped None v (db s) = (Ok (lists v), db s)) →
  (gather env roots s).1 = Ok (vault_of disk lists <$> roots).
Proof.
  intros Hw Hl. unfold gather, st_bind.
  pose proof (collect_all (λ r : string * string, walk_files env r.2) (λ r, Path.join r.2 <$> disk r.1)
    roots (db s) s (λ r, quiet_walk env r.2) (λ r s' Hr _, Hw r s' Hr) eq_refl) as H1.
  destruct (quiet_collect (λ r : string * string, walk_files env r.2) roots (λ r, quiet_walk env r.2) s) as [Hd _].
  destruct (collect _ roots s) as [r1 s1]. simpl in *. subst r1.
  pose proof (collect_all (λ r : string * string, db_call env (MetaFiles.list_files_scoped None r.1))
    (λ r, lists r.1) roots (db s) s1 (λ r, quiet_list env None r.1)
    (λ r s' _, db_call_list _ _ _ s' (Hl r.1)) Hd) as H2.
  destruct (collect _ roots s1) as [r2 s2]. simpl in *. subst r2. unfold st_ret. cbn [fst]. f_equal. clear.
  induction roots as [|[v root] roots IH]; [done|]. cbn. f_equal. exact IH.
Qed.

Section vaults.
Context (roots : roots) (disk : string → list string) (lists : string → list FileMeta).
Context (Hroots : Forall (λ r, Path.has_root r.2 = true) roots).
Context (Hlists : ∀ v, Forall (λ row, clean (FileMeta.path row)) (lists v)).
Context (Hnd : NoDup roots.*1).

(** The vaults of other names leave a key alone. *)
Lemma others_untouched (l : ShareIndex.roots) v p :
  (∀ r, r ∈ l → r ∈ roots) → v ∉ l.*1 →
  touches (λ k, k ≠ (None, v, p)) _ (collect (reconcile_vault env node) (vault_of disk lists <$> l)).
Proof.
  intros Hsub Hv. apply rl_collect; [apply _|]. intros g (r&->&Hr)%list_elem_of_fmap.
  rewrite Forall_forall in Hroots. eapply touches_weaken; [apply touches_vault; auto|].
  intros k (ps&->) Heq. apply Hv. replace v with r.1 by congruence. by apply list_elem_of_fmap_2.
Qed.

Lemma vaults_restored v root s :
  (v, root) ∈ roots → Forall clean (disk v) → (∀ rel, rel ∈ disk v → ∃ h, on_disk V root rel h) →
  files_keyed (db s) →
  let d := db (collect (reconcile_vault env node) (vault_of disk lists <$> roots) s).2 in
  (∀ rel h, rel ∈ disk v → on_disk V root rel h → live_with d (None, v, rel) h)
  ∧ (∀ row, row ∈ lists v → FileMeta.deleted row = false → FileMeta.path row ∉ disk v →
       missing V root (Path.join root (FileMeta.path row)) →
       decodable (db s) (None, v, FileMeta.path row) → tomb_at d (None, v, FileMeta.path row)).
Proof.
  intros Hin Hdc Hdd Hk. pose proof Hin as Hin'. apply list_elem_of_split in Hin' as (l1&l2&Hl).
  assert ((v ∉ l1.*1) ∧ (v ∉ l2.*1)) as [Hv1 Hv2].
  { rewrite Hl, fmap_app, fmap_cons in Hnd. apply NoDup_app in Hnd as (_&Hx&[Hy _]%NoDup_cons).
    split; [|done]. intros Hv. apply (Hx v Hv). simpl. constructor. }
  pose proof (proj1 (Forall_forall _ _) Hroots _ Hin) as Hr. simpl in Hr.
  assert (∀ l p, (∀ r, r ∈ l → r ∈ roots) → v ∉ l.*1 → ∀ s, files_keyed (db s) →
    let s' := (collect (reconcile_vault env node) (vault_of disk lists <$> l) s).2 in
    files_keyed (db s') ∧ file_map (db s') !! (None, v, p) = file_map (db s) !! (None, v, p)) as Hoth.
  { intros l p Hsub Hv s0 Hk0. destruct (others_untouched l v p Hsub Hv s0 Hk0) as [? H].
    split; [done|]. apply H. naive_solver. }
  rewrite Hl, fmap_app, fmap_cons, collect_app by apply infallible_vault. unfold vault_of at 2. cbn [fst snd].
  set (sa := (collect (reconcile_vault env node) (vault_of disk lists <$> l1) s).2).
  assert (∀ p, files_keyed (db sa) ∧ file_map (db sa) !! (None, v, p) = file_map (db s) !! (None, v, p)) as Ha.
  { intros p. apply Hoth; [|done..]. rewrite Hl. set_solver. }
  destruct (Ha "") as [Hka _].
  destruct (vault_restored env V Hview Hdb node v root (disk v) (lists v) sa) as [Hlive Htomb]; [done..|].
  set (sb := (reconcile_vault env node (v, root, Path.join root <$> disk v, lists v) sa).2) in *.
  assert (files_keyed (db sb)) as Hkb by (by apply (touches_vault env node v root)).
  assert (∀ p, file_map (db (collect (reconcile_vault env node) (vault_of disk lists <$> l2) sb).2) !! (None, v, p)
             = file_map (db sb) !! (None, v, p)) as Hend.
  { intros p. apply Hoth; [|done..]. rewrite Hl. set_solver. }
  unfold live_with, tomb_at. split.
  - intros rel h. rewrite Hend. apply Hlive.
  - intros row H1 H2 H3 H4 Hdec. rewrite Hend. apply Htomb; try done.
    unfold decodable. by rewrite (proj2 (Ha _)).
Qed.
End vaults.
End at_rest.

(** On a file system at rest, with a database that answers, full
    reconciliation succeeds and brings the index in line with the disk:
    every regular file the walk finds ends up as a live row of its vault with
    the digest of its bytes, tombstoned or not before, and every live row
    whose file is missing ends up as a tombstone. *)
Theorem reconcile_restores {codec : VcCodec} env V node roots (disk : string → list string) s :
  (∀ n, view env n = V) → (∀ n, db_fault env n = None) →
  files_keyed (db s) → rows_clean (db s) → (∀ r, r ∈ files (db s) → hash32 (FileRow.content_hash r)) →
  NoDup roots.*1 → Forall (λ r, Path.has_root r.2 = true) roots →
  (∀ r, r ∈ roots → Forall clean (disk r.1) ∧ (∀ rel, rel ∈ disk r.1 → ∃ h, on_disk V r.2 rel h)
     ∧ ∀ s, (walk_files env r.2 s).1 = Ok (Path.join r.2 <$> disk r.1)) →
  ∃ n s', full_reconcile env node roots s = (Ok n, s')
  ∧ ∀ v root, (v, root) ∈ roots →
      (∀ rel h, rel ∈ disk v → on_disk V root rel h → live_with (db s') (None, v, rel) h)
      ∧ ∀ p row, file_map (db s) !! (None, v, p) = Some row → ¬ tomb row → p ∉ disk v →
          missing V root (Path.join root p) → tomb_at (db s') (None, v, p).
Proof.
  intros Hview Hdb Hk Hclean Hhash Hnd Hroots Hdisk.
  set (lists := λ v, match (MetaFiles.list_files_scoped None v (db s)).1 with Ok l => l | Err _ => [] end).
  assert (∀ v, MetaFiles.list_files_scoped None v (db s) = (Ok (lists v), db s)) as Hlists.
  { intros v. unfold lists. by destruct (list_ok v (db s) Hhash) as [? ->]. }
  assert (∀ v, Forall (λ row, clean (FileMeta.path row)) (lists v)) as Hlc.
  { intros v. apply Forall_forall. intros row Hrow.
    destruct (list_rows _ _ _ _ _ _ (Hlists v) Hrow) as (r&Hr&Hkey&_).
    assert (FileRow.path r = FileMeta.path row) as <- by (by injection Hkey). by apply Hclean. }
  pose proof (gather_all env Hdb roots disk lists s (λ r s' Hr, proj2 (proj2 (Hdisk r Hr)) s') Hlists) as Hg.
  unfold full_reconcile, st_bind. destruct (quiet_gather env roots s) as [Hd1 _].
  destruct (gather env roots s) as [r1 s1]. simpl in *. subst r1.
  destruct (sweep_ok env Hdb roots s1) as [n2 Hs2]; [by rewrite Hd1|].
  destruct (touches_sweep env roots s1) as [Hk2 Hsw]; [by rewrite Hd1|].
  destruct (sweep_shadowed_default_rows env roots s1) as [r2 s2]. simpl in *. subst r2. rewrite Hd1 in Hsw.
  destruct (infallible_collect (reconcile_vault env node) (vault_of disk lists <$> roots)
    (infallible_vault env node) s2) as [counts Hc].
  destruct (collect (reconcile_vault env node) (vault_of disk lists <$> roots) s2) as [r3 s3] eqn:Hrun.
  simpl in Hc. subst r3. exists (foldr Nat.add O counts), s3. split; [done|].
  intros v root Hin. destruct (Hdisk (v, root) Hin) as (Hdc&Hdd&_).
  destruct (vaults_restored env V Hview Hdb node roots disk lists Hroots Hlc Hnd v root s2) as [Hlive Htomb];
    [done..|]. rewrite Hrun in Hlive, Htomb. split; [done|].
  intros p row Hrow Hnt Hp Hmiss. pose proof Hrow as [Hr0 Hkey]%table_map_Some; [|done].
  destruct (list_rows_inv v (db s) (lists v) row (Hlists v)) as (meta&Hm&Hpath&Hdel);
    [done|by injection Hkey..|].
  assert (FileRow.path row = p) as Hpp by (by injection Hkey). rewrite Hpp in Hpath.
  rewrite <-Hpath in Hp, Hmiss, Hrow |- *. apply Htomb; [done| |done|done|].
  - rewrite Hdel. by apply not_true_is_false.
  - exists row. split; [|by apply Hhash]. rewrite Hsw; [done|].
    intros [Hno (ps&[= -> _])]. apply Hno. apply (list_elem_of_fmap_2 fst _ _ Hin).
Qed.

(** A local edit under a share root is indexed with an empty vector
    clock. When a client has changed the same file since the last sync and
    has ever ticked its clock, the reconciler takes the client's version as
    the later one: it answers [Upload] with no conflict, where the two edits
    are concurrent. *)
Theorem indexed_edit_yields {codec : VcCodec} env V node v root rel h s client base :
  (∀ n, view env n = V) → (∀ n, db_fault env n = None) →
  Path.has_root root = true → clean rel → on_disk V root rel h → hash32 h → files_keyed (db s) →
  FileMeta.deleted client = false → FileMeta.deleted base = false →
  VC.wf (FileMeta.vector_clock client) → (∃ n, 0 < VC.get (FileMeta.vector_clock client) n) →
  FileMeta.content_hash client ≠ h → FileMeta.content_hash base ≠ h →
  FileMeta.content_hash client ≠ FileMeta.content_hash base →
  ∃ meta, let d := db (upsert_local_file env v node root (Path.join root rel) s).2 in
    MetaFiles.get_file_scoped None v rel d = (Ok (Some meta), d)
    ∧ FileMeta.content_hash meta = h ∧ FileMeta.vector_clock meta = VC.new
    ∧ Tree.resolve_one rel (Some client) (Some meta) (Some base)
      = Ok (SyncAction.mk rel Upload (Some meta) None None).
Proof.
  intros Hview Hdb Hr Hc Hd Hh Hk Hcl Hbl Hwf [n Hn] H1 H2 H3.
  destruct (upsert_local_run env V Hview node v root rel h s) as (s0&t&m&Hs0&->&Hp&Hdel&Hhash&Hvc); [done..|].
  rewrite <-Hs0 in Hk.
  assert (path_as_str (FileMeta.path m) = Ok rel) as Hps by (rewrite Hp; by apply clean_path_as_str).
  pose proof (upsert_row env Hdb t v m s0 rel Hk Hps) as Hrow.
  destruct (touches_upsert env t None v m s0 Hk) as [Hk' _].
  set (d := db (db_call env (MetaFiles.upsert_file_scoped t None v m) s0).2) in *.
  destruct (upserted_meta t v rel m (file_map (db s0) !! (None, v, rel))) as (meta&Hm&Hmh&Hmv&Hmd);
    [by rewrite Hhash|rewrite Hvc; by apply map_Forall_empty|].
  exists meta. cbv zeta. rewrite MetaFilesProps.get_map, Hrow by done. simpl. rewrite Hm. split; [done|]. split; [congruence|]. split; [congruence|].
  unfold Tree.resolve_one. simpl. rewrite Hcl, Hbl, Hmd, Hdel. simpl. unfold Tree.hashes_eq.
  rewrite Hmh, Hhash. rewrite !bool_decide_eq_false_2 by done. simpl.
  unfold Tree.clock_compare. simpl. rewrite Hmv, Hvc.
  pose proof (VC.compare_cases (FileMeta.vector_clock client) VC.new Hwf (map_Forall_empty _)) as Hcmp.
  assert (VC.leq VC.new (FileMeta.vector_clock client)) as Hle.
  { intros k. pose proof (VC.get_wf _ k Hwf). unfold_ints. exact (proj1 H). }
  assert (¬ VC.leq (FileMeta.vector_clock client) VC.new) as Hnle.
  { intros H. specialize (H n). change (VC.get VC.new n) with 0 in H. lia. }
  destruct (VC.compare _ _); naive_solver.
Qed.

(** ** The index loop after an error *)
Inductive lstep {codec : VcCodec} env node roots : Loop → Loop → Prop :=
  | step_notify v root ev l : lstep env node roots l (on_notify v root ev l)
  | step_request l : lstep env node roots l (request_full_reconcile l)
  | step_turn debounce during l : lstep env node roots l (turn env node roots debounce during l).

Lemma try_sends_dead es l :
  alive l = false →
  alive (foldl (λ l e, try_send e l) l es) = false
  ∧ state (foldl (λ l e, try_send e l) l es) = state l.
Proof.
  revert l. induction es as [|e es IH]; intros l Hl; [done|]. cbn [foldl].
  assert (try_send e l = mkLoop (chan l) true (alive l) (state l)) as -> by (unfold try_send; by rewrite Hl).
  exact (IH (mkLoop (chan l) true (alive l) (state l)) Hl).
Qed.

Lemma dead_step {codec : VcCodec} env node roots l l' :
  lstep env node roots l l' → alive l = false → alive l' = false ∧ state l' = state l.
Proof.
  destruct 1 as [v root [ev|e] l|l|debounce during l]; intros Hl; try done.
  - by apply try_sends_dead.
  - unfold turn. by rewrite Hl.
Qed.

(** One failed reconciliation ends the share index for good: the loop
    task returns, and whatever is notified, requested through
    [request_full_reconcile] or scheduled afterwards, the index never
    changes again. *)
Theorem reconcile_error_ends_loop {codec : VcCodec} env node roots debounce during l e s' l' :
  alive l = true → saturation l = true → full_reconcile env node roots (state l) = (Err e, s') →
  rtc (lstep env node roots) (turn env node roots debounce during l) l' →
  alive l' = false ∧ db (state l') = db (state l).
Proof.
  intros Ha Hs He Hrtc.
  assert (turn env node roots debounce during l = mkLoop [] false false s') as Hturn.
  { unfold turn, reconcile_if_saturated. by rewrite Ha, Hs, He. }
  rewrite Hturn in Hrtc. rewrite <-(full_reconcile_err _ _ _ _ _ _ He).
  remember (mkLoop [] false false s') as l1 eqn:Hl1.
  assert (alive l1 = false ∧ state l1 = s') as [Hd1 <-]. { rewrite Hl1. done. }
  clear Hl1 Hturn He Ha Hs. induction Hrtc as [l1|l1 l2 l3 Hstep _ IH]; [by split|].
  destruct (dead_step _ _ _ _ _ Hstep Hd1) as [Hd2 Heq]. rewrite <-Heq. by apply IH.
Qed.

(** ** The walk's depth

    A directory is deeper than the one that lists it, and a path of [PATH_MAX]
    components or more cannot be opened: so the recursion bound is never what
    ends the walk. *)
Section depth.
Context {codec : VcCodec} (env : Env).
Context (Hdeep : ∀ n dir, (PATH_MAX ≤ length (Path.components dir))%nat →
  ∃ e, read_dir (view env n) dir = Err e).
Context (Hchild : ∀ n n' dir es e c,
  read_dir (view env n) dir = Ok es → Ok e ∈ es → entry_type e = Ok Dir →
  canonicalize (view env n') (entry_path e) = Ok c → Path.path_starts_with c dir = true →
  (length (Path.components dir) < length (Path.components c))%nat).

Lemma walk_entries_ext w1 w2 root dir es n s :
  read_dir (view env n) dir = Ok es →
  (∀ c s, (length (Path.components dir) < length (Path.components c))%nat → w1 c s = w2 c s) →
  walk_entries env w1 root dir es s = walk_entries env w2 root dir es s.
Proof.
  intros Hes Hw. assert (∀ x, x ∈ es → x ∈ es) as Hsub by done. revert Hsub s.
  generalize es at 1 3 4. intros l. induction l as [|e l IH]; intros Hsub s; [done|].
  cbn [walk_entries]. unfold st_bind, st_lift, map_err.
  destruct e as [e|msg]; [|done]. destruct (entry_type e) as [ft|msg] eqn:Hft; [|done].
  assert (∀ s, walk_entries env w1 root dir l s = walk_entries env w2 root dir l s) as Hl.
  { intros s'. apply IH. intros x Hx. apply Hsub. by constructor. }
  destruct (decide (ft = Symlink)); [unfold st_ret; by rewrite Hl|].
  destruct (is_internal_path root (entry_path e)); [unfold st_ret; by rewrite Hl|].
  destruct (decide (ft = File)).
  { unfold io_at, st_bind, sys, st_lift, map_err, st_ret. simpl.
    destruct (canonicalize _ _); [by rewrite Hl|done]. }
  destruct (decide (ft = Dir)) as [->|]; [|unfold st_ret; by rewrite Hl].
  unfold io_at, st_bind, sys, st_lift, map_err. simpl.
  destruct (canonicalize _ (entry_path e)) as [c|msg] eqn:Hc; [|done].
  destruct (Path.path_starts_with c dir) eqn:Hst; [|unfold st_ret; by rewrite Hl].
  rewrite Hw by (eapply Hchild; eauto; apply Hsub; constructor).
  destruct (w2 c _) as [[?|?] ?]; [by rewrite Hl|done].
Qed.

Lemma walk_bound_enough fuel k root dir s :
  (PATH_MAX < S fuel + length (Path.components dir))%nat →
  walk_files_impl env (S fuel) root dir s = walk_files_impl env (S fuel + k) root dir s.
Proof.
  revert dir s. induction fuel as [|fuel IH]; intros dir s Hf.
  - destruct (Hdeep (calls s) dir) as [e He]; [lia|]. cbn [walk_files_impl plus].
    unfold st_bind, io_at, sys, st_lift, st_bind. simpl. by rewrite He.
  - replace (S (S fuel) + k)%nat with (S (S fuel + k)) by lia.
    change (walk_files_impl env (S (S fuel))) with (λ root dir,
      entries <~ io_at env dir (λ v, read_dir v dir) ;;
      walk_entries env (walk_files_impl env (S fuel) root) root dir entries).
    change (walk_files_impl env (S (S fuel + k))) with (λ root dir,
      entries <~ io_at env dir (λ v, read_dir v dir) ;;
      walk_entries env (walk_files_impl env (S fuel + k) root) root dir entries).
    cbv beta. unfold st_bind, io_at, st_bind, sys, st_lift, map_err.
    destruct (read_dir (view env (calls s)) dir) as [es|e] eqn:Hes; [|done].
    eapply walk_entries_ext; [done|]. intros c s' Hlt. apply IH. lia.
Qed.

(** Any greater bound gives the same walk. *)
Theorem walk_files_bound k root s :
  Path.has_root root = true →
  walk_files env root s = walk_files_impl env (PATH_MAX + k) root root s.
Proof.
  intros Hr. unfold walk_files. apply (walk_bound_enough 4095 k).
  rewrite components_abs by done. simpl. unfold PATH_MAX. lia.
Qed.
End depth.

(** ** A small share: [/kb/a.md] is on disk, [b.md] was indexed and is gone *)
Definition demo_file : Metadata := {| file_type := File; len := 3; mtime := 1; mtime_nsec := 0 |}.
Definition demo_hash : bytes := replicate 32 Byte.x01.
Definition no_entry : Fs.io_error := Fs.IoError Fs.NotFound "no such file".
Definition denied : Fs.io_error := Fs.IoError Fs.OtherKind "permission denied".
Definition demo_view : View := {|
  symlink_metadata p := if decide (p = "/kb/a.md") then Ok demo_file else Err no_entry;
  metadata p := if decide (p = "/kb/a.md") then Ok demo_file else Err no_entry;
  canonicalize p := if decide (p = "/kb/a.md") then Ok p else Err no_entry;
  read_dir p := if decide (p = "/kb")
                then Ok [Ok {| entry_path := "/kb/a.md"; entry_type := Ok File |}] else Err no_entry;
  digest p := if decide (p = "/kb/a.md") then Ok demo_hash else Err "not found";
  file_id _ := None;
  is_dir p := bool_decide (p = "/kb")
|}.
Definition demo_env : Env := {| view _ := demo_view; unix_now _ := 7; db_fault _ := None |}.
Definition demo_row (p : string) (del : Z) : FileRow.t :=
  FileRow.mk None "kb" p (replicate 32 Byte.x02) 3 1 None (vc_to_json VC.new) del None None None None 1 1.
Definition demo_rows : st :=
  mk (set_files (λ _, [demo_row "a.md" 1; demo_row "b.md" 0]) empty_db) 0.
Definition demo_roots : roots := [("kb", "/kb")].

Lemma demo_clean p : p = "a.md" ∨ p = "b.md" → clean p.
Proof. intros [->| ->]; split_and!; [by repeat constructor|vm_compute; set_solver|done|by repeat constructor|vm_compute; set_solver|done]. Qed.

Lemma demo_keyed : files_keyed (db demo_rows).
Proof. by apply (bool_decide_unpack _). Qed.

Lemma demo_rows_clean : rows_clean (db demo_rows).
Proof. intros r [->|[->|[]%elem_of_nil]%elem_of_cons]%elem_of_cons; apply demo_clean; auto. Qed.

Lemma demo_on_disk : on_disk demo_view "/kb" "a.md" demo_hash.
Proof. split_and!; [by exists demo_file|done|by eexists|done]. Qed.

Lemma full_reconcile_safe_witness :
  let s' := (full_reconcile demo_env "srv" demo_roots demo_rows).2 in
  ∃ row', file_map (db s') !! (None, "kb", "b.md") = Some row' ∧ tomb row'
    ∧ ∃ n, (n < calls s')%nat ∧ gone_at demo_env n "/kb" "/kb/b.md".
Proof.
  cbv zeta. eexists. split; [vm_compute; reflexivity|]. split; [reflexivity|].
  destruct (full_reconcile_safe demo_env "srv" demo_roots demo_rows (None, "kb", "b.md")
    (upserted 7 None "kb" "b.md" (FileMeta.mk "b.md" (replicate 32 Byte.x02) 3 1 None VC.new true
       (Some 7) "" None None None) (Some (demo_row "b.md" 0))))
    as [_ H]; [exact demo_keyed|exact demo_rows_clean|by repeat constructor|].
  destruct H as [(row&Hrow&Ht)|(v&root&p&row&n&Hk&Hin&_&_&Hn&Habs)];
    [vm_compute; reflexivity|reflexivity| |].
  - vm_compute in Hrow. injection Hrow as <-. done.
  - injection Hk as <- <-. apply list_elem_of_singleton in Hin. injection Hin as ->. exists n.
    split; [lia|]. destruct Habs as [Habs|Habs]; [exact Habs|by destruct Habs].
Defined.

(** A stat that fails is taken for absence: [b.md] is on disk, the walk did not
    reach it and its entry cannot be examined, and its live row becomes a
    tombstone. *)
Example failing_stat_tombstones :
  let v := {| symlink_metadata p := if decide (p = "/kb/b.md") then Err denied else symlink_metadata demo_view p;
              metadata := metadata demo_view; canonicalize := canonicalize demo_view;
              read_dir := read_dir demo_view; digest := digest demo_view; file_id := file_id demo_view;
              is_dir := is_dir demo_view |} in
  let env := {| view _ := v; unix_now _ := 7; db_fault _ := None |} in
  let '(r, s) := full_reconcile env "srv" demo_roots demo_rows in
  is_ok r = true ∧ (int_bool ∘ FileRow.deleted <$> file_map (db s) !! (None, "kb", "b.md")) = Some true.
Proof. vm_compute. split; reflexivity. Qed.

Lemma reconcile_restores_witness :
  ∃ n s', full_reconcile demo_env "srv" demo_roots demo_rows = (Ok n, s')
    ∧ live_with (db s') (None, "kb", "a.md") demo_hash ∧ tomb_at (db s') (None, "kb", "b.md").
Proof.
  destruct (reconcile_restores demo_env demo_view "srv" demo_roots (λ _, ["a.md"]) demo_rows)
    as (n&s'&Hrun&Hv); [done|done|exact demo_keyed|exact demo_rows_clean| | | | |].
  - intros r [->|[->|[]%elem_of_nil]%elem_of_cons]%elem_of_cons; reflexivity.
  - apply NoDup_singleton.
  - by repeat constructor.
  - intros r ->%list_elem_of_singleton. split_and!.
    + constructor; [apply demo_clean; auto|constructor].
    + intros rel ->%list_elem_of_singleton. exists demo_hash. exact demo_on_disk.
    + intros s. destruct s. vm_compute. reflexivity.
  - exists n, s'. split; [exact Hrun|]. destruct (Hv "kb" "/kb") as [Hl Ht]; [by constructor|]. split.
    + apply Hl; [by constructor|exact demo_on_disk].
    + apply (Ht "b.md" (demo_row "b.md" 0)); [vm_compute; reflexivity|done| |left; done].
      intros H%list_elem_of_singleton. done.
Defined.

Definition demo_client : FileMeta :=
  FileMeta.mk "a.md" (replicate 32 Byte.x03) 3 1 None {["laptop" := 1]} false None "laptop" None None None.
Definition demo_base : FileMeta :=
  FileMeta.mk "a.md" (replicate 32 Byte.x02) 3 1 None ∅ false None "" None None None.

Lemma indexed_edit_yields_witness :
  ∃ meta, Tree.resolve_one "a.md" (Some demo_client) (Some meta) (Some demo_base)
          = Ok (SyncAction.mk "a.md" Upload (Some meta) None None)
    ∧ FileMeta.content_hash meta = demo_hash.
Proof.
  destruct (indexed_edit_yields demo_env demo_view "srv" "kb" "/kb" "a.md" demo_hash demo_rows
    demo_client demo_base) as (meta&_&Hh&_&Hr); try done.
  - apply demo_clean; auto.
  - exact demo_on_disk.
  - exact demo_keyed.
  - apply map_Forall_singleton. unfold_ints. simpl. lia.
  - by exists "laptop".
  - by exists meta.
Defined.

(** A root that became unreadable. *)
Definition demo_bad : Env :=
  {| view _ := {| symlink_metadata := symlink_metadata demo_view; metadata := metadata demo_view;
                  canonicalize := canonicalize demo_view; read_dir _ := Err denied;
                  digest := digest demo_view; file_id := file_id demo_view; is_dir := is_dir demo_view |};
     unix_now _ := 7; db_fault _ := None |}.

Lemma reconcile_error_ends_loop_witness :
  let l := mkLoop [] true true demo_rows in
  let l' := request_full_reconcile (turn demo_bad "srv" demo_roots [] [] l) in
  alive l' = false ∧ db (state l') = db demo_rows ∧ saturation l' = true.
Proof.
  intros l l'.
  destruct (reconcile_error_ends_loop demo_bad "srv" demo_roots [] [] l (Io "/kb" denied)
    (mk (db demo_rows) 1) l') as [Ha Hd]; [done|done|vm_compute; reflexivity| |done].
  apply rtc_once. apply step_request.
Defined.
End ShareIndexTheorems.
