(* ===== verification/Wire.v ===== *)
(** * The client's cycle ([disk-client/src/sync_loop/wire.rs], [connection.rs])

    One iteration of a share: scan, exchange of state, then the uploads,
    downloads, conflicts and deletions the server answered with, on the
    client's file system and its own index. What the server, the LAN peers,
    the clock and the random generator answer is an argument, by the number of
    the call; every system call and every statement may fail. *)

From stdpp Require Import prelude gmap strings.
From Stdlib Require Import ZArith Lia Strings.Ascii Strings.Byte.
From S2P Require Import Prelude Text VectorClock Types Delta Fork Fs BlobStore E2ee ConflictWriter Guard Scanner.
From S2P Require Import Sql MetaDb MetaFiles MetaSync SyncLoop SyncService ShareIndex.

#[local] Open Scope Z_scope.

(** ** Errors of a call *)
Module Client.
(** [tonic::Code], the codes the client tells apart. *)
Inductive Code := PermissionDenied | Unavailable | DeadlineExceeded | Unauthenticated | OtherCode.
#[global] Instance Code_eq_dec : EqDecision Code.
Proof. solve_decision. Defined.

Record Status := { code : Code; message : string; details : bytes }.

Inductive ClientError :=
  | Transport (msg : string)
  | StatusE (s : Status)
  | NotAuthenticated
  | MetadataError (msg : string).

Definition is_session_rejected (e : ClientError) : bool :=
  match e with StatusE s => bool_decide (code s = Unauthenticated) | _ => false end.

Section classify.
(** Whether [AclMismatchDetails::decode] accepts the bytes. *)
Context (acl_details : bytes → bool).

Definition classify_tonic_status (s : Status) : SyncLoop.LoopError :=
  if negb (bool_decide (details s = [])) && acl_details (details s) then SyncLoop.AclRoleMismatch
  else match code s with
       | PermissionDenied =>
           if contains (message s) "share unknown" then SyncLoop.ShareUnknown
           else SyncLoop.AclRoleMismatch
       | _ => SyncLoop.TransportUnavailable
       end.

Definition classify_client_error (e : ClientError) : SyncLoop.LoopError :=
  match e with
  | StatusE s => classify_tonic_status s
  | Transport _ | NotAuthenticated | MetadataError _ => SyncLoop.TransportUnavailable
  end.
End classify.

(** [delta_upload] of the client: the stream it sends, and its check of the
    answer. *)
Record UploadMessage := { m_path : string; m_content_hash : bytes; m_chunks : list Chunk }.

Definition upload_messages (path : string) (p : E2ee.UploadPayload) (cs : list Chunk) : list UploadMessage :=
  match cs with
  | [] => [{| m_path := path; m_content_hash := E2ee.content_hash p; m_chunks := [] |}]
  | c :: cs =>
      {| m_path := path; m_content_hash := E2ee.content_hash p; m_chunks := [c] |}
      :: ((λ c, {| m_path := ""; m_content_hash := []; m_chunks := [c] |}) <$> cs)
  end.

Definition check_upload_answer (p : E2ee.UploadPayload) (accepted : bool) (resulting : bytes)
    : result unit ClientError :=
  if negb accepted then Err (MetadataError "server did not accept upload")
  else if negb (bool_decide (hash32 resulting)) then Err (MetadataError "invalid resulting_hash length")
  else if negb (bool_decide (resulting = E2ee.content_hash p)) then Err (MetadataError "resulting_hash mismatch")
  else Ok tt.
End Client.

Inductive Direction := ReceiveOnly | SendOnly | Bidirectional | Publisher.
#[global] Instance Direction_eq_dec : EqDecision Direction.
Proof. solve_decision. Defined.

Module Wire.
Import Path Proto E2ee Client.

(** [RemoteSync]; [None] in [e2ee_key], [blob_cache] and [declared_direction]
    is a builder not called. *)
Record RemoteSync := {
  share : string;
  scan_root : string;
  node_id : string;
  blob_cache : option string;
  baselines : gmap string bytes;
  e2ee_key : option bytes;
  declared_direction : option Direction
}.

(** What a cycle changes: the disk, the index, the cached ciphertexts, the
    session token; [sent] is the uploads handed to the server, in order. *)
Record client := mk {
  fs : Fs.t;
  meta_db : option MetaDb;
  e2ee_wire_cache : gmap string E2eeCachedWire;
  session_token : option string;
  sent : list (string * UploadPayload);
  tick : nat
}.

(** The world of one cycle. [lan] is [None] when LAN sync is off. *)
Record env := {
  walker : list (result Scanner.entry string);
  exchange : list FileMetadata → gmap string Z → result SyncStateResponse ClientError;
  upload : nat → string → UploadPayload → result unit ClientError;
  download : nat → string → result bytes ClientError;
  lan : option (nat → string → option bytes → option bytes);
  nonce : nat → bytes;
  clock : nat → Z;
  mtime : nat → string → Z;
  db_fault : nat → option MetaDbError
}.

Definition set_fs (x : Fs.t) (c : client) : client :=
  mk x (meta_db c) (e2ee_wire_cache c) (session_token c) (sent c) (tick c).
Definition set_db (x : option MetaDb) (c : client) : client :=
  mk (fs c) x (e2ee_wire_cache c) (session_token c) (sent c) (tick c).
Definition set_wires (x : gmap string E2eeCachedWire) (c : client) : client :=
  mk (fs c) (meta_db c) x (session_token c) (sent c) (tick c).
Definition clear_session_token (c : client) : client :=
  mk (fs c) (meta_db c) (e2ee_wire_cache c) None (sent c) (tick c).
Definition log_sent (p : string) (u : UploadPayload) (c : client) : client :=
  mk (fs c) (meta_db c) (e2ee_wire_cache c) (session_token c) (sent c ++ [(p, u)]) (tick c).
Definition next (c : client) : client :=
  mk (fs c) (meta_db c) (e2ee_wire_cache c) (session_token c) (sent c) (S (tick c)).

Definition vault_relative_path_key (path : string) : string :=
  replace_char "\"%char "/"%char (Lossy.to_string_lossy path).

Section cycle.
Context {codec : VcCodec} {cipher : Cipher} (blake3 : bytes → bytes) (acl_details : bytes → bool).
Context (diffy_merge : bytes → bytes → bytes → result bytes bytes).
Context (f : Fs.faults) (cut : Fs.cuts) (e : env) (self : RemoteSync).

(** A file operation, and a statement on the index when there is one. *)
Definition io {A E} (m : stm Fs.t E A) (c : client) : result A E * client :=
  let '(r, fs) := m (fs c) in (r, set_fs fs c).

Definition with_db {A} (q : dbm A) (c : client) : option (result A MetaDbError) * client :=
  match meta_db c with
  | None => (None, c)
  | Some d =>
      match db_fault e (tick c) with
      | Some err => (Some (Err err), next c)
      | None => let '(r, d) := q d in (Some r, next (set_db (Some d) c))
      end
  end.

(** The rows of [list_all_files], by path; nothing when the call fails. *)
Definition db_rows (c : client) : list FileMeta * client :=
  let '(r, c) := with_db MetaFiles.list_all_files c in
  (match r with Some (Ok rows) => rows | _ => [] end, c).

Definition db_index (rows : list FileMeta) : gmap string FileMeta :=
  foldl (λ m row, <[vault_relative_path_key (FileMeta.path row) := row]> m) ∅ rows.

(** ** The report *)

(** One entry of [retain_mut]: [None] drops it. *)
Definition overlay_one (key : bytes) (index : gmap string FileMeta) (meta : FileMeta) (c : client)
    : option FileMeta * client :=
  let path_str := vault_relative_path_key (FileMeta.path meta) in
  let cached := match index !! path_str ≫= from_file_meta with
                | Some w => Some w
                | None => e2ee_wire_cache c !! path_str
                end in
  let fresh :=
    let '(r, c) := io (Fs.read f (join (scan_root self) (FileMeta.path meta))) c in
    match r with
    | Err _ => (None, c)
    | Ok plain =>
        match overlay_scanned_meta blake3 (nonce e (tick c)) meta key cached plain with
        | Ok (m, Some w) => (Some m, next (set_wires (<[path_str := w]> (e2ee_wire_cache c)) c))
        | Ok (m, None) => (Some m, next c)
        | Err _ => (None, next c)
        end
    end in
  match cached with
  | Some w => if matches_scan w meta
              then (Some (set_wire (w_content_hash w) (w_encryption_nonce w) meta), c)
              else fresh
  | None => fresh
  end.

Fixpoint overlay_all (key : bytes) (index : gmap string FileMeta) (metas : list FileMeta) (c : client)
    : list FileMeta * client :=
  match metas with
  | [] => ([], c)
  | m :: metas =>
      let '(r, c) := overlay_one key index m c in
      let '(rest, c) := overlay_all key index metas c in
      (match r with Some m => m :: rest | None => rest end, c)
  end.

Definition overlay_e2ee_exchange_files (metas : list FileMeta) (c : client) : list FileMeta * client :=
  match e2ee_key self with
  | None => (metas, c)
  | Some key => let '(rows, c) := db_rows c in overlay_all key (db_index rows) metas c
  end.

Definition overlay_version_ids_from_db (index : gmap string FileMeta) (meta : FileMeta) : FileMeta :=
  match index !! vault_relative_path_key (FileMeta.path meta) with
  | Some row => FileMeta.mk (FileMeta.path meta) (FileMeta.content_hash meta) (FileMeta.size meta)
                  (FileMeta.mtime_ns meta) (FileMeta.inode meta) (FileMeta.vector_clock meta)
                  (FileMeta.deleted meta) (FileMeta.deleted_at meta) (FileMeta.node_id meta)
                  (FileMeta.encryption_nonce meta) (FileMeta.version_id row) (FileMeta.parent_version_id row)
  | None => meta
  end.

(** [Filter::from_config] of the default rules: the empty glob set always
    compiles and matches nothing. *)
Definition default_filter : Filter.t := Filter.mk [] [] (λ _, false).

(** The metadata the cycle sends; a scan that fails sends none. *)
Definition local_files (c : client) : list FileMetadata * client :=
  if decide (scan_root self = "") then ([], c)
  else
    let '(rows, c) := db_rows c in
    let last_known := foldl (λ m row, <[components (FileMeta.path row) := row]> m) ∅ rows in
    match Scanner.scan (Scanner.mk (scan_root self) default_filter last_known (node_id self)) (walker e) with
    | Err _ => ([], c)
    | Ok metas =>
        let '(metas, c) := overlay_e2ee_exchange_files metas c in
        let '(rows, c) := db_rows c in
        (Convert.file_meta_to_proto <$> (overlay_version_ids_from_db (db_index rows) <$> metas), c)
    end.

(** The maximum tick of each node over the report. *)
Definition node_clock (files : list FileMetadata) : gmap string Z :=
  foldl (λ clk m, map_fold (λ node t clk,
    let entry := default 0 (clk !! node) in
    <[node := if bool_decide (entry < t) then t else entry]> clk) clk (FileMetadata.vector_clock m)) ∅ files.

(** ** Uploads *)
Definition persist_e2ee_wire_meta (rel_path : string) (h n : bytes) (mtime_ns plaintext_size : Z)
    (c : client) : client :=
  let c := set_wires (<[rel_path := mkWire h n mtime_ns plaintext_size]> (e2ee_wire_cache c)) c in
  (with_db (MetaFiles.upsert_file_scoped (clock e (tick c)) None (share self)
     (FileMeta.mk rel_path h plaintext_size mtime_ns None VC.new false None (node_id self) (Some n) None None))
     c).2.

Definition blen (b : bytes) : Z := Z.of_nat (length b).

Definition upload_one (m : FileMetadata) (c : client) : client :=
  let p := FileMetadata.path m in
  if Filter.is_sync_ephemeral_marker p then c
  else
    let file_path := join (scan_root self) p in
    let '(r, c) := io (Fs.read f file_path) c in
    match r with
    | Err _ => c
    | Ok b =>
        let payload := match e2ee_key self with
                       | Some key => from_plaintext_encrypted blake3 (nonce e (tick c)) b key
                       | None => Ok (from_plaintext blake3 b)
                       end in
        match payload with
        | Err _ => c
        | Ok payload =>
            let c := log_sent p payload c in
            let r := upload e (tick c) p payload in
            let c := next c in
            match r with
            | Err _ => c
            | Ok _ =>
                if decide (encryption_nonce payload = []) then c
                else persist_e2ee_wire_meta p (content_hash payload) (encryption_nonce payload)
                       (mtime e (tick c) file_path) (blen b) c
            end
        end
    end.

Definition uploads (resp : SyncStateResponse) (c : client) : client :=
  if decide (declared_direction self = Some ReceiveOnly) then c
  else foldl (λ c m, upload_one m c) c (to_upload resp).

(** ** Downloads *)
Definition materialize_downloaded_bytes (wire : bytes) (m : FileMetadata) : option bytes :=
  let expected := if decide (hash32 (FileMetadata.content_hash m)) then FileMetadata.content_hash m
                  else zero_hash in
  match from_wire_bytes blake3 wire (FileMetadata.encryption_nonce m) expected (e2ee_key self) with
  | Ok p => Some (plaintext p)
  | Err _ => None
  end.

Record tally := mkTally {
  attempted : Z;
  failed : Z;
  rejected : bool;
  entries : list FileMeta
}.

(** LAN peers first, when there are any. *)
Definition fetch (m : FileMetadata) (c : client) : result bytes ClientError * client :=
  let p := FileMetadata.path m in
  let expected := if decide (hash32 (FileMetadata.content_hash m)) then Some (FileMetadata.content_hash m)
                  else None in
  match lan e ≫= λ peers, peers (tick c) p expected with
  | Some b => (Ok b, next c)
  | None => (download e (tick c) p, next c)
  end.

Definition create_parent (dest : string) (c : client) : client :=
  match parent dest with
  | Some d => (io (Fs.create_dir_all f d) c).2
  | None => c
  end.

(** Everything after the bytes are on disk. *)
Definition record_download (m : FileMetadata) (dest : string) (plain : bytes) (c : client)
    : FileMeta * client :=
  let encrypted := negb (bool_decide (FileMetadata.encryption_nonce m = [])) in
  let cache_key := if encrypted
                   then (if decide (hash32 (FileMetadata.content_hash m))
                         then FileMetadata.content_hash m else zero_hash)
                   else blake3 plain in
  let c := match blob_cache self with
           | Some root => (io (BlobCache.put f root cache_key plain) c).2
           | None => c
           end in
  let b := Convert.proto_to_file_meta m in
  let base := FileMeta.mk (FileMeta.path b) cache_key (blen plain) (FileMeta.mtime_ns b) (FileMeta.inode b)
    (FileMeta.vector_clock b) (FileMeta.deleted b) (FileMeta.deleted_at b) (FileMeta.node_id b)
    (if encrypted then Some (FileMetadata.encryption_nonce m) else FileMeta.encryption_nonce b)
    (FileMeta.version_id b) (FileMeta.parent_version_id b) in
  (base,
   if encrypted
   then persist_e2ee_wire_meta (FileMetadata.path m) cache_key (FileMetadata.encryption_nonce m)
          (mtime e (tick c) dest) (blen plain) c
   else c).

Definition download_one (st : tally * client) (m : FileMetadata) : tally * client :=
  let '(t, c) := st in
  let '(r, c) := fetch m c in
  match r with
  | Err err => (mkTally (attempted t + 1) (failed t + 1) (rejected t || is_session_rejected err) (entries t), c)
  | Ok wire =>
      match materialize_downloaded_bytes wire m with
      | None => (t, c)
      | Some plain =>
          let dest := join (scan_root self) (FileMetadata.path m) in
          let c := create_parent dest c in
          let '(w, c) := io (Fs.write f cut dest plain) c in
          match w with
          | Err _ => (t, c)
          | Ok _ =>
              let '(b, c) := record_download m dest plain c in
              (mkTally (attempted t + 1) (failed t) (rejected t) (entries t ++ [b]), c)
          end
      end
  end.

Definition save_baselines (bs : list FileMeta) (c : client) : client :=
  if decide (bs = []) then c
  else (with_db (MetaBaselines.upsert_node_baselines (clock e (tick c)) (node_id self) (share self) bs) c).2.

Definition downloads (resp : SyncStateResponse) (c : client) : tally * client :=
  let '(t, c) := foldl download_one (mkTally 0 0 false [], c) (to_download resp) in
  (t, save_baselines (entries t) c).

(** ** Conflicts *)
Definition rel_str (cs : list component) : string :=
  join_with sep (Scanner.component_str <$> cs).

Definition record_conflict (p : string) (base : option bytes) (local remote : bytes)
    (fork : list component) (c : client) : client :=
  (with_db (MetaConflicts.create_conflict (clock e (tick c))
     (ConflictRecord.mk None (share self) p (Convert.debug_kind KConcurrent)
        (Some (blake3 local)) (Some (blake3 remote)) (blake3 <$> base) None
        (Some (rel_str fork)) false 0 None)) c).2.

Definition base_of (p : string) (c : client) : option bytes * client :=
  match blob_cache self, baselines self !! p with
  | Some root, Some h =>
      let '(r, c) := io (BlobCache.get f root h) c in
      (match r with Ok o => o | Err _ => None end, c)
  | _, _ => (None, c)
  end.

Definition conflict_one (c : client) (r : ConflictReport.t) : client :=
  let p := ConflictReport.path r in
  if Filter.is_sync_ephemeral_marker p then c
  else
    let dest := join (scan_root self) p in
    let '(lr, c) := io (Fs.read f dest) c in
    match lr with
    | Err _ => c
    | Ok local =>
        let dr := download e (tick c) p in
        let c := next c in
        match dr, ConflictReport.remote r with
        | Ok wire, Some remote_meta =>
            match materialize_downloaded_bytes wire remote_meta with
            | None => c
            | Some remote =>
                if decide (declared_direction self = Some ReceiveOnly) then
                  (io (Fs.write f cut dest remote) (create_parent dest c)).2
                else
                  let '(base, c) := base_of p c in
                  let '(out, c) := io (ConflictWriter.apply_conflict f diffy_merge (scan_root self) p
                                         base local remote (node_id self) (clock e (tick c))) c in
                  match out with
                  | Ok (ConflictWriter.Forked fork) => record_conflict p base local remote fork c
                  | _ => c
                  end
            end
        | _, _ => c
        end
    end.

(** ** Deletions *)
Definition tombstone_baseline (p : string) (now : Z) : FileMeta :=
  FileMeta.mk p zero_hash 0 0 None VC.new true (Some now) (node_id self) None None None.

Definition delete_one (st : list FileMeta * client) (m : FileMetadata) : list FileMeta * client :=
  let '(bs, c) := st in
  let dest := join (scan_root self) (FileMetadata.path m) in
  let '(there, c) := io (Fs.exists_ f dest) c in
  let '(r, c) := match there with Ok true => io (Fs.remove_file f dest) c | _ => (Ok tt, c) end in
  match r with
  | Err _ => (bs, c)
  | Ok _ => (bs ++ [tombstone_baseline (FileMetadata.path m) (as_i64 (clock e (tick c)))], c)
  end.

Definition deletions (resp : SyncStateResponse) (c : client) : client :=
  let '(bs, c) := foldl delete_one ([], c) (to_delete resp) in
  save_baselines bs c.

(** ** The cycle *)
Definition apply_response (resp : SyncStateResponse) (c : client) : tally * client :=
  if decide (scan_root self = "") then (mkTally 0 0 false [], c)
  else
    let c := uploads resp c in
    let '(t, c) := downloads resp c in
    (t, deletions resp (foldl conflict_one c (conflicts resp))).

Definition execute (c : client) : result unit SyncLoop.LoopError * client :=
  let '(files, c) := local_files c in
  match exchange e files (node_clock files) with
  | Err err =>
      (Err (classify_client_error acl_details err),
       if is_session_rejected err then clear_session_token c else c)
  | Ok resp =>
      let '(t, c) := apply_response resp c in
      let c := if rejected t then clear_session_token c else c in
      if bool_decide (0 < failed t) && bool_decide (failed t = attempted t)
      then (Err (SyncLoop.AllTransfersFailed (attempted t) (failed t)), c)
      else (Ok tt, c)
  end.
End cycle.
End Wire.
