(* ===== verification/WireProps.v ===== *)
(** * What a client cycle guarantees, and where it falls short

    What the uploads send and the downloads write is exactly what was read and
    what was fetched and checked; then the ways in which the cycle and the
    server's exchange, each doing what it says, lose data together. *)

From stdpp Require Import prelude gmap strings.
From Stdlib Require Import ZArith Lia Strings.Ascii Strings.Byte.
From S2P Require Import Prelude Text PathFacts VectorClock Types Reconciler Delta Fork Fs BlobStore E2ee ConflictWriter Guard Scanner.
From S2P Require Import Tenancy Publisher Auth Sql MetaDb MetaFiles MetaSync SyncLoop SyncService SyncUpload ShareIndex Wire.

#[local] Open Scope Z_scope.

Module WireLemmas.
Import Path Proto E2ee Client Wire.

Section cycle.
Context {codec : VcCodec} {cipher : Cipher} (blake3 : bytes → bytes).
Context (f : Fs.faults) (cut : Fs.cuts) (e : env) (self : RemoteSync).

(** The files of the disk. *)
Definition disk (c : client) : gmap (list component) bytes := Fs.files (fs c).

Lemma read_files p fs : Fs.files (Fs.read f p fs).2 = Fs.files fs.
Proof.
  unfold Fs.read, st_bind, Fs.syscall. destruct (f (Fs.calls fs)); done.
Qed.

Lemma io_read p c : disk (io (Fs.read f p) c).2 = disk c ∧ sent (io (Fs.read f p) c).2 = sent c
  ∧ meta_db (io (Fs.read f p) c).2 = meta_db c.
Proof.
  unfold io, disk. pose proof (read_files p (fs c)) as H. destruct (Fs.read f p (fs c)) as [r fs']. done.
Qed.

Lemma with_db_disk {A} (q : dbm A) c :
  disk (with_db e q c).2 = disk c ∧ sent (with_db e q c).2 = sent c.
Proof.
  unfold with_db. destruct (meta_db c) as [d|]; [|done]. destruct (db_fault e (tick c)); [done|].
  by destruct (q d).
Qed.

Lemma persist_disk rel h n mt sz c :
  disk (persist_e2ee_wire_meta e self rel h n mt sz c) = disk c
  ∧ sent (persist_e2ee_wire_meta e self rel h n mt sz c) = sent c.
Proof.
  unfold persist_e2ee_wire_meta.
  exact (with_db_disk _ (set_wires (<[rel := mkWire h n mt sz]> (e2ee_wire_cache c)) c)).
Qed.

(** An upload touches no file, whatever fails. *)
Lemma upload_one_disk m c : disk (upload_one blake3 f e self m c) = disk c.
Proof.
  unfold upload_one. destruct (Filter.is_sync_ephemeral_marker _); [done|].
  destruct (io_read (join (scan_root self) (FileMetadata.path m)) c) as (Hd&_&_).
  destruct (io (Fs.read f _) c) as [[b|err] c1]; simpl in *; [|done].
  destruct (match e2ee_key self with Some _ => _ | None => _ end) as [p|err]; [|done].
  destruct (upload e _ _ _); [|done]. case_decide; [done|].
  etransitivity; [apply persist_disk|done].
Qed.

Lemma uploads_disk resp c : disk (uploads blake3 f e self resp c) = disk c.
Proof.
  unfold uploads. case_decide; [done|]. generalize (to_upload resp). intros l. revert c.
  induction l as [|m l IH]; intros c; [done|]. cbn [foldl]. by rewrite IH, upload_one_disk.
Qed.

(** ** What is sent *)

(** An upload of [p]: the file's bytes, sealed when the vault has a key. *)
Definition offered (l : list FileMetadata) (d : gmap (list component) bytes) (x : string * UploadPayload) : Prop :=
  (∃ m, m ∈ l ∧ FileMetadata.path m = x.1) ∧ Filter.is_sync_ephemeral_marker x.1 = false
  ∧ ∃ b, d !! components (join (scan_root self) x.1) = Some b
    ∧ content_hash x.2 = blake3 (wire_bytes x.2)
    ∧ match e2ee_key self with
      | Some key => seal key (encryption_nonce x.2) b = Ok (wire_bytes x.2)
      | None => wire_bytes x.2 = b ∧ encryption_nonce x.2 = []
      end.

Lemma io_read_ok p c b c1 : io (Fs.read f p) c = (Ok b, c1) → disk c !! components p = Some b.
Proof.
  unfold io, disk, Fs.read, st_bind, Fs.syscall. destruct (f (Fs.calls (fs c))); [done|]. cbn.
  destruct (Fs.files (fs c) !! components p); naive_solver.
Qed.

Lemma upload_one_sent l m c : m ∈ l →
  ∃ k, sent (upload_one blake3 f e self m c) = sent c ++ k ∧ Forall (offered l (disk c)) k.
Proof.
  intros Hm. assert (∃ k, sent c = sent c ++ k ∧ Forall (offered l (disk c)) k) as Hnone.
  { exists []. by rewrite app_nil_r. }
  unfold upload_one. destruct (Filter.is_sync_ephemeral_marker _) eqn:Hmark; [done|].
  destruct (io_read (join (scan_root self) (FileMetadata.path m)) c) as (Hd&Hs&_).
  destruct (io (Fs.read f _) c) as [[b|err] c1] eqn:Hr; simpl in Hd, Hs; [|by rewrite Hs].
  apply io_read_ok in Hr. destruct (match e2ee_key self with Some _ => _ | None => _ end) as [u|err] eqn:Hu; [|by rewrite Hs].
  assert (offered l (disk c) (FileMetadata.path m, u)) as Ho.
  { split; [by exists m|]. split; [done|]. exists b. split; [done|]. destruct (e2ee_key self) as [key|].
    - unfold from_plaintext_encrypted, encrypt in Hu. destruct (seal _ _ _) eqn:Hseal; simplify_eq/=. done.
    - by injection Hu as <-. }
  exists [(FileMetadata.path m, u)]. split; [|by constructor].
  destruct (upload e _ _ _); [|simpl; by rewrite Hs]. case_decide; [simpl; by rewrite Hs|].
  etransitivity; [apply persist_disk|]. simpl. by rewrite Hs.
Qed.

Lemma uploads_sent resp c :
  ∃ k, sent (uploads blake3 f e self resp c) = sent c ++ k ∧ Forall (offered (to_upload resp) (disk c)) k
    ∧ (declared_direction self = Some ReceiveOnly → k = []).
Proof.
  unfold uploads. case_decide as Hdir; [exists []; by rewrite app_nil_r|].
  assert (∀ l, (∀ m, m ∈ l → m ∈ to_upload resp) →
    ∃ k, sent (foldl (λ c m, upload_one blake3 f e self m c) c l) = sent c ++ k
      ∧ Forall (offered (to_upload resp) (disk c)) k) as H.
  { intros l. revert c. induction l as [|m l IH]; intros c Hsub; cbn [foldl]; [exists []; by rewrite app_nil_r|].
    destruct (upload_one_sent (to_upload resp) m c) as (k1&H1&F1); [set_solver|].
    destruct (IH (upload_one blake3 f e self m c)) as (k2&H2&F2); [set_solver|].
    rewrite upload_one_disk in F2. exists (k1 ++ k2). rewrite H2, H1, (assoc_L (++)). split; [done|]. by apply Forall_app. }
  destruct (H (to_upload resp)) as (k&?&?); [done|]. exists k. by split_and!.
Qed.

(** ** What is received *)

(** A digest that names contents: of full length, not all zeros. *)
Definition names_digest (h : bytes) : Prop := hash32 h ∧ ∃ b, b ∈ h ∧ b ≠ Byte.x00.

(** The answer to call [n], a LAN peer's or else the server's. *)
Definition received (n : nat) (m : FileMetadata) (wire : bytes) : Prop :=
  let p := FileMetadata.path m in let h := FileMetadata.content_hash m in
  match lan e with
  | Some peers => peers n p (if decide (hash32 h) then Some h else None) = Some wire
                  ∨ peers n p (if decide (hash32 h) then Some h else None) = None ∧ download e n p = Ok wire
  | None => download e n p = Ok wire
  end.

(** The checks an answer passes to stand for [plain]. *)
Definition opens (m : FileMetadata) (wire plain : bytes) : Prop :=
  (names_digest (FileMetadata.content_hash m) → blake3 wire = FileMetadata.content_hash m)
  ∧ (FileMetadata.encryption_nonce m = [] → plain = wire)
  ∧ (FileMetadata.encryption_nonce m ≠ [] →
       ∃ key, e2ee_key self = Some key ∧ length (FileMetadata.encryption_nonce m) = NONCE_LEN
         ∧ open_ key (FileMetadata.encryption_nonce m) wire = Some plain).

(** The contents that arrived for an entry between two states. *)
Definition arrived (c c' : client) (m : FileMetadata) (plain : bytes) : Prop :=
  ∃ n wire, (tick c ≤ n < tick c')%nat ∧ received n m wire ∧ opens m wire plain.

Definition dest (m : FileMetadata) : list component := components (join (scan_root self) (FileMetadata.path m)).
Definition in_cache (q : list component) : Prop :=
  ∃ root h, blob_cache self = Some root ∧ q = components (BlobLayout.blob_path root h).

(** The baseline of an entry whose contents are [plain]. *)
Definition recorded (m : FileMetadata) (plain : bytes) (b : FileMeta) : Prop :=
  FileMeta.path b = FileMetadata.path m ∧ FileMeta.size b = blen plain
  ∧ (FileMetadata.encryption_nonce m = [] → FileMeta.content_hash b = blake3 plain)
  ∧ (FileMetadata.encryption_nonce m ≠ [] → hash32 (FileMetadata.content_hash m) →
       FileMeta.content_hash b = FileMetadata.content_hash m
       ∧ FileMeta.encryption_nonce b = Some (FileMetadata.encryption_nonce m)).

(** A change of the file at [q]: contents that arrived for an entry, cut off
    when the write failed, or a cached copy of them. *)
Definition written (l : list FileMetadata) (c c' : client) (q : list component) : Prop :=
  disk c' !! q = disk c !! q
  ∨ ∃ m plain, m ∈ l ∧ arrived c c' m plain
      ∧ (q = dest m ∧ (∃ k, disk c' !! q = Some (take k plain)) ∨ in_cache q ∧ disk c' !! q = Some plain).

Lemma fetch_answer m c r c1 : fetch e m c = (r, c1) → c1 = next c ∧ ∀ wire, r = Ok wire → received (tick c) m wire.
Proof.
  unfold fetch, received. destruct (lan e) as [peers|]; simpl.
  - destruct (peers _ _ _) as [b|] eqn:Hp; intros [= <- <-]; (split; [done|]); intros wire; naive_solver.
  - intros [= <- <-]. naive_solver.
Qed.

Lemma forallb_zero h : forallb (λ b, bool_decide (b = Byte.x00)) h = true ↔ ∀ b, b ∈ h → b = Byte.x00.
Proof.
  rewrite forallb_forall. split; intros H b Hb.
  - apply list_elem_of_In in Hb. by apply H, bool_decide_eq_true in Hb.
  - apply bool_decide_eq_true, H. by apply list_elem_of_In.
Qed.

Lemma names_digest_real h : names_digest h → hash_is_placeholder h = false.
Proof.
  intros [Hh (b&Hb&Hne)]. unfold hash_is_placeholder. rewrite bool_decide_eq_true_2 by exact Hh. simpl.
  apply not_true_is_false. rewrite forallb_zero. intros H. by apply Hne, H.
Qed.

Lemma materialize_opens wire m plain : materialize_downloaded_bytes blake3 self wire m = Some plain → opens m wire plain.
Proof.
  unfold materialize_downloaded_bytes, from_wire_bytes. set (expected := if decide _ then _ else _).
  destruct (negb (hash_is_placeholder expected) && _) eqn:Hcheck; [done|]. intros H. split.
  - intros Hn. pose proof Hn as [Hh _]. unfold expected in Hcheck. rewrite decide_True in Hcheck by done.
    rewrite (names_digest_real _ Hn) in Hcheck. simpl in Hcheck.
    by apply negb_false_iff, bool_decide_eq_true in Hcheck.
  - destruct (decide (FileMetadata.encryption_nonce m = [])) as [He|He]; [by simplify_eq/=|].
    split; [done|]. intros _. destruct (e2ee_key self) as [key|]; [|done]. simpl in H. exists key. split; [done|].
    destruct (bool_decide (length _ = _)) eqn:Hl; [|done]. apply bool_decide_eq_true in Hl. split; [done|].
    unfold decrypt in H. simpl in H. by destruct (open_ _ _ _); simplify_eq/=.
Qed.

Lemma disk_frame {A} P (m : Fs.io A) c :
  Fs.frame P m → ∀ q, ¬ P q → disk (io m c).2 !! q = disk c !! q.
Proof. intros Hm q Hq. unfold io, disk. destruct (m (fs c)) as [r fs'] eqn:E1. simpl. by eapply Hm. Qed.

Lemma create_parent_disk p c : disk (create_parent f p c) = disk c ∧ tick (create_parent f p c) = tick c.
Proof.
  unfold create_parent. destruct (parent p) as [d|]; [|done]. unfold io, disk.
  destruct (Fs.create_dir_all f d (fs c)) as [r fs'] eqn:E1. simpl. by apply Fs.create_dir_all_files in E1.
Qed.

(** A write leaves what was there, or the bytes up to where it failed. *)
Lemma disk_write p d c r c' : io (Fs.write f cut p d) c = (r, c') →
  tick c' = tick c ∧ (∀ q, q ≠ components p → disk c' !! q = disk c !! q)
  ∧ (disk c' !! components p = disk c !! components p ∨ ∃ k, disk c' !! components p = Some (take k d))
  ∧ (∀ u, r = Ok u → disk c' !! components p = Some d).
Proof.
  intros H. pose proof (disk_frame _ _ c (Fs.frame_write f cut p d)) as Hf. rewrite H in Hf.
  unfold io, disk in *. destruct (Fs.write f cut p d (fs c)) as [r0 fs'] eqn:E1. injection H as -> <-.
  simpl in *. split; [done|]. split; [done|].
  unfold Fs.write, st_bind in E1. destruct (Fs.create f false p (fs c)) as [[u|err] fs1] eqn:E2.
  - apply Fs.create_ok in E2. unfold Fs.write_all in E1. destruct (f _); simplify_eq/=;
      rewrite E2, lookup_insert_eq; simpl; split; [|done| |done].
    + right. eauto.
    + right. exists (length d). by rewrite take_ge.
  - injection E1 as <- <-. split; [|done]. left. unfold Fs.create, st_bind, Fs.syscall in E2. cbn in E2.
    by repeat case_match; simplify_eq/=.
Qed.

Lemma with_db_tick {A} (q : dbm A) c : (tick c ≤ tick (with_db e q c).2)%nat.
Proof. unfold with_db. repeat case_match; simpl; lia. Qed.

Lemma record_download_spec m p plain c b c' :
  record_download blake3 f e self m p plain c = (b, c') →
  recorded m plain b ∧ (tick c ≤ tick c')%nat
  ∧ (disk c' = disk c ∨ ∃ q, in_cache q ∧ disk c' = <[q := plain]> (disk c)).
Proof.
  unfold record_download. set (key := if negb _ then _ else _). set (c1 := match blob_cache self with Some _ => _ | None => _ end).
  assert (tick c1 = tick c ∧ (disk c1 = disk c ∨ ∃ q, in_cache q ∧ disk c1 = <[q := plain]> (disk c))) as [Ht1 Hd1].
  { unfold c1. destruct (blob_cache self) as [root|] eqn:Hroot; [|by auto].
    destruct (BlobProps.cache_put_files f root key plain (fs c)) as [Hput _]. unfold io, disk.
    destruct (BlobCache.put f root key plain (fs c)) as [r fs']. simpl in *. split; [done|].
    destruct Hput as [->| ->]; [by left|right]. eexists. split; [|done]. by exists root, key. }
  intros [= <- <-]. split; [|split].
  - unfold recorded. simpl. split_and!; [done..| |].
    + intros Hn. unfold key. by rewrite bool_decide_eq_true_2.
    + intros Hn Hh. unfold key. rewrite bool_decide_eq_false_2 by done. simpl. by rewrite decide_True.
  - rewrite <-Ht1. destruct (bool_decide _); [done|]. unfold persist_e2ee_wire_meta.
    etransitivity; [|apply with_db_tick]. done.
  - destruct (bool_decide _); simpl; [done|]. by rewrite (proj1 (persist_disk _ _ _ _ _ _)).
Qed.

(** One download. *)
Lemma download_one_spec t c m t' c' :
  download_one blake3 f cut e self (t, c) m = (t', c') →
  (tick c < tick c')%nat ∧ (∀ q, written [m] c c' q)
  ∧ (entries t' = entries t
     ∨ ∃ b plain, entries t' = entries t ++ [b] ∧ arrived c c' m plain ∧ recorded m plain b
         ∧ (¬ in_cache (dest m) → disk c' !! dest m = Some plain)).
Proof.
  unfold download_one. destruct (fetch e m c) as [r c1] eqn:Hf. apply fetch_answer in Hf as [-> Hr].
  destruct r as [wire|err]; [|intros [= <- <-]; simpl; split_and!; [lia|by left|by left]].
  specialize (Hr wire eq_refl). destruct (materialize_downloaded_bytes blake3 self wire m) as [plain|] eqn:Hm;
    [|intros [= <- <-]; simpl; split_and!; [lia|by left|by left]].
  apply materialize_opens in Hm. destruct (create_parent_disk (join (scan_root self) (FileMetadata.path m)) (next c)) as [Dp Tp].
  destruct (io (Fs.write _ _ _ _) _) as [w c2] eqn:Hw. apply disk_write in Hw as (T2&D2&P2&O2).
  rewrite Tp in T2. rewrite Dp in D2, P2. change (disk (next c)) with (disk c) in *. cbn [tick next] in T2.
  assert (∀ c3, (tick c2 ≤ tick c3)%nat → arrived c c3 m plain) as Harr.
  { intros c3 H3. exists (tick c), wire. split_and!; [lia|lia|done|done]. }
  assert (∀ c3 q, (tick c2 ≤ tick c3)%nat → disk c3 !! q = disk c2 !! q → written [m] c c3 q) as Hwr.
  { intros c3 q H3 Heq. unfold written. rewrite Heq. destruct (decide (q = dest m)) as [->|Hq]; [|left; by apply D2].
    destruct P2 as [P2|P2]; [by left|right]. exists m, plain. split_and!; [constructor|by apply Harr|]. by left. }
  destruct w as [u|err]; [|intros [= <- <-]; split_and!; [lia|intros q; by apply Hwr|by left]].
  specialize (O2 u eq_refl).
  destruct (record_download _ _ _ _ _ _ _ _) as [b c3] eqn:Hrec. intros [= <- <-].
  apply record_download_spec in Hrec as (Hb&T3&D3). split; [lia|]. split.
  - intros q. destruct D3 as [D3|(q'&Hc&D3)]; [apply Hwr; [done|by rewrite D3]|].
    destruct (decide (q = q')) as [->|Hq]; [|apply Hwr; [done|by rewrite D3, lookup_insert_ne]].
    right. exists m, plain. split_and!; [constructor|by apply Harr|]. right. by rewrite D3, lookup_insert_eq.
  - right. exists b, plain. split_and!; [done|by apply Harr|done|]. intros Hnc.
    destruct D3 as [->|(q'&Hc&->)]; [done|]. rewrite lookup_insert_ne; [done|]. by intros ->.
Qed.

Lemma arrived_mono c0 c1 c2 c3 m plain :
  (tick c0 ≤ tick c1)%nat → (tick c2 ≤ tick c3)%nat → arrived c1 c2 m plain → arrived c0 c3 m plain.
Proof using Type. intros H1 H2 (n&wire&?&?&?). exists n, wire. split_and!; [lia..|done|done]. Qed.

Lemma written_trans l l' c c1 c' q :
  (tick c ≤ tick c1)%nat → (tick c1 ≤ tick c')%nat → l ⊆ l' →
  written l c c1 q → disk c' !! q = disk c1 !! q → written l' c c' q.
Proof using Type.
  unfold written. intros T1 T2 Hl H Heq. rewrite Heq. destruct H as [H|(m&plain&Hm&Ha&H)]; [by left|right].
  exists m, plain. split_and!; [by apply Hl|eapply (arrived_mono c c); [done| |exact Ha]; exact T2|done].
Qed.

Lemma downloads_spec l t c t' c' :
  foldl (download_one blake3 f cut e self) (t, c) l = (t', c') →
  (tick c ≤ tick c')%nat ∧ (∀ q, written l c c' q)
  ∧ ∀ b, b ∈ entries t' → b ∈ entries t
      ∨ ∃ m plain, m ∈ l ∧ arrived c c' m plain ∧ recorded m plain b
          ∧ (NoDup (dest <$> l) → ¬ in_cache (dest m) → disk c' !! dest m = Some plain).
Proof.
  revert t c. induction l as [|m l IH]; intros t c; cbn [foldl].
  { intros [= <- <-]. split_and!; [done|by left|by left]. }
  destruct (download_one blake3 f cut e self (t, c) m) as [t1 c1] eqn:H1.
  apply download_one_spec in H1 as (T1&W1&E1). intros (T2&W2&E2)%IH. split_and!; [lia| |].
  - intros q. destruct (W2 q) as [Heq|(m'&plain&Hm'&Ha&H)].
    + eapply (written_trans [m]); [| | |apply W1|exact Heq]; [lia|lia|set_solver].
    + right. exists m', plain. split_and!; [set_solver|eapply arrived_mono; [| |exact Ha]; lia|done].
  - intros b Hb. destruct (E2 b Hb) as [Hb1|(m'&plain&Hm'&Ha&Hr&Hd)].
    + destruct E1 as [E1|(b'&plain&E1&Ha&Hr&Hd)]; rewrite E1 in Hb1; [by left|].
      apply elem_of_app in Hb1 as [?| ->%list_elem_of_singleton]; [by left|right].
      exists m, plain. split_and!; [set_solver|eapply arrived_mono; [| |exact Ha]; lia|done|].
      intros [Hnin _]%NoDup_cons Hnc. rewrite <-(Hd Hnc).
      destruct (W2 (dest m)) as [Heq|(m'&plain'&Hm'&_&[[Hq _]|[Hq _]])]; [done| |done].
      destruct Hnin. rewrite Hq. by apply list_elem_of_fmap_2.
    + right. exists m', plain. split_and!; [set_solver|eapply arrived_mono; [| |exact Ha]; lia|done|].
      intros [_ Hnd]%NoDup_cons. by apply Hd.
Qed.

Lemma save_baselines_disk bs c :
  disk (save_baselines e self bs c) = disk c ∧ (tick c ≤ tick (save_baselines e self bs c))%nat.
Proof. unfold save_baselines. case_decide; [done|]. split; [apply with_db_disk|apply with_db_tick]. Qed.
End cycle.

(** ** What the report says after a failed scan *)
Lemma scan_err self walker msg : Err msg ∈ walker → ∃ err, Scanner.scan self walker = Err err.
Proof.
  intros Hin. unfold Scanner.scan.
  assert (∃ err, collect_results (Scanner.scan_entry self) walker = Err err) as [err ->]; [|by eexists].
  induction walker as [|x walker IH]; [by apply elem_of_nil in Hin|].
  cbn [collect_results]. destruct (Scanner.scan_entry self x) as [y|err] eqn:Hx; [|by eexists].
  apply elem_of_cons in Hin as [<-|Hin]; [done|]. destruct (IH Hin) as [err ->]. by eexists.
Qed.
End WireLemmas.

Module WireTheorems.
Import Path Proto E2ee Client Wire WireLemmas.

Section theorems.
Context {codec : VcCodec} {cipher : Cipher} (blake3 : bytes → bytes).
Context (f : Fs.faults) (cut : Fs.cuts) (e : env) (self : RemoteSync).


(** A client whose scan fails reports that it has no files: one unreadable
    directory entry and the report is empty, and for every file that is
    unchanged on the server since the last sync the reconciler then decides
    [DeleteLocal], which the server carries out as a tombstone of its row. *)
Theorem scan_failure_deletes c msg p row base :
  scan_root self ≠ "" → Err msg ∈ walker e →
  FileMeta.deleted row = false → FileMeta.deleted base = false →
  FileMeta.content_hash row = FileMeta.content_hash base →
  (local_files blake3 f e self c).1 = []
  ∧ Tree.resolve_one p (Some row)
      (Triple.get (Triple.index_by_path (Convert.proto_to_file_meta <$> (local_files blake3 f e self c).1)) p)
      (Some base)
    = Ok (SyncAction.mk p DeleteLocal None None None).
Proof.
  intros Hroot Hin Hr Hb Heq.
  assert ((local_files blake3 f e self c).1 = []) as Hnil.
  { unfold local_files. rewrite decide_False by done. destruct (db_rows e c) as [rows c1].
    match goal with |- context [Scanner.scan ?sc (walker e)] =>
      destruct (scan_err sc (walker e) msg Hin) as [err ->] end. done. }
  split; [done|]. rewrite Hnil. simpl. unfold Tree.resolve_one. simpl. rewrite Hr, Hb. simpl.
  unfold Tree.hashes_eq. by rewrite Heq, bool_decide_eq_true_2.
Qed.

(** The nonce of an encrypted upload is lost. The row the server commits
    for an uploaded ciphertext has no nonce, so the entry it offers to any
    other device passes the digest check as a plain file: the ciphertext
    itself is written to that device's disk, whatever key it holds. *)
Theorem e2ee_nonce_lost canon env rnd plain key payload h share_root target :
  from_plaintext_encrypted blake3 rnd plain key = Ok payload → hash32 (content_hash payload) →
  materialize_downloaded_bytes blake3 self (wire_bytes payload)
    (Convert.file_meta_to_proto
       (SyncUpload.upload_meta canon env h share_root target (content_hash payload) (blen (wire_bytes payload))))
  = Some (wire_bytes payload).
Proof.
  unfold from_plaintext_encrypted. destruct (encrypt rnd plain key) as [b|]; [|done]. simpl.
  intros [= <-] Hh. simpl in *. unfold materialize_downloaded_bytes. simpl. rewrite decide_True by done.
  unfold from_wire_bytes. rewrite (bool_decide_eq_true_2 (blake3 _ = _)) by done.
  by rewrite andb_false_r.
Qed.

(** A cycle in which nothing could be stored still reports success. When
    every download arrives but none passes verification, nothing is counted
    as failed, and the cycle answers as if it were in sync, although a cycle
    whose downloads all failed is meant to report it. *)
Theorem unverified_cycle_ok acl merge c files c0 resp :
  local_files blake3 f e self c = (files, c0) → exchange e files (node_clock files) = Ok resp →
  conflicts resp = [] → to_delete resp = [] → to_upload resp = [] →
  (∀ m n, m ∈ to_download resp → ∃ wire,
     download e n (FileMetadata.path m) = Ok wire ∧ materialize_downloaded_bytes blake3 self wire m = None) →
  lan e = None →
  ∃ c', execute blake3 acl merge f cut e self c = (Ok tt, c') ∧ disk c' = disk c0 ∧ meta_db c' = meta_db c0.
Proof.
  intros Hl Hx Hc Hd Hu Hdl Hlan.
  assert (∀ l t c, (∀ m, m ∈ l → m ∈ to_download resp) →
    ∃ c', foldl (download_one blake3 f cut e self) (t, c) l = (t, c') ∧ disk c' = disk c
      ∧ meta_db c' = meta_db c) as Hfold.
  { intros l. induction l as [|m l IH]; intros t c1 Hsub; [by eexists|]. cbn [foldl].
    destruct (Hdl m (tick c1)) as (wire&Hw&Hmat); [apply Hsub; constructor|].
    unfold download_one at 2, fetch. rewrite Hlan. simpl. rewrite Hw, Hmat.
    destruct (IH t (next c1)) as (c'&->&?&?); [|by eexists]. intros m' Hm'. apply Hsub. by constructor. }
  unfold execute. rewrite Hl, Hx. unfold apply_response. case_decide; [by eexists|].
  unfold uploads. rewrite Hu. assert ((if decide (declared_direction self = Some ReceiveOnly) then c0
    else foldl (λ c m, upload_one blake3 f e self m c) c0 []) = c0) as -> by (by case_decide).
  unfold downloads. destruct (Hfold (to_download resp) (mkTally 0 0 false []) c0) as (c'&->&Hd'&Hm'); [done|].
  rewrite Hc. unfold deletions. rewrite Hd. cbn. by eexists.
Qed.
End theorems.

(** ** A share of one file *)
Definition demo_self : RemoteSync :=
  {| share := "kb"; scan_root := "/v"; node_id := "laptop"; blob_cache := None; baselines := ∅;
     e2ee_key := None; declared_direction := Some Bidirectional |}.
Definition demo_disk : client :=
  mk (Fs.mk {[ [RootDir; Normal "v"; Normal "a.md"] := [Byte.x61] ]} {[ [RootDir; Normal "v"] ]} 0)
     (Some empty_db) ∅ (Some "token") [] 0.
(** A digest that tells one-byte files apart. *)
Definition demo_blake3 : bytes → bytes := λ b, match b with x :: _ => replicate 32 x | [] => replicate 32 Byte.xff end.
Definition demo_meta (b : byte) : FileMeta :=
  FileMeta.mk "a.md" (replicate 32 b) 1 5 None ∅ false None "laptop" None None None.
Definition demo_response : SyncStateResponse :=
  mk_response [] [Convert.file_meta_to_proto (demo_meta Byte.x61)] [] [] ∅.
Definition demo_env : env :=
  {| walker := []; exchange _ _ := Ok demo_response; upload _ _ _ := Ok tt; download _ _ := Ok [Byte.x62];
     lan := None; nonce _ := replicate 24 Byte.x01; clock _ := 9; mtime _ _ := 5; db_fault _ := None |}.


Lemma scan_failure_deletes_witness :
  let e := {| walker := [Err "permission denied"]; exchange := exchange demo_env; upload := upload demo_env;
              download := download demo_env; lan := None; nonce := nonce demo_env; clock := clock demo_env;
              mtime := mtime demo_env; db_fault := db_fault demo_env |} in
  (local_files (codec:=BinaryCodec.codec) (cipher:=E2eeProps.toy) demo_blake3 (λ _, None) e demo_self demo_disk).1 = []
  ∧ Tree.resolve_one "a.md" (Some (demo_meta Byte.x61)) None (Some (demo_meta Byte.x61))
    = Ok (SyncAction.mk "a.md" DeleteLocal None None None).
Proof.
  intros e.
  destruct (@scan_failure_deletes BinaryCodec.codec E2eeProps.toy demo_blake3 (λ _, None) e demo_self demo_disk
    "permission denied" "a.md" (demo_meta Byte.x61) (demo_meta Byte.x61)) as [H1 H2];
    [done|by constructor|reflexivity|reflexivity|reflexivity|].
  split; [exact H1|]. rewrite H1 in H2. exact H2.
Defined.

Definition demo_uenv : SyncUpload.uenv :=
  SyncUpload.Build_uenv 0 0 0 0 0 0 0 0 0 0 None None None None
    (Publisher.Build_faults None None None None).
Definition demo_host : Host.t :=
  Host.mk (SyncService.mk AuthStore.new None "srv" None None []) (Fs.mk ∅ ∅ 0)
    (Publisher.mkDb ∅ ∅ ∅) ∅ [].

Lemma e2ee_nonce_lost_witness :
  ∃ p, from_plaintext_encrypted (cipher:=E2eeProps.toy) demo_blake3 (replicate 24 Byte.x01) [Byte.x61] (replicate 32 Byte.x05) = Ok p
    ∧ wire_bytes p ≠ [Byte.x61]
    ∧ materialize_downloaded_bytes (cipher:=E2eeProps.toy) demo_blake3 demo_self (wire_bytes p)
        (Convert.file_meta_to_proto (SyncUpload.upload_meta (λ _ p, Some p) demo_uenv demo_host "/v" "/v/a.md"
           (content_hash p) (blen (wire_bytes p)))) = Some (wire_bytes p).
Proof.
  eexists. split; [vm_compute; reflexivity|]. split; [done|].
  apply (@e2ee_nonce_lost E2eeProps.toy demo_blake3 demo_self (λ _ p, Some p) demo_uenv (replicate 24 Byte.x01)
    [Byte.x61] (replicate 32 Byte.x05)); [vm_compute; reflexivity|reflexivity].
Defined.

Lemma unverified_cycle_ok_witness :
  ∃ c', execute (codec:=BinaryCodec.codec) (cipher:=E2eeProps.toy) demo_blake3 (λ _, false) (λ _ _ _, Err [])
          (λ _, None) (λ _, 0%nat) demo_env demo_self demo_disk = (Ok tt, c')
    ∧ disk c' = disk demo_disk.
Proof.
  destruct (@unverified_cycle_ok BinaryCodec.codec E2eeProps.toy demo_blake3 (λ _, None) (λ _, 0%nat) demo_env demo_self
    (λ _, false) (λ _ _ _, Err []) demo_disk [] (next (next demo_disk)) demo_response) as (c'&H&Hd&_);
    [vm_compute; reflexivity|reflexivity|reflexivity|reflexivity|reflexivity| |reflexivity|].
  - intros m n ->%list_elem_of_singleton. exists [Byte.x62]. split; reflexivity.
  - exists c'. split; [exact H|exact Hd].
Defined.

(** A write that fails leaves the local file cut off, and the cycle ends well
    all the same: the next report offers the remains as the client's edit. *)
Example failed_write_truncates :
  let e := {| walker := []; exchange _ _ := Ok (mk_response [] [Convert.file_meta_to_proto (demo_meta Byte.x62)] [] [] ∅);
              upload _ _ _ := Ok tt; download _ _ := Ok [Byte.x62]; lan := None; nonce _ := []; clock _ := 9;
              mtime _ _ := 5; db_fault _ := None |} in
  let full n := if decide (n = 2%nat) then Some (Fs.IoError Fs.OtherKind "no space left") else None in
  let '(r, c) := execute (codec:=BinaryCodec.codec) (cipher:=E2eeProps.toy) demo_blake3 (λ _, false) (λ _ _ _, Err [])
      full (λ _, 0%nat) e demo_self demo_disk in
  r = Ok tt ∧ disk c !! [RootDir; Normal "v"; Normal "a.md"] = Some [].
Proof. vm_compute. split; reflexivity. Qed.

(** Both sides together: the server holds [b] where the client, in sync
    before, holds [a]. The client's cycles go through the server's own
    exchange; after the second one the old byte has been sent. *)
Definition demo_entry : Scanner.entry :=
  Scanner.Entry "/v/a.md" true (Ok (1, 0, 5)) None (Ok (replicate 32 Byte.x61)).
Definition demo_server_db : MetaDb :=
  let db := (MetaFiles.upsert_file_scoped (codec:=BinaryCodec.codec) 1 None "kb" (demo_meta Byte.x62) empty_db).2 in
  (MetaBaselines.upsert_node_baselines_scoped (codec:=BinaryCodec.codec) 1 None "laptop" "kb"
     [demo_meta Byte.x61] db).2.
Definition demo_service : SyncService.t :=
  SyncService.mk AuthStore.new (Some (TenantMetaRouter.single (mkControl [] [] ∅) demo_server_db)) "srv" None None [].
Definition demo_clk : SyncService.clock := SyncService.Build_clock 50 0 (λ _, 0) (λ _, 0) 50 (λ _, 50) 50 50.
Definition serve (s : SyncService.t) (files : list FileMetadata) :=
  SyncService.exchange (codec:=BinaryCodec.codec) demo_clk "kb" "laptop" None None None files s.
Definition cycle (s : SyncService.t) (c : client) : result unit SyncLoop.LoopError * client * SyncService.t :=
  let e := {| walker := [Ok demo_entry];
              exchange files _ := match (serve s files).1 with Ok r => Ok r | Err _ => Err (Transport "") end;
              upload _ _ _ := Ok tt; download _ _ := Ok [Byte.x62]; lan := None; nonce _ := []; clock _ := 9;
              mtime _ _ := 5; db_fault _ := None |} in
  (execute (codec:=BinaryCodec.codec) (cipher:=E2eeProps.toy) demo_blake3 (λ _, false) (λ _ _ _, Err [])
     (λ _, None) (λ _, 0%nat) e demo_self c,
   (serve s (local_files (codec:=BinaryCodec.codec) (cipher:=E2eeProps.toy) demo_blake3 (λ _, None) e demo_self c).1).2).

Example two_cycles_undo_update :
  let '(r1, c1, s1) := cycle demo_service demo_disk in
  let '(r2, c2, _) := cycle s1 c1 in
  r1 = Ok tt ∧ disk c1 = disk demo_disk ∧ sent c1 = []
  ∧ r2 = Ok tt ∧ sent c2 = [("a.md", from_plaintext demo_blake3 [Byte.x61])].
Proof. vm_compute. split_and!; reflexivity. Qed.

(** A path the server names is not confined to the root. *)
Example deletion_leaves_root :
  let c := mk (Fs.mk {[ [RootDir; Normal "etc"; Normal "hosts"] := [Byte.x61] ]} ∅ 0) None ∅ None [] 0 in
  disk (deletions (codec:=BinaryCodec.codec) (λ _, None) demo_env demo_self
          (mk_response [] [] [FileMetadata.of_path "/etc/hosts"] [] ∅) c) = ∅.
Proof. vm_compute. reflexivity. Qed.

(** The ciphertext index is written under the share and read under
    [default]: what was recorded is not found again. *)
Example e2ee_index_not_reread :
  let c := persist_e2ee_wire_meta (codec:=BinaryCodec.codec) demo_env demo_self "a.md" (replicate 32 Byte.x07)
             (replicate 24 Byte.x01) 5 1 demo_disk in
  (db_rows (codec:=BinaryCodec.codec) demo_env c).1 = []
  ∧ length (default [] (files <$> meta_db c)) = 1%nat.
Proof. vm_compute. split; reflexivity. Qed.
End WireTheorems.
