(* ===== verification/Http.v ===== *)
(** * The account database and the HTTP handlers' monad

    The tables of the control file that belong to accounts, vault sharing,
    organisations and agents ([disk-core/migrations/011] to [023]), the state
    the handlers of [disk-server] share ([AuthHttpState] of
    [accounts/routes.rs]), and what a handler does with it: statements on the
    control file and on a tenant's, file system calls, jobs for the webhook
    queue. Every statement may fail, as the environment decides by its number;
    a failed one changes nothing, and what earlier ones wrote stays. *)

From stdpp Require Import prelude gmap strings.
From Stdlib Require Import ZArith Lia Strings.Byte Strings.Ascii.
From S2P Require Import Prelude Text Types Fs Sql MetaDb Tenancy SyncService Enrollment.

#[local] Open Scope Z_scope.

(** ** Rows *)
Module UserRow.
Record t := mk {
  id : string;
  email : string;
  password_hash : string;
  tenant_id : string;
  email_verified : Z;
  oauth_provider : option string;
  oauth_subject : option string;
  created_at : Z;
  updated_at : Z
}.
End UserRow.

Module ConsentRow.
Record t := mk {
  id : Z;
  user_id : string;
  tenant_id : string;
  consent_type : string;
  policy_version : string;
  recorded_at : Z
}.
End ConsentRow.

Module TelemetryRow.
Record t := mk { user_id : string; opt_in : Z; updated_at : Z }.
End TelemetryRow.

Module OnboardingRow.
Record t := mk { user_id : string; dismissed : Z; dismissed_at : option Z; updated_at : Z }.
End OnboardingRow.

Module InviteRow.
Record t := mk {
  id : string;
  tenant_id : option string;
  vault_id : string;
  token_hash : bytes;
  role : string;
  created_by : string;
  expires_at : Z;
  redeemed_at : option Z;
  redeemed_by : option string;
  created_at : Z
}.
End InviteRow.

Module MemberRow.
Record t := mk {
  tenant_id : option string;
  vault_id : string;
  user_id : string;
  role : string;
  granted_by : option string;
  created_at : Z
}.
End MemberRow.

Module OrgRow.
Record t := mk {
  id : string;
  slug : string;
  name : string;
  tenant_id : string;
  created_by : string;
  created_at : Z;
  updated_at : Z
}.
End OrgRow.

Module OrgMemberRow.
Record t := mk { org_id : string; user_id : string; role : string; created_at : Z }.
End OrgMemberRow.

Module OrgContextRow.
Record t := mk { user_id : string; active_org_id : option string; updated_at : Z }.
End OrgContextRow.

Module WebhookRow.
Record t := mk {
  id : string;
  tenant_id : option string;
  vault_id : string;
  url : string;
  secret_hash : bytes;
  signing_secret : option string;
  events : list string;
  label : option string;
  enabled : Z;
  created_at : Z
}.
End WebhookRow.

Module RevisionRow.
Record t := mk {
  tenant_id : option string;
  vault_id : string;
  path : string;
  revision : Z;
  content_hash : option bytes;
  updated_at : Z;
  updated_by : option string
}.
End RevisionRow.

(** ** The control file

    [ac] holds the tables above, [ct] nodes and includes, [dt] the tenant
    tables, which in a single-file deployment are every tenant's data. *)
Record AccountsDb := mkAccounts {
  users : list UserRow.t;
  consent_events : list ConsentRow.t;
  consent_seq : Z;
  user_telemetry : list TelemetryRow.t;
  user_onboarding : list OnboardingRow.t;
  vault_invites : list InviteRow.t;
  vault_members : list MemberRow.t;
  organizations : list OrgRow.t;
  organization_members : list OrgMemberRow.t;
  user_org_context : list OrgContextRow.t;
  agent_webhooks : list WebhookRow.t;
  pending_enrollments : list PendingRow.t
}.

Definition empty_accounts : AccountsDb := mkAccounts [] [] 0 [] [] [] [] [] [] [] [] [].

Module AccountsDb.
Definition set_users (f : list UserRow.t → list UserRow.t) (d : AccountsDb) : AccountsDb :=
  mkAccounts (f (users d)) (consent_events d) (consent_seq d) (user_telemetry d) (user_onboarding d)
    (vault_invites d) (vault_members d) (organizations d) (organization_members d)
    (user_org_context d) (agent_webhooks d) (pending_enrollments d).
Definition set_consents (f : list ConsentRow.t → list ConsentRow.t) (seq : Z) (d : AccountsDb) : AccountsDb :=
  mkAccounts (users d) (f (consent_events d)) seq (user_telemetry d) (user_onboarding d)
    (vault_invites d) (vault_members d) (organizations d) (organization_members d)
    (user_org_context d) (agent_webhooks d) (pending_enrollments d).
Definition set_telemetry (f : list TelemetryRow.t → list TelemetryRow.t) (d : AccountsDb) : AccountsDb :=
  mkAccounts (users d) (consent_events d) (consent_seq d) (f (user_telemetry d)) (user_onboarding d)
    (vault_invites d) (vault_members d) (organizations d) (organization_members d)
    (user_org_context d) (agent_webhooks d) (pending_enrollments d).
Definition set_onboarding (f : list OnboardingRow.t → list OnboardingRow.t) (d : AccountsDb) : AccountsDb :=
  mkAccounts (users d) (consent_events d) (consent_seq d) (user_telemetry d) (f (user_onboarding d))
    (vault_invites d) (vault_members d) (organizations d) (organization_members d)
    (user_org_context d) (agent_webhooks d) (pending_enrollments d).
Definition set_invites (f : list InviteRow.t → list InviteRow.t) (d : AccountsDb) : AccountsDb :=
  mkAccounts (users d) (consent_events d) (consent_seq d) (user_telemetry d) (user_onboarding d)
    (f (vault_invites d)) (vault_members d) (organizations d) (organization_members d)
    (user_org_context d) (agent_webhooks d) (pending_enrollments d).
Definition set_members (f : list MemberRow.t → list MemberRow.t) (d : AccountsDb) : AccountsDb :=
  mkAccounts (users d) (consent_events d) (consent_seq d) (user_telemetry d) (user_onboarding d)
    (vault_invites d) (f (vault_members d)) (organizations d) (organization_members d)
    (user_org_context d) (agent_webhooks d) (pending_enrollments d).
Definition set_orgs (f : list OrgRow.t → list OrgRow.t) (d : AccountsDb) : AccountsDb :=
  mkAccounts (users d) (consent_events d) (consent_seq d) (user_telemetry d) (user_onboarding d)
    (vault_invites d) (vault_members d) (f (organizations d)) (organization_members d)
    (user_org_context d) (agent_webhooks d) (pending_enrollments d).
Definition set_org_members (f : list OrgMemberRow.t → list OrgMemberRow.t) (d : AccountsDb) : AccountsDb :=
  mkAccounts (users d) (consent_events d) (consent_seq d) (user_telemetry d) (user_onboarding d)
    (vault_invites d) (vault_members d) (organizations d) (f (organization_members d))
    (user_org_context d) (agent_webhooks d) (pending_enrollments d).
Definition set_org_context (f : list OrgContextRow.t → list OrgContextRow.t) (d : AccountsDb) : AccountsDb :=
  mkAccounts (users d) (consent_events d) (consent_seq d) (user_telemetry d) (user_onboarding d)
    (vault_invites d) (vault_members d) (organizations d) (organization_members d)
    (f (user_org_context d)) (agent_webhooks d) (pending_enrollments d).
Definition set_webhooks (f : list WebhookRow.t → list WebhookRow.t) (d : AccountsDb) : AccountsDb :=
  mkAccounts (users d) (consent_events d) (consent_seq d) (user_telemetry d) (user_onboarding d)
    (vault_invites d) (vault_members d) (organizations d) (organization_members d)
    (user_org_context d) (f (agent_webhooks d)) (pending_enrollments d).
Definition set_pending (f : list PendingRow.t → list PendingRow.t) (d : AccountsDb) : AccountsDb :=
  mkAccounts (users d) (consent_events d) (consent_seq d) (user_telemetry d) (user_onboarding d)
    (vault_invites d) (vault_members d) (organizations d) (organization_members d)
    (user_org_context d) (agent_webhooks d) (f (pending_enrollments d)).

(** The foreign keys to [user_accounts(id)]. *)
Definition user_exists (id : string) (d : AccountsDb) : bool :=
  existsb (λ r, bool_decide (UserRow.id r = id)) (users d).
End AccountsDb.

Record Cdb := mkCdb { ac : AccountsDb; ct : ControlDb; dt : MetaDb }.

Abbreviation adb := (stm AccountsDb MetaDbError).
Abbreviation cdb := (stm Cdb MetaDbError).

Definition on_ac {A} (m : adb A) : cdb A := λ d, let '(r, a) := m (ac d) in (r, mkCdb a (ct d) (dt d)).
Definition on_dt {A} (m : dbm A) : cdb A := λ d, let '(r, x) := m (dt d) in (r, mkCdb (ac d) (ct d) x).

(** ** The handlers *)
Inductive StatusCode :=
  | BAD_REQUEST | UNAUTHORIZED | FORBIDDEN | NOT_FOUND | CONFLICT | GONE
  | INTERNAL_SERVER_ERROR | BAD_GATEWAY | SERVICE_UNAVAILABLE.

#[global] Instance StatusCode_eq_dec : EqDecision StatusCode.
Proof. solve_decision. Defined.

Module Http.
Import TenantMetaRouter.

(** What an event carries ([agents/dispatch.rs]). *)
Inductive Payload :=
  | WriteOk (path : string) (revision : Z) (content_hash_hex : string) (size : Z) (agent_id : string)
  | WriteConflict (path : string) (expected_revision current_revision : Z)
  | Stale (share : string) (fresh stale missing : Z) (paths : list (string * string)).

Record Job := mkJob { job_tenant : option string; job_vault : string; job_event : string; job_data : Payload }.

(** [revisions] are the rows of [agent_write_revisions], by the file they are
    in; [jobs] the queue of the webhook dispatcher and [dropped] its count of
    events that found it full. *)
Record t := mk {
  acct : AccountsDb;
  router : TenantMetaRouter.t;
  revisions : gmap (option string) (list RevisionRow.t);
  fs : Fs.t;
  jobs : list Job;
  dropped : Z;
  statements : nat
}.

(** Clock readings in seconds and nanoseconds, random draws and failures, by
    the number of statements made so far. *)
Record env := {
  now : nat → Z;
  now_ns : nat → Z;
  random : nat → bytes;
  db_fault : nat → option MetaDbError
}.

Abbreviation error := (StatusCode * string)%type.
Abbreviation hm := (stm t error).
Abbreviation st := (stm t MetaDbError).

Definition set_acct x (s : t) : t := mk x (router s) (revisions s) (fs s) (jobs s) (dropped s) (statements s).
Definition set_router x (s : t) : t := mk (acct s) x (revisions s) (fs s) (jobs s) (dropped s) (statements s).
Definition set_revisions x (s : t) : t := mk (acct s) (router s) x (fs s) (jobs s) (dropped s) (statements s).
Definition set_fs x (s : t) : t := mk (acct s) (router s) (revisions s) x (jobs s) (dropped s) (statements s).
Definition next (s : t) : t := mk (acct s) (router s) (revisions s) (fs s) (jobs s) (dropped s) (S (statements s)).

(** [try_send] on a channel of this capacity; a full one drops the event. *)
Definition CHANNEL_CAP : nat := 512.
Definition enqueue (j : Job) (s : t) : t :=
  if bool_decide (length (jobs s) < CHANNEL_CAP)%nat
  then mk (acct s) (router s) (revisions s) (fs s) (jobs s ++ [j]) (dropped s) (statements s)
  else mk (acct s) (router s) (revisions s) (fs s) (jobs s) (as_u64 (dropped s + 1)) (statements s).

(** The control file as one database; [ControlDb] keeps the account ids its
    foreign key refers to. *)
Definition view (s : t) : Cdb := mkCdb (acct s) (control (router s)) (data (router s)).
Definition put_view (d : Cdb) (s : t) : t :=
  let ids := list_to_set (UserRow.id <$> users (ac d)) in
  let c := mkControl (nodes (ct d)) (device_sync_includes (ct d)) ids in
  set_acct (ac d) (set_router (TenantMetaRouter.mk c (dt d) (tenant_root (router s))
                                 (shards (router s)) (disk (router s))) s).

Section calls.
Context (e : env).

(** A statement on the control file, at its time. *)
Definition control {A} (m : Z → cdb A) : st A := λ s,
  let n := statements s in
  match db_fault e n with
  | Some x => (Err x, next s)
  | None => let '(r, d) := m (now e n) (view s) in (r, put_view d (next s))
  end.

Definition accounts {A} (m : Z → adb A) : st A := control (λ z, on_ac (m z)).
Definition billing {A} (m : Z → dbm A) : st A := control (λ z, on_dt (m z)).

(** [tenant_router.tenant_data(..)] and a statement on what it opened. *)
Definition open_tenant (tenant : option string) : st handle := λ s,
  let '(r, x) := tenant_data (db_fault e (statements s)) tenant (router s) in (r, set_router x (next s)).

Definition on_tenant {A} (h : handle) (m : Z → dbm A) : st A := λ s,
  let n := statements s in
  match db_fault e n with
  | Some x => (Err x, next s)
  | None => let '(r, x) := with_db h (m (now e n)) (router s) in (r, set_router x (next s))
  end.

(** A call that reads the clock a second time before it ends. *)
Definition on_tenant2 {A} (h : handle) (m : Z → Z → dbm A) : st A := λ s,
  on_tenant h (λ z, m z (now e (S (statements s)))) s.

(** [.map_err(|_| (code, msg))]. *)
Definition or_status {A} (code : StatusCode) (msg : string) (m : st A) : hm A := λ s,
  let '(r, s) := m s in (map_err (λ _, (code, msg)) r, s).
Definition or_db_error {A} (m : st A) : hm A := or_status INTERNAL_SERVER_ERROR "database error" m.

(** A call whose error the code turns into a value. *)
Definition catch {A} (m : st A) : hm (result A MetaDbError) := λ s, let '(r, s) := m s in (Ok r, s).

Definition fail {A} (code : StatusCode) (msg : string) : hm A := st_err (code, msg).
Definition require {A} (o : option A) (code : StatusCode) (msg : string) : hm A :=
  st_lift (ok_or o (code, msg)).

Definition io {A} (msg : string) (m : Fs.io A) : hm A := λ s,
  let '(r, x) := m (fs s) in (map_err (λ _, (INTERNAL_SERVER_ERROR, msg)) r, set_fs x s).
Definition try_io {A} (m : Fs.io A) : hm (result A Fs.io_error) := λ s,
  let '(r, x) := m (fs s) in (Ok r, set_fs x s).

(** A clock reading and a draw between statements; [k] bytes were drawn since
    the last one. *)
Definition read_now : hm Z := λ s, (Ok (now e (statements s)), s).
Definition read_now_ns : hm Z := λ s, (Ok (now_ns e (statements s)), s).
Definition draw (k n : nat) : hm bytes := λ s, (Ok (take n (drop k (random e (statements s)))), s).
End calls.

(** A handler that only reads leaves every table and file as it was. *)
Definition same_tables (s s' : t) : Prop :=
  acct s' = acct s ∧ router s' = router s ∧ revisions s' = revisions s ∧ fs s' = fs s ∧ jobs s' = jobs s ∧ dropped s' = dropped s.

#[global] Instance same_tables_preorder : PreOrder same_tables.
Proof.
  split; [by intros s|]. intros x y z (?&?&?&?&?&?) (?&?&?&?&?&?). repeat split; congruence.
Qed.
End Http.
