(* ===== verification/Accounts.v ===== *)
(** * User accounts ([disk-core/src/accounts/], [meta_db/accounts.rs],
      [consent.rs], [telemetry.rs], [onboarding.rs];
      [disk-server/src/accounts/routes.rs], [jwt_service.rs], [email_verify.rs],
      [telemetry/routes.rs], [onboarding/routes.rs])

    Names and slugs, passwords, bearer tokens, the account tables, signup,
    login and email verification. Argon2, the JSON web token library, HMAC and
    the percent encoder are parameters with their documented behaviour. A token
    signed by the identity provider is checked by a function of the token, as
    its keys are fetched from outside. *)

From stdpp Require Import prelude gmap strings pretty.
From Stdlib Require Import ZArith Lia Strings.Byte Strings.Ascii.
From S2P Require Import Prelude Text Types Fs BlobStore Publisher Sql MetaDb Billing MetaSync Tenancy.
From S2P Require Import SyncService Enrollment Http.

#[local] Open Scope Z_scope.

(** ** [str::split_once], [rsplit_once] and [parse::<i64>] *)
Module Split.
Fixpoint once (c : ascii) (l : chars) : option (chars * chars) :=
  match l with
  | [] => None
  | d :: l => if decide (d = c) then Some ([], l)
              else match once c l with Some (a, b) => Some (d :: a, b) | None => None end
  end.

Definition split_once (c : ascii) (s : string) : option (string * string) :=
  match once c (explode s) with Some (a, b) => Some (implode a, implode b) | None => None end.

Definition rsplit_once (c : ascii) (s : string) : option (string * string) :=
  match once c (reverse (explode s)) with
  | Some (b, a) => Some (implode (reverse a), implode (reverse b))
  | None => None
  end.

Definition digit (c : ascii) : option Z :=
  if is_ascii_digit c then Some (ascii_code c - 48) else None.

Fixpoint digits (l : chars) (acc : Z) : option Z :=
  match l with
  | [] => Some acc
  | c :: l => match digit c with Some d => digits l (10 * acc + d) | None => None end
  end.

(** An empty digit string and a value out of range are errors. *)
Definition unsigned (l : chars) : option Z := if decide (l = []) then None else digits l 0.

Definition parse_i64 (s : string) : option Z :=
  z ← match explode s with
      | c :: l => if decide (c = "-"%char) then Z.opp <$> unsigned l
                  else if decide (c = "+"%char) then unsigned l
                  else unsigned (c :: l)
      | [] => None
      end;
  if decide (i64_min ≤ z ≤ i64_max) then Some z else None.

Lemma once_spec c a b : c ∉ a → once c (a ++ c :: b) = Some (a, b).
Proof.
  induction a as [|d a IH]; simpl; intros Hc; [by rewrite decide_True|].
  apply not_elem_of_cons in Hc as [? ?]. by rewrite decide_False, IH by congruence.
Qed.

Lemma once_inv c l a b : once c l = Some (a, b) → l = a ++ c :: b ∧ c ∉ a.
Proof.
  revert a b. induction l as [|d l IH]; simpl; intros a b; [done|].
  case_decide; [intros [= <- <-]; subst; split; [done|apply not_elem_of_nil]|].
  destruct (once c l) as [[a' b']|]; [|done]. intros [= <- <-].
  destruct (IH a' b' eq_refl) as [-> ?]. split; [done|]. by apply not_elem_of_cons.
Qed.

Lemma rsplit_once_app c a b :
  c ∉ explode b → rsplit_once c (a +:+ String c b) = Some (a, b).
Proof.
  intros Hc. unfold rsplit_once. rewrite explode_app.
  change (explode (String c b)) with (c :: explode b).
  rewrite reverse_app, reverse_cons, <-(assoc_L (++)). simpl.
  rewrite once_spec by (by rewrite elem_of_reverse).
  by rewrite !reverse_involutive, !implode_explode.
Qed.

(** Printing an integer and reading it back. *)
Section decimal.
Lemma digit_char n : (n < 10)%N → digit (pretty_N_char n) = Some (Z.of_N n).
Proof.
  intros Hn. assert (n = 0 ∨ n = 1 ∨ n = 2 ∨ n = 3 ∨ n = 4 ∨ n = 5 ∨ n = 6 ∨ n = 7 ∨ n = 8 ∨ n = 9)%N
    as Hc by lia. destruct_or! Hc; subst; reflexivity.
Qed.

Lemma digits_go n s : digits (explode (pretty_N_go n s)) 0 = digits (explode s) (Z.of_N n).
Proof.
  revert s. induction (N.lt_wf_0 n) as [n _ IH]; intros s.
  destruct (decide (0 < n)%N) as [Hn|Hn].
  - rewrite pretty_N_go_step by done. rewrite IH by (apply N.div_lt; lia). simpl.
    rewrite digit_char by (apply N.mod_lt; lia). f_equal.
    rewrite N2Z.inj_div, N2Z.inj_mod. pose proof (Z.div_mod (Z.of_N n) 10). lia.
  - assert (n = 0%N) as -> by lia. by rewrite pretty_N_go_0.
Qed.

Lemma go_all n s c : c ∈ explode (pretty_N_go n s) → is_ascii_digit c = true ∨ c ∈ explode s.
Proof.
  revert s. induction (N.lt_wf_0 n) as [n _ IH]; intros s.
  destruct (decide (0 < n)%N) as [Hn|Hn]; [|assert (n = 0%N) as -> by lia; rewrite pretty_N_go_0; auto].
  rewrite pretty_N_go_step by done. intros [?|Hc]%IH; [by left| |apply N.div_lt; lia].
  simpl in Hc. apply elem_of_cons in Hc as [->|?]; [left|by right].
  assert (n `mod` 10 < 10)%N as Hd by (apply N.mod_lt; lia). apply digit_char in Hd.
  unfold digit in Hd. by destruct (is_ascii_digit _).
Qed.

Lemma go_nonempty n s : s ≠ "" → pretty_N_go n s ≠ "".
Proof.
  revert s. induction (N.lt_wf_0 n) as [n _ IH]; intros s Hs.
  destruct (decide (0 < n)%N) as [Hn|Hn]; [|assert (n = 0%N) as -> by lia; by rewrite pretty_N_go_0].
  rewrite pretty_N_go_step by done. apply IH; [apply N.div_lt; lia|done].
Qed.

Lemma pretty_pos_nonempty p : pretty_N_go (N.pos p) "" ≠ "".
Proof. rewrite pretty_N_go_step by lia. by apply go_nonempty. Qed.

Lemma pretty_pos_digits p c : c ∈ explode (pretty_N_go (N.pos p) "") → is_ascii_digit c = true.
Proof. intros [?|Hc]%go_all; [done|]. simpl in Hc. by apply elem_of_nil in Hc. Qed.

Lemma unsigned_pos p : unsigned (explode (pretty_N_go (N.pos p) "")) = Some (Zpos p).
Proof.
  unfold unsigned. rewrite decide_False.
  - by rewrite digits_go.
  - rewrite explode_nil. apply pretty_pos_nonempty.
Qed.

Lemma parse_i64_pretty z : in_i64 z → parse_i64 (pretty z) = Some z.
Proof.
  intros Hz. unfold parse_i64.
  assert (match explode (pretty z) with
          | c :: l => if decide (c = "-"%char) then Z.opp <$> unsigned l
                      else if decide (c = "+"%char) then unsigned l else unsigned (c :: l)
          | [] => None end = Some z) as ->.
  { destruct z as [|p|p]; [done| |].
    - change (pretty (Z.pos p)) with (pretty_N_go (N.pos p) "").
      pose proof (unsigned_pos p) as Hu. pose proof (pretty_pos_digits p) as Hd.
      destruct (explode _) as [|c l]; [done|]. specialize (Hd c (list_elem_of_here _ _)).
      rewrite !decide_False; [done|by intros ->..].
    - change (explode (pretty (Z.neg p))) with ("-"%char :: explode (pretty_N_go (N.pos p) "")).
      cbv beta iota. destruct (decide _); [|done]. by rewrite unsigned_pos. }
  simpl. by rewrite decide_True by exact Hz.
Qed.

(** A printed integer holds digits and perhaps a sign. *)
Lemma pretty_chars (z : Z) c : c ∈ explode (pretty z) → is_ascii_digit c = true ∨ c = "-"%char.
Proof.
  destruct z as [|p|p].
  - intros ->%list_elem_of_singleton. by left.
  - intros ?%pretty_pos_digits. by left.
  - change (explode (pretty (Z.neg p))) with ("-"%char :: explode (pretty_N_go (N.pos p) "")).
    intros [->|?%pretty_pos_digits]%elem_of_cons; auto.
Qed.
End decimal.
End Split.

(** ** [accounts/mod.rs] *)
Module Accounts.
Definition OAUTH_PASSWORD_SENTINEL : string := "!oauth:no-password!".

Definition new_user_id (buf : bytes) : string := "usr_" +:+ Hex.encode buf.

Definition normalize_email (email : string) : string := to_ascii_lowercase (trim email).

Definition validate_email (email : string) : bool :=
  match Split.split_once "@" (normalize_email email) with
  | None => false
  | Some (local, domain) =>
      negb (bool_decide (local = "")) && contains domain "." && negb (starts_with domain ".")
  end.

(** One character of the result per character of the text: a continuation
    byte belongs to the character before it. *)
Definition slug_char (c : ascii) : ascii :=
  if is_ascii_alphanumeric c || bool_decide (c = "-"%char) || bool_decide (c = "_"%char) then c else "-"%char.

Definition sanitize_tenant_slug (raw : string) : option string :=
  let cs := List.filter (λ c, negb (is_cont (ascii_code c))) (explode raw) in
  let slug := trim_matches "-" (implode (slug_char <$> cs)) in
  if bool_decide (slug = "") || bool_decide (64 < str_len slug) then None else Some slug.

Definition default_tenant_from_email (email : string) : option string :=
  match Split.split_once "@" (normalize_email email) with
  | None => None
  | Some (local, _) => sanitize_tenant_slug local
  end.
End Accounts.

(** ** [accounts/password.rs] and [accounts/jwt.rs]

    Argon2 makes and checks a PHC string; the token library signs any claims, and
    accepts a token it signed with the key when the issuer is the expected one
    and it has not expired, with a minute's leeway. A token is base64 and dots:
    trimming does not change it. *)
Class Argon2 := {
  argon2_hash : bytes → string → result string string;
  argon2_verify : string → string → result bool string;
  argon2_accepts salt pw h : argon2_hash salt pw = Ok h → argon2_verify pw h = Ok true
}.

Module Password.
Inductive PasswordError := TooShort | Hash (msg : string).
Definition MIN_PASSWORD_LEN : Z := 8.

Section password.
Context {argon2 : Argon2}.
Definition hash_password (salt : bytes) (password : string) : result string PasswordError :=
  if bool_decide (str_len password < MIN_PASSWORD_LEN) then Err TooShort
  else map_err Hash (argon2_hash salt password).
Definition verify_password (password stored_hash : string) : result bool PasswordError :=
  map_err Hash (argon2_verify password stored_hash).
End password.
End Password.

Module DiskJwtClaims.
Record t := mk {
  sub : string;
  email : string;
  tenant_id : string;
  email_verified : bool;
  exp : Z;
  iat : Z;
  iss : string
}.
End DiskJwtClaims.

Definition leeway : Z := 60.

Class JwtLib := {
  jwt_encode : bytes → DiskJwtClaims.t → option string;
  jwt_decode : Z → string → bytes → string → option DiskJwtClaims.t;
  jwt_accepts key c tok now :
    jwt_encode key c = Some tok → now ≤ DiskJwtClaims.exp c + leeway →
    jwt_decode now (DiskJwtClaims.iss c) key tok = Some c;
  jwt_valid key iss tok now c :
    jwt_decode now iss key tok = Some c →
    now ≤ DiskJwtClaims.exp c + leeway ∧ DiskJwtClaims.iss c = iss;
  jwt_signs key c : is_Some (jwt_encode key c);
  jwt_no_space key c tok : jwt_encode key c = Some tok → trim tok = tok
}.

Module Jwt.
Definition DEFAULT_ISSUER : string := "disk-arcana".
Inductive JwtError := KeyTooShort | Token.

Section jwt.
Context {jwt : JwtLib}.
Definition issue_token (now : Z) (key : bytes) (user_id email tenant_id : string) (email_verified : bool)
    (ttl_secs : Z) : result string JwtError :=
  if bool_decide (length key < 32)%nat then Err KeyTooShort
  else ok_or (jwt_encode key (DiskJwtClaims.mk user_id email tenant_id email_verified
                                (as_u64 (now + ttl_secs)) now DEFAULT_ISSUER)) Token.

Definition verify_token (now : Z) (key : bytes) (token : string) : result DiskJwtClaims.t JwtError :=
  if bool_decide (length key < 32)%nat then Err KeyTooShort
  else ok_or (jwt_decode now DEFAULT_ISSUER key token) Token.
End jwt.
End Jwt.

(** ** [meta_db/accounts.rs] *)
Module UserAccount.
Record t := mk {
  id : string;
  email : string;
  password_hash : string;
  tenant_id : string;
  email_verified : bool;
  oauth_provider : option string;
  oauth_subject : option string;
  created_at : Z;
  updated_at : Z
}.
Definition is_oauth_only (u : t) : bool :=
  bool_decide (is_Some (oauth_provider u)) && bool_decide (password_hash u = Accounts.OAUTH_PASSWORD_SENTINEL).
End UserAccount.
Abbreviation UserAccount := UserAccount.t.

Record NewOAuthUser := {
  nu_id : string; nu_email : string; nu_tenant_id : string;
  nu_oauth_provider : string; nu_oauth_subject : string; nu_email_verified : bool
}.

Module MetaAccounts.
Import AccountsDb.

(** [PRIMARY KEY (id)], [UNIQUE (email)] under [NOCASE], and the partial
    unique index on the OAuth identity. *)
Definition user_clash (r s : UserRow.t) : bool :=
  bool_decide (UserRow.id r = UserRow.id s)
  || eq_ignore_ascii_case (UserRow.email r) (UserRow.email s)
  || (uniq_eqb (UserRow.oauth_provider r) (UserRow.oauth_provider s)
      && uniq_eqb (UserRow.oauth_subject r) (UserRow.oauth_subject s)).

Definition insert_user (r : UserRow.t) : adb unit := λ d,
  match insert_row user_clash r (users d) with
  | Some t => (Ok tt, set_users (λ _, t) d)
  | None => (Err unique_violation, d)
  end.

Definition create_user_account (id email password_hash tenant_id : string) (now : Z) : adb unit :=
  insert_user (UserRow.mk id email password_hash tenant_id 0 None None now now).

Definition create_oauth_user_account (user : NewOAuthUser) (password_hash : string) (now : Z) : adb unit :=
  insert_user (UserRow.mk (nu_id user) (nu_email user) password_hash (nu_tenant_id user)
    (bool_int (nu_email_verified user)) (Some (nu_oauth_provider user)) (Some (nu_oauth_subject user)) now now).

Definition map_user_row (r : UserRow.t) : UserAccount :=
  UserAccount.mk (UserRow.id r) (UserRow.email r) (UserRow.password_hash r) (UserRow.tenant_id r)
    (int_bool (UserRow.email_verified r)) (UserRow.oauth_provider r) (UserRow.oauth_subject r)
    (UserRow.created_at r) (UserRow.updated_at r).

Definition select_user (p : UserRow.t → bool) : adb (option UserAccount) := λ d,
  (Ok (map_user_row <$> head (select p (users d))), d).

Definition by_id (id : string) (r : UserRow.t) : bool := bool_decide (UserRow.id r = id).
Definition by_email (email : string) (r : UserRow.t) : bool := eq_ignore_ascii_case (UserRow.email r) email.

Definition get_user_by_id (id : string) : adb (option UserAccount) := select_user (by_id id).
Definition get_user_by_email (email : string) : adb (option UserAccount) := select_user (by_email email).
Definition get_user_by_oauth (provider subject : string) : adb (option UserAccount) :=
  select_user (λ r, bool_decide (UserRow.oauth_provider r = Some provider)
                    && bool_decide (UserRow.oauth_subject r = Some subject)).

Definition set_email_verified (user_id : string) (verified : bool) (now : Z) : adb unit := λ d,
  (Ok tt, set_users (update (by_id user_id) (λ r,
     UserRow.mk (UserRow.id r) (UserRow.email r) (UserRow.password_hash r) (UserRow.tenant_id r)
       (bool_int verified) (UserRow.oauth_provider r) (UserRow.oauth_subject r)
       (UserRow.created_at r) now)) d).
End MetaAccounts.

(** ** [meta_db/consent.rs], [telemetry.rs], [onboarding.rs] *)
Module MetaConsent.
Import AccountsDb.
Definition TERMS_POLICY_VERSION : string := "1.0".
Definition PRIVACY_POLICY_VERSION : string := "1.0".
Definition CONSENT_TYPE_TERMS : string := "terms_of_service".
Definition CONSENT_TYPE_PRIVACY : string := "privacy_policy".
Definition CONSENT_TYPE_ANALYTICS : string := "product_analytics".
Definition ANALYTICS_POLICY_VERSION : string := "1.0".

Definition record_consent_event (user_id tenant_id consent_type policy_version : string) (now : Z)
    : adb unit := λ d,
  let id := consent_seq d + 1 in
  (Ok tt, set_consents (λ t, t ++ [ConsentRow.mk id user_id tenant_id consent_type policy_version now]) id d).

Definition consent_leb (a b : ConsentRow.t) : bool :=
  bool_decide (ConsentRow.recorded_at a < ConsentRow.recorded_at b
               ∨ ConsentRow.recorded_at a = ConsentRow.recorded_at b ∧ ConsentRow.id a ≤ ConsentRow.id b).
Definition of_user (user_id : string) (r : ConsentRow.t) : bool := bool_decide (ConsentRow.user_id r = user_id).

Definition list_consent_events_for_user (user_id : string) : adb (list ConsentRow.t) := λ d,
  (Ok (sort_by consent_leb (select (of_user user_id) (consent_events d))), d).

Definition delete_consent_events_for_user (user_id : string) : adb unit := λ d,
  (Ok tt, set_consents (delete_where (of_user user_id)) (consent_seq d) d).
End MetaConsent.

Module MetaTelemetry.
Import AccountsDb.
Record UserTelemetryState := { opt_in : bool; updated_at : Z }.
Definition of_user (user_id : string) (r : TelemetryRow.t) : bool := bool_decide (TelemetryRow.user_id r = user_id).

Definition get_user_telemetry (user_id : string) : adb UserTelemetryState := λ d,
  (Ok (match head (select (of_user user_id) (user_telemetry d)) with
       | Some r => {| opt_in := int_bool (TelemetryRow.opt_in r); updated_at := TelemetryRow.updated_at r |}
       | None => {| opt_in := false; updated_at := 0 |}
       end), d).

Definition upsert_user_telemetry_opt_in (user_id : string) (on : bool) (now : Z) : adb UserTelemetryState := λ d,
  let r := TelemetryRow.mk user_id (bool_int on) now in
  (Ok {| opt_in := on; updated_at := now |},
   set_telemetry (λ t, if bool_decide (affected (of_user user_id) t = 0)%nat then t ++ [r]
                       else update (of_user user_id) (λ _, r) t) d).

Definition delete_user_telemetry (user_id : string) : adb unit := λ d,
  (Ok tt, set_telemetry (delete_where (of_user user_id)) d).
End MetaTelemetry.

Module MetaOnboarding.
Import AccountsDb.
Record UserOnboardingState := { dismissed : bool; dismissed_at : option Z; updated_at : Z }.
Definition of_user (user_id : string) (r : OnboardingRow.t) : bool := bool_decide (OnboardingRow.user_id r = user_id).

Definition get_user_onboarding (user_id : string) : adb UserOnboardingState := λ d,
  (Ok (match head (select (of_user user_id) (user_onboarding d)) with
       | Some r => {| dismissed := int_bool (OnboardingRow.dismissed r);
                      dismissed_at := OnboardingRow.dismissed_at r; updated_at := OnboardingRow.updated_at r |}
       | None => {| dismissed := false; dismissed_at := None; updated_at := 0 |}
       end), d).

Definition upsert_user_onboarding_dismissed (user_id : string) (on : bool) (now : Z) : adb UserOnboardingState := λ d,
  let at' := if on then Some now else None in
  let r := OnboardingRow.mk user_id (bool_int on) at' now in
  (Ok {| dismissed := on; dismissed_at := at'; updated_at := now |},
   set_onboarding (λ t, if bool_decide (affected (of_user user_id) t = 0)%nat then t ++ [r]
                        else update (of_user user_id) (λ _, r) t) d).
End MetaOnboarding.

(** ** [jwt_mode.rs], [email_verify_mode.rs], [mode.rs]; an unknown value is
    a configuration error *)
Inductive JwtMode := Local | AuthArcana | Dual.
Inductive EmailVerifyMode := Disabled | Stub | Log.
Inductive AuthMode := AuthDisabled | Enforce.

Module Modes.
Definition one_of (raw : string) (names : list string) : bool := bool_decide (to_ascii_lowercase raw ∈ names).

Definition parse_jwt (raw : string) : option JwtMode :=
  if one_of raw ["local"; ""] then Some Local
  else if one_of raw ["auth_arcana"; "jwks"; "oidc"] then Some AuthArcana
  else if one_of raw ["dual"] then Some Dual else None.
Definition allows_local_issue (m : JwtMode) : bool := match m with Local | Dual => true | AuthArcana => false end.
Definition allows_jwks_verify (m : JwtMode) : bool := match m with AuthArcana | Dual => true | Local => false end.

Definition parse_email (raw : string) : option EmailVerifyMode :=
  if one_of raw ["disabled"; ""] then Some Disabled
  else if one_of raw ["stub"; "dev"] then Some Stub
  else if one_of raw ["log"] then Some Log else None.
Definition is_active (m : EmailVerifyMode) : bool := match m with Disabled => false | _ => true end.

Definition parse_auth (raw : string) : option AuthMode :=
  if one_of raw ["disabled"; ""] then Some AuthDisabled
  else if one_of raw ["enforce"; "local"] then Some Enforce else None.
End Modes.

(** ** The handlers of [accounts/] *)
Record VerifiedAccess := mkAccess {
  va_sub : string; va_email : option string; va_email_verified : bool; va_tenant_id : option string
}.

(** The fields of [AuthHttpState] that do not change. *)
Record config := {
  sync_root : string;
  version_blobs : string;
  signing_key : bytes;
  jwt_mode : JwtMode;
  local_signing_key : bytes;
  token_ttl_secs : Z;
  email_mode : EmailVerifyMode;
  public_base_url : option string;
  email_ttl_secs : Z
}.

(** Third-party code a handler calls: the check of an identity provider's
    token, HMAC-SHA256 and the percent encoder. *)
Record libs := { jwks : string → option VerifiedAccess; hmac : bytes → bytes → bytes; urlencode : string → string }.

Module JwtService.
Section service.
Context {jwt : JwtLib} (lib : libs) (cfg : config).

Definition issue_local (now : Z) (user_id email tenant_id : string) (email_verified : bool) : option string :=
  if Modes.allows_local_issue (jwt_mode cfg) then
    match Jwt.issue_token now (local_signing_key cfg) user_id email tenant_id email_verified (token_ttl_secs cfg) with
    | Ok t => Some t
    | Err _ => None
    end
  else None.

Definition verify_local (now : Z) (token : string) : option VerifiedAccess :=
  match Jwt.verify_token now (local_signing_key cfg) token with
  | Ok c => Some (mkAccess (DiskJwtClaims.sub c) (Some (DiskJwtClaims.email c))
                    (DiskJwtClaims.email_verified c) (Some (DiskJwtClaims.tenant_id c)))
  | Err _ => None
  end.

Definition verify (now : Z) (token : string) : option VerifiedAccess :=
  if Modes.allows_jwks_verify (jwt_mode cfg) then
    match jwks lib token with
    | Some c => Some c
    | None => match jwt_mode cfg with AuthArcana => None | _ => verify_local now token end
    end
  else verify_local now token.
End service.
End JwtService.

Module EmailToken.
Section token.
Context (lib : libs).

Definition sign_token (key : bytes) (payload : string) : string :=
  Hex.encode (hmac lib key (Publisher.str_bytes payload)).

Definition payload (user_id nonce_hex : string) (exp : Z) : string :=
  "ev:" +:+ user_id +:+ ":" +:+ nonce_hex +:+ ":" +:+ pretty exp.

Definition issue_verification_token (key : bytes) (user_id : string) (ttl_secs now : Z) (nonce : bytes) : string :=
  let p := payload user_id (Hex.encode nonce) (as_i64 (now + as_i64 ttl_secs)) in
  p +:+ "." +:+ sign_token key p.

Definition invalid {A} : result A (StatusCode * string) := Err (BAD_REQUEST, "invalid token").

Definition verify_verification_token (key : bytes) (now : Z) (token : string)
    : result string (StatusCode * string) :=
  match Split.rsplit_once "." token with
  | None => invalid
  | Some (payload, sig) =>
      if bool_decide (sign_token key payload = sig) then
        match strip_prefix (explode "ev:") (explode payload) with
        | None => invalid
        | Some rest =>
            match Split.rsplit_once ":" (implode rest) with
            | None => invalid
            | Some (user_and_nonce, exp_str) =>
                match Split.parse_i64 exp_str with
                | None => invalid
                | Some exp =>
                    if bool_decide (exp < now) then Err (BAD_REQUEST, "token expired")
                    else match Split.rsplit_once ":" user_and_nonce with
                         | None => invalid
                         | Some (user_id, _) => Ok user_id
                         end
                end
            end
        end
      else invalid
  end.
End token.
End EmailToken.

Record UserProfile := mkProfile { up_user_id : string; up_email : string; up_tenant_id : string; up_email_verified : bool }.
Record AuthTokenResponse := mkTokens {
  access_token : string;
  expires_in : Z;
  profile : UserProfile;
  refresh_token : option string;
  verification_token : option string;
  verification_url : option string
}.
Record SignupRequest := { su_email : string; su_password : string; su_tenant_id : option string }.
Record LoginRequest := { li_email : string; li_password : string }.

Module AuthRoutes.
Import Http.

Section routes.
Context {argon2 : Argon2} {jwt : JwtLib} (lib : libs) (cfg : config) (e : env).

(** The header's value; [None] when it is absent or not visible ASCII. *)
Definition bearer_token (authorization : option string) : option string :=
  raw ← authorization; rest ← strip_prefix (explode "Bearer ") (explode raw); Some (trim (implode rest)).

Definition verify_bearer (authorization : option string) : hm VerifiedAccess :=
  token <~ require (bearer_token authorization) UNAUTHORIZED "missing bearer token" ;;
  now <~ read_now e ;;
  require (JwtService.verify lib cfg now token) UNAUTHORIZED "invalid token".

(** A lookup that fails counts as one that finds nothing. *)
Definition lookup (m : adb (option UserAccount)) : hm (option UserAccount) :=
  r <~ catch (accounts e (λ _, m)) ;; st_ret (match r with Ok u => u | Err _ => None end).

Definition resolve_user_from_access (claims : VerifiedAccess) : hm UserAccount :=
  u1 <~ lookup (MetaAccounts.get_user_by_id (va_sub claims)) ;;
  match u1 with
  | Some u => st_ret u
  | None =>
      u2 <~ lookup (MetaAccounts.get_user_by_oauth "auth_arcana" (va_sub claims)) ;;
      match u2 with
      | Some u => st_ret u
      | None =>
          match va_email claims with
          | None => fail UNAUTHORIZED "user not found"
          | Some email =>
              u3 <~ lookup (MetaAccounts.get_user_by_email email) ;;
              require u3 UNAUTHORIZED "user not found"
          end
      end
  end.

Definition authenticate (authorization : option string) : hm UserAccount :=
  claims <~ verify_bearer authorization ;; resolve_user_from_access claims.

Definition build_token_response (user_id email tenant_id : string) (email_verified : bool) : hm AuthTokenResponse :=
  now <~ read_now e ;;
  token <~ require (JwtService.issue_local cfg now user_id email tenant_id email_verified)
             INTERNAL_SERVER_ERROR "token issue failed" ;;
  st_ret (mkTokens token (token_ttl_secs cfg) (mkProfile user_id email tenant_id email_verified) None None None).

Definition build_verification_url (token : string) : option string :=
  base ← public_base_url cfg;
  let b := trim base in
  if decide (b = "") then None
  else Some (implode (reverse (drop_while_char "/" (reverse (explode b))))
             +:+ "/auth/verify-email?token=" +:+ urlencode lib token).

Definition deliver_verification (user_id : string) : hm (option string * option string) :=
  match email_mode cfg with
  | Disabled => st_ret (None, None)
  | m =>
      now <~ read_now e ;;
      nonce <~ draw e 0 16 ;;
      let token := EmailToken.issue_verification_token lib (signing_key cfg) user_id (email_ttl_secs cfg) now nonce in
      match m with
      | Stub => st_ret (Some token, build_verification_url token)
      | _ => st_ret (None, None)
      end
  end.

Definition is_unique_violation (x : MetaDbError) : bool :=
  match x with Sqlx msg => contains msg "UNIQUE" | _ => false end.

Definition signup_tenant (email : string) (tenant_id : option string) : hm string :=
  match tenant_id with
  | Some raw => require (Accounts.sanitize_tenant_slug raw) BAD_REQUEST "invalid tenant_id"
  | None => require (Accounts.default_tenant_from_email email) BAD_REQUEST "could not derive tenant_id"
  end.

(** [record_signup_policy_consents], its result dropped. *)
Definition record_signup_policy_consents (user_id tenant_id : string) : hm unit :=
  r <~ catch (accounts e (MetaConsent.record_consent_event user_id tenant_id
                            MetaConsent.CONSENT_TYPE_TERMS MetaConsent.TERMS_POLICY_VERSION)) ;;
  match r with
  | Err _ => st_ret tt
  | Ok _ =>
      _ <~ catch (accounts e (MetaConsent.record_consent_event user_id tenant_id
                                MetaConsent.CONSENT_TYPE_PRIVACY MetaConsent.PRIVACY_POLICY_VERSION)) ;;
      st_ret tt
  end.

Definition create_account (user_id email password_hash tenant_id : string) : hm unit :=
  r <~ catch (accounts e (MetaAccounts.create_user_account user_id email password_hash tenant_id)) ;;
  match r with
  | Ok _ => st_ret tt
  | Err x => if is_unique_violation x then fail CONFLICT "email already registered"
             else fail INTERNAL_SERVER_ERROR "database error"
  end.

Definition signup (body : SignupRequest) : hm AuthTokenResponse :=
  if negb (Modes.allows_local_issue (jwt_mode cfg))
  then fail FORBIDDEN "password signup disabled; use /auth/oauth/start"
  else
    let email := Accounts.normalize_email (su_email body) in
    if negb (Accounts.validate_email email) then fail BAD_REQUEST "invalid email"
    else
      tenant_id <~ signup_tenant email (su_tenant_id body) ;;
      salt <~ draw e 0 16 ;;
      password_hash <~ require (match Password.hash_password salt (su_password body) with
                                | Ok h => Some h | Err _ => None end) BAD_REQUEST "password too short" ;;
      buf <~ draw e 16 16 ;;
      let user_id := Accounts.new_user_id buf in
      _ <~ create_account user_id email password_hash tenant_id ;;
      _ <~ catch (billing e (λ now, MetaBilling.set_plan_tier now (Some tenant_id) PlanTier.Free)) ;;
      _ <~ record_signup_policy_consents user_id tenant_id ;;
      resp <~ build_token_response user_id email tenant_id false ;;
      v <~ deliver_verification user_id ;;
      st_ret (mkTokens (access_token resp) (expires_in resp) (profile resp) (refresh_token resp) v.1 v.2).

Definition login (body : LoginRequest) : hm AuthTokenResponse :=
  if negb (Modes.allows_local_issue (jwt_mode cfg))
  then fail FORBIDDEN "password login disabled; use /auth/oauth/start"
  else
    let email := Accounts.normalize_email (li_email body) in
    found <~ or_db_error (accounts e (λ _, MetaAccounts.get_user_by_email email)) ;;
    user <~ require found UNAUTHORIZED "invalid credentials" ;;
    if UserAccount.is_oauth_only user then fail UNAUTHORIZED "use oauth login"
    else
      match Password.verify_password (li_password body) (UserAccount.password_hash user) with
      | Err _ => fail INTERNAL_SERVER_ERROR "password verify failed"
      | Ok false => fail UNAUTHORIZED "invalid credentials"
      | Ok true => build_token_response (UserAccount.id user) (UserAccount.email user)
                     (UserAccount.tenant_id user) (UserAccount.email_verified user)
      end.

Definition me (authorization : option string) : hm UserProfile :=
  u <~ authenticate authorization ;;
  st_ret (mkProfile (UserAccount.id u) (UserAccount.email u) (UserAccount.tenant_id u) (UserAccount.email_verified u)).

(** The rest of [verify_email] once its token is accepted. *)
Definition mark_verified (user_id : string) : hm AuthTokenResponse :=
  found <~ or_db_error (accounts e (λ _, MetaAccounts.get_user_by_id user_id)) ;;
  user <~ require found BAD_REQUEST "invalid token" ;;
  if UserAccount.email_verified user
  then build_token_response (UserAccount.id user) (UserAccount.email user) (UserAccount.tenant_id user) true
  else
    _ <~ or_db_error (accounts e (MetaAccounts.set_email_verified (UserAccount.id user) true)) ;;
    build_token_response (UserAccount.id user) (UserAccount.email user) (UserAccount.tenant_id user) true.

Definition verify_email (token : string) : hm AuthTokenResponse :=
  if negb (Modes.is_active (email_mode cfg)) then fail NOT_FOUND "email verification disabled"
  else
    now <~ read_now e ;;
    user_id <~ st_lift (EmailToken.verify_verification_token lib (signing_key cfg) now token) ;;
    mark_verified user_id.

Definition resend_verification (authorization : option string) : hm (option string * option string) :=
  if negb (Modes.is_active (email_mode cfg)) then fail NOT_FOUND "email verification disabled"
  else λ s,
    match verify_bearer authorization s with
    | (Err _, s) => (Err (UNAUTHORIZED, "invalid token"), s)
    | (Ok claims, s) =>
        (user <~ resolve_user_from_access claims ;;
         if UserAccount.email_verified user then fail CONFLICT "email already verified"
         else deliver_verification (UserAccount.id user)) s
    end.

(** ** Preferences: [telemetry/routes.rs] and [onboarding/routes.rs]

    [enabled] is whether the analytics key is configured. *)
Definition get_telemetry (authorization : option string) : hm (string * bool * option Z) :=
  user <~ authenticate authorization ;;
  row <~ or_db_error (accounts e (λ _, MetaTelemetry.get_user_telemetry (UserAccount.id user))) ;;
  let at' := MetaTelemetry.updated_at row in
  st_ret (UserAccount.id user, MetaTelemetry.opt_in row, if decide (at' = 0) then None else Some at').

Definition put_telemetry (enabled : bool) (authorization : option string) (opt_in : bool) : hm (string * bool * option Z) :=
  user <~ authenticate authorization ;;
  if opt_in && negb enabled
  then fail SERVICE_UNAVAILABLE "product analytics is not configured on this server"
  else
    row <~ or_db_error (accounts e (MetaTelemetry.upsert_user_telemetry_opt_in (UserAccount.id user) opt_in)) ;;
    _ <~ or_db_error (accounts e (MetaConsent.record_consent_event (UserAccount.id user) (UserAccount.tenant_id user)
                                    MetaConsent.CONSENT_TYPE_ANALYTICS MetaConsent.ANALYTICS_POLICY_VERSION)) ;;
    st_ret (UserAccount.id user, MetaTelemetry.opt_in row, Some (MetaTelemetry.updated_at row)).

Definition get_onboarding (authorization : option string) : hm (string * bool * option Z * option Z) :=
  user <~ authenticate authorization ;;
  row <~ or_db_error (accounts e (λ _, MetaOnboarding.get_user_onboarding (UserAccount.id user))) ;;
  let at' := MetaOnboarding.updated_at row in
  st_ret (UserAccount.id user, MetaOnboarding.dismissed row, MetaOnboarding.dismissed_at row,
          if decide (at' = 0) then None else Some at').

Definition put_onboarding (authorization : option string) (dismissed : bool)
    : hm (string * bool * option Z * option Z) :=
  user <~ authenticate authorization ;;
  row <~ or_db_error (accounts e (MetaOnboarding.upsert_user_onboarding_dismissed (UserAccount.id user) dismissed)) ;;
  st_ret (UserAccount.id user, MetaOnboarding.dismissed row, MetaOnboarding.dismissed_at row,
          Some (MetaOnboarding.updated_at row)).
End routes.
End AuthRoutes.
