(* ===== verification/OAuth.v ===== *)
(** * Sign-in through an identity provider
      ([disk-server/src/accounts/oauth.rs], [oauth_mode.rs], [oidc_client.rs],
      [token_refresh.rs], [jwks.rs] and [verify_jwks] of [jwt_service.rs])

    The state parameter and its signature, the start of a login, the exchange
    of a code, the account of an identity, the refresh of a token, the cache of
    the provider's keys. What the provider answers, base64, HMAC, the percent
    encoder and the token library are parameters. *)

From stdpp Require Import prelude gmap strings pretty.
From Stdlib Require Import ZArith Lia Strings.Byte Strings.Ascii.
From S2P Require Import Prelude Text PathFacts Types Fs BlobStore Sql MetaDb Billing MetaSync.
From S2P Require Import E2ee Publisher Tenancy SyncService Http Accounts.

#[local] Open Scope Z_scope.

(** ** [base64]'s URL-safe engine without padding *)
Class Base64 := {
  b64_encode : bytes → string;
  b64_decode : string → option bytes;
  b64_decode_encode b : b64_decode (b64_encode b) = Some b;
  b64_no_colon b : ":"%char ∉ explode (b64_encode b);
  b64_no_dot b : "."%char ∉ explode (b64_encode b)
}.

(** ** [oauth_mode.rs] *)
Module OAuthMode.
Inductive t := Disabled | Stub | AuthArcana.

#[global] Instance t_eq_dec : EqDecision t.
Proof. solve_decision. Defined.

Definition parse (raw : string) : option t :=
  if Modes.one_of raw ["disabled"; ""] then Some Disabled
  else if Modes.one_of raw ["stub"; "dev"] then Some Stub
  else if Modes.one_of raw ["auth_arcana"; "oidc"] then Some AuthArcana
  else None.

Definition is_active (m : t) : bool := match m with Disabled => false | _ => true end.
End OAuthMode.

Module OAuthConfig.
Record t := mk {
  mode : OAuthMode.t;
  issuer : option string;
  client_id : option string;
  client_secret : option string;
  redirect_uri : option string;
  public_base_url : option string
}.
End OAuthConfig.

(** ** What the provider answers

    A request is not answered, answered with an error status, answered with a
    body that is not JSON, or answered. Of a JSON object the fields the code
    reads are kept; [None] is a field that is absent or of another type. *)
Inductive Answer (A : Type) := SendError | StatusError | BodyError | Body (a : A).
Arguments SendError {A}.
Arguments StatusError {A}.
Arguments BodyError {A}.
Arguments Body {A} _.

Record DiscoveryJson := { dj_token_endpoint : option string; dj_userinfo_endpoint : option string }.
Record TokenJson := { tj_access_token : option string; tj_expires_in : option Z; tj_refresh_token : option string }.
Record UserinfoJson := { uj_sub : option string; uj_email : option string; uj_email_verified : option bool }.

(** By URL, by URL and form, by URL and bearer token. *)
Record Idp := {
  get_discovery : string → Answer DiscoveryJson;
  post_token : string → list (string * string) → Answer TokenJson;
  get_userinfo : string → string → Answer UserinfoJson
}.

(** ** [oidc_client.rs] *)
Module OidcClient.
Import Http.

Record TokenGrantResponse := mkGrant {
  gr_access_token : string; gr_expires_in : option Z; gr_refresh_token : option string
}.
Record OidcDiscovery := mkDiscovery { token_endpoint : string; userinfo_endpoint : string }.

(** [.send().await], [.error_for_status()] and [.json().await], each with its
    message. *)
Definition body_of {A} (failed rejected invalid : string) (r : Answer A) : result A error :=
  match r with
  | SendError => Err (BAD_GATEWAY, failed)
  | StatusError => Err (BAD_GATEWAY, rejected)
  | BodyError => Err (BAD_GATEWAY, invalid)
  | Body a => Ok a
  end.

Definition missing {A} (o : option A) (msg : string) : result A error := ok_or o (BAD_GATEWAY, msg).
Definition configured {A} (o : option A) (msg : string) : result A error := ok_or o (INTERNAL_SERVER_ERROR, msg).

Definition trim_slashes (s : string) : string :=
  implode (reverse (drop_while_char "/" (reverse (explode s)))).

Section client.
Context (idp : Idp) (oauth : OAuthConfig.t).

Definition fetch_oidc_discovery : result OidcDiscovery error :=
  issuer <?- configured (OAuthConfig.issuer oauth) "oauth issuer not configured" ;;
  let discovery_url := trim_slashes issuer +:+ "/.well-known/openid-configuration" in
  discovery <?- body_of "oidc discovery failed" "oidc discovery failed" "oidc discovery invalid"
                  (get_discovery idp discovery_url) ;;
  token_endpoint <?- missing (dj_token_endpoint discovery) "oidc token_endpoint missing" ;;
  userinfo_endpoint <?- missing (dj_userinfo_endpoint discovery) "oidc userinfo_endpoint missing" ;;
  Ok (mkDiscovery token_endpoint userinfo_endpoint).

Definition fetch_token_endpoint : result string error :=
  d <?- fetch_oidc_discovery ;; Ok (token_endpoint d).

Definition exchange_refresh_token (refresh_token : string) : result TokenGrantResponse error :=
  token_endpoint <?- fetch_token_endpoint ;;
  client_id <?- configured (OAuthConfig.client_id oauth) "oauth client_id not configured" ;;
  client_secret <?- configured (OAuthConfig.client_secret oauth) "oauth client_secret not configured" ;;
  token_resp <?- body_of "token refresh failed" "token refresh rejected" "token response invalid"
    (post_token idp token_endpoint
       [("grant_type", "refresh_token"); ("refresh_token", refresh_token);
        ("client_id", client_id); ("client_secret", client_secret)]) ;;
  access_token <?- missing (tj_access_token token_resp) "access_token missing" ;;
  Ok (mkGrant access_token (tj_expires_in token_resp) (tj_refresh_token token_resp)).
End client.
End OidcClient.

(** ** [oauth.rs] *)
Record OAuthStartQuery := { sq_provider : option string; sq_flow : option string; sq_redirect_uri : option string }.
Record OAuthCallbackQuery := { cq_code : string; cq_state : option string }.
Record OAuthStartResponse := mkStart { authorization_url : string; sr_state : string }.
Record OAuthIdentity := mkIdentity {
  oi_provider : string; oi_subject : string; oi_email : string; oi_email_verified : bool
}.
Record OAuthExchange := mkExchange {
  identity : OAuthIdentity;
  ex_access_token : option string;
  ex_expires_in : option Z;
  ex_refresh_token : option string
}.

(** [str::splitn]. *)
Fixpoint splitn (n : nat) (c : ascii) (l : chars) : list string :=
  match n with
  | O => []
  | S O => [implode l]
  | S n => match Split.once c l with
           | Some (a, b) => implode a :: splitn n c b
           | None => [implode l]
           end
  end.

(** [String::from_utf8]. *)
Definition from_utf8 (b : bytes) : option string :=
  if bytes_utf8 b then Some (String.string_of_list_byte b) else None.

Module OAuth.
Import Http OidcClient.

Definition bad {A} (msg : string) : result A error := Err (BAD_REQUEST, msg).
Definition or_bad {A} (o : option A) (msg : string) : result A error := ok_or o (BAD_REQUEST, msg).

Section state.
Context {b64 : Base64} (lib : libs).

(** HMAC takes a key of any length. *)
Definition sign_state (signing_key : bytes) (payload : string) : string :=
  Hex.encode (hmac lib signing_key (Publisher.str_bytes payload)).

Definition state_payload (provider nonce_hex : string) (exp : Z) (browser_redirect : option string) : string :=
  let base := provider +:+ ":" +:+ nonce_hex +:+ ":" +:+ pretty exp in
  match browser_redirect with
  | Some redirect => base +:+ ":" +:+ b64_encode (Publisher.str_bytes redirect)
  | None => base
  end.

Definition issue_oauth_state (signing_key : bytes) (provider : string) (browser_redirect : option string)
    (nonce : bytes) (now : Z) : string :=
  let payload := state_payload provider (Hex.encode nonce) (as_i64 (now + 600)) browser_redirect in
  payload +:+ "." +:+ sign_state signing_key payload.

(** What a payload whose signature is right says. *)
Definition state_redirect (now : Z) (payload : string) : result (option string) error :=
  match splitn 4 ":" (explode payload) with
  | _provider :: _nonce :: exp :: rest =>
      exp <?- or_bad (Split.parse_i64 exp) "invalid state" ;;
      if bool_decide (exp < now) then bad "state expired"
      else
        match rest with
        | [] => Ok None
        | enc :: _ => r <?- or_bad (b64_decode enc ≫= from_utf8) "invalid state" ;; Ok (Some r)
        end
  | _ => bad "invalid state"
  end.

Definition verify_oauth_state (signing_key : bytes) (now : Z) (state : string) : result (option string) error :=
  ps <?- or_bad (Split.rsplit_once "." state) "invalid state" ;;
  if bool_decide (sign_state signing_key ps.1 = ps.2) then state_redirect now ps.1 else bad "invalid state".

Definition encode_stub_code (provider subject email : string) : string :=
  b64_encode (Publisher.str_bytes ("stub.v1|" +:+ provider +:+ "|" +:+ subject +:+ "|" +:+ email)).

Definition parse_stub_code (code : string) : result OAuthIdentity error :=
  b <?- or_bad (b64_decode code) "invalid oauth code" ;;
  payload <?- or_bad (from_utf8 b) "invalid oauth code" ;;
  match splitn 4 "|" (explode payload) with
  | version :: rest =>
      if bool_decide (version ≠ "stub.v1") then bad "invalid oauth code"
      else
        match rest with
        | [provider; subject; email] =>
            let email := Accounts.normalize_email email in
            if negb (Accounts.validate_email email) then bad "invalid oauth code"
            else Ok (mkIdentity provider subject email true)
        | _ => bad "invalid oauth code"
        end
  | [] => bad "invalid oauth code"
  end.
End state.

Definition starts_with (prefix s : string) : bool :=
  bool_decide (is_Some (strip_prefix (explode prefix) (explode s))).

Definition validate_browser_redirect (uri : string) : result unit error :=
  if starts_with "https://" uri || starts_with "http://127.0.0.1" uri || starts_with "http://localhost" uri
  then Ok tt else bad "invalid redirect_uri".

Definition browser_redirect_from_query (query : OAuthStartQuery) : result (option string) error :=
  if bool_decide (default "" (sq_flow query) ≠ "browser") then
    match sq_redirect_uri query with
    | Some _ => bad "redirect_uri requires flow=browser"
    | None => Ok None
    end
  else
    redirect <?- or_bad (sq_redirect_uri query) "flow=browser requires redirect_uri" ;;
    _ <?- validate_browser_redirect redirect ;;
    Ok (Some redirect).

Section handlers.
Context {b64 : Base64} {jwt : JwtLib} (lib : libs) (cfg : config) (idp : Idp) (oauth : OAuthConfig.t) (e : env).

(** The state's nonce is drawn before. *)
Definition random_hex (k n : nat) : hm string := b <~ draw e k n ;; st_ret (Hex.encode b).

Definition stub_code (provider subject : string) : string :=
  encode_stub_code provider subject (subject +:+ "@stub.oauth.local").

Definition build_stub_authorization_url (provider oauth_state : string) (browser_redirect : option string)
    : hm string :=
  hex <~ random_hex 16 8 ;;
  let code := stub_code provider ("stub-" +:+ hex) in
  match browser_redirect with
  | Some redirect_base =>
      st_ret (redirect_base +:+ "?code=" +:+ urlencode lib code +:+ "&state=" +:+ urlencode lib oauth_state)
  | None =>
      base <~ st_lift (configured
                (match OAuthConfig.public_base_url oauth with Some u => Some u | None => OAuthConfig.redirect_uri oauth end)
                "oauth base url not configured") ;;
      hex <~ random_hex 24 8 ;;
      let code := stub_code provider ("stub-" +:+ hex) in
      st_ret (base +:+ "/auth/oauth/callback?code=" +:+ urlencode lib code +:+ "&state=" +:+ urlencode lib oauth_state)
  end.

Definition redirect_or (browser_redirect : option string) : option string :=
  match browser_redirect with Some r => Some r | None => OAuthConfig.redirect_uri oauth end.

Definition build_auth_arcana_authorization_url (oauth_state : string) (browser_redirect : option string)
    : result string error :=
  issuer <?- configured (OAuthConfig.issuer oauth) "oauth issuer not configured" ;;
  client_id <?- configured (OAuthConfig.client_id oauth) "oauth client_id not configured" ;;
  redirect_uri <?- configured (redirect_or browser_redirect) "oauth redirect_uri not configured" ;;
  Ok (trim_slashes issuer +:+ "/authorize?response_type=code&client_id=" +:+ urlencode lib client_id
      +:+ "&redirect_uri=" +:+ urlencode lib redirect_uri +:+ "&scope=openid%20email&state="
      +:+ urlencode lib oauth_state).

Definition oauth_start (query : OAuthStartQuery) : hm OAuthStartResponse :=
  if negb (OAuthMode.is_active (OAuthConfig.mode oauth)) then fail NOT_FOUND "oauth disabled"
  else
    browser_redirect <~ st_lift (browser_redirect_from_query query) ;;
    let provider := default "auth_arcana" (sq_provider query) in
    nonce <~ draw e 0 16 ;;
    now <~ read_now e ;;
    let oauth_state := issue_oauth_state lib (signing_key cfg) provider browser_redirect nonce now in
    url <~ match OAuthConfig.mode oauth with
           | OAuthMode.Stub => build_stub_authorization_url provider oauth_state browser_redirect
           | OAuthMode.AuthArcana => st_lift (build_auth_arcana_authorization_url oauth_state browser_redirect)
           | OAuthMode.Disabled => fail NOT_FOUND "oauth disabled"
           end ;;
    st_ret (mkStart url oauth_state).

Definition exchange_auth_arcana_code (code : string) (redirect_uri_override : option string)
    : result OAuthExchange error :=
  client_id <?- configured (OAuthConfig.client_id oauth) "oauth client_id not configured" ;;
  client_secret <?- configured (OAuthConfig.client_secret oauth) "oauth client_secret not configured" ;;
  redirect_uri <?- configured (redirect_or redirect_uri_override) "oauth redirect_uri not configured" ;;
  discovery <?- fetch_oidc_discovery idp oauth ;;
  token_resp <?- body_of "token exchange failed" "token exchange rejected" "token response invalid"
    (post_token idp (token_endpoint discovery)
       [("grant_type", "authorization_code"); ("code", code); ("redirect_uri", redirect_uri);
        ("client_id", client_id); ("client_secret", client_secret)]) ;;
  access_token <?- missing (tj_access_token token_resp) "access_token missing" ;;
  userinfo <?- body_of "userinfo failed" "userinfo rejected" "userinfo invalid"
    (get_userinfo idp (userinfo_endpoint discovery) access_token) ;;
  subject <?- missing (uj_sub userinfo) "userinfo sub missing" ;;
  email <?- missing (uj_email userinfo) "userinfo email missing" ;;
  Ok (mkExchange (mkIdentity "auth_arcana" subject (Accounts.normalize_email email)
                    (default false (uj_email_verified userinfo)))
        (Some access_token) (tj_expires_in token_resp) (tj_refresh_token token_resp)).

Definition build_external_token_response (access_token : string) (expires_in : Z)
    (user_id email tenant_id : string) (email_verified : bool) (refresh_token : option string) : AuthTokenResponse :=
  mkTokens access_token expires_in (mkProfile user_id email tenant_id email_verified) refresh_token None None.

Definition finish_oauth_login (user_id email tenant_id : string) (email_verified : bool) (session : OAuthExchange)
    : hm AuthTokenResponse :=
  match jwt_mode cfg, ex_access_token session with
  | AuthArcana, Some token =>
      st_ret (build_external_token_response token (default (token_ttl_secs cfg) (ex_expires_in session))
                user_id email tenant_id email_verified (ex_refresh_token session))
  | _, _ => AuthRoutes.build_token_response cfg e user_id email tenant_id email_verified
  end.

Definition finish_user (u : UserAccount) (session : OAuthExchange) : hm AuthTokenResponse :=
  finish_oauth_login (UserAccount.id u) (UserAccount.email u) (UserAccount.tenant_id u)
    (UserAccount.email_verified u) session.

Definition find_identity (i : OAuthIdentity) : hm (option UserAccount) :=
  or_db_error (accounts e (λ _, MetaAccounts.get_user_by_oauth (oi_provider i) (oi_subject i))).

(** The part from [new_user_id] on. *)
Definition create_oauth_user (exchange : OAuthExchange) (tenant_id : string) : hm AuthTokenResponse :=
  let i := identity exchange in
  buf <~ draw e 0 16 ;;
  let user_id := Accounts.new_user_id buf in
  let new_user := {| nu_id := user_id; nu_email := oi_email i; nu_tenant_id := tenant_id;
                     nu_oauth_provider := oi_provider i; nu_oauth_subject := oi_subject i;
                     nu_email_verified := oi_email_verified i |} in
  created <~ catch (accounts e (MetaAccounts.create_oauth_user_account new_user Accounts.OAUTH_PASSWORD_SENTINEL)) ;;
  match created with
  | Err x =>
      if AuthRoutes.is_unique_violation x then
        found <~ find_identity i ;;
        match found with
        | Some user => finish_user user exchange
        | None => fail CONFLICT "email already registered"
        end
      else fail INTERNAL_SERVER_ERROR "database error"
  | Ok _ =>
      _ <~ catch (billing e (λ now, MetaBilling.set_plan_tier now (Some tenant_id) PlanTier.Free)) ;;
      _ <~ AuthRoutes.record_signup_policy_consents e user_id tenant_id ;;
      finish_oauth_login user_id (oi_email i) tenant_id (oi_email_verified i) exchange
  end.

Definition login_or_create_oauth_user (exchange : OAuthExchange) : hm AuthTokenResponse :=
  let i := identity exchange in
  if negb (Accounts.validate_email (oi_email i)) then fail BAD_REQUEST "invalid email from oauth"
  else
    found <~ find_identity i ;;
    match found with
    | Some user => finish_user user exchange
    | None =>
        tenant_id <~ require (Accounts.default_tenant_from_email (oi_email i)) BAD_REQUEST "could not derive tenant_id" ;;
        create_oauth_user exchange tenant_id
    end.

(** The identity a callback is for. *)
Definition callback_exchange (now : Z) (query : OAuthCallbackQuery) : result OAuthExchange error :=
  match OAuthConfig.mode oauth with
  | OAuthMode.Stub => i <?- parse_stub_code (cq_code query) ;; Ok (mkExchange i None None None)
  | OAuthMode.AuthArcana =>
      state_param <?- or_bad (cq_state query) "missing state" ;;
      browser_redirect <?- verify_oauth_state lib (signing_key cfg) now state_param ;;
      exchange_auth_arcana_code (cq_code query) browser_redirect
  | OAuthMode.Disabled => Err (NOT_FOUND, "oauth disabled")
  end.

Definition oauth_callback (query : OAuthCallbackQuery) : hm AuthTokenResponse :=
  if negb (OAuthMode.is_active (OAuthConfig.mode oauth)) then fail NOT_FOUND "oauth disabled"
  else
    now <~ read_now e ;;
    exchange <~ st_lift (callback_exchange now query) ;;
    login_or_create_oauth_user exchange.

(** [token_refresh.rs]. *)
Definition refresh_token_inner (refresh_token : string) : hm AuthTokenResponse :=
  if bool_decide (OAuthConfig.mode oauth ≠ OAuthMode.AuthArcana) then fail NOT_FOUND "refresh not available"
  else if negb (Modes.allows_jwks_verify (jwt_mode cfg)) then fail NOT_FOUND "refresh not available"
  else
    grant <~ st_lift (exchange_refresh_token idp oauth refresh_token) ;;
    now <~ read_now e ;;
    claims <~ require (JwtService.verify lib cfg now (gr_access_token grant)) UNAUTHORIZED "invalid refreshed token" ;;
    user <~ AuthRoutes.resolve_user_from_access e claims ;;
    st_ret (build_external_token_response (gr_access_token grant)
              (default (token_ttl_secs cfg) (gr_expires_in grant)) (UserAccount.id user) (UserAccount.email user)
              (UserAccount.tenant_id user) (UserAccount.email_verified user) (gr_refresh_token grant)).
End handlers.
End OAuth.

(** ** [jwks.rs]

    Time is a monotonic clock in nanoseconds. *)
Module Jwks.
Inductive JwksError := Fetch | InvalidDocument | UnknownKid (kid : string).
Definition DEFAULT_CACHE_TTL_SECS : Z := 300.

Section cache.
Context {Key : Type}.

Record CachedJwks := mkCached { fetched_at : Z; keys : gmap string Key }.
Record t := mk { uri : string; ttl : Z; inner : option CachedJwks }.

(** The id of each key of a document and what [from_jwk] makes of it. *)
Abbreviation document := (list (option string * option Key)).

Definition new (uri : string) : t := mk uri DEFAULT_CACHE_TTL_SECS None.
Definition with_ttl_secs (secs : Z) (self : t) : t := mk (uri self) secs (inner self).

Definition cached_key (now : Z) (kid : string) (self : t) : option Key :=
  cached ← inner self;
  if bool_decide (ttl self * 1000000000 < now - fetched_at cached) then None else keys cached !! kid.

Fixpoint load_keys (l : document) (acc : gmap string Key) : result (gmap string Key) JwksError :=
  match l with
  | [] => Ok acc
  | (kid, key) :: l =>
      kid <?- ok_or kid InvalidDocument ;;
      key <?- ok_or key InvalidDocument ;;
      load_keys l (<[kid := key]> acc)
  end.

(** What a fetched document gives the cache. *)
Definition loaded (answer : Answer document) : result (gmap string Key) JwksError :=
  match answer with
  | Body l =>
      ks <?- load_keys l ∅ ;;
      if bool_decide (ks = ∅) then Err InvalidDocument else Ok ks
  | _ => Err Fetch
  end.

Definition refresh (fetch : string → Answer document) (now : Z) : stm t JwksError unit := λ self,
  match loaded (fetch (uri self)) with
  | Ok ks => (Ok tt, mk (uri self) (ttl self) (Some (mkCached now ks)))
  | Err x => (Err x, self)
  end.

(** [now], [fetched] and [after] are the three readings of the clock. *)
Definition decoding_key (fetch : string → Answer document) (now fetched after : Z) (kid : string)
    : stm t JwksError Key := λ self,
  match cached_key now kid self with
  | Some key => (Ok key, self)
  | None =>
      (_ <~ refresh fetch fetched ;;
       λ self, (ok_or (cached_key after kid self) (UnknownKid kid), self)) self
  end.
End cache.
Arguments t : clear implicits.
Arguments CachedJwks : clear implicits.
End Jwks.

(** [verify_jwks]. The token library reads the header's key id and algorithm,
    and decodes the claims of a token whose signature, issuer and expiry are
    right. *)
Module JwksVerify.
Inductive AccessTokenError := JwksFailed (x : Jwks.JwksError) | Invalid | Header.

Record OidcAccessClaims := mkClaims {
  cl_sub : string; cl_email : option string; cl_email_verified : option bool; cl_tenant_id : option string
}.

Section verify.
Context {Key Alg : Type}
  (decode_header : string → option (option string * Alg))
  (decode : Alg → string → Key → string → option OidcAccessClaims).

Definition verify_jwks (issuer : string) (fetch : string → Answer (list (option string * option Key)))
    (now fetched after : Z) (token : string) : stm (Jwks.t Key) AccessTokenError VerifiedAccess :=
  header <~ st_lift (ok_or (decode_header token) Header) ;;
  kid <~ st_lift (ok_or header.1 Invalid) ;;
  key <~ (λ c, let '(r, c) := Jwks.decoding_key fetch now fetched after kid c in (map_err JwksFailed r, c)) ;;
  data <~ st_lift (ok_or (decode header.2 issuer key token) Invalid) ;;
  st_ret (mkAccess (cl_sub data) (cl_email data) (default false (cl_email_verified data)) (cl_tenant_id data)).
End verify.
End JwksVerify.
