(* ===== verification/Sharing.v ===== *)
(** * Vault sharing ([disk-core/src/meta_db/sharing.rs],
      [disk-server/src/sharing/access.rs], [sharing/routes.rs])

    Invitations with a one-time token, collaborator rows, and the resolution of
    a user's access to a vault that every vault-scoped handler starts with. *)

From stdpp Require Import prelude gmap strings.
From Stdlib Require Import ZArith Lia Strings.Byte Strings.Ascii.
From S2P Require Import Prelude Text Types Fs BlobStore E2ee Sql MetaDb MetaSync Tenancy Http Accounts.

#[local] Open Scope Z_scope.

Inductive VaultShareRole := Viewer | Editor.

#[global] Instance VaultShareRole_eq_dec : EqDecision VaultShareRole.
Proof. solve_decision. Defined.

Record VaultInviteRow := mkInvite {
  vi_id : string; vi_tenant_id : option string; vi_vault_id : string; vi_role : VaultShareRole;
  vi_created_by : string; vi_expires_at : Z; vi_redeemed_at : option Z; vi_redeemed_by : option string;
  vi_created_at : Z
}.

Record VaultMemberRow := mkMember {
  vm_tenant_id : option string; vm_vault_id : string; vm_user_id : string; vm_email : string;
  vm_role : VaultShareRole; vm_granted_by : option string; vm_created_at : Z
}.

Module MetaSharing.
Import AccountsDb.

Definition as_str (r : VaultShareRole) : string := match r with Viewer => "viewer" | Editor => "editor" end.
Definition parse (s : string) : option VaultShareRole :=
  if decide (s = "viewer") then Some Viewer else if decide (s = "editor") then Some Editor else None.

Definition role_of (raw : string) : result VaultShareRole MetaDbError :=
  ok_or (parse raw) (Invalid ("unknown vault share role: " +:+ raw)).

Definition foreign_key_violation : MetaDbError := Sqlx "FOREIGN KEY constraint failed".

(** [LIMIT 1] without an order: the first row. *)
Definition get_collaborator_vault_access (user_id vault_id : string)
    : adb (option (option string * VaultShareRole)) := λ d,
  match head (select (λ r, bool_decide (MemberRow.user_id r = user_id)
                           && bool_decide (MemberRow.vault_id r = vault_id)) (vault_members d)) with
  | None => (Ok None, d)
  | Some r => (role <?- role_of (MemberRow.role r) ;; Ok (Some (MemberRow.tenant_id r, role)), d)
  end.

Definition vault_exists_for_tenant (tenant : option string) (vault_id : string) : dbm bool :=
  query (λ db, bool_decide (is_Some (head (select (λ r, is_eqb (VaultRow.tenant_id r) tenant
                                           && bool_decide (VaultRow.vault_id r = vault_id)) (tenant_vaults db))))).

(** [PRIMARY KEY (id)] and the unique index on the token's hash. *)
Definition invite_clash (r s : InviteRow.t) : bool :=
  bool_decide (InviteRow.id r = InviteRow.id s) || bool_decide (InviteRow.token_hash r = InviteRow.token_hash s).

Definition insert_vault_invite (id : string) (tenant : option string) (vault_id : string) (token_hash : bytes)
    (role : VaultShareRole) (created_by : string) (expires_at now : Z) : adb unit := λ d,
  if negb (user_exists created_by d) then (Err foreign_key_violation, d)
  else match insert_row invite_clash
               (InviteRow.mk id tenant vault_id token_hash (as_str role) created_by expires_at None None now)
               (vault_invites d) with
       | Some t => (Ok tt, set_invites (λ _, t) d)
       | None => (Err unique_violation, d)
       end.

Definition invite_from_row (r : InviteRow.t) : result VaultInviteRow MetaDbError :=
  role <?- role_of (InviteRow.role r) ;;
  Ok (mkInvite (InviteRow.id r) (InviteRow.tenant_id r) (InviteRow.vault_id r) role (InviteRow.created_by r)
        (InviteRow.expires_at r) (InviteRow.redeemed_at r) (InviteRow.redeemed_by r) (InviteRow.created_at r)).

Definition get_vault_invite_by_token_hash (hash : bytes) : adb (option VaultInviteRow) := λ d,
  (transpose (invite_from_row <$> head (select (λ r, bool_decide (InviteRow.token_hash r = hash)) (vault_invites d))), d).

Definition of_vault (tenant : option string) (vault_id : string) (t : option string) (v : string) : bool :=
  is_eqb t tenant && bool_decide (v = vault_id).

Definition list_vault_invites (tenant : option string) (vault_id : string) : adb (list VaultInviteRow) := λ d,
  (collect_results invite_from_row
     (sort_by (λ a b, bool_decide (InviteRow.created_at b ≤ InviteRow.created_at a))
        (select (λ r, of_vault tenant vault_id (InviteRow.tenant_id r) (InviteRow.vault_id r)) (vault_invites d))), d).

Definition open_invite (id : string) (r : InviteRow.t) : bool :=
  bool_decide (InviteRow.id r = id) && bool_decide (InviteRow.redeemed_at r = None).

Definition redeem (now : Z) (by_user : string) (r : InviteRow.t) : InviteRow.t :=
  InviteRow.mk (InviteRow.id r) (InviteRow.tenant_id r) (InviteRow.vault_id r) (InviteRow.token_hash r)
    (InviteRow.role r) (InviteRow.created_by r) (InviteRow.expires_at r) (Some now) (Some by_user)
    (InviteRow.created_at r).

(** [UPDATE .. WHERE id = ? AND redeemed_at IS NULL] and its row count. *)
Definition redeem_vault_invite (invite_id redeemed_by : string) (now : Z) : adb bool := λ d,
  (Ok (bool_decide (0 < affected (open_invite invite_id) (vault_invites d))%nat),
   set_invites (update (open_invite invite_id) (redeem now redeemed_by)) d).

Definition member_clash (r s : MemberRow.t) : bool :=
  uniq_eqb (MemberRow.tenant_id r) (MemberRow.tenant_id s)
  && bool_decide (MemberRow.vault_id r = MemberRow.vault_id s)
  && bool_decide (MemberRow.user_id r = MemberRow.user_id s).

(** [INSERT .. ON CONFLICT(tenant_id, vault_id, user_id) DO UPDATE]; a NULL
    tenant conflicts with nothing. *)
Definition upsert_vault_member (tenant : option string) (vault_id user_id : string) (role : VaultShareRole)
    (granted_by : string) (now : Z) : adb unit := λ d,
  if negb (user_exists user_id d && user_exists granted_by d) then (Err foreign_key_violation, d)
  else
    let r := MemberRow.mk tenant vault_id user_id (as_str role) (Some granted_by) now in
    (Ok tt, set_members (λ t, if bool_decide (affected (member_clash r) t = 0)%nat then t ++ [r]
                              else update (member_clash r) (λ _, r) t) d).

(** The join with [user_accounts]. *)
Definition member_from_row (d : AccountsDb) (r : MemberRow.t) : option (result VaultMemberRow MetaDbError) :=
  u ← head (select (MetaAccounts.by_id (MemberRow.user_id r)) (users d));
  Some (role <?- role_of (MemberRow.role r) ;;
        Ok (mkMember (MemberRow.tenant_id r) (MemberRow.vault_id r) (MemberRow.user_id r) (UserRow.email u)
              role (MemberRow.granted_by r) (MemberRow.created_at r))).

Definition list_vault_members (tenant : option string) (vault_id : string) : adb (list VaultMemberRow) := λ d,
  (collect_results id (omap (member_from_row d)
     (sort_by (λ a b, bool_decide (MemberRow.created_at a ≤ MemberRow.created_at b))
        (select (λ r, of_vault tenant vault_id (MemberRow.tenant_id r) (MemberRow.vault_id r)) (vault_members d)))), d).

Definition is_member (tenant : option string) (vault_id user_id : string) (r : MemberRow.t) : bool :=
  of_vault tenant vault_id (MemberRow.tenant_id r) (MemberRow.vault_id r) && bool_decide (MemberRow.user_id r = user_id).

Definition remove_vault_member (tenant : option string) (vault_id user_id : string) : adb bool := λ d,
  (Ok (bool_decide (0 < affected (is_member tenant vault_id user_id) (vault_members d))%nat),
   set_members (delete_where (is_member tenant vault_id user_id)) d).
End MetaSharing.

(** ** [sharing/access.rs] *)
Inductive VaultAccessKind := AOwner | AEditor | AViewer.

#[global] Instance VaultAccessKind_eq_dec : EqDecision VaultAccessKind.
Proof. solve_decision. Defined.

Record ResolvedVaultAccess := mkResolved { data_tenant : option string; kind : VaultAccessKind }.

Module Access.
Import Http.

Definition allows_read (a : ResolvedVaultAccess) : bool := true.
Definition allows_write (a : ResolvedVaultAccess) : bool := match kind a with AOwner | AEditor => true | AViewer => false end.
Definition allows_manage (a : ResolvedVaultAccess) : bool := bool_decide (kind a = AOwner).

Definition require_read (a : ResolvedVaultAccess) : hm unit :=
  if allows_read a then st_ret tt else fail FORBIDDEN "read access denied".
Definition require_write (a : ResolvedVaultAccess) : hm unit :=
  if allows_write a then st_ret tt else fail FORBIDDEN "write access denied".
Definition require_manage (a : ResolvedVaultAccess) : hm unit :=
  if allows_manage a then st_ret tt else fail FORBIDDEN "manage access denied".

Section access.
Context (e : env).

Definition resolve_vault_access (user : UserAccount) (vault_id : string) : hm ResolvedVaultAccess :=
  own <~ or_db_error (billing e (λ _, MetaSharing.vault_exists_for_tenant (Some (UserAccount.tenant_id user)) vault_id)) ;;
  if (own : bool) then st_ret (mkResolved (Some (UserAccount.tenant_id user)) AOwner)
  else
    collab <~ or_db_error (accounts e (λ _, MetaSharing.get_collaborator_vault_access (UserAccount.id user) vault_id)) ;;
    match collab with
    | None => fail FORBIDDEN "vault access denied"
    | Some (owner_tenant, role) =>
        st_ret (mkResolved owner_tenant (match role with Editor => AEditor | Viewer => AViewer end))
    end.

Definition assert_vault_manager (user : UserAccount) (vault_id : string) : hm unit :=
  access <~ resolve_vault_access user vault_id ;; require_manage access.
End access.
End Access.

(** ** [sharing/routes.rs] *)
Record InviteResponse := {
  ir_invite_id : string; ir_vault_id : string; ir_role : VaultShareRole; ir_expires_at : Z;
  ir_invite_token : string; ir_invite_url : option string
}.
Record InviteSummary := { is_invite_id : string; is_role : VaultShareRole; is_expires_at : Z; is_redeemed : bool; is_created_at : Z }.
Record AcceptInviteResponse := { ai_vault_id : string; ai_tenant_id : string; ai_role : VaultShareRole }.

Module SharingRoutes.
Import Http AuthRoutes Access MetaSharing.

Section routes.
Context {jwt : JwtLib} (blake3 : bytes → bytes) (lib : libs) (cfg : config) (e : env).

Definition new_invite_id (raw : bytes) : string := "inv_" +:+ Hex.encode raw.

(** [ttl_hours.clamp(1, 24 * 30)], in seconds. *)
Definition ttl_secs (ttl_hours : Z) : Z := Z.max 1 (Z.min ttl_hours (24 * 30)) * 3600.

Definition invite_url (token : string) : option string :=
  base ← public_base_url cfg;
  Some (implode (reverse (drop_while_char "/" (reverse (explode base))))
        +:+ "/dashboard/?sharing_accept=" +:+ urlencode lib token).

Definition create_invite (authorization : option string) (vault_id role : string) (ttl_hours : Z) : hm InviteResponse :=
  user <~ authenticate lib cfg e authorization ;;
  _ <~ assert_vault_manager e user vault_id ;;
  role <~ require (parse role) BAD_REQUEST "invalid role" ;;
  now <~ read_now e ;;
  let expires_at := as_i64 (now + ttl_secs ttl_hours) in
  raw <~ draw e 0 32 ;;
  idraw <~ draw e 32 8 ;;
  let token := Hex.encode raw in
  let invite_id := new_invite_id idraw in
  _ <~ or_db_error (accounts e (insert_vault_invite invite_id (Some (UserAccount.tenant_id user)) vault_id
                                  (blake3 raw) role (UserAccount.id user) expires_at)) ;;
  st_ret {| ir_invite_id := invite_id; ir_vault_id := vault_id; ir_role := role; ir_expires_at := expires_at;
            ir_invite_token := token; ir_invite_url := invite_url token |}.

Definition summary (r : VaultInviteRow) : InviteSummary :=
  {| is_invite_id := vi_id r; is_role := vi_role r; is_expires_at := vi_expires_at r;
     is_redeemed := bool_decide (is_Some (vi_redeemed_at r)); is_created_at := vi_created_at r |}.

Definition list_invites (authorization : option string) (vault_id : string) : hm (list InviteSummary) :=
  user <~ authenticate lib cfg e authorization ;;
  _ <~ assert_vault_manager e user vault_id ;;
  rows <~ or_db_error (accounts e (λ _, list_vault_invites (Some (UserAccount.tenant_id user)) vault_id)) ;;
  st_ret (summary <$> rows).

(** [hex::decode(token.trim())] of 32 bytes. *)
Definition token_bytes (token : string) : option bytes :=
  raw ← HexDecode.decode (trim token); if decide (length raw = 32%nat) then Some raw else None.

Definition accept_invite (authorization : option string) (token : string) : hm AcceptInviteResponse :=
  user <~ authenticate lib cfg e authorization ;;
  raw <~ require (token_bytes token) BAD_REQUEST "invalid token" ;;
  found <~ or_db_error (accounts e (λ _, get_vault_invite_by_token_hash (blake3 raw))) ;;
  invite <~ require found NOT_FOUND "invite not found" ;;
  match vi_redeemed_at invite with
  | Some _ => fail CONFLICT "invite already redeemed"
  | None =>
      now <~ read_now e ;;
      if bool_decide (vi_expires_at invite < now) then fail GONE "invite expired"
      else
        redeemed <~ or_db_error (accounts e (redeem_vault_invite (vi_id invite) (UserAccount.id user))) ;;
        if negb redeemed then fail CONFLICT "invite already redeemed"
        else
          _ <~ or_db_error (accounts e (upsert_vault_member (vi_tenant_id invite) (vi_vault_id invite)
                                          (UserAccount.id user) (vi_role invite) (vi_created_by invite))) ;;
          st_ret {| ai_vault_id := vi_vault_id invite; ai_tenant_id := default "default" (vi_tenant_id invite);
                    ai_role := vi_role invite |}
  end.

Definition list_members (authorization : option string) (vault_id : string) : hm (string * list VaultMemberRow) :=
  user <~ authenticate lib cfg e authorization ;;
  _ <~ assert_vault_manager e user vault_id ;;
  rows <~ or_db_error (accounts e (λ _, list_vault_members (Some (UserAccount.tenant_id user)) vault_id)) ;;
  st_ret (UserAccount.tenant_id user, rows).

Definition remove_member (authorization : option string) (vault_id user_id : string) : hm unit :=
  user <~ authenticate lib cfg e authorization ;;
  _ <~ assert_vault_manager e user vault_id ;;
  removed <~ or_db_error (accounts e (λ _, remove_vault_member (Some (UserAccount.tenant_id user)) vault_id user_id)) ;;
  if (removed : bool) then st_ret tt else fail NOT_FOUND "member not found".
End routes.
End SharingRoutes.
