(* ===== verification/Orgs.v ===== *)
(** * Organisations ([disk-core/src/meta_db/orgs.rs],
      [disk-server/src/orgs/routes.rs])

    Creating an organisation, its members and their roles, and the workspace a
    user works in. The handlers make several statements without a
    transaction. *)

From stdpp Require Import prelude gmap strings.
From Stdlib Require Import ZArith Lia Strings.Byte Strings.Ascii.
From S2P Require Import Prelude Text Types BlobStore Sql MetaDb Http Accounts Sharing.

#[local] Open Scope Z_scope.

Inductive OrgRole := Owner | Admin | Member.

#[global] Instance OrgRole_eq_dec : EqDecision OrgRole.
Proof. solve_decision. Defined.

Record OrgMemberEntry := mkOrgMember {
  om_org_id : string; om_user_id : string; om_email : string; om_role : OrgRole; om_created_at : Z
}.

Module MetaOrgs.
Import AccountsDb MetaSharing.

Definition as_str (r : OrgRole) : string :=
  match r with Owner => "owner" | Admin => "admin" | Member => "member" end.
Definition parse (s : string) : option OrgRole :=
  if decide (s = "owner") then Some Owner else if decide (s = "admin") then Some Admin
  else if decide (s = "member") then Some Member else None.
Definition can_manage_members (r : OrgRole) : bool := match r with Owner | Admin => true | Member => false end.

Definition role_of (raw : string) : result OrgRole MetaDbError :=
  ok_or (parse raw) (Invalid ("unknown org role: " +:+ raw)).

Definition organization_slug_taken (slug : string) : adb bool := λ d,
  (Ok (existsb (λ r, eq_ignore_ascii_case (OrgRow.slug r) slug) (organizations d)), d).

(** [PRIMARY KEY (id)], [UNIQUE (slug)] under [NOCASE], [UNIQUE (tenant_id)]. *)
Definition org_clash (r s : OrgRow.t) : bool :=
  bool_decide (OrgRow.id r = OrgRow.id s) || eq_ignore_ascii_case (OrgRow.slug r) (OrgRow.slug s)
  || bool_decide (OrgRow.tenant_id r = OrgRow.tenant_id s).

Definition create_organization (org_id slug name tenant_id created_by : string) (now : Z) : adb unit := λ d,
  if negb (user_exists created_by d) then (Err foreign_key_violation, d)
  else match insert_row org_clash (OrgRow.mk org_id slug name tenant_id created_by now now) (organizations d) with
       | Some t => (Ok tt, set_orgs (λ _, t) d)
       | None => (Err unique_violation, d)
       end.

Definition org_exists (org_id : string) (d : AccountsDb) : bool :=
  existsb (λ r, bool_decide (OrgRow.id r = org_id)) (organizations d).

Definition org_member_clash (r s : OrgMemberRow.t) : bool :=
  bool_decide (OrgMemberRow.org_id r = OrgMemberRow.org_id s)
  && bool_decide (OrgMemberRow.user_id r = OrgMemberRow.user_id s).

Definition add_organization_member (org_id user_id : string) (role : OrgRole) (now : Z) : adb unit := λ d,
  if negb (org_exists org_id d && user_exists user_id d) then (Err foreign_key_violation, d)
  else match insert_row org_member_clash (OrgMemberRow.mk org_id user_id (as_str role) now) (organization_members d) with
       | Some t => (Ok tt, set_org_members (λ _, t) d)
       | None => (Err unique_violation, d)
       end.

Definition get_organization (org_id : string) : adb (option OrgRow.t) := λ d,
  (Ok (head (select (λ r, bool_decide (OrgRow.id r = org_id)) (organizations d))), d).

Definition member_of (org_id user_id : string) (r : OrgMemberRow.t) : bool :=
  bool_decide (OrgMemberRow.org_id r = org_id) && bool_decide (OrgMemberRow.user_id r = user_id).

Definition get_org_member_role (org_id user_id : string) : adb (option OrgRole) := λ d,
  (match head (select (member_of org_id user_id) (organization_members d)) with
   | None => Ok None
   | Some r => role <?- role_of (OrgMemberRow.role r) ;; Ok (Some role)
   end, d).

(** The join with [organizations], ordered by name without case. *)
Definition list_user_organizations (user_id : string) : adb (list (OrgRow.t * OrgRole)) := λ d,
  let joined := omap (λ m, o ← head (select (λ r, bool_decide (OrgRow.id r = OrgMemberRow.org_id m)) (organizations d));
                           Some (o, m))
                  (select (λ m, bool_decide (OrgMemberRow.user_id m = user_id)) (organization_members d)) in
  (collect_results (λ p, role <?- role_of (OrgMemberRow.role p.2) ;; Ok (p.1, role))
     (sort_by (λ p q, Path.str_leb (to_ascii_lowercase (OrgRow.name p.1)) (to_ascii_lowercase (OrgRow.name q.1))) joined), d).

Definition list_organization_members (org_id : string) : adb (list OrgMemberEntry) := λ d,
  (collect_results id (omap (λ m,
     u ← head (select (MetaAccounts.by_id (OrgMemberRow.user_id m)) (users d));
     Some (role <?- role_of (OrgMemberRow.role m) ;;
           Ok (mkOrgMember (OrgMemberRow.org_id m) (OrgMemberRow.user_id m) (UserRow.email u) role
                 (OrgMemberRow.created_at m))))
     (sort_by (λ a b, bool_decide (OrgMemberRow.created_at a ≤ OrgMemberRow.created_at b))
        (select (λ m, bool_decide (OrgMemberRow.org_id m = org_id)) (organization_members d)))), d).

Definition context_of (user_id : string) (r : OrgContextRow.t) : bool := bool_decide (OrgContextRow.user_id r = user_id).

Definition get_user_org_context (user_id : string) : adb (option string) := λ d,
  (Ok (r ← head (select (context_of user_id) (user_org_context d)); OrgContextRow.active_org_id r), d).

Definition set_user_org_context (user_id : string) (active : option string) (now : Z) : adb unit := λ d,
  if negb (user_exists user_id d && match active with Some o => org_exists o d | None => true end)
  then (Err foreign_key_violation, d)
  else
    let r := OrgContextRow.mk user_id active now in
    (Ok tt, set_org_context (λ t, if bool_decide (affected (context_of user_id) t = 0)%nat then t ++ [r]
                                  else update (context_of user_id) (λ _, r) t) d).
End MetaOrgs.

(** ** [orgs/routes.rs] *)
Record CreateOrgResponse := mkOrgResponse { co_org_id : string; co_slug : string; co_name : string; co_tenant_id : string; co_role : OrgRole }.
Record OrgContextResponse := mkContext {
  oc_active_org_id : option string;
  oc_active_tenant_id : string;
  oc_personal_tenant_id : string;
  oc_organization : option (OrgRow.t * OrgRole)
}.

Module OrgRoutes.
Import Http AuthRoutes MetaOrgs.

Section routes.
Context {jwt : JwtLib} (lib : libs) (cfg : config) (e : env).

Definition db_err {A} (m : st A) : hm A := or_status INTERNAL_SERVER_ERROR "db error" m.
Definition new_org_id (raw : bytes) : string := "org_" +:+ Hex.encode raw.

(** [unwrap_or(true)]: a failed lookup counts as taken. *)
Definition slug_taken (slug : string) : hm bool :=
  r <~ catch (accounts e (λ _, organization_slug_taken slug)) ;;
  st_ret (match r with Ok b => b | Err _ => true end).

Definition create_org (authorization : option string) (body_name body_slug : string) : hm CreateOrgResponse :=
  user <~ authenticate lib cfg e authorization ;;
  let name := trim body_name in
  if bool_decide (name = "") || bool_decide (128 < str_len name) then fail BAD_REQUEST "invalid name"
  else
    slug <~ require (Accounts.sanitize_tenant_slug (trim body_slug)) BAD_REQUEST "invalid slug" ;;
    taken <~ slug_taken slug ;;
    if (taken : bool) then fail CONFLICT "slug taken"
    else
      raw <~ draw e 0 8 ;;
      let org_id := new_org_id raw in
      now <~ read_now e ;;
      _ <~ db_err (accounts e (λ _, create_organization org_id slug name slug (UserAccount.id user) now)) ;;
      _ <~ db_err (accounts e (λ _, add_organization_member org_id (UserAccount.id user) Owner now)) ;;
      st_ret (mkOrgResponse org_id slug name slug Owner).

Definition list_orgs (authorization : option string) : hm (list (OrgRow.t * OrgRole)) :=
  user <~ authenticate lib cfg e authorization ;;
  db_err (accounts e (λ _, list_user_organizations (UserAccount.id user))).

(** The caller's role, or a refusal. *)
Definition actor_role (org_id user_id : string) : hm OrgRole :=
  role <~ db_err (accounts e (λ _, get_org_member_role org_id user_id)) ;;
  require role FORBIDDEN "not a member".

Definition list_org_members (authorization : option string) (org_id : string) : hm (list OrgMemberEntry) :=
  user <~ authenticate lib cfg e authorization ;;
  _ <~ actor_role org_id (UserAccount.id user) ;;
  db_err (accounts e (λ _, list_organization_members org_id)).

Definition add_member (authorization : option string) (org_id body_email body_role : string) : hm (string * OrgRole) :=
  user <~ authenticate lib cfg e authorization ;;
  actor <~ actor_role org_id (UserAccount.id user) ;;
  if negb (can_manage_members actor) then fail FORBIDDEN "admin required"
  else
    match parse (trim body_role) with
    | None => fail BAD_REQUEST "invalid role"
    | Some Owner => fail BAD_REQUEST "cannot assign owner via invite"
    | Some role =>
        let email := Accounts.normalize_email body_email in
        found <~ db_err (accounts e (λ _, MetaAccounts.get_user_by_email email)) ;;
        target <~ require found NOT_FOUND "user not found" ;;
        existing <~ catch (accounts e (λ _, get_org_member_role org_id (UserAccount.id target))) ;;
        match existing with
        | Ok (Some _) => fail CONFLICT "already a member"
        | _ =>
            now <~ read_now e ;;
            _ <~ db_err (accounts e (λ _, add_organization_member org_id (UserAccount.id target) role now)) ;;
            st_ret (UserAccount.id target, role)
        end
    end.

Definition personal (user : UserAccount) : OrgContextResponse :=
  mkContext None (UserAccount.tenant_id user) (UserAccount.tenant_id user) None.

Definition build_org_context (user : UserAccount) : hm OrgContextResponse :=
  active <~ db_err (accounts e (λ _, get_user_org_context (UserAccount.id user))) ;;
  match active with
  | None => st_ret (personal user)
  | Some org_id =>
      role <~ db_err (accounts e (λ _, get_org_member_role org_id (UserAccount.id user))) ;;
      match role with
      | None =>
          now <~ read_now e ;;
          _ <~ catch (accounts e (λ _, set_user_org_context (UserAccount.id user) None now)) ;;
          st_ret (personal user)
      | Some role =>
          found <~ db_err (accounts e (λ _, get_organization org_id)) ;;
          org <~ require found NOT_FOUND "organization not found" ;;
          st_ret (mkContext (Some org_id) (OrgRow.tenant_id org) (UserAccount.tenant_id user) (Some (org, role)))
      end
  end.

Definition get_org_context (authorization : option string) : hm OrgContextResponse :=
  user <~ authenticate lib cfg e authorization ;; build_org_context user.

Definition put_org_context (authorization : option string) (body_org_id : option string) : hm OrgContextResponse :=
  user <~ authenticate lib cfg e authorization ;;
  org_id <~ match Tenancy.ControlDb.non_empty body_org_id with
            | None => st_ret None
            | Some id => _ <~ actor_role id (UserAccount.id user) ;; st_ret (Some id)
            end ;;
  now <~ read_now e ;;
  _ <~ db_err (accounts e (λ _, set_user_org_context (UserAccount.id user) org_id now)) ;;
  build_org_context user.
End routes.
End OrgRoutes.
