(* ===== verification/Compliance.v ===== *)
(** * Account deletion, export, dashboard and device folders
      ([disk-core/src/meta_db/compliance.rs], [meta_db/dashboard.rs];
      [disk-server/src/compliance/routes.rs], [dashboard/routes.rs],
      [selective_sync/routes.rs])

    All of these work on the control file. [nodes.last_seen] is written by no
    code and read as NULL; deleting a node's certificates with it is left to
    the enrollment tables. *)

From stdpp Require Import prelude gmap strings.
From Stdlib Require Import ZArith Lia Strings.Byte Strings.Ascii.
From S2P Require Import Prelude Text Types Sql MetaDb Billing MetaSync Tenancy Enrollment Http Accounts Sharing.

#[local] Open Scope Z_scope.

Record TenantNodeRow := mkNode {
  tn_node_id : string; tn_display_name : option string; tn_platform : option string; tn_registered_at : Z;
  tn_last_seen : option Z
}.

(** ** [meta_db/compliance.rs] and [dashboard.rs] *)
Module MetaCompliance.
Import AccountsDb MetaSharing.

Definition count_users_for_tenant (tenant_id : string) : adb Z := λ d,
  (Ok (as_u32 (Z.of_nat (affected (λ r, bool_decide (UserRow.tenant_id r = tenant_id)) (users d)))), d).

(** Rows that refer to an account and are not deleted with it. *)
Definition refers_to_user (user_id : string) (d : Cdb) : bool :=
  existsb (λ r, bool_decide (InviteRow.created_by r = user_id)) (vault_invites (ac d))
  || existsb (λ r, bool_decide (MemberRow.user_id r = user_id)
                   || bool_decide (MemberRow.granted_by r = Some user_id)) (vault_members (ac d))
  || existsb (λ r, bool_decide (IncludeRow.user_id r = user_id)) (device_sync_includes (ct d))
  || existsb (λ r, bool_decide (OrgRow.created_by r = user_id)) (organizations (ac d))
  || existsb (λ r, bool_decide (OrgMemberRow.user_id r = user_id)) (organization_members (ac d))
  || existsb (λ r, bool_decide (OrgContextRow.user_id r = user_id)) (user_org_context (ac d)).

(** [DELETE FROM user_accounts], with foreign keys on. *)
Definition delete_user_by_id (user_id : string) : cdb bool := λ d,
  let hit := bool_decide (0 < affected (MetaAccounts.by_id user_id) (users (ac d)))%nat in
  if hit && refers_to_user user_id d then (Err foreign_key_violation, d)
  else (Ok hit, mkCdb (set_users (delete_where (MetaAccounts.by_id user_id)) (ac d)) (ct d) (dt d)).

Section purge.
Context (tenant_id : string).
Definition of_tenant (t : option string) : bool := is_eqb t (Some tenant_id).

Definition purge_data (db : MetaDb) : MetaDb :=
  mkDb (delete_where (of_tenant ∘ FileRow.tenant_id) (files db))
    (delete_where (of_tenant ∘ VersionRow.tenant_id) (file_versions db))
    (delete_where (of_tenant ∘ TombstoneRow.tenant_id) (tombstones db))
    (delete_where (of_tenant ∘ ConflictRow.tenant_id) (conflicts db)) (conflict_seq db)
    (delete_where (of_tenant ∘ BaselineRow.tenant_id) (node_baselines db))
    (vault_snapshots db) (snapshot_seq db) (vault_snapshot_files db)
    (delete_where (of_tenant ∘ BillingRow.tenant_id) (tenant_billing db))
    (delete_where (of_tenant ∘ VaultRow.tenant_id) (tenant_vaults db)).

(** One transaction on the control file. *)
Definition purge_tenant_metadata : cdb unit := λ d,
  (Ok tt,
   mkCdb (set_pending (delete_where (of_tenant ∘ PendingRow.tenant_id))
            (set_consents (delete_where (λ r, bool_decide (ConsentRow.tenant_id r = tenant_id)))
               (consent_seq (ac d)) (ac d)))
     (ControlDb.set_nodes (delete_where (of_tenant ∘ NodeRow.tenant_id)) (ct d))
     (purge_data (dt d))).
End purge.

Definition list_tenant_vaults (tenant : option string) : dbm (list (string * Z)) :=
  query (λ db, (λ r, (VaultRow.vault_id r, VaultRow.created_at r)) <$>
    sort_by (λ a b, bool_decide (VaultRow.created_at a ≤ VaultRow.created_at b))
      (select (λ r, is_eqb (VaultRow.tenant_id r) tenant) (tenant_vaults db))).

Definition active_node (tenant : option string) (r : NodeRow.t) : bool :=
  is_eqb (NodeRow.tenant_id r) tenant && bool_decide (NodeRow.revoked r = 0).

Definition count_tenant_nodes (tenant : option string) : ctl Z := λ d,
  (Ok (as_u32 (Z.of_nat (affected (active_node tenant) (nodes d)))), d).

Definition list_tenant_nodes (tenant : option string) : ctl (list TenantNodeRow) := λ d,
  (Ok ((λ r, mkNode (NodeRow.node_id r) (NodeRow.display_name r) (NodeRow.platform r) (NodeRow.registered_at r) None) <$>
         sort_by (λ a b, bool_decide (NodeRow.registered_at a ≤ NodeRow.registered_at b))
           (select (active_node tenant) (nodes d))), d).

Definition list_unresolved_conflicts_for_tenant (tenant : option string) : dbm (list ConflictRecord) :=
  rows <~ query (λ db, sort_by (λ a b, bool_decide (ConflictRow.created_at a ≤ ConflictRow.created_at b))
                         (select (λ r, bool_decide (ConflictRow.resolved r = 0)
                                       && is_eqb (ConflictRow.tenant_id r) tenant) (conflicts db))) ;;
  st_lift (collect_results MetaConflicts.row_to_conflict rows).

Definition get_unresolved_conflict_for_tenant (tenant : option string) (id : Z) : dbm (option ConflictRecord) :=
  row <~ query (λ db, head (select (λ r, bool_decide (ConflictRow.id r = id)
                                         && bool_decide (ConflictRow.resolved r = 0)
                                         && is_eqb (ConflictRow.tenant_id r) tenant) (conflicts db))) ;;
  st_lift (transpose (MetaConflicts.row_to_conflict <$> row)).
End MetaCompliance.

Definition on_ct {A} (m : ctl A) : cdb A := λ d, let '(r, x) := m (ct d) in (r, mkCdb (ac d) x (dt d)).

(** ** The handlers *)
Record DataExport := {
  ex_exported_at : Z; ex_user : UserAccount; ex_plan_tier : PlanTier;
  ex_vaults : list (string * Z); ex_devices : list TenantNodeRow
}.
Record DeleteAccountResponse := { da_user_id : string; da_tenant_purged : bool }.
Record DashboardSummary := {
  ds_user : UserAccount; ds_plan_tier : PlanTier; ds_storage_bytes : Z; ds_limits : QuotaLimits;
  ds_nodes_count : Z; ds_vaults_count : Z; ds_vaults : list (string * Z); ds_devices : list TenantNodeRow;
  ds_conflicts : list ConflictRecord
}.
Record SelectiveSyncResponse := {
  ss_vault_id : string; ss_node_id : string; ss_user_id : string; ss_sync_all : bool; ss_includes : list string
}.

Module ComplianceRoutes.
Import Http AuthRoutes Access MetaCompliance.

Section routes.
Context {jwt : JwtLib} (lib : libs) (cfg : config) (e : env).

Definition export_data (authorization : option string) : hm DataExport :=
  user <~ authenticate lib cfg e authorization ;;
  let tenant := Some (UserAccount.tenant_id user) in
  tier <~ or_db_error (billing e (λ _, MetaBilling.get_plan_tier tenant PlanTier.Free)) ;;
  vaults <~ or_db_error (billing e (λ _, list_tenant_vaults tenant)) ;;
  devices <~ or_db_error (control e (λ _, on_ct (list_tenant_nodes tenant))) ;;
  now <~ read_now e ;;
  st_ret {| ex_exported_at := now; ex_user := user; ex_plan_tier := tier; ex_vaults := vaults; ex_devices := devices |}.

Definition delete_account (authorization : option string) (confirm_email : string) : hm DeleteAccountResponse :=
  user <~ authenticate lib cfg e authorization ;;
  if negb (bool_decide (Accounts.normalize_email confirm_email = UserAccount.email user))
  then fail BAD_REQUEST "confirm_email mismatch"
  else
    let user_id := UserAccount.id user in
    let tenant_id := UserAccount.tenant_id user in
    _ <~ or_db_error (accounts e (λ _, MetaConsent.delete_consent_events_for_user user_id)) ;;
    _ <~ or_db_error (accounts e (λ _, MetaTelemetry.delete_user_telemetry user_id)) ;;
    removed <~ or_db_error (control e (λ _, delete_user_by_id user_id)) ;;
    if negb removed then fail NOT_FOUND "user not found"
    else
      remaining <~ or_db_error (accounts e (λ _, count_users_for_tenant tenant_id)) ;;
      if bool_decide (remaining = 0) then
        _ <~ or_db_error (control e (λ _, purge_tenant_metadata tenant_id)) ;;
        st_ret {| da_user_id := user_id; da_tenant_purged := true |}
      else st_ret {| da_user_id := user_id; da_tenant_purged := false |}.

Definition list_consents (authorization : option string) : hm (list ConsentRow.t) :=
  user <~ authenticate lib cfg e authorization ;;
  or_db_error (accounts e (λ _, MetaConsent.list_consent_events_for_user (UserAccount.id user))).

Definition is_valid_resolve_action (action : string) : bool :=
  bool_decide (action ∈ ["fork-local"; "fork-remote"; "merge"; "keep-local"; "keep-remote"]).

Definition resolve_conflict (authorization : option string) (id : Z) (action : string) : hm Z :=
  if negb (is_valid_resolve_action action) then fail BAD_REQUEST "invalid action"
  else
    user <~ authenticate lib cfg e authorization ;;
    found <~ or_db_error (billing e (λ _, get_unresolved_conflict_for_tenant (Some (UserAccount.tenant_id user)) id)) ;;
    conflict <~ require found NOT_FOUND "conflict not found" ;;
    _ <~ or_db_error (billing e (λ now, MetaConflicts.resolve_conflict now id action)) ;;
    st_ret (default id (ConflictRecord.id conflict)).

Definition summary (authorization : option string) : hm DashboardSummary :=
  user <~ authenticate lib cfg e authorization ;;
  let tenant := Some (UserAccount.tenant_id user) in
  tier <~ or_db_error (billing e (λ _, MetaBilling.get_plan_tier tenant PlanTier.Free)) ;;
  storage <~ or_db_error (billing e (λ _, MetaBilling.sum_storage_bytes tenant)) ;;
  nodes_count <~ or_db_error (control e (λ _, on_ct (count_tenant_nodes tenant))) ;;
  vaults_count <~ or_db_error (billing e (λ _, MetaBilling.count_tenant_vaults tenant)) ;;
  vaults <~ or_db_error (billing e (λ _, list_tenant_vaults tenant)) ;;
  devices <~ or_db_error (control e (λ _, on_ct (list_tenant_nodes tenant))) ;;
  conflicts <~ or_db_error (billing e (λ _, list_unresolved_conflicts_for_tenant tenant)) ;;
  st_ret {| ds_user := user; ds_plan_tier := tier; ds_storage_bytes := storage; ds_limits := PlanTier.limits tier;
            ds_nodes_count := nodes_count; ds_vaults_count := vaults_count; ds_vaults := vaults;
            ds_devices := devices;
            ds_conflicts := List.filter (λ c, bool_decide (is_Some (ConflictRecord.id c))) conflicts |}.

Definition get_selective_sync (authorization : option string) (vault_id node_id : string) : hm SelectiveSyncResponse :=
  let node := trim node_id in
  if decide (node = "") then fail BAD_REQUEST "node_id required"
  else
    user <~ authenticate lib cfg e authorization ;;
    access <~ resolve_vault_access e user vault_id ;;
    _ <~ require_read access ;;
    includes <~ or_db_error (control e (λ _, on_ct (ControlDb.list_device_sync_includes (data_tenant access)
                                                      (UserAccount.id user) node vault_id))) ;;
    st_ret {| ss_vault_id := vault_id; ss_node_id := node; ss_user_id := UserAccount.id user;
              ss_sync_all := bool_decide (includes = []); ss_includes := includes |}.

(** The error of an include prefix is the caller's. *)
Definition or_include_error {A} (m : st A) : hm A := λ s,
  let '(r, s) := m s in
  (map_err (λ x, match x with
                 | Invalid _ => (BAD_REQUEST, "invalid include prefix")
                 | _ => (INTERNAL_SERVER_ERROR, "database error")
                 end) r, s).

Definition put_selective_sync (authorization : option string) (vault_id node_id : string) (raw : list string)
    : hm SelectiveSyncResponse :=
  let node := trim node_id in
  if decide (node = "") then fail BAD_REQUEST "node_id required"
  else
    user <~ authenticate lib cfg e authorization ;;
    access <~ resolve_vault_access e user vault_id ;;
    _ <~ require_write access ;;
    includes <~ or_include_error (control e (λ now, on_ct (ControlDb.replace_device_sync_includes now (data_tenant access)
                                                            (UserAccount.id user) node vault_id raw))) ;;
    st_ret {| ss_vault_id := vault_id; ss_node_id := node; ss_user_id := UserAccount.id user;
              ss_sync_all := bool_decide (includes = []); ss_includes := includes |}.
End routes.
End ComplianceRoutes.
