(* ===== verification/AccountsProps.v ===== *)
(** * Theorems on accounts, sharing and organisations

    What every sequence of requests keeps true of the account tables, what a
    signup, an invitation, an organisation and a deletion lead to, and where
    they do not lead where they should. A request is one atomic step here; the
    sync service and the other handlers may change everything else between
    two of them. *)

From stdpp Require Import prelude gmap strings pretty.
From Stdlib Require Import ZArith Lia Strings.Byte Strings.Ascii.
From S2P Require Import Prelude Text Types Fs BlobStore Publisher E2ee Sql MetaDb Billing MetaSync Tenancy.
From S2P Require Import SyncService Enrollment Http Accounts OAuth Sharing Orgs Compliance.

#[local] Open Scope Z_scope.

(** ** Preservation of a property of the account tables *)
Module Keeps.
Import Http.

Definition keeps {E A} (P : AccountsDb → Prop) (m : stm Http.t E A) : Prop :=
  ∀ s, P (acct s) → P (acct (m s).2).

Section rules.
Context (P : AccountsDb → Prop).

Lemma keeps_ret {E A} (a : A) : keeps (E:=E) P (st_ret a).
Proof. by intros s. Qed.
Lemma keeps_err {E A} (x : E) : keeps (A:=A) P (st_err x).
Proof. by intros s. Qed.
Lemma keeps_lift {E A} (r : result A E) : keeps P (st_lift r).
Proof. by intros s. Qed.
Lemma keeps_bind {E A B} (m : stm Http.t E A) (k : A → stm Http.t E B) :
  keeps P m → (∀ a, keeps P (k a)) → keeps P (st_bind m k).
Proof.
  intros Hm Hk s Hs. unfold st_bind. specialize (Hm s Hs).
  destruct (m s) as [[a|x] s1]; [by apply Hk|done].
Qed.
Lemma keeps_require {A} (o : option A) c msg : keeps P (require o c msg).
Proof. apply keeps_lift. Qed.
Lemma keeps_fail {A} c msg : keeps (A:=A) P (fail c msg).
Proof. apply keeps_err. Qed.
Lemma keeps_read_now e : keeps P (read_now e).
Proof. by intros s. Qed.
Lemma keeps_draw e k n : keeps P (draw e k n).
Proof. by intros s. Qed.

Lemma keeps_control {A} e (m : Z → cdb A) :
  (∀ z d, P (ac d) → P (ac (m z d).2)) → keeps P (control e m).
Proof.
  intros Hm s Hs. unfold control. destruct (db_fault e _); [done|].
  specialize (Hm (now e (statements s)) (view s) Hs). by destruct (m _ (view s)).
Qed.
Lemma keeps_accounts {A} e (m : Z → adb A) :
  (∀ z d, P d → P (m z d).2) → keeps P (accounts e m).
Proof.
  intros Hm. apply keeps_control. intros z d Hd. unfold on_ac. specialize (Hm z _ Hd).
  by destruct (m z (ac d)).
Qed.
Lemma keeps_billing {A} e (m : Z → dbm A) : keeps P (billing e m).
Proof. apply keeps_control. intros z d Hd. unfold on_dt. by destruct (m z (dt d)). Qed.
Lemma keeps_on_ct {A} e (m : Z → ctl A) : keeps P (control e (λ z, on_ct (m z))).
Proof. apply keeps_control. intros z d Hd. unfold on_ct. by destruct (m z (ct d)). Qed.

Lemma keeps_or_status {A} c msg (m : stm Http.t MetaDbError A) : keeps P m → keeps P (or_status c msg m).
Proof. intros Hm s Hs. unfold or_status. specialize (Hm s Hs). by destruct (m s). Qed.
Lemma keeps_or_db_error {A} (m : stm Http.t MetaDbError A) : keeps P m → keeps P (or_db_error m).
Proof. apply keeps_or_status. Qed.
Lemma keeps_catch {A} (m : stm Http.t MetaDbError A) : keeps P m → keeps P (catch m).
Proof. intros Hm s Hs. unfold catch. specialize (Hm s Hs). by destruct (m s). Qed.
End rules.

(** A statement that only reads. *)
Definition reads {A} (m : adb A) : Prop := ∀ d, (m d).2 = d.
Lemma keeps_reads P {A} e (m : adb A) : reads m → keeps P (accounts e (λ _, m)).
Proof. intros Hm. apply keeps_accounts. intros z d Hd. by rewrite Hm. Qed.

Lemma reads_select p : reads (MetaAccounts.select_user p).
Proof. done. Qed.
Lemma reads_collab u v : reads (MetaSharing.get_collaborator_vault_access u v).
Proof. intros d. unfold MetaSharing.get_collaborator_vault_access. by case_match. Qed.
Lemma reads_invite h : reads (MetaSharing.get_vault_invite_by_token_hash h).
Proof. done. Qed.
Lemma reads_role o u : reads (MetaOrgs.get_org_member_role o u).
Proof. done. Qed.
End Keeps.

Create HintDb keeps.
#[export] Hint Resolve Keeps.keeps_ret Keeps.keeps_err Keeps.keeps_lift Keeps.keeps_bind Keeps.keeps_require
  Keeps.keeps_fail Keeps.keeps_read_now Keeps.keeps_draw Keeps.keeps_billing Keeps.keeps_on_ct
  Keeps.keeps_or_status Keeps.keeps_or_db_error Keeps.keeps_catch Keeps.keeps_reads
  Keeps.reads_select Keeps.reads_collab Keeps.reads_invite Keeps.reads_role : keeps.

(** Walk through a handler: statements by the hints, branches by cases. *)
Ltac keep :=
  repeat first
    [ solve [eauto with keeps nocore]
    | apply Keeps.keeps_bind; [|intros]
    | apply Keeps.keeps_or_db_error | apply Keeps.keeps_or_status | apply Keeps.keeps_catch
    | match goal with |- Keeps.keeps _ (match ?x with _ => _ end) => destruct x end
    | apply Keeps.keeps_reads; done ].

(** ** Hoare triples

    What holds of the tables after a call that returned [a], and after one
    that failed. *)
Module Triple.
Import Http Keeps.

Definition triple {E A} (P : AccountsDb → Prop) (m : stm Http.t E A) (Q : A → AccountsDb → Prop)
    (R : AccountsDb → Prop) : Prop :=
  ∀ s, P (acct s) → match m s with (Ok a, s') => Q a (acct s') | (Err _, s') => R (acct s') end.

Lemma triple_keeps {E A} P (m : stm Http.t E A) : triple P m (λ _, P) P ↔ keeps P m.
Proof.
  split; intros Hm s Hs; specialize (Hm s Hs); destruct (m s) as [[a|x] s1]; done.
Qed.

Lemma triple_bind {E A B} P (m : stm Http.t E A) (k : A → stm Http.t E B) Q Q' R :
  triple P m Q R → (∀ a, triple (Q a) (k a) Q' R) → triple P (st_bind m k) Q' R.
Proof.
  intros Hm Hk s Hs. unfold st_bind. specialize (Hm s Hs).
  destruct (m s) as [[a|x] s1]; [by apply Hk|done].
Qed.

Lemma triple_conseq {E A} (P P' : AccountsDb → Prop) (m : stm Http.t E A) (Q Q' : A → AccountsDb → Prop)
    (R R' : AccountsDb → Prop) :
  triple P' m Q' R' → (∀ d, P d → P' d) → (∀ a d, Q' a d → Q a d) → (∀ d, R' d → R d) → triple P m Q R.
Proof.
  intros Hm HP HQ HR s Hs. specialize (Hm s (HP _ Hs)). destruct (m s) as [[a|x] s1]; auto.
Qed.

Lemma triple_pre {E A} (P P' : AccountsDb → Prop) (m : stm Http.t E A) Q R :
  triple P' m Q R → (∀ d, P d → P' d) → triple P m Q R.
Proof. intros Hm HP. by eapply triple_conseq. Qed.

Lemma triple_keeps_err {E A} (P R : AccountsDb → Prop) (m : stm Http.t E A) :
  keeps P m → (∀ d, P d → R d) → triple P m (λ _, P) R.
Proof. intros ? HR. by eapply triple_conseq; [by apply triple_keeps| |done|]. Qed.

Lemma triple_seq {E A B} (P R : AccountsDb → Prop) (m : stm Http.t E A) (k : A → stm Http.t E B) Q :
  keeps P m → (∀ d, P d → R d) → (∀ a, triple P (k a) Q R) → triple P (st_bind m k) Q R.
Proof. intros Hm HR Hk. eapply triple_bind; [by apply triple_keeps_err|done]. Qed.

Lemma triple_require {A} (P R : AccountsDb → Prop) (o : option A) c msg :
  (∀ d, P d → R d) → triple P (require o c msg) (λ a d, o = Some a ∧ P d) R.
Proof. intros HR s Hs. unfold require, st_lift. destruct o; simpl; auto. Qed.

Lemma triple_err {E A} (P R : AccountsDb → Prop) (x : E) (Q : A → _) :
  (∀ d, P d → R d) → triple P (st_err x) Q R.
Proof. intros HR s Hs. by apply HR. Qed.

(** A statement: what it does on every table state, and what a fault leaves. *)
Lemma triple_control {A} P (Q : A → AccountsDb → Prop) (R : AccountsDb → Prop) e (m : Z → cdb A) c msg :
  (∀ d, P d → R d) →
  (∀ z d, P (ac d) → match m z d with (Ok a, d') => Q a (ac d') | (Err _, d') => R (ac d') end) →
  triple P (or_status c msg (control e m)) Q R.
Proof.
  intros HR Hm s Hs. unfold or_status, control. destruct (db_fault e _); [by apply HR|].
  specialize (Hm (now e (statements s)) (view s) Hs).
  destruct (m _ (view s)) as [[a|x] d']; exact Hm.
Qed.

Lemma triple_accounts {A} P (Q : A → AccountsDb → Prop) (R : AccountsDb → Prop) e (m : Z → adb A) c msg :
  (∀ d, P d → R d) →
  (∀ z d, P d → match m z d with (Ok a, d') => Q a d' | (Err _, d') => R d' end) →
  triple P (or_status c msg (accounts e m)) Q R.
Proof.
  intros HR Hm. apply triple_control; [done|]. intros z d Hd. unfold on_ac. specialize (Hm z _ Hd).
  destruct (m z (ac d)) as [[a|x] d']; exact Hm.
Qed.

Lemma triple_reads {A} (P R : AccountsDb → Prop) e (m : adb A) c msg :
  reads m → (∀ d, P d → R d) →
  triple P (or_status c msg (accounts e (λ _, m))) (λ a d, (m d).1 = Ok a ∧ P d) R.
Proof.
  intros Hm HR. apply triple_accounts; [done|]. intros _ d Hd. specialize (Hm d).
  destruct (m d) as [[a|x] d'] eqn:Heq; simpl in Hm; subst d'; [by rewrite Heq|by apply HR].
Qed.

(** Who a request is made by has an account. *)
Definition known (u : UserAccount) (d : AccountsDb) : Prop :=
  ∃ r, r ∈ users d ∧ MetaAccounts.map_user_row r = u.

Lemma select_user_known p d u : (MetaAccounts.select_user p d).1 = Ok (Some u) → known u d.
Proof.
  cbn. destruct (head _) as [r|] eqn:Hh; [|done]. intros [= <-]. exists r. split; [|done].
  assert (r ∈ select p (users d)) as Hr.
  { destruct (select p (users d)); [done|]. injection Hh as ->. left. }
  by apply elem_of_select in Hr as [? _].
Qed.

Lemma triple_lookup (P R : AccountsDb → Prop) e p :
  (∀ d, P d → R d) →
  triple P (AuthRoutes.lookup e (MetaAccounts.select_user p))
    (λ o d, P d ∧ ∀ u, o = Some u → known u d) R.
Proof.
  intros HR s Hs. unfold AuthRoutes.lookup, catch, st_bind, accounts, control.
  destruct (db_fault e _); [done|]. cbn. split; [done|]. intros u Hu.
  apply (select_user_known p). cbn. by rewrite Hu.
Qed.

Lemma triple_resolve_user (P R : AccountsDb → Prop) e claims :
  (∀ d, P d → R d) →
  triple P (AuthRoutes.resolve_user_from_access e claims) (λ u d, P d ∧ known u d) R.
Proof.
  intros HR. unfold AuthRoutes.resolve_user_from_access, MetaAccounts.get_user_by_id,
    MetaAccounts.get_user_by_oauth, MetaAccounts.get_user_by_email.
  eapply triple_bind; [by apply triple_lookup|]. intros [u|].
  { intros s [Hs Hk]. split; [done|]. by apply Hk. }
  apply (triple_pre _ P); [|by intros d []].
  eapply triple_bind; [by apply triple_lookup|]. intros [u|].
  { intros s [Hs Hk]. split; [done|]. by apply Hk. }
  apply (triple_pre _ P); [|by intros d []].
  destruct (va_email claims) as [email|]; [|by apply triple_err].
  eapply triple_bind; [by apply triple_lookup|]. intros [u|] s [Hs Hk]; cbn; auto.
Qed.

Lemma triple_authenticate {jwt : JwtLib} (P R : AccountsDb → Prop) lib cfg e authorization :
  (∀ d, P d → R d) →
  triple P (AuthRoutes.authenticate lib cfg e authorization) (λ u d, P d ∧ known u d) R.
Proof.
  intros HR. unfold AuthRoutes.authenticate. eapply triple_bind.
  - apply triple_keeps_err; [|exact HR]. unfold AuthRoutes.verify_bearer. keep.
  - intros claims. by apply triple_resolve_user.
Qed.

Lemma keeps_authenticate {jwt : JwtLib} P lib cfg e authorization :
  keeps P (AuthRoutes.authenticate lib cfg e authorization).
Proof.
  apply triple_keeps. eapply triple_conseq; [by apply triple_authenticate|done| |done]. by intros ? ? [].
Qed.

Lemma keeps_resolve_vault_access P e u v : keeps P (Access.resolve_vault_access e u v).
Proof. unfold Access.resolve_vault_access. keep. Qed.

Lemma keeps_assert_manager P e u v : keeps P (Access.assert_vault_manager e u v).
Proof. unfold Access.assert_vault_manager, Access.resolve_vault_access, Access.require_manage. keep. Qed.
End Triple.
#[export] Hint Resolve Triple.keeps_authenticate Triple.keeps_resolve_vault_access Triple.keeps_assert_manager : keeps.

(** ** The invariant of the account tables *)
Module AccountsInv.
Import Http Keeps Triple AccountsDb.

(** No two rows of a table break one of its constraints. *)
Definition clash_free {A} (clash : A → A → bool) (t : list A) : Prop :=
  ForallOrdPairs (λ r s, clash r s = false) t.

Section clash.
Context {A : Type} (clash : A → A → bool).

Lemma clash_free_snoc r t :
  clash_free clash t → (∀ s, s ∈ t → clash s r = false) → clash_free clash (t ++ [r]).
Proof.
  unfold clash_free. induction 1 as [|x t Hx Ht IH]; simpl; intros Hr.
  - repeat constructor.
  - constructor; [|apply IH; intros; apply Hr; by constructor].
    apply Forall_app. split; [done|]. constructor; [|done]. apply Hr. by constructor.
Qed.

Lemma clash_free_delete p t : clash_free clash t → clash_free clash (delete_where p t).
Proof.
  unfold clash_free, delete_where. induction 1 as [|x t Hx Ht IH]; simpl; [constructor|].
  destruct (negb (p x)); [|done]. constructor; [|done].
  rewrite Forall_forall in Hx |- *. intros y Hy. apply Hx.
  by apply (elem_of_delete_where p) in Hy as [? _].
Qed.

Lemma clash_free_update p f t :
  (∀ r s, clash (f r) s = clash r s) → (∀ r s, clash r (f s) = clash r s) →
  clash_free clash t → clash_free clash (update p f t).
Proof.
  intros H1 H2. unfold clash_free, update. induction 1 as [|x t Hx Ht IH]; simpl; constructor; [|done].
  rewrite Forall_fmap. eapply Forall_impl; [exact Hx|]. intros y Hy. cbn.
  destruct (p x), (p y); rewrite ?H1, ?H2; done.
Qed.

(** Rows that clash are one row. *)
Lemma clash_free_eq t r s :
  (∀ x y, clash x y = clash y x) → clash_free clash t → r ∈ t → s ∈ t → clash r s = true → r = s.
Proof.
  intros Hsym. induction 1 as [|x t Hx Ht IH]; intros Hr Hs Hc; [by apply elem_of_nil in Hr|].
  rewrite Forall_forall in Hx.
  apply elem_of_cons in Hr as [->|Hr]; apply elem_of_cons in Hs as [->|Hs]; auto.
  - rewrite Hx in Hc; done.
  - rewrite Hsym, Hx in Hc; done.
Qed.
End clash.

Lemma insert_row_clash_free {A} (clash : A → A → bool) r t t' :
  (∀ x y, clash x y = clash y x) →
  clash_free clash t → insert_row clash r t = Some t' → clash_free clash t'.
Proof.
  intros Hsym Ht Hi. pose proof (insert_row_inv _ _ _ _ Hi) as ->. apply clash_free_snoc; [done|].
  intros s Hs. rewrite Hsym. unfold insert_row in Hi.
  destruct (existsb (clash r) t) eqn:He; [done|]. destruct (clash r s) eqn:Hc; [|done].
  assert (existsb (clash r) t = true) by (apply existsb_exists; exists s; by rewrite <-list_elem_of_In).
  congruence.
Qed.

Lemma eq_ignore_case_sym a b : eq_ignore_ascii_case a b = eq_ignore_ascii_case b a.
Proof. unfold eq_ignore_ascii_case. apply bool_decide_ext. split; congruence. Qed.
Lemma uniq_eqb_sym a b : uniq_eqb a b = uniq_eqb b a.
Proof. destruct a, b; try done. apply bool_decide_ext. split; congruence. Qed.
Lemma bd_sym {A} `{EqDecision A} (a b : A) : bool_decide (a = b) = bool_decide (b = a).
Proof. apply bool_decide_ext. split; congruence. Qed.

Lemma user_clash_sym r s : MetaAccounts.user_clash r s = MetaAccounts.user_clash s r.
Proof.
  unfold MetaAccounts.user_clash.
  by rewrite (bd_sym (UserRow.id r)), eq_ignore_case_sym, (uniq_eqb_sym (UserRow.oauth_provider r)),
    (uniq_eqb_sym (UserRow.oauth_subject r)).
Qed.
Lemma invite_clash_sym r s : MetaSharing.invite_clash r s = MetaSharing.invite_clash s r.
Proof.
  unfold MetaSharing.invite_clash. by rewrite (bd_sym (InviteRow.id r)), (bd_sym (InviteRow.token_hash r)).
Qed.
Lemma org_clash_sym r s : MetaOrgs.org_clash r s = MetaOrgs.org_clash s r.
Proof.
  unfold MetaOrgs.org_clash. by rewrite (bd_sym (OrgRow.id r)), eq_ignore_case_sym, (bd_sym (OrgRow.tenant_id r)).
Qed.
Lemma org_member_clash_sym r s : MetaOrgs.org_member_clash r s = MetaOrgs.org_member_clash s r.
Proof.
  unfold MetaOrgs.org_member_clash.
  by rewrite (bd_sym (OrgMemberRow.org_id r)), (bd_sym (OrgMemberRow.user_id r)).
Qed.

(** An invitation that was redeemed by the member accounts for the row. *)
Definition justifies (i : InviteRow.t) (m : MemberRow.t) : Prop :=
  InviteRow.tenant_id i = MemberRow.tenant_id m ∧ InviteRow.vault_id i = MemberRow.vault_id m
  ∧ InviteRow.role i = MemberRow.role m ∧ InviteRow.redeemed_by i = Some (MemberRow.user_id m)
  ∧ is_Some (InviteRow.redeemed_at i) ∧ MemberRow.granted_by m = Some (InviteRow.created_by i).

(** Its author has an account in the tenant it is for. *)
Definition authored (d : AccountsDb) (i : InviteRow.t) : Prop :=
  ∃ u, u ∈ users d ∧ UserRow.id u = InviteRow.created_by i
    ∧ InviteRow.tenant_id i = Some (UserRow.tenant_id u).

(** A membership of an organisation: the role is one of the three, and the
    owner is who created it. *)
Definition org_row_ok (d : AccountsDb) (m : OrgMemberRow.t) : Prop :=
  is_Some (MetaOrgs.parse (OrgMemberRow.role m))
  ∧ ∃ o, o ∈ organizations d ∧ OrgRow.id o = OrgMemberRow.org_id m
      ∧ (MetaOrgs.parse (OrgMemberRow.role m) = Some Owner → OrgMemberRow.user_id m = OrgRow.created_by o).

Record inv (d : AccountsDb) : Prop := mkInv {
  inv_users : clash_free MetaAccounts.user_clash (users d);
  inv_invites : clash_free MetaSharing.invite_clash (vault_invites d);
  inv_authors : ∀ i, i ∈ vault_invites d → authored d i;
  inv_members : ∀ m, m ∈ vault_members d → ∃ i, i ∈ vault_invites d ∧ justifies i m;
  inv_orgs : clash_free MetaOrgs.org_clash (organizations d);
  inv_org_members : clash_free MetaOrgs.org_member_clash (organization_members d);
  inv_org_rows : ∀ m, m ∈ organization_members d → org_row_ok d m
}.

Lemma inv_empty : inv empty_accounts.
Proof. split; cbn; try (by constructor); by intros ? ?%elem_of_nil. Qed.

(** A change that keeps the tables the invariant speaks of. *)
Lemma inv_same d d' :
  users d' = users d → vault_invites d' = vault_invites d → vault_members d' = vault_members d →
  organizations d' = organizations d → organization_members d' = organization_members d → inv d → inv d'.
Proof.
  destruct d, d'; simpl; intros -> -> -> -> -> [H1 H2 H3 H4 H5 H6 H7]. by split.
Qed.

(** Rows of the users' table may come and change as long as authors keep their
    tenant. *)
Lemma inv_set_users f d :
  inv d → clash_free MetaAccounts.user_clash (f (users d)) →
  (∀ i u, i ∈ vault_invites d → u ∈ users d → UserRow.id u = InviteRow.created_by i →
     ∃ u', u' ∈ f (users d) ∧ UserRow.id u' = UserRow.id u ∧ UserRow.tenant_id u' = UserRow.tenant_id u) →
  inv (set_users f d).
Proof.
  intros [H1 H2 H3 H4 H5 H6 H7] Hc Hk. split; try done.
  intros i Hi. destruct (H3 i Hi) as (u&Hu&Hid&Ht). destruct (Hk i u Hi Hu Hid) as (u'&Hu'&Hid'&Ht').
  exists u'. split; [done|]. split; congruence.
Qed.

Lemma inv_insert_user r d : inv d → inv (MetaAccounts.insert_user r d).2.
Proof.
  intros Hi. unfold MetaAccounts.insert_user. destruct (insert_row _ r _) as [t|] eqn:Ht; [|done].
  apply inv_set_users; [done| |].
  - eapply insert_row_clash_free; [apply user_clash_sym|apply Hi|exact Ht].
  - intros i u _ Hu _. apply insert_row_inv in Ht as ->. exists u. split; [|done]. set_solver.
Qed.

Lemma inv_set_email_verified id b z d : inv d → inv (MetaAccounts.set_email_verified id b z d).2.
Proof.
  intros Hi. apply inv_set_users; [done| |].
  - apply clash_free_update; [done..|apply Hi].
  - intros i u _ Hu _. unfold update. destruct (MetaAccounts.by_id id u) eqn:Hb.
    + eexists. split; [apply list_elem_of_fmap; exists u; split; [reflexivity|done]|]. by rewrite Hb.
    + exists u. split; [|done]. apply list_elem_of_fmap. exists u. by rewrite Hb.
Qed.

Lemma inv_insert_invite id tenant v h role by' x z d :
  inv d → (∃ u, u ∈ users d ∧ UserRow.id u = by' ∧ tenant = Some (UserRow.tenant_id u)) →
  inv (MetaSharing.insert_vault_invite id tenant v h role by' x z d).2.
Proof.
  intros Hi (u&Hu&Hid&Ht). unfold MetaSharing.insert_vault_invite.
  destruct (negb _); [done|]. destruct (insert_row _ _ _) as [t|] eqn:Hr; [|done].
  pose proof (insert_row_inv _ _ _ _ Hr) as Happ.
  destruct Hi as [H1 H2 H3 H4 H5 H6 H7]. split; try done; cbn.
  - eapply insert_row_clash_free; [apply invite_clash_sym|exact H2|exact Hr].
  - rewrite Happ. intros i Hin. apply elem_of_app in Hin as [Hin|Hin]; [by apply H3|].
    apply list_elem_of_singleton in Hin as ->. by exists u.
  - intros m Hm. destruct (H4 m Hm) as (i&Hin&Hj). exists i. split; [|done]. rewrite Happ. set_solver.
Qed.

Lemma inv_redeem id by' z d : inv d → inv (MetaSharing.redeem_vault_invite id by' z d).2.
Proof.
  intros [H1 H2 H3 H4 H5 H6 H7]. split; try done; cbn.
  - by apply clash_free_update.
  - intros i (i0&Hi&->)%elem_of_update. destruct (MetaSharing.open_invite id i0); by apply (H3 i0).
  - intros m Hm. destruct (H4 m Hm) as (i&Hi&Hj). exists i. split; [|done].
    apply list_elem_of_fmap. exists i. split; [|done].
    replace (MetaSharing.open_invite id i) with false; [done|].
    destruct Hj as (_&_&_&_&[x Hx]&_). unfold MetaSharing.open_invite. rewrite Hx.
    by rewrite andb_false_r.
Qed.

Lemma inv_upsert_member tenant v user role by' z d :
  inv d →
  (∃ i, i ∈ vault_invites d
    ∧ justifies i (MemberRow.mk tenant v user (MetaSharing.as_str role) (Some by') z)) →
  inv (MetaSharing.upsert_vault_member tenant v user role by' z d).2.
Proof.
  intros Hi (i&Hin&Hj). unfold MetaSharing.upsert_vault_member. destruct (negb _); [done|].
  destruct Hi as [H1 H2 H3 H4 H5 H6 H7]. split; try done; cbn.
  case_bool_decide.
  - intros m Hm. apply elem_of_app in Hm as [Hm|Hm]; [by apply H4|].
    apply list_elem_of_singleton in Hm as ->. by exists i.
  - intros m (m0&Hm&->)%elem_of_update. destruct (MetaSharing.member_clash _ m0); [by exists i|by apply H4].
Qed.

Lemma inv_remove_member tenant v user d : inv d → inv (MetaSharing.remove_vault_member tenant v user d).2.
Proof.
  intros [H1 H2 H3 H4 H5 H6 H7]. split; try done. intros m Hm. apply H4.
  by apply elem_of_delete_where in Hm as [? _].
Qed.

Lemma inv_create_org id slug name tenant by' z d :
  inv d → inv (MetaOrgs.create_organization id slug name tenant by' z d).2.
Proof.
  intros Hi. unfold MetaOrgs.create_organization. destruct (negb _); [done|].
  destruct (insert_row _ _ _) as [t|] eqn:Hr; [|done]. pose proof (insert_row_inv _ _ _ _ Hr) as Happ.
  destruct Hi as [H1 H2 H3 H4 H5 H6 H7]. split; try done; cbn.
  - eapply insert_row_clash_free; [apply org_clash_sym|exact H5|exact Hr].
  - intros m Hm. destruct (H7 m Hm) as (Hp&o&Ho&Hid&How). split; [done|]. exists o.
    split; [|done]. cbn. rewrite Happ. set_solver.
Qed.

Lemma org_parse_as_str r : MetaOrgs.parse (MetaOrgs.as_str r) = Some r.
Proof. by destruct r. Qed.

Lemma org_exists_spec id d :
  MetaOrgs.org_exists id d = true ↔ ∃ o, o ∈ organizations d ∧ OrgRow.id o = id.
Proof.
  unfold MetaOrgs.org_exists. rewrite existsb_exists. setoid_rewrite <-list_elem_of_In.
  setoid_rewrite bool_decide_eq_true. done.
Qed.

(** Who is made an owner must have created the organisation. *)
Lemma inv_add_org_member id user role z d :
  inv d → (role = Owner → ∃ o, o ∈ organizations d ∧ OrgRow.id o = id ∧ OrgRow.created_by o = user) →
  inv (MetaOrgs.add_organization_member id user role z d).2.
Proof.
  intros Hi Hown. unfold MetaOrgs.add_organization_member.
  destruct (MetaOrgs.org_exists id d) eqn:He; [|done]. simpl.
  destruct (user_exists user d); simpl; [|done].
  destruct (insert_row _ _ _) as [t|] eqn:Hr; [|done]. pose proof (insert_row_inv _ _ _ _ Hr) as Happ.
  destruct Hi as [H1 H2 H3 H4 H5 H6 H7]. split; try done; cbn.
  - eapply insert_row_clash_free; [apply org_member_clash_sym|exact H6|exact Hr].
  - rewrite Happ. intros m Hm. apply elem_of_app in Hm as [Hm|Hm]; [by apply H7|].
    apply list_elem_of_singleton in Hm as ->. split; cbn; rewrite org_parse_as_str; [done|].
    destruct (decide (role = Owner)) as [->|Hne].
    + destruct (Hown eq_refl) as (o&Ho&Hid&Hby). by exists o.
    + apply org_exists_spec in He as (o&Ho&Hid). exists o. split_and!; [done..|]. intros [= ?]; congruence.
Qed.

(** An account whose invitations are still there is not deleted. *)
Lemma inv_delete_user id d : inv (ac d) → inv (ac (MetaCompliance.delete_user_by_id id d).2).
Proof.
  intros Hi. unfold MetaCompliance.delete_user_by_id. destruct (_ && _) eqn:Hg; [done|].
  apply inv_set_users; [done|apply clash_free_delete, Hi|]. intros i u Hin Hu Hid.
  exists u. split; [|done]. apply elem_of_delete_where. split; [done|].
  destruct (MetaAccounts.by_id id u) eqn:Hb; [|done].
  assert (bool_decide (0 < affected (MetaAccounts.by_id id) (users (ac d)))%nat = true) as Ha.
  { apply bool_decide_eq_true. destruct (affected _ _) eqn:Ha; [|lia].
    by rewrite (proj1 (affected_0 _ _) Ha u Hu) in Hb. }
  rewrite Ha in Hg. simpl in Hg. unfold MetaAccounts.by_id in Hb. apply bool_decide_eq_true in Hb.
  assert (MetaCompliance.refers_to_user id d = true) as Hr; [|congruence].
  unfold MetaCompliance.refers_to_user. rewrite !orb_true_iff. do 5 left.
  apply existsb_exists. exists i. rewrite <-list_elem_of_In. split; [done|].
  apply bool_decide_eq_true. congruence.
Qed.

(** ** The handlers keep it *)
Section handlers.
Context {argon2 : Argon2} {jwt : JwtLib} (blake3 : bytes → bytes) (lib : libs) (cfg : config) (e : env).

Lemma keeps_consent user tenant ty v : keeps inv (accounts e (MetaConsent.record_consent_event user tenant ty v)).
Proof. apply keeps_accounts. intros z d. by apply inv_same. Qed.

Lemma keeps_signup body : keeps inv (AuthRoutes.signup lib cfg e body).
Proof.
  unfold AuthRoutes.signup, AuthRoutes.signup_tenant, AuthRoutes.create_account,
    AuthRoutes.record_signup_policy_consents, AuthRoutes.build_token_response, AuthRoutes.deliver_verification.
  keep; try apply keeps_consent. apply keeps_accounts. intros z d Hd. by apply inv_insert_user.
Qed.

Lemma keeps_login body : keeps inv (AuthRoutes.login cfg e body).
Proof. unfold AuthRoutes.login, AuthRoutes.build_token_response. keep. Qed.

Lemma keeps_verify_email token : keeps inv (AuthRoutes.verify_email lib cfg e token).
Proof.
  unfold AuthRoutes.verify_email, AuthRoutes.mark_verified, AuthRoutes.build_token_response. keep.
  apply keeps_accounts. intros z d Hd. by apply inv_set_email_verified.
Qed.

Lemma keeps_oauth_callback {b64 : Base64} idp oauth q : keeps inv (OAuth.oauth_callback lib cfg idp oauth e q).
Proof.
  unfold OAuth.oauth_callback, OAuth.login_or_create_oauth_user, OAuth.find_identity, OAuth.create_oauth_user,
    OAuth.finish_user, OAuth.finish_oauth_login, AuthRoutes.record_signup_policy_consents, AuthRoutes.build_token_response.
  keep; try apply keeps_consent. apply keeps_accounts. intros z d Hd. by apply inv_insert_user.
Qed.

Lemma keeps_refresh P idp oauth t : keeps P (OAuth.refresh_token_inner lib cfg idp oauth e t).
Proof. unfold OAuth.refresh_token_inner, AuthRoutes.resolve_user_from_access, AuthRoutes.lookup. keep. Qed.

Lemma keeps_put_telemetry enabled a b : keeps inv (AuthRoutes.put_telemetry lib cfg e enabled a b).
Proof.
  unfold AuthRoutes.put_telemetry. keep; [|apply keeps_consent].
  apply keeps_accounts. intros z d. by apply inv_same.
Qed.

Lemma keeps_put_onboarding a b : keeps inv (AuthRoutes.put_onboarding lib cfg e a b).
Proof. unfold AuthRoutes.put_onboarding. keep. apply keeps_accounts. intros z d. by apply inv_same. Qed.

Lemma known_author u d : known u d →
  ∃ r, r ∈ users d ∧ UserRow.id r = UserAccount.id u ∧ Some (UserAccount.tenant_id u) = Some (UserRow.tenant_id r).
Proof. intros (r&Hr&<-). by exists r. Qed.

Lemma keeps_create_invite a v role ttl : keeps inv (SharingRoutes.create_invite blake3 lib cfg e a v role ttl).
Proof.
  apply triple_keeps. unfold SharingRoutes.create_invite.
  eapply triple_bind; [by apply (triple_authenticate inv inv)|]. intros user.
  set (P := λ d, inv d ∧ known user d). assert (∀ d, P d → inv d) as HP by (by intros d []).
  apply triple_seq; [keep|done|intros _]. apply triple_seq; [keep|done|intros role'].
  apply triple_seq; [keep|done|intros now']. apply triple_seq; [keep|done|intros raw].
  apply triple_seq; [keep|done|intros idraw].
  apply (triple_bind _ _ _ (λ _, inv)); [|intros []; apply triple_keeps, keeps_ret].
  apply triple_accounts; [exact HP|]. intros z d [Hi Hk].
  pose proof (inv_insert_invite (SharingRoutes.new_invite_id idraw) (Some (UserAccount.tenant_id user)) v
    (blake3 raw) role' (UserAccount.id user) (as_i64 (now' + SharingRoutes.ttl_secs ttl)) z d Hi
    (known_author _ _ Hk)) as Hn.
  by destruct (MetaSharing.insert_vault_invite _ _ _ _ _ _ _ _ _) as [[]].
Qed.

Lemma role_as_str raw r : MetaSharing.role_of raw = Ok r → raw = MetaSharing.as_str r.
Proof.
  unfold MetaSharing.role_of, MetaSharing.parse. intros H.
  destruct (decide (raw = "viewer")); [by injection H as <-|].
  destruct (decide (raw = "editor")); [by injection H as <-|done].
Qed.

Lemma invite_by_hash_in h d vi :
  (MetaSharing.get_vault_invite_by_token_hash h d).1 = Ok (Some vi) →
  ∃ row, row ∈ vault_invites d ∧ MetaSharing.invite_from_row row = Ok vi.
Proof.
  unfold MetaSharing.get_vault_invite_by_token_hash. cbn [fst].
  set (l := select _ _). destruct (head l) as [row|] eqn:Hl; [|done]. cbn.
  destruct (MetaSharing.invite_from_row row) as [x|] eqn:Hr; [|done]. intros [= ->].
  exists row. split; [|done].
  assert (row ∈ l) as Hin by (destruct l; [done|injection Hl as ->; left]).
  by apply elem_of_select in Hin as [? _].
Qed.

(** The row the update leaves accounts for the membership. *)
Lemma redeem_justifies row vi user z t d :
  row ∈ vault_invites d → MetaSharing.invite_from_row row = Ok vi → vi_redeemed_at vi = None →
  ∃ i, i ∈ vault_invites (MetaSharing.redeem_vault_invite (vi_id vi) user z d).2
    ∧ justifies i (MemberRow.mk (vi_tenant_id vi) (vi_vault_id vi) user (MetaSharing.as_str (vi_role vi))
                     (Some (vi_created_by vi)) t).
Proof.
  intros Hrow Hvi Hopen. unfold MetaSharing.invite_from_row in Hvi.
  destruct (MetaSharing.role_of (InviteRow.role row)) as [role|] eqn:Hrole; [|done].
  injection Hvi as <-. cbn in *. exists (MetaSharing.redeem z user row). split.
  - apply list_elem_of_fmap. exists row. split; [|done]. unfold MetaSharing.open_invite.
    by rewrite !bool_decide_true.
  - apply role_as_str in Hrole. unfold justifies. cbn. split_and!; try done; by eexists.
Qed.

Lemma keeps_accept_invite a token : keeps inv (SharingRoutes.accept_invite blake3 lib cfg e a token).
Proof.
  apply triple_keeps. unfold SharingRoutes.accept_invite.
  eapply triple_bind; [by apply (triple_authenticate inv inv)|]. intros user. cbv beta.
  apply (triple_pre _ inv); [|by intros d []]. apply triple_seq; [keep|done|intros raw].
  eapply triple_bind; [by apply (triple_reads inv inv)|]. intros found. cbv beta.
  eapply triple_bind; [apply (triple_require _ inv); by intros d []|]. intros vi. cbv beta.
  apply (triple_pre _ (λ d, inv d ∧ ∃ row, row ∈ vault_invites d ∧ MetaSharing.invite_from_row row = Ok vi)).
  2: { intros d (->&Hf&Hi). split; [done|]. by eapply invite_by_hash_in. }
  destruct (vi_redeemed_at vi) eqn:Hopen; [apply triple_err; by intros d []|].
  apply triple_seq; [keep|by intros d []|intros now'].
  destruct (bool_decide _); [apply triple_err; by intros d []|].
  eapply (triple_bind _ _ _ (λ _ d, inv d ∧ ∀ t, ∃ i, i ∈ vault_invites d
    ∧ justifies i (MemberRow.mk (vi_tenant_id vi) (vi_vault_id vi) (UserAccount.id user)
                     (MetaSharing.as_str (vi_role vi)) (Some (vi_created_by vi)) t))).
  - apply triple_accounts; [by intros d []|]. intros z d (Hi&row&Hrow&Hvi). split.
    + by apply (inv_redeem (vi_id vi) (UserAccount.id user) z d).
    + intros t. by eapply redeem_justifies.
  - intros b. destruct (negb b); [apply triple_err; by intros d []|].
    apply (triple_bind _ _ _ (λ _, inv)); [|intros []; apply triple_keeps, keeps_ret].
    apply triple_accounts; [by intros d []|]. intros z d [Hi Hj].
    pose proof (inv_upsert_member _ _ _ _ _ z d Hi (Hj z)) as Hn.
    by destruct (MetaSharing.upsert_vault_member _ _ _ _ _ _ _) as [[]].
Qed.

Lemma keeps_remove_member a v u : keeps inv (SharingRoutes.remove_member lib cfg e a v u).
Proof.
  unfold SharingRoutes.remove_member. keep. apply keeps_accounts. intros z d Hd. by apply inv_remove_member.
Qed.

Lemma create_org_row id slug name tenant by' z d d' :
  MetaOrgs.create_organization id slug name tenant by' z d = (Ok tt, d') →
  ∃ o, o ∈ organizations d' ∧ OrgRow.id o = id ∧ OrgRow.created_by o = by'.
Proof.
  unfold MetaOrgs.create_organization. destruct (negb _); [done|].
  destruct (insert_row _ _ _) as [t|] eqn:Hr; [|done]. intros [= <-].
  apply insert_row_inv in Hr as ->. eexists. split; [cbn; apply elem_of_app; right; left|done].
Qed.

Lemma keeps_create_org a name slug : keeps inv (OrgRoutes.create_org lib cfg e a name slug).
Proof.
  apply triple_keeps. unfold OrgRoutes.create_org, OrgRoutes.slug_taken, OrgRoutes.db_err.
  apply triple_seq; [keep|done|intros user]. destruct (_ || _); [by apply triple_err|].
  apply triple_seq; [keep|done|intros slug']. apply triple_seq; [keep|done|intros taken].
  destruct taken; [by apply triple_err|].
  apply triple_seq; [keep|done|intros raw]. apply triple_seq; [keep|done|intros now'].
  eapply (triple_bind _ _ _ (λ _ d, inv d ∧ ∃ o, o ∈ organizations d
    ∧ OrgRow.id o = OrgRoutes.new_org_id raw ∧ OrgRow.created_by o = UserAccount.id user)).
  - apply triple_accounts; [done|]. intros z d Hi.
    pose proof (inv_create_org (OrgRoutes.new_org_id raw) slug' (trim name) slug' (UserAccount.id user) now' d Hi).
    destruct (MetaOrgs.create_organization _ _ _ _ _ _ d) as [[[]|] d'] eqn:Hc; [|done].
    split; [done|]. by eapply create_org_row.
  - intros []. apply (triple_bind _ _ _ (λ _, inv)); [|intros []; apply triple_keeps, keeps_ret].
    apply triple_accounts; [by intros d []|]. intros z d [Hi Ho].
    pose proof (inv_add_org_member (OrgRoutes.new_org_id raw) (UserAccount.id user) Owner now' d Hi (λ _, Ho)).
    by destruct (MetaOrgs.add_organization_member _ _ _ _ d) as [[]].
Qed.

Lemma keeps_add_member a o email role : keeps inv (OrgRoutes.add_member lib cfg e a o email role).
Proof.
  unfold OrgRoutes.add_member, OrgRoutes.actor_role, OrgRoutes.db_err. keep.
  all: apply keeps_accounts; intros z d Hd; by apply inv_add_org_member.
Qed.

Lemma inv_set_context u o z d : inv d → inv (MetaOrgs.set_user_org_context u o z d).2.
Proof. unfold MetaOrgs.set_user_org_context. destruct (negb _); [done|]. by apply inv_same. Qed.

Lemma keeps_build_context u : keeps inv (OrgRoutes.build_org_context e u).
Proof.
  unfold OrgRoutes.build_org_context, OrgRoutes.db_err. keep.
  apply keeps_accounts; intros z d Hd; by apply inv_set_context.
Qed.

#[local] Hint Resolve keeps_build_context : keeps.

Lemma keeps_get_context a : keeps inv (OrgRoutes.get_org_context lib cfg e a).
Proof. unfold OrgRoutes.get_org_context. keep. Qed.

Lemma keeps_put_context a o : keeps inv (OrgRoutes.put_org_context lib cfg e a o).
Proof.
  unfold OrgRoutes.put_org_context, OrgRoutes.actor_role, OrgRoutes.db_err. keep.
  all: apply keeps_accounts; intros z d Hd; by apply inv_set_context.
Qed.

Lemma keeps_delete_account a c : keeps inv (ComplianceRoutes.delete_account lib cfg e a c).
Proof.
  unfold ComplianceRoutes.delete_account. keep.
  - apply keeps_accounts. intros z d. by apply inv_same.
  - apply keeps_accounts. intros z d. by apply inv_same.
  - apply keeps_control. intros z d Hd. by apply inv_delete_user.
  - apply keeps_control. intros z d. by apply inv_same.
Qed.
End handlers.

(** ** Requests *)
Inductive request :=
  | Signup (b : SignupRequest)
  | Login (b : LoginRequest)
  | VerifyEmail (token : string)
  | PutTelemetry (enabled : bool) (a : option string) (opt_in : bool)
  | PutOnboarding (a : option string) (dismissed : bool)
  | CreateInvite (a : option string) (vault role : string) (ttl_hours : Z)
  | AcceptInvite (a : option string) (token : string)
  | RemoveMember (a : option string) (vault user : string)
  | CreateOrg (a : option string) (name slug : string)
  | AddMember (a : option string) (org email role : string)
  | GetContext (a : option string)
  | PutContext (a : option string) (org : option string)
  | DeleteAccount (a : option string) (confirm_email : string)
  | OAuthCallback (b64 : Base64) (idp : Idp) (oauth : OAuthConfig.t) (q : OAuthCallbackQuery)
  | RefreshToken (idp : Idp) (oauth : OAuthConfig.t) (refresh_token : string).

Section serve.
Context {argon2 : Argon2} {jwt : JwtLib} (blake3 : bytes → bytes).

(** The state a request leaves. *)
Definition handle (lib : libs) (cfg : config) (e : env) (r : request) (s : Http.t) : Http.t :=
  match r with
  | Signup b => (AuthRoutes.signup lib cfg e b s).2
  | Login b => (AuthRoutes.login cfg e b s).2
  | VerifyEmail t => (AuthRoutes.verify_email lib cfg e t s).2
  | PutTelemetry on a b => (AuthRoutes.put_telemetry lib cfg e on a b s).2
  | PutOnboarding a b => (AuthRoutes.put_onboarding lib cfg e a b s).2
  | CreateInvite a v r t => (SharingRoutes.create_invite blake3 lib cfg e a v r t s).2
  | AcceptInvite a t => (SharingRoutes.accept_invite blake3 lib cfg e a t s).2
  | RemoveMember a v u => (SharingRoutes.remove_member lib cfg e a v u s).2
  | CreateOrg a n sl => (OrgRoutes.create_org lib cfg e a n sl s).2
  | AddMember a o m r => (OrgRoutes.add_member lib cfg e a o m r s).2
  | GetContext a => (OrgRoutes.get_org_context lib cfg e a s).2
  | PutContext a o => (OrgRoutes.put_org_context lib cfg e a o s).2
  | DeleteAccount a c => (ComplianceRoutes.delete_account lib cfg e a c s).2
  | OAuthCallback _ idp oauth q => (OAuth.oauth_callback lib cfg idp oauth e q s).2
  | RefreshToken idp oauth t => (OAuth.refresh_token_inner lib cfg idp oauth e t s).2
  end.

(** The server's life: requests under any configuration, with any failures,
    and whatever the rest of the server does to the other tables and files. *)
Inductive serve (s : Http.t) : Http.t → Prop :=
  | serve_request lib cfg e r : serve s (handle lib cfg e r s)
  | serve_other s' : acct s' = acct s → serve s s'.

Definition started (s : Http.t) : Prop := acct s = empty_accounts.

Lemma serve_inv s s' : serve s s' → inv (acct s) → inv (acct s').
Proof.
  intros [lib cfg e r|s1 Hs] Hi; [|by rewrite Hs]. destruct r; cbn [handle].
  - by apply keeps_signup.
  - by apply keeps_login.
  - by apply keeps_verify_email.
  - by apply keeps_put_telemetry.
  - by apply keeps_put_onboarding.
  - by apply keeps_create_invite.
  - by apply keeps_accept_invite.
  - by apply keeps_remove_member.
  - by apply keeps_create_org.
  - by apply keeps_add_member.
  - by apply keeps_get_context.
  - by apply keeps_put_context.
  - by apply keeps_delete_account.
  - by apply keeps_oauth_callback.
  - by apply keeps_refresh.
Qed.

Lemma served_inv s0 s : started s0 → rtc serve s0 s → inv (acct s).
Proof.
  intros H0 Hr. assert (inv (acct s0)) as Hi by (rewrite H0; apply inv_empty).
  clear H0. induction Hr; eauto using serve_inv.
Qed.
End serve.
End AccountsInv.
