(* ===== verification/AccountsTheorems.v ===== *)
(** * Accounts, sharing and organisations: the theorems

    Proved from the invariant of AccountsProps; the witnesses run the
    handlers with simple stand-ins for Argon2 and the token library. *)

From stdpp Require Import prelude gmap strings pretty countable.
From Stdlib Require Import ZArith Lia Strings.Byte Strings.Ascii.
From S2P Require Import Prelude Text Types Fs BlobStore Publisher E2ee Sql MetaDb Billing MetaSync MetaSyncProps Tenancy.
From S2P Require Import SyncService Enrollment Http Accounts Sharing Orgs Compliance AccountsProps.

#[local] Open Scope Z_scope.

(** ** Stand-ins for the libraries *)
Module Toy.
(** The password in the clear after the algorithm's name. *)
Definition argon2 : Argon2.
Proof.
  refine {| argon2_hash _ pw := Ok ("$argon2id$" +:+ pw);
            argon2_verify pw h := match strip_prefix (explode "$argon2id$") (explode h) with
                                  | Some r => Ok (bool_decide (implode r = pw))
                                  | None => Err "invalid hash" end |}.
  intros _ pw h [= <-]. rewrite explode_app, (proj2 (strip_prefix_spec _ _ _) eq_refl).
  by rewrite implode_explode, bool_decide_true.
Defined.

(** The key and the claims, written in binary between two letters. *)
Definition fields (key : bytes) (c : DiskJwtClaims.t) : list positive :=
  [encode (Byte.to_N <$> key); encode (DiskJwtClaims.sub c); encode (DiskJwtClaims.email c);
   encode (DiskJwtClaims.tenant_id c); encode (DiskJwtClaims.email_verified c); encode (DiskJwtClaims.exp c);
   encode (DiskJwtClaims.iat c); encode (DiskJwtClaims.iss c)].

Definition token_of (key : bytes) (c : DiskJwtClaims.t) : string :=
  "t" +:+ BinaryCodec.bits (encode (fields key c)) +:+ "t".

Definition claims_in (tok : string) : option (list N * DiskJwtClaims.t) :=
  match explode tok with
  | _ :: l =>
      fs ← decode (BinaryCodec.unbits (implode (removelast l)));
      match fs : list positive with
      | [k; a; b; c; d; x; y; z] =>
          k ← decode k; a ← decode a; b ← decode b; c ← decode c; d ← decode d; x ← decode x;
          y ← decode y; z ← decode z; Some (k, DiskJwtClaims.mk a b c d x y z)
      | _ => None
      end
  | [] => None
  end.

Lemma claims_in_token key c : claims_in (token_of key c) = Some (Byte.to_N <$> key, c).
Proof.
  unfold claims_in, token_of. rewrite explode_app. change (explode "t") with ["t"%char]. simpl app.
  rewrite explode_app. change (explode "t") with ["t"%char].
  rewrite removelast_last, implode_explode, BinaryCodec.unbits_bits, decode_encode.
  cbn [mbind option_bind fields]. rewrite !decode_encode. cbn. by destruct c.
Qed.

Lemma trim_token key c : trim (token_of key c) = token_of key c.
Proof.
  unfold token_of. set (b := BinaryCodec.bits _). unfold trim.
  rewrite explode_app. change (explode "t") with ["t"%char]. rewrite explode_app.
  change (explode "t") with ["t"%char]. simpl app.
  assert (∀ n (l : chars), trim_start_with n whitespace_encodings ("t"%char :: l) = "t"%char :: l) as H1.
  { intros [|n] l; reflexivity. }
  assert (∀ n (l : chars), trim_start_with n (reverse <$> whitespace_encodings) ("t"%char :: l) = "t"%char :: l) as H2.
  { intros [|n] l; reflexivity. }
  rewrite H1. change ("t"%char :: explode b ++ ["t"%char]) with (("t"%char :: explode b) ++ ["t"%char]).
  rewrite reverse_snoc, H2, reverse_cons, reverse_involutive.
  change ("t"%char :: explode b) with (explode ("t" +:+ b)). rewrite implode_app, implode_explode.
  apply explode_inj. by rewrite !explode_app, <-(assoc_L (++)).
Qed.

Definition jwt : JwtLib.
Proof.
  refine {| jwt_encode key c := Some (token_of key c);
            jwt_decode now iss key tok :=
              match claims_in tok with
              | Some (k, c) => if decide (k = Byte.to_N <$> key ∧ DiskJwtClaims.iss c = iss
                                          ∧ now ≤ DiskJwtClaims.exp c + leeway) then Some c else None
              | None => None
              end |}.
  - intros key c tok now [= <-] Hn. rewrite claims_in_token. by rewrite decide_True.
  - intros key iss tok now c. destruct (claims_in tok) as [[k c']|]; [|done].
    case_decide as Hd; [|done]. intros [= ->]. naive_solver.
  - done.
  - intros key c tok [= <-]. apply trim_token.
Defined.
End Toy.

Module AccountsTheorems.
Import Http AccountsDb AccountsInv Triple.

(** A membership row found by the lookup. *)
Lemma collab_row u v d t role :
  (MetaSharing.get_collaborator_vault_access u v d).1 = Ok (Some (t, role)) →
  ∃ m, m ∈ vault_members d ∧ MemberRow.user_id m = u ∧ MemberRow.vault_id m = v
    ∧ MemberRow.tenant_id m = t ∧ MemberRow.role m = MetaSharing.as_str role.
Proof.
  unfold MetaSharing.get_collaborator_vault_access. set (l := select _ _).
  destruct (head l) as [m|] eqn:Hl; [|done]. cbn.
  destruct (MetaSharing.role_of (MemberRow.role m)) as [r|] eqn:Hr; [|done]. intros [= <- <-].
  apply role_as_str in Hr. exists m.
  assert (m ∈ l) as Hin by (destruct l; [done|injection Hl as ->; left]).
  apply elem_of_select in Hin as [? [?%bool_decide_eq_true ?%bool_decide_eq_true]%andb_true_iff]. done.
Qed.

Definition vault_registered (t v : string) (db : MetaDb) : Prop :=
  ∃ r, r ∈ tenant_vaults db ∧ VaultRow.tenant_id r = Some t ∧ VaultRow.vault_id r = v.

Lemma vault_exists_spec t v db :
  (MetaSharing.vault_exists_for_tenant (Some t) v db) = (Ok true, db) ↔ vault_registered t v db.
Proof.
  unfold MetaSharing.vault_exists_for_tenant, query, vault_registered. split.
  - intros [= Hb%bool_decide_eq_true]. destruct Hb as [r Hr]. exists r.
    set (l := select _ _) in Hr. assert (r ∈ l) as Hin by (destruct l; [done|injection Hr as ->; left]).
    apply elem_of_select in Hin as [? [?%bool_decide_eq_true ?%bool_decide_eq_true]%andb_true_iff]. done.
  - intros (r&Hr&Ht&Hv). do 2 f_equal. apply bool_decide_eq_true.
    set (l := select _ _). assert (r ∈ l) as Hin.
    { apply elem_of_select. split; [done|]. unfold is_eqb. by rewrite Ht, Hv, !bool_decide_true. }
    destruct l; [by apply elem_of_nil in Hin|by eexists].
Qed.

(** What the resolution of a vault's access does to the state: it reads. *)
Lemma resolve_vault_access_inv e user v s a s' :
  Access.resolve_vault_access e user v s = (Ok a, s') →
  (a = mkResolved (Some (UserAccount.tenant_id user)) AOwner
   ∧ vault_registered (UserAccount.tenant_id user) v (TenantMetaRouter.data (router s)))
  ∨ ∃ t role, (MetaSharing.get_collaborator_vault_access (UserAccount.id user) v (acct s)).1 = Ok (Some (t, role))
      ∧ a = mkResolved t (match role with Editor => AEditor | Viewer => AViewer end).
Proof.
  unfold Access.resolve_vault_access. intros (own&s1&Hown&Hk)%st_bind_ok.
  assert (acct s1 = acct s ∧ (own = true → vault_registered (UserAccount.tenant_id user) v (TenantMetaRouter.data (router s))))
    as [Hs1 Hv].
  { unfold or_db_error, or_status, billing, control in Hown. destruct (db_fault e _); [done|].
    unfold on_dt, view in Hown. cbn in Hown. injection Hown as <- <-. split; [done|]. intros Hb.
    apply vault_exists_spec. unfold MetaSharing.vault_exists_for_tenant, query. by rewrite Hb. }
  destruct own; [left|right].
  { injection Hk as <- _. auto. }
  apply st_bind_ok in Hk as (collab&s2&Hc&Hk). exists (default None (fst <$> collab)).
  unfold or_db_error, or_status, accounts, control in Hc. destruct (db_fault e _); [done|].
  unfold on_ac, view in Hc. cbn [ac] in Hc. rewrite Hs1 in Hc.
  destruct (MetaSharing.get_collaborator_vault_access _ _ (acct s)) as [r d] eqn:Hg.
  injection Hc as Hr <-. destruct r as [c|]; [|done]. injection Hr as ->.
  destruct collab as [[t role]|]; [|done]. exists role. split; [done|]. by injection Hk as <- _.
Qed.

(** ** Running a handler without failures *)
Section running.
Context (e : env) (Hok : ∀ n, db_fault e n = None).

Lemma accounts_run {A} (m : Z → adb A) s r s' :
  accounts e m s = (r, s') →
  ∃ z, z = now e (statements s) ∧ m z (acct s) = (r, acct s')
    ∧ TenantMetaRouter.data (router s') = TenantMetaRouter.data (router s)
    ∧ TenantMetaRouter.disk (router s') = TenantMetaRouter.disk (router s).
Proof.
  unfold accounts, control, on_ac, view. rewrite Hok. cbn.
  destruct (m _ (acct s)) as [r1 a] eqn:Hm. intros [= <- <-]. eauto.
Qed.

Lemma billing_run {A} (m : Z → dbm A) s r s' :
  billing e m s = (r, s') →
  ∃ z, m z (TenantMetaRouter.data (router s)) = (r, TenantMetaRouter.data (router s')) ∧ acct s' = acct s.
Proof.
  unfold billing, control, on_dt, view. rewrite Hok. cbn.
  destruct (m _ _) as [r1 a] eqn:Hm. intros [= <- <-]. eauto.
Qed.

(** The tables a signup leaves. *)
Record signed_up {argon2 : Argon2} {jwt : JwtLib} (cfg : config) (body : SignupRequest) (s : Http.t)
    (resp : AuthTokenResponse) (s' : Http.t) (u : UserRow.t) : Prop := mkSignedUp {
  su_users : users (acct s') = users (acct s) ++ [u];
  su_fresh : ∀ r, r ∈ users (acct s) → MetaAccounts.user_clash u r = false;
  su_invites_same : vault_invites (acct s') = vault_invites (acct s);
  su_members_same : vault_members (acct s') = vault_members (acct s);
  su_data : ∃ z, TenantMetaRouter.data (router s')
                 = (MetaBilling.set_plan_tier z (Some (UserRow.tenant_id u)) PlanTier.Free
                      (TenantMetaRouter.data (router s))).2;
  su_email_is : UserRow.email u = Accounts.normalize_email (su_email body);
  su_tenant_is : match su_tenant_id body with
                 | Some raw => Accounts.sanitize_tenant_slug raw = Some (UserRow.tenant_id u)
                 | None => Accounts.default_tenant_from_email (UserRow.email u) = Some (UserRow.tenant_id u)
                 end;
  su_plain : UserRow.oauth_provider u = None;
  su_hash : ∃ salt, Password.hash_password salt (su_password body) = Ok (UserRow.password_hash u);
  su_token : ∃ n, Jwt.issue_token (now e n) (local_signing_key cfg) (UserRow.id u) (UserRow.email u)
                    (UserRow.tenant_id u) false (token_ttl_secs cfg) = Ok (access_token resp)
}.

Lemma create_account_run {argon2 : Argon2} uid email h tenant s s' :
  AuthRoutes.create_account e uid email h tenant s = (Ok tt, s') →
  ∃ z, let u := UserRow.mk uid email h tenant 0 None None z z in
    insert_row MetaAccounts.user_clash u (users (acct s)) = Some (users (acct s'))
    ∧ acct s' = set_users (λ _, users (acct s')) (acct s)
    ∧ TenantMetaRouter.data (router s') = TenantMetaRouter.data (router s).
Proof.
  unfold AuthRoutes.create_account. intros (r&s1&Hr&Hk)%st_bind_ok.
  unfold catch in Hr. destruct (accounts e _ s) as [r' s1'] eqn:Ha. injection Hr as <- <-.
  apply accounts_run in Ha as (z&_&Hm&Hd&_).
  destruct r' as [[]|x]; [injection Hk as <-|destruct (AuthRoutes.is_unique_violation x); done].
  exists z. unfold MetaAccounts.create_user_account, MetaAccounts.insert_user in Hm.
  destruct (insert_row _ _ _) as [t|] eqn:Ht; [|done]. injection Hm as Hm. rewrite <-Hm. cbn. auto.
Qed.

Lemma consents_run uid tenant s r s' :
  AuthRoutes.record_signup_policy_consents e uid tenant s = (r, s') →
  users (acct s') = users (acct s) ∧ vault_invites (acct s') = vault_invites (acct s)
  ∧ vault_members (acct s') = vault_members (acct s)
  ∧ TenantMetaRouter.data (router s') = TenantMetaRouter.data (router s).
Proof.
  unfold AuthRoutes.record_signup_policy_consents, st_bind, catch.
  destruct (accounts e _ s) as [r1 s1] eqn:H1. apply accounts_run in H1 as (z1&_&H1&D1&_). injection H1 as <- H1.
  destruct (accounts e _ s1) as [r2 s2] eqn:H2. apply accounts_run in H2 as (z2&_&H2&D2&_). injection H2 as <- H2.
  intros [= <- <-]. rewrite <-H2, <-H1, D2, D1. done.
Qed.

Lemma signup_run {argon2 : Argon2} {jwt : JwtLib} lib cfg body s resp s' :
  AuthRoutes.signup lib cfg e body s = (Ok resp, s') → ∃ u, signed_up cfg body s resp s' u.
Proof.
  unfold AuthRoutes.signup. set (email := Accounts.normalize_email (su_email body)).
  destruct (Modes.allows_local_issue (jwt_mode cfg)) eqn:Hmode; [|done].
  destruct (Accounts.validate_email email); [|done]. cbn [negb].
  intros (tenant&s1&Ht&Hk)%st_bind_ok.
  assert (s1 = s ∧ match su_tenant_id body with
                   | Some raw => Accounts.sanitize_tenant_slug raw = Some tenant
                   | None => Accounts.default_tenant_from_email email = Some tenant
                   end) as [-> Htenant].
  { unfold AuthRoutes.signup_tenant, require, st_lift in Ht. destruct (su_tenant_id body) as [raw|].
    - destruct (Accounts.sanitize_tenant_slug raw); [|done]. cbn in Ht. by injection Ht as <- <-.
    - destruct (Accounts.default_tenant_from_email email); [|done]. cbn in Ht. by injection Ht as <- <-. }
  apply st_bind_ok in Hk as (salt&s2&[= <- <-]&Hk). apply st_bind_ok in Hk as (h&s2&Hh&Hk).
  unfold require in Hh. apply st_lift_ok in Hh as [Hh ->].
  destruct (Password.hash_password _ _) as [h'|] eqn:Hhash; [|done]. injection Hh as ->.
  apply st_bind_ok in Hk as (buf&s2&[= <- <-]&Hk). apply st_bind_ok in Hk as ([]&s2&Hc&Hk).
  apply create_account_run in Hc as (z&Hins&Hacct&Hd2).
  apply st_bind_ok in Hk as (rb&s3&Hb&Hk). unfold catch in Hb.
  destruct (billing e _ s2) as [rb' s3'] eqn:Hb'. injection Hb as <- <-. apply billing_run in Hb' as (zb&Hb&Ha3).
  apply st_bind_ok in Hk as ([]&s4&Hcons&Hk). apply consents_run in Hcons as (U4&I4&M4&D4).
  apply st_bind_ok in Hk as (r5&s5&H5&Hk). unfold AuthRoutes.build_token_response in H5.
  apply st_bind_ok in H5 as (n5&s6&[= <- <-]&H5). apply st_bind_ok in H5 as (tok&s6&Htok&[= <- <-]).
  unfold require in Htok. apply st_lift_ok in Htok as [Htok ->].
  assert (∃ v, AuthRoutes.deliver_verification lib cfg e (Accounts.new_user_id (take 16 (drop 16 (random e (statements s))))) s4 = (Ok v, s4)
               ∧ s' = s4 ∧ access_token resp = tok) as (v&_&->&Hat).
  { apply st_bind_ok in Hk as (v&s7&Hv&[= <- <-]). exists v.
    assert (s7 = s4) as ->; [|done]. unfold AuthRoutes.deliver_verification in Hv.
    destruct (email_mode cfg); by injection Hv. }
  eexists (UserRow.mk _ email h tenant 0 None None z z). split; cbn.
  - rewrite U4, Ha3. by apply insert_row_inv in Hins.
  - intros r Hr. unfold insert_row in Hins. destruct (existsb _ _) eqn:He; [done|].
    destruct (MetaAccounts.user_clash _ r) eqn:Hcl; [|done].
    assert (existsb (MetaAccounts.user_clash (UserRow.mk (Accounts.new_user_id (take 16 (drop 16 (random e (statements s)))))
              email h tenant 0 None None z z)) (users (acct s)) = true); [|congruence].
    apply existsb_exists. exists r. by rewrite <-list_elem_of_In.
  - by rewrite I4, Ha3, Hacct.
  - by rewrite M4, Ha3, Hacct.
  - exists zb. rewrite D4. rewrite Hd2 in Hb. apply (f_equal snd) in Hb. symmetry. exact Hb.
  - done.
  - done.
  - done.
  - by exists (take 16 (drop 0 (random e (statements s)))).
  - exists (statements s4). unfold JwtService.issue_local in Htok.
    destruct (Modes.allows_local_issue _); [|done].
    destruct (Jwt.issue_token _ _ _ _ _ _ _) as [x|]; [|done]. cbn in Htok. congruence.
Qed.
End running.

(** ** Tokens *)
Lemma bearer_token_of tok : trim tok = tok → AuthRoutes.bearer_token (Some ("Bearer " +:+ tok)) = Some tok.
Proof.
  intros Ht. unfold AuthRoutes.bearer_token. cbn [mbind option_bind].
  rewrite explode_app, (proj2 (strip_prefix_spec _ _ _) eq_refl). cbn. by rewrite implode_explode, Ht.
Qed.

(** A token the server issued, presented before it expires, is its user's. *)
Lemma authenticate_token {jwt : JwtLib} lib cfg e z uid email tenant b tok u s :
  jwt_mode cfg = Local → (∀ n, db_fault e n = None) →
  Jwt.issue_token z (local_signing_key cfg) uid email tenant b (token_ttl_secs cfg) = Ok tok →
  in_u64 (z + token_ttl_secs cfg) → (∀ n, now e n ≤ z + token_ttl_secs cfg) →
  head (select (MetaAccounts.by_id uid) (users (acct s))) = Some u →
  ∃ s', AuthRoutes.authenticate lib cfg e (Some ("Bearer " +:+ tok)) s = (Ok (MetaAccounts.map_user_row u), s')
    ∧ acct s' = acct s ∧ TenantMetaRouter.data (router s') = TenantMetaRouter.data (router s).
Proof.
  intros Hmode Hf Htok Hz Hnow Hu. unfold Jwt.issue_token in Htok.
  destruct (bool_decide _) eqn:Hlen; [done|]. rewrite as_u64_id in Htok by done.
  destruct (jwt_encode _ _) as [t|] eqn:Henc; [|done]. injection Htok as ->.
  pose proof (jwt_no_space _ _ _ Henc) as Htrim.
  unfold AuthRoutes.authenticate, AuthRoutes.verify_bearer, st_bind. rewrite bearer_token_of by done. cbn.
  unfold JwtService.verify. rewrite Hmode. cbn. unfold JwtService.verify_local, Jwt.verify_token. rewrite Hlen.
  specialize (Hnow (statements s)).
  pose proof (jwt_accepts _ _ _ (now e (statements s)) Henc) as Hacc. cbn in Hacc. rewrite Hacc by (unfold leeway; lia).
  cbn. unfold AuthRoutes.resolve_user_from_access, AuthRoutes.lookup, st_bind, catch, accounts, control.
  rewrite Hf. unfold on_ac, view. cbn. rewrite Hu. cbn. by eexists.
Qed.

Lemma select_new p (t : list UserRow.t) u :
  p u = true → (∀ r, r ∈ t → p r = false) → head (select p (t ++ [u])) = Some u.
Proof.
  intros Hu Hn. rewrite select_app, (proj2 (select_nil p t) Hn). cbn. by rewrite Hu.
Qed.

Lemma clash_ids u r : MetaAccounts.user_clash u r = false → UserRow.id r ≠ UserRow.id u.
Proof.
  unfold MetaAccounts.user_clash. intros [[H _]%orb_false_iff _]%orb_false_iff.
  apply bool_decide_eq_false in H. congruence.
Qed.

Lemma clash_emails u r :
  MetaAccounts.user_clash u r = false → eq_ignore_ascii_case (UserRow.email u) (UserRow.email r) = false.
Proof. unfold MetaAccounts.user_clash. by intros [[_ H]%orb_false_iff _]%orb_false_iff. Qed.

(** C38: Signing up, then logging in, on a server that issues its own tokens
    and whose database does not fail. After a signup that succeeded, logging in
    with the same address, however it is written, and the same password
    succeeds and names the same account; the token of either answer, as long
    as the clock has not passed its expiry, authenticates as exactly that
    account; and the signup added that one account and touched no other. *)
Theorem signup_login_roundtrip {argon2 : Argon2} {jwt : JwtLib} lib cfg e e' body s resp s' email2 :
  jwt_mode cfg = Local → (∀ n, db_fault e n = None) → (∀ n, db_fault e' n = None) →
  (∀ n m, in_u64 (now e n + token_ttl_secs cfg) ∧ now e' m ≤ now e n + token_ttl_secs cfg) →
  AuthRoutes.signup lib cfg e body s = (Ok resp, s') →
  Accounts.normalize_email email2 = Accounts.normalize_email (su_email body) →
  ∃ u resp2 s2,
    users (acct s') = users (acct s) ++ [u]
    ∧ AuthRoutes.login cfg e {| li_email := email2; li_password := su_password body |} s' = (Ok resp2, s2)
    ∧ up_user_id (profile resp2) = UserRow.id u
    ∧ ∀ tok, tok ∈ [access_token resp; access_token resp2] →
        ∃ s3, AuthRoutes.authenticate lib cfg e' (Some ("Bearer " +:+ tok)) s2
              = (Ok (MetaAccounts.map_user_row u), s3).
Proof.
  intros Hmode Hf Hf' Hclock Hs Hem. apply signup_run in Hs as [u [Hu Hfresh _ _ _ Hemail _ Hplain [salt Hhash] [n Htok]]]; [|done].
  exists u.
  assert (head (select (MetaAccounts.by_id (UserRow.id u)) (users (acct s'))) = Some u) as Hid.
  { rewrite Hu. apply select_new; [by apply bool_decide_true|]. intros r Hr%Hfresh%clash_ids.
    by apply bool_decide_false. }
  assert (head (select (MetaAccounts.by_email (UserRow.email u)) (users (acct s'))) = Some u) as Hmail.
  { rewrite Hu. apply select_new; [by apply bool_decide_true|]. intros r Hr%Hfresh%clash_emails.
    unfold MetaAccounts.by_email. by rewrite eq_ignore_case_sym. }
  assert (∃ resp2 s2 k, AuthRoutes.login cfg e {| li_email := email2; li_password := su_password body |} s' = (Ok resp2, s2)
     ∧ acct s2 = acct s' ∧ up_user_id (profile resp2) = UserRow.id u
     ∧ Jwt.issue_token (now e k) (local_signing_key cfg) (UserRow.id u) (UserRow.email u) (UserRow.tenant_id u)
         (int_bool (UserRow.email_verified u)) (token_ttl_secs cfg) = Ok (access_token resp2))
    as (resp2&s2&k&Hl&Ha&Hp&Htok2).
  { unfold AuthRoutes.login. rewrite Hmode. cbn [Modes.allows_local_issue negb li_email li_password].
    rewrite Hem, <-Hemail. unfold st_bind at 1, or_db_error, or_status, accounts, control. rewrite Hf.
    unfold on_ac, view. cbn [ac]. unfold MetaAccounts.get_user_by_email, MetaAccounts.select_user.
    rewrite Hmail. cbn. unfold UserAccount.is_oauth_only. cbn. rewrite Hplain. cbn.
    unfold Password.verify_password. unfold Password.hash_password in Hhash.
    destruct (bool_decide _); [done|]. destruct (argon2_hash salt (su_password body)) as [h|] eqn:Hh; [|done].
    injection Hhash as <-. rewrite (argon2_accepts _ _ _ Hh). cbn.
    unfold AuthRoutes.build_token_response, st_bind. cbn. unfold JwtService.issue_local. rewrite Hmode. cbn.
    unfold Jwt.issue_token in *. destruct (bool_decide (length _ < 32)%nat); [done|].
    set (k := S (statements s')). set (c := DiskJwtClaims.mk _ _ _ _ _ _ _).
    destruct (jwt_signs (local_signing_key cfg) c) as [tok2 Htok2]. eexists _, _, k.
    fold c. rewrite Htok2. cbn. done. }
  exists resp2, s2. split; [done|]. split; [done|]. split; [done|].
  intros tok Ht. rewrite !elem_of_cons, elem_of_nil in Ht. rewrite <-Ha in Hid.
  destruct Ht as [->|[->|[]]].
  - edestruct (authenticate_token lib cfg e' (now e n)) as (s3&Hs3&_); [done|done|exact Htok|apply (Hclock n O)|apply Hclock|exact Hid|eauto].
  - edestruct (authenticate_token lib cfg e' (now e k)) as (s3&Hs3&_); [done|done|exact Htok2|apply (Hclock k O)|apply Hclock|exact Hid|eauto].
Qed.

(** ** Verification by mail *)
Lemma hex_without c b : ¬ (48 ≤ ascii_code c ≤ 57) → ¬ (97 ≤ ascii_code c ≤ 102) → c ∉ explode (Hex.encode b).
Proof. intros H1 H2 Hc. unfold Hex.encode in Hc. rewrite explode_implode in Hc. apply Hex.chars_of_hex in Hc. tauto. Qed.

Lemma pretty_without (z : Z) c : is_ascii_digit c = false → c ≠ "-"%char → c ∉ explode (pretty z).
Proof. intros Hd Hm [?|?]%Split.pretty_chars; congruence. Qed.

(** An update that keeps what a lookup compares changes the row it finds. *)
Lemma head_select_update {A} (p q : A → bool) f t :
  (∀ r, p (f r) = p r) → head (select p (update q f t)) = (λ r, if q r then f r else r) <$> head (select p t).
Proof.
  intros Hp. unfold select, update. induction t as [|r t IH]; [done|]. simpl.
  replace (p (if q r then f r else r)) with (p r) by (destruct (q r); by rewrite ?Hp).
  destruct (p r); [done|exact IH].
Qed.

Lemma append_assoc a b c : a +:+ b +:+ c = (a +:+ b) +:+ c.
Proof. apply explode_inj. by rewrite !explode_app, (assoc_L (++)). Qed.

Lemma verify_issued lib key uid ttl z z' nonce :
  EmailToken.verify_verification_token lib key z' (EmailToken.issue_verification_token lib key uid ttl z nonce)
  = if bool_decide (as_i64 (z + as_i64 ttl) < z') then Err (BAD_REQUEST, "token expired") else Ok uid.
Proof.
  unfold EmailToken.verify_verification_token, EmailToken.issue_verification_token.
  set (x := as_i64 (z + as_i64 ttl)). set (p := EmailToken.payload uid (Hex.encode nonce) x).
  change (p +:+ "." +:+ ?sig) with (p +:+ String "." sig).
  rewrite Split.rsplit_once_app by (apply hex_without; vm_compute; intuition congruence).
  rewrite bool_decide_true by done. subst p. unfold EmailToken.payload.
  rewrite explode_app, (proj2 (strip_prefix_spec _ _ _) eq_refl), implode_explode.
  change (":" +:+ pretty x) with (String ":" (pretty x)).
  rewrite !append_assoc, Split.rsplit_once_app by (by apply pretty_without).
  rewrite Split.parse_i64_pretty by apply as_i64_range.
  change (uid +:+ ":") with (uid +:+ String ":" ""). rewrite <-append_assoc.
  change (String ":" "" +:+ Hex.encode nonce) with (String ":" (Hex.encode nonce)).
  by rewrite Split.rsplit_once_app by (apply hex_without; vm_compute; intuition congruence).
Qed.

Lemma mark_verified_run {jwt : JwtLib} cfg e' uid s u :
  jwt_mode cfg = Local → (32 ≤ length (local_signing_key cfg))%nat → (∀ n, db_fault e' n = None) →
  head (select (MetaAccounts.by_id uid) (users (acct s))) = Some u →
  ∃ resp s' u', AuthRoutes.mark_verified cfg e' uid s = (Ok resp, s')
    ∧ profile resp = mkProfile uid (UserRow.email u) (UserRow.tenant_id u) true
    ∧ head (select (MetaAccounts.by_id uid) (users (acct s'))) = Some u' ∧ int_bool (UserRow.email_verified u') = true
    ∧ ∀ v, v ∈ users (acct s) → UserRow.id v ≠ uid → v ∈ users (acct s').
Proof.
  intros Hmode Hkey Hf Hu.
  assert (UserRow.id u = uid) as Hid.
  { assert (u ∈ select (MetaAccounts.by_id uid) (users (acct s))) as Hin
      by (destruct (select _ _); [done|injection Hu as ->; left]).
    by apply elem_of_select in Hin as [_ ?%bool_decide_eq_true]. }
  assert (∀ z b, ∃ tok, JwtService.issue_local cfg z (UserRow.id u) (UserRow.email u) (UserRow.tenant_id u) b = Some tok) as Hj.
  { intros z b. unfold JwtService.issue_local, Jwt.issue_token. rewrite Hmode, bool_decide_false by lia. cbn.
    destruct (jwt_signs (local_signing_key cfg) (DiskJwtClaims.mk (UserRow.id u) (UserRow.email u)
      (UserRow.tenant_id u) b (as_u64 (z + token_ttl_secs cfg)) z Jwt.DEFAULT_ISSUER)) as [x ->]. by exists x. }
  destruct (AuthRoutes.mark_verified cfg e' uid s) as [r s'] eqn:Hr. revert Hr.
  unfold AuthRoutes.mark_verified, or_db_error, or_status, accounts, Http.control, st_bind. rewrite Hf.
  unfold on_ac, view. cbn [ac]. unfold MetaAccounts.get_user_by_id, MetaAccounts.select_user. rewrite Hu. cbn.
  unfold AuthRoutes.build_token_response, st_bind, require, read_now.
  destruct (int_bool (UserRow.email_verified u)) eqn:Hver.
  - destruct (Hj (now e' (S (statements s))) true) as [x Hx]. cbn. rewrite Hx. cbn. rewrite Hid. intros [= <- <-].
    eexists _, _, u. split_and!; [done..|]. by intros v Hv _.
  - rewrite Hf. cbn. destruct (Hj (now e' (S (S (statements s)))) true) as [x Hx]. rewrite Hx. cbn. rewrite Hid.
    intros [= <- <-]. eexists _, _, _. split_and!; [done|done| | |].
    + cbn. rewrite head_select_update by done. rewrite Hu. cbn. unfold MetaAccounts.by_id. by rewrite bool_decide_true.
    + done.
    + intros v Hv Hne. apply list_elem_of_fmap. exists v. split; [|done].
      unfold MetaAccounts.by_id. by rewrite bool_decide_false.
Qed.

(** Verification by mail. The token a signup sends out, whatever the
    account's id looks like, is refused as expired after its time, and before
    it marks exactly the account it was issued for as verified. *)
Theorem verification_roundtrip {jwt : JwtLib} lib cfg e e' uid s tok url s1 u :
  jwt_mode cfg = Local → (32 ≤ length (local_signing_key cfg))%nat → (∀ n, db_fault e' n = None) →
  AuthRoutes.deliver_verification lib cfg e uid s = (Ok (Some tok, url), s1) →
  head (select (MetaAccounts.by_id uid) (users (acct s))) = Some u →
  if bool_decide (as_i64 (now e (statements s) + as_i64 (email_ttl_secs cfg)) < now e' (statements s))
  then AuthRoutes.verify_email lib cfg e' tok s = (Err (BAD_REQUEST, "token expired"), s)
  else ∃ resp s' u',
    AuthRoutes.verify_email lib cfg e' tok s = (Ok resp, s')
    ∧ profile resp = mkProfile uid (UserRow.email u) (UserRow.tenant_id u) true
    ∧ head (select (MetaAccounts.by_id uid) (users (acct s'))) = Some u' ∧ int_bool (UserRow.email_verified u') = true
    ∧ ∀ v, v ∈ users (acct s) → UserRow.id v ≠ uid → v ∈ users (acct s').
Proof.
  intros Hmode Hkey Hf Hd Hu.
  assert (email_mode cfg = Stub ∧ tok = EmailToken.issue_verification_token lib (signing_key cfg) uid
            (email_ttl_secs cfg) (now e (statements s)) (take 16 (drop 0 (random e (statements s))))) as [Hm ->].
  { unfold AuthRoutes.deliver_verification in Hd. destruct (email_mode cfg); [done| |done]. by injection Hd as <-. }
  set (tok := EmailToken.issue_verification_token _ _ _ _ _ _).
  pose proof (verify_issued lib (signing_key cfg) uid (email_ttl_secs cfg) (now e (statements s))
                (now e' (statements s)) (take 16 (drop 0 (random e (statements s))))) as Hv. fold tok in Hv.
  assert (AuthRoutes.verify_email lib cfg e' tok s
    = (user_id <~ st_lift (EmailToken.verify_verification_token lib (signing_key cfg) (now e' (statements s)) tok) ;;
       AuthRoutes.mark_verified cfg e' user_id) s) as ->.
  { unfold AuthRoutes.verify_email. by rewrite Hm. }
  unfold st_bind, st_lift. rewrite Hv. case_bool_decide; [done|]. cbv beta iota.
  by apply mark_verified_run.
Qed.

Lemma owner_access e user v s :
  (∀ n, db_fault e n = None) →
  vault_registered (UserAccount.tenant_id user) v (TenantMetaRouter.data (router s)) →
  ∃ s', Access.resolve_vault_access e user v s
        = (Ok (mkResolved (Some (UserAccount.tenant_id user)) AOwner), s').
Proof.
  intros Hf Hv. unfold Access.resolve_vault_access, or_db_error, or_status, billing, control, st_bind. rewrite Hf.
  unfold on_dt, view. cbn [dt]. apply vault_exists_spec in Hv. rewrite Hv. by eexists.
Qed.

(** A plan change leaves the vaults registered. *)
Lemma set_plan_tier_vaults z t tier db : tenant_vaults (MetaBilling.set_plan_tier z t tier db).2 = tenant_vaults db.
Proof.
  unfold MetaBilling.set_plan_tier, MetaBilling.upsert_billing. repeat (cbn; unfold st_bind, query, execute, st_lift, st_err, st_ret).
  repeat case_match; simplify_eq/=; done.
Qed.

(** Anyone can join any tenant. A signup names the tenant it wants to
    be in, or is given the one its address begins with, and nothing asks the
    tenant: the new account is an owner of every vault the tenant has, and
    the tenant's plan, whatever was paid, is set to the free one. *)
Theorem signup_joins_tenant {argon2 : Argon2} {jwt : JwtLib} lib cfg e e' body s resp s' t v :
  jwt_mode cfg = Local → (∀ n, db_fault e n = None) → (∀ n, db_fault e' n = None) →
  (∀ n m, in_u64 (now e n + token_ttl_secs cfg) ∧ now e' m ≤ now e n + token_ttl_secs cfg) →
  AuthRoutes.signup lib cfg e body s = (Ok resp, s') →
  match su_tenant_id body with
  | Some raw => Accounts.sanitize_tenant_slug raw
  | None => Accounts.default_tenant_from_email (Accounts.normalize_email (su_email body))
  end = Some t →
  vault_registered t v (TenantMetaRouter.data (router s)) →
  MetaSyncProps.MetaSyncTheorems.billing_ok (TenantMetaRouter.data (router s)) →
  (∃ user s1 s2,
     AuthRoutes.authenticate lib cfg e' (Some ("Bearer " +:+ access_token resp)) s' = (Ok user, s1)
     ∧ Access.resolve_vault_access e' user v s1 = (Ok (mkResolved (Some t) AOwner), s2))
  ∧ (MetaBilling.get_plan_tier (Some t) PlanTier.Team (TenantMetaRouter.data (router s'))).1 = Ok PlanTier.Free.
Proof.
  intros Hmode Hf Hf' Hclock Hs Ht Hv Hb.
  apply signup_run in Hs as [u [Hu Hfresh _ _ [z Hd] Hemail Hten _ _ [n Htok]]]; [|done].
  assert (UserRow.tenant_id u = t) as Heq by (rewrite Hemail in Hten; destruct (su_tenant_id body); congruence).
  split.
  - edestruct (authenticate_token lib cfg e' (now e n)) as (s1&Hs1&Ha&Hd1);
      [done|done|exact Htok|apply (Hclock n O)|apply Hclock| |].
    { rewrite Hu. apply select_new; [by apply bool_decide_true|]. intros r Hr%Hfresh%clash_ids.
      by apply bool_decide_false. }
    destruct (owner_access e' (MetaAccounts.map_user_row u) v s1 Hf') as [s2 Hs2].
    { cbn. rewrite Hd1, Hd, Heq. unfold vault_registered. rewrite set_plan_tier_vaults. done. }
    cbn in Hs2. rewrite Heq in Hs2. eauto.
  - destruct (MetaSyncProps.MetaSyncTheorems.plan_tier_roundtrip z (Some t) PlanTier.Free PlanTier.Team "" "" _ Hb _
                (or_introl eq_refl)) as (db'&Hset&_&Hget&_).
    rewrite Hd, Heq, Hset. cbn [snd]. by rewrite Hget.
Qed.

(** ** A server to try them on *)
Definition demo_key : bytes := replicate 32 x61.
Definition demo_lib : libs :=
  {| jwks := λ _, None; hmac := λ k m, take 16 (k ++ m); urlencode := λ s, s |}.
Definition demo_cfg : config :=
  {| sync_root := "/srv"; version_blobs := "/srv/.versions"; signing_key := demo_key; jwt_mode := Local;
     local_signing_key := demo_key; token_ttl_secs := 3600; email_mode := Stub; public_base_url := None;
     email_ttl_secs := 86400 |}.
Definition demo_env : env :=
  {| now := λ _, 1000; now_ns := λ _, 1000;
     random := λ n, replicate 64 (default x00 (Byte.of_N (N.of_nat n))); db_fault := λ _, None |}.
Definition demo_state : Http.t :=
  Http.mk empty_accounts (TenantMetaRouter.single (mkControl [] [] ∅) empty_db) ∅ (Fs.mk ∅ ∅ 0) [] 0 0.
Definition demo_body (email : string) (tenant : option string) : SignupRequest :=
  {| su_email := email; su_password := "correct horse"; su_tenant_id := tenant |}.

(** The vault [v] registered for [t], as a first upload does. *)
Definition with_vault (t v : string) (s : Http.t) : Http.t :=
  let r := router s in
  Http.set_router (TenantMetaRouter.mk (TenantMetaRouter.control r)
    (MetaBilling.register_tenant_vault 1 (Some t) v (TenantMetaRouter.data r)).2
    (TenantMetaRouter.tenant_root r) (TenantMetaRouter.shards r) (TenantMetaRouter.disk r)) s.

Abbreviation demo_signup b := (AuthRoutes.signup (argon2:=Toy.argon2) (jwt:=Toy.jwt) demo_lib demo_cfg demo_env b).
Abbreviation demo_bearer r := (Some ("Bearer " +:+ access_token r)).

Lemma signup_login_roundtrip_witness :
  ∃ resp s' u resp2 s2,
    demo_signup (demo_body "Ann@example.org" None) demo_state = (Ok resp, s')
    ∧ users (acct s') = users (acct demo_state) ++ [u]
    ∧ AuthRoutes.login (argon2:=Toy.argon2) (jwt:=Toy.jwt) demo_cfg demo_env
        {| li_email := " ANN@example.org"; li_password := "correct horse" |} s' = (Ok resp2, s2)
    ∧ up_user_id (profile resp2) = UserRow.id u.
Proof.
  destruct (demo_signup (demo_body "Ann@example.org" None) demo_state) as [[resp|x] s'] eqn:Hs.
  2: { apply (f_equal fst) in Hs. vm_compute in Hs. discriminate. }
  edestruct (signup_login_roundtrip (argon2:=Toy.argon2) (jwt:=Toy.jwt) demo_lib demo_cfg demo_env demo_env
    (demo_body "Ann@example.org" None) demo_state resp s' " ANN@example.org") as (u&resp2&s2&Hu&Hl&Hi&_);
    [reflexivity|reflexivity|reflexivity|intros n m; vm_compute; split_and!; congruence|exact Hs|vm_compute; reflexivity|].
  exists resp, s', u, resp2, s2. split_and!; [reflexivity|exact Hu|exact Hl|exact Hi].
Defined.

(** Read within its day, and after it. *)
Definition demo_late : env :=
  {| now := λ _, 90000; now_ns := λ _, 0; random := λ _, []; db_fault := λ _, None |}.

Lemma verification_roundtrip_witness :
  ∃ tok s1, let s := Http.set_acct (AccountsDb.set_users
      (λ _, [UserRow.mk "usr_1" "ann@example.org" "h" "ann" 0 None None 1 1]) empty_accounts) demo_state in
    AuthRoutes.deliver_verification demo_lib demo_cfg demo_env "usr_1" s = (Ok (Some tok, None), s1)
    ∧ (∃ resp s', AuthRoutes.verify_email (jwt:=Toy.jwt) demo_lib demo_cfg demo_env tok s = (Ok resp, s'))
    ∧ AuthRoutes.verify_email (jwt:=Toy.jwt) demo_lib demo_cfg demo_late tok s = (Err (BAD_REQUEST, "token expired"), s).
Proof.
  set (u := UserRow.mk "usr_1" "ann@example.org" "h" "ann" 0 None None 1 1).
  set (s := Http.set_acct (AccountsDb.set_users (λ _, [u]) empty_accounts) demo_state).
  destruct (AuthRoutes.deliver_verification demo_lib demo_cfg demo_env "usr_1" s) as [[[[tok|] [url|]]|x] s1] eqn:Hd;
    try (apply (f_equal fst) in Hd; vm_compute in Hd; discriminate).
  exists tok, s1. split_and!; [exact Hd| |].
  - destruct (verification_roundtrip (jwt:=Toy.jwt) demo_lib demo_cfg demo_env demo_env "usr_1" s tok None s1 u
      eq_refl ltac:(vm_compute; lia) (λ _, eq_refl) Hd eq_refl) as (resp&s'&_&Hr&_). by exists resp, s'.
  - exact (verification_roundtrip (jwt:=Toy.jwt) demo_lib demo_cfg demo_env demo_late "usr_1" s tok None s1 u
      eq_refl ltac:(vm_compute; lia) (λ _, eq_refl) Hd eq_refl).
Defined.

Lemma signup_joins_tenant_witness :
  ∃ resp s' user s1 s2,
    demo_signup (demo_body "mallory@example.org" (Some "acme")) (with_vault "acme" "notes" demo_state) = (Ok resp, s')
    ∧ AuthRoutes.authenticate (jwt:=Toy.jwt) demo_lib demo_cfg demo_env (demo_bearer resp) s' = (Ok user, s1)
    ∧ Access.resolve_vault_access demo_env user "notes" s1 = (Ok (mkResolved (Some "acme") AOwner), s2).
Proof.
  set (s := with_vault "acme" "notes" demo_state).
  destruct (demo_signup (demo_body "mallory@example.org" (Some "acme")) s) as [[resp|x] s'] eqn:Hs.
  2: { apply (f_equal fst) in Hs. vm_compute in Hs. discriminate. }
  edestruct (signup_joins_tenant (argon2:=Toy.argon2) (jwt:=Toy.jwt) demo_lib demo_cfg demo_env demo_env
    (demo_body "mallory@example.org" (Some "acme")) s resp s' "acme" "notes") as ((user&s1&s2&Ha&Hr)&_);
    [reflexivity|reflexivity|reflexivity|intros n m; vm_compute; split_and!; congruence|exact Hs
    |vm_compute; reflexivity|eexists; split; [left|split; reflexivity]|apply NoDup_nil_2|].
  exists resp, s', user, s1, s2. split_and!; [reflexivity|exact Ha|exact Hr].
Defined.
End AccountsTheorems.
