(* ===== verification/OAuthProps.v ===== *)
(** * Theorems on the sign-in through an identity provider

    The state parameter comes back as it was issued and cannot be made without
    the key; a callback binds a provider's identity to one account; a key of
    the provider is used only while its document is fresh; and where an
    unverified e-mail address stands for an account. *)

From stdpp Require Import prelude gmap strings pretty.
From Stdlib Require Import ZArith Lia Strings.Byte Strings.Ascii.
From S2P Require Import Prelude Text PathFacts Types Fs BlobStore Sql MetaDb Billing MetaSync.
From S2P Require Import E2ee Publisher Tenancy SyncService Http Accounts OAuth.
From S2P Require Import Sharing Orgs Compliance AccountsProps AccountsTheorems.

#[local] Open Scope Z_scope.

(** ** Splitting *)
Lemma splitn_cons n c a b : c ∉ a → splitn (S (S n)) c (a ++ c :: b) = implode a :: splitn (S n) c b.
Proof. intros Hc. cbn [splitn]. by rewrite Split.once_spec. Qed.

Lemma once_none c l : c ∉ l → Split.once c l = None.
Proof.
  induction l as [|d l IH]; [done|]. intros [? ?]%not_elem_of_cons. cbn. by rewrite decide_False, IH by congruence.
Qed.

Lemma splitn_last n c a : c ∉ a → splitn (S n) c a = [implode a].
Proof. intros Hc. destruct n; [done|]. cbn. by rewrite once_none. Qed.

(** The parts of a split text, with the separator between them, are the text. *)
Fixpoint joined (c : ascii) (l : list string) : chars :=
  match l with
  | [] => []
  | [a] => explode a
  | a :: l => explode a ++ c :: joined c l
  end.

Lemma splitn_joined n c l : joined c (splitn (S n) c l) = l.
Proof.
  revert l. induction n as [|n IH]; intros l; [apply explode_implode|].
  change (splitn (S (S n)) c l) with (match Split.once c l with Some (a, b) => implode a :: splitn (S n) c b | None => [implode l] end).
  destruct (Split.once c l) as [[a b]|] eqn:Ho; [|apply explode_implode].
  apply Split.once_inv in Ho as [-> _]. specialize (IH b).
  destruct (splitn (S n) c b) as [|x l] eqn:Hs.
  - destruct n; cbn in Hs; [done|]. by destruct (Split.once c b) as [[]|].
  - trans (explode (implode a) ++ c :: joined c (x :: l)); [done|]. by rewrite explode_implode, IH.
Qed.

Lemma from_utf8_str s : bytes_utf8 (Publisher.str_bytes s) = true → from_utf8 (Publisher.str_bytes s) = Some s.
Proof. intros H. unfold from_utf8. rewrite H. by rewrite String.string_of_list_byte_of_string. Qed.

(** ** The state parameter *)
Module OAuthTheorems.
Import Http AccountsDb Keeps Triple AccountsInv AccountsTheorems.AccountsTheorems OAuth.OAuth.

(** What a state the key's owner made says: its fields, the last of them the
    redirect, and the code of all of them. *)
Definition signed_state {b64 : Base64} (lib : libs) (key : bytes) (now : Z) (state : string) (redirect : option string)
    : Prop :=
  ∃ provider nonce exp_text exp payload, let fields := [provider; nonce; exp_text] in
    Split.parse_i64 exp_text = Some exp ∧ now ≤ exp
    ∧ state = payload +:+ "." +:+ Hex.encode (hmac lib key (Publisher.str_bytes payload))
    ∧ match redirect with
      | None => explode payload = joined ":" fields
      | Some u => ∃ enc, explode payload = joined ":" (fields ++ [enc]) ∧ b64_decode enc ≫= from_utf8 = Some u
      end.

Section state.
Context {b64 : Base64} (lib : libs) (key : bytes).

Lemma state_redirect_payload provider nonce x r z :
  ":"%char ∉ explode provider → in_i64 x → (∀ u, r = Some u → bytes_utf8 (Publisher.str_bytes u) = true) →
  state_redirect z (state_payload provider (Hex.encode nonce) x r)
  = if bool_decide (x < z) then bad "state expired" else Ok r.
Proof.
  intros Hp Hx Hu. unfold state_redirect, state_payload.
  assert (":"%char ∉ explode (Hex.encode nonce)) as Hn by (apply hex_without; vm_compute; intuition congruence).
  assert (":"%char ∉ explode (pretty x)) as Hd by (by apply pretty_without).
  destruct r as [u|].
  - replace (explode _) with (joined ":" [provider; Hex.encode nonce; pretty x; b64_encode (Publisher.str_bytes u)])
      by (cbn [joined]; rewrite !explode_app; cbn; rewrite <-!(assoc_L (++)); cbn; by rewrite <-!(assoc_L (++))).
    cbn [joined]. rewrite splitn_cons, splitn_cons, splitn_cons by done. cbn [splitn].
    rewrite !implode_explode, Split.parse_i64_pretty by done. cbn. rewrite b64_decode_encode. cbn.
    rewrite from_utf8_str by auto. done.
  - replace (explode _) with (joined ":" [provider; Hex.encode nonce; pretty x])
      by (cbn [joined]; by rewrite !explode_app).
    cbn [joined]. rewrite splitn_cons, splitn_cons by done. rewrite splitn_last by done.
    rewrite !implode_explode, Split.parse_i64_pretty by done. done.
Qed.

Lemma verify_state_signed z st r : verify_oauth_state lib key z st = Ok r → signed_state lib key z st r.
Proof.
  intros H. unfold verify_oauth_state in H.
  destruct (Split.rsplit_once "." st) as [[p sig]|] eqn:Hs; [|done]. cbn in H.
  case_bool_decide as Hsig; [|done]. unfold state_redirect in H.
  pose proof (splitn_joined 3 ":" (explode p)) as Hj.
  assert (length (splitn 4 ":" (explode p)) ≤ 4)%nat as Hlen.
  { clear. generalize (explode p). intros l. cbn. repeat (case_match; cbn; try lia). }
  destruct (splitn 4 ":" (explode p)) as [|provider [|nonce [|x rest]]]; try done.
  destruct (Split.parse_i64 x) as [n|] eqn:Hn; [|done]. cbn in H. case_bool_decide as Hz; [done|].
  exists provider, nonce, x, n, p. split_and!; [done|lia|..].
  - unfold Split.rsplit_once in Hs. destruct (Split.once _ _) as [[b a]|] eqn:Ho; [|done]. injection Hs as <- <-.
    apply Split.once_inv in Ho as [Ho _]. rewrite <-(implode_explode st), <-(reverse_involutive (explode st)), Ho.
    fold (sign_state lib key (implode (reverse a))). rewrite Hsig, reverse_app, reverse_cons.
    apply explode_inj. by rewrite !explode_app, !explode_implode, <-(assoc_L (++)).
  - destruct rest as [|enc rest]; [injection H as <-; done|].
    destruct (b64_decode enc ≫= from_utf8) as [u|] eqn:Hu; [|done]. injection H as <-.
    destruct rest; [|cbn in Hlen; lia]. by exists enc.
Qed.

(** The state parameter is signed. A state the server issued for a provider
    without a colon is accepted until ten minutes have passed, with the redirect it
    was issued for, and then is expired; and whatever is accepted is a payload with
    the code of the payload under the signing key, whose third field is a time not
    yet past and whose fourth field, if there is one, is the redirect. *)
Theorem oauth_state_authentic :
  (∀ provider redirect nonce now now',
     ":"%char ∉ explode provider → (∀ u, redirect = Some u → bytes_utf8 (Publisher.str_bytes u) = true) →
     in_i64 (now + 600) →
     verify_oauth_state lib key now' (issue_oauth_state lib key provider redirect nonce now)
     = if bool_decide (now + 600 < now') then Err (BAD_REQUEST, "state expired") else Ok redirect)
  ∧ ∀ now state redirect,
     verify_oauth_state lib key now state = Ok redirect →
     signed_state lib key now state redirect.
Proof.
  split.
  - intros provider r nonce z z' Hp Hu Hx. unfold verify_oauth_state, issue_oauth_state.
    rewrite as_i64_id by done. set (p := state_payload _ _ _ _).
    change (p +:+ "." +:+ ?sig) with (p +:+ String "." sig).
    rewrite Split.rsplit_once_app by (apply hex_without; vm_compute; intuition congruence). cbn.
    rewrite bool_decide_true by done. by apply state_redirect_payload.
  - intros z st r. apply verify_state_signed.
Qed.
End state.

(** ** The account of an identity *)
Definition owns (i : OAuthIdentity) (r : UserRow.t) : Prop :=
  UserRow.oauth_provider r = Some (oi_provider i) ∧ UserRow.oauth_subject r = Some (oi_subject i).

Definition profile_of (r : UserRow.t) : UserProfile :=
  mkProfile (UserRow.id r) (UserRow.email r) (UserRow.tenant_id r) (int_bool (UserRow.email_verified r)).

(** A row made for an identity: it has no password, and clashes with none. *)
Definition made_for (i : OAuthIdentity) (r : UserRow.t) (t : list UserRow.t) : Prop :=
  owns i r ∧ UserRow.email r = oi_email i ∧ Accounts.default_tenant_from_email (oi_email i) = Some (UserRow.tenant_id r)
  ∧ UserAccount.is_oauth_only (MetaAccounts.map_user_row r) = true
  ∧ ∀ x, x ∈ t → MetaAccounts.user_clash r x = false.

(** The users [t] as they are after a callback for [i]. *)
Definition grown (i : OAuthIdentity) (t : list UserRow.t) (d : AccountsDb) : Prop :=
  users d = t ∨ ∃ r, users d = t ++ [r] ∧ made_for i r t.

Definition bound (i : OAuthIdentity) (t : list UserRow.t) (resp : AuthTokenResponse) (d : AccountsDb) : Prop :=
  grown i t d ∧ ∃ r, r ∈ users d ∧ owns i r ∧ profile resp = profile_of r.

Lemma triple_catch_accounts {A} P (Q : result A MetaDbError → AccountsDb → Prop) R e (m : Z → adb A) :
  (∀ x d, P d → Q (Err x) d) → (∀ z d, P d → Q (m z d).1 (m z d).2) → triple P (catch (accounts e m)) Q R.
Proof.
  intros Hx Hm s Hs. unfold catch, accounts, control. destruct (db_fault e _); [by apply Hx|].
  specialize (Hm (now e (statements s)) (acct s) Hs). unfold on_ac, view. cbn. by destruct (m _ (acct s)) as [r d].
Qed.

Section login.
Context {jwt : JwtLib} (cfg : config) (e : env) (x : OAuthExchange) (t : list UserRow.t).
Abbreviation i := (identity x).

Lemma keeps_finish P id email tenant v : keeps P (finish_oauth_login cfg e id email tenant v x).
Proof. unfold finish_oauth_login, AuthRoutes.build_token_response. keep. Qed.

Lemma triple_finish (P R : AccountsDb → Prop) (Q : AuthTokenResponse → AccountsDb → Prop) id email tenant v :
  (∀ d, P d → R d) → (∀ resp d, P d → profile resp = mkProfile id email tenant v → Q resp d) →
  triple P (finish_oauth_login cfg e id email tenant v x) Q R.
Proof.
  intros HR HQ s Hs. pose proof (keeps_finish P id email tenant v s Hs) as Hk.
  destruct (finish_oauth_login _ _ _ _ _ _ _ s) as [[resp|y] s'] eqn:Hf; [|by apply HR]. apply HQ; [done|].
  unfold finish_oauth_login in Hf.
  assert (∀ s s', AuthRoutes.build_token_response cfg e id email tenant v s = (Ok resp, s') →
    profile resp = mkProfile id email tenant v) as Hb.
  { intros s1 s2 (n&s3&_&(tok&s4&_&[= <- _])%st_bind_ok)%st_bind_ok. done. }
  destruct (jwt_mode cfg), (ex_access_token x); eauto. by injection Hf as <- _.
Qed.

Lemma triple_find (P R : AccountsDb → Prop) :
  (∀ d, P d → R d) →
  triple P (find_identity e i)
    (λ o d, P d ∧ ∀ u, o = Some u → ∃ r, r ∈ users d ∧ owns i r ∧ MetaAccounts.map_user_row r = u) R.
Proof.
  intros HR. eapply triple_conseq; [apply triple_reads; [apply reads_select|exact HR]|done| |done].
  intros o d [Ho Hd]. split; [done|]. intros u ->. cbn in Ho.
  destruct (head _) as [r|] eqn:Hh; [|done]. injection Ho as <-. exists r.
  assert (r ∈ select (λ r, bool_decide (UserRow.oauth_provider r = Some (oi_provider i))
      && bool_decide (UserRow.oauth_subject r = Some (oi_subject i))) (users d)) as Hr.
  { destruct (select _ _); [done|]. injection Hh as ->. left. }
  apply elem_of_select in Hr as [Hr Hp]. apply andb_true_iff in Hp as [H1%bool_decide_eq_true H2%bool_decide_eq_true].
  done.
Qed.

(** Finding the identity ends the login with its row. *)
Lemma triple_finish_user (P : AccountsDb → Prop) u :
  (∀ d, P d → grown i t d) →
  triple (λ d, P d ∧ ∃ r, r ∈ users d ∧ owns i r ∧ MetaAccounts.map_user_row r = u)
    (finish_user cfg e u x) (bound i t) (grown i t).
Proof.
  intros HP. apply triple_finish; [intros d [Hd _]; auto|].
  intros resp d [Hd (r&Hr&Ho&<-)] Hp. split; [auto|]. by exists r.
Qed.

Lemma insert_user_made tenant buf z d :
  users d = t → Accounts.default_tenant_from_email (oi_email i) = Some tenant →
  match MetaAccounts.create_oauth_user_account
          {| nu_id := Accounts.new_user_id buf; nu_email := oi_email i; nu_tenant_id := tenant;
             nu_oauth_provider := oi_provider i; nu_oauth_subject := oi_subject i;
             nu_email_verified := oi_email_verified i |} Accounts.OAUTH_PASSWORD_SENTINEL z d with
  | (Ok _, d') => ∃ r, users d' = t ++ [r] ∧ made_for i r t
                       ∧ profile_of r = mkProfile (Accounts.new_user_id buf) (oi_email i) tenant (oi_email_verified i)
  | (Err _, d') => users d' = t
  end.
Proof.
  intros <- Ht. unfold MetaAccounts.create_oauth_user_account, MetaAccounts.insert_user.
  destruct (insert_row _ _ _) as [t'|] eqn:Hi; [|done]. cbn.
  eexists. split; [exact (insert_row_inv _ _ _ _ Hi)|].
  unfold profile_of, made_for. cbn. rewrite int_bool_int. split_and!; try done.
  intros y Hy. unfold insert_row in Hi. destruct (existsb _ _) eqn:He; [done|].
  match goal with |- ?c = false => destruct c eqn:Hc; [|done] end.
  apply not_true_iff_false in He. destruct He. apply existsb_exists. exists y. by rewrite <-list_elem_of_In.
Qed.

Lemma triple_create tenant :
  Accounts.default_tenant_from_email (oi_email i) = Some tenant →
  triple (λ d, users d = t) (create_oauth_user cfg e x tenant) (bound i t) (grown i t).
Proof.
  intros Ht. unfold create_oauth_user. apply triple_seq; [keep|by left|intros buf].
  eapply (triple_bind _ _ _ (λ c d, match c with
    | Ok _ => ∃ r, users d = t ++ [r] ∧ made_for i r t
                   ∧ profile_of r = mkProfile (Accounts.new_user_id buf) (oi_email i) tenant (oi_email_verified i)
    | Err _ => users d = t end)).
  { apply triple_catch_accounts; [done|]. intros z d Hd. pose proof (insert_user_made tenant buf z d Hd Ht) as H.
    by destruct (MetaAccounts.create_oauth_user_account _ _ z d) as [[] d']. }
  intros [[]|err].
  - apply triple_seq; [keep|intros d (r&?&?&_); right; eauto|intros _].
    apply triple_seq; [|intros d (r&?&?&_); right; eauto|intros []].
    { unfold AuthRoutes.record_signup_policy_consents. keep. all: apply keeps_accounts; by intros z d. }
    apply triple_finish; [intros d (r&?&?&_); right; eauto|].
    intros resp d (r&Hu&Hm&Hp) Hr. split; [right; eauto|]. exists r. rewrite Hu. split; [set_solver|].
    split; [apply Hm|congruence].
  - destruct (AuthRoutes.is_unique_violation err); [|apply triple_err; by left].
    eapply triple_bind; [apply triple_find; by left|]. intros [u|]; [|apply triple_err; intros d [Hd _]; by left].
    eapply triple_pre; [by apply (triple_finish_user (λ d, users d = t)); left|]. intros d [Hd Hu]. auto.
Qed.

Lemma triple_login :
  triple (λ d, users d = t) (login_or_create_oauth_user cfg e x) (bound i t) (grown i t).
Proof.
  unfold login_or_create_oauth_user. destruct (negb _); [apply triple_err; by left|].
  eapply triple_bind; [apply triple_find; by left|]. intros [u|].
  - eapply triple_pre; [by apply (triple_finish_user (λ d, users d = t)); left|]. intros d [Hd Hu]. auto.
  - apply (triple_pre _ (λ d, users d = t)); [|by intros d []].
    eapply triple_bind; [apply triple_require; by left|]. intros tenant s [Ht Hs]. by apply triple_create.
Qed.
End login.

(** What stands behind an exchange: the server's own state, a token the
    provider gave for the code and the client's secret, and what the provider
    says of that token. *)
Definition vouched {b64 : Base64} (lib : libs) (cfg : config) (idp : Idp) (oauth : OAuthConfig.t) (now : Z)
    (q : OAuthCallbackQuery) (x : OAuthExchange) : Prop :=
  ∃ state redirect id secret uri d tok at' info mail,
    cq_state q = Some state ∧ signed_state lib (signing_key cfg) now state redirect
    ∧ OAuthConfig.client_id oauth = Some id ∧ OAuthConfig.client_secret oauth = Some secret
    ∧ redirect_or oauth redirect = Some uri ∧ OidcClient.fetch_oidc_discovery idp oauth = Ok d
    ∧ post_token idp (OidcClient.token_endpoint d)
        [("grant_type", "authorization_code"); ("code", cq_code q); ("redirect_uri", uri);
         ("client_id", id); ("client_secret", secret)] = Body tok
    ∧ tj_access_token tok = Some at' ∧ get_userinfo idp (OidcClient.userinfo_endpoint d) at' = Body info
    ∧ uj_sub info = Some (oi_subject (identity x)) ∧ uj_email info = Some mail
    ∧ identity x = mkIdentity "auth_arcana" (oi_subject (identity x)) (Accounts.normalize_email mail)
                     (default false (uj_email_verified info))
    ∧ ex_access_token x = Some at'.

Section callback.
Context {b64 : Base64} {jwt : JwtLib} (lib : libs) (cfg : config) (idp : Idp) (oauth : OAuthConfig.t).

Lemma exchange_vouched now q x :
  OAuthConfig.mode oauth = OAuthMode.AuthArcana → callback_exchange lib cfg idp oauth now q = Ok x →
  vouched lib cfg idp oauth now q x.
Proof.
  intros Hm. unfold callback_exchange. rewrite Hm. destruct (cq_state q) as [st|] eqn:Hst; [|done]. cbn.
  destruct (verify_oauth_state _ _ _ _) as [redirect|] eqn:Hv; [|done]. cbn. unfold exchange_auth_arcana_code.
  destruct (OAuthConfig.client_id oauth) as [id|] eqn:Hid; [|done]. cbn.
  destruct (OAuthConfig.client_secret oauth) as [secret|] eqn:Hsec; [|done]. cbn.
  destruct (redirect_or oauth redirect) as [uri|] eqn:Huri; [|done]. cbn.
  destruct (OidcClient.fetch_oidc_discovery idp oauth) as [d|] eqn:Hd; [|done]. cbn.
  destruct (post_token _ _ _) as [| | |tok] eqn:Htok; try done. cbn.
  destruct (tj_access_token tok) as [at'|] eqn:Hat; [|done]. cbn.
  destruct (get_userinfo _ _ _) as [| | |info] eqn:Hi; try done. cbn.
  destruct (uj_sub info) as [sub|] eqn:Hsub; [|done]. cbn. destruct (uj_email info) as [mail|] eqn:Hmail; [|done].
  intros [= <-]. exists st, redirect, id, secret, uri, d, tok, at', info, mail. split_and!; try done. by apply verify_state_signed.
Qed.

(** C39: a callback binds an identity to one account. Whatever fails, the users'
    table is as it was or has one more row, made for the identity the code stands
    for: without a password, and under an id, an address and an identity nobody had.
    A callback that succeeds reports the row of that identity, and no other row has
    it. With an identity provider configured, the state in the request was signed by
    the server and is not expired, and the identity is what the provider says of the
    token it gave for this code and the server's secret. *)
Theorem oauth_callback_binds e q s r s' :
  inv (acct s) → oauth_callback lib cfg idp oauth e q s = (r, s') →
  (users (acct s') = users (acct s)
   ∨ ∃ x row, callback_exchange lib cfg idp oauth (now e (statements s)) q = Ok x
       ∧ users (acct s') = users (acct s) ++ [row] ∧ made_for (identity x) row (users (acct s)))
  ∧ ∀ resp, r = Ok resp →
      ∃ x row, callback_exchange lib cfg idp oauth (now e (statements s)) q = Ok x
        ∧ row ∈ users (acct s') ∧ owns (identity x) row ∧ profile resp = profile_of row
        ∧ (∀ row', row' ∈ users (acct s') → owns (identity x) row' → row' = row)
        ∧ (OAuthConfig.mode oauth = OAuthMode.AuthArcana → vouched lib cfg idp oauth (now e (statements s)) q x).
Proof.
  intros Hi H. assert (inv (acct s')) as Hi'.
  { pose proof (keeps_oauth_callback lib cfg e idp oauth q s Hi) as Hk. by rewrite H in Hk. }
  unfold oauth_callback in H. destruct (negb _); [injection H as <- <-; by split; [left|]|].
  unfold st_bind at 1, read_now in H. cbn in H. unfold st_bind, st_lift in H.
  destruct (callback_exchange _ _ _ _ _ _) as [x|] eqn:Hx; [|injection H as <- <-; by split; [left|]].
  pose proof (triple_login cfg e x (users (acct s)) s eq_refl) as Ht. rewrite H in Ht.
  assert (grown (identity x) (users (acct s)) (acct s')) as Hg by (destruct r; [apply Ht|done]).
  split; [destruct Hg as [?|(row&?&?)]; [by left|right; eauto]|]. intros resp ->.
  destruct Ht as [_ (row&Hr&Ho&Hp)]. exists x, row. split_and!; try done; [|by intros; apply exchange_vouched].
  intros row' Hr' [Ho1 Ho2]. symmetry. destruct Ho as [Hp1 Hp2].
  apply (clash_free_eq MetaAccounts.user_clash (users (acct s'))); [apply user_clash_sym|apply Hi'|done..|].
  unfold MetaAccounts.user_clash. rewrite Ho1, Ho2, Hp1, Hp2. apply orb_true_iff. right.
  apply andb_true_iff. by split; apply bool_decide_eq_true.
Qed.
End callback.

(** ** An address stands for an account *)
Section address.
Context {jwt : JwtLib} (lib : libs) (cfg : config) (e : env) (Hok : ∀ n, db_fault e n = None).

Lemma find_none i s :
  (∀ r, r ∈ users (acct s) → ¬ owns i r) →
  find_identity e i s = (Ok None, put_view (view s) (Http.next s)).
Proof.
  intros Hn. unfold find_identity, or_db_error, or_status, accounts, control. rewrite Hok.
  unfold on_ac, view. cbn -[select].
  rewrite (proj2 (select_nil _ (users (acct s)))); [done|]. intros r Hr. apply not_true_iff_false.
  intros [H1%bool_decide_eq_true H2%bool_decide_eq_true]%andb_true_iff. by apply (Hn r Hr).
Qed.

Lemma create_taken i x tenant row s :
  identity x = i → row ∈ users (acct s) → eq_ignore_ascii_case (oi_email i) (UserRow.email row) = true →
  (∀ r, r ∈ users (acct s) → ¬ owns i r) →
  ∃ s', create_oauth_user cfg e x tenant s = (Err (CONFLICT, "email already registered"), s') ∧ acct s' = acct s.
Proof.
  intros Hi Hr He Hn. unfold create_oauth_user. rewrite Hi. unfold st_bind at 1, draw.
  unfold st_bind at 1, catch at 1, accounts at 1, control. rewrite Hok.
  unfold on_ac, MetaAccounts.create_oauth_user_account, MetaAccounts.insert_user, insert_row. cbn [view ac].
  match goal with |- context [existsb ?p ?l] => assert (existsb p l = true) as -> end.
  { apply existsb_exists. exists row. rewrite <-list_elem_of_In. split; [done|].
    unfold MetaAccounts.user_clash. cbn. rewrite He. by rewrite orb_true_r. }
  cbn -[find_identity view put_view AuthRoutes.is_unique_violation].
  assert (AuthRoutes.is_unique_violation unique_violation = true) as -> by (by vm_compute).
  unfold st_bind. rewrite find_none by (by intros r; apply Hn).
  eexists. split; [reflexivity|]. done.
Qed.

(** The address of an external token is taken for the account, verified or
    not. A login through the provider with a new identity under the address of
    an account that exists is refused and changes no account; yet the same token
    presented as a bearer token is that account, whatever the provider says of the
    address being verified. *)
Theorem external_address_is_account tok sub email verified tenant t row x s :
  Modes.allows_jwks_verify (jwt_mode cfg) = true → trim tok = tok →
  jwks lib tok = Some (mkAccess sub (Some email) verified tenant) →
  head (select (MetaAccounts.by_email email) (users (acct s))) = Some row →
  identity x = mkIdentity "auth_arcana" sub email verified →
  (∀ r, r ∈ users (acct s) → UserRow.id r ≠ sub ∧ ¬ owns (identity x) r) →
  Accounts.validate_email email = true → Accounts.default_tenant_from_email email = Some t →
  (∃ s', login_or_create_oauth_user cfg e x s = (Err (CONFLICT, "email already registered"), s') ∧ acct s' = acct s)
  ∧ ∃ s', AuthRoutes.authenticate lib cfg e (Some ("Bearer " +:+ tok)) s = (Ok (MetaAccounts.map_user_row row), s')
      ∧ acct s' = acct s.
Proof.
  intros Hm Htrim Hj Hrow Hi Hn Hv Ht.
  assert (row ∈ users (acct s) ∧ MetaAccounts.by_email email row = true) as [Hin Hby].
  { apply elem_of_select. destruct (select _ _); [done|]. injection Hrow as ->. left. }
  assert (∀ r, r ∈ users (acct s) → ¬ owns (identity x) r) as Hno by (intros r Hr; apply Hn, Hr). split.
  - unfold login_or_create_oauth_user. rewrite Hi. cbn. rewrite Hv. cbn.
    unfold st_bind. rewrite find_none by (rewrite <-Hi; done). unfold require, st_lift. rewrite Ht. cbn -[view put_view create_oauth_user].
    destruct (create_taken (identity x) x t row (put_view (view s) (Http.next s))) as (s'&->&Ha); try done.
    + rewrite Hi. cbn. rewrite eq_ignore_case_sym. exact Hby.
    + by exists s'.
  - unfold AuthRoutes.authenticate, AuthRoutes.verify_bearer, st_bind. rewrite bearer_token_of by done. cbn.
    unfold JwtService.verify. rewrite Hm, Hj. cbn.
    unfold AuthRoutes.resolve_user_from_access, AuthRoutes.lookup, st_bind, catch, accounts, control.
    rewrite Hok. unfold on_ac, view. cbn -[select].
    rewrite (proj2 (select_nil _ (users (acct s)))) by (intros r Hr; apply bool_decide_eq_false; by apply Hn).
    cbn -[select]. rewrite Hok. cbn -[select].
    rewrite (proj2 (select_nil _ (users (acct s)))).
    + cbn -[select]. rewrite Hok. cbn -[select]. rewrite Hrow. by eexists.
    + intros r Hr. apply not_true_iff_false. intros [H1%bool_decide_eq_true H2%bool_decide_eq_true]%andb_true_iff.
      apply (Hno r Hr). by rewrite Hi.
Qed.
End address.

(** ** The provider's keys *)
Section keys.
Context {Key Alg : Type} (decode_header : string → option (option string * Alg))
  (decode : Alg → string → Key → string → option JwksVerify.OidcAccessClaims) (issuer : string).

(** The check of one token: what a fetch would answer, the readings of the
    clock, the token. *)
Record check := mkCheck {
  ch_fetch : string → Answer (list (option string * option Key));
  ch_now : Z; ch_fetched : Z; ch_after : Z; ch_token : string
}.

Definition verify_token (c : check) : stm (Jwks.t Key) JwksVerify.AccessTokenError VerifiedAccess :=
  JwksVerify.verify_jwks decode_header decode issuer (ch_fetch c) (ch_now c) (ch_fetched c) (ch_after c) (ch_token c).

Definition checked (h : list check) (self : Jwks.t Key) : Jwks.t Key := foldl (λ c k, (verify_token k c).2) self h.

(** A key comes out of the cache as it is, or out of a document just fetched. *)
Lemma decoding_key_cases fetch now fetched after kid (self : Jwks.t Key) r self' :
  Jwks.decoding_key fetch now fetched after kid self = (r, self') →
  (self' = self ∧ ∀ key, r = Ok key →
     ∃ c, Jwks.inner self = Some c ∧ Jwks.keys c !! kid = Some key
       ∧ now - Jwks.fetched_at c ≤ Jwks.ttl self * 1000000000)
  ∨ ∃ ks, Jwks.loaded (fetch (Jwks.uri self)) = Ok ks
      ∧ self' = Jwks.mk (Jwks.uri self) (Jwks.ttl self) (Some (Jwks.mkCached fetched ks))
      ∧ ∀ key, r = Ok key → ks !! kid = Some key ∧ after - fetched ≤ Jwks.ttl self * 1000000000.
Proof.
  unfold Jwks.decoding_key. destruct (Jwks.cached_key now kid self) as [k|] eqn:Hc.
  - intros [= <- <-]. left. split; [done|]. intros key [= <-]. unfold Jwks.cached_key in Hc.
    destruct (Jwks.inner self) as [c|]; [|done]. cbn in Hc. case_bool_decide; [done|]. exists c. split_and!; [done..|lia].
  - unfold st_bind, Jwks.refresh. destruct (Jwks.loaded _) as [ks|x]; intros [= <- <-]; [|by left].
    right. exists ks. split_and!; [done..|]. intros key. unfold Jwks.cached_key. cbn.
    case_bool_decide; [done|]. destruct (ks !! kid); [|done]. intros [= <-]. split; [done|lia].
Qed.

Lemma verify_token_cases c self r self' :
  verify_token c self = (r, self') →
  (self' = self ∧ ∀ a, r ≠ Ok a)
  ∨ ∃ kid alg rk, decode_header (ch_token c) = Some (Some kid, alg)
      ∧ Jwks.decoding_key (ch_fetch c) (ch_now c) (ch_fetched c) (ch_after c) kid self = (rk, self')
      ∧ ∀ a, r = Ok a → ∃ key cl, rk = Ok key ∧ decode alg issuer key (ch_token c) = Some cl
          ∧ a = mkAccess (JwksVerify.cl_sub cl) (JwksVerify.cl_email cl)
                  (default false (JwksVerify.cl_email_verified cl)) (JwksVerify.cl_tenant_id cl).
Proof.
  unfold verify_token, JwksVerify.verify_jwks, st_bind, st_lift.
  destruct (decode_header _) as [[[kid|] alg]|]; cbn; [|intros [= <- <-]; by left..].
  destruct (Jwks.decoding_key _ _ _ _ _ self) as [rk s1] eqn:Hd.
  intros H. right. exists kid, alg, rk. destruct rk as [key|x]; cbn in H; [|by injection H as <- <-].
  destruct (decode alg issuer key (ch_token c)) as [cl|] eqn:Hcl; injection H as <- <-; split_and!; try done.
  intros a [= <-]. by exists key, cl.
Qed.

(** What the cache holds was one document, fetched at its time. *)
Definition origin (h : list check) (u : string) (n : Z) (self : Jwks.t Key) : Prop :=
  Jwks.uri self = u ∧ Jwks.ttl self = n
  ∧ ∀ c, Jwks.inner self = Some c →
      ∃ k, k ∈ h ∧ Jwks.loaded (ch_fetch k u) = Ok (Jwks.keys c) ∧ Jwks.fetched_at c = ch_fetched k.

Lemma verify_token_origin h u n k self : origin h u n self → origin (h ++ [k]) u n (verify_token k self).2.
Proof.
  intros (<-&<-&Ho). destruct (verify_token k self) as [r self'] eqn:Hv. cbn.
  assert (origin (h ++ [k]) (Jwks.uri self) (Jwks.ttl self) self) as Hsame.
  { split_and!; [done..|]. intros c (j&?&?)%Ho. exists j. split; [set_solver|done]. }
  apply verify_token_cases in Hv as [[-> _]|(kid&alg&rk&_&Hd&_)]; [done|].
  apply decoding_key_cases in Hd as [[-> _]|(ks&Hl&->&_)]; [done|].
  split_and!; [done..|]. intros c [= <-]. exists k. split; [set_solver|done].
Qed.

Lemma checked_origin h u n : origin h u n (checked h (Jwks.mk u n None)).
Proof.
  induction h as [|k h IH] using rev_ind; [done|]. unfold checked. rewrite foldl_snoc. by apply verify_token_origin.
Qed.

(** An external token is accepted under a current key of the provider only.
    After any checks, with any answers of the key endpoint, a token that is accepted
    has claims that the token library decoded for the configured issuer, under a key
    which the endpoint listed, with the id the token's header names, in a document
    fetched by this or an earlier check at most the cache's time to live ago; so a
    key the provider withdraws is refused once that time has passed. *)
Theorem jwks_key_current u n h k a :
  ch_now k ≤ ch_fetched k ≤ ch_after k →
  (verify_token k (checked h (Jwks.mk u n None))).1 = Ok a →
  ∃ kid alg key cl j ks,
    decode_header (ch_token k) = Some (Some kid, alg)
    ∧ decode alg issuer key (ch_token k) = Some cl ∧ va_sub a = JwksVerify.cl_sub cl
    ∧ va_email a = JwksVerify.cl_email cl
    ∧ j ∈ h ++ [k] ∧ Jwks.loaded (ch_fetch j u) = Ok ks ∧ ks !! kid = Some key
    ∧ ch_now k - ch_fetched j ≤ n * 1000000000.
Proof.
  intros Ht Ha. destruct (checked_origin h u n) as (Hu&Hn&Ho).
  destruct (verify_token k _) as [r self'] eqn:Hv. cbn in Ha. subst r.
  apply verify_token_cases in Hv as [[_ Hne]|(kid&alg&rk&Hh&Hd&Hok)]; [by destruct (Hne a)|].
  destruct (Hok a eq_refl) as (key&cl&->&Hcl&->).
  apply decoding_key_cases in Hd as [[_ Hk]|(ks&Hl&_&Hk)].
  - destruct (Hk key eq_refl) as (c&Hi&Hkey&Hage). destruct (Ho c Hi) as (j&Hj&Hl&Hf).
    exists kid, alg, key, cl, j, (Jwks.keys c). split_and!; try done; [set_solver|]. rewrite <-Hf, <-Hn. lia.
  - destruct (Hk key eq_refl) as [Hkey Hage]. exists kid, alg, key, cl, k, ks. rewrite Hu in Hl. rewrite Hn in Hage.
    split_and!; try done; [set_solver|lia].
Qed.
End keys.
Arguments check : clear implicits.

(** ** A provider to try them on *)
Definition hex64 : Base64.
Proof.
  refine {| b64_encode := Hex.encode; b64_decode := HexDecode.decode |}.
  - apply HexDecode.decode_encode.
  - intros b. apply hex_without; vm_compute; intuition congruence.
  - intros b. apply hex_without; vm_compute; intuition congruence.
Defined.

Definition demo_oauth : OAuthConfig.t :=
  OAuthConfig.mk OAuthMode.AuthArcana (Some "https://id.example/") (Some "disk") (Some "secret")
    (Some "https://disk.example/cb") None.

Definition demo_idp : Idp := {|
  get_discovery := λ u, if decide (u = "https://id.example/.well-known/openid-configuration")
    then Body {| dj_token_endpoint := Some "https://id.example/token"; dj_userinfo_endpoint := Some "https://id.example/me" |}
    else SendError;
  post_token := λ u f, if decide (("code", "c1") ∈ f)
    then Body {| tj_access_token := Some "at1"; tj_expires_in := Some 60; tj_refresh_token := None |} else StatusError;
  get_userinfo := λ u t, if decide (t = "at1")
    then Body {| uj_sub := Some "s1"; uj_email := Some " Eve@Example.org"; uj_email_verified := None |} else StatusError |}.

Definition demo_start : string :=
  match oauth_start (b64:=hex64) demo_lib demo_cfg demo_oauth demo_env
          {| sq_provider := None; sq_flow := Some "browser"; sq_redirect_uri := Some "https://app.example/" |} demo_state with
  | (Ok r, _) => sr_state r
  | _ => ""
  end.

Abbreviation demo_callback e code s := (oauth_callback (b64:=hex64) (jwt:=Toy.jwt) demo_lib demo_cfg demo_idp demo_oauth e
  {| cq_code := code; cq_state := Some demo_start |} s).

(** The state is good for ten minutes; another code is refused by the provider. *)
Example callback_runs :
  match (demo_callback demo_env "c1" demo_state).1 with Ok x => up_email (profile x) | Err _ => "" end = "eve@example.org"
  ∧ length (users (acct (demo_callback demo_env "c1" demo_state).2)) = 1%nat
  ∧ (demo_callback demo_late "c1" demo_state).1 = Err (BAD_REQUEST, "state expired")
  ∧ (demo_callback demo_env "c2" demo_state).1 = Err (BAD_GATEWAY, "token exchange rejected").
Proof. split_and!; vm_compute; reflexivity. Qed.

(** A provider named with a colon gets a state that is refused. *)
Example colon_breaks_state :
  verify_oauth_state (b64:=hex64) demo_lib demo_key 1000
    (issue_oauth_state (b64:=hex64) demo_lib demo_key "google:work" None (replicate 16 xab) 1000)
  = Err (BAD_REQUEST, "invalid state").
Proof. vm_compute. done. Qed.

(** Redirects are compared by prefix: other hosts pass, with any path. *)
Example redirects_elsewhere :
  validate_browser_redirect "https://evil.example/" = Ok tt
  ∧ validate_browser_redirect "http://localhost.evil.example/" = Ok tt
  ∧ validate_browser_redirect "http://127.0.0.1.evil.example/" = Ok tt.
Proof. vm_compute. done. Qed.

Lemma oauth_callback_binds_witness :
  ∃ resp s' row, demo_callback demo_env "c1" demo_state = (Ok resp, s')
    ∧ row ∈ users (acct s') ∧ profile resp = profile_of row
    ∧ UserRow.oauth_subject row = Some "s1".
Proof.
  destruct (demo_callback demo_env "c1" demo_state) as [r s'] eqn:H.
  destruct (oauth_callback_binds (b64:=hex64) (jwt:=Toy.jwt) demo_lib demo_cfg demo_idp demo_oauth demo_env _
    demo_state r s' inv_empty H) as [_ Hr].
  destruct r as [resp|x]; [|apply (f_equal fst) in H; vm_compute in H; discriminate].
  destruct (Hr resp eq_refl) as (x&row&Hx&Hin&Ho&Hp&_). exists resp, s', row. split_and!; [reflexivity|exact Hin|exact Hp|].
  destruct Ho as [_ Ho]. rewrite Ho. vm_compute in Hx. injection Hx as <-. reflexivity.
Defined.

(** Ann signed up with a password; the provider's token for another identity
    carries her address, not verified. *)
Definition ann_row : UserRow.t := UserRow.mk "usr_1" "ann@example.org" "h" "ann" 0 None None 1 1.
Definition ann_state : Http.t := Http.set_acct (AccountsDb.set_users (λ _, [ann_row]) empty_accounts) demo_state.
Definition dual_cfg : config :=
  {| sync_root := "/srv"; version_blobs := "/srv/.versions"; signing_key := demo_key; jwt_mode := Dual;
     local_signing_key := demo_key; token_ttl_secs := 3600; email_mode := Stub; public_base_url := None;
     email_ttl_secs := 86400 |}.
Definition eve_lib : libs :=
  {| jwks := λ t, if decide (t = "eve") then Some (mkAccess "s9" (Some "ann@example.org") false None) else None;
     hmac := λ k m, take 16 (k ++ m); urlencode := λ s, s |}.

Lemma external_address_is_account_witness :
  ∃ s', AuthRoutes.authenticate (jwt:=Toy.jwt) eve_lib dual_cfg demo_env (Some ("Bearer " +:+ "eve")) ann_state
        = (Ok (MetaAccounts.map_user_row ann_row), s').
Proof.
  destruct (external_address_is_account (jwt:=Toy.jwt) eve_lib dual_cfg demo_env (λ _, eq_refl) "eve" "s9" "ann@example.org"
    false None "ann" ann_row (mkExchange (mkIdentity "auth_arcana" "s9" "ann@example.org" false) (Some "eve") None None)
    ann_state) as [_ (s'&H&_)]; try (vm_compute; reflexivity).
  - intros r ->%list_elem_of_singleton. split; [done|]. by intros [? _].
  - by exists s'.
Defined.

(** A provider whose only key is named [k1], and tokens that name their key. *)
Definition demo_check (t : string) : check string :=
  mkCheck (λ _, Body [(Some "k1", Some "key")]) 0 1 2 t.
Definition demo_header (t : string) : option (option string * unit) := Some (Some t, tt).
Definition demo_decode (_ : unit) (issuer key token : string) : option JwksVerify.OidcAccessClaims :=
  if decide (key = "key") then Some (JwksVerify.mkClaims "s1" None None None) else None.

Lemma jwks_key_current_witness :
  ∃ ks, Jwks.loaded (ch_fetch (demo_check "k1") "https://id.example/keys") = Ok ks ∧ ks !! "k1" = Some "key".
Proof.
  destruct (jwks_key_current demo_header demo_decode "iss" "https://id.example/keys" 300 [] (demo_check "k1")
    (mkAccess "s1" None false None)) as (kid&alg&key&cl&j&ks&Hh&Hd&_&_&Hj&Hl&Hk&_).
  - vm_compute. split; discriminate.
  - vm_compute. reflexivity.
  - apply list_elem_of_singleton in Hj as ->. exists ks. split; [exact Hl|]. injection Hh as <- <-. rewrite Hk.
    unfold demo_decode in Hd. destruct (decide (key = "key")) as [->|]; [reflexivity|discriminate].
Defined.
End OAuthTheorems.
