(* ===== verification/SharingTheorems.v ===== *)
(** * Sharing, organisations and deletion: the theorems

    What the invariant of the account tables means for access to a vault, what
    an invitation gives and when it is lost, who runs an organisation, and what
    deleting an account leaves behind. *)

From stdpp Require Import prelude gmap strings.
From Stdlib Require Import ZArith Lia Strings.Byte Strings.Ascii.
From S2P Require Import Prelude Text Types Fs BlobStore E2ee Sql MetaDb Billing MetaSync Tenancy Http.
From S2P Require Import Accounts OAuth Sharing Orgs Compliance AccountsProps AccountsTheorems.

#[local] Open Scope Z_scope.

Module SharingTheorems.
Import Http AccountsDb Keeps AccountsInv Triple AccountsTheorems.

(** C15: Access to a vault is never out of nothing. In every state reached
    from a new server by requests served one after the other, under any
    configuration and any database failures, a user with an account whose
    request for a vault is admitted either belongs to the tenant the vault is
    registered for, and is its owner there, or holds the role of an invitation
    that this very user redeemed, for this vault of the tenant whose data is
    given, and whose author has an account in that tenant. *)
Theorem access_justified {argon2 : Argon2} {jwt : JwtLib} blake3 s0 s e user v a s' :
  started s0 → rtc (serve blake3) s0 s → known user (acct s) →
  Access.resolve_vault_access e user v s = (Ok a, s') →
  (kind a = AOwner ∧ data_tenant a = Some (UserAccount.tenant_id user)
   ∧ vault_registered (UserAccount.tenant_id user) v (TenantMetaRouter.data (router s)))
  ∨ (kind a ≠ AOwner ∧ ∃ i author,
       i ∈ vault_invites (acct s) ∧ author ∈ users (acct s)
       ∧ InviteRow.redeemed_by i = Some (UserAccount.id user) ∧ InviteRow.vault_id i = v
       ∧ InviteRow.role i = (if decide (kind a = AEditor) then "editor" else "viewer")
       ∧ InviteRow.created_by i = UserRow.id author
       ∧ InviteRow.tenant_id i = Some (UserRow.tenant_id author)
       ∧ data_tenant a = Some (UserRow.tenant_id author)).
Proof.
  intros H0 Hr Hk Ha. pose proof (served_inv blake3 s0 s H0 Hr) as Hi.
  apply resolve_vault_access_inv in Ha as [[-> Hv]|(t&role&Hc&->)]; [by left|right].
  apply collab_row in Hc as (m&Hm&Hu&Hv&Ht&Hrole).
  destruct (inv_members _ Hi m Hm) as (i&Hin&Jt&Jv&Jr&Jb&_&_).
  destruct (inv_authors _ Hi i Hin) as (author&Hau&Hid&Hten).
  split; [by destruct role|]. exists i, author. split_and!; try done; try congruence.
  - rewrite Jr, Hrole. by destruct role.
  - cbn. congruence.
Qed.

(** ** Reading a handler's run backwards *)
Lemma or_status_ok {A} c msg (m : st A) s a s' : or_status c msg m s = (Ok a, s') → m s = (Ok a, s').
Proof. unfold or_status. destruct (m s) as [[x|x] s1]; [by intros [= -> ->]|done]. Qed.

Lemma accounts_ok {A} e (m : Z → adb A) c msg s a s' :
  or_status c msg (accounts e m) s = (Ok a, s') →
  ∃ z, m z (acct s) = (Ok a, acct s') ∧ TenantMetaRouter.data (router s') = TenantMetaRouter.data (router s).
Proof.
  intros Hm%or_status_ok. revert Hm. unfold accounts, control, on_ac, view. destruct (db_fault e _); [done|]. cbn.
  destruct (m _ (acct s)) as [r1 a1] eqn:Hm. intros [= -> <-]. eauto.
Qed.

Lemma reads_ok {A} e (m : adb A) c msg s a s' :
  reads m → or_status c msg (accounts e (λ _, m)) s = (Ok a, s') → (m (acct s)).1 = Ok a ∧ acct s' = acct s.
Proof. intros Hr Hm. apply accounts_ok in Hm as (_&Hm&_). specialize (Hr (acct s)). rewrite Hm in Hr |- *. done. Qed.

Lemma require_ok {A} (o : option A) c msg s a s' : require o c msg s = (Ok a, s') → o = Some a ∧ s' = s.
Proof. unfold require, st_lift. destruct o; cbn; [by intros [= -> ->]|done]. Qed.

Lemma bind_run {E A B} (m : stm Http.t E A) (k : A → stm Http.t E B) s a s1 :
  m s = (Ok a, s1) → st_bind m k s = k a s1.
Proof. intros Hm. unfold st_bind. by rewrite Hm. Qed.

Lemma bind_err {E A B} (m : stm Http.t E A) (k : A → stm Http.t E B) s x s1 :
  m s = (Err x, s1) → st_bind m k s = (Err x, s1).
Proof. intros Hm. unfold st_bind. by rewrite Hm. Qed.

(** The state a statement on the account tables leaves. *)
Definition after (d : AccountsDb) (s : Http.t) : Http.t :=
  put_view (mkCdb d (TenantMetaRouter.control (router s)) (TenantMetaRouter.data (router s))) (next s).

Lemma accounts_at {A} e (m : Z → adb A) c msg s a d :
  db_fault e (statements s) = None → m (now e (statements s)) (acct s) = (Ok a, d) →
  or_status c msg (accounts e m) s = (Ok a, after d s).
Proof. intros Hf Hm. unfold or_status, accounts, control, on_ac, view. rewrite Hf. cbn. by rewrite Hm. Qed.

Lemma accounts_fault {A} e (m : Z → adb A) c msg s x :
  db_fault e (statements s) = Some x → or_status c msg (accounts e m) s = (Err (c, msg), next s).
Proof. intros Hf. unfold or_status, accounts, control. by rewrite Hf. Qed.

(** A call that keeps every property of the tables keeps the tables. *)
Lemma keeps_acct {E A} (m : stm Http.t E A) s r s' : (∀ P, keeps P m) → m s = (r, s') → acct s' = acct s.
Proof. intros Hk Hm. specialize (Hk (λ d, d = acct s) s eq_refl). by rewrite Hm in Hk. Qed.

Lemma authenticate_same {jwt : JwtLib} lib cfg e a s r s' :
  AuthRoutes.authenticate lib cfg e a s = (r, s') → acct s' = acct s.
Proof. apply keeps_acct. intros P. apply keeps_authenticate. Qed.

Lemma authenticate_known {jwt : JwtLib} lib cfg e a s u s' :
  AuthRoutes.authenticate lib cfg e a s = (Ok u, s') → known u (acct s).
Proof.
  intros Ha. pose proof (authenticate_same _ _ _ _ _ _ _ Ha) as Hs.
  pose proof (triple_authenticate (λ _, True) (λ _, True) lib cfg e a (λ _ _, I) s I) as Ht. rewrite Ha in Ht.
  rewrite <-Hs. apply Ht.
Qed.

(** ** Invitations *)
Section invites.
Context (blake3 : bytes → bytes).

(** A token that was redeemed. *)
Definition spent (token : string) (d : AccountsDb) : Prop :=
  ∃ raw vi, SharingRoutes.token_bytes token = Some raw
    ∧ (MetaSharing.get_vault_invite_by_token_hash (blake3 raw) d).1 = Ok (Some vi) ∧ is_Some (vi_redeemed_at vi).

Lemma spent_refused {jwt : JwtLib} lib cfg e a token s r :
  spent token (acct s) → (SharingRoutes.accept_invite blake3 lib cfg e a token s).1 ≠ Ok r.
Proof.
  intros (raw&vi&Hraw&Hg&[x Hx]).
  destruct (SharingRoutes.accept_invite _ _ _ _ _ _ s) as [[r'|] s'] eqn:Ha; [|done]. exfalso. revert Ha.
  unfold SharingRoutes.accept_invite. intros (user&s1&H1&Hk)%st_bind_ok. apply authenticate_same in H1.
  apply st_bind_ok in Hk as (raw'&s2&[Hr ->]%require_ok&Hk). rewrite Hraw in Hr. injection Hr as <-.
  apply st_bind_ok in Hk as (found&s3&Hf&Hk). apply reads_ok in Hf as [Hf _]; [|apply reads_invite].
  rewrite H1, Hg in Hf. injection Hf as <-. cbn in Hk. unfold st_bind in Hk. cbn in Hk. by rewrite Hx in Hk.
Qed.

(** After the update a token names a redeemed row. *)
Lemma redeem_spends token raw vi user z d :
  SharingRoutes.token_bytes token = Some raw →
  (MetaSharing.get_vault_invite_by_token_hash (blake3 raw) d).1 = Ok (Some vi) → vi_redeemed_at vi = None →
  spent token (MetaSharing.redeem_vault_invite (vi_id vi) user z d).2.
Proof.
  intros Hraw Hg Hopen. revert Hg. unfold MetaSharing.get_vault_invite_by_token_hash. cbn [fst].
  destruct (head _) as [row|] eqn:Hh; [|done]. cbn.
  destruct (MetaSharing.invite_from_row row) as [vi'|] eqn:Hvi; [|done]. intros [= ->].
  exists raw, (mkInvite (vi_id vi) (vi_tenant_id vi) (vi_vault_id vi) (vi_role vi) (vi_created_by vi)
                 (vi_expires_at vi) (Some z) (Some user) (vi_created_at vi)).
  split; [done|]. split; [|by eexists]. cbn. rewrite head_select_update by done. rewrite Hh. cbn.
  unfold MetaSharing.invite_from_row in Hvi.
  destruct (MetaSharing.role_of (InviteRow.role row)) as [role|] eqn:Hrole; [|done]. injection Hvi as <-. cbn in *.
  unfold MetaSharing.open_invite. rewrite Hopen, !bool_decide_true by done. cbn.
  unfold MetaSharing.invite_from_row. cbn. by rewrite Hrole.
Qed.

(** What a request that joined did. *)
Lemma accept_invite_run {jwt : JwtLib} lib cfg e a token s r s' :
  SharingRoutes.accept_invite blake3 lib cfg e a token s = (Ok r, s') →
  ∃ user s1 raw vi z1 z2,
    AuthRoutes.authenticate lib cfg e a s = (Ok user, s1) ∧ SharingRoutes.token_bytes token = Some raw
    ∧ (MetaSharing.get_vault_invite_by_token_hash (blake3 raw) (acct s)).1 = Ok (Some vi)
    ∧ vi_redeemed_at vi = None
    ∧ MetaSharing.upsert_vault_member (vi_tenant_id vi) (vi_vault_id vi) (UserAccount.id user) (vi_role vi)
        (vi_created_by vi) z2 (MetaSharing.redeem_vault_invite (vi_id vi) (UserAccount.id user) z1 (acct s)).2
      = (Ok tt, acct s')
    ∧ r = {| ai_vault_id := vi_vault_id vi; ai_tenant_id := default "default" (vi_tenant_id vi); ai_role := vi_role vi |}.
Proof.
  unfold SharingRoutes.accept_invite. intros (user&s1&H1&Hk)%st_bind_ok. pose proof (authenticate_same _ _ _ _ _ _ _ H1) as A1.
  apply st_bind_ok in Hk as (raw&s2&[Hr ->]%require_ok&Hk).
  apply st_bind_ok in Hk as (found&s3&Hf&Hk). apply reads_ok in Hf as [Hf A3]; [|apply reads_invite].
  apply st_bind_ok in Hk as (vi&s4&[-> ->]%require_ok&Hk).
  destruct (vi_redeemed_at vi) eqn:Hopen; [done|].
  apply st_bind_ok in Hk as (z&s5&[= <- <-]&Hk). destruct (bool_decide _); [done|].
  apply st_bind_ok in Hk as (b&s6&(z1&Hred&_)%accounts_ok&Hk). destruct b; [|done]. cbn [negb] in Hk.
  apply st_bind_ok in Hk as ([]&s7&(z2&Hup&_)%accounts_ok&Hk). injection Hk as <- <-.
  exists user, s1, raw, vi, z1, z2. rewrite A3, A1 in Hred. split_and!; [done|done| |done| |done].
  - by rewrite <-A1.
  - by rewrite Hred.
Qed.
End invites.

Definition kind_of (r : VaultShareRole) : VaultAccessKind := match r with Editor => AEditor | Viewer => AViewer end.

(** The row a membership ends up as is the first one found, when no other
    tenant shares a vault of that name with the user. *)
Lemma upsert_found tenant v u role by' z d d' :
  MetaSharing.upsert_vault_member (Some tenant) v u role by' z d = (Ok tt, d') →
  (∀ m, m ∈ vault_members d → MemberRow.user_id m = u → MemberRow.vault_id m = v → MemberRow.tenant_id m = Some tenant) →
  (MetaSharing.get_collaborator_vault_access u v d').1 = Ok (Some (Some tenant, role)).
Proof.
  unfold MetaSharing.upsert_vault_member. destruct (negb _); [done|]. intros [= <-] Hone.
  set (r := MemberRow.mk (Some tenant) v u (MetaSharing.as_str role) (Some by') z).
  set (p := λ m, bool_decide (MemberRow.user_id m = u) && bool_decide (MemberRow.vault_id m = v)).
  unfold MetaSharing.get_collaborator_vault_access. fold p. set (d' := set_members _ d).
  assert (∀ m, m ∈ vault_members d → p m = MetaSharing.member_clash r m) as Hp.
  { intros m Hm. apply eq_true_iff_eq. unfold p, MetaSharing.member_clash, r, uniq_eqb. cbn.
    destruct (MemberRow.tenant_id m) as [t'|] eqn:Ht;
      rewrite ?andb_true_iff, ?bool_decide_eq_true; [|naive_solver].
    specialize (Hone m Hm). rewrite Ht in Hone. naive_solver. }
  assert (head (select p (vault_members d')) = Some r) as ->.
  - change (vault_members d')
      with (if bool_decide (affected (MetaSharing.member_clash r) (vault_members d) = 0)%nat
            then vault_members d ++ [r] else update (MetaSharing.member_clash r) (λ _, r) (vault_members d)).
    assert (p r = true) as Hr by (unfold p; cbn; by rewrite !bool_decide_true). case_bool_decide as Ha.
    + rewrite select_app, (proj2 (select_nil p _)).
      * cbn. by rewrite Hr.
      * intros m Hm. rewrite Hp by done. by apply (proj1 (affected_0 _ _) Ha).
    + clear Hone. clear d'. generalize dependent (vault_members d). intros t Hp Ha. unfold select, update, affected in *.
      induction t as [|m t IH]; [done|]. simpl in *.
      rewrite <-(Hp m) in Ha |- * by left. destruct (p m) eqn:Hm; cbn; [by rewrite Hr|rewrite Hm].
      apply IH; [intros x Hx; apply Hp; by right|done].
  - cbn. by destruct role.
Qed.

(** What an invitation gives. In every reachable state, a user whose
    request redeemed one is from then on given access to its vault with its
    role, in the tenant it was made in, and the token is spent for everyone,
    whatever happens. That is so unless the user's own tenant has a vault of
    the same name: then every access goes to that one and the shared vault
    cannot be reached; or another tenant shares one of that name with the user. *)
Theorem invite_grants {argon2 : Argon2} {jwt : JwtLib} blake3 s0 s lib cfg e e' a token r s' :
  started s0 → rtc (serve blake3) s0 s →
  SharingRoutes.accept_invite blake3 lib cfg e a token s = (Ok r, s') → (∀ n, db_fault e' n = None) →
  ∃ user s1, AuthRoutes.authenticate lib cfg e a s = (Ok user, s1)
    ∧ (let own := Some (UserAccount.tenant_id user) in
       let access := (Access.resolve_vault_access e' user (ai_vault_id r) s').1 in
       (vault_registered (UserAccount.tenant_id user) (ai_vault_id r) (TenantMetaRouter.data (router s')) →
        access = Ok (mkResolved own AOwner))
       ∧ (¬ vault_registered (UserAccount.tenant_id user) (ai_vault_id r) (TenantMetaRouter.data (router s')) →
          (∀ m, m ∈ vault_members (acct s) → MemberRow.user_id m = UserAccount.id user →
             MemberRow.vault_id m = ai_vault_id r → MemberRow.tenant_id m = Some (ai_tenant_id r)) →
          access = Ok (mkResolved (Some (ai_tenant_id r)) (kind_of (ai_role r)))))
    ∧ ∀ lib2 cfg2 e2 a2 x, (SharingRoutes.accept_invite blake3 lib2 cfg2 e2 a2 token s').1 ≠ Ok x.
Proof.
  intros H0 Hr Ha Hf. pose proof (served_inv blake3 s0 s H0 Hr) as Hi.
  apply accept_invite_run in Ha as (user&s1&raw&vi&z1&z2&Hau&Hraw&Hg&Hopen&Hup&->).
  destruct (invite_by_hash_in _ _ _ Hg) as (row&Hrow&Hvi).
  destruct (inv_authors _ Hi row Hrow) as (author&_&_&Hten).
  assert (vi_tenant_id vi = Some (UserRow.tenant_id author)) as Ht.
  { unfold MetaSharing.invite_from_row in Hvi. destruct (MetaSharing.role_of _); [|done]. by injection Hvi as <-. }
  exists user, s1. split; [done|]. cbn [ai_vault_id ai_tenant_id ai_role]. split; [split|].
  - intros Hv. destruct (owner_access e' user (vi_vault_id vi) s' Hf Hv) as [s2 ->]. done.
  - rewrite Ht. cbn. intros Hv Hone. rewrite Ht in Hup. apply upsert_found in Hup; [|exact Hone].
    unfold Access.resolve_vault_access, or_db_error, or_status, billing, accounts, control, st_bind. rewrite !Hf.
    unfold on_dt, on_ac, view. cbn [dt ac].
    destruct (MetaSharing.vault_exists_for_tenant (Some (UserAccount.tenant_id user)) (vi_vault_id vi)
                (TenantMetaRouter.data (router s'))) as [[own|] db] eqn:Hown; [|done].
    assert (db = TenantMetaRouter.data (router s')) as -> by (by injection Hown).
    destruct own; [by apply vault_exists_spec in Hown|]. cbn. rewrite Hf.
    destruct (MetaSharing.get_collaborator_vault_access (UserAccount.id user) (vi_vault_id vi) (acct s')) as [[g|] d].
    2: done. cbn in Hup. injection Hup as ->. cbn. by destruct (vi_role vi).
  - intros lib2 cfg2 e2 a2 x. apply spent_refused. revert Hup. unfold MetaSharing.upsert_vault_member.
    destruct (negb _); [done|]. intros [= <-].
    destruct (redeem_spends blake3 token raw vi (UserAccount.id user) z1 (acct s) Hraw Hg Hopen) as (raw'&vi'&H1&H2&H3).
    by exists raw', vi'.
Qed.

(** An invitation is lost when storing the membership fails. The token
    is marked as redeemed by one statement and the member is added by the
    next, with no transaction around them: when the second one fails, the
    invited user is no member and nobody can use the token again. *)
Theorem invite_lost {jwt : JwtLib} blake3 lib cfg e a token s user s1 raw vi x :
  AuthRoutes.authenticate lib cfg e a s = (Ok user, s1) → SharingRoutes.token_bytes token = Some raw →
  (MetaSharing.get_vault_invite_by_token_hash (blake3 raw) (acct s)).1 = Ok (Some vi) →
  vi_redeemed_at vi = None → ¬ vi_expires_at vi < now e (S (statements s1)) →
  (∀ n, n ≠ (2 + statements s1)%nat → db_fault e n = None) → db_fault e (2 + statements s1) = Some x →
  let '(r, s') := SharingRoutes.accept_invite blake3 lib cfg e a token s in
  r = Err (INTERNAL_SERVER_ERROR, "database error") ∧ vault_members (acct s') = vault_members (acct s)
  ∧ ∀ lib2 cfg2 e2 a2 x2, (SharingRoutes.accept_invite blake3 lib2 cfg2 e2 a2 token s').1 ≠ Ok x2.
Proof.
  intros Hau Hraw Hg Hopen Hexp Hf Hx. pose proof (authenticate_same _ _ _ _ _ _ _ Hau) as A1.
  pose proof (redeem_spends blake3 token raw vi (UserAccount.id user) (now e (S (statements s1))) (acct s) Hraw Hg Hopen) as Hsp.
  assert (0 < affected (MetaSharing.open_invite (vi_id vi)) (vault_invites (acct s)))%nat as Hhit.
  { destruct (invite_by_hash_in _ _ _ Hg) as (row&Hrow&Hvi). unfold MetaSharing.invite_from_row in Hvi.
    destruct (MetaSharing.role_of _); [|done]. injection Hvi as <-. cbn in *.
    destruct (affected _ _) eqn:H0; [|lia]. apply (proj1 (affected_0 _ _)) with (r := row) in H0; [|done].
    unfold MetaSharing.open_invite in H0. by rewrite Hopen, !bool_decide_true in H0. }
  assert (SharingRoutes.accept_invite blake3 lib cfg e a token s
          = (Err (INTERNAL_SERVER_ERROR, "database error"),
             next (after (MetaSharing.redeem_vault_invite (vi_id vi) (UserAccount.id user) (now e (S (statements s1))) (acct s)).2
                     (after (acct s) s1)))) as ->.
  { unfold SharingRoutes.accept_invite, or_db_error. rewrite (bind_run _ _ _ _ _ Hau), Hraw.
    erewrite bind_run by reflexivity.
    erewrite bind_run by (apply accounts_at; [apply Hf; lia|rewrite A1; unfold MetaSharing.get_vault_invite_by_token_hash in *; cbn [fst] in Hg; by rewrite Hg]).
    erewrite bind_run by reflexivity. rewrite Hopen. erewrite bind_run by reflexivity.
    rewrite bool_decide_false by exact Hexp.
    erewrite bind_run by (apply accounts_at; [apply Hf; cbn; lia|unfold MetaSharing.redeem_vault_invite; rewrite bool_decide_true by exact Hhit; reflexivity]).
    cbn [negb]. erewrite bind_err by (eapply accounts_fault; exact Hx). reflexivity. }
  split; [done|]. split; [done|].
  intros lib2 cfg2 e2 a2 x2. by apply spent_refused.
Qed.
(** ** Organisations *)

(** An organisation nobody belongs to. *)
Definition orphan (o : string) (d : AccountsDb) : Prop :=
  (∃ org, org ∈ organizations d ∧ OrgRow.id org = o)
  ∧ ∀ m, m ∈ organization_members d → OrgMemberRow.org_id m ≠ o.

Lemma orphan_same o d d' :
  organizations d' = organizations d → organization_members d' = organization_members d → orphan o d → orphan o d'.
Proof. unfold orphan. by intros -> ->. Qed.

Lemma orphan_no_role o u d r : orphan o d → (MetaOrgs.get_org_member_role o u d).1 ≠ Ok (Some r).
Proof.
  intros [_ Hm]. cbn. set (l := select _ _). destruct l as [|m l'] eqn:Hl; [done|]. exfalso.
  assert (m ∈ l) as Hin by (rewrite Hl; left).
  apply elem_of_select in Hin as [Hin [Ho%bool_decide_eq_true _]%andb_true_iff]. by apply (Hm m).
Qed.

Lemma orphan_add_other o id u role z d : o ≠ id → orphan o d → orphan o (MetaOrgs.add_organization_member id u role z d).2.
Proof.
  intros Hne [Ho Hm]. unfold MetaOrgs.add_organization_member. destruct (negb _); [done|].
  destruct (insert_row _ _ _) as [t|] eqn:Hr; [|done]. split; [done|]. cbn.
  apply insert_row_inv in Hr as ->. intros m [?|Hin]%elem_of_app; [by apply Hm|].
  apply list_elem_of_singleton in Hin as ->. cbn. congruence.
Qed.

Lemma orphan_create o id slug name tenant by' z d d' :
  MetaOrgs.create_organization id slug name tenant by' z d = (Ok tt, d') → orphan o d → orphan o d' ∧ o ≠ id.
Proof.
  unfold MetaOrgs.create_organization. destruct (negb _); [done|].
  destruct (insert_row _ _ _) as [t|] eqn:Hr; [|done]. intros [= <-] [(org&Ho&Hid) Hm].
  pose proof (insert_row_inv _ _ _ _ Hr) as Happ. split.
  - split; [|done]. exists org. split; [|done]. cbn. rewrite Happ. set_solver.
  - intros ->. unfold insert_row in Hr. destruct (existsb _ _) eqn:He; [done|].
    rewrite <-not_true_iff_false in He. apply He, existsb_exists. exists org. rewrite <-list_elem_of_In. split; [done|].
    unfold MetaOrgs.org_clash. cbn. by rewrite Hid, bool_decide_true.
Qed.

Section orphans.
Context {argon2 : Argon2} {jwt : JwtLib} (blake3 : bytes → bytes) (o : string).

Lemma orphan_actor {A} lib cfg e a (k : UserAccount → OrgRole → hm A) Q :
  triple (orphan o) (user <~ AuthRoutes.authenticate lib cfg e a ;;
                     r <~ OrgRoutes.actor_role e o (UserAccount.id user) ;; k user r) Q (orphan o).
Proof.
  apply triple_seq; [keep|done|intros user]. unfold OrgRoutes.actor_role, OrgRoutes.db_err.
  intros s Hs. unfold st_bind, or_status, accounts, control. destruct (db_fault e _); [done|].
  cbn. pose proof (orphan_no_role o (UserAccount.id user) (acct s)) as Hn. cbn in Hn.
  destruct (match head _ with Some r => _ | None => _ end) as [[r|]|]; cbn; [|done..].
  by destruct (Hn r Hs).
Qed.

Lemma orphan_add_member lib cfg e a id email role : keeps (orphan o) (OrgRoutes.add_member lib cfg e a id email role).
Proof.
  destruct (decide (o = id)) as [<-|Hne].
  - apply triple_keeps. apply orphan_actor.
  - unfold OrgRoutes.add_member, OrgRoutes.actor_role, OrgRoutes.db_err. keep.
    all: apply keeps_accounts; intros z d Hd; by apply orphan_add_other.
Qed.

Lemma orphan_create_org lib cfg e a name slug : keeps (orphan o) (OrgRoutes.create_org lib cfg e a name slug).
Proof.
  apply triple_keeps. unfold OrgRoutes.create_org, OrgRoutes.slug_taken, OrgRoutes.db_err.
  apply triple_seq; [keep|done|intros user]. destruct (_ || _); [by apply triple_err|].
  apply triple_seq; [keep|done|intros slug']. apply triple_seq; [keep|done|intros taken].
  destruct taken; [by apply triple_err|].
  apply triple_seq; [keep|done|intros raw]. apply triple_seq; [keep|done|intros now'].
  eapply (triple_bind _ _ _ (λ _ d, orphan o d ∧ o ≠ OrgRoutes.new_org_id raw)).
  - apply triple_accounts; [done|]. intros z d Hd.
    destruct (MetaOrgs.create_organization _ _ _ _ _ _ d) as [[[]|] d'] eqn:Hc;
      [exact (orphan_create _ _ _ _ _ _ _ _ _ Hc Hd)|].
    unfold MetaOrgs.create_organization in Hc. destruct (negb _); [by simplify_eq|].
    destruct (insert_row _ _ _); by simplify_eq.
  - intros []. apply (triple_bind _ _ _ (λ _, orphan o)); [|intros []; apply triple_keeps, keeps_ret].
    apply triple_accounts; [by intros d []|]. intros z d [Hd Hne].
    pose proof (orphan_add_other o (OrgRoutes.new_org_id raw) (UserAccount.id user) Owner now' d Hne Hd).
    by destruct (MetaOrgs.add_organization_member _ _ _ _ d) as [[]].
Qed.

(** The other handlers leave both tables alone. *)
Lemma orphan_statement {A} e (m : Z → cdb A) :
  (∀ z d, organizations (ac (m z d).2) = organizations (ac d)
          ∧ organization_members (ac (m z d).2) = organization_members (ac d)) →
  keeps (orphan o) (control e m).
Proof. intros Hm. apply keeps_control. intros z d. destruct (Hm z d). by apply orphan_same. Qed.

Lemma orphan_handle lib cfg e r s : orphan o (acct s) → orphan o (acct (handle blake3 lib cfg e r s)).
Proof.
  intros Hs. destruct r; cbn [handle].
  9: by apply orphan_create_org.
  9: by apply orphan_add_member.
  all: revert s Hs; match goal with |- ∀ s, _ → orphan _ (acct (?m s).2) => change (keeps (orphan o) m) end.
  all: unfold AuthRoutes.signup, AuthRoutes.signup_tenant, AuthRoutes.create_account,
    AuthRoutes.record_signup_policy_consents, AuthRoutes.build_token_response, AuthRoutes.deliver_verification,
    AuthRoutes.login, AuthRoutes.verify_email, AuthRoutes.mark_verified, AuthRoutes.build_token_response,
    AuthRoutes.put_telemetry, AuthRoutes.put_onboarding, SharingRoutes.create_invite, SharingRoutes.accept_invite,
    SharingRoutes.remove_member, OrgRoutes.get_org_context, OrgRoutes.put_org_context, OrgRoutes.build_org_context,
    OrgRoutes.actor_role, OrgRoutes.db_err, ComplianceRoutes.delete_account, OAuth.oauth_callback,
    OAuth.login_or_create_oauth_user, OAuth.find_identity, OAuth.create_oauth_user, OAuth.finish_user,
    OAuth.finish_oauth_login, AuthRoutes.record_signup_policy_consents, AuthRoutes.build_token_response,
    OAuth.refresh_token_inner, AuthRoutes.resolve_user_from_access, AuthRoutes.lookup.
  all: keep.
  all: apply orphan_statement; intros z d; unfold on_ac, MetaAccounts.create_user_account,
    MetaAccounts.create_oauth_user_account, MetaAccounts.insert_user,
    MetaSharing.insert_vault_invite, MetaSharing.upsert_vault_member, MetaOrgs.set_user_org_context,
    MetaCompliance.delete_user_by_id; first [done|repeat case_match; simplify_eq; done].
Qed.

Lemma orphan_forever s s' : orphan o (acct s) → rtc (serve blake3) s s' → orphan o (acct s').
Proof.
  intros Hs Hr. induction Hr as [|s s1 s2 Hstep _ IH]; [done|]. apply IH.
  destruct Hstep as [lib cfg e r|s' Heq]; [by apply orphan_handle|by rewrite Heq].
Qed.
End orphans.

Lemma orphan_refused {jwt : JwtLib} {A} o lib cfg e a (k : UserAccount → OrgRole → hm A) s y :
  orphan o (acct s) →
  ((user <~ AuthRoutes.authenticate lib cfg e a ;;
    r <~ OrgRoutes.actor_role e o (UserAccount.id user) ;; k user r) s).1 ≠ Ok y.
Proof.
  intros Ho. pose proof (orphan_actor o lib cfg e a k (λ _ _, False) s Ho) as Ht.
  by destruct (st_bind _ _ s) as [[z|] s'].
Qed.

(** A new organisation has no members: members belong to one that exists. *)
Lemma known_create id slug name tenant by' z d :
  inv d → (∃ u, u ∈ users d ∧ UserRow.id u = by') →
  (∀ r, r ∈ organizations d → MetaOrgs.org_clash (OrgRow.mk id slug name tenant by' z z) r = false) →
  let '(r, d') := MetaOrgs.create_organization id slug name tenant by' z d in r = Ok tt ∧ orphan id d'.
Proof.
  intros Hi (u&Hu&Hid) Hfree. unfold MetaOrgs.create_organization.
  assert (user_exists by' d = true) as ->.
  { apply existsb_exists. exists u. rewrite <-list_elem_of_In, bool_decide_eq_true. done. }
  cbn [negb]. unfold insert_row. destruct (existsb _ _) eqn:He.
  { apply existsb_exists in He as (r&Hin&Hcl). rewrite <-list_elem_of_In in Hin. by rewrite Hfree in Hcl. }
  split; [done|]. split.
  - eexists. split; [cbn; apply elem_of_app; right; left|done].
  - cbn. intros m Hm Heq. destruct (inv_org_rows _ Hi m Hm) as (_&o&Ho&Hoid&_). specialize (Hfree o Ho).
    unfold MetaOrgs.org_clash in Hfree. cbn in Hfree. rewrite bool_decide_true in Hfree by congruence. done.
Qed.

(** An organisation without an owner. Creating one takes two statements
    and no transaction; when the second fails, the organisation is there and
    nobody belongs to it, for as long as the server runs: whatever requests
    come, nobody is ever added to it, and its name stays taken. *)
Theorem org_without_owner {argon2 : Argon2} {jwt : JwtLib} blake3 s0 s lib cfg e a name slug0 slug user s1 x :
  started s0 → rtc (serve blake3) s0 s →
  AuthRoutes.authenticate lib cfg e a s = (Ok user, s1) → trim name ≠ "" → str_len (trim name) ≤ 128 →
  Accounts.sanitize_tenant_slug (trim slug0) = Some slug →
  let id := OrgRoutes.new_org_id (take 8 (drop 0 (random e (S (statements s1))))) in
  (∀ r, r ∈ organizations (acct s) →
     MetaOrgs.org_clash (OrgRow.mk id slug (trim name) slug (UserAccount.id user) 0 0) r = false) →
  (∀ n, n ≠ (2 + statements s1)%nat → db_fault e n = None) → db_fault e (2 + statements s1) = Some x →
  let '(r, s') := OrgRoutes.create_org lib cfg e a name slug0 s in
  r = Err (INTERNAL_SERVER_ERROR, "db error")
  ∧ ∀ s2, rtc (serve blake3) s' s2 →
      orphan id (acct s2)
      ∧ (∀ lib2 cfg2 e2 a2 email role y, (OrgRoutes.add_member lib2 cfg2 e2 a2 id email role s2).1 ≠ Ok y)
      ∧ ∀ lib2 cfg2 e2 a2 y, (OrgRoutes.list_org_members lib2 cfg2 e2 a2 id s2).1 ≠ Ok y.
Proof.
  intros H0 Hr Hau Hn Hlen Hslug id Hfree Hf Hx. pose proof (served_inv blake3 s0 s H0 Hr) as Hi.
  pose proof (authenticate_same _ _ _ _ _ _ _ Hau) as A1.
  destruct (authenticate_known _ _ _ _ _ _ _ Hau) as (row&Hrow&<-).
  set (d := (MetaOrgs.create_organization id slug (trim name) slug (UserRow.id row) (now e (S (statements s1))) (acct s)).2).
  assert (MetaOrgs.create_organization id slug (trim name) slug (UserRow.id row) (now e (S (statements s1))) (acct s) = (Ok tt, d)
          ∧ orphan id d) as [Hc Horph].
  { pose proof (known_create id slug (trim name) slug (UserRow.id row) (now e (S (statements s1))) (acct s) Hi
      (ex_intro _ row (conj Hrow eq_refl)) Hfree) as Hk. unfold d.
    destruct (MetaOrgs.create_organization _ _ _ _ _ _ _) as [r' d']. destruct Hk as [-> ?]. done. }
  assert (OrgRoutes.create_org lib cfg e a name slug0 s
          = (Err (INTERNAL_SERVER_ERROR, "db error"), next (after d (after (acct s) s1)))) as ->.
  { unfold OrgRoutes.create_org. rewrite (bind_run _ _ _ _ _ Hau).
    rewrite (bool_decide_false (trim name = "")), bool_decide_false by (done || lia). cbn [orb].
    rewrite Hslug. erewrite bind_run by reflexivity.
    assert (OrgRoutes.slug_taken e slug s1 = (Ok false, after (acct s) s1)) as Hslug'.
    { unfold OrgRoutes.slug_taken, st_bind, catch, accounts, control. rewrite Hf by lia. unfold on_ac, view. cbn.
      rewrite A1. destruct (existsb _ _) eqn:He; [|done]. exfalso.
      apply existsb_exists in He as (r'&Hin&Heq). rewrite <-list_elem_of_In in Hin. specialize (Hfree r' Hin).
      unfold MetaOrgs.org_clash in Hfree. cbn in Hfree. rewrite eq_ignore_case_sym, Heq in Hfree.
      by rewrite orb_true_r in Hfree. }
    rewrite (bind_run _ _ _ _ _ Hslug'). erewrite bind_run by reflexivity. erewrite bind_run by reflexivity.
    erewrite bind_run by (apply accounts_at; [apply Hf; cbn; lia|exact Hc]).
    erewrite bind_err by (eapply accounts_fault; exact Hx). reflexivity. }
  split; [done|]. intros s2 Hs2. assert (orphan id (acct s2)) as Hd by exact (orphan_forever blake3 id (next (after d (after (acct s) s1))) s2 Horph Hs2).
  split; [done|]. split; intros lib2 cfg2 e2 a2.
  - intros email role y. by apply orphan_refused.
  - intros y. by apply orphan_refused.
Qed.
(** Who runs an organisation. In every reachable state an organisation
    has at most one owner, who created it; and a member is added only by its
    owner or an admin, never as an owner, leaving every other membership as
    it was. *)
Theorem org_roles_sound {argon2 : Argon2} {jwt : JwtLib} blake3 s0 s :
  started s0 → rtc (serve blake3) s0 s →
  (∀ o m m', o ∈ organizations (acct s) → m ∈ organization_members (acct s) → m' ∈ organization_members (acct s) →
     OrgMemberRow.org_id m = OrgRow.id o → OrgMemberRow.org_id m' = OrgRow.id o →
     MetaOrgs.parse (OrgMemberRow.role m) = Some Owner → MetaOrgs.parse (OrgMemberRow.role m') = Some Owner →
     m = m' ∧ OrgMemberRow.user_id m = OrgRow.created_by o)
  ∧ ∀ lib cfg e a id email role0 target role s',
      OrgRoutes.add_member lib cfg e a id email role0 s = (Ok (target, role), s') →
      ∃ user s1 actor z, AuthRoutes.authenticate lib cfg e a s = (Ok user, s1)
        ∧ (MetaOrgs.get_org_member_role id (UserAccount.id user) (acct s)).1 = Ok (Some actor)
        ∧ (actor = Owner ∨ actor = Admin) ∧ role ≠ Owner
        ∧ organization_members (acct s')
          = organization_members (acct s) ++ [OrgMemberRow.mk id target (MetaOrgs.as_str role) z].
Proof.
  intros H0 Hr. pose proof (served_inv blake3 s0 s H0 Hr) as Hi. split.
  - intros o m m' Ho Hm Hm' Hid Hid' Hro Hro'.
    assert (∀ x, x ∈ organization_members (acct s) → OrgMemberRow.org_id x = OrgRow.id o →
              MetaOrgs.parse (OrgMemberRow.role x) = Some Owner → OrgMemberRow.user_id x = OrgRow.created_by o) as Hby.
    { intros x Hx Hxid Hxo. destruct (inv_org_rows _ Hi x Hx) as (_&o'&Ho'&Hoid&Hc). rewrite Hc by done.
      enough (o' = o) as -> by done. eapply clash_free_eq; [apply org_clash_sym|apply (inv_orgs _ Hi)|done|done|].
      unfold MetaOrgs.org_clash. by rewrite bool_decide_true by congruence. }
    split; [|by apply Hby].
    eapply clash_free_eq; [apply org_member_clash_sym|apply (inv_org_members _ Hi)|done|done|].
    unfold MetaOrgs.org_member_clash. rewrite !bool_decide_true; [done| |congruence].
    rewrite (Hby m), (Hby m'); done.
  - intros lib cfg e a id email role0 target role s'. unfold OrgRoutes.add_member, OrgRoutes.actor_role.
    intros (user&s1&Hau&Hk)%st_bind_ok. pose proof (authenticate_same _ _ _ _ _ _ _ Hau) as A1.
    apply st_bind_ok in Hk as (actor&s2&Hac&Hk). apply st_bind_ok in Hac as (ro&s3&Hac&[-> ->]%require_ok).
    apply reads_ok in Hac as [Hac A3]; [|apply reads_role].
    destruct (MetaOrgs.can_manage_members actor) eqn:Hcan; [|done]. cbn [negb] in Hk.
    assert (∃ z s5, role ≠ Owner ∧ acct s5 = acct s
      ∧ MetaOrgs.add_organization_member id target role z (acct s5) = (Ok tt, acct s')) as (z&s5&Hne&A5&Hadd).
    { destruct (MetaOrgs.parse (trim role0)) as [[]|]; try done.
      all: apply st_bind_ok in Hk as (found&s4&Hfo&Hk); apply keeps_acct in Hfo; [|intros P; unfold OrgRoutes.db_err; keep].
      all: apply st_bind_ok in Hk as (t&s6&[-> ->]%require_ok&Hk).
      all: apply st_bind_ok in Hk as (ex&s7&Hex&Hk); apply keeps_acct in Hex; [|intros P; keep].
      all: destruct ex as [[]|]; try done.
      all: apply st_bind_ok in Hk as (z&s8&[= <- <-]&Hk); apply st_bind_ok in Hk as ([]&s9&(z'&Hadd&_)%accounts_ok&[= <- <- <-]).
      all: eexists _, s7; split; [done|]; split; [congruence|exact Hadd]. }
    exists user, s1, actor, z. split; [done|]. split; [by rewrite <-A1|].
    split; [by destruct actor; auto|]. split; [done|].
    unfold MetaOrgs.add_organization_member in Hadd. destruct (negb _); [done|].
    destruct (insert_row _ _ _) as [t|] eqn:Hins; [|done]. injection Hadd as Hadd. rewrite <-Hadd. cbn.
    apply insert_row_inv in Hins as ->. by rewrite A5.
Qed.
(** ** Deleting an account *)
Lemma control_ok {A} e (m : Z → cdb A) c msg s a s' :
  or_status c msg (control e m) s = (Ok a, s') →
  ∃ z d, m z (view s) = (Ok a, d) ∧ acct s' = ac d ∧ TenantMetaRouter.data (router s') = dt d
    ∧ TenantMetaRouter.disk (router s') = TenantMetaRouter.disk (router s).
Proof.
  intros Hm%or_status_ok. revert Hm. unfold control. destruct (db_fault e _); [done|].
  destruct (m _ (view s)) as [r1 d] eqn:Hm. intros [= -> <-]. by eexists _, d.
Qed.

(** A statement that succeeds on the tables it finds runs, or a fault stops it. *)
Lemma accounts_cases {A} e (m : Z → adb A) c msg s a d :
  m (now e (statements s)) (acct s) = (Ok a, d) →
  (¬ (∀ n, db_fault e n = None) ∧ or_status c msg (accounts e m) s = (Err (c, msg), next s))
  ∨ or_status c msg (accounts e m) s = (Ok a, after d s).
Proof.
  intros Hm. destruct (db_fault e (statements s)) as [x|] eqn:Hx; [left|right; by apply accounts_at].
  split; [|by eapply accounts_fault]. intros Hf. by rewrite Hf in Hx.
Qed.

Lemma refers_invite i id d :
  i ∈ vault_invites (ac d) → InviteRow.created_by i = id → MetaCompliance.refers_to_user id d = true.
Proof.
  intros Hi Hid. unfold MetaCompliance.refers_to_user. rewrite !orb_true_iff. do 5 left.
  apply existsb_exists. exists i. rewrite <-list_elem_of_In, bool_decide_eq_true. done.
Qed.

Lemma delete_referred i id d :
  i ∈ vault_invites (ac d) → InviteRow.created_by i = id → (∃ u, u ∈ users (ac d) ∧ UserRow.id u = id) →
  MetaCompliance.delete_user_by_id id d = (Err MetaSharing.foreign_key_violation, d).
Proof.
  intros Hi Hid (u&Hu&Huid). unfold MetaCompliance.delete_user_by_id.
  rewrite (refers_invite i id d Hi Hid), andb_true_r, bool_decide_true; [done|].
  destruct (affected _ _) eqn:Ha; [|lia]. pose proof (proj1 (affected_0 _ _) Ha u Hu) as Hf.
  unfold MetaAccounts.by_id in Hf. by rewrite bool_decide_true in Hf.
Qed.

(** A user who ever made an invitation cannot be deleted. The row in the
    invitations refers to the account, nothing removes it, and the deletion
    runs against the foreign key: whatever else happens, no request deletes
    such an account; but before it fails, the user's consent records are gone. *)
Theorem delete_account_blocked {jwt : JwtLib} lib cfg e a confirm s user s1 i :
  AuthRoutes.authenticate lib cfg e a s = (Ok user, s1) →
  i ∈ vault_invites (acct s) → InviteRow.created_by i = UserAccount.id user →
  let '(r, s') := ComplianceRoutes.delete_account lib cfg e a confirm s in
  (∀ x, r ≠ Ok x) ∧ users (acct s') = users (acct s)
  ∧ ((∀ n, db_fault e n = None) → Accounts.normalize_email confirm = UserAccount.email user →
     r = Err (INTERNAL_SERVER_ERROR, "database error")
     ∧ ∀ c, c ∈ consent_events (acct s') → ConsentRow.user_id c ≠ UserAccount.id user).
Proof.
  intros Hau Hin Hby. pose proof (authenticate_same _ _ _ _ _ _ _ Hau) as A1.
  destruct (authenticate_known _ _ _ _ _ _ _ Hau) as (row&Hrow&Hmap).
  assert (∀ d, i ∈ vault_invites (ac d) → users (ac d) = users (acct s) →
    MetaCompliance.delete_user_by_id (UserAccount.id user) d = (Err MetaSharing.foreign_key_violation, d)) as Hdel.
  { intros d Hi Hu. eapply delete_referred; [exact Hi|done|]. exists row. rewrite Hu. by rewrite <-Hmap. }
  unfold ComplianceRoutes.delete_account. rewrite (bind_run _ _ _ _ _ Hau).
  destruct (bool_decide (Accounts.normalize_email confirm = UserAccount.email user)) eqn:Hc; cbn [negb].
  2: { split; [done|]. split; [by rewrite A1|]. intros _ Hm. by rewrite bool_decide_true in Hc. }
  clear Hc. unfold or_db_error.
  destruct (accounts_cases e (λ _, MetaConsent.delete_consent_events_for_user (UserAccount.id user))
    INTERNAL_SERVER_ERROR "database error" s1 tt _ eq_refl) as [[Hf H2]|H2].
  { rewrite (bind_err _ _ _ _ _ H2). split; [done|]. split; [cbn; by rewrite A1|]. by intros ?. }
  rewrite (bind_run _ _ _ _ _ H2). clear H2. set (s2 := after _ s1).
  destruct (accounts_cases e (λ _, MetaTelemetry.delete_user_telemetry (UserAccount.id user))
    INTERNAL_SERVER_ERROR "database error" s2 tt _ eq_refl) as [[Hf H3]|H3].
  { rewrite (bind_err _ _ _ _ _ H3). split; [done|]. split; [cbn; by rewrite A1|]. by intros ?. }
  rewrite (bind_run _ _ _ _ _ H3). clear H3. set (s3 := after _ s2).
  assert (or_status INTERNAL_SERVER_ERROR "database error"
            (control e (λ _, MetaCompliance.delete_user_by_id (UserAccount.id user))) s3
          = (Err (INTERNAL_SERVER_ERROR, "database error"), 
             if decide (db_fault e (statements s3) = None) then put_view (view (next s3)) (next s3) else next s3)) as H4.
  { unfold or_status, control. destruct (db_fault e (statements s3)); [done|]. rewrite Hdel; [done| |].
    - cbn. by rewrite A1.
    - cbn. by rewrite A1. }
  rewrite (bind_err _ _ _ _ _ H4). split; [done|]. split; [|intros Hf _; split; [done|]].
  - destruct (decide _); cbn; by rewrite A1.
  - intros c Hcin. assert (c ∈ consent_events (acct s3)) as Hcin3 by (destruct (decide _); exact Hcin).
    cbn in Hcin3. apply elem_of_delete_where in Hcin3 as [_ Hb].
    by apply bool_decide_eq_false in Hb.
Qed.

(** Erasing a tenant misses its shard. When the last account of a tenant
    is deleted, the rows of the tenant in the control file go, but the
    handler runs on the control file only: in a split deployment, where the
    tenant's files, versions and conflicts are in a file of their own, not a
    byte of that changes; and snapshots stay in either one. *)
Theorem purge_misses_shards {jwt : JwtLib} lib cfg e a confirm s user s1 r s' :
  AuthRoutes.authenticate lib cfg e a s = (Ok user, s1) →
  ComplianceRoutes.delete_account lib cfg e a confirm s = (Ok r, s') → da_tenant_purged r = true →
  (∀ f, f ∈ files (TenantMetaRouter.data (router s')) → FileRow.tenant_id f ≠ Some (UserAccount.tenant_id user))
  ∧ TenantMetaRouter.disk (router s') = TenantMetaRouter.disk (router s1)
  ∧ vault_snapshots (TenantMetaRouter.data (router s')) = vault_snapshots (TenantMetaRouter.data (router s1))
  ∧ vault_snapshot_files (TenantMetaRouter.data (router s')) = vault_snapshot_files (TenantMetaRouter.data (router s1)).
Proof.
  intros Hau Hd Hp. unfold ComplianceRoutes.delete_account in Hd. rewrite (bind_run _ _ _ _ _ Hau) in Hd.
  destruct (bool_decide _); [|done]. cbn [negb] in Hd.
  apply st_bind_ok in Hd as ([]&s2&(?&?&H2&_&D2&K2)%control_ok&Hd).
  apply st_bind_ok in Hd as ([]&s3&(?&?&H3&_&D3&K3)%control_ok&Hd).
  apply st_bind_ok in Hd as (b&s4&(?&?&H4&_&D4&K4)%control_ok&Hd). destruct b; [|done]. cbn [negb] in Hd.
  apply st_bind_ok in Hd as (n&s5&(?&?&H5&_&D5&K5)%control_ok&Hd).
  destruct (bool_decide _); [|by injection Hd as <- _].
  apply st_bind_ok in Hd as ([]&s6&(?&?&H6&_&D6&K6)%control_ok&Hd). injection Hd as <- <-.
  injection H2 as <-. injection H3 as <-. injection H5 as _ <-. injection H6 as <-. cbn in *.
  assert (dt x4 = TenantMetaRouter.data (router s3)) as E4.
  { unfold MetaCompliance.delete_user_by_id in H4. destruct (_ && _); [done|]. by injection H4 as _ <-. }
  rewrite D6, D5, D4, E4, D3, D2. split_and!; [|congruence|done|done].
  intros f Hf. cbn in Hf. apply elem_of_delete_where in Hf as [_ Hb]. intros Ht.
  unfold MetaCompliance.of_tenant, compose in Hb. rewrite Ht in Hb. unfold is_eqb in Hb.
  by rewrite bool_decide_true in Hb.
Qed.
(** ** A run to try them on

    Ann signs up, her vault is registered, she makes an invitation; Bob signs
    up. *)
#[local] Existing Instance Toy.argon2.
#[local] Existing Instance Toy.jwt.
#[local] Abbreviation hash := (λ b : bytes, b).
#[local] Abbreviation req := (handle hash demo_lib demo_cfg demo_env).

Definition bearer_of (r : result AuthTokenResponse error) : option string :=
  match r with Ok x => demo_bearer x | Err _ => None end.
Definition token_of (r : result InviteResponse error) : string :=
  match r with Ok x => ir_invite_token x | Err _ => "" end.

Definition ann : SignupRequest := demo_body "ann@example.org" (Some "acme").
Definition bob : SignupRequest := demo_body "bob@example.org" None.
Definition demo1 : Http.t := req (Signup ann) demo_state.
Definition ann_token : option string := bearer_of (demo_signup ann demo_state).1.
Definition demo2 : Http.t := with_vault "acme" "notes" demo1.
Definition demo3 : Http.t := req (CreateInvite ann_token "notes" "editor" 24) demo2.
Definition invite : string :=
  token_of (SharingRoutes.create_invite hash demo_lib demo_cfg demo_env ann_token "notes" "editor" 24 demo2).1.
Definition demo4 : Http.t := req (Signup bob) demo3.
Definition bob_token : option string := bearer_of (demo_signup bob demo3).1.
Definition demo5 : Http.t := req (AcceptInvite bob_token invite) demo4.

Lemma with_vault_acct t v s : acct (with_vault t v s) = acct s.
Proof. done. Qed.

Lemma demo_reach : rtc (serve hash) demo_state demo4.
Proof.
  apply (rtc_l _ _ demo1); [exact (serve_request _ _ demo_lib demo_cfg demo_env (Signup ann))|].
  apply (rtc_l _ _ demo2); [apply serve_other, with_vault_acct|].
  apply (rtc_l _ _ demo3); [exact (serve_request _ _ demo_lib demo_cfg demo_env (CreateInvite ann_token "notes" "editor" 24))|].
  apply rtc_once. exact (serve_request _ _ demo_lib demo_cfg demo_env (Signup bob)).
Qed.

Definition nobody : UserRow.t := UserRow.mk "" "" "" "" 0 None None 0 0.
Definition bob_row : UserRow.t := default nobody (last (users (acct demo4))).

Lemma access_justified_witness :
  let user := MetaAccounts.map_user_row bob_row in
  ∃ s' i, Access.resolve_vault_access demo_env user "notes" demo5 = (Ok (mkResolved (Some "acme") AEditor), s')
    ∧ i ∈ vault_invites (acct demo5) ∧ InviteRow.redeemed_by i = Some (UserAccount.id user).
Proof.
  intros user.
  destruct (Access.resolve_vault_access demo_env user "notes" demo5) as [r s'] eqn:Hr.
  assert (r = Ok (mkResolved (Some "acme") AEditor)) as -> by (apply (f_equal fst) in Hr; symmetry; etransitivity; [|exact Hr]; vm_compute; reflexivity).
  destruct (access_justified hash demo_state demo5 demo_env user "notes" (mkResolved (Some "acme") AEditor) s')
    as [[Hk _]|(_&i&_&Hi&_&Hby&_)].
  - reflexivity.
  - eapply rtc_r; [exact demo_reach|exact (serve_request _ _ demo_lib demo_cfg demo_env (AcceptInvite bob_token invite))].
  - exists bob_row. split; [|reflexivity]. vm_compute. right; left.
  - exact Hr.
  - discriminate.
  - exists s', i. split; [reflexivity|]. split; [exact Hi|exact Hby].
Defined.

Lemma invite_grants_witness :
  ∃ r s', SharingRoutes.accept_invite hash demo_lib demo_cfg demo_env bob_token invite demo4 = (Ok r, s')
    ∧ ∀ lib2 cfg2 e2 a2 x, (SharingRoutes.accept_invite hash lib2 cfg2 e2 a2 invite s').1 ≠ Ok x.
Proof.
  destruct (SharingRoutes.accept_invite hash demo_lib demo_cfg demo_env bob_token invite demo4) as [[r|x] s'] eqn:Ha.
  2: { apply (f_equal fst) in Ha. vm_compute in Ha. discriminate. }
  destruct (invite_grants hash demo_state demo4 demo_lib demo_cfg demo_env demo_env bob_token invite r s' eq_refl
    demo_reach Ha (λ _, eq_refl)) as (user&s1&_&_&Hs).
  exists r, s'. split; [reflexivity|exact Hs].
Defined.

(** The same request when the database fails at the given statement. *)
Definition faulty (n : nat) : env :=
  {| now := now demo_env; now_ns := now_ns demo_env; random := random demo_env;
     db_fault := λ k, if decide (k = n) then Some (Sqlx "disk I/O error") else None |}.

Lemma faulty_other n k : k ≠ n → db_fault (faulty n) k = None.
Proof. intros Hk. cbn. by rewrite decide_False. Qed.

Definition bob_invite : VaultInviteRow :=
  mkInvite (default "" (InviteRow.id <$> head (vault_invites (acct demo4)))) (Some "acme") "notes" Editor
    (default "" (UserRow.id <$> head (users (acct demo4)))) 87400 None None 1000.
Definition raw_invite : bytes := default [] (SharingRoutes.token_bytes invite).

Lemma invite_lost_witness :
  let e := faulty (3 + statements demo4) in
  (SharingRoutes.accept_invite hash demo_lib demo_cfg e bob_token invite demo4).1
  = Err (INTERNAL_SERVER_ERROR, "database error")
  ∧ ∀ lib2 cfg2 e2 a2 x2,
      (SharingRoutes.accept_invite hash lib2 cfg2 e2 a2 invite
         (SharingRoutes.accept_invite hash demo_lib demo_cfg e bob_token invite demo4).2).1 ≠ Ok x2.
Proof.
  intros e.
  destruct (AuthRoutes.authenticate demo_lib demo_cfg e bob_token demo4) as [[user|x] s1] eqn:Ha.
  2: { apply (f_equal fst) in Ha. vm_compute in Ha. discriminate. }
  assert (statements s1 = S (statements demo4)) as Hst by (apply (f_equal (statements ∘ snd)) in Ha; symmetry; etransitivity; [|exact Ha]; vm_compute; reflexivity).
  pose proof (invite_lost hash demo_lib demo_cfg e bob_token invite demo4 user s1 raw_invite bob_invite
    (Sqlx "disk I/O error") Ha) as Hl.
  destruct (SharingRoutes.accept_invite hash demo_lib demo_cfg e bob_token invite demo4) as [r s'].
  destruct Hl as (H1&_&H2).
  - vm_compute; reflexivity.
  - vm_compute; reflexivity.
  - reflexivity.
  - vm_compute; intros H; discriminate.
  - intros n Hn. apply faulty_other. by rewrite Hst in Hn.
  - rewrite Hst. vm_compute. reflexivity.
  - split; [exact H1|exact H2].
Defined.

Lemma org_without_owner_witness :
  let e := faulty (3 + statements demo4) in
  let r := OrgRoutes.create_org demo_lib demo_cfg e ann_token "Acme Inc" "acme" demo4 in
  r.1 = Err (INTERNAL_SERVER_ERROR, "db error") ∧ ∃ id, orphan id (acct r.2).
Proof.
  intros e r. subst r.
  destruct (AuthRoutes.authenticate demo_lib demo_cfg e ann_token demo4) as [[user|x] s1] eqn:Ha.
  2: { apply (f_equal fst) in Ha. vm_compute in Ha. discriminate. }
  assert (statements s1 = S (statements demo4)) as Hst by (apply (f_equal (statements ∘ snd)) in Ha; symmetry; etransitivity; [|exact Ha]; vm_compute; reflexivity).
  pose proof (org_without_owner hash demo_state demo4 demo_lib demo_cfg e ann_token "Acme Inc" "acme" "acme" user s1
    (Sqlx "disk I/O error") eq_refl demo_reach Ha) as Hl.
  destruct (OrgRoutes.create_org demo_lib demo_cfg e ann_token "Acme Inc" "acme" demo4) as [r s'].
  destruct Hl as (H1&H2).
  - vm_compute; discriminate.
  - vm_compute; discriminate.
  - vm_compute; reflexivity.
  - intros o Ho. exfalso. assert (organizations (acct demo4) = []) as Hn by (vm_compute; reflexivity).
    rewrite Hn in Ho. by apply elem_of_nil in Ho.
  - intros n Hn. apply faulty_other. by rewrite Hst in Hn.
  - rewrite Hst. vm_compute. reflexivity.
  - split; [exact H1|]. eexists. apply (H2 s'). reflexivity.
Defined.

(** Ann makes an organisation and adds Bob. *)
Definition demo6 : Http.t := req (CreateOrg ann_token "Acme Inc" "acme") demo4.
Definition acme : string := default "" (OrgRow.id <$> head (organizations (acct demo6))).

Lemma org_roles_sound_witness :
  ∃ x s' user s1 actor,
    OrgRoutes.add_member demo_lib demo_cfg demo_env ann_token acme "bob@example.org" "admin" demo6 = (Ok x, s')
    ∧ AuthRoutes.authenticate demo_lib demo_cfg demo_env ann_token demo6 = (Ok user, s1)
    ∧ (MetaOrgs.get_org_member_role acme (UserAccount.id user) (acct demo6)).1 = Ok (Some actor)
    ∧ (actor = Owner ∨ actor = Admin).
Proof.
  destruct (OrgRoutes.add_member demo_lib demo_cfg demo_env ann_token acme "bob@example.org" "admin" demo6)
    as [[[target role]|x] s'] eqn:Ha.
  2: { apply (f_equal fst) in Ha. vm_compute in Ha. discriminate. }
  destruct (org_roles_sound hash demo_state demo6 eq_refl) as [_ Hadd].
  { eapply rtc_r; [exact demo_reach|exact (serve_request _ _ demo_lib demo_cfg demo_env (CreateOrg ann_token "Acme Inc" "acme"))]. }
  destruct (Hadd _ _ _ _ _ _ _ _ _ _ Ha) as (user&s1&actor&z&Hau&Hrole&Hor&_).
  exists (target, role), s', user, s1, actor. split; [reflexivity|]. split; [exact Hau|]. split; [exact Hrole|exact Hor].
Defined.

Lemma delete_account_blocked_witness :
  (ComplianceRoutes.delete_account demo_lib demo_cfg demo_env ann_token "ann@example.org" demo4).1
  = Err (INTERNAL_SERVER_ERROR, "database error").
Proof.
  destruct (AuthRoutes.authenticate demo_lib demo_cfg demo_env ann_token demo4) as [[user|x] s1] eqn:Ha.
  2: { apply (f_equal fst) in Ha. vm_compute in Ha. discriminate. }
  assert (UserAccount.email user = "ann@example.org" ∧ UserAccount.id user = default "" (UserRow.id <$> head (users (acct demo4))))
    as [Hm Hid].
  { apply (f_equal fst) in Ha. vm_compute in Ha. injection Ha as <-. vm_compute. split; reflexivity. }
  pose proof (delete_account_blocked demo_lib demo_cfg demo_env ann_token "ann@example.org" demo4 user s1
    (default (InviteRow.mk "" None "" [] "" "" 0 None None 0) (head (vault_invites (acct demo4)))) Ha) as Hl.
  destruct (ComplianceRoutes.delete_account _ _ _ _ _ _) as [r s']. destruct Hl as (_&_&H).
  - vm_compute. left.
  - rewrite Hid. vm_compute. reflexivity.
  - destruct H as [Hr _]; [reflexivity|rewrite Hm; vm_compute; reflexivity|]. exact Hr.
Defined.

(** Bob, who made no invitation, deletes his account, the only one of its tenant. *)
Lemma purge_misses_shards_witness :
  ∃ r s' s1, ComplianceRoutes.delete_account demo_lib demo_cfg demo_env bob_token "bob@example.org" demo4 = (Ok r, s')
    ∧ da_tenant_purged r = true
    ∧ TenantMetaRouter.disk (router s') = TenantMetaRouter.disk (router s1).
Proof.
  destruct (AuthRoutes.authenticate demo_lib demo_cfg demo_env bob_token demo4) as [[user|x] s1] eqn:Ha.
  2: { apply (f_equal fst) in Ha. vm_compute in Ha. discriminate. }
  destruct (ComplianceRoutes.delete_account demo_lib demo_cfg demo_env bob_token "bob@example.org" demo4)
    as [[r|x] s'] eqn:Hd.
  2: { apply (f_equal fst) in Hd. vm_compute in Hd. discriminate. }
  assert (da_tenant_purged r = true) as Hp.
  { apply (f_equal fst) in Hd. vm_compute in Hd. injection Hd as <-. reflexivity. }
  destruct (purge_misses_shards demo_lib demo_cfg demo_env bob_token "bob@example.org" demo4 user s1 r s' Ha Hd Hp)
    as (_&Hk&_).
  exists r, s', s1. split; [reflexivity|]. split; [exact Hp|exact Hk].
Defined.
End SharingTheorems.
