(* ===== verification/Restore.v ===== *)
(** * Recycle bin, versions and snapshots over HTTP
      ([disk-server/src/trash/routes.rs], [versions/routes.rs],
      [snapshots/routes.rs])

    The handlers list what the index keeps and bring a trashed file, a version
    or a snapshot back: the content is looked up in the blob store or on disk,
    written below the server's [sync_root], and recorded as a new revision. *)

From stdpp Require Import prelude gmap strings pretty.
From Stdlib Require Import ZArith Lia Strings.Byte Strings.Ascii.
From S2P Require Import Prelude Text VectorClock Types Fs BlobStore Guard Sql MetaDb Billing MetaFiles MetaSync.
From S2P Require Import Tenancy Http Accounts Sharing.

#[local] Open Scope Z_scope.

(** ** Answers *)
Record Pagination := mkPage { pg_limit : Z; pg_offset : Z; pg_total : Z; pg_has_more : bool }.
Record RetentionInfo := mkRetention { ri_max : option Z; ri_max_age_secs : Z; ri_max_age_days : Z }.

Record TrashEntry := {
  te_path : string; te_content_hash_hex : string; te_size : Z; te_deleted_at : Z; te_version_id : option Z;
  te_blob_available : bool; te_expires_at : Z
}.
Record TrashListResponse := {
  tl_vault_id : string; tl_plan_tier : string; tl_retention : RetentionInfo; tl_pagination : Pagination;
  tl_pruned_expired : Z; tl_items : list TrashEntry
}.
Record RestoreTrashResponse := {
  rt_path : string; rt_vault_id : string; rt_new_version_id : Z; rt_content_hash_hex : string; rt_message : string
}.
Record VersionEntry := {
  ve_version_id : Z; ve_parent_version_id : Z; ve_content_hash_hex : string; ve_size : Z; ve_mtime_ns : Z;
  ve_created_at : Z; ve_created_by : option string; ve_blob_available : bool; ve_is_current : bool
}.
Record VersionListResponse := {
  vl_path : string; vl_vault_id : string; vl_plan_tier : string; vl_file_exists : bool; vl_file_deleted : bool;
  vl_current_version_id : option Z; vl_retention : RetentionInfo; vl_pagination : Pagination;
  vl_current : option VersionEntry; vl_versions : list VersionEntry
}.
Record RestoreVersionResponse := {
  rv_path : string; rv_vault_id : string; rv_version_id : Z; rv_new_version_id : Z;
  rv_content_hash_hex : string; rv_message : string
}.
Record SnapshotFileEntry := {
  sf_path : string; sf_version_id : Z; sf_content_hash_hex : string; sf_size : Z; sf_deleted : bool;
  sf_blob_available : bool
}.
Record SnapshotListResponse := {
  sl_vault_id : string; sl_plan_tier : string; sl_retention : RetentionInfo; sl_pagination : Pagination;
  sl_snapshots : list MetaSnapshots.VaultSnapshotRow.t
}.
Record RestoreSnapshotResponse := {
  rs_snapshot_id : Z; rs_vault_id : string; rs_files_restored : Z; rs_files_skipped : Z; rs_files_failed : Z;
  rs_message : string
}.

Module Restore.
Import Http AuthRoutes Access MetaFiles MetaSnapshots.

Definition normalize_rel_path (raw : string) : option string :=
  let trimmed := trim raw in
  if bool_decide (trimmed = "") || contains trimmed ".." then None
  else Some (replace_char "\" "/" trimmed).

Definition clamp_limit (limit : Z) : Z := Z.max 1 (Z.min limit 200).
Definition clamp_offset (offset : Z) : Z := Z.min offset 10000.
Definition page (limit offset total : Z) : Pagination :=
  mkPage limit offset total (bool_decide (Z.min (offset + limit) (2 ^ 32 - 1) < total)).

(** [Path::to_str]. *)
Definition to_str (p : string) : option string := if str_utf8 p then Some p else None.

Section routes.
Context {codec : VcCodec} {jwt : JwtLib} (blake3 : bytes → bytes) (f : Fs.faults) (cut : Fs.cuts).
Context (canonicalize : Fs.t → string → option string) (lib : libs) (cfg : config) (e : env).

(** ** What the handlers share *)
Definition authorize (authorization : option string) (vault_id : string) (need : ResolvedVaultAccess → hm unit)
    : hm (UserAccount * option string) :=
  user <~ authenticate lib cfg e authorization ;;
  access <~ resolve_vault_access e user vault_id ;;
  _ <~ need access ;;
  st_ret (user, data_tenant access).

Definition plan_of (tenant : option string) : hm PlanTier :=
  or_db_error (billing e (λ _, MetaBilling.get_plan_tier tenant PlanTier.Free)).
Definition tenant_db (tenant : option string) : hm TenantMetaRouter.handle := or_db_error (open_tenant e tenant).
Definition read_db {A} (db : TenantMetaRouter.handle) (m : dbm A) : hm A := or_db_error (on_tenant e db (λ _, m)).

Definition blob_get (hash : bytes) : hm (option bytes) := λ s,
  let '(r, x) := ContentBlobStore.get f (version_blobs cfg) hash (fs s) in
  (Ok (match r with Ok b => b | Err _ => None end), set_fs x s).

(** [let _ = state.version_blobs.put(..)]. *)
Definition blob_put (hash contents : bytes) : hm unit :=
  nanos <~ read_now_ns e ;;
  _ <~ try_io (ContentBlobStore.put f cut (version_blobs cfg) nanos hash contents) ;;
  st_ret tt.

Definition blob_available (hash : bytes) : hm bool :=
  r <~ try_io (ContentBlobStore.contains f (version_blobs cfg) hash) ;;
  st_ret (match r with Ok b => b | Err _ => false end).

(** [rows.iter().map(..).collect()]. *)
Fixpoint entries {A B} (entry : A → hm B) (rows : list A) : hm (list B) :=
  match rows with
  | [] => st_ret []
  | row :: rows => x <~ entry row ;; l <~ entries entry rows ;; st_ret (x :: l)
  end.

(** The file still on disk, when it has the digest. *)
Definition disk_copy (rel : string) (hash : bytes) : hm (option bytes) :=
  r <~ try_io (Fs.read f (Path.join (sync_root cfg) rel)) ;;
  st_ret (match r with Ok b => if decide (blake3 b = hash) then Some b else None | Err _ => None end).

(** The blob of a version of the history. *)
Definition version_blob (db : TenantMetaRouter.handle) (tenant : option string) (vault_id path : string) (v : Z)
    : hm (option bytes) :=
  r <~ catch (on_tenant e db (λ _, get_file_version tenant vault_id path v)) ;;
  match r with
  | Ok (Some version) => blob_get (FileVersionRow.content_hash version)
  | _ => st_ret None
  end.

Definition target_of (path : string) : hm string := λ s,
  (match PathGuard.validate (canonicalize (fs s)) path (sync_root cfg) with
   | Some (Ok t) => Ok t
   | _ => Err (BAD_REQUEST, "invalid path")
   end, s).

Definition create_parent (target : string) : hm unit :=
  match Path.parent target with
  | Some p => io "write failed" (Fs.create_dir_all f p)
  | None => st_ret tt
  end.

(** Keep the bytes that are about to be overwritten, under the digest the index
    has for them; every failure is ignored. *)
Definition keep_current (db : TenantMetaRouter.handle) (tenant : option string) (vault_id path target : string)
    : hm unit :=
  there <~ try_io (Fs.exists_ f target) ;;
  match there with
  | Ok true =>
      r <~ try_io (Fs.read f target) ;;
      match r with
      | Err _ => st_ret tt
      | Ok current_bytes =>
          row <~ catch (on_tenant e db (λ _, get_file_scoped tenant vault_id path)) ;;
          match row with
          | Ok (Some current) => blob_put (FileMeta.content_hash current) current_bytes
          | _ => st_ret tt
          end
      end
  | _ => st_ret tt
  end.

(** [target.strip_prefix(&state.sync_root).unwrap_or(&target)]. *)
Definition relative (target : string) : string :=
  let b := Path.components (sync_root cfg) in
  let c := Path.components target in
  if decide (take (length b) c = b) then
    join_with Path.sep ((λ x, match x with Path.Normal s => s | _ => "" end) <$> drop (length b) c)
  else target.

Definition restored_meta (node target : string) (hash : bytes) (size mtime_ns : Z) (nonce : option bytes) : FileMeta :=
  FileMeta.mk (relative target) hash size mtime_ns None (VC.advance node VC.new) false None node nonce None None.

Definition record (db : TenantMetaRouter.handle) (tenant : option string) (vault_id : string) (meta : FileMeta)
    (by_user : string) (retention : VersionRetention) : st Z :=
  on_tenant2 e db (λ now now', upsert_file_scoped_versioned now now' tenant vault_id meta by_user retention).

(** ** Recycle bin *)
Definition trash_entry (max_age_secs : Z) (row : TrashRow.t) : hm TrashEntry :=
  available <~ blob_available (TrashRow.content_hash row) ;;
  st_ret {| te_path := TrashRow.path row; te_content_hash_hex := Hex.encode (TrashRow.content_hash row);
     te_size := TrashRow.size row; te_deleted_at := TrashRow.deleted_at row; te_version_id := TrashRow.version_id row;
     te_blob_available := available;
     te_expires_at := i64_saturating_add (TrashRow.deleted_at row) max_age_secs |}.

Definition list_trash (authorization : option string) (vault_id : string) (limit offset : Z) : hm TrashListResponse :=
  who <~ authorize authorization vault_id require_read ;;
  tier <~ plan_of who.2 ;;
  let age := TrashRetention.max_age_secs (PlanTier.trash_retention tier) in
  db <~ tenant_db who.2 ;;
  pruned <~ or_db_error (on_tenant e db (λ now, prune_expired_trash now who.2 vault_id (PlanTier.trash_retention tier))) ;;
  let limit := clamp_limit limit in
  let offset := clamp_offset offset in
  total <~ read_db db (count_trash who.2 vault_id) ;;
  rows <~ read_db db (MetaFiles.list_trash who.2 vault_id limit offset) ;;
  items <~ entries (trash_entry age) rows ;;
  st_ret {| tl_vault_id := vault_id; tl_plan_tier := PlanTier.as_str tier;
            tl_retention := mkRetention None age (as_u32 (Z.quot age 86400));
            tl_pagination := page limit offset total; tl_pruned_expired := pruned;
            tl_items := items |}.

Definition resolve_trash_blob (db : TenantMetaRouter.handle) (tenant : option string) (vault_id : string)
    (meta : FileMeta) : hm (option bytes) :=
  b1 <~ blob_get (FileMeta.content_hash meta) ;;
  match b1 with
  | Some _ => st_ret b1
  | None =>
      b2 <~ match FileMeta.version_id meta with
            | Some v => version_blob db tenant vault_id (default "" (to_str (FileMeta.path meta))) v
            | None => st_ret None
            end ;;
      match b2 with
      | Some _ => st_ret b2
      | None =>
          match to_str (FileMeta.path meta) with
          | None => st_ret None
          | Some rel => disk_copy rel (FileMeta.content_hash meta)
          end
      end
  end.

Definition restore_trash (authorization : option string) (body_path vault_id : string) : hm RestoreTrashResponse :=
  path <~ require (normalize_rel_path body_path) BAD_REQUEST "invalid path" ;;
  who <~ authorize authorization vault_id require_write ;;
  tier <~ plan_of who.2 ;;
  db <~ tenant_db who.2 ;;
  found <~ read_db db (get_file_scoped who.2 vault_id path) ;;
  trashed <~ require found NOT_FOUND "path not found" ;;
  if negb (FileMeta.deleted trashed) then fail CONFLICT "file is not in trash"
  else
    blob <~ resolve_trash_blob db who.2 vault_id trashed ;;
    data <~ require blob CONFLICT "file blob not available" ;;
    target <~ target_of path ;;
    _ <~ create_parent target ;;
    _ <~ io "write failed" (Fs.write f cut target data) ;;
    mtime_ns <~ read_now_ns e ;;
    let hash := FileMeta.content_hash trashed in
    let meta := restored_meta "trash-restore" target hash (FileMeta.size trashed) mtime_ns
                  (FileMeta.encryption_nonce trashed) in
    version <~ or_db_error (record db who.2 vault_id meta (UserAccount.id who.1) (PlanTier.version_retention tier)) ;;
    _ <~ blob_put hash data ;;
    st_ret {| rt_path := path; rt_vault_id := vault_id; rt_new_version_id := version;
              rt_content_hash_hex := Hex.encode hash;
              rt_message := "Restored " +:+ path +:+ " from trash as revision " +:+ pretty version |}.

Definition delete_trash (authorization : option string) (body_path vault_id : string) : hm string :=
  path <~ require (normalize_rel_path body_path) BAD_REQUEST "invalid path" ;;
  who <~ authorize authorization vault_id require_manage ;;
  db <~ tenant_db who.2 ;;
  deleted <~ read_db db (delete_trash_item who.2 vault_id path) ;;
  if (deleted : bool) then st_ret path else fail NOT_FOUND "path not in trash".

Definition empty_trash (authorization : option string) (vault_id : string) (confirm : bool) : hm Z :=
  if negb confirm then fail BAD_REQUEST "confirm must be true to empty trash"
  else
    who <~ authorize authorization vault_id require_manage ;;
    db <~ tenant_db who.2 ;;
    read_db db (MetaFiles.empty_trash who.2 vault_id).

(** ** Versions *)
Definition version_entry_from_row (is_current : bool) (row : FileVersionRow.t) : hm VersionEntry :=
  available <~ blob_available (FileVersionRow.content_hash row) ;;
  st_ret {| ve_version_id := FileVersionRow.version_id row; ve_parent_version_id := FileVersionRow.parent_version_id row;
     ve_content_hash_hex := Hex.encode (FileVersionRow.content_hash row); ve_size := FileVersionRow.size row;
     ve_mtime_ns := FileVersionRow.mtime_ns row; ve_created_at := FileVersionRow.created_at row;
     ve_created_by := FileVersionRow.created_by row;
     ve_blob_available := available; ve_is_current := is_current |}.

Definition version_entry_from_meta (is_current : bool) (created_by : option string) (meta : FileMeta)
    : hm VersionEntry :=
  available <~ blob_available (FileMeta.content_hash meta) ;;
  st_ret {| ve_version_id := default 1 (FileMeta.version_id meta);
     ve_parent_version_id := default 0 (FileMeta.parent_version_id meta);
     ve_content_hash_hex := Hex.encode (FileMeta.content_hash meta); ve_size := FileMeta.size meta;
     ve_mtime_ns := FileMeta.mtime_ns meta; ve_created_at := Z.quot (FileMeta.mtime_ns meta) 1000000000;
     ve_created_by := created_by;
     ve_blob_available := available; ve_is_current := is_current |}.

Definition list_versions (authorization : option string) (query_path vault_id : string) (limit offset : Z)
    : hm VersionListResponse :=
  path <~ require (normalize_rel_path query_path) BAD_REQUEST "invalid path" ;;
  who <~ authorize authorization vault_id require_read ;;
  tier <~ plan_of who.2 ;;
  let retention := PlanTier.version_retention tier in
  let age := VersionRetention.max_age_secs retention in
  db <~ tenant_db who.2 ;;
  current <~ read_db db (get_file_scoped who.2 vault_id path) ;;
  let limit := clamp_limit limit in
  let offset := clamp_offset offset in
  total <~ read_db db (count_file_versions who.2 vault_id path) ;;
  rows <~ read_db db (list_file_versions who.2 vault_id path limit offset) ;;
  current_entry <~ match current with
                   | Some m => x <~ version_entry_from_meta true None m ;; st_ret (Some x)
                   | None => st_ret None
                   end ;;
  versions <~ entries (version_entry_from_row false) rows ;;
  st_ret {| vl_path := path; vl_vault_id := vault_id; vl_plan_tier := PlanTier.as_str tier;
              vl_file_exists := bool_decide (is_Some current);
              vl_file_deleted := match current with Some m => FileMeta.deleted m | None => false end;
              vl_current_version_id := current ≫= FileMeta.version_id;
              vl_retention := mkRetention (Some (VersionRetention.max_versions retention)) age
                                (as_u32 (Z.max (Z.quot age 86400) 1));
              vl_pagination := page limit offset total;
              vl_current := current_entry; vl_versions := versions |}.

Definition restore_version (authorization : option string) (body_path vault_id : string) (version_id : Z)
    : hm RestoreVersionResponse :=
  path <~ require (normalize_rel_path body_path) BAD_REQUEST "invalid path" ;;
  if decide (version_id = 0) then fail BAD_REQUEST "invalid version_id"
  else
    who <~ authorize authorization vault_id require_write ;;
    tier <~ plan_of who.2 ;;
    db <~ tenant_db who.2 ;;
    live <~ read_db db (get_file_scoped who.2 vault_id path) ;;
    if bool_decide (live ≫= FileMeta.version_id = Some version_id) then fail CONFLICT "version is already current"
    else
      found <~ read_db db (get_file_version who.2 vault_id path version_id) ;;
      version <~ require found NOT_FOUND "version not found" ;;
      let hash := FileVersionRow.content_hash version in
      blob <~ blob_get hash ;;
      data <~ require blob CONFLICT "version blob not available" ;;
      if match live with Some m => negb (FileMeta.deleted m) && bool_decide (FileMeta.content_hash m = hash) | None => false end
      then fail CONFLICT "file already matches this revision"
      else
        target <~ target_of path ;;
        _ <~ create_parent target ;;
        _ <~ keep_current db who.2 vault_id path target ;;
        _ <~ io "write failed" (Fs.write f cut target data) ;;
        mtime_ns <~ read_now_ns e ;;
        let meta := restored_meta "dashboard-restore" target hash (FileVersionRow.size version) mtime_ns None in
        new_version <~ or_db_error (record db who.2 vault_id meta (UserAccount.id who.1) (PlanTier.version_retention tier)) ;;
        _ <~ blob_put hash data ;;
        st_ret {| rv_path := path; rv_vault_id := vault_id; rv_version_id := version_id;
                  rv_new_version_id := new_version; rv_content_hash_hex := Hex.encode hash;
                  rv_message := "Restored version " +:+ pretty version_id +:+ " as new revision " +:+ pretty new_version |}.

(** ** Snapshots *)
Definition file_entry (row : VaultSnapshotFileRow.t) : hm SnapshotFileEntry :=
  available <~ blob_available (VaultSnapshotFileRow.content_hash row) ;;
  st_ret {| sf_path := VaultSnapshotFileRow.path row; sf_version_id := VaultSnapshotFileRow.version_id row;
     sf_content_hash_hex := Hex.encode (VaultSnapshotFileRow.content_hash row);
     sf_size := VaultSnapshotFileRow.size row; sf_deleted := VaultSnapshotFileRow.deleted row;
     sf_blob_available := available |}.

Definition create_snapshot (authorization : option string) (vault_id : string) (body_label : option string)
    : hm VaultSnapshotRow.t :=
  who <~ authorize authorization vault_id require_write ;;
  tier <~ plan_of who.2 ;;
  db <~ tenant_db who.2 ;;
  let label := l ← body_label; if decide (trim l = "") then None else Some (trim l) in
  or_db_error (on_tenant2 e db (λ now now', create_vault_snapshot now now' who.2 vault_id label
                                              (UserAccount.id who.1) (PlanTier.snapshot_retention tier))).

Definition list_snapshots (authorization : option string) (vault_id : string) (limit offset : Z)
    : hm SnapshotListResponse :=
  who <~ authorize authorization vault_id require_read ;;
  tier <~ plan_of who.2 ;;
  let retention := PlanTier.snapshot_retention tier in
  let age := SnapshotRetention.max_age_secs retention in
  db <~ tenant_db who.2 ;;
  let limit := clamp_limit limit in
  let offset := clamp_offset offset in
  total <~ read_db db (count_vault_snapshots who.2 vault_id) ;;
  rows <~ read_db db (list_vault_snapshots who.2 vault_id limit offset) ;;
  st_ret {| sl_vault_id := vault_id; sl_plan_tier := PlanTier.as_str tier;
            sl_retention := mkRetention (Some (SnapshotRetention.max_snapshots retention)) age
                              (as_u32 (Z.max (Z.quot age 86400) 1));
            sl_pagination := page limit offset total; sl_snapshots := rows |}.

Definition get_snapshot (authorization : option string) (vault_id : string) (snapshot_id : Z)
    : hm (VaultSnapshotRow.t * list SnapshotFileEntry) :=
  who <~ authorize authorization vault_id require_read ;;
  db <~ tenant_db who.2 ;;
  found <~ read_db db (get_vault_snapshot who.2 vault_id snapshot_id) ;;
  snap <~ require found NOT_FOUND "snapshot not found" ;;
  files <~ read_db db (list_snapshot_files who.2 vault_id snapshot_id) ;;
  l <~ entries file_entry files ;;
  st_ret (snap, l).

Definition resolve_blob (db : TenantMetaRouter.handle) (tenant : option string) (vault_id : string)
    (entry : VaultSnapshotFileRow.t) : hm (option bytes) :=
  let hash := VaultSnapshotFileRow.content_hash entry in
  b1 <~ blob_get hash ;;
  match b1 with
  | Some _ => st_ret b1
  | None =>
      b2 <~ (if bool_decide (0 < VaultSnapshotFileRow.version_id entry)
             then version_blob db tenant vault_id (VaultSnapshotFileRow.path entry) (VaultSnapshotFileRow.version_id entry)
             else st_ret None) ;;
      match b2 with
      | Some _ => st_ret b2
      | None => disk_copy (VaultSnapshotFileRow.path entry) hash
      end
  end.

(** One file of the loop; an error counts the file as failed. *)
Definition restore_entry (db : TenantMetaRouter.handle) (tenant : option string) (vault_id by_user : string)
    (retention : VersionRetention) (entry : VaultSnapshotFileRow.t) : hm unit :=
  let path := VaultSnapshotFileRow.path entry in
  let hash := VaultSnapshotFileRow.content_hash entry in
  if bool_decide (path = "") || contains path ".." then fail BAD_REQUEST "failed"
  else
    blob <~ resolve_blob db tenant vault_id entry ;;
    data <~ require blob CONFLICT "failed" ;;
    target <~ target_of path ;;
    _ <~ create_parent target ;;
    _ <~ keep_current db tenant vault_id path target ;;
    _ <~ io "failed" (Fs.write f cut target data) ;;
    mtime_ns <~ read_now_ns e ;;
    let meta := restored_meta "snapshot-restore" target hash (VaultSnapshotFileRow.size entry) mtime_ns None in
    _ <~ or_db_error (record db tenant vault_id meta by_user retention) ;;
    blob_put hash data.

Record counts := mkCounts { restored : Z; skipped : Z; failed : Z }.

Fixpoint restore_files (db : TenantMetaRouter.handle) (tenant : option string) (vault_id by_user : string)
    (retention : VersionRetention) (entries : list VaultSnapshotFileRow.t) (c : counts) (s : Http.t) : counts * Http.t :=
  match entries with
  | [] => (c, s)
  | entry :: rest =>
      let '(c, s) :=
        if VaultSnapshotFileRow.deleted entry then (mkCounts (restored c) (as_u32 (skipped c + 1)) (failed c), s)
        else match restore_entry db tenant vault_id by_user retention entry s with
             | (Ok _, s) => (mkCounts (as_u32 (restored c + 1)) (skipped c) (failed c), s)
             | (Err _, s) => (mkCounts (restored c) (skipped c) (as_u32 (failed c + 1)), s)
             end in
      restore_files db tenant vault_id by_user retention rest c s
  end.

Definition restore_snapshot (authorization : option string) (vault_id : string) (snapshot_id : Z)
    : hm RestoreSnapshotResponse :=
  who <~ authorize authorization vault_id require_write ;;
  tier <~ plan_of who.2 ;;
  db <~ tenant_db who.2 ;;
  found <~ read_db db (get_vault_snapshot who.2 vault_id snapshot_id) ;;
  _ <~ require found NOT_FOUND "snapshot not found" ;;
  files <~ read_db db (list_snapshot_files who.2 vault_id snapshot_id) ;;
  λ s,
    let '(c, s) := restore_files db who.2 vault_id (UserAccount.id who.1) (PlanTier.version_retention tier) files
                     (mkCounts 0 0 0) s in
    (Ok {| rs_snapshot_id := snapshot_id; rs_vault_id := vault_id; rs_files_restored := restored c;
           rs_files_skipped := skipped c; rs_files_failed := failed c;
           rs_message := "Restored snapshot " +:+ pretty snapshot_id +:+ ": " +:+ pretty (restored c)
                         +:+ " file(s), " +:+ pretty (skipped c) +:+ " skipped, " +:+ pretty (failed c) +:+ " failed" |}, s).
End routes.
End Restore.
