(* ===== verification/RestoreProps.v ===== *)
(** * Recycle bin, versions and snapshots: the theorems

    A restore puts back exactly the content the index names, when the history
    it consults is consistent; it writes below the server's root and the blob
    store only; and what goes wrong otherwise. *)

From stdpp Require Import prelude gmap strings pretty.
From Stdlib Require Import ZArith Lia Strings.Byte Strings.Ascii.
From S2P Require Import Prelude Text PathFacts VectorClock Types Fs BlobStore Guard Sql MetaDb Billing MetaFiles MetaVersions.
From S2P Require Import MetaSync Tenancy Http Accounts Sharing Orgs Compliance AccountsProps AccountsTheorems.
From S2P Require Import SharingTheorems Restore.

#[local] Open Scope Z_scope.

(** ** The index: what a versioned upsert leaves *)
Section index.
Import MetaFiles.
Context {codec : VcCodec}.

Lemma versioned_row now now' t v ps meta by_ ret db ver db' :
  files_keyed db → path_as_str (FileMeta.path meta) = Ok ps →
  upsert_file_scoped_versioned now now' t v meta by_ ret db = (Ok ver, db') →
  files_keyed db' ∧ ∃ r, file_map db' !! (t, v, ps) = Some r
    ∧ FileRow.content_hash r = FileMeta.content_hash meta
    ∧ FileRow.deleted r = bool_int (FileMeta.deleted meta)
    ∧ FileRow.encryption_nonce r = FileMeta.encryption_nonce meta.
Proof.
  intros Hk Hp. unfold upsert_file_scoped_versioned. intros (ps'&db1&Hps&Hu)%st_bind_ok.
  apply st_lift_ok in Hps as [Hps ->]. rewrite Hp in Hps. injection Hps as <-.
  apply st_bind_ok in Hu as (existing&db1&Hg&Hu).
  assert (db1 = db) as ->.
  { unfold get_file_row_scoped in Hg. apply st_bind_ok in Hg as (row&db2&[= _ <-]&Hg). by apply st_lift_ok in Hg as [_ ->]. }
  apply st_bind_ok in Hu as (ids&db2&Hids&Hu).
  pose proof (next_ids_files now t v ps meta by_ existing db) as Hf. rewrite Hids in Hf. simpl in Hf.
  assert (files_keyed db2) as Hk2 by (unfold files_keyed; by rewrite Hf).
  destruct (write_map t v meta ids.1 ids.2 now ps db2 Hk2 Hp) as (t'&Hw&Hkey&Hm).
  apply st_bind_ok in Hu as ([]&db3&Hw'&Hu). rewrite Hw in Hw'. injection Hw' as <-.
  apply st_bind_ok in Hu as ([]&db4&[= <-]&[= _ <-]). split; [exact Hkey|].
  match goal with |- ∃ r, file_map ?d !! _ = _ ∧ _ => change (file_map d) with (table_map file_key t') end.
  rewrite Hm, lookup_insert_eq. eexists. split; [reflexivity|].
  by destruct (file_map db2 !! (t, v, ps)).
Qed.

(** With a consistent history, the version a file is at is not in it. *)
Lemma live_not_in_history t v p r ver db :
  history_ok db → file_map db !! (t, v, p) = Some r → as_u64 <$> FileRow.version_id r = Some ver →
  (get_file_version t v p ver db).1 = Ok None.
Proof.
  intros (_&Hrows&Hhist&_) Hr Hv. unfold get_file_version, st_bind, query, st_lift. cbn.
  set (l := select _ _). destruct l as [|h l'] eqn:Hl; [done|]. exfalso.
  assert (h ∈ l) as Hin by (rewrite Hl; left).
  apply elem_of_select in Hin as [Hin [Hk%has_version_key He%bool_decide_eq_true]%andb_true_iff].
  destruct (Hhist h Hin) as (r'&Hr'&Hlt). rewrite Hk, Hr in Hr'. injection Hr' as <-.
  destruct (Hrows _ _ Hr) as [_ Hl1]. unfold live_version in Hlt, Hl1. rewrite Hv in Hlt, Hl1. cbn in Hlt, Hl1.
  rewrite He, as_i64_id in Hlt; [lia|]. split; [unfold i64_min|]; lia.
Qed.

Lemma get_version_reads t v p ver db : (get_file_version t v p ver db).2 = db.
Proof. unfold get_file_version, st_bind, query, st_lift. done. Qed.

Lemma get_file_reads t v p db : (get_file_scoped t v p db).2 = db.
Proof. unfold get_file_scoped, st_bind, query, st_lift. done. Qed.

(** A row read from the index. *)
Lemma get_file_row t v p db m :
  files_keyed db → (get_file_scoped t v p db).1 = Ok (Some m) →
  ∃ r, file_map db !! (t, v, p) = Some r ∧ row_to_meta r = Ok m ∧ FileMeta.path m = p
    ∧ hash32 (FileMeta.content_hash m) ∧ FileMeta.version_id m = as_u64 <$> FileRow.version_id r.
Proof.
  intros Hk. rewrite MetaFilesProps.get_map by done. cbn.
  destruct (file_map db !! (t, v, p)) as [r|] eqn:Hr; [|done]. cbn.
  destruct (row_to_meta r) as [m'|] eqn:Hm; [|done]. intros [= ->]. exists r. split; [done|]. split; [done|].
  apply MetaFilesProps.file_map_path in Hr; [|done]. unfold row_to_meta, hash_of_blob in Hm.
  destruct (decide (hash32 (FileRow.content_hash r))); [|done]. cbn in Hm. injection Hm as <-. done.
Qed.
End index.

Module RestoreProps.
Import Http MetaFiles Restore SharingTheorems.

(** ** Steps that leave the files and every tenant's data alone *)
Definition quiet {E A} (m : stm Http.t E A) : Prop :=
  ∀ s, fs (m s).2 = fs s
       ∧ TenantMetaRouter.data (router (m s).2) = TenantMetaRouter.data (router s)
       ∧ TenantMetaRouter.disk (router (m s).2) = TenantMetaRouter.disk (router s).

Lemma hquiet_ret {E A} (a : A) : quiet (E:=E) (st_ret a).
Proof. done. Qed.
Lemma hquiet_err {E A} (x : E) : quiet (A:=A) (st_err x).
Proof. done. Qed.
Lemma hquiet_lift {E A} (r : result A E) : quiet (st_lift r).
Proof. done. Qed.
Lemma hquiet_bind {E A B} (m : stm Http.t E A) (k : A → stm Http.t E B) :
  quiet m → (∀ a, quiet (k a)) → quiet (st_bind m k).
Proof.
  intros Hm Hk s. unfold st_bind. specialize (Hm s). destruct (m s) as [[a|x] s1]; [|done].
  destruct (Hk a s1) as (->&->&->). done.
Qed.
Lemma quiet_or_status {A} c msg (m : stm Http.t MetaDbError A) : quiet m → quiet (or_status c msg m).
Proof. intros Hm s. unfold or_status. specialize (Hm s). by destruct (m s). Qed.
Lemma quiet_catch {A} (m : stm Http.t MetaDbError A) : quiet m → quiet (catch m).
Proof. intros Hm s. unfold catch. specialize (Hm s). by destruct (m s). Qed.
Lemma quiet_accounts {A} e (m : Z → adb A) : quiet (accounts e m).
Proof. intros s. unfold accounts, control, on_ac. destruct (db_fault e _); [done|]. cbn. by destruct (m _ _). Qed.
Lemma quiet_billing {A} e (m : Z → dbm A) : (∀ z db, (m z db).2 = db) → quiet (billing e m).
Proof.
  intros Hm s. unfold billing, control, on_dt. destruct (db_fault e _); [done|]. cbn.
  specialize (Hm (now e (statements s)) (TenantMetaRouter.data (router s))). destruct (m _ _). cbn in *. by subst.
Qed.
Lemma quiet_require {A} (o : option A) c msg : quiet (require o c msg).
Proof. apply hquiet_lift. Qed.

Lemma quiet_authenticate {jwt : JwtLib} lib cfg e a : quiet (AuthRoutes.authenticate lib cfg e a).
Proof.
  unfold AuthRoutes.authenticate, AuthRoutes.verify_bearer, AuthRoutes.resolve_user_from_access, AuthRoutes.lookup.
  repeat first [apply hquiet_bind; [|intros]|apply quiet_require|apply quiet_catch|apply quiet_accounts|done
    |match goal with |- quiet (match ?x with _ => _ end) => destruct x end].
Qed.

Lemma plan_reads t d db : (MetaBilling.get_plan_tier t d db).2 = db.
Proof. unfold MetaBilling.get_plan_tier, st_bind, query. done. Qed.

Lemma quiet_resolve e user v : quiet (Access.resolve_vault_access e user v).
Proof.
  unfold Access.resolve_vault_access. apply hquiet_bind; [by apply quiet_or_status, quiet_billing|].
  intros [|]; [done|]. apply hquiet_bind; [apply quiet_or_status, quiet_accounts|]. by intros [[]|].
Qed.

Section handlers.
Context {codec : VcCodec} {jwt : JwtLib} (blake3 : bytes → bytes) (f : Fs.faults) (cut : Fs.cuts).
Context (canonicalize : Fs.t → string → option string) (lib : libs) (cfg : config) (e : env).

Lemma quiet_authorize a v need : (∀ x, quiet (need x)) → quiet (authorize lib cfg e a v need).
Proof.
  intros Hn. apply hquiet_bind; [apply quiet_authenticate|intros user].
  apply hquiet_bind; [apply quiet_resolve|intros access]. by apply hquiet_bind.
Qed.
Lemma quiet_write x : quiet (Access.require_write x).
Proof. unfold Access.require_write. by destruct (Access.allows_write x). Qed.
Lemma quiet_plan t : quiet (plan_of e t).
Proof. apply quiet_or_status, quiet_billing. intros _ db. apply plan_reads. Qed.

(** ** One tenant's database *)
Definition hdb (h : TenantMetaRouter.handle) (s : Http.t) : MetaDb := TenantMetaRouter.read_db h (router s).

Lemma read_write h db r : TenantMetaRouter.read_db h (TenantMetaRouter.write_db h db r) = db.
Proof. destruct h; cbn; [done|]. by rewrite lookup_insert_eq. Qed.

Lemma on_tenant_ok {A} h (m : Z → dbm A) c msg s a s' :
  or_status c msg (on_tenant e h m) s = (Ok a, s') →
  m (now e (statements s)) (hdb h s) = (Ok a, hdb h s') ∧ fs s' = fs s.
Proof.
  intros Hm%or_status_ok. revert Hm. unfold on_tenant, hdb. destruct (db_fault e _); [done|].
  unfold TenantMetaRouter.with_db. destruct (m _ _) as [r db] eqn:Hm. intros [= -> <-]. cbn.
  by rewrite read_write.
Qed.

Lemma read_db_ok {A} h (m : dbm A) s a s' :
  read_db e h m s = (Ok a, s') → m (hdb h s) = (Ok a, hdb h s') ∧ fs s' = fs s.
Proof. apply (on_tenant_ok h (λ _, m)). Qed.

(** Every database the server has is consistent. *)
Definition consistent (s : Http.t) : Prop :=
  history_ok (TenantMetaRouter.data (router s))
  ∧ ∀ file db, TenantMetaRouter.disk (router s) !! file = Some db → history_ok db.

Lemma history_ok_empty : history_ok empty_db.
Proof.
  split_and!; [apply NoDup_nil_2| | |apply NoDup_nil_2].
  - intros k r Hr. apply table_map_Some in Hr as [Hr _]; [by apply elem_of_nil in Hr|apply NoDup_nil_2].
  - intros h Hh. by apply elem_of_nil in Hh.
Qed.

Lemma consistent_quiet {E A} (m : stm Http.t E A) s r s' :
  quiet m → m s = (r, s') → consistent s → consistent s' ∧ fs s' = fs s.
Proof.
  intros Hm Hs. destruct (Hm s) as (H1&H2&H3). rewrite Hs in H1, H2, H3. cbn in *.
  unfold consistent. by rewrite H2, H3.
Qed.

Lemma open_tenant_ok t s h s' :
  tenant_db e t s = (Ok h, s') → consistent s → history_ok (hdb h s') ∧ fs s' = fs s.
Proof.
  intros Hs%or_status_ok. unfold open_tenant in Hs.
  destruct (TenantMetaRouter.tenant_data _ t (router s)) as [r x] eqn:Ht. injection Hs as -> <-.
  intros [Hd Hf]. split; [|done]. unfold hdb. cbn. revert Ht. unfold TenantMetaRouter.tenant_data.
  destruct (TenantMetaRouter.tenant_root (router s)); [|by intros [= <- <-]].
  destruct (TenantMetaRouter.tenant_shard_key t) as [key|]; [|done].
  destruct (TenantMetaRouter.shards (router s) !! key) as [file|].
  - intros [= <- <-]. cbn. destruct (TenantMetaRouter.disk (router s) !! file) eqn:E; [by eapply Hf|apply history_ok_empty].
  - destruct (db_fault e _); [done|]. intros [= <- <-]. cbn. rewrite lookup_insert_eq. cbn.
    destruct (TenantMetaRouter.disk (router s) !! _) eqn:E; [by eapply Hf|apply history_ok_empty].
Qed.
(** ** Looking up the content *)
Lemma fs_read_files g p x r x' : Fs.read g p x = (r, x') → Fs.files x' = Fs.files x ∧ (∀ b, r = Ok b → Fs.files x !! Path.components p = Some b).
Proof.
  unfold Fs.read, st_bind, Fs.syscall. cbn. destruct (g (Fs.calls x)); [by intros [= <- <-]|].
  intros [= <- <-]. cbn. split; [done|]. intros b. by destruct (Fs.files x !! Path.components p); intros [= ->].
Qed.

Lemma blob_get_ok h s o s' :
  blob_get f cfg h s = (Ok o, s') →
  Fs.files (fs s') = Fs.files (fs s) ∧ router s' = router s
  ∧ ∀ b, o = Some b → blob (version_blobs cfg) (fs s) h = Some b.
Proof.
  unfold blob_get, ContentBlobStore.get. destruct (Fs.read _ _ _) as [r x] eqn:Hr.
  apply fs_read_files in Hr as [Hf Hb]. intros [= <- <-]. cbn. split_and!; [done|done|].
  intros b. destruct r; intros [= ->]. by apply Hb.
Qed.

Lemma disk_copy_ok rel h s o s' :
  disk_copy blake3 f cfg rel h s = (Ok o, s') →
  Fs.files (fs s') = Fs.files (fs s) ∧ router s' = router s ∧ ∀ b, o = Some b → blake3 b = h.
Proof.
  unfold disk_copy, st_bind, try_io. destruct (Fs.read _ _ _) as [r x] eqn:Hr.
  apply fs_read_files in Hr as [Hf _]. intros [= <- <-]. cbn. split_and!; [done|done|].
  intros b. destruct r as [c|]; [|done]. case_decide; [by intros [= ->]|done].
Qed.

Lemma version_blob_none db t v p ver s o s' :
  version_blob f cfg e db t v p ver s = (Ok o, s') → (get_file_version t v p ver (hdb db s)).1 = Ok None →
  o = None ∧ Fs.files (fs s') = Fs.files (fs s) ∧ hdb db s' = hdb db s.
Proof.
  unfold version_blob, st_bind, catch, on_tenant, hdb. intros H Hn. revert H.
  destruct (db_fault e _); [by intros [= <- <-]|]. unfold TenantMetaRouter.with_db.
  pose proof (get_version_reads t v p ver (TenantMetaRouter.read_db db (router s))) as Hr.
  destruct (get_file_version _ _ _ _ _) as [r d]. cbn in Hn, Hr. subst. intros [= <- <-]. cbn.
  by rewrite read_write.
Qed.

(** The recycle bin finds the content with the digest of the row, or nothing. *)
Lemma resolve_trash_exact db t v p m s data s' :
  version_blobs cfg ≠ "" → addressed blake3 (version_blobs cfg) (fs s) → history_ok (hdb db s) → str_utf8 p = true →
  (get_file_scoped t v p (hdb db s)).1 = Ok (Some m) →
  resolve_trash_blob blake3 f cfg e db t v m s = (Ok (Some data), s') →
  blake3 data = FileMeta.content_hash m ∧ Fs.files (fs s') = Fs.files (fs s) ∧ hdb db s' = hdb db s.
Proof.
  intros Hroot Haddr Hok Hutf Hg. destruct (get_file_row _ _ _ _ _ (proj1 Hok) Hg) as (r&Hr&_&Hp&Hh&Hv).
  unfold resolve_trash_blob. intros (b1&s1&(F1&R1&H1)%blob_get_ok&Hk)%st_bind_ok.
  assert (hdb db s1 = hdb db s) as D1 by (unfold hdb; by rewrite R1).
  destruct b1 as [b1|].
  { injection Hk as -> <-. split_and!; [|done|done]. apply Haddr; [done|]. by apply H1. }
  apply st_bind_ok in Hk as (b2&s2&H2&Hk). unfold to_str in H2, Hk. rewrite Hp, Hutf in H2, Hk. cbn [default] in H2.
  assert (b2 = None ∧ Fs.files (fs s2) = Fs.files (fs s) ∧ hdb db s2 = hdb db s) as (->&F2&D2).
  { destruct (FileMeta.version_id m) as [ver|].
    - symmetry in Hv. pose proof (live_not_in_history t v p r ver _ Hok Hr Hv) as Hn. rewrite <-D1 in Hn.
      apply version_blob_none in H2 as (->&?&?); [|done]. split; [done|]. split; congruence.
    - by injection H2 as <- <-. }
  apply disk_copy_ok in Hk as (F3&R3&H3). split; [by apply H3|]. split; [congruence|]. unfold hdb. by rewrite R3.
Qed.
(** ** Writing *)
Definition inside (base : string) (q : list Path.component) : Prop := Path.components base `prefix_of` q.

Lemma target_of_ok p s target s' :
  target_of canonicalize cfg p s = (Ok target, s') →
  s' = s ∧ str_utf8 p = true ∧ PathGuard.validate (canonicalize (fs s)) p (sync_root cfg) = Some (Ok target)
  ∧ ∃ root, canonicalize (fs s) (sync_root cfg) = Some root ∧ inside root (Path.components target).
Proof.
  unfold target_of. destruct (PathGuard.validate _ _ _) as [[t|]|] eqn:Hv; [|done..]. intros [= <- <-].
  destruct (validate_inside _ _ _ _ Hv). done.
Qed.

Lemma create_parent_ok target s r s' :
  create_parent f target s = (r, s') → Fs.files (fs s') = Fs.files (fs s) ∧ router s' = router s.
Proof.
  unfold create_parent. destruct (Path.parent target) as [q|]; [|by intros [= _ <-]].
  unfold io. destruct (Fs.create_dir_all f q (fs s)) as [r1 x] eqn:Hc. intros [= _ <-].
  by apply Fs.create_dir_all_files in Hc.
Qed.

Lemma write_ok target data s r s' msg :
  io msg (Fs.write f cut target data) s = (Ok r, s') →
  Fs.files (fs s') !! Path.components target = Some data ∧ router s' = router s.
Proof.
  unfold io. destruct (Fs.write f cut target data (fs s)) as [[[]|] x] eqn:Hw; [|done]. intros [= _ <-].
  split; [|done]. unfold Fs.write in Hw. apply st_bind_ok in Hw as ([]&x1&Hc%Fs.create_ok&Hw%Fs.write_all_ok).
  cbn. by rewrite Hw, Hc.
Qed.

Lemma io_frame {A} msg P (m : Fs.io A) s r s' :
  Fs.frame P m → io msg m s = (r, s') → ∀ q, ¬ P q → Fs.files (fs s') !! q = Fs.files (fs s) !! q.
Proof. intros Hm. unfold io. destruct (m (fs s)) as [r1 x] eqn:Hx. intros [= _ <-]. by eapply Hm. Qed.

Lemma blob_put_frame h c s r s' :
  version_blobs cfg ≠ "" → hash32 h → blob_put f cut cfg e h c s = (r, s') →
  router s' = router s
  ∧ ∀ q, ¬ inside (version_blobs cfg) q → Fs.files (fs s') !! q = Fs.files (fs s) !! q.
Proof.
  intros Hroot Hh. unfold blob_put, st_bind, try_io. cbn.
  destruct (ContentBlobStore.put _ _ _ _ _ _ _) as [r1 x] eqn:Hp. intros [= _ <-]. split; [done|]. cbn.
  intros q Hq. eapply put_frame; [exact Hp|]. intros [->| ->].
  - apply Hq. unfold inside. rewrite BlobLayout.blob_path_components by done. by apply prefix_app_r.
  - apply Hq. unfold inside. rewrite tmp_path_components by done. by apply prefix_app_r.
Qed.

Lemma record_ok db t v m u ret s ver s' :
  or_db_error (record e db t v m u ret) s = (Ok ver, s') →
  (∃ z z', upsert_file_scoped_versioned z z' t v m u ret (hdb db s) = (Ok ver, hdb db s')) ∧ fs s' = fs s.
Proof. intros [Hu Hf]%on_tenant_ok. by eauto. Qed.

(** The end of every restore: write, record, keep the blob. *)
Lemma commit_run {B} db t v node target hash data size nonce u ret (g : Z → B) s r s' :
  version_blobs cfg ≠ "" → files_keyed (hdb db s) → hash32 hash → ¬ inside (version_blobs cfg) (Path.components target) →
  (_ <~ io "write failed" (Fs.write f cut target data) ;;
   mtime <~ read_now_ns e ;;
   ver <~ or_db_error (record e db t v (restored_meta cfg node target hash size mtime nonce) u ret) ;;
   _ <~ blob_put f cut cfg e hash data ;;
   st_ret (g ver)) s = (Ok r, s') →
  (∃ ver, r = g ver) ∧ Fs.files (fs s') !! Path.components target = Some data
  ∧ ∃ ps row, path_as_str (relative cfg target) = Ok ps ∧ file_map (hdb db s') !! (t, v, ps) = Some row
      ∧ FileRow.content_hash row = hash ∧ FileRow.deleted row = 0 ∧ FileRow.encryption_nonce row = nonce.
Proof.
  intros Hroot Hk0 H32 Hout ([]&s7&[F7 R7]%write_ok&Hk)%st_bind_ok.
  apply st_bind_ok in Hk as (mt&s8&[= <- <-]&Hk).
  apply st_bind_ok in Hk as (ver&s8&[(z&z'&Hu) F8]%record_ok&Hk).
  apply st_bind_ok in Hk as ([]&s9&Hput&[= <- <-]). apply blob_put_frame in Hput as [R9 F9]; [|done|done].
  destruct (path_as_str (relative cfg target)) as [ps|] eqn:Hps.
  2: { unfold upsert_file_scoped_versioned, st_bind, st_lift in Hu. cbn in Hu. by rewrite Hps in Hu. }
  apply versioned_row with (ps := ps) in Hu as (_&row&Hrow&Hrh&Hrd&Hrn); [|unfold hdb; by rewrite R7|done].
  split; [by eexists|]. split; [rewrite F9 by done; by rewrite F8|].
  exists ps, row. split_and!; try done. unfold hdb. by rewrite R9.
Qed.
End handlers.

(** A restore from the recycle bin is exact. When it reports success, the
    file is on disk with the content whose digest the answer names, and the
    index has the file live under that digest again; provided every
    database's history is consistent, the blob store holds what its names
    say, and the file is not one of the store's own. *)
Theorem restore_trash_exact {codec : VcCodec} {jwt : JwtLib} blake3 f cut canonicalize lib cfg e a body v s r s' :
  version_blobs cfg ≠ "" → addressed blake3 (version_blobs cfg) (fs s) → consistent s →
  (∀ x p t, PathGuard.validate (canonicalize x) p (sync_root cfg) = Some (Ok t) →
     ¬ inside (version_blobs cfg) (Path.components t)) →
  restore_trash blake3 f cut canonicalize lib cfg e a body v s = (Ok r, s') →
  ∃ target data db tenant ps row,
    Fs.files (fs s') !! Path.components target = Some data
    ∧ rt_content_hash_hex r = Hex.encode (blake3 data)
    ∧ path_as_str (relative cfg target) = Ok ps
    ∧ file_map (hdb db s') !! (tenant, v, ps) = Some row
    ∧ FileRow.content_hash row = blake3 data ∧ FileRow.deleted row = 0.
Proof.
  intros Hroot Haddr Hcons Hout. unfold restore_trash.
  intros (p&s0&[_ ->]%require_ok&Hk)%st_bind_ok.
  apply st_bind_ok in Hk as (who&s1&H1&Hk).
  apply consistent_quiet in H1 as [C1 F1]; [|apply quiet_authorize, quiet_write|done].
  apply st_bind_ok in Hk as (tier&s2&H2&Hk). apply consistent_quiet in H2 as [C2 F2]; [|apply quiet_plan|done].
  apply st_bind_ok in Hk as (db&s3&H3&Hk). apply open_tenant_ok in H3 as [C3 F3]; [|done].
  apply st_bind_ok in Hk as (found&s4&[Hg F4]%read_db_ok&Hk).
  apply st_bind_ok in Hk as (m&s5&[-> ->]%require_ok&Hk).
  pose proof (get_file_reads who.2 v p (hdb db s3)) as D4. rewrite Hg in D4. cbn in D4.
  destruct (FileMeta.deleted m); [|done]. cbn [negb] in Hk.
  apply st_bind_ok in Hk as (blob&s5&Hb&Hk). apply st_bind_ok in Hk as (data&s6&[-> ->]%require_ok&Hk).
  apply st_bind_ok in Hk as (target&s6&(->&Hutf&Hval&_)%target_of_ok&Hk).
  apply resolve_trash_exact with (p := p) in Hb as (Hh&F5&D5); [|done|by rewrite F4, F3, F2, F1|by rewrite D4|done|by rewrite D4, Hg].
  apply st_bind_ok in Hk as ([]&s6&[F6 R6]%create_parent_ok&Hk).
  destruct (get_file_row who.2 v p (hdb db s3) m (proj1 C3)) as (_&_&_&_&H32&_); [by rewrite Hg|].
  assert (hdb db s6 = hdb db s3) as D6 by (unfold hdb in *; rewrite R6; congruence).
  apply (commit_run f cut cfg e db who.2 v "trash-restore" target (FileMeta.content_hash m) data) in Hk
    as ([ver ->]&Hd&ps&row&Hps&Hrow&Hrh&Hrd&_); [|done|rewrite D6; apply C3|done|by eapply Hout].
  exists target, data, db, who.2, ps, row. cbn [rt_content_hash_hex]. rewrite Hh. done.
Qed.

Lemma version_row_hash {codec : VcCodec} t v p ver db row : (get_file_version t v p ver db).1 = Ok (Some row) → hash32 (FileVersionRow.content_hash row).
Proof.
  unfold get_file_version, st_bind, query, st_lift. cbn. destruct (head _) as [r|]; [|done]. cbn.
  unfold row_to_version, hash_of_blob. destruct (decide (hash32 (VersionRow.content_hash r))); [|done].
  cbn. by intros [= <-].
Qed.

Section keep.
Context {codec : VcCodec} (f : Fs.faults) (cut : Fs.cuts) (cfg : config) (e : env).

Lemma file_meta_hash t v p db m : (get_file_scoped t v p db).1 = Ok (Some m) → hash32 (FileMeta.content_hash m).
Proof.
  unfold get_file_scoped, st_bind, query, st_lift. cbn. destruct (fetch_file t v p db) as [r|]; [|done]. cbn.
  unfold row_to_meta, hash_of_blob. destruct (decide (hash32 (FileRow.content_hash r))); [|done].
  cbn. by intros [= <-].
Qed.

Lemma keep_current_frame db t v p target s r s' :
  version_blobs cfg ≠ "" → keep_current f cut cfg e db t v p target s = (r, s') →
  hdb db s' = hdb db s
  ∧ ∀ q, ¬ inside (version_blobs cfg) q → Fs.files (fs s') !! q = Fs.files (fs s) !! q.
Proof.
  intros Hroot. unfold keep_current, st_bind at 1, try_io at 1.
  destruct (Fs.exists_ f target (fs s)) as [r0 x0] eqn:E0. apply Fs.stat_spec in E0 as (F0&_&b&->&_).
  destruct b; [|intros [= _ <-]; split; [done|]; intros q _; cbn; by rewrite F0].
  unfold st_bind at 1, try_io. cbn [fs set_fs]. destruct (Fs.read f target x0) as [rr x] eqn:Hr.
  apply fs_read_files in Hr as [Hf _]. rewrite F0 in Hf.
  destruct rr as [cur|]; [|intros [= _ <-]; split; [done|]; cbn; by rewrite Hf].
  unfold st_bind, catch, on_tenant. destruct (db_fault e _); [intros [= _ <-]; split; [done|]; cbn; by rewrite Hf|].
  unfold TenantMetaRouter.with_db. cbn [router set_fs].
  pose proof (get_file_reads t v p (TenantMetaRouter.read_db db (router s))) as D.
  pose proof (file_meta_hash t v p (TenantMetaRouter.read_db db (router s))) as Hh.
  destruct (get_file_scoped _ _ _ _) as [[[m|]|] d]; cbn in D, Hh; subst d.
  - intros [R F]%blob_put_frame; [|done|by apply Hh]. split; [unfold hdb; rewrite R; cbn; by rewrite read_write|].
    intros q Hq. rewrite F by done. cbn. by rewrite Hf.
  - intros [= _ <-]. cbn. split; [unfold hdb; cbn; by rewrite read_write|]. by rewrite Hf.
  - intros [= _ <-]. cbn. split; [unfold hdb; cbn; by rewrite read_write|]. by rewrite Hf.
Qed.
End keep.

(** Restoring a version forgets how it was encrypted. When it reports
    success the file has the content of that version and the index its
    digest; but the version table keeps no nonce, and the file is recorded as
    not encrypted, whatever it was uploaded as: a client takes the ciphertext
    for the file's content. *)
Theorem restore_version_drops_nonce {codec : VcCodec} {jwt : JwtLib} blake3 f cut canonicalize lib cfg e a body v ver s r s' :
  version_blobs cfg ≠ "" → addressed blake3 (version_blobs cfg) (fs s) → consistent s →
  (∀ x p t, PathGuard.validate (canonicalize x) p (sync_root cfg) = Some (Ok t) →
     ¬ inside (version_blobs cfg) (Path.components t)) →
  restore_version f cut canonicalize lib cfg e a body v ver s = (Ok r, s') →
  ∃ target data db tenant ps row,
    Fs.files (fs s') !! Path.components target = Some data
    ∧ rv_content_hash_hex r = Hex.encode (blake3 data)
    ∧ path_as_str (relative cfg target) = Ok ps
    ∧ file_map (hdb db s') !! (tenant, v, ps) = Some row
    ∧ FileRow.content_hash row = blake3 data ∧ FileRow.deleted row = 0 ∧ FileRow.encryption_nonce row = None.
Proof.
  intros Hroot Haddr Hcons Hout. unfold restore_version.
  intros (p&s0&[_ ->]%require_ok&Hk)%st_bind_ok. destruct (decide (ver = 0)); [done|].
  apply st_bind_ok in Hk as (who&s1&H1&Hk).
  apply consistent_quiet in H1 as [C1 F1]; [|apply quiet_authorize, quiet_write|done].
  apply st_bind_ok in Hk as (tier&s2&H2&Hk). apply consistent_quiet in H2 as [C2 F2]; [|apply quiet_plan|done].
  apply st_bind_ok in Hk as (db&s3&H3&Hk). apply open_tenant_ok in H3 as [C3 F3]; [|done].
  apply st_bind_ok in Hk as (live&s4&[Hg F4]%read_db_ok&Hk).
  pose proof (get_file_reads who.2 v p (hdb db s3)) as D4. rewrite Hg in D4. cbn in D4.
  destruct (bool_decide _); [done|].
  apply st_bind_ok in Hk as (found&s5&[Hv F5]%read_db_ok&Hk).
  pose proof (get_version_reads who.2 v p ver (hdb db s4)) as D5. rewrite Hv in D5. cbn in D5.
  apply st_bind_ok in Hk as (version&s6&[-> ->]%require_ok&Hk).
  assert (hash32 (FileVersionRow.content_hash version)) as H32 by (eapply version_row_hash; by rewrite Hv).
  apply st_bind_ok in Hk as (blob&s6&(F6&R6&Hb)%blob_get_ok&Hk).
  apply st_bind_ok in Hk as (data&s7&[-> ->]%require_ok&Hk).
  assert (blake3 data = FileVersionRow.content_hash version) as Hh.
  { specialize (Hb data eq_refl). rewrite F5, F4, F3, F2, F1 in Hb. by apply Haddr. }
  destruct (match live with Some _ => _ | None => _ end); [done|].
  apply st_bind_ok in Hk as (target&s7&(->&_&Hval&_)%target_of_ok&Hk).
  apply st_bind_ok in Hk as ([]&s7&[F7 R7]%create_parent_ok&Hk).
  apply st_bind_ok in Hk as ([]&s8&Hkeep&Hk). apply keep_current_frame in Hkeep as [D8 F8]; [|done].
  assert (hdb db s8 = hdb db s3) as D9 by (unfold hdb in *; rewrite D8, R7, R6; congruence).
  apply (commit_run f cut cfg e db who.2 v "dashboard-restore" target (FileVersionRow.content_hash version) data) in Hk
    as ([nv ->]&Hd&ps&row&Hps&Hrow&Hrh&Hrd&Hrn); [|done|rewrite D9; apply C3|done|by eapply Hout].
  exists target, data, db, who.2, ps, row. cbn [rv_content_hash_hex]. rewrite Hh. done.
Qed.

(** ** Where a restore writes *)
Section contained.
Context {codec : VcCodec} {jwt : JwtLib} (blake3 : bytes → bytes) (f : Fs.faults) (cut : Fs.cuts).
Context (canonicalize : Fs.t → string → option string) (lib : libs) (cfg : config) (e : env) (root : string).
Hypothesis Hroot : version_blobs cfg ≠ "".
Hypothesis Hcanon : ∀ x r, canonicalize x (sync_root cfg) = Some r → r = root.

Definition touches {A} (m : hm A) : Prop :=
  ∀ s q, ¬ inside root q → ¬ inside (version_blobs cfg) q → Fs.files (fs (m s).2) !! q = Fs.files (fs s) !! q.

(** What a call returns, whatever the state. *)
Definition yields {A} (m : hm A) (Q : A → Prop) : Prop := ∀ s a s', m s = (Ok a, s') → Q a.

Lemma touches_bind {A B} (Q : A → Prop) (m : hm A) (k : A → hm B) :
  touches m → yields m Q → (∀ a, Q a → touches (k a)) → touches (st_bind m k).
Proof.
  intros Hm Hy Hk s q H1 H2. unfold st_bind. specialize (Hm s q H1 H2).
  destruct (m s) as [[a|x] s1] eqn:Hs; [|done]. rewrite (Hk a (Hy _ _ _ Hs) s1 q H1 H2). done.
Qed.
Lemma touches_seq {A B} (m : hm A) (k : A → hm B) : touches m → (∀ a, touches (k a)) → touches (st_bind m k).
Proof. intros Hm Hk. by apply (touches_bind (λ _, True)). Qed.
Lemma touches_quiet {A} (m : hm A) : quiet m → touches m.
Proof. intros Hm s q _ _. by destruct (Hm s) as (->&_). Qed.
Lemma touches_fs {A} (m : hm A) : (∀ s, Fs.files (fs (m s).2) = Fs.files (fs s)) → touches m.
Proof. intros Hm s q _ _. by rewrite Hm. Qed.
Lemma yields_require {A} (o : option A) c msg : yields (require o c msg) (λ a, o = Some a).
Proof. by intros s a s' [? _]%require_ok. Qed.

Lemma touches_on_tenant {A} h (m : Z → dbm A) c msg : touches (or_status c msg (on_tenant e h m)).
Proof.
  apply touches_fs. intros s. unfold or_status, on_tenant. destruct (db_fault e _); [done|].
  by destruct (TenantMetaRouter.with_db _ _ _).
Qed.
Lemma touches_read {A} h (m : dbm A) : touches (read_db e h m).
Proof. apply touches_on_tenant. Qed.
Lemma touches_open t : touches (tenant_db e t).
Proof.
  apply touches_fs. intros s. unfold tenant_db, or_db_error, or_status, open_tenant.
  by destruct (TenantMetaRouter.tenant_data _ _ _).
Qed.
Lemma touches_blob_get h : touches (blob_get f cfg h).
Proof.
  apply touches_fs. intros s. destruct (blob_get f cfg h s) as [[o|] s'] eqn:Hs; [by apply blob_get_ok in Hs as [? _]|].
  unfold blob_get in Hs. by destruct (ContentBlobStore.get _ _ _ _).
Qed.
Lemma touches_disk_copy rel h : touches (disk_copy blake3 f cfg rel h).
Proof.
  apply touches_fs. intros s. destruct (disk_copy blake3 f cfg rel h s) as [[o|] s'] eqn:Hs;
    [by apply disk_copy_ok in Hs as [? _]|]. unfold disk_copy, st_bind, try_io in Hs. by destruct (Fs.read _ _ _).
Qed.
Lemma touches_version_blob db t v p ver : touches (version_blob f cfg e db t v p ver).
Proof.
  apply touches_seq.
  - apply touches_fs. intros s. unfold catch, on_tenant. destruct (db_fault e _); [done|].
    by destruct (TenantMetaRouter.with_db _ _ _).
  - intros [[row|]|]; [apply touches_blob_get|by apply touches_quiet..].
Qed.
Lemma touches_target p : touches (target_of canonicalize cfg p).
Proof. by apply touches_fs. Qed.
Lemma yields_target p : yields (target_of canonicalize cfg p) (λ t, inside root (Path.components t)).
Proof. intros s t s' (_&_&_&r&Hr&Hin)%target_of_ok. by apply Hcanon in Hr as ->. Qed.
Lemma touches_parent t : touches (create_parent f t).
Proof. intros s q _ _. destruct (create_parent f t s) eqn:Hs. apply create_parent_ok in Hs as [Hf _]. cbn. by rewrite Hf. Qed.
Lemma touches_write msg t d : inside root (Path.components t) → touches (io msg (Fs.write f cut t d)).
Proof.
  intros Ht s q Hq _. destruct (io msg (Fs.write f cut t d) s) as [r s'] eqn:Hs.
  apply (io_frame msg (λ q, q = Path.components t)) with (q := q) in Hs; [done|apply Fs.frame_write|by intros ->].
Qed.
Lemma touches_put h d : hash32 h → touches (blob_put f cut cfg e h d).
Proof.
  intros Hh s q _ Hq. destruct (blob_put f cut cfg e h d s) as [r s'] eqn:Hs. apply blob_put_frame in Hs as [_ Hs]; auto.
Qed.
Lemma touches_keep db t v p target : touches (keep_current f cut cfg e db t v p target).
Proof.
  intros s q _ Hq. destruct (keep_current f cut cfg e db t v p target s) as [r s'] eqn:Hs.
  apply keep_current_frame in Hs as [_ Hs]; auto.
Qed.
Lemma touches_authorize a v : touches (authorize lib cfg e a v Access.require_write).
Proof. apply touches_quiet, quiet_authorize, quiet_write. Qed.
Lemma touches_plan t : touches (plan_of e t).
Proof. apply touches_quiet, quiet_plan. Qed.

Lemma touches_resolve_trash db t v m : touches (resolve_trash_blob blake3 f cfg e db t v m).
Proof.
  apply touches_seq; [apply touches_blob_get|]. intros [b|]; [by apply touches_quiet|].
  apply touches_seq; [destruct (FileMeta.version_id m); [apply touches_version_blob|by apply touches_quiet]|].
  intros [b|]; [by apply touches_quiet|]. destruct (to_str _); [apply touches_disk_copy|by apply touches_quiet].
Qed.
Lemma touches_resolve db t v entry : touches (resolve_blob blake3 f cfg e db t v entry).
Proof.
  apply touches_seq; [apply touches_blob_get|]. intros [b|]; [by apply touches_quiet|].
  apply touches_seq; [destruct (bool_decide _); [apply touches_version_blob|by apply touches_quiet]|].
  intros [b|]; [by apply touches_quiet|]. apply touches_disk_copy.
Qed.

Lemma yields_file db t v p : yields (read_db e db (get_file_scoped t v p)) (λ o, ∀ m, o = Some m → hash32 (FileMeta.content_hash m)).
Proof. intros s o s' [Hg _]%read_db_ok m ->. eapply file_meta_hash. by rewrite Hg. Qed.
Lemma yields_version db t v p ver :
  yields (read_db e db (get_file_version t v p ver)) (λ o, ∀ r, o = Some r → hash32 (FileVersionRow.content_hash r)).
Proof. intros s o s' [Hg _]%read_db_ok m ->. eapply version_row_hash. by rewrite Hg. Qed.
Lemma yields_snapshot db t v id :
  yields (read_db e db (MetaSnapshots.list_snapshot_files t v id))
    (Forall (λ r, hash32 (MetaSnapshots.VaultSnapshotFileRow.content_hash r))).
Proof.
  intros s rows s' [Hg _]%read_db_ok. unfold MetaSnapshots.list_snapshot_files in Hg.
  apply st_bind_ok in Hg as (l&db'&_&Hg). apply st_lift_ok in Hg as [Hg _]. apply collect_results_inv in Hg.
  induction Hg as [|x y l rows' Hx _ IH]; constructor; [|exact IH].
  unfold MetaSnapshots.row_to_snapshot_file, hash_of_blob in Hx.
  destruct (decide (hash32 (SnapshotFileRow.content_hash x))); [|done]. cbn in Hx. by injection Hx as <-.
Qed.

Lemma touches_record db t v meta u ret : touches (or_db_error (record e db t v meta u ret)).
Proof. intros s. apply touches_on_tenant. Qed.

Lemma touches_restore_trash a body v : touches (restore_trash blake3 f cut canonicalize lib cfg e a body v).
Proof.
  apply touches_seq; [apply touches_quiet, quiet_require|intros p].
  apply touches_seq; [apply touches_authorize|intros who]. apply touches_seq; [apply touches_plan|intros tier].
  apply touches_seq; [apply touches_open|intros db].
  eapply touches_bind; [apply touches_read|apply yields_file|intros found Hf].
  eapply touches_bind; [apply touches_quiet, quiet_require|apply yields_require|intros m ->].
  destruct (negb _); [by apply touches_quiet|]. apply touches_seq; [apply touches_resolve_trash|intros blob].
  apply touches_seq; [apply touches_quiet, quiet_require|intros data].
  eapply touches_bind; [apply touches_target|apply yields_target|intros target Ht].
  apply touches_seq; [apply touches_parent|intros _]. apply touches_seq; [by apply touches_write|intros _].
  apply touches_seq; [by apply touches_quiet|intros mt]. apply touches_seq; [apply touches_record|intros ver].
  apply touches_seq; [by apply touches_put, Hf|intros _]. by apply touches_quiet.
Qed.

Lemma touches_restore_version a body v ver : touches (restore_version f cut canonicalize lib cfg e a body v ver).
Proof.
  apply touches_seq; [apply touches_quiet, quiet_require|intros p]. destruct (decide _); [by apply touches_quiet|].
  apply touches_seq; [apply touches_authorize|intros who]. apply touches_seq; [apply touches_plan|intros tier].
  apply touches_seq; [apply touches_open|intros db]. apply touches_seq; [apply touches_read|intros live].
  destruct (bool_decide _); [by apply touches_quiet|].
  eapply touches_bind; [apply touches_read|apply yields_version|intros found Hf].
  eapply touches_bind; [apply touches_quiet, quiet_require|apply yields_require|intros version ->].
  apply touches_seq; [apply touches_blob_get|intros blob]. apply touches_seq; [apply touches_quiet, quiet_require|intros data].
  destruct (match live with Some _ => _ | None => _ end); [by apply touches_quiet|].
  eapply touches_bind; [apply touches_target|apply yields_target|intros target Ht].
  apply touches_seq; [apply touches_parent|intros _]. apply touches_seq; [apply touches_keep|intros _].
  apply touches_seq; [by apply touches_write|intros _].
  apply touches_seq; [by apply touches_quiet|intros mt]. apply touches_seq; [apply touches_record|intros nv].
  apply touches_seq; [by apply touches_put, Hf|intros _]. by apply touches_quiet.
Qed.

Lemma touches_restore_entry db t v u ret entry :
  hash32 (MetaSnapshots.VaultSnapshotFileRow.content_hash entry) →
  touches (restore_entry blake3 f cut canonicalize cfg e db t v u ret entry).
Proof.
  intros Hh. unfold restore_entry. destruct (_ || _); [by apply touches_quiet|].
  apply touches_seq; [apply touches_resolve|intros blob]. apply touches_seq; [apply touches_quiet, quiet_require|intros data].
  eapply touches_bind; [apply touches_target|apply yields_target|intros target Ht].
  apply touches_seq; [apply touches_parent|intros _]. apply touches_seq; [apply touches_keep|intros _].
  apply touches_seq; [by apply touches_write|intros _].
  apply touches_seq; [by apply touches_quiet|intros mt]. apply touches_seq; [apply touches_record|intros nv].
  by apply touches_put.
Qed.

Lemma touches_restore_files db t v u ret entries c s q :
  Forall (λ r, hash32 (MetaSnapshots.VaultSnapshotFileRow.content_hash r)) entries →
  ¬ inside root q → ¬ inside (version_blobs cfg) q →
  Fs.files (fs (restore_files blake3 f cut canonicalize cfg e db t v u ret entries c s).2) !! q = Fs.files (fs s) !! q.
Proof.
  intros Hh H1 H2. revert c s. induction Hh as [|x l Hx _ IH]; intros c s; [done|]. cbn [restore_files].
  destruct (MetaSnapshots.VaultSnapshotFileRow.deleted x); [apply IH|].
  pose proof (touches_restore_entry db t v u ret x Hx s q H1 H2) as He.
  destruct (restore_entry _ _ _ _ _ _ _ _ _ _ _ _ s) as [[[]|] s1]; by rewrite IH.
Qed.

Lemma touches_restore_snapshot a v id : touches (restore_snapshot blake3 f cut canonicalize lib cfg e a v id).
Proof.
  apply touches_seq; [apply touches_authorize|intros who]. apply touches_seq; [apply touches_plan|intros tier].
  apply touches_seq; [apply touches_open|intros db]. apply touches_seq; [apply touches_read|intros found].
  apply touches_seq; [apply touches_quiet, quiet_require|intros snap].
  eapply touches_bind; [apply touches_read|apply yields_snapshot|intros rows Hh].
  intros s q H1 H2. pose proof (touches_restore_files db who.2 v (UserAccount.id who.1)
    (PlanTier.version_retention tier) rows (mkCounts 0 0 0) s q Hh H1 H2) as Ht.
  by destruct (restore_files _ _ _ _ _ _ _ _ _ _ _ _ _ _) as [c s1].
Qed.
End contained.

(** Where a restore writes. Restoring from the recycle bin, a version or a
    whole snapshot, whatever the request, the rows and the failures, changes
    no file outside the server's root and its blob store, whatever links the
    root contains. In particular, when the vault has a directory of its own
    elsewhere, nothing is restored there. *)
Theorem restore_contained {codec : VcCodec} {jwt : JwtLib} blake3 f cut canonicalize lib cfg e root a v s q :
  version_blobs cfg ≠ "" → (∀ x r, canonicalize x (sync_root cfg) = Some r → r = root) →
  ¬ inside root q → ¬ inside (version_blobs cfg) q →
  (∀ body, Fs.files (fs (restore_trash blake3 f cut canonicalize lib cfg e a body v s).2) !! q = Fs.files (fs s) !! q)
  ∧ (∀ body ver, Fs.files (fs (restore_version f cut canonicalize lib cfg e a body v ver s).2) !! q = Fs.files (fs s) !! q)
  ∧ ∀ id, Fs.files (fs (restore_snapshot blake3 f cut canonicalize lib cfg e a v id s).2) !! q = Fs.files (fs s) !! q.
Proof.
  intros Hroot Hcanon H1 H2. split_and!.
  - intros body. by apply (touches_restore_trash blake3 f cut canonicalize lib cfg e root Hroot Hcanon).
  - intros body ver. by apply (touches_restore_version f cut canonicalize lib cfg e root Hroot Hcanon).
  - intros id. by apply (touches_restore_snapshot blake3 f cut canonicalize lib cfg e root Hroot Hcanon).
Qed.

(** ** Runs to try them on *)
#[local] Existing Instance BinaryCodec.codec.
#[local] Existing Instance Toy.jwt.
#[local] Abbreviation noted m := (MetaFiles.upsert_file_scoped_versioned 10 10 (Some "acme") "notes" m "ann"
  (PlanTier.version_retention PlanTier.Free)).

(** A digest that tells contents apart by their first byte. *)
Definition digest (b : bytes) : bytes := replicate 32 (default x00 (head b)).
Definition existing (x : Fs.t) (p : string) : option string :=
  if decide (p = "/srv") then Some "/srv" else if Fs.there x p then Some p else None.

(** The store outside the root, as [restore_trash_exact] wants it. *)
Definition apart : config :=
  {| sync_root := "/srv"; version_blobs := "/blobs"; signing_key := AccountsTheorems.demo_key; jwt_mode := Local;
     local_signing_key := AccountsTheorems.demo_key; token_ttl_secs := 3600; email_mode := Disabled;
     public_base_url := None; email_ttl_secs := 0 |}.

Definition meta_of (b : byte) (deleted : bool) (ver : option Z) : FileMeta :=
  FileMeta.mk "a.txt" (replicate 32 b) 1 7 None VC.new deleted (if deleted then Some 9 else None) "ann" None ver None.

(** The disk: both directories, and the given contents in the store. *)
Definition stored_fs (contents : list bytes) : Fs.t :=
  foldl (λ x c, (ContentBlobStore.put BlobProps.no_faults (λ _, O) "/blobs" 7 (digest c) c x).2)
    (Fs.mk ∅ {[ []; [Path.RootDir]; [Path.RootDir; Path.Normal "srv"]; [Path.RootDir; Path.Normal "blobs"] ]} 0)
    contents.

Definition on_state (s : Http.t) (db : MetaDb → MetaDb) (x : Fs.t) : Http.t :=
  let r := router s in
  Http.mk (acct s) (TenantMetaRouter.mk (TenantMetaRouter.control r) (db (TenantMetaRouter.data r))
                      (TenantMetaRouter.tenant_root r) (TenantMetaRouter.shards r) (TenantMetaRouter.disk r))
    (revisions s) x (jobs s) (dropped s) (statements s).
Definition on_server : (MetaDb → MetaDb) → Fs.t → Http.t := on_state SharingTheorems.demo2.

(** [a.txt] with content [a], then [b], which archives [a]; deleted, and the
    recycle bin emptied; [a.txt] again, with content [c]; and deleted. *)
Definition twice_deleted : Http.t :=
  let s1 := on_server (λ db, (noted (meta_of x62 true None) (noted (meta_of x62 false None)
                                (noted (meta_of x61 false None) db).2).2).2) (stored_fs [[x61]]) in
  let s2 := (Restore.empty_trash AccountsTheorems.demo_lib apart AccountsTheorems.demo_env SharingTheorems.ann_token "notes" true s1).2 in
  let db := (noted (meta_of x63 true None) (noted (meta_of x63 false None) (TenantMetaRouter.data (router s2))).2).2 in
  on_server (λ _, db) (fs s2).

(** A restore can bring back the wrong content and poison the store. The
    history of a file is not cleared when it leaves the recycle bin, and a
    file made anew starts again at version 1; when the content of its row is
    not in the store, the restore takes the blob of the version with the same
    number, which is another file's content. It writes that to disk, reports
    and records the digest of the content it did not find, and then stores
    the wrong content under that digest. *)
Theorem restore_poisons_store :
  let '(r, s') := restore_trash digest BlobProps.no_faults (λ _, O) existing AccountsTheorems.demo_lib apart
                    AccountsTheorems.demo_env SharingTheorems.ann_token "a.txt" "notes" twice_deleted in
  rt_content_hash_hex <$> (match r with Ok x => Some x | Err _ => None end) = Some (Hex.encode (digest [x63]))
  ∧ Fs.files (fs s') !! Path.components "/srv/a.txt" = Some [x61]
  ∧ blob "/blobs" (fs twice_deleted) (digest [x63]) = None
  ∧ blob "/blobs" (fs s') (digest [x63]) = Some [x61] ∧ digest [x61] ≠ digest [x63].
Proof. vm_compute. split_and!; try reflexivity. discriminate. Qed.

(** A file with one version in its history; [deleted] or not. *)
Definition row_of (deleted : bool) : FileRow.t :=
  FileRow.mk (Some "acme") "notes" "a.txt" (replicate 32 x61) 1 7 None (vc_to_json VC.new) (bool_int deleted)
    (if deleted then Some 9 else None) None (Some 2) (Some 1) 1 1.
Definition old_version : VersionRow.t :=
  VersionRow.mk (Some "acme") "notes" "a.txt" 1 0 (replicate 32 x62) 1 7 1 (Some "ann").
Definition with_versions (deleted : bool) (db : MetaDb) : MetaDb :=
  set_file_versions (λ _, [old_version]) (set_files (λ _, [row_of deleted]) db).
Definition versioned (deleted : bool) : Http.t := on_server (with_versions deleted) (stored_fs [[x61]; [x62]]).

Lemma with_versions_ok deleted db : history_ok (with_versions deleted db).
Proof.
  assert (file_map (with_versions deleted db) = {[ (Some "acme", "notes", "a.txt") := row_of deleted ]}) as Hm by reflexivity.
  split_and!.
  - apply NoDup_singleton.
  - rewrite Hm. intros k r [<- <-]%lookup_singleton_Some. by destruct deleted.
  - rewrite Hm. intros h ->%list_elem_of_singleton. exists (row_of deleted).
    split; [apply lookup_singleton_eq|]. by destruct deleted.
  - apply NoDup_singleton.
Qed.

Lemma on_state_consistent s g x :
  TenantMetaRouter.disk (router s) = ∅ → history_ok (g (TenantMetaRouter.data (router s))) → consistent (on_state s g x).
Proof. intros Hd Hg. split; [exact Hg|]. intros file db. cbn. by rewrite Hd, lookup_empty. Qed.

Lemma versioned_consistent deleted : consistent (versioned deleted).
Proof. apply on_state_consistent; [vm_compute; reflexivity|apply with_versions_ok]. Qed.

Lemma stored_addressed : addressed digest "/blobs" (stored_fs [[x61]; [x62]]).
Proof.
  assert (AtomicStore "/blobs" (BlobProps.content_put "/blobs")) by (apply BlobProps.content_atomic; discriminate).
  apply (puts_addressed digest "/blobs" (BlobProps.content_put "/blobs")
           [(digest [x61], [x61]); (digest [x62], [x62])]
           (Fs.mk ∅ {[ []; [Path.RootDir]; [Path.RootDir; Path.Normal "srv"]; [Path.RootDir; Path.Normal "blobs"] ]} 0)).
  - eapply puts_cons; [reflexivity|exists BlobProps.no_faults, (λ _, O), 7; reflexivity|].
    eapply puts_cons; [reflexivity|exists BlobProps.no_faults, (λ _, O), 7; reflexivity|]. apply puts_nil.
  - intros h c [[= -> ->]|[[= -> ->]|[]%elem_of_nil]%elem_of_cons]%elem_of_cons; done.
  - intros h b _ Hb. unfold blob in Hb. cbn in Hb. by rewrite lookup_empty in Hb.
Qed.

Lemma apart_inside x p t :
  PathGuard.validate (existing x) p (sync_root apart) = Some (Ok t) → ¬ inside (version_blobs apart) (Path.components t).
Proof.
  intros (_&root&[= <-]&Hin)%validate_inside. intros Hb. unfold inside in *.
  destruct Hin as [k Hk], Hb as [k' Hk']. rewrite Hk in Hk'. vm_compute in Hk'. discriminate.
Qed.

Lemma restore_trash_exact_witness :
  ∃ r s' target data,
    restore_trash digest BlobProps.no_faults (λ _, O) existing AccountsTheorems.demo_lib apart AccountsTheorems.demo_env
      SharingTheorems.ann_token "a.txt" "notes" (versioned true) = (Ok r, s')
    ∧ Fs.files (fs s') !! Path.components target = Some data
    ∧ rt_content_hash_hex r = Hex.encode (digest data).
Proof.
  destruct (restore_trash digest BlobProps.no_faults (λ _, O) existing AccountsTheorems.demo_lib apart
    AccountsTheorems.demo_env SharingTheorems.ann_token "a.txt" "notes" (versioned true)) as [[r|x] s'] eqn:Hr.
  2: { apply (f_equal fst) in Hr. vm_compute in Hr. discriminate. }
  destruct (restore_trash_exact digest BlobProps.no_faults (λ _, O) existing AccountsTheorems.demo_lib apart
    AccountsTheorems.demo_env SharingTheorems.ann_token "a.txt" "notes" (versioned true) r s')
    as (target&data&_&_&_&_&H1&H2&_).
  - discriminate.
  - exact stored_addressed.
  - apply versioned_consistent.
  - exact apart_inside.
  - exact Hr.
  - exists r, s', target, data. split; [reflexivity|]. split; [exact H1|exact H2].
Defined.

Lemma restore_version_drops_nonce_witness :
  ∃ r s' db tenant ps row,
    restore_version BlobProps.no_faults (λ _, O) existing AccountsTheorems.demo_lib apart AccountsTheorems.demo_env
      SharingTheorems.ann_token "a.txt" "notes" 1 (versioned false) = (Ok r, s')
    ∧ file_map (hdb db s') !! (tenant, "notes", ps) = Some row ∧ FileRow.encryption_nonce row = None.
Proof.
  destruct (restore_version BlobProps.no_faults (λ _, O) existing AccountsTheorems.demo_lib apart
    AccountsTheorems.demo_env SharingTheorems.ann_token "a.txt" "notes" 1 (versioned false)) as [[r|x] s'] eqn:Hr.
  2: { apply (f_equal fst) in Hr. vm_compute in Hr. discriminate. }
  destruct (restore_version_drops_nonce digest BlobProps.no_faults (λ _, O) existing AccountsTheorems.demo_lib apart
    AccountsTheorems.demo_env SharingTheorems.ann_token "a.txt" "notes" 1 (versioned false) r s')
    as (_&_&db&tenant&ps&row&_&_&_&H1&_&_&H2).
  - discriminate.
  - exact stored_addressed.
  - apply versioned_consistent.
  - exact apart_inside.
  - exact Hr.
  - exists r, s', db, tenant, ps, row. split; [reflexivity|]. split; [exact H1|exact H2].
Defined.

Lemma restore_contained_witness :
  Fs.files (fs (restore_trash digest BlobProps.no_faults (λ _, O) existing AccountsTheorems.demo_lib apart
    AccountsTheorems.demo_env SharingTheorems.ann_token "a.txt" "notes" (versioned true)).2)
    !! Path.components "/shares/notes/a.txt"
  = Fs.files (fs (versioned true)) !! Path.components "/shares/notes/a.txt".
Proof.
  destruct (restore_contained digest BlobProps.no_faults (λ _, O) existing AccountsTheorems.demo_lib apart
    AccountsTheorems.demo_env "/srv" SharingTheorems.ann_token "notes" (versioned true)
    (Path.components "/shares/notes/a.txt")) as (H&_&_).
  - discriminate.
  - intros x r Hr. cbn in Hr. injection Hr as <-. reflexivity.
  - intros [k Hk]. vm_compute in Hk. discriminate.
  - intros [k Hk]. vm_compute in Hk. discriminate.
  - apply H.
Defined.
End RestoreProps.
