(* ===== verification/Agents.v ===== *)
(** * Agents: webhooks and optimistic writes
      ([disk-core/src/meta_db/agents.rs], [agents/webhook_sig.rs];
      [disk-server/src/agents/routes.rs], [agents/dispatch.rs])

    Writing a file with an expected revision, registering webhooks, and the
    delivery of events with a signature. The events of a webhook are kept as
    the list their JSON column stands for. *)

From stdpp Require Import prelude gmap strings pretty.
From Stdlib Require Import ZArith Lia Strings.Byte Strings.Ascii.
From S2P Require Import Prelude Text VectorClock Types Fs BlobStore Publisher Sql MetaDb Billing MetaFiles MetaSync.
From S2P Require Import Tenancy Http Accounts Sharing Restore.

#[local] Open Scope Z_scope.

(** ** [meta_db/agents.rs] *)
Record NewAgentWebhook := {
  nw_id : string; nw_tenant_id : option string; nw_vault_id : string; nw_url : string; nw_secret_hash : bytes;
  nw_signing_secret : string; nw_events : list string; nw_label : option string
}.
Record AgentWebhookRow := mkWebhook {
  aw_id : string; aw_tenant_id : option string; aw_vault_id : string; aw_url : string; aw_events : list string;
  aw_label : option string; aw_enabled : bool; aw_created_at : Z
}.
Record AgentWebhookDeliveryTarget := mkTarget { dt_id : string; dt_url : string; dt_signing_secret : string }.
Record AgentWriteRevision := mkRevision {
  wr_revision : Z; wr_content_hash : option bytes; wr_updated_at : Z; wr_updated_by : option string
}.
Inductive RevisionBumpOutcome := Applied (new_revision : Z) | Conflict (current_revision : Z).

#[global] Instance RevisionBumpOutcome_eq_dec : EqDecision RevisionBumpOutcome.
Proof. solve_decision. Defined.

Abbreviation rdb := (stm (list RevisionRow.t) MetaDbError).

(** The arguments of [bump_agent_write_revision]. *)
Record bump_args := mkBump {
  ba_tenant : option string; ba_vault : string; ba_path : string; ba_expected : Z; ba_hash : bytes; ba_by : string
}.

Module MetaAgents.
Import AccountsDb.

Definition insert_agent_webhook (w : NewAgentWebhook) (now : Z) : adb unit := λ d,
  match insert_row (λ r s, bool_decide (WebhookRow.id r = WebhookRow.id s))
          (WebhookRow.mk (nw_id w) (nw_tenant_id w) (nw_vault_id w) (nw_url w) (nw_secret_hash w)
             (Some (nw_signing_secret w)) (nw_events w) (nw_label w) 1 now) (agent_webhooks d) with
  | Some t => (Ok tt, set_webhooks (λ _, t) d)
  | None => (Err unique_violation, d)
  end.

Definition in_vault (tenant : option string) (vault_id : string) (r : WebhookRow.t) : bool :=
  is_eqb (WebhookRow.tenant_id r) tenant && bool_decide (WebhookRow.vault_id r = vault_id).

Definition list_agent_webhooks (tenant : option string) (vault_id : string) : adb (list AgentWebhookRow) := λ d,
  (Ok ((λ r, mkWebhook (WebhookRow.id r) (WebhookRow.tenant_id r) (WebhookRow.vault_id r) (WebhookRow.url r)
               (WebhookRow.events r) (WebhookRow.label r) (int_bool (WebhookRow.enabled r)) (WebhookRow.created_at r)) <$>
         sort_by (λ a b, bool_decide (WebhookRow.created_at b ≤ WebhookRow.created_at a))
           (select (in_vault tenant vault_id) (agent_webhooks d))), d).

Definition delete_agent_webhook (tenant : option string) (webhook_id : string) : adb bool := λ d,
  let p r := is_eqb (WebhookRow.tenant_id r) tenant && bool_decide (WebhookRow.id r = webhook_id) in
  (Ok (bool_decide (0 < affected p (agent_webhooks d))%nat), set_webhooks (delete_where p) d).

(** A row without a signing secret, from before they were stored, is skipped. *)
Definition delivery_target (event : string) (r : WebhookRow.t) : option AgentWebhookDeliveryTarget :=
  if decide (event ∈ WebhookRow.events r) then
    secret ← WebhookRow.signing_secret r;
    if decide (secret = "") then None else Some (mkTarget (WebhookRow.id r) (WebhookRow.url r) secret)
  else None.

Definition list_agent_webhooks_for_event (tenant : option string) (vault_id event : string)
    : adb (list AgentWebhookDeliveryTarget) := λ d,
  (Ok (omap (delivery_target event)
         (select (λ r, in_vault tenant vault_id r && bool_decide (WebhookRow.enabled r = 1)) (agent_webhooks d))), d).

(** [WHERE tenant_id IS ?1 AND vault_id = ?2 AND path = ?3]. *)
Definition at_path (tenant : option string) (vault_id path : string) (r : RevisionRow.t) : bool :=
  is_eqb (RevisionRow.tenant_id r) tenant && bool_decide (RevisionRow.vault_id r = vault_id)
  && bool_decide (RevisionRow.path r = path).

Definition get_agent_write_revision (tenant : option string) (vault_id path : string) : rdb AgentWriteRevision := λ t,
  (Ok (match head (select (at_path tenant vault_id path) t) with
       | Some r => mkRevision (as_u64 (RevisionRow.revision r))
                     (h ← RevisionRow.content_hash r; if decide (hash32 h) then Some h else None)
                     (RevisionRow.updated_at r) (RevisionRow.updated_by r)
       | None => mkRevision 0 None 0 None
       end), t).

(** [PRIMARY KEY (tenant_id, vault_id, path)]; NULLs are distinct. *)
Definition revision_clash (r s : RevisionRow.t) : bool :=
  uniq_eqb (RevisionRow.tenant_id r) (RevisionRow.tenant_id s)
  && bool_decide (RevisionRow.vault_id r = RevisionRow.vault_id s)
  && bool_decide (RevisionRow.path r = RevisionRow.path s).

(** [INSERT .. ON CONFLICT DO UPDATE .. WHERE revision = ?8]. *)
Definition cas_upsert (a : bump_args) (now : Z) : rdb unit := λ t,
  let r := RevisionRow.mk (ba_tenant a) (ba_vault a) (ba_path a) (as_i64 (as_u64 (ba_expected a + 1)))
             (Some (ba_hash a)) now (Some (ba_by a)) in
  (Ok tt,
   if bool_decide (affected (revision_clash r) t = 0)%nat then t ++ [r]
   else update (λ s, revision_clash r s && bool_decide (RevisionRow.revision s = as_i64 (ba_expected a))) (λ _, r) t).

(** [if after.revision == new_revision]. *)
Definition bump_outcome (a : bump_args) (after : AgentWriteRevision) : RevisionBumpOutcome :=
  if decide (wr_revision after = as_u64 (ba_expected a + 1)) then Applied (wr_revision after)
  else Conflict (wr_revision after).

(** ** The bump, statement by statement *)
Inductive bump_pc := BStart | BChecked | BWritten | BDone (o : RevisionBumpOutcome).

Definition bump_step (a : bump_args) (now : Z) (pc : bump_pc) (t : list RevisionRow.t)
    : bump_pc * list RevisionRow.t :=
  let read := get_agent_write_revision (ba_tenant a) (ba_vault a) (ba_path a) in
  match pc with
  | BStart =>
      match read t with
      | (Ok current, t) => if decide (wr_revision current = ba_expected a) then (BChecked, t)
                           else (BDone (Conflict (wr_revision current)), t)
      | (Err _, t) => (BStart, t)
      end
  | BChecked => (BWritten, (cas_upsert a now t).2)
  | BWritten =>
      match read t with
      | (Ok after, t) => (BDone (bump_outcome a after), t)
      | (Err _, t) => (BWritten, t)
      end
  | BDone o => (BDone o, t)
  end.
End MetaAgents.

(** ** [agents/webhook_sig.rs] *)
Module WebhookSig.
Inductive DiskWebhookSigError := MissingHeader | MalformedHeader | TimestampSkew | Mismatch | InvalidSecret.

Section sig.
Context (hmac : bytes → bytes → bytes).

Definition compute_disk_webhook_signature (signing_secret : string) (timestamp : Z) (body : bytes) : string :=
  Hex.encode (hmac (Publisher.str_bytes signing_secret)
                (Publisher.str_bytes (pretty timestamp +:+ ".") ++ Lossy.bytes_lossy body)).

Definition format_disk_signature_header (timestamp : Z) (v1_hex : string) : string :=
  "t=" +:+ pretty timestamp +:+ ",v1=" +:+ v1_hex.

(** One part of the header; a later one replaces an earlier one. *)
Definition header_part (acc : option Z * option string) (part : string) : option Z * option string :=
  let part := explode (trim part) in
  match strip_prefix (explode "t=") part with
  | Some ts => (Split.parse_i64 (implode ts), acc.2)
  | None => match strip_prefix (explode "v1=") part with
            | Some sig => (acc.1, Some (implode sig))
            | None => acc
            end
  end.

Definition parse_signature_header (header : string) : result (Z * string) DiskWebhookSigError :=
  match foldl header_part (None, None) (implode <$> split_chars "," (explode header)) with
  | (Some ts, Some sig) => if decide (sig = "") then Err MalformedHeader else Ok (ts, sig)
  | _ => Err MalformedHeader
  end.

(** The bytes are compared without stopping at the first difference. *)
Definition constant_time_eq (a b : string) : bool :=
  if decide (length (explode a) = length (explode b)) then
    bool_decide (foldl (λ acc p, Z.lor acc (Z.lxor (ascii_code p.1) (ascii_code p.2))) 0
                   (zip (explode a) (explode b)) = 0)
  else false.

(** [now - timestamp] and [abs] wrap. *)
Definition verify_disk_webhook_signature (now : Z) (header : string) (body : bytes) (signing_secret : string)
    (tolerance_secs : Z) : result Z DiskWebhookSigError :=
  if decide (signing_secret = "") then Err InvalidSecret
  else
    parsed <?- parse_signature_header header ;;
    let '(timestamp, v1) := parsed in
    if bool_decide (tolerance_secs < as_i64 (Z.abs (as_i64 (now - timestamp)))) then Err TimestampSkew
    else if constant_time_eq (compute_disk_webhook_signature signing_secret timestamp body) v1 then Ok timestamp
    else Err Mismatch.
End sig.
End WebhookSig.

(** ** [agents/dispatch.rs] *)
Record WebhookEnvelope := mkEnvelope {
  we_id : string; we_event : string; we_created_at : Z; we_vault_id : string; we_data : Http.Payload
}.
Record Post := mkPost {
  po_url : string; po_signature : string; po_event : string; po_webhook_id : string; po_body : bytes
}.

Module Dispatch.
Import Http.
Definition MAX_RETRIES : nat := 3.
Definition BASE_BACKOFF_MS : Z := 200.

Section deliver.
Context (hmac : bytes → bytes → bytes) (to_vec : WebhookEnvelope → option bytes).

(** The requests made and the pauses between them; [respond k] is whether the
    k-th request was answered with success. *)
Fixpoint attempts (respond : nat → bool) (p : Post) (left : nat) (k : nat) (backoff_ms : Z) : list Post * list Z * bool :=
  match left with
  | O => ([], [], false)
  | S left' =>
      if respond k then ([p], [], true)
      else
        let '(ps, pauses, ok) := attempts respond p left' (S k) (Z.min (backoff_ms * 2) u64_max) in
        (p :: ps, match left' with O => [] | S _ => backoff_ms :: pauses end, ok)
  end.

Definition deliver_one (respond : nat → bool) (created_at timestamp : Z) (id_raw : bytes) (job : Job)
    (target : AgentWebhookDeliveryTarget) : list Post * list Z * bool :=
  match to_vec (mkEnvelope ("evt_" +:+ Hex.encode id_raw) (job_event job) created_at (job_vault job) (job_data job)) with
  | None => ([], [], false)
  | Some body =>
      let v1 := WebhookSig.compute_disk_webhook_signature hmac (dt_signing_secret target) timestamp body in
      attempts respond (mkPost (dt_url target) (WebhookSig.format_disk_signature_header timestamp v1)
                          (job_event job) (dt_id target) body) MAX_RETRIES 0 BASE_BACKOFF_MS
  end.

(** One turn of [delivery_loop]: the oldest event, to everyone it concerns. *)
Definition delivery_turn (e : env) (respond : string → nat → bool) (s : Http.t) : list Post * Http.t :=
  match jobs s with
  | [] => ([], s)
  | job :: rest =>
      let s := mk (acct s) (router s) (revisions s) (fs s) rest (dropped s) (statements s) in
      let n := statements s in
      match accounts e (λ _, MetaAgents.list_agent_webhooks_for_event (job_tenant job) (job_vault job) (job_event job)) s with
      | (Err _, s) => ([], s)
      | (Ok targets, s) =>
          (targets ≫= λ t, (deliver_one (respond (dt_id t)) (now e n) (now e n) (take 16 (random e n)) job t).1.1, s)
      end
  end.
End deliver.
End Dispatch.

(** ** [agents/routes.rs] *)
Record RegisterWebhookResponse := {
  rw_webhook_id : string; rw_vault_id : string; rw_url : string; rw_events : list string; rw_webhook_secret : string
}.
Record RevisionResponse := {
  rr_path : string; rr_vault_id : string; rr_revision : Z; rr_exists : bool; rr_content_hash_hex : option string
}.
Record AgentWriteResponse := {
  aw_path : string; awr_vault_id : string; awr_revision : Z; awr_content_hash_hex : string; awr_size : Z
}.

Module AgentRoutes.
Import Http AuthRoutes Access MetaAgents Restore.

Definition ALLOWED_WEBHOOK_EVENTS : list string :=
  ["sync.file_changed"; "sync.file_deleted"; "agent.write_ok"; "agent.write_conflict"; "embeddings.stale"].

Definition new_webhook_id (raw : bytes) : string := "awh_" +:+ Hex.encode raw.

Definition validate_events (events : list string) : result unit string :=
  if decide (events = []) then Err "events required"
  else if forallb (λ x, bool_decide (x ∈ ALLOWED_WEBHOOK_EVENTS)) events then Ok tt else Err "invalid event name".

Definition validate_webhook_url (url : string) : result unit string :=
  if negb (starts_with url "https://") then Err "webhook url must use https"
  else if bool_decide (str_len url < 12) then Err "invalid url" else Ok tt.

(** The revisions of the file a handle names. *)
Definition revisions_key (h : TenantMetaRouter.handle) : option string :=
  match h with TenantMetaRouter.Control => None | TenantMetaRouter.Shard file => Some file end.

Section routes.
Context {codec : VcCodec} {jwt : JwtLib} (blake3 : bytes → bytes) (f : Fs.faults) (cut : Fs.cuts).
Context (canonicalize : Fs.t → string → option string) (base64 : string → option bytes).
Context (lib : libs) (cfg : config) (e : env).

Definition on_revisions {A} (h : TenantMetaRouter.handle) (m : Z → rdb A) : st A := λ s,
  let n := statements s in
  match db_fault e n with
  | Some x => (Err x, next s)
  | None =>
      let k := revisions_key h in
      let '(r, t) := m (now e n) (default [] (revisions s !! k)) in
      (r, set_revisions (<[k := t]> (revisions s)) (next s))
  end.

Definition bump_agent_write_revision (h : TenantMetaRouter.handle) (a : bump_args) : st RevisionBumpOutcome :=
  current <~ on_revisions h (λ _, get_agent_write_revision (ba_tenant a) (ba_vault a) (ba_path a)) ;;
  if decide (wr_revision current = ba_expected a) then
    _ <~ on_revisions h (cas_upsert a) ;;
    after <~ on_revisions h (λ _, get_agent_write_revision (ba_tenant a) (ba_vault a) (ba_path a)) ;;
    st_ret (bump_outcome a after)
  else st_ret (Conflict (wr_revision current)).

Definition emit (j : Job) : hm unit := λ s, (Ok tt, enqueue j s).

Definition bad_request {A} (r : result A string) : hm A := st_lift (map_err (λ msg, (BAD_REQUEST, msg)) r).

Definition list_webhooks (authorization : option string) (vault_id : string) : hm (list AgentWebhookRow) :=
  user <~ authenticate lib cfg e authorization ;;
  _ <~ assert_vault_manager e user vault_id ;;
  or_db_error (accounts e (λ _, list_agent_webhooks (Some (UserAccount.tenant_id user)) vault_id)).

Definition register_webhook (authorization : option string) (vault_id url : string) (events : list string)
    (label : option string) : hm RegisterWebhookResponse :=
  _ <~ bad_request (validate_webhook_url url) ;;
  _ <~ bad_request (validate_events events) ;;
  user <~ authenticate lib cfg e authorization ;;
  _ <~ assert_vault_manager e user vault_id ;;
  raw <~ draw e 0 32 ;;
  idraw <~ draw e 32 8 ;;
  let secret := "whsec_" +:+ Hex.encode raw in
  let webhook_id := new_webhook_id idraw in
  _ <~ or_db_error (accounts e (insert_agent_webhook
         {| nw_id := webhook_id; nw_tenant_id := Some (UserAccount.tenant_id user); nw_vault_id := vault_id; nw_url := url;
            nw_secret_hash := blake3 raw; nw_signing_secret := secret; nw_events := events; nw_label := label |})) ;;
  st_ret {| rw_webhook_id := webhook_id; rw_vault_id := vault_id; rw_url := url; rw_events := events;
            rw_webhook_secret := secret |}.

Definition delete_webhook (authorization : option string) (webhook_id : string) : hm string :=
  user <~ authenticate lib cfg e authorization ;;
  deleted <~ or_db_error (accounts e (λ _, delete_agent_webhook (Some (UserAccount.tenant_id user)) webhook_id)) ;;
  if (deleted : bool) then st_ret webhook_id else fail NOT_FOUND "webhook not found".

Definition get_revision (authorization : option string) (query_path vault_id : string) : hm RevisionResponse :=
  path <~ require (normalize_rel_path query_path) BAD_REQUEST "invalid path" ;;
  who <~ authorize lib cfg e authorization vault_id require_write ;;
  db <~ tenant_db e who.2 ;;
  row <~ or_db_error (on_revisions db (λ _, get_agent_write_revision who.2 vault_id path)) ;;
  st_ret {| rr_path := path; rr_vault_id := vault_id; rr_revision := wr_revision row;
            rr_exists := bool_decide (0 < wr_revision row); rr_content_hash_hex := Hex.encode <$> wr_content_hash row |}.

Definition report_embeddings_stale (authorization : option string) (vault_id share : string) (fresh stale missing : Z)
    (paths : list (string * string)) : hm bool :=
  if decide (trim share = "") then fail BAD_REQUEST "share required"
  else
    who <~ authorize lib cfg e authorization vault_id require_write ;;
    if bool_decide (0 < stale) || bool_decide (0 < missing) then
      _ <~ emit (mkJob who.2 vault_id "embeddings.stale" (Stale share fresh stale missing paths)) ;; st_ret true
    else st_ret false.

(** The event and the answer of a lost race. *)
Definition conflict {A} (tenant : option string) (vault_id path : string) (expected current : Z) : hm A :=
  _ <~ emit (mkJob tenant vault_id "agent.write_conflict" (WriteConflict path expected current)) ;;
  fail CONFLICT "revision_conflict".

Definition agent_write (authorization : option string) (vault_id body_path content_base64 : string)
    (if_match_revision : option Z) (agent_id : option string) : hm AgentWriteResponse :=
  path <~ require (normalize_rel_path body_path) BAD_REQUEST "invalid path" ;;
  data <~ require (base64 (trim content_base64)) BAD_REQUEST "invalid content_base64" ;;
  who <~ authorize lib cfg e authorization vault_id require_write ;;
  let tenant := who.2 in
  db <~ tenant_db e tenant ;;
  current <~ or_db_error (on_revisions db (λ _, get_agent_write_revision tenant vault_id path)) ;;
  let expected := default 0 if_match_revision in
  if decide (expected = wr_revision current) then
    target <~ target_of canonicalize cfg path ;;
    _ <~ create_parent f target ;;
    _ <~ keep_current f cut cfg e db tenant vault_id path target ;;
    _ <~ io "write failed" (Fs.write f cut target data) ;;
    let content_hash := blake3 data in
    let agent_label := default (UserAccount.id who.1) (Tenancy.ControlDb.non_empty agent_id) in
    bump <~ or_db_error (bump_agent_write_revision db (mkBump tenant vault_id path expected content_hash agent_label)) ;;
    match bump with
    | Conflict current_revision => conflict tenant vault_id path expected current_revision
    | Applied new_revision =>
        tier <~ read_db e db (MetaBilling.get_plan_tier tenant PlanTier.Free) ;;
        mtime_ns <~ read_now_ns e ;;
        let size := Z.of_nat (length data) in
        let meta := restored_meta cfg agent_label target content_hash size mtime_ns None in
        _ <~ or_db_error (record e db tenant vault_id meta (UserAccount.id who.1) (PlanTier.version_retention tier)) ;;
        _ <~ blob_put f cut cfg e content_hash data ;;
        let hex := Hex.encode content_hash in
        _ <~ emit (mkJob tenant vault_id "agent.write_ok" (WriteOk path new_revision hex size agent_label)) ;;
        st_ret {| aw_path := path; awr_vault_id := vault_id; awr_revision := new_revision;
                  awr_content_hash_hex := hex; awr_size := size |}
    end
  else conflict tenant vault_id path expected (wr_revision current).
End routes.
End AgentRoutes.
