(* ===== verification/AgentsProps.v ===== *)
(** * Theorems: agents' writes, webhook signatures and deliveries

    The compare-and-set of a revision alone and raced, the signature a receiver
    checks against the one the server makes, and the requests of a delivery. *)

From stdpp Require Import prelude gmap strings pretty.
From Stdlib Require Import ZArith Lia Strings.Byte Strings.Ascii.
From S2P Require Import Prelude Text PathFacts VectorClock Types Fs BlobStore Publisher Sql MetaDb Billing MetaFiles MetaSync.
From S2P Require Import Tenancy Http Accounts AccountsProps AccountsTheorems Sharing Restore Agents.

#[local] Open Scope Z_scope.

Module AgentsProps.
Import Http MetaAgents AgentRoutes.

(** ** Revisions *)
Definition mine (a : bump_args) : RevisionRow.t → bool := at_path (ba_tenant a) (ba_vault a) (ba_path a).
Definition current (a : bump_args) (t : list RevisionRow.t) : AgentWriteRevision :=
  match head (select (mine a) t) with
  | Some r => mkRevision (as_u64 (RevisionRow.revision r))
                (h ← RevisionRow.content_hash r; if decide (hash32 h) then Some h else None)
                (RevisionRow.updated_at r) (RevisionRow.updated_by r)
  | None => mkRevision 0 None 0 None
  end.

Lemma get_current a t : get_agent_write_revision (ba_tenant a) (ba_vault a) (ba_path a) t = (Ok (current a t), t).
Proof. done. Qed.

(** The row a bump writes. *)
Definition bump_row (a : bump_args) (now : Z) : RevisionRow.t :=
  RevisionRow.mk (ba_tenant a) (ba_vault a) (ba_path a) (as_i64 (as_u64 (ba_expected a + 1)))
    (Some (ba_hash a)) now (Some (ba_by a)).

Definition same_file (a b : bump_args) : Prop :=
  ba_tenant a = ba_tenant b ∧ ba_vault a = ba_vault b ∧ ba_path a = ba_path b.

Lemma mine_row a b now : mine b (bump_row a now) = true ↔ same_file a b.
Proof.
  unfold mine, at_path, bump_row, is_eqb, same_file. simpl. rewrite !andb_true_iff, !bool_decide_eq_true. naive_solver.
Qed.

Lemma mine_same a b r : same_file a b → mine a r = mine b r.
Proof. intros (H1&H2&H3). unfold mine. by rewrite H1, H2, H3. Qed.

Lemma mine_other a b r : mine a r = true → mine b r = true → same_file a b.
Proof.
  unfold mine, at_path, is_eqb, same_file. rewrite !andb_true_iff, !bool_decide_eq_true.
  intros [[-> ->] ->] [[-> ->] ->]. done.
Qed.

(** A clash of the primary key is a row of the file, for a tenant. *)
Lemma clash_mine a now r : is_Some (ba_tenant a) → revision_clash (bump_row a now) r = mine a r.
Proof.
  intros [t Ht]. unfold revision_clash, mine, at_path, bump_row, uniq_eqb, is_eqb. simpl. rewrite Ht.
  destruct (RevisionRow.tenant_id r) as [u|]; simpl;
    repeat match goal with |- context [bool_decide ?P] => destruct (bool_decide_reflect P) end; simpl; try done; congruence.
Qed.

(** At most one row of a tenant's file, with the revision an SQLite integer. *)
Definition sole (a : bump_args) (t : list RevisionRow.t) : Prop :=
  match select (mine a) t with [] => True | [r] => in_i64 (RevisionRow.revision r) | _ => False end.

Lemma select_update_one {A} (p q : A → bool) (x y : A) t :
  select p t = [x] → q x = true → p y = true → (∀ z, q z = true → p z = true) →
  select p (update q (λ _, y) t) = [y].
Proof.
  intros Hsel Hq Hy Hqp. revert Hsel. unfold select, update. induction t as [|z t IH]; [done|]. simpl.
  destruct (p z) eqn:Hz.
  - intros [= -> Ht]. rewrite Hq. simpl. rewrite Hy. f_equal.
    assert (∀ w, w ∈ t → q w = false) as Hf.
    { intros w Hw. apply not_true_is_false. intros Hqw. apply Hqp in Hqw.
      assert (w ∈ List.filter p t) as Hin by (apply (elem_of_select p t); done). rewrite Ht in Hin. set_solver. }
    rewrite <-Ht. f_equal. apply list_eq_same_length with (length t); rewrite ?length_fmap; try done.
    intros i u v _ Hu Hv. rewrite list_lookup_fmap in Hu. rewrite Hv in Hu. simpl in Hu.
    rewrite Hf in Hu by (by eapply list_elem_of_lookup_2). congruence.
  - intros Ht. destruct (q z) eqn:Hqz; [apply Hqp in Hqz; congruence|]. rewrite Hz. by apply IH.
Qed.

Lemma current_one a t r : select (mine a) t = [r] → wr_revision (current a t) = as_u64 (RevisionRow.revision r).
Proof. unfold current. by intros ->. Qed.

(** What the conditional write leaves: the new row of the file, or nothing
    changed when the revision moved on. *)
Lemma cas_upsert_select a b now t :
  is_Some (ba_tenant a) → sole a t → in_u64 (ba_expected a) → wr_revision (current a t) = ba_expected a →
  select (mine b) (cas_upsert a now t).2 = if decide (same_file a b) then [bump_row a now] else select (mine b) t.
Proof.
  intros Hten Hsole Hexp Hcur. unfold cas_upsert. cbn [snd]. fold (bump_row a now).
  assert (∀ r, revision_clash (bump_row a now) r = mine a r) as Hcl by (intros; by apply clash_mine).
  unfold affected. rewrite (select_ext _ _ _ Hcl).
  unfold sole in Hsole. destruct (select (mine a) t) as [|r [|]] eqn:Hsel; [| |done].
  - rewrite bool_decide_true by done. rewrite select_app. simpl.
    destruct (decide (same_file a b)) as [Hs|Hs].
    + rewrite (proj2 (mine_row a b now) Hs). rewrite <-(select_ext (mine a) (mine b)) by (intros; by apply mine_same).
      by rewrite Hsel.
    + destruct (mine b (bump_row a now)) eqn:Hb; [by apply mine_row in Hb|]. apply app_nil_r.
  - rewrite bool_decide_false by done. rewrite (current_one _ _ _ Hsel) in Hcur.
    destruct (decide (same_file a b)) as [Hs|Hs].
    + rewrite <-(select_ext (mine a) (mine b)) by (intros; by apply mine_same).
      apply (select_update_one _ _ r); [done| |by apply mine_row|].
      * rewrite Hcl, andb_true_iff, bool_decide_eq_true, <-Hcur. split; [|by rewrite as_i64_as_u64, as_i64_id].
        assert (r ∈ select (mine a) t) as [_ ?]%elem_of_select by (rewrite Hsel; constructor). done.
      * intros z. rewrite Hcl, andb_true_iff. tauto.
    + apply select_update_other. intros x Hx Hp. rewrite Hcl in Hp. apply andb_true_iff in Hp as [Hp _].
      split; apply not_true_is_false; intros Hy; apply Hs; [by eapply mine_other|by apply (mine_row a b now)].
Qed.

Lemma cas_upsert_stale a now t :
  is_Some (ba_tenant a) → select (mine a) t ≠ [] →
  (∀ r, r ∈ select (mine a) t → RevisionRow.revision r ≠ as_i64 (ba_expected a)) → (cas_upsert a now t).2 = t.
Proof.
  intros Hten Hne Hr. unfold cas_upsert. cbn [snd]. fold (bump_row a now).
  assert (∀ r, revision_clash (bump_row a now) r = mine a r) as Hcl by (intros; by apply clash_mine).
  unfold affected. rewrite (select_ext _ _ _ Hcl), bool_decide_false by (by intros ?%length_zero_iff_nil).
  unfold update. rewrite <-(list_fmap_id t) at 2. apply list_fmap_ext. intros i x Hx.
  destruct (revision_clash _ _ && _) eqn:Hb; [|done]. apply andb_true_iff in Hb as [Hm%eq_sym He%bool_decide_eq_true].
  rewrite Hcl in Hm. exfalso. eapply Hr; [|exact He]. apply elem_of_select. split; [by eapply list_elem_of_lookup_2|done].
Qed.

Lemma current_row a now t :
  select (mine a) t = [bump_row a now] → in_u64 (ba_expected a) → ba_expected a < u64_max → hash32 (ba_hash a) →
  current a t = mkRevision (ba_expected a + 1) (Some (ba_hash a)) now (Some (ba_by a)).
Proof.
  intros Hsel He Hlt Hh. unfold current. rewrite Hsel. simpl. rewrite decide_True by exact Hh.
  assert (in_u64 (ba_expected a + 1)) by (unfold_ints; lia). by rewrite as_u64_as_i64, as_u64_id by auto with disk.
Qed.

Section quiet.
Context (e : env) (Hquiet : ∀ n, db_fault e n = None).

(** The revisions a handle names. *)
Definition table (h : TenantMetaRouter.handle) (s : Http.t) : list RevisionRow.t :=
  default [] (revisions s !! revisions_key h).

Lemma on_revisions_run {A} h (m : Z → rdb A) s :
  ∃ s', on_revisions e h m s = ((m (now e (statements s)) (table h s)).1, s')
    ∧ table h s' = (m (now e (statements s)) (table h s)).2
    ∧ (∀ h', revisions_key h' ≠ revisions_key h → table h' s' = table h' s)
    ∧ fs s' = fs s ∧ router s' = router s ∧ acct s' = acct s ∧ jobs s' = jobs s.
Proof.
  unfold on_revisions. rewrite Hquiet. fold (table h s). destruct (m _ _) as [r t]. eexists. split; [done|].
  unfold table. simpl. rewrite lookup_insert_eq. split; [done|]. split; [|done].
  intros h' Hne. by rewrite lookup_insert_ne by congruence.
Qed.

(** A bump that runs alone: applied when the expected revision is current, and
    then the file's row is the new one; otherwise nothing changes. Other files
    and databases are untouched. *)
Lemma bump_run h a s :
  is_Some (ba_tenant a) → sole a (table h s) → in_u64 (ba_expected a) → ba_expected a < u64_max → hash32 (ba_hash a) →
  let cur := wr_revision (current a (table h s)) in
  ∃ s' now, bump_agent_write_revision e h a s
      = (Ok (if decide (cur = ba_expected a) then Applied (ba_expected a + 1) else Conflict cur), s')
    ∧ (cur = ba_expected a → sole a (table h s')
         ∧ current a (table h s') = mkRevision (ba_expected a + 1) (Some (ba_hash a)) now (Some (ba_by a)))
    ∧ (cur ≠ ba_expected a → table h s' = table h s)
    ∧ (∀ b, ¬ same_file a b → select (mine b) (table h s') = select (mine b) (table h s))
    ∧ (∀ h', revisions_key h' ≠ revisions_key h → table h' s' = table h' s)
    ∧ fs s' = fs s ∧ router s' = router s ∧ acct s' = acct s ∧ jobs s' = jobs s.
Proof.
  intros Hten Hsole Hexp Hlt Hh cur. unfold bump_agent_write_revision.
  edestruct (on_revisions_run h (λ _, get_agent_write_revision (ba_tenant a) (ba_vault a) (ba_path a)) s)
    as (s1&Hr1&Ht1&Ho1&Hf1&Hd1&Ha1&Hj1). rewrite get_current in *. simpl in Ht1.
  unfold st_bind at 1. rewrite Hr1. cbn [fst]. fold cur.
  destruct (decide (cur = ba_expected a)) as [Hc|Hc].
  2: { exists s1, 0. split; [done|]. rewrite !Ht1. split_and!; done. }
  edestruct (on_revisions_run h (cas_upsert a) s1) as (s2&Hr2&Ht2&Ho2&Hf2&Hd2&Ha2&Hj2).
  unfold st_bind at 1. rewrite Hr2. cbn [cas_upsert fst].
  edestruct (on_revisions_run h (λ _, get_agent_write_revision (ba_tenant a) (ba_vault a) (ba_path a)) s2)
    as (s3&Hr3&Ht3&Ho3&Hf3&Hd3&Ha3&Hj3). rewrite get_current in *. simpl in Ht3.
  unfold st_bind. rewrite Hr3. cbn [fst]. rewrite Ht1 in Ht2. set (z := now e (statements s1)) in *.
  assert (∀ b, select (mine b) (table h s2) = if decide (same_file a b) then [bump_row a z] else select (mine b) (table h s))
    as Hsel by (intros b; rewrite Ht2; by apply cas_upsert_select).
  pose proof (Hsel a) as Hmine. rewrite decide_True in Hmine by done.
  pose proof (current_row a z _ Hmine Hexp Hlt Hh) as Hcur.
  exists s3, z. unfold st_ret, bump_outcome. rewrite Hcur. cbn [wr_revision].
  rewrite decide_True by (symmetry; apply as_u64_id; unfold_ints; lia). rewrite !Ht3. split; [done|]. split_and!; try congruence.
  - intros _. split; [|done]. unfold sole. rewrite Hmine. apply as_i64_range.
  - intros b Hb. by rewrite Hsel, decide_False.
  - intros h' Hne. by rewrite Ho3, Ho2, Ho1.
Qed.

(** ** Bumps one after another *)
Fixpoint bumps (h : TenantMetaRouter.handle) (l : list bump_args) (s : Http.t)
    : list (result RevisionBumpOutcome MetaDbError) * Http.t :=
  match l with
  | [] => ([], s)
  | a :: l => let '(r, s) := bump_agent_write_revision e h a s in
              let '(rs, s) := bumps h l s in (r :: rs, s)
  end.

(** What they promise: a counter per file, moved only from the value expected. *)
Definition file_of (a : bump_args) : option string * string * string := (ba_tenant a, ba_vault a, ba_path a).
Fixpoint counters (l : list bump_args) (c : option string * string * string → Z)
    : list RevisionBumpOutcome * (option string * string * string → Z) :=
  match l with
  | [] => ([], c)
  | a :: l =>
      if decide (c (file_of a) = ba_expected a) then
        let '(os, c') := counters l (λ k, if decide (k = file_of a) then ba_expected a + 1 else c k) in
        (Applied (ba_expected a + 1) :: os, c')
      else let '(os, c') := counters l c in (Conflict (c (file_of a)) :: os, c')
  end.

Lemma file_of_same a b : file_of a = file_of b ↔ same_file a b.
Proof. unfold file_of, same_file. split; [by intros [= -> -> ->]|by intros (->&->&->)]. Qed.

(** A bump the code accepts as it comes. *)
Definition valid_bump (a : bump_args) : Prop :=
  is_Some (ba_tenant a) ∧ in_u64 (ba_expected a) ∧ ba_expected a < u64_max ∧ hash32 (ba_hash a).
Definition shows (h : TenantMetaRouter.handle) (s : Http.t) (c : option string * string * string → Z) : Prop :=
  ∀ a, is_Some (ba_tenant a) → sole a (table h s) ∧ wr_revision (current a (table h s)) = c (file_of a).

Lemma sole_same a b t : same_file a b → sole a t → sole b t.
Proof. intros Hs. unfold sole. by rewrite (select_ext (mine a) (mine b)) by (intros; by apply mine_same). Qed.
Lemma current_same a b t : same_file a b → current a t = current b t.
Proof. intros Hs. unfold current. by rewrite (select_ext (mine a) (mine b)) by (intros; by apply mine_same). Qed.

(** One bump is one move of the counters. *)
Lemma bump_counts h a s c :
  valid_bump a → shows h s c →
  ∃ s', bump_agent_write_revision e h a s
      = (Ok (if decide (c (file_of a) = ba_expected a) then Applied (ba_expected a + 1) else Conflict (c (file_of a))), s')
    ∧ shows h s' (if decide (c (file_of a) = ba_expected a)
                  then λ k, if decide (k = file_of a) then ba_expected a + 1 else c k else c).
Proof.
  intros (Hten&Hexp&Hlt&Hh) Hsh. destruct (Hsh a Hten) as [Hsole Hc].
  destruct (bump_run h a s Hten Hsole Hexp Hlt Hh) as (s'&z&Hr&Hyes&Hno&Hoth&_). rewrite Hc in *.
  exists s'. split; [exact Hr|]. intros b Hb. destruct (Hsh b Hb) as [Hsb Hcb]. case_decide as Hd.
  2: { rewrite Hno by done. done. }
  destruct (Hyes Hd) as [Hs' Hcur]. case_decide as Hf.
  - apply eq_sym, file_of_same in Hf. split; [by eapply sole_same|]. rewrite <-(current_same a b) by done. by rewrite Hcur.
  - assert (¬ same_file a b) as Hn by (intros ?%file_of_same; congruence).
    unfold sole, current in *. rewrite Hoth by done. done.
Qed.

(** C37: Served one after another, the revision bumps of a tenant's files are
    counters: each is answered as the counter of its file says, applied exactly
    when it expects the current value, and the stored revisions are the
    counters' final values. *)
Theorem bumps_refine_counters h l s c :
  Forall valid_bump l → shows h s c →
  let '(rs, s') := bumps h l s in
  let '(os, c') := counters l c in rs = (Ok <$> os) ∧ shows h s' c'.
Proof.
  revert s c. induction l as [|a l IH]; intros s c Hl Hsh; [done|]. apply Forall_cons in Hl as [Ha Hl].
  destruct (bump_counts h a s c Ha Hsh) as (s1&Hr&Hsh1). simpl. rewrite Hr.
  case_decide; specialize (IH _ _ Hl Hsh1); destruct (bumps h l s1); destruct (counters l _); simpl; naive_solver.
Qed.
End quiet.

(** ** Two bumps at once *)
Inductive writer := First | Second.

(** The statements of two bumps in the order of a schedule. *)
Fixpoint race (a b : bump_args) (now : Z) (sched : list writer) (st : bump_pc * bump_pc * list RevisionRow.t)
    : bump_pc * bump_pc * list RevisionRow.t :=
  match sched with
  | [] => st
  | w :: sched =>
      let '(pa, pb, t) := st in
      race a b now sched
        match w with
        | First => let '(pa, t) := bump_step a now pa t in (pa, pb, t)
        | Second => let '(pb, t) := bump_step b now pb t in (pa, pb, t)
        end
  end.

Lemma step_start a now t : wr_revision (current a t) = ba_expected a → bump_step a now BStart t = (BChecked, t).
Proof. intros H. unfold bump_step. rewrite get_current. by rewrite decide_True. Qed.
Lemma step_write a now t : bump_step a now BChecked t = (BWritten, (cas_upsert a now t).2).
Proof. done. Qed.
Lemma step_read a now t : bump_step a now BWritten t = (BDone (bump_outcome a (current a t)), t).
Proof. done. Qed.

(** Two bumps of one file that expect the same current revision and
    interleave by statement are both answered [Applied] with the same new
    revision, though only the first one's row is stored: the second's
    conditional write matches nothing, and the read after it finds the revision
    it hoped for. *)
Theorem cas_both_win a b now t :
  valid_bump a → same_file a b → ba_expected b = ba_expected a → sole a t →
  wr_revision (current a t) = ba_expected a →
  let '(pa, pb, t') := race a b now [First; Second; First; Second; First; Second] (BStart, BStart, t) in
  pa = BDone (Applied (ba_expected a + 1)) ∧ pb = BDone (Applied (ba_expected a + 1))
  ∧ wr_content_hash (current b t') = Some (ba_hash a) ∧ wr_updated_by (current b t') = Some (ba_by a).
Proof.
  intros (Hten&Hexp&Hlt&Hh) Hs Heq Hsole Hcur.
  assert (wr_revision (current b t) = ba_expected b) as Hcur' by (rewrite <-(current_same a b) by done; congruence).
  pose proof (cas_upsert_select a a now t Hten Hsole Hexp Hcur) as Hsel. rewrite decide_True in Hsel by done.
  pose proof (current_row a now _ Hsel Hexp Hlt Hh) as Hrow. set (t1 := (cas_upsert a now t).2) in *.
  assert (same_file b a) as Hs' by (destruct Hs as (?&?&?); repeat split; congruence).
  assert ((cas_upsert b now t1).2 = t1) as Hnop.
  { assert (select (mine b) t1 = [bump_row a now]) as Hb
      by (by rewrite (select_ext (mine b) (mine a)) by (intros; by apply mine_same)).
    apply cas_upsert_stale; [by destruct Hs as [<- _]|by rewrite Hb|].
    intros r. rewrite Hb. intros ->%list_elem_of_singleton. simpl. rewrite Heq. intros Hx.
    apply (f_equal as_u64) in Hx. rewrite !as_u64_as_i64 in Hx by auto with disk.
    rewrite as_u64_id in Hx by (unfold_ints; lia). lia. }
  unfold race at 1. rewrite !step_start by done. rewrite !step_write. fold t1. rewrite Hnop, !step_read.
  unfold bump_outcome. rewrite <-!(current_same a b t1), Hrow by done. cbn [wr_revision].
  rewrite Heq, decide_True by (symmetry; apply as_u64_id; unfold_ints; lia). done.
Qed.

(** ** Texts that trimming leaves alone *)
Definition plain_char (c : ascii) : Prop := 33 ≤ ascii_code c ≤ 126.

Lemma strip_any_plain ps c l :
  forallb (λ p, match p with [] => false | d :: _ => bool_decide (¬ (33 ≤ ascii_code d ≤ 126)) end) ps = true →
  plain_char c → strip_any ps (c :: l) = None.
Proof.
  intros Hps Hc. induction ps as [|[|d p] ps IH]; [done|done|]. simpl in *.
  apply andb_true_iff in Hps as [Hd%bool_decide_eq_true Hps]. rewrite decide_False by (intros ->; done). by apply IH.
Qed.

Lemma trim_start_plain fuel ps l :
  forallb (λ p, match p with [] => false | d :: _ => bool_decide (¬ (33 ≤ ascii_code d ≤ 126)) end) ps = true →
  (∀ c, c ∈ l → plain_char c) → trim_start_with fuel ps l = l.
Proof.
  intros Hps Hl. destruct fuel as [|fuel]; [done|]. destruct l as [|c l].
  - simpl. assert (strip_any ps [] = None) as ->; [|done]. clear Hl. induction ps as [|[|d p] ps IH]; [done|done|].
    simpl in *. apply andb_true_iff in Hps as [_ Hps]. by apply IH.
  - simpl. rewrite strip_any_plain; [done|done|]. apply Hl. constructor.
Qed.

Lemma trim_plain s : (∀ c, c ∈ explode s → plain_char c) → trim s = s.
Proof.
  intros Hs. unfold trim. rewrite (trim_start_plain _ _ (explode s)) by (vm_compute; done || exact Hs).
  rewrite trim_start_plain; [by rewrite reverse_involutive, implode_explode|by vm_compute|].
  intros c. rewrite elem_of_reverse. apply Hs.
Qed.

Lemma hex_plain b c : c ∈ explode (Hex.encode b) → plain_char c.
Proof. unfold Hex.encode. rewrite explode_implode. intros ?%Hex.chars_of_hex. unfold plain_char. lia. Qed.

Lemma pretty_plain (z : Z) c : c ∈ explode (pretty z) → plain_char c.
Proof.
  intros [Hd| ->]%Split.pretty_chars; [|by vm_compute]. unfold is_ascii_digit in Hd.
  apply bool_decide_eq_true in Hd. unfold plain_char. lia.
Qed.

(** ** Signatures *)
Import WebhookSig.

Lemma constant_time_eq_spec a b : constant_time_eq a b = bool_decide (a = b).
Proof.
  assert (∀ l k acc, length l = length k → 0 ≤ acc →
    foldl (λ acc p, Z.lor acc (Z.lxor (ascii_code p.1) (ascii_code p.2))) acc (zip l k) = 0 ↔ acc = 0 ∧ l = k) as Hfold.
  { induction l as [|c l IH]; intros [|d k] acc Hlen Hacc; simpl; simplify_eq/=; [naive_solver|].
    assert (0 ≤ Z.lxor (ascii_code c) (ascii_code d)) as Hx by (apply Z.lxor_nonneg; unfold ascii_code; lia).
    rewrite IH by (done || by apply Z.lor_nonneg). rewrite Z.lor_eq_0_iff, Z.lxor_eq_0_iff.
    split; [|intros [-> [= -> ->]]; done]. intros [[-> Hc] ->]. split; [done|]. f_equal.
    unfold ascii_code in Hc. apply N2Z.inj in Hc. rewrite <-(ascii_N_embedding c), Hc. apply ascii_N_embedding. }
  unfold constant_time_eq. apply Bool.eq_iff_eq_true. case_decide as Hlen.
  - rewrite !bool_decide_eq_true, Hfold by done. split; [by intros [_ ?%explode_inj]|by intros ->].
  - rewrite bool_decide_eq_true. split; [done|]. by intros ->.
Qed.

(** The header the server formats has its two parts back, with nothing to trim. *)
Lemma formatted_parts ts b :
  trim <$> (implode <$> split_chars "," (explode (format_disk_signature_header ts (Hex.encode b))))
  = ["t=" +:+ pretty ts; "v1=" +:+ Hex.encode b].
Proof.
  unfold format_disk_signature_header.
  assert (explode ("t=" +:+ pretty ts +:+ ",v1=" +:+ Hex.encode b)
          = explode ("t=" +:+ pretty ts) ++ ","%char :: explode ("v1=" +:+ Hex.encode b)) as ->
    by (by rewrite !explode_app, (assoc_L (++))).
  rewrite split_chars_app, !split_chars_single; cbn [app fmap list_fmap].
  2: { rewrite explode_app. intros [Hc|Hc]%elem_of_app; [vm_compute in Hc; set_solver|].
       revert Hc. apply AccountsTheorems.hex_without; vm_compute; intuition congruence. }
  2: { rewrite explode_app. intros [Hc|Hc]%elem_of_app; [vm_compute in Hc; set_solver|].
       revert Hc. by apply AccountsTheorems.pretty_without. }
  rewrite !implode_explode.
  assert (∀ c x, c ∈ explode "t=" ∨ c ∈ explode "v1=" → x = c → plain_char x) as Hpre.
  { intros c x [Hc|Hc] ->; revert c Hc; apply Forall_forall; repeat constructor; vm_compute; congruence. }
  rewrite (trim_plain ("t=" +:+ _)) by (intros c; rewrite explode_app; intros [Hc|?%pretty_plain]%elem_of_app; eauto).
  rewrite (trim_plain ("v1=" +:+ _)) by (intros c; rewrite explode_app; intros [Hc|?%hex_plain]%elem_of_app; eauto).
  done.
Qed.

Lemma hex_encode_empty b : Hex.encode b = "" → b = [].
Proof.
  intros H%explode_nil. unfold Hex.encode in H. rewrite explode_implode in H.
  apply (f_equal length) in H. rewrite Hex.length_chars_of in H. by destruct b.
Qed.

Lemma strip_part p s : strip_prefix (explode p) (explode (p +:+ s)) = Some (explode s).
Proof. rewrite explode_app. by apply strip_prefix_spec. Qed.

Lemma parse_formatted ts b :
  in_i64 ts → b ≠ [] → parse_signature_header (format_disk_signature_header ts (Hex.encode b)) = Ok (ts, Hex.encode b).
Proof.
  intros Hts Hb. unfold parse_signature_header. pose proof (formatted_parts ts b) as H.
  destruct (implode <$> _) as [|p1 [|p2 [|? ?]]]; simplify_eq/=. unfold header_part.
  rewrite H, H0, !strip_part, !implode_explode, Split.parse_i64_pretty by done. cbn [snd fst].
  replace (strip_prefix (explode "t=") (explode ("v1=" +:+ Hex.encode b))) with (@None chars) by done.
  rewrite decide_False; [done|]. by intros ?%hex_encode_empty.
Qed.

Section signatures.
Context (hmac : bytes → bytes → bytes) (Hmac : ∀ k m, length (hmac k m) = 32%nat).

(** The verdict on a header the server formatted. *)
Lemma verify_formatted secret secret' ts body body' now tol :
  in_i64 ts →
  verify_disk_webhook_signature hmac now
    (format_disk_signature_header ts (compute_disk_webhook_signature hmac secret ts body)) body' secret' tol
  = if decide (secret' = "") then Err InvalidSecret
    else if bool_decide (tol < as_i64 (Z.abs (as_i64 (now - ts)))) then Err TimestampSkew
    else if bool_decide (compute_disk_webhook_signature hmac secret' ts body' = compute_disk_webhook_signature hmac secret ts body)
    then Ok ts else Err Mismatch.
Proof.
  intros Hts. unfold verify_disk_webhook_signature. case_decide; [done|].
  unfold compute_disk_webhook_signature at 1. rewrite parse_formatted; [|done|].
  - cbn [res_bind]. case_bool_decide; [done|]. by rewrite constant_time_eq_spec.
  - intros Hn. apply (f_equal length) in Hn. by rewrite Hmac in Hn.
Qed.

(** A receiver that checks the header the server formatted accepts it
    within the tolerance and names its time, for the secret it was made with
    and the body as sent; on any other body or secret it says [Mismatch] unless
    the codes coincide, and an accepted text other than the one signed is a
    collision of the code. *)
Theorem webhook_sig_roundtrip secret secret' ts body body' now tol :
  in_i64 ts → bytes_utf8 body = true → bytes_utf8 body' = true →
  let header := format_disk_signature_header ts (compute_disk_webhook_signature hmac secret ts body) in
  let verdict := verify_disk_webhook_signature hmac now header body' secret' tol in
  (secret' = "" → verdict = Err InvalidSecret)
  ∧ (secret' ≠ "" → tol < as_i64 (Z.abs (as_i64 (now - ts))) → verdict = Err TimestampSkew)
  ∧ (secret' ≠ "" → as_i64 (Z.abs (as_i64 (now - ts))) ≤ tol →
      (secret' = secret → body' = body → verdict = Ok ts)
      ∧ (verdict = Ok ts ∨ verdict = Err Mismatch)
      ∧ (verdict = Ok ts → secret' = secret → body' ≠ body →
          ∃ m m', m ≠ m' ∧ hmac (Publisher.str_bytes secret) m = hmac (Publisher.str_bytes secret) m')).
Proof.
  intros Hts Hb Hb' header verdict. subst verdict header. rewrite verify_formatted by done.
  split; [by intros ->|]. split; [intros ? Ht; by rewrite decide_False, bool_decide_true|].
  intros Hne Ht. rewrite decide_False, bool_decide_false by (done || lia). split_and!.
  - intros -> ->. by rewrite bool_decide_true.
  - destruct (bool_decide _); auto.
  - intros Hok -> Hd. case_bool_decide as He; [|done]. unfold compute_disk_webhook_signature in He.
    apply (f_equal explode) in He. unfold Hex.encode in He. rewrite !explode_implode in He. apply Hex.chars_of_inj in He.
    rewrite !Lossy.bytes_lossy_valid in He by done. eexists _, _. split; [|exact (eq_sym He)]. intros ?%app_inv_head. done.
Qed.

(** A delivery makes at least one and at most three requests, all the same:
    it stops at the first one answered with success, waits 200 and then 400
    milliseconds in between, and reports success exactly when the last request
    was answered so. Each carries a signature that the receiver who holds the
    target's secret accepts while it is within its tolerance. *)
Theorem delivery_bounded to_vec respond created ts id_raw job target body :
  in_i64 ts →
  to_vec (mkEnvelope ("evt_" +:+ Hex.encode id_raw) (job_event job) created (job_vault job) (job_data job)) = Some body →
  ∃ n p, (1 ≤ n ≤ Dispatch.MAX_RETRIES)%nat
    ∧ Dispatch.deliver_one hmac to_vec respond created ts id_raw job target
      = (replicate n p, take (n - 1) [200; 400], respond (n - 1)%nat)
    ∧ (∀ k, (k < n - 1)%nat → respond k = false) ∧ (n < Dispatch.MAX_RETRIES → respond (n - 1)%nat = true)%nat
    ∧ po_url p = dt_url target ∧ po_webhook_id p = dt_id target ∧ po_event p = job_event job ∧ po_body p = body
    ∧ ∀ now tol, dt_signing_secret target ≠ "" → as_i64 (Z.abs (as_i64 (now - ts))) ≤ tol →
        verify_disk_webhook_signature hmac now (po_signature p) (po_body p) (dt_signing_secret target) tol = Ok ts.
Proof.
  intros Hts Hv. unfold Dispatch.deliver_one. rewrite Hv.
  set (p := mkPost _ _ _ _ _).
  assert (∀ now tol, dt_signing_secret target ≠ "" → as_i64 (Z.abs (as_i64 (now - ts))) ≤ tol →
        verify_disk_webhook_signature hmac now (po_signature p) (po_body p) (dt_signing_secret target) tol = Ok ts) as Hsig.
  { intros now tol Hne Ht. unfold p. cbn [po_signature po_body]. rewrite verify_formatted by done.
    rewrite decide_False, bool_decide_false, bool_decide_true by (done || lia). done. }
  cbn [Dispatch.attempts Dispatch.MAX_RETRIES Dispatch.BASE_BACKOFF_MS].
  destruct (respond 0%nat) eqn:H0.
  { exists 1%nat, p. split; [unfold Dispatch.MAX_RETRIES; lia|]. split; [simpl; by rewrite H0|].
    split_and!; try done; simpl; lia. }
  destruct (respond 1%nat) eqn:H1.
  { exists 2%nat, p. split; [unfold Dispatch.MAX_RETRIES; lia|]. split; [simpl; by rewrite H1|].
    split_and!; try done; simpl; try done. intros [|k] Hk; [done|lia]. }
  exists 3%nat, p. split; [unfold Dispatch.MAX_RETRIES; lia|]. split; [simpl; by destruct (respond 2%nat)|].
  split_and!; try done; [intros [|[|k]] Hk; [done|done|simpl in Hk; lia]|unfold Dispatch.MAX_RETRIES; lia].
Qed.
End signatures.

(** ** Witnesses *)
Definition demo_bump (expected : Z) (b : byte) (who : string) : bump_args :=
  mkBump (Some "t") "v" "a.txt" expected (replicate 32 b) who.
Definition demo_mac (k m : bytes) : bytes := take 32 (k ++ m ++ replicate 32 x00).

Lemma demo_mac_length k m : length (demo_mac k m) = 32%nat.
Proof. unfold demo_mac. rewrite length_take, !length_app, length_replicate. lia. Qed.

Lemma demo_valid n b who : 0 ≤ n < 10 → valid_bump (demo_bump n b who).
Proof. intros Hn. unfold valid_bump, demo_bump. simpl. split_and!; [by eexists|unfold_ints; lia|unfold_ints; lia|done]. Qed.

(** A bump that expects 0, one that comes too late, and one on the new value. *)
Lemma bumps_refine_counters_witness :
  (bumps AccountsTheorems.demo_env TenantMetaRouter.Control [demo_bump 0 x01 "a"; demo_bump 0 x02 "b"; demo_bump 1 x03 "c"]
     AccountsTheorems.demo_state).1 = [Ok (Applied 1); Ok (Conflict 1); Ok (Applied 2)].
Proof.
  pose proof (bumps_refine_counters AccountsTheorems.demo_env (λ _, eq_refl) TenantMetaRouter.Control
    [demo_bump 0 x01 "a"; demo_bump 0 x02 "b"; demo_bump 1 x03 "c"] AccountsTheorems.demo_state (λ _, 0)) as H.
  destruct (bumps _ _ _ _) as [rs s']. destruct (counters _ _) as [os c'] eqn:Hc. apply (f_equal fst) in Hc. vm_compute in Hc.
  cbn [fst] in *. subst os. apply H; [repeat constructor; by apply demo_valid|]. intros a _. done.
Defined.

Lemma cas_both_win_witness :
  ∃ t', race (demo_bump 0 x01 "a") (demo_bump 0 x02 "b") 5 [First; Second; First; Second; First; Second] (BStart, BStart, [])
    = (BDone (Applied 1), BDone (Applied 1), t')
    ∧ wr_content_hash (current (demo_bump 0 x02 "b") t') = Some (replicate 32 x01).
Proof.
  pose proof (cas_both_win (demo_bump 0 x01 "a") (demo_bump 0 x02 "b") 5 []
    (demo_valid 0 x01 "a" ltac:(lia)) ltac:(done) eq_refl I eq_refl) as H.
  destruct (race _ _ _ _ _) as [[pa pb] t'] eqn:Hr. destruct H as (->&->&H&_). exists t'. split; [reflexivity|exact H].
Defined.

Lemma webhook_sig_roundtrip_witness :
  verify_disk_webhook_signature demo_mac 1003
    (format_disk_signature_header 1000 (compute_disk_webhook_signature demo_mac "whsec_1" 1000 [x7b; x7d])) [x7b; x7d] "whsec_1" 300
  = Ok 1000.
Proof.
  apply (webhook_sig_roundtrip demo_mac demo_mac_length "whsec_1" "whsec_1" 1000 [x7b; x7d] [x7b; x7d] 1003 300);
    [by vm_compute|reflexivity|reflexivity|discriminate|by vm_compute|reflexivity|reflexivity].
Defined.

Lemma delivery_bounded_witness :
  ∃ n p, Dispatch.deliver_one demo_mac (λ _, Some [x7b; x7d]) (λ k, bool_decide (k = 1)%nat) 1000 1000 (replicate 16 x01)
      (mkJob (Some "t") "v" "agent.write_ok" (WriteConflict "a.txt" 0 1)) (mkTarget "awh_1" "https://h.example" "whsec_1")
    = (replicate n p, take (n - 1) [200; 400], bool_decide (n - 1 = 1)%nat).
Proof.
  destruct (delivery_bounded demo_mac demo_mac_length (λ _, Some [x7b; x7d]) (λ k, bool_decide (k = 1)%nat) 1000 1000
    (replicate 16 x01) (mkJob (Some "t") "v" "agent.write_ok" (WriteConflict "a.txt" 0 1))
    (mkTarget "awh_1" "https://h.example" "whsec_1") [x7b; x7d]) as (n&p&_&H&_); [by vm_compute|reflexivity|].
  exists n, p. exact H.
Defined.
End AgentsProps.
