(* ===== verification/Capture.v ===== *)
(** * Capture descriptors ([disk-personal/src/capture_binding.rs])

    The descriptor of a capture (one note, perhaps with an attachment), the
    receipts it expects, and the checks of bytes against them. JSON decoding and
    printing is [serde_json]'s and SHA-256 [sha2]'s: the class below says what
    of them is used. *)

From stdpp Require Import prelude gmap strings.
From Stdlib Require Import ZArith Lia Strings.Byte Strings.Ascii.
From S2P Require Import Prelude Text BlobStore Publisher.

#[local] Open Scope Z_scope.

(** ** Values *)
Module Part.
Record t := mk {
  part_id : string;
  role : string;
  object_id : string;
  object_revision : string;
  sha256 : string;
  size_bytes : Z;
  media_type : string
}.
#[global] Instance t_eq_dec : EqDecision t.
Proof. solve_decision. Defined.
End Part.

Module WireDescriptor.
Record t := mk {
  schema_version : string;
  realm_id : string;
  capture_id : string;
  conversation_id : string;
  message_id : string;
  expected_conversation_revision : Z;
  operation : string;
  idempotency_key : string;
  request_fingerprint : string;
  cancellation_generation : Z;
  parts : list Part.t
}.
#[global] Instance t_eq_dec : EqDecision t.
Proof. solve_decision. Defined.
End WireDescriptor.

Module ObjectReceipt.
Record t := mk {
  schema_version : string;
  realm_id : string;
  capture_id : string;
  part_id : string;
  object_id : string;
  object_revision : string;
  sha256 : string;
  size_bytes : Z;
  media_type : string;
  request_fingerprint : string;
  cancellation_generation : Z
}.
#[global] Instance t_eq_dec : EqDecision t.
Proof. solve_decision. Defined.
End ObjectReceipt.

(** What the [json!] macro builds here. *)
Inductive Json := JNull | JNum (n : Z) | JStr (s : string) | JArr (l : list Json).

Inductive InvalidBinding := mkInvalidBinding.

(** The strings of a receipt. *)
Definition receipt_strings (r : ObjectReceipt.t) : list string :=
  [ObjectReceipt.schema_version r; ObjectReceipt.realm_id r; ObjectReceipt.capture_id r; ObjectReceipt.part_id r;
   ObjectReceipt.object_id r; ObjectReceipt.object_revision r; ObjectReceipt.sha256 r; ObjectReceipt.media_type r;
   ObjectReceipt.request_fingerprint r].

(** No character JSON escapes, and none outside ASCII. *)
Definition json_plain (s : string) : bool :=
  forallb (λ c, bool_decide (32 ≤ ascii_code c ≤ 126) && negb (bool_decide (ascii_code c = 34))
                && negb (bool_decide (ascii_code c = 92))) (explode s).

(** The largest integer the decoders take from a JSON number. *)
Definition MAX_SAFE : Z := 9007199254740991.

Class CaptureLib := {
  sha256 : bytes → bytes;
  json_print : Json → string;
  descriptor_from_slice : bytes → option WireDescriptor.t;
  receipt_from_slice : bytes → option ObjectReceipt.t;
  receipt_to_vec : ObjectReceipt.t → bytes;
  json_print_inj : Inj (=) (=) json_print;
  (** Numbers come through the [integer] decoder, which refuses larger ones. *)
  descriptor_numbers : ∀ b d, descriptor_from_slice b = Some d →
    0 ≤ WireDescriptor.cancellation_generation d ≤ MAX_SAFE
    ∧ 0 ≤ WireDescriptor.expected_conversation_revision d ≤ MAX_SAFE
    ∧ Forall (λ p, 0 ≤ Part.size_bytes p ≤ MAX_SAFE) (WireDescriptor.parts d);
  receipt_roundtrip : ∀ r, forallb json_plain (receipt_strings r) = true →
    0 ≤ ObjectReceipt.size_bytes r ≤ MAX_SAFE → 0 ≤ ObjectReceipt.cancellation_generation r ≤ MAX_SAFE →
    receipt_from_slice (receipt_to_vec r) = Some r
}.

Module Capture.
Definition VERSION : string := "personal-capture/v1".
Definition MEDIA : string := "text/plain;charset=utf-8".
Definition MAX_COUNTER : Z := 9007199254740990.

Definition is_lower_hex (c : ascii) : bool := is_ascii_digit c || bool_decide (97 ≤ ascii_code c ≤ 102).

(** A UUID in its lower-case hyphenated form. *)
Definition identifier (s : string) : bool :=
  bool_decide (length (explode s) = 36%nat)
  && forallb (λ p : nat * ascii, if bool_decide (p.1 ∈ [8; 13; 18; 23]%nat) then bool_decide (p.2 = "-"%char)
                                 else is_lower_hex p.2) (zip (seq 0 36) (explode s)).

Definition digest (s : string) : bool :=
  bool_decide (length (explode s) = 64%nat) && forallb is_lower_hex (explode s).

Section capture.
Context {lib : CaptureLib}.
Import WireDescriptor.

(** [format!("{:x}", Sha256::digest(bytes))]. *)
Definition sha256_hex (b : bytes) : string := Hex.encode (sha256 b).

(** Without the allocated identifiers. *)
Definition fingerprint_input (d : WireDescriptor.t) : string :=
  json_print (JArr [JStr VERSION; JStr (realm_id d); JStr (operation d); JStr (conversation_id d);
    JNum (expected_conversation_revision d);
    JArr ((λ p, JArr [JStr (Part.role p); JStr (Part.sha256 p); JNum (Part.size_bytes p); JStr (Part.media_type p)]) <$> parts d)]).

Definition descriptor_json (d : WireDescriptor.t) : Json :=
  JArr [JStr (schema_version d); JStr (realm_id d); JStr (capture_id d); JStr (conversation_id d); JStr (message_id d);
    JNum (expected_conversation_revision d); JStr (operation d); JStr (idempotency_key d); JStr (request_fingerprint d);
    JNum (cancellation_generation d);
    JArr ((λ p, JArr [JStr (Part.part_id p); JStr (Part.role p); JStr (Part.object_id p); JStr (Part.object_revision p);
                      JStr (Part.sha256 p); JNum (Part.size_bytes p); JStr (Part.media_type p)]) <$> parts d)].
Definition descriptor_identity (d : WireDescriptor.t) : string := json_print (descriptor_json d).

Definition part_ok (i : nat) (p : Part.t) : bool :=
  bool_decide (Part.role p = if decide (i = 0%nat) then "note" else "attachment")
  && bool_decide (Part.media_type p = MEDIA)
  && bool_decide (Part.size_bytes p ≤ if decide (i = 0%nat) then 65536 else 1048576)
  && identifier (Part.part_id p) && identifier (Part.object_id p) && identifier (Part.object_revision p)
  && digest (Part.sha256 p).

(** The conditions of [parse], in its order. *)
Definition header_ok (d : WireDescriptor.t) : bool :=
  bool_decide (schema_version d = VERSION) && bool_decide (operation d = "append_message")
  && identifier (realm_id d) && identifier (capture_id d) && identifier (conversation_id d)
  && identifier (message_id d) && identifier (idempotency_key d) && digest (request_fingerprint d)
  && bool_decide (expected_conversation_revision d ≤ MAX_COUNTER) && bool_decide (cancellation_generation d ≤ MAX_COUNTER)
  && bool_decide (parts d ≠ []) && bool_decide (length (parts d) ≤ 2)%nat.
Definition parts_ok (d : WireDescriptor.t) : bool :=
  forallb (λ p : nat * Part.t, part_ok p.1 p.2) (zip (seq 0 (length (parts d))) (parts d)).
Definition distinct_ok (d : WireDescriptor.t) : bool :=
  match parts d with
  | [p; q] => negb (bool_decide (Part.part_id p = Part.part_id q)) && negb (bool_decide (Part.object_id p = Part.object_id q))
  | _ => true
  end.

Definition parse (b : bytes) : result WireDescriptor.t InvalidBinding :=
  d <?- ok_or (descriptor_from_slice b) mkInvalidBinding ;;
  if negb (header_ok d) then Err mkInvalidBinding
  else if negb (parts_ok d) then Err mkInvalidBinding
  else if negb (distinct_ok d) then Err mkInvalidBinding
  else if bool_decide (sha256_hex (Publisher.str_bytes (fingerprint_input d)) = request_fingerprint d) then Ok d
  else Err mkInvalidBinding.

Definition expected_receipt (d : WireDescriptor.t) (p : Part.t) : ObjectReceipt.t :=
  ObjectReceipt.mk VERSION (realm_id d) (capture_id d) (Part.part_id p) (Part.object_id p) (Part.object_revision p)
    (Part.sha256 p) (Part.size_bytes p) (Part.media_type p) (request_fingerprint d) (cancellation_generation d).
Definition expected_receipts (d : WireDescriptor.t) : list ObjectReceipt.t := expected_receipt d <$> parts d.

Definition find_part (d : WireDescriptor.t) (part_id : string) : option Part.t :=
  find (λ p, bool_decide (Part.part_id p = part_id)) (parts d).

(** Every field of the receipt and the bytes themselves. *)
Definition receipt_matches (d : WireDescriptor.t) (p : Part.t) (r : ObjectReceipt.t) (b : bytes) : bool :=
  bool_decide (ObjectReceipt.schema_version r = VERSION) && bool_decide (ObjectReceipt.realm_id r = realm_id d)
  && bool_decide (ObjectReceipt.capture_id r = capture_id d) && bool_decide (ObjectReceipt.object_id r = Part.object_id p)
  && bool_decide (ObjectReceipt.object_revision r = Part.object_revision p) && bool_decide (ObjectReceipt.sha256 r = Part.sha256 p)
  && bool_decide (ObjectReceipt.size_bytes r = Part.size_bytes p) && bool_decide (ObjectReceipt.media_type r = Part.media_type p)
  && bool_decide (ObjectReceipt.request_fingerprint r = request_fingerprint d)
  && bool_decide (ObjectReceipt.cancellation_generation r = cancellation_generation d)
  && bool_decide (Z.of_nat (length b) = Part.size_bytes p) && bool_decide (sha256_hex b = Part.sha256 p) && bytes_utf8 b.

Definition verify_receipt_bytes (d : WireDescriptor.t) (receipt_json b : bytes) : result unit InvalidBinding :=
  if bool_decide (4096 < Z.of_nat (length receipt_json)) || bool_decide (1048576 < Z.of_nat (length b)) then Err mkInvalidBinding
  else
    r <?- ok_or (receipt_from_slice receipt_json) mkInvalidBinding ;;
    p <?- ok_or (find_part d (ObjectReceipt.part_id r)) mkInvalidBinding ;;
    if receipt_matches d p r b then Ok tt else Err mkInvalidBinding.

Fixpoint verify_items (d : WireDescriptor.t) (seen : list string) (items : list (bytes * bytes)) : result unit InvalidBinding :=
  match items with
  | [] => Ok tt
  | (receipt, body) :: items =>
      _ <?- verify_receipt_bytes d receipt body ;;
      r <?- ok_or (receipt_from_slice receipt) mkInvalidBinding ;;
      if bool_decide (ObjectReceipt.part_id r ∈ seen) then Err mkInvalidBinding
      else verify_items d (ObjectReceipt.part_id r :: seen) items
  end.
Definition verify_receipt_set (d : WireDescriptor.t) (items : list (bytes * bytes)) : result unit InvalidBinding :=
  if decide (length items = length (parts d)) then verify_items d [] items else Err mkInvalidBinding.
End capture.
End Capture.
