(* ===== verification/Parent.v ===== *)
(** * The parent of personal storage
      ([disk-personal/src/parent_adapter.rs], [parent_wire.rs],
      [parent_native.rs], [parent_authority.rs])

    The orchestration of captures between an authority, which decides, and a
    storage, which keeps: two traits, here classes over a world that both act
    on. The native types implement the storage over a backend and the authority
    over a control plane. *)

From stdpp Require Import prelude gmap strings pretty.
From Stdlib Require Import ZArith Lia Strings.Byte Strings.Ascii.
From S2P Require Import Prelude Text BlobStore Publisher Capture.

#[local] Open Scope Z_scope.

(** ** [parent_adapter.rs] *)
Module Adapter.
Inductive Refusal := NotAvailable | Pending | Conflict | Backpressure | Unavailable.
#[global] Instance Refusal_eq_dec : EqDecision Refusal.
Proof. solve_decision. Defined.
Inductive Operation := Stage | Verify | Status | CleanupCancelled.
#[global] Instance Operation_eq_dec : EqDecision Operation.
Proof. solve_decision. Defined.

Inductive Observation (R O : Type) :=
  | Unseen | Prepared | Durable (receipt : R) (outcome : O) | CleanupPending
  | CancelledCleaned (outcome : O) | Corrupt | Unknown.
Arguments Unseen {R O}.
Arguments Prepared {R O}.
Arguments Durable {R O} _ _.
Arguments CleanupPending {R O}.
Arguments CancelledCleaned {R O} _.
Arguments Corrupt {R O}.
Arguments Unknown {R O}.

Inductive Commit (R O : Type) := Committed (receipt : R) (outcome : O) | CommitUnknown.
Arguments Committed {R O} _ _.
Arguments CommitUnknown {R O}.

Class Contract := {
  Deployment : Type;
  ConfigReferences : Type;
  Request : Type;
  Receipt : Type;
  Outcome : Type
}.

(** A computation on the world that the two ports share. *)
Abbreviation pm W := (stm W Refusal).

Class Authority (W : Type) {C : Contract} := {
  Startup : Type;
  Effect : Type;
  Cancellation : Type;
  with_startup : ∀ {T}, Deployment → ConfigReferences → (Startup → pm W T) → pm W T;
  with_effect : ∀ {T}, Startup → Request → Operation → (Effect → pm W T) → pm W T;
  cancelled : Effect → Request → pm W Cancellation;
  verify_durable : Effect → Request → Receipt → Outcome → pm W unit;
  register_outcome : Effect → Request → Outcome → pm W unit;
  verify_cleaned : Effect → Request → Cancellation → Outcome → pm W unit
}.

Class Storage (W : Type) {C : Contract} {A : Authority W} := {
  observe : Effect → Request → pm W (Observation Receipt Outcome);
  verify_body : Effect → Request → bytes → pm W unit;
  stage : Effect → Request → bytes → pm W (Commit Receipt Outcome);
  verify_exact_readback : Effect → Request → Receipt → pm W unit;
  tombstone : Effect → Request → Cancellation → pm W unit;
  finish_cleanup : Effect → Request → Cancellation → pm W (option Outcome)
}.

(** The service's methods; [Parent] itself is the two instances. *)
Module Parent.
Section parent.
Context {W : Type} {C : Contract} {A : Authority W} {S : Storage W}.

Definition authorized {T} (deployment : Deployment) (config : ConfigReferences) (request : Request) (operation : Operation)
    (action : Effect → pm W T) : pm W T :=
  with_startup deployment config (λ startup, with_effect startup request operation action).

Definition confirmed (effect : Effect) (request : Request) (receipt : Receipt) (outcome : Outcome) : pm W Outcome :=
  _ <~ verify_durable effect request receipt outcome ;;
  _ <~ verify_exact_readback effect request receipt ;;
  _ <~ register_outcome effect request outcome ;;
  st_ret outcome.

(** The bytes, when they are not too many and are the request's. *)
Definition checked_body (effect : Effect) (request : Request) (body : pm W bytes) : pm W bytes :=
  b <~ body ;;
  if bool_decide (1048576 < Z.of_nat (length b)) then st_err NotAvailable
  else _ <~ verify_body effect request b ;; st_ret b.

Definition write_or_reconcile (deployment : Deployment) (config : ConfigReferences) (request : Request) (body : pm W bytes)
    : pm W Outcome :=
  authorized deployment config request Stage (λ effect,
    o <~ observe effect request ;;
    match o with
    | Durable receipt outcome =>
        _ <~ checked_body effect request body ;; confirmed effect request receipt outcome
    | Unseen =>
        b <~ checked_body effect request body ;;
        c <~ stage effect request b ;;
        match c with
        | Committed receipt outcome => confirmed effect request receipt outcome
        | CommitUnknown => st_err Pending
        end
    | Prepared | Unknown => st_err Pending
    | CleanupPending | CancelledCleaned _ => st_err Conflict
    | Corrupt => st_err Unavailable
    end).

Definition readback (deployment : Deployment) (config : ConfigReferences) (request : Request) : pm W Outcome :=
  authorized deployment config request Verify (λ effect,
    o <~ observe effect request ;;
    match o with
    | Durable receipt outcome =>
        _ <~ verify_durable effect request receipt outcome ;;
        _ <~ verify_exact_readback effect request receipt ;;
        st_ret outcome
    | Unseen => st_err NotAvailable
    | Prepared | Unknown => st_err Pending
    | Corrupt => st_err Unavailable
    | _ => st_err NotAvailable
    end).

Definition status (deployment : Deployment) (config : ConfigReferences) (request : Request)
    : pm W (Observation Receipt Outcome) :=
  authorized deployment config request Status (λ effect, observe effect request).

Definition cleanup (deployment : Deployment) (config : ConfigReferences) (request : Request) : pm W Outcome :=
  authorized deployment config request CleanupCancelled (λ effect,
    c <~ cancelled effect request ;;
    o <~ observe effect request ;;
    outcome <~ match o with
      | Unknown | Prepared => st_err Pending
      | Corrupt => st_err Unavailable
      | CancelledCleaned outcome => st_ret outcome
      | Unseen | Durable _ _ | CleanupPending =>
          _ <~ tombstone effect request c ;;
          r <~ finish_cleanup effect request c ;;
          st_lift (ok_or r Pending)
      end ;;
    _ <~ verify_cleaned effect request c outcome ;;
    _ <~ register_outcome effect request outcome ;;
    st_ret outcome).
End parent.
End Parent.

(** The composition that is installed by default. *)
Inductive Never : Set := .

#[local] Instance UnavailableAuthority {C : Contract} W : Authority W := {|
  Startup := Never; Effect := Never; Cancellation := Never;
  with_startup _ _ _ _ := st_err Unavailable;
  with_effect _ _ _ _ _ := st_err Unavailable;
  cancelled _ _ := st_err Unavailable;
  verify_durable _ _ _ _ := st_err Unavailable;
  register_outcome _ _ _ := st_err Unavailable;
  verify_cleaned _ _ _ _ := st_err Unavailable
|}.
End Adapter.

(** ** [parent_wire.rs] *)
Module ParentWire.
Import Adapter.
Definition WIRE : string := "strict-disk/1-proposed".
Definition AMENDMENT : string := "disk-wire-closure/1-proposed".
Definition PROFILE : string := "organize-me.synthetic/1".

Record ReferenceRequest := { wire_version : string; amendment_version : string; profile_id : string; request_id : string }.
Record WireError := {
  we_wire_version : string; we_amendment_version : string; we_profile_id : string; we_request_id : string;
  we_result : string; we_retryable : bool
}.

(** [from_slice] is the derived decoder, which refuses unknown fields. *)
Definition parse (from_slice : bytes → option ReferenceRequest) (b : bytes) : result ReferenceRequest Refusal :=
  if bool_decide (4096 < Z.of_nat (length b)) then Err NotAvailable
  else
    r <?- ok_or (from_slice b) NotAvailable ;;
    if bool_decide (wire_version r = WIRE) && bool_decide (amendment_version r = AMENDMENT)
       && bool_decide (profile_id r = PROFILE) && Capture.identifier (request_id r)
    then Ok r else Err NotAvailable.

Definition refusal_name (x : Refusal) : string :=
  match x with
  | NotAvailable => "not_available" | Pending => "pending" | Conflict => "conflict"
  | Backpressure => "backpressure" | Unavailable => "unavailable"
  end.

Definition error (r : ReferenceRequest) (x : Refusal) : WireError :=
  {| we_wire_version := WIRE; we_amendment_version := AMENDMENT; we_profile_id := PROFILE;
     we_request_id := request_id r; we_result := refusal_name x; we_retryable := false |}.
End ParentWire.

(** ** [parent_native.rs] *)
Module Native.
Import Adapter.

(** [Id], [Digest] and [Counter] are their contents, checked on decoding. *)
Definition id_ok (s : string) : bool := Capture.identifier s.
Definition digest_ok (s : string) : bool := Capture.digest s.

(** A counter is written in decimal, without leading zeros. *)
Definition counter_from_str (s : string) : option Z :=
  let l := explode s in
  if bool_decide (l = []) || bool_decide (20 < length l)%nat
     || (bool_decide (1 < length l)%nat && bool_decide (head l = Some "0"%char))
     || negb (forallb is_ascii_digit l)
  then None
  else let n := foldl (λ acc c, acc * 10 + (ascii_code c - 48)) 0 l in
       if bool_decide (n ≤ u64_max) then Some n else None.
Definition counter_to_str (n : Z) : string := pretty n.

Record DeploymentBinding := {
  issuer : string; dep_realm_id : string; dep_deployment_generation : Z; participant_config_version : Z;
  key_domain_ref : string; executable_sha256 : string; config_sha256 : string
}.
#[global] Instance DeploymentBinding_eq_dec : EqDecision DeploymentBinding.
Proof. solve_decision. Defined.
Record ProtectedConfigReferences := { provisioner_reference : string; auth_reference : string }.

(** What identifies the effect that produced an outcome. *)
Record OriginalEffect := mkEffect {
  owner_receipt_id : string; realm_id : string; deployment_generation : Z; participant_id : string;
  process_generation : Z; operation_id : string; intent_id : string; owner_commit_id : string; local_seq : Z;
  resource_binding_digest : string
}.
#[global] Instance OriginalEffect_eq_dec : EqDecision OriginalEffect.
Proof. solve_decision. Defined.

(** [Stored] and [Cleaned] start with the same ten fields. *)
Record Stored := mkStored { st_effect : OriginalEffect; object_receipt : ObjectReceipt.t; st_storage_receipt_id : string }.
Record Cancellation := mkCancellation {
  ca_schema_version : string; purpose : string; ca_realm_id : string; ca_capture_id : string;
  ca_request_fingerprint : string; intent_revision : Z; ca_cancellation_generation : Z
}.
#[global] Instance Cancellation_eq_dec : EqDecision Cancellation.
Proof. solve_decision. Defined.
Record ObjectKey := mkKey { k_part_id : string; k_object_id : string; k_object_revision : string }.
#[global] Instance ObjectKey_eq_dec : EqDecision ObjectKey.
Proof. solve_decision. Defined.
Record Cleaned := mkCleaned {
  cl_effect : OriginalEffect; cancelled_owner_outcome_id : string; cl_cancellation : Cancellation;
  cleaned_objects : list ObjectKey
}.
Inductive Outcome := OStored (s : Stored) | OCleaned (c : Cleaned).
#[global] Instance Stored_eq_dec : EqDecision Stored.
Proof. solve_decision. Defined.
#[global] Instance Cleaned_eq_dec : EqDecision Cleaned.
Proof. solve_decision. Defined.
#[global] Instance Outcome_eq_dec : EqDecision Outcome.
Proof. solve_decision. Defined.

Record CancelledResource := mkCancelled {
  kind : string; cr_intent_id : string; terminal_intent_revision : Z; cr_cancellation_generation : Z;
  owner_outcome_id : string; part_ids : list string; cr_cancellation : Cancellation
}.

(** The decoders' checks of an outcome's fields. *)
Definition effect_ok (e : OriginalEffect) : bool :=
  forallb id_ok [owner_receipt_id e; realm_id e; participant_id e; operation_id e; intent_id e; owner_commit_id e]
  && digest_ok (resource_binding_digest e)
  && forallb (λ n, bool_decide (in_u64 n)) [deployment_generation e; process_generation e; local_seq e].
Definition receipt_numbers_ok (r : ObjectReceipt.t) : bool :=
  bool_decide (0 ≤ ObjectReceipt.size_bytes r ≤ MAX_SAFE)
  && bool_decide (0 ≤ ObjectReceipt.cancellation_generation r ≤ MAX_SAFE).
Definition cancellation_ok (c : Cancellation) : bool :=
  id_ok (ca_realm_id c) && id_ok (ca_capture_id c) && digest_ok (ca_request_fingerprint c)
  && bool_decide (0 ≤ intent_revision c ≤ MAX_SAFE) && bool_decide (0 ≤ ca_cancellation_generation c ≤ MAX_SAFE).
Definition outcome_ok (o : Outcome) : bool :=
  match o with
  | OStored s => effect_ok (st_effect s) && receipt_numbers_ok (object_receipt s) && id_ok (st_storage_receipt_id s)
                 && forallb json_plain (receipt_strings (object_receipt s))
  | OCleaned c => effect_ok (cl_effect c) && id_ok (cancelled_owner_outcome_id c) && cancellation_ok (cl_cancellation c)
                  && json_plain (ca_schema_version (cl_cancellation c)) && json_plain (purpose (cl_cancellation c))
                  && forallb (λ k, id_ok (k_part_id k) && id_ok (k_object_id k) && id_ok (k_object_revision k)) (cleaned_objects c)
  end.

(** The derived encoders and decoders of the native records. *)
Class NativeJson := {
  outcome_from_slice : bytes → option Outcome;
  outcome_to_string : Outcome → string;
  cancelled_from_slice : bytes → option CancelledResource;
  cancelled_to_string : CancelledResource → string;
  outcome_json_roundtrip : ∀ o, outcome_ok o = true → outcome_from_slice (Publisher.str_bytes (outcome_to_string o)) = Some o;
  cancelled_json_roundtrip : ∀ b c, cancelled_from_slice b = Some c →
    cancelled_from_slice (Publisher.str_bytes (cancelled_to_string c)) = Some c
}.

Record Request := mkRequest {
  descriptor : WireDescriptor.t; selected_receipt : option ObjectReceipt.t; expected : list ObjectReceipt.t
}.
Record Receipt := mkReceipt { receipt_object : ObjectReceipt.t }.

#[global] Instance NativeContract : Contract := {|
  Adapter.Deployment := DeploymentBinding; Adapter.ConfigReferences := ProtectedConfigReferences;
  Adapter.Request := Request; Adapter.Receipt := Receipt; Adapter.Outcome := Outcome
|}.

Section native.
Context {lib : CaptureLib} {nj : NativeJson}.

Definition parse_request (b : bytes) (part_id : option string) : result Request Refusal :=
  if bool_decide (8192 < Z.of_nat (length b)) then Err NotAvailable
  else
    d <?- map_err (λ _, NotAvailable) (Capture.parse b) ;;
    let expected := Capture.expected_receipts d in
    match part_id with
    | Some id =>
        p <?- ok_or (find (λ p, bool_decide (ObjectReceipt.part_id p = id)) expected) NotAvailable ;;
        Ok (mkRequest d (Some p) expected)
    | None => Ok (mkRequest d None expected)
    end.

Definition request_identity (r : Request) : string := Capture.descriptor_identity (descriptor r).

(** [self.expected[0]]; a parsed descriptor has at least one part. *)
Definition first_expected (r : Request) : ObjectReceipt.t :=
  default (ObjectReceipt.mk "" "" "" "" "" "" "" 0 "" "" 0) (head (expected r)).
Definition request_realm (r : Request) : string := ObjectReceipt.realm_id (first_expected r).
Definition capture_id (r : Request) : string := ObjectReceipt.capture_id (first_expected r).
Definition selected (r : Request) : result ObjectReceipt.t Refusal := ok_or (selected_receipt r) NotAvailable.

Definition request_verify_body (r : Request) (b : bytes) : result unit Refusal :=
  x <?- selected r ;;
  map_err (λ _, Conflict) (Capture.verify_receipt_bytes (descriptor r) (receipt_to_vec x) b).

Definition resource_json (r : Request) (part_id : option string) : string :=
  json_print (JArr [JStr (request_identity r); match part_id with Some p => JStr p | None => JNull end]).
Definition resource_identity (r : Request) : string :=
  resource_json r (ObjectReceipt.part_id <$> selected_receipt r).
Definition part_resource_identities (r : Request) : list string :=
  (λ p, resource_json r (Some (ObjectReceipt.part_id p))) <$> expected r.
Definition selected_size (r : Request) : result Z Refusal :=
  x <?- selected r ;; Ok (ObjectReceipt.size_bytes x).
Definition selected_receipt_json (r : Request) : result bytes Refusal :=
  x <?- selected r ;; Ok (receipt_to_vec x).
Definition object_key (p : ObjectReceipt.t) : ObjectKey :=
  mkKey (ObjectReceipt.part_id p) (ObjectReceipt.object_id p) (ObjectReceipt.object_revision p).
Definition selected_object (r : Request) : result ObjectKey Refusal :=
  x <?- selected r ;; Ok (object_key x).
Definition accepts_operation (r : Request) (op : Operation) : bool :=
  match op with
  | CleanupCancelled => bool_decide (selected_receipt r = None)
  | _ => bool_decide (is_Some (selected_receipt r))
  end.

(** *** Outcomes *)
Definition original_identity (o : Outcome) : OriginalEffect :=
  match o with OStored s => st_effect s | OCleaned c => cl_effect c end.
Definition matches_original_effect (o : Outcome) (e : OriginalEffect) : bool := bool_decide (original_identity o = e).
Definition storage_receipt_id (o : Outcome) : option string :=
  match o with OStored s => Some (st_storage_receipt_id s) | _ => None end.
Definition outcome_owner_receipt (o : Outcome) : string := owner_receipt_id (original_identity o).
Definition local_sequence (o : Outcome) : Z := local_seq (original_identity o).
Definition matches_operation (o : Outcome) (op : Operation) : bool :=
  match o, op with OStored _, Stage => true | OCleaned _, CleanupCancelled => true | _, _ => false end.

Definition parse_outcome (b : bytes) : result Outcome Refusal :=
  if bool_decide (8192 < Z.of_nat (length b)) then Err NotAvailable else ok_or (outcome_from_slice b) NotAvailable.

Definition outcome_receipt (o : Outcome) (r : Request) : result Receipt Refusal :=
  match o with
  | OStored s =>
      if bool_decide (realm_id (st_effect s) = request_realm r) && bool_decide (intent_id (st_effect s) = capture_id r) then
        x <?- selected r ;;
        if decide (object_receipt s = x) then Ok (mkReceipt (object_receipt s)) else Err NotAvailable
      else Err NotAvailable
  | OCleaned _ => Err NotAvailable
  end.
Definition verify_receipt (o : Outcome) (r : Request) (receipt : Receipt) : result unit Refusal :=
  x <?- outcome_receipt o r ;;
  if decide (receipt_object x = receipt_object receipt) then Ok tt else Err NotAvailable.

(** *** Cancellations *)
Definition sort_strings (l : list string) : list string := sort_by (λ a b, String.leb a b) l.

Definition cancelled_validate (c : CancelledResource) (r : Request) : result unit Refusal :=
  let p := first_expected r in
  let k := cr_cancellation c in
  if bool_decide (selected_receipt r = None) && bool_decide (kind c = "cancellation")
     && bool_decide (cr_intent_id c = ObjectReceipt.capture_id p)
     && bool_decide (ca_schema_version k = "personal-capture/v1") && bool_decide (purpose k = "cancel_unpublished_capture")
     && bool_decide (ca_realm_id k = ObjectReceipt.realm_id p) && bool_decide (ca_capture_id k = ObjectReceipt.capture_id p)
     && bool_decide (ca_request_fingerprint k = ObjectReceipt.request_fingerprint p)
     && bool_decide (sort_strings (part_ids c) = sort_strings (ObjectReceipt.part_id <$> expected r))
     && bool_decide (cr_cancellation_generation c = ObjectReceipt.cancellation_generation p + 1)
     && bool_decide (ca_cancellation_generation k = cr_cancellation_generation c)
     && bool_decide (2 ≤ terminal_intent_revision c) && bool_decide (terminal_intent_revision c ≤ MAX_SAFE)
     && bool_decide (intent_revision k = terminal_intent_revision c)
  then Ok tt else Err NotAvailable.

Definition parse_cancelled (b : bytes) (r : Request) : result CancelledResource Refusal :=
  if bool_decide (4096 < Z.of_nat (length b)) then Err NotAvailable
  else p <?- ok_or (cancelled_from_slice b) NotAvailable ;; _ <?- cancelled_validate p r ;; Ok p.

Definition cancelled_objects (c : CancelledResource) (r : Request) : result (list ObjectKey) Refusal :=
  _ <?- cancelled_validate c r ;; Ok (object_key <$> expected r).

Definition cancelled_verify_cleaned (c : CancelledResource) (r : Request) (o : Outcome) : result unit Refusal :=
  match o with
  | OStored _ => Err NotAvailable
  | OCleaned s =>
      expected <?- cancelled_objects c r ;;
      if bool_decide (realm_id (cl_effect s) = request_realm r) && bool_decide (intent_id (cl_effect s) = cr_intent_id c)
         && bool_decide (cancelled_owner_outcome_id s = owner_outcome_id c)
         && bool_decide (cl_cancellation s = cr_cancellation c)
         && bool_decide (length (cleaned_objects s) = length expected)
         && forallb (λ k, bool_decide (length (List.filter (λ x, bool_decide (x = k)) (cleaned_objects s)) = 1%nat)) expected
      then Ok tt else Err NotAvailable
  end.

Definition selection_valid (d : DeploymentBinding) : bool :=
  bool_decide (issuer d ≠ "") && bool_decide (str_len (issuer d) ≤ 256)
  && bool_decide (key_domain_ref d ≠ "") && bool_decide (str_len (key_domain_ref d) ≤ 256).
End native.

(** *** The storage over a backend *)
Class NativeBackend (W E : Type) := {
  b_observe : E → Request → pm W (Observation unit Outcome);
  b_stage : E → Request → bytes → pm W (option Outcome);
  b_read_exact : E → Request → Z → pm W bytes;
  b_tombstone_exact : E → Request → list ObjectKey → CancelledResource → pm W unit;
  b_cleanup_exact : E → Request → list ObjectKey → CancelledResource → pm W (option Outcome)
}.

Section storage.
Context {lib : CaptureLib} {nj : NativeJson} {W E : Type} {B : NativeBackend W E}.

Definition native_observe (e : E) (r : Request) : pm W (Observation Receipt Outcome) :=
  o <~ b_observe e r ;;
  match o with
  | Durable _ outcome => x <~ st_lift (outcome_receipt outcome r) ;; st_ret (Durable x outcome)
  | CancelledCleaned outcome =>
      match outcome with OCleaned _ => st_ret (CancelledCleaned outcome) | OStored _ => st_err Unavailable end
  | Unseen => st_ret Unseen
  | Prepared => st_ret Prepared
  | Unknown => st_ret Unknown
  | Corrupt => st_ret Corrupt
  | CleanupPending => st_ret CleanupPending
  end.

Definition native_stage (e : E) (r : Request) (b : bytes) : pm W (Commit Receipt Outcome) :=
  _ <~ st_lift (request_verify_body r b) ;;
  o <~ b_stage e r b ;;
  match o with
  | Some outcome => x <~ st_lift (outcome_receipt outcome r) ;; st_ret (Committed x outcome)
  | None => st_ret CommitUnknown
  end.

Definition native_readback (e : E) (r : Request) (receipt : Receipt) : pm W unit :=
  x <~ st_lift (selected r) ;;
  if decide (receipt_object receipt = x) then
    b <~ b_read_exact e r (ObjectReceipt.size_bytes (receipt_object receipt)) ;;
    st_lift (map_err (λ _, NotAvailable) (request_verify_body r b))
  else st_err NotAvailable.

Definition native_tombstone (e : E) (r : Request) (c : CancelledResource) : pm W unit :=
  ks <~ st_lift (cancelled_objects c r) ;; b_tombstone_exact e r ks c.

Definition native_finish_cleanup (e : E) (r : Request) (c : CancelledResource) : pm W (option Outcome) :=
  ks <~ st_lift (cancelled_objects c r) ;;
  o <~ b_cleanup_exact e r ks c ;;
  match o with
  | Some value => _ <~ st_lift (cancelled_verify_cleaned c r value) ;; st_ret o
  | None => st_ret o
  end.
End storage.
End Native.

(** ** [parent_authority.rs] *)
Module NativeAuthority.
Import Adapter Native.

Record LeaseBinding := {
  lb_deployment : DeploymentBinding; lb_descriptor_identity : string; lb_resource_identity : string; lb_operation : Operation
}.
Record DurableBinding := { original_effect : OriginalEffect; db_storage_receipt_id : string }.

(** The control plane: entering a scope hands out a lease and what was
    authenticated, leaving it happens after the action returned. *)
Class Control (W : Type) := {
  StartupLease : Type;
  EffectLease : Type;
  ctl_with_startup : ∀ {T}, DeploymentBinding → ProtectedConfigReferences →
    (StartupLease → DeploymentBinding → pm W T) → pm W T;
  ctl_with_effect : ∀ {T}, StartupLease → Request → Operation → (EffectLease → LeaseBinding → pm W T) → pm W T;
  ctl_cancelled_resource : EffectLease → Request → pm W bytes;
  ctl_durable_binding : EffectLease → Request → Outcome → pm W DurableBinding;
  ctl_cleaned_binding : EffectLease → Request → Outcome → pm W OriginalEffect;
  ctl_register_original_outcome : EffectLease → Request → Outcome → pm W unit
}.

Record Startup (L : Type) := mkStartup { su_lease : L; su_observed : DeploymentBinding }.
Arguments mkStartup {L} _ _.
Arguments su_lease {L} _.
Arguments su_observed {L} _.
Record Effect (L : Type) := mkEff {
  ef_lease : L; ef_operation : Operation; ef_descriptor_identity : string; ef_resource_identity : string
}.
Arguments mkEff {L} _ _ _ _.
Arguments ef_lease {L} _.
Arguments ef_operation {L} _.
Arguments ef_descriptor_identity {L} _.
Arguments ef_resource_identity {L} _.

Section authority.
Context {lib : CaptureLib} {nj : NativeJson} {W : Type}.

Definition same_request {L} (e : Effect L) (r : Request) : result unit Refusal :=
  if bool_decide (ef_descriptor_identity e = request_identity r) && bool_decide (ef_resource_identity e = resource_identity r)
  then Ok tt else Err NotAvailable.
Definition effect_matches {L} (e : Effect L) (r : Request) (op : Operation) : result unit Refusal :=
  _ <?- same_request e r ;; if decide (ef_operation e = op) then Ok tt else Err NotAvailable.

Context {P : Control W}.

Definition na_with_startup {T} (d : DeploymentBinding) (refs : ProtectedConfigReferences)
    (action : Startup StartupLease → pm W T) : pm W T :=
  if negb (selection_valid d) || bool_decide (provisioner_reference refs = "") || bool_decide (auth_reference refs = "")
  then st_err Unavailable
  else ctl_with_startup d refs (λ lease observed,
    if decide (observed = d) then action (mkStartup lease observed) else st_err Unavailable).

Definition na_with_effect {T} (s : Startup StartupLease) (r : Request) (op : Operation)
    (action : Effect EffectLease → pm W T) : pm W T :=
  if bool_decide (request_realm r = dep_realm_id (su_observed s)) && accepts_operation r op then
    ctl_with_effect (su_lease s) r op (λ lease binding,
      if bool_decide (lb_deployment binding = su_observed s) && bool_decide (lb_descriptor_identity binding = request_identity r)
         && bool_decide (lb_resource_identity binding = resource_identity r) && bool_decide (lb_operation binding = op)
      then action (mkEff lease op (lb_descriptor_identity binding) (lb_resource_identity binding))
      else st_err NotAvailable)
  else st_err NotAvailable.

Definition na_cancelled (e : Effect EffectLease) (r : Request) : pm W CancelledResource :=
  _ <~ st_lift (effect_matches e r CleanupCancelled) ;;
  b <~ ctl_cancelled_resource (ef_lease e) r ;;
  st_lift (parse_cancelled b r).

Definition na_verify_durable (e : Effect EffectLease) (r : Request) (receipt : Receipt) (o : Outcome) : pm W unit :=
  match ef_operation e with
  | Stage | Verify =>
      _ <~ st_lift (same_request e r) ;;
      _ <~ st_lift (verify_receipt o r receipt) ;;
      x <~ ctl_durable_binding (ef_lease e) r o ;;
      if matches_original_effect o (original_effect x) && bool_decide (storage_receipt_id o = Some (db_storage_receipt_id x))
      then st_ret tt else st_err NotAvailable
  | _ => st_err NotAvailable
  end.

Definition na_register_outcome (e : Effect EffectLease) (r : Request) (o : Outcome) : pm W unit :=
  _ <~ st_lift (same_request e r) ;;
  if matches_operation o (ef_operation e) then ctl_register_original_outcome (ef_lease e) r o else st_err NotAvailable.

Definition na_verify_cleaned (e : Effect EffectLease) (r : Request) (c : CancelledResource) (o : Outcome) : pm W unit :=
  _ <~ st_lift (effect_matches e r CleanupCancelled) ;;
  _ <~ st_lift (cancelled_verify_cleaned c r o) ;;
  x <~ ctl_cleaned_binding (ef_lease e) r o ;;
  if matches_original_effect o x then st_ret tt else st_err NotAvailable.

#[global] Instance NativeAuthority : Authority W := {|
  Adapter.Startup := Startup StartupLease; Adapter.Effect := Effect EffectLease;
  Adapter.Cancellation := CancelledResource;
  with_startup _ := na_with_startup; with_effect _ := na_with_effect; cancelled := na_cancelled;
  verify_durable := na_verify_durable; register_outcome := na_register_outcome; verify_cleaned := na_verify_cleaned
|}.

#[global] Instance NativeStorage {B : NativeBackend W (Effect EffectLease)} : Storage W := {|
  observe := native_observe; verify_body _ r b := st_lift (request_verify_body r b); stage := native_stage;
  verify_exact_readback := native_readback; tombstone := native_tombstone; finish_cleanup := native_finish_cleanup
|}.
End authority.
End NativeAuthority.
