(* ===== verification/ParentBackend.v ===== *)
(** * The SQLite backend of personal storage
      ([disk-personal/src/parent_backend.rs])

    Four tables, statements that may each fail, and transactions. A failed
    statement marks the backend uncertain, after which it refuses until it is
    opened again; a [COMMIT] that reported failure may have taken effect or
    not, as the oracle says. *)

From stdpp Require Import prelude gmap strings pretty.
From Stdlib Require Import ZArith Lia Strings.Byte Strings.Ascii.
From S2P Require Import Prelude Text BlobStore Publisher Sql Capture Parent.

#[local] Open Scope Z_scope.

(** ** Rows *)
Module CaptureRow.
Record t := mk { id : string; descriptor : string; cancelled : option string }.
End CaptureRow.

Inductive AttemptState := SPrepared | SCommitted.
#[global] Instance AttemptState_eq_dec : EqDecision AttemptState.
Proof. solve_decision. Defined.
Module AttemptRow.
Record t := mk { resource : string; lease : string; proposal : string; state : AttemptState }.
End AttemptRow.

Module ObjectRow.
Record t := mk { resource : string; capture : string; receipt : bytes; body : option bytes; outcome : string }.
End ObjectRow.

Module OwnerJournalRow.
Record t := mk { owner_receipt : string; lease : string; sequence : string; resource : string; outcome : string }.
End OwnerJournalRow.

Record Tables := mkTables {
  captures : list CaptureRow.t;
  attempts : list AttemptRow.t;
  objects : list ObjectRow.t;
  owner_journal : list OwnerJournalRow.t
}.

(** [tables] is what the connection sees, [saved] what the file holds while a
    transaction is open. *)
Record Backend := mkBackend { tables : Tables; saved : option Tables; uncertain : bool; count : nat }.

Module Schema.
Definition CAPTURES : string :=
  "CREATE TABLE captures (id TEXT PRIMARY KEY, descriptor TEXT NOT NULL, cancelled TEXT) STRICT".
Definition ATTEMPTS : string :=
  "CREATE TABLE attempts (resource TEXT PRIMARY KEY, lease TEXT NOT NULL UNIQUE, proposal TEXT NOT NULL, state TEXT NOT NULL CHECK(state IN ('prepared','committed'))) STRICT".
Definition OBJECTS : string :=
  "CREATE TABLE objects (resource TEXT PRIMARY KEY, capture TEXT NOT NULL REFERENCES captures(id), receipt TEXT NOT NULL, body BLOB, outcome TEXT NOT NULL) STRICT".
Definition JOURNAL : string :=
  "CREATE TABLE owner_journal (owner_receipt TEXT PRIMARY KEY, lease TEXT NOT NULL UNIQUE, sequence TEXT NOT NULL UNIQUE, resource TEXT NOT NULL, outcome TEXT NOT NULL) STRICT".
Definition SCHEMA : list (string * string) :=
  [("attempts", ATTEMPTS); ("captures", CAPTURES); ("objects", OBJECTS); ("owner_journal", JOURNAL)].

(** What the file holds: its definitions by name, its version, its tables. *)
Record Inventory := mkInventory { definitions : list (string * string); user_version : Z; contents : Tables }.
Inductive OpenError := SqliteFailed | SchemaMismatch | VersionMismatch.

(** The statements of [initialize]; [fault n] fails the n-th. The batch that
    creates the tables is one transaction. *)
Definition initialize (fault : nat → bool) (create : bool) (f : Inventory) : result Backend OpenError * Inventory :=
  if fault 0%nat then (Err SqliteFailed, f)
  else
    let fresh := bool_decide (definitions f = []) && create in
    if fresh && fault 1%nat then (Err SqliteFailed, f)
    else
      let f := if fresh then mkInventory SCHEMA 1 (contents f) else f in
      if fault 2%nat then (Err SqliteFailed, f)
      else if negb (bool_decide (definitions f = SCHEMA)) then (Err SchemaMismatch, f)
      else if fault 3%nat then (Err SqliteFailed, f)
      else if negb (bool_decide (user_version f = 1)) then (Err VersionMismatch, f)
      else if fault 4%nat then (Err SqliteFailed, f)
      else (Ok (mkBackend (contents f) None false 0), f).
End Schema.

Module SqliteBackend.
Import Adapter Native.

Inductive OriginalDisposition := FencedNoCommit | ExistingOrUnknown.

Record NativeCommitContext := mkContext {
  cx_lease : string; cx_proposal : Outcome; cx_original : OriginalEffect; cx_resource : string; cx_descriptor : string;
  cx_disposition : OriginalDisposition
}.

(** ** Statements *)
Definition set_tables (t : Tables) (s : Backend) : Backend := mkBackend t (saved s) (uncertain s) (count s).
Definition poison (s : Backend) : Backend := mkBackend (tables s) (saved s) true (count s).
Definition next (s : Backend) : Backend := mkBackend (tables s) (saved s) (uncertain s) (S (count s)).

Definition in_captures (f : list CaptureRow.t → list CaptureRow.t) (t : Tables) : Tables :=
  mkTables (f (captures t)) (attempts t) (objects t) (owner_journal t).
Definition in_attempts (f : list AttemptRow.t → list AttemptRow.t) (t : Tables) : Tables :=
  mkTables (captures t) (f (attempts t)) (objects t) (owner_journal t).
Definition in_objects (f : list ObjectRow.t → list ObjectRow.t) (t : Tables) : Tables :=
  mkTables (captures t) (attempts t) (f (objects t)) (owner_journal t).
Definition in_journal (f : list OwnerJournalRow.t → list OwnerJournalRow.t) (t : Tables) : Tables :=
  mkTables (captures t) (attempts t) (objects t) (f (owner_journal t)).

(** A statement on the tables; a violated constraint gives [None]. *)
Abbreviation sql A := (Tables → option (A * Tables)).
Definition select_rows {A} (f : Tables → A) : sql A := λ t, Some (f t, t).

(** [ON CONFLICT(id) DO NOTHING]. *)
Definition insert_capture (id descriptor : string) (cancelled : option string) : sql unit := λ t,
  Some (tt, if existsb (λ r, bool_decide (CaptureRow.id r = id)) (captures t) then t
            else in_captures (λ l, l ++ [CaptureRow.mk id descriptor cancelled]) t).
Definition insert_attempt (resource lease proposal : string) : sql unit := λ t,
  if existsb (λ r, bool_decide (AttemptRow.resource r = resource) || bool_decide (AttemptRow.lease r = lease)) (attempts t)
  then None else Some (tt, in_attempts (λ l, l ++ [AttemptRow.mk resource lease proposal SPrepared]) t).
Definition insert_object (resource capture : string) (receipt : bytes) (body : bytes) (outcome : string) : sql unit := λ t,
  if existsb (λ r, bool_decide (ObjectRow.resource r = resource)) (objects t)
     || negb (existsb (λ r, bool_decide (CaptureRow.id r = capture)) (captures t))
  then None else Some (tt, in_objects (λ l, l ++ [ObjectRow.mk resource capture receipt (Some body) outcome]) t).
Definition insert_journal (owner_receipt lease sequence resource outcome : string) : sql unit := λ t,
  if existsb (λ r, bool_decide (OwnerJournalRow.owner_receipt r = owner_receipt) || bool_decide (OwnerJournalRow.lease r = lease)
                   || bool_decide (OwnerJournalRow.sequence r = sequence)) (owner_journal t)
  then None
  else Some (tt, in_journal (λ l, l ++ [OwnerJournalRow.mk owner_receipt lease sequence resource outcome]) t).
Definition commit_attempt (resource lease : string) : sql unit := λ t,
  Some (tt, in_attempts (update (λ r, bool_decide (AttemptRow.resource r = resource) && bool_decide (AttemptRow.lease r = lease)
                                      && bool_decide (AttemptRow.state r = SPrepared))
                           (λ r, AttemptRow.mk (AttemptRow.resource r) (AttemptRow.lease r) (AttemptRow.proposal r) SCommitted)) t).
Definition cancel_capture (id cancelled : string) : sql unit := λ t,
  Some (tt, in_captures (update (λ r, bool_decide (CaptureRow.id r = id) && bool_decide (CaptureRow.cancelled r = None))
                           (λ r, CaptureRow.mk (CaptureRow.id r) (CaptureRow.descriptor r) (Some cancelled))) t).
Definition erase_body (resource capture : string) : sql unit := λ t,
  Some (tt, in_objects (update (λ r, bool_decide (ObjectRow.resource r = resource) && bool_decide (ObjectRow.capture r = capture))
                          (λ r, ObjectRow.mk (ObjectRow.resource r) (ObjectRow.capture r) (ObjectRow.receipt r) None (ObjectRow.outcome r))) t).

Definition attempts_of (resource : string) (t : Tables) : list AttemptRow.t :=
  select (λ r, bool_decide (AttemptRow.resource r = resource)) (attempts t).
Definition objects_of (resource : string) (t : Tables) : list ObjectRow.t :=
  select (λ r, bool_decide (ObjectRow.resource r = resource)) (objects t).
Definition journal_of (resource : string) (t : Tables) : list OwnerJournalRow.t :=
  select (λ r, bool_decide (OwnerJournalRow.resource r = resource)) (owner_journal t).

Section backend.
Context {lib : CaptureLib} {nj : NativeJson}.
(** [fault n] is [Some applied] when the n-th statement fails; [applied] says of
    a [COMMIT] whether it took effect. *)
Context (fault : nat → option bool).
Abbreviation bm := (pm Backend).

Definition from_control_readback (lease : string) (proposal : Outcome) (original : OriginalEffect) (r : Request)
    (disposition : OriginalDisposition) : result NativeCommitContext Refusal :=
  if matches_original_effect proposal original
  then Ok (mkContext lease proposal original (resource_identity r) (request_identity r) disposition)
  else Err Conflict.

Definition context_matches (e : NativeCommitContext) (r : Request) : result unit Refusal :=
  if bool_decide (cx_resource e = resource_identity r) && bool_decide (cx_descriptor e = request_identity r)
     && matches_original_effect (cx_proposal e) (cx_original e)
  then Ok tt else Err NotAvailable.

Definition ready : bm unit := λ s, (if uncertain s then Err Pending else Ok tt, s).

Definition query {A} (m : sql A) : bm A := λ s,
  if uncertain s then (Err Pending, s)
  else match fault (count s) with
       | Some _ => (Err Unavailable, poison (next s))
       | None => match m (tables s) with
                 | Some (a, t) => (Ok a, set_tables t (next s))
                 | None => (Err Unavailable, poison (next s))
                 end
       end.

(** [BEGIN IMMEDIATE]. *)
Definition begin : bm unit := λ s,
  match query (select_rows (λ _, tt)) s with
  | (Ok _, s) => (Ok tt, mkBackend (tables s) (Some (tables s)) (uncertain s) (count s))
  | (Err e, s) => (Err e, s)
  end.

Definition roll_back (s : Backend) : Backend := mkBackend (default (tables s) (saved s)) None (uncertain s) (count s).

(** [COMMIT]; after a failure the guard's drop rolls back what did not take effect. *)
Definition commit_tx : bm unit := λ s,
  match (if uncertain s then Some false else fault (count s)) with
  | None => (Ok tt, mkBackend (tables s) None (uncertain s) (S (count s)))
  | Some true => (Err Pending, mkBackend (tables s) None true (S (count s)))
  | Some false => (Err Pending, roll_back (poison (next s)))
  end.

Definition transaction {A} (action : bm A) : bm A := λ s,
  match (_ <~ ready ;; begin) s with
  | (Err e, s) => (Err e, s)
  | (Ok _, s) =>
      match action s with
      | (Ok v, s) => (_ <~ commit_tx ;; st_ret v) s
      | (Err e, s) =>
          let s' := roll_back (next s) in
          (Err e, match fault (count s) with Some _ => poison s' | None => s' end)
      end
  end.

Definition capture (r : Request) : bm (option (option string)) :=
  rows <~ query (select_rows (λ t, select (λ x, bool_decide (CaptureRow.id x = capture_id r)) (captures t))) ;;
  match rows with
  | [] => st_ret None
  | [x] => if decide (CaptureRow.descriptor x = request_identity r) then st_ret (Some (CaptureRow.cancelled x)) else st_err Conflict
  | _ => st_err Conflict
  end.

(** The durable outcome is what the object row, the journal and the proposal all say. *)
Definition durable_rows (e : NativeCommitContext) (r : Request) (atts : list AttemptRow.t) (x : ObjectRow.t)
    (journal : list OwnerJournalRow.t) : bm (Observation unit Outcome) :=
  if negb (bool_decide (length atts = 1%nat)) then st_ret Corrupt
  else
    outcome <~ st_lift (parse_outcome (Publisher.str_bytes (ObjectRow.outcome x))) ;;
    _ <~ st_lift (outcome_receipt outcome r) ;;
    if negb (matches_original_effect outcome (cx_original e)) || negb (matches_operation outcome Stage) then st_err Conflict
    else
      proposal <~ query (select_rows (λ t, AttemptRow.proposal <$> attempts_of (resource_identity r) t)) ;;
      if bool_decide (((λ j, (OwnerJournalRow.outcome j, OwnerJournalRow.owner_receipt j, OwnerJournalRow.sequence j)) <$> journal)
                      = [(ObjectRow.outcome x, outcome_owner_receipt outcome, counter_to_str (local_sequence outcome))])
         && bool_decide (proposal = [ObjectRow.outcome x])
      then st_ret (Durable tt outcome) else st_ret Corrupt.

Definition observe_cancelled (e : NativeCommitContext) (r : Request) (cancelled : string) : bm (Observation unit Outcome) :=
  rows <~ query (select_rows (journal_of (resource_identity r))) ;;
  match rows with
  | [] => st_ret CleanupPending
  | [row] =>
      outcome <~ st_lift (parse_outcome (Publisher.str_bytes (OwnerJournalRow.outcome row))) ;;
      match outcome with
      | OCleaned _ =>
          if negb (matches_original_effect outcome (cx_original e)) || negb (accepts_operation r CleanupCancelled)
          then st_err Conflict
          else
            c <~ st_lift (parse_cancelled (Publisher.str_bytes cancelled) r) ;;
            _ <~ st_lift (cancelled_verify_cleaned c r outcome) ;;
            st_ret (CancelledCleaned outcome)
      | OStored _ => if accepts_operation r CleanupCancelled then st_ret Corrupt else st_ret CleanupPending
      end
  | _ => st_ret Corrupt
  end.

Definition observe_live (e : NativeCommitContext) (r : Request) : bm (Observation unit Outcome) :=
  atts <~ query (select_rows (attempts_of (resource_identity r))) ;;
  rows <~ query (select_rows (objects_of (resource_identity r))) ;;
  journal <~ query (select_rows (journal_of (resource_identity r))) ;;
  if bool_decide ((AttemptRow.state <$> atts) = [SPrepared])
  then st_ret (if bool_decide (length rows = 0%nat) && bool_decide (length journal = 0%nat) then Prepared else Corrupt)
  else match rows with
       | [x] => durable_rows e r atts x journal
       | _ =>
           if negb (bool_decide (length rows = 0%nat)) || negb (bool_decide (length atts = 0%nat))
              || negb (bool_decide (length journal = 0%nat))
           then st_ret Corrupt
           else st_ret match cx_disposition e with FencedNoCommit => Unseen | ExistingOrUnknown => Unknown end
       end.

Definition observe_context (e : NativeCommitContext) (r : Request) : bm (Observation unit Outcome) :=
  _ <~ st_lift (context_matches e r) ;;
  _ <~ ready ;;
  c <~ capture r ;;
  match c with
  | Some (Some cancelled) => observe_cancelled e r cancelled
  | _ => observe_live e r
  end.

Definition journal (e : NativeCommitContext) (r : Request) : bm unit :=
  total <~ query (select_rows (λ t, length (owner_journal t))) ;;
  if bool_decide (128 ≤ total)%nat then st_err Backpressure
  else query (insert_journal (outcome_owner_receipt (cx_proposal e)) (cx_lease e) (counter_to_str (local_sequence (cx_proposal e)))
                (resource_identity r) (outcome_to_string (cx_proposal e))).

Definition read_context (e : NativeCommitContext) (r : Request) (max : Z) : bm bytes :=
  _ <~ st_lift (context_matches e r) ;;
  o <~ observe_context e r ;;
  match o with
  | Durable _ _ =>
      expected <~ st_lift (selected_size r) ;;
      if negb (bool_decide (max = expected)) then st_err NotAvailable
      else
        c <~ capture r ;;
        if negb (bool_decide (c = Some None)) then st_err NotAvailable
        else
          rows <~ query (select_rows (λ t,
            x ← objects_of (resource_identity r) t;
            a ← attempts_of (ObjectRow.resource x) t;
            match ObjectRow.body x with
            | Some b => if bool_decide (Z.of_nat (length b) = max) then [(x, b, a)] else []
            | None => []
            end)) ;;
          receipt <~ st_lift (selected_receipt_json r) ;;
          match rows with
          | [(x, b, a)] =>
              if bool_decide (ObjectRow.receipt x = receipt) && bool_decide (AttemptRow.state a = SCommitted) then
                outcome <~ st_lift (parse_outcome (Publisher.str_bytes (ObjectRow.outcome x))) ;;
                _ <~ st_lift (outcome_receipt outcome r) ;;
                if bool_decide (Z.of_nat (length b) = expected) then
                  _ <~ st_lift (request_verify_body r b) ;; st_ret b
                else st_err NotAvailable
              else st_err NotAvailable
          | _ => st_err NotAvailable
          end
  | _ => st_err NotAvailable
  end.

(** The two transactions of a stage. *)
Definition prepare_attempt (e : NativeCommitContext) (r : Request) : bm unit :=
  transaction (
    _ <~ query (insert_capture (capture_id r) (request_identity r) None) ;;
    c <~ capture r ;;
    if bool_decide (c = Some None)
    then query (insert_attempt (resource_identity r) (cx_lease e) (outcome_to_string (cx_proposal e)))
    else st_err Conflict).
Definition commit_object (e : NativeCommitContext) (r : Request) (receipt b : bytes) : bm unit :=
  transaction (
    c <~ capture r ;;
    if bool_decide (c = Some None) then
      _ <~ query (insert_object (resource_identity r) (capture_id r) receipt b (outcome_to_string (cx_proposal e))) ;;
      _ <~ journal e r ;;
      query (commit_attempt (resource_identity r) (cx_lease e))
    else st_err Conflict).

(** [Pending] and [Unavailable] of the last transaction mean not known. *)
Definition or_unknown (e : NativeCommitContext) (m : bm unit) : bm (option Outcome) := λ s,
  match m s with
  | (Ok _, s) => (Ok (Some (cx_proposal e)), s)
  | (Err Pending, s) | (Err Unavailable, s) => (Ok None, s)
  | (Err x, s) => (Err x, s)
  end.

Definition stage_context (e : NativeCommitContext) (r : Request) (b : bytes) : bm (option Outcome) :=
  _ <~ st_lift (context_matches e r) ;;
  _ <~ st_lift (request_verify_body r b) ;;
  _ <~ st_lift (outcome_receipt (cx_proposal e) r) ;;
  if negb (matches_operation (cx_proposal e) Stage) then st_err Conflict
  else
    o <~ observe_context e r ;;
    match o with
    | Durable _ outcome =>
        size <~ st_lift (selected_size r) ;; _ <~ read_context e r size ;; st_ret (Some outcome)
    | Unseen =>
        _ <~ prepare_attempt e r ;;
        receipt <~ st_lift (selected_receipt_json r) ;;
        or_unknown e (commit_object e r receipt b)
    | Prepared | Unknown => st_err Pending
    | _ => st_err Conflict
    end.

(** No attempt of the parts is still prepared. *)
Fixpoint all_committed (resources : list string) : bm unit :=
  match resources with
  | [] => st_ret tt
  | key :: resources =>
      rows <~ query (select_rows (attempts_of key)) ;;
      if forallb (λ a, bool_decide (AttemptRow.state a = SCommitted)) rows then all_committed resources else st_err Pending
  end.

Definition tombstone_context (e : NativeCommitContext) (r : Request) (keys : list ObjectKey) (c : CancelledResource) : bm unit :=
  _ <~ st_lift (context_matches e r) ;;
  ks <~ st_lift (cancelled_objects c r) ;;
  if negb (bool_decide (ks = keys)) then st_err NotAvailable
  else
    _ <~ st_lift (cancelled_verify_cleaned c r (cx_proposal e)) ;;
    let text := cancelled_to_string c in
    transaction (
      pending <~ query (select_rows (λ t, length (select (λ a, bool_decide (AttemptRow.state a = SPrepared)
          && existsb (λ o, bool_decide (ObjectRow.resource o = AttemptRow.resource a)
                           && bool_decide (ObjectRow.capture o = capture_id r)) (objects t)) (attempts t)))) ;;
      if negb (bool_decide (pending = 0%nat)) then st_err Pending
      else
        _ <~ all_committed (part_resource_identities r) ;;
        _ <~ query (insert_capture (capture_id r) (request_identity r) (Some text)) ;;
        v <~ capture r ;;
        match v with
        | Some None => query (cancel_capture (capture_id r) text)
        | Some (Some value) => if decide (value = text) then st_ret tt else st_err Conflict
        | None => st_err Conflict
        end).

Fixpoint erase_all (resources : list string) (capture : string) : bm unit :=
  match resources with
  | [] => st_ret tt
  | resource :: resources => _ <~ query (erase_body resource capture) ;; erase_all resources capture
  end.

Definition erase_objects (e : NativeCommitContext) (r : Request) : bm unit :=
  transaction (
    _ <~ erase_all (part_resource_identities r) (capture_id r) ;;
    left <~ query (select_rows (λ t, length (select (λ o, bool_decide (ObjectRow.capture o = capture_id r)
                                                         && bool_decide (is_Some (ObjectRow.body o))) (objects t)))) ;;
    if negb (bool_decide (left = 0%nat)) then st_err Conflict else journal e r).

Definition cleanup_context (e : NativeCommitContext) (r : Request) (keys : list ObjectKey) (c : CancelledResource)
    : bm (option Outcome) :=
  _ <~ st_lift (context_matches e r) ;;
  ks <~ st_lift (cancelled_objects c r) ;;
  if negb (bool_decide (ks = keys)) then st_err NotAvailable
  else
    _ <~ st_lift (cancelled_verify_cleaned c r (cx_proposal e)) ;;
    v <~ capture r ;;
    if negb (bool_decide (v = Some (Some (cancelled_to_string c)))) then st_err NotAvailable
    else
      existing <~ query (select_rows (journal_of (resource_identity r))) ;;
      match existing with
      | [] => or_unknown e (erase_objects e r)
      | [row] =>
          outcome <~ st_lift (parse_outcome (Publisher.str_bytes (OwnerJournalRow.outcome row))) ;;
          _ <~ st_lift (cancelled_verify_cleaned c r outcome) ;;
          if matches_original_effect outcome (cx_original e) then st_ret (Some outcome) else st_err Conflict
      | _ => st_err Unavailable
      end.
End backend.

(** Opening the file again, with or without the process having crashed: a
    transaction that was open is gone. *)
Definition reopen (s : Backend) : Backend := mkBackend (default (tables s) (saved s)) None false (count s).

(** ** The world of the parent: a control plane and this backend *)
Record World (CW : Type) := mkWorld { ctl : CW; store : Backend }.
Arguments mkWorld {CW} _ _.
Arguments ctl {CW} _.
Arguments store {CW} _.

Definition on_store {CW A} (m : pm Backend A) : pm (World CW) A := λ w,
  let '(r, s) := m (store w) in (r, mkWorld (ctl w) s).

#[global] Instance SqliteNativeBackend {lib : CaptureLib} {nj : NativeJson} (fault : nat → option bool) CW
    : NativeBackend (World CW) (NativeAuthority.Effect NativeCommitContext) := {|
  b_observe e r := on_store (observe_context fault (NativeAuthority.ef_lease e) r);
  b_stage e r b := on_store (_ <~ st_lift (NativeAuthority.effect_matches e r Stage) ;;
                             stage_context fault (NativeAuthority.ef_lease e) r b);
  b_read_exact e r max := on_store (read_context fault (NativeAuthority.ef_lease e) r max);
  b_tombstone_exact e r k c := on_store (_ <~ st_lift (NativeAuthority.effect_matches e r CleanupCancelled) ;;
                                         tombstone_context fault (NativeAuthority.ef_lease e) r k c);
  b_cleanup_exact e r k c := on_store (_ <~ st_lift (NativeAuthority.effect_matches e r CleanupCancelled) ;;
                                       cleanup_context fault (NativeAuthority.ef_lease e) r k c)
|}.
End SqliteBackend.
