(* ===== verification/ParentProps.v ===== *)
(** * Theorems: personal storage

    The tables of the backend stay coherent under any failure of any statement
    and any reopening, what is reported stored can be read back, a cleanup
    erases, and the parent lets nothing through that the authority did not
    grant. *)

From stdpp Require Import prelude gmap strings pretty.
From Stdlib Require Import ZArith Lia Strings.Byte Strings.Ascii.
From S2P Require Import Prelude Text BlobStore Publisher Sql Capture Parent ParentBackend.

#[local] Open Scope Z_scope.

Create HintDb inside.

Module ParentProps.
Import Adapter Native SqliteBackend.

(** ** Statements and transactions *)
Section statements.
Context {lib : CaptureLib} {nj : NativeJson} (fault : nat → option bool).

(** A computation made of statements leaves alone what the file holds while a
    transaction is open. *)
Definition inside {A} (m : pm Backend A) : Prop := ∀ s, saved (m s).2 = saved s.

Lemma inside_ret {A} (a : A) : inside (st_ret a).
Proof. done. Qed.
Lemma inside_err {A} x : inside (A:=A) (st_err x).
Proof. done. Qed.
Lemma inside_lift {A} (r : result A Refusal) : inside (st_lift r).
Proof. done. Qed.
Lemma inside_ready : inside ready.
Proof. done. Qed.
Lemma inside_query {A} (m : sql A) : inside (query fault m).
Proof.
  intros s. unfold query. destruct (uncertain s); [done|]. destruct (fault _); [done|]. by destruct (m _) as [[]|].
Qed.
Lemma inside_bind {A B} (m : pm Backend A) (k : A → pm Backend B) :
  inside m → (∀ a, inside (k a)) → inside (st_bind m k).
Proof.
  intros Hm Hk s. unfold st_bind. specialize (Hm s). destruct (m s) as [[a|x] s1]; simpl in *; [|done].
  by rewrite Hk.
Qed.

#[local] Hint Resolve inside_ret inside_err inside_lift inside_ready inside_query inside_bind : inside.

Lemma inside_capture r : inside (capture fault r).
Proof. apply inside_bind; [auto with inside|]. intros [|x [|]]; auto with inside. by destruct (decide _). Qed.
Lemma inside_journal e r : inside (journal fault e r).
Proof. apply inside_bind; [auto with inside|]. intros n. destruct (bool_decide _); auto with inside. Qed.
Lemma inside_all_committed l : inside (all_committed fault l).
Proof. induction l; simpl; [auto with inside|]. apply inside_bind; [auto with inside|]. intros rows. destruct (forallb _ _); auto with inside. Qed.
Lemma inside_erase_all l c : inside (erase_all fault l c).
Proof. induction l; simpl; auto with inside. Qed.
#[local] Hint Resolve inside_capture inside_journal inside_all_committed inside_erase_all : inside.

(** A transaction happens or does not. *)
Lemma transaction_cases {A} (action : pm Backend A) s r s' :
  inside action → saved s = None → transaction fault action s = (r, s') →
  saved s' = None
  ∧ (tables s' = tables s
     ∨ ∃ v s1 s2, tables s1 = tables s ∧ uncertain s1 = false ∧ action s1 = (Ok v, s2) ∧ tables s' = tables s2)
  ∧ (∀ v, r = Ok v → ∃ s1 s2, tables s1 = tables s ∧ uncertain s1 = false ∧ action s1 = (Ok v, s2) ∧ tables s' = tables s2
       ∧ uncertain s' = uncertain s2).
Proof.
  intros Hin Hsv. unfold transaction, begin, st_bind, ready.
  destruct (uncertain s) eqn:Hu; [intros [= <- <-]; split_and!; [done|by left|done]|].
  unfold query. rewrite Hu. destruct (fault (count s)) as [ap|]; simpl.
  { intros [= <- <-]. split_and!; [done|by left|done]. }
  set (s1 := mkBackend _ _ _ _). assert (saved s1 = Some (tables s)) as H1 by done.
  specialize (Hin s1). destruct (action s1) as [[v|x] s2] eqn:Ha; rewrite H1 in Hin; simpl in Hin.
  - unfold commit_tx, roll_back. destruct (if uncertain s2 then _ else _) as [[|]|] eqn:Hc; intros [= <- <-]; simpl.
    + split_and!; [done|right; exists v, s1, s2; done|done].
    + rewrite Hin. split_and!; [done|by left|done].
    + split_and!; [done|right; exists v, s1, s2; done|]. intros ? [= <-]. exists s1, s2.
      split_and!; try done.
  - unfold roll_back. destruct (fault (count s2)); intros [= <- <-]; simpl; rewrite Hin; split_and!; (done || by left).
Qed.
End statements.


(** ** Requests *)
Section requests.
Context {lib : CaptureLib} {nj : NativeJson}.

(** Requests come from the parser only. *)
Definition request_ok (r : Request) : Prop := ∃ b part, parse_request b part = Ok r.

Lemma forallb_plain l (p : ascii → bool) :
  (∀ c, p c = true → 32 ≤ ascii_code c ≤ 126 ∧ ascii_code c ≠ 34 ∧ ascii_code c ≠ 92) → forallb p l = true → json_plain (implode l) = true.
Proof.
  intros Hp Hl. unfold json_plain. rewrite explode_implode. apply forallb_forall. intros c Hc.
  apply forallb_forall with (x := c) in Hl; [|done]. apply Hp in Hl as (H1&H2&H3).
  rewrite bool_decide_true, !bool_decide_false by done. done.
Qed.

Lemma lower_hex_plain c : Capture.is_lower_hex c = true → 32 ≤ ascii_code c ≤ 126 ∧ ascii_code c ≠ 34 ∧ ascii_code c ≠ 92.
Proof. unfold Capture.is_lower_hex, is_ascii_digit. rewrite orb_true_iff, !bool_decide_eq_true. lia. Qed.

Lemma digest_plain s : Capture.digest s = true → json_plain s = true.
Proof.
  unfold Capture.digest. intros [_ H]%andb_true_iff. rewrite <-(implode_explode s). eapply forallb_plain; [|exact H].
  apply lower_hex_plain.
Qed.

Lemma identifier_plain s : Capture.identifier s = true → json_plain s = true.
Proof.
  unfold Capture.identifier. intros [Hl%bool_decide_eq_true H]%andb_true_iff. rewrite <-(implode_explode s).
  eapply (forallb_plain _ (λ c, bool_decide (c = "-"%char) || Capture.is_lower_hex c)).
  - intros c [->%bool_decide_eq_true|?]%orb_true_iff; [by vm_compute|by apply lower_hex_plain].
  - apply forallb_forall. intros c Hc. apply list_elem_of_In, list_elem_of_lookup in Hc as [i Hi].
    apply forallb_forall with (x := (i, c)) in H.
    + simpl in H. destruct (bool_decide (i ∈ _)); rewrite H; [done|]. apply orb_true_r.
    + apply list_elem_of_In, list_elem_of_lookup. exists i. rewrite lookup_zip_with_Some. exists i, c.
      split_and!; [done| |done]. apply lookup_seq. split; [done|]. apply lookup_lt_Some in Hi. lia.
Qed.

(** What the parser has checked of the receipts a request expects. *)
Lemma expected_ok r x :
  request_ok r → x ∈ expected r →
  forallb json_plain (receipt_strings x) = true ∧ 0 ≤ ObjectReceipt.size_bytes x ≤ MAX_SAFE
  ∧ 0 ≤ ObjectReceipt.cancellation_generation x ≤ MAX_SAFE.
Proof.
  intros (b&part&Hp) Hx. unfold parse_request in Hp. case_bool_decide; [done|].
  destruct (Capture.parse b) as [d|] eqn:Hd; [|done]. simpl in Hp.
  assert (expected r = Capture.expected_receipts d) as He.
  { destruct part; [|by simplify_eq/=]. destruct (find _ _); [|done]. by simplify_eq/=. }
  rewrite He in Hx. apply list_elem_of_fmap in Hx as (p&->&Hin).
  unfold Capture.parse in Hd. destruct (descriptor_from_slice b) as [d'|] eqn:Hs; [|done]. simpl in Hd.
  destruct (Capture.header_ok d') eqn:Hh; [|done]. destruct (Capture.parts_ok d') eqn:Hpt; [|done].
  destruct (Capture.distinct_ok d'); [|done]. simpl in Hd. case_bool_decide; [|done]. injection Hd as ->.
  apply descriptor_numbers in Hs as (Hg&_&Hsz). unfold Capture.header_ok in Hh. rewrite !andb_true_iff in Hh.
  destruct Hh as [[[[[[[[[[[_ _] Hr] Hc] _] _] _] Hf] _] _] _] _].
  assert (∃ i, Capture.part_ok i p = true) as [i Hpo].
  { apply list_elem_of_lookup in Hin as [i Hi]. exists i. unfold Capture.parts_ok in Hpt.
    apply forallb_forall with (x := (i, p)) in Hpt; [done|]. apply list_elem_of_In, list_elem_of_lookup. exists i.
    apply lookup_zip_with_Some. exists i, p. split_and!; [done| |done]. apply lookup_seq. pose proof (lookup_lt_Some _ _ _ Hi). split; [done|lia]. }
  unfold Capture.part_ok in Hpo. rewrite !andb_true_iff in Hpo. destruct Hpo as [[[[[[_ Hm] _] H1] H2] H3] H4].
  apply bool_decide_eq_true in Hm. rewrite Forall_forall in Hsz.
  split; [|split; [by apply Hsz|exact Hg]].
  unfold receipt_strings, Capture.expected_receipt. cbn [forallb ObjectReceipt.schema_version ObjectReceipt.realm_id
    ObjectReceipt.capture_id ObjectReceipt.part_id ObjectReceipt.object_id ObjectReceipt.object_revision ObjectReceipt.sha256
    ObjectReceipt.media_type ObjectReceipt.request_fingerprint].
  rewrite Hm, (identifier_plain _ Hr), (identifier_plain _ Hc), (identifier_plain _ H1), (identifier_plain _ H2),
    (identifier_plain _ H3), (digest_plain _ H4), (digest_plain _ Hf). done.
Qed.

Lemma selected_expected r x : request_ok r → selected_receipt r = Some x → x ∈ expected r.
Proof.
  intros (b&part&Hp) Hs. unfold parse_request in Hp. case_bool_decide; [done|].
  destruct (Capture.parse b) as [d|]; [|done]. simpl in Hp. destruct part; [|by simplify_eq/=].
  destruct (find _ _) as [y|] eqn:Hf; [|done]. simplify_eq/=. apply list_elem_of_In. by apply find_some in Hf as [].
Qed.

(** The bytes are those a receipt names. *)
Definition body_ok (x : ObjectReceipt.t) (b : bytes) : Prop :=
  Z.of_nat (length b) = ObjectReceipt.size_bytes x ∧ Capture.sha256_hex b = ObjectReceipt.sha256 x ∧ bytes_utf8 b = true
  ∧ Z.of_nat (length b) ≤ 1048576.

(** A body that passes is the one the receipt names. *)
Lemma verify_body_ok r b x :
  request_ok r → selected_receipt r = Some x → request_verify_body r b = Ok tt → body_ok x b.
Proof.
  intros Hr Hs. unfold request_verify_body, selected. rewrite Hs. simpl. unfold Capture.verify_receipt_bytes.
  destruct (bool_decide _ || bool_decide _) eqn:Hlen; [done|]. apply orb_false_iff in Hlen as [_ Hlen%bool_decide_eq_false].
  destruct (expected_ok r x) as (H1&H2&H3); [done|by apply selected_expected|].
  rewrite receipt_roundtrip by done. simpl. destruct (Capture.find_part _ _) as [p|]; [|done]. simpl.
  destruct (Capture.receipt_matches _ _ _ _) eqn:Hm; [|done]. intros _. unfold Capture.receipt_matches in Hm.
  rewrite !andb_true_iff, !bool_decide_eq_true in Hm. unfold body_ok.
  destruct Hm as [[[[[[[[[[[[_ _] _] _] _] Hsha] Hsz] _] _] _] Hl] Hs'] Hu]. split_and!; [congruence|congruence|done|lia].
Qed.
End requests.

(** ** Coherent tables *)
Section coherent.
Context {lib : CaptureLib} {nj : NativeJson}.

(** The identity of a whole capture, as cleanups use, is not that of a part. *)
Definition cleanup_key (res : string) : Prop := ∃ d, res = json_print (JArr [JStr d; JNull]).

Lemma part_key r x : selected_receipt r = Some x → ¬ cleanup_key (resource_identity r).
Proof.
  intros Hs [d Hd]. unfold resource_identity, resource_json in Hd. rewrite Hs in Hd.
  apply json_print_inj in Hd. by simplify_eq/=.
Qed.
Lemma whole_key r : selected_receipt r = None → cleanup_key (resource_identity r).
Proof. intros Hs. unfold resource_identity, resource_json. rewrite Hs. by eexists. Qed.
Lemma parts_not_whole r res : res ∈ part_resource_identities r → ¬ cleanup_key res.
Proof.
  intros (p&->&_)%list_elem_of_fmap [d Hd]. unfold resource_json in Hd. apply json_print_inj in Hd. by simplify_eq/=.
Qed.

Definition cancelled_in (t : Tables) (id : string) : Prop :=
  ∃ c, c ∈ captures t ∧ CaptureRow.id c = id ∧ is_Some (CaptureRow.cancelled c).

(** An object row with its capture. *)
Definition object_ok (t : Tables) (x : ObjectRow.t) (st : Stored) : Prop :=
  ObjectRow.outcome x = outcome_to_string (OStored st) ∧ outcome_ok (OStored st) = true ∧ ObjectRow.receipt x = receipt_to_vec (object_receipt st)
  ∧ ObjectRow.capture x ∈ CaptureRow.id <$> captures t
  ∧ match ObjectRow.body x with
    | Some b => body_ok (object_receipt st) b
    | None => cancelled_in t (ObjectRow.capture x)
    end.

(** No body of the capture is left. *)
Definition erased (t : Tables) (id : string) : Prop :=
  ∀ x, x ∈ objects t → ObjectRow.capture x = id → ObjectRow.body x = None.

(** A resource is unseen, prepared, durable in all three tables, or a cleanup. *)
Inductive resource_state (t : Tables) (res : string) : Prop :=
  | RS_unseen : attempts_of res t = [] → objects_of res t = [] → journal_of res t = [] → resource_state t res
  | RS_prepared a : attempts_of res t = [a] → AttemptRow.state a = SPrepared → objects_of res t = [] → journal_of res t = [] →
      ¬ cleanup_key res → resource_state t res
  | RS_durable a x j st : attempts_of res t = [a] → AttemptRow.state a = SCommitted → objects_of res t = [x] →
      journal_of res t = [j] → object_ok t x st →
      AttemptRow.proposal a = ObjectRow.outcome x → OwnerJournalRow.outcome j = ObjectRow.outcome x →
      OwnerJournalRow.owner_receipt j = outcome_owner_receipt (OStored st) →
      OwnerJournalRow.sequence j = counter_to_str (local_sequence (OStored st)) →
      ¬ cleanup_key res → resource_state t res
  | RS_cleaned j cl r : attempts_of res t = [] → objects_of res t = [] → journal_of res t = [j] → cleanup_key res →
      OwnerJournalRow.outcome j = outcome_to_string (OCleaned cl) → outcome_ok (OCleaned cl) = true →
      request_ok r → res = resource_identity r → cancelled_in t (capture_id r) → erased t (capture_id r) →
      resource_state t res.

Definition coherent (t : Tables) : Prop :=
  (∀ res, resource_state t res) ∧ NoDup (CaptureRow.id <$> captures t).

Lemma coherent_empty : coherent (mkTables [] [] [] []).
Proof. split; [intros res; by apply RS_unseen|constructor]. Qed.

(** Captures only grow, and stay cancelled. *)
Definition captures_grow (t t' : Tables) : Prop :=
  (∀ id, id ∈ CaptureRow.id <$> captures t → id ∈ CaptureRow.id <$> captures t')
  ∧ ∀ id, cancelled_in t id → cancelled_in t' id.

(** Cancelled captures stay erased. *)
Definition erased_grow (t t' : Tables) : Prop := ∀ id, cancelled_in t id → erased t id → erased t' id.

Lemma object_ok_grow t t' x st : captures_grow t t' → object_ok t x st → object_ok t' x st.
Proof.
  intros [Hid Hc] (H1&H0&H2&H3&H4). split_and!; [done|done|done|by apply Hid|]. destruct (ObjectRow.body x); [done|by apply Hc].
Qed.

(** What is the same for a resource in both keeps its state. *)
Lemma state_grow t t' res :
  captures_grow t t' → erased_grow t t' → attempts_of res t' = attempts_of res t → objects_of res t' = objects_of res t →
  journal_of res t' = journal_of res t → resource_state t res → resource_state t' res.
Proof.
  intros Hg He Ha Ho Hj H. destruct H; [apply RS_unseen|eapply RS_prepared|eapply RS_durable|eapply RS_cleaned];
    rewrite ?Ha, ?Ho, ?Hj; eauto using object_ok_grow; by apply Hg.
Qed.

Lemma grow_refl t t' : captures t' = captures t → captures_grow t t'.
Proof. intros H. unfold captures_grow, cancelled_in. rewrite H. done. Qed.
Lemma erased_same t t' : objects t' = objects t → erased_grow t t'.
Proof. intros H id _. unfold erased. by rewrite H. Qed.

(** A capture has one row. *)
Lemma not_cancelled t x : NoDup (CaptureRow.id <$> captures t) → x ∈ captures t → CaptureRow.cancelled x = None →
  ¬ cancelled_in t (CaptureRow.id x).
Proof.
  intros Hnd Hx Hn (y&Hy&Hid&[c Hc]). assert (x = y) as ->; [|congruence].
  by eapply (NoDup_fmap_inj_elem CaptureRow.id).
Qed.
End coherent.

#[export] Hint Resolve inside_ret inside_err inside_lift inside_ready inside_query inside_bind
  inside_capture inside_journal inside_all_committed inside_erase_all : inside.

(** ** What the statements do *)
Section effects.
Context {lib : CaptureLib} {nj : NativeJson} (fault : nat → option bool).

Lemma query_ok {A} (m : sql A) s a s' :
  query fault m s = (Ok a, s') → ∃ t, m (tables s) = Some (a, t) ∧ tables s' = t ∧ uncertain s = false ∧ uncertain s' = false.
Proof.
  unfold query. destruct (uncertain s) eqn:Hu; [done|]. destruct (fault _); [done|].
  destruct (m (tables s)) as [[a' t]|] eqn:Hm; [|done]. intros [= -> <-]. exists t. done.
Qed.
Lemma select_ok {A} (f : Tables → A) s a s' :
  query fault (select_rows f) s = (Ok a, s') → a = f (tables s) ∧ tables s' = tables s ∧ uncertain s' = false.
Proof. intros (t&[= <- <-]&Ht&_&Hu)%query_ok. done. Qed.

Lemma capture_ok r s c s' :
  capture fault r s = (Ok c, s') →
  tables s' = tables s ∧ uncertain s' = false
  ∧ match c with
    | None => capture_id r ∉ CaptureRow.id <$> captures (tables s)
    | Some v => ∃ x, x ∈ captures (tables s) ∧ CaptureRow.id x = capture_id r
                  ∧ CaptureRow.descriptor x = request_identity r ∧ CaptureRow.cancelled x = v
    end.
Proof.
  unfold capture. intros (rows&s1&(->&Ht&Hu)%select_ok&Hk)%st_bind_ok.
  destruct (select _ _) as [|x [|]] eqn:Hsel; [| |done].
  - injection Hk as <- <-. split_and!; [done|done|]. intros (x&Hx&Hin)%list_elem_of_fmap.
    assert (x ∈ select (λ y, bool_decide (CaptureRow.id y = capture_id r)) (captures (tables s))) as Hbad
      by (apply elem_of_select; split; [done|by apply bool_decide_eq_true]).
    rewrite Hsel in Hbad. by apply elem_of_nil in Hbad.
  - destruct (decide _) as [Hd|]; [|done]. injection Hk as <- <-. split_and!; [done|done|]. exists x.
    assert (x ∈ select (λ y, bool_decide (CaptureRow.id y = capture_id r)) (captures (tables s))) as [Hin Hid]%elem_of_select
      by (rewrite Hsel; constructor). apply bool_decide_eq_true in Hid. done.
Qed.

Lemma insert_capture_ok id d c t t' :
  insert_capture id d c t = Some (tt, t') →
  attempts t' = attempts t ∧ objects t' = objects t ∧ owner_journal t' = owner_journal t
  ∧ captures_grow t t' ∧ (NoDup (CaptureRow.id <$> captures t) → NoDup (CaptureRow.id <$> captures t')).
Proof.
  unfold insert_capture. intros [= <-]. destruct (existsb _ _) eqn:He; [split_and!; by try apply grow_refl|].
  simpl. split_and!; [done|done|done| |].
  - split; simpl; [intros i; rewrite fmap_app; set_solver|]. intros i (x&Hx&Hy). exists x. simpl. set_solver.
  - intros Hnd. rewrite fmap_app. apply NoDup_app. split_and!; [done| |apply NoDup_singleton].
    intros i (x&->&Hx)%list_elem_of_fmap Hi%list_elem_of_singleton. simpl in Hi.
    assert (existsb (λ r, bool_decide (CaptureRow.id r = id)) (captures t) = true) as Hb; [|congruence].
    apply existsb_exists. exists x. rewrite <-list_elem_of_In. split; [done|by apply bool_decide_eq_true].
Qed.

Lemma attempts_of_app res t l :
  attempts_of res (in_attempts (λ x, x ++ l) t) = attempts_of res t ++ select (λ a, bool_decide (AttemptRow.resource a = res)) l.
Proof. apply select_app. Qed.

(** The first transaction of a stage. *)
Lemma prepare_tables e r s1 s2 :
  (_ <~ query fault (insert_capture (capture_id r) (request_identity r) None) ;;
   c <~ capture fault r ;;
   if bool_decide (c = Some None)
   then query fault (insert_attempt (resource_identity r) (cx_lease e) (outcome_to_string (cx_proposal e)))
   else st_err Conflict) s1 = (Ok tt, s2) →
  let a := AttemptRow.mk (resource_identity r) (cx_lease e) (outcome_to_string (cx_proposal e)) SPrepared in
  uncertain s2 = false ∧ captures_grow (tables s1) (tables s2)
  ∧ (NoDup (CaptureRow.id <$> captures (tables s1)) → NoDup (CaptureRow.id <$> captures (tables s2)))
  ∧ attempts (tables s2) = attempts (tables s1) ++ [a] ∧ attempts_of (resource_identity r) (tables s1) = []
  ∧ objects (tables s2) = objects (tables s1) ∧ owner_journal (tables s2) = owner_journal (tables s1)
  ∧ (∃ x, x ∈ captures (tables s2) ∧ CaptureRow.id x = capture_id r ∧ CaptureRow.descriptor x = request_identity r
          ∧ CaptureRow.cancelled x = None).
Proof.
  intros ([]&s3&(t&Hi&Ht&_)%query_ok&Hk)%st_bind_ok a.
  apply insert_capture_ok in Hi as (Ha&Ho&Hj&Hg&Hnd). subst t.
  apply st_bind_ok in Hk as (c&s4&(Ht4&_&Hc)%capture_ok&Hk). case_bool_decide as Hcc; [|done]. subst c.
  apply query_ok in Hk as (t&Hi&Ht&_&Hu). unfold insert_attempt in Hi. rewrite Ht4 in Hi.
  destruct (existsb _ _) eqn:He; [done|]. injection Hi as <-. rewrite Ht. simpl. rewrite Ha in *.
  split_and!; try done.
  unfold attempts_of. apply select_nil. intros x Hx. apply not_true_is_false. intros Hres.
  assert (existsb (λ y, bool_decide (AttemptRow.resource y = resource_identity r) || bool_decide (AttemptRow.lease y = cx_lease e))
      (attempts (tables s1)) = true) as Hb; [|congruence].
    apply existsb_exists. exists x. rewrite <-list_elem_of_In. split; [done|]. by rewrite Hres.
Qed.

Lemma journal_ok e r s u s' :
  journal fault e r s = (Ok u, s') →
  let j := OwnerJournalRow.mk (outcome_owner_receipt (cx_proposal e)) (cx_lease e)
             (counter_to_str (local_sequence (cx_proposal e))) (resource_identity r) (outcome_to_string (cx_proposal e)) in
  tables s' = in_journal (λ l, l ++ [j]) (tables s) ∧ uncertain s' = false ∧ (length (owner_journal (tables s)) < 128)%nat.
Proof.
  intros (n&s1&(->&Ht&_)%select_ok&Hk)%st_bind_ok j. case_bool_decide; [done|].
  apply query_ok in Hk as (t&Hi&Ht'&_&Hu). rewrite Ht in Hi. unfold insert_journal in Hi.
  destruct (existsb _ _); [done|]. injection Hi as _ <-. split_and!; [done|done|lia].
Qed.

(** The second one. *)
Lemma commit_tables e r receipt b s1 u s2 :
  (c <~ capture fault r ;;
   if bool_decide (c = Some None) then
     _ <~ query fault (insert_object (resource_identity r) (capture_id r) receipt b (outcome_to_string (cx_proposal e))) ;;
     _ <~ journal fault e r ;;
     query fault (commit_attempt (resource_identity r) (cx_lease e))
   else st_err Conflict) s1 = (Ok u, s2) →
  let res := resource_identity r in
  let x := ObjectRow.mk res (capture_id r) receipt (Some b) (outcome_to_string (cx_proposal e)) in
  let j := OwnerJournalRow.mk (outcome_owner_receipt (cx_proposal e)) (cx_lease e)
             (counter_to_str (local_sequence (cx_proposal e))) res (outcome_to_string (cx_proposal e)) in
  uncertain s2 = false ∧ captures (tables s2) = captures (tables s1)
  ∧ objects (tables s2) = objects (tables s1) ++ [x] ∧ owner_journal (tables s2) = owner_journal (tables s1) ++ [j]
  ∧ Some (tt, in_attempts (λ _, attempts (tables s2)) (tables s1)) = commit_attempt res (cx_lease e) (tables s1)
  ∧ objects_of res (tables s1) = []
  ∧ ∃ y, y ∈ captures (tables s1) ∧ CaptureRow.id y = capture_id r ∧ CaptureRow.cancelled y = None.
Proof.
  intros (c&s3&(Ht3&_&Hc)%capture_ok&Hk)%st_bind_ok res x j. case_bool_decide as Hcc; [|done]. subst c.
  apply st_bind_ok in Hk as ([]&s4&(t4&Hi&Ht4&_)%query_ok&Hk). rewrite Ht3 in Hi. unfold insert_object in Hi.
  destruct (existsb _ (objects (tables s1)) || _) eqn:He; [done|]. injection Hi as <-.
  apply orb_false_iff in He as [He _].
  apply st_bind_ok in Hk as ([]&s5&(Ht5&_&_)%journal_ok&Hk).
  apply query_ok in Hk as (t&Hi&Ht&_&Hu). unfold commit_attempt in Hi. injection Hi as _ <-.
  rewrite Ht, Ht5, Ht4. simpl. split_and!; try done.
  - apply select_nil. intros y Hy. apply not_true_is_false. intros Hb.
    assert (existsb (λ z, bool_decide (ObjectRow.resource z = resource_identity r)) (objects (tables s1)) = true); [|congruence].
    apply existsb_exists. exists y. by rewrite <-list_elem_of_In.
  - destruct Hc as (y&Hy&Hid&_&Hn). by exists y.
Qed.

(** *** Reads *)
Definition reads {A} (m : pm Backend A) : Prop := ∀ s, tables (m s).2 = tables s ∧ saved (m s).2 = saved s.

Lemma reads_ret {A} (a : A) : reads (st_ret a).
Proof. done. Qed.
Lemma reads_err {A} x : reads (A:=A) (st_err x).
Proof. done. Qed.
Lemma reads_lift {A} (r : result A Refusal) : reads (st_lift r).
Proof. done. Qed.
Lemma reads_ready : reads ready.
Proof. done. Qed.
Lemma backend_reads_select {A} (f : Tables → A) : reads (query fault (select_rows f)).
Proof. intros s. unfold query. destruct (uncertain s); [done|]. by destruct (fault _). Qed.
Lemma reads_bind {A B} (m : pm Backend A) (k : A → pm Backend B) : reads m → (∀ a, reads (k a)) → reads (st_bind m k).
Proof.
  intros Hm Hk s. unfold st_bind. destruct (Hm s) as [H1 H2]. destruct (m s) as [[a|x] s1]; simpl in *; [|done].
  destruct (Hk a s1). split; congruence.
Qed.
#[local] Hint Resolve reads_ret reads_err reads_lift reads_ready backend_reads_select reads_bind : inside.

Lemma reads_capture r : reads (capture fault r).
Proof. apply reads_bind; [auto with inside|]. intros [|x [|]]; auto with inside. by destruct (decide _). Qed.
#[local] Hint Resolve reads_capture : inside.

Lemma reads_durable e r atts x j : reads (durable_rows fault e r atts x j).
Proof.
  unfold durable_rows. destruct (negb _); [auto with inside|]. do 2 (apply reads_bind; [auto with inside|intros ?]).
  destruct (_ || _); [auto with inside|]. apply reads_bind; [auto with inside|intros ?]. destruct (_ && _); auto with inside.
Qed.

Lemma reads_live e r : reads (observe_live fault e r).
Proof.
  do 3 (apply reads_bind; [auto with inside|intros ?]). destruct (bool_decide _); [auto with inside|].
  assert (reads (if negb (bool_decide (length a0 = 0%nat)) || negb (bool_decide (length a = 0%nat))
    || negb (bool_decide (length a1 = 0%nat)) then st_ret Corrupt
    else st_ret (match cx_disposition e with FencedNoCommit => Unseen | ExistingOrUnknown => Unknown end : Observation unit Outcome))) as Hrest
    by (destruct (_ || _); auto with inside).
  destruct a0 as [|x [|]]; [exact Hrest|apply reads_durable|exact Hrest].
Qed.

Lemma reads_cancelled e r c : reads (observe_cancelled fault e r c).
Proof.
  apply reads_bind; [auto with inside|]. intros [|row [|]]; [auto with inside| |auto with inside].
  apply reads_bind; [auto with inside|]. intros [?|?].
  - destruct (accepts_operation _ _); auto with inside.
  - destruct (_ || _); auto with inside.
Qed.

Lemma reads_observe e r : reads (observe_context fault e r).
Proof.
  do 3 (apply reads_bind; [auto with inside|intros ?]). destruct a1 as [[c|]|]; auto using reads_live, reads_cancelled.
Qed.

Lemma reads_read e r max : reads (read_context fault e r max).
Proof.
  apply reads_bind; [auto with inside|intros _]. apply reads_bind; [apply reads_observe|].
  intros []; auto with inside. apply reads_bind; [auto with inside|intros size]. destruct (negb _); [auto with inside|].
  apply reads_bind; [auto with inside|intros c]. destruct (negb _); [auto with inside|].
  apply reads_bind; [auto with inside|intros rows]. apply reads_bind; [auto with inside|intros x].
  destruct rows as [|[[y b] a] [|]]; auto with inside. destruct (_ && _); [|auto with inside].
  do 2 (apply reads_bind; [auto with inside|intros ?]). destruct (bool_decide _); auto with inside.
Qed.

(** Unseen means that no table knows the resource. *)
Lemma observe_unseen e r s s' :
  observe_context fault e r s = (Ok Unseen, s') →
  let res := resource_identity r in
  tables s' = tables s ∧ attempts_of res (tables s) = [] ∧ objects_of res (tables s) = [] ∧ journal_of res (tables s) = [].
Proof.
  intros Hobs res. pose proof (reads_observe e r s) as [Ht _]. rewrite Hobs in Ht. simpl in Ht. split; [done|].
  apply st_bind_ok in Hobs as (?&s1&[_ ->]%st_lift_ok&Hobs). apply st_bind_ok in Hobs as (?&s2&[= _ <-]&Hobs).
  apply st_bind_ok in Hobs as (c&s3&(Ht3&_&_)%capture_ok&Hobs).
  assert (observe_live fault e r s3 = (Ok Unseen, s') ∨ ∃ x, observe_cancelled fault e r x s3 = (Ok Unseen, s')) as [Hl|(c'&Hc)]
    by (destruct c as [[c'|]|]; eauto).
  2: { apply st_bind_ok in Hc as (rows&s4&_&Hc). destruct rows as [|row [|]]; try done.
       apply st_bind_ok in Hc as (o&s5&_&Hc). destruct o; [by destruct (accepts_operation _ _)|].
       destruct (_ || _); [done|]. apply st_bind_ok in Hc as (?&?&_&Hc). by apply st_bind_ok in Hc as (?&?&_&?). }
  rewrite <-Ht3. apply st_bind_ok in Hl as (atts&s4&(->&Ht4&_)%select_ok&Hl).
  apply st_bind_ok in Hl as (rows&s5&(->&Ht5&_)%select_ok&Hl). apply st_bind_ok in Hl as (j&s6&(->&Ht6&_)%select_ok&Hl).
  rewrite Ht5, Ht4 in Hl. destruct (bool_decide (_ = [SPrepared])).
  { injection Hl as Hl _. by destruct (_ && _). }
  fold res in Hl. destruct (objects_of res (tables s3)) as [|row [|]].
  - destruct (attempts_of res (tables s3)); [|done]. by destruct (journal_of res (tables s3)).
  - unfold durable_rows in Hl. destruct (negb _); [done|]. apply st_bind_ok in Hl as (o&?&_&Hl).
    apply st_bind_ok in Hl as (?&?&_&Hl). destruct (_ || _); [done|]. apply st_bind_ok in Hl as (?&?&_&Hl).
    by destruct (_ && _).
  - done.
Qed.

(** *** Coherence is kept *)
Lemma select_update_map {A} (p q : A → bool) (f : A → A) t x :
  select p t = [x] → q x = true → (∀ y, q y = true → p y = true ∧ p (f y) = true) → select p (update q f t) = [f x].
Proof.
  intros Hs Hq Hpq. revert Hs. unfold select, update. induction t as [|z t IH]; [done|]. simpl.
  destruct (p z) eqn:Hz.
  - intros [= -> Ht]. rewrite Hq. destruct (Hpq x Hq) as [_ Hf]. simpl. rewrite Hf. f_equal.
    rewrite <-Ht. clear IH. induction t as [|w t IH]; [done|]. simpl in *. destruct (p w) eqn:Hw; [done|].
    destruct (q w) eqn:Hqw; [destruct (Hpq w Hqw); congruence|]. simpl. rewrite Hw. by apply IH.
  - intros Ht. destruct (q z) eqn:Hqz; [destruct (Hpq z Hqz); congruence|]. rewrite Hz. by apply IH.
Qed.

Lemma select_cons {A} (p : A → bool) x l : select p (x :: l) = if p x then x :: select p l else select p l.
Proof. done. Qed.

Lemma prepared_coherent t t' e r :
  let res := resource_identity r in
  let a := AttemptRow.mk res (cx_lease e) (outcome_to_string (cx_proposal e)) SPrepared in
  coherent t → ¬ cleanup_key res → captures_grow t t' → NoDup (CaptureRow.id <$> captures t') →
  attempts t' = attempts t ++ [a] → attempts_of res t = [] → objects t' = objects t → owner_journal t' = owner_journal t →
  objects_of res t = [] → journal_of res t = [] →
  coherent t' ∧ attempts_of res t' = [a].
Proof.
  intros res a [Hst _] Hk Hg Hnd Ha Hae Ho Hj Hoe Hje.
  assert (∀ res', attempts_of res' t' = attempts_of res' t ++ (if decide (res = res') then [a] else [])) as Hatt.
  { intros res'. unfold attempts_of. rewrite Ha, select_app. f_equal. rewrite select_cons. simpl.
    case_decide as Hd; [by rewrite bool_decide_true|by rewrite bool_decide_false]. }
  assert (attempts_of res t' = [a]) as Hres by (by rewrite Hatt, Hae, decide_True).
  split; [|done]. split; [|done]. intros res'. destruct (decide (res = res')) as [<-|Hne].
  - eapply RS_prepared; [exact Hres|done| | |done]; unfold objects_of, journal_of; by rewrite ?Ho, ?Hj.
  - eapply state_grow; [exact Hg|by apply erased_same| | | |apply (Hst res')]; unfold objects_of, journal_of; rewrite ?Ho, ?Hj;
      [|done|done]. by rewrite Hatt, decide_False, app_nil_r.
Qed.

Lemma committed_coherent t t' e r st b x :
  let res := resource_identity r in
  let a := AttemptRow.mk res (cx_lease e) (outcome_to_string (cx_proposal e)) SPrepared in
  coherent t → ¬ cleanup_key res → cx_proposal e = OStored st → outcome_ok (OStored st) = true → object_receipt st = x → body_ok x b →
  attempts_of res t = [a] → journal_of res t = [] → captures t' = captures t →
  (∃ y, y ∈ captures t ∧ CaptureRow.id y = capture_id r ∧ CaptureRow.cancelled y = None) →
  objects t' = objects t ++ [ObjectRow.mk res (capture_id r) (receipt_to_vec x) (Some b) (outcome_to_string (cx_proposal e))] →
  owner_journal t' = owner_journal t ++ [OwnerJournalRow.mk (outcome_owner_receipt (cx_proposal e)) (cx_lease e)
    (counter_to_str (local_sequence (cx_proposal e))) res (outcome_to_string (cx_proposal e))] →
  Some (tt, in_attempts (λ _, attempts t') t) = commit_attempt res (cx_lease e) t → objects_of res t = [] →
  coherent t'.
Proof.
  intros res a [Hst Hnd] Hk Hp Hok Hx Hb Hatt Hjn Hc (y&Hy&Hyid&Hyn) Ho Hj Hcom Hon. unfold commit_attempt in Hcom. injection Hcom as Hcom.
  simpl in Hcom. split; [|by rewrite Hc]. intros res'.
  assert (captures_grow t t') as Hg by (by apply grow_refl).
  assert (capture_id r ∈ CaptureRow.id <$> captures t) as Hcap by (rewrite <-Hyid; by apply list_elem_of_fmap_2).
  assert (erased_grow t t') as Heg.
  { intros id Hcan He z. rewrite Ho. intros [Hz|Hz%list_elem_of_singleton]%elem_of_app Hid; [by apply He|]. subst z. simpl in Hid.
    exfalso. subst id. rewrite <-Hyid in Hcan. by eapply not_cancelled. }
  destruct (decide (res = res')) as [<-|Hne].
  - eapply (RS_durable _ _ (AttemptRow.mk res (cx_lease e) (outcome_to_string (cx_proposal e)) SCommitted)
      (ObjectRow.mk res (capture_id r) (receipt_to_vec x) (Some b) (outcome_to_string (cx_proposal e)))
      (OwnerJournalRow.mk (outcome_owner_receipt (cx_proposal e)) (cx_lease e)
        (counter_to_str (local_sequence (cx_proposal e))) res (outcome_to_string (cx_proposal e))) st);
      try done; try (simpl; by rewrite Hp).
    + unfold attempts_of in *. rewrite Hcom. etrans; [apply (select_update_map _ _ _ _ a); [exact Hatt| |]|done].
      * simpl. by rewrite !bool_decide_true.
      * intros w Hw. rewrite !andb_true_iff in Hw. destruct Hw as [[Hw _] _]. done.
    + unfold objects_of in *. rewrite Ho, select_app, Hon, select_cons. simpl. by rewrite bool_decide_true.
    + unfold journal_of in *. rewrite Hj, select_app, Hjn, select_cons. simpl. by rewrite bool_decide_true.
    + split_and!; simpl; [by rewrite Hp|done|by rewrite Hx|by rewrite Hc|by rewrite Hx].
  - eapply state_grow; [exact Hg|exact Heg| | | |apply (Hst res')].
    + unfold attempts_of. rewrite Hcom. apply select_update_other. intros w _ Hw. rewrite !andb_true_iff in Hw.
      destruct Hw as [[Hw%bool_decide_eq_true _] _]. simpl. split; apply bool_decide_eq_false; congruence.
    + unfold objects_of. rewrite Ho, select_app, select_cons. simpl. rewrite bool_decide_false by done. apply app_nil_r.
    + unfold journal_of. rewrite Hj, select_app, select_cons. simpl. rewrite bool_decide_false by done. apply app_nil_r.
Qed.

Lemma bind_cases {A B} (m : pm Backend A) (k : A → pm Backend B) s r s' :
  st_bind m k s = (r, s') → (∃ a s1, m s = (Ok a, s1) ∧ k a s1 = (r, s')) ∨ ∃ x, m s = (Err x, s') ∧ r = Err x.
Proof. unfold st_bind. destruct (m s) as [[a|x] s1]; [eauto|intros [= <- <-]; eauto]. Qed.

Lemma lift_cases {A B} (x : result A Refusal) (k : A → pm Backend B) s r s' :
  st_bind (st_lift x) k s = (r, s') → (∃ a, x = Ok a ∧ k a s = (r, s')) ∨ s' = s ∧ ∃ e, x = Err e ∧ r = Err e.
Proof. unfold st_bind, st_lift. destruct x; [eauto|intros [= <- <-]; eauto]. Qed.

Lemma receipt_selected o r y : outcome_receipt o r = Ok y → ∃ st x, o = OStored st ∧ selected_receipt r = Some x ∧ object_receipt st = x.
Proof.
  unfold outcome_receipt. destruct o as [st|]; [|done]. destruct (_ && _); [|done]. unfold selected.
  destruct (selected_receipt r) as [x|]; [|done]. simpl. case_decide; [|done]. intros _. by exists st, x.
Qed.

(** The two transactions as steps of the tables. *)
Definition prepared_from (e : NativeCommitContext) (r : Request) (t t' : Tables) : Prop :=
  let a := AttemptRow.mk (resource_identity r) (cx_lease e) (outcome_to_string (cx_proposal e)) SPrepared in
  captures_grow t t' ∧ (NoDup (CaptureRow.id <$> captures t) → NoDup (CaptureRow.id <$> captures t'))
  ∧ attempts t' = attempts t ++ [a] ∧ attempts_of (resource_identity r) t = [] ∧ objects t' = objects t
  ∧ owner_journal t' = owner_journal t
  ∧ (∃ x, x ∈ captures t' ∧ CaptureRow.id x = capture_id r ∧ CaptureRow.descriptor x = request_identity r
          ∧ CaptureRow.cancelled x = None).

Lemma prepare_cases e r s res s' :
  saved s = None → prepare_attempt fault e r s = (res, s') →
  saved s' = None ∧ (tables s' = tables s ∨ prepared_from e r (tables s) (tables s'))
  ∧ (res = Ok tt → prepared_from e r (tables s) (tables s') ∧ uncertain s' = false).
Proof.
  intros Hsv Hp. apply transaction_cases in Hp as (H1&H2&H3); [|clear Hp|done].
  - split; [done|]. split.
    + destruct H2 as [?|([]&s1&s2&Ht&_&(_&Hp)%prepare_tables&->)]; [by left|right]. by rewrite Ht in Hp.
    + intros Hok. destruct (H3 tt Hok) as (s1&s2&Ht&_&(Hu&Hp)%prepare_tables&->&->). by rewrite Ht in Hp.
  - apply inside_bind; [auto with inside|intros _]. apply inside_bind; [auto with inside|intros c].
    destruct (bool_decide _); auto with inside.
Qed.

Definition committed_from (e : NativeCommitContext) (r : Request) (receipt b : bytes) (t t' : Tables) : Prop :=
  let res := resource_identity r in
  captures t' = captures t
  ∧ objects t' = objects t ++ [ObjectRow.mk res (capture_id r) receipt (Some b) (outcome_to_string (cx_proposal e))]
  ∧ owner_journal t' = owner_journal t ++ [OwnerJournalRow.mk (outcome_owner_receipt (cx_proposal e)) (cx_lease e)
      (counter_to_str (local_sequence (cx_proposal e))) res (outcome_to_string (cx_proposal e))]
  ∧ Some (tt, in_attempts (λ _, attempts t') t) = commit_attempt res (cx_lease e) t
  ∧ objects_of res t = [] ∧ ∃ y, y ∈ captures t ∧ CaptureRow.id y = capture_id r ∧ CaptureRow.cancelled y = None.

Lemma commit_cases e r receipt b s res s' :
  saved s = None → commit_object fault e r receipt b s = (res, s') →
  saved s' = None ∧ (tables s' = tables s ∨ committed_from e r receipt b (tables s) (tables s'))
  ∧ (res = Ok tt → committed_from e r receipt b (tables s) (tables s') ∧ uncertain s' = false).
Proof.
  intros Hsv Hp. apply transaction_cases in Hp as (H1&H2&H3); [|clear Hp|done].
  - split; [done|]. split.
    + destruct H2 as [?|([]&s1&s2&Ht&_&(_&Hp)%commit_tables&->)]; [by left|right]. by rewrite Ht in Hp.
    + intros Hok. destruct (H3 tt Hok) as (s1&s2&Ht&_&(Hu&Hp)%commit_tables&->&->). by rewrite Ht in Hp.
  - apply inside_bind; [auto with inside|intros c]. destruct (bool_decide _); auto 6 with inside.
Qed.

(** What a stage does to the tables: nothing, the first transaction, or both. *)
Definition unseen_at (r : Request) (t : Tables) : Prop :=
  let res := resource_identity r in attempts_of res t = [] ∧ objects_of res t = [] ∧ journal_of res t = [].

Definition both_from (e : NativeCommitContext) (r : Request) (b : bytes) (t t' : Tables) : Prop :=
  unseen_at r t ∧ ∃ t1 st, prepared_from e r t t1 ∧ cx_proposal e = OStored st ∧ selected_receipt r = Some (object_receipt st)
    ∧ request_verify_body r b = Ok tt ∧ committed_from e r (receipt_to_vec (object_receipt st)) b t1 t'.

Definition stage_effect (e : NativeCommitContext) (r : Request) (b : bytes) (t t' : Tables) : Prop :=
  t' = t ∨ (is_Some (selected_receipt r) ∧ unseen_at r t ∧ prepared_from e r t t') ∨ both_from e r b t t'.

Lemma stage_cases e r b s res s' :
  saved s = None → stage_context fault e r b s = (res, s') →
  saved s' = None ∧ stage_effect e r b (tables s) (tables s')
  ∧ (∀ o, res = Ok (Some o) →
      context_matches e r = Ok tt
      ∧ (o = cx_proposal e ∧ (∃ y, outcome_receipt o r = Ok y) ∧ both_from e r b (tables s) (tables s')
         ∨ tables s' = tables s ∧ ∃ s0 size b', observe_context fault e r s = (Ok (Durable tt o), s0)
             ∧ selected_size r = Ok size ∧ read_context fault e r size s0 = (Ok b', s'))).
Proof.
  assert (∀ t, stage_effect e r b t t) as Hrefl by (by left).
  intros Hsv Hs. unfold stage_context in Hs.
  apply lift_cases in Hs as [([]&Hcx&Hs)|[-> (?&_&->)]]; [|done]. apply lift_cases in Hs as [([]&Hvb&Hs)|[-> (?&_&->)]]; [|done].
  apply lift_cases in Hs as [(y&Hrec&Hs)|[-> (?&_&->)]]; [|done]. destruct (negb _); [by injection Hs as <- <-|].
  pose proof (receipt_selected _ _ _ Hrec) as (st&x&Hp&Hsel&Hx).
  pose proof (reads_observe e r s) as [Ht1 Hs1].
  apply bind_cases in Hs as [(o&s1&Hobs&Hs)|(x'&Hobs&->)]; rewrite Hobs in *; simpl in *; [|by rewrite Ht1, Hs1].
  destruct o; try (injection Hs as <- <-; by rewrite Ht1, Hs1).
  2: { apply lift_cases in Hs as [(size&Hsz&Hs)|[-> (?&_&->)]]; [|by rewrite Ht1, Hs1].
       pose proof (reads_read e r size s1) as [Ht2 Hs2].
       apply bind_cases in Hs as [(b'&s2&Hrd&Hs)|(x'&Hrd&->)]; rewrite Hrd in *; simpl in *; rewrite ?Ht2, ?Hs2, ?Ht1, ?Hs1; [|done].
       injection Hs as <- <-. rewrite Ht2, Hs2, Ht1, Hs1. split_and!; [done|done|]. intros o [= <-]. split; [done|]. right.
       destruct receipt. split; [done|]. by exists s1, size, b'. }
  apply observe_unseen in Hobs as (_&Hun). assert (saved s1 = None) as Hsv1 by congruence.
  apply bind_cases in Hs as [([]&s2&Hprep&Hs)|(x'&Hprep&->)]; apply prepare_cases in Hprep as (Hsv2&Hor&Hok); try done; rewrite Ht1 in *.
  2: { split_and!; [done| |done]. destruct Hor as [->|Hpf]; [by left|]. right; left. by rewrite Hsel. }
  destruct (Hok eq_refl) as [Hpf _]. unfold selected_receipt_json, selected in Hs. rewrite Hsel in Hs. subst x.
  apply lift_cases in Hs as [(rc&Hrc&Hs)|[-> (?&Hbad&_)]]; [|done]. injection Hrc as <-. unfold or_unknown in Hs.
  destruct (commit_object fault e r (receipt_to_vec (object_receipt st)) b s2) as [rc s3] eqn:Hcom.
  assert (s' = s3) as -> by (destruct rc as [|[]]; by injection Hs as _ <-).
  apply commit_cases in Hcom as (Hsv3&Hor3&Hok3); [|done]. split; [done|]. split.
  - destruct Hor3 as [->|Hcf]; right; [left|right]; [by rewrite Hsel|]. split; [done|]. by exists (tables s2), st.
  - intros o ->. destruct rc as [[]|[]]; simplify_eq. split; [done|left]. split; [done|]. split; [by eexists|].
    split; [done|]. exists (tables s2), st. split_and!; try done. by destruct (Hok3 eq_refl).
Qed.

(** A stage keeps the tables coherent. *)
Lemma prepared_from_coherent e r t t' :
  coherent t → is_Some (selected_receipt r) → unseen_at r t → prepared_from e r t t' →
  coherent t' ∧ attempts_of (resource_identity r) t'
    = [AttemptRow.mk (resource_identity r) (cx_lease e) (outcome_to_string (cx_proposal e)) SPrepared].
Proof.
  intros Hco [x Hsel] (Hae&Hoe&Hje) (Hg&Hnd&Ha&Ha0&Ho&Hj&_).
  eapply prepared_coherent; eauto; [by eapply part_key|apply Hnd, Hco].
Qed.

Lemma both_from_coherent e r b t t' :
  request_ok r → outcome_ok (cx_proposal e) = true → coherent t → both_from e r b t t' → coherent t'.
Proof.
  intros Hr Hpo Hco (Hun&t1&st&Hpf&Hp&Hsel&Hvb&(Hc3&Ho3&Hj3&Hcm&Hon3&Hcap3)).
  destruct (prepared_from_coherent e r t t1) as [Hco1 Hatt]; [done|by rewrite Hsel|done|done|].
  eapply (committed_coherent t1 t' e r st b); eauto; [by eapply part_key|by rewrite <-Hp|by eapply verify_body_ok|].
  destruct Hun as (_&_&Hje), Hpf as (_&_&_&_&_&Hj&_). unfold journal_of in *. by rewrite Hj.
Qed.

Lemma stage_coherent e r b s res s' :
  request_ok r → outcome_ok (cx_proposal e) = true → coherent (tables s) → saved s = None →
  stage_context fault e r b s = (res, s') →
  saved s' = None ∧ coherent (tables s').
Proof.
  intros Hr Hpo Hco Hsv (Hsv'&[->|[(Hsel&Hun&Hpf)|Hbf]]&_)%stage_cases; try done; (split; [done|]).
  - by eapply prepared_from_coherent.
  - by eapply both_from_coherent.
Qed.

(** *** Tombstones *)
Definition tombstoned_from (r : Request) (t t' : Tables) : Prop :=
  attempts t' = attempts t ∧ objects t' = objects t ∧ owner_journal t' = owner_journal t ∧ captures_grow t t'
  ∧ (NoDup (CaptureRow.id <$> captures t) → NoDup (CaptureRow.id <$> captures t')) ∧ cancelled_in t' (capture_id r).

Lemma tombstoned_coherent r t t' : tombstoned_from r t t' → coherent t → coherent t'.
Proof.
  intros (Ha&Ho&Hj&Hg&Hnd&_) [Hst Hn]. split; [|by apply Hnd]. intros res.
  eapply state_grow; [exact Hg|by apply erased_same| | | |apply Hst]; unfold attempts_of, objects_of, journal_of; congruence.
Qed.

Lemma all_committed_ok l s u s' :
  all_committed fault l s = (Ok u, s') →
  tables s' = tables s ∧ ∀ key a, key ∈ l → a ∈ attempts_of key (tables s) → AttemptRow.state a = SCommitted.
Proof.
  revert s. induction l as [|key l IH]; intros s; simpl; [intros [= _ <-]; split; [done|set_solver]|].
  intros (rows&s1&(->&Ht&_)%select_ok&Hk)%st_bind_ok. destruct (forallb _ _) eqn:Hf; [|done].
  apply IH in Hk as [Ht' Hl]. rewrite Ht in *. split; [done|]. intros k a [->|Hk]%elem_of_cons Ha; [|by eapply Hl].
  apply forallb_forall with (x := a) in Hf; [by apply bool_decide_eq_true in Hf|by apply list_elem_of_In].
Qed.

Lemma update_ids p f l : (∀ c, CaptureRow.id (f c) = CaptureRow.id c) → CaptureRow.id <$> update p f l = CaptureRow.id <$> l.
Proof.
  intros Hf. unfold update. rewrite <-list_fmap_compose. apply list_fmap_ext. intros _ c _. simpl. by destruct (p c); rewrite ?Hf.
Qed.

Lemma grow_trans t1 t2 t3 : captures_grow t1 t2 → captures_grow t2 t3 → captures_grow t1 t3.
Proof. intros [H1 H2] [H3 H4]. split; auto. Qed.

Lemma cancel_capture_ok id text t t' x u :
  x ∈ captures t → CaptureRow.id x = id → cancel_capture id text t = Some (u, t') →
  attempts t' = attempts t ∧ objects t' = objects t ∧ owner_journal t' = owner_journal t ∧ captures_grow t t'
  ∧ CaptureRow.id <$> captures t' = CaptureRow.id <$> captures t ∧ cancelled_in t' id.
Proof.
  intros Hx Hid. unfold cancel_capture. intros [= _ <-].
  assert (∀ y, y ∈ captures t → is_Some (CaptureRow.cancelled y) ∨ CaptureRow.id y = id →
    cancelled_in (in_captures (update (λ r, bool_decide (CaptureRow.id r = id) && bool_decide (CaptureRow.cancelled r = None))
      (λ r, CaptureRow.mk (CaptureRow.id r) (CaptureRow.descriptor r) (Some text))) t) (CaptureRow.id y)) as Hcan.
  { intros y Hy Hor. eexists. simpl. split; [apply elem_of_update; exists y; split; [done|reflexivity]|].
    destruct (bool_decide (CaptureRow.id y = id) && bool_decide (CaptureRow.cancelled y = None)) eqn:Hb; simpl; [done|].
    split; [done|]. destruct Hor as [?|Hy2]; [done|].
    apply andb_false_iff in Hb as [Hb|Hb]; apply bool_decide_eq_false in Hb; [congruence|].
    destruct (CaptureRow.cancelled y); [by eexists|done]. }
  split_and!; try done; [|by apply update_ids|subst id; by apply Hcan; auto].
  split; simpl; [intros i; by rewrite update_ids|]. intros i (y&Hy&<-&Hs). by apply Hcan; auto.
Qed.

Lemma tombstone_cases e r keys c s res s' :
  saved s = None → tombstone_context fault e r keys c s = (res, s') →
  saved s' = None ∧ (tables s' = tables s ∨ tombstoned_from r (tables s) (tables s'))
  ∧ (res = Ok tt → tombstoned_from r (tables s) (tables s')).
Proof.
  intros Hsv Hs. unfold tombstone_context in Hs.
  apply lift_cases in Hs as [([]&_&Hs)|[-> (?&_&->)]]; [|split_and!; [done|by left|done]]. apply lift_cases in Hs as [(ks&_&Hs)|[-> (?&_&->)]]; [|split_and!; [done|by left|done]].
  destruct (negb _); [injection Hs as <- <-; split_and!; [done|by left|done]|].
  apply lift_cases in Hs as [([]&_&Hs)|[-> (?&_&->)]]; [|split_and!; [done|by left|done]].
  apply transaction_cases in Hs as (H1&H2&H3); [|clear Hs|done].
  2: { apply inside_bind; [auto with inside|intros n]. destruct (negb _); [auto with inside|].
       do 3 (apply inside_bind; [auto with inside|intros ?]). destruct a1 as [[v|]|]; auto with inside. by destruct (decide _). }
  set (body := st_bind _ _) in *.
  assert (∀ s1 u s2, body s1 = (Ok u, s2) → tombstoned_from r (tables s1) (tables s2)) as Hbody.
  { clear. intros s1 u s2. unfold body. intros (n&a1&(->&Ht1&_)%select_ok&Hk)%st_bind_ok. destruct (negb _); [done|].
    apply st_bind_ok in Hk as (w&a2&[Ht2 _]%all_committed_ok&Hk).
    apply st_bind_ok in Hk as ([]&a3&(t3&Hi&Ht3&_)%query_ok&Hk). rewrite Ht2, Ht1 in Hi.
    apply insert_capture_ok in Hi as (Ha&Ho&Hj&Hg&Hnd). subst t3.
    apply st_bind_ok in Hk as (v&a4&(Ht4&_&Hv)%capture_ok&Hk). destruct v as [[v|]|]; [| |done].
    - destruct (decide _); [|done]. injection Hk as _ <-. rewrite Ht4. split_and!; try done.
      destruct Hv as (x&Hx&Hid&_&Hc). exists x. rewrite Hc. done.
    - apply query_ok in Hk as (t&Hq&Ht&_&_). rewrite Ht4 in Hq. destruct Hv as (x&Hx&Hid&_).
      apply (cancel_capture_ok _ _ _ _ x) in Hq as (Ha'&Ho'&Hj'&Hg'&Hids&Hcan); [|done|done]. rewrite Ht.
      split_and!; [congruence|congruence|congruence|by eapply grow_trans| |done]. intros Hn. rewrite Hids. by apply Hnd. }
  split; [done|]. split.
  - destruct H2 as [?|(v&s1&s2&Ht&_&Hp%Hbody&->)]; [by left|right]. by rewrite Ht in Hp.
  - intros ->. destruct (H3 tt eq_refl) as (s1&s2&Ht&_&Hp%Hbody&->&_). by rewrite Ht in Hp.
Qed.

(** *** Cleanups *)
Definition erase (keys : list string) (cap : string) (x : ObjectRow.t) : ObjectRow.t :=
  if bool_decide (ObjectRow.resource x ∈ keys) && bool_decide (ObjectRow.capture x = cap)
  then ObjectRow.mk (ObjectRow.resource x) (ObjectRow.capture x) (ObjectRow.receipt x) None (ObjectRow.outcome x) else x.

Lemma erase_all_ok keys cap s u s' :
  erase_all fault keys cap s = (Ok u, s') → tables s' = in_objects (fmap (erase keys cap)) (tables s).
Proof.
  assert (∀ t, in_objects (fmap (erase [] cap)) t = t) as H0.
  { intros [tc ta tobj tj]. unfold in_objects. simpl. f_equal. rewrite <-(list_fmap_id tobj) at 2. by apply list_fmap_ext. }
  revert s. induction keys as [|key keys IH]; intros s; simpl; [intros [= _ <-]; by rewrite H0|].
  intros ([]&s1&(t&Hq&Ht&_)%query_ok&Hk)%st_bind_ok. unfold erase_body in Hq. injection Hq as <-.
  rewrite (IH _ Hk), Ht. unfold in_objects, update. simpl. f_equal. rewrite <-list_fmap_compose. apply list_fmap_ext.
  intros _ x _. unfold compose, erase.
  destruct (bool_decide (ObjectRow.resource x = key) && bool_decide (ObjectRow.capture x = cap)) eqn:Hb; simpl.
  - apply andb_true_iff in Hb as [->%bool_decide_eq_true ->%bool_decide_eq_true].
    rewrite !(bool_decide_true (cap = cap)), (bool_decide_true (key ∈ key :: keys)), !andb_true_r by (done || constructor).
    by destruct (bool_decide (key ∈ keys)).
  - replace (bool_decide (ObjectRow.resource x ∈ key :: keys) && bool_decide (ObjectRow.capture x = cap))
      with (bool_decide (ObjectRow.resource x ∈ keys) && bool_decide (ObjectRow.capture x = cap)); [done|].
    destruct (bool_decide (ObjectRow.capture x = cap)); [|by rewrite !andb_false_r]. rewrite !andb_true_r in *.
    apply bool_decide_eq_false in Hb. apply bool_decide_ext. set_solver.
Qed.

Lemma select_fmap_keep {A} (p : A → bool) (f : A → A) l : (∀ x, p (f x) = p x) → select p (f <$> l) = f <$> select p l.
Proof.
  intros Hf. induction l as [|x l IH]; [done|]. rewrite fmap_cons, !select_cons, Hf. destruct (p x); [|done].
  rewrite fmap_cons. by f_equal.
Qed.

Definition cleaned_from (e : NativeCommitContext) (r : Request) (t t' : Tables) : Prop :=
  captures t' = captures t ∧ attempts t' = attempts t
  ∧ objects t' = erase (part_resource_identities r) (capture_id r) <$> objects t
  ∧ owner_journal t' = owner_journal t ++ [OwnerJournalRow.mk (outcome_owner_receipt (cx_proposal e)) (cx_lease e)
      (counter_to_str (local_sequence (cx_proposal e))) (resource_identity r) (outcome_to_string (cx_proposal e))]
  ∧ ∀ x, x ∈ objects t' → ObjectRow.capture x = capture_id r → ObjectRow.body x = None.

Lemma erase_tables e r s1 u s2 :
  (_ <~ erase_all fault (part_resource_identities r) (capture_id r) ;;
   left <~ query fault (select_rows (λ t, length (select (λ o, bool_decide (ObjectRow.capture o = capture_id r)
                                                         && bool_decide (is_Some (ObjectRow.body o))) (objects t)))) ;;
   if negb (bool_decide (left = 0%nat)) then st_err Conflict else journal fault e r) s1 = (Ok u, s2) →
  cleaned_from e r (tables s1) (tables s2).
Proof.
  intros (w&s3&Ht3%erase_all_ok&Hk)%st_bind_ok. apply st_bind_ok in Hk as (n&s4&(->&Ht4&_)%select_ok&Hk).
  case_bool_decide as Hn; [|done]. apply journal_ok in Hk as (Ht&_). rewrite Ht, Ht4, Ht3. unfold cleaned_from. simpl.
  split_and!; try done. intros x Hx Hc. rewrite Ht3 in Hn. apply length_zero_iff_nil in Hn. eapply select_nil in Hn; [|exact Hx].
  rewrite bool_decide_true in Hn by done. simpl in Hn. apply bool_decide_eq_false in Hn.
  destruct (ObjectRow.body x); [|done]. exfalso. apply Hn. by eexists.
Qed.

Lemma cleaned_coherent e r t t' :
  cleaned_from e r t t' → request_ok r → cancelled_in t (capture_id r) → cleanup_key (resource_identity r) →
  (∃ cl, cx_proposal e = OCleaned cl ∧ outcome_ok (OCleaned cl) = true) → journal_of (resource_identity r) t = [] → coherent t → coherent t'.
Proof.
  intros (Hc&Ha&Ho&Hj&Her) Hr Hcan Hkey (cl&Hcl&Hclo) Hjn [Hst Hnd]. split; [|by rewrite Hc]. intros res.
  assert (captures_grow t t') as Hg by (by apply grow_refl).
  assert (∀ k, objects_of k t' = erase (part_resource_identities r) (capture_id r) <$> objects_of k t) as Hobj.
  { intros k. unfold objects_of. rewrite Ho. apply select_fmap_keep. intros x. unfold erase. by destruct (_ && _). }
  assert (∀ k, journal_of k t' = journal_of k t ++ if decide (resource_identity r = k) then [OwnerJournalRow.mk
      (outcome_owner_receipt (cx_proposal e)) (cx_lease e) (counter_to_str (local_sequence (cx_proposal e)))
      (resource_identity r) (outcome_to_string (cx_proposal e))] else []) as Hjo.
  { intros k. unfold journal_of. rewrite Hj, select_app. f_equal. rewrite select_cons. simpl.
    case_decide; [by rewrite bool_decide_true|by rewrite bool_decide_false]. }
  assert (∀ k, attempts_of k t' = attempts_of k t) as Hat by (intros k; unfold attempts_of; by rewrite Ha).
  pose proof (Hst res) as Hs. destruct Hs as [H1 H2 H3|a H1 H2 H3 H4 H5|a x j st H1 H2 H3 H4 H5 H6 H7 H8 H9 H10|j cl' r' H1 H2 H3 H4 H5 H6 H7 H8 H9 H10].
  - destruct (decide (resource_identity r = res)) as [<-|Hne].
    + eapply (RS_cleaned _ _ _ cl r); rewrite ?Hat, ?Hobj, ?Hjo, ?H1, ?H2, ?H3; try done; [by rewrite decide_True|simpl; by rewrite Hcl|by apply Hg].
    + apply RS_unseen; rewrite ?Hat, ?Hobj, ?Hjo, ?H1, ?H2, ?H3; [done|done|by rewrite decide_False].
  - assert (resource_identity r ≠ res) by (intros <-; done).
    eapply RS_prepared; rewrite ?Hat, ?Hobj, ?Hjo, ?H1, ?H3, ?H4; [done|done|done|by rewrite decide_False|done].
  - assert (resource_identity r ≠ res) by (intros <-; done).
    eapply (RS_durable _ _ a (erase (part_resource_identities r) (capture_id r) x) j st);
      rewrite ?Hat, ?Hobj, ?Hjo, ?H1, ?H3, ?H4; try done; [by rewrite decide_False| | |].
    + apply (object_ok_grow t t') in H5; [|done]. destruct H5 as (K1&K0&K2&K3&K4). unfold erase.
      destruct (_ && _) eqn:Hb; [|by split_and!]. apply andb_true_iff in Hb as [_ Hb%bool_decide_eq_true].
      split_and!; try done. simpl. rewrite Hb. by apply Hg.
    + unfold erase. by destruct (_ && _).
    + unfold erase. by destruct (_ && _).
  - destruct (decide (resource_identity r = res)) as [<-|Hne]; [by rewrite Hjn in H3|].
    eapply (RS_cleaned _ _ j cl' r'); rewrite ?Hat, ?Hobj, ?Hjo, ?H1, ?H2, ?H3; try done; [by rewrite decide_False|by apply Hg|].
    intros x. rewrite Ho. intros (z&->&Hz)%list_elem_of_fmap. unfold erase. destruct (_ && _); [done|]. by apply H10.
Qed.

Lemma cancelled_whole c r ks : cancelled_objects c r = Ok ks → selected_receipt r = None.
Proof.
  unfold cancelled_objects, cancelled_validate. destruct (_ && _) eqn:Hb; [|done]. intros _.
  rewrite !andb_true_iff in Hb. destruct Hb as [[[[[[[[[[[[[Hb _] _] _] _] _] _] _] _] _] _] _] _] _]. by apply bool_decide_eq_true in Hb.
Qed.

Lemma cleanup_cases e r keys c s res s' :
  request_ok r → outcome_ok (cx_proposal e) = true → coherent (tables s) → saved s = None →
  cleanup_context fault e r keys c s = (res, s') →
  saved s' = None ∧ coherent (tables s')
  ∧ (tables s' = tables s ∨ cleaned_from e r (tables s) (tables s'))
  ∧ (∀ o, res = Ok (Some o) → journal_of (resource_identity r) (tables s) = [] → cleaned_from e r (tables s) (tables s') ∧ o = cx_proposal e).
Proof.
  intros Hr Hpo Hco Hsv Hs. unfold cleanup_context in Hs.
  apply lift_cases in Hs as [([]&_&Hs)|[-> (?&_&->)]]; [|split_and!; [done|done|by left|done]].
  apply lift_cases in Hs as [(ks&Hks&Hs)|[-> (?&_&->)]]; [|split_and!; [done|done|by left|done]].
  destruct (negb _); [injection Hs as <- <-; split_and!; [done|done|by left|done]|].
  apply lift_cases in Hs as [([]&Hvc&Hs)|[-> (?&_&->)]]; [|split_and!; [done|done|by left|done]].
  pose proof (reads_capture r s) as [Ht1 Hs1].
  apply bind_cases in Hs as [(v&s1&Hcap&Hs)|(x'&Hcap&->)]; rewrite Hcap in *; simpl in *; rewrite ?Ht1, ?Hs1;
    [|split_and!; [done|done|by left|done]].
  case_bool_decide as Hv; simpl in Hs; [|injection Hs as <- <-; rewrite ?Ht1, ?Hs1; split_and!; [done|done|by left|done]]. subst v.
  apply capture_ok in Hcap as (_&_&(y&Hy&Hid&_&Hcn)).
  pose proof (backend_reads_select (journal_of (resource_identity r)) s1) as [Ht2 Hs2].
  apply bind_cases in Hs as [(rows&s2&Hq&Hs)|(x'&Hq&->)]; rewrite Hq in *; simpl in *;
    [|rewrite ?Ht2, ?Hs2, ?Ht1, ?Hs1; split_and!; [done|done|by left|done]].
  apply select_ok in Hq as (->&_&_). rewrite Ht1 in *. assert (tables s2 = tables s) as Ht3 by congruence.
  assert (saved s2 = None) as Hsv3 by congruence.
  destruct (journal_of (resource_identity r) (tables s)) as [|row [|]] eqn:Hjn.
  - unfold or_unknown in Hs. destruct (erase_objects fault e r s2) as [rc s3] eqn:He.
    assert (s' = s3) as -> by (destruct rc as [|[]]; by injection Hs as _ <-).
    apply transaction_cases in He as (H1&H2&H3); [|clear He|done].
    2: { apply inside_bind; [auto with inside|intros _]. apply inside_bind; [auto with inside|intros n]. destruct (negb _); auto with inside. }
    assert (tables s3 = tables s ∨ cleaned_from e r (tables s) (tables s3)) as Hor.
    { rewrite <-Ht3. destruct H2 as [?|(u&a1&a2&Ha1&_&Hp%erase_tables&->)]; [by left|right]. by rewrite Ha1 in Hp. }
    split_and!; [done| |done|].
    + destruct Hor as [->|Hcl]; [done|]. eapply cleaned_coherent; [exact Hcl|done|exists y; by rewrite Hcn|apply whole_key; by eapply cancelled_whole| |done|done].
      unfold cancelled_verify_cleaned in Hvc. destruct (cx_proposal e) as [|cl]; [done|]. by exists cl.
    + intros o Ho _. destruct rc as [[]|[]]; simplify_eq. split; [|done]. rewrite <-Ht3.
      destruct (H3 tt eq_refl) as (a1&a2&Ha1&_&Hp%erase_tables&->&_). by rewrite Ha1 in Hp.
  - assert (s' = s2 ∧ True) as [-> _].
    { apply lift_cases in Hs as [(o&_&Hs)|[-> _]]; [|done]. apply lift_cases in Hs as [([]&_&Hs)|[-> _]]; [|done].
      destruct (matches_original_effect _ _); by injection Hs as _ <-. }
    rewrite Ht3. split_and!; [done|done|by left|done].
  - injection Hs as <- <-. rewrite Ht3. split_and!; [done|done|by left|done].
Qed.
End effects.

(** ** Replay: what succeeded succeeds again when nothing fails *)
Section replay.
Context {lib : CaptureLib} {nj : NativeJson}.

Definition replays {A} (m : (nat → option bool) → pm Backend A) : Prop :=
  ∀ f s a s', m f s = (Ok a, s') → ∀ f' s0, (∀ n, f' n = None) → tables s0 = tables s → uncertain s0 = false →
    ∃ s1, m f' s0 = (Ok a, s1) ∧ tables s1 = tables s' ∧ uncertain s1 = false.

Lemma replays_ret {A} (a : A) : replays (λ _, st_ret a).
Proof. intros f s b s' [= <- <-] f' s0 _ Ht Hu. by exists s0. Qed.
Lemma replays_err {A} x : replays (A:=A) (λ _, st_err x).
Proof. done. Qed.
Lemma replays_lift {A} (r : result A Refusal) : replays (λ _, st_lift r).
Proof. intros f s b s' [-> ->]%st_lift_ok f' s0 _ Ht Hu. by exists s0. Qed.
Lemma replays_ready : replays (λ _, ready).
Proof. unfold ready. intros f s b s'. destruct (uncertain s); [done|]. intros [= <- <-] f' s0 _ Ht Hu. exists s0. by rewrite Hu. Qed.
Lemma replays_query {A} (m : sql A) : replays (λ f, query f m).
Proof.
  intros f s a s' (t&Hm&Ht&_)%query_ok f' s0 Hf Ht0 Hu. unfold query. rewrite Hu, Hf, Ht0, Hm.
  eexists. split; [done|]. by subst t.
Qed.
Lemma replays_bind {A B} (m : (nat → option bool) → pm Backend A) (k : A → (nat → option bool) → pm Backend B) :
  replays m → (∀ a, replays (k a)) → replays (λ f, st_bind (m f) (λ a, k a f)).
Proof.
  intros Hm Hk f s b s' (a&s1&H1&H2)%st_bind_ok f' s0 Hf Ht Hu.
  destruct (Hm _ _ _ _ H1 f' s0 Hf Ht Hu) as (s2&H3&Ht2&Hu2). destruct (Hk a _ _ _ _ H2 f' s2 Hf Ht2 Hu2) as (s3&H4&Ht3&Hu3).
  exists s3. split; [|done]. apply st_bind_ok. by exists a, s2.
Qed.
Lemma replays_if {A} (b : bool) (m n : (nat → option bool) → pm Backend A) :
  replays m → replays n → replays (λ f, if b then m f else n f).
Proof. by destruct b. Qed.

#[local] Hint Resolve replays_ret replays_err replays_lift replays_ready replays_query : inside.

Ltac replay := repeat first [solve [auto with inside] | apply replays_if
  | apply (replays_bind (λ f, _) (λ a f, _)); [|intros ?] ].

Lemma replays_capture r : replays (λ f, capture f r).
Proof. unfold capture. replay. destruct a as [|x [|]]; replay. by destruct (decide _); replay. Qed.
#[local] Hint Resolve replays_capture : inside.

Lemma replays_observe e r : replays (λ f, observe_context f e r).
Proof.
  unfold observe_context. replay. destruct a1 as [[c|]|].
  - unfold observe_cancelled. replay. destruct a1 as [|row [|]]; replay. destruct a1; replay.
  - unfold observe_live. replay. destruct a2 as [|x [|]]; unfold durable_rows; replay.
  - unfold observe_live. replay. destruct a2 as [|x [|]]; unfold durable_rows; replay.
Qed.
#[local] Hint Resolve replays_observe : inside.

Lemma replays_read e r max : replays (λ f, read_context f e r max).
Proof. unfold read_context. replay. destruct a0; replay. destruct a2 as [|[[x b] att] [|]]; replay. Qed.

(** *** Running on tables at rest *)
Context (f : nat → option bool) (Hf : ∀ n, f n = None).

(** [m] answers [a] on tables [t] and leaves them. *)
Definition answers {A} (m : pm Backend A) (t : Tables) (a : A) : Prop :=
  ∀ s, tables s = t → uncertain s = false → ∃ s1, m s = (Ok a, s1) ∧ tables s1 = t ∧ uncertain s1 = false.

Lemma answers_ret {A} (a : A) t : answers (st_ret a) t a.
Proof. intros s Ht Hu. by exists s. Qed.
Lemma answers_lift {A} (a : A) r t : r = Ok a → answers (st_lift r) t a.
Proof. intros -> s Ht Hu. by exists s. Qed.
Lemma answers_ready t : answers ready t tt.
Proof. intros s Ht Hu. exists s. unfold ready. by rewrite Hu. Qed.
Lemma answers_select {A} (g : Tables → A) t : answers (query f (select_rows g)) t (g t).
Proof. intros s Ht Hu. unfold query. rewrite Hu, Hf. simpl. eexists. split; [by rewrite Ht|done]. Qed.
Lemma answers_bind {A B} (m : pm Backend A) (k : A → pm Backend B) t a b :
  answers m t a → answers (k a) t b → answers (st_bind m k) t b.
Proof.
  intros Hm Hk s Ht Hu. destruct (Hm s Ht Hu) as (s1&H1&Ht1&Hu1). destruct (Hk s1 Ht1 Hu1) as (s2&H2&H3).
  exists s2. split; [|done]. apply st_bind_ok. by exists a, s1.
Qed.

Lemma select_unique {A B} `{EqDecision B} (key : A → B) l x :
  NoDup (key <$> l) → x ∈ l → select (λ y, bool_decide (key y = key x)) l = [x].
Proof.
  induction l as [|z l IH]; [set_solver|]. rewrite fmap_cons. intros [Hz Hnd]%NoDup_cons Hx. rewrite select_cons.
  apply elem_of_cons in Hx as [->|Hx].
  - rewrite bool_decide_true by done. f_equal. apply select_nil. intros y Hy. apply bool_decide_eq_false. intros He.
    apply Hz. rewrite <-He. by apply list_elem_of_fmap_2.
  - rewrite bool_decide_false; [by apply IH|]. intros He. apply Hz. rewrite He. by apply list_elem_of_fmap_2.
Qed.

Lemma answers_capture r t y :
  NoDup (CaptureRow.id <$> captures t) → y ∈ captures t → CaptureRow.id y = capture_id r →
  CaptureRow.descriptor y = request_identity r → answers (capture f r) t (Some (CaptureRow.cancelled y)).
Proof.
  intros Hnd Hy Hid Hd. unfold capture. eapply answers_bind; [apply answers_select|].
  rewrite <-Hid, select_unique by done. rewrite decide_True by done. apply answers_ret.
Qed.

(** The rows of a stored outcome. *)
Record durable_at (e : NativeCommitContext) (r : Request) (t : Tables) (st : Stored) (b : bytes) : Prop := {
  da_capture : ∃ y, y ∈ captures t ∧ CaptureRow.id y = capture_id r ∧ CaptureRow.descriptor y = request_identity r
                    ∧ CaptureRow.cancelled y = None;
  da_rows : ∃ a x j, attempts_of (resource_identity r) t = [a] ∧ AttemptRow.state a = SCommitted
    ∧ objects_of (resource_identity r) t = [x] ∧ journal_of (resource_identity r) t = [j]
    ∧ ObjectRow.resource x = resource_identity r
    ∧ ObjectRow.outcome x = outcome_to_string (OStored st) ∧ ObjectRow.receipt x = receipt_to_vec (object_receipt st)
    ∧ ObjectRow.body x = Some b ∧ AttemptRow.proposal a = ObjectRow.outcome x
    ∧ OwnerJournalRow.outcome j = ObjectRow.outcome x
    ∧ OwnerJournalRow.owner_receipt j = outcome_owner_receipt (OStored st)
    ∧ OwnerJournalRow.sequence j = counter_to_str (local_sequence (OStored st));
  da_outcome : outcome_ok (OStored st) = true ∧ Z.of_nat (length (Publisher.str_bytes (outcome_to_string (OStored st)))) ≤ 8192;
  da_receipt : outcome_receipt (OStored st) r = Ok (mkReceipt (object_receipt st));
  da_selected : selected_receipt r = Some (object_receipt st);
  da_body : request_verify_body r b = Ok tt ∧ body_ok (object_receipt st) b;
  da_context : context_matches e r = Ok tt ∧ cx_original e = original_identity (OStored st)
}.

Lemma parse_stored o : outcome_ok o = true → Z.of_nat (length (Publisher.str_bytes (outcome_to_string o))) ≤ 8192 →
  parse_outcome (Publisher.str_bytes (outcome_to_string o)) = Ok o.
Proof. intros Hok Hl. unfold parse_outcome. rewrite bool_decide_false by lia. by rewrite outcome_json_roundtrip. Qed.

Lemma observe_durable e r t st b :
  NoDup (CaptureRow.id <$> captures t) → durable_at e r t st b → answers (observe_context f e r) t (Durable tt (OStored st)).
Proof.
  intros Hnd [(y&Hy&Hid&Hd&Hn) (a&x&j&Ha&Hst&Ho&Hj&_&Hox&Hrx&Hbx&Hpr&Hjo&Hjr&Hjs) [Hok Hl] Hrec Hsel [Hb _] [Hcx Horig]].
  unfold observe_context. eapply answers_bind; [by apply answers_lift|]. eapply answers_bind; [apply answers_ready|].
  eapply answers_bind; [by eapply (answers_capture _ _ y)|]. rewrite Hn. cbv iota.
  unfold observe_live. do 3 (eapply answers_bind; [apply answers_select|]). rewrite Ha, Ho, Hj.
  rewrite bool_decide_false by (simpl; congruence). cbv iota. unfold durable_rows. rewrite bool_decide_true by done. cbn [negb].
  eapply answers_bind; [apply answers_lift; rewrite Hox; by apply parse_stored|].
  eapply answers_bind; [by apply answers_lift|]. unfold matches_original_effect. rewrite bool_decide_true by done. cbn [negb orb matches_operation].
  eapply answers_bind; [apply answers_select|]. rewrite Ha. cbn [fmap list_fmap]. rewrite Hjo, Hjr, Hjs, Hpr.
  rewrite !bool_decide_true by done. apply answers_ret.
Qed.

Lemma read_durable e r t st b :
  NoDup (CaptureRow.id <$> captures t) → durable_at e r t st b →
  answers (read_context f e r (ObjectReceipt.size_bytes (object_receipt st))) t b.
Proof.
  intros Hnd Hda. pose proof (observe_durable e r t st b Hnd Hda) as Hobs.
  destruct Hda as [(y&Hy&Hid&Hd&Hn) (a&x&j&Ha&Hst&Ho&Hj&Hrs&Hox&Hrx&Hbx&Hpr&Hjo&Hjr&Hjs) [Hok Hl] Hrec Hsel [Hb Hbo] [Hcx Horig]].
  destruct Hbo as (Hlen&_). unfold read_context. eapply answers_bind; [by apply answers_lift|].
  eapply answers_bind; [exact Hobs|]. cbv iota.
  eapply answers_bind; [apply answers_lift; unfold selected_size, selected; rewrite Hsel; reflexivity|].
  rewrite (bool_decide_true (_ = _)) by done. cbn [negb]. eapply answers_bind; [by eapply (answers_capture _ _ y)|].
  rewrite Hn, bool_decide_true by done. cbn [negb]. eapply answers_bind; [apply answers_select|].
  rewrite Ho. cbn [mbind list_bind]. rewrite Hrs, Ha. cbn [mbind list_bind]. rewrite Hbx, bool_decide_true by done. cbn [app].
  eapply answers_bind; [apply answers_lift; unfold selected_receipt_json, selected; rewrite Hsel; reflexivity|].
  rewrite !bool_decide_true by done. cbn [andb]. eapply answers_bind; [apply answers_lift; rewrite Hox; by apply parse_stored|].
  eapply answers_bind; [by apply answers_lift|]. eapply answers_bind; [by apply answers_lift|]. apply answers_ret.
Qed.
End replay.
End ParentProps.
