(* ===== verification/ParentTheorems.v ===== *)
(** * Claims: personal storage

    No sequence of operations, failures and reopenings brings the backend to a
    split commit; what a stage reports is read back; a cleanup erases for good;
    a prepared attempt stays, also the one a full journal leaves behind; and
    what the parent confirms is what its authority and its storage both said.
    Module ParentExample holds concrete codecs and a note. *)

From stdpp Require Import prelude gmap strings pretty countable.
From Stdlib Require Import ZArith Lia Strings.Byte Strings.Ascii.
From S2P Require Import Prelude Text BlobStore Publisher Sql Capture Parent ParentBackend ParentProps.

#[local] Open Scope Z_scope.

Module ParentExample.
Import Adapter Native SqliteBackend ParentProps.

(** ** Tokens to bytes and back *)
Abbreviation tokens := (list (string + Z)).

Fixpoint pos_bytes (p : positive) : bytes :=
  match p with
  | 1%positive => [x01]
  | 2%positive => [x02]
  | 3%positive => [x03]
  | (p~0~0)%positive => x04 :: pos_bytes p
  | (p~1~0)%positive => x05 :: pos_bytes p
  | (p~0~1)%positive => x06 :: pos_bytes p
  | (p~1~1)%positive => x07 :: pos_bytes p
  end.
Fixpoint bytes_pos (b : bytes) : option positive :=
  match b with
  | [x01] => Some 1%positive
  | [x02] => Some 2%positive
  | [x03] => Some 3%positive
  | x04 :: b => p ← bytes_pos b; Some (p~0~0)%positive
  | x05 :: b => p ← bytes_pos b; Some (p~1~0)%positive
  | x06 :: b => p ← bytes_pos b; Some (p~0~1)%positive
  | x07 :: b => p ← bytes_pos b; Some (p~1~1)%positive
  | _ => None
  end.
Lemma bytes_pos_bytes p : bytes_pos (pos_bytes p) = Some p.
Proof.
  assert (∀ n p, (Pos.size_nat p ≤ n)%nat → bytes_pos (pos_bytes p) = Some p) as H; [|by eapply H].
  induction n as [|n IH]; intros q Hq; [destruct q; simpl in Hq; lia|].
  destruct q as [[q|q|]|[q|q|]|]; simpl in *; try done; rewrite IH; (done || lia).
Qed.

Definition put (l : tokens) : bytes := pos_bytes (encode l).
Definition get (b : bytes) : option tokens := p ← bytes_pos b; decode p.
Lemma get_put l : get (put l) = Some l.
Proof. unfold get, put. rewrite bytes_pos_bytes. simpl. apply decode_encode. Qed.

(** ** JSON *)
Definition print_string (l : list ascii) : list ascii := concat ((λ c, ["c"%char; c]) <$> l) ++ ["e"%char].
Fixpoint print_json (j : Json) : list ascii :=
  match j with
  | JNull => ["n"%char]
  | JNum n => "i"%char :: print_string (explode (pretty n))
  | JStr s => "s"%char :: print_string (explode s)
  | JArr l => "["%char :: concat (map print_json l) ++ ["]"%char]
  end.

Lemma print_string_inj l l' x y : print_string l ++ x = print_string l' ++ y → l = l' ∧ x = y.
Proof.
  unfold print_string. revert l'. induction l as [|c l IH]; intros [|c' l']; simpl; try done; [by intros [= ->]|].
  intros [= <- H]. apply IH in H as [-> ->]. done.
Qed.

Lemma print_json_inj a : ∀ b x y, print_json a ++ x = print_json b ++ y → a = b ∧ x = y.
Proof.
  revert a. fix IH 1. intros [|n|s|l] [|n'|s'|l'] x y; simpl; try done.
  - by intros [= ->].
  - intros [= [H ->]%print_string_inj]. apply explode_inj, (inj pretty) in H as ->. done.
  - intros [= [->%explode_inj ->]%print_string_inj]. done.
  - intros [= H]. assert (l = l' ∧ x = y) as [-> ->]; [|done]. revert l' H.
    induction l as [|a l IHl]; intros [|a' l'] H; simpl in H.
    + by injection H as ->.
    + exfalso. by destruct a'.
    + exfalso. by destruct a.
    + rewrite <-!app_assoc in H. rewrite !(app_assoc (concat _)) in H. apply IH in H as [-> H].
      rewrite <-!app_assoc in H. rewrite !app_assoc in H. destruct (IHl l' H) as [-> ->]. done.
Qed.

(** ** The records *)
Definition receipt_tokens (r : ObjectReceipt.t) : tokens :=
  let '(ObjectReceipt.mk a b c d e f g n h i m) := r in
  [inl a; inl b; inl c; inl d; inl e; inl f; inl g; inr n; inl h; inl i; inr m].
Definition receipt_of (l : tokens) : option ObjectReceipt.t :=
  match l with
  | [inl a; inl b; inl c; inl d; inl e; inl f; inl g; inr n; inl h; inl i; inr m] =>
      Some (ObjectReceipt.mk a b c d e f g n h i m)
  | _ => None
  end.

Definition part_tokens (p : Part.t) : tokens :=
  let '(Part.mk a b c d e n f) := p in [inl a; inl b; inl c; inl d; inl e; inr n; inl f].
Fixpoint parts_of (l : tokens) : option (list Part.t) :=
  match l with
  | [] => Some []
  | inl a :: inl b :: inl c :: inl d :: inl e :: inr n :: inl f :: l => ps ← parts_of l; Some (Part.mk a b c d e n f :: ps)
  | _ => None
  end.
Definition descriptor_tokens (d : WireDescriptor.t) : tokens :=
  let '(WireDescriptor.mk a b c d e n f g h m ps) := d in
  [inl a; inl b; inl c; inl d; inl e; inr n; inl f; inl g; inl h; inr m] ++ concat (part_tokens <$> ps).
Definition descriptor_of (l : tokens) : option WireDescriptor.t :=
  match l with
  | inl a :: inl b :: inl c :: inl d :: inl e :: inr n :: inl f :: inl g :: inl h :: inr m :: l =>
      ps ← parts_of l; Some (WireDescriptor.mk a b c d e n f g h m ps)
  | _ => None
  end.
Definition safe (n : Z) : bool := bool_decide (0 ≤ n) && bool_decide (n ≤ MAX_SAFE).
Definition descriptor_safe (d : WireDescriptor.t) : bool :=
  safe (WireDescriptor.cancellation_generation d) && safe (WireDescriptor.expected_conversation_revision d)
  && forallb (λ p, safe (Part.size_bytes p)) (WireDescriptor.parts d).

Definition effect_tokens (e : OriginalEffect) : tokens :=
  let '(mkEffect a b n c m d e f k g) := e in [inl a; inl b; inr n; inl c; inr m; inl d; inl e; inl f; inr k; inl g].
Definition effect_of (l : tokens) : option (OriginalEffect * tokens) :=
  match l with
  | inl a :: inl b :: inr n :: inl c :: inr m :: inl d :: inl e :: inl f :: inr k :: inl g :: l =>
      Some (mkEffect a b n c m d e f k g, l)
  | _ => None
  end.
Definition cancellation_tokens (c : Cancellation) : tokens :=
  let '(mkCancellation a b c d e n m) := c in [inl a; inl b; inl c; inl d; inl e; inr n; inr m].
Definition cancellation_of (l : tokens) : option (Cancellation * tokens) :=
  match l with
  | inl a :: inl b :: inl c :: inl d :: inl e :: inr n :: inr m :: l => Some (mkCancellation a b c d e n m, l)
  | _ => None
  end.
Fixpoint keys_of (l : tokens) : option (list ObjectKey) :=
  match l with
  | [] => Some []
  | inl a :: inl b :: inl c :: l => ks ← keys_of l; Some (mkKey a b c :: ks)
  | _ => None
  end.
Fixpoint keys_tokens (l : list ObjectKey) : tokens :=
  match l with [] => [] | mkKey a b c :: l => inl a :: inl b :: inl c :: keys_tokens l end.
Fixpoint strings_of (l : tokens) : option (list string) :=
  match l with
  | [] => Some []
  | inl a :: l => ss ← strings_of l; Some (a :: ss)
  | _ => None
  end.

Definition outcome_tokens (o : Outcome) : tokens :=
  match o with
  | OStored (mkStored e r i) => inr 0 :: effect_tokens e ++ inl i :: receipt_tokens r
  | OCleaned (mkCleaned e i c ks) => inr 1 :: effect_tokens e ++ inl i :: cancellation_tokens c ++ keys_tokens ks
  end.
Definition outcome_of (l : tokens) : option Outcome :=
  match l with
  | inr 0 :: l =>
      '(e, l) ← effect_of l;
      match l with inl i :: l => r ← receipt_of l; Some (OStored (mkStored e r i)) | _ => None end
  | inr 1 :: l =>
      '(e, l) ← effect_of l;
      match l with
      | inl i :: l => '(c, l) ← cancellation_of l; ks ← keys_of l; Some (OCleaned (mkCleaned e i c ks))
      | _ => None
      end
  | _ => None
  end.
Definition cancelled_tokens (c : CancelledResource) : tokens :=
  let '(mkCancelled a b n m i ps k) := c in
  [inl a; inl b; inr n; inr m; inl i] ++ cancellation_tokens k ++ (inl <$> ps).
Definition cancelled_of (l : tokens) : option CancelledResource :=
  match l with
  | inl a :: inl b :: inr n :: inr m :: inl i :: l =>
      '(k, l) ← cancellation_of l; ps ← strings_of l; Some (mkCancelled a b n m i ps k)
  | _ => None
  end.

Lemma keys_of_tokens l : keys_of (keys_tokens l) = Some l.
Proof. induction l as [|[a b c] l IH]; [done|]. simpl. by rewrite IH. Qed.
Lemma strings_of_tokens l : strings_of (inl <$> l) = Some l.
Proof. induction l as [|a l IH]; [done|]. rewrite fmap_cons. simpl. by rewrite IH. Qed.
Lemma receipt_of_tokens r : receipt_of (receipt_tokens r) = Some r.
Proof. by destruct r. Qed.
Lemma outcome_of_tokens o : outcome_of (outcome_tokens o) = Some o.
Proof.
  destruct o as [[[] r i]|[[] i [] ks]]; simpl; [by rewrite receipt_of_tokens|by rewrite keys_of_tokens].
Qed.
Lemma cancelled_of_tokens c : cancelled_of (cancelled_tokens c) = Some c.
Proof. destruct c as [a b n m i ps []]. cbn -[fmap]. by rewrite strings_of_tokens. Qed.

Definition put_text (l : tokens) : string := String.string_of_list_byte (put l).
Lemma put_text_bytes l : Publisher.str_bytes (put_text l) = put l.
Proof. apply String.list_byte_of_string_of_list_byte. Qed.

(** ** The instances *)
#[global] Program Instance ToyLib : CaptureLib := {|
  sha256 b := take 32 (b ++ replicate 32 x00);
  json_print j := implode (print_json j);
  descriptor_from_slice b := d ← get b ≫= descriptor_of; if descriptor_safe d then Some d else None;
  receipt_from_slice b := get b ≫= receipt_of;
  receipt_to_vec r := put (receipt_tokens r)
|}.
Next Obligation.
  intros a b H. apply (f_equal explode) in H. rewrite !explode_implode in H.
  destruct (print_json_inj a b [] []) as [-> _]; [by rewrite H|done].
Qed.
Next Obligation.
  simpl. intros b d H. destruct (get b ≫= descriptor_of) as [d'|]; [|done]. simpl in H.
  destruct (descriptor_safe d') eqn:Hs; [|done]. injection H as ->. unfold descriptor_safe, safe in Hs.
  rewrite !andb_true_iff, !bool_decide_eq_true, forallb_forall in Hs. destruct Hs as [[? ?] Hp]. split_and!; try tauto.
  apply Forall_forall. intros p Hin. specialize (Hp p Hin).
  by rewrite andb_true_iff, !bool_decide_eq_true in Hp.
Qed.
Next Obligation. simpl. intros r _ _ _. rewrite get_put. apply receipt_of_tokens. Qed.

#[global] Program Instance ToyJson : NativeJson := {|
  outcome_from_slice b := get b ≫= outcome_of;
  outcome_to_string o := put_text (outcome_tokens o);
  cancelled_from_slice b := get b ≫= cancelled_of;
  cancelled_to_string c := put_text (cancelled_tokens c)
|}.
Next Obligation. simpl. intros o _. rewrite put_text_bytes, get_put. apply outcome_of_tokens. Qed.
Next Obligation. simpl. intros b c _. rewrite put_text_bytes, get_put. apply cancelled_of_tokens. Qed.

(** ** A capture of one note *)
Definition uuid (c : string) : string := c +:+ "1111111-2222-3333-4444-555555555555".
Definition note : bytes := Publisher.str_bytes "hello".
Definition unsigned (fingerprint : string) : WireDescriptor.t :=
  WireDescriptor.mk Capture.VERSION (uuid "a") (uuid "b") (uuid "c") (uuid "d") 3 "append_message" (uuid "e") fingerprint 0
    [Part.mk (uuid "f") "note" (uuid "0") (uuid "1") (Capture.sha256_hex note) 5 Capture.MEDIA].
Definition note_descriptor : WireDescriptor.t :=
  unsigned (Capture.sha256_hex (Publisher.str_bytes (Capture.fingerprint_input (unsigned "")))).
Definition note_receipt : ObjectReceipt.t :=
  Capture.expected_receipt note_descriptor (Part.mk (uuid "f") "note" (uuid "0") (uuid "1") (Capture.sha256_hex note) 5 Capture.MEDIA).
Definition note_request (part : option string) : Request :=
  mkRequest note_descriptor ((λ _, note_receipt) <$> part) [note_receipt].
Definition note_part : Request := note_request (Some (uuid "f")).
Definition note_whole : Request := note_request None.

Lemma note_part_ok : request_ok note_part.
Proof. exists (put (descriptor_tokens note_descriptor)), (Some (uuid "f")). by vm_compute. Qed.
Lemma note_whole_ok : request_ok note_whole.
Proof. exists (put (descriptor_tokens note_descriptor)), None. by vm_compute. Qed.

Definition note_effect (receipt : string) (seq : Z) : OriginalEffect :=
  mkEffect receipt (uuid "a") 1 (uuid "2") 1 (uuid "3") (uuid "b") (uuid "4") seq (Capture.sha256_hex note).
Definition note_stored (receipt : string) (seq : Z) : Outcome :=
  OStored (mkStored (note_effect receipt seq) note_receipt (uuid "5")).
Definition note_context (lease : string) : NativeCommitContext :=
  mkContext lease (note_stored (uuid "6") 7) (note_effect (uuid "6") 7) (resource_identity note_part) (request_identity note_part)
    FencedNoCommit.

Definition note_cancellation : Cancellation :=
  mkCancellation Capture.VERSION "cancel_unpublished_capture" (uuid "a") (uuid "b")
    (ObjectReceipt.request_fingerprint note_receipt) 2 1.
Definition note_cancelled : CancelledResource :=
  mkCancelled "cancellation" (uuid "b") 2 1 (uuid "7") [uuid "f"] note_cancellation.
Definition note_key : ObjectKey := mkKey (uuid "f") (uuid "0") (uuid "1").
Definition note_cleaned : Outcome :=
  OCleaned (mkCleaned (note_effect (uuid "8") 9) (uuid "7") note_cancellation [note_key]).
Definition cleanup_lease : NativeCommitContext :=
  mkContext "cleanup" note_cleaned (note_effect (uuid "8") 9) (resource_identity note_whole) (request_identity note_whole)
    ExistingOrUnknown.

Lemma note_proposals_ok :
  outcome_ok (cx_proposal (note_context "lease")) = true ∧ outcome_ok (cx_proposal cleanup_lease) = true
  ∧ Z.of_nat (length (Publisher.str_bytes (outcome_to_string (cx_proposal (note_context "lease"))))) ≤ 8192.
Proof. split_and!; [by vm_compute|by vm_compute|]. by vm_compute. Qed.

Definition no_fault : nat → option bool := λ _, None.
End ParentExample.

Module ParentTheorems.
Import Adapter Native SqliteBackend ParentProps.

Section steps.
Context {lib : CaptureLib} {nj : NativeJson}.

(** One operation of the backend under any failures, or opening it again. *)
Inductive backend_step : Backend → Backend → Prop :=
  | step_stage fault e r b s : request_ok r → outcome_ok (cx_proposal e) = true →
      backend_step s (stage_context fault e r b s).2
  | step_observe fault e r s : backend_step s (observe_context fault e r s).2
  | step_read fault e r max s : backend_step s (read_context fault e r max s).2
  | step_tombstone fault e r keys c s : backend_step s (tombstone_context fault e r keys c s).2
  | step_cleanup fault e r keys c s : request_ok r → outcome_ok (cx_proposal e) = true →
      backend_step s (cleanup_context fault e r keys c s).2
  | step_reopen s : backend_step s (reopen s).

Definition created : Backend := mkBackend (mkTables [] [] [] []) None false 0.
Definition reachable (s : Backend) : Prop := rtc backend_step created s.
Definition at_rest (s : Backend) : Prop := saved s = None ∧ coherent (tables s).

Lemma step_at_rest s s' : backend_step s s' → at_rest s → at_rest s'.
Proof.
  intros [fault e r b s0 Hr Ho|fault e r s0|fault e r mx s0|fault e r k c s0|fault e r k c s0 Hr Ho|s0] [Hsv Hco]; unfold at_rest.
  - destruct (stage_context fault e r b s0) as [res s1] eqn:Hs. eapply stage_coherent in Hs; eauto.
  - destruct (reads_observe fault e r s0) as [-> ->]. done.
  - destruct (reads_read fault e r mx s0) as [-> ->]. done.
  - destruct (tombstone_context fault e r k c s0) as [res s1] eqn:Hs. apply tombstone_cases in Hs as (H1&H2&_); [|done].
    split; [done|]. simpl. destruct H2 as [->|H2]; [done|]. by eapply tombstoned_coherent.
  - destruct (cleanup_context fault e r k c s0) as [res s1] eqn:Hs. apply cleanup_cases in Hs as (H1&H2&_); done.
  - unfold reopen. simpl. by rewrite Hsv.
Qed.

Lemma steps_at_rest s s' : rtc backend_step s s' → at_rest s → at_rest s'.
Proof. induction 1; eauto using step_at_rest. Qed.

Lemma reachable_at_rest s : reachable s → at_rest s.
Proof. intros H. eapply steps_at_rest; [exact H|]. split; [done|apply coherent_empty]. Qed.

(** *** Which request a resource is of *)
Lemma capture_id_descriptor r : request_ok r → capture_id r = WireDescriptor.capture_id (descriptor r).
Proof.
  intros (b&part&Hp). unfold parse_request in Hp. case_bool_decide; [done|].
  destruct (Capture.parse b) as [d|] eqn:Hd; [|done]. simpl in Hp.
  assert (WireDescriptor.parts d ≠ []) as Hne.
  { unfold Capture.parse in Hd. destruct (descriptor_from_slice b) as [d'|]; [|done]. simpl in Hd.
    destruct (Capture.header_ok d') eqn:Hh; [|done]. destruct (Capture.parts_ok d'); [|done].
    destruct (Capture.distinct_ok d'); [|done]. simpl in Hd. case_bool_decide; [|done]. injection Hd as ->.
    unfold Capture.header_ok in Hh. rewrite !andb_true_iff in Hh. destruct Hh as [[_ Hh] _]. by apply bool_decide_eq_true in Hh. }
  assert (descriptor r = d ∧ expected r = Capture.expected_receipts d) as [Hdd He].
  { destruct part; [|by simplify_eq/=]. destruct (find _ _); [|done]. by simplify_eq/=. }
  unfold capture_id, first_expected. rewrite He, Hdd. unfold Capture.expected_receipts.
  by destruct (WireDescriptor.parts d).
Qed.

Lemma resource_identity_inj r r' :
  resource_identity r = resource_identity r' → request_identity r = request_identity r'.
Proof. unfold resource_identity, resource_json. intros H%json_print_inj. by simplify_eq/=. Qed.

Lemma request_identity_capture r r' :
  request_ok r → request_ok r' → request_identity r = request_identity r' → capture_id r = capture_id r'.
Proof.
  intros Hr Hr'. unfold request_identity, Capture.descriptor_identity. intros H%json_print_inj.
  rewrite !capture_id_descriptor by done. unfold Capture.descriptor_json in H. by injection H.
Qed.

(** The capture's row says which way an observation goes. *)
Lemma capture_not_cancelled fault r s v s' :
  NoDup (CaptureRow.id <$> captures (tables s)) → cancelled_in (tables s) (capture_id r) →
  capture fault r s = (Ok v, s') → ∃ text, v = Some (Some text).
Proof.
  intros Hnd Hc (_&_&Hv)%capture_ok. destruct v as [[text|]|]; [by eexists| |].
  - destruct Hv as (x&Hx&Hid&_&Hn). exfalso. rewrite <-Hid in Hc. by eapply not_cancelled.
  - destruct Hc as (x&Hx&Hid&_). exfalso. apply Hv. rewrite <-Hid. by apply list_elem_of_fmap_2.
Qed.

(** *** Observations of coherent tables *)
Lemma parse_outcome_to_string o o' :
  outcome_ok o = true → parse_outcome (Publisher.str_bytes (outcome_to_string o)) = Ok o' → o' = o.
Proof.
  intros Hok. unfold parse_outcome. case_bool_decide; [done|]. rewrite outcome_json_roundtrip by done. by intros [= <-].
Qed.

Lemma live_not_corrupt fault e r s res s' :
  resource_state (tables s) (resource_identity r) →
  (cleanup_key (resource_identity r) → journal_of (resource_identity r) (tables s) = []) →
  observe_live fault e r s = (res, s') → res ≠ Ok Corrupt.
Proof.
  intros Hst Hw Hl ->. apply st_bind_ok in Hl as (atts&s4&(->&Ht4&_)%select_ok&Hl).
  apply st_bind_ok in Hl as (rows&s5&(->&Ht5&_)%select_ok&Hl). apply st_bind_ok in Hl as (j&s6&(->&Ht6&_)%select_ok&Hl).
  rewrite Ht5, Ht4 in Hl. destruct Hst as [H1 H2 H3|a H1 H2 H3 H4 _|a x j st H1 H2 H3 H4 (Hox&Hok&_) H6 H7 H8 H9 _|j cl r' _ _ H3 H4 _ _ _ _ _ _].
  - rewrite H1, H2, H3 in Hl. simpl in Hl. by destruct (cx_disposition e).
  - rewrite H1, H3, H4 in Hl. simpl in Hl. by rewrite H2, bool_decide_true in Hl.
  - rewrite H1, H3, H4 in Hl. simpl in Hl. rewrite H2, bool_decide_false in Hl by done.
    unfold durable_rows in Hl. simpl in Hl. apply st_bind_ok in Hl as (o&s7&[Ho ->]%st_lift_ok&Hl).
    rewrite Hox in Ho. apply parse_outcome_to_string in Ho as ->; [|done].
    apply st_bind_ok in Hl as (y&s8&[_ ->]%st_lift_ok&Hl). destruct (_ || _); [done|].
    apply st_bind_ok in Hl as (p&s9&(->&_&_)%select_ok&Hl).
    assert (tables s6 = tables s) as Ht by congruence. rewrite Ht, H1 in Hl. simpl in Hl.
    rewrite H6, H7, H8, H9 in Hl. by rewrite !bool_decide_true in Hl.
  - by rewrite (Hw H4) in H3.
Qed.

Lemma cancelled_not_corrupt fault e r c s res s' :
  resource_state (tables s) (resource_identity r) → observe_cancelled fault e r c s = (res, s') → res ≠ Ok Corrupt.
Proof.
  intros Hst Hl ->. apply st_bind_ok in Hl as (rows&s4&(->&Ht4&_)%select_ok&Hl).
  assert (∀ j, journal_of (resource_identity r) (tables s) = [j] →
    (∃ cl, OwnerJournalRow.outcome j = outcome_to_string (OCleaned cl) ∧ outcome_ok (OCleaned cl) = true) ∨ ¬ cleanup_key (resource_identity r)) as Hj.
  { intros j Hj. destruct Hst as [| |a x j' st|j' cl r' _ _ Hj' _ Ho Hok];
      [congruence|congruence|by right|left; exists cl]. rewrite Hj in Hj'. by injection Hj' as ->. }
  destruct (journal_of (resource_identity r) (tables s)) as [|row [|row' rows]] eqn:Hrows; [done| |].
  - apply st_bind_ok in Hl as (o&s7&[Ho ->]%st_lift_ok&Hl). destruct o as [st|cl].
    + unfold accepts_operation in Hl. case_bool_decide as Hsel; [|done].
      destruct (Hj row eq_refl) as [(cl&Hcl&Hok)|Hn]; [|by apply Hn, whole_key].
      rewrite Hcl in Ho. by apply parse_outcome_to_string in Ho.
    + destruct (_ || _); [done|]. apply st_bind_ok in Hl as (?&?&_&Hl). by apply st_bind_ok in Hl as (?&?&_&Hl).
  - destruct Hst; congruence.
Qed.

Lemma observe_not_corrupt fault e r s res s' :
  request_ok r → at_rest s → observe_context fault e r s = (res, s') → res ≠ Ok Corrupt.
Proof.
  intros Hr [_ [Hst Hnd]] Hobs ->.
  apply st_bind_ok in Hobs as (?&s1&[_ ->]%st_lift_ok&Hobs). apply st_bind_ok in Hobs as (?&s2&[= _ <-]&Hobs).
  apply st_bind_ok in Hobs as (c&s3&Hc&Hobs). pose proof (capture_ok _ _ _ _ _ Hc) as (Ht3&_&_).
  assert (observe_live fault e r s3 = (Ok Corrupt, s') ∧ ¬ cancelled_in (tables s) (capture_id r)
          ∨ ∃ x, observe_cancelled fault e r x s3 = (Ok Corrupt, s')) as [[Hl Hn]|(c'&Hc')].
  { destruct c as [[c'|]|]; [by eauto| |]; left; split; try done; intros Hcan;
      eapply capture_not_cancelled in Hc as [? ?]; done. }
  - eapply live_not_corrupt in Hl; [done|by rewrite Ht3|]. rewrite Ht3. intros Hk.
    destruct (Hst (resource_identity r)) as [| | |j cl r' H1 H2 H3 _ H5 H6 H7 H8 H9 H10]; [done|done|done|].
    exfalso. apply Hn. by rewrite (request_identity_capture r r') by (done || by apply resource_identity_inj).
  - eapply cancelled_not_corrupt in Hc'; [done|by rewrite Ht3].
Qed.

(** *** What is there to stay *)
Lemma attempts_of_other r res t l (a : AttemptRow.t) :
  AttemptRow.resource a = resource_identity r → resource_identity r ≠ res → attempts t = l ++ [a] →
  attempts_of res t = select (λ x, bool_decide (AttemptRow.resource x = res)) l.
Proof.
  intros Ha Hne Ht. unfold attempts_of. rewrite Ht, select_app, select_cons, bool_decide_false by congruence. apply app_nil_r.
Qed.

Lemma stage_prepared e r b t t' res a :
  stage_effect e r b t t' → attempts_of res t = [a] → attempts_of res t' = [a].
Proof.
  assert (∀ t1, unseen_at r t → prepared_from e r t t1 → attempts_of res t = [a] →
    resource_identity r ≠ res ∧ attempts_of res t1 = [a]) as Hprep.
  { intros t1 (Hae&_) (_&_&Ha&_) Hat. assert (resource_identity r ≠ res) as Hne by (intros <-; congruence).
    split; [done|]. rewrite <-Hat. refine (attempts_of_other r res t1 (attempts t) _ _ Hne Ha). reflexivity. }
  intros [->|[(_&Hun&Hpf)|(Hun&t1&st&Hpf&_&_&_&(_&_&_&Hcm&_))]] Hat; [done|by eapply Hprep|].
  destruct (Hprep t1 Hun Hpf Hat) as [Hne Hat1]. unfold commit_attempt in Hcm. injection Hcm as Hcm. simpl in Hcm.
  unfold attempts_of in *. rewrite Hcm, <-Hat1. apply select_update_other. intros w _ Hw. rewrite !andb_true_iff in Hw.
  destruct Hw as [[Hw%bool_decide_eq_true _] _]. simpl. split; apply bool_decide_eq_false; congruence.
Qed.

(** An attempt that is prepared stays prepared. *)
Lemma step_prepared s s' res a :
  backend_step s s' → at_rest s → attempts_of res (tables s) = [a] → attempts_of res (tables s') = [a].
Proof.
  intros [fault e r b s0 Hr Ho|fault e r s0|fault e r mx s0|fault e r k c s0|fault e r k c s0 Hr Ho|s0] [Hsv Hco] Hat.
  - destruct (stage_context fault e r b s0) as [x s1] eqn:Hs. apply stage_cases in Hs as (_&Hs&_); [|done].
    by eapply stage_prepared.
  - by destruct (reads_observe fault e r s0) as [-> _].
  - by destruct (reads_read fault e r mx s0) as [-> _].
  - destruct (tombstone_context fault e r k c s0) as [x s1] eqn:Hs. apply tombstone_cases in Hs as (_&H2&_); [|done].
    simpl. destruct H2 as [->|(Ha&_)]; [done|]. unfold attempts_of in *. by rewrite Ha.
  - destruct (cleanup_context fault e r k c s0) as [x s1] eqn:Hs. apply cleanup_cases in Hs as (_&_&H2&_); [|done..].
    simpl. destruct H2 as [->|(_&Ha&_)]; [done|]. unfold attempts_of in *. by rewrite Ha.
  - unfold reopen. simpl. by rewrite Hsv.
Qed.

Lemma steps_prepared s s' res a :
  rtc backend_step s s' → at_rest s → attempts_of res (tables s) = [a] → attempts_of res (tables s') = [a].
Proof. induction 1; eauto using step_prepared, step_at_rest. Qed.

(** Durable means that the attempt is committed. *)
Lemma observe_durable_inv fault e r s s' o :
  observe_context fault e r s = (Ok (Durable tt o), s') →
  ¬ (∃ a, attempts_of (resource_identity r) (tables s) = [a] ∧ AttemptRow.state a = SPrepared)
  ∧ (∀ c, NoDup (CaptureRow.id <$> captures (tables s)) → cancelled_in (tables s) c → c ≠ capture_id r)
  ∧ objects_of (resource_identity r) (tables s) ≠ [].
Proof.
  intros Hobs. apply st_bind_ok in Hobs as (u1&s1&[_ ->]%st_lift_ok&Hobs). apply st_bind_ok in Hobs as (u2&s2&[= _ <-]&Hobs).
  apply st_bind_ok in Hobs as (c&s3&Hc&Hobs). pose proof (capture_ok _ _ _ _ _ Hc) as (Ht3&_&_).
  assert (∀ x, observe_cancelled fault e r x s3 ≠ (Ok (Durable tt o), s')) as Hno.
  { intros x Hx. apply st_bind_ok in Hx as (rows&s4&_&Hx). destruct rows as [|row [|]]; try done.
    apply st_bind_ok in Hx as (o'&s5&_&Hx). destruct o'; [by destruct (accepts_operation _ _)|].
    destruct (_ || _); [done|]. apply st_bind_ok in Hx as (?&?&_&Hx). by apply st_bind_ok in Hx as (?&?&_&?). }
  assert (observe_live fault e r s3 = (Ok (Durable tt o), s') ∧ ¬ ∃ x, c = Some (Some x)) as [Hl Hnc].
  { destruct c as [[x|]|]; [by apply Hno in Hobs| |]; (split; [done|]); by intros [? ?]. }
  split_and!.
  - intros (a&Ha&Hp). apply st_bind_ok in Hl as (atts&s4&(->&_&_)%select_ok&Hl).
    apply st_bind_ok in Hl as (rows&s5&_&Hl). apply st_bind_ok in Hl as (j&s6&_&Hl).
    rewrite Ht3, Ha in Hl. simpl in Hl. rewrite Hp, bool_decide_true in Hl by done. injection Hl as Hl _. by destruct (_ && _).
  - intros i Hnd Hcan ->. by eapply capture_not_cancelled in Hc.
  - intros Hnil. apply st_bind_ok in Hl as (atts&s4&(_&Ht4&_)%select_ok&Hl).
    apply st_bind_ok in Hl as (rows&s5&(->&_&_)%select_ok&Hl). apply st_bind_ok in Hl as (j&s6&_&Hl).
    rewrite Ht4, Ht3, Hnil in Hl. destruct (bool_decide (_ = [SPrepared])); [injection Hl as Hl _; by destruct (bool_decide _)|].
    destruct (_ || _); injection Hl as Hl _; [done|]. by destruct (cx_disposition e).
Qed.

Lemma stage_ok_observes fault e r b s o s' :
  stage_context fault e r b s = (Ok o, s') →
  ∃ s1, observe_context fault e r s = (Ok Unseen, s1) ∨ ∃ x, observe_context fault e r s = (Ok (Durable tt x), s1).
Proof.
  intros Hs. do 3 (apply st_bind_ok in Hs as (?&?&[_ ->]%st_lift_ok&Hs)). destruct (negb _); [done|].
  apply st_bind_ok in Hs as (ob&s1&Hobs&Hs). exists s1. destruct ob as [| |[]| | | |]; try done; eauto.
Qed.

(** While prepared, no stage of the part and no tombstone of the capture succeeds. *)
Lemma prepared_refuses fault e r b s a o s' :
  attempts_of (resource_identity r) (tables s) = [a] → AttemptRow.state a = SPrepared →
  stage_context fault e r b s ≠ (Ok o, s').
Proof.
  intros Ha Hp Hs. apply stage_ok_observes in Hs as (s1&[(_&Hn&_)%observe_unseen|(x&(Hn&_)%observe_durable_inv)]).
  - congruence.
  - by apply Hn; exists a.
Qed.

Lemma prepared_refuses_tombstone fault e r k c s res a s' :
  saved s = None → res ∈ part_resource_identities r → attempts_of res (tables s) = [a] → AttemptRow.state a = SPrepared →
  tombstone_context fault e r k c s ≠ (Ok tt, s').
Proof.
  intros Hsv Hin Ha Hp Hs. do 2 (apply st_bind_ok in Hs as (?&?&[_ ->]%st_lift_ok&Hs)). destruct (negb _); [done|].
  apply st_bind_ok in Hs as (?&?&[_ ->]%st_lift_ok&Hs).
  apply transaction_cases in Hs as (_&_&Hs); [|clear Hs|done].
  - destruct (Hs tt eq_refl) as (s1&s2&Ht&_&Hb&_). apply st_bind_ok in Hb as (n&s3&(_&Ht3&_)%select_ok&Hb).
    destruct (negb _); [done|]. apply st_bind_ok in Hb as (?&s4&[_ Hall]%all_committed_ok&_).
    rewrite Ht3, Ht in Hall. specialize (Hall res a Hin). rewrite Ha in Hall. by rewrite Hall in Hp by constructor.
  - apply inside_bind; [auto with inside|intros n]. destruct (negb _); [auto with inside|].
    do 3 (apply inside_bind; [auto with inside|intros ?]). destruct a2 as [[v|]|]; auto with inside. by destruct (decide _).
Qed.

(** A capture that is cancelled and erased stays so. *)
Definition gone (t : Tables) (id : string) : Prop := cancelled_in t id ∧ erased t id.

Lemma erased_objects t t' id : objects t' = objects t → erased t id → erased t' id.
Proof. unfold erased. by intros ->. Qed.

Lemma erased_fmap keys cap t t' id : objects t' = erase keys cap <$> objects t → erased t id → erased t' id.
Proof.
  intros Ho He x. rewrite Ho. intros (y&->&Hy)%list_elem_of_fmap. unfold erase. destruct (_ && _); [done|]. by apply He.
Qed.

Lemma stage_gone e r b t t' id :
  NoDup (CaptureRow.id <$> captures t) → stage_effect e r b t t' → gone t id → gone t' id.
Proof.
  intros Hnd Hs [Hc He]. assert (∀ t1, prepared_from e r t t1 → gone t1 id) as Hprep.
  { intros t1 (Hg&_&_&_&Ho&_). split; [by apply Hg|]. by apply (erased_objects t t1 id Ho). }
  destruct Hs as [->|[(_&_&Hpf)|(_&t1&st&Hpf&_&_&_&(Hcap&Ho&_&_&_&(y&Hy&Hyi&Hyn)))]]; [done|by apply Hprep|].
  destruct (Hprep t1 Hpf) as [Hc1 He1]. split; [by apply (grow_refl t1 t' Hcap)|].
  intros x. rewrite Ho. intros [Hx| ->%list_elem_of_singleton]%elem_of_app Hid; [by apply He1|].
  exfalso. simpl in Hid. subst id. destruct Hpf as (_&Hnd1&_). rewrite <-Hyi in Hc1. by eapply not_cancelled; [apply Hnd1| | |].
Qed.

Lemma step_gone s s' id : backend_step s s' → at_rest s → gone (tables s) id → gone (tables s') id.
Proof.
  intros [fault e r b s0 Hr Ho|fault e r s0|fault e r mx s0|fault e r k c s0|fault e r k c s0 Hr Ho|s0] [Hsv Hco] Hgone.
  - destruct (stage_context fault e r b s0) as [x s1] eqn:Hs. apply stage_cases in Hs as (_&Hs&_); [|done].
    eapply stage_gone; [apply Hco|done|done].
  - by destruct (reads_observe fault e r s0) as [-> _].
  - by destruct (reads_read fault e r mx s0) as [-> _].
  - destruct (tombstone_context fault e r k c s0) as [x s1] eqn:Hs. apply tombstone_cases in Hs as (_&H2&_); [|done].
    simpl. destruct H2 as [->|(_&Hob&_&Hg&_)]; [done|]. destruct Hgone as [Hc He].
    split; [by apply Hg|by apply (erased_objects _ _ _ Hob)].
  - destruct (cleanup_context fault e r k c s0) as [x s1] eqn:Hs. apply cleanup_cases in Hs as (_&_&H2&_); [|done..].
    simpl. destruct H2 as [->|(Hcap&_&Hob&_)]; [done|]. destruct Hgone as [Hc He].
    split; [by apply (grow_refl _ _ Hcap)|by eapply erased_fmap].
  - unfold reopen. simpl. by rewrite Hsv.
Qed.

Lemma steps_gone s s' id : rtc backend_step s s' → at_rest s → gone (tables s) id → gone (tables s') id.
Proof. induction 1; eauto using step_gone, step_at_rest. Qed.

(** A cancelled capture takes no more parts. *)
Lemma cancelled_refuses fault e r b s o s' :
  NoDup (CaptureRow.id <$> captures (tables s)) → cancelled_in (tables s) (capture_id r) →
  stage_context fault e r b s ≠ (Ok o, s').
Proof.
  intros Hnd Hc Hs. apply stage_ok_observes in Hs as (s1&[Hobs|(x&(_&Hn&_)%observe_durable_inv)]); [|by eapply Hn].
  apply st_bind_ok in Hobs as (u1&s2&[_ ->]%st_lift_ok&Hobs). apply st_bind_ok in Hobs as (u2&s3&[= _ <-]&Hobs).
  apply st_bind_ok in Hobs as (c&s3&Hcap&Hobs). eapply capture_not_cancelled in Hcap as [text ->]; [|done|done].
  apply st_bind_ok in Hobs as (rows&s4&_&Hobs). destruct rows as [|row [|]]; try done.
  apply st_bind_ok in Hobs as (o'&s5&_&Hobs). destruct o'; [by destruct (accepts_operation _ _)|].
  destruct (_ || _); [done|]. apply st_bind_ok in Hobs as (?&?&_&Hx). by apply st_bind_ok in Hx as (?&?&_&?).
Qed.

(** A cleanup that reports an outcome has erased, then or before. *)
Lemma cleanup_gone fault e r keys c s o s' :
  request_ok r → outcome_ok (cx_proposal e) = true → at_rest s →
  cleanup_context fault e r keys c s = (Ok (Some o), s') → gone (tables s') (capture_id r).
Proof.
  intros Hr Ho [Hsv Hco] Hs. pose proof Hs as Hs'.
  apply cleanup_cases in Hs as (_&Hco'&Hor&Hnew); try done.
  apply st_bind_ok in Hs' as (u&su&[_ ->]%st_lift_ok&Hs'). apply st_bind_ok in Hs' as (ks&sk&[Hks ->]%st_lift_ok&Hs').
  destruct (negb _); [done|]. apply st_bind_ok in Hs' as (u2&su2&[_ ->]%st_lift_ok&Hs').
  apply st_bind_ok in Hs' as (v&s1&Hcap&Hs'). case_bool_decide as Hv; [|done]. subst v.
  apply capture_ok in Hcap as (_&_&(y&Hy&Hid&_&Hcn)).
  assert (cancelled_in (tables s) (capture_id r)) as Hcan by (exists y; by rewrite Hcn).
  destruct (decide (journal_of (resource_identity r) (tables s) = [])) as [Hj|Hj].
  - destruct (Hnew o eq_refl Hj) as [(Hc&_&_&_&He) _]. split; [by apply (grow_refl _ _ Hc)|exact He].
  - assert (gone (tables s) (capture_id r)) as [Hg1 Hg2].
    { split; [done|]. destruct Hco as [Hst _]. apply cancelled_whole, whole_key in Hks.
      destruct (Hst (resource_identity r)) as [| |a x j st|j cl r' H1 H2 H3 _ H5 H6 H7 H8 H9 H10]; try done.
      by rewrite (request_identity_capture r r') by (done || by apply resource_identity_inj). }
    destruct Hor as [->|(Hc&_&Hob&_)]; [done|]. split; [by apply (grow_refl _ _ Hc)|by eapply erased_fmap].
Qed.

(** *** What was stored is there *)
Lemma read_verified fault e r max s b s' : read_context fault e r max s = (Ok b, s') → request_verify_body r b = Ok tt.
Proof.
  intros H. apply st_bind_ok in H as (u&s1&_&H). apply st_bind_ok in H as (o&s2&_&H). destruct o; try done.
  apply st_bind_ok in H as (n&s3&_&H). destruct (negb _); [done|]. apply st_bind_ok in H as (c&s4&_&H).
  destruct (negb _); [done|]. apply st_bind_ok in H as (rows&s5&_&H). apply st_bind_ok in H as (rc&s6&_&H).
  destruct rows as [|[[x b'] a] [|]]; try done. destruct (_ && _); [|done].
  apply st_bind_ok in H as (o&s7&_&H). apply st_bind_ok in H as (y&s8&_&H). destruct (bool_decide _); [|done].
  apply st_bind_ok in H as ([]&s9&[Hv ->]%st_lift_ok&H). by injection H as <- _.
Qed.

Lemma both_from_durable e r b t t' y :
  request_ok r → outcome_ok (cx_proposal e) = true → Z.of_nat (length (Publisher.str_bytes (outcome_to_string (cx_proposal e)))) ≤ 8192 →
  context_matches e r = Ok tt → outcome_receipt (cx_proposal e) r = Ok y → coherent t → both_from e r b t t' →
  ∃ st, cx_proposal e = OStored st ∧ durable_at e r t' st b.
Proof.
  intros Hr Hok Hlen Hcx Hrec Hco Hbf. pose proof (both_from_coherent e r b t t' Hr Hok Hco Hbf) as [Hst' _].
  destruct Hbf as (Hun&t1&st&Hpf&Hp&Hsel&Hvb&(Hc&Ho&_&_&Hon&_)). exists st. split; [done|]. rewrite Hp in *.
  set (x := ObjectRow.mk _ _ _ _ _) in Ho.
  assert (objects_of (resource_identity r) t' = [x]) as Hobj.
  { unfold objects_of in *. rewrite Ho, select_app, Hon, select_cons. simpl. by rewrite bool_decide_true. }
  destruct Hpf as (_&_&_&_&_&_&(z&Hz&Hzid&Hzd&Hzn)).
  unfold outcome_receipt in Hrec. destruct (_ && _) eqn:Hb; [|done]. unfold selected in Hrec. rewrite Hsel in Hrec. simpl in Hrec.
  rewrite decide_True in Hrec by done.
  split.
  - exists z. by rewrite Hc.
  - destruct (Hst' (resource_identity r)) as [_ Hn _|a _ _ Hn _ _|a x' j st' H1 H2 H3 H4 (K1&K0&_) H6 H7 H8 H9 _|j cl r' _ Hn _ _ _ _ _ _ _ _];
      [congruence|congruence| |congruence].
    assert (x' = x) as -> by congruence.
    assert (OStored st' = OStored st) as [= ->].
    { simpl in K1. assert (Some (OStored st') = Some (OStored st)) as [= ->]; [|done].
      rewrite <-(outcome_json_roundtrip (OStored st) Hok), <-(outcome_json_roundtrip (OStored st') K0). by rewrite K1. }
    exists a, x, j. done.
  - done.
  - unfold outcome_receipt. rewrite Hb. unfold selected. rewrite Hsel. simpl. by rewrite decide_True.
  - done.
  - split; [done|by eapply verify_body_ok].
  - split; [done|]. unfold context_matches in Hcx. destruct (_ && _) eqn:Hm; [|done]. rewrite !andb_true_iff in Hm.
    destruct Hm as [_ Hm%bool_decide_eq_true]. by rewrite Hp in Hm.
Qed.

Lemma stage_durable fault e r b s o s' :
  request_ok r → outcome_ok (cx_proposal e) = true →
  Z.of_nat (length (Publisher.str_bytes (outcome_to_string (cx_proposal e)))) ≤ 8192 → at_rest s →
  stage_context fault e r b s = (Ok (Some o), s') → ∀ f, (∀ n, f n = None) →
  ∃ size b' s1 s2, selected_size r = Ok size
    ∧ observe_context f e r (reopen s') = (Ok (Durable tt o), s1) ∧ read_context f e r size (reopen s') = (Ok b', s2)
    ∧ request_verify_body r b' = Ok tt ∧ (unseen_at r (tables s) → b' = b ∧ o = cx_proposal e).
Proof.
  intros Hr Hok Hlen [Hsv Hco] Hs f Hf. apply stage_cases in Hs as (Hsv'&_&Hs); [|done].
  assert (tables (reopen s') = tables s' ∧ uncertain (reopen s') = false) as [Ht Hu] by (unfold reopen; simpl; by rewrite Hsv').
  destruct (Hs o eq_refl) as [Hcx [(->&[y Hy]&Hbf)|(Htt&s0&size&b'&Hobs&Hsz&Hrd)]].
  - destruct (both_from_durable e r b (tables s) (tables s') y) as (st&Hp&Hda); try done.
    pose proof (both_from_coherent e r b _ _ Hr Hok Hco Hbf) as [_ Hnd].
    destruct (observe_durable f Hf e r _ st b Hnd Hda (reopen s') Ht Hu) as (s1&H1&_).
    destruct (read_durable f Hf e r _ st b Hnd Hda (reopen s') Ht Hu) as (s2&H2&_).
    exists (ObjectReceipt.size_bytes (object_receipt st)), b, s1, s2. rewrite Hp.
    destruct Hda as [_ _ _ _ Hsel [Hvb _] _]. split_and!; try done. unfold selected_size, selected. by rewrite Hsel.
  - pose proof (observe_durable_inv _ _ _ _ _ _ Hobs) as (_&_&Hne). pose proof (reads_observe fault e r s) as [Ht0 _].
    rewrite Hobs in Ht0. simpl in Ht0.
    destruct (replays_observe e r _ _ _ _ Hobs f (reopen s') Hf) as (s1&H1&_); [congruence|done|].
    destruct (replays_read e r size _ _ _ _ Hrd f (reopen s') Hf) as (s2&H2&_); [congruence|done|].
    exists size, b', s1, s2. split; [done|]. split; [done|]. split; [done|]. split; [by eapply read_verified|].
    by intros (_&?&_).
Qed.

(** *** Forward: a stage of a part not seen before *)
Section fresh.
Context (f : nat → option bool) (Hf : ∀ n, f n = None).

Definition runs {A} (m : pm Backend A) (t : Tables) (res : result A Refusal) (t' : Tables) : Prop :=
  ∀ s, tables s = t → uncertain s = false → ∃ s1, m s = (res, s1) ∧ tables s1 = t' ∧ uncertain s1 = false.

Lemma runs_bind {A B} (m : pm Backend A) (k : A → pm Backend B) t t1 a res t2 :
  runs m t (Ok a) t1 → runs (k a) t1 res t2 → runs (st_bind m k) t res t2.
Proof.
  intros Hm Hk s Ht Hu. destruct (Hm s Ht Hu) as (s1&H1&Ht1&Hu1). destruct (Hk s1 Ht1 Hu1) as (s2&H2&H3).
  exists s2. split; [|done]. unfold st_bind. by rewrite H1.
Qed.
Lemma runs_query {A} (m : sql A) t a t' : m t = Some (a, t') → runs (query f m) t (Ok a) t'.
Proof. intros Hm s Ht Hu. unfold query. rewrite Hu, Hf, Ht, Hm. by eexists. Qed.
Lemma runs_select {A} (g : Tables → A) t : runs (query f (select_rows g)) t (Ok (g t)) t.
Proof. by apply runs_query. Qed.
Lemma runs_lift {A} (x : result A Refusal) t : runs (st_lift x) t x t.
Proof. intros s Ht Hu. by exists s. Qed.
Lemma runs_err {A} x t : runs (A:=A) (st_err x) t (Err x) t.
Proof. intros s Ht Hu. by exists s. Qed.

(** A transaction that fails leaves what it found. *)
Lemma runs_transaction {A} (action : pm Backend A) t res t' :
  inside action → runs action t res t' →
  runs (transaction f action) t res (match res with Ok _ => t' | Err _ => t end).
Proof.
  intros Hin Ha s Ht Hu. unfold transaction, begin, st_bind, ready. rewrite Hu. unfold query. rewrite Hu, Hf. simpl.
  set (s0 := mkBackend _ _ _ _). destruct (Ha s0) as (s1&H1&Ht1&Hu1); [done|done|].
  specialize (Hin s0). rewrite H1 in Hin. simpl in Hin. rewrite H1. destruct res as [a|x].
  - unfold commit_tx. rewrite Hu1, Hf. by eexists.
  - rewrite Hf. unfold roll_back. simpl. rewrite Hin. by eexists.
Qed.

(** The context and the tables of a part not seen before. *)
Record fresh_at (e : NativeCommitContext) (r : Request) (b : bytes) (t : Tables) : Prop := {
  fr_context : context_matches e r = Ok tt;
  fr_body : request_verify_body r b = Ok tt;
  fr_receipt : ∃ y, outcome_receipt (cx_proposal e) r = Ok y;
  fr_fenced : cx_disposition e = FencedNoCommit;
  fr_unseen : unseen_at r t;
  fr_capture : capture_id r ∉ CaptureRow.id <$> captures t
    ∨ ∃ y, y ∈ captures t ∧ CaptureRow.id y = capture_id r ∧ CaptureRow.descriptor y = request_identity r ∧ CaptureRow.cancelled y = None;
  fr_lease : cx_lease e ∉ AttemptRow.lease <$> attempts t;
  fr_journal : ∀ j, j ∈ owner_journal t → OwnerJournalRow.owner_receipt j ≠ outcome_owner_receipt (cx_proposal e)
    ∧ OwnerJournalRow.lease j ≠ cx_lease e ∧ OwnerJournalRow.sequence j ≠ counter_to_str (local_sequence (cx_proposal e))
}.

Lemma runs_capture_absent r t : capture_id r ∉ CaptureRow.id <$> captures t → runs (capture f r) t (Ok None) t.
Proof.
  intros Hn. eapply runs_bind; [apply runs_select|]. rewrite (proj2 (select_nil _ _)); [apply (runs_lift (Ok None))|].
  intros x Hx. apply bool_decide_eq_false. intros Hid. apply Hn. rewrite <-Hid. by apply list_elem_of_fmap_2.
Qed.

Lemma runs_unseen e r b t :
  NoDup (CaptureRow.id <$> captures t) → fresh_at e r b t → runs (observe_context f e r) t (Ok Unseen) t.
Proof.
  intros Hnd [Hcx _ _ Hfe (Ha&Ho&Hj) Hcap _ _]. eapply runs_bind; [rewrite Hcx; apply runs_lift|].
  eapply runs_bind; [apply (answers_ready t)|].
  assert (runs (observe_live f e r) t (Ok Unseen) t) as Hl.
  { do 3 (eapply runs_bind; [apply runs_select|]). rewrite Ha, Ho, Hj, Hfe. simpl. apply (runs_lift (Ok Unseen)). }
  destruct Hcap as [Hn|(y&Hy&Hid&Hd&Hnn)].
  - eapply runs_bind; [by apply runs_capture_absent|]. exact Hl.
  - eapply runs_bind; [by apply (answers_capture f Hf r t y)|]. rewrite Hnn. exact Hl.
Qed.

Lemma existsb_none {A} (p : A → bool) l : (∀ x, x ∈ l → p x = false) → existsb p l = false.
Proof. induction l as [|x l IH]; [done|]. intros H. simpl. rewrite H by constructor. apply IH. intros y Hy. apply H. by constructor. Qed.

Lemma runs_prepare e r b t :
  NoDup (CaptureRow.id <$> captures t) → fresh_at e r b t →
  ∃ t1, runs (prepare_attempt f e r) t (Ok tt) t1 ∧ owner_journal t1 = owner_journal t ∧ objects t1 = objects t
    ∧ NoDup (CaptureRow.id <$> captures t1)
    ∧ attempts t1 = attempts t ++ [AttemptRow.mk (resource_identity r) (cx_lease e) (outcome_to_string (cx_proposal e)) SPrepared]
    ∧ ∃ y, y ∈ captures t1 ∧ CaptureRow.id y = capture_id r ∧ CaptureRow.descriptor y = request_identity r ∧ CaptureRow.cancelled y = None.
Proof.
  intros Hnd [_ _ _ _ (Ha&Ho&Hj) Hcap Hl _].
  assert (∃ t0, insert_capture (capture_id r) (request_identity r) None t = Some (tt, t0)) as [t0 Hi] by by eexists.
  pose proof (insert_capture_ok _ _ _ _ _ Hi) as (Ha0&Ho0&Hj0&_&Hnd0). specialize (Hnd0 Hnd).
  assert (∃ y, y ∈ captures t0 ∧ CaptureRow.id y = capture_id r ∧ CaptureRow.descriptor y = request_identity r
    ∧ CaptureRow.cancelled y = None) as (y&Hy&Hid&Hd&Hn).
  { unfold insert_capture in Hi. injection Hi as <-. destruct Hcap as [Hn|(y&Hy&Hid&Hd&Hn)].
    - rewrite existsb_none. { eexists. split; [simpl; apply elem_of_app; right; by constructor|done]. }
      intros x Hx. apply bool_decide_eq_false. intros Hid. apply Hn. rewrite <-Hid. by apply list_elem_of_fmap_2.
    - destruct (existsb _ _); exists y; [done|]. split; [simpl; set_solver|done]. }
  exists (in_attempts (λ l, l ++ [AttemptRow.mk (resource_identity r) (cx_lease e) (outcome_to_string (cx_proposal e)) SPrepared]) t0).
  split_and!; simpl; try done; [|by rewrite Ha0|by exists y].
  apply (runs_transaction _ t (Ok tt)).
  - apply inside_bind; [auto with inside|intros _]. apply inside_bind; [auto with inside|intros c]. destruct (bool_decide _); auto with inside.
  - eapply runs_bind; [by apply runs_query|]. eapply runs_bind; [by apply (answers_capture f Hf r t0 y)|].
    rewrite Hn, bool_decide_true by done. apply runs_query. unfold insert_attempt. rewrite existsb_none; [done|].
    rewrite Ha0. intros a Hin. apply orb_false_iff. split; apply bool_decide_eq_false; intros He.
    + unfold attempts_of in Ha. eapply select_nil in Ha; [|exact Hin]. by apply bool_decide_eq_false in Ha.
    + apply Hl. rewrite <-He. by apply list_elem_of_fmap_2.
Qed.

Lemma runs_commit e r b rc t t1 y :
  fresh_at e r b t → owner_journal t1 = owner_journal t → objects t1 = objects t → NoDup (CaptureRow.id <$> captures t1) →
  y ∈ captures t1 → CaptureRow.id y = capture_id r → CaptureRow.descriptor y = request_identity r → CaptureRow.cancelled y = None →
  ∃ t2, runs (commit_object f e r rc b) t1
    (if bool_decide (128 ≤ length (owner_journal t))%nat then Err Backpressure else Ok tt)
    (if bool_decide (128 ≤ length (owner_journal t))%nat then t1 else t2).
Proof.
  intros [_ _ _ _ (_&Ho&_) _ _ Hjf] Hj1 Ho1 Hnd Hy Hid Hd Hn.
  assert (∃ to, insert_object (resource_identity r) (capture_id r) rc b (outcome_to_string (cx_proposal e)) t1 = Some (tt, to)
    ∧ owner_journal to = owner_journal t) as (to&Hi&Hjo).
  { unfold insert_object. rewrite existsb_none.
    - assert (existsb (λ x, bool_decide (CaptureRow.id x = capture_id r)) (captures t1) = true) as ->.
      { apply existsb_exists. exists y. rewrite <-list_elem_of_In. split; [done|by apply bool_decide_eq_true]. }
      by eexists.
    - rewrite Ho1. intros x Hx. unfold objects_of in Ho. by eapply select_nil in Ho. }
  set (tj := in_journal (λ l, l ++ [OwnerJournalRow.mk (outcome_owner_receipt (cx_proposal e)) (cx_lease e)
    (counter_to_str (local_sequence (cx_proposal e))) (resource_identity r) (outcome_to_string (cx_proposal e))]) to).
  assert (runs (journal f e r) to (if bool_decide (128 ≤ length (owner_journal t))%nat then Err Backpressure else Ok tt)
    (if bool_decide (128 ≤ length (owner_journal t))%nat then to else tj)) as Hjr.
  { eapply runs_bind; [apply runs_select|]. rewrite Hjo. destruct (bool_decide _); [apply runs_err|].
    apply runs_query. unfold insert_journal. rewrite existsb_none; [done|]. rewrite Hjo. intros j Hin.
    destruct (Hjf j Hin) as (H1&H2&H3). by rewrite !bool_decide_false by done. }
  eexists. unfold commit_object.
  match goal with |- runs (transaction f ?act) _ _ _ => assert (inside act) as Hin end.
  { apply inside_bind; [auto with inside|intros c]. destruct (bool_decide (c = _)); auto 6 with inside. }
  destruct (bool_decide (128 ≤ _)%nat).
  - refine (runs_transaction _ t1 (Err Backpressure) to Hin _). eapply runs_bind; [by apply (answers_capture f Hf r t1 y)|].
    rewrite Hn, bool_decide_true by done. eapply runs_bind; [by apply runs_query|]. intros s Ht Hu.
    destruct (Hjr s Ht Hu) as (s1&H1&H2&H3). exists s1. unfold st_bind. by rewrite H1.
  - refine (runs_transaction _ t1 (Ok tt) _ Hin _). eapply runs_bind; [by apply (answers_capture f Hf r t1 y)|].
    rewrite Hn, bool_decide_true by done. eapply runs_bind; [by apply runs_query|]. eapply runs_bind; [exact Hjr|].
    by apply runs_query.
Qed.

(** With room in the journal the stage reports its proposal; without, it
    refuses and the attempt is left prepared. *)
Lemma runs_stage e r b t :
  coherent t → fresh_at e r b t →
  ∃ t', runs (stage_context f e r b) t
    (if bool_decide (128 ≤ length (owner_journal t))%nat then Err Backpressure else Ok (Some (cx_proposal e))) t'
  ∧ ((128 ≤ length (owner_journal t))%nat → attempts_of (resource_identity r) t'
       = [AttemptRow.mk (resource_identity r) (cx_lease e) (outcome_to_string (cx_proposal e)) SPrepared]).
Proof.
  intros [_ Hnd] Hfr. destruct (runs_prepare e r b t Hnd Hfr) as (t1&Hprep&Hj1&Ho1&Hnd1&Ha1&y&Hy&Hid&Hd&Hn).
  pose proof Hfr as [Hcx Hvb [rc Hrc] _ (Hae&_) _ _ _]. pose proof (receipt_selected _ _ _ Hrc) as (st&x&Hp&Hsel&Hx).
  destruct (runs_commit e r b (receipt_to_vec x) t t1 y) as [t2 Hcom]; try done.
  exists (if bool_decide (128 ≤ length (owner_journal t))%nat then t1 else t2). split.
  - unfold stage_context. rewrite Hcx, Hvb, Hrc. do 3 (eapply runs_bind; [apply runs_lift|]). rewrite Hp. cbn [matches_operation negb].
    eapply runs_bind; [by apply (runs_unseen e r b)|]. cbv iota. eapply runs_bind; [exact Hprep|].
    eapply runs_bind; [unfold selected_receipt_json, selected; rewrite Hsel; apply runs_lift|].
    intros s Ht Hu. destruct (Hcom s Ht Hu) as (s1&H1&H2&H3). exists s1. unfold or_unknown. rewrite H1, <-Hp.
    by destruct (bool_decide _).
  - intros Hle. rewrite bool_decide_true by done. unfold attempts_of in *. rewrite Ha1, select_app, Hae, select_cons. simpl.
    by rewrite bool_decide_true.
Qed.
End fresh.

(** ** Claims *)

(** C13: whatever is staged, read, tombstoned and cleaned, whichever statements
    and commits fail, and however often the backend is opened again: the four
    tables agree on every resource (unseen, prepared, stored in all of them, or
    cleaned), and no observation answers corrupt. *)
Theorem backend_never_split s :
  reachable s →
  coherent (tables s) ∧ ∀ fault e r, request_ok r → (observe_context fault e r s).1 ≠ Ok Corrupt.
Proof.
  intros Hs%reachable_at_rest. split; [apply Hs|]. intros fault e r Hr.
  destruct (observe_context fault e r s) as [res s'] eqn:Hobs. by eapply observe_not_corrupt.
Qed.

(** A stage of a part not seen before stores it when nothing fails and the
    journal has room; and whatever failed around it, an outcome that a stage
    reported is observed after the backend is opened again, with bytes of the
    expected length and digest, the ones given when the part was new. *)
Theorem stage_readback s e r b :
  reachable s → request_ok r → outcome_ok (cx_proposal e) = true →
  Z.of_nat (length (Publisher.str_bytes (outcome_to_string (cx_proposal e)))) ≤ 8192 →
  (∀ f, (∀ n, f n = None) → uncertain s = false → fresh_at e r b (tables s) → (length (owner_journal (tables s)) < 128)%nat →
     ∃ s', stage_context f e r b s = (Ok (Some (cx_proposal e)), s'))
  ∧ ∀ fault o s', stage_context fault e r b s = (Ok (Some o), s') → ∀ f, (∀ n, f n = None) →
     ∃ size b' s1 s2, selected_size r = Ok size
       ∧ observe_context f e r (reopen s') = (Ok (Durable tt o), s1) ∧ read_context f e r size (reopen s') = (Ok b', s2)
       ∧ request_verify_body r b' = Ok tt ∧ (unseen_at r (tables s) → b' = b ∧ o = cx_proposal e).
Proof.
  intros Hs%reachable_at_rest Hr Hok Hlen. split.
  - intros f Hf Hu Hfr Hj. destruct (runs_stage f Hf e r b (tables s)) as (t'&Hrun&_); [apply Hs|done|].
    destruct (Hrun s eq_refl Hu) as (s'&H1&_). exists s'. by rewrite bool_decide_false in H1 by lia.
  - intros fault o s' Hst f Hf. by eapply stage_durable.
Qed.

(** After a cleanup reported an outcome, no row holds a body of the capture,
    and whatever happens later none will: no stage of any of its parts succeeds. *)
Theorem cleanup_erases fault s e r keys c o s' :
  reachable s → request_ok r → outcome_ok (cx_proposal e) = true →
  cleanup_context fault e r keys c s = (Ok (Some o), s') →
  ∀ s'', rtc backend_step s' s'' →
    (∀ x, x ∈ objects (tables s'') → ObjectRow.capture x = capture_id r → ObjectRow.body x = None)
    ∧ ∀ fault2 e2 r2 b, capture_id r2 = capture_id r → ∃ x, (stage_context fault2 e2 r2 b s'').1 = Err x.
Proof.
  intros Hs%reachable_at_rest Hr Hok Hc s'' Hsteps.
  pose proof (step_at_rest _ _ (step_cleanup fault e r keys c s Hr Hok) Hs) as Hs'. rewrite Hc in Hs'. simpl in Hs'.
  apply cleanup_gone in Hc; [|done..]. destruct (steps_gone _ _ _ Hsteps Hs' Hc) as [Hcan He].
  pose proof (steps_at_rest _ _ Hsteps Hs') as [_ [_ Hnd]]. split; [exact He|]. intros fault2 e2 r2 b Hid.
  destruct (stage_context fault2 e2 r2 b s'') as [[v|x] s3] eqn:Hst; [|by exists x].
  eapply cancelled_refuses in Hst; [done|done|by rewrite Hid].
Qed.

(** The attempt of a part is prepared. *)
Definition is_prepared (r : Request) (t : Tables) : Prop :=
  ∃ a, attempts_of (resource_identity r) t = [a] ∧ AttemptRow.state a = SPrepared.

(** An attempt that is prepared stays prepared through everything that
    follows, reopening included: no later stage of the part and no tombstone of
    its capture succeeds. A journal of 128 outcomes has this effect: a stage of
    a new part then answers backpressure, as if it could be tried later, and
    leaves the attempt prepared. *)
Theorem prepared_wedges s e r b :
  reachable s → fresh_at e r b (tables s) → request_ok r → outcome_ok (cx_proposal e) = true →
  (∀ f, (∀ n, f n = None) → uncertain s = false → (128 ≤ length (owner_journal (tables s)))%nat →
     ∃ s', stage_context f e r b s = (Err Backpressure, s') ∧ is_prepared r (tables s'))
  ∧ ∀ s1 s2, rtc backend_step s s1 → is_prepared r (tables s1) → rtc backend_step s1 s2 →
      is_prepared r (tables s2)
      ∧ (∀ fault2 e2 b2, ∃ x, (stage_context fault2 e2 r b2 s2).1 = Err x)
      ∧ ∀ fault2 e2 r2 k c, resource_identity r ∈ part_resource_identities r2 →
          ∃ x, (tombstone_context fault2 e2 r2 k c s2).1 = Err x.
Proof.
  intros Hs%reachable_at_rest Hfr Hr Hok. split.
  - intros f Hf Hu Hj. destruct (runs_stage f Hf e r b (tables s)) as (t'&Hrun&Hat); [apply Hs|done|].
    destruct (Hrun s eq_refl Hu) as (s'&H1&Ht'&_). rewrite bool_decide_true in H1 by done.
    exists s'. split; [done|]. rewrite Ht'. eexists. split; [by apply Hat|done].
  - intros s1 s2 H1 (a&Hat&Hp) H2. pose proof (steps_at_rest _ _ H1 Hs) as Hs1.
    pose proof (steps_at_rest _ _ H2 Hs1) as [Hsv _]. pose proof (steps_prepared _ _ _ _ H2 Hs1 Hat) as Hat2.
    split; [by exists a|]. split.
    + intros fault2 e2 b2. destruct (stage_context fault2 e2 r b2 s2) as [[v|x] s3] eqn:Hst; [|by exists x].
      by eapply prepared_refuses in Hst.
    + intros fault2 e2 r2 k c Hin. destruct (tombstone_context fault2 e2 r2 k c s2) as [[[]|x] s3] eqn:Hst; [|by exists x].
      by eapply prepared_refuses_tombstone in Hst.
Qed.
End steps.
(** ** Witnesses *)
Import ParentExample.
Abbreviation stage_note fault := (stage_context fault (note_context "lease") note_part note).

Lemma fresh_note : fresh_at (note_context "lease") note_part note (tables created).
Proof.
  split; [by vm_compute|by vm_compute|eexists; by vm_compute|done|done| | |].
  - left. apply not_elem_of_nil.
  - apply not_elem_of_nil.
  - intros j []%not_elem_of_nil.
Qed.

Lemma note_size : selected_size note_part = Ok 5.
Proof. by vm_compute. Qed.

Definition staged_note : Backend := (stage_note no_fault created).2.
Lemma staged_note_reachable : reachable staged_note.
Proof. apply rtc_once. apply step_stage; [apply note_part_ok|apply note_proposals_ok]. Qed.

Lemma backend_never_split_witness :
  coherent (tables staged_note) ∧ (observe_context no_fault (note_context "lease") note_part staged_note).1 ≠ Ok Corrupt.
Proof.
  destruct (backend_never_split staged_note staged_note_reachable) as [H1 H2]. split; [exact H1|]. apply H2, note_part_ok.
Defined.

Lemma stage_readback_witness :
  ∃ s' s2, stage_note no_fault created = (Ok (Some (note_stored (uuid "6") 7)), s')
    ∧ read_context no_fault (note_context "lease") note_part 5 (reopen s') = (Ok note, s2).
Proof.
  destruct (stage_readback created (note_context "lease") note_part note) as [H1 H2];
    [apply rtc_refl|apply note_part_ok|apply note_proposals_ok|apply note_proposals_ok|].
  destruct (H1 no_fault) as [s' Hs]; [done|done|apply fresh_note|simpl; lia|].
  destruct (H2 _ _ _ Hs no_fault) as (size&b'&s1&s2&Hsz&_&Hrd&_&Hnew); [done|].
  exists s', s2. split; [exact Hs|]. destruct Hnew as [-> _]; [apply (fr_unseen _ _ _ _ fresh_note)|].
  rewrite note_size in Hsz. injection Hsz as <-. exact Hrd.
Defined.

Definition tombstoned_note : Backend := (tombstone_context no_fault cleanup_lease note_whole [note_key] note_cancelled staged_note).2.
Definition cleaned_note : Backend := (cleanup_context no_fault cleanup_lease note_whole [note_key] note_cancelled tombstoned_note).2.

Lemma tombstoned_note_reachable : reachable tombstoned_note.
Proof. eapply rtc_r; [apply staged_note_reachable|apply step_tombstone]. Qed.

Lemma cleanup_erases_witness :
  (∃ x, x ∈ objects (tables cleaned_note)) ∧ ∀ x, x ∈ objects (tables cleaned_note) →
    ObjectRow.capture x = capture_id note_whole → ObjectRow.body x = None.
Proof.
  split; [eexists; vm_compute; by constructor|].
  apply (cleanup_erases no_fault tombstoned_note cleanup_lease note_whole [note_key] note_cancelled note_cleaned cleaned_note);
    [apply tombstoned_note_reachable|apply note_whole_ok|apply note_proposals_ok|by vm_compute|apply rtc_refl].
Defined.

(** The first statement of the second transaction fails, and the backend is
    opened again. *)
Definition crashed_note : Backend := (stage_note (λ n, if decide (n = 12%nat) then Some false else None) created).2.

Lemma prepared_wedges_witness :
  is_prepared note_part (tables crashed_note) ∧ ∃ x, (stage_note no_fault (reopen crashed_note)).1 = Err x.
Proof.
  assert (is_prepared note_part (tables crashed_note)) as Hp by (eexists; split; by vm_compute).
  split; [exact Hp|].
  destruct (prepared_wedges created (note_context "lease") note_part note) as [_ H];
    [apply rtc_refl|apply fresh_note|apply note_part_ok|apply note_proposals_ok|].
  destruct (H crashed_note (reopen crashed_note)) as (_&H1&_); [|exact Hp|apply rtc_once, step_reopen|].
  - apply rtc_once. apply step_stage; [apply note_part_ok|apply note_proposals_ok].
  - apply H1.
Defined.
End ParentTheorems.
