(* ===== verification/ParentService.v ===== *)
(** * Claims: the parent over the control plane and the backend

    The whole composition of personal storage: [Parent] over [NativeAuthority]
    and [NativeStorage], the storage over the SQLite backend. The control plane
    is a parameter; the class says that its scopes run the action they are given
    and that it does not write to the backend. *)

From stdpp Require Import prelude gmap strings pretty.
From Stdlib Require Import ZArith Lia Strings.Byte Strings.Ascii.
From S2P Require Import Prelude Text BlobStore Publisher Sql Capture Parent ParentBackend ParentProps ParentTheorems.

#[local] Open Scope Z_scope.

Module ParentService.
Import Adapter Native NativeAuthority SqliteBackend ParentProps ParentTheorems.

(** A control plane whose effect leases are the backend's contexts. *)
Record ControlOps (CW : Type) := {
  co_StartupLease : Type;
  co_with_startup : ∀ {T}, DeploymentBinding → ProtectedConfigReferences →
    (co_StartupLease → DeploymentBinding → pm (World CW) T) → pm (World CW) T;
  co_with_effect : ∀ {T}, co_StartupLease → Request → Operation →
    (NativeCommitContext → LeaseBinding → pm (World CW) T) → pm (World CW) T;
  co_cancelled_resource : NativeCommitContext → Request → pm (World CW) bytes;
  co_durable_binding : NativeCommitContext → Request → Outcome → pm (World CW) DurableBinding;
  co_cleaned_binding : NativeCommitContext → Request → Outcome → pm (World CW) OriginalEffect;
  co_register : NativeCommitContext → Request → Outcome → pm (World CW) unit
}.
Arguments co_StartupLease {CW} _.
Arguments co_with_startup {CW} _ {T}.
Arguments co_with_effect {CW} _ {T}.
Arguments co_cancelled_resource {CW} _.
Arguments co_durable_binding {CW} _.
Arguments co_cleaned_binding {CW} _.
Arguments co_register {CW} _.

Section service.
Context {lib : CaptureLib} {nj : NativeJson} {CW : Type} (ops : ControlOps CW) (fault : nat → option bool).

#[local] Instance control : Control (World CW) := {|
  StartupLease := co_StartupLease ops; EffectLease := NativeCommitContext;
  ctl_with_startup := @co_with_startup _ ops; ctl_with_effect := @co_with_effect _ ops;
  ctl_cancelled_resource := co_cancelled_resource ops; ctl_durable_binding := co_durable_binding ops;
  ctl_cleaned_binding := co_cleaned_binding ops; ctl_register_original_outcome := co_register ops
|}.

(** A computation that leaves the backend alone. *)
Definition aside {A} (m : pm (World CW) A) : Prop := ∀ w, store (m w).2 = store w.

Class ControlLaws := {
  startup_scoped {T} d refs (act : co_StartupLease ops → DeploymentBinding → pm (World CW) T) w v w' :
    co_with_startup ops d refs act w = (Ok v, w') →
    ∃ l obs w1 w2, store w1 = store w ∧ act l obs w1 = (Ok v, w2) ∧ store w' = store w2;
  effect_scoped {T} l r op (act : NativeCommitContext → LeaseBinding → pm (World CW) T) w v w' :
    co_with_effect ops l r op act w = (Ok v, w') →
    ∃ e b w1 w2, outcome_ok (cx_proposal e) = true
      ∧ Z.of_nat (length (Publisher.str_bytes (outcome_to_string (cx_proposal e)))) ≤ 8192
      ∧ store w1 = store w ∧ act e b w1 = (Ok v, w2) ∧ store w' = store w2;
  cancelled_aside e r : aside (co_cancelled_resource ops e r);
  durable_aside e r o : aside (co_durable_binding ops e r o);
  cleaned_aside e r o : aside (co_cleaned_binding ops e r o);
  register_aside e r o : aside (co_register ops e r o)
}.
Context {laws : ControlLaws}.

#[local] Instance backend : NativeBackend (World CW) (NativeAuthority.Effect (EffectLease (W:=World CW))) := SqliteNativeBackend fault CW.
#[local] Instance authority : Authority (World CW) := NativeAuthority.
#[local] Instance storage : Storage (World CW) := NativeStorage.

(** ** Quiet parts *)
Lemma aside_ok {A} (m : pm (World CW) A) w a w' : aside m → m w = (Ok a, w') → store w' = store w.
Proof. intros H Hm. specialize (H w). by rewrite Hm in H. Qed.

Lemma aside_lift {A} (x : result A Refusal) : aside (st_lift x).
Proof. done. Qed.
Lemma aside_err {A} x : aside (A:=A) (st_err x).
Proof. done. Qed.
Lemma aside_ret {A} (a : A) : aside (st_ret a).
Proof. done. Qed.
Lemma aside_bind {A B} (m : pm (World CW) A) (k : A → pm (World CW) B) : aside m → (∀ a, aside (k a)) → aside (st_bind m k).
Proof. intros Hm Hk w. unfold st_bind. specialize (Hm w). destruct (m w) as [[a|x] w1]; simpl in *; [|done]. by rewrite Hk. Qed.
#[local] Hint Resolve aside_lift aside_err aside_ret aside_bind durable_aside cleaned_aside cancelled_aside register_aside : inside.

Lemma verify_durable_aside e r x o : aside (na_verify_durable e r x o).
Proof.
  unfold na_verify_durable. destruct (ef_operation e); auto with inside;
    do 3 (apply aside_bind; [simpl; auto with inside|intros ?]); destruct (_ && _); auto with inside.
Qed.
Lemma register_outcome_aside e r o : aside (na_register_outcome e r o).
Proof. apply aside_bind; [auto with inside|intros _]. destruct (matches_operation _ _); simpl; auto with inside. Qed.
Lemma verify_cleaned_aside e r c o : aside (na_verify_cleaned e r c o).
Proof. do 3 (apply aside_bind; [simpl; auto with inside|intros ?]). destruct (matches_original_effect _ _); auto with inside. Qed.
Lemma na_cancelled_aside e r : aside (na_cancelled e r).
Proof. do 2 (apply aside_bind; [simpl; auto with inside|intros ?]). auto with inside. Qed.

Lemma on_store_ok {A} (m : pm Backend A) (w : World CW) a w' :
  on_store m w = (Ok a, w') → ∃ s', m (store w) = (Ok a, s') ∧ store w' = s'.
Proof. unfold on_store. destruct (m (store w)) as [r s']. intros [= -> <-]. by exists s'. Qed.

(** ** Scopes *)
Lemma authorized_ok {T} d refs r op (action : NativeAuthority.Effect NativeCommitContext → pm (World CW) T) w v w' :
  Parent.authorized (A:=authority) d refs r op action w = (Ok v, w') →
  ∃ e w1 w2, outcome_ok (cx_proposal (ef_lease e)) = true
    ∧ Z.of_nat (length (Publisher.str_bytes (outcome_to_string (cx_proposal (ef_lease e))))) ≤ 8192
    ∧ accepts_operation r op = true ∧ store w1 = store w ∧ action e w1 = (Ok v, w2) ∧ store w' = store w2.
Proof.
  unfold Parent.authorized. simpl. unfold na_with_startup. destruct (_ || _); [done|].
  intros (l&obs&w1&w2&Hw1&Ha&Hw2)%startup_scoped. destruct (decide _) as [->|]; [|done].
  unfold na_with_effect in Ha. destruct (_ && _) eqn:Hop; [|done]. apply andb_true_iff in Hop as [_ Hop]. simpl in Ha.
  apply effect_scoped in Ha as (e&b&w3&w4&Hok&Hlen&Hw3&Ha&Hw4). destruct (_ && _); [|done].
  eexists _, w3, w4. split_and!; [| |done| |exact Ha|]; [exact Hok|exact Hlen|congruence|congruence].
Qed.

(** ** The native storage *)
Lemma native_observe_ok e r w x w' :
  native_observe e r w = (Ok x, w') →
  ∃ y, observe_context fault (ef_lease e) r (store w) = (Ok y, store w')
    ∧ match x with Durable _ o => y = Durable tt o | CancelledCleaned o => y = CancelledCleaned o | _ => True end.
Proof.
  intros (y&w1&(s'&Hs&Hw)%on_store_ok&Hk)%st_bind_ok. subst s'. exists y.
  destruct y as [| |[]| | | |]; try (injection Hk as <- <-; done).
  - apply st_bind_ok in Hk as (z&w2&[_ ->]%st_lift_ok&Hk). by injection Hk as <- <-.
  - destruct outcome; [done|]. by injection Hk as <- <-.
Qed.

Lemma native_stage_ok e r b w x w' :
  native_stage e r b w = (Ok x, w') →
  ∃ y, stage_context fault (ef_lease e) r b (store w) = (Ok y, store w') ∧ match x with Committed _ o => y = Some o | _ => True end.
Proof.
  intros (u&w1&[_ ->]%st_lift_ok&Hk)%st_bind_ok. apply st_bind_ok in Hk as (y&w2&(s'&Hs&Hw)%on_store_ok&Hk). subst s'.
  apply st_bind_ok in Hs as (u2&s1&[_ ->]%st_lift_ok&Hs). exists y. destruct y as [o|].
  - apply st_bind_ok in Hk as (z&w3&[_ ->]%st_lift_ok&Hk). by injection Hk as <- <-.
  - by injection Hk as <- <-.
Qed.

Lemma native_readback_ok e r x w u w' :
  native_readback e r x w = (Ok u, w') →
  ∃ size b, selected_size r = Ok size ∧ read_context fault (ef_lease e) r size (store w) = (Ok b, store w')
    ∧ request_verify_body r b = Ok tt.
Proof.
  intros (y&w1&[Hsel ->]%st_lift_ok&Hk)%st_bind_ok. destruct (decide _) as [Heq|]; [|done].
  apply st_bind_ok in Hk as (b&w2&(s'&Hs&Hw)%on_store_ok&Hk). subst s'. apply st_lift_ok in Hk as [Hv ->].
  exists (ObjectReceipt.size_bytes (receipt_object x)), b. split_and!; [|exact Hs|].
  - unfold selected_size. rewrite Hsel. simpl. by rewrite Heq.
  - destruct u. by destruct (request_verify_body r b) as [[]|].
Qed.

Lemma tombstone_ok e r c w u w' :
  native_tombstone e r c w = (Ok u, w') →
  ∃ ks, tombstone_context fault (ef_lease e) r ks c (store w) = (Ok u, store w').
Proof.
  intros (ks&w1&[_ ->]%st_lift_ok&Hk)%st_bind_ok. apply on_store_ok in Hk as (s'&Hs&<-).
  apply st_bind_ok in Hs as (u2&s1&[_ ->]%st_lift_ok&Hs). by exists ks.
Qed.

Lemma finish_cleanup_ok e r c w o w' :
  native_finish_cleanup e r c w = (Ok o, w') →
  ∃ ks, cleanup_context fault (ef_lease e) r ks c (store w) = (Ok o, store w').
Proof.
  intros (ks&w1&[_ ->]%st_lift_ok&Hk)%st_bind_ok. apply st_bind_ok in Hk as (y&w2&(s'&Hs&Hw)%on_store_ok&Hk). subst s'.
  apply st_bind_ok in Hs as (u2&s1&[_ ->]%st_lift_ok&Hs). exists ks. destruct y as [v|].
  - apply st_bind_ok in Hk as (z&w3&[_ ->]%st_lift_ok&Hk). by injection Hk as <- <-.
  - by injection Hk as <- <-.
Qed.

(** ** Confirmed outcomes *)
(** What a fresh opening of the backend shows of the request. *)
Definition shows (s : Backend) (r : Request) (o : Outcome) : Prop :=
  ∃ e, ∀ f, (∀ n, f n = None) →
    ∃ size b s1 s2, selected_size r = Ok size ∧ observe_context f e r (reopen s) = (Ok (Durable tt o), s1)
      ∧ read_context f e r size (reopen s) = (Ok b, s2) ∧ request_verify_body r b = Ok tt.

Lemma confirmed_ok e r x o w v w' :
  Parent.confirmed (S:=storage) e r x o w = (Ok v, w') →
  v = o ∧ ∃ s size b, s = store w ∧ selected_size r = Ok size
    ∧ read_context fault (ef_lease e) r size s = (Ok b, store w') ∧ request_verify_body r b = Ok tt.
Proof.
  intros (u1&w1&H1&Hk)%st_bind_ok. apply (aside_ok _ _ _ _ (verify_durable_aside _ _ _ _)) in H1.
  apply st_bind_ok in Hk as (u2&w2&(size&b&Hsz&Hr&Hv)%native_readback_ok&Hk).
  apply st_bind_ok in Hk as (u3&w3&H3&Hk). apply (aside_ok _ _ _ _ (register_outcome_aside _ _ _)) in H3.
  injection Hk as <- <-. split; [done|]. exists (store w), size, b. rewrite H1 in Hr. by rewrite H3.
Qed.

Lemma checked_body_ok e r body w b w' :
  aside body → Parent.checked_body (S:=storage) e r body w = (Ok b, w') → store w' = store w.
Proof.
  intros Hb (x&w1&H1&Hk)%st_bind_ok. apply (aside_ok _ _ _ _ Hb) in H1. destruct (bool_decide _); [done|].
  apply st_bind_ok in Hk as (u&w2&[_ ->]%st_lift_ok&Hk). by injection Hk as _ <-.
Qed.

Lemma shows_read g e r o s0 s1 s s' size b :
  observe_context g e r s0 = (Ok (Durable tt o), s1) → tables s = tables s0 → saved s = None →
  selected_size r = Ok size → read_context fault e r size s = (Ok b, s') → request_verify_body r b = Ok tt → shows s' r o.
Proof.
  intros Hobs Ht Hsv Hsz Hrd Hv. exists e. intros f Hf. pose proof (reads_read fault e r size s) as [Ht' Hsv'].
  rewrite Hrd in Ht', Hsv'. simpl in *.
  assert (tables (reopen s') = tables s) as Hre by (unfold reopen; simpl; by rewrite Hsv', Hsv).
  destruct (replays_observe e r _ _ _ _ Hobs f (reopen s') Hf) as (s2&H2&_); [congruence|done|].
  destruct (replays_read e r size _ _ _ _ Hrd f (reopen s') Hf) as (s3&H3&_); [congruence|done|].
  by exists size, b, s2, s3.
Qed.

Lemma observe_rest e r s y s' : observe_context fault e r s = (Ok y, s') → at_rest s → at_rest s' ∧ tables s' = tables s.
Proof.
  intros Ho [H1 H2]. pose proof (reads_observe fault e r s) as [Ht Hs]. rewrite Ho in Ht, Hs. simpl in *.
  split; [split; [congruence|by rewrite Ht]|done].
Qed.
Lemma read_rest e r n s b s' : read_context fault e r n s = (Ok b, s') → at_rest s → at_rest s'.
Proof.
  intros Ho [H1 H2]. pose proof (reads_read fault e r n s) as [Ht Hs]. rewrite Ho in Ht, Hs. simpl in *.
  split; [congruence|by rewrite Ht].
Qed.

Lemma write_shows d refs r body w o w' :
  at_rest (store w) → request_ok r → aside body →
  Parent.write_or_reconcile (S:=storage) d refs r body w = (Ok o, w') → at_rest (store w') ∧ shows (store w') r o.
Proof.
  intros Hrest Hr Hbody (e&w1&w2&Hok&Hlen&_&Hw1&Ha&->)%authorized_ok. rewrite <-Hw1 in Hrest.
  apply st_bind_ok in Ha as (x&w3&(y&Hobs&Hx)%native_observe_ok&Hk).
  pose proof (observe_rest _ _ _ _ _ Hobs Hrest) as [Hrest3 Ht3]. destruct x; try done.
  - apply st_bind_ok in Hk as (b&w4&Hw4%checked_body_ok&Hk); [|done].
    apply st_bind_ok in Hk as (c&w5&(so&Hst&Hso)%native_stage_ok&Hk). rewrite Hw4 in Hst. destruct c as [rc o'|]; [|done]. subst so.
    apply confirmed_ok in Hk as (->&s&size&b'&->&Hsz&Hrd&Hv).
    pose proof Hst as Hst'. apply stage_coherent in Hst' as [H1 H2]; [|done|done|apply Hrest3|apply Hrest3].
    assert (at_rest (store w5)) as Hrest5 by done.
    split; [by eapply read_rest|].
    pose proof (stage_durable fault _ _ _ _ _ _ Hr Hok Hlen Hrest3 Hst ParentExample.no_fault (λ _, eq_refl)) as (n&b2&s1&s2&_&Hobs2&_).
    eapply shows_read; [exact Hobs2|unfold reopen; simpl; by rewrite H1|done|exact Hsz|exact Hrd|exact Hv].
  - subst y. apply st_bind_ok in Hk as (b&w4&Hw4%checked_body_ok&Hk); [|done].
    apply confirmed_ok in Hk as (->&s&size&b'&->&Hsz&Hrd&Hv). rewrite Hw4 in Hrd.
    split; [by eapply read_rest|]. eapply shows_read; [exact Hobs|exact Ht3|apply Hrest3|exact Hsz|exact Hrd|exact Hv].
Qed.

(** A capture that is observed cleaned is gone. *)
Lemma observe_cleaned_gone e r s o s' :
  request_ok r → accepts_operation r CleanupCancelled = true → at_rest s →
  observe_context fault e r s = (Ok (CancelledCleaned o), s') → gone (tables s') (capture_id r).
Proof.
  intros Hr Hop Hrest Hobs. pose proof (observe_rest _ _ _ _ _ Hobs Hrest) as [_ ->]. destruct Hrest as [_ [Hst Hnd]].
  apply bool_decide_eq_true in Hop. pose proof (whole_key r Hop) as Hkey.
  apply st_bind_ok in Hobs as (u1&s1&[_ ->]%st_lift_ok&Hobs). apply st_bind_ok in Hobs as (u2&s2&[= _ <-]&Hobs).
  apply st_bind_ok in Hobs as (c&s3&(Ht3&_&Hc)%capture_ok&Hobs).
  assert (∃ x, observe_cancelled fault e r x s3 = (Ok (CancelledCleaned o), s') ∧ c = Some (Some x)) as (x&Hx&->).
  { assert (observe_live fault e r s3 ≠ (Ok (CancelledCleaned o), s')) as Hno; [|destruct c as [[x|]|]; by eauto].
    intros Hl. apply st_bind_ok in Hl as (atts&s4&_&Hl). apply st_bind_ok in Hl as (rows&s5&_&Hl).
    apply st_bind_ok in Hl as (j&s6&_&Hl). destruct (bool_decide (_ = [SPrepared])); [injection Hl as Hl _; by destruct (_ && _)|].
    assert ((if negb (bool_decide (length rows = 0%nat)) || negb (bool_decide (length atts = 0%nat)) || negb (bool_decide (length j = 0%nat))
      then st_ret Corrupt else st_ret match cx_disposition e with FencedNoCommit => Unseen | ExistingOrUnknown => Unknown end) s6
      ≠ ((Ok (CancelledCleaned o), s') : result (Observation unit Outcome) Refusal * Backend)) as Hrest
      by (destruct (_ || _); [done|]; by destruct (cx_disposition e)).
    destruct rows as [|row [|]]; [done| |done]. unfold durable_rows in Hl. destruct (negb _); [done|].
    apply st_bind_ok in Hl as (?&?&_&Hl). apply st_bind_ok in Hl as (?&?&_&Hl). destruct (_ || _); [done|].
    apply st_bind_ok in Hl as (?&?&_&Hl). by destruct (_ && _). }
  destruct Hc as (y&Hy&Hid&_&Hcn). split; [exists y; by rewrite Hcn|].
  apply st_bind_ok in Hx as (rows&s4&(->&_&_)%select_ok&Hx). rewrite Ht3 in Hx.
  destruct (Hst (resource_identity r)) as [H1 H2 H3| | |j cl r' H1 H2 H3 _ H5 H6 H7 H8 H9 H10]; [by rewrite H3 in Hx|done|done|].
  by rewrite (request_identity_capture r r') by (done || by apply resource_identity_inj).
Qed.

Lemma cleanup_shows d refs r w o w' :
  at_rest (store w) → request_ok r →
  Parent.cleanup (S:=storage) d refs r w = (Ok o, w') → at_rest (store w') ∧ gone (tables (store w')) (capture_id r).
Proof.
  intros Hrest Hr (e&w1&w2&Hok&Hlen&Hop&Hw1&Ha&->)%authorized_ok. rewrite <-Hw1 in Hrest. clear Hw1.
  apply st_bind_ok in Ha as (c&w3&H3&Hk). apply (aside_ok _ _ _ _ (na_cancelled_aside _ _)) in H3. rewrite <-H3 in Hrest.
  apply st_bind_ok in Hk as (x&w4&(y&Hobs&Hx)%native_observe_ok&Hk).
  pose proof (observe_rest _ _ _ _ _ Hobs Hrest) as [Hrest4 _].
  apply st_bind_ok in Hk as (o'&w5&Hmid&Hk).
  apply st_bind_ok in Hk as (u1&w6&H6&Hk). apply (aside_ok _ _ _ _ (verify_cleaned_aside _ _ _ _)) in H6.
  apply st_bind_ok in Hk as (u2&w7&H7&Hk). apply (aside_ok _ _ _ _ (register_outcome_aside _ _ _)) in H7.
  injection Hk as <- <-. rewrite H7, H6. clear H6 H7.
  assert (∀ w8 r8, native_tombstone e r c w4 = (Ok tt, w8) → native_finish_cleanup e r c w8 = (Ok (Some r8), w5) →
    at_rest (store w5) ∧ gone (tables (store w5)) (capture_id r)) as Hdo.
  { intros w8 r8 (ks&Hts)%tombstone_ok (ks2&Hcl)%finish_cleanup_ok.
    pose proof (step_at_rest _ _ (step_tombstone fault (ef_lease e) r ks c (store w4)) Hrest4) as Hr8. rewrite Hts in Hr8.
    pose proof (step_at_rest _ _ (step_cleanup fault (ef_lease e) r ks2 c (store w8) Hr Hok) Hr8) as Hr5. rewrite Hcl in Hr5.
    split; [exact Hr5|exact (cleanup_gone _ _ _ _ _ _ _ _ Hr Hok Hr8 Hcl)]. }
  destruct x; try done.
  1, 2, 3: apply st_bind_ok in Hmid as ([]&w8&Hts&Hmid); apply st_bind_ok in Hmid as ([r8|]&w9&Hcl&Hmid); [|done];
    injection Hmid as <- <-; exact (Hdo _ _ Hts Hcl).
  injection Hmid as <- <-. subst y. split; [done|]. exact (observe_cleaned_gone _ _ _ _ _ Hr Hop Hrest Hobs).
Qed.

(** C12: what the service reports holds in the backend. When a write, through the
    authority's scopes and whichever statements failed, returns an outcome, the
    backend opened again observes just this outcome and reads bytes that pass
    the request's checks; when a cleanup returns one, no body of the capture is
    left. Either way the tables stay coherent. *)
Theorem parent_outcomes w r d refs :
  reachable (store w) → request_ok r →
  (∀ body o w', aside body → Parent.write_or_reconcile (S:=storage) d refs r body w = (Ok o, w') →
     coherent (tables (store w')) ∧ shows (store w') r o)
  ∧ (∀ o w', Parent.cleanup (S:=storage) d refs r w = (Ok o, w') →
     coherent (tables (store w')) ∧ gone (tables (store w')) (capture_id r)).
Proof.
  intros Hs%reachable_at_rest Hr. split.
  - intros body o w' Hb Hw. apply write_shows in Hw as [[_ H1] H2]; done.
  - intros o w' Hw. apply cleanup_shows in Hw as [[_ H1] H2]; done.
Qed.
End service.
(** ** A control plane for one note *)
Import ParentExample.
Definition note_ops : ControlOps unit := {|
  co_StartupLease := DeploymentBinding;
  co_with_startup _ d _ act := act d d;
  co_with_effect _ d r op act :=
    act (match op with CleanupCancelled => cleanup_lease | _ => note_context "lease" end)
      {| lb_deployment := d; lb_descriptor_identity := request_identity r; lb_resource_identity := resource_identity r; lb_operation := op |};
  co_cancelled_resource _ _ := st_ret (Publisher.str_bytes (cancelled_to_string note_cancelled));
  co_durable_binding _ _ o := st_ret {| original_effect := original_identity o; db_storage_receipt_id := default "" (storage_receipt_id o) |};
  co_cleaned_binding _ _ o := st_ret (original_identity o);
  co_register _ _ _ := st_ret tt
|}.

#[global] Instance note_ops_laws : ControlLaws note_ops.
Proof.
  split; try done.
  - intros T d refs act w v w' H. by exists d, d, w, w'.
  - intros T l r op act w v w' H. eexists _, _, w, w'.
    split; [|split; [|split; [done|split; [exact H|done]]]]; destruct op; by vm_compute.
Qed.

Definition note_deployment : DeploymentBinding :=
  {| issuer := "issuer"; dep_realm_id := uuid "a"; dep_deployment_generation := 1; participant_config_version := 1;
     key_domain_ref := "keys"; executable_sha256 := ""; config_sha256 := "" |}.
Definition note_refs : ProtectedConfigReferences := {| provisioner_reference := "p"; auth_reference := "a" |}.
Abbreviation note_write := (Parent.write_or_reconcile (S:=storage note_ops no_fault) note_deployment note_refs note_part (st_ret note)).

Definition written : World unit := (note_write (mkWorld tt created)).2.
Lemma written_ok : note_write (mkWorld tt created) = (Ok (note_stored (uuid "6") 7), written).
Proof. unfold written. by vm_compute. Qed.

Lemma parent_outcomes_witness :
  shows (store written) note_part (note_stored (uuid "6") 7).
Proof.
  destruct (parent_outcomes note_ops no_fault (mkWorld tt created) note_part note_deployment note_refs) as [H _];
    [apply rtc_refl|apply note_part_ok|].
  exact (proj2 (H (st_ret note) (note_stored (uuid "6") 7) written (aside_ret note) written_ok)).
Defined.
End ParentService.
