(* ===== verification/Provider.v ===== *)
(** * The synthetic provider of personal storage
      ([disk-personal/src/provider/types.rs], [fs.rs], [inventory.rs], [mod.rs])

    Objects are files below a root that one process owns, and an inventory in
    SQLite says which of them are durable. The file system is modelled with what
    a power loss may take away: bytes that were not synced, and directory
    entries that were not. Every call may fail, as an oracle says; a failed
    write may have written a part, a failed [COMMIT] may have taken effect. *)

From stdpp Require Import prelude gmap strings.
From Stdlib Require Import ZArith Lia Strings.Byte Strings.Ascii.
From S2P Require Import Prelude Text BlobStore Publisher Sql Capture.

#[local] Open Scope Z_scope.

(** ** [types.rs] *)
Module ProviderTypes.
Definition MAX_BLOB : Z := 1048576.
Definition MAX_RECORDS : Z := 128.
Definition MAX_RESERVED_BYTES : Z := 64 * 1048576.

Inductive IoKind := KNotFound | KAlreadyExists | KOther.
Inductive Error :=
  | InvalidInput | UnsafePath | WriterBusy | LifecycleAbandoned | Conflict | NotFound | UnresolvedPrepared | Poisoned
  | PoisonUncertain | Capacity | Schema | Injected (at_ : string) | Io (k : IoKind) | ESql | EJson.

Record Binding := mkBinding { b_realm_id : string; b_deployment_id : string }.
#[global] Instance Binding_eq_dec : EqDecision Binding.
Proof. solve_decision. Defined.
Inductive Kind := Note | Attachment.
#[global] Instance Kind_eq_dec : EqDecision Kind.
Proof. solve_decision. Defined.

Module Request.
Record t := mk {
  operation_id : string; attempt_id : string; object_id : string; revision_id : string; kind : Kind; expected_len : Z;
  sha256 : string
}.
#[global] Instance t_eq_dec : EqDecision t.
Proof. solve_decision. Defined.
End Request.

Module LocalCommit.
Record t := mk { local_commit_id : string; sequence : Z; request : Request.t }.
End LocalCommit.

Definition NIL : string := "00000000-0000-0000-0000-000000000000".
(** A UUID that is written the way it prints, and not the nil one. *)
Definition valid_id (id : string) : bool := Capture.identifier id && negb (bool_decide (id = NIL)).
Definition binding_validate (b : Binding) : result unit Error :=
  if valid_id (b_realm_id b) && valid_id (b_deployment_id b) then Ok tt else Err InvalidInput.

Definition kind_max (k : Kind) : Z := match k with Note => 65536 | Attachment => MAX_BLOB end.
Definition validate (r : Request.t) : result unit Error :=
  if forallb valid_id [Request.operation_id r; Request.attempt_id r; Request.object_id r; Request.revision_id r]
     && bool_decide (Request.expected_len r ≤ kind_max (Request.kind r)) && Capture.digest (Request.sha256 r)
  then Ok tt else Err InvalidInput.

Definition staging_name (r : Request.t) : string := Request.attempt_id r +:+ ".part".
Definition object_name (r : Request.t) : string := Request.revision_id r +:+ ".blob".

(** [serde_json] on these records. *)
Class ProviderJson := {
  request_to_string : Request.t → string;
  request_from_str : string → option Request.t;
  binding_to_vec : Binding → bytes;
  binding_from_slice : bytes → option Binding;
  request_json_roundtrip : ∀ r, validate r = Ok tt → 0 ≤ Request.expected_len r → request_from_str (request_to_string r) = Some r;
  (** Seven fields: four identifiers, the kind, at most seven digits, the digest. *)
  request_json_len : ∀ r, validate r = Ok tt → 0 ≤ Request.expected_len r → str_len (request_to_string r) ≤ 2048;
  request_from_str_u64 : ∀ s r, request_from_str s = Some r → 0 ≤ Request.expected_len r ≤ u64_max;
  binding_json_roundtrip : ∀ b, binding_validate b = Ok tt → binding_from_slice (binding_to_vec b) = Some b ∧ Z.of_nat (length (binding_to_vec b)) ≤ 1024
}.

Section types.
Context {lib : CaptureLib}.
Definition digest (b : bytes) : string := Capture.sha256_hex b.
Definition verifies (r : Request.t) (b : bytes) : bool :=
  bool_decide (Z.of_nat (length b) = Request.expected_len r) && bool_decide (digest b = Request.sha256 r)
  && (negb (bool_decide (Request.kind r = Note)) || bytes_utf8 b).
End types.
End ProviderTypes.

(** ** The disk *)
Module Disk.
Record Meta := mkMeta { dev : Z; ino : Z; uid : Z; mode : Z; is_dir : bool; is_file : bool; nlink : Z }.
(** A file, and whether its bytes and its name were synced. *)
Record File := mkFile { f_meta : Meta; content : bytes; content_synced : bool; entry_synced : bool }.
Record Dir := mkDir { d_meta : Meta; d_files : gmap string File; d_synced : bool }.

Inductive State := PREPARED | DURABLE.
#[global] Instance State_eq_dec : EqDecision State.
Proof. solve_decision. Defined.

(** [attempts] and [capture_binding] of the migrations. *)
Module AttemptsRow.
Record t := mk {
  operation_id : string; attempt_id : string; object_id : string; revision_id : string; request_json : string;
  expected_len : Z; state : State; local_commit_id : option string; sequence : option Z
}.
End AttemptsRow.
Module CaptureBindingRow.
Record t := mk {
  operation_id : string; realm_id : string; capture_id : string; part_id : string; cancellation_generation : Z;
  descriptor_identity : string
}.
End CaptureBindingRow.

(** [schema_ok] is what the checks of the policy and of the statements of the
    schema answer. *)
Record Inventory := mkInventory {
  attempts : list AttemptsRow.t; capture_binding : list CaptureBindingRow.t;
  fixture_binding : list (string * string * Z); user_version : Z; schema_ok : bool
}.

(** The root directory by its entries, a name that is not UTF-8 being [None];
    what is in [fixture.json], [staging], [objects] and [inventory.sqlite]. *)
Record t := mk {
  root_meta : option Meta; entries : list (option string * Meta); fixture_json : bytes;
  staging : gmap string File; objects : gmap string Dir; inventory : Inventory
}.

Definition entry (name : string) (d : t) : option Meta :=
  snd <$> find (λ e : option string * Meta, bool_decide (e.1 = Some name)) (entries d).
Definition set_entries (f : list (option string * Meta) → list (option string * Meta)) (d : t) : t :=
  mk (root_meta d) (f (entries d)) (fixture_json d) (staging d) (objects d) (inventory d).
Definition set_staging (f : gmap string File → gmap string File) (d : t) : t :=
  mk (root_meta d) (entries d) (fixture_json d) (f (staging d)) (objects d) (inventory d).
Definition set_objects (f : gmap string Dir → gmap string Dir) (d : t) : t :=
  mk (root_meta d) (entries d) (fixture_json d) (staging d) (f (objects d)) (inventory d).
Definition set_inventory (i : Inventory) (d : t) : t :=
  mk (root_meta d) (entries d) (fixture_json d) (staging d) (objects d) i.
Definition set_attempts (l : list AttemptsRow.t) (i : Inventory) : Inventory :=
  mkInventory l (capture_binding i) (fixture_binding i) (user_version i) (schema_ok i).
Definition set_bindings (l : list CaptureBindingRow.t) (i : Inventory) : Inventory :=
  mkInventory (attempts i) l (fixture_binding i) (user_version i) (schema_ok i).

(** Where a file is. *)
Inductive Loc := InStaging (name : string) | InObject (object : string) (name : string).
Definition lookup_file (l : Loc) (d : t) : option File :=
  match l with
  | InStaging n => staging d !! n
  | InObject o n => x ← objects d !! o; d_files x !! n
  end.
Definition in_dir (f : gmap string File → gmap string File) (x : Dir) : Dir := mkDir (d_meta x) (f (d_files x)) (d_synced x).
Definition alter_file (f : File → File) (l : Loc) (d : t) : t :=
  match l with
  | InStaging n => set_staging (alter f n) d
  | InObject o n => set_objects (alter (in_dir (alter f n)) o) d
  end.
Definition mark_content (x : File) : File := mkFile (f_meta x) (content x) true (entry_synced x).
Definition mark_entry (x : File) : File := mkFile (f_meta x) (content x) (content_synced x) true.
Definition append (b : bytes) (x : File) : File := mkFile (f_meta x) (content x ++ b) (bool_decide (b = []) && content_synced x) (entry_synced x).
Definition mark_dir (x : Dir) : Dir := mkDir (d_meta x) (d_files x) true.
End Disk.

(** ** [fs.rs] *)
(** What a process sees: the disk, whether a worker was abandoned, whether the
    lock is held, the provider's own flags, and how many calls were made. *)
Record Process := mkProcess {
  disk : Disk.t; abandoned : bool; locked : bool; poisoned : bool; fail_poison_before_create : bool; calls : nat
}.

Module Root.
Import ProviderTypes.

(** The handles of an open root, by what is compared of them. *)
Record t := mk { device : Z; inode : Z; staging_ino : Z; objects_ino : Z; lock_ino : Z }.

Abbreviation pr := (stm Process Error).
Definition set_disk (d : Disk.t) (s : Process) : Process :=
  mkProcess d (abandoned s) (locked s) (poisoned s) (fail_poison_before_create s) (calls s).
Definition set_locked (b : bool) (s : Process) : Process :=
  mkProcess (disk s) (abandoned s) b (poisoned s) (fail_poison_before_create s) (calls s).
Definition set_poisoned (s : Process) : Process :=
  mkProcess (disk s) (abandoned s) (locked s) true (fail_poison_before_create s) (calls s).

Section root.
Context {lib : CaptureLib} {pj : ProviderJson}.
(** The process's user, the path's test in [open], and the oracle: a call that
    fails says how far it went. *)
Context (euid : Z) (canonical : bool) (fault : nat → option nat).

Definition tick : pr (option nat) := λ s,
  (Ok (fault (calls s)),
   mkProcess (disk s) (abandoned s) (locked s) (poisoned s) (fail_poison_before_create s) (S (calls s))).
(** A call on the disk. *)
Definition io {A} (f : Disk.t → result (A * Disk.t) Error) : pr A :=
  x <~ tick ;;
  match x with
  | Some _ => st_err (Io KOther)
  | None => λ s, match f (disk s) with Ok (a, d) => (Ok a, set_disk d s) | Err e => (Err e, s) end
  end.
Definition look {A} (f : Disk.t → result A Error) : pr A := io (λ d, a <?- f d ;; Ok (a, d)).
Definition change (f : Disk.t → Disk.t) : pr unit := io (λ d, Ok (tt, f d)).
Definition checkpoint (name : string) : pr unit :=
  x <~ tick ;; match x with Some _ => st_err (Injected name) | None => st_ret tt end.

Definition checked (m : Disk.Meta) (dv : Z) (directory : bool) : result unit Error :=
  let expected_mode := if directory then 448 else 384 in
  if bool_decide (Disk.dev m = dv) && bool_decide (Disk.uid m = euid) && bool_decide (Z.land (Disk.mode m) 4095 = expected_mode)
     && (if directory then Disk.is_dir m else Disk.is_file m && bool_decide (Disk.nlink m = 1))
  then Ok tt else Err UnsafePath.

Definition is_directory_name (n : string) : bool := bool_decide (n ∈ ["staging"; "objects"]).
Definition is_file_name (n : string) : bool :=
  bool_decide (n ∈ ["inventory.sqlite"; "inventory.sqlite-wal"; "inventory.sqlite-shm"; "inventory.sqlite-journal"; "writer.lock";
                    "fixture.json"; "POISON"]).
Definition REQUIRED : list string := ["inventory.sqlite"; "writer.lock"; "fixture.json"; "staging"; "objects"].
Definition check_entry (dv : Z) (e : option string * Disk.Meta) : result unit Error :=
  match e.1 with
  | None => Err UnsafePath
  | Some n =>
      if is_directory_name n || is_file_name n then checked e.2 dv (is_directory_name n) else Err UnsafePath
  end.
Fixpoint check_all {A} (f : A → result unit Error) (l : list A) : result unit Error :=
  match l with [] => Ok tt | x :: l => _ <?- f x ;; check_all f l end.
Definition check_entries (dv : Z) (d : Disk.t) : result unit Error :=
  _ <?- check_all (check_entry dv) (Disk.entries d) ;;
  check_all (λ n, m <?- ok_or (Disk.entry n d) (Io KNotFound) ;; checked m dv (is_directory_name n)) REQUIRED.

(** [open]; a failure after the lock was taken lets it go. *)
Definition open_handle (name : string) : pr Z :=
  look (λ d, m <?- ok_or (Disk.entry name d) (Io KNotFound) ;; Ok (Disk.ino m)).
Definition take_lock : pr unit := λ s, if locked s then (Err WriterBusy, s) else (Ok tt, set_locked true s).
Definition or_unlock {A} (m : pr A) : pr A := λ s,
  match m s with (Ok a, s) => (Ok a, s) | (Err e, s) => (Err e, set_locked false s) end.

Definition open (binding : Binding) : pr t := λ s,
  if abandoned s then (Err LifecycleAbandoned, s)
  else (
    _ <~ st_lift (binding_validate binding) ;;
    _ <~ look (λ _, if canonical then Ok tt else Err UnsafePath) ;;
    m <~ look (λ d, ok_or (Disk.root_meta d) (Io KNotFound)) ;;
    _ <~ st_lift (checked m (Disk.dev m) true) ;;
    _ <~ look (check_entries (Disk.dev m)) ;;
    marker <~ look (λ d, Ok (take 1025 (Disk.fixture_json d))) ;;
    _ <~ st_lift (if bool_decide (1024 < Z.of_nat (length marker)) then Err UnsafePath
                  else b <?- ok_or (binding_from_slice marker) EJson ;; if decide (b = binding) then Ok tt else Err UnsafePath) ;;
    lock <~ open_handle "writer.lock" ;;
    _ <~ take_lock ;;
    or_unlock (
      staging <~ open_handle "staging" ;;
      objects <~ open_handle "objects" ;;
      st_ret (mk (Disk.dev m) (Disk.ino m) staging objects lock))) s.

(** [initialize] and [initialize_capture]: a root that did not exist; the second
    also looks whether the new directory is empty and is the one opened. *)
Definition add_entry (dv : Z) (inos : string → Z) (directory : bool) (name : string) (d : Disk.t) : Disk.t :=
  Disk.set_entries (λ l, l ++ [(Some name, Disk.mkMeta dv (inos name) euid (if directory then 448 else 384) directory (negb directory) 1)]) d.
Definition make_root (dv : Z) (inos : string → Z) : pr unit :=
  io (λ d, match Disk.root_meta d with
           | Some _ => Err (Io KAlreadyExists)
           | None => Ok (tt, Disk.mk (Some (Disk.mkMeta dv (inos ".") euid 448 true false 2)) [] [] ∅ ∅ (Disk.mkInventory [] [] [] 0 true))
           end).
Definition write_fixture (binding : Binding) (d : Disk.t) : Disk.t :=
  Disk.mk (Disk.root_meta d) (Disk.entries d) (binding_to_vec binding) (Disk.staging d) (Disk.objects d) (Disk.inventory d).
Definition initialize_root (dv : Z) (inos : string → Z) (binding : Binding) (capture : bool) : pr t := λ s,
  if abandoned s then (Err LifecycleAbandoned, s)
  else (
    _ <~ st_lift (binding_validate binding) ;;
    _ <~ look (λ _, if canonical then Ok tt else Err UnsafePath) ;;
    _ <~ make_root dv inos ;;
    _ <~ (if capture then
            m <~ look (λ d, ok_or (Disk.root_meta d) (Io KNotFound)) ;;
            _ <~ st_lift (checked m (Disk.dev m) true) ;;
            look (λ d, if bool_decide (length (Disk.entries d) = 0%nat) then Ok tt else Err UnsafePath)
          else st_ret tt) ;;
    _ <~ change (add_entry dv inos true "staging") ;;
    _ <~ change (add_entry dv inos true "objects") ;;
    _ <~ change (add_entry dv inos false "inventory.sqlite") ;;
    _ <~ change (add_entry dv inos false "writer.lock") ;;
    _ <~ change (add_entry dv inos false "fixture.json") ;;
    _ <~ change (write_fixture binding) ;;
    _ <~ change id ;;
    r <~ open binding ;;
    if capture && negb (bool_decide (device r = dv) && bool_decide (inode r = inos "."))
    then or_unlock (st_err UnsafePath) else st_ret r) s.

Definition validate_root (r : t) : pr unit := λ s,
  if abandoned s then (Err LifecycleAbandoned, s)
  else (
    m <~ look (λ d, ok_or (Disk.root_meta d) (Io KNotFound)) ;;
    _ <~ st_lift (checked m (device r) true) ;;
    if negb (bool_decide (Disk.ino m = inode r)) then st_err UnsafePath
    else
      _ <~ look (check_entries (device r)) ;;
      s1 <~ open_handle "staging" ;;
      if negb (bool_decide (s1 = staging_ino r)) then st_err UnsafePath
      else
        s2 <~ open_handle "objects" ;;
        if negb (bool_decide (s2 = objects_ino r)) then st_err UnsafePath
        else
          s3 <~ open_handle "writer.lock" ;;
          if negb (bool_decide (s3 = lock_ino r)) then st_err UnsafePath
          else
            p <~ look (λ d, Ok (Disk.entry "POISON" d)) ;;
            match p with Some _ => st_err Poisoned | None => st_ret tt end) s.

Definition new_meta (r : t) (directory : bool) : Disk.Meta :=
  Disk.mkMeta (device r) 0 euid (if directory then 448 else 384) directory (negb directory) 1.

(** [Root::poison] answers an error whether or not the marker was written. *)
Definition write_marker (r : t) : pr unit :=
  _ <~ io (λ d, match Disk.entry "POISON" d with
                | Some _ => Err (Io KAlreadyExists)
                | None => Ok (tt, Disk.set_entries (λ l, l ++ [(Some "POISON", new_meta r false)]) d)
                end) ;;
  _ <~ change id ;; _ <~ change id ;; change id.
Definition poison_root {A} (r : t) : pr A := λ s,
  if fail_poison_before_create s
  then (Err PoisonUncertain, mkProcess (disk s) (abandoned s) (locked s) (poisoned s) false (calls s))
  else match write_marker r s with (Ok _, s) => (Err Poisoned, s) | (Err _, s) => (Err PoisonUncertain, s) end.

Definition sync_objects : Disk.t → Disk.t := Disk.set_objects (fmap Disk.mark_dir).
Definition object_dir (r : t) (q : Request.t) (create : bool) : pr string :=
  let o := Request.object_id q in
  _ <~ (if create then
          made <~ io (λ d, match Disk.objects d !! o with
                           | Some _ => Ok (false, d)
                           | None => Ok (true, Disk.set_objects (insert o (Disk.mkDir (new_meta r true) ∅ false)) d)
                           end) ;;
          if made : bool then change sync_objects else st_ret tt
        else st_ret tt) ;;
  m <~ look (λ d, x <?- ok_or (Disk.objects d !! o) (Io KNotFound) ;; Ok (Disk.d_meta x)) ;;
  _ <~ st_lift (checked m (device r) true) ;;
  st_ret o.

Definition existing (r : t) (l : Disk.Loc) : pr (option Disk.Loc) :=
  f <~ look (λ d, Ok (Disk.lookup_file l d)) ;;
  match f with
  | Some x => _ <~ st_lift (checked (Disk.f_meta x) (device r) false) ;; st_ret (Some l)
  | None => st_ret None
  end.

Definition verified_bytes (l : Disk.Loc) (q : Request.t) : pr bytes :=
  b <~ look (λ d, x <?- ok_or (Disk.lookup_file l d) (Io KOther) ;; Ok (take (Z.to_nat (MAX_BLOB + 1)) (Disk.content x))) ;;
  if verifies q b then st_ret b else st_err UnresolvedPrepared.

Definition create_stage (r : t) (q : Request.t) : pr Disk.Loc :=
  io (λ d, match Disk.staging d !! staging_name q with
           | Some _ => Err (Io KAlreadyExists)
           | None => Ok (Disk.InStaging (staging_name q),
                         Disk.set_staging (insert (staging_name q) (Disk.mkFile (new_meta r false) [] false false)) d)
           end).

(** A write that fails may have written some of it. *)
Definition write_all (l : Disk.Loc) (b : bytes) : pr unit :=
  x <~ tick ;;
  match x with
  | Some n => λ s, (Err (Io KOther), set_disk (Disk.alter_file (Disk.append (take n b)) l (disk s)) s)
  | None => λ s, (Ok tt, set_disk (Disk.alter_file (Disk.append b) l (disk s)) s)
  end.
Definition sync_file (l : Disk.Loc) : pr unit := change (Disk.alter_file Disk.mark_content l).

Definition publish (q : Request.t) (o : string) : pr unit :=
  io (λ d, f <?- ok_or (Disk.staging d !! staging_name q) (Io KNotFound) ;;
           x <?- ok_or (Disk.objects d !! o) (Io KNotFound) ;;
           match Disk.d_files x !! object_name q with
           | Some _ => Err (Io KAlreadyExists)
           | None => Ok (tt, Disk.set_objects (insert o (Disk.in_dir (insert (object_name q)
                        (Disk.mkFile (Disk.f_meta f) (Disk.content f) (Disk.content_synced f) false)) x))
                      (Disk.set_staging (delete (staging_name q)) d))
           end).

Definition sync_publish_dirs (o : string) : pr unit :=
  _ <~ checkpoint "before_staging_directory_sync" ;;
  _ <~ change (Disk.set_staging (fmap Disk.mark_entry)) ;;
  _ <~ checkpoint "before_destination_directory_sync" ;;
  _ <~ change (Disk.set_objects (alter (Disk.in_dir (fmap Disk.mark_entry)) o)) ;;
  _ <~ checkpoint "before_objects_directory_sync" ;;
  _ <~ change sync_objects ;;
  _ <~ checkpoint "before_root_directory_sync" ;;
  change id.
End root.

(** Dropping the root: an acknowledged shutdown unlocks, another one leaves the
    lock to the process and stops it. *)
Definition drop_root (worker_started shutdown_acknowledged : bool) (s : Process) : Process :=
  if worker_started && negb shutdown_acknowledged
  then mkProcess (disk s) true (locked s) (poisoned s) (fail_poison_before_create s) (calls s)
  else set_locked false s.
End Root.

(** ** [inventory.rs] *)
Module Inventory.
Import ProviderTypes Root.
Module Record_.
Record t := mk { request : Request.t; committed : option LocalCommit.t }.
End Record_.

Section inventory.
Context {lib : CaptureLib} {pj : ProviderJson} (fault : nat → option nat).

(** A query, and a transaction: one that is rolled back changes nothing, one
    whose [COMMIT] failed may have taken effect. *)
Definition query {A} (f : Disk.Inventory → result A Error) : pr A :=
  x <~ tick fault ;;
  match x with Some _ => st_err ESql | None => λ s, (f (Disk.inventory (disk s)), s) end.
Definition tx {A} (f : Disk.Inventory → result (A * Disk.Inventory) Error) : pr A :=
  x <~ tick fault ;;
  λ s, match f (Disk.inventory (disk s)) with
       | Err e => (Err e, s)
       | Ok (a, i) =>
           match x with
           | None => (Ok a, set_disk (Disk.set_inventory i (disk s)) s)
           | Some O => (Err ESql, s)
           | Some (S _) => (Err ESql, set_disk (Disk.set_inventory i (disk s)) s)
           end
       end.

Definition version_of (capture : bool) : Z := if capture then 2 else 1.

(** The migration, on an empty file. *)
Definition initialize (binding : Binding) (capture : bool) : pr unit :=
  tx (λ i, if bool_decide (Disk.user_version i = 0)
           then Ok (tt, Disk.mkInventory [] [] [(b_realm_id binding, b_deployment_id binding, version_of capture)] (version_of capture) true)
           else Err ESql).

Definition verify_schema : pr unit := query (λ i, if Disk.schema_ok i then Ok tt else Err Schema).
Definition verify_policy : pr unit := query (λ i, if Disk.schema_ok i then Ok tt else Err Schema).
(** [validate] is the root's. *)
Definition connect (validate : pr unit) : pr unit :=
  _ <~ validate ;; _ <~ query (λ _, Ok tt) ;; _ <~ validate ;; verify_policy.

Definition verify_binding (binding : Binding) (capture : bool) : pr unit :=
  v <~ query (λ i, Ok (Disk.user_version i)) ;;
  if negb (bool_decide (v = version_of capture)) then st_err Schema
  else
    _ <~ verify_schema ;;
    rows <~ query (λ i, Ok (take 2 (Disk.fixture_binding i))) ;;
    if negb (bool_decide (rows = [(b_realm_id binding, b_deployment_id binding, version_of capture)])) then st_err Schema
    else if capture then
      broken <~ query (λ i, Ok (length (select (λ a, match find (λ c, bool_decide (Disk.CaptureBindingRow.operation_id c = Disk.AttemptsRow.operation_id a))
                                                      (Disk.capture_binding i) with
                                               | None => true
                                               | Some c => negb (bool_decide (Disk.CaptureBindingRow.realm_id c = b_realm_id binding))
                                               end) (Disk.attempts i)))) ;;
      orphaned <~ query (λ i, Ok (length (select (λ c, negb (existsb (λ a, bool_decide (Disk.AttemptsRow.operation_id a = Disk.CaptureBindingRow.operation_id c))
                                                                 (Disk.attempts i))) (Disk.capture_binding i)))) ;;
      if bool_decide (broken = 0%nat) && bool_decide (orphaned = 0%nat) then st_ret tt else st_err Schema
    else st_ret tt.

Definition commit_id (r : Request.t) : string := "local-" +:+ digest (Publisher.str_bytes (request_to_string r)).

(** SQLite's [length] of a text counts characters. *)
Definition sql_length (s : string) : Z :=
  Z.of_nat (length (List.filter (λ c, negb (bool_decide (128 ≤ ascii_code c < 192))) (explode s))).

(** One row as a record, or why not. *)
Definition read_row (row : Disk.AttemptsRow.t) : result Record_.t Error :=
  if bool_decide (2048 < str_len (Disk.AttemptsRow.request_json row)) then Err Schema
  else
    r <?- ok_or (request_from_str (Disk.AttemptsRow.request_json row)) EJson ;;
    _ <?- validate r ;;
    if negb (bool_decide (Disk.AttemptsRow.operation_id row = Request.operation_id r)
             && bool_decide (Disk.AttemptsRow.attempt_id row = Request.attempt_id r)
             && bool_decide (Disk.AttemptsRow.object_id row = Request.object_id r)
             && bool_decide (Disk.AttemptsRow.revision_id row = Request.revision_id r)) then Err Schema
    else if negb (bool_decide (Disk.AttemptsRow.expected_len row = Request.expected_len r)) then Err Schema
    else match Disk.AttemptsRow.state row, Disk.AttemptsRow.local_commit_id row, Disk.AttemptsRow.sequence row with
         | Disk.PREPARED, None, None => Ok (Record_.mk r None)
         | Disk.DURABLE, Some id, Some sequence =>
             if bool_decide (0 < sequence) && bool_decide (id = commit_id r)
             then Ok (Record_.mk r (Some (LocalCommit.mk id sequence r))) else Err Schema
         | _, _, _ => Err Schema
         end.
Fixpoint read_rows (rows : list Disk.AttemptsRow.t) : result (list Record_.t) Error :=
  match rows with
  | [] => Ok []
  | row :: rows => r <?- read_row row ;; rs <?- read_rows rows ;; Ok (r :: rs)
  end.
Definition by_operation (l : list Disk.AttemptsRow.t) : list Disk.AttemptsRow.t :=
  sort_by (λ a b, String.leb (Disk.AttemptsRow.operation_id a) (Disk.AttemptsRow.operation_id b)) l.
Definition records : pr (list Record_.t) :=
  n <~ query (λ i, Ok (Z.of_nat (length (Disk.attempts i)))) ;;
  if bool_decide (MAX_RECORDS < n) then st_err Capacity
  else
    rows <~ query (λ i, Ok (take 129 (by_operation (Disk.attempts i)))) ;;
    st_lift (read_rows rows).

Definition verify_capture (r : Request.t) (d : WireDescriptor.t) (part : string) : pr unit :=
  row <~ query (λ i, Ok (find (λ c, bool_decide (Disk.CaptureBindingRow.operation_id c = Request.operation_id r)) (Disk.capture_binding i))) ;;
  row <~ st_lift (ok_or row Conflict) ;;
  if bool_decide (Disk.CaptureBindingRow.realm_id row = WireDescriptor.realm_id d)
     && bool_decide (Disk.CaptureBindingRow.capture_id row = WireDescriptor.capture_id d)
     && bool_decide (Disk.CaptureBindingRow.part_id row = part)
     && bool_decide (Disk.CaptureBindingRow.cancellation_generation row = WireDescriptor.cancellation_generation d)
     && bool_decide (Disk.CaptureBindingRow.descriptor_identity row = Capture.descriptor_identity d)
  then st_ret tt else st_err Conflict.

(** The rows a reservation adds, with the constraints of the tables. *)
Definition prepared_row (r : Request.t) : Disk.AttemptsRow.t :=
  Disk.AttemptsRow.mk (Request.operation_id r) (Request.attempt_id r) (Request.object_id r) (Request.revision_id r)
    (request_to_string r) (Request.expected_len r) Disk.PREPARED None None.
Definition attempt_clash (a b : Disk.AttemptsRow.t) : bool :=
  bool_decide (Disk.AttemptsRow.operation_id a = Disk.AttemptsRow.operation_id b)
  || bool_decide (Disk.AttemptsRow.attempt_id a = Disk.AttemptsRow.attempt_id b)
  || (bool_decide (Disk.AttemptsRow.object_id a = Disk.AttemptsRow.object_id b)
      && bool_decide (Disk.AttemptsRow.revision_id a = Disk.AttemptsRow.revision_id b)).
Definition insert_attempt (r : Request.t) (i : Disk.Inventory) : result Disk.Inventory Error :=
  if bool_decide (sql_length (request_to_string r) ≤ 2048) && bool_decide (0 ≤ Request.expected_len r ≤ 1048576)
  then l <?- ok_or (insert_row attempt_clash (prepared_row r) (Disk.attempts i)) ESql ;; Ok (Disk.set_attempts l i)
  else Err ESql.
Definition binding_row (r : Request.t) (d : WireDescriptor.t) (part : string) : Disk.CaptureBindingRow.t :=
  Disk.CaptureBindingRow.mk (Request.operation_id r) (WireDescriptor.realm_id d) (WireDescriptor.capture_id d) part
    (WireDescriptor.cancellation_generation d) (Capture.descriptor_identity d).
Definition binding_clash (a b : Disk.CaptureBindingRow.t) : bool :=
  bool_decide (Disk.CaptureBindingRow.operation_id a = Disk.CaptureBindingRow.operation_id b)
  || (bool_decide (Disk.CaptureBindingRow.realm_id a = Disk.CaptureBindingRow.realm_id b)
      && bool_decide (Disk.CaptureBindingRow.capture_id a = Disk.CaptureBindingRow.capture_id b)
      && bool_decide (Disk.CaptureBindingRow.part_id a = Disk.CaptureBindingRow.part_id b)
      && bool_decide (Disk.CaptureBindingRow.cancellation_generation a = Disk.CaptureBindingRow.cancellation_generation b)).
Definition insert_binding (r : Request.t) (d : WireDescriptor.t) (part : string) (i : Disk.Inventory) : result Disk.Inventory Error :=
  if bool_decide (0 ≤ WireDescriptor.cancellation_generation d ≤ 9007199254740990)
     && bool_decide (1 ≤ sql_length (Capture.descriptor_identity d) ≤ 798)
  then l <?- ok_or (insert_row binding_clash (binding_row r d part) (Disk.capture_binding i)) ESql ;; Ok (Disk.set_bindings l i)
  else Err ESql.

(** The first record with the operation, or one that collides before it. *)
Fixpoint find_prior (r : Request.t) (l : list Record_.t) : result (option Record_.t) Error :=
  match l with
  | [] => Ok None
  | x :: l =>
      if decide (Request.operation_id (Record_.request x) = Request.operation_id r) then
        if decide (Record_.request x = r) then Ok (Some x) else Err Conflict
      else if bool_decide (Request.attempt_id (Record_.request x) = Request.attempt_id r)
              || (bool_decide (Request.object_id (Record_.request x) = Request.object_id r)
                  && bool_decide (Request.revision_id (Record_.request x) = Request.revision_id r))
      then Err Conflict else find_prior r l
  end.
Definition reserved_len (l : list Record_.t) : Z := foldr (λ x n, Request.expected_len (Record_.request x) + n) 0 l.

Definition reserve (r : Request.t) (capture : option (WireDescriptor.t * string)) : pr (bool * option LocalCommit.t) :=
  rs <~ records ;;
  prior <~ st_lift (find_prior r rs) ;;
  match prior with
  | Some x =>
      _ <~ match capture with Some (d, part) => verify_capture r d part | None => st_ret tt end ;;
      st_ret (true, Record_.committed x)
  | None =>
      if bool_decide (MAX_RECORDS ≤ Z.of_nat (length rs)) || bool_decide (MAX_RESERVED_BYTES < reserved_len rs + Request.expected_len r)
      then st_err Capacity
      else
        tx (λ i, i <?- insert_attempt r i ;;
                 i <?- match capture with Some (d, part) => insert_binding r d part i | None => Ok i end ;;
                 Ok ((false, None), i))
  end.

Definition last_sequence (l : list Disk.AttemptsRow.t) : Z :=
  match omap Disk.AttemptsRow.sequence l with [] => 0 | n :: ns => foldr Z.max n ns end.
Definition is_prepared (r : Request.t) (a : Disk.AttemptsRow.t) : bool :=
  bool_decide (Disk.AttemptsRow.operation_id a = Request.operation_id r) && bool_decide (Disk.AttemptsRow.state a = Disk.PREPARED)
  && bool_decide (Disk.AttemptsRow.request_json a = request_to_string r).
Definition durable_row (id : string) (sequence : Z) (a : Disk.AttemptsRow.t) : Disk.AttemptsRow.t :=
  Disk.AttemptsRow.mk (Disk.AttemptsRow.operation_id a) (Disk.AttemptsRow.attempt_id a) (Disk.AttemptsRow.object_id a)
    (Disk.AttemptsRow.revision_id a) (Disk.AttemptsRow.request_json a) (Disk.AttemptsRow.expected_len a) Disk.DURABLE (Some id) (Some sequence).
(** The update, with the column [local_commit_id] unique. *)
Definition commit (r : Request.t) : pr LocalCommit.t :=
  tx (λ i,
    let sequence := last_sequence (Disk.attempts i) + 1 in
    let id := commit_id r in
    if existsb (is_prepared r) (Disk.attempts i) && existsb (λ a, bool_decide (Disk.AttemptsRow.local_commit_id a = Some id)) (Disk.attempts i)
    then Err ESql
    else if bool_decide (affected (is_prepared r) (Disk.attempts i) = 1%nat)
    then Ok (LocalCommit.mk id sequence r, Disk.set_attempts (update (is_prepared r) (durable_row id sequence) (Disk.attempts i)) i)
    else Err Conflict).
End inventory.
End Inventory.

(** ** [mod.rs] *)
Module Provider.
Import ProviderTypes Root Inventory.

Section provider.
Context {lib : CaptureLib} {pj : ProviderJson} (euid : Z) (fault : nat → option nat).
(** The fields of an open provider that do not change. *)
Context (root : Root.t) (capture : bool) (realm : string).

Abbreviation validate_root := (validate_root euid fault root).
Abbreviation existing := (existing euid fault root).
Abbreviation object_dir := (object_dir euid fault root).
Abbreviation verified_bytes := (verified_bytes fault).
Abbreviation checkpoint := (checkpoint fault).

Definition available : pr unit := λ s, if poisoned s then (Err Poisoned, s) else validate_root s.
Definition poison {A} : pr A := λ s, poison_root euid fault root (set_poisoned s).

Definition durable_bytes (r : Request.t) : pr bytes :=
  o <~ object_dir r false ;;
  f <~ existing (Disk.InObject o (object_name r)) ;;
  f <~ st_lift (ok_or f NotFound) ;;
  verified_bytes f r.

(** Every error of the block poisons. *)
Definition or_poison {A} (m : pr A) : pr A := λ s,
  match m s with (Ok a, s) => (Ok a, s) | (Err _, s) => poison s end.

Fixpoint check_records (rs : list Record_.t) : pr unit :=
  match rs with
  | [] => st_ret tt
  | r :: rs =>
      _ <~ match Record_.committed r with
           | Some _ => _ <~ or_poison (durable_bytes (Record_.request r)) ;; st_ret tt
           | None => st_ret tt
           end ;;
      check_records rs
  end.
Definition consistency : pr unit :=
  _ <~ available ;;
  rs <~ or_poison (records fault) ;;
  check_records rs.

Definition reject_unattributed_files (r : Request.t) : pr unit :=
  f <~ existing (Disk.InStaging (staging_name r)) ;;
  match f with
  | Some _ => st_err Conflict
  | None => λ s,
      match object_dir r false s with
      | (Ok o, s) =>
          (f <~ existing (Disk.InObject o (object_name r)) ;;
           match f with Some _ => st_err Conflict | None => st_ret tt end) s
      | (Err (Io KNotFound), s) => (Ok tt, s)
      | (Err e, s) => (Err e, s)
      end
  end.

(** [chunks(n)] of a slice. *)
Fixpoint chunks (fuel n : nat) (b : bytes) : list bytes :=
  match fuel, b with
  | O, _ | _, [] => []
  | S fuel, _ => take n b :: chunks fuel n (drop n b)
  end.
Fixpoint write_chunks (f : Disk.Loc) (l : list bytes) : pr unit :=
  match l with [] => st_ret tt | c :: l => _ <~ write_all fault f c ;; write_chunks f l end.

Definition prepare_file (r : Request.t) (b : bytes) (was_reserved : bool) : pr unit :=
  f <~ existing (Disk.InStaging (staging_name r)) ;;
  match f with
  | Some f =>
      if negb was_reserved then st_err Conflict
      else
        _ <~ verified_bytes f r ;;
        _ <~ checkpoint "before_file_sync" ;;
        _ <~ sync_file fault f ;;
        checkpoint "after_file_sync"
  | None =>
      f <~ create_stage euid fault root r ;;
      _ <~ checkpoint "after_create" ;;
      _ <~ checkpoint "before_write" ;;
      _ <~ write_all fault f (take 4096 b) ;;
      _ <~ checkpoint "after_partial_write" ;;
      _ <~ write_chunks f (chunks (length b) (Z.to_nat 65536) (drop 4096 b)) ;;
      _ <~ checkpoint "after_write" ;;
      _ <~ checkpoint "before_file_sync" ;;
      _ <~ sync_file fault f ;;
      checkpoint "after_file_sync"
  end.

(** From the reservation to the published file. *)
Definition place (r : Request.t) (b : bytes) (was_reserved : bool) (destination : string) : pr unit :=
  f <~ existing (Disk.InObject destination (object_name r)) ;;
  match f with
  | Some f =>
      if negb was_reserved then st_err Conflict
      else
        _ <~ verified_bytes f r ;;
        _ <~ checkpoint "before_file_sync" ;;
        sync_file fault f
  | None =>
      _ <~ prepare_file r b was_reserved ;;
      _ <~ checkpoint "before_rename" ;;
      _ <~ publish fault r destination ;;
      checkpoint "after_rename"
  end.

Definition stage_internal (r : Request.t) (b : bytes) (bound : option (WireDescriptor.t * string)) : pr LocalCommit.t :=
  _ <~ available ;;
  _ <~ st_lift (validate r) ;;
  if negb (verifies r b) then st_err InvalidInput
  else
    _ <~ consistency ;;
    prior <~ records fault ;;
    _ <~ (if existsb (λ x, bool_decide (Request.operation_id (Record_.request x) = Request.operation_id r)) prior
          then st_ret tt else reject_unattributed_files r) ;;
    _ <~ checkpoint "before_prepare" ;;
    x <~ reserve fault r bound ;;
    match x.2 with
    | Some commit => st_ret commit
    | None =>
        _ <~ checkpoint "after_prepare" ;;
        destination <~ object_dir r true ;;
        _ <~ place r b x.1 destination ;;
        _ <~ checkpoint "before_directory_sync" ;;
        _ <~ sync_publish_dirs fault destination ;;
        _ <~ checkpoint "after_directory_sync" ;;
        _ <~ available ;;
        _ <~ checkpoint "before_commit" ;;
        c <~ commit fault r ;;
        _ <~ checkpoint "after_commit" ;;
        st_ret c
    end.

Definition stage (r : Request.t) (b : bytes) : pr LocalCommit.t :=
  if capture then st_err Conflict else stage_internal r b None.

(** [CaptureDescriptor::allocation] of [capture_binding.rs]. *)
Definition allocation (d : WireDescriptor.t) (part_id : string) (r : Request.t) : result unit Error :=
  _ <?- validate r ;;
  p <?- ok_or (Capture.find_part d part_id) InvalidInput ;;
  if bool_decide (WireDescriptor.realm_id d = realm) && bool_decide (Part.object_id p = Request.object_id r)
     && bool_decide (Part.object_revision p = Request.revision_id r) && bool_decide (Part.size_bytes p = Request.expected_len r)
     && bool_decide (Part.sha256 p = Request.sha256 r)
     && Bool.eqb (bool_decide (Part.role p = "note")) (bool_decide (Request.kind r = Note))
  then Ok tt else Err Conflict.

Definition stage_capture (d : WireDescriptor.t) (part : string) (r : Request.t) (b : bytes) : pr LocalCommit.t :=
  if negb capture then st_err Conflict
  else
    _ <~ st_lift (allocation d part r) ;;
    if negb (bytes_utf8 b) then st_err InvalidInput else stage_internal r b (Some (d, part)).

Definition read_internal (r : Request.t) : pr bytes :=
  _ <~ available ;;
  _ <~ st_lift (validate r) ;;
  _ <~ consistency ;;
  rs <~ records fault ;;
  x <~ st_lift (ok_or (find (λ x, bool_decide (Request.operation_id (Record_.request x) = Request.operation_id r)) rs) NotFound) ;;
  if negb (bool_decide (Record_.request x = r)) then st_err Conflict
  else match Record_.committed x with
       | None => st_err UnresolvedPrepared
       | Some _ => or_poison (durable_bytes r)
       end.
Definition read (r : Request.t) : pr bytes := if capture then st_err Conflict else read_internal r.
Definition read_capture (d : WireDescriptor.t) (part : string) (r : Request.t) : pr bytes :=
  if negb capture then st_err Conflict
  else
    _ <~ st_lift (allocation d part r) ;;
    _ <~ verify_capture fault r d part ;;
    read_internal r.

Definition inspect : pr (nat * list LocalCommit.t) :=
  _ <~ consistency ;;
  rs <~ records fault ;;
  _ <~ verify_policy fault ;;
  st_ret (length (List.filter (λ x, bool_decide (¬ is_Some (Record_.committed x))) rs), omap Record_.committed rs).

(** [close]; when SQLite does not acknowledge, the process is abandoned. *)
Definition close : pr unit := λ s,
  match tick fault s with
  | (_, s) => match fault (pred (calls s)) with
              | Some _ => (Err ESql, drop_root true false s)
              | None => (Ok tt, drop_root true true s)
              end
  end.
End provider.

Section open.
Context {lib : CaptureLib} {pj : ProviderJson} (euid : Z) (canonical : bool) (fault : nat → option nat).

(** An error before the worker is started drops a root that only held the lock;
    one while it is started abandons the process, unless the close is
    acknowledged. *)
Definition or_drop {A} (started : bool) (m : pr A) : pr A := λ s,
  match m s with (Ok a, s) => (Ok a, s) | (Err e, s) => (Err e, drop_root started false s) end.
Definition or_close {A} (m : pr A) : pr A := λ s,
  match m s with
  | (Ok a, s) => (Ok a, s)
  | (Err e, s) => match close fault s with (Ok _, s) => (Err e, s) | (Err e', s) => (Err e', s) end
  end.

Definition initialize_profile (dv : Z) (inos : string → Z) (binding : Binding) (capture : bool) : pr unit :=
  root <~ Root.initialize_root euid canonical fault dv inos binding capture ;;
  _ <~ or_drop true (connect fault (validate_root euid fault root)) ;;
  _ <~ or_close (Inventory.initialize fault binding capture) ;;
  close fault.

Definition fresh_session : pr unit := λ s, (Ok tt, mkProcess (disk s) (abandoned s) (locked s) false false (calls s)).

Definition open_profile (binding : Binding) (capture : bool) : pr Root.t :=
  root <~ Root.open euid canonical fault binding ;;
  _ <~ or_drop false (validate_root euid fault root) ;;
  _ <~ or_drop true (connect fault (validate_root euid fault root)) ;;
  _ <~ or_close (verify_binding fault binding capture) ;;
  _ <~ fresh_session ;;
  _ <~ or_close (consistency euid fault root) ;;
  st_ret root.
End open.
End Provider.
