(* ===== verification/ProviderProps.v ===== *)
(** * Lemmas: the synthetic provider

    What a durable object is on the disk, that no call loses one, and what a
    stage does to files and inventory. *)

From stdpp Require Import prelude gmap strings.
From Stdlib Require Import ZArith Lia Strings.Byte Strings.Ascii.
From S2P Require Import Prelude Text BlobStore Publisher Sql Capture Provider.

#[local] Open Scope Z_scope.

Create HintDb quiet_fs.

Module ProviderProps.
Import ProviderTypes Root Inventory Provider.

Section props.
Context {lib : CaptureLib} {pj : ProviderJson} (euid dv : Z).

(** ** Durable objects *)
Definition dir_ok (x : Disk.Dir) : Prop := checked euid (Disk.d_meta x) dv true = Ok tt.
Definition file_ok (x : Disk.File) : Prop := checked euid (Disk.f_meta x) dv false = Ok tt.

(** The object's file is there with the right bytes. *)
Definition placed (d : Disk.t) (r : Request.t) (synced : bool) : Prop :=
  ∃ x f, Disk.objects d !! Request.object_id r = Some x ∧ dir_ok x ∧ Disk.d_files x !! object_name r = Some f ∧ file_ok f
    ∧ verifies r (Disk.content f) = true ∧ Disk.content_synced f = true
    ∧ (synced = true → Disk.d_synced x = true ∧ Disk.entry_synced f = true).
Definition stored (d : Disk.t) (r : Request.t) : Prop := placed d r true.
Definition has_dir (d : Disk.t) (o : string) : Prop := ∃ x, Disk.objects d !! o = Some x ∧ dir_ok x.

(** A change of the disk that leaves the inventory and loses no object. *)
Record fs_le (d d' : Disk.t) : Prop := {
  le_inventory : Disk.inventory d' = Disk.inventory d;
  le_placed r b : placed d r b → placed d' r b;
  le_dir o : has_dir d o → has_dir d' o
}.
#[global] Instance fs_le_refl : Reflexive fs_le.
Proof. by split. Qed.
#[global] Instance fs_le_trans : Transitive fs_le.
Proof. intros d1 d2 d3 [H1 H2 H3] [K1 K2 K3]. split; [congruence|eauto|eauto]. Qed.

Lemma fs_le_objects d d' : Disk.inventory d' = Disk.inventory d → Disk.objects d' = Disk.objects d → fs_le d d'.
Proof. intros H1 H2. split; [done| |]; intros *; unfold placed, has_dir; by rewrite H2. Qed.

Lemma fs_le_dirs d d' :
  Disk.inventory d' = Disk.inventory d →
  (∀ o x, Disk.objects d !! o = Some x → ∃ x', Disk.objects d' !! o = Some x' ∧ Disk.d_meta x' = Disk.d_meta x
     ∧ (Disk.d_synced x = true → Disk.d_synced x' = true)
     ∧ ∀ n f, Disk.d_files x !! n = Some f → ∃ f', Disk.d_files x' !! n = Some f' ∧ Disk.f_meta f' = Disk.f_meta f
         ∧ Disk.content f' = Disk.content f ∧ (Disk.content_synced f = true → Disk.content_synced f' = true)
         ∧ (Disk.entry_synced f = true → Disk.entry_synced f' = true)) →
  fs_le d d'.
Proof.
  intros Hi Hd. split; [done| |].
  - intros r b (x&f&Hx&Hdx&Hf&Hfx&Hv&Hc&Hs). destruct (Hd _ _ Hx) as (x'&Hx'&Hm&Hsy&Hfs). destruct (Hfs _ _ Hf) as (f'&Hf'&Hfm&Hct&Hcs&Hes).
    exists x', f'. unfold dir_ok, file_ok in *. rewrite Hm, Hfm, Hct. split_and!; auto. intros Hb. destruct (Hs Hb). auto.
  - intros o (x&Hx&Hdx). destruct (Hd _ _ Hx) as (x'&Hx'&Hm&_). exists x'. unfold dir_ok in *. by rewrite Hm.
Qed.

(** ** Calls that leave inventory and objects *)
Definition quiet {A} (m : pr A) : Prop := ∀ s, fs_le (disk s) (disk (m s).2).

Lemma disk_quiet_ret {A} (a : A) : quiet (st_ret a).
Proof. done. Qed.
Lemma disk_quiet_err {A} e : quiet (A:=A) (st_err e).
Proof. done. Qed.
Lemma disk_quiet_lift {A} (x : result A Error) : quiet (st_lift x).
Proof. done. Qed.
Lemma disk_quiet_bind {A B} (m : pr A) (k : A → pr B) : quiet m → (∀ a, quiet (k a)) → quiet (st_bind m k).
Proof.
  intros Hm Hk s. unfold st_bind. specialize (Hm s). destruct (m s) as [[a|e] s1]; simpl in *; [|done].
  etrans; [exact Hm|apply Hk].
Qed.
Lemma quiet_ok {A} (m : pr A) s x s' : quiet m → m s = (x, s') → fs_le (disk s) (disk s').
Proof. intros H E. specialize (H s). by rewrite E in H. Qed.

Context (fault : nat → option nat).

Lemma quiet_tick : quiet (tick fault).
Proof. done. Qed.
Lemma quiet_io {A} (f : Disk.t → result (A * Disk.t) Error) :
  (∀ d a d', f d = Ok (a, d') → fs_le d d') → quiet (io fault f).
Proof.
  intros Hf. apply disk_quiet_bind; [done|]. intros [n|]; [done|]. intros s. destruct (f (disk s)) as [[a d']|] eqn:H; [|done].
  simpl. by eapply Hf.
Qed.
Lemma quiet_look {A} (f : Disk.t → result A Error) : quiet (look fault f).
Proof. apply quiet_io. intros d a d' H. destruct (f d); by simplify_eq/=. Qed.
Lemma quiet_change f : (∀ d, fs_le d (f d)) → quiet (change fault f).
Proof. intros Hf. apply quiet_io. intros d a d' [= _ <-]. apply Hf. Qed.
Lemma quiet_checkpoint n : quiet (checkpoint fault n).
Proof. apply disk_quiet_bind; [done|]. by intros []. Qed.
Lemma quiet_query {A} (f : Disk.Inventory → result A Error) : quiet (query fault f).
Proof. apply disk_quiet_bind; [done|]. by intros []. Qed.
#[local] Hint Resolve disk_quiet_ret disk_quiet_err disk_quiet_lift quiet_tick quiet_look quiet_checkpoint quiet_query : quiet_fs.

Ltac quiet := repeat first [ solve [auto with quiet_fs] | apply disk_quiet_bind; [|intros ?]
  | match goal with |- quiet (match ?x with _ => _ end) => destruct x end ].

Lemma quiet_validate_root r : quiet (validate_root euid fault r).
Proof. intros s. unfold validate_root. destruct (abandoned s); [done|]. revert s. unfold open_handle. quiet. Qed.
Lemma quiet_set_poisoned {A} (m : pr A) : quiet m → quiet (λ s, m (set_poisoned s)).
Proof. intros H s. apply (H (set_poisoned s)). Qed.
Lemma quiet_poison {A} r : quiet (A:=A) (poison euid fault r).
Proof.
  apply quiet_set_poisoned. intros s. unfold poison_root. destruct (fail_poison_before_create s); [done|].
  assert (quiet (write_marker euid fault r)) as H.
  { unfold write_marker. apply disk_quiet_bind.
    - apply quiet_io. intros d a d'. destruct (Disk.entry "POISON" d); [done|]. intros [= _ <-]. by apply fs_le_objects.
    - intros _. do 2 (apply disk_quiet_bind; [by apply quiet_change|intros _]). by apply quiet_change. }
  specialize (H s). by destruct (write_marker euid fault r s) as [[] s1].
Qed.
#[local] Hint Resolve quiet_validate_root quiet_poison : quiet_fs.

Lemma quiet_available r : quiet (available euid fault r).
Proof. intros s. unfold available. destruct (poisoned s); [done|]. apply quiet_validate_root. Qed.
Lemma quiet_or_poison {A} r (m : pr A) : quiet m → quiet (or_poison euid fault r m).
Proof.
  intros Hm s. unfold or_poison. specialize (Hm s). destruct (m s) as [[a|e] s1]; simpl in *; [done|].
  etrans; [exact Hm|]. apply (quiet_poison (A:=A)).
Qed.
Lemma disk_quiet_existing r l : quiet (existing euid fault r l).
Proof. unfold existing. quiet. Qed.
Lemma quiet_verified_bytes l q : quiet (verified_bytes fault l q).
Proof. unfold verified_bytes. quiet. Qed.
#[local] Hint Resolve quiet_available quiet_or_poison disk_quiet_existing quiet_verified_bytes : quiet_fs.
Lemma quiet_sync_objects d : fs_le d (sync_objects d).
Proof.
  apply fs_le_dirs; [done|]. intros o x Hx. exists (Disk.mark_dir x). simpl. rewrite lookup_fmap, Hx. split_and!; try done.
  intros n f Hf. by exists f.
Qed.
Lemma quiet_object_dir r q c : quiet (object_dir euid fault r q c).
Proof.
  unfold object_dir. apply disk_quiet_bind; [|intros ?; quiet]. destruct c; [|done]. apply disk_quiet_bind.
  - apply quiet_io. intros d a d'. destruct (Disk.objects d !! Request.object_id q) as [x|] eqn:Hx; intros [= _ <-]; [done|].
    apply fs_le_dirs; [done|]. intros o y Hy. exists y. simpl. rewrite lookup_insert_ne by congruence. split_and!; try done.
    intros n f Hf. by exists f.
  - intros []; [|done]. apply quiet_change, quiet_sync_objects.
Qed.
Lemma quiet_records : quiet (records fault).
Proof. unfold records. quiet. Qed.
#[local] Hint Resolve quiet_object_dir quiet_records : quiet_fs.
Lemma quiet_durable_bytes r q : quiet (durable_bytes euid fault r q).
Proof. unfold durable_bytes. quiet. Qed.
Lemma quiet_check_records r rs : quiet (check_records euid fault r rs).
Proof. induction rs as [|x rs IH]; simpl; [quiet|]. apply disk_quiet_bind; [|done]. destruct (Record_.committed x); quiet.
  apply quiet_or_poison, quiet_durable_bytes. Qed.
Lemma quiet_consistency r : quiet (consistency euid fault r).
Proof. unfold consistency. quiet. apply quiet_check_records. Qed.
Lemma quiet_reject r q : quiet (reject_unattributed_files euid fault r q).
Proof.
  unfold reject_unattributed_files. apply disk_quiet_bind; [quiet|]. intros [l|]; [done|]. intros s.
  pose proof (quiet_object_dir r q false s) as H. destruct (object_dir euid fault r q false s) as [[o|e] s1]; simpl in H.
  - etrans; [exact H|]. revert s1 H. intros s1 _. revert s1. quiet.
  - by destruct e as [| | | | | | | | | | | |[]| |].
Qed.

(** ** Files *)
Lemma quiet_write_all n b : quiet (write_all fault (Disk.InStaging n) b).
Proof. apply disk_quiet_bind; [done|]. intros [k|] s; by apply fs_le_objects. Qed.
Lemma fs_le_mark_content l d : fs_le d (Disk.alter_file Disk.mark_content l d).
Proof.
  destruct l as [n|o n]; [by apply fs_le_objects|]. apply fs_le_dirs; [done|]. intros o' x Hx. simpl.
  destruct (decide (o = o')) as [<-|Hne]; [|rewrite lookup_alter_ne by done; exists x; split_and!; try done; intros m f Hf; by exists f].
  rewrite lookup_alter, decide_True, Hx by done. eexists. split; [done|]. split_and!; [done|done|]. intros m f Hf. simpl.
  destruct (decide (n = m)) as [<-|Hne]; [|rewrite lookup_alter_ne by done; by exists f].
  rewrite lookup_alter, decide_True, Hf by done. by eexists.
Qed.
Lemma quiet_sync_file l : quiet (sync_file fault l).
Proof. apply quiet_change. intros d. apply fs_le_mark_content. Qed.
Lemma quiet_create_stage r q : quiet (create_stage euid fault r q).
Proof.
  apply quiet_io. intros d a d'. destruct (Disk.staging d !! staging_name q); [done|]. intros [= _ <-]. by apply fs_le_objects.
Qed.
#[local] Hint Resolve quiet_write_all quiet_sync_file quiet_create_stage : quiet_fs.
Lemma quiet_write_chunks n l : quiet (write_chunks fault (Disk.InStaging n) l).
Proof. induction l; simpl; quiet. Qed.
#[local] Hint Resolve quiet_write_chunks : quiet_fs.

Lemma quiet_publish q o : quiet (publish fault q o).
Proof.
  apply quiet_io. intros d a d'. destruct (Disk.staging d !! staging_name q) as [f|]; [|done]. simpl.
  destruct (Disk.objects d !! o) as [x|] eqn:Hx; [|done]. simpl. destruct (Disk.d_files x !! object_name q) eqn:Hn; [done|].
  intros [= _ <-]. apply fs_le_dirs; [done|]. intros o' y Hy. simpl. destruct (decide (o = o')) as [<-|Hne].
  - rewrite lookup_insert, decide_True by done. simplify_eq. eexists. split; [done|]. split_and!; [done|done|]. intros m g Hg. simpl.
    exists g. rewrite lookup_insert_ne by congruence. done.
  - rewrite lookup_insert_ne by done. exists y. split_and!; try done. intros m g Hg. by exists g.
Qed.

Lemma existing_ok r l s x s' :
  device r = dv → existing euid fault r l s = (Ok x, s') →
  disk s' = disk s ∧ match x with Some l' => l' = l ∧ ∃ f, Disk.lookup_file l (disk s) = Some f ∧ file_ok f | None => Disk.lookup_file l (disk s) = None end.
Proof.
  intros Hdv (f&s1&Hl&Hk)%st_bind_ok. unfold look, io in Hl. apply st_bind_ok in Hl as (t&s2&[= <- <-]&Hl).
  destruct (fault _); [done|]. simpl in Hl. injection Hl as <- <-. simpl in *. destruct (Disk.lookup_file l (disk s)) as [f|] eqn:Hf.
  - apply st_bind_ok in Hk as (u&s2&[Hc ->]%st_lift_ok&Hk). injection Hk as <- <-. simpl. split_and!; [done|done|]. exists f.
    split; [done|]. unfold file_ok. rewrite <-Hdv. by destruct u.
  - injection Hk as <- <-. done.
Qed.

Lemma look_ok {A} (f : Disk.t → result A Error) s a s' : look fault f s = (Ok a, s') → f (disk s) = Ok a ∧ disk s' = disk s.
Proof.
  unfold look, io. intros (t&s2&[= <- <-]&Hl)%st_bind_ok. destruct (fault _); [done|]. simpl in Hl.
  destruct (f (disk s)); simplify_eq/=. done.
Qed.
Lemma change_ok f s u s' : change fault f s = (Ok u, s') → disk s' = f (disk s).
Proof. unfold change, io. intros (t&s2&[= <- <-]&Hl)%st_bind_ok. destruct (fault _); [done|]. by injection Hl as _ <-. Qed.
Lemma checkpoint_ok n s u s' : checkpoint fault n s = (Ok u, s') → disk s' = disk s.
Proof. unfold checkpoint. intros (t&s2&[= <- <-]&Hl)%st_bind_ok. destruct (fault _); [done|]. by injection Hl as _ <-. Qed.
Lemma disk_query_ok {A} (f : Disk.Inventory → result A Error) s a s' :
  query fault f s = (Ok a, s') → f (Disk.inventory (disk s)) = Ok a ∧ disk s' = disk s.
Proof.
  unfold query. intros (t&s2&[= <- <-]&Hl)%st_bind_ok. destruct (fault _); [done|]. injection Hl as H1 <-. done.
Qed.

Lemma verified_ok l q s b s' :
  validate q = Ok tt → verified_bytes fault l q s = (Ok b, s') →
  disk s' = disk s ∧ ∃ f, Disk.lookup_file l (disk s) = Some f ∧ Disk.content f = b ∧ verifies q b = true.
Proof.
  intros Hq (x&s1&[Hl Hd]%look_ok&Hk)%st_bind_ok. destruct (Disk.lookup_file l (disk s)) as [f|]; [|done]. simpl in Hl. injection Hl as <-.
  destruct (verifies _ _) eqn:Hv; [|done]. injection Hk as <- <-. split; [done|]. exists f. split; [done|].
  split; [|done]. unfold verifies in Hv. rewrite !andb_true_iff, bool_decide_eq_true in Hv. destruct Hv as [[Hlen _] _].
  unfold validate in Hq. destruct (_ && _) eqn:Hb; [|done]. rewrite !andb_true_iff, bool_decide_eq_true in Hb. destruct Hb as [[_ Hmax] _].
  symmetry. apply take_ge. assert (kind_max (Request.kind q) ≤ MAX_BLOB) by (by destruct (Request.kind q)). rewrite length_take in Hlen. lia.
Qed.

Lemma disk_write_all_ok n b s u s' :
  write_all fault (Disk.InStaging n) b s = (Ok u, s') →
  Disk.staging (disk s') = alter (Disk.append b) n (Disk.staging (disk s)) ∧ Disk.objects (disk s') = Disk.objects (disk s).
Proof. unfold write_all. intros (t&s2&[= <- <-]&Hl)%st_bind_ok. destruct (fault _); [done|]. by injection Hl as _ <-. Qed.

(** The staging file while it is written. *)
Definition writing (d : Disk.t) (n : string) (b : bytes) : Prop :=
  ∃ f, Disk.staging d !! n = Some f ∧ Disk.content f = b ∧ file_ok f.

Lemma writing_append n b c s u s' :
  write_all fault (Disk.InStaging n) c s = (Ok u, s') → writing (disk s) n b → writing (disk s') n (b ++ c).
Proof.
  intros [H _]%disk_write_all_ok (f&Hf&Hb&Hok). exists (Disk.append c f). rewrite H, lookup_alter, decide_True, Hf by done. simpl.
  split_and!; [done|by rewrite Hb|done].
Qed.
Lemma writing_chunks n l s u s' b :
  write_chunks fault (Disk.InStaging n) l s = (Ok u, s') → writing (disk s) n b → writing (disk s') n (b ++ concat l).
Proof.
  revert s b. induction l as [|c l IH]; intros s b; simpl; [intros [= _ <-]; by rewrite app_nil_r|].
  intros (v&s1&Hw&Hk)%st_bind_ok H. rewrite app_assoc. eapply IH; [exact Hk|]. by eapply writing_append.
Qed.
Lemma chunks_concat fuel n b : (0 < n)%nat → (length b ≤ fuel)%nat → concat (chunks fuel n b) = b.
Proof.
  intros Hn. revert b. induction fuel as [|fuel IH]; intros b Hb; destruct b as [|x b]; try done; [simpl in Hb; lia|].
  simpl chunks. simpl concat. rewrite IH; [apply take_drop|]. rewrite length_drop. simpl in *. lia.
Qed.

Context (root : Root.t) (Hdv : device root = dv).

Lemma new_meta_ok b : checked euid (new_meta euid root b) dv b = Ok tt.
Proof. unfold checked, new_meta. rewrite Hdv. simpl. rewrite !bool_decide_true by (by destruct b). by destruct b. Qed.

Lemma quiet_prepare_file q b w : quiet (prepare_file euid fault root q b w).
Proof.
  unfold prepare_file. apply disk_quiet_bind; [quiet|]. intros [l|]; [quiet|]. intros s. unfold st_bind.
  pose proof (quiet_create_stage root q s) as Hq. destruct (create_stage euid fault root q s) as [[l|e] s1] eqn:Hc; simpl in *; [|done].
  assert (l = Disk.InStaging (staging_name q)) as ->.
  { unfold create_stage, io in Hc. apply st_bind_ok in Hc as (t&s2&[= <- <-]&Hl). destruct (fault _); [done|].
    destruct (_ !! _); by injection Hl. }
  etrans; [exact Hq|]. clear Hq Hc. revert s1. change (quiet (
    _ <~ checkpoint fault "after_create" ;; _ <~ checkpoint fault "before_write" ;;
    _ <~ write_all fault (Disk.InStaging (staging_name q)) (take 4096 b) ;; _ <~ checkpoint fault "after_partial_write" ;;
    _ <~ write_chunks fault (Disk.InStaging (staging_name q)) (chunks (length b) (Z.to_nat 65536) (drop 4096 b)) ;;
    _ <~ checkpoint fault "after_write" ;; _ <~ checkpoint fault "before_file_sync" ;;
    _ <~ sync_file fault (Disk.InStaging (staging_name q)) ;; checkpoint fault "after_file_sync")). quiet.
Qed.

(** The staged file is complete and synced. *)
Definition staged_file (d : Disk.t) (q : Request.t) : Prop :=
  ∃ f, Disk.staging d !! staging_name q = Some f ∧ file_ok f ∧ verifies q (Disk.content f) = true ∧ Disk.content_synced f = true.

Lemma mark_content_staged n f d q :
  Disk.staging d !! staging_name q = Some f → file_ok f → verifies q (Disk.content f) = true → n = staging_name q →
  staged_file (Disk.alter_file Disk.mark_content (Disk.InStaging n) d) q.
Proof.
  intros Hf Hok Hv ->. exists (Disk.mark_content f). simpl. rewrite lookup_alter, decide_True, Hf by done. done.
Qed.

Lemma create_stage_ok q s l s' :
  create_stage euid fault root q s = (Ok l, s') → l = Disk.InStaging (staging_name q) ∧ writing (disk s') (staging_name q) [].
Proof.
  unfold create_stage, io. intros (t&s2&[= <- <-]&Hl)%st_bind_ok. destruct (fault _); [done|]. simpl in Hl.
  destruct (Disk.staging (disk s) !! staging_name q) eqn:Hn; [done|]. injection Hl as <- <-. split; [done|]. eexists. simpl.
  rewrite lookup_insert, decide_True by done. split; [done|]. split; [done|]. apply new_meta_ok.
Qed.

Lemma prepare_file_ok q b w s u s' :
  validate q = Ok tt → verifies q b = true → prepare_file euid fault root q b w s = (Ok u, s') → staged_file (disk s') q.
Proof.
  intros Hq Hv (x&s1&[Hd Hx]%existing_ok&Hk)%st_bind_ok; [|done]. destruct x as [l|].
  - destruct Hx as (->&f&Hf&Hok). destruct (negb w); [done|].
    apply st_bind_ok in Hk as (c&s2&(Hd2&f'&Hf'&Hc&Hvc)%verified_ok&Hk); [|done].
    apply st_bind_ok in Hk as (u1&s3&Hd3%checkpoint_ok&Hk). apply st_bind_ok in Hk as (u2&s4&Hd4%change_ok&Hd5%checkpoint_ok).
    rewrite Hd5, Hd4, Hd3, Hd2. rewrite Hd in *. simpl in Hf, Hf'. simplify_eq.
    by eapply mark_content_staged.
  - apply st_bind_ok in Hk as (l&s2&[-> Hw]%create_stage_ok&Hk).
    apply st_bind_ok in Hk as (u1&s3&Hd3%checkpoint_ok&Hk). apply st_bind_ok in Hk as (u2&s4&Hd4%checkpoint_ok&Hk).
    apply st_bind_ok in Hk as (u3&s5&H5&Hk). apply st_bind_ok in Hk as (u4&s6&Hd6%checkpoint_ok&Hk).
    apply st_bind_ok in Hk as (u5&s7&H7&Hk). apply st_bind_ok in Hk as (u6&s8&Hd8%checkpoint_ok&Hk).
    apply st_bind_ok in Hk as (u7&s9&Hd9%checkpoint_ok&Hk). apply st_bind_ok in Hk as (u8&s10&Hd10%change_ok&Hd11%checkpoint_ok).
    rewrite <-Hd3, <-Hd4 in Hw. eapply writing_append in H5; [|exact Hw]. rewrite <-Hd6 in H5.
    eapply writing_chunks in H7; [|exact H5]. rewrite chunks_concat in H7; [|lia|rewrite length_drop; lia].
    rewrite app_nil_l, take_drop in H7. destruct H7 as (f&Hf&Hb&Hok).
    rewrite Hd11, Hd10, Hd9, Hd8. eapply mark_content_staged; [exact Hf|done|by rewrite Hb|done].
Qed.

Lemma quiet_place q b w o : quiet (place euid fault root q b w o).
Proof. unfold place. apply disk_quiet_bind; [quiet|]. intros [l|]; [quiet|].
  apply disk_quiet_bind; [apply quiet_prepare_file|intros _]. apply disk_quiet_bind; [quiet|intros _].
  apply disk_quiet_bind; [apply quiet_publish|intros _]. quiet. Qed.

Lemma place_ok q b w s u s' :
  validate q = Ok tt → verifies q b = true → has_dir (disk s) (Request.object_id q) →
  place euid fault root q b w (Request.object_id q) s = (Ok u, s') → placed (disk s') q false.
Proof.
  intros Hq Hv Hdir (x&s1&[Hd Hx]%existing_ok&Hk)%st_bind_ok; [|done]. rewrite <-Hd in Hdir. destruct x as [l|].
  - destruct Hx as (->&f&Hf&Hok). destruct (negb w); [done|].
    apply st_bind_ok in Hk as (c&s2&(Hd2&f'&Hf'&Hc&Hvc)%verified_ok&Hk); [|done].
    apply st_bind_ok in Hk as (u1&s3&Hd3%checkpoint_ok&Hd4%change_ok).
    rewrite Hd4, Hd3, Hd2. rewrite Hd in *. assert (f' = f) as -> by congruence. simpl in Hf'.
    destruct Hdir as (y&Hy&Hdy). rewrite Hy in Hf'. simpl in Hf'. subst c. exists (Disk.in_dir (alter Disk.mark_content (object_name q)) y), (Disk.mark_content f).
    simpl. rewrite !lookup_alter, !decide_True, Hy, Hf' by done. done.
  - apply st_bind_ok in Hk as (u1&s2&H2&Hk). pose proof (quiet_ok _ _ _ _ (quiet_prepare_file q b w) H2) as [_ _ Hle].
    apply prepare_file_ok in H2 as (f&Hf&Hok&Hvf&Hsf); [|done|done].
    apply Hle in Hdir as (y&Hy&Hdy). apply st_bind_ok in Hk as (u2&s3&Hd3%checkpoint_ok&Hk).
    apply st_bind_ok in Hk as (u3&s4&Hp&Hd5%checkpoint_ok). rewrite Hd5. rewrite <-Hd3 in *.
    unfold publish, io in Hp. apply st_bind_ok in Hp as (t&s5&[= <- <-]&Hp). destruct (fault _); [done|]. simpl in Hp.
    rewrite Hf, Hy in Hp. simpl in Hp. destruct (Disk.d_files y !! object_name q); [done|]. injection Hp as _ <-. simpl.
    eexists _, _. simpl. rewrite lookup_insert, decide_True by done. split; [done|]. split; [done|]. simpl.
    rewrite lookup_insert, decide_True by done. done.
Qed.

Lemma quiet_mark_entries o d : fs_le d (Disk.set_objects (alter (Disk.in_dir (fmap Disk.mark_entry)) o) d).
Proof.
  apply fs_le_dirs; [done|]. intros o' x Hx. simpl.
  destruct (decide (o = o')) as [<-|Hne]; [|rewrite lookup_alter_ne by done; exists x; split_and!; try done; intros m f Hf; by exists f].
  rewrite lookup_alter, decide_True, Hx by done. eexists. split; [done|]. split_and!; [done|done|]. intros m f Hf. simpl.
  rewrite lookup_fmap, Hf. by eexists.
Qed.
Lemma quiet_sync_publish_dirs o : quiet (sync_publish_dirs fault o).
Proof.
  unfold sync_publish_dirs.
  apply disk_quiet_bind; [apply quiet_checkpoint|intros _]. apply disk_quiet_bind; [apply quiet_change; intros d; by apply fs_le_objects|intros _].
  apply disk_quiet_bind; [apply quiet_checkpoint|intros _]. apply disk_quiet_bind; [apply quiet_change, quiet_mark_entries|intros _].
  apply disk_quiet_bind; [apply quiet_checkpoint|intros _]. apply disk_quiet_bind; [apply quiet_change, quiet_sync_objects|intros _].
  apply disk_quiet_bind; [apply quiet_checkpoint|intros _]. by apply quiet_change.
Qed.

Lemma sync_publish_ok q s u s' :
  placed (disk s) q false → sync_publish_dirs fault (Request.object_id q) s = (Ok u, s') → stored (disk s') q.
Proof.
  intros (x&f&Hx&Hdx&Hf&Hok&Hv&Hc&_) Hk.
  apply st_bind_ok in Hk as (u1&s1&H1%checkpoint_ok&Hk). apply st_bind_ok in Hk as (u2&s2&H2%change_ok&Hk).
  apply st_bind_ok in Hk as (u3&s3&H3%checkpoint_ok&Hk). apply st_bind_ok in Hk as (u4&s4&H4%change_ok&Hk).
  apply st_bind_ok in Hk as (u5&s5&H5%checkpoint_ok&Hk). apply st_bind_ok in Hk as (u6&s6&H6%change_ok&Hk).
  apply st_bind_ok in Hk as (u7&s7&H7%checkpoint_ok&H8%change_ok). rewrite H8, H7, H6, H5, H4, H3, H2, H1. unfold id.
  exists (Disk.mark_dir (Disk.in_dir (fmap Disk.mark_entry) x)), (Disk.mark_entry f). simpl.
  rewrite lookup_fmap, lookup_alter, decide_True, Hx by done. simpl. rewrite lookup_fmap, Hf. done.
Qed.

(** ** The inventory *)
Definition row_of (r : Request.t) (c : option Z) (a : Disk.AttemptsRow.t) : Prop :=
  validate r = Ok tt ∧ 0 ≤ Request.expected_len r
  ∧ match c with None => a = prepared_row r | Some n => 0 < n ∧ a = durable_row (commit_id r) n (prepared_row r) end.
Definition allocation_key (a : Disk.AttemptsRow.t) : string * string := (Disk.AttemptsRow.object_id a, Disk.AttemptsRow.revision_id a).
Definition rows_len (l : list Disk.AttemptsRow.t) : Z := foldr (λ a n, Disk.AttemptsRow.expected_len a + n) 0 l.

Record table_ok (i : Disk.Inventory) : Prop := {
  to_rows a : a ∈ Disk.attempts i → ∃ r c, row_of r c a;
  to_operations : NoDup (Disk.AttemptsRow.operation_id <$> Disk.attempts i);
  to_attempts : NoDup (Disk.AttemptsRow.attempt_id <$> Disk.attempts i);
  to_allocations : NoDup (allocation_key <$> Disk.attempts i);
  to_count : Z.of_nat (length (Disk.attempts i)) ≤ MAX_RECORDS;
  to_reserved : rows_len (Disk.attempts i) ≤ MAX_RESERVED_BYTES
}.

Definition record_of (r : Request.t) (c : option Z) : Record_.t :=
  Record_.mk r ((λ n, LocalCommit.mk (commit_id r) n r) <$> c).

Lemma read_row_ok r c a : row_of r c a → read_row a = Ok (record_of r c).
Proof.
  intros (Hv&Hl&Ha). unfold read_row.
  assert (Disk.AttemptsRow.request_json a = request_to_string r) as -> by (destruct c as [n|]; [destruct Ha as [_ ->]|subst]; done).
  rewrite bool_decide_false by (pose proof (request_json_len r Hv Hl); lia). rewrite request_json_roundtrip by done. simpl.
  rewrite Hv. simpl. destruct c as [n|]; [destruct Ha as [Hn ->]|subst]; simpl; rewrite !bool_decide_true by done; done.
Qed.

Lemma row_of_inj r c r' c' a : row_of r c a → row_of r' c' a → r = r' ∧ c = c'.
Proof.
  intros H1%read_row_ok H2%read_row_ok. rewrite H1 in H2. injection H2 as -> H2.
  split; [done|]. destruct c, c'; by simplify_eq/=.
Qed.

Lemma read_rows_ok l :
  (∀ a, a ∈ l → ∃ r c, row_of r c a) → ∃ rs, read_rows l = Ok rs ∧ Forall2 (λ a x, ∃ r c, row_of r c a ∧ x = record_of r c) l rs.
Proof.
  induction l as [|a l IH]; intros H; [by exists []|]. destruct (H a) as (r&c&Hr); [constructor|].
  destruct IH as (rs&Hrs&HF). { intros b Hb. apply H. by constructor. }
  exists (record_of r c :: rs). simpl. rewrite (read_row_ok r c a Hr), Hrs. split; [done|]. constructor; [by exists r, c|done].
Qed.

(** What [records] reads: all rows, in the order of their operations. *)
Definition reads_table (l : list Disk.AttemptsRow.t) (rs : list Record_.t) : Prop :=
  Forall2 (λ a x, ∃ r c, row_of r c a ∧ x = record_of r c) (by_operation l) rs.

Lemma records_ok s rs s' :
  table_ok (Disk.inventory (disk s)) → records fault s = (Ok rs, s') →
  disk s' = disk s ∧ reads_table (Disk.attempts (Disk.inventory (disk s))) rs.
Proof.
  intros Hok (n&s1&[[= <-] Hd1]%disk_query_ok&Hk)%st_bind_ok. case_bool_decide as Hn; [done|].
  apply st_bind_ok in Hk as (rows&s2&[[= <-] Hd2]%disk_query_ok&Hk). apply st_lift_ok in Hk as [Hr ->].
  rewrite Hd2, Hd1 in *. split; [done|]. unfold reads_table.
  assert (length (by_operation (Disk.attempts (Disk.inventory (disk s)))) ≤ 129)%nat as Hlen.
  { unfold by_operation. rewrite sort_by_perm. destruct Hok. unfold MAX_RECORDS in *. lia. }
  rewrite take_ge in Hr by done. destruct (read_rows_ok (by_operation (Disk.attempts (Disk.inventory (disk s))))) as (rs'&Hrs&HF); [|congruence].
  intros a Ha. apply Hok. unfold by_operation in Ha. by rewrite sort_by_perm in Ha.
Qed.

Lemma reads_table_elem l rs x : reads_table l rs → x ∈ rs → ∃ a r c, a ∈ l ∧ row_of r c a ∧ x = record_of r c.
Proof.
  intros HF Hx. apply list_elem_of_lookup in Hx as [k Hk]. destruct (Forall2_lookup_r _ _ _ _ _ HF Hk) as (a&Ha&r&c&Hr&->).
  exists a, r, c. split_and!; [|done|done].
  assert (a ∈ by_operation l) as Hin by (by eapply list_elem_of_lookup_2). unfold by_operation in Hin. by rewrite sort_by_perm in Hin.
Qed.
Lemma reads_table_record l rs a r c : reads_table l rs → a ∈ l → row_of r c a → record_of r c ∈ rs.
Proof.
  intros HF Ha Hr. assert (a ∈ by_operation l) as Ha' by (unfold by_operation; by rewrite sort_by_perm).
  apply list_elem_of_lookup in Ha' as [k Hk]. destruct (Forall2_lookup_l _ _ _ _ _ HF Hk) as (x&Hx&r'&c'&Hr'&->).
  destruct (row_of_inj _ _ _ _ _ Hr Hr') as [<- <-]. by eapply list_elem_of_lookup_2.
Qed.

Lemma rows_len_perm l l' : l ≡ₚ l' → rows_len l = rows_len l'.
Proof. induction 1; simpl; lia. Qed.
Lemma reads_table_len l rs : reads_table l rs → length rs = length l ∧ reserved_len rs = rows_len l.
Proof.
  intros HF. split.
  - apply Forall2_length in HF. unfold by_operation in HF. by rewrite sort_by_perm in HF.
  - rewrite (rows_len_perm l (by_operation l)) by (unfold by_operation; by rewrite sort_by_perm). unfold reads_table in HF.
    induction HF as [|a x l' rs' (r&c&Hr&->) _ IH]; [done|]. simpl. rewrite IH. f_equal.
    destruct Hr as (_&_&Hr). destruct c as [n|]; [destruct Hr as [_ ->]|subst]; done.
Qed.

Lemma find_prior_some r rs x : find_prior r rs = Ok (Some x) → x ∈ rs ∧ Record_.request x = r.
Proof.
  induction rs as [|y rs IH]; simpl; [done|]. destruct (decide _).
  - destruct (decide _) as [H|]; [|done]. intros [= <-]. split; [constructor|done].
  - destruct (_ || _); [done|]. intros [H1 H2]%IH. split; [by constructor|done].
Qed.
Lemma find_prior_none r rs : find_prior r rs = Ok None → ∀ x, x ∈ rs → Request.operation_id (Record_.request x) ≠ Request.operation_id r.
Proof.
  induction rs as [|y rs IH]; simpl; [set_solver|]. destruct (decide _); [by destruct (decide _)|].
  destruct (_ || _); [done|]. intros H x [->|Hx]%elem_of_cons; [done|by apply (IH H)].
Qed.

(** ** Transactions *)
Lemma tx_cases {A} (f : Disk.Inventory → result (A * Disk.Inventory) Error) s res s' :
  tx fault f s = (res, s') →
  (disk s' = disk s ∧ ∀ a, res ≠ Ok a)
  ∨ ∃ a i, f (Disk.inventory (disk s)) = Ok (a, i) ∧ disk s' = Disk.set_inventory i (disk s) ∧ (∀ b, res = Ok b → b = a).
Proof.
  unfold tx, st_bind. simpl. destruct (f (Disk.inventory (disk s))) as [[a i]|e]; [|intros [= <- <-]; by left].
  destruct (fault (calls s)) as [[|n]|]; intros [= <- <-]; [by left| |]; right; exists a, i; split_and!; try done; naive_solver.
Qed.

Definition same_files (d d' : Disk.t) : Prop := Disk.objects d' = Disk.objects d ∧ Disk.staging d' = Disk.staging d.

Definition reserved_from (r : Request.t) (i i' : Disk.Inventory) : Prop :=
  Disk.attempts i' = Disk.attempts i ++ [prepared_row r] ∧ table_ok i'.

Lemma attempts_bindings (i i' : Disk.Inventory) r bound :
  match bound with Some (d, part) => insert_binding r d part i | None => Ok i end = Ok i' → Disk.attempts i' = Disk.attempts i.
Proof.
  destruct bound as [[d part]|]; [|by intros [= ->]]. unfold insert_binding. destruct (_ && _); [|done].
  destruct (insert_row _ _ _); [|done]. by intros [= <-].
Qed.

Lemma insert_attempt_ok r i i' :
  validate r = Ok tt → table_ok i → Z.of_nat (length (Disk.attempts i)) < MAX_RECORDS →
  rows_len (Disk.attempts i) + Request.expected_len r ≤ MAX_RESERVED_BYTES → insert_attempt r i = Ok i' → reserved_from r i i'.
Proof.
  intros Hv Hok Hn Hsum. unfold insert_attempt. destruct (_ && _) eqn:Hb; [|done]. apply andb_true_iff in Hb as [_ Hb%bool_decide_eq_true].
  destruct (insert_row attempt_clash (prepared_row r) (Disk.attempts i)) as [l|] eqn:Hi; [|done]. simpl. intros [= <-].
  pose proof (insert_row_inv _ _ _ _ Hi) as ->.
  assert (∀ b, b ∈ Disk.attempts i → attempt_clash (prepared_row r) b = false) as Hcl.
  { intros b Hin. unfold insert_row in Hi. destruct (existsb _ _) eqn:He; [done|]. apply not_true_is_false. intros Hc.
    rewrite <-not_true_iff_false in He. apply He. apply existsb_exists. exists b. by rewrite <-list_elem_of_In. }
  split; [done|]. destruct Hok as [H1 H2 H3 H4 H5 H6]. split; simpl.
  - intros a [Ha|Ha%list_elem_of_singleton]%elem_of_app; [by apply H1|]. exists r, None. subst. split_and!; [done|lia|done].
  - rewrite fmap_app. apply NoDup_app. split_and!; [done| |apply NoDup_singleton].
    intros k (b&->&Hin)%list_elem_of_fmap Hk%list_elem_of_singleton. specialize (Hcl b Hin). unfold attempt_clash in Hcl.
    rewrite !orb_false_iff, !bool_decide_eq_false in Hcl. destruct Hcl as [[Hc _] _]. by apply Hc.
  - rewrite fmap_app. apply NoDup_app. split_and!; [done| |apply NoDup_singleton].
    intros k (b&->&Hin)%list_elem_of_fmap Hk%list_elem_of_singleton. specialize (Hcl b Hin). unfold attempt_clash in Hcl.
    rewrite !orb_false_iff, !bool_decide_eq_false in Hcl. destruct Hcl as [[_ Hc] _]. by apply Hc.
  - rewrite fmap_app. apply NoDup_app. split_and!; [done| |apply NoDup_singleton].
    intros k (b&->&Hin)%list_elem_of_fmap Hk%list_elem_of_singleton. specialize (Hcl b Hin). unfold attempt_clash in Hcl.
    rewrite !orb_false_iff, andb_false_iff, !bool_decide_eq_false in Hcl. destruct Hcl as [_ Hc]. injection Hk as Hk1 Hk2. naive_solver.
  - rewrite length_app. simpl. lia.
  - unfold rows_len in *. rewrite foldr_app. simpl.
    assert (∀ l n, foldr (λ a n, Disk.AttemptsRow.expected_len a + n) n l = foldr (λ a n, Disk.AttemptsRow.expected_len a + n) 0 l + n) as Hf.
    { induction l as [|x l IH]; intros n; simpl; [done|]. rewrite IH. lia. }
    rewrite Hf. lia.
Qed.

Lemma records_disk s : disk (records fault s).2 = disk s.
Proof.
  unfold records, query, st_bind, st_lift. simpl. destruct (fault _); [done|].
  destruct (bool_decide _); [done|]. simpl. by destruct (fault _).
Qed.
Lemma verify_capture_disk r d part s : disk (verify_capture fault r d part s).2 = disk s.
Proof.
  unfold verify_capture, query, st_bind, st_lift. simpl. destruct (fault _); [done|].
  simpl. destruct (ok_or _ _); [|done]. by destruct (_ && _).
Qed.

(** The outcome of a reservation and the row it is about. *)
Definition reserve_post (r : Request.t) (d d' : Disk.t) (res : result (bool * option LocalCommit.t) Error) : Prop :=
  same_files d d' ∧ (d' = d ∨ reserved_from r (Disk.inventory d) (Disk.inventory d'))
  ∧ ∀ w c, res = Ok (w, c) →
      ∃ a n, a ∈ Disk.attempts (Disk.inventory d') ∧ row_of r n a ∧ c = (λ n, LocalCommit.mk (commit_id r) n r) <$> n
        ∧ (w = true → d' = d) ∧ (w = false → reserved_from r (Disk.inventory d) (Disk.inventory d')).

Lemma reserve_post_err r d e : reserve_post r d d (Err e).
Proof. split_and!; [done|by left|done]. Qed.

Lemma reserve_new r bound s res s' :
  validate r = Ok tt → table_ok (Disk.inventory (disk s)) → Z.of_nat (length (Disk.attempts (Disk.inventory (disk s)))) < MAX_RECORDS →
  rows_len (Disk.attempts (Disk.inventory (disk s))) + Request.expected_len r ≤ MAX_RESERVED_BYTES →
  tx fault (λ i, i <?- insert_attempt r i ;;
                 i <?- match bound with Some (d, part) => insert_binding r d part i | None => Ok i end ;;
                 Ok ((false, None), i)) s = (res, s') →
  reserve_post r (disk s) (disk s') res.
Proof.
  intros Hv Hok Hn Hsum [[Hd' Hno]|(v&i&Hi&Hd'&Hv')]%tx_cases.
  - rewrite Hd'. destruct res as [v|e]; [by destruct (Hno v)|apply reserve_post_err].
  - destruct (insert_attempt r (Disk.inventory (disk s))) as [i1|] eqn:Hi1; [|done]. simpl in Hi.
    apply insert_attempt_ok in Hi1 as [Hatt Hok1]; [|done..].
    destruct (match bound with Some _ => _ | None => _ end) as [i2|] eqn:Hi2; [|done]. simpl in Hi. injection Hi as <- <-.
    apply attempts_bindings in Hi2.
    assert (reserved_from r (Disk.inventory (disk s)) i2) as Hres.
    { split; [by rewrite Hi2|]. destruct Hok1. split; rewrite ?Hi2; done. }
    rewrite Hd'. unfold reserve_post. simpl. split; [done|]. split; [by right|]. intros w c Hw. specialize (Hv' (w, c) Hw). injection Hv' as -> ->.
    exists (prepared_row r), None. split; [rewrite Hi2, Hatt; set_solver|]. split; [|done].
    split_and!; [done| |done]. destruct Hok1 as [Hrows _ _ _ _ _]. destruct (Hrows (prepared_row r)) as (r'&c'&Hr'); [rewrite Hatt; set_solver|].
    destruct Hr' as (_&Hr'&Hrr). destruct c' as [n|]; [destruct Hrr as [_ Hrr]; discriminate|].
    unfold prepared_row in Hrr. by injection Hrr as _ _ _ _ _ ->.
Qed.

Lemma reserve_cases r bound s res s' :
  validate r = Ok tt → table_ok (Disk.inventory (disk s)) → reserve fault r bound s = (res, s') →
  reserve_post r (disk s) (disk s') res.
Proof.
  intros Hv Hok. unfold reserve, st_bind. pose proof (records_disk s) as Hd. destruct (records fault s) as [[rs|e] s1] eqn:Hr; simpl in Hd.
  2: { intros [= <- <-]. rewrite Hd. apply reserve_post_err. }
  pose proof (records_ok _ _ _ Hok Hr) as [_ HT]. unfold st_lift. destruct (find_prior r rs) as [[x|]|e] eqn:Hp.
  3: { intros [= <- <-]. rewrite Hd. apply reserve_post_err. }
  - apply find_prior_some in Hp as [Hx Hxr]. destruct (reads_table_elem _ _ _ HT Hx) as (a&r'&c&Ha&Hrow&->). simpl in Hxr. subst r'.
    set (m := match bound with Some _ => _ | None => _ end). assert (disk (m s1).2 = disk s) as Hm.
    { subst m. destruct bound as [[]|]; [|done]. by rewrite verify_capture_disk. }
    destruct (m s1) as [[u|e] s2]; simpl in Hm; intros [= <- <-]; rewrite Hm; [|apply reserve_post_err].
    split_and!; [done|by left|]. intros w c0 [= <- <-]. by exists a, c.
  - destruct (_ || _) eqn:Hcap; [intros [= <- <-]; rewrite Hd; apply reserve_post_err|].
    apply orb_false_iff in Hcap as [Hc1%bool_decide_eq_false Hc2%bool_decide_eq_false].
    pose proof (reads_table_len _ _ HT) as [Hl1 Hl2]. rewrite Hl1, Hl2 in *. rewrite <-Hd in *. intros Htx.
    eapply reserve_new; [done|done|lia|lia|exact Htx].
Qed.

Lemma last_sequence_pos i : table_ok i → 0 ≤ last_sequence (Disk.attempts i).
Proof.
  intros [Hrows _ _ _ _ _]. unfold last_sequence. destruct (omap _ _) as [|n ns] eqn:Ho; [done|].
  assert (n ∈ omap Disk.AttemptsRow.sequence (Disk.attempts i)) as (a&Ha&Hs)%list_elem_of_omap by (rewrite Ho; constructor).
  destruct (Hrows a Ha) as (r&c&_&_&Hc). assert (0 < n) by (destruct c as [m|]; [destruct Hc as [? ->]|subst]; by simplify_eq/=).
  clear -H. induction ns; simpl; lia.
Qed.

Lemma disk_commit_cases r s res s' :
  table_ok (Disk.inventory (disk s)) → commit fault r s = (res, s') →
  (disk s' = disk s ∧ ∀ c, res ≠ Ok c)
  ∨ ∃ i n, disk s' = Disk.set_inventory i (disk s) ∧ 0 < n
      ∧ Disk.attempts i = update (is_prepared r) (durable_row (commit_id r) n) (Disk.attempts (Disk.inventory (disk s)))
      ∧ (∃ a, a ∈ Disk.attempts (Disk.inventory (disk s)) ∧ is_prepared r a = true)
      ∧ ∀ c, res = Ok c → c = LocalCommit.mk (commit_id r) n r.
Proof.
  intros Hok [[H1 H2]|(c&i&Hi&Hd&Hc)]%tx_cases; [by left|right].
  cbv zeta in Hi. destruct (_ && _); [done|]. case_bool_decide as Haff; [|done]. injection Hi as <- <-.
  eexists _, _. split_and!; [exact Hd| | | |exact Hc].
  - pose proof (last_sequence_pos _ Hok). lia.
  - done.
  - unfold affected in Haff. destruct (select (is_prepared r) (Disk.attempts (Disk.inventory (disk s)))) as [|a l] eqn:Hs; [done|].
    exists a. apply elem_of_select. rewrite Hs. constructor.
Qed.

(** ** The invariant *)
Definition durable_in (i : Disk.Inventory) (r : Request.t) (n : Z) : Prop := ∃ a, a ∈ Disk.attempts i ∧ row_of r (Some n) a.
Definition inv (d : Disk.t) : Prop := table_ok (Disk.inventory d) ∧ ∀ r n, durable_in (Disk.inventory d) r n → stored d r.

Lemma inv_le d d' : fs_le d d' → inv d → inv d'.
Proof. intros [Hi Hp _] [H1 H2]. split; [by rewrite Hi|]. intros r n H. rewrite Hi in H. by eapply Hp, H2. Qed.

Lemma inv_same_files d d' :
  same_files d d' → table_ok (Disk.inventory d') →
  (∀ r n, durable_in (Disk.inventory d') r n → durable_in (Disk.inventory d) r n ∨ stored d r) → inv d → inv d'.
Proof.
  intros [Ho _] Ht Hd [_ H]. split; [done|]. intros r n Hr. unfold stored, placed. rewrite Ho. destruct (Hd r n Hr); [by eapply H|done].
Qed.

Lemma inv_reserve r s bound res s' : validate r = Ok tt → inv (disk s) → reserve fault r bound s = (res, s') → inv (disk s').
Proof.
  intros Hv Hinv (Hf&Hor&_)%reserve_cases; [|done|apply Hinv]. destruct Hor as [->|[Hatt Hok]]; [done|].
  eapply inv_same_files; [exact Hf|done| |done]. intros q n (a&Ha&Hrow). left. exists a. split; [|done]. rewrite Hatt in Ha.
  apply elem_of_app in Ha as [Ha|Ha%list_elem_of_singleton]; [done|]. destruct Hrow as (_&_&_&Hrow). subst a. discriminate.
Qed.

Lemma is_prepared_row r a q c :
  validate r = Ok tt → 0 ≤ Request.expected_len r → row_of q c a → is_prepared r a = true → q = r ∧ c = None.
Proof.
  intros Hv Hl Hrow Hp. unfold is_prepared in Hp. rewrite !andb_true_iff, !bool_decide_eq_true in Hp. destruct Hp as [[_ Hst] Hj].
  destruct Hrow as (Hvq&Hlq&Ha). assert (c = None) as -> by (destruct c as [n|]; [destruct Ha as [_ ->]; discriminate|done]).
  split; [|done]. subst a. simpl in Hj. assert (Some q = Some r) as [= ->]; [|done].
  rewrite <-(request_json_roundtrip q Hvq Hlq), <-(request_json_roundtrip r Hv Hl). by rewrite Hj.
Qed.

Lemma update_keeps_key {K} (key : Disk.AttemptsRow.t → K) p f l : (∀ a, key (f a) = key a) → key <$> update p f l = key <$> l.
Proof. intros Hf. unfold update. rewrite <-list_fmap_compose. apply list_fmap_ext. intros _ a _. simpl. by destruct (p a). Qed.

Lemma rows_len_update p f l : (∀ a, Disk.AttemptsRow.expected_len (f a) = Disk.AttemptsRow.expected_len a) → rows_len (update p f l) = rows_len l.
Proof.
  intros Hf. induction l as [|a l IH]; [done|]. unfold update, rows_len in *. rewrite fmap_cons. simpl foldr. rewrite IH.
  f_equal. by destruct (p a).
Qed.

Lemma inv_commit r s res s' :
  validate r = Ok tt → 0 ≤ Request.expected_len r → inv (disk s) → stored (disk s) r → commit fault r s = (res, s') → inv (disk s').
Proof.
  intros Hv Hl Hinv Hst [[-> _]|(i&n&Hd&Hn&Hatt&(a0&Ha0&Hp0)&_)]%disk_commit_cases; [done| |apply Hinv].
  destruct Hinv as [Hok Hdur]. rewrite Hd.
  assert (∀ a, a ∈ Disk.attempts i → ∃ q c, row_of q c a ∧ (a ∈ Disk.attempts (Disk.inventory (disk s)) ∨ q = r)) as Hrows.
  { intros a. rewrite Hatt. intros (b&Hb&->)%elem_of_update. destruct (to_rows _ Hok b Hb) as (q&c&Hrow).
    destruct (is_prepared r b) eqn:Hp; [|exists q, c; auto]. destruct (is_prepared_row r b q c) as [-> ->]; [done..|].
    exists r, (Some n). split; [|by right]. destruct Hrow as (H1&H2&->). done. }
  eapply (inv_same_files (disk s)); [done| | |done].
  - destruct Hok as [H1 H2 H3 H4 H5 H6]. simpl. split; rewrite ?Hatt.
    + intros a Ha. destruct (Hrows a) as (q&c&Hq&_); [by rewrite Hatt|]. eauto.
    + by rewrite update_keeps_key.
    + by rewrite update_keeps_key.
    + by rewrite update_keeps_key.
    + unfold update. by rewrite length_fmap.
    + by rewrite rows_len_update.
  - simpl. intros q m (a&Ha&Hrow). destruct (Hrows a Ha) as (q'&c&Hq'&Hor). destruct (row_of_inj _ _ _ _ _ Hrow Hq') as [<- <-].
    destruct Hor as [Hin| ->]; [left; by exists a|by right].
Qed.

(** ** Operations keep it, and what was durable *)
Definition grows (d d' : Disk.t) : Prop := ∀ r n, durable_in (Disk.inventory d) r n → durable_in (Disk.inventory d') r n.
#[global] Instance grows_refl : Reflexive grows.
Proof. by intros d r n. Qed.
#[global] Instance grows_trans : Transitive grows.
Proof. intros d1 d2 d3 H1 H2 r n H. by apply H2, H1. Qed.

Lemma grows_reserve r s bound res s' :
  validate r = Ok tt → inv (disk s) → reserve fault r bound s = (res, s') → grows (disk s) (disk s').
Proof.
  intros Hv Hinv (_&Hor&_)%reserve_cases; [|done|apply Hinv]. destruct Hor as [->|[Hatt _]]; [done|].
  intros q n (a&Ha&Hrow). exists a. rewrite Hatt. split; [set_solver|done].
Qed.
Lemma grows_commit r s res s' : inv (disk s) → commit fault r s = (res, s') → grows (disk s) (disk s').
Proof.
  intros Hinv [[-> _]|(i&n&Hd&_&Hatt&_)]%disk_commit_cases; [done| |apply Hinv]. intros q m (a&Ha&Hrow). exists a. split; [|done].
  rewrite Hd. simpl. rewrite Hatt. apply elem_of_update. exists a. split; [done|].
  assert (is_prepared r a = false) as ->; [|done]. destruct Hrow as (_&_&_&->). unfold is_prepared. simpl.
  destruct (bool_decide (_ = Request.operation_id r)); done.
Qed.

(** A stage that answers has the record. *)
Lemma stage_records q b bound s c s' :
  inv (disk s) → stage_internal euid fault root q b bound s = (Ok c, s') →
  ∃ n, c = LocalCommit.mk (commit_id q) n q ∧ durable_in (Disk.inventory (disk s')) q n.
Proof.
  intros Hinv Hs. apply st_bind_ok in Hs as (u1&s1&H1&Hs). pose proof (quiet_ok _ _ _ _ (quiet_available root) H1) as L1.
  apply st_bind_ok in Hs as ([]&s2&[Hv ->]%st_lift_ok&Hs). destruct (negb _) eqn:Hb; [done|]. apply negb_false_iff in Hb.
  apply st_bind_ok in Hs as (u2&s3&H3&Hs). pose proof (quiet_ok _ _ _ _ (quiet_consistency root) H3) as L3.
  apply st_bind_ok in Hs as (prior&s4&H4&Hs). pose proof (quiet_ok _ _ _ _ quiet_records H4) as L4.
  apply st_bind_ok in Hs as (u3&s5&H5&Hs). assert (fs_le (disk s4) (disk s5)) as L5.
  { destruct (existsb _ _); [by injection H5 as _ <-|]. exact (quiet_ok _ _ _ _ (quiet_reject root q) H5). }
  apply st_bind_ok in Hs as (u4&s6&H6&Hs). pose proof (quiet_ok _ _ _ _ (quiet_checkpoint _) H6) as L6.
  assert (inv (disk s6)) as Hinv6. { eapply inv_le; [|exact Hinv]. etrans; [exact L1|]. etrans; [exact L3|]. etrans; [exact L4|by etrans]. }
  apply st_bind_ok in Hs as ([w co]&s7&H7&Hs). pose proof (inv_reserve _ _ _ _ _ Hv Hinv6 H7) as Hinv7.
  apply reserve_cases in H7 as (_&_&H7); [|done|apply Hinv6]. destruct (H7 w co eq_refl) as (a&n&Ha&Hrow&->&_). simpl in Hs.
  destruct n as [n|]; simpl in Hs; [injection Hs as <- <-; exists n; split; [done|by exists a]|].
  clear -Hs Hinv7 Hdv Hrow. destruct Hrow as (Hv&Hl&_). apply st_bind_ok in Hs as (u1&s1&H1&Hs). pose proof (quiet_ok _ _ _ _ (quiet_checkpoint _) H1) as L1.
  apply st_bind_ok in Hs as (o&s2&H2&Hs). pose proof (quiet_ok _ _ _ _ (quiet_object_dir root q true) H2) as L2.
  apply st_bind_ok in Hs as (u3&s3&H3&Hs). pose proof (quiet_ok _ _ _ _ (quiet_place q b w o) H3) as L3.
  apply st_bind_ok in Hs as (u4&s4&H4&Hs). pose proof (quiet_ok _ _ _ _ (quiet_checkpoint _) H4) as L4.
  apply st_bind_ok in Hs as (u5&s5&H5&Hs). pose proof (quiet_ok _ _ _ _ (quiet_sync_publish_dirs o) H5) as L5.
  apply st_bind_ok in Hs as (u6&s6&H6&Hs). pose proof (quiet_ok _ _ _ _ (quiet_checkpoint _) H6) as L6.
  apply st_bind_ok in Hs as (u8&s8&H8&Hs). pose proof (quiet_ok _ _ _ _ (quiet_available root) H8) as L8.
  apply st_bind_ok in Hs as (u9&s9&H9&Hs). pose proof (quiet_ok _ _ _ _ (quiet_checkpoint _) H9) as L9.
  assert (inv (disk s9)) as [Hok _]. { eapply inv_le; [|exact Hinv7]. etrans; [exact L1|]. etrans; [exact L2|]. etrans; [exact L3|].
    etrans; [exact L4|]. etrans; [exact L5|]. etrans; [exact L6|by etrans]. }
  apply st_bind_ok in Hs as (c'&s10&H10&Hs). apply st_bind_ok in Hs as (u11&s11&H11%checkpoint_ok&Hs). injection Hs as <- <-. rewrite H11.
  apply disk_commit_cases in H10 as [[_ Hno]|(i&n&Hd&Hn&Hatt&(x&Hx&Hp)&Hc)]; [by destruct (Hno c')| |done].
  exists n. split; [by apply Hc|]. rewrite Hd. simpl. destruct (to_rows _ Hok x Hx) as (r&c&Hr).
  destruct (is_prepared_row q x r c Hv Hl Hr Hp) as [-> ->]. exists (durable_row (commit_id q) n x). split.
  - rewrite Hatt. apply elem_of_update. exists x. by rewrite Hp.
  - destruct Hr as (K1&K2&->). done.
Qed.

Context (d0 : Disk.t).
Definition good (d : Disk.t) : Prop := inv d ∧ grows d0 d.
Lemma good_le d d' : fs_le d d' → good d → good d'.
Proof. intros Hle [H1 H2]. split; [by eapply inv_le|]. intros r n H. destruct Hle as [-> _ _]. by apply H2. Qed.
Lemma good_grows d d' : grows d d' → inv d' → good d → good d'.
Proof. intros Hg Hi [_ H]. split; [done|]. intros r n Hr. by apply Hg, H. Qed.

Definition keeps {A} (m : pr A) : Prop := ∀ s, good (disk s) → good (disk (m s).2).
Lemma keeps_quiet {A} (m : pr A) : quiet m → keeps m.
Proof. intros H s. apply good_le, H. Qed.
Lemma keeps_reserve r bound : validate r = Ok tt → keeps (reserve fault r bound).
Proof.
  intros Hv s Hs. destruct (reserve fault r bound s) as [res s'] eqn:Hr. pose proof Hs as [Hi _].
  eapply good_grows; [by eapply grows_reserve|by eapply inv_reserve|done].
Qed.
Lemma good_commit r s res s' :
  validate r = Ok tt → 0 ≤ Request.expected_len r → good (disk s) → stored (disk s) r → commit fault r s = (res, s') → good (disk s').
Proof. intros Hv Hl Hs Hst Hc. pose proof Hs as [Hi _]. eapply good_grows; [by eapply grows_commit|by eapply inv_commit|done]. Qed.
Lemma disk_keeps_bind {A B} (m : pr A) (k : A → pr B) :
  keeps m → (∀ a s s', m s = (Ok a, s') → good (disk s') → good (disk (k a s').2)) → keeps (st_bind m k).
Proof.
  intros Hm Hk s Hs. unfold st_bind. specialize (Hm s Hs). destruct (m s) as [[a|e] s1] eqn:Hms; simpl in *; [|done]. by eapply Hk.
Qed.

Lemma object_dir_ok q c s o s' :
  object_dir euid fault root q c s = (Ok o, s') → o = Request.object_id q ∧ has_dir (disk s') o.
Proof.
  intros (u&s1&_&Hk)%st_bind_ok. apply st_bind_ok in Hk as (m&s2&[Hm Hd]%look_ok&Hk). apply st_bind_ok in Hk as ([]&s3&[Hc ->]%st_lift_ok&Hk).
  injection Hk as <- <-. split; [done|]. rewrite Hd. destruct (Disk.objects (disk s1) !! Request.object_id q) as [x|] eqn:Hx; [|done].
  injection Hm as <-. exists x. split; [done|]. unfold dir_ok. by rewrite <-Hdv.
Qed.

Lemma keeps_publish q b w :
  validate q = Ok tt → 0 ≤ Request.expected_len q → verifies q b = true →
  keeps (destination <~ object_dir euid fault root q true ;;
         _ <~ place euid fault root q b w destination ;;
         _ <~ checkpoint fault "before_directory_sync" ;;
         _ <~ sync_publish_dirs fault destination ;;
         _ <~ checkpoint fault "after_directory_sync" ;;
         _ <~ available euid fault root ;;
         _ <~ checkpoint fault "before_commit" ;;
         c <~ commit fault q ;;
         _ <~ checkpoint fault "after_commit" ;;
         st_ret c).
Proof.
  intros Hv Hl Hb. apply disk_keeps_bind; [apply keeps_quiet, quiet_object_dir|]. intros o s0 s [-> Hdir]%object_dir_ok Hs. revert s Hs Hdir.
  intros s Hs Hdir. unfold st_bind at 1. pose proof (keeps_quiet _ (quiet_place q b w (Request.object_id q)) s Hs) as Hs1.
  destruct (place _ _ _ _ _ _ _ s) as [[u|e] s1] eqn:H1; [|exact Hs1]. apply place_ok in H1; [|done..]. simpl in Hs1.
  unfold st_bind at 1. pose proof (keeps_quiet _ (quiet_checkpoint "before_directory_sync") s1 Hs1) as Hs2.
  destruct (checkpoint _ _ s1) as [[u1|e] s2] eqn:H2; [|exact Hs2]. apply checkpoint_ok in H2. simpl in Hs2. rewrite <-H2 in H1.
  unfold st_bind at 1. pose proof (keeps_quiet _ (quiet_sync_publish_dirs (Request.object_id q)) s2 Hs2) as Hs3.
  destruct (sync_publish_dirs _ _ s2) as [[u2|e] s3] eqn:H3; [|exact Hs3]. apply sync_publish_ok in H3; [|done]. simpl in Hs3.
  unfold st_bind at 1. pose proof (keeps_quiet _ (quiet_checkpoint "after_directory_sync") s3 Hs3) as Hs4.
  destruct (checkpoint _ _ s3) as [[u3|e] s4] eqn:H4; [|exact Hs4]. apply checkpoint_ok in H4. simpl in Hs4. rewrite <-H4 in H3.
  unfold st_bind at 1. pose proof (quiet_available root s4) as Hle. destruct (available _ _ _ s4) as [[u4|e] s5] eqn:H5; simpl in Hle;
    pose proof (good_le _ _ Hle Hs4) as Hs5; [|exact Hs5]. apply (le_placed _ _ Hle) in H3.
  unfold st_bind at 1. pose proof (keeps_quiet _ (quiet_checkpoint "before_commit") s5 Hs5) as Hs6.
  destruct (checkpoint _ _ s5) as [[u5|e] s6] eqn:H6; [|exact Hs6]. apply checkpoint_ok in H6. simpl in Hs6. rewrite <-H6 in H3.
  unfold st_bind at 1. destruct (commit fault q s6) as [[c|e] s7] eqn:H7; pose proof (good_commit _ _ _ _ Hv Hl Hs6 H3 H7) as Hs7; [|exact Hs7].
  unfold st_bind. pose proof (keeps_quiet _ (quiet_checkpoint "after_commit") s7 Hs7) as Hs8.
  by destruct (checkpoint _ _ s7) as [[u6|e] s8].
Qed.

Lemma keeps_stage_internal q b bound : 0 ≤ Request.expected_len q → keeps (stage_internal euid fault root q b bound).
Proof.
  intros Hl. unfold stage_internal. apply disk_keeps_bind; [apply keeps_quiet; quiet|]. intros _ _ s _ Hs.
  unfold st_bind at 1, st_lift. destruct (validate q) as [[]|] eqn:Hv; [|done]. destruct (verifies q b) eqn:Hb; [|done]. simpl.
  revert s Hs. apply disk_keeps_bind; [apply keeps_quiet, quiet_consistency|]. intros _ _ s _ Hs. revert s Hs.
  apply disk_keeps_bind; [apply keeps_quiet; quiet|]. intros prior _ s _ Hs. revert s Hs.
  apply disk_keeps_bind; [apply keeps_quiet; destruct (existsb _ _); [done|apply quiet_reject]|]. intros _ _ s _ Hs. revert s Hs.
  apply disk_keeps_bind; [apply keeps_quiet; quiet|]. intros _ _ s _ Hs. revert s Hs.
  apply disk_keeps_bind; [by apply keeps_reserve|].
  intros x _ s _ Hs. destruct (x.2); [done|]. revert s Hs.
  apply disk_keeps_bind; [apply keeps_quiet; quiet|]. intros _ _ s _ Hs. revert s Hs. by apply keeps_publish.
Qed.
End props.
End ProviderProps.
