(* ===== verification/ProviderRuns.v ===== *)
(** * Lemmas: the provider when no call fails

    Forward runs on a disk: what an operation answers and the disk it leaves. *)

From stdpp Require Import prelude gmap strings.
From Stdlib Require Import ZArith Lia Strings.Byte Strings.Ascii.
From S2P Require Import Prelude Text BlobStore Publisher Sql Capture Provider ProviderProps.

#[local] Open Scope Z_scope.

Module ProviderRuns.
Import ProviderTypes Root Inventory Provider ProviderProps.

Section runs.
Context {lib : CaptureLib} {pj : ProviderJson} (euid : Z) (root : Root.t) (f : nat → option nat) (Hf : ∀ n, f n = None).
Abbreviation dv := (device root).

(** From a process that is neither abandoned nor poisoned. *)
Definition runs {A} (m : pr A) (d : Disk.t) (res : result A Error) (d' : Disk.t) : Prop :=
  ∀ p, disk p = d → abandoned p = false → poisoned p = false →
    ∃ p', m p = (res, p') ∧ disk p' = d' ∧ abandoned p' = false ∧ poisoned p' = false.

Lemma runs_ret {A} (a : A) d : runs (st_ret a) d (Ok a) d.
Proof. intros p. by exists p. Qed.
Lemma disk_runs_lift {A} (x : result A Error) d : runs (st_lift x) d x d.
Proof. intros p. by exists p. Qed.
Lemma disk_runs_bind {A B} (m : pr A) (k : A → pr B) d a d1 res d2 : runs m d (Ok a) d1 → runs (k a) d1 res d2 → runs (st_bind m k) d res d2.
Proof.
  intros Hm Hk p H1 H2 H3. destruct (Hm p H1 H2 H3) as (p1&E1&K1&K2&K3). destruct (Hk p1 K1 K2 K3) as (p2&E2&K).
  exists p2. split; [|done]. unfold st_bind. by rewrite E1.
Qed.
Lemma runs_bind_err {A B} (m : pr A) (k : A → pr B) d e d1 : runs m d (Err e) d1 → runs (st_bind m k) d (Err e) d1.
Proof.
  intros Hm p H1 H2 H3. destruct (Hm p H1 H2 H3) as (p1&E1&K). exists p1. split; [|done]. unfold st_bind. by rewrite E1.
Qed.
Lemma runs_io {A} (g : Disk.t → result (A * Disk.t) Error) d a d' : g d = Ok (a, d') → runs (io f g) d (Ok a) d'.
Proof. intros Hg p <- H2 H3. unfold io, st_bind, tick. simpl. rewrite Hf. simpl. rewrite Hg. by eexists. Qed.
Lemma runs_look {A} (g : Disk.t → result A Error) d a : g d = Ok a → runs (look f g) d (Ok a) d.
Proof. intros Hg. apply runs_io. by rewrite Hg. Qed.
Lemma runs_look_err {A} (g : Disk.t → result A Error) d e : g d = Err e → runs (look f g) d (Err e) d.
Proof. intros Hg p <- H2 H3. unfold look, io, st_bind, tick. simpl. rewrite Hf. simpl. rewrite Hg. by eexists. Qed.
Lemma runs_change g d : runs (change f g) d (Ok tt) (g d).
Proof. by apply runs_io. Qed.
Lemma runs_checkpoint n d : runs (checkpoint f n) d (Ok tt) d.
Proof. intros p <- H2 H3. unfold checkpoint, st_bind, tick. simpl. rewrite Hf. by eexists. Qed.
Lemma disk_runs_query {A} (g : Disk.Inventory → result A Error) d res : g (Disk.inventory d) = res → runs (query f g) d res d.
Proof. intros <- p <- H2 H3. unfold query, st_bind, tick. simpl. rewrite Hf. by eexists. Qed.
Lemma runs_tx {A} (g : Disk.Inventory → result (A * Disk.Inventory) Error) d a i :
  g (Disk.inventory d) = Ok (a, i) → runs (tx f g) d (Ok a) (Disk.set_inventory i d).
Proof. intros Hg p <- H2 H3. unfold tx, st_bind, tick. simpl. rewrite Hf, Hg. by eexists. Qed.

(** The root as [validate] wants it. *)
Record root_valid (d : Disk.t) : Prop := {
  rv_meta : ∃ m, Disk.root_meta d = Some m ∧ checked euid m dv true = Ok tt ∧ Disk.ino m = inode root;
  rv_entries : check_entries euid dv d = Ok tt;
  rv_handles : (Disk.ino <$> Disk.entry "staging" d) = Some (staging_ino root)
    ∧ (Disk.ino <$> Disk.entry "objects" d) = Some (objects_ino root) ∧ (Disk.ino <$> Disk.entry "writer.lock" d) = Some (lock_ino root);
  rv_clean : Disk.entry "POISON" d = None
}.

Lemma runs_handle n i d : (Disk.ino <$> Disk.entry n d) = Some i → runs (open_handle f n) d (Ok i) d.
Proof. intros H. apply runs_look. destruct (Disk.entry n d); by simplify_eq/=. Qed.

Lemma runs_available d : root_valid d → runs (available euid f root) d (Ok tt) d.
Proof.
  intros [(m&Hm&Hc&Hi) He (H1&H2&H3) Hp] p Hd Ha Hpo. unfold available, validate_root. rewrite Hpo, Ha. revert p Hd Ha Hpo.
  eapply disk_runs_bind; [apply (runs_look _ _ m); by rewrite Hm|]. rewrite Hc. eapply disk_runs_bind; [apply disk_runs_lift|].
  rewrite bool_decide_true by done. simpl. eapply disk_runs_bind; [by apply runs_look|].
  eapply disk_runs_bind; [by apply runs_handle|]. rewrite bool_decide_true by done. simpl.
  eapply disk_runs_bind; [by apply runs_handle|]. rewrite bool_decide_true by done. simpl.
  eapply disk_runs_bind; [by apply runs_handle|]. rewrite bool_decide_true by done. simpl.
  eapply disk_runs_bind; [by apply runs_look|]. rewrite Hp. apply runs_ret.
Qed.

Lemma runs_existing l d : runs (existing euid f root l) d
  (match Disk.lookup_file l d with Some x => _ <?- checked euid (Disk.f_meta x) dv false ;; Ok (Some l) | None => Ok None end) d.
Proof.
  unfold existing. destruct (Disk.lookup_file l d) as [x|] eqn:Hx.
  - eapply disk_runs_bind; [apply (runs_look _ _ (Some x)); by rewrite Hx|]. cbv beta iota.
    destruct (checked _ _ _ _) as [[]|e] eqn:Hc; simpl.
    + eapply disk_runs_bind; [apply disk_runs_lift|]. apply runs_ret.
    + eapply runs_bind_err, disk_runs_lift.
  - eapply disk_runs_bind; [apply (runs_look _ _ None); by rewrite Hx|]. apply runs_ret.
Qed.

Lemma runs_verified l q d x :
  Disk.lookup_file l d = Some x →
  runs (verified_bytes f l q) d
    (let b := take (Z.to_nat (MAX_BLOB + 1)) (Disk.content x) in if verifies q b then Ok b else Err UnresolvedPrepared) d.
Proof.
  intros Hx. unfold verified_bytes. eapply disk_runs_bind; [apply runs_look; by rewrite Hx|]. cbv zeta. destruct (verifies _ _); apply disk_runs_lift || apply runs_ret.
Qed.

Lemma validate_take q b : validate q = Ok tt → verifies q b = true → take (Z.to_nat (MAX_BLOB + 1)) b = b.
Proof.
  intros Hq Hv. apply take_ge. unfold verifies in Hv. rewrite !andb_true_iff, bool_decide_eq_true in Hv. destruct Hv as [[Hlen _] _].
  unfold validate in Hq. destruct (_ && _) eqn:Hb; [|done]. rewrite !andb_true_iff, bool_decide_eq_true in Hb. destruct Hb as [[_ Hmax] _].
  assert (kind_max (Request.kind q) ≤ MAX_BLOB) by (by destruct (Request.kind q)). lia.
Qed.

Lemma runs_durable_bytes d q : validate q = Ok tt → stored euid dv d q → ∃ b, verifies q b = true ∧ runs (durable_bytes euid f root q) d (Ok b) d.
Proof.
  intros Hq (x&y&Hx&Hdx&Hy&Hok&Hv&_). exists (Disk.content y). split; [done|]. unfold durable_bytes.
  eapply disk_runs_bind.
  { unfold object_dir. eapply disk_runs_bind; [apply runs_ret|]. eapply disk_runs_bind; [apply runs_look; by rewrite Hx|].
    rewrite Hdx. eapply disk_runs_bind; [apply disk_runs_lift|apply runs_ret]. }
  assert (Disk.lookup_file (Disk.InObject (Request.object_id q) (object_name q)) d = Some y) as Hl by (simpl; by rewrite Hx).
  eapply disk_runs_bind. { pose proof (runs_existing (Disk.InObject (Request.object_id q) (object_name q)) d) as H. rewrite Hl, Hok in H. exact H. }
  eapply disk_runs_bind; [apply disk_runs_lift|]. pose proof (runs_verified _ q d y Hl) as H. cbv zeta in H.
  rewrite (validate_take q) in H by done. by rewrite Hv in H.
Qed.

(** ** Reading the inventory *)
Lemma runs_records d : table_ok (Disk.inventory d) →
  ∃ rs, runs (records f) d (Ok rs) d ∧ reads_table (Disk.attempts (Disk.inventory d)) rs.
Proof.
  intros Hok. destruct (read_rows_ok (by_operation (Disk.attempts (Disk.inventory d)))) as (rs&Hrs&HF).
  { intros a Ha. apply Hok. unfold by_operation in Ha. by rewrite sort_by_perm in Ha. }
  exists rs. split; [|done]. unfold records. eapply disk_runs_bind; [by apply disk_runs_query|].
  destruct Hok as [_ _ _ _ Hn _]. rewrite bool_decide_false by lia. eapply disk_runs_bind; [by apply disk_runs_query|].
  rewrite take_ge by (unfold by_operation; rewrite sort_by_perm; unfold MAX_RECORDS in *; lia). rewrite Hrs. apply disk_runs_lift.
Qed.

Lemma runs_or_poison {A} (m : pr A) d a d' : runs m d (Ok a) d' → runs (or_poison euid f root m) d (Ok a) d'.
Proof. intros H p H1 H2 H3. destruct (H p H1 H2 H3) as (p'&E&K). exists p'. split; [|done]. unfold or_poison. by rewrite E. Qed.

Lemma runs_check_records d rs :
  (∀ x, x ∈ rs → ∀ c, Record_.committed x = Some c → validate (Record_.request x) = Ok tt ∧ stored euid dv d (Record_.request x)) →
  runs (check_records euid f root rs) d (Ok tt) d.
Proof.
  induction rs as [|x rs IH]; intros H; simpl; [apply runs_ret|]. eapply disk_runs_bind.
  - destruct (Record_.committed x) as [c|] eqn:Hc; [|apply runs_ret]. destruct (H x) with c as [Hv Hst]; [constructor|done|].
    destruct (runs_durable_bytes d (Record_.request x) Hv Hst) as (b&_&Hb). eapply disk_runs_bind; [by apply runs_or_poison|apply runs_ret].
  - apply IH. intros y Hy. apply H. by constructor.
Qed.

Lemma runs_consistency d : root_valid d → inv euid dv d → runs (consistency euid f root) d (Ok tt) d.
Proof.
  intros Hr [Hok Hst]. destruct (runs_records d Hok) as (rs&Hrs&HT). unfold consistency. eapply disk_runs_bind; [by apply runs_available|].
  eapply disk_runs_bind; [by apply runs_or_poison|]. apply runs_check_records. intros x Hx c Hc.
  destruct (reads_table_elem _ _ _ HT Hx) as (a&q&n&Ha&Hrow&->). simpl in *. destruct n as [n|]; [|done].
  split; [apply Hrow|]. apply (Hst q n). by exists a.
Qed.

(** ** Finding a record *)
Lemma NoDup_key_inj {A B} (key : A → B) l a b : NoDup (key <$> l) → a ∈ l → b ∈ l → key a = key b → a = b.
Proof. intros. by eapply (NoDup_fmap_inj_elem key). Qed.

Lemma record_unique i rs x y :
  table_ok i → reads_table (Disk.attempts i) rs → x ∈ rs → y ∈ rs →
  Request.operation_id (Record_.request x) = Request.operation_id (Record_.request y) → x = y.
Proof.
  intros Hok HT Hx Hy Ho. destruct (reads_table_elem _ _ _ HT Hx) as (a&r&c&Ha&Hr&->). destruct (reads_table_elem _ _ _ HT Hy) as (b&r'&c'&Hb&Hr'&->).
  assert (∀ r c a, row_of r c a → Disk.AttemptsRow.operation_id a = Request.operation_id r) as Hop.
  { clear. intros r c a (_&_&H). destruct c as [n|]; [destruct H as [_ ->]|subst]; done. }
  assert (a = b) as <-.
  { apply (NoDup_key_inj Disk.AttemptsRow.operation_id (Disk.attempts i)); [apply Hok|done|done|].
    rewrite (Hop _ _ _ Hr), (Hop _ _ _ Hr'). exact Ho. }
  by destruct (row_of_inj _ _ _ _ _ Hr Hr') as [<- <-].
Qed.

Lemma find_record i rs a r c :
  table_ok i → reads_table (Disk.attempts i) rs → a ∈ Disk.attempts i → row_of r c a →
  find (λ x, bool_decide (Request.operation_id (Record_.request x) = Request.operation_id r)) rs = Some (record_of r c).
Proof.
  intros Hok HT Ha Hr. pose proof (reads_table_record _ _ _ _ _ HT Ha Hr) as Hin.
  destruct (find _ rs) as [y|] eqn:Hfi.
  - apply find_some in Hfi as [Hy Hop%bool_decide_eq_true]. apply list_elem_of_In in Hy. f_equal. by eapply record_unique.
  - eapply find_none in Hfi; [|by apply list_elem_of_In]. by rewrite bool_decide_true in Hfi.
Qed.

Lemma row_keys r c a : row_of r c a →
  Disk.AttemptsRow.operation_id a = Request.operation_id r ∧ Disk.AttemptsRow.attempt_id a = Request.attempt_id r
  ∧ allocation_key a = (Request.object_id r, Request.revision_id r).
Proof. intros (_&_&H). destruct c as [n|]; [destruct H as [_ ->]|subst]; done. Qed.

(** Of the rows of the inventory no two collide. *)
Lemma no_collision i rs x r c a :
  table_ok i → reads_table (Disk.attempts i) rs → a ∈ Disk.attempts i → row_of r c a → x ∈ rs →
  Request.operation_id (Record_.request x) ≠ Request.operation_id r →
  Request.attempt_id (Record_.request x) ≠ Request.attempt_id r
  ∧ (Request.object_id (Record_.request x), Request.revision_id (Record_.request x)) ≠ (Request.object_id r, Request.revision_id r).
Proof.
  intros Hok HT Ha Hr Hx Hne. destruct (reads_table_elem _ _ _ HT Hx) as (b&r'&c'&Hb&Hr'&->). simpl in *.
  destruct (row_keys _ _ _ Hr) as (K1&K2&K3). destruct (row_keys _ _ _ Hr') as (L1&L2&L3).
  assert (b ≠ a) as Hba by (intros ->; congruence). split; intros He; apply Hba.
  - apply (NoDup_key_inj Disk.AttemptsRow.attempt_id (Disk.attempts i)); [apply Hok|done|done|congruence].
  - apply (NoDup_key_inj allocation_key (Disk.attempts i)); [apply Hok|done|done|]. rewrite K3, L3. exact He.
Qed.

Lemma find_prior_record i rs a r c :
  table_ok i → reads_table (Disk.attempts i) rs → a ∈ Disk.attempts i → row_of r c a → find_prior r rs = Ok (Some (record_of r c)).
Proof.
  intros Hok HT Ha Hr. pose proof (reads_table_record _ _ _ _ _ HT Ha Hr) as Hin.
  assert (∀ x, x ∈ rs → Request.operation_id (Record_.request x) = Request.operation_id r → x = record_of r c) as H1
    by (intros x Hx Ho; by eapply record_unique).
  assert (∀ x, x ∈ rs → Request.operation_id (Record_.request x) ≠ Request.operation_id r →
    Request.attempt_id (Record_.request x) ≠ Request.attempt_id r
    ∧ (Request.object_id (Record_.request x), Request.revision_id (Record_.request x)) ≠ (Request.object_id r, Request.revision_id r)) as H2
    by (intros x Hx; by eapply no_collision).
  clear HT. induction rs as [|x rs IH]; [by apply elem_of_nil in Hin|]. simpl. destruct (decide _) as [Ho|Ho].
  - rewrite (H1 x) by (done || constructor). simpl. by rewrite decide_True.
  - destruct (H2 x) as [K1 K2]; [constructor|done|]. rewrite (bool_decide_false (Request.attempt_id _ = _)) by done. simpl.
    destruct (_ && _) eqn:Hb.
    { rewrite andb_true_iff, !bool_decide_eq_true in Hb. destruct Hb as [E1 E2]. exfalso. apply K2. by rewrite E1, E2. }
    apply elem_of_cons in Hin as [<-|Hin]; [by destruct Ho|]. apply IH; [done| |].
    + intros y Hy. apply H1. by constructor.
    + intros y Hy. apply H2. by constructor.
Qed.

Lemma runs_read d q n :
  root_valid d → inv euid dv d → durable_in (Disk.inventory d) q n →
  ∃ b, verifies q b = true ∧ runs (read_internal euid f root q) d (Ok b) d.
Proof.
  intros Hr Hinv (a&Ha&Hrow). pose proof Hinv as [Hok Hst]. assert (validate q = Ok tt) as Hv by apply Hrow.
  destruct (runs_durable_bytes d q Hv) as (b&Hb&Hrun); [by apply (Hst q n); exists a|]. exists b. split; [done|].
  unfold read_internal. eapply disk_runs_bind; [by apply runs_available|]. rewrite Hv. eapply disk_runs_bind; [apply disk_runs_lift|].
  eapply disk_runs_bind; [by apply runs_consistency|]. destruct (runs_records d Hok) as (rs&Hrs&HT). eapply disk_runs_bind; [exact Hrs|].
  rewrite (find_record (Disk.inventory d) rs a q (Some n)) by done. eapply disk_runs_bind; [apply disk_runs_lift|]. simpl.
  rewrite bool_decide_true by done. simpl. by apply runs_or_poison.
Qed.

(** The stages up to the reservation, for an operation that is recorded. *)
Lemma runs_reserved d q c a :
  table_ok (Disk.inventory d) → a ∈ Disk.attempts (Disk.inventory d) → row_of q c a →
  runs (reserve f q None) d (Ok (true, (λ n, LocalCommit.mk (commit_id q) n q) <$> c)) d.
Proof.
  intros Hok Ha Hrow. destruct (runs_records d Hok) as (rs&Hrs&HT). unfold reserve. eapply disk_runs_bind; [exact Hrs|].
  rewrite (find_prior_record (Disk.inventory d) rs a q c) by done. eapply disk_runs_bind; [apply disk_runs_lift|].
  eapply disk_runs_bind; [apply runs_ret|]. apply runs_ret.
Qed.

Lemma runs_stage_prefix d q b c a res d' :
  root_valid d → inv euid dv d → a ∈ Disk.attempts (Disk.inventory d) → row_of q c a → verifies q b = true →
  runs (match (λ n, LocalCommit.mk (commit_id q) n q) <$> c with
        | Some commit => st_ret commit
        | None =>
            _ <~ checkpoint f "after_prepare" ;;
            destination <~ object_dir euid f root q true ;;
            _ <~ place euid f root q b true destination ;;
            _ <~ checkpoint f "before_directory_sync" ;;
            _ <~ sync_publish_dirs f destination ;;
            _ <~ checkpoint f "after_directory_sync" ;;
            _ <~ available euid f root ;;
            _ <~ checkpoint f "before_commit" ;;
            c <~ commit f q ;;
            _ <~ checkpoint f "after_commit" ;;
            st_ret c
        end) d res d' →
  runs (stage_internal euid f root q b None) d res d'.
Proof.
  intros Hr Hinv Ha Hrow Hb Hrest. pose proof Hinv as [Hok _]. assert (validate q = Ok tt) as Hv by apply Hrow.
  unfold stage_internal. eapply disk_runs_bind; [by apply runs_available|]. rewrite Hv. eapply disk_runs_bind; [apply disk_runs_lift|].
  rewrite Hb. simpl. eapply disk_runs_bind; [by apply runs_consistency|].
  destruct (runs_records d Hok) as (rs&Hrs&HT). eapply disk_runs_bind; [exact Hrs|].
  assert (existsb (λ x, bool_decide (Request.operation_id (Record_.request x) = Request.operation_id q)) rs = true) as ->.
  { apply existsb_exists. exists (record_of q c). rewrite <-list_elem_of_In. split; [by eapply reads_table_record|by rewrite bool_decide_true]. }
  eapply disk_runs_bind; [apply runs_ret|]. eapply disk_runs_bind; [apply runs_checkpoint|]. eapply disk_runs_bind; [by eapply runs_reserved|]. exact Hrest.
Qed.

(** ** A retry *)
(** Changes of files only. *)
Definition files_only (d d' : Disk.t) : Prop :=
  Disk.root_meta d' = Disk.root_meta d ∧ Disk.entries d' = Disk.entries d ∧ Disk.inventory d' = Disk.inventory d.
#[global] Instance files_only_refl : Reflexive files_only.
Proof. done. Qed.
#[global] Instance files_only_trans : Transitive files_only.
Proof. intros d1 d2 d3 (?&?&?) (?&?&?). split_and!; congruence. Qed.
Lemma root_valid_files d d' : files_only d d' → root_valid d → root_valid d'.
Proof.
  intros (H1&H2&_) [K1 K2 K3 K4]. unfold check_entries, Disk.entry in *.
  split; unfold check_entries, Disk.entry; rewrite ?H1, ?H2; done.
Qed.

(** The directory and the files that are there are the owner's. *)
Definition owned (d : Disk.t) (q : Request.t) : Prop :=
  (∀ x, Disk.objects d !! Request.object_id q = Some x → dir_ok euid dv x)
  ∧ (∀ x, Disk.lookup_file (Disk.InObject (Request.object_id q) (object_name q)) d = Some x → file_ok euid dv x)
  ∧ ∀ x, Disk.staging d !! staging_name q = Some x → file_ok euid dv x.

(** What an attempt left: the published file, or else the staged one. *)
Definition leftover (d : Disk.t) (q : Request.t) : option Disk.File :=
  match Disk.lookup_file (Disk.InObject (Request.object_id q) (object_name q)) d with
  | Some x => Some x
  | None => Disk.staging d !! staging_name q
  end.

Lemma runs_object_dir d q :
  owned d q → ∃ d1, runs (object_dir euid f root q true) d (Ok (Request.object_id q)) d1 ∧ files_only d d1 ∧ owned d1 q
    ∧ leftover d1 q = leftover d q ∧ (∃ x, Disk.objects d1 !! Request.object_id q = Some x).
Proof.
  intros (Ho&Hfi&Hs). unfold object_dir. destruct (Disk.objects d !! Request.object_id q) as [x|] eqn:Hx.
  - exists d. split; [|split_and!; try done; [unfold owned; by rewrite Hx|by exists x]].
    eapply disk_runs_bind; [eapply disk_runs_bind; [apply (runs_io _ d false d); by rewrite Hx|apply runs_ret]|].
    eapply disk_runs_bind; [apply runs_look; by rewrite Hx|]. simpl. rewrite (Ho x eq_refl : checked _ _ _ _ = _).
    eapply disk_runs_bind; [apply disk_runs_lift|apply runs_ret].
  - set (nd := Disk.mkDir (new_meta euid root true) ∅ false).
    set (d0 := Disk.set_objects (insert (Request.object_id q) nd) d).
    assert (Disk.objects (sync_objects d0) !! Request.object_id q = Some (Disk.mark_dir nd)) as Hl.
    { simpl. by rewrite lookup_fmap, lookup_insert, decide_True. }
    exists (sync_objects d0). split; [|split_and!; [done| | |by eexists]].
    + eapply disk_runs_bind; [eapply disk_runs_bind; [apply (runs_io _ d true d0); by rewrite Hx|apply (runs_change sync_objects)]|].
      eapply disk_runs_bind; [apply runs_look; by rewrite Hl|]. simpl. rewrite new_meta_ok by done.
      eapply disk_runs_bind; [apply disk_runs_lift|apply runs_ret].
    + split_and!; [| |done].
      * intros y. rewrite Hl. intros [= <-]. apply new_meta_ok. done.
      * intros y. unfold Disk.lookup_file. rewrite Hl. done.
    + unfold leftover, Disk.lookup_file. rewrite Hl, Hx. done.
Qed.

Lemma runs_write_chunks n l d : ∃ d', runs (write_chunks f (Disk.InStaging n) l) d (Ok tt) d' ∧ files_only d d' ∧ Disk.objects d' = Disk.objects d
  ∧ (∀ x, Disk.staging d !! n = Some x → ∃ x', Disk.staging d' !! n = Some x').
Proof.
  revert d. induction l as [|c l IH]; intros d; simpl; [exists d; split_and!; try done; [apply runs_ret|eauto]|].
  destruct (IH (Disk.alter_file (Disk.append c) (Disk.InStaging n) d)) as (d'&H1&H2&H3&H4). exists d'. split_and!.
  - eapply disk_runs_bind; [|exact H1]. intros p <- K2 K3. unfold write_all, st_bind, tick. simpl. rewrite Hf. by eexists.
  - etrans; [|exact H2]. done.
  - by rewrite H3.
  - intros x Hx. apply (H4 (Disk.append c x)). simpl. by rewrite lookup_alter, decide_True, Hx.
Qed.

Lemma runs_create_write d q b :
  Disk.staging d !! staging_name q = None →
  ∃ d' x, runs (prepare_file euid f root q b true) d (Ok tt) d' ∧ files_only d d' ∧ Disk.objects d' = Disk.objects d
    ∧ Disk.staging d' !! staging_name q = Some x.
Proof.
  intros Hn. unfold prepare_file. set (l := Disk.InStaging (staging_name q)).
  set (d0 := Disk.set_staging (insert (staging_name q) (Disk.mkFile (new_meta euid root false) [] false false)) d).
  destruct (runs_write_chunks (staging_name q) [take 4096 b] d0) as (d1&R1&F1&O1&X1).
  destruct (runs_write_chunks (staging_name q) (chunks (length b) (Z.to_nat 65536) (drop 4096 b)) d1) as (d2&R2&F2&O2&X2).
  destruct (X1 (Disk.mkFile (new_meta euid root false) [] false false)) as [x1 Hx1]; [simpl; by rewrite lookup_insert, decide_True|].
  destruct (X2 x1 Hx1) as [x2 Hx2].
  exists (Disk.alter_file Disk.mark_content l d2), (Disk.mark_content x2). split_and!.
  - eapply disk_runs_bind. { pose proof (runs_existing l d) as H. simpl Disk.lookup_file in H. rewrite Hn in H. exact H. }
    eapply disk_runs_bind; [apply (runs_io _ d l d0); by rewrite Hn|]. do 2 (eapply disk_runs_bind; [apply runs_checkpoint|]).
    eapply disk_runs_bind.
    { intros p K1 K2 K3. destruct (R1 p K1 K2 K3) as (p'&E&K). exists p'. split; [|exact K]. simpl in E. unfold st_bind at 1 in E.
      destruct (write_all f (Disk.InStaging (staging_name q)) (take 4096 b) p) as [[[]|e] p1] eqn:Hw; [|done]. unfold st_ret in E. injection E as <-. exact Hw. }
    eapply disk_runs_bind; [apply runs_checkpoint|]. eapply disk_runs_bind; [exact R2|]. do 2 (eapply disk_runs_bind; [apply runs_checkpoint|]).
    eapply disk_runs_bind; [apply runs_change|apply runs_checkpoint].
  - etrans; [|etrans; [exact F1|exact F2]]. done.
  - simpl. rewrite O2, O1. done.
  - simpl. by rewrite lookup_alter, decide_True, Hx2.
Qed.

Definition complete (q : Request.t) (x : Disk.File) : bool := verifies q (take (Z.to_nat (MAX_BLOB + 1)) (Disk.content x)).

Lemma runs_verified_complete l q d x :
  Disk.lookup_file l d = Some x →
  runs (verified_bytes f l q) d (if complete q x then Ok (take (Z.to_nat (MAX_BLOB + 1)) (Disk.content x)) else Err UnresolvedPrepared) d.
Proof. intros Hx. exact (runs_verified l q d x Hx). Qed.

Lemma runs_existing_some l d x : Disk.lookup_file l d = Some x → file_ok euid dv x → runs (existing euid f root l) d (Ok (Some l)) d.
Proof. intros Hx Hok. pose proof (runs_existing l d) as H. rewrite Hx, Hok in H. exact H. Qed.
Lemma runs_existing_none l d : Disk.lookup_file l d = None → runs (existing euid f root l) d (Ok None) d.
Proof. intros Hx. pose proof (runs_existing l d) as H. by rewrite Hx in H. Qed.

(** The staged file when there was none, or a complete one. *)
Lemma runs_prepare_file d q b :
  (∀ x, Disk.staging d !! staging_name q = Some x → file_ok euid dv x ∧ complete q x = true) →
  ∃ d' x, runs (prepare_file euid f root q b true) d (Ok tt) d' ∧ files_only d d' ∧ Disk.objects d' = Disk.objects d
    ∧ Disk.staging d' !! staging_name q = Some x.
Proof.
  intros Hx. destruct (Disk.staging d !! staging_name q) as [x|] eqn:Hs; [|by apply runs_create_write].
  destruct (Hx x eq_refl) as [Hok Hc]. set (l := Disk.InStaging (staging_name q)).
  exists (Disk.alter_file Disk.mark_content l d), (Disk.mark_content x). split_and!; [|done|done|simpl; by rewrite lookup_alter, decide_True, Hs].
  unfold prepare_file. eapply disk_runs_bind; [by eapply (runs_existing_some l d x)|]. simpl.
  eapply disk_runs_bind. { pose proof (runs_verified_complete l q d x Hs) as H. rewrite Hc in H. exact H. }
  eapply disk_runs_bind; [apply runs_checkpoint|]. eapply disk_runs_bind; [apply runs_change|apply runs_checkpoint].
Qed.

Lemma runs_publish d q x y :
  Disk.staging d !! staging_name q = Some x → Disk.objects d !! Request.object_id q = Some y → Disk.d_files y !! object_name q = None →
  ∃ d', runs (publish f q (Request.object_id q)) d (Ok tt) d' ∧ files_only d d'.
Proof.
  intros Hx Hy Hn. eexists. split; [|split_and!]; [apply runs_io; rewrite Hx; simpl; rewrite Hy; simpl; rewrite Hn; reflexivity|done..].
Qed.

Lemma runs_place d q b y :
  Disk.objects d !! Request.object_id q = Some y → owned d q →
  ∃ d', files_only d d' ∧
    runs (place euid f root q b true (Request.object_id q)) d
      (match leftover d q with Some x => if complete q x then Ok tt else Err UnresolvedPrepared | None => Ok tt end) d'.
Proof.
  intros Hy (_&Hfo&Hfs). unfold leftover, place. set (l := Disk.InObject (Request.object_id q) (object_name q)).
  destruct (Disk.lookup_file l d) as [x|] eqn:Hl.
  - exists (if complete q x then Disk.alter_file Disk.mark_content l d else d). split; [by destruct (complete q x)|].
    eapply disk_runs_bind; [eapply (runs_existing_some l d x Hl); by apply Hfo|]. simpl. pose proof (runs_verified_complete l q d x Hl) as H.
    destruct (complete q x); [|by eapply runs_bind_err]. eapply disk_runs_bind; [exact H|].
    eapply disk_runs_bind; [apply runs_checkpoint|]. apply (runs_change (Disk.alter_file Disk.mark_content l)).
  - assert ((∀ x, Disk.staging d !! staging_name q = Some x → file_ok euid dv x ∧ complete q x = true) →
      ∃ d', files_only d d' ∧ runs (f0 <~ existing euid f root l ;;
        match f0 with
        | Some f0 => if negb true then st_err Conflict
            else _ <~ verified_bytes f f0 q ;; _ <~ checkpoint f "before_file_sync" ;; sync_file f f0
        | None => _ <~ prepare_file euid f root q b true ;; _ <~ checkpoint f "before_rename" ;;
            _ <~ publish f q (Request.object_id q) ;; checkpoint f "after_rename"
        end) d (Ok tt) d') as Hgo.
    { intros Hst. destruct (runs_prepare_file d q b Hst) as (d1&x1&R1&F1&O1&X1).
      destruct (runs_publish d1 q x1 y) as (d2&R2&F2); [done|by rewrite O1|by simpl in Hl; rewrite Hy in Hl|].
      exists d2. split; [by etrans|]. eapply disk_runs_bind; [by apply runs_existing_none|]. eapply disk_runs_bind; [exact R1|].
      eapply disk_runs_bind; [apply runs_checkpoint|]. eapply disk_runs_bind; [exact R2|]. apply runs_checkpoint. }
    destruct (Disk.staging d !! staging_name q) as [x|] eqn:Hs; [|by apply Hgo]. destruct (complete q x) eqn:Hc.
    + apply Hgo. intros z [= <-]. split; [by apply Hfs|done].
    + exists d. split; [done|]. eapply disk_runs_bind; [by apply runs_existing_none|]. eapply runs_bind_err. unfold prepare_file.
      eapply disk_runs_bind; [eapply (runs_existing_some (Disk.InStaging (staging_name q)) d x Hs); by apply Hfs|]. simpl.
      pose proof (runs_verified_complete (Disk.InStaging (staging_name q)) q d x Hs) as H. rewrite Hc in H. by eapply runs_bind_err.
Qed.

Lemma runs_sync d o : ∃ d', runs (sync_publish_dirs f o) d (Ok tt) d' ∧ files_only d d'.
Proof.
  eexists. split.
  - unfold sync_publish_dirs. do 3 (eapply disk_runs_bind; [apply runs_checkpoint|]; eapply disk_runs_bind; [apply runs_change|]).
    eapply disk_runs_bind; [apply runs_checkpoint|]. apply runs_change.
  - done.
Qed.

Lemma prepared_once i q a : table_ok i → a ∈ Disk.attempts i → row_of q None a → affected (is_prepared q) (Disk.attempts i) = 1%nat.
Proof.
  intros Hok Ha Hrow. assert (is_prepared q a = true) as Hp.
  { destruct Hrow as (_&_&->). unfold is_prepared. simpl. by rewrite !bool_decide_true. }
  assert (∀ b, is_prepared q b = true → Disk.AttemptsRow.operation_id b = Request.operation_id q) as Hop.
  { intros b Hb. unfold is_prepared in Hb. rewrite !andb_true_iff, !bool_decide_eq_true in Hb. by destruct Hb as [[? _] _]. }
  unfold affected. pose proof (to_operations _ Hok) as Hnd. clear Hok Hrow.
  induction (Disk.attempts i) as [|x l IH]; [by apply elem_of_nil in Ha|]. rewrite fmap_cons in Hnd. apply NoDup_cons in Hnd as [Hx Hnd].
  unfold select. simpl. apply elem_of_cons in Ha as [->|Ha].
  - rewrite Hp. simpl. f_equal. apply length_zero_iff_nil, select_nil. intros b Hb. apply not_true_is_false. intros Hb'.
    apply Hx. rewrite (Hop x Hp), <-(Hop b Hb'). by apply list_elem_of_fmap_2.
  - destruct (is_prepared q x) eqn:Hpx; [|by apply IH]. exfalso. apply Hx. rewrite (Hop x Hpx), <-(Hop a Hp). by apply list_elem_of_fmap_2.
Qed.

Lemma disk_runs_commit d q a :
  table_ok (Disk.inventory d) → a ∈ Disk.attempts (Disk.inventory d) → row_of q None a →
  (∀ r n, durable_in (Disk.inventory d) r n → commit_id r ≠ commit_id q) →
  ∃ n d', runs (commit f q) d (Ok (LocalCommit.mk (commit_id q) n q)) d' ∧ durable_in (Disk.inventory d') q n.
Proof.
  intros Hok Ha Hrow Hfresh. set (n := last_sequence (Disk.attempts (Disk.inventory d)) + 1).
  exists n. eexists. split.
  - apply runs_tx. cbv zeta. rewrite (bool_decide_true (affected _ _ = _)) by (by eapply prepared_once).
    destruct (existsb (λ b, bool_decide (Disk.AttemptsRow.local_commit_id b = Some (commit_id q))) _) eqn:He; [|by rewrite andb_false_r].
    exfalso. apply existsb_exists in He as (b&Hb%list_elem_of_In&He%bool_decide_eq_true). destruct (to_rows _ Hok b Hb) as (r&c&Hr).
    pose proof Hr as (_&_&Hc). destruct c as [m|]; [|subst b; discriminate]. apply (Hfresh r m); [by exists b|].
    destruct Hc as [_ ->]. simpl in He. congruence.
  - simpl. pose proof (last_sequence_pos _ Hok). exists (durable_row (commit_id q) n a). split.
    + apply elem_of_update. exists a. split; [done|]. assert (is_prepared q a = true) as ->; [|done].
      destruct Hrow as (_&_&->). unfold is_prepared. simpl. by rewrite !bool_decide_true.
    + destruct Hrow as (H1&H2&->). split_and!; [done|done|lia|done].
Qed.

Lemma runs_retry d q b a :
  root_valid d → inv euid dv d → a ∈ Disk.attempts (Disk.inventory d) → row_of q None a → verifies q b = true → owned d q →
  (∀ r n, durable_in (Disk.inventory d) r n → commit_id r ≠ commit_id q) →
  match leftover d q with
  | Some x => if complete q x then ∃ n d', runs (stage_internal euid f root q b None) d (Ok (LocalCommit.mk (commit_id q) n q)) d'
                                     ∧ durable_in (Disk.inventory d') q n
              else ∃ d', runs (stage_internal euid f root q b None) d (Err UnresolvedPrepared) d' ∧ Disk.inventory d' = Disk.inventory d
  | None => ∃ n d', runs (stage_internal euid f root q b None) d (Ok (LocalCommit.mk (commit_id q) n q)) d' ∧ durable_in (Disk.inventory d') q n
  end.
Proof.
  intros Hr Hinv Ha Hrow Hb Hown Hfresh. pose proof Hinv as [Hok _].
  destruct (runs_object_dir d q Hown) as (d1&R1&F1&Hown1&Hleft&(y&Hy)).
  destruct (runs_place d1 q b y Hy Hown1) as (d2&F2&R2). rewrite Hleft in R2.
  assert (runs (place euid f root q b true (Request.object_id q)) d1 (Ok tt) d2 →
    ∃ n d', runs (stage_internal euid f root q b None) d (Ok (LocalCommit.mk (commit_id q) n q)) d' ∧ durable_in (Disk.inventory d') q n) as Hgo.
  { intros R2'. destruct (runs_sync d2 (Request.object_id q)) as (d3&R3&F3).
    assert (files_only d d3) as Hfo by (etrans; [exact F1|by etrans]). pose proof Hfo as (_&_&Hi).
    destruct (disk_runs_commit d3 q a) as (n&d4&R4&Hd4); [by rewrite Hi|by rewrite Hi|done|by rewrite Hi|].
    exists n, d4. split; [|done]. eapply runs_stage_prefix; [done..|]. simpl.
    eapply disk_runs_bind; [apply runs_checkpoint|]. eapply disk_runs_bind; [exact R1|]. eapply disk_runs_bind; [exact R2'|].
    eapply disk_runs_bind; [apply runs_checkpoint|]. eapply disk_runs_bind; [exact R3|]. eapply disk_runs_bind; [apply runs_checkpoint|].
    eapply disk_runs_bind; [apply runs_available; by eapply root_valid_files|]. eapply disk_runs_bind; [apply runs_checkpoint|].
    eapply disk_runs_bind; [exact R4|]. eapply disk_runs_bind; [apply runs_checkpoint|]. apply runs_ret. }
  destruct (leftover d q) as [x|]; [|by apply Hgo]. destruct (complete q x); [by apply Hgo|].
  exists d2. split; [|by destruct F1 as (_&_&<-); destruct F2 as (_&_&<-)].
  eapply runs_stage_prefix; [done..|]. simpl. eapply disk_runs_bind; [apply runs_checkpoint|]. eapply disk_runs_bind; [exact R1|].
  by eapply runs_bind_err.
Qed.
End runs.
End ProviderRuns.
