(* ===== verification/ProviderTheorems.v ===== *)
(** * Claims: the synthetic provider

    Durable objects survive every failure and every power loss, what was staged
    is read back and staged again with the same commit, and a retry of a
    prepared attempt does what the files left behind allow. Module
    ProviderExample is a concrete root. *)

From stdpp Require Import prelude gmap strings.
From Stdlib Require Import ZArith Lia Strings.Byte Strings.Ascii.
From S2P Require Import Prelude Text BlobStore Publisher Sql Capture Parent ParentProps ParentTheorems Provider ProviderProps ProviderRuns.

#[local] Open Scope Z_scope.

Module ProviderExample.
Import ProviderTypes Root Inventory Provider ParentExample.

(** ** The codec *)
Definition kind_char (k : Kind) : ascii := match k with Note => "n"%char | Attachment => "a"%char end.
Definition print_request (r : Request.t) : list ascii :=
  explode (Request.operation_id r) ++ explode (Request.attempt_id r) ++ explode (Request.object_id r) ++ explode (Request.revision_id r)
  ++ explode (Request.sha256 r) ++ kind_char (Request.kind r)
  :: (ascii_of_byte <$> pos_bytes (Z.to_pos (Request.expected_len r + 1))).
Definition parse_request (l : list ascii) : option Request.t :=
  let '(a, l) := (take 36 l, drop 36 l) in
  let '(b, l) := (take 36 l, drop 36 l) in
  let '(c, l) := (take 36 l, drop 36 l) in
  let '(d, l) := (take 36 l, drop 36 l) in
  let '(h, l) := (take 64 l, drop 64 l) in
  match l with
  | k :: l =>
      p ← bytes_pos (byte_of_ascii <$> l);
      if bool_decide (Zpos p ≤ u64_max) then
        Some (Request.mk (implode a) (implode b) (implode c) (implode d)
                (if decide (k = "n"%char) then Note else Attachment) (Zpos p - 1) (implode h))
      else None
  | [] => None
  end.

Lemma pos_bytes_len p : (length (pos_bytes p) ≤ Pos.size_nat p)%nat.
Proof.
  assert (∀ n p, (Pos.size_nat p ≤ n)%nat → (length (pos_bytes p) ≤ Pos.size_nat p)%nat) as H; [|by eapply H].
  induction n as [|n IH]; intros q Hq; [destruct q; simpl in Hq; lia|].
  destruct q as [[q|q|]|[q|q|]|]; simpl in *; try lia; specialize (IH q); lia.
Qed.

Lemma validate_lengths r : validate r = Ok tt →
  length (explode (Request.operation_id r)) = 36%nat ∧ length (explode (Request.attempt_id r)) = 36%nat
  ∧ length (explode (Request.object_id r)) = 36%nat ∧ length (explode (Request.revision_id r)) = 36%nat
  ∧ length (explode (Request.sha256 r)) = 64%nat ∧ Request.expected_len r ≤ MAX_BLOB.
Proof.
  unfold validate. destruct (_ && _) eqn:Hb; [|done]. intros _. rewrite !andb_true_iff, bool_decide_eq_true in Hb.
  destruct Hb as [[Hids Hmax] Hd]. cbn [forallb] in Hids. rewrite !andb_true_iff in Hids. destruct Hids as (H1&H2&H3&H4&_).
  assert (∀ s, valid_id s = true → length (explode s) = 36%nat) as Hid.
  { intros s. unfold valid_id, Capture.identifier. rewrite !andb_true_iff, bool_decide_eq_true. tauto. }
  unfold Capture.digest in Hd. rewrite andb_true_iff, bool_decide_eq_true in Hd. split_and!; [by apply Hid..|tauto|].
  etrans; [exact Hmax|]. by destruct (Request.kind r).
Qed.

Lemma take_app_eq {A} (l k : list A) n : length l = n → take n (l ++ k) = l ∧ drop n (l ++ k) = k.
Proof. intros <-. by rewrite take_app_length, drop_app_length. Qed.

Lemma byte_ascii (l : bytes) : byte_of_ascii <$> (ascii_of_byte <$> l) = l.
Proof. rewrite <-list_fmap_compose. rewrite <-(list_fmap_id l) at 2. apply list_fmap_ext. intros _ x _. apply byte_of_ascii_of_byte. Qed.

Lemma parse_print r : validate r = Ok tt → 0 ≤ Request.expected_len r → parse_request (print_request r) = Some r.
Proof.
  intros Hv Hl. destruct (validate_lengths r Hv) as (H1&H2&H3&H4&H5&H6). unfold parse_request, print_request.
  destruct (take_app_eq (explode (Request.operation_id r)) (explode (Request.attempt_id r) ++ explode (Request.object_id r) ++ explode (Request.revision_id r)
    ++ explode (Request.sha256 r) ++ kind_char (Request.kind r) :: (ascii_of_byte <$> pos_bytes (Z.to_pos (Request.expected_len r + 1)))) 36 H1) as [-> ->].
  destruct (take_app_eq (explode (Request.attempt_id r)) (explode (Request.object_id r) ++ explode (Request.revision_id r)
    ++ explode (Request.sha256 r) ++ kind_char (Request.kind r) :: (ascii_of_byte <$> pos_bytes (Z.to_pos (Request.expected_len r + 1)))) 36 H2) as [-> ->].
  destruct (take_app_eq (explode (Request.object_id r)) (explode (Request.revision_id r)
    ++ explode (Request.sha256 r) ++ kind_char (Request.kind r) :: (ascii_of_byte <$> pos_bytes (Z.to_pos (Request.expected_len r + 1)))) 36 H3) as [-> ->].
  destruct (take_app_eq (explode (Request.revision_id r))
    (explode (Request.sha256 r) ++ kind_char (Request.kind r) :: (ascii_of_byte <$> pos_bytes (Z.to_pos (Request.expected_len r + 1)))) 36 H4) as [-> ->].
  destruct (take_app_eq (explode (Request.sha256 r))
    (kind_char (Request.kind r) :: (ascii_of_byte <$> pos_bytes (Z.to_pos (Request.expected_len r + 1)))) 64 H5) as [-> ->].
  rewrite byte_ascii, bytes_pos_bytes, !implode_explode. simpl.
  rewrite bool_decide_true by (unfold MAX_BLOB, u64_max in *; lia).
  destruct r as [a b c d k n h]. simpl in *. do 2 f_equal; [by destruct k|lia].
Qed.

Lemma size_nat_le n p : Zpos p < 2 ^ Z.of_nat n → (Pos.size_nat p ≤ n)%nat.
Proof.
  revert p. induction n as [|n IH]; intros p Hp; [simpl in Hp; lia|]. rewrite Nat2Z.inj_succ, Z.pow_succ_r in Hp by lia.
  destruct p as [p|p|]; simpl; [specialize (IH p); lia|specialize (IH p); lia|lia].
Qed.

Lemma print_len r : validate r = Ok tt → 0 ≤ Request.expected_len r → Z.of_nat (length (print_request r)) ≤ 2048.
Proof.
  intros Hv Hl. destruct (validate_lengths r Hv) as (H1&H2&H3&H4&H5&H6). unfold print_request.
  rewrite !length_app, H1, H2, H3, H4, H5. simpl. rewrite length_fmap. pose proof (pos_bytes_len (Z.to_pos (Request.expected_len r + 1))) as Hp.
  assert (Pos.size_nat (Z.to_pos (Request.expected_len r + 1)) ≤ 22)%nat; [|lia].
  apply size_nat_le. unfold MAX_BLOB in H6. rewrite Z2Pos.id by lia. simpl. lia.
Qed.

Definition print_binding (b : Binding) : bytes := Publisher.str_bytes (b_realm_id b) ++ Publisher.str_bytes (b_deployment_id b).
Definition parse_binding (b : bytes) : option Binding :=
  Some (mkBinding (String.string_of_list_byte (take 36 b)) (String.string_of_list_byte (drop 36 b))).

Lemma str_bytes_len s : length (Publisher.str_bytes s) = length (explode s).
Proof. unfold Publisher.str_bytes. induction s as [|c s IH]; [done|]. simpl. by f_equal. Qed.
Lemma binding_lengths b : binding_validate b = Ok tt →
  length (Publisher.str_bytes (b_realm_id b)) = 36%nat ∧ length (Publisher.str_bytes (b_deployment_id b)) = 36%nat.
Proof.
  unfold binding_validate. destruct (_ && _) eqn:Hb; [|done]. intros _. rewrite !str_bytes_len.
  unfold valid_id, Capture.identifier in Hb. rewrite !andb_true_iff, !bool_decide_eq_true in Hb. tauto.
Qed.

#[global] Program Instance ToyProviderJson : ProviderJson := {|
  request_to_string r := implode (print_request r);
  request_from_str s := parse_request (explode s);
  binding_to_vec := print_binding;
  binding_from_slice := parse_binding
|}.
Next Obligation. simpl. intros r Hv Hl. rewrite explode_implode. by apply parse_print. Qed.
Next Obligation.
  simpl. intros r Hv Hl. unfold str_len. replace (String.length (implode (print_request r))) with (length (explode (implode (print_request r)))).
  - rewrite explode_implode. by apply print_len.
  - generalize (implode (print_request r)). intros s. induction s as [|c s IH]; [done|]. simpl. by f_equal.
Qed.
Next Obligation.
  simpl. intros s r. unfold parse_request. destruct (drop 64 _) as [|k l]; [done|]. destruct (bytes_pos _) as [p|]; [|done]. simpl.
  case_bool_decide; [|done]. intros [= <-]. simpl. lia.
Qed.
Next Obligation.
  simpl. intros b Hb. destruct (binding_lengths b Hb) as [H1 H2]. unfold print_binding, parse_binding.
  destruct (take_app_eq (Publisher.str_bytes (b_realm_id b)) (Publisher.str_bytes (b_deployment_id b)) 36 H1) as [-> ->].
  rewrite !String.string_of_list_byte_of_string. split; [by destruct b|]. rewrite length_app, H1, H2. lia.
Qed.

(** ** A root and a request *)
Definition inos (name : string) : Z := match name with "." => 1 | "staging" => 2 | "objects" => 3 | "writer.lock" => 4 | _ => 5 end.
Definition example_binding : Binding := mkBinding (uuid "a") (uuid "b").
Definition no_fault : nat → option nat := λ _, None.
Definition blank : Process := mkProcess (Disk.mk None [] [] ∅ ∅ (Disk.mkInventory [] [] [] 0 true)) false false false false 0.
Definition initialized : Process := (initialize_profile 1000 true no_fault 7 inos example_binding false blank).2.
Definition opened : Process := (open_profile 1000 true no_fault example_binding false initialized).2.
Definition example_root : Root.t := Root.mk 7 1 2 3 4.
Definition example_request : Request.t :=
  Request.mk (uuid "1") (uuid "2") (uuid "3") (uuid "4") Note 5 (digest note).

Example initialize_then_open :
  (initialize_profile 1000 true no_fault 7 inos example_binding false blank).1 = Ok tt
  ∧ (open_profile 1000 true no_fault example_binding false initialized).1 = Ok example_root
  ∧ abandoned opened = false ∧ locked opened = true ∧ Disk.attempts (Disk.inventory (disk opened)) = [].
Proof. by vm_compute. Qed.
End ProviderExample.

Module ProviderTheorems.
Import ProviderTypes Root Inventory Provider ProviderProps ProviderRuns.

Section steps.
Context {lib : CaptureLib} {pj : ProviderJson} (euid dv : Z).

(** What a power loss leaves: the inventory, and every object whose bytes, name
    and directory were synced. Of everything else, anything. *)
Definition power_loss (d d' : Disk.t) : Prop :=
  Disk.inventory d' = Disk.inventory d
  ∧ ∀ o x, Disk.objects d !! o = Some x → Disk.d_synced x = true →
      ∃ x', Disk.objects d' !! o = Some x' ∧ Disk.d_meta x' = Disk.d_meta x ∧ Disk.d_synced x' = true
        ∧ ∀ n f, Disk.d_files x !! n = Some f → Disk.content_synced f = true → Disk.entry_synced f = true →
            Disk.d_files x' !! n = Some f.

(** The operations of any process that holds the root, whichever calls fail. *)
Inductive disk_step : Disk.t → Disk.t → Prop :=
  | step_stage fault root q b bound s : device root = dv → 0 ≤ Request.expected_len q →
      disk_step (disk s) (disk (stage_internal euid fault root q b bound s).2)
  | step_read fault root q s : disk_step (disk s) (disk (read_internal euid fault root q s).2)
  | step_inspect fault root s : disk_step (disk s) (disk (inspect euid fault root s).2)
  | step_open fault canonical binding capture s :
      disk_step (disk s) (disk (open_profile euid canonical fault binding capture s).2)
  | step_power d d' : power_loss d d' → disk_step d d'.

(** An inventory as the migration leaves it. *)
Definition fresh (d : Disk.t) : Prop := Disk.attempts (Disk.inventory d) = [].
Definition reachable (d : Disk.t) : Prop := ∃ d0, fresh d0 ∧ rtc disk_step d0 d.

Lemma fresh_inv d : fresh d → inv euid dv d.
Proof.
  intros Hf. split; [|intros r n (a&Ha&_); rewrite Hf in Ha; by apply elem_of_nil in Ha].
  split; rewrite Hf; simpl; try constructor; [intros a []%elem_of_nil| |]; done.
Qed.

Lemma quiet_read fault root q : quiet euid dv (read_internal euid fault root q).
Proof.
  apply disk_quiet_bind; [apply quiet_available|intros _]. apply disk_quiet_bind; [apply disk_quiet_lift|intros _].
  apply disk_quiet_bind; [apply quiet_consistency|intros _]. apply disk_quiet_bind; [apply quiet_records|intros rs].
  apply disk_quiet_bind; [apply disk_quiet_lift|intros x]. destruct (negb _); [apply disk_quiet_err|]. destruct (Record_.committed x); [|apply disk_quiet_err].
  apply quiet_or_poison, quiet_durable_bytes.
Qed.
Lemma quiet_inspect fault root : quiet euid dv (inspect euid fault root).
Proof.
  apply disk_quiet_bind; [apply quiet_consistency|intros _]. apply disk_quiet_bind; [apply quiet_records|intros rs].
  apply disk_quiet_bind; [apply quiet_query|intros _]. apply disk_quiet_ret.
Qed.

Lemma quiet_or_unlock {A} (m : pr A) : quiet euid dv m → quiet euid dv (or_unlock m).
Proof. intros H s. unfold or_unlock. specialize (H s). by destruct (m s) as [[a|e] s1]. Qed.
Lemma quiet_or_drop {A} b (m : pr A) : quiet euid dv m → quiet euid dv (or_drop b m).
Proof. intros H s. unfold or_drop, drop_root. specialize (H s). destruct (m s) as [[a|e] s1]; [done|]. by destruct (b && _). Qed.
Lemma quiet_close fault : quiet euid dv (close fault).
Proof. intros s. unfold close, tick, drop_root. simpl. by destruct (fault _). Qed.
Lemma quiet_or_close {A} fault (m : pr A) : quiet euid dv m → quiet euid dv (or_close fault m).
Proof.
  intros H s. unfold or_close. specialize (H s). destruct (m s) as [[a|e] s1]; [done|]. simpl in H.
  pose proof (quiet_close fault s1) as Hc. destruct (close fault s1) as [[u|e'] s2]; simpl in *; by etrans.
Qed.
Lemma quiet_root_open fault canonical binding : quiet euid dv (Root.open euid canonical fault binding).
Proof.
  intros s. unfold Root.open. destruct (abandoned s); [done|]. revert s.
  apply disk_quiet_bind; [apply disk_quiet_lift|intros _]. apply disk_quiet_bind; [apply quiet_look|intros _].
  apply disk_quiet_bind; [apply quiet_look|intros m]. apply disk_quiet_bind; [apply disk_quiet_lift|intros _].
  apply disk_quiet_bind; [apply quiet_look|intros _]. apply disk_quiet_bind; [apply quiet_look|intros marker].
  apply disk_quiet_bind; [apply disk_quiet_lift|intros _]. apply disk_quiet_bind; [apply quiet_look|intros lock].
  apply disk_quiet_bind; [intros s; unfold take_lock; by destruct (locked s)|intros _].
  apply quiet_or_unlock. apply disk_quiet_bind; [apply quiet_look|intros h1]. apply disk_quiet_bind; [apply quiet_look|intros h2]. apply disk_quiet_ret.
Qed.
Lemma quiet_verify_binding fault binding capture : quiet euid dv (verify_binding fault binding capture).
Proof.
  apply disk_quiet_bind; [apply quiet_query|intros v]. destruct (negb _); [apply disk_quiet_err|].
  apply disk_quiet_bind; [apply quiet_query|intros _]. apply disk_quiet_bind; [apply quiet_query|intros rows]. destruct (negb _); [apply disk_quiet_err|].
  destruct capture; [|apply disk_quiet_ret]. apply disk_quiet_bind; [apply quiet_query|intros n]. apply disk_quiet_bind; [apply quiet_query|intros m].
  destruct (_ && _); [apply disk_quiet_ret|apply disk_quiet_err].
Qed.
Lemma quiet_open fault canonical binding capture : quiet euid dv (open_profile euid canonical fault binding capture).
Proof.
  apply disk_quiet_bind; [apply quiet_root_open|intros root].
  apply disk_quiet_bind; [apply quiet_or_drop, quiet_validate_root|intros _]. apply disk_quiet_bind.
  { apply quiet_or_drop. apply disk_quiet_bind; [apply quiet_validate_root|intros _]. apply disk_quiet_bind; [apply quiet_query|intros _].
    apply disk_quiet_bind; [apply quiet_validate_root|intros _]. apply quiet_query. }
  intros _. apply disk_quiet_bind; [apply quiet_or_close, quiet_verify_binding|intros _]. apply disk_quiet_bind; [done|intros _].
  apply disk_quiet_bind; [apply quiet_or_close, quiet_consistency|intros _]. apply disk_quiet_ret.
Qed.

Lemma stored_power d d' r : power_loss d d' → stored euid dv d r → stored euid dv d' r.
Proof.
  intros [_ Hp] (x&f&Hx&Hdx&Hf&Hok&Hv&Hc&Hs). destruct (Hs eq_refl) as [Hs1 Hs2]. destruct (Hp _ _ Hx Hs1) as (x'&Hx'&Hm&Hsx&Hfs).
  exists x', f. unfold dir_ok in *. rewrite Hm. split_and!; try done. by apply Hfs.
Qed.

Lemma step_good d d' : disk_step d d' → inv euid dv d → inv euid dv d' ∧ grows d d'.
Proof.
  intros Hs Hi. assert (good euid dv d d) as Hg by done. destruct Hs as [fault root q b bound s Hr Hl|fault root q s|fault root s|fault can binding cap s|d d' Hp].
  - by eapply keeps_stage_internal.
  - by apply (keeps_quiet _ _ _ _ (quiet_read fault root q)).
  - by apply (keeps_quiet _ _ _ _ (quiet_inspect fault root)).
  - by apply (keeps_quiet _ _ _ _ (quiet_open fault can binding cap)).
  - destruct Hi as [Hi Hd]. pose proof Hp as [Hinv _]. split; [split; [by rewrite Hinv|]|].
    + intros r n Hr. rewrite Hinv in Hr. by eapply stored_power, Hd.
    + intros r n Hr. by rewrite Hinv.
Qed.

Lemma steps_good d d' : rtc disk_step d d' → inv euid dv d → inv euid dv d' ∧ grows d d'.
Proof.
  induction 1 as [|d1 d2 d3 H1 _ IH]; intros Hi; [done|]. destruct (step_good _ _ H1 Hi) as [Hi2 Hg2]. destruct (IH Hi2) as [Hi3 Hg3].
  split; [done|by etrans].
Qed.
Lemma disk_reachable_inv d : reachable d → inv euid dv d.
Proof. intros (d0&Hf&Hs). by eapply steps_good, fresh_inv. Qed.

(** C11: what is recorded durable stays: through any staging, reading and opening
    with any failures, and any power loss, the record remains and the object's
    file is there, synced, with the bytes of the request. The inventory never
    holds more than 128 attempts or 64 MiB reserved. *)
Theorem durable_survives d d' r n :
  reachable d → durable_in (Disk.inventory d) r n → rtc disk_step d d' →
  durable_in (Disk.inventory d') r n ∧ stored euid dv d' r
  ∧ Z.of_nat (length (Disk.attempts (Disk.inventory d'))) ≤ MAX_RECORDS ∧ rows_len (Disk.attempts (Disk.inventory d')) ≤ MAX_RESERVED_BYTES.
Proof.
  intros Hr%disk_reachable_inv Hd Hs. destruct (steps_good _ _ Hs Hr) as [[Hok Hst] Hg]. split; [by apply Hg|].
  split; [by eapply Hst, Hg|]. by destruct Hok.
Qed.

(** After a stage answered a commit, through whatever happens next (failed
    stages, crashes, power losses), a process that opens a root without the
    poison marker and meets no failure reads bytes with the request's length and
    digest, and staging the same request again answers the same commit. *)
Theorem stage_read_roundtrip fault root q b s c s' d' :
  reachable (disk s) → device root = dv → 0 ≤ Request.expected_len q →
  stage euid fault root false q b s = (Ok c, s') → rtc disk_step (disk s') d' →
  ∀ root' f p, device root' = dv → root_valid euid root' d' → (∀ n, f n = None) →
    disk p = d' → abandoned p = false → poisoned p = false →
    (∃ b', (read euid f root' false q p).1 = Ok b' ∧ verifies q b' = true) ∧ (stage euid f root' false q b p).1 = Ok c.
Proof.
  intros Hr%disk_reachable_inv Hdv Hl Hs Hsteps root' f p Hdv' Hroot Hf Hp Ha Hpo. unfold stage, read in *.
  apply (stage_records euid dv) in Hs as Hrec; [|done..]. destruct Hrec as (n&->&Hd).
  assert (verifies q b = true) as Hb.
  { apply st_bind_ok in Hs as (u1&s1&_&Hs). apply st_bind_ok in Hs as (u2&s2&_&Hs). by destruct (verifies q b). }
  pose proof (step_good _ _ (step_stage fault root q b None s Hdv Hl) Hr) as [Hr' _]. rewrite Hs in Hr'. simpl in Hr'.
  destruct (steps_good _ _ Hsteps Hr') as [Hinv Hg]. apply Hg in Hd. rewrite <-Hdv' in Hinv. split.
  - destruct (runs_read euid root' f Hf d' q n Hroot Hinv Hd) as (b'&Hb'&Hrun). destruct (Hrun p Hp Ha Hpo) as (p'&E&_).
    exists b'. by rewrite E.
  - destruct Hd as (a&Hin&Hrow). pose proof (runs_stage_prefix euid root' f Hf d' q b (Some n) a _ _ Hroot Hinv Hin Hrow Hb
      (runs_ret (LocalCommit.mk (commit_id q) n q) d')) as Hrun. destruct (Hrun p Hp Ha Hpo) as (p'&E&_). by rewrite E.
Qed.

(** C14: a retry of an attempt that a crash left prepared, when no call fails and
    the files are the owner's, does what the files left behind allow: it commits
    when there is none, or when the published or else the staged one is
    complete; otherwise it answers unresolved and changes no record. *)
Theorem retry_decides root q b p a f :
  reachable (disk p) → device root = dv → root_valid euid root (disk p) → (∀ n, f n = None) → abandoned p = false → poisoned p = false →
  a ∈ Disk.attempts (Disk.inventory (disk p)) → row_of q None a → verifies q b = true → owned euid root (disk p) q →
  (∀ r n, durable_in (Disk.inventory (disk p)) r n → commit_id r ≠ commit_id q) →
  let '(res, p') := stage euid f root false q b p in
  if match leftover (disk p) q with Some x => complete q x | None => true end
  then ∃ n, res = Ok (LocalCommit.mk (commit_id q) n q) ∧ durable_in (Disk.inventory (disk p')) q n
  else res = Err UnresolvedPrepared ∧ Disk.inventory (disk p') = Disk.inventory (disk p).
Proof.
  intros Hr%disk_reachable_inv Hdv Hroot Hf Hab Hpo Ha Hrow Hb Hown Hfresh. unfold stage. rewrite <-Hdv in Hr.
  pose proof (runs_retry euid root f Hf (disk p) q b a Hroot Hr Ha Hrow Hb Hown Hfresh) as H.
  assert (∀ n d', runs (stage_internal euid f root q b None) (disk p) (Ok (LocalCommit.mk (commit_id q) n q)) d' →
    durable_in (Disk.inventory d') q n →
    let '(res, p') := stage_internal euid f root q b None p in
    ∃ n, res = Ok (LocalCommit.mk (commit_id q) n q) ∧ durable_in (Disk.inventory (disk p')) q n) as Hgo.
  { intros n d' Hrun Hd. destruct (Hrun p eq_refl Hab Hpo) as (p'&E&K&_). rewrite E. exists n. by rewrite K. }
  destruct (leftover (disk p) q) as [x|]; [destruct (complete q x)|].
  - destruct H as (n&d'&Hrun&Hd). by eapply Hgo.
  - destruct H as (d'&Hrun&Hi). destruct (Hrun p eq_refl Hab Hpo) as (p'&E&K&_). rewrite E. by rewrite K.
  - destruct H as (n&d'&Hrun&Hd). by eapply Hgo.
Qed.
End steps.
(** ** Witnesses *)
Import ParentExample ProviderExample.
Abbreviation no_fault := ProviderExample.no_fault.

Lemma opened_fresh : fresh (disk opened).
Proof. by vm_compute. Qed.
Lemma opened_reachable : reachable 1000 7 (disk opened).
Proof. exists (disk opened). split; [apply opened_fresh|apply rtc_refl]. Qed.
Lemma example_request_len : 0 ≤ Request.expected_len example_request.
Proof. done. Qed.

Definition staged : Process := (stage 1000 no_fault example_root false example_request note opened).2.
Definition staged_commit : LocalCommit.t := LocalCommit.mk (commit_id example_request) 1 example_request.
Lemma staged_ok : stage 1000 no_fault example_root false example_request note opened = (Ok staged_commit, staged).
Proof. unfold staged. by vm_compute. Qed.
Lemma staged_reachable : reachable 1000 7 (disk staged).
Proof.
  exists (disk opened). split; [apply opened_fresh|]. apply rtc_once. exact (step_stage _ _ no_fault example_root example_request note None opened eq_refl example_request_len).
Qed.
Lemma staged_valid : root_valid 1000 example_root (disk staged).
Proof. split; [|by vm_compute|by vm_compute|by vm_compute]. eexists. split_and!; by vm_compute. Qed.
Lemma staged_durable : durable_in (Disk.inventory (disk staged)) example_request 1.
Proof. eexists. split; [vm_compute; by constructor|]. split_and!; by vm_compute. Qed.

(** The power goes before the last sync of the directory. *)
Definition cut (d : Disk.t) : Disk.t := Disk.set_staging (λ _, ∅) d.
Lemma cut_power d : power_loss d (cut d).
Proof. split; [done|]. intros o x Hx Hs. exists x. by split_and!. Qed.

Lemma durable_survives_witness : stored 1000 7 (cut (disk staged)) example_request.
Proof.
  apply (durable_survives 1000 7 (disk staged) (cut (disk staged)) example_request 1);
    [apply staged_reachable|apply staged_durable|apply rtc_once, step_power, cut_power].
Defined.

Lemma stage_read_roundtrip_witness :
  (stage 1000 no_fault example_root false example_request note staged).1 = Ok staged_commit.
Proof.
  apply (stage_read_roundtrip 1000 7 no_fault example_root example_request note opened staged_commit staged (disk staged));
    [apply opened_reachable|reflexivity|apply example_request_len|apply staged_ok|apply rtc_refl|reflexivity|apply staged_valid|done|done|by vm_compute|by vm_compute].
Defined.

(** The process stops at a call of the stage: a write that wrote three bytes, or
    after the rename. *)
Definition stopped (k : nat) : Process :=
  (stage 1000 (λ n, if decide (n = (calls opened + k)%nat) then Some 3%nat else None) example_root false example_request note opened).2.
Lemma stopped_reachable k : reachable 1000 7 (disk (stopped k)).
Proof.
  exists (disk opened). split; [apply opened_fresh|]. apply rtc_once.
  exact (step_stage _ _ _ example_root example_request note None opened eq_refl example_request_len).
Qed.
Lemma no_durable i : forallb (λ a, bool_decide (Disk.AttemptsRow.state a = Disk.PREPARED)) (Disk.attempts i) = true →
  ∀ r n, durable_in i r n → commit_id r ≠ commit_id example_request.
Proof.
  intros H r n (a&Ha&(_&_&_&->)) _. apply forallb_forall with (x := durable_row (commit_id r) n (prepared_row r)) in H; [done|by apply list_elem_of_In].
Qed.

(** What the retry needs of a stopped process. *)
Definition retry_ready (p : Process) : Prop :=
  root_valid 1000 example_root (disk p) ∧ abandoned p = false ∧ poisoned p = false
  ∧ prepared_row example_request ∈ Disk.attempts (Disk.inventory (disk p)) ∧ owned 1000 example_root (disk p) example_request
  ∧ forallb (λ a, bool_decide (Disk.AttemptsRow.state a = Disk.PREPARED)) (Disk.attempts (Disk.inventory (disk p))) = true.
Ltac ready := split; [split; [eexists; split_and!; by vm_compute|by vm_compute..]|];
  split; [by vm_compute|]; split; [by vm_compute|]; split; [vm_compute; by constructor|]; split; [|by vm_compute];
  split; [|split]; intros x Hx; vm_compute in Hx; first [discriminate Hx | injection Hx as <-; by vm_compute].
Lemma torn_ready : retry_ready (stopped 31).
Proof. ready. Qed.
Lemma renamed_ready : retry_ready (stopped 39).
Proof. ready. Qed.
Lemma example_row : row_of example_request None (prepared_row example_request) ∧ verifies example_request note = true.
Proof. split_and!; by vm_compute. Qed.
Lemma torn_left : match leftover (disk (stopped 31)) example_request with Some x => complete example_request x | None => true end = false.
Proof. by vm_compute. Qed.
Lemma renamed_left : match leftover (disk (stopped 39)) example_request with Some x => complete example_request x | None => true end = true.
Proof. by vm_compute. Qed.

Lemma retry_decides_witness :
  (stage 1000 no_fault example_root false example_request note (stopped 31)).1 = Err UnresolvedPrepared
  ∧ ∃ n, (stage 1000 no_fault example_root false example_request note (stopped 39)).1 = Ok (LocalCommit.mk (commit_id example_request) n example_request).
Proof.
  destruct example_row as [Hrow Hb]. split.
  - destruct torn_ready as (H1&H2&H3&H4&H5&H6).
    pose proof (retry_decides 1000 7 example_root example_request note (stopped 31) _ no_fault (stopped_reachable 31) eq_refl
      H1 (λ _, eq_refl) H2 H3 H4 Hrow Hb H5 (no_durable _ H6)) as H. rewrite torn_left in H.
    destruct (stage _ _ _ _ _ _ (stopped 31)) as [res p']. by destruct H as [-> _].
  - destruct renamed_ready as (H1&H2&H3&H4&H5&H6).
    pose proof (retry_decides 1000 7 example_root example_request note (stopped 39) _ no_fault (stopped_reachable 39) eq_refl
      H1 (λ _, eq_refl) H2 H3 H4 Hrow Hb H5 (no_durable _ H6)) as H. rewrite renamed_left in H.
    destruct (stage _ _ _ _ _ _ (stopped 39)) as [res p']. destruct H as (n&->&_). by exists n.
Defined.

(** One failed query of a check is enough to poison the root for good. *)
Example transient_failure_poisons :
  (stage 1000 (λ n, if decide (n = (calls opened + 12)%nat) then Some 0%nat else None) example_root false example_request note opened).1 = Err Poisoned
  ∧ is_Some (Disk.entry "POISON" (disk (stopped 12))).
Proof. split; [by vm_compute|]. eexists. by vm_compute. Qed.
End ProviderTheorems.
