(* ===== verification/Lan.v ===== *)
(** * Files from peers on the local network ([disk-client/src/lan_sync/])

    The table of peers that multicast DNS fills ([registry.rs],
    [discovery.rs]), the endpoint a node serves its files from ([serve.rs]) and
    the fetch that tries each peer of the same tenant ([fetch.rs]). The network,
    the peers' answers included, is an oracle. *)

From stdpp Require Import prelude gmap strings pretty sorting.
From Stdlib Require Import ZArith Lia Strings.Byte Strings.Ascii.
From S2P Require Import Prelude Text PathFacts Fs BlobStore Publisher E2ee Guard Accounts.

#[local] Open Scope Z_scope.

(** ** [registry.rs] *)
Module LanPeer.
Record t := mk {
  node_id : string;
  host : string;
  port : Z;
  tenant_id : option string;
  last_seen_unix : Z
}.
#[export] Instance eq_dec : EqDecision t.
Proof. solve_decision. Defined.
End LanPeer.

Module LanPeerRegistry.
Record t := mk {
  enabled : bool;
  self_node_id : string;
  peers : gmap string LanPeer.t
}.

Definition new (enabled : bool) (self_node_id : string) : t := mk enabled self_node_id ∅.
Definition is_enabled (r : t) : bool := enabled r.
Definition set_enabled (b : bool) (r : t) : t := mk b (self_node_id r) (peers r).

Definition upsert (peer : LanPeer.t) (r : t) : t :=
  if decide (LanPeer.node_id peer = self_node_id r) then r
  else mk (enabled r) (self_node_id r) (<[LanPeer.node_id peer := peer]> (peers r)).

(** Stale peers leave the table; the rest is returned in the order of their ids. *)
Definition fresh_at (now max_age_secs : Z) (p : LanPeer.t) : bool :=
  bool_decide (i64_saturating_sub now (LanPeer.last_seen_unix p) ≤ max_age_secs).

Definition snapshot (now max_age_secs : Z) (r : t) : list LanPeer.t * t :=
  let kept := filter (λ kp, fresh_at now max_age_secs kp.2 = true) (peers r) in
  (sort_by (λ a b, Path.str_leb (LanPeer.node_id a) (LanPeer.node_id b)) ((map_to_list kept).*2),
   mk (enabled r) (self_node_id r) kept).

Definition clear (r : t) : t := mk (enabled r) (self_node_id r) ∅.
End LanPeerRegistry.

(** ** [discovery.rs] *)
Module LanDiscovery.
Definition PEER_TTL_SECS : Z := 120.

(** What the mDNS library resolved: the TXT properties, the addresses, the
    host name and the port. *)
Inductive ScopedIp :=
  | V4 (a b c d : Z)
  | V6 (text : string).

Record ResolvedService := mkService {
  properties : gmap string string;
  addresses : list ScopedIp;
  service_host : string;
  service_port : Z
}.

Definition v4_text (a b c d : Z) : string :=
  pretty a +:+ "." +:+ pretty b +:+ "." +:+ pretty c +:+ "." +:+ pretty d.

(** The first IPv4 address that is not a loopback one. *)
Fixpoint lan_address (l : list ScopedIp) : option string :=
  match l with
  | [] => None
  | V4 a b c d :: l => if decide (a = 127) then lan_address l else Some (v4_text a b c d)
  | V6 _ :: l => lan_address l
  end.

Definition strip_dot (s : string) : option string :=
  match reverse (explode s) with
  | c :: l => if decide (c = "."%char) then Some (implode (reverse l)) else None
  | [] => None
  end.

Definition peer_from_resolved (now : Z) (info : ResolvedService) : option LanPeer.t :=
  node_id ← properties info !! "node_id";
  host ← match lan_address (addresses info) with
         | Some h => Some h
         | None => strip_dot (service_host info)
         end;
  let tenant := match properties info !! "tenant_id" with
                | Some s => if decide (s = "") then None else Some s
                | None => None
                end in
  Some (LanPeer.mk node_id host (service_port info) tenant now).

(** [u16::from_str]: digits, after one plus at most. *)
Definition parse_u16 (s : string) : option Z :=
  z ← Split.unsigned (match explode s with
                      | c :: l => if decide (c = "+"%char) then l else c :: l
                      | [] => []
                      end);
  if decide (z ≤ 65535) then Some z else None.

(** [address.rsplit(':').next()]. *)
Definition parse_server_port (address : string) : Z :=
  default 9443 (parse_u16 (match Split.rsplit_once ":"%char address with Some (_, p) => p | None => address end)).

(** What one [recv_timeout] of the browsing thread yields: nothing within a
    second, or an event, which names a service or something else. *)
Inductive Browsed :=
  | TimedOut
  | Resolved (at_ : Z) (info : ResolvedService)
  | OtherEvent.

(** The thread: [while let Ok(event)]. *)
Fixpoint browse (l : list Browsed) : list LanPeer.t :=
  match l with
  | [] => []
  | TimedOut :: _ => []
  | OtherEvent :: l => browse l
  | Resolved now info :: l =>
      match peer_from_resolved now info with
      | Some p => p :: browse l
      | None => browse l
      end
  end.

(** The select loop until the shutdown: what was browsed before it is merged,
    and the shutdown empties the table. [stop] is whether the shutdown came. *)
Definition run_lan_discovery (l : list Browsed) (stop : bool) (r : LanPeerRegistry.t) : LanPeerRegistry.t :=
  if LanPeerRegistry.is_enabled r then
    let r := foldl (λ r p, LanPeerRegistry.upsert p r) r (browse l) in
    if stop then LanPeerRegistry.clear r else r
  else r.
End LanDiscovery.

(** ** [serve.rs] *)
Module LanServe.
Record LanServeState := mkState {
  share_roots : gmap string string;
  tenant_id : option string;
  self_node_id : string
}.

(** The two headers a request carries, and its query. *)
Record BlobRequest := mkRequest {
  hdr_tenant : option string;
  hdr_node_id : option string;
  share : string;
  path : string
}.

Record BlobResponse := mkResponse {
  status : Z;
  content_hash : option string;
  body : bytes
}.

Definition text (status : Z) (s : string) : BlobResponse := mkResponse status None (Publisher.str_bytes s).

Definition non_empty (o : option string) : option string :=
  match o with Some s => if decide (s = "") then None else Some s | None => None end.

Definition check_authorize (state : LanServeState) (q : BlobRequest) : option BlobResponse :=
  let requester := default "" (hdr_node_id q) in
  if decide (requester = "") then Some (text 401 "missing x-disk-node-id")
  else if decide (requester = self_node_id state) then Some (text 403 "self-fetch not allowed")
  else
    let req_tenant := default "" (hdr_tenant q) in
    match non_empty (tenant_id state), non_empty (Some req_tenant) with
    | Some local, Some remote => if decide (local = remote) then None else Some (text 403 "tenant mismatch")
    | None, None => None
    | Some _, None => Some (text 403 "tenant required")
    | None, Some _ => Some (text 403 "tenant mismatch")
    end.

Section serve.
Context (blake3 : bytes → bytes) (canonicalize : Fs.t → string → option string) (f : Fs.faults).

Definition get_blob (state : LanServeState) (q : BlobRequest) (fs : Fs.t) : BlobResponse * Fs.t :=
  match check_authorize state q with
  | Some resp => (resp, fs)
  | None =>
      match share_roots state !! share q with
      | None => (text 404 "unknown share", fs)
      | Some root =>
          match PathGuard.validate (canonicalize fs) (path q) root with
          | Some (Ok canonical) =>
              match Fs.read f canonical fs with
              | (Ok b, fs) => (mkResponse 200 (Some (Hex.encode (blake3 b))) b, fs)
              | (Err _, fs) => (text 404 "file not found", fs)
              end
          | _ => (text 400 "invalid path", fs)
          end
      end
  end.
End serve.
End LanServe.

(** ** [fetch.rs] *)
Module LanFetch.
Import LanServe.

Inductive FetchError := Transport (msg : string) | HttpStatus (code : Z) | HashMismatch.

Record LanFetchContext := mkContext {
  registry : LanPeerRegistry.t;
  local_tenant : option string;
  node_id : string
}.

(** What the [n]-th request to a peer is answered with: a transport error or a
    response, whose body may still fail to arrive. *)
Record PeerResponse := mkPeer {
  peer_status : Z;
  peer_hash : option string;
  peer_body : result bytes string
}.
Abbreviation network := (nat → string → Z → BlobRequest → result PeerResponse string).

Definition eligible (local_tenant_id : option string) (p : LanPeer.t) : bool :=
  match non_empty local_tenant_id, non_empty (LanPeer.tenant_id p) with
  | Some a, Some b => bool_decide (a = b)
  | None, None => true
  | _, _ => false
  end.
Definition eligible_peers (peers : list LanPeer.t) (local_tenant_id : option string) : list LanPeer.t :=
  List.filter (eligible local_tenant_id) peers.

Section fetch.
Context (blake3 : bytes → bytes) (net : network).

(** The digest the header names, when it is one. *)
Definition header_hash (h : option string) : option bytes :=
  d ← h ≫= λ s, HexDecode.decode (trim s);
  if decide (length d = 32%nat) then Some d else None.

Definition fetch_blob_from_peer (n : nat) (peer : LanPeer.t) (share path tenant_id requester_node_id : string)
    (expected_hash : option bytes) : result bytes FetchError :=
  resp <?- map_err Transport (net n (LanPeer.host peer) (LanPeer.port peer)
             (mkRequest (Some tenant_id) (Some requester_node_id) share path)) ;;
  if negb (bool_decide (200 ≤ peer_status resp < 300)) then Err (HttpStatus (peer_status resp))
  else
    b <?- map_err Transport (peer_body resp) ;;
    let computed := blake3 b in
    match expected_hash with
    | Some expected => if decide (computed = expected) then Ok b else Err HashMismatch
    | None =>
        match header_hash (peer_hash resp) with
        | Some h => if decide (h = computed) then Ok b else Err HashMismatch
        | None => Ok b
        end
    end.

(** The peers in order, from the [n]-th request on. *)
Fixpoint try_peers (n : nat) (peers : list LanPeer.t) (share path tenant requester : string)
    (expected_hash : option bytes) : option bytes :=
  match peers with
  | [] => None
  | p :: peers =>
      match fetch_blob_from_peer n p share path tenant requester expected_hash with
      | Ok b => Some b
      | Err _ => try_peers (S n) peers share path tenant requester expected_hash
      end
  end.

(** [client] is whether the HTTP client could be built. *)
Definition try_lan_fetch (now : Z) (client : bool) (ctx : LanFetchContext) (share path : string)
    (expected_hash : option bytes) : option bytes * LanFetchContext :=
  if negb (LanPeerRegistry.is_enabled (registry ctx)) then (None, ctx)
  else
    let '(peers, reg) := LanPeerRegistry.snapshot now LanDiscovery.PEER_TTL_SECS (registry ctx) in
    let candidates := eligible_peers peers (local_tenant ctx) in
    (if client then try_peers 0 candidates share path (default "" (local_tenant ctx)) (node_id ctx) expected_hash
     else None,
     mkContext reg (local_tenant ctx) (node_id ctx)).
End fetch.
End LanFetch.
