(* ===== verification/LanProps.v ===== *)
(** * Properties of the LAN exchange *)

From stdpp Require Import prelude gmap strings pretty sorting.
From Stdlib Require Import ZArith Lia Strings.Byte Strings.Ascii.
From S2P Require Import Prelude Text PathFacts Fs BlobStore Publisher E2ee Guard Accounts Lan.

#[local] Open Scope Z_scope.

(** ** The peer table *)
Section registry.
Import LanPeerRegistry.

(** Peers sit under their own id, and the node itself is not among them. *)
Definition keyed (r : t) : Prop :=
  ∀ k p, peers r !! k = Some p → LanPeer.node_id p = k ∧ k ≠ self_node_id r.

Inductive registry_step : t → t → Prop :=
  | step_upsert p r : registry_step r (upsert p r)
  | step_snapshot now age r : registry_step r (snapshot now age r).2
  | step_enable b r : registry_step r (set_enabled b r)
  | step_clear r : registry_step r (clear r).

Lemma new_keyed b self : keyed (new b self).
Proof. intros k p. simpl. by rewrite lookup_empty. Qed.

Lemma step_keyed r r' : registry_step r r' → keyed r → keyed r'.
Proof.
  intros [p s|now age s|b s|s] Hk; [|intros k p|done|intros k p; simpl; by rewrite lookup_empty].
  - unfold upsert. case_decide as Hs; [done|]. intros k q. simpl.
    rewrite lookup_insert_Some. intros [[<- <-]|[_ Hq]]; [done|by apply Hk].
  - simpl. rewrite map_lookup_filter_Some. intros [Hp _]. by apply Hk.
Qed.

Lemma steps_keyed r r' : rtc registry_step r r' → keyed r → keyed r'.
Proof. induction 1; eauto using step_keyed. Qed.

Lemma elem_of_snapshot now age r p :
  p ∈ (snapshot now age r).1 ↔ ∃ k, peers r !! k = Some p ∧ fresh_at now age p = true.
Proof.
  unfold snapshot. cbn [fst]. rewrite elem_of_sort_by, list_elem_of_fmap. split.
  - intros ([k q]&->&Hq). apply elem_of_map_to_list, map_lookup_filter_Some in Hq as [Hq Hf]. by exists k.
  - intros (k&Hk&Hf). exists (k, p). split; [done|]. apply elem_of_map_to_list, map_lookup_filter_Some. done.
Qed.
End registry.

(** ** Fetching *)
Section fetch.
Import LanServe LanFetch.
Context (blake3 : bytes → bytes) (net : network).

Definition request_of (ctx : LanFetchContext) (share path : string) : BlobRequest :=
  mkRequest (Some (default "" (local_tenant ctx))) (Some (node_id ctx)) share path.

(** The body of a good answer of [p] that has the digest asked for. *)
Definition answered (n : nat) (p : LanPeer.t) (q : BlobRequest) (expected : option bytes) (b : bytes) : Prop :=
  ∃ resp, net n (LanPeer.host p) (LanPeer.port p) q = Ok resp
    ∧ 200 ≤ peer_status resp < 300 ∧ peer_body resp = Ok b
    ∧ match expected with
      | Some h => blake3 b = h
      | None => ∀ h, header_hash (peer_hash resp) = Some h → blake3 b = h
      end.

Lemma fetch_answered n p share path t w expected b :
  fetch_blob_from_peer blake3 net n p share path t w expected = Ok b
  ↔ answered n p (mkRequest (Some t) (Some w) share path) expected b.
Proof.
  unfold fetch_blob_from_peer, answered. destruct (net _ _ _ _) as [resp|e]; simpl; [|naive_solver].
  case_bool_decide as Hs; simpl; [|split; [done|]; by intros (?&[= <-]&?&_)].
  destruct (peer_body resp) as [c|e] eqn:Hb; simpl; [|split; [done|]; intros (?&[= <-]&_&Hb'&_); congruence].
  assert ((∃ resp0, Ok (E:=string) resp = Ok resp0 ∧ 200 ≤ peer_status resp0 < 300
      ∧ peer_body resp0 = Ok b ∧ match expected with
        | Some h => blake3 b = h | None => ∀ h, header_hash (peer_hash resp0) = Some h → blake3 b = h end)
    ↔ c = b ∧ match expected with
        | Some h => blake3 b = h | None => ∀ h, header_hash (peer_hash resp) = Some h → blake3 b = h end) as Hx.
  { split; [intros (?&[= <-]&_&Hb'&?); rewrite Hb in Hb'; by simplify_eq|].
    intros [<- ?]. by exists resp. }
  rewrite Hx. clear Hx. destruct expected as [h|]; [case_decide; naive_solver|].
  destruct (header_hash _) as [h|]; [case_decide; naive_solver|naive_solver].
Qed.

Lemma try_peers_answered n peers share path t w expected b :
  try_peers blake3 net n peers share path t w expected = Some b →
  ∃ m p, p ∈ peers ∧ answered m p (mkRequest (Some t) (Some w) share path) expected b.
Proof.
  revert n. induction peers as [|p peers IH]; intros n; simpl; [done|].
  destruct (fetch_blob_from_peer _ _ _ _ _ _ _ _ _) as [c|] eqn:Hf.
  - intros [= <-]. apply fetch_answered in Hf. exists n, p. split; [left|done].
  - intros (m&q&Hq&?)%IH. exists m, q. split; [by right|done].
Qed.

(** One peer that always has an answer is enough. *)
Lemma try_peers_some n peers share path t w expected p b :
  p ∈ peers → (∀ m, answered m p (mkRequest (Some t) (Some w) share path) expected b) →
  is_Some (try_peers blake3 net n peers share path t w expected).
Proof.
  intros Hp Ha. revert n. induction peers as [|q peers IH]; intros n; [by apply elem_of_nil in Hp|]. simpl.
  destruct (fetch_blob_from_peer _ _ _ q _ _ _ _ _) as [c|] eqn:Hf; [done|].
  apply elem_of_cons in Hp as [->|Hp]; [|by apply IH].
  specialize (Ha n). apply fetch_answered in Ha. congruence.
Qed.

(** Whom a fetch may ask: live peers of the same tenant, never the node itself. *)
Definition candidate (now : Z) (ctx : LanFetchContext) (p : LanPeer.t) : Prop :=
  LanPeerRegistry.peers (registry ctx) !! LanPeer.node_id p = Some p
  ∧ LanPeer.node_id p ≠ LanPeerRegistry.self_node_id (registry ctx)
  ∧ LanPeerRegistry.fresh_at now LanDiscovery.PEER_TTL_SECS p = true
  ∧ non_empty (LanPeer.tenant_id p) = non_empty (local_tenant ctx).

Lemma eligible_spec t p : eligible t p = true ↔ non_empty (LanPeer.tenant_id p) = non_empty t.
Proof.
  unfold eligible. destruct (non_empty t), (non_empty _); rewrite ?bool_decide_eq_true; naive_solver.
Qed.

Lemma candidate_elem now ctx p :
  keyed (registry ctx) →
  p ∈ eligible_peers (LanPeerRegistry.snapshot now LanDiscovery.PEER_TTL_SECS (registry ctx)).1 (local_tenant ctx)
  ↔ candidate now ctx p.
Proof.
  intros Hk. unfold eligible_peers, candidate. rewrite list_elem_of_In, List.filter_In, <-list_elem_of_In.
  rewrite elem_of_snapshot, eligible_spec. split.
  - intros [(k&Hp&Hf) He]. destruct (Hk k p Hp) as [<- ?]. done.
  - intros (Hp&?&?&?). split; [|done]. by exists (LanPeer.node_id p).
Qed.

Lemma fetch_some now client ctx share path expected b ctx' :
  keyed (registry ctx) →
  try_lan_fetch blake3 net now client ctx share path expected = (Some b, ctx') →
  LanPeerRegistry.is_enabled (registry ctx) = true
  ∧ ∃ n p, candidate now ctx p ∧ answered n p (request_of ctx share path) expected b.
Proof.
  intros Hk. unfold try_lan_fetch. destruct (LanPeerRegistry.is_enabled _); [|done]. simpl.
  destruct client; [|done]. intros [= H <-]. split; [done|].
  apply try_peers_answered in H as (m&p&Hp&?). exists m, p. split; [|done]. by apply candidate_elem.
Qed.
End fetch.

(** ** Serving *)
Section serve.
Import LanServe LanFetch.
Context (blake3 : bytes → bytes) (canonicalize : Fs.t → string → option string).

Lemma non_empty_default o : non_empty (Some (default "" o)) = non_empty o.
Proof. by destruct o. Qed.

(** Who is let in, by the two headers alone. *)
Definition admitted (sv : LanServeState) (q : BlobRequest) : Prop :=
  (∃ w, hdr_node_id q = Some w ∧ w ≠ "" ∧ w ≠ self_node_id sv)
  ∧ non_empty (hdr_tenant q) = non_empty (tenant_id sv).

Lemma check_authorize_spec sv q : check_authorize sv q = None ↔ admitted sv q.
Proof.
  unfold check_authorize, admitted. rewrite non_empty_default.
  destruct (hdr_node_id q) as [w|]; simpl; [|naive_solver].
  case_decide as H1; [naive_solver|]. case_decide as H2; [naive_solver|].
  destruct (non_empty (tenant_id sv)), (non_empty (hdr_tenant q)); [case_decide|..]; naive_solver.
Qed.

(** The file a request names, inside the share. *)
Definition names_file (sv : LanServeState) (q : BlobRequest) (fs : Fs.t) (b : bytes) : Prop :=
  ∃ root target, share_roots sv !! share q = Some root
    ∧ PathGuard.validate (canonicalize fs) (path q) root = Some (Ok target)
    ∧ Fs.files fs !! Path.components target = Some b.

Lemma read_inv f p fs r fs' :
  Fs.read f p fs = (r, fs') →
  Fs.files fs' = Fs.files fs ∧ ∀ b, r = Ok b → Fs.files fs !! Path.components p = Some b.
Proof.
  unfold Fs.read, st_bind, Fs.syscall. destruct (f (Fs.calls fs)); intros [= <- <-]; simpl; [done|].
  split; [done|]. intros b. by destruct (Fs.files fs !! _) as [c|]; [intros [= ->]|].
Qed.

Lemma get_blob_inv f sv q fs resp fs' :
  get_blob blake3 canonicalize f sv q fs = (resp, fs') →
  Fs.files fs' = Fs.files fs
  ∧ (status resp = 200 → admitted sv q ∧ names_file sv q fs (body resp)
       ∧ content_hash resp = Some (Hex.encode (blake3 (body resp)))).
Proof.
  unfold get_blob. destruct (check_authorize sv q) as [x|] eqn:Hc.
  { intros [= <- <-]. split; [done|]. revert Hc. unfold check_authorize. intros Hc Hs. exfalso.
    repeat case_match; simplify_eq; done. }
  apply check_authorize_spec in Hc. destruct (share_roots sv !! share q) as [root|] eqn:Hr; [|by intros [= <- <-]].
  destruct (PathGuard.validate _ _ _) as [[t|]|] eqn:Hv; [|by intros [= <- <-]..].
  destruct (Fs.read f t fs) as [[b|] fs1] eqn:Hrd; apply read_inv in Hrd as [Hf Hb]; intros [= <- <-]; [|done].
  split; [done|]. intros _. split; [done|]. split; [|done]. exists root, t. split_and!; [done..|]. by apply Hb.
Qed.

Lemma get_blob_serves f sv q fs b :
  (∀ n, f n = None) → admitted sv q → names_file sv q fs b →
  (get_blob blake3 canonicalize f sv q fs).1 = mkResponse 200 (Some (Hex.encode (blake3 b))) b.
Proof.
  intros Hf Ha (root&t&Hr&Hv&Hb). apply check_authorize_spec in Ha. unfold get_blob. rewrite Ha, Hr, Hv.
  unfold Fs.read, st_bind, Fs.syscall. rewrite Hf. simpl. by rewrite Hb.
Qed.

(** A response as its receiver sees it. *)
Definition over_wire (r : BlobResponse) : PeerResponse := mkPeer (status r) (content_hash r) (Ok (body r)).

Lemma header_hash_encode h : length h = 32%nat → header_hash (Some (Hex.encode h)) = Some h.
Proof. intros Hl. unfold header_hash. simpl. rewrite trim_encode, HexDecode.decode_encode. simpl. by rewrite decide_True. Qed.
End serve.

Module LanTheorems.
Import LanServe LanFetch.

(** C34: a file goes from peer to peer. When a live peer of the same tenant
    serves the share, admits the caller and has the file, a fetch succeeds
    whatever the other peers answer; with a digest asked for, what it returns
    has that digest; and when no other peer is asked, it is the file's bytes. *)
Theorem lan_transfer (blake3 : bytes → bytes) canonicalize (net : network) now ctx p sv fs f share path b expected :
  (∀ x, length (blake3 x) = 32%nat) → (∀ n, f n = None) →
  keyed (registry ctx) → LanPeerRegistry.is_enabled (registry ctx) = true → candidate now ctx p →
  (∀ n, net n (LanPeer.host p) (LanPeer.port p) (request_of ctx share path)
        = Ok (over_wire (get_blob blake3 canonicalize f sv (request_of ctx share path) fs).1)) →
  node_id ctx ≠ "" → node_id ctx ≠ self_node_id sv → non_empty (tenant_id sv) = non_empty (local_tenant ctx) →
  names_file canonicalize sv (request_of ctx share path) fs b → (∀ h, expected = Some h → blake3 b = h) →
  ∃ b', (try_lan_fetch blake3 net now true ctx share path expected).1 = Some b'
    ∧ (∀ h, expected = Some h → blake3 b' = h)
    ∧ ((∀ q, candidate now ctx q → q = p) → b' = b).
Proof.
  intros Hlen Hf Hk Hen Hc Hnet Hw1 Hw2 Ht Hfile Hexp.
  assert (∀ m, answered blake3 net m p (request_of ctx share path) expected b) as Ha.
  { intros m. eexists. split; [apply Hnet|]. rewrite (get_blob_serves _ _ _ _ _ _ b); [|done| |done].
    - simpl. split; [lia|]. split; [done|]. destruct expected as [h|]; [by apply Hexp|].
      intros h. rewrite header_hash_encode by done. by intros [= <-].
    - split; [by exists (node_id ctx)|]. cbn [hdr_tenant request_of]. by rewrite non_empty_default. }
  destruct (try_lan_fetch blake3 net now true ctx share path expected) as [o ctx'] eqn:Hfetch.
  assert (is_Some o) as [b' ->].
  { revert Hfetch. unfold try_lan_fetch. rewrite Hen. simpl. intros [= <- _].
    eapply try_peers_some; [|exact Ha]. by apply candidate_elem. }
  exists b'. split; [done|]. apply fetch_some in Hfetch as (_&m&q&Hq&resp&Hn&_&Hb&Hh); [|done]. split.
  - intros h ->. exact Hh.
  - intros Hone. rewrite (Hone q Hq) in Hn. rewrite Hnet in Hn. injection Hn as <-.
    destruct (Ha 0%nat) as (r2&Hr2&_&Hb2&_). rewrite Hnet in Hr2. injection Hr2 as <-. congruence.
Qed.

(** What a node serves over the LAN. A file is handed out only to a caller
    that names another node and the same tenant; it is the content of a file
    inside the canonical root of the share asked for; its digest goes with it;
    and serving changes no file. *)
Theorem lan_serve_contained (blake3 : bytes → bytes) canonicalize f sv q fs resp fs' :
  get_blob blake3 canonicalize f sv q fs = (resp, fs') → status resp = 200 →
  Fs.files fs' = Fs.files fs ∧ admitted sv q
  ∧ content_hash resp = Some (Hex.encode (blake3 (body resp)))
  ∧ ∃ root croot target, share_roots sv !! share q = Some root ∧ canonicalize fs root = Some croot
      ∧ Path.components croot `prefix_of` Path.components target
      ∧ Fs.files fs !! Path.components target = Some (body resp).
Proof.
  intros H Hs. apply get_blob_inv in H as [Hf H]. destruct (H Hs) as (Ha&(root&t&Hr&Hv&Hb)&Hh).
  split_and!; [done..|]. destruct (validate_inside _ _ _ _ Hv) as [_ (croot&?&?)]. by exists root, croot, t.
Qed.

(** A small LAN: one peer, one share. *)
Definition demo_hash (b : bytes) : bytes := take 32 (b ++ replicate 32 x00).
Definition demo_canon (_ : Fs.t) (p : string) : option string := Some p.
Definition demo_peer : LanPeer.t := LanPeer.mk "mac-b" "10.0.0.2" 9447 (Some "corp") 100.
Definition demo_ctx : LanFetchContext :=
  mkContext (LanPeerRegistry.upsert demo_peer (LanPeerRegistry.new true "mac-a")) (Some "corp") "mac-a".
Definition demo_server : LanServeState := mkState {["vault" := "/v"]} (Some "corp") "mac-b".
Definition demo_files : Fs.t := Fs.mk {[Path.components "/v/a.md" := [x41; x42]]} {[Path.components "/v"]} 0.
Definition demo_net : network := λ _ _ _ q, Ok (over_wire (get_blob demo_hash demo_canon (λ _, None) demo_server q demo_files).1).

Lemma lan_demo_keyed : keyed (registry demo_ctx).
Proof. eapply step_keyed; [apply step_upsert|apply new_keyed]. Qed.

Lemma demo_candidate q : candidate 130 demo_ctx q → q = demo_peer.
Proof.
  intros [H _]. simpl in H. revert H. rewrite lookup_insert_Some, lookup_empty. naive_solver.
Qed.

Lemma lan_transfer_witness :
  (try_lan_fetch demo_hash demo_net 130 true demo_ctx "vault" "a.md" (Some (demo_hash [x41; x42]))).1 = Some [x41; x42].
Proof.
  destruct (lan_transfer demo_hash demo_canon demo_net 130 demo_ctx demo_peer demo_server demo_files (λ _, None)
              "vault" "a.md" [x41; x42] (Some (demo_hash [x41; x42]))) as (b'&Hb&_&Hone).
  - intros x. unfold demo_hash. rewrite length_take, length_app, length_replicate. lia.
  - done.
  - exact lan_demo_keyed.
  - reflexivity.
  - unfold candidate. split_and!; [vm_compute; reflexivity|discriminate|vm_compute; reflexivity|reflexivity].
  - intros n. reflexivity.
  - discriminate.
  - discriminate.
  - reflexivity.
  - exists "/v", "/v/a.md". split_and!; vm_compute; reflexivity.
  - by intros h [= <-].
  - rewrite Hb. f_equal. apply Hone. exact demo_candidate.
Defined.

Lemma lan_serve_contained_witness :
  ∃ resp fs', get_blob demo_hash demo_canon (λ _, None) demo_server (request_of demo_ctx "vault" "a.md") demo_files = (resp, fs')
    ∧ status resp = 200 ∧ Fs.files fs' = Fs.files demo_files.
Proof.
  destruct (get_blob demo_hash demo_canon (λ _, None) demo_server (request_of demo_ctx "vault" "a.md") demo_files)
    as [resp fs'] eqn:H.
  assert (status resp = 200) as Hs.
  { change (status (resp, fs').1 = 200). rewrite <-H. vm_compute. reflexivity. }
  exists resp, fs'. split; [reflexivity|]. split; [exact Hs|].
  exact (proj1 (lan_serve_contained _ _ _ _ _ _ _ _ H Hs)).
Defined.

(** The endpoint knows no peers: a caller that no registry has ever seen is
    served when it sends the tenant's name, or, on a node without a tenant, any
    name of its own. *)
Example stranger_served :
  let q := mkRequest None (Some "stranger") "vault" "a.md" in
  (get_blob demo_hash demo_canon (λ _, None) (mkState {["vault" := "/v"]} None "mac-b") q demo_files).1
  = mkResponse 200 (Some (Hex.encode (demo_hash [x41; x42]))) [x41; x42].
Proof. vm_compute. reflexivity. Qed.

(** After one second without an event the browsing thread ends: peers announced
    later never enter the table. *)
Theorem discovery_stops l l' stop r :
  LanDiscovery.run_lan_discovery (l ++ LanDiscovery.TimedOut :: l') stop r = LanDiscovery.run_lan_discovery l stop r.
Proof.
  assert (LanDiscovery.browse (l ++ LanDiscovery.TimedOut :: l') = LanDiscovery.browse l) as H.
  { induction l as [|[| |] l IH]; simpl; rewrite ?IH; done. }
  unfold LanDiscovery.run_lan_discovery. by rewrite H.
Qed.
End LanTheorems.
