(* ===== verification/Daemon.v ===== *)
(** * The daemon's state and its loopback REST surface
      ([disk-client/src/rest_api/])

    What the handlers share ([DaemonState] of [mod.rs]), the signals they queue
    ([sync.rs]), the status they render ([status.rs], [lan.rs],
    [embeddings.rs]), and the conflicts they list, show and resolve
    ([conflicts.rs]). Error texts are constructors. *)

From stdpp Require Import prelude gmap strings pretty.
From Stdlib Require Import ZArith Lia Strings.Byte Strings.Ascii.
From S2P Require Import Prelude Text PathFacts Types Fs Fork ConflictWriter Sql MetaDb MetaSync SyncLoop Wire Lan.

#[local] Open Scope Z_scope.

Module ShareSnapshot.
Record t := mk {
  name : string;
  path : string;
  declared_direction : Wire.Direction;
  server_confirmed_role : option Wire.Direction;
  state : SyncLoop.LoopState;
  last_success_at : option Z;
  last_error : option string;
  bytes_sent_session : Z;
  bytes_received_session : Z;
  pending_local_changes : Z
}.

(** The live fields of [old] in the descriptor [s]. *)
Definition with_live (old s : t) : t :=
  mk (name s) (path s) (declared_direction s) (server_confirmed_role s) (state old) (last_success_at old)
    (last_error old) (bytes_sent_session old) (bytes_received_session old) (pending_local_changes old).
End ShareSnapshot.

Module EmbeddingsStatusSnapshot.
Record t := mk {
  share : string;
  enabled : bool;
  fresh : Z;
  stale : Z;
  missing : Z;
  co_storage_files : Z;
  swept_at_unix : Z
}.
End EmbeddingsStatusSnapshot.

(** A bounded channel of signals: how many wait, and whether its receiver is gone. *)
Record Channel := mkChannel { queued : nat; capacity : nat; closed : bool }.

Definition try_send (c : Channel) : bool * Channel :=
  if closed c || bool_decide (capacity c ≤ queued c)%nat then (false, c)
  else (true, mkChannel (S (queued c)) (capacity c) (closed c)).

Record DaemonState := mkDaemon {
  node_id : string;
  config_version : string;
  shares : list ShareSnapshot.t;
  manual_sync_tx : Channel;
  reload_tx : Channel;
  meta_db : option MetaDb;
  vault_root : option string;
  vault_roots : gmap string string;
  lan_peers : option LanPeerRegistry.t;
  embeddings_enabled : bool;
  embeddings_status : list EmbeddingsStatusSnapshot.t
}.

Module DaemonState.
Definition new (node_id config_version : string) : DaemonState :=
  mkDaemon node_id config_version [] (mkChannel 0 8 false) (mkChannel 0 8 false) None None ∅ None false [].

Definition set_config_version (v : string) (d : DaemonState) : DaemonState :=
  mkDaemon (node_id d) v (shares d) (manual_sync_tx d) (reload_tx d) (meta_db d) (vault_root d) (vault_roots d)
    (lan_peers d) (embeddings_enabled d) (embeddings_status d).
Definition set_shares (l : list ShareSnapshot.t) (d : DaemonState) : DaemonState :=
  mkDaemon (node_id d) (config_version d) l (manual_sync_tx d) (reload_tx d) (meta_db d) (vault_root d) (vault_roots d)
    (lan_peers d) (embeddings_enabled d) (embeddings_status d).
Definition set_channels (m r : Channel) (d : DaemonState) : DaemonState :=
  mkDaemon (node_id d) (config_version d) (shares d) m r (meta_db d) (vault_root d) (vault_roots d)
    (lan_peers d) (embeddings_enabled d) (embeddings_status d).
Definition set_meta_db (db : option MetaDb) (d : DaemonState) : DaemonState :=
  mkDaemon (node_id d) (config_version d) (shares d) (manual_sync_tx d) (reload_tx d) db (vault_root d) (vault_roots d)
    (lan_peers d) (embeddings_enabled d) (embeddings_status d).
Definition set_roots (root : option string) (roots : gmap string string) (d : DaemonState) : DaemonState :=
  mkDaemon (node_id d) (config_version d) (shares d) (manual_sync_tx d) (reload_tx d) (meta_db d) root roots
    (lan_peers d) (embeddings_enabled d) (embeddings_status d).
Definition set_lan (r : option LanPeerRegistry.t) (d : DaemonState) : DaemonState :=
  mkDaemon (node_id d) (config_version d) (shares d) (manual_sync_tx d) (reload_tx d) (meta_db d) (vault_root d)
    (vault_roots d) r (embeddings_enabled d) (embeddings_status d).
Definition set_embeddings (on : bool) (l : list EmbeddingsStatusSnapshot.t) (d : DaemonState) : DaemonState :=
  mkDaemon (node_id d) (config_version d) (shares d) (manual_sync_tx d) (reload_tx d) (meta_db d) (vault_root d)
    (vault_roots d) (lan_peers d) on l.

(** The first share of the name, when there is one. *)
Fixpoint update_first (name : string) (snapshot : ShareSnapshot.t) (l : list ShareSnapshot.t) : list ShareSnapshot.t :=
  match l with
  | [] => []
  | s :: l => if decide (ShareSnapshot.name s = name) then ShareSnapshot.with_live snapshot s :: l
              else s :: update_first name snapshot l
  end.
Definition update_share (name : string) (snapshot : ShareSnapshot.t) (d : DaemonState) : DaemonState :=
  set_shares (update_first name snapshot (shares d)) d.

(** The map from names to shares, in which a later one replaces an earlier one. *)
Definition live_map (l : list ShareSnapshot.t) : gmap string ShareSnapshot.t :=
  foldl (λ m s, <[ShareSnapshot.name s := s]> m) ∅ l.
Definition reconcile_shares (new_shares : list ShareSnapshot.t) (d : DaemonState) : DaemonState :=
  let live := live_map (shares d) in
  set_shares ((λ s, match live !! ShareSnapshot.name s with
                    | Some old => ShareSnapshot.with_live old s
                    | None => s
                    end) <$> new_shares) d.

Definition with_meta_db (db : MetaDb) (d : DaemonState) : DaemonState := set_meta_db (Some db) d.
Definition with_vault_root (root : string) (d : DaemonState) : DaemonState :=
  set_roots (Some root) (<["default" := root]> (vault_roots d)) d.
(** [legacy] is [roots.values().next()], any of the roots. *)
Definition with_vault_roots (legacy : option string) (roots : gmap string string) (d : DaemonState) : DaemonState :=
  set_roots legacy roots d.
Definition with_lan_peers (r : LanPeerRegistry.t) (d : DaemonState) : DaemonState := set_lan (Some r) d.
Definition with_embeddings_tracking (enabled : bool) (d : DaemonState) : DaemonState :=
  set_embeddings enabled (embeddings_status d) d.

Definition vault_root_for (vault_id : string) (d : DaemonState) : option string :=
  match vault_roots d !! vault_id with
  | Some r => Some r
  | None => if decide (vault_id = "default") then vault_root d else None
  end.

Fixpoint put_embeddings (s : EmbeddingsStatusSnapshot.t) (l : list EmbeddingsStatusSnapshot.t)
    : list EmbeddingsStatusSnapshot.t :=
  match l with
  | [] => [s]
  | x :: l => if decide (EmbeddingsStatusSnapshot.share x = EmbeddingsStatusSnapshot.share s) then s :: l
              else x :: put_embeddings s l
  end.
Definition set_embeddings_status (s : EmbeddingsStatusSnapshot.t) (d : DaemonState) : DaemonState :=
  set_embeddings (embeddings_enabled d) (put_embeddings s (embeddings_status d)) d.
End DaemonState.

(** ** Status, signals, the bind address *)
Module RestApi.
Import DaemonState.

(** An address is its octets, or for the sixth version its eight groups. *)
Inductive IpAddr := IpV4 (a b c d : Z) | IpV6 (groups : list Z).
Inductive RestApiError := NonLoopbackBind (ip : IpAddr).

Definition assert_loopback_bind (ip : IpAddr) : result unit RestApiError :=
  let ok := match ip with
            | IpV4 a _ _ _ => bool_decide (a = 127)
            | IpV6 g => bool_decide (g = [0;0;0;0;0;0;0;1])
            end in
  if ok then Ok tt else Err (NonLoopbackBind ip).

Definition loop_state_to_schema (s : SyncLoop.LoopState) : string :=
  match s with
  | SyncLoop.Idle => "idle"
  | SyncLoop.Syncing => "syncing"
  | SyncLoop.BackoffS => "unknown_share"
  | SyncLoop.AclMismatch => "acl_mismatch"
  | SyncLoop.ServerUnreachable => "server_unreachable"
  | SyncLoop.ErrorS => "error"
  end.

Definition direction_to_schema (d : Wire.Direction) : string :=
  match d with
  | Wire.ReceiveOnly => "receive_only"
  | Wire.SendOnly => "send_only"
  | Wire.Bidirectional => "bidirectional"
  | Wire.Publisher => "publisher"
  end.

Record StatusShare := mkStatusShare {
  ss_name : string; ss_path : string; ss_direction : string; ss_role : option string; ss_state : string;
  ss_last_success_at : option string; ss_last_error : option string;
  ss_sent : Z; ss_received : Z; ss_pending : Z
}.
Record StatusResponse := mkStatus { st_node : string; st_uptime : Z; st_version : string; st_shares : list StatusShare }.

(** [rfc3339] is the time library's rendering of a Unix time. *)
Definition get_status (rfc3339 : Z → string) (uptime : Z) (d : DaemonState) : StatusResponse :=
  mkStatus (node_id d) uptime (config_version d)
    ((λ s, mkStatusShare (ShareSnapshot.name s) (ShareSnapshot.path s)
             (direction_to_schema (ShareSnapshot.declared_direction s))
             (direction_to_schema <$> ShareSnapshot.server_confirmed_role s)
             (loop_state_to_schema (ShareSnapshot.state s)) (rfc3339 <$> ShareSnapshot.last_success_at s)
             (ShareSnapshot.last_error s) (ShareSnapshot.bytes_sent_session s)
             (ShareSnapshot.bytes_received_session s) (ShareSnapshot.pending_local_changes s)) <$> shares d).

(** Status code and [queued]. *)
Definition enqueue_signal (c : Channel) : (Z * bool) * Channel :=
  match try_send c with
  | (true, c) => ((202, true), c)
  | (false, c) => ((503, false), c)
  end.
Definition post_sync (d : DaemonState) : (Z * bool) * DaemonState :=
  let '(r, c) := enqueue_signal (manual_sync_tx d) in (r, set_channels c (reload_tx d) d).
Definition post_config_reload (d : DaemonState) : (Z * bool) * DaemonState :=
  let '(r, c) := enqueue_signal (reload_tx d) in (r, set_channels (manual_sync_tx d) c d).

Definition get_lan_peers (now : Z) (d : DaemonState) : (bool * list LanPeer.t) * DaemonState :=
  match lan_peers d with
  | Some reg =>
      let '(peers, reg) := LanPeerRegistry.snapshot now LanDiscovery.PEER_TTL_SECS reg in
      ((LanPeerRegistry.is_enabled reg, peers), set_lan (Some reg) d)
  | None => ((false, []), d)
  end.
Definition get_embeddings_status (d : DaemonState) : bool * list EmbeddingsStatusSnapshot.t :=
  (embeddings_enabled d, embeddings_status d).
End RestApi.

(** ** [conflicts.rs] *)
Module Conflicts.
Import Path DaemonState.

Inductive Missing :=
  | KeepRemoteNoFork
  | KeepRemoteForkGone
  | ForkLocalLiveGone
  | ForkRemoteNoFork
  | ForkRemoteForkGone
  | MergeNoFork
  | MergeFileGone.

Inductive FileOpError :=
  | ForkArtifactMissing (reason : Missing)
  | Io (e : Fs.io_error).

(** [From<ForkWriteError>]. *)
Definition fork_write_text (e : ConflictWriter.ForkWriteError) : string :=
  match e with
  | ConflictWriter.Io e => "fork write I/O error: " +:+ Fs.msg e
  | ConflictWriter.Persist e => "fork persist failed: " +:+ Fs.msg e
  | ConflictWriter.PathTraversal => "fork path would escape vault root"
  end.
Definition of_fork_error (e : ConflictWriter.ForkWriteError) : FileOpError :=
  Io (Fs.IoError Fs.OtherKind (fork_write_text e)).

Inductive PathError := NulByte | AbsolutePath | DotDot.

Definition validate_conflict_path (path : string) : result unit PathError :=
  if bool_decide ("000"%char ∈ explode path) then Err NulByte
  else if bool_decide (head (explode path) = Some "/"%char) then Err AbsolutePath
  else if bool_decide (".." ∈ split_on "/"%char path) then Err DotDot
  else Ok tt.

Definition is_valid_action (action : string) : bool :=
  bool_decide (action ∈ ["fork-local"; "fork-remote"; "merge"; "keep-local"; "keep-remote"]).

Abbreviation fop := (stm Fs.t FileOpError).

Definition try_io {A} (m : Fs.io A) : fop A := λ fs, let '(r, fs) := m fs in (map_err Io r, fs).
Definition try_fork {A} (m : stm Fs.t ConflictWriter.ForkWriteError A) : fop A := λ fs,
  let '(r, fs) := m fs in (map_err of_fork_error r, fs).
Definition require (b : bool) (reason : Missing) : fop unit :=
  if b then st_ret tt else st_err (ForkArtifactMissing reason).
Definition recorded (fork_rel : option string) (reason : Missing) : fop string :=
  match fork_rel with Some f => st_ret f | None => st_err (ForkArtifactMissing reason) end.

Section ops.
Context (diffy_merge : bytes → bytes → bytes → result bytes bytes) (f : Fs.faults).

Definition exists_at (p : string) : fop bool := try_io (Fs.exists_ f p).

Definition atomic_write (path : string) (contents : bytes) : fop unit :=
  _ <~ try_io (Fs.create_dir_all f (default "." (parent path))) ;;
  tmp <~ try_io (Fs.temp_with f contents) ;;
  try_io (Fs.persist f tmp path).

(** The actions that look at files; [now] is the time of a fork's name. *)
Definition keep_remote (vault_root live_rel : string) (fork_rel : option string) : fop unit :=
  fork <~ recorded fork_rel KeepRemoteNoFork ;;
  let fork_abs := join vault_root fork in
  there <~ exists_at fork_abs ;;
  _ <~ require there KeepRemoteForkGone ;;
  remote_bytes <~ try_io (Fs.read f fork_abs) ;;
  atomic_write (join vault_root live_rel) remote_bytes.

Definition fork_local (now : Z) (vault_root live_rel : string) (fork_rel : option string) : fop unit :=
  let live_path := join vault_root live_rel in
  there <~ exists_at live_path ;;
  _ <~ require there ForkLocalLiveGone ;;
  local_bytes <~ try_io (Fs.read f live_path) ;;
  _ <~ try_fork (ConflictWriter.write_fork f vault_root live_rel local_bytes "local-fork" now) ;;
  match fork_rel with
  | None => st_ret tt
  | Some fork =>
      let fork_abs := join vault_root fork in
      there <~ exists_at fork_abs ;;
      if there : bool then
        remote_bytes <~ try_io (Fs.read f fork_abs) ;;
        atomic_write live_path remote_bytes
      else st_ret tt
  end.

Definition fork_remote (vault_root : string) (fork_rel : option string) : fop unit :=
  fork <~ recorded fork_rel ForkRemoteNoFork ;;
  there <~ exists_at (join vault_root fork) ;;
  require there ForkRemoteForkGone.

Definition merge (now : Z) (vault_root live_rel : string) (fork_rel : option string) : fop unit :=
  let live_path := join vault_root live_rel in
  fork <~ recorded fork_rel MergeNoFork ;;
  let fork_abs := join vault_root fork in
  live_there <~ exists_at live_path ;;
  both_there <~ (if live_there : bool then exists_at fork_abs else st_ret false) ;;
  _ <~ require both_there MergeFileGone ;;
  local_bytes <~ try_io (Fs.read f live_path) ;;
  remote_bytes <~ try_io (Fs.read f fork_abs) ;;
  _ <~ try_fork (ConflictWriter.apply_conflict f diffy_merge vault_root live_rel None local_bytes remote_bytes
                   "merge-op" now) ;;
  st_ret tt.

Definition perform_file_op (now : Z) (vault_root live_rel : string) (fork_rel : option string) (action : string)
    : fop unit :=
  if decide (action = "keep-local") then st_ret tt
  else if decide (action = "keep-remote") then keep_remote vault_root live_rel fork_rel
  else if decide (action = "fork-local") then fork_local now vault_root live_rel fork_rel
  else if decide (action = "fork-remote") then fork_remote vault_root fork_rel
  else if decide (action = "merge") then merge now vault_root live_rel fork_rel
  else st_ret tt.

(** The state of a handler: the daemon's, the files, and the statements made. *)
Record world := mkWorld { daemon : DaemonState; disk : Fs.t; statements : nat }.

Record ConflictListItem := mkItem {
  i_id : Z; i_vault_id : string; i_path : string; i_conflict_type : string; i_fork_path : option string; i_created_at : Z
}.
Record Diff := mkDiff {
  d_vault_id : string; d_path : string; d_fork_path : option string;
  d_local : option bytes; d_fork : option bytes
}.

Inductive Body :=
  | BadPath (e : PathError)
  | InvalidAction (action : string)
  | NoMetaDb
  | DbError (e : MetaDbError)
  | Ambiguous
  | NoConflict (path : string)
  | NoId
  | NotResolved (reason : Missing)
  | FileOpFailed (e : Fs.io_error)
  | NoStorageRoot (vault_id : string)
  | Resolved (vault_id path action : string)
  | Items (l : list ConflictListItem)
  | DiffBody (d : Diff).
Record Response := mkResp { status : Z; body : Body }.

(** A handler stops at the first response. *)
Abbreviation rest := (stm world Response).
Definition reply {A} (code : Z) (b : Body) : rest A := st_err (mkResp code b).
Definition answer (m : rest Response) (w : world) : Response * world :=
  match m w with (Ok r, w) | (Err r, w) => (r, w) end.

Context (db_fault : nat → option MetaDbError).

(** A statement on the index; without one the handler stops. *)
Definition on_db {A} (q : dbm A) : rest A := λ w,
  match meta_db (daemon w) with
  | None => (Err (mkResp 503 NoMetaDb), w)
  | Some db =>
      match db_fault (statements w) with
      | Some e => (Err (mkResp 500 (DbError e)), mkWorld (daemon w) (disk w) (S (statements w)))
      | None =>
          let '(r, db) := q db in
          (map_err (λ e, mkResp 500 (DbError e)) r,
           mkWorld (set_meta_db (Some db) (daemon w)) (disk w) (S (statements w)))
      end
  end.

Definition list_item (c : ConflictRecord) : ConflictListItem :=
  mkItem (default 0 (ConflictRecord.id c)) (ConflictRecord.vault_id c) (ConflictRecord.path c)
    (ConflictRecord.conflict_type c) (ConflictRecord.fork_path c) (ConflictRecord.created_at c).

Definition get_conflicts : rest Response :=
  rows <~ on_db MetaConflicts.list_unresolved_conflicts ;;
  st_ret (mkResp 200 (Items (list_item <$> rows))).

Definition check_path (raw_path : string) : rest unit :=
  match validate_conflict_path raw_path with Ok _ => st_ret tt | Err e => reply 400 (BadPath e) end.

Definition matches (vault_id : option string) (raw_path : string) (c : ConflictRecord) : bool :=
  bool_decide (ConflictRecord.path c = raw_path)
  && match vault_id with Some v => bool_decide (ConflictRecord.vault_id c = v) | None => true end.

(** The row a request is about. *)
Definition find_row (vault_id : option string) (raw_path : string) : rest ConflictRecord :=
  conflicts <~ on_db MetaConflicts.list_unresolved_conflicts ;;
  let matching := List.filter (matches vault_id raw_path) conflicts in
  if bool_decide (vault_id = None) && bool_decide (1 < length matching)%nat then reply 409 Ambiguous
  else match matching with
       | [] => reply 404 (NoConflict raw_path)
       | row :: _ => st_ret row
       end.

(** The file side, when the share has a root here. *)
Definition file_side (now : Z) (row : ConflictRecord) (raw_path action : string) : rest unit := λ w,
  match vault_root_for (ConflictRecord.vault_id row) (daemon w) with
  | Some root =>
      let '(r, fs) := perform_file_op now root raw_path (ConflictRecord.fork_path row) action (disk w) in
      let w := mkWorld (daemon w) fs (statements w) in
      match r with
      | Ok _ => (Ok tt, w)
      | Err (ForkArtifactMissing reason) => (Err (mkResp 409 (NotResolved reason)), w)
      | Err (Io e) => (Err (mkResp 500 (FileOpFailed e)), w)
      end
  | None =>
      if bool_decide (action ∈ ["keep-remote"; "fork-local"; "merge"])
      then (Err (mkResp 503 (NoStorageRoot (ConflictRecord.vault_id row))), w)
      else (Ok tt, w)
  end.

Definition resolve_conflict (now : Z) (vault_id : option string) (raw_path action : string) : rest Response :=
  _ <~ check_path raw_path ;;
  if negb (is_valid_action action) then reply 400 (InvalidAction action)
  else
    row <~ find_row vault_id raw_path ;;
    match ConflictRecord.id row with
    | None => reply 500 NoId
    | Some id =>
        _ <~ file_side now row raw_path action ;;
        _ <~ on_db (MetaConflicts.resolve_conflict now id action) ;;
        st_ret (mkResp 200 (Resolved (ConflictRecord.vault_id row) raw_path action))
    end.

Definition post_resolve_conflict (now : Z) (raw_path action : string) : rest Response :=
  resolve_conflict now None raw_path action.
Definition post_resolve_qualified_conflict (now : Z) (vault_id raw_path action : string) : rest Response :=
  resolve_conflict now (Some vault_id) raw_path action.

(** [read_to_string]: a file that is not UTF-8 is an error. *)
Definition read_text (p : string) : rest (option bytes) := λ w,
  let '(r, fs) := Fs.read f p (disk w) in
  (Ok (match r with
       | Ok b => if bytes_utf8 b then Some b else None
       | Err _ => None
       end), mkWorld (daemon w) fs (statements w)).

Definition conflict_diff (vault_id : option string) (raw_path : string) : rest Response :=
  _ <~ check_path raw_path ;;
  row <~ find_row vault_id raw_path ;;
  root <~ (λ w, (Ok (vault_root_for (ConflictRecord.vault_id row) (daemon w)), w)) ;;
  match root with
  | Some root =>
      local <~ read_text (join root raw_path) ;;
      fork <~ match ConflictRecord.fork_path row with
              | Some fp => read_text (join root fp)
              | None => st_ret None
              end ;;
      st_ret (mkResp 200 (DiffBody (mkDiff (ConflictRecord.vault_id row) raw_path (ConflictRecord.fork_path row) local fork)))
  | None => st_ret (mkResp 200 (DiffBody (mkDiff (ConflictRecord.vault_id row) raw_path (ConflictRecord.fork_path row) None None)))
  end.
End ops.
End Conflicts.
