(* ===== verification/DaemonProps.v ===== *)
(** * Properties of the daemon's REST surface *)

From stdpp Require Import prelude gmap strings pretty.
From Stdlib Require Import ZArith Lia Strings.Byte Strings.Ascii.
From S2P Require Import Prelude Text PathFacts Types Fs Fork ConflictWriter Sql MetaDb MetaSync SyncLoop Wire Lan Daemon.

#[local] Open Scope Z_scope.

(** ** The file side of a resolution *)
Section files.
Import Path Conflicts.
Context (diffy : bytes → bytes → bytes → result bytes bytes) (f : Fs.faults).

Lemma try_io_inv {A} (m : Fs.io A) fs r fs' :
  try_io m fs = (r, fs') → ∃ r0, m fs = (r0, fs') ∧ r = map_err Io r0.
Proof. unfold try_io. destruct (m fs) as [r0 fs0]. intros [= <- <-]. by exists r0. Qed.

Lemma try_fork_inv {A} (m : stm Fs.t ConflictWriter.ForkWriteError A) fs r fs' :
  try_fork m fs = (r, fs') → ∃ r0, m fs = (r0, fs') ∧ r = map_err of_fork_error r0.
Proof. unfold try_fork. destruct (m fs) as [r0 fs0]. intros [= <- <-]. by exists r0. Qed.

Lemma io_read_files p fs r fs' :
  Fs.read f p fs = (r, fs') →
  Fs.files fs' = Fs.files fs ∧ ∀ b, r = Ok b → Fs.files fs !! components p = Some b.
Proof.
  unfold Fs.read, st_bind, Fs.syscall. destruct (f (Fs.calls fs)); intros [= <- <-]; simpl; [done|].
  split; [done|]. intros b. by destruct (Fs.files fs !! _) as [c|]; [intros [= ->]|].
Qed.

Lemma atomic_write_files p b fs r fs' :
  atomic_write f p b fs = (r, fs') →
  (r = Ok tt ∧ Fs.files fs' = <[components p := b]> (Fs.files fs))
  ∨ ((∃ e, r = Err e) ∧ Fs.files fs' = Fs.files fs).
Proof.
  unfold atomic_write, st_bind. destruct (try_io (Fs.create_dir_all _ _) fs) as [[u|e] fs1] eqn:H1;
    apply try_io_inv in H1 as (r1&H1&E1); apply Fs.create_dir_all_files in H1; [|intros [= <- <-]; eauto].
  destruct (try_io (Fs.temp_with _ _) fs1) as [[d|e] fs2] eqn:H2;
    apply try_io_inv in H2 as (r2&H2&E2); apply Fs.temp_with_files in H2 as [H2 Hd]; [|intros [= <- <-]; right; split; [eauto|congruence]].
  destruct r2 as [d'|]; simplify_eq/=. rewrite (Hd _ eq_refl).
  intros H3. apply try_io_inv in H3 as (r3&H3&->). apply Fs.persist_files in H3 as [[-> H3]|[[e ->] H3]].
  - left. split; [done|]. by rewrite H3, H2, H1.
  - right. split; [by eexists|]. by rewrite H3, H2, H1.
Qed.

(** Bytes saved to a slot: it was free, unless a look at a path failed, and
    lies under the share's root. *)
Definition free_slot (now : Z) (root : string) (fs fs' : Fs.t) (slot : list component) : Prop :=
  (Fs.quiet f fs fs' → Fs.files fs !! slot = None)
  ∧ (is_absolute root = true → ForkName.ts_secs now < Calendar.max_secs → ∃ rel, slot = components root ++ rel).

(** What a file operation under [root] may do to the files. *)
Inductive file_effect (now : Z) (root live_rel : string) (fork_rel : option string) (action : string) (fs fs' : Fs.t)
    : result unit FileOpError → Prop :=
  | eff_same r :
      Fs.files fs' = Fs.files fs → (r = Ok tt → action = "keep-local" ∨ action = "fork-remote") →
      file_effect now root live_rel fork_rel action fs fs' r
  | eff_remote fork b :
      action = "keep-remote" → fork_rel = Some fork → Fs.files fs !! components (join root fork) = Some b →
      Fs.files fs' = <[components (join root live_rel) := b]> (Fs.files fs) →
      file_effect now root live_rel fork_rel action fs fs' (Ok tt)
  | eff_saved_local r old slot :
      action = "fork-local" → Fs.files fs !! components (join root live_rel) = Some old →
      Fs.files fs' = <[slot := old]> (Fs.files fs) → free_slot now root fs fs' slot →
      (r = Ok tt → Fs.quiet f fs fs' → ∀ fork, fork_rel = Some fork → Fs.files fs' !! components (join root fork) = None) →
      file_effect now root live_rel fork_rel action fs fs' r
  | eff_swapped fork old b slot :
      action = "fork-local" → fork_rel = Some fork → Fs.files fs !! components (join root live_rel) = Some old →
      <[slot := old]> (Fs.files fs) !! components (join root fork) = Some b →
      Fs.files fs' = <[components (join root live_rel) := b]> (<[slot := old]> (Fs.files fs)) →
      free_slot now root fs fs' slot →
      file_effect now root live_rel fork_rel action fs fs' (Ok tt)
  | eff_saved_remote fork b slot :
      action = "merge" → fork_rel = Some fork → Fs.files fs !! components (join root fork) = Some b →
      Fs.files fs' = <[slot := b]> (Fs.files fs) → free_slot now root fs fs' slot →
      file_effect now root live_rel fork_rel action fs fs' (Ok tt).

(** Without a base nothing merges: the remote bytes are forked. *)
Lemma apply_no_base root rel local remote node now fs r fs' :
  ConflictWriter.apply_conflict f diffy root rel None local remote node now fs = (r, fs') →
  ∃ r0, ConflictWriter.write_fork f root rel remote node now fs = (r0, fs')
    ∧ r = match r0 with Ok x => Ok (ConflictWriter.Forked x) | Err e => Err e end.
Proof.
  unfold ConflictWriter.apply_conflict. intros H.
  assert ((fork_rel <~ ConflictWriter.write_fork f root rel remote node now ;;
           st_ret (ConflictWriter.Forked fork_rel)) fs = (r, fs')) as Hw.
  { destruct (ConflictWriter.is_merge_eligible rel); [|done].
    destruct (Merge.three_way_merge _ _ _ _) as [m| |] eqn:Hm; [|done..].
    apply Merge.three_way_merge_clean in Hm as (b&?&_). done. }
  apply st_bind_cases in Hw as [(x&fs1&Hx&[= <- <-])|(e&Hx&->)]; by eexists.
Qed.

Lemma exists_at_inv p fs r fs' :
  exists_at f p fs = (r, fs') →
  Fs.files fs' = Fs.files fs ∧ (Fs.calls fs ≤ Fs.calls fs')%nat
  ∧ ∃ b, r = Ok b ∧ (b = false → Fs.quiet f fs fs' → Fs.files fs !! components p = None).
Proof.
  intros (r0&H&->)%try_io_inv. pose proof (Fs.grows_stat _ _ _ _ _ H).
  pose proof H as (Hf&_&b&->&_)%Fs.stat_spec. split_and!; [done..|]. exists b. split; [done|].
  intros -> Hq. by apply Fs.stat_false in H as [? _]%Fs.not_there.
Qed.

Lemma read_at_inv p fs r fs' :
  try_io (Fs.read f p) fs = (r, fs') →
  Fs.files fs' = Fs.files fs ∧ (Fs.calls fs ≤ Fs.calls fs')%nat ∧ ∀ b, r = Ok b → Fs.files fs !! components p = Some b.
Proof.
  intros (r0&H&->)%try_io_inv. pose proof (Fs.grows_read _ _ _ _ _ H). apply io_read_files in H as [Hf Hb].
  split_and!; [done..|]. intros b. destruct r0; [|done]. intros [= ->]. by apply Hb.
Qed.

(** Reading the fork and writing it over the live file. *)
Lemma replace_files root live_rel fork fs r fs' :
  (remote_bytes <~ try_io (Fs.read f (join root fork)) ;; atomic_write f (join root live_rel) remote_bytes) fs = (r, fs') →
  (r = Ok tt ∧ ∃ b, Fs.files fs !! components (join root fork) = Some b
     ∧ Fs.files fs' = <[components (join root live_rel) := b]> (Fs.files fs))
  ∨ ((∃ e, r = Err e) ∧ Fs.files fs' = Fs.files fs).
Proof.
  intros [(b&fs1&H1&H2)|(e&H1&->)]%st_bind_cases; apply read_at_inv in H1 as (E1&_&Hb); [|eauto].
  apply atomic_write_files in H2 as [[-> H2]|[? H2]].
  - left. split; [done|]. exists b. split; [by apply Hb|congruence].
  - right. split; [done|congruence].
Qed.

Lemma grows_try_io {A} (m : Fs.io A) : Fs.grows m → Fs.grows (try_io m).
Proof. intros Hm fs r fs' (r0&H&_)%try_io_inv. by eapply Hm. Qed.

Lemma grows_replace root live_rel fork :
  Fs.grows (remote_bytes <~ try_io (Fs.read f (join root fork)) ;; atomic_write f (join root live_rel) remote_bytes).
Proof.
  apply Fs.grows_bind; [apply grows_try_io, Fs.grows_read|]. intros b. unfold atomic_write.
  apply Fs.grows_bind; [apply grows_try_io, Fs.grows_create_dir_all|]. intros _.
  apply Fs.grows_bind; [apply grows_try_io, Fs.grows_temp_with|]. intros d. apply grows_try_io, Fs.grows_persist.
Qed.

(** Steps before and after the fork was written. *)
Lemma free_slot_around now root fs fs1 fs2 fs' slot :
  Fs.files fs1 = Fs.files fs → (Fs.calls fs ≤ Fs.calls fs1)%nat → (Fs.calls fs2 ≤ Fs.calls fs')%nat →
  free_slot now root fs1 fs2 slot → free_slot now root fs fs' slot.
Proof.
  intros E H1 H2 [Hq Hp]. split; [|done]. rewrite <-E. intros Hq'. eapply Hq, Fs.quiet_mono; [exact H1|exact H2|done].
Qed.

Lemma try_fork_saved now root rel c node fs r fs' :
  try_fork (ConflictWriter.write_fork f root rel c node now) fs = (r, fs') →
  (Fs.calls fs ≤ Fs.calls fs')%nat
  ∧ match r with
    | Ok _ => ∃ slot, Fs.files fs' = <[slot := c]> (Fs.files fs) ∧ free_slot now root fs fs' slot
    | Err _ => Fs.files fs' = Fs.files fs
    end.
Proof.
  intros (r0&H&->)%try_fork_inv. split; [by eapply ConflictWriterProps.grows_write_fork|].
  destruct r0 as [x|e]; simpl; [|by apply write_fork_files in H].
  apply ConflictWriterProps.write_fork_slot in H as (slot&Hf&Hq&Hp). exists slot. split; [done|]. split; [done|].
  intros Ha Ht. eexists. by apply Hp.
Qed.

Lemma require_inv b reason (fs : Fs.t) r fs' :
  require b reason fs = (r, fs') → fs' = fs ∧ (r = Ok tt → b = true) ∧ (b = true → r = Ok tt).
Proof. unfold require, st_ret, st_err. destruct b; by intros [= <- <-]. Qed.

Ltac stop := apply eff_same; [congruence|naive_solver].

Lemma keep_remote_effect now root live_rel fork_rel fs r fs' :
  keep_remote f root live_rel fork_rel fs = (r, fs') → file_effect now root live_rel fork_rel "keep-remote" fs fs' r.
Proof.
  unfold keep_remote, recorded. destruct fork_rel as [fork|]; [|intros [= <- <-]; stop].
  change (st_bind (st_ret fork) ?k) with (k fork). cbv beta zeta.
  intros [(th&fs1&H1&H)|(e&H1&->)]%st_bind_cases; apply exists_at_inv in H1 as (E1&_&b1&[= <-]&_).
  apply st_bind_cases in H as [([]&fs2&H2&H)|(e&H2&->)]; apply require_inv in H2 as (->&_); [|stop].
  apply replace_files in H as [(->&b&Hb&Hf)|[[e ->] Hf]]; [|stop]. rewrite E1 in Hb, Hf. by eapply eff_remote.
Qed.

Lemma fork_local_effect now root live_rel fork_rel fs r fs' :
  fork_local f now root live_rel fork_rel fs = (r, fs') → file_effect now root live_rel fork_rel "fork-local" fs fs' r.
Proof.
  unfold fork_local. intros [(th&fs1&H1&H)|(e&H1&->)]%st_bind_cases; apply exists_at_inv in H1 as (E1&G1&b1&[= <-]&_).
  apply st_bind_cases in H as [([]&fs2&H2&H)|(e&H2&->)]; apply require_inv in H2 as (->&_); [|stop].
  apply st_bind_cases in H as [(old&fs3&H3&H)|(e&H3&->)]; apply read_at_inv in H3 as (E3&G3&Hold); [|stop].
  specialize (Hold _ eq_refl). rewrite E1 in Hold.
  apply st_bind_cases in H as [(x&fs4&H4&H)|(e&H4&->)]; apply try_fork_saved in H4 as [G4 H4]; simpl in H4; [|stop].
  destruct H4 as (slot&E4&Hs). rewrite E3, E1 in E4.
  assert (∀ fs5, (Fs.calls fs4 ≤ Fs.calls fs5)%nat → free_slot now root fs fs5 slot) as Hfree.
  { intros fs5 G5. eapply free_slot_around; [..|exact Hs]; [congruence|lia|done]. }
  destruct fork_rel as [fork|]; [|injection H as <- <-; eapply eff_saved_local; [done..|by apply Hfree|done]].
  apply st_bind_cases in H as [(th5&fs5&H5&H)|(e&H5&->)]; apply exists_at_inv in H5 as (E5&G5&b5&[= <-]&Hn5).
  destruct th5.
  - pose proof (grows_replace _ _ _ _ _ _ H) as G6.
    apply replace_files in H as [(->&b&Hb&Hf)|[[e ->] Hf]]; rewrite E5, E4 in Hf.
    + rewrite E5, E4 in Hb. eapply eff_swapped; [done..|]. apply Hfree. lia.
    + eapply eff_saved_local; [done..|apply Hfree; lia|done].
  - injection H as <- <-. apply (eff_saved_local _ _ _ _ _ _ _ _ old slot); [done|done|congruence|by apply Hfree|].
    intros _ Hq fork' [= <-]. rewrite E5. apply Hn5; [done|]. eapply Fs.quiet_mono; [|reflexivity|exact Hq]. lia.
Qed.

Lemma both_inv (th : bool) p fs r fs' :
  (if th then exists_at f p else st_ret false) fs = (r, fs') →
  Fs.files fs' = Fs.files fs ∧ (Fs.calls fs ≤ Fs.calls fs')%nat ∧ ∃ b, r = Ok b.
Proof.
  destruct th; [|intros [= <- <-]; by eauto]. intros (?&?&b&->&_)%exists_at_inv. by eauto.
Qed.

Lemma merge_effect now root live_rel fork_rel fs r fs' :
  merge diffy f now root live_rel fork_rel fs = (r, fs') → file_effect now root live_rel fork_rel "merge" fs fs' r.
Proof.
  unfold merge, recorded. destruct fork_rel as [fork|]; [|intros [= <- <-]; stop].
  change (st_bind (st_ret fork) ?k) with (k fork). cbv beta zeta.
  intros [(th&fs1&H1&H)|(e&H1&->)]%st_bind_cases; apply exists_at_inv in H1 as (E1&G1&b1&[= <-]&_).
  apply st_bind_cases in H as [(both&fs2&H2&H)|(e&H2&->)]; apply both_inv in H2 as (E2&G2&b2&[= <-]).
  apply st_bind_cases in H as [([]&fs3&H3&H)|(e&H3&->)]; apply require_inv in H3 as (->&_); [|stop].
  apply st_bind_cases in H as [(old&fs3&H3&H)|(e&H3&->)]; apply read_at_inv in H3 as (E3&G3&_); [|stop].
  apply st_bind_cases in H as [(b&fs4&H4&H)|(e&H4&->)]; apply read_at_inv in H4 as (E4&G4&Hb); [|stop].
  assert (∃ r5, try_fork (ConflictWriter.write_fork f root live_rel b "merge-op" now) fs4 = (r5, fs')
            ∧ r = match r5 with Ok _ => Ok tt | Err e => Err e end) as (r5&H5&->).
  { apply st_bind_cases in H as [(o&fs5&H5&[= <- <-])|(e&H5&->)]; apply try_fork_inv in H5 as (r0&H5&E5);
      apply apply_no_base in H5 as (r1&H5&->); unfold try_fork; rewrite H5; destruct r1; simplify_eq/=; by eexists. }
  apply try_fork_saved in H5 as [G5 H5]. destruct r5 as [x|e]; simpl in H5; [|stop]. destruct H5 as (slot&E5&Hs).
  eapply eff_saved_remote; [done|done|..].
  - rewrite <-E1, <-E2, <-E3. by apply Hb.
  - rewrite E5. f_equal. congruence.
  - eapply free_slot_around; [..|exact Hs]; [congruence|lia|lia].
Qed.

Lemma perform_effect now root live_rel fork_rel action fs r fs' :
  is_valid_action action = true →
  perform_file_op diffy f now root live_rel fork_rel action fs = (r, fs') →
  file_effect now root live_rel fork_rel action fs fs' r.
Proof.
  intros Ha. unfold perform_file_op.
  case_decide as E; [subst; intros [= <- <-]; stop|]. case_decide as E1; [subst; apply keep_remote_effect|].
  case_decide as E2; [subst; apply fork_local_effect|]. case_decide as E3.
  { subst. unfold fork_remote, recorded. destruct fork_rel as [fork|]; [|intros [= <- <-]; stop].
    change (st_bind (st_ret fork) ?k) with (k fork). cbv beta zeta.
    intros [(th&fs1&H1&H)|(e&H1&->)]%st_bind_cases; apply exists_at_inv in H1 as (E4&_&b1&[= <-]&_).
    apply require_inv in H as (->&_). stop. }
  case_decide as E4; [subst; apply merge_effect|].
  exfalso. unfold is_valid_action in Ha. apply bool_decide_eq_true in Ha. set_solver.
Qed.
End files.

Section effects.
Import Path Conflicts.
Context (f : Fs.faults) (now : Z) (root live_rel : string) (fork_rel : option string) (action : string) (fs fs' : Fs.t).
Let live := components (join root live_rel).

(** Contents survive every action but keep-remote, when no look failed. *)
Lemma effect_contents r : file_effect f now root live_rel fork_rel action fs fs' r → action ≠ "keep-remote" →
  Fs.quiet f fs fs' → ∀ k v, Fs.files fs !! k = Some v → ∃ k', Fs.files fs' !! k' = Some v.
Proof.
  assert (∀ slot c k v, free_slot f now root fs fs' slot → Fs.quiet f fs fs' → Fs.files fs !! k = Some v →
            <[slot := c]> (Fs.files fs) !! k = Some v ∧ k ≠ slot) as Hkeep.
  { intros slot c k v [Hs _] Hq Hv. assert (k ≠ slot) by (intros ->; rewrite Hs in Hv; done).
    by rewrite lookup_insert_ne. }
  intros He Ha Hq k v Hv.
  destruct He as [r' Hf _|? ? ? _ _ _|r' old slot _ Hold Hf Hs _|fork old b slot _ _ Hold _ Hf Hs|fork b slot _ _ _ Hf Hs].
  - exists k. by rewrite Hf.
  - done.
  - exists k. rewrite Hf. by eapply Hkeep.
  - rewrite Hf. destruct (decide (k = live)) as [->|Hne].
    + destruct (Hkeep slot old live v Hs Hq Hv) as [_ Hn]. fold live in Hold. exists slot.
      rewrite lookup_insert_ne by done. rewrite lookup_insert_eq. congruence.
    + exists k. rewrite lookup_insert_ne by done. by eapply Hkeep.
  - exists k. rewrite Hf. by eapply Hkeep.
Qed.
End effects.

(** ** Handlers *)
Section handlers.
Import Path DaemonState Conflicts.
Context (diffy : bytes → bytes → bytes → result bytes bytes) (f : Fs.faults) (db_fault : nat → option MetaDbError).

Definition unresolved (db : MetaDb) (row : ConflictRecord) : Prop :=
  ∃ rows, MetaConflicts.list_unresolved_conflicts db = (Ok rows, db) ∧ row ∈ rows.

Lemma list_unresolved_same db r db' : MetaConflicts.list_unresolved_conflicts db = (r, db') → db' = db.
Proof. unfold MetaConflicts.list_unresolved_conflicts, st_bind, query, st_lift. by intros [= _ <-]. Qed.

(** Two worlds that agree but for the number of statements made. *)
Definition same_world (w w' : world) : Prop :=
  disk w' = disk w ∧ meta_db (daemon w') = meta_db (daemon w)
  ∧ ∀ v, vault_root_for v (daemon w') = vault_root_for v (daemon w).

Lemma on_db_list_inv w r w' :
  on_db db_fault MetaConflicts.list_unresolved_conflicts w = (r, w') →
  same_world w w' ∧ match r with
  | Ok rows => ∃ db, meta_db (daemon w) = Some db ∧ MetaConflicts.list_unresolved_conflicts db = (Ok rows, db)
  | Err resp => status resp ≠ 200
  end.
Proof.
  unfold on_db. destruct (meta_db (daemon w)) as [db|] eqn:Hdb; [|by intros [= <- <-]].
  destruct (db_fault _); [by intros [= <- <-]|].
  destruct (MetaConflicts.list_unresolved_conflicts db) as [r0 db'] eqn:Hl. intros [= <- <-].
  pose proof (list_unresolved_same _ _ _ Hl) as ->. split; [unfold same_world; simpl; by rewrite Hdb|].
  destruct r0; simpl; [by exists db|done].
Qed.

Lemma find_row_inv vid p w r w' :
  find_row db_fault vid p w = (r, w') →
  same_world w w' ∧ match r with
  | Ok row => ∃ db, meta_db (daemon w) = Some db ∧ unresolved db row ∧ matches vid p row = true
      ∧ (vid = None → ∀ row', unresolved db row' → ConflictRecord.path row' = p → row' = row)
  | Err resp => status resp ≠ 200
  end.
Proof.
  unfold find_row, st_bind. destruct (on_db _ _ w) as [[rows|resp] w1] eqn:H1; apply on_db_list_inv in H1 as [Hs H1];
    [|by intros [= <- <-]]. destruct H1 as (db&Hdb&Hl).
  set (l := List.filter (matches vid p) rows).
  assert (∀ row, row ∈ l ↔ row ∈ rows ∧ matches vid p row = true) as Hin.
  { intros row. unfold l. rewrite !list_elem_of_In. apply List.filter_In. }
  destruct (bool_decide (vid = None) && bool_decide (1 < length l)%nat) eqn:Ham; [by intros [= <- <-]|].
  destruct l as [|row l'] eqn:El; [by intros [= <- <-]|]. intros [= <- <-]. split; [done|].
  destruct (proj1 (Hin row) ltac:(left)) as [Hr Hm]. exists db. split_and!; [done|by exists rows|done|].
  intros -> row' (rows'&Hl'&Hr') Hp. rewrite Hl in Hl'. injection Hl' as <-.
  assert (l' = []) as ->.
  { rewrite bool_decide_true in Ham by done. simpl in Ham. apply bool_decide_eq_false in Ham. destruct l'; [done|simpl in Ham; lia]. }
  assert (row' ∈ [row]) as Hx%list_elem_of_singleton; [|done]. apply Hin. split; [done|].
  unfold matches. by rewrite Hp, bool_decide_true.
Qed.

Lemma file_side_inv now row p action w r w' :
  is_valid_action action = true →
  file_side diffy f now row p action w = (r, w') →
  daemon w' = daemon w ∧ (∀ resp, r = Err resp → status resp ≠ 200)
  ∧ match vault_root_for (ConflictRecord.vault_id row) (daemon w) with
    | Some root => ∃ r0, file_effect f now root p (ConflictRecord.fork_path row) action (disk w) (disk w') r0
                         ∧ (r = Ok tt → r0 = Ok tt)
    | None => disk w' = disk w ∧ (r = Ok tt → action = "keep-local" ∨ action = "fork-remote")
    end.
Proof.
  intros Ha. unfold file_side. destruct (vault_root_for _ _) as [root|].
  - destruct (perform_file_op _ _ _ _ _ _ _ _) as [r0 fs] eqn:Hp. apply perform_effect in Hp; [|done].
    destruct r0 as [[]|[reason|e]]; intros [= <- <-]; (split; [done|]); (split; [naive_solver|]); by eexists.
  - case_bool_decide as Hin; intros [= <- <-]; (split; [done|]); (split; [naive_solver|]); (split; [done|]); [done|].
    intros _. unfold is_valid_action in Ha. apply bool_decide_eq_true in Ha. set_solver.
Qed.

(** The rows of a resolved conflict: the one with the id has the action and the
    time, every other row and every other column is as it was. *)
Definition marked (now id : Z) (action : string) (db db' : MetaDb) : Prop :=
  Forall2 (λ r r', if decide (ConflictRow.id r = id)
                   then ConflictRow.resolved r' = 1 ∧ ConflictRow.resolution r' = Some action
                        ∧ ConflictRow.resolved_at r' = Some now
                        ∧ ConflictRow.id r' = ConflictRow.id r ∧ ConflictRow.tenant_id r' = ConflictRow.tenant_id r
                        ∧ ConflictRow.vault_id r' = ConflictRow.vault_id r ∧ ConflictRow.path r' = ConflictRow.path r
                        ∧ ConflictRow.conflict_type r' = ConflictRow.conflict_type r
                        ∧ ConflictRow.local_hash r' = ConflictRow.local_hash r
                        ∧ ConflictRow.remote_hash r' = ConflictRow.remote_hash r
                        ∧ ConflictRow.base_hash r' = ConflictRow.base_hash r
                        ∧ ConflictRow.fork_path r' = ConflictRow.fork_path r
                        ∧ ConflictRow.created_at r' = ConflictRow.created_at r
                   else r' = r) (conflicts db) (conflicts db')
  ∧ files db' = files db ∧ file_versions db' = file_versions db ∧ tombstones db' = tombstones db
  ∧ node_baselines db' = node_baselines db.

Lemma resolve_marks now id action db :
  marked now id action db (MetaConflicts.resolve_conflict now id action db).2.
Proof.
  split_and!; [|done..].
  change (conflicts (MetaConflicts.resolve_conflict now id action db).2)
    with ((λ r, if bool_decide (ConflictRow.id r = id) then MetaConflicts.mark_resolved action now r else r) <$> conflicts db).
  apply Forall2_fmap_r, Forall_Forall2_diag, Forall_true. intros r.
  unfold compose. rewrite bool_decide_decide. destruct (decide (ConflictRow.id r = id)); [by split_and!|done].
Qed.

Lemma on_db_resolve_inv now id action w r w' :
  on_db db_fault (MetaConflicts.resolve_conflict now id action) w = (r, w') →
  disk w' = disk w ∧ match r with
  | Ok _ => ∃ db db', meta_db (daemon w) = Some db ∧ meta_db (daemon w') = Some db' ∧ marked now id action db db'
  | Err resp => status resp ≠ 200 ∧ meta_db (daemon w') = meta_db (daemon w)
  end.
Proof.
  unfold on_db. destruct (meta_db (daemon w)) as [db|] eqn:Hdb; [|by intros [= <- <-]].
  destruct (db_fault _); [by intros [= <- <-]|].
  pose proof (resolve_marks now id action db) as Hm. revert Hm. unfold MetaConflicts.resolve_conflict, execute.
  intros Hm [= <- <-]. split; [done|]. by eexists db, _.
Qed.

(** The row a request is about: unresolved, at the path, of the vault if one is
    named, and the only one of the path otherwise. *)
Definition found (vid : option string) (p : string) (w : world) (row : ConflictRecord) : Prop :=
  ∃ db, meta_db (daemon w) = Some db ∧ unresolved db row ∧ ConflictRecord.path row = p
    ∧ match vid with
      | Some v => ConflictRecord.vault_id row = v
      | None => ∀ row', unresolved db row' → ConflictRecord.path row' = p → row' = row
      end.

(** What a resolution does to the files: nothing, or what its action does
    under the root of the row's own share. *)
Definition files_after (now : Z) (vid : option string) (p action : string) (w w' : world) : Prop :=
  Fs.files (disk w') = Fs.files (disk w)
  ∨ ∃ row root r, found vid p w row ∧ vault_root_for (ConflictRecord.vault_id row) (daemon w) = Some root
      ∧ file_effect f now root p (ConflictRecord.fork_path row) action (disk w) (disk w') r.

(** What a resolution answers and leaves. *)
Definition resolve_post (now : Z) (vid : option string) (p action : string) (w : world) (resp : Response) (w' : world) : Prop :=
  files_after now vid p action w w'
  ∧ if decide (status resp = 200) then
      ∃ db db' row id, meta_db (daemon w) = Some db ∧ found vid p w row ∧ ConflictRecord.id row = Some id
        ∧ meta_db (daemon w') = Some db' ∧ marked now id action db db'
        ∧ match vault_root_for (ConflictRecord.vault_id row) (daemon w) with
          | Some root => file_effect f now root p (ConflictRecord.fork_path row) action (disk w) (disk w') (Ok tt)
          | None => action = "keep-local" ∨ action = "fork-remote"
          end
    else meta_db (daemon w') = meta_db (daemon w).

Lemma resolve_stop now vid p action w resp w' :
  status resp ≠ 200 → same_world w w' → resolve_post now vid p action w resp w'.
Proof. intros Hc (E1&E2&_). split; [left; by rewrite E1|]. by rewrite decide_False. Qed.

Lemma found_same vid p w w' row : same_world w w' → found vid p w row ↔ found vid p w' row.
Proof. intros (_&E&_). unfold found. by rewrite E. Qed.

Lemma resolve_inv now vid p action w resp w' :
  answer (resolve_conflict diffy f db_fault now vid p action) w = (resp, w') → resolve_post now vid p action w resp w'.
Proof.
  unfold answer, resolve_conflict, st_bind at 1, check_path.
  destruct (validate_conflict_path p); [|intros [= <- <-]; by apply resolve_stop]. unfold st_ret at 1. cbn iota beta.
  destruct (is_valid_action action) eqn:Ha; cbn [negb]; [|intros [= <- <-]; by apply resolve_stop].
  unfold st_bind at 1. destruct (find_row _ _ _ w) as [[row|r1] w1] eqn:H1; apply find_row_inv in H1 as [Hs H1];
    [|intros [= <- <-]; by apply resolve_stop].
  destruct H1 as (db&Hdb&Hun&Hm&Huniq). pose proof Hs as (Ed&Em&Er).
  assert (found vid p w row) as Hfound.
  { exists db. unfold matches in Hm. apply andb_prop in Hm as [Hp%bool_decide_eq_true Hv]. split_and!; [done..|].
    destruct vid; [by apply bool_decide_eq_true in Hv|by apply Huniq]. }
  destruct (ConflictRecord.id row) as [id|] eqn:Hid; [|intros [= <- <-]; by apply resolve_stop].
  unfold st_bind at 1. destruct (file_side _ _ _ _ _ _ w1) as [r2 w2] eqn:H2.
  pose proof (file_side_inv _ _ _ _ _ _ _ Ha H2) as (Ed2&Herr&Heff). rewrite Er, Ed in Heff.
  assert (∀ w3, disk w3 = disk w2 → files_after now vid p action w w3) as Hfa.
  { intros w3 E3. destruct (vault_root_for _ (daemon w)) as [root|] eqn:Hroot.
    - destruct Heff as (r0&He&_). right. exists row, root, r0. by rewrite E3.
    - left. destruct Heff as [Heff _]. by rewrite E3, Heff. }
  destruct r2 as [[]|r2]; [|intros [= <- <-]; split; [by apply Hfa|]; rewrite decide_False by (by apply Herr); congruence].
  unfold st_bind at 1. destruct (on_db _ _ w2) as [r3 w3] eqn:H3. apply on_db_resolve_inv in H3 as [Ed3 H3].
  destruct r3 as [[]|r3]; [|intros [= <- <-]; split; [by apply Hfa|]; destruct H3; rewrite decide_False by done; congruence].
  intros [= <- <-]. split; [by apply Hfa|]. simpl. destruct H3 as (db1&db'&Hdb1&Hdb'&Hmark).
  rewrite Ed2, Em, Hdb in Hdb1. injection Hdb1 as <-.
  exists db, db', row, id. split_and!; [done..|]. rewrite Ed3.
  destruct (vault_root_for _ (daemon w)) as [root|] eqn:Hroot.
  - destruct Heff as (r0&He&E0). by rewrite <-(E0 eq_refl).
  - destruct Heff as [_ Heff]. by apply Heff.
Qed.
End handlers.

(** ** Shares: reports and reloads *)
Section shares.
Import DaemonState.

Inductive share_op :=
  | Report (name : string) (snapshot : ShareSnapshot.t)
  | Reload (new_shares : list ShareSnapshot.t).

Definition run_op (d : DaemonState) (o : share_op) : DaemonState :=
  match o with Report n s => update_share n s d | Reload l => reconcile_shares l d end.

(** The shares as a map from names. *)
Definition spec_op (m : gmap string ShareSnapshot.t) (o : share_op) : gmap string ShareSnapshot.t :=
  match o with
  | Report n s => alter (ShareSnapshot.with_live s) n m
  | Reload l => map_imap (λ n s, Some (match m !! n with Some old => ShareSnapshot.with_live old s | None => s end)) (live_map l)
  end.

Definition names (l : list ShareSnapshot.t) : list string := ShareSnapshot.name <$> l.
Definition op_ok (o : share_op) : Prop := match o with Report _ _ => True | Reload l => NoDup (names l) end.

Lemma live_map_acc l (m : gmap string ShareSnapshot.t) n :
  NoDup (names l) →
  foldl (λ m s, <[ShareSnapshot.name s := s]> m) m l !! n
  = match List.find (λ s, bool_decide (ShareSnapshot.name s = n)) l with Some s => Some s | None => m !! n end.
Proof.
  revert m. induction l as [|s l IH]; intros m Hnd; [done|]. apply NoDup_cons in Hnd as [Hs Hnd]. simpl.
  rewrite IH by done. case_bool_decide as Hn.
  - subst n. assert (List.find (λ x, bool_decide (ShareSnapshot.name x = ShareSnapshot.name s)) l = None) as ->.
    { apply find_first_none. intros x Hx. apply bool_decide_eq_false. intros E. apply Hs. rewrite <-E. by apply list_elem_of_fmap_2. }
    by rewrite lookup_insert_eq.
  - destruct (List.find _ l); [done|]. by rewrite lookup_insert_ne.
Qed.

Lemma live_map_lookup l n :
  NoDup (names l) → live_map l !! n = List.find (λ s, bool_decide (ShareSnapshot.name s = n)) l.
Proof. intros Hnd. unfold live_map. rewrite live_map_acc by done. by destruct (List.find _ l). Qed.

Lemma update_first_names n s l : names (update_first n s l) = names l.
Proof. induction l as [|x l IH]; simpl; [done|]. case_decide; simpl; [done|]. unfold names in *. simpl. by rewrite IH. Qed.

Lemma update_first_find n s l m :
  List.find (λ x, bool_decide (ShareSnapshot.name x = m)) (update_first n s l)
  = let o := List.find (λ x, bool_decide (ShareSnapshot.name x = m)) l in
    if decide (n = m) then ShareSnapshot.with_live s <$> o else o.
Proof.
  induction l as [|x l IH]; simpl; [by case_decide|]. destruct (decide (ShareSnapshot.name x = n)) as [E|E]; simpl.
  - repeat case_bool_decide; repeat case_decide; simplify_eq; done.
  - case_bool_decide as Em; [|done]. case_decide; congruence.
Qed.

Lemma op_refines d o :
  NoDup (names (shares d)) → op_ok o →
  NoDup (names (shares (run_op d o))) ∧ live_map (shares (run_op d o)) = spec_op (live_map (shares d)) o.
Proof.
  intros Hd Ho. destruct o as [n s|l]; simpl in *.
  - rewrite update_first_names. split; [done|]. apply map_eq. intros m.
    rewrite live_map_lookup by (by rewrite update_first_names). rewrite update_first_find. simpl.
    rewrite <-live_map_lookup by done. case_decide as E; [subst; by rewrite lookup_alter_eq|by rewrite lookup_alter_ne].
  - set (g := λ s, match live_map (shares d) !! ShareSnapshot.name s with Some old => ShareSnapshot.with_live old s | None => s end).
    assert (∀ s, ShareSnapshot.name (g s) = ShareSnapshot.name s) as Hg by (intros s; unfold g; by case_match).
    assert (names (g <$> l) = names l) as Hn.
    { unfold names. rewrite <-list_fmap_compose. apply list_fmap_ext. intros ???. apply Hg. }
    split; [by rewrite Hn|]. apply map_eq. intros m. rewrite map_lookup_imap, (live_map_lookup (g <$> l)), (live_map_lookup l) by (by rewrite ?Hn).
    clear Hn Ho. induction l as [|s l IH]; [done|]. simpl. rewrite Hg. case_bool_decide as E; [|done]. simpl. subst m.
    unfold g. by case_match.
Qed.

(** Reports of the sync tasks and reloads of the configuration, in any order,
    act on the shares as on a map: a report changes the live fields of its share
    and nothing when a reload removed it; a reload keeps the live fields of the
    shares that stay. *)
Lemma shares_run ops d :
  NoDup (names (shares d)) → Forall op_ok ops →
  live_map (shares (foldl run_op d ops)) = foldl spec_op (live_map (shares d)) ops.
Proof.
  revert d. induction ops as [|o ops IH]; intros d Hd Hops; [done|].
  apply Forall_cons in Hops as [Ho Hops]. destruct (op_refines d o Hd Ho) as [Hd' E]. cbn [foldl]. rewrite <-E. by apply IH.
Qed.
End shares.

Module DaemonTheorems.
Import Path DaemonState Conflicts.

(** C33: resolving a conflict over REST, whatever fails, [Path::exists]
    included. The files change only in the way of the action, under the root of
    the share of the one unresolved row the request is about: keep-remote gives
    the live file the bytes of the recorded fork; fork-local writes the live
    bytes to another path under that root and may then give the live file the
    fork's bytes; merge writes the fork's bytes to another path; nothing else
    is touched. The path written to was free, and then every content on disk
    still is unless the action is keep-remote, as long as no system call
    failed: a failing look at a path takes it for free. An answer of 200 means
    that the action was carried out, or needs no root, and that the row with the
    id of that conflict, and no other, was marked in the index with the action
    and the time; any other answer leaves the index as it was. *)
Theorem resolve_no_loss diffy f db_fault now vid p action w resp w' :
  answer (resolve_conflict diffy f db_fault now vid p action) w = (resp, w') →
  files_after f now vid p action w w'
  ∧ (action ≠ "keep-remote" → Fs.quiet f (disk w) (disk w') →
     ∀ k v, Fs.files (disk w) !! k = Some v → ∃ k', Fs.files (disk w') !! k' = Some v)
  ∧ if decide (status resp = 200) then
      ∃ db db' row id, meta_db (daemon w) = Some db ∧ found vid p w row ∧ ConflictRecord.id row = Some id
        ∧ meta_db (daemon w') = Some db' ∧ marked now id action db db'
        ∧ match vault_root_for (ConflictRecord.vault_id row) (daemon w) with
          | Some root => file_effect f now root p (ConflictRecord.fork_path row) action (disk w) (disk w') (Ok tt)
          | None => action = "keep-local" ∨ action = "fork-remote"
          end
    else meta_db (daemon w') = meta_db (daemon w).
Proof.
  intros [Hf Hs]%resolve_inv. split_and!; [done| |done]. intros Ha Hq k v Hv.
  destruct Hf as [Hf|(row&root&r&_&_&He)]; [exists k; by rewrite Hf|by eapply effect_contents].
Qed.

(** A vault with a conflict on [a.bin]. *)
Definition demo_row : ConflictRecord :=
  ConflictRecord.mk None "vault" "a.bin" "Concurrent" None None None None (Some "a.fork.bin") false 0 None.
Definition demo_db : MetaDb := (MetaConflicts.create_conflict 5 demo_row empty_db).2.
Definition demo_daemon : DaemonState :=
  with_vault_roots (Some "/v") {["vault" := "/v"]} (with_meta_db demo_db (new "n" "1")).
Definition demo_disk : Fs.t :=
  Fs.mk {[components "/v/a.bin" := [x01]; components "/v/a.fork.bin" := [x02]]} {[components "/v"]} 0.
Definition demo_world : world := mkWorld demo_daemon demo_disk 0.
Definition demo_resolve (action : string) : Response * world :=
  answer (resolve_conflict (λ _ _ _, Err []) (λ _, None) (λ _, None) 7 None "a.bin" action) demo_world.

Lemma resolve_no_loss_witness :
  ∃ resp w', demo_resolve "fork-local" = (resp, w') ∧ status resp = 200
    ∧ (∃ k, Fs.files (disk w') !! k = Some [x01])
    ∧ ∃ db', meta_db (daemon w') = Some db' ∧ marked 7 1 "fork-local" demo_db db'.
Proof.
  destruct (demo_resolve "fork-local") as [resp w'] eqn:H. exists resp, w'. split; [reflexivity|].
  assert (status resp = 200) as Hst.
  { change (status (resp, w').1 = 200). rewrite <-H. vm_compute. reflexivity. }
  split; [exact Hst|]. destruct (resolve_no_loss _ _ _ _ _ _ _ _ _ _ H) as (_&Hkeep&Hpost). split.
  - apply (Hkeep ltac:(discriminate) ltac:(intros n _; reflexivity) (components "/v/a.bin")). vm_compute. reflexivity.
  - rewrite decide_True in Hpost by exact Hst. destruct Hpost as (db&db'&row&id&Hdb&Hfound&Hid&Hdb'&Hm&_).
    exists db'. split; [exact Hdb'|]. injection Hdb as <-.
    assert (id = 1) as <-; [|exact Hm]. destruct Hfound as (db0&[= <-]&(rows&Hl&Hin)&_).
    vm_compute in Hl. injection Hl as <-. apply list_elem_of_singleton in Hin. subst row. by injection Hid.
Defined.

(** Fork-local replies 200 and marks the conflict although the fork it was to
    apply is there, when the look at the fork fails. *)
Example fork_local_blind :
  let f n := if bool_decide (n = 8%nat) then Some (Fs.IoError Fs.OtherKind "EIO") else None in
  let '(resp, w) := answer (resolve_conflict (λ _ _ _, Err []) f (λ _, None) 7 None "a.bin" "fork-local") demo_world in
  status resp = 200 ∧ Fs.files (disk w) !! components "/v/a.bin" = Some [x01]
  ∧ Fs.files (disk w) !! components "/v/a.fork.bin" = Some [x02].
Proof. vm_compute. done. Qed.

(** After keep-remote the local bytes are nowhere, although the module promises
    that every write to the live file keeps the losing version. *)
Example keep_remote_drops_local :
  status (demo_resolve "keep-remote").1 = 200
  ∧ map_to_list (Fs.files (disk (demo_resolve "keep-remote").2)) ≡ₚ
      [(components "/v/a.bin", [x02]); (components "/v/a.fork.bin", [x02])].
Proof. split; [vm_compute; reflexivity|]. apply (bool_decide_unpack _). vm_compute. exact I. Qed.

(** A merge never merges: it writes the remote bytes to one more fork, leaves
    the live file, and marks the conflict resolved. *)
Theorem merge_only_forks diffy f now root live_rel fork_rel fs fs' :
  perform_file_op diffy f now root live_rel fork_rel "merge" fs = (Ok tt, fs') →
  ∃ fork b slot, fork_rel = Some fork ∧ Fs.files fs !! components (join root fork) = Some b
    ∧ Fs.files fs' = <[slot := b]> (Fs.files fs) ∧ free_slot f now root fs fs' slot.
Proof.
  intros H. apply perform_effect in H; [|reflexivity].
  inversion H as [r' _ Hr| | | |fork b slot _ Hfk Hb Hf Hs]; subst; try done; [naive_solver|]. by exists fork, b, slot.
Qed.
End DaemonTheorems.
