(* ===== verification/Config.v ===== *)
(** * The client's configuration ([disk-client/src/config/])

    The sections of [disk.toml] ([schema.rs]), their validation
    ([validate.rs]), loading ([mod.rs]) and the loop that reloads the file while
    the daemon runs ([reload.rs]); the filter of a share as the embeddings sweep
    builds it ([embeddings_sweep.rs]). The TOML parser is a parameter; the texts
    of validation errors are constructors. The theorems follow the
    definitions. *)

From stdpp Require Import prelude gmap strings pretty.
From Stdlib Require Import ZArith Lia Strings.Byte Strings.Ascii.
From S2P Require Import Prelude Text PathFacts Guard Accounts Wire Lan Daemon DaemonProps.

#[local] Open Scope Z_scope.

(** ** [schema.rs] *)
Module Config.
Import Wire.
Inductive FilterMode := Whitelist | Blacklist.

Record NodeSection := mkNode {
  nd_id : string;
  nd_display_name : option string;
  nd_tenant_id : option string;
  nd_default_direction : option Direction
}.
Record ServerSection := mkServer {
  sv_address : string;
  sv_tls : string;
  sv_client_cert : string;
  sv_client_key : string;
  sv_server_ca : option string;
  sv_tls_domain : option string
}.
Record FilterSection := mkFilter {
  fl_mode : FilterMode;
  fl_extensions : list string;
  fl_include : list string;
  fl_exclude : list string
}.
Record PublisherSection := mkPublisher { pb_sign_key_ref : string; pb_quarantine_on_failure : bool }.
Record ShareSection := mkShare {
  sh_name : string;
  sh_path : string;
  sh_intended_direction : option Direction;
  sh_filter : option FilterSection;
  sh_publisher : option PublisherSection
}.
Record LanSyncSection := mkLan { ln_enabled : bool; ln_advertise_port : Z }.
Record EmbeddingsSection := mkEmbeddings { em_enabled : bool; em_model_id : string; em_dimensions : Z }.
Record DiskConfig := mkConfig {
  node : NodeSection;
  server : ServerSection;
  e2ee_enabled : bool;
  cfg_shares : list ShareSection;
  telemetry_opt_in : bool;
  telemetry_base_url : option string;
  lan_sync : LanSyncSection;
  embeddings : EmbeddingsSection
}.

Definition effective_direction (s : ShareSection) (node_default : option Direction) : option Direction :=
  match sh_intended_direction s with Some d => Some d | None => node_default end.

Definition share_direction (cfg : DiskConfig) (name : string) : option Direction :=
  s ← List.find (λ s, bool_decide (sh_name s = name)) (cfg_shares cfg);
  effective_direction s (nd_default_direction (node cfg)).

(** ** [validate.rs] *)
Inductive Violation :=
  | IdEmpty
  | IdTooLong (n : Z)
  | IdFirst
  | IdTrailingHyphen
  | IdChar
  | AddressNoPort
  | AddressNoHost
  | AddressBadPort
  | ShareTwice (name : string)
  | LanPortZero
  | EmbeddingsNoModel
  | EmbeddingsNoDimensions
  | ShareNoName
  | ShareRelative (name : string)
  | ShareNoDirection (name : string)
  | PublisherMissing (name : string)
  | PublisherStray (name : string)
  | WhitelistEmpty (name : string)
  | SignKeyEmpty (name : string).

Inductive ConfigError :=
  | CfgIo (msg : string)
  | Toml (msg : string)
  | Validation (v : Violation).

Definition id_char (c : ascii) : bool := is_ascii_lower c || is_ascii_digit c || bool_decide (c = "-"%char).

Definition validate_node_id (id : string) : result unit Violation :=
  match explode id with
  | [] => Err IdEmpty
  | first :: _ =>
      if bool_decide (63 < Z.of_nat (length (explode id))) then Err (IdTooLong (Z.of_nat (length (explode id))))
      else if negb (is_ascii_lower first) then Err IdFirst
      else if bool_decide (last (explode id) = Some "-"%char) then Err IdTrailingHyphen
      else if forallb id_char (explode id) then Ok tt
      else Err IdChar
  end.

Definition validate_server_address (addr : string) : result unit Violation :=
  match Split.rsplit_once ":"%char addr with
  | None => Err AddressNoPort
  | Some (host, port) =>
      if decide (host = "") then Err AddressNoHost
      else match LanDiscovery.parse_u16 port with
           | Some n => if decide (n = 0) then Err AddressBadPort else Ok tt
           | None => Err AddressBadPort
           end
  end.

(** The loop with its set of names seen. *)
Fixpoint names_unique (seen : gset string) (l : list ShareSection) : result unit Violation :=
  match l with
  | [] => Ok tt
  | s :: l => if decide (sh_name s ∈ seen) then Err (ShareTwice (sh_name s))
              else names_unique ({[sh_name s]} ∪ seen) l
  end.
Definition validate_share_names_unique (l : list ShareSection) : result unit Violation := names_unique ∅ l.

Definition validate_lan_sync (l : LanSyncSection) : result unit Violation :=
  if ln_enabled l && bool_decide (ln_advertise_port l = 0) then Err LanPortZero else Ok tt.

Definition validate_embeddings (e : EmbeddingsSection) : result unit Violation :=
  if negb (em_enabled e) then Ok tt
  else if decide (trim (em_model_id e) = "") then Err EmbeddingsNoModel
  else if decide (em_dimensions e = 0) then Err EmbeddingsNoDimensions
  else Ok tt.

#[export] Instance direction_eq_dec : EqDecision Direction.
Proof. solve_decision. Defined.

Definition validate_share (node_default : option Direction) (s : ShareSection) : result unit Violation :=
  if decide (sh_name s = "") then Err ShareNoName
  else if negb (Path.is_absolute (sh_path s)) then Err (ShareRelative (sh_name s))
  else
    direction <?- ok_or (effective_direction s node_default) (ShareNoDirection (sh_name s)) ;;
    if bool_decide (direction = Publisher) && bool_decide (sh_publisher s = None) then Err (PublisherMissing (sh_name s))
    else if negb (bool_decide (direction = Publisher)) && negb (bool_decide (sh_publisher s = None))
    then Err (PublisherStray (sh_name s))
    else
      _ <?- match sh_filter s with
            | Some (mkFilter Whitelist [] [] _) => Err (WhitelistEmpty (sh_name s))
            | _ => Ok tt
            end ;;
      match sh_publisher s with
      | Some p => if decide (pb_sign_key_ref p = "") then Err (SignKeyEmpty (sh_name s)) else Ok tt
      | None => Ok tt
      end.

Fixpoint validate_shares (node_default : option Direction) (l : list ShareSection) : result unit Violation :=
  match l with
  | [] => Ok tt
  | s :: l => _ <?- validate_share node_default s ;; validate_shares node_default l
  end.

Definition validate (cfg : DiskConfig) : result unit ConfigError :=
  map_err Validation (
    _ <?- validate_node_id (nd_id (node cfg)) ;;
    _ <?- validate_server_address (sv_address (server cfg)) ;;
    _ <?- validate_share_names_unique (cfg_shares cfg) ;;
    _ <?- validate_lan_sync (lan_sync cfg) ;;
    _ <?- validate_embeddings (embeddings cfg) ;;
    validate_shares (nd_default_direction (node cfg)) (cfg_shares cfg)).
End Config.

(** ** [mod.rs] and [reload.rs] *)
Module Reload.
Import Config.
Section reload.
Context (toml_from_str : string → result DiskConfig string).

Definition from_str (s : string) : result DiskConfig ConfigError :=
  cfg <?- map_err Toml (toml_from_str s) ;;
  _ <?- validate cfg ;;
  Ok cfg.
(** [raw] is what reading the file gives. *)
Definition load (raw : result string string) : result DiskConfig ConfigError :=
  s <?- map_err CfgIo raw ;; from_str s.

(** What the watcher shares with the daemon: the configuration in force, the
    version tick, the last failure. *)
Record shared := mkShared {
  current : DiskConfig;
  version : Z;
  last_error : option ConfigError
}.

Definition swap (next : DiskConfig) (s : shared) : shared :=
  mkShared next (u64_saturating_add (version s) 1) (last_error s).

Definition apply_reload (raw : result string string) (s : shared) : shared :=
  match raw with
  | Err e => mkShared (current s) (version s) (Some (CfgIo e))
  | Ok text =>
      match toml_from_str text with
      | Err e => mkShared (current s) (version s) (Some (Toml e))
      | Ok parsed =>
          match validate parsed with
          | Err e => mkShared (current s) (version s) (Some e)
          | Ok _ => let s := swap parsed s in mkShared (current s) (version s) None
          end
      end
  end.

(** The loop: [pending] is the deadline of a debounced change, [signals] whether
    the explicit channel is still open. *)
Record loop := mkLoop { sh : shared; pending : option Z; signals : bool }.

(** What a turn of [select] sees: an event of the watched directory at a time,
    the end of the watcher, the deadline, a signal, the end of the signals.
    The file is read when a reload runs. *)
Inductive turn :=
  | FsChange (file_name : string) (now : Z)
  | FsClosed
  | Deadline (raw : result string string)
  | Signal (raw : result string string)
  | SignalsClosed.

(** [None] when the loop has ended. *)
Definition run_turn (target : string) (window : Z) (t : turn) (l : loop) : option loop :=
  match t with
  | FsChange name now => Some (if decide (name = target) then mkLoop (sh l) (Some (now + window)) (signals l) else l)
  | FsClosed => None
  | Deadline raw => Some (mkLoop (apply_reload raw (sh l)) None (signals l))
  | Signal raw => Some (mkLoop (apply_reload raw (sh l)) (pending l) (signals l))
  | SignalsClosed => Some (mkLoop (sh l) (pending l) false)
  end.

(** Which turns can come: the deadline when one is pending, a signal while the
    channel is open. *)
Definition enabled (t : turn) (l : loop) : bool :=
  match t with
  | FsChange _ _ | FsClosed => true
  | Deadline _ => bool_decide (is_Some (pending l))
  | Signal _ | SignalsClosed => signals l
  end.

Inductive loop_step (target : string) (window : Z) : loop → turn → loop → Prop :=
  | step_turn l t l' : enabled t l = true → run_turn target window t l = Some l' → loop_step target window l t l'.
End reload.
End Reload.

(** ** The filter of a share ([embeddings_sweep.rs]) *)
Module ShareFilter.
Import Config.
Import Filter.
(** From [FilterRules::default()], which is empty. *)
Definition share_rules (s : ShareSection) : FilterRules.t :=
  match sh_filter s with
  | None => FilterRules.mk [] [] []
  | Some f =>
      match fl_mode f with
      | Whitelist => FilterRules.mk (fl_extensions f) [] (fl_include f)
      | Blacklist => FilterRules.mk [] [] (fl_exclude f)
      end
  end.
Definition share_filter {glob} (glob_new : string → result glob string)
    (glob_build : list glob → result (string → bool) string) (s : ShareSection) : result Filter.t FilterError :=
  from_config glob_new glob_build (share_rules s).
End ShareFilter.

Section validate.
Import Config.

(** What the rules of [validate.rs] say together. *)
Definition node_id_ok (id : string) : Prop :=
  (∃ c l, explode id = c :: l ∧ is_ascii_lower c = true) ∧ (length (explode id) ≤ 63)%nat
  ∧ last (explode id) ≠ Some "-"%char ∧ Forall (λ c, id_char c = true) (explode id).

Definition address_ok (addr : string) : Prop :=
  ∃ host port n, Split.rsplit_once ":"%char addr = Some (host, port) ∧ host ≠ ""
    ∧ LanDiscovery.parse_u16 port = Some n ∧ n ≠ 0.

Definition share_ok (dflt : option Wire.Direction) (s : ShareSection) : Prop :=
  sh_name s ≠ "" ∧ Path.is_absolute (sh_path s) = true
  ∧ (∃ d, effective_direction s dflt = Some d ∧ (d = Wire.Publisher ↔ is_Some (sh_publisher s)))
  ∧ (∀ f, sh_filter s = Some f → fl_mode f = Whitelist → fl_extensions f ≠ [] ∨ fl_include f ≠ [])
  ∧ ∀ p, sh_publisher s = Some p → pb_sign_key_ref p ≠ "".

Definition well_formed (cfg : DiskConfig) : Prop :=
  node_id_ok (nd_id (node cfg)) ∧ address_ok (sv_address (server cfg))
  ∧ NoDup (sh_name <$> cfg_shares cfg)
  ∧ (ln_enabled (lan_sync cfg) = true → ln_advertise_port (lan_sync cfg) ≠ 0)
  ∧ (em_enabled (embeddings cfg) = true →
       trim (em_model_id (embeddings cfg)) ≠ "" ∧ em_dimensions (embeddings cfg) ≠ 0)
  ∧ Forall (share_ok (nd_default_direction (node cfg))) (cfg_shares cfg).

Lemma validate_node_id_ok id : validate_node_id id = Ok tt ↔ node_id_ok id.
Proof.
  unfold validate_node_id, node_id_ok. destruct (explode id) as [|c l] eqn:E.
  { split; [done|]. intros [(?&?&[=]&_) _]. }
  assert (forallb id_char (c :: l) = true ↔ Forall (λ c, id_char c = true) (c :: l)) as Hf.
  { rewrite List.forallb_forall, Forall_forall. by setoid_rewrite list_elem_of_In. }
  case_bool_decide as H1; [split; [done|]; intros (_&?&_); lia|].
  destruct (is_ascii_lower c) eqn:H2; cbn [negb]; [|split; [done|]; intros [(?&?&[= <- <-]&?) _]; congruence].
  case_bool_decide as H3; [naive_solver|].
  destruct (forallb id_char (c :: l)) eqn:H4.
  - split; [|done]. intros _. split_and!; [by eexists _, _|lia|done|by apply Hf].
  - split; [done|]. intros (_&_&_&Ha). apply Hf in Ha. congruence.
Qed.

Lemma validate_server_address_ok addr : validate_server_address addr = Ok tt ↔ address_ok addr.
Proof.
  unfold validate_server_address, address_ok. destruct (Split.rsplit_once _ _) as [[h p]|];
    [|split; [done|]; by intros (?&?&?&?&_)].
  case_decide as Hh; [split; [done|]; by intros (?&?&?&[= <- <-]&?&_)|].
  destruct (LanDiscovery.parse_u16 p) as [n|] eqn:Hp; [case_decide as Hn|].
  - split; [done|]. intros (?&?&?&[= <- <-]&_&Hq&?). congruence.
  - split; [|done]. intros _. by exists h, p, n.
  - split; [done|]. intros (?&?&?&[= <- <-]&_&Hq&?). congruence.
Qed.

Lemma names_unique_ok seen l :
  names_unique seen l = Ok tt ↔ NoDup (sh_name <$> l) ∧ ∀ s, s ∈ l → sh_name s ∉ seen.
Proof.
  revert seen. induction l as [|s l IH]; intros seen; simpl.
  { split; [|done]. intros _. split; [constructor|]. intros s Hs. by apply elem_of_nil in Hs. }
  rewrite NoDup_cons, list_elem_of_fmap. case_decide as Hs; [split; [done|]; intros [_ H]; destruct (H s); [left|done]|].
  rewrite IH. setoid_rewrite elem_of_cons. setoid_rewrite elem_of_union. setoid_rewrite elem_of_singleton.
  split; [|naive_solver]. intros [Hn Hl]. split_and!; [|done|]; [|naive_solver].
  intros (x&Hx&Hin). destruct (Hl x Hin). by left.
Qed.

Lemma validate_share_ok dflt s : validate_share dflt s = Ok tt ↔ share_ok dflt s.
Proof.
  unfold validate_share, share_ok. case_decide; [naive_solver|].
  destruct (Path.is_absolute (sh_path s)); simpl; [|naive_solver].
  destruct (effective_direction s dflt) as [d|]; simpl; [|naive_solver].
  assert ((∃ d', Some d = Some d' ∧ (d' = Wire.Publisher ↔ is_Some (sh_publisher s)))
            ↔ (d = Wire.Publisher ↔ is_Some (sh_publisher s))) as -> by naive_solver.
  destruct (sh_publisher s) as [p|] eqn:Hp.
  - case_bool_decide as Hd; case_bool_decide as Hn; try done; cbn [andb negb].
    + destruct (sh_filter s) as [[[] [|? ?] [|? ?] ex]|]; simpl; try case_decide; naive_solver.
    + split; [done|]. intros (_&_&Hx&_). destruct Hd. by apply Hx.
  - case_bool_decide as Hd; case_bool_decide as Hn; try done; cbn [andb negb].
    + split; [done|]. intros (_&_&Hx&_). by destruct (proj1 Hx Hd).
    + destruct (sh_filter s) as [[[] [|? ?] [|? ?] ex]|]; simpl; naive_solver.
Qed.
End validate.

Section validated.
Import Config.

Lemma validate_shares_ok dflt l : validate_shares dflt l = Ok tt ↔ Forall (share_ok dflt) l.
Proof.
  induction l as [|s l IH]; simpl; [split; [constructor|done]|]. rewrite Forall_cons, <-validate_share_ok, <-IH.
  destruct (validate_share dflt s) as [[]|]; simpl; naive_solver.
Qed.

Lemma validate_lan_ok l : validate_lan_sync l = Ok tt ↔ (ln_enabled l = true → ln_advertise_port l ≠ 0).
Proof. unfold validate_lan_sync. destruct (ln_enabled l); simpl; [case_bool_decide|]; naive_solver. Qed.

Lemma validate_embeddings_ok e :
  validate_embeddings e = Ok tt ↔ (em_enabled e = true → trim (em_model_id e) ≠ "" ∧ em_dimensions e ≠ 0).
Proof. unfold validate_embeddings. destruct (em_enabled e); simpl; [repeat case_decide|]; naive_solver. Qed.

Lemma validate_ok cfg : validate cfg = Ok tt ↔ well_formed cfg.
Proof.
  unfold validate, well_formed.
  rewrite <-validate_node_id_ok, <-validate_server_address_ok, <-validate_lan_ok, <-validate_embeddings_ok, <-validate_shares_ok.
  assert (NoDup (sh_name <$> cfg_shares cfg) ↔ validate_share_names_unique (cfg_shares cfg) = Ok tt) as ->.
  { unfold validate_share_names_unique. rewrite names_unique_ok. set_solver. }
  assert (∀ r : result unit Violation, map_err Validation r = Ok tt ↔ r = Ok tt) as -> by (intros [[]|]; naive_solver).
  assert (∀ (a b : result unit Violation), (_ <?- a ;; b) = Ok tt ↔ a = Ok tt ∧ b = Ok tt) as Hb
    by (intros [[]|] b; simpl; naive_solver).
  by rewrite !Hb.
Qed.
End validated.

Section reload.
Import Config Reload.
Context (toml_from_str : string → result DiskConfig string).

(** A reload runs the chain of start-up. *)
Lemma apply_reload_load raw s :
  apply_reload toml_from_str raw s
  = match load toml_from_str raw with
    | Ok cfg => mkShared cfg (u64_saturating_add (version s) 1) None
    | Err e => mkShared (current s) (version s) (Some e)
    end.
Proof.
  unfold apply_reload, load, from_str. destruct raw as [text|e]; simpl; [|done].
  destruct (toml_from_str text) as [cfg|e]; simpl; [|done]. by destruct (validate cfg) as [[]|].
Qed.

Lemma load_valid raw cfg : load toml_from_str raw = Ok cfg → validate cfg = Ok tt.
Proof.
  unfold load, from_str. destruct raw as [text|]; simpl; [|done]. destruct (toml_from_str text) as [c|]; simpl; [|done].
  destruct (validate c) as [[]|] eqn:Hv; simpl; [|done]. by intros [= <-].
Qed.

(** The files a run of the loop read, in order. *)
Definition reads (ts : list turn) : list (result string string) :=
  omap (λ t, match t with Deadline raw | Signal raw => Some raw | _ => None end) ts.

(** The last of them that loads, or the configuration of start-up. *)
Definition last_good (init : DiskConfig) (raws : list (result string string)) : DiskConfig :=
  foldl (λ cfg raw, match load toml_from_str raw with Ok c => c | Err _ => cfg end) init raws.

(** What the last of them failed with, if it failed. *)
Definition last_failure (raws : list (result string string)) : option ConfigError :=
  match last raws with
  | Some raw => match load toml_from_str raw with Ok _ => None | Err e => Some e end
  | None => None
  end.

Inductive run (target : string) (window : Z) : loop → list turn → loop → Prop :=
  | run_nil l : run target window l [] l
  | run_snoc l ts t l1 l2 :
      run target window l ts l1 → loop_step toml_from_str target window l1 t l2 → run target window l (ts ++ [t]) l2.

Definition start (init : DiskConfig) : loop := mkLoop (mkShared init 0 None) None true.

Lemma run_inv target window init ts l :
  run target window (start init) ts l →
  current (sh l) = last_good init (reads ts) ∧ last_error (sh l) = last_failure (reads ts).
Proof.
  intros H. remember (start init) as l0 eqn:E. induction H as [l0|l0 ts t l1 l2 _ IH Hs]; [by subst|].
  specialize (IH E) as [H1 H2]. destruct Hs as [la t lb _ Hrun].
  unfold reads, last_good, last_failure in *. rewrite omap_app, foldl_app.
  destruct t; simpl in *; try done; injection Hrun as <-; rewrite ?app_nil_r; try (by case_decide); try done;
    simpl; rewrite apply_reload_load, last_snoc, <-H1; by destruct (load _ _).
Qed.

Lemma last_good_valid init raws : validate init = Ok tt → validate (last_good init raws) = Ok tt.
Proof.
  intros Hi. unfold last_good. induction raws as [|r raws IH] using rev_ind; [done|]. rewrite foldl_app. simpl.
  destruct (load toml_from_str r) as [c|] eqn:Hl; [|done]. by eapply load_valid.
Qed.
End reload.

Module ConfigTheorems.
Import Config Reload.

(** C35: the configuration in force. Through any turns of the reload loop it is
    the last file content that was read, parsed and validated, or the one of
    start-up; it always satisfies every rule of the validator, names of shares
    being distinct among them; and the recorded error is that of the last read,
    cleared by one that loads. *)
Theorem config_in_force toml target window init ts l :
  validate init = Ok tt → run toml target window (start init) ts l →
  well_formed (current (sh l)) ∧ current (sh l) = last_good toml init (reads ts)
  ∧ last_error (sh l) = last_failure toml (reads ts).
Proof.
  intros Hi [H1 H2]%run_inv. split; [|done]. apply validate_ok. rewrite H1. by apply last_good_valid.
Qed.

Definition demo_share : ShareSection := mkShare "wiki" "/srv/wiki" None None None.
Definition demo_config : DiskConfig :=
  mkConfig (mkNode "laptop" None None (Some Wire.Bidirectional))
    (mkServer "disk.example:9443" "auto" "/c" "/k" None None) false [demo_share] false None
    (mkLan false 9447) (mkEmbeddings false "bge-m3" 1024).
Definition demo_toml (s : string) : result DiskConfig string :=
  if decide (s = "good") then Ok demo_config
  else if decide (s = "twice") then Ok (mkConfig (node demo_config) (server demo_config) false [demo_share; demo_share] false None
                                         (lan_sync demo_config) (embeddings demo_config))
  else Err "expected a table".

Lemma config_in_force_witness :
  ∃ l, run demo_toml "disk.toml" 500 (start demo_config) [FsChange "disk.toml" 10; Deadline (Ok "twice")] l
    ∧ well_formed (current (sh l)) ∧ last_error (sh l) = Some (Validation (ShareTwice "wiki")).
Proof.
  eexists. assert (run demo_toml "disk.toml" 500 (start demo_config) [FsChange "disk.toml" 10; Deadline (Ok "twice")]
      (mkLoop (mkShared demo_config 0 (Some (Validation (ShareTwice "wiki")))) None true)) as H.
  { apply (run_snoc _ _ _ _ [FsChange "disk.toml" 10] _ (mkLoop (mkShared demo_config 0 None) (Some 510) true)).
    - apply (run_snoc _ _ _ _ [] _ (start demo_config)); [constructor|]. by constructor.
    - by constructor. }
  split; [exact H|].
  assert (validate demo_config = Ok tt) as Hv by (vm_compute; reflexivity).
  destruct (config_in_force _ _ _ _ _ _ Hv H) as (Hw&_&He). split; [exact Hw|]. rewrite He. vm_compute. reflexivity.
Defined.

(** In whitelist mode the patterns that name what to include are handed to the
    filter as patterns to ignore: a path that one of them matches is left out. *)
Theorem included_is_excluded {glob} (glob_new : string → result glob string) glob_build s f flt p :
  sh_filter s = Some f → fl_mode f = Whitelist →
  ShareFilter.share_filter glob_new glob_build s = Ok flt →
  (∀ gs, collect_results (λ raw, map_err (Filter.InvalidGlob raw) (glob_new raw)) (fl_include f) = Ok gs →
     ∀ ig, glob_build gs = Ok ig → ig p = true) →
  Filter.is_excluded flt p = true.
Proof.
  intros Hf Hm. unfold ShareFilter.share_filter, ShareFilter.share_rules, Filter.from_config. rewrite Hf, Hm. simpl.
  destruct (collect_results _ _) as [gs|] eqn:Hg; simpl; [|done]. destruct (glob_build gs) as [ig|] eqn:Hb; simpl; [|done].
  intros [= <-] H. specialize (H gs eq_refl ig Hb). unfold Filter.is_excluded. simpl. rewrite H.
  by repeat case_match.
Qed.
End ConfigTheorems.
