(* ===== verification/Watcher.v ===== *)
(** * The client's file watcher ([disk-client/src/watcher/mod.rs])

    The translation of the notify library's events, the choice of a backend,
    and the debouncer that keeps the last event of each path until the path has
    been quiet for a window. *)

From stdpp Require Import prelude gmap strings sorting.
From Stdlib Require Import ZArith Lia.
From S2P Require Import Prelude Text PathFacts.

#[local] Open Scope Z_scope.

Module Watcher.
Import Path.

(** Milliseconds. *)
Definition DEFAULT_DEBOUNCE_WINDOW : Z := 500.

Inductive FsEvent := Change (p : string) | Delete (p : string).
Definition path (e : FsEvent) : string := match e with Change p | Delete p => p end.

(** ** Translation *)
Inductive RenameMode := RenameAny | RenameTo | RenameFrom | RenameBoth | RenameOther.
Inductive ModifyKind := ModifyName (m : RenameMode) | ModifyElse.
Inductive EventKind := KAny | KAccess | KCreate | KModify (m : ModifyKind) | KRemove | KOther.

Definition translate_path (kind : EventKind) (i : nat) (p : string) : option FsEvent :=
  match kind with
  | KCreate => Some (Change p)
  | KModify (ModifyName RenameFrom) => Some (Delete p)
  | KModify (ModifyName RenameBoth) => Some (match i with O => Delete p | _ => Change p end)
  | KModify _ => Some (Change p)
  | KRemove => Some (Delete p)
  | KAny | KAccess | KOther => None
  end.
Definition translate_notify_event (kind : EventKind) (paths : list string) : list FsEvent :=
  omap (λ ip, translate_path kind ip.1 ip.2) (zip (seq 0 (length paths)) paths).

(** ** Backends: the native one, or polling when it fails. *)
Inductive WatcherBackend := Native | Poll.
Inductive WatcherError := MissingShareRoot (root : string) | AllBackendsFailed (native poll : string).

Definition native_or_poll (native poll : option string) : result (WatcherBackend * option string) WatcherError :=
  match native with
  | None => Ok (Native, None)
  | Some n => match poll with None => Ok (Poll, Some n) | Some p => Err (AllBackendsFailed n p) end
  end.

Definition watch (root_exists : bool) (share_root : string) (native poll : option string)
    : result (WatcherBackend * option string) WatcherError :=
  if root_exists then native_or_poll native poll else Err (MissingShareRoot share_root).

(** ** The debouncer

    A [BTreeMap] keyed by paths, which compare by their components. *)
Record FsEventDebouncer := mk { window : Z; pending : gmap (list component) (FsEvent * Z) }.

Definition new (window : Z) : FsEventDebouncer := mk window ∅.

Definition next_deadline (d : FsEventDebouncer) : option Z :=
  match (map_to_list (pending d)).*2.*2 with
  | [] => None
  | t :: l => Some (foldl Z.min t l)
  end.

Definition merge (prior next : FsEvent) : FsEvent :=
  match prior, next with
  | Change _, Change _ => next
  | Change _, Delete _ => next
  | Delete _, Change _ => next
  | Delete _, Delete _ => next
  end.

Definition push (event : FsEvent) (now : Z) (d : FsEventDebouncer) : FsEventDebouncer :=
  let key := components (path event) in
  let deadline := now + window d in
  mk (window d) (match pending d !! key with
                 | Some (prior, _) => <[key := (merge prior event, deadline)]> (pending d)
                 | None => <[key := (event, deadline)]> (pending d)
                 end).

Definition key_leb (a b : list component * (FsEvent * Z)) : bool := negb (components_ltb b.1 a.1).

Definition drain_expired (now : Z) (d : FsEventDebouncer) : list FsEvent * FsEventDebouncer :=
  let expired := filter (λ ke, bool_decide (ke.2.2 ≤ now) = true) (pending d) in
  ((λ ke, ke.2.1) <$> sort_by key_leb (map_to_list expired), mk (window d) (pending d ∖ expired)).

Definition drain_all (d : FsEventDebouncer) : list FsEvent * FsEventDebouncer :=
  ((λ ke, ke.2.1) <$> sort_by key_leb (map_to_list (pending d)), mk (window d) ∅).
End Watcher.

(** ** Properties *)
Module WatcherProps.
Import Path Watcher.

Inductive op := Push (e : FsEvent) (now : Z) | Drain (now : Z).

Definition run_op (d : FsEventDebouncer) (o : op) : FsEventDebouncer :=
  match o with Push e now => push e now d | Drain now => (drain_expired now d).2 end.

(** In a log, [e] at [t] is the last event of its path, and no drain since has
    come after its window. *)
Definition waits (w : Z) (log : list op) (k : list component) (e : FsEvent) (t : Z) : Prop :=
  ∃ l1 l2, log = l1 ++ Push e t :: l2 ∧ components (path e) = k
    ∧ (∀ e' t', Push e' t' ∈ l2 → components (path e') ≠ k)
    ∧ ∀ t', Drain t' ∈ l2 → t' < t + w.

Lemma push_lookup e now d k :
  pending (push e now d) !! k
  = if decide (components (path e) = k) then Some (e, now + window d) else pending d !! k.
Proof.
  unfold push. simpl. assert (∀ p, merge p e = e) as Hm by (intros []; by destruct e).
  destruct (pending d !! components (path e)) as [[p t]|]; rewrite ?Hm;
    (case_decide as E; [subst; by rewrite lookup_insert_eq|by rewrite lookup_insert_ne]).
Qed.

Lemma drain_lookup now d k :
  pending (drain_expired now d).2 !! k
  = match pending d !! k with Some (e, t) => if decide (t ≤ now) then None else Some (e, t) | None => None end.
Proof.
  simpl. destruct (pending d !! k) as [[e t]|] eqn:Hk.
  - case_decide as Ht.
    + apply lookup_difference_None. right. exists (e, t). apply map_lookup_filter_Some. split; [done|].
      by apply bool_decide_eq_true.
    + apply lookup_difference_Some. split; [done|]. apply map_lookup_filter_None. right. intros x Hx.
      rewrite Hk in Hx. injection Hx as <-. simpl. by rewrite bool_decide_eq_true.
  - apply lookup_difference_None. by left.
Qed.

Lemma window_run d log : window (foldl run_op d log) = window d.
Proof. induction log as [|o log IH] using rev_ind; [done|]. rewrite foldl_app. simpl. by destruct o. Qed.

Lemma waits_snoc_push w log k e t e' t' :
  waits w (log ++ [Push e' t']) k e t
  ↔ (components (path e') = k ∧ e = e' ∧ t = t') ∨ (components (path e') ≠ k ∧ waits w log k e t).
Proof.
  split.
  - intros (l1&l2&Heq&Hk&Hp&Hd). destruct l2 as [|o l2 _] using rev_ind.
    + apply app_inj_tail in Heq as [_ [= -> ->]]. by left.
    + rewrite app_comm_cons, app_assoc in Heq. apply app_inj_tail in Heq as [-> <-]. right.
      split; [apply (Hp e' t'); set_solver|]. exists l1, l2. split_and!; [done..|intros a b ?; apply (Hp a b)|intros a ?; apply (Hd a)]; set_solver.
  - intros [(Hk&->&->)|[Hne (l1&l2&->&Hk&Hp&Hd)]].
    + exists log, []. split_and!; [done..| |]; intros; set_solver.
    + exists l1, (l2 ++ [Push e' t']). rewrite <-app_assoc. split_and!; [done..| |]; set_solver.
Qed.

Lemma waits_snoc_drain w log k e t t' :
  waits w (log ++ [Drain t']) k e t ↔ waits w log k e t ∧ t' < t + w.
Proof.
  split.
  - intros (l1&l2&Heq&Hk&Hp&Hd). destruct l2 as [|o l2 _] using rev_ind.
    + by apply app_inj_tail in Heq as [_ [=]].
    + rewrite app_comm_cons, app_assoc in Heq. apply app_inj_tail in Heq as [-> <-].
      split; [|apply Hd; set_solver]. exists l1, l2. split_and!; [done..|intros a b ?; apply (Hp a b)|intros a ?; apply (Hd a)]; set_solver.
  - intros [(l1&l2&->&Hk&Hp&Hd) Ht]. exists l1, (l2 ++ [Drain t']). rewrite <-app_assoc. split_and!; [done..| |]; set_solver.
Qed.

(** The buffer is what the log says. *)
Lemma pending_waits w log k e t :
  pending (foldl run_op (new w) log) !! k = Some (e, t + w) ↔ waits w log k e t.
Proof.
  revert e t. induction log as [|o log IH] using rev_ind; intros e t.
  - simpl. rewrite lookup_empty. split; [done|]. intros (l1&l2&H&_). by destruct l1.
  - rewrite foldl_app. cbn [foldl]. destruct o as [e' t'|t']; cbn [run_op].
    + rewrite push_lookup, waits_snoc_push, window_run, <-IH. cbn [window new]. case_decide; [|naive_solver].
      split; [intros [= -> ?]; left; split_and!; [done..|lia]|]. intros [(?&->&->)|[]]; done.
    + rewrite drain_lookup, waits_snoc_drain, <-IH.
      destruct (pending _ !! k) as [[e0 t0]|] eqn:Hk; [|naive_solver].
      case_decide; split; [done|intros [[= -> ->] ?]; lia|intros [= -> ->]; split; [done|lia]|by intros [[= -> ->] _]].
Qed.

Lemma pending_deadline w log k e x :
  pending (foldl run_op (new w) log) !! k = Some (e, x) → waits w log k e (x - w).
Proof. intros H. apply pending_waits. by replace (x - w + w) with x by lia. Qed.

Lemma strongly_sorted_fmap {A B} (R : A → A → Prop) (S : B → B → Prop) (g : A → B) l :
  (∀ x y, x ∈ l → y ∈ l → R x y → S (g x) (g y)) → StronglySorted R l → StronglySorted S (g <$> l).
Proof.
  intros Hg Hs. induction Hs as [|x l Hl IH Hx]; [constructor|]. constructor.
  - apply IH. intros y z Hy Hz. apply Hg; by right.
  - apply Forall_fmap, Forall_forall. intros y Hy. eapply Forall_forall in Hx; [|done]. simpl. apply Hg; [left|by right|done].
Qed.

(** Before in the order of paths, or the same. *)
Definition before (a b : FsEvent) : Prop := path_ltb (path b) (path a) = false.

(** C40: the debouncer refines the log of what was pushed and drained. A drain
    returns, in the order of paths and once per path, exactly the events that
    were the last of their path, that have waited for the whole window, and that
    no earlier drain returned. *)
Theorem debounce_exact w log now :
  let out := (drain_expired now (foldl run_op (new w) log)).1 in
  StronglySorted before out ∧ NoDup (components ∘ path <$> out)
  ∧ ∀ e, e ∈ out ↔ ∃ t, waits w log (components (path e)) e t ∧ t + w ≤ now.
Proof.
  set (d := foldl run_op (new w) log). set (m := filter (λ ke, bool_decide (ke.2.2 ≤ now) = true) (pending d)).
  assert (∀ k e x, m !! k = Some (e, x) ↔ waits w log k e (x - w) ∧ x ≤ now) as Hm.
  { intros k e x. unfold m. rewrite map_lookup_filter_Some. simpl. rewrite bool_decide_eq_true. unfold d.
    split; intros [H ?]; (split; [|done]); [by apply pending_deadline|].
    apply pending_waits in H. by replace (x - w + w) with x in H by lia. }
  assert (∀ ke, ke ∈ sort_by key_leb (map_to_list m) → ke.1 = components (path ke.2.1)) as Hkey.
  { intros [k [e x]]. rewrite elem_of_sort_by, elem_of_map_to_list, Hm. by intros [(_&_&_&<-&_) _]. }
  simpl. fold m. split; [|split].
  - eapply strongly_sorted_fmap; [|apply (sort_by_sorted key_leb)].
    + intros a b Ha Hb. unfold before, path_ltb, key_leb. rewrite <-(Hkey a Ha), <-(Hkey b Hb). by destruct (components_ltb _ _).
    + intros a b. unfold key_leb. rewrite negb_false_iff, negb_true_iff. apply bo_asym, _.
    + intros a b c. unfold key_leb. apply bo_leb_trans; apply _.
  - rewrite <-list_fmap_compose. rewrite (list_fmap_ext _ fst).
    + rewrite sort_by_perm. apply NoDup_fst_map_to_list.
    + intros i ke Hi. simpl. symmetry. apply Hkey. by eapply list_elem_of_lookup_2.
  - intros e. rewrite list_elem_of_fmap. split.
    + intros ([k [e' x]]&->&Hx). pose proof (Hkey _ Hx) as Hk. simpl in *. subst k.
      rewrite elem_of_sort_by, elem_of_map_to_list, Hm in Hx. destruct Hx. exists (x - w). split; [done|lia].
    + intros (t&Ht&Hle). exists (components (path e), (e, t + w)). split; [done|].
      rewrite elem_of_sort_by, elem_of_map_to_list, Hm. by replace (t + w - w) with t by lia.
Qed.
End WatcherProps.
