(* ===== verification/DaemonTask.v ===== *)
(** * The daemon's share tasks ([disk-cli/src/daemon.rs])

    What [disk daemon start] runs for each share: the session with its stored
    key, the baselines of the cycle, the transport, one iteration of the sync
    loop and the reports to the status surface; the reconcile of shares after a
    reload; the key of an encrypted vault. Connections, files and the clock are
    oracles. *)

From stdpp Require Import prelude gmap strings pretty.
From Stdlib Require Import ZArith QArith Lia Strings.Byte Strings.Ascii.
From S2P Require Import Prelude Text PathFacts VectorClock Types Fs BlobStore E2ee Publisher Guard Sql MetaDb MetaSync.
From S2P Require Import SyncService SyncLoop Wire WireProps Lan Daemon DaemonProps Config.

#[local] Close Scope Q_scope.
#[local] Open Scope Z_scope.

Module DaemonTask.
Import Path.

(** ** Snapshots *)
Definition build_live_snapshot (name path : string) (declared_direction : Wire.Direction)
    (state : SyncLoop.LoopState) (last_success_at : option Z) (last_error : option string) : ShareSnapshot.t :=
  ShareSnapshot.mk name path declared_direction None state last_success_at last_error 0 0 0.

Definition direction_of (cfg : Config.DiskConfig) (s : Config.ShareSection) : Wire.Direction :=
  default Wire.Bidirectional (Config.effective_direction s (Config.nd_default_direction (Config.node cfg))).

Definition build_share_snapshots (cfg : Config.DiskConfig) : list ShareSnapshot.t :=
  (λ s, ShareSnapshot.mk (Config.sh_name s) (Config.sh_path s) (direction_of cfg s) None SyncLoop.Idle None None 0 0 0)
    <$> Config.cfg_shares cfg.
Definition build_share_snapshots_from_cfg (new_cfg old_cfg : Config.DiskConfig) : list ShareSnapshot.t :=
  build_share_snapshots new_cfg.

(** The consumer of the version tick. *)
Definition reconcile_turn (new_cfg old_cfg : Config.DiskConfig) (d : DaemonState) : DaemonState :=
  DaemonState.reconcile_shares (build_share_snapshots_from_cfg new_cfg old_cfg) d.

(** ** The key of an encrypted vault

    [resolved] is what [resolve_vault_key] returned. *)
Definition task_e2ee_key (cfg : Config.DiskConfig) (resolved : result (option bytes) string) : option bytes :=
  if Config.e2ee_enabled cfg then match resolved with Ok (Some k) => Some k | _ => None end else None.

(** ** Connecting: the delay doubles up to half a minute. *)
Definition CONNECT_DELAY_CAP : Z := 30.
Definition next_connect_delay (d : Z) : Z := Z.min (d * 2) CONNECT_DELAY_CAP.

(** ** Baselines *)
Section task.
Context {codec : VcCodec}.

Definition load_baselines_for_share (db_fault : option MetaDbError) (meta_db : option MetaDb) (node_id share_name : string)
    : gmap string bytes :=
  match meta_db with
  | None => ∅
  | Some db =>
      match (match db_fault with Some e => Err e | None => (MetaBaselines.load_node_baseline node_id share_name db).1 end) with
      | Ok entries =>
          foldl (λ m e, <[Lossy.to_string_lossy (FileMeta.path e) := FileMeta.content_hash e]> m) ∅
            (List.filter (λ e, negb (FileMeta.deleted e)) entries)
      | Err _ => ∅
      end
  end.

Definition build_remote_sync_for_share (share_name share_path node_id cache : string) (baselines : gmap string bytes)
    (e2ee_key : option bytes) (declared_direction : Wire.Direction) : Wire.RemoteSync :=
  {| Wire.share := share_name; Wire.scan_root := share_path; Wire.node_id := node_id;
     Wire.blob_cache := Some cache; Wire.baselines := baselines; Wire.e2ee_key := e2ee_key;
     Wire.declared_direction := Some declared_direction |}.

(** ** The session: a key from its file or from the server, then a token. *)
Record DiskClient := mkClient { api_key : option string; session : option string }.
Record host := mkHost { hfs : Fs.t; registrations : nat; logins : nat }.

Section session.
Context (f : Fs.faults) (cut : Fs.cuts) (register_node authenticate : nat → option string).

Definition load_key (api_key_path : string) (c : DiskClient) (h : host) : DiskClient * host :=
  match api_key c with
  | Some _ => (c, h)
  | None =>
      let '(r, fs) := Fs.read f api_key_path (hfs h) in
      let h := mkHost fs (registrations h) (logins h) in
      match r with
      | Ok raw =>
          if bytes_utf8 raw then
            let key := trim (String.string_of_list_byte raw) in
            (if decide (key = "") then c else mkClient (Some key) (session c), h)
          else (c, h)
      | Err _ => (c, h)
      end
  end.

Definition register_key (api_key_path : string) (c : DiskClient) (h : host) : DiskClient * host :=
  match api_key c with
  | Some _ => (c, h)
  | None =>
      let r := register_node (registrations h) in
      let h := mkHost (hfs h) (S (registrations h)) (logins h) in
      match r with
      | Some key =>
          let '(_, fs) := Fs.write f cut api_key_path (Publisher.str_bytes key) (hfs h) in
          (mkClient (Some key) (session c), mkHost fs (registrations h) (logins h))
      | None => (c, h)
      end
  end.

Definition log_in (c : DiskClient) (h : host) : DiskClient * host :=
  match session c, api_key c with
  | None, Some _ => (mkClient (api_key c) (authenticate (logins h)), mkHost (hfs h) (registrations h) (S (logins h)))
  | _, _ => (c, h)
  end.

Definition ensure_client_session (api_key_path : string) (c : DiskClient) (h : host) : DiskClient * host :=
  let '(c, h) := load_key api_key_path c h in
  let '(c, h) := register_key api_key_path c h in
  log_in c h.
End session.

(** ** One iteration of a share's task *)
Record task := mkTask { loop_sm : SyncLoop.t; last_success_at : option Z; client : Wire.client }.

Record ShareArgs := mkArgs {
  a_name : string;
  a_path : string;
  a_direction : Wire.Direction;
  a_node_id : string;
  a_cache : string;
  a_key : option bytes
}.

Context {cipher : E2ee.Cipher} (blake3 : bytes → bytes) (acl_details : bytes → bool).
Context (diffy_merge : bytes → bytes → bytes → result bytes bytes) (error_text : SyncLoop.LoopError → string).

(** The times and the draw of the loop, the world of the cycle, and, when the
    deadline struck before the cycle ended, the state it was dropped in. *)
Record iteration_inputs := mkInputs {
  t_begin : Z;
  t_end : Z;
  t_draw : Q;
  t_unix : Z;
  t_env : Wire.env;
  t_faults : Fs.faults;
  t_cuts : Fs.cuts;
  t_db_fault : option MetaDbError;
  t_cut_off : option Wire.client
}.

Definition report (a : ShareArgs) (state : SyncLoop.LoopState) (ok_at : option Z) (err : option string) (d : DaemonState)
    : DaemonState :=
  DaemonState.update_share (a_name a)
    (build_live_snapshot (a_name a) (a_path a) (a_direction a) state ok_at err) d.

(** The cycle runs only when the loop admits it. *)
Definition run_cycle (a : ShareArgs) (x : iteration_inputs) (t : task)
    : option (result unit SyncLoop.LoopError) * SyncLoop.t * Wire.client :=
  let self := build_remote_sync_for_share (a_name a) (a_path a) (a_node_id a) (a_cache a)
                (load_baselines_for_share (t_db_fault x) (Wire.meta_db (client t)) (a_node_id a) (a_name a))
                (a_key a) (a_direction a) in
  if (SyncLoop.begin_sync (t_begin x) (loop_sm t)).1 then
    let '(executed, c) :=
      match t_cut_off x with
      | Some c => (None, c)
      | None => let '(r, c) := Wire.execute blake3 acl_details diffy_merge (t_faults x) (t_cuts x) (t_env x) self (client t) in
                (Some r, c)
      end in
    let '(outcome, sm) := SyncLoop.run_iteration (t_begin x) (t_end x) (t_draw x) executed (loop_sm t) in
    (outcome, sm, c)
  else
    let '(outcome, sm) := SyncLoop.run_iteration (t_begin x) (t_end x) (t_draw x) None (loop_sm t) in
    (outcome, sm, client t).

Definition iteration (a : ShareArgs) (x : iteration_inputs) (t : task) (d : DaemonState)
    : option (result unit SyncLoop.LoopError) * task * DaemonState :=
  let d := report a SyncLoop.Syncing (last_success_at t) None d in
  let '(outcome, sm, c) := run_cycle a x t in
  let ok_at := match outcome with Some (Ok _) => Some (t_unix x) | _ => last_success_at t end in
  (outcome, mkTask sm ok_at c,
   report a (SyncLoop.state sm) ok_at (error_text <$> SyncLoop.last_error sm) d).
End task.
End DaemonTask.

(** ** Properties *)
Section status.
Import DaemonTask Config.

Lemma snapshots_names cfg : names (build_share_snapshots cfg) = sh_name <$> cfg_shares cfg.
Proof. unfold names, build_share_snapshots. rewrite <-list_fmap_compose. done. Qed.

Lemma snapshots_nodup cfg : well_formed cfg → NoDup (names (build_share_snapshots cfg)).
Proof. rewrite snapshots_names. by intros (_&_&?&_). Qed.

(** What the rest of the daemon does to the shares it shows. *)
Inductive status_op :=
  | Reloaded (cfg : DiskConfig)
  | Reported (a : ShareArgs) (state : SyncLoop.LoopState) (ok_at : option Z) (err : option string).

Definition status_run (old : DiskConfig) (d : DaemonState) (o : status_op) : DaemonState :=
  match o with
  | Reloaded cfg => reconcile_turn cfg old d
  | Reported a s t e => report a s t e d
  end.

Definition share_op_of (o : status_op) : share_op :=
  match o with
  | Reloaded cfg => Reload (build_share_snapshots cfg)
  | Reported a s t e => Report (a_name a) (build_live_snapshot (a_name a) (a_path a) (a_direction a) s t e)
  end.

Lemma status_run_op old d o : status_run old d o = run_op d (share_op_of o).
Proof. by destruct o. Qed.

Lemma status_run_ops old d ops : foldl (status_run old) d ops = foldl run_op d (share_op_of <$> ops).
Proof. revert d. induction ops as [|o ops IH]; intros d; simpl; [done|]. by rewrite IH, status_run_op. Qed.

Definition live_map_of (d : DaemonState) : gmap string ShareSnapshot.t := DaemonState.live_map (shares d).
End status.

Section key.
Import DaemonTask.
Context (f : Fs.faults) (cut : Fs.cuts) (register_node authenticate : nat → option string).

(** A key file that a fresh client accepts. *)
Lemma load_key_file path key fs n m c :
  (∀ k, f k = None) → Fs.files fs !! Path.components path = Some (Publisher.str_bytes key) →
  str_utf8 key = true → trim key = key → key ≠ "" → api_key c = None →
  ∃ fs', load_key f path c (mkHost fs n m) = (mkClient (Some key) (session c), mkHost fs' n m)
    ∧ Fs.files fs' = Fs.files fs.
Proof.
  intros Hf Hfile Hu Ht Hne Hc. unfold load_key. rewrite Hc. unfold Fs.read, st_bind, Fs.syscall. simpl. rewrite Hf. simpl.
  rewrite Hfile. simpl. unfold Publisher.str_bytes.
  assert (bytes_utf8 (String.list_byte_of_string key) = true) as ->.
  { rewrite <-Hu. unfold bytes_utf8, str_utf8, explode, String.list_byte_of_string. f_equal.
    change (@List.map ascii byte) with (@fmap list list_fmap ascii byte). rewrite <-list_fmap_compose.
    apply list_fmap_ext. intros i c0 _. unfold compose, byteZ, ascii_code. f_equal.
    apply Byte.to_of_N. by rewrite <-byte_of_ascii_via_N. }
  rewrite String.string_of_list_byte_of_string, Ht, decide_False by done. eexists. split; [done|]. done.
Qed.
End key.

Module DaemonTaskTheorems.
Import DaemonTask.

(** What [GET /status] shows. From a configuration the validator accepted,
    through any reloads of accepted configurations and any reports of the share
    tasks, in any order, the shares are those of the map in which a reload keeps
    the progress of the shares that stay and a report moves only its own. *)
Theorem status_refines old cfg ops d :
  well_formed cfg → Forall (λ o, match o with Reloaded c => well_formed c | _ => True end) ops →
  live_map_of (foldl (status_run old) (DaemonState.set_shares (build_share_snapshots cfg) d) ops)
  = foldl spec_op (DaemonState.live_map (build_share_snapshots cfg)) (share_op_of <$> ops).
Proof.
  intros Hc Hops. unfold live_map_of. rewrite status_run_ops. apply shares_run; [by apply snapshots_nodup|].
  apply Forall_fmap. eapply Forall_impl; [exact Hops|]. intros [c|]; simpl; [|done]. apply snapshots_nodup.
Qed.

Definition demo_args : ShareArgs := mkArgs "wiki" "/srv/wiki" Wire.Bidirectional "laptop" "/cache" None.

Lemma status_refines_witness :
  ShareSnapshot.state <$> (live_map_of (foldl (status_run ConfigTheorems.demo_config)
     (DaemonState.set_shares (build_share_snapshots ConfigTheorems.demo_config) (DaemonState.new "laptop" "1"))
     [Reported demo_args SyncLoop.ErrorS None (Some "x"); Reloaded ConfigTheorems.demo_config]) !! "wiki")
  = Some SyncLoop.ErrorS.
Proof.
  assert (well_formed ConfigTheorems.demo_config) as Hw by (apply validate_ok; vm_compute; reflexivity).
  rewrite (status_refines _ _ _ _ Hw); [vm_compute; reflexivity|].
  apply Forall_cons. split; [exact I|]. apply Forall_cons. split; [exact Hw|constructor].
Defined.

(** One iteration of a share's task. The status then shows the state and the
    error of the loop, and as the time of the last success now, when the cycle
    succeeded, or else the one before; no other share's entry changes. A refused
    trigger runs no cycle. *)
Theorem iteration_reports {codec : VcCodec} {cipher : E2ee.Cipher} blake3 acl diffy text a x t d :
  NoDup (names (shares d)) → is_Some (live_map_of d !! a_name a) →
  let '(outcome, t', d') := iteration blake3 acl diffy text a x t d in
  (∃ s, live_map_of d' !! a_name a = Some s
     ∧ ShareSnapshot.state s = SyncLoop.state (loop_sm t')
     ∧ ShareSnapshot.last_error s = text <$> SyncLoop.last_error (loop_sm t')
     ∧ ShareSnapshot.last_success_at s = last_success_at t'
     ∧ (outcome = Some (Ok tt) → ShareSnapshot.state s = SyncLoop.Idle ∧ ShareSnapshot.last_error s = None
          ∧ last_success_at t' = Some (t_unix x))
     ∧ (outcome ≠ Some (Ok tt) → last_success_at t' = last_success_at t)
     ∧ (outcome = None → client t' = client t))
  ∧ ∀ n, n ≠ a_name a → live_map_of d' !! n = live_map_of d !! n.
Proof.
  intros Hd [s0 Hs0]. unfold iteration. destruct (run_cycle blake3 acl diffy a x t) as [[outcome sm] c] eqn:Hrun.
  assert ((outcome = Some (Ok tt) → SyncLoop.state sm = SyncLoop.Idle ∧ SyncLoop.last_error sm = None)
          ∧ (outcome = None → c = client t)) as [Hok Hnone].
  { revert Hrun. unfold run_cycle, SyncLoop.run_iteration.
    destruct (SyncLoop.begin_sync _ _) as [[] sm0]; cbn [fst]; [|by intros [= <- <- <-]].
    destruct (t_cut_off x); [by intros [= <- <- <-]|].
    destruct (Wire.execute _ _ _ _ _ _ _ _) as [r w]. intros [= <- <- <-]. split; [|done]. by intros [= ->]. }
  set (o1 := Reported a SyncLoop.Syncing (last_success_at t) None).
  set (ok_at := match outcome with Some (Ok _) => Some (t_unix x) | _ => last_success_at t end).
  set (o2 := Reported a (SyncLoop.state sm) ok_at (text <$> SyncLoop.last_error sm)).
  assert (live_map_of (foldl (status_run ConfigTheorems.demo_config) d [o1; o2])
          = foldl spec_op (live_map_of d) (share_op_of <$> [o1; o2])) as E.
  { unfold live_map_of. rewrite status_run_ops. apply shares_run; [done|]. by repeat constructor. }
  simpl in E. split.
  - eexists. split; [etrans; [exact (f_equal (lookup (a_name a)) E)|]; by rewrite !lookup_alter_eq, Hs0|]. simpl.
    split_and!; [done..| | |done].
    + intros Ho. destruct (Hok Ho) as [-> ->]. unfold ok_at. by rewrite Ho.
    + intros Ho. unfold ok_at. by destruct outcome as [[[]|]|].
  - intros n Hn. etrans; [exact (f_equal (lookup n) E)|]. by rewrite !lookup_alter_ne.
Qed.

Definition demo_inputs : iteration_inputs :=
  mkInputs 0 1 0%Q 77 WireTheorems.demo_env (λ _, None) (λ _, 0%nat) None None.

Lemma iteration_reports_witness :
  ∃ t' d', iteration (codec:=BinaryCodec.codec) (cipher:=E2eeProps.toy) WireTheorems.demo_blake3 (λ _, false) (λ _ _ _, Err [])
      (λ _, "error") demo_args demo_inputs (mkTask SyncLoop.new None WireTheorems.demo_disk)
      (DaemonState.set_shares (build_share_snapshots ConfigTheorems.demo_config) (DaemonState.new "laptop" "1"))
    = (Some (Ok tt), t', d')
    ∧ ∃ s, live_map_of d' !! "wiki" = Some s ∧ ShareSnapshot.last_success_at s = Some 77.
Proof.
  eexists _, _. split; [vm_compute; reflexivity|].
  pose proof (iteration_reports (codec:=BinaryCodec.codec) (cipher:=E2eeProps.toy) WireTheorems.demo_blake3 (λ _, false) (λ _ _ _, Err [])
      (λ _, "error") demo_args demo_inputs (mkTask SyncLoop.new None WireTheorems.demo_disk)
      (DaemonState.set_shares (build_share_snapshots ConfigTheorems.demo_config) (DaemonState.new "laptop" "1"))) as H.
  vm_compute (iteration _ _ _ _ _ _ _ _) in H. destruct H as [(s&Hs&_&_&Hl&Hok&_) _].
  - apply snapshots_nodup, validate_ok. vm_compute. reflexivity.
  - vm_compute. by eexists.
  - exists s. split; [exact Hs|]. rewrite Hl. by apply Hok.
Defined.

(** A vault configured for encryption whose key cannot be loaded is synced in the
    clear: what an upload hands to the server is the file itself. *)
Theorem plaintext_fallback {codec : VcCodec} {cipher : E2ee.Cipher} blake3 f e cfg resolved name path node cache bl dir m c b :
  Config.e2ee_enabled cfg = true → (∀ k, resolved ≠ Ok (Some k)) →
  let self := build_remote_sync_for_share name path node cache bl (task_e2ee_key cfg resolved) dir in
  Filter.is_sync_ephemeral_marker (Proto.FileMetadata.path m) = false →
  (Fs.read f (Path.join path (Proto.FileMetadata.path m)) (Wire.fs c)).1 = Ok b →
  ∃ payload, Wire.sent (Wire.upload_one blake3 f e self m c) = Wire.sent c ++ [(Proto.FileMetadata.path m, payload)]
    ∧ E2ee.wire_bytes payload = b ∧ E2ee.encryption_nonce payload = [].
Proof.
  intros He Hk self Hm Hr. assert (Wire.e2ee_key self = None) as Hkey.
  { simpl. unfold task_e2ee_key. rewrite He. destruct resolved as [[k|]|]; [by destruct (Hk k)|done..]. }
  exists (E2ee.from_plaintext blake3 b). split; [|done]. unfold Wire.upload_one. rewrite Hm, Hkey. cbn [Wire.scan_root self].
  unfold Wire.io. destruct (Fs.read _ _ _) as [r fs]. simpl in Hr. subst r. simpl.
  by destruct (Wire.upload _ _ _ _).
Qed.
End DaemonTaskTheorems.
