(* ===== verification/Embeddings.v ===== *)
(** * Embedding sidecars ([disk-core/src/embeddings/])

    The manifest of a source file and its vector blob below the co-storage root
    ([manifest.rs], on the paths of [paths.rs]), writing both ([write.rs]), the
    sweep of a share ([scan.rs]) and what the daemon reports of it
    ([embeddings_sweep.rs] of [disk-client]). The JSON text of a manifest is a class
    with its law. *)

From stdpp Require Import prelude gmap strings pretty.
From Stdlib Require Import ZArith Lia Strings.Byte Strings.Ascii.
From S2P Require Import Prelude Text PathFacts Fs BlobStore Guard Scanner Daemon Config.

#[local] Open Scope Z_scope.

Module SidecarManifest.
Record t := mk {
  schema_version : Z;
  source_path : string;
  source_content_hash : string;
  model_id : string;
  dimensions : Z;
  vector_bytes : Z;
  created_at_unix : option Z
}.
End SidecarManifest.

Class ManifestJson := {
  manifest_to_json : SidecarManifest.t → bytes;
  manifest_from_json : bytes → option SidecarManifest.t;
  manifest_roundtrip : ∀ m, manifest_from_json (manifest_to_json m) = Some m
}.

Module Embeddings.
Import Path EmbeddingPaths SidecarManifest.

Definition EMBEDDINGS_SCHEMA_VERSION : Z := 1.
Definition DEFAULT_EMBEDDABLE_EXTENSIONS : list string := ["md"; "markdown"; "txt"].

Inductive Staleness :=
  | Fresh | MissingManifest | MissingVector | StaleHash | StaleModel | StaleDimensions | StaleVectorSize.
#[export] Instance staleness_eq_dec : EqDecision Staleness.
Proof. solve_decision. Defined.

Definition is_fresh (s : Staleness) : bool := bool_decide (s = Fresh).

Inductive WriteSidecarError :=
  | InvalidPath (why : string)
  | CoStorageSource
  | SourceNotFound
  | VectorSizeMismatch (actual expected dimensions : Z)
  | PathGuardE (e : PathGuard.PathGuardError)
  | Io (e : Fs.io_error).

Record WriteSidecarResult := mkResult {
  r_source_path : string;
  r_source_content_hash : string;
  r_manifest_rel : string;
  r_vector_rel : string;
  r_vector_bytes : Z
}.

Definition normalize_source_rel (raw : string) : result string WriteSidecarError :=
  let trimmed := replace_char "\"%char "/"%char (trim raw) in
  if decide (trimmed = "") then Err (InvalidPath "must be non-empty without '..'")
  else if contains trimmed ".." then Err (InvalidPath "must be non-empty without '..'")
  else
    let normalized := trim_matches "/"%char trimmed in
    if decide (normalized = "") then Err (InvalidPath "must be non-empty") else Ok normalized.

Section io.
Context {json : ManifestJson} (blake3 : bytes → bytes) (f : Fs.faults) (cut : Fs.cuts).

Definition create_parent (p : string) : Fs.io unit :=
  match parent p with Some d => Fs.create_dir_all f d | None => st_ret tt end.

Definition write_to_share (m : SidecarManifest.t) (share_root source_rel : string) : Fs.io unit :=
  let abs := join share_root (manifest_rel_path source_rel) in
  _ <~ create_parent abs ;;
  Fs.write f cut abs (manifest_to_json m).

(** A text that is not UTF-8 or does not parse is an error. *)
Definition read_from_share (share_root source_rel : string) : Fs.io (option SidecarManifest.t) :=
  let abs := join share_root (manifest_rel_path source_rel) in
  there <~ Fs.is_file f abs ;;
  if (there : bool) then
    raw <~ Fs.read f abs ;;
    match manifest_from_json raw with
    | Some m => st_ret (Some m)
    | None => st_err (Fs.IoError Fs.OtherKind "invalid manifest")
    end
  else st_ret None.

(** [fs::metadata(..).map(len).unwrap_or(0)]. *)
Definition length_at (p : string) (fs : Fs.t) : Z :=
  match Fs.files fs !! components p with Some b => Z.of_nat (length b) | None => 0 end.
Definition file_len (p : string) : Fs.io Z := λ fs,
  let '(r, fs) := Fs.syscall f fs in (Ok (match r with Ok _ => length_at p fs | Err _ => 0 end), fs).

(** The checks of a manifest that could be read. *)
Definition judge (share_root source_rel current_hash_hex expected_model_id : string) (expected_dimensions : Z)
    (m : SidecarManifest.t) : Fs.io Staleness :=
  let vector_abs := join share_root (vector_blob_rel_path source_rel) in
  there <~ Fs.is_file f vector_abs ;;
  if negb there then st_ret MissingVector
  else if negb (bool_decide (source_content_hash m = current_hash_hex)) then st_ret StaleHash
  else if negb (bool_decide (model_id m = expected_model_id)) then st_ret StaleModel
  else if negb (bool_decide (dimensions m = expected_dimensions)) then st_ret StaleDimensions
  else
    actual <~ file_len vector_abs ;;
    if negb (bool_decide (actual = vector_bytes m)) then st_ret StaleVectorSize else st_ret Fresh.

Definition evaluate_staleness (share_root source_rel current_hash_hex expected_model_id : string) (expected_dimensions : Z)
    (fs : Fs.t) : Staleness * Fs.t :=
  let '(r, fs) := read_from_share share_root source_rel fs in
  match r with
  | Ok (Some m) =>
      let '(v, fs) := judge share_root source_rel current_hash_hex expected_model_id expected_dimensions m fs in
      (match v with Ok st => st | Err _ => MissingManifest end, fs)
  | _ => (MissingManifest, fs)
  end.

(** The digest of a file as it is read; a failure is [io::Error::other]. *)
Definition read_all (p : string) : Fs.io bytes := λ fs,
  let '(r, fs) := Fs.read f p fs in (map_err (λ e, Fs.IoError Fs.OtherKind (Fs.msg e)) r, fs).
Definition hash_hex (p : string) : Fs.io string :=
  b <~ read_all p ;; st_ret (Hex.encode (blake3 b)).

Definition lift {A} (m : Fs.io A) : stm Fs.t WriteSidecarError A := λ fs,
  let '(r, fs) := m fs in (map_err Io r, fs).

Definition write_sidecar (canonicalize : Fs.t → string → option string) (now : Z)
    (share_root source_rel : string) (vector_bytes : bytes) (model_id : string) (dimensions : Z)
    : stm Fs.t WriteSidecarError WriteSidecarResult :=
  source_path <~ st_lift (normalize_source_rel source_rel) ;;
  if is_co_storage_path source_path then st_err CoStorageSource
  else
    let expected := dimensions * 4 in
    if negb (bool_decide (Z.of_nat (length vector_bytes) = expected)) then st_err (VectorSizeMismatch (Z.of_nat (length vector_bytes)) expected dimensions)
    else
      source_abs <~ (λ fs, (match PathGuard.validate (canonicalize fs) source_path share_root with
                            | Some r => map_err PathGuardE r
                            | None => Err (PathGuardE PathGuard.OutsideRoot)
                            end, fs)) ;;
      there <~ lift (Fs.is_file f source_abs) ;;
      if negb there then st_err SourceNotFound
      else
        hash <~ lift (hash_hex source_abs) ;;
        let vector_rel := vector_blob_rel_path source_path in
        let vector_abs := join share_root vector_rel in
        _ <~ lift (create_parent vector_abs) ;;
        _ <~ lift (Fs.write f cut vector_abs vector_bytes) ;;
        _ <~ lift (write_to_share
                     (SidecarManifest.mk EMBEDDINGS_SCHEMA_VERSION source_path hash model_id dimensions expected (Some now))
                     share_root source_path) ;;
        st_ret (mkResult source_path hash (manifest_rel_path source_path) vector_rel expected).

(** ** The sweep *)
Record SourceSidecarStatus := mkStatus { s_path : string; s_hash : string; s_staleness : Staleness }.
Record ShareEmbeddingsReport := mkReport {
  share_name : string;
  enabled : bool;
  rep_model_id : string;
  rep_dimensions : Z;
  fresh : nat;
  stale : nat;
  missing : nat;
  co_storage_file_count : nat;
  sources : list SourceSidecarStatus
}.

(** What a walked entry is: a co-storage file, a source, or passed over. Errors
    of the walk are dropped. *)
Inductive Walked := Skip | CoStorage | Source (abs rel : string).

Definition embeddable (exts : list string) (rel : string) : bool :=
  match extension rel with
  | Some e => bool_decide (to_ascii_lowercase e ∈ ((λ s, to_ascii_lowercase (trim_start_matches "."%char s)) <$> exts))
  | None => false
  end.

Definition classify (share_root : string) (filter : Filter.t) (enabled : bool) (exts : list string)
    (r : result Scanner.entry string) : Walked :=
  match r with
  | Err _ => Skip
  | Ok e =>
      if negb (Scanner.is_file e) then Skip
      else match Scanner.strip_root share_root (Scanner.abs e) with
           | None => Skip
           | Some rel =>
               if decide (rel = "") then Skip
               else if Filter.is_excluded filter rel then Skip
               else if is_co_storage_path rel then CoStorage
               else if enabled && embeddable exts rel then Source (Scanner.abs e) rel
               else Skip
           end
  end.

(** The statuses of the sources, in the order of the walk. *)
Fixpoint sweep (share_root model_id : string) (dimensions : Z) (l : list Walked) : Fs.io (list SourceSidecarStatus) :=
  match l with
  | [] => st_ret []
  | Source abs rel :: l =>
      hash <~ hash_hex abs ;;
      st <~ (λ fs, let '(st, fs) := evaluate_staleness share_root rel hash model_id dimensions fs in (Ok st, fs)) ;;
      rest <~ sweep share_root model_id dimensions l ;;
      st_ret (mkStatus rel hash st :: rest)
  | _ :: l => sweep share_root model_id dimensions l
  end.

Definition is_missing (s : Staleness) : bool :=
  match s with MissingManifest | MissingVector => true | _ => false end.
Definition is_stale (s : Staleness) : bool := negb (is_fresh s) && negb (is_missing s).

Definition count (p : Staleness → bool) (l : list SourceSidecarStatus) : nat :=
  length (List.filter (λ s, p (s_staleness s)) l).

Definition is_co (w : Walked) : bool := match w with CoStorage => true | _ => false end.

Definition scan_share_embeddings (share_name share_root : string) (filter : Filter.t) (enabled : bool) (model_id : string)
    (dimensions : Z) (exts : list string) (walker : list (result Scanner.entry string)) : Fs.io ShareEmbeddingsReport :=
  let ws := classify share_root filter enabled exts <$> walker in
  srcs <~ sweep share_root model_id dimensions ws ;;
  st_ret (mkReport share_name enabled model_id dimensions (count is_fresh srcs) (count is_stale srcs)
            (count is_missing srcs) (length (List.filter is_co ws)) srcs).

(** ** What the daemon does with it ([embeddings_sweep.rs]) *)
Definition sweep_share {glob} (glob_new : string → result glob string) (glob_build : list glob → result (string → bool) string)
    (share : Config.ShareSection) (embeddings : Config.EmbeddingsSection) (walker : list (result Scanner.entry string))
    : Fs.io ShareEmbeddingsReport :=
  match ShareFilter.share_filter glob_new glob_build share with
  | Err (Filter.InvalidGlob p why) => st_err (Fs.IoError Fs.OtherKind why)
  | Ok filter =>
      scan_share_embeddings (Config.sh_name share) (Config.sh_path share) filter (Config.em_enabled embeddings)
        (Config.em_model_id embeddings) (Config.em_dimensions embeddings) DEFAULT_EMBEDDABLE_EXTENSIONS walker
  end.

Definition snapshot_of (now : Z) (r : ShareEmbeddingsReport) : EmbeddingsStatusSnapshot.t :=
  EmbeddingsStatusSnapshot.mk (share_name r) (enabled r) (Z.of_nat (fresh r)) (Z.of_nat (stale r)) (Z.of_nat (missing r))
    (Z.of_nat (co_storage_file_count r)) now.

Definition label (s : Staleness) : string :=
  match s with
  | Fresh => "fresh"
  | MissingManifest => "missing_manifest"
  | MissingVector => "missing_vector"
  | StaleHash => "stale_hash"
  | StaleModel => "stale_model"
  | StaleDimensions => "stale_dimensions"
  | StaleVectorSize => "stale_vector_size"
  end.

(** The paths and labels of the body that [report_stale_to_server] posts, when
    it posts one. *)
Definition stale_paths (r : ShareEmbeddingsReport) : option (list (string * string)) :=
  if negb (enabled r) || (bool_decide (stale r = 0%nat) && bool_decide (missing r = 0%nat)) then None
  else Some ((λ s, (Lossy.to_string_lossy (s_path s), label (s_staleness s)))
               <$> List.filter (λ s, negb (is_fresh (s_staleness s))) (sources r)).
End io.
End Embeddings.

(** ** Properties *)
Section lemmas.
Import Path EmbeddingPaths Embeddings.

Lemma trim_matches_relative s : is_absolute (trim_matches "/"%char s) = false.
Proof.
  unfold is_absolute. apply not_true_is_false. intros [r Hr]%has_root_cons.
  unfold trim_matches, trim_matches_chars in Hr. apply (f_equal explode) in Hr. rewrite explode_implode in Hr.
  set (l := drop_while_char "/"%char (explode s)) in *.
  destruct (drop_while_char_suffix "/"%char (reverse l)) as [n Hn]. apply (f_equal reverse) in Hn.
  rewrite reverse_involutive, reverse_app, Hr, explode_app in Hn. simpl in Hn.
  by destruct (drop_while_char_head "/"%char (explode s) _ _ Hn).
Qed.

Lemma normalize_relative raw p : normalize_source_rel raw = Ok p → is_absolute p = false ∧ p ≠ "".
Proof.
  unfold normalize_source_rel. case_decide; [done|]. destruct (contains _ _); [done|].
  case_decide; [done|]. intros [= <-]. split; [apply trim_matches_relative|done].
Qed.

(** The two artefacts of a source are different files. *)
Lemma sidecars_differ root p name :
  is_absolute root = true → is_absolute p = false → file_name p = Some name →
  components (join root (manifest_rel_path p)) ≠ components (join root (vector_blob_rel_path p)).
Proof.
  intros Hr Hp Hn. assert (root ≠ "") by (by intros ->).
  assert (∀ suffix, plain_name suffix → components (join root (sidecar suffix p))
    = components root ++ Normal CO_STORAGE_ROOT :: removelast (omap component_of (segments p)) ++ [Normal (name +:+ suffix)]) as Hc.
  { intros suffix Hs. pose proof (sidecar_components suffix p name Hs Hp Hn) as E.
    assert (is_absolute (sidecar suffix p) = false) as Ha.
    { apply not_true_is_false. intros Hx. unfold is_absolute in Hx. by rewrite components_abs in E. }
    rewrite components_join by done. f_equal. rewrite components_rel in E by done.
    destruct (segments (sidecar suffix p)) as [|s l]; [done|]. unfold lead in E. by repeat case_match; simplify_eq/=. }
  assert (plain_name MANIFEST_SUFFIX ∧ plain_name VECTOR_SUFFIX) as [H1 H2]
    by (split; repeat split; try discriminate; unfold sep_free; apply (bool_decide_unpack _); vm_compute; exact I).
  unfold manifest_rel_path, vector_blob_rel_path. rewrite !Hc by done. intros E%app_inv_head%(f_equal last).
  rewrite !app_comm_cons, !last_snoc in E. injection E as E.
  apply (f_equal explode) in E. rewrite !explode_app in E. by apply app_inv_head in E.
Qed.
End lemmas.

Section writing.
Import Path EmbeddingPaths Embeddings.
Context {json : ManifestJson} (blake3 : bytes → bytes) (f : Fs.faults) (cut : Fs.cuts).

Lemma lift_ok {A} (m : Fs.io A) fs a fs' : lift m fs = (Ok a, fs') → m fs = (Ok a, fs').
Proof. unfold lift. destruct (m fs) as [[x|e] fs1]; simpl; [by intros [= <- <-]|done]. Qed.

Lemma create_parent_files p fs r fs' : create_parent f p fs = (r, fs') → Fs.files fs' = Fs.files fs.
Proof.
  unfold create_parent. destruct (parent p) as [d|]; [apply Fs.create_dir_all_files|by intros [= _ <-]].
Qed.

Lemma fs_write_ok p d fs u fs' :
  Fs.write f cut p d fs = (Ok u, fs') →
  Fs.files fs' !! components p = Some d ∧ ∀ k, k ≠ components p → Fs.files fs' !! k = Fs.files fs !! k.
Proof.
  intros H. split; [|intros k Hk; eapply Fs.frame_write; [exact H|done]].
  unfold Fs.write in H. apply st_bind_ok in H as (u1&fs1&H1&H2). apply Fs.create_ok in H1.
  apply Fs.write_all_ok in H2. by rewrite H2, H1.
Qed.

Lemma write_to_share_ok m root p fs u fs' :
  write_to_share f cut m root p fs = (Ok u, fs') →
  Fs.files fs' !! components (join root (manifest_rel_path p)) = Some (manifest_to_json m)
  ∧ ∀ k, k ≠ components (join root (manifest_rel_path p)) → Fs.files fs' !! k = Fs.files fs !! k.
Proof.
  unfold write_to_share. intros (u1&fs1&H1%create_parent_files&H2%fs_write_ok)%st_bind_ok. by rewrite H1 in H2.
Qed.

Lemma read_ok p fs b fs' : read_all f p fs = (Ok b, fs') → Fs.files fs' = Fs.files fs ∧ Fs.files fs !! components p = Some b.
Proof.
  unfold read_all, Fs.read, st_bind, Fs.syscall. destruct (f _); [done|]. simpl.
  destruct (Fs.files fs !! components p) eqn:E; simpl; [|done]. by intros [= <- <-].
Qed.

(** What a sidecar that was written consists of. *)
Lemma write_sidecar_ok canon now root raw v model dims fs res fs' :
  write_sidecar blake3 f cut canon now root raw v model dims fs = (Ok res, fs') →
  ∃ p src b mid, normalize_source_rel raw = Ok p ∧ PathGuard.validate (canon fs) p root = Some (Ok src)
    ∧ Fs.files fs !! components src = Some b ∧ Z.of_nat (length v) = dims * 4
    ∧ res = mkResult p (Hex.encode (blake3 b)) (manifest_rel_path p) (vector_blob_rel_path p) (dims * 4)
    ∧ Fs.files mid !! components (join root (vector_blob_rel_path p)) = Some v
    ∧ (∀ k, k ≠ components (join root (vector_blob_rel_path p)) → Fs.files mid !! k = Fs.files fs !! k)
    ∧ Fs.files fs' !! components (join root (manifest_rel_path p))
      = Some (manifest_to_json (SidecarManifest.mk 1 p (Hex.encode (blake3 b)) model dims (dims * 4) (Some now)))
    ∧ ∀ k, k ≠ components (join root (manifest_rel_path p)) → Fs.files fs' !! k = Fs.files mid !! k.
Proof.
  unfold write_sidecar. intros (p&s0&[Hp ->]%st_lift_ok&H)%st_bind_ok.
  destruct (is_co_storage_path p); [done|]. case_bool_decide as Hl; [|done]. cbn [negb] in H.
  apply st_bind_ok in H as (src&s1&[= Hv <-]&H).
  destruct (PathGuard.validate (canon fs) p root) as [[t|]|] eqn:Hval; [|done..]. injection Hv as <-.
  apply st_bind_ok in H as (th&s2&H2%lift_ok&H). apply Fs.stat_spec in H2 as (E2&_&_).
  destruct th; [|done]. cbn [negb] in H.
  apply st_bind_ok in H as (hash&s3&Hh%lift_ok&H). unfold hash_hex in Hh. apply st_bind_ok in Hh as (b&s4&Hr&[= <- <-]).
  apply read_ok in Hr as [E4 Hb]. rewrite E2 in E4, Hb.
  apply st_bind_ok in H as (u5&s5&E5%lift_ok%create_parent_files&H).
  apply st_bind_ok in H as (u6&s6&[Hv6 Ho6]%lift_ok%fs_write_ok&H).
  apply st_bind_ok in H as (u7&s7&[Hm Ho7]%lift_ok%write_to_share_ok&[= <- <-]).
  exists p, t, b, s6. split_and!; try done. intros k Hk. by rewrite Ho6, E5, E4.
Qed.

(** Without failures the manifest read is the one the files hold. *)
Lemma read_from_share_spec root p fs :
  (∀ n, f n = None) →
  ∃ fs', read_from_share f root p fs
    = (match Fs.files fs !! components (join root (manifest_rel_path p)) with
       | None => Ok None
       | Some raw => match manifest_from_json raw with
                     | Some m => Ok (Some m) | None => Err (Fs.IoError Fs.OtherKind "invalid manifest") end
       end, fs') ∧ Fs.files fs' = Fs.files fs.
Proof.
  intros Hf. unfold read_from_share, st_bind at 1, Fs.is_file, Fs.stat, Fs.regular. rewrite Hf.
  set (a := join _ _). clearbody a. case_bool_decide as Hk.
  - destruct Hk as [raw Hk]. rewrite Hk. eexists. unfold Fs.read, st_bind, Fs.syscall. rewrite Hf.
    cbn [Fs.files]. rewrite Hk. cbn. by destruct (manifest_from_json raw).
  - apply eq_None_not_Some in Hk. rewrite Hk. by eexists.
Qed.

(** The verdict without failures. *)
Definition verdict (root p h model : string) (dims : Z) (m : SidecarManifest.t) (fs : Fs.t) : Staleness :=
  let vector_abs := join root (vector_blob_rel_path p) in
  if negb (Fs.regular fs vector_abs) then MissingVector
  else if negb (bool_decide (SidecarManifest.source_content_hash m = h)) then StaleHash
  else if negb (bool_decide (SidecarManifest.model_id m = model)) then StaleModel
  else if negb (bool_decide (SidecarManifest.dimensions m = dims)) then StaleDimensions
  else if negb (bool_decide (length_at vector_abs fs = SidecarManifest.vector_bytes m)) then StaleVectorSize
  else Fresh.

Lemma judge_verdict root p h model dims m fs :
  (∀ n, f n = None) →
  ∃ fs', judge f root p h model dims m fs = (Ok (verdict root p h model dims m fs), fs') ∧ Fs.files fs' = Fs.files fs.
Proof.
  intros Hf. unfold judge, verdict, st_bind, Fs.is_file, Fs.stat, file_len, Fs.syscall. rewrite Hf.
  set (a := join _ _). clearbody a. destruct (Fs.regular fs a); cbn [negb]; [|by eexists].
  repeat (case_bool_decide; cbn [negb]; [|by eexists]). cbn [Fs.calls]. rewrite Hf.
  change (length_at a (Fs.mk _ _ _)) with (length_at a fs). case_bool_decide; by eexists.
Qed.

Lemma judge_files root p h model dims m fs : Fs.files (judge f root p h model dims m fs).2 = Fs.files fs.
Proof.
  unfold judge, st_bind. destruct (Fs.is_file f _ fs) as [r1 fs1] eqn:E1.
  apply Fs.stat_spec in E1 as (E1&_&b&->&_). rewrite <-E1. destruct b; cbn [negb]; [|done].
  repeat (case_bool_decide; cbn [negb]; [|done]). unfold file_len, Fs.syscall. by case_bool_decide.
Qed.

Lemma verdict_ext root p h model dims m fs1 fs2 :
  Fs.files fs1 = Fs.files fs2 → verdict root p h model dims m fs1 = verdict root p h model dims m fs2.
Proof. intros E. unfold verdict, Fs.regular, length_at. by rewrite E. Qed.

(** Without failures the status depends on the files alone. *)
Lemma evaluate_ext root p h model dims fs1 fs2 :
  (∀ n, f n = None) → Fs.files fs1 = Fs.files fs2 →
  (evaluate_staleness f root p h model dims fs1).1 = (evaluate_staleness f root p h model dims fs2).1.
Proof.
  intros Hf E. unfold evaluate_staleness.
  destruct (read_from_share_spec root p fs1 Hf) as (r1&->&E1), (read_from_share_spec root p fs2 Hf) as (r2&->&E2).
  rewrite E. destruct (Fs.files fs2 !! _) as [raw|]; [|done]. destruct (manifest_from_json raw); [|done].
  destruct (judge_verdict root p h model dims t r1 Hf) as (x1&->&_), (judge_verdict root p h model dims t r2 Hf) as (x2&->&_).
  cbn [fst]. apply verdict_ext. congruence.
Qed.

Lemma evaluate_fresh root p hash model dims m v fs :
  (∀ n, f n = None) →
  Fs.files fs !! components (join root (manifest_rel_path p)) = Some (manifest_to_json m) →
  Fs.files fs !! components (join root (vector_blob_rel_path p)) = Some v →
  SidecarManifest.source_content_hash m = hash → SidecarManifest.model_id m = model → SidecarManifest.dimensions m = dims →
  SidecarManifest.vector_bytes m = Z.of_nat (length v) →
  (evaluate_staleness f root p hash model dims fs).1 = Fresh.
Proof.
  intros Hf Hm Hv E1 E2 E3 E4. unfold evaluate_staleness.
  destruct (read_from_share_spec root p fs Hf) as (fs'&->&E). rewrite Hm, manifest_roundtrip.
  destruct (judge_verdict root p hash model dims m fs' Hf) as (x&->&_). cbn [fst].
  rewrite (verdict_ext _ _ _ _ _ _ _ fs) by done. unfold verdict, Fs.regular, length_at. rewrite Hv.
  by rewrite !bool_decide_true by done.
Qed.

(** ** The sweep *)
Definition sources_of (l : list Walked) : list (string * string) :=
  omap (λ w, match w with Source a r => Some (a, r) | _ => None end) l.

Lemma count_partition l : (count is_fresh l + count is_stale l + count is_missing l)%nat = length l.
Proof.
  unfold count. induction l as [|[p h st] l IH]; [done|]. simpl. rewrite <- IH.
  unfold is_stale, is_fresh. destruct st; simpl; lia.
Qed.

(** A report is sent for every source that is not fresh. *)
Lemma stale_paths_length name en model dims co l ps :
  stale_paths (mkReport name en model dims (count is_fresh l) (count is_stale l) (count is_missing l) co l) = Some ps →
  length ps = (count is_stale l + count is_missing l)%nat.
Proof.
  unfold stale_paths. simpl. destruct (negb en || _); [done|]. intros [= <-]. rewrite length_fmap.
  pose proof (count_partition l). unfold count in *.
  pose proof (filter_length (λ s, is_fresh (s_staleness s)) l). lia.
Qed.

Lemma sources_of_disabled root flt exts walker : sources_of (classify root flt false exts <$> walker) = [].
Proof.
  induction walker as [|r l IH]; [done|]. rewrite fmap_cons.
  assert (classify root flt false exts r = Skip ∨ classify root flt false exts r = CoStorage) as [E|E]
    by (unfold classify; repeat case_match; naive_solver).
  all: by rewrite E.
Qed.

Lemma read_from_share_files root p fs : Fs.files (read_from_share f root p fs).2 = Fs.files fs.
Proof.
  unfold read_from_share, st_bind. set (a := join _ _). clearbody a.
  destruct (Fs.is_file f a fs) as [r1 fs1] eqn:E1. apply Fs.stat_spec in E1 as (E1&_&b&->&_). rewrite <-E1.
  destruct b; [|done]. unfold Fs.read, st_bind, Fs.syscall. destruct (f _); [done|]. cbn.
  destruct (Fs.files fs1 !! _); [|done]. cbn. by destruct (manifest_from_json _).
Qed.

Lemma evaluate_files root p h model dims fs : Fs.files (evaluate_staleness f root p h model dims fs).2 = Fs.files fs.
Proof.
  unfold evaluate_staleness. pose proof (read_from_share_files root p fs) as H.
  destruct (read_from_share f root p fs) as [[[m|]|e] fs1]; [|done..]. cbn in H. rewrite <-H.
  pose proof (judge_files root p h model dims m fs1) as Hj. by destruct (judge f _ _ _ _ _ _ _).
Qed.

Lemma walk_sweep_ok root model dims l fs srcs fs' :
  sweep blake3 f root model dims l fs = (Ok srcs, fs') →
  Fs.files fs' = Fs.files fs ∧ (s_path <$> srcs) = snd <$> sources_of l
  ∧ ((∀ n, f n = None) →
     Forall2 (λ src st, ∃ b, Fs.files fs !! components src.1 = Some b ∧ s_hash st = Hex.encode (blake3 b)
                ∧ s_staleness st = (evaluate_staleness f root src.2 (s_hash st) model dims fs).1) (sources_of l) srcs).
Proof.
  revert fs srcs. induction l as [|[| |a r] l IH]; intros fs srcs H; cbn [sweep] in H.
  - injection H as <- <-. split_and!; [done..|constructor].
  - by apply IH.
  - by apply IH.
  - apply st_bind_ok in H as (h&fs1&Hh&H). unfold hash_hex in Hh.
    apply st_bind_ok in Hh as (b&fs0&[E0 Hb]%read_ok&[= <- <-]).
    apply st_bind_ok in H as (st&fs2&Hst&H). pose proof (evaluate_files root r (Hex.encode (blake3 b)) model dims fs0) as E2.
    destruct (evaluate_staleness f root r _ model dims fs0) as [st0 fs2'] eqn:Hev. injection Hst as <- <-.
    apply st_bind_ok in H as (rest&fs3&H&[= <- <-]). simpl in E2. destruct (IH _ _ H) as (E3&Hp&Hs).
    split_and!; [congruence|by rewrite fmap_cons, Hp|]. intros Hf. constructor.
    + exists b. split_and!; [done..|]. simpl. rewrite (evaluate_ext _ _ _ _ _ fs fs0) by done. by rewrite Hev.
    + eapply Forall2_impl; [exact (Hs Hf)|]. intros src st (b'&Hb'&Eh&Es). exists b'.
      split_and!; [congruence|done|]. rewrite Es. apply evaluate_ext; [done|congruence].
Qed.
End writing.

Module EmbeddingsTheorems.
Import Path EmbeddingPaths Embeddings.

(** A sidecar that was written is fresh. When writing one succeeds, whatever
    failed and was retried around it, the digest it names is that of the source
    inside the share, the sweep finds it fresh for that digest, model and size,
    and no file but the manifest and the vector changed. *)
Theorem sidecar_fresh {json : ManifestJson} blake3 f cut canon now root raw v model dims fs res fs' name :
  is_absolute root = true →
  write_sidecar blake3 f cut canon now root raw v model dims fs = (Ok res, fs') →
  file_name (r_source_path res) = Some name →
  (∃ src b, PathGuard.validate (canon fs) (r_source_path res) root = Some (Ok src)
     ∧ Fs.files fs !! components src = Some b ∧ r_source_content_hash res = Hex.encode (blake3 b))
  ∧ (∀ f', (∀ n, f' n = None) →
       (evaluate_staleness f' root (r_source_path res) (r_source_content_hash res) model dims fs').1 = Fresh)
  ∧ ∀ k, k ≠ components (join root (r_manifest_rel res)) → k ≠ components (join root (r_vector_rel res)) →
      Fs.files fs' !! k = Fs.files fs !! k.
Proof.
  intros Hroot (p&src&b&mid&Hp&Hval&Hb&Hl&->&Hv&Ho&Hm&Hom)%write_sidecar_ok. simpl. intros Hn.
  apply normalize_relative in Hp as [Hrel _]. split_and!.
  - by exists src, b.
  - intros f' Hf'. eapply evaluate_fresh; [done|exact Hm| |done..|by simpl].
    rewrite Hom; [exact Hv|]. intros E. by eapply sidecars_differ.
  - intros k Hk1 Hk2. by rewrite Hom, Ho.
Qed.

(** The sweep's numbers. The sweep changes no file; every source of the
    walk gets one status, in order, and fresh, stale and missing add up to them;
    a disabled sweep has none; and when no call fails, each status is the one
    the staleness rules give for the bytes the source has. *)
Theorem sweep_counts {json : ManifestJson} blake3 f name root flt en model dims exts walker fs rep fs' :
  scan_share_embeddings blake3 f name root flt en model dims exts walker fs = (Ok rep, fs') →
  (fresh rep + stale rep + missing rep)%nat = length (sources rep)
  ∧ Fs.files fs' = Fs.files fs
  ∧ (s_path <$> sources rep) = snd <$> sources_of (classify root flt en exts <$> walker)
  ∧ (en = false → sources rep = [])
  ∧ ((∀ n, f n = None) →
     Forall2 (λ src st, ∃ b, Fs.files fs !! components src.1 = Some b ∧ s_hash st = Hex.encode (blake3 b)
                ∧ s_staleness st = (evaluate_staleness f root src.2 (s_hash st) model dims fs).1)
       (sources_of (classify root flt en exts <$> walker)) (sources rep)).
Proof.
  unfold scan_share_embeddings. intros (srcs&fs1&H&[= <- <-])%st_bind_ok. simpl.
  pose proof (walk_sweep_ok _ _ _ _ _ _ _ _ _ H) as (E&Hp&Hs). split_and!; [apply count_partition|done|done| |done].
  intros ->. rewrite sources_of_disabled in Hp. by destruct srcs.
Qed.

(** A share with one note, its sidecar written and then swept; the text of a
    manifest is a bit string of its fields. *)
#[local] Open Scope positive_scope.
Fixpoint demo_bits (p : positive) : bytes :=
  match p with xH => [] | xO p => x30 :: demo_bits p | xI p => x31 :: demo_bits p end.
Fixpoint demo_unbits (b : bytes) : positive :=
  match b with [] => 1 | x :: b => if Byte.eqb x x30 then (demo_unbits b)~0 else (demo_unbits b)~1 end.
#[local] Open Scope Z_scope.

Lemma demo_unbits_bits p : demo_unbits (demo_bits p) = p.
Proof. induction p as [p IH|p IH|]; simpl; by rewrite ?IH. Qed.

Definition demo_fields (m : SidecarManifest.t) : Z * string * string * string * Z * Z * option Z :=
  (SidecarManifest.schema_version m, SidecarManifest.source_path m, SidecarManifest.source_content_hash m,
   SidecarManifest.model_id m, SidecarManifest.dimensions m, SidecarManifest.vector_bytes m,
   SidecarManifest.created_at_unix m).

#[local] Instance demo_json : ManifestJson.
Proof.
  refine {|
    manifest_to_json m := demo_bits (encode (demo_fields m));
    manifest_from_json b :=
      '(v, p, h, m, d, n, c) ← decode (demo_unbits b); Some (SidecarManifest.mk v p h m d n c)
  |}. intros m. rewrite demo_unbits_bits, decode_encode. by destruct m.
Defined.

Definition demo_hash (b : bytes) : bytes := take 2 (b ++ [x00; x00]).
Definition demo_canon (_ : Fs.t) (p : string) : option string := Some p.
Definition demo_files : Fs.t := Fs.mk {[components "/v/n.md" := [x41; x42]]} {[components "/v"]} 0.
Definition demo_write := write_sidecar demo_hash (λ _, None) (λ _, 0%nat) demo_canon 7 "/v" " n.md" [x00; x00; x00; x01] "m" 1 demo_files.
Definition demo_scan := scan_share_embeddings demo_hash (λ _, None) "notes" "/v" (Filter.mk [] [] (λ _, false)) true "m" 1
  DEFAULT_EMBEDDABLE_EXTENSIONS [Ok (Scanner.Entry "/v/n.md" true (Err "") None (Err ""))] demo_write.2.

Lemma sidecar_fresh_witness :
  ∃ res fs', demo_write = (Ok res, fs') ∧ (evaluate_staleness (λ _, None) "/v" "n.md" (Hex.encode [x41; x42]) "m" 1 fs').1 = Fresh.
Proof.
  assert (is_ok demo_write.1 = true) as Hok by (vm_compute; reflexivity). revert Hok.
  destruct demo_write as [[res|e] fs'] eqn:H; cbn [fst is_ok]; [intros _|intros [=]].
  assert (r_source_path res = "n.md" ∧ r_source_content_hash res = Hex.encode [x41; x42]) as [E1 E2].
  { assert (demo_write.1 = Ok res) as E by (by rewrite H). revert E. clear. vm_compute. by intros [= <-]. }
  assert (file_name (r_source_path res) = Some "n.md") as Hn by (by rewrite E1). unfold demo_write in H.
  destruct (sidecar_fresh _ _ _ _ _ _ _ _ _ _ _ _ _ _ (eq_refl : is_absolute "/v" = true) H Hn) as (_&Hf&_).
  exists res, fs'. split; [done|]. rewrite <-E1, <-E2. by apply Hf.
Defined.

Lemma sweep_counts_witness :
  ∃ rep fs', demo_scan = (Ok rep, fs') ∧ (fresh rep + stale rep + missing rep)%nat = length (sources rep) ∧ fresh rep = 1%nat.
Proof.
  assert (is_ok demo_scan.1 = true) as Hok by (vm_compute; reflexivity). revert Hok.
  destruct demo_scan as [[rep|e] fs'] eqn:H; cbn [fst is_ok]; [intros _|intros [=]].
  exists rep, fs'. split; [done|]. split.
  - unfold demo_scan in H. exact (proj1 (sweep_counts _ _ _ _ _ _ _ _ _ _ _ _ _ H)).
  - assert (demo_scan.1 = Ok rep) as E by (by rewrite H). revert E. clear. vm_compute. by intros [= <-].
Defined.
End EmbeddingsTheorems.
