(* ===== verification/Storage.v ===== *)
(** * Company-drive storage ([disk-storage/src])

    The trait [StorageBackend] ([backend.rs]) as a class, the metadata store all
    backends share ([metadata.rs] and its migration), the backend on a local
    disk ([local.rs]) and the one on an S3 bucket ([s3/]). Statements, file
    system calls and requests to the bucket may fail one by one; the JSON texts
    are a class with their round trips. *)

From stdpp Require Import prelude gmap strings pretty.
From Stdlib Require Import ZArith Lia Strings.Byte Strings.Ascii.
From S2P Require Import Prelude Text PathFacts Fs BlobStore Types Sql.

#[local] Open Scope Z_scope.

(** ** [types.rs], [error.rs] *)
Inductive StorageError :=
  | Metadata (msg : string)
  | NotFound (path : string)
  | AlreadyExists (path : string)
  | InvalidPath (path : string)
  | Io (e : Fs.io_error)
  | Sqlx (msg : string)
  | S3Transient (msg : string)
  | Unsupported (msg : string).

Module StorageObjectKey.
Definition new (path : string) : result string StorageError :=
  if bool_decide (path = "") || starts_with path "/" || contains path ".." then Err (InvalidPath path) else Ok path.
End StorageObjectKey.

Record PutOptions := mkPut { content_type : option string; tags : gmap string string }.
Record ListOptions := mkList { prefix : option string; limit : option Z }.

(** A [SystemTime] is its distance to the epoch in nanoseconds. *)
Module ObjectMetadata.
Record t := mk {
  path : string;
  size : Z;
  content_sha256 : string;
  object_store_key : string;
  mtime : Z;
  created_at : Z;
  tags : gmap string string
}.
End ObjectMetadata.

Module ListEntry.
Record t := mk { path : string; size : Z; content_sha256 : string }.
End ListEntry.

Record PresignedUrl := mkUrl { url : string; expires_at : Z }.
Record ObjectLifecyclePolicy := mkLifecycle { retain_forever : bool; manual_delete_only : bool }.
Definition default_lifecycle : ObjectLifecyclePolicy := mkLifecycle true true.
Record RenameRequest := mkRename { from : string; to : string }.

Class StorageJson := {
  tags_to_json : gmap string string → string;
  tags_from_json : string → option (gmap string string);
  tags_roundtrip : ∀ t, tags_from_json (tags_to_json t) = Some t;
  lifecycle_to_json : ObjectLifecyclePolicy → string;
  lifecycle_from_json : string → option ObjectLifecyclePolicy;
  lifecycle_roundtrip : ∀ l, lifecycle_from_json (lifecycle_to_json l) = Some l
}.

(** ** [metadata.rs] *)
Module StorageRow.
Record t := mk {
  path : string;
  size : Z;
  content_sha256 : string;
  object_store_key : string;
  mtime_ns : Z;
  created_at_ns : Z;
  tags_json : string;
  lifecycle_json : string
}.
End StorageRow.

(** SQLite's [LIKE]: ASCII letters in either case, [%] any text, [_] one
    character of UTF-8. *)
Module Like.
Definition is_cont_char (c : ascii) : bool := is_cont (ascii_code c).
Fixpoint skip_cont (l : chars) : chars :=
  match l with c :: l' => if is_cont_char c then skip_cont l' else l | [] => [] end.
Definition skip_char (c : ascii) (l : chars) : chars := if bool_decide (192 ≤ ascii_code c) then skip_cont l else l.

Fixpoint like (p : chars) : chars → bool :=
  match p with
  | [] => λ s, bool_decide (s = [])
  | c :: p =>
      if bool_decide (c = "%"%char) then
        fix any (s : chars) : bool := like p s || match s with [] => false | _ :: s => any s end
      else if bool_decide (c = "_"%char) then
        λ s, match s with [] => false | d :: s => like p (skip_char d s) end
      else
        λ s, match s with
             | [] => false
             | d :: s => bool_decide (to_ascii_lower c = to_ascii_lower d) && like p s
             end
  end.
End Like.

Module MetadataStore.
Record t := mk { rows : list StorageRow.t; statements : nat }.

Definition content_sha256_hex (sha256 : bytes → bytes) (data : bytes) : string := Hex.encode (sha256 data).
Definition object_key_for (path sha256_hex : string) : string := path +:+ "@" +:+ sha256_hex.

Definition system_time_to_i64 (ts : Z) : result Z StorageError :=
  if bool_decide (ts < 0) then Err (Metadata "second time provided was later than self") else Ok (as_i64 ts).
Definition i64_to_system_time (ns : Z) : Z := Z.max ns 0.

Section store.
Context {json : StorageJson} (db_fault : nat → option string).
Abbreviation dbs := (stm t StorageError).

(** One statement: it fails and changes nothing, or runs. *)
Definition statement {A} (q : list StorageRow.t → A * list StorageRow.t) : dbs A := λ s,
  match db_fault (statements s) with
  | Some msg => (Err (Sqlx msg), mk (rows s) (S (statements s)))
  | None => let '(a, l) := q (rows s) in (Ok a, mk l (S (statements s)))
  end.

Definition at_path (path : string) (r : StorageRow.t) : bool := bool_decide (StorageRow.path r = path).

Definition row_to_metadata (r : StorageRow.t) : result ObjectMetadata.t StorageError :=
  match tags_from_json (StorageRow.tags_json r) with
  | None => Err (Metadata "invalid tags")
  | Some tags =>
      Ok (ObjectMetadata.mk (StorageRow.path r) (as_u64 (StorageRow.size r)) (StorageRow.content_sha256 r)
            (StorageRow.object_store_key r) (i64_to_system_time (StorageRow.mtime_ns r))
            (i64_to_system_time (StorageRow.created_at_ns r)) tags)
  end.

(** [ON CONFLICT(path) DO UPDATE]: the creation time stays. *)
Definition overwrite (new old : StorageRow.t) : StorageRow.t :=
  StorageRow.mk (StorageRow.path old) (StorageRow.size new) (StorageRow.content_sha256 new) (StorageRow.object_store_key new)
    (StorageRow.mtime_ns new) (StorageRow.created_at_ns old) (StorageRow.tags_json new) (StorageRow.lifecycle_json new).

Definition upsert_rows (r : StorageRow.t) (l : list StorageRow.t) : list StorageRow.t :=
  if existsb (at_path (StorageRow.path r)) l then Sql.update (at_path (StorageRow.path r)) (overwrite r) l else l ++ [r].

Definition upsert (m : ObjectMetadata.t) (lifecycle : ObjectLifecyclePolicy) : dbs unit :=
  mtime <~ st_lift (system_time_to_i64 (ObjectMetadata.mtime m)) ;;
  created <~ st_lift (system_time_to_i64 (ObjectMetadata.created_at m)) ;;
  statement (λ l, (tt, upsert_rows
    (StorageRow.mk (ObjectMetadata.path m) (as_i64 (ObjectMetadata.size m)) (ObjectMetadata.content_sha256 m)
       (ObjectMetadata.object_store_key m) mtime created (tags_to_json (ObjectMetadata.tags m))
       (lifecycle_to_json lifecycle)) l)).

Definition get (path : string) : dbs (option ObjectMetadata.t) :=
  row <~ statement (λ l, (head (select (at_path path) l), l)) ;;
  st_lift (transpose (row_to_metadata <$> row)).

Definition delete (path : string) : dbs bool :=
  statement (λ l, (bool_decide (0 < affected (at_path path) l)%nat, delete_where (at_path path) l)).

(** [UPDATE storage_objects SET path = ..] with the primary key on [path]. *)
Definition set_path (to : string) (r : StorageRow.t) : StorageRow.t :=
  StorageRow.mk to (StorageRow.size r) (StorageRow.content_sha256 r) (StorageRow.object_store_key r)
    (StorageRow.mtime_ns r) (StorageRow.created_at_ns r) (StorageRow.tags_json r) (StorageRow.lifecycle_json r).
Definition rename (from to : string) : dbs bool :=
  moved <~ statement (λ l,
    if bool_decide (from ≠ to) && existsb (at_path from) l && existsb (at_path to) l then (None, l)
    else (Some (bool_decide (0 < affected (at_path from) l)%nat), Sql.update (at_path from) (set_path to) l)) ;;
  match moved with
  | None => st_err (Sqlx "UNIQUE constraint failed: storage_objects.path")
  | Some b => st_ret b
  end.

Definition list_prefix (prefix : option string) (limit : Z) : dbs (list ObjectMetadata.t) :=
  rows <~ statement (λ l,
    let l' := match prefix with
              | Some p => select (λ r, Like.like (explode p ++ ["%"%char]) (explode (StorageRow.path r))) l
              | None => l
              end in
    (take (Z.to_nat limit) (sort_by (λ a b, Path.str_leb (StorageRow.path a) (StorageRow.path b)) l'), l)) ;;
  st_lift (collect_results row_to_metadata rows).

Definition lifecycle (path : string) : dbs (option ObjectLifecyclePolicy) :=
  row <~ statement (λ l, (head (select (at_path path) l), l)) ;;
  match row with
  | None => st_ret None
  | Some r =>
      match lifecycle_from_json (StorageRow.lifecycle_json r) with
      | Some p => st_ret (Some p)
      | None => st_err (Metadata "invalid lifecycle")
      end
  end.

Definition count_sha (sha256_hex : string) : dbs nat :=
  statement (λ l, (affected (λ r, bool_decide (StorageRow.content_sha256 r = sha256_hex)) l, l)).
End store.

(** [connect] is what SQLite says of the file, [stored] the rows it has; the
    migration creates the table if there is none. *)
Definition open (f : Fs.faults) (db_path : string) (connect : result unit string) (stored : list StorageRow.t)
    : stm Fs.t StorageError t := λ fs,
  let '(r, fs) := match Path.parent db_path with
                  | Some p => Fs.create_dir_all f p fs
                  | None => (Ok tt, fs)
                  end in
  (_ <?- map_err Io r ;; _ <?- map_err Sqlx connect ;; Ok (mk stored 0), fs).
End MetadataStore.

(** ** [backend.rs]

    [now] is the clock when the call reads it. *)
Class StorageBackend (B : Type) := {
  sb_put : Z → string → bytes → PutOptions → stm B StorageError ObjectMetadata.t;
  sb_get : string → stm B StorageError bytes;
  sb_delete : string → stm B StorageError unit;
  sb_rename : Z → RenameRequest → stm B StorageError ObjectMetadata.t;
  sb_list : ListOptions → stm B StorageError (list ListEntry.t);
  sb_exists : string → stm B StorageError bool;
  sb_presigned_url : Z → string → Z → stm B StorageError PresignedUrl;
  sb_object_lifecycle : string → stm B StorageError ObjectLifecyclePolicy
}.

(** A backend is the metadata store and whatever keeps its contents. *)
Record backend (X : Type) := mkBackend { meta : MetadataStore.t; blobs : X }.
Arguments mkBackend {X}.
Arguments meta {X}.
Arguments blobs {X}.

Section parts.
Context {X : Type}.
Definition on_meta {A} (m : stm MetadataStore.t StorageError A) : stm (backend X) StorageError A := λ s,
  let '(r, d) := m (meta s) in (r, mkBackend d (blobs s)).
Definition on_blobs {E A} (e : E → StorageError) (m : stm X E A) : stm (backend X) StorageError A := λ s,
  let '(r, x) := m (blobs s) in (map_err e r, mkBackend (meta s) x).
End parts.

(** The calls that only read and write metadata; the two backends repeat
    them. *)
Section metadata_calls.
Context {json : StorageJson} (db_fault : nat → option string) {X : Type}.
Abbreviation calls := (stm (backend X) StorageError).

(** [.await?.ok_or_else(NotFound)]. *)
Definition require_meta (path : string) : calls ObjectMetadata.t :=
  m <~ on_meta (MetadataStore.get db_fault path) ;;
  st_lift (ok_or m (NotFound path)).

Definition new_metadata (sha256 : bytes → bytes) (now : Z) (path : string) (data : bytes) (options : PutOptions)
    : ObjectMetadata.t :=
  let sha := MetadataStore.content_sha256_hex sha256 data in
  ObjectMetadata.mk path (Z.of_nat (length data)) sha (MetadataStore.object_key_for path sha) now now (tags options).

Definition rename_meta (now : Z) (request : RenameRequest) : calls ObjectMetadata.t :=
  from_meta <~ require_meta (from request) ;;
  taken <~ on_meta (MetadataStore.get db_fault (to request)) ;;
  if bool_decide (is_Some taken) then st_err (AlreadyExists (to request))
  else
    moved <~ on_meta (MetadataStore.rename db_fault (from request) (to request)) ;;
    if negb moved then st_err (NotFound (from request))
    else
      let updated := ObjectMetadata.mk (to request) (ObjectMetadata.size from_meta) (ObjectMetadata.content_sha256 from_meta)
                       (ObjectMetadata.object_store_key from_meta) now (ObjectMetadata.created_at from_meta)
                       (ObjectMetadata.tags from_meta) in
      _ <~ on_meta (MetadataStore.upsert db_fault updated default_lifecycle) ;;
      st_ret updated.

Definition list_meta (options : ListOptions) : calls (list ListEntry.t) :=
  rows <~ on_meta (MetadataStore.list_prefix db_fault (prefix options) (default 1000 (limit options))) ;;
  st_ret ((λ m, ListEntry.mk (ObjectMetadata.path m) (ObjectMetadata.size m) (ObjectMetadata.content_sha256 m)) <$> rows).

Definition exists_meta (path : string) : calls bool :=
  m <~ on_meta (MetadataStore.get db_fault path) ;; st_ret (bool_decide (is_Some m)).

Definition lifecycle_meta (path : string) : calls ObjectLifecyclePolicy :=
  l <~ on_meta (MetadataStore.lifecycle db_fault path) ;; st_ret (default default_lifecycle l).
End metadata_calls.

(** ** [local.rs] *)
Module LocalDiskBackend.
Import Path.

Definition presign_secret : string := "local-reference-backend".

(** [PathBuf::with_extension]. *)
Definition file_stem (name : string) : string :=
  match rfind "."%char (explode name) with
  | None | Some O => name
  | Some i => implode (take i (explode name))
  end.
Definition with_extension (p ext : string) : string :=
  match file_name p with
  | None => p
  | Some name => join (default "" (parent p)) (file_stem name +:+ "." +:+ ext)
  end.

Section local.
Context {json : StorageJson} (sha256 : bytes → bytes) (db_fault : nat → option string).
Context (f : Fs.faults) (cut : Fs.cuts) (blob_root : string).

(** Every digest of the store has 64 digits, so the slices are in range. *)
Definition blob_path (sha256_hex : string) : string :=
  join (join blob_root (implode (take 2 (explode sha256_hex)))) (implode (drop 2 (explode sha256_hex))).

Definition write_blob (sha256_hex : string) (data : bytes) : Fs.io unit :=
  let dest := blob_path sha256_hex in
  there <~ Fs.exists_ f dest ;;
  if (there : bool) then st_ret tt
  else
    _ <~ match parent dest with Some p => Fs.create_dir_all f p | None => st_ret tt end ;;
    let tmp := with_extension dest "tmp" in
    _ <~ Fs.create f false tmp ;;
    _ <~ Fs.write_all f cut tmp data ;;
    _ <~ Fs.syscall f ;;
    λ fs, match Fs.rename f tmp dest fs with
          | (Ok _, fs) => (Ok tt, fs)
          | (Err e, fs) =>
              (there <~ Fs.exists_ f dest ;;
               if (there : bool) then Fs.attempt (Fs.remove_file f tmp) else st_err e) fs
          end.

Definition read_blob (sha256_hex : string) : stm Fs.t StorageError bytes := λ fs,
  let path := blob_path sha256_hex in
  match Fs.is_file f path fs with
  | (Ok true, fs) => let '(r, fs) := Fs.read f path fs in (map_err Io r, fs)
  | (_, fs) => (Err (NotFound sha256_hex), fs)
  end.

Definition remove_blob (sha256_hex : string) : Fs.io unit :=
  there <~ Fs.exists_ f (blob_path sha256_hex) ;;
  if (there : bool) then Fs.remove_file f (blob_path sha256_hex) else st_ret tt.

Abbreviation local := (backend Fs.t).
Abbreviation calls := (stm local StorageError).

Definition delete_blob_if_unreferenced (sha256_hex : string) : calls unit :=
  count <~ on_meta (MetadataStore.count_sha db_fault sha256_hex) ;;
  if bool_decide (count = 0%nat) then on_blobs Io (remove_blob sha256_hex) else st_ret tt.

Definition put (now : Z) (path : string) (data : bytes) (options : PutOptions) : calls ObjectMetadata.t :=
  let m := new_metadata sha256 now path data options in
  _ <~ on_blobs Io (write_blob (ObjectMetadata.content_sha256 m) data) ;;
  _ <~ on_meta (MetadataStore.upsert db_fault m default_lifecycle) ;;
  st_ret m.

Definition get (path : string) : calls bytes :=
  m <~ require_meta db_fault path ;;
  on_blobs (λ e, e) (read_blob (ObjectMetadata.content_sha256 m)).

Definition delete (path : string) : calls unit :=
  m <~ require_meta db_fault path ;;
  gone <~ on_meta (MetadataStore.delete db_fault path) ;;
  if negb gone then st_err (NotFound path)
  else delete_blob_if_unreferenced (ObjectMetadata.content_sha256 m).

Definition rename (now : Z) (request : RenameRequest) : calls ObjectMetadata.t := rename_meta db_fault now request.
Definition list (options : ListOptions) : calls (list ListEntry.t) := list_meta db_fault options.
Definition exists_ (path : string) : calls bool := exists_meta db_fault path.
Definition object_lifecycle (path : string) : calls ObjectLifecyclePolicy := lifecycle_meta db_fault path.

Definition presigned_url (path : string) (expires_at : Z) : calls PresignedUrl :=
  m <~ require_meta db_fault path ;;
  if bool_decide (expires_at < 0) then st_err (Metadata "second time provided was later than self")
  else
    let exp := expires_at / 10 ^ 9 in
    let sha := ObjectMetadata.content_sha256 m in
    st_ret (mkUrl ("disk-local://" +:+ presign_secret +:+ "/" +:+ ObjectMetadata.path m +:+ "?sha256=" +:+ sha
                   +:+ "&exp=" +:+ pretty exp +:+ "&sig=" +:+ implode (take 8 (explode sha))) expires_at).

Definition open (db_path : string) (connect : result unit string) (stored : List.list StorageRow.t) (fs : Fs.t)
    : result local StorageError * Fs.t :=
  match Fs.create_dir_all f blob_root fs with
  | (Err e, fs) => (Err (Io e), fs)
  | (Ok _, fs) =>
      match MetadataStore.open f db_path connect stored fs with
      | (Ok d, fs) => (Ok (mkBackend d fs), fs)
      | (Err e, fs) => (Err e, fs)
      end
  end.
End local.

#[export] Instance backend_instance {json : StorageJson} sha256 db_fault f cut root : StorageBackend (backend Fs.t) := {|
  sb_put := put sha256 db_fault f cut root;
  sb_get := get db_fault f root;
  sb_delete := delete db_fault f root;
  sb_rename := rename db_fault;
  sb_list := list db_fault;
  sb_exists := exists_ db_fault;
  sb_presigned_url _ := presigned_url db_fault;
  sb_object_lifecycle := object_lifecycle db_fault
|}.
End LocalDiskBackend.

(** ** [s3/] *)
Module S3Client.
(** The bucket and the number of requests made. A request is served, refused
    without effect, served with the answer lost, or, for a read, cut off in the
    body. Deleting an object that is not there succeeds. *)
Record bucket := mkBucket { objects : gmap string bytes; requests : nat }.
Inductive fate :=
  | Served
  | Refused (code : option string) (text : string)
  | AnswerLost (code : option string) (text : string)
  | BodyCut (text : string).

Definition map_sdk_error (code : option string) (text : string) : StorageError :=
  let code := default "unknown" code in
  let msg := code +:+ ": " +:+ text in
  if bool_decide (code ∈ ["InternalError"; "ServiceUnavailable"; "SlowDown"; "RequestTimeout"])
     || contains msg "503" || contains msg "429"
  then S3Transient msg else Metadata msg.

Definition is_transient (e : StorageError) : bool := match e with S3Transient _ => true | _ => false end.

(** [for attempt in 0..5]; [more] counts the attempts after this one. *)
Fixpoint retry {S A} (operation : stm S StorageError A) (more : nat) : stm S StorageError A := λ s,
  match operation s with
  | (Ok v, s) => (Ok v, s)
  | (Err e, s) =>
      match more with
      | S more => if is_transient e then retry operation more s else (Err e, s)
      | O => (Err e, s)
      end
  end.
Definition with_retry {S A} (operation : stm S StorageError A) : stm S StorageError A := retry operation 4.

Section client.
Context (net : nat → fate).
Abbreviation request := (stm bucket StorageError).

(** A request that changes the bucket. *)
Definition send (effect : gmap string bytes → gmap string bytes) : request unit := λ b,
  let n := S (requests b) in
  match net (requests b) with
  | Served => (Ok tt, mkBucket (effect (objects b)) n)
  | Refused code text => (Err (map_sdk_error code text), mkBucket (objects b) n)
  | AnswerLost code text => (Err (map_sdk_error code text), mkBucket (effect (objects b)) n)
  | BodyCut text => (Ok tt, mkBucket (effect (objects b)) n)
  end.

Definition fetch (key : string) : request bytes := λ b,
  let b' := mkBucket (objects b) (S (requests b)) in
  match net (requests b) with
  | Served => (ok_or (objects b !! key) (map_sdk_error (Some "NoSuchKey") "service error"), b')
  | Refused code text | AnswerLost code text => (Err (map_sdk_error code text), b')
  | BodyCut text =>
      (match objects b !! key with
       | Some _ => Err (S3Transient text)
       | None => Err (map_sdk_error (Some "NoSuchKey") "service error")
       end, b')
  end.

Definition put_object (key : string) (data : bytes) : request unit := with_retry (send <[key := data]>).
Definition get_object (key : string) : request bytes := with_retry (fetch key).
Definition delete_object (key : string) : request unit := with_retry (send (base.delete key)).
End client.
End S3Client.

Module S3BackendConfig.
Record t := mk {
  endpoint_url : string;
  region : string;
  bucket : string;
  access_key_id : string;
  secret_access_key : string;
  force_path_style : bool
}.

Section env.
Context (env : string → option string).
Definition require_env (name : string) : result string StorageError := ok_or (env name) (Metadata ("missing env " +:+ name)).

Definition backblaze_from_env : result t StorageError :=
  bucket <?- require_env "DISK_B2_BUCKET" ;;
  key_id <?- require_env "DISK_B2_KEY_ID" ;;
  app_key <?- require_env "DISK_B2_APP_KEY" ;;
  Ok (mk (default "https://s3.us-west-004.backblazeb2.com" (env "DISK_B2_ENDPOINT"))
        (default "us-west-004" (env "DISK_B2_REGION")) bucket key_id app_key true).

Definition cloudflare_r2_from_env : result t StorageError :=
  account_id <?- require_env "DISK_R2_ACCOUNT_ID" ;;
  bucket <?- require_env "DISK_R2_BUCKET" ;;
  key_id <?- require_env "DISK_R2_ACCESS_KEY_ID" ;;
  secret <?- require_env "DISK_R2_SECRET_ACCESS_KEY" ;;
  Ok (mk (default ("https://" +:+ account_id +:+ ".r2.cloudflarestorage.com") (env "DISK_R2_ENDPOINT"))
        (default "auto" (env "DISK_R2_REGION")) bucket key_id secret false).
End env.
End S3BackendConfig.

Module S3StorageBackend.
Section s3.
Context {json : StorageJson} (sha256 : bytes → bytes) (db_fault : nat → option string).
Context (net : nat → S3Client.fate) (presign : string → Z → result string string).
Abbreviation s3 := (backend S3Client.bucket).
Abbreviation calls := (stm s3 StorageError).
Definition on_bucket {A} (m : stm S3Client.bucket StorageError A) : calls A := on_blobs (λ e, e) m.

Definition put (now : Z) (path : string) (data : bytes) (options : PutOptions) : calls ObjectMetadata.t :=
  let m := new_metadata sha256 now path data options in
  _ <~ on_bucket (S3Client.put_object net (ObjectMetadata.object_store_key m) data) ;;
  _ <~ on_meta (MetadataStore.upsert db_fault m default_lifecycle) ;;
  st_ret m.

Definition get (path : string) : calls bytes :=
  m <~ require_meta db_fault path ;;
  on_bucket (S3Client.get_object net (ObjectMetadata.object_store_key m)).

Definition delete (path : string) : calls unit :=
  m <~ require_meta db_fault path ;;
  gone <~ on_meta (MetadataStore.delete db_fault path) ;;
  if negb gone then st_err (NotFound path)
  else
    refs <~ on_meta (MetadataStore.count_sha db_fault (ObjectMetadata.content_sha256 m)) ;;
    if bool_decide (refs = 0%nat) then on_bucket (S3Client.delete_object net (ObjectMetadata.object_store_key m))
    else st_ret tt.

Definition rename (now : Z) (request : RenameRequest) : calls ObjectMetadata.t := rename_meta db_fault now request.
Definition list (options : ListOptions) : calls (list ListEntry.t) := list_meta db_fault options.
Definition exists_ (path : string) : calls bool := exists_meta db_fault path.
Definition object_lifecycle (path : string) : calls ObjectLifecyclePolicy := lifecycle_meta db_fault path.

(** [presign] is the library's signature for a key and a duration. *)
Definition presigned_url (now : Z) (path : string) (expires_at : Z) : calls PresignedUrl :=
  m <~ require_meta db_fault path ;;
  if bool_decide (expires_at < now) then st_err (Metadata "second time provided was later than self")
  else
    match presign (ObjectMetadata.object_store_key m) (expires_at - now) with
    | Ok u => st_ret (mkUrl u expires_at)
    | Err msg => st_err (Metadata msg)
    end.
End s3.

#[export] Instance backend_instance {json : StorageJson} sha256 db_fault net presign
    : StorageBackend (backend S3Client.bucket) := {|
  sb_put := put sha256 db_fault net;
  sb_get := get db_fault net;
  sb_delete := delete db_fault net;
  sb_rename := rename db_fault;
  sb_list := list db_fault;
  sb_exists := exists_ db_fault;
  sb_presigned_url := presigned_url db_fault presign;
  sb_object_lifecycle := object_lifecycle db_fault
|}.
End S3StorageBackend.
