(* ===== verification/StorageProps.v ===== *)
(** * Company-drive storage: what a backend promises

    A drive is a map from paths to objects (Module StorageSpec). The class
    [StorageContract] says that a backend simulates it, call by call and under
    any failures; both backends are instances, and the theorem on the runs of
    each of them follows by one induction against the class. *)

From stdpp Require Import prelude gmap strings pretty sorting.
From Stdlib Require Import ZArith Lia Strings.Byte Strings.Ascii Sorting.Sorted.
From S2P Require Import Prelude Text PathFacts Fs BlobStore Types Sql Storage.

#[local] Open Scope Z_scope.

Module StorageSpec.
Record Object := mkObject {
  o_data : bytes;
  o_key : string;
  o_tags : gmap string string;
  o_created : Z
}.
Abbreviation drive := (gmap string Object).

Inductive op :=
  | Put (now : Z) (path : string) (data : bytes) (options : PutOptions)
  | Get (path : string)
  | Delete (path : string)
  | Rename (now : Z) (request : RenameRequest)
  | List (options : ListOptions)
  | Exists (path : string).

Inductive reply :=
  | RMeta (m : ObjectMetadata.t)
  | RBytes (b : bytes)
  | RUnit
  | RList (l : list ListEntry.t)
  | RBool (b : bool)
  | RErr (e : StorageError).

(** An error that says it is one of the environment, not of the request. *)
Definition hard (r : reply) : bool :=
  match r with RErr (Metadata _ | Io _ | Sqlx _ | S3Transient _) => true | _ => false end.

Section spec.
Context (sha256 : bytes → bytes).

Definition effect (o : op) (m : drive) : drive :=
  match o with
  | Put now p d opts =>
      <[p := mkObject d (p +:+ "@" +:+ Hex.encode (sha256 d)) (tags opts)
               (match m !! p with Some o => o_created o | None => now end)]> m
  | Delete p => base.delete p m
  | Rename _ q => match m !! from q, m !! to q with
                  | Some o, None => <[to q := o]> (base.delete (from q) m)
                  | _, _ => m
                  end
  | _ => m
  end.

Definition entry (p : string) (o : Object) : ListEntry.t :=
  ListEntry.mk p (Z.of_nat (length (o_data o))) (Hex.encode (sha256 (o_data o))).

(** A listing: the first paths, in order. Every object under the prefix is
    among them; when the prefix has no wildcard, nothing else is but for the
    case of letters. *)
Definition under (options : ListOptions) (p : string) : bool :=
  match prefix options with Some q => starts_with p q | None => true end.
Definition wildcard (c : ascii) : bool := bool_decide (c = "%"%char) || bool_decide (c = "_"%char).
Definition nearly_under (options : ListOptions) (p : string) : Prop :=
  match prefix options with
  | Some q => Forall (λ c, wildcard c = false) (explode q) →
              ∃ l, to_ascii_lower <$> explode p = (to_ascii_lower <$> explode q) ++ l
  | None => True
  end.
Definition listing (options : ListOptions) (m : drive) (l : list ListEntry.t) : Prop :=
  ∃ full, l = take (Z.to_nat (default 1000 (limit options))) full
    ∧ StronglySorted (λ a b, Path.str_leb (ListEntry.path a) (ListEntry.path b) = true) full
    ∧ NoDup (ListEntry.path <$> full)
    ∧ (∀ p o, m !! p = Some o → under options p = true → entry p o ∈ full)
    ∧ ∀ e, e ∈ full → ∃ p o, m !! p = Some o ∧ nearly_under options p ∧ e = entry p o.

(** The reply the drive gives. *)
Definition answers (m : drive) (o : op) (r : reply) : Prop :=
  match o with
  | Put now p d opts =>
      ∃ md, r = RMeta md ∧ ObjectMetadata.path md = p ∧ ObjectMetadata.size md = Z.of_nat (length d)
        ∧ ObjectMetadata.content_sha256 md = Hex.encode (sha256 d) ∧ ObjectMetadata.mtime md = now
        ∧ ObjectMetadata.tags md = tags opts
  | Get p => r = match m !! p with Some o => RBytes (o_data o) | None => RErr (NotFound p) end
  | Delete p => r = match m !! p with Some _ => RUnit | None => RErr (NotFound p) end
  | Rename now q =>
      r = match m !! from q, m !! to q with
          | None, _ => RErr (NotFound (from q))
          | Some _, Some _ => RErr (AlreadyExists (to q))
          | Some o, None =>
              RMeta (ObjectMetadata.mk (to q) (Z.of_nat (length (o_data o)))
                       (Hex.encode (sha256 (o_data o))) (o_key o) now (o_created o) (o_tags o))
          end
  | List options => ∃ l, r = RList l ∧ listing options m l
  | Exists p => r = RBool (bool_decide (is_Some (m !! p)))
  end.

(** An object that is there but whose blob could not be looked at: the local
    backend says that its digest was not found. *)
Definition lost (m : drive) (o : op) (r : reply) : Prop :=
  ∃ p obj, o = Get p ∧ m !! p = Some obj ∧ r = RErr (NotFound (Hex.encode (sha256 (o_data obj)))).

(** One call: the drive's reply and effect, or an error of the environment,
    after which the effect is there in full or not at all. *)
Definition step (m : drive) (o : op) (r : reply) (m' : drive) : Prop :=
  (answers m o r ∧ m' = effect o m) ∨ ((hard r = true ∨ lost m o r) ∧ (m' = m ∨ m' = effect o m)).

(** The same, with errors of the environment only where there is [trouble]. *)
Definition fair_step (trouble : Prop) (m : drive) (o : op) (r : reply) (m' : drive) : Prop :=
  (answers m o r ∧ m' = effect o m) ∨ (trouble ∧ (hard r = true ∨ lost m o r) ∧ (m' = m ∨ m' = effect o m)).

Inductive steps (trouble : Prop) : drive → list op → list reply → drive → Prop :=
  | steps_nil m : steps trouble m [] [] m
  | steps_cons m o r m1 os rs m2 :
      fair_step trouble m o r m1 → steps trouble m1 os rs m2 → steps trouble m (o :: os) (r :: rs) m2.

Lemma step_fair (trouble : Prop) m o r m' :
  step m o r m' → (hard r = true → trouble) → (lost m o r → trouble) → fair_step trouble m o r m'.
Proof. unfold step, fair_step. naive_solver. Qed.

(** What can be asked: a digest identifies the contents, and clocks and sizes
    fit in 63 bits. *)
Definition valid (D : bytes → Prop) (o : op) : Prop :=
  match o with
  | Put now _ d _ => D d ∧ 0 ≤ now ≤ i64_max ∧ Z.of_nat (length d) ≤ i64_max
  | Rename now _ => 0 ≤ now ≤ i64_max
  | _ => True
  end.
End spec.

Definition to_reply {A} (f : A → reply) (r : result A StorageError) : reply :=
  match r with Ok a => f a | Err e => RErr e end.

Definition run_op `{StorageBackend B} (o : op) (s : B) : reply * B :=
  match o with
  | Put now p d opts => let '(r, s) := sb_put now p d opts s in (to_reply RMeta r, s)
  | Get p => let '(r, s) := sb_get p s in (to_reply RBytes r, s)
  | Delete p => let '(r, s) := sb_delete p s in (to_reply (λ _, RUnit) r, s)
  | Rename now q => let '(r, s) := sb_rename now q s in (to_reply RMeta r, s)
  | List options => let '(r, s) := sb_list options s in (to_reply RList r, s)
  | Exists p => let '(r, s) := sb_exists p s in (to_reply RBool r, s)
  end.

Fixpoint run `{StorageBackend B} (os : list op) (s : B) : list reply * B :=
  match os with
  | [] => ([], s)
  | o :: os => let '(r, s) := run_op o s in let '(rs, s) := run os s in (r :: rs, s)
  end.
End StorageSpec.

(** ** The interface

    [D] is a set of contents on which the digest is injective; [trouble] says
    that something fails. *)
Class StorageContract (B : Type) `{StorageBackend B} (sha256 : bytes → bytes) (D : bytes → Prop) (trouble : Prop) := {
  sb_rel : B → gmap string StorageSpec.Object → Prop;
  sb_step s m o r s' :
    sb_rel s m → StorageSpec.valid D o → StorageSpec.run_op o s = (r, s') →
    ∃ m', sb_rel s' m' ∧ StorageSpec.fair_step sha256 trouble m o r m'
}.

Lemma contract_steps {B : Type} {sb : StorageBackend B} sha256 D trouble `{!StorageContract B sha256 D trouble} os s m :
  sb_rel s m → Forall (StorageSpec.valid D) os →
  ∃ m', sb_rel (StorageSpec.run os s).2 m' ∧ StorageSpec.steps sha256 trouble m os (StorageSpec.run os s).1 m'.
Proof.
  revert s m. induction os as [|o os IH]; intros s m Hr Hv; cbn.
  - exists m. split; [done|constructor].
  - apply Forall_cons in Hv as [Ho Hv]. destruct (StorageSpec.run_op o s) as [r s1] eqn:E1.
    destruct (sb_step _ _ _ _ _ Hr Ho E1) as (m1&Hr1&Hs1). destruct (IH _ _ Hr1 Hv) as (m2&Hr2&Hs2).
    destruct (StorageSpec.run os s1) as [rs1 s2]. exists m2. split; [done|by econstructor].
Qed.

(** ** Patterns *)
Definition admits (options : ListOptions) (p : string) : bool :=
  match prefix options with Some q => Like.like (explode q ++ ["%"%char]) (explode p) | None => true end.

Lemma like_any l : Like.like ["%"%char] l = true.
Proof. induction l as [|c l IH]; simpl in *; [done|]. apply IH. Qed.

Lemma like_prefix p l : Like.like (p ++ ["%"%char]) (p ++ l) = true.
Proof.
  induction p as [|c p IH]; [apply like_any|]. change ((c :: p) ++ ["%"%char]) with (c :: (p ++ ["%"%char])).
  cbn [Like.like app]. case_bool_decide as H1; [|case_bool_decide as H2].
  - rewrite orb_comm. destruct (p ++ l); simpl in *; by rewrite IH.
  - subst c. unfold Like.skip_char. rewrite bool_decide_false; [done|]. by vm_compute.
  - by rewrite bool_decide_true, IH.
Qed.

Lemma like_plain q l :
  Forall (λ c, StorageSpec.wildcard c = false) q → Like.like (q ++ ["%"%char]) l = true →
  ∃ k, to_ascii_lower <$> l = (to_ascii_lower <$> q) ++ k.
Proof.
  revert l. induction q as [|c q IH]; intros l Hq H; [by eexists|].
  apply Forall_cons in Hq as [[H1 H2]%orb_false_iff Hq].
  change ((c :: q) ++ ["%"%char]) with (c :: (q ++ ["%"%char])) in H. cbn [Like.like] in H.
  rewrite H1, H2 in H. destruct l as [|d l]; [done|].
  apply andb_prop in H as [E%bool_decide_eq_true H]. destruct (IH l Hq H) as [k Hk].
  exists k. rewrite !fmap_cons, Hk, E. done.
Qed.

Lemma under_admits opts p : StorageSpec.under opts p = true → admits opts p = true.
Proof.
  unfold StorageSpec.under, admits. destruct (prefix opts) as [q|]; [|done]. intros [l Hl]%starts_with_spec.
  rewrite Hl, explode_app. apply like_prefix.
Qed.

Lemma admits_nearly opts p : admits opts p = true → StorageSpec.nearly_under opts p.
Proof. unfold admits, StorageSpec.nearly_under. destruct (prefix opts); [|done]. intros H Hq. by apply like_plain. Qed.

(** ** The metadata store *)
Section meta.
Import StorageSpec.
Context {json : StorageJson} (sha256 : bytes → bytes) (D : bytes → Prop) (db_fault : nat → option string).
Implicit Types (l : list StorageRow.t).

Abbreviation tm := (table_map StorageRow.path).

(** A row and the object it describes; [c] is the content its backend has. *)
Record row_obj (c : option bytes) (r : StorageRow.t) (o : Object) : Prop := {
  ro_content : c = Some (o_data o);
  ro_D : D (o_data o);
  ro_size : StorageRow.size r = Z.of_nat (length (o_data o)) ∧ Z.of_nat (length (o_data o)) ≤ i64_max;
  ro_sha : StorageRow.content_sha256 r = MetadataStore.content_sha256_hex sha256 (o_data o);
  ro_key : StorageRow.object_store_key r = o_key o
           ∧ ∃ q, o_key o = MetadataStore.object_key_for q (MetadataStore.content_sha256_hex sha256 (o_data o));
  ro_tags : tags_from_json (StorageRow.tags_json r) = Some (o_tags o);
  ro_created : StorageRow.created_at_ns r = o_created o ∧ 0 ≤ o_created o ≤ i64_max
}.

Definition rel (content : StorageRow.t → option bytes) (l : list StorageRow.t) (m : drive) : Prop :=
  keyed StorageRow.path l ∧ map_Forall2 (λ _ r o, row_obj (content r) r o) (tm l) m.

Lemma rel_lookup content l m p :
  rel content l m →
  match tm l !! p, m !! p with
  | Some r, Some o => StorageRow.path r = p ∧ row_obj (content r) r o
  | None, None => True
  | _, _ => False
  end.
Proof.
  intros [Hk HR]. specialize (HR p). destruct (tm l !! p) as [r|] eqn:E, (m !! p); simpl in *; inv HR; try done.
  split; [|done]. by apply table_map_Some in E as [_ ?].
Qed.

Lemma rel_content content content' l m :
  (∀ r, r ∈ l → content' r = content r) → rel content l m → rel content' l m.
Proof.
  intros H [Hk HR]. split; [done|]. intros p. specialize (HR p).
  destruct (tm l !! p) as [r|] eqn:E, (m !! p); inv HR; constructor.
  apply table_map_Some in E as [Hr _]; [|done]. by rewrite H.
Qed.

(** Contents that are there may not go away. *)
Lemma rel_content_mono content content' l m :
  (∀ r b, r ∈ l → content r = Some b → content' r = Some b) → rel content l m → rel content' l m.
Proof.
  intros H Hr. eapply rel_content; [|exact Hr]. intros r Hin.
  pose proof (rel_lookup _ _ _ (StorageRow.path r) Hr) as Hl.
  assert (tm l !! StorageRow.path r = Some r) as E by (by apply table_map_Some; [apply Hr|]). rewrite E in Hl.
  destruct (m !! _) as [o|]; [|done]. destruct Hl as (_&[Hc _ _ _ _ _ _]). rewrite Hc. by apply H.
Qed.

(** *** Statements *)
Lemma statement_inv {A} (q : list StorageRow.t → A * list StorageRow.t) s x s' :
  MetadataStore.statement db_fault q s = (x, s') →
  (∃ msg, x = Err (Sqlx msg) ∧ MetadataStore.rows s' = MetadataStore.rows s ∧ db_fault (MetadataStore.statements s) = Some msg)
  ∨ (x = Ok (q (MetadataStore.rows s)).1 ∧ MetadataStore.rows s' = (q (MetadataStore.rows s)).2).
Proof.
  unfold MetadataStore.statement. destruct (db_fault _) as [msg|]; [intros [= <- <-]; left; eauto|].
  destruct (q (MetadataStore.rows s)). intros [= <- <-]. by right.
Qed.

Lemma storage_upsert_map r l :
  keyed StorageRow.path l →
  keyed StorageRow.path (MetadataStore.upsert_rows r l)
  ∧ tm (MetadataStore.upsert_rows r l)
    = <[StorageRow.path r := match tm l !! StorageRow.path r with Some old => MetadataStore.overwrite r old | None => r end]> (tm l).
Proof.
  intros Hk. unfold MetadataStore.upsert_rows.
  destruct (existsb (MetadataStore.at_path (StorageRow.path r)) l) eqn:E.
  - apply existsb_exists in E as (old&Hold%list_elem_of_In&Hp%bool_decide_eq_true).
    assert (tm l !! StorageRow.path r = Some old) as Hl by (by apply table_map_Some). split.
    + apply keyed_update; [by intros []|done].
    + change (MetadataStore.at_path (StorageRow.path r)) with (at_key StorageRow.path (StorageRow.path r)).
      rewrite table_map_update by (done || by intros []). rewrite Hl.
      apply map_eq. intros p. destruct (decide (p = StorageRow.path r)) as [->|Hne].
      * by rewrite lookup_alter_eq, Hl, lookup_insert_eq.
      * by rewrite lookup_alter_ne, lookup_insert_ne.
  - assert (∀ s, s ∈ l → StorageRow.path s ≠ StorageRow.path r) as Hn.
    { intros s Hs Hp. apply not_true_iff_false in E. apply E, existsb_exists. exists s.
      split; [by apply list_elem_of_In|]. by apply bool_decide_eq_true. }
    split; [by apply keyed_snoc|]. rewrite table_map_snoc by done.
    assert (tm l !! StorageRow.path r = None) as -> by (by apply table_map_None). done.
Qed.

Lemma delete_rows_map p l :
  keyed StorageRow.path l →
  keyed StorageRow.path (delete_where (MetadataStore.at_path p) l)
  ∧ tm (delete_where (MetadataStore.at_path p) l) = base.delete p (tm l).
Proof.
  intros Hk. split; [by apply keyed_delete|]. rewrite table_map_delete by done.
  apply map_eq. intros q. apply option_eq. intros r.
  rewrite map_lookup_filter_Some, lookup_delete_Some. unfold MetadataStore.at_path. simpl.
  rewrite bool_decide_eq_false. split.
  - intros [Hq Hne]. split; [|done]. apply table_map_Some in Hq as [_ <-]; done.
  - intros [Hne Hq]. split; [done|]. apply table_map_Some in Hq as [_ <-]; done.
Qed.

Lemma set_path_map from to r l :
  keyed StorageRow.path l → tm l !! from = Some r → tm l !! to = None →
  keyed StorageRow.path (Sql.update (MetadataStore.at_path from) (MetadataStore.set_path to) l)
  ∧ tm (Sql.update (MetadataStore.at_path from) (MetadataStore.set_path to) l)
    = <[to := MetadataStore.set_path to r]> (base.delete from (tm l)).
Proof.
  intros Hk Hr Hto. rewrite table_map_None in Hto.
  assert (keyed StorageRow.path (Sql.update (MetadataStore.at_path from) (MetadataStore.set_path to) l)) as Hk'.
  { unfold keyed, Sql.update in *. clear Hr. induction l as [|x l IH]; [constructor|].
    rewrite !fmap_cons in *. apply NoDup_cons in Hk as [Hx Hk]. apply NoDup_cons. split.
    - intros Hin. apply Hx. apply list_elem_of_fmap in Hin as (y&Hy&(z&->&Hz)%list_elem_of_fmap).
      assert (StorageRow.path z ≠ to) by (apply Hto; by constructor).
      assert (StorageRow.path x ≠ to) by (apply Hto; constructor).
      unfold MetadataStore.at_path in Hy. apply list_elem_of_fmap.
      repeat case_bool_decide; simpl in *; simplify_eq; eauto with congruence.
    - apply IH; [done|]. intros y Hy. apply Hto. by constructor. }
  split; [done|]. apply map_eq. intros p. apply option_eq. intros x.
  apply table_map_Some in Hr as [Hr Hp]; [|done].
  rewrite table_map_Some, elem_of_update, lookup_insert_Some, lookup_delete_Some, table_map_Some by done.
  unfold MetadataStore.at_path. split.
  - intros [(y&Hy&->) Hx]. case_bool_decide as Hyf.
    + left. simpl in Hx. split; [done|]. f_equal. eapply NoDup_fmap_inj_elem; [exact Hk|done|done|congruence].
    + right. subst p. split; [|by split]. intros ->. by eapply Hto.
  - intros [[<- <-]|(Hne&Hf&Hx&<-)].
    + split; [|done]. exists r. by rewrite bool_decide_true.
    + split; [|done]. exists x. by rewrite bool_decide_false.
Qed.

Definition db_trouble : Prop := ∃ n msg, db_fault n = Some msg.

(** The metadata of an object; its modification time is the row's. *)
Definition metadata_of (p : string) (o : Object) (mtime : Z) : ObjectMetadata.t :=
  ObjectMetadata.mk p (Z.of_nat (length (o_data o))) (MetadataStore.content_sha256_hex sha256 (o_data o)) (o_key o) mtime
    (o_created o) (o_tags o).

Lemma row_to_metadata_ok c r o :
  row_obj c r o →
  MetadataStore.row_to_metadata r
  = Ok (metadata_of (StorageRow.path r) o (MetadataStore.i64_to_system_time (StorageRow.mtime_ns r))).
Proof.
  intros [_ _ [Hs Hl] Hsha [Hkey _] Ht [Hc Hc0]]. unfold MetadataStore.row_to_metadata, metadata_of. rewrite Ht, Hs, Hsha, Hkey, Hc.
  f_equal. f_equal; [|unfold MetadataStore.i64_to_system_time; lia].
  unfold as_u64. rewrite Z.mod_small; [done|]. unfold i64_max in Hl. lia.
Qed.

Context {X : Type} (content : X → StorageRow.t → option bytes).
Definition brel (s : backend X) (m : drive) : Prop := rel (content (blobs s)) (MetadataStore.rows (meta s)) m.

(** A call on the metadata that leaves the contents alone. *)
Lemma on_meta_inv {A} (q : stm MetadataStore.t StorageError A) (s : backend X) r s' :
  on_meta q s = (r, s') → q (meta s) = (r, meta s') ∧ blobs s' = blobs s.
Proof. unfold on_meta. destruct (q (meta s)) eqn:E. by intros [= <- <-]. Qed.

Definition got (m : drive) (p : string) (r : result (option ObjectMetadata.t) StorageError) : Prop :=
  match m !! p with Some o => ∃ mt, r = Ok (Some (metadata_of p o mt)) | None => r = Ok None end.

Lemma get_spec s m p r s' :
  brel s m → on_meta (MetadataStore.get db_fault p) s = (r, s') →
  brel s' m ∧ blobs s' = blobs s ∧ ((∃ msg, r = Err (Sqlx msg) ∧ db_trouble) ∨ got m p r).
Proof.
  intros Hb [H Hx]%on_meta_inv. unfold brel. rewrite Hx. unfold MetadataStore.get, st_bind in H.
  destruct (MetadataStore.statement _ _ _) as [x d] eqn:E. apply statement_inv in E as [(msg&->&Er&Hf)|[-> Er]].
  - injection H as <- <-. rewrite Er. split_and!; [done..|]. left. unfold db_trouble. eauto.
  - cbn [fst snd] in *. injection H as <- Hd. rewrite <-Hd, Er. split_and!; [done..|right]. unfold got.
    change (MetadataStore.at_path p) with (at_key StorageRow.path p). rewrite select_key by apply Hb.
    pose proof (rel_lookup _ _ _ p Hb) as Hl.
    destruct (tm _ !! p) as [row|], (m !! p) as [o|]; try done. simpl. destruct Hl as [Hp Hl].
    rewrite (row_to_metadata_ok _ _ _ Hl), Hp. simpl. eauto.
Qed.

Lemma require_spec s m p r s' :
  brel s m → require_meta db_fault p s = (r, s') →
  brel s' m ∧ blobs s' = blobs s
  ∧ ((∃ msg, r = Err (Sqlx msg) ∧ db_trouble)
     ∨ match m !! p with Some o => ∃ mt, r = Ok (metadata_of p o mt) | None => r = Err (NotFound p) end).
Proof.
  intros Hb H. unfold require_meta, st_bind in H. destruct (on_meta _ s) as [x s1] eqn:E.
  apply (get_spec _ m) in E as (Hb'&Hx&[(msg&->&Ht)|Hg]); [..|done].
  - injection H as <- <-. eauto 6.
  - unfold got in Hg. split; [|split].
    + destruct x; by injection H as <- <-.
    + destruct x; by injection H as <- <-.
    + right. destruct (m !! p); [destruct Hg as [mt ->]|subst x]; injection H as <- <-; simpl; eauto.
Qed.

(** The content of a row is found by its digest and its key. *)
Context (content_ext : ∀ x r r', StorageRow.content_sha256 r = StorageRow.content_sha256 r' →
  StorageRow.object_store_key r = StorageRow.object_store_key r' → content x r = content x r').

Definition created_as (m : drive) (p : string) (o : Object) : Object :=
  mkObject (o_data o) (o_key o) (o_tags o) (match m !! p with Some old => o_created old | None => o_created o end).

(** An object whose row can be written. *)
Definition storable (x : X) (o : Object) : Prop :=
  D (o_data o) ∧ Z.of_nat (length (o_data o)) ≤ i64_max ∧ 0 ≤ o_created o ≤ i64_max
  ∧ (∃ q, o_key o = MetadataStore.object_key_for q (MetadataStore.content_sha256_hex sha256 (o_data o)))
  ∧ ∀ r, StorageRow.content_sha256 r = MetadataStore.content_sha256_hex sha256 (o_data o) →
      StorageRow.object_store_key r = o_key o → content x r = Some (o_data o).

Lemma as_i64_nonneg z : 0 ≤ z ≤ i64_max → as_i64 z = z.
Proof. intros H. apply as_i64_id. unfold in_i64, i64_min. lia. Qed.

Lemma upsert_spec s m p o mt r s' :
  brel s m → storable (blobs s) o → 0 ≤ mt ≤ i64_max →
  on_meta (MetadataStore.upsert db_fault (metadata_of p o mt) default_lifecycle) s = (r, s') →
  blobs s' = blobs s
  ∧ ((∃ msg, r = Err (Sqlx msg) ∧ db_trouble ∧ brel s' m) ∨ (r = Ok tt ∧ brel s' (<[p := created_as m p o]> m))).
Proof.
  intros Hb (HD&Hl&Hc&Hq&Hx) Hmt [H Hbl]%on_meta_inv. split; [done|]. unfold brel. rewrite Hbl.
  unfold MetadataStore.upsert, st_bind, st_lift, MetadataStore.system_time_to_i64 in H. simpl in H.
  rewrite !bool_decide_false in H by lia. simpl in H.
  apply statement_inv in H as [(msg&->&Er&Hf)|[-> Er]]; rewrite Er.
  { left. exists msg. split_and!; [done|by exists (MetadataStore.statements (meta s)), msg|done]. }
  right. split; [done|]. simpl. pose proof (rel_lookup _ _ _ p Hb) as Hp. destruct Hb as [Hk HR].
  set (row := StorageRow.mk _ _ _ _ _ _ _ _). destruct (storage_upsert_map row _ Hk) as [Hk' Et]. split; [done|]. rewrite Et.
  assert (∀ r', StorageRow.content_sha256 r' = StorageRow.content_sha256 row → StorageRow.object_store_key r' = o_key o →
            content (blobs s) r' = Some (o_data o)) as Hx' by (intros; by apply Hx).
  apply map_Forall2_insert_2; [|done]. unfold created_as. simpl.
  destruct (tm _ !! p) as [old|], (m !! p) as [oo|]; try done.
  - destruct Hp as [_ [_ _ _ _ _ _ Hcr]]. constructor; simpl; try done; [by apply Hx'|by rewrite as_i64_nonneg by lia|apply tags_roundtrip].
  - constructor; simpl; try done; [by apply Hx'|by rewrite as_i64_nonneg by lia|apply tags_roundtrip|by rewrite as_i64_nonneg].
Qed.

Lemma delete_spec s m p r s' :
  brel s m → on_meta (MetadataStore.delete db_fault p) s = (r, s') →
  blobs s' = blobs s
  ∧ ((∃ msg, r = Err (Sqlx msg) ∧ db_trouble ∧ brel s' m)
     ∨ (r = Ok (bool_decide (is_Some (m !! p))) ∧ brel s' (base.delete p m))).
Proof.
  intros Hb [H Hbl]%on_meta_inv. split; [done|]. unfold brel. rewrite Hbl.
  apply statement_inv in H as [(msg&->&Er&Hf)|[-> Er]]; rewrite Er.
  { left. exists msg. split_and!; [done|by exists (MetadataStore.statements (meta s)), msg|done]. }
  right. simpl. pose proof Hb as [Hk HR]. destruct (delete_rows_map p _ Hk) as [Hk' Et]. split.
  - f_equal. apply bool_decide_ext. pose proof (rel_lookup _ _ _ p Hb) as Hl.
    assert ((0 < affected (MetadataStore.at_path p) (MetadataStore.rows (meta s)))%nat ↔ is_Some (tm (MetadataStore.rows (meta s)) !! p)) as ->.
    { rewrite <-Nat.neq_0_lt_0, affected_0, <-not_eq_None_Some, table_map_None. unfold MetadataStore.at_path.
      setoid_rewrite bool_decide_eq_false. done. }
    destruct (tm _ !! p), (m !! p); naive_solver.
  - split; [done|]. rewrite Et. by apply map_Forall2_delete.
Qed.

Lemma count_spec s m sha r s' :
  brel s m → on_meta (MetadataStore.count_sha db_fault sha) s = (r, s') →
  blobs s' = blobs s ∧ brel s' m
  ∧ ((∃ msg, r = Err (Sqlx msg) ∧ db_trouble)
     ∨ ∃ n, r = Ok n ∧ (n = 0%nat → ∀ row, row ∈ MetadataStore.rows (meta s') → StorageRow.content_sha256 row ≠ sha)).
Proof.
  intros Hb [H Hbl]%on_meta_inv. unfold brel. rewrite Hbl.
  apply statement_inv in H as [(msg&->&Er&Hf)|[-> Er]]; rewrite Er.
  { split_and!; [done..|]. left. exists msg. split; [done|by exists (MetadataStore.statements (meta s)), msg]. }
  simpl. split_and!; [done..|right]. eexists. split; [done|]. intros Hn row Hrow.
  rewrite affected_0 in Hn. by apply Hn, bool_decide_eq_false in Hrow.
Qed.

(** An error of the database before or after the effect. *)
Lemma step_trouble m o msg m' :
  m' = m ∨ m' = effect sha256 o m → step sha256 m o (RErr (Sqlx msg)) m'.
Proof. right. auto. Qed.

Lemma stored_storable s m p o :
  brel s m → m !! p = Some o → storable (blobs s) o.
Proof.
  intros Hb Hm. pose proof (rel_lookup _ _ _ p Hb) as Hl. rewrite Hm in Hl.
  destruct (tm _ !! p) as [r|]; [|done]. destruct Hl as (_&[Hc HD [Hs Hn] Hsha [Hk Hq] Ht [Hcr Hc0]]).
  split_and!; try done; [lia..|]. intros r' Hr1 Hr2. rewrite <-Hc. apply content_ext; congruence.
Qed.

(** The row moved. *)
Lemma set_path_spec s m a b o r s' :
  brel s m → m !! a = Some o → m !! b = None → on_meta (MetadataStore.rename db_fault a b) s = (r, s') →
  blobs s' = blobs s
  ∧ ((∃ msg, r = Err (Sqlx msg) ∧ db_trouble ∧ brel s' m) ∨ (r = Ok true ∧ brel s' (<[b := o]> (base.delete a m)))).
Proof.
  intros Hb Ha Hbn [H Hbl]%on_meta_inv. split; [done|]. unfold brel. rewrite Hbl.
  pose proof (rel_lookup _ _ _ a Hb) as Hra. pose proof (rel_lookup _ _ _ b Hb) as Hrb. rewrite Ha in Hra. rewrite Hbn in Hrb.
  destruct (tm (MetadataStore.rows (meta s)) !! a) as [row|] eqn:Ta; [|done].
  destruct (tm (MetadataStore.rows (meta s)) !! b) eqn:Tb; [done|].
  unfold MetadataStore.rename, st_bind in H. destruct (MetadataStore.statement _ _ _) as [x d] eqn:E.
  apply statement_inv in E as [(msg&->&Er&Hf)|[-> Er]].
  { injection H as <- <-. rewrite Er. left. exists msg. split_and!; [done|by exists (MetadataStore.statements (meta s)), msg|done]. }
  right. assert (existsb (MetadataStore.at_path b) (MetadataStore.rows (meta s)) = false) as Hex.
  { apply not_true_iff_false. intros (y&Hy%list_elem_of_In&Hp%bool_decide_eq_true)%existsb_exists.
    rewrite table_map_None in Tb. by apply (Tb y). }
  rewrite Hex, andb_false_r in *. cbn [fst snd] in *. injection H as <- <-. rewrite Er. destruct Hb as [Hk HR].
  destruct (set_path_map a b row _ Hk Ta Tb) as [Hk' Et]. split.
  - f_equal. apply bool_decide_eq_true. rewrite <-Nat.neq_0_lt_0, affected_0. intros Hn.
    apply table_map_Some in Ta as [Hrow Hp]; [|done]. apply Hn, bool_decide_eq_false in Hrow. done.
  - split; [done|]. rewrite Et. apply map_Forall2_insert_2; [|by apply map_Forall2_delete].
    destruct Hra as (_&[Hc HD Hs Hsha Hkey Ht Hcr]). constructor; try done. rewrite <-Hc. by apply content_ext.
Qed.

Lemma move_spec s m now q r s' :
  brel s m → 0 ≤ now ≤ i64_max → rename_meta db_fault now q s = (r, s') →
  blobs s' = blobs s ∧ ∃ m', brel s' m' ∧ step sha256 m (Rename now q) (to_reply RMeta r) m'
    ∧ (hard (to_reply RMeta r) = true → db_trouble).
Proof.
  intros Hb Hnow H. unfold rename_meta in H. unfold st_bind at 1 in H.
  destruct (require_meta db_fault (from q) s) as [x s1] eqn:E1.
  apply (require_spec _ m) in E1 as (Hb1&Hx1&Hr1); [|done].
  destruct Hr1 as [(msg&->&Ht)|Hr1].
  { injection H as <- <-. split; [done|]. exists m. eauto using step_trouble. }
  destruct (m !! from q) as [o|] eqn:Ha; [destruct Hr1 as [mt ->]|subst x].
  2:{ injection H as <- <-. split; [done|]. exists m. split_and!; [done|left; simpl; by rewrite Ha|done]. }
  unfold st_bind at 1 in H. destruct (on_meta (MetadataStore.get db_fault (to q)) s1) as [x s2] eqn:E2.
  apply (get_spec _ m) in E2 as (Hb2&Hx2&[(msg&->&Ht)|Hg]); [..|done].
  { injection H as <- <-. split; [congruence|]. exists m. eauto using step_trouble. }
  unfold got in Hg. destruct (m !! to q) as [o'|] eqn:Hto; [destruct Hg as [mt' ->]|subst x].
  { simpl in H. injection H as <- <-. split; [congruence|]. exists m. split_and!; [done|left; simpl; by rewrite Ha, Hto|done]. }
  rewrite bool_decide_false in H by (by intros []). unfold st_bind at 1 in H.
  destruct (on_meta (MetadataStore.rename db_fault _ _) s2) as [x s3] eqn:E3.
  apply (set_path_spec _ m _ _ o) in E3 as (Hx3&[(msg&->&Ht&Hb3)|[-> Hb3]]); [..|done|done|done].
  { injection H as <- <-. split; [congruence|]. exists m. eauto using step_trouble. }
  simpl in H. unfold st_bind in H.
  change (ObjectMetadata.mk (to q) _ _ _ now _ _) with (metadata_of (to q) o now) in H.
  destruct (on_meta (MetadataStore.upsert _ _ _) s3) as [x s4] eqn:E4.
  assert (effect sha256 (Rename now q) m = <[to q := o]> (base.delete (from q) m)) as Eff by (simpl; by rewrite Ha, Hto).
  apply (upsert_spec _ (<[to q := o]> (base.delete (from q) m))) in E4 as (Hx4&Hr4); [|done| |done].
  2:{ eapply stored_storable; [exact Hb3|apply lookup_insert_eq]. }
  destruct Hr4 as [(msg&->&Ht&Hb4)|[-> Hb4]]; injection H as <- <-; (split; [congruence|]).
  - exists (<[to q := o]> (base.delete (from q) m)). eauto using step_trouble.
  - unfold created_as in Hb4. rewrite lookup_insert_eq, insert_insert_eq in Hb4.
    exists (<[to q := o]> (base.delete (from q) m)). split_and!; [by destruct o|left|done]. simpl. by rewrite Ha, Hto.
Qed.

Lemma exists_spec s m p r s' :
  brel s m → exists_meta db_fault p s = (r, s') →
  blobs s' = blobs s ∧ brel s' m ∧ step sha256 m (Exists p) (to_reply RBool r) m
  ∧ (hard (to_reply RBool r) = true → db_trouble).
Proof.
  intros Hb H. unfold exists_meta, st_bind in H. destruct (on_meta _ s) as [x s1] eqn:E.
  apply (get_spec _ m) in E as (Hb'&Hx&[(msg&->&Ht)|Hg]); [..|done].
  - injection H as <- <-. split_and!; eauto using step_trouble.
  - unfold got in Hg. assert (x = Ok (match m !! p with Some _ => match x with Ok y => y | Err _ => None end | None => None end)) as Ex
      by (destruct (m !! p); naive_solver).
    destruct x as [y|]; [|done]. injection H as <- <-. split_and!; [done..| |done]. left. simpl. split; [|done]. f_equal.
    apply bool_decide_ext. destruct (m !! p); naive_solver.
Qed.

Lemma select_as_delete {A} (q : A → bool) (l : list A) : select q l = delete_where (λ r, negb (q r)) l.
Proof. apply List.filter_ext. intros r. by rewrite negb_involutive. Qed.

Definition row_entry (r : StorageRow.t) : ListEntry.t :=
  ListEntry.mk (StorageRow.path r) (as_u64 (StorageRow.size r)) (StorageRow.content_sha256 r).

Lemma row_entry_obj c r o : row_obj c r o → row_entry r = entry sha256 (StorageRow.path r) o.
Proof.
  intros [_ _ [Hs Hl] Hsha _ _ _]. unfold row_entry, entry. rewrite Hs, Hsha. f_equal.
  unfold as_u64, i64_max in *. rewrite Z.mod_small; lia.
Qed.

Lemma list_spec s m opts r s' :
  brel s m → list_meta db_fault opts s = (r, s') →
  blobs s' = blobs s ∧ brel s' m ∧ step sha256 m (List opts) (to_reply RList r) m
  ∧ (hard (to_reply RList r) = true → db_trouble).
Proof.
  intros Hb H. unfold list_meta, st_bind at 1 in H. destruct (on_meta _ s) as [x s1] eqn:E.
  apply on_meta_inv in E as [E Hx]. unfold MetadataStore.list_prefix, st_bind in E.
  destruct (MetadataStore.statement _ _ _) as [y d] eqn:Es. apply statement_inv in Es as [(msg&->&Er&Hf)|[-> Er]].
  { injection E as <- Ed. injection H as <- <-. unfold brel. rewrite Hx, <-Ed, Er.
    split_and!; [done..|eauto using step_trouble|]. intros _. by exists (MetadataStore.statements (meta s)), msg. }
  cbn [fst snd] in E, Er. set (rows := MetadataStore.rows (meta s)) in *.
  set (l' := match prefix opts with Some _ => _ | None => _ end) in E.
  set (full := sort_by _ l') in E. set (n := Z.to_nat _) in E.
  assert (∀ row, row ∈ full ↔ row ∈ rows ∧ admits opts (StorageRow.path row) = true) as Hin.
  { intros row. subst full. rewrite elem_of_sort_by. subst l'. unfold admits. destruct (prefix opts).
    - by rewrite elem_of_select.
    - naive_solver. }
  pose proof Hb as [Hk _].
  assert (∀ row, row ∈ rows → ∃ o, m !! StorageRow.path row = Some o ∧ row_obj (content (blobs s) row) row o) as Hobj.
  { intros row Hrow. pose proof (rel_lookup _ _ _ (StorageRow.path row) Hb) as Hl.
    assert (tm rows !! StorageRow.path row = Some row) as Et by (by apply table_map_Some). fold rows in Hl. rewrite Et in Hl.
    destruct (m !! _) as [o|]; naive_solver. }
  set (md := λ row, match MetadataStore.row_to_metadata row with Ok a => a | Err _ => ObjectMetadata.mk "" 0 "" "" 0 0 ∅ end).
  assert (∀ row, row ∈ take n full → MetadataStore.row_to_metadata row = Ok (md row)) as Hmd.
  { intros row (i&Hrow%list_elem_of_lookup_2&_)%elem_of_take. apply Hin in Hrow as [(o&_&Ho)%Hobj _].
    unfold md. by rewrite (row_to_metadata_ok _ _ _ Ho). }
  rewrite (collect_results_ok _ md) in E by exact Hmd. injection E as <- Ed. injection H as <- <-.
  unfold brel. rewrite Hx, <-Ed, Er. split_and!; [done..| |done]. left. split; [|done].
  eexists. split; [done|]. exists (row_entry <$> full). split_and!.
  - rewrite <-list_fmap_compose, <-fmap_take. apply list_fmap_ext. intros i row Hrow%list_elem_of_lookup_2.
    pose proof (Hmd row Hrow) as E. unfold MetadataStore.row_to_metadata in E. simpl.
    destruct (tags_from_json _); [|done]. injection E as E. by rewrite <-E.
  - eapply (StronglySorted_fmap _ (λ a b, Path.str_leb (StorageRow.path a) (StorageRow.path b) = true)); [done|].
    apply sort_by_sorted; [intros a b; apply Path.str_leb_total|intros a b c; apply Path.str_leb_trans].
  - rewrite <-list_fmap_compose. subst full. rewrite sort_by_perm. subst l'. destruct (prefix opts) as [s0|]; [|done].
    change (NoDup (StorageRow.path <$> select (λ r, Like.like (explode s0 ++ ["%"%char]) (explode (StorageRow.path r))) rows)).
    rewrite select_as_delete. by apply NoDup_fmap_delete.
  - intros p o Hp Hadm%under_admits. pose proof (rel_lookup _ _ _ p Hb) as Hl. rewrite Hp in Hl.
    destruct (tm _ !! p) as [row|] eqn:Et; [|done]. destruct Hl as [<- Hro]. apply list_elem_of_fmap. exists row.
    split; [symmetry; by eapply row_entry_obj|]. apply Hin. split; [|done]. by apply table_map_Some in Et as [? _].
  - intros e (row&->&[Hrow Hadm]%Hin)%list_elem_of_fmap. destruct (Hobj _ Hrow) as (o&Ho&Hro).
    exists (StorageRow.path row), o. split_and!; [done|by apply admits_nearly|]. by eapply row_entry_obj.
Qed.
End meta.

(** ** The local disk *)
Section layout.
Import Path BlobLayout LocalDiskBackend.
Context (root : string) (Hroot : root ≠ "").

Lemma blob_path_hex h : LocalDiskBackend.blob_path root (Hex.encode h) = BlobLayout.blob_path root h.
Proof. unfold LocalDiskBackend.blob_path, BlobLayout.blob_path, fan, leaf, Hex.encode. by rewrite !explode_implode. Qed.

Lemma rfind_aux_none c l i : c ∉ l → rfind_aux c l i = None.
Proof.
  revert i. induction l as [|d l IH]; intros i Hc; simpl; [done|].
  rewrite IH by set_solver. rewrite decide_False; [done|]. set_solver.
Qed.

Lemma leaf_no_dot h : "."%char ∉ explode (leaf h).
Proof.
  unfold leaf. rewrite explode_implode. intros Hin.
  assert ("."%char ∈ Hex.chars_of h) as Hc%Hex.chars_of_hex.
  { rewrite <-(take_drop 2 (Hex.chars_of h)). apply elem_of_app. by right. }
  vm_compute in Hc. naive_solver lia.
Qed.

Definition tmp_of (h : bytes) : string := with_extension (BlobLayout.blob_path root h) "tmp".

Lemma tmp_leaf_plain h : hash32 h → plain_name (leaf h +:+ ".tmp").
Proof.
  intros Hh. destruct (leaf_plain h Hh) as (Hn&_&_&Hs).
  assert (∀ t, length (explode t) ≤ 2 → leaf h +:+ ".tmp" ≠ t)%nat as Hlen.
  { intros t Ht <-. rewrite explode_app, length_app in Ht. simpl in Ht. lia. }
  split_and!; [apply Hlen; simpl; lia..|]. unfold sep_free in *. rewrite explode_app, elem_of_app. intros [?|Hx]; [done|].
  vm_compute in Hx. set_solver.
Qed.

Lemma tmp_of_components h :
  hash32 h → components (tmp_of h) = components root ++ [Normal (fan h); Normal (leaf h +:+ ".tmp")].
Proof.
  intros Hh. unfold tmp_of, with_extension.
  assert (file_name (BlobLayout.blob_path root h) = Some (leaf h)) as ->.
  { unfold file_name. rewrite blob_path_components, cons_middle, (assoc_L (++)), last_snoc by done. done. }
  destruct (blob_parent root h Hroot Hh) as (q&Hq&Hc). rewrite Hq. simpl.
  assert (file_stem (leaf h) = leaf h) as ->.
  { unfold file_stem, rfind. by rewrite rfind_aux_none by apply leaf_no_dot. }
  rewrite components_join_plain, Hc, <-(assoc_L (++)); [done| |by apply tmp_leaf_plain].
  apply components_nonempty. rewrite Hc. by destruct (components root).
Qed.

Lemma tmp_not_blob h g : hash32 h → hash32 g → components (tmp_of h) ≠ components (BlobLayout.blob_path root g).
Proof.
  intros Hh Hg. rewrite tmp_of_components, blob_path_components by done. intros H%(inj (app _)). injection H as _ H.
  apply (leaf_no_dot g). rewrite <-H, explode_app. apply elem_of_app. right. vm_compute. set_solver.
Qed.

(** What is below the root: nothing in the way of a blob. *)
Definition roomy (fs : Fs.t) : Prop :=
  (∀ h q, hash32 h → q ∈ Fs.prefixes (components root ++ [Normal (fan h)]) → Fs.files fs !! q = None)
  ∧ ∀ h, hash32 h → (components (BlobLayout.blob_path root h) ∉ Fs.dirs fs) ∧ (components (tmp_of h) ∉ Fs.dirs fs).

Context (f : Fs.faults) (cut : Fs.cuts).

Lemma write_blob_via h data fs :
  write_blob f cut root (Hex.encode h) data fs = put_via f cut root (tmp_of h) h data fs.
Proof. unfold write_blob, put_via, tmp_of. by rewrite blob_path_hex. Qed.

(** Writing makes no directory but those above a blob. *)
Lemma put_via_dirs tmp h data fs r fs' d :
  hash32 h → put_via f cut root tmp h data fs = (r, fs') → d ∈ Fs.dirs fs' →
  d ∈ Fs.dirs fs ∨ (length d ≤ S (length (components root)))%nat.
Proof.
  intros Hh. unfold put_via. intros [(there&fs0&H0&H)|(e&H0&_)]%st_bind_cases Hd;
    apply Fs.stat_spec in H0 as (_&D0&b0&[= <-]&_).
  destruct there; [injection H as _ <-; left; by rewrite <-D0|].
  destruct (blob_parent root h Hroot Hh) as (q&Hq&Hc). rewrite Hq in H. unfold st_bind at 1 in H.
  destruct (Fs.create_dir_all f q fs0) as [[[]|e] fs1] eqn:E1; pose proof (Fs.create_dir_all_dirs _ _ _ _ _ d E1) as D1;
    rewrite Hc, length_app, Nat.add_1_r, D0 in D1; [|simplify_eq; by apply D1].
  unfold st_bind at 1 in H.
  destruct (Fs.create f false tmp fs1) as [[[]|e] fs2] eqn:E2; apply Fs.create_dirs in E2; [|simplify_eq; rewrite E2 in Hd; auto].
  unfold st_bind at 1 in H.
  destruct (Fs.write_all f cut tmp data fs2) as [[[]|e] fs3] eqn:E3; apply Fs.write_all_dirs in E3;
    [|simplify_eq; rewrite E3, E2 in Hd; auto].
  unfold st_bind at 1 in H.
  destruct (Fs.syscall f fs3) as [[[]|e] fs4] eqn:E4; apply Fs.syscall_files in E4 as [_ E4];
    [|simplify_eq; rewrite E4, E3, E2 in Hd; auto].
  destruct (Fs.rename f tmp _ fs4) as [[[]|e] fs5] eqn:E5; apply Fs.rename_dirs in E5;
    [simplify_eq; rewrite E5, E4, E3, E2 in Hd; auto|].
  assert (Fs.dirs fs' = Fs.dirs fs5) as Ed.
  { apply st_bind_cases in H as [(there&fs6&H6&H)|(e'&H6&_)]; apply Fs.stat_spec in H6 as (_&D6&b6&[= <-]&_).
    destruct there; [|injection H as _ <-; done]. unfold Fs.attempt in H.
    destruct (Fs.remove_file f tmp fs6) as [x fs7] eqn:E6. simplify_eq/=. rewrite <-D6. revert E6.
    unfold Fs.remove_file, st_bind, Fs.syscall. destruct (f _); [by intros [= _ <-]|].
    case_match; intros [= _ <-]; done. }
  rewrite Ed, E5, E4, E3, E2 in Hd. auto.
Qed.

(** With room for the blob, only a failing call is an error. *)
Lemma put_via_trouble h data fs e fs' :
  hash32 h → roomy fs → put_via f cut root (tmp_of h) h data fs = (Err e, fs') → ∃ n, is_Some (f n).
Proof.
  intros Hh [Hclear Hdirs]. destruct (Hdirs h Hh) as [Hd Ht]. unfold put_via.
  intros [(there&fs0&H0&H)|(e0&H0&_)]%st_bind_cases; apply Fs.stat_spec in H0 as (F0&D0&b0&[= <-]&_).
  destruct there; [done|]. destruct (blob_parent root h Hroot Hh) as (q&Hq&Hc). rewrite Hq in H. revert H.
  rewrite <-F0 in Hclear. rewrite <-D0 in Hd, Ht. clear F0 D0 Hdirs fs. rename fs0 into fs.
  assert (∀ n, f n = None ∨ ∃ n, is_Some (f n)) as Hf by (intros n; destruct (f n) eqn:?; eauto).
  unfold st_bind, Fs.create_dir_all, st_bind, Fs.syscall at 1.
  destruct (Hf (Fs.calls fs)) as [->|?]; [|done]. cbn [fst snd Fs.files]. rewrite bool_decide_false.
  2:{ rewrite Exists_exists. intros (x&Hx&Hs). rewrite Hc in Hx. rewrite (Hclear h x) in Hs by done. by destruct Hs. }
  set (ds := list_to_set _ ∪ _).
  assert (components root ++ [Normal (fan h)] ∈ ds) as Hin.
  { apply elem_of_union_l, elem_of_list_to_set. rewrite Hc. unfold Fs.prefixes. apply list_elem_of_fmap.
    exists (length (components root ++ [Normal (fan h)])). rewrite take_ge by done. split; [done|]. apply elem_of_seq. lia. }
  assert (∀ x, x ∈ ds → x ∈ Fs.dirs fs ∨ (length x ≤ S (length (components root)))%nat) as Hds.
  { intros x [Hx|Hx]%elem_of_union; [right|by left]. apply elem_of_list_to_set, Fs.prefixes_length in Hx.
    rewrite Hc, length_app in Hx. simpl in Hx. lia. }
  assert (components (tmp_of h) ∉ ds) as Ht'.
  { intros [?|Hl]%Hds; [done|]. rewrite tmp_of_components, length_app in Hl by done. simpl in Hl. lia. }
  assert (components (BlobLayout.blob_path root h) ∉ ds) as Hd'.
  { intros [?|Hl]%Hds; [done|]. rewrite blob_path_components, length_app in Hl by done. simpl in Hl. lia. }
  unfold Fs.create, st_bind, Fs.syscall at 1, Fs.in_dir. destruct (Hf (S (Fs.calls fs))) as [E|?]; [|done].
  cbn [Fs.calls Fs.files Fs.dirs]. rewrite E. cbn [andb].
  rewrite bool_decide_false by done. rewrite bool_decide_true.
  2:{ rewrite tmp_of_components by done. rewrite cons_middle, (assoc_L (++)), removelast_last. done. }
  unfold Fs.write_all. cbn [Fs.calls Fs.set_files Fs.files Fs.dirs]. destruct (Hf (S (S (Fs.calls fs)))) as [->|?]; [|done].
  unfold Fs.syscall at 1. cbn [Fs.calls Fs.files Fs.dirs]. destruct (Hf (S (S (S (Fs.calls fs))))) as [->|?]; [|done].
  unfold Fs.rename, st_bind, Fs.syscall at 1, Fs.in_dir. cbn [Fs.calls Fs.files Fs.dirs].
  destruct (Hf (S (S (S (S (Fs.calls fs)))))) as [->|?]; [|done].
  rewrite lookup_insert_eq. rewrite bool_decide_false by done. rewrite bool_decide_true; [done|].
  rewrite blob_path_components by done. rewrite cons_middle, (assoc_L (++)), removelast_last. done.
Qed.
End layout.

Section local.
Import StorageSpec Path BlobLayout.
Context {json : StorageJson} (sha256 : bytes → bytes) (D : bytes → Prop) (db_fault : nat → option string).
Context (f : Fs.faults) (cut : Fs.cuts) (root : string).
Context (Hroot : root ≠ "") (Hsha : ∀ b, hash32 (sha256 b)).
Context (Hinj : ∀ x y, D x → D y → sha256 x = sha256 y → x = y).

Definition local_content (fs : Fs.t) (r : StorageRow.t) : option bytes :=
  Fs.files fs !! components (LocalDiskBackend.blob_path root (StorageRow.content_sha256 r)).

Lemma local_content_ext fs r r' :
  StorageRow.content_sha256 r = StorageRow.content_sha256 r' →
  StorageRow.object_store_key r = StorageRow.object_store_key r' → local_content fs r = local_content fs r'.
Proof. unfold local_content. by intros ->. Qed.

(** Blobs hold what their names say. *)
Definition local_ok (fs : Fs.t) : Prop :=
  roomy root fs ∧ ∀ h b, hash32 h → blob root fs h = Some b → D b ∧ sha256 b = h.

Lemma roomy_write h data fs r fs' :
  hash32 h → roomy root fs → LocalDiskBackend.write_blob f cut root (Hex.encode h) data fs = (r, fs') → roomy root fs'.
Proof.
  intros Hh [Hclear Hdirs] H. rewrite write_blob_via in H. split.
  - intros g q Hg Hq. apply Fs.prefixes_length in Hq as Hl. rewrite length_app in Hl. simpl in Hl.
    rewrite (put_via_frame _ _ _ _ _ _ _ _ _ H); [by apply (Hclear g)|]. intros [->| ->].
    + rewrite blob_path_components, length_app in Hl by done. simpl in Hl. lia.
    + rewrite tmp_of_components, length_app in Hl by done. simpl in Hl. lia.
  - intros g Hg. destruct (Hdirs g Hg). split; intros Hin;
      (destruct (put_via_dirs _ Hroot _ _ _ _ _ _ _ _ _ Hh H Hin) as [?|Hl]; [done|]).
    + rewrite blob_path_components, length_app in Hl by done. simpl in Hl. lia.
    + rewrite tmp_of_components, length_app in Hl by done. simpl in Hl. lia.
Qed.

Lemma write_blob_spec data fs r fs' :
  local_ok fs → D data → LocalDiskBackend.write_blob f cut root (Hex.encode (sha256 data)) data fs = (r, fs') →
  local_ok fs' ∧ (∀ h b, hash32 h → blob root fs h = Some b → blob root fs' h = Some b)
  ∧ match r with Ok _ => blob root fs' (sha256 data) = Some data | Err _ => ∃ n, is_Some (f n) end.
Proof.
  intros [Hroom Haddr] HD H. set (h := sha256 data) in *. assert (hash32 h) as Hh by apply Hsha.
  pose proof (roomy_write _ _ _ _ _ Hh Hroom H) as Hroom'. rewrite write_blob_via in H.
  pose proof (put_via_stored _ _ _ _ _ _ _ _ _ Hroot Hh (tmp_not_blob root Hroot h h Hh Hh) H) as [Hst _].
  assert (∀ g, hash32 g → g ≠ h → blob root fs' g = blob root fs g) as Hg.
  { intros g Hg Hne. eapply put_via_frame; [exact H|]. intros [E|E]; [by apply blob_path_inj in E|].
    by apply (tmp_not_blob root Hroot h g). }
  assert (∀ b, blob root fs h = Some b → b = data) as Hsame.
  { intros b Hb. destruct (Haddr h b Hh Hb) as [HDb Hsb]. by apply Hinj. }
  assert (match r with Ok _ => blob root fs' h = Some data | Err _ => blob root fs' h = blob root fs h end) as Hself.
  { destruct r as [[]|e]; [|exact Hst]. destruct Hst as [Hst|[Hth Hst]]; [exact Hst|]. unfold blob. rewrite Hst.
    destruct Hroom as [_ Hdirs]. destruct (Fs.there_file _ _ (proj1 (Hdirs h Hh)) Hth) as [b Hb].
    rewrite Hb. f_equal. by apply Hsame. }
  split_and!.
  - split; [done|]. intros g b Hg' Hb. destruct (decide (g = h)) as [->|Hne]; [|rewrite Hg in Hb by done; by apply Haddr].
    destruct r as [[]|e]; [rewrite Hself in Hb; injection Hb as <-; by split|]. rewrite Hself in Hb. by apply Haddr.
  - intros g b Hg' Hb. destruct (decide (g = h)) as [->|Hne]; [|by rewrite Hg].
    destruct r as [[]|e]; [|congruence]. by rewrite Hself, (Hsame b Hb).
  - destruct r as [[]|e]; [exact Hself|]. exact (put_via_trouble _ Hroot _ _ _ _ _ _ _ Hh Hroom H).
Qed.

Definition local_rel (s : backend Fs.t) (m : drive) : Prop :=
  brel sha256 D local_content s m ∧ local_ok (blobs s).

Definition trouble : Prop := db_trouble db_fault ∨ ∃ n, is_Some (f n).

(** What a call did, with the state it left. *)
Definition meets (m : drive) (o : op) (r : reply) (s' : backend Fs.t) : Prop :=
  ∃ m', local_rel s' m' ∧ step sha256 m o r m' ∧ (hard r = true → trouble).

Lemma local_put now p d opts s m r s' :
  local_rel s m → valid D (Put now p d opts) → LocalDiskBackend.put sha256 db_fault f cut root now p d opts s = (r, s') →
  meets m (Put now p d opts) (to_reply RMeta r) s'.
Proof.
  intros [Hb Hok] (HD&Hnow&Hlen) H. unfold LocalDiskBackend.put, st_bind at 1, on_blobs in H.
  cbn [ObjectMetadata.content_sha256 new_metadata] in H.
  destruct (LocalDiskBackend.write_blob _ _ _ _ _ (blobs s)) as [x fs1] eqn:E.
  apply write_blob_spec in E as (Hok1&Hkeep&Hx); [|done..].
  assert (brel sha256 D local_content (mkBackend (meta s) fs1) m) as Hb1.
  { eapply rel_content_mono; [|exact Hb]. intros row b Hrow Hc. unfold local_content in *. simpl.
    pose proof (rel_lookup _ _ _ _ _ (StorageRow.path row) Hb) as Hl.
    assert (table_map StorageRow.path (MetadataStore.rows (meta s)) !! StorageRow.path row = Some row) as Et
      by (by apply table_map_Some; [apply Hb|]). rewrite Et in Hl.
    destruct (m !! _) as [o|]; [|done]. destruct Hl as (_&[_ _ _ Hs _ _ _]). rewrite Hs in *.
    unfold MetadataStore.content_sha256_hex in *. rewrite blob_path_hex in *. by apply Hkeep. }
  destruct x as [[]|e]; cbn [map_err] in H.
  2:{ injection H as <- <-. exists m. split_and!; [by split|right; auto|]. intros _. by right. }
  unfold st_bind in H.
  set (o := mkObject d (MetadataStore.object_key_for p (MetadataStore.content_sha256_hex sha256 d)) (tags opts) now).
  change (new_metadata sha256 now p d opts) with (metadata_of sha256 p o now) in H.
  assert (storable sha256 D local_content fs1 o) as Hst.
  { split_and!; simpl; try done; [lia..|by exists p|]. intros row Hs _. unfold local_content. rewrite Hs.
    unfold MetadataStore.content_sha256_hex. rewrite blob_path_hex. exact Hx. }
  destruct (on_meta _ _) as [y s2] eqn:Eu.
  pose proof (upsert_spec _ _ _ _ _ _ _ _ _ _ _ Hb1 Hst Hnow Eu) as (Hx2&Hr).
  destruct Hr as [(msg&->&Ht&Hb2)|[-> Hb2]]; injection H as <- <-.
  - exists m. split_and!; [split; [done|by rewrite Hx2]|right; auto|]. intros _. by left.
  - eexists. split_and!; [split; [exact Hb2|by rewrite Hx2]| |done]. left. split; [by eexists; split_and!|]. simpl. unfold created_as. done.
Qed.

Lemma local_get p s m r s' :
  local_rel s m → LocalDiskBackend.get db_fault f root p s = (r, s') →
  meets m (Get p) (to_reply RBytes r) s' ∧ (lost sha256 m (Get p) (to_reply RBytes r) → trouble).
Proof.
  intros [Hb Hok] H. unfold LocalDiskBackend.get, st_bind in H. destruct (require_meta db_fault p s) as [x s1] eqn:E.
  pose proof (require_spec _ _ _ _ _ _ _ _ _ Hb E) as (Hb1&Hx&[(msg&->&Ht)|Hg]).
  { injection H as <- <-. split; [|intros _; by left].
    exists m. split_and!; [split; [done|by rewrite Hx]|right; auto|]. intros _. by left. }
  destruct (m !! p) as [o|] eqn:Hm; [destruct Hg as [mt ->]|subst x].
  2:{ injection H as <- <-. split; [|intros (q&o&[= <-]&?&_); congruence].
      exists m. split_and!; [split; [done|by rewrite Hx]|left; simpl; by rewrite Hm|done]. }
  assert (Fs.files (blobs s1) !! components (LocalDiskBackend.blob_path root
    (MetadataStore.content_sha256_hex sha256 (o_data o))) = Some (o_data o)) as Hc.
  { destruct (stored_storable _ _ _ local_content_ext _ _ _ _ Hb1 Hm) as (_&_&_&_&Hx1).
    by apply (Hx1 (StorageRow.mk p 0 (MetadataStore.content_sha256_hex sha256 (o_data o)) (o_key o) 0 0 "" "")). }
  assert (∀ fs2, Fs.files fs2 = Fs.files (blobs s1) → Fs.dirs fs2 = Fs.dirs (blobs s1) →
            local_rel (mkBackend (meta s1) fs2) m) as Hrel.
  { intros fs2 Ef Ed. split.
    - eapply rel_content; [|exact Hb1]. intros row _. unfold local_content. simpl. by rewrite Ef.
    - simpl. rewrite <-Hx in Hok. destruct Hok as [[H1 H2] H3]. unfold local_ok, roomy, blob. by rewrite Ef, Ed. }
  unfold on_blobs, LocalDiskBackend.read_blob in H. cbn [ObjectMetadata.content_sha256 metadata_of] in H.
  set (path := LocalDiskBackend.blob_path root _) in *.
  destruct (Fs.is_file f path (blobs s1)) as [r1 fs2] eqn:E1.
  apply Fs.stat_spec in E1 as (E1&D1&b&->&_&Hn). destruct b.
  - unfold Fs.read, st_bind, Fs.syscall in H. rewrite E1, D1 in H. destruct (f (Fs.calls fs2)) as [e|] eqn:Hf; cbn in H.
    + injection H as <- <-. split; [|intros (q&o'&_&_&[=])].
      exists m. split_and!; [by apply Hrel|right; auto|]. intros _. right. by eexists _, _.
    + rewrite Hc in H. injection H as <- <-. split; [|intros (q&o'&_&_&[=])].
      exists m. split_and!; [by apply Hrel|left; simpl; by rewrite Hm|done].
  - injection H as <- <-. assert (trouble) as Ht.
    { destruct (Hn eq_refl) as [Hno|Hf]; [|right; by eexists]. exfalso. unfold Fs.regular in Hno.
      rewrite bool_decide_true in Hno by (by rewrite Hc). done. }
    split; [|done]. exists m. split_and!; [by apply Hrel|right; split; [right|by left]|done]. by exists p, o.
Qed.

(** Removing a blob no row names. *)
Lemma remove_blob_spec s m h r fs' :
  local_rel s m → hash32 h →
  (∀ row, row ∈ MetadataStore.rows (meta s) → StorageRow.content_sha256 row ≠ Hex.encode h) →
  LocalDiskBackend.remove_blob f root (Hex.encode h) (blobs s) = (r, fs') →
  local_rel (mkBackend (meta s) fs') m ∧ (is_ok r = false → ∃ n, is_Some (f n)).
Proof.
  intros [Hb [[Hclear Hdirs] Haddr]] Hh Hrows H.
  unfold LocalDiskBackend.remove_blob in H. rewrite blob_path_hex in H.
  set (path := BlobLayout.blob_path root h) in *.
  apply st_bind_cases in H as [(there&fs1&H1&H)|(e&H1&_)]; apply Fs.stat_spec in H1 as (E1&D1&b1&[= <-]&Hy&_).
  assert (∀ q, q ≠ components path → Fs.files fs' !! q = Fs.files (blobs s) !! q) as Hother.
  { intros q Hq. rewrite <-E1. destruct there; [|by injection H as _ <-]. by eapply Fs.frame_remove_file. }
  assert ((Fs.files fs' !! components path = Fs.files (blobs s) !! components path
           ∨ Fs.files fs' !! components path = None)
          ∧ Fs.dirs fs' = Fs.dirs (blobs s) ∧ (is_ok r = false → ∃ n, is_Some (f n))) as (Hself&Hd&Hr).
  { rewrite <-E1, <-D1. destruct there; [|injection H as <- <-; split_and!; [by left|done|done]].
    assert (Fs.regular fs1 path = true) as Hfile.
    { apply bool_decide_eq_true. rewrite E1. apply Fs.there_file; [by apply (Hdirs h Hh)|by apply Hy]. }
    revert H. unfold Fs.remove_file, st_bind, Fs.syscall. destruct (f _) eqn:Hf; [intros [= <- <-]; eauto 10|].
    unfold Fs.regular in *. cbn [Fs.files]. rewrite Hfile. intros [= <- <-]. split_and!; [right|done|done]. apply lookup_delete_eq. }
  subst path. split; [|done]. split.
  - eapply rel_content_mono; [|exact Hb]. intros row b Hrow. unfold local_content. simpl. intros Hc. rewrite Hother; [done|].
    pose proof (rel_lookup _ _ _ _ _ (StorageRow.path row) Hb) as Hl.
    assert (table_map StorageRow.path (MetadataStore.rows (meta s)) !! StorageRow.path row = Some row) as Et
      by (by apply table_map_Some; [apply Hb|]). rewrite Et in Hl.
    destruct (m !! _) as [o|]; [|done]. destruct Hl as (_&[_ _ _ Hs _ _ _]). specialize (Hrows _ Hrow).
    rewrite Hs in *. unfold MetadataStore.content_sha256_hex in *. rewrite blob_path_hex.
    intros E. apply Hrows. f_equal. eapply blob_path_inj; [exact Hroot|apply Hsha|exact Hh|exact E].
  - split; [split|]; simpl.
    + intros g q Hg Hq. rewrite Hother; [by apply (Hclear g)|]. intros ->. apply Fs.prefixes_length in Hq.
      rewrite blob_path_components, !length_app in Hq by done. simpl in Hq. lia.
    + intros g Hg. rewrite Hd. by apply Hdirs.
    + intros g b Hg Hblob. apply Haddr; [done|]. unfold blob in *.
      destruct (decide (components (BlobLayout.blob_path root g) = components (BlobLayout.blob_path root h))) as [E|E].
      * rewrite E in *. destruct Hself as [Hs|Hs]; rewrite Hs in Hblob; [done|discriminate].
      * by rewrite <-Hother.
Qed.

Lemma local_delete p s m r s' :
  local_rel s m → LocalDiskBackend.delete db_fault f root p s = (r, s') → meets m (Delete p) (to_reply (λ _, RUnit) r) s'.
Proof.
  intros [Hb Hok] H. unfold LocalDiskBackend.delete, st_bind at 1 in H. destruct (require_meta db_fault p s) as [x s1] eqn:E.
  pose proof (require_spec _ _ _ _ _ _ _ _ _ Hb E) as (Hb1&Hx&[(msg&->&Ht)|Hg]).
  { injection H as <- <-. exists m. split_and!; [split; [done|by rewrite Hx]|right; auto|]. intros _. by left. }
  destruct (m !! p) as [o|] eqn:Hm; [destruct Hg as [mt ->]|subst x].
  2:{ injection H as <- <-. exists m. split_and!; [split; [done|by rewrite Hx]| |done].
      left. simpl. rewrite Hm. split; [done|]. by rewrite delete_id. }
  unfold st_bind at 1 in H. destruct (on_meta (MetadataStore.delete db_fault p) s1) as [x s2] eqn:E2.
  pose proof (delete_spec _ _ _ _ _ _ _ _ _ Hb1 E2) as (Hx2&[(msg&->&Ht&Hb2)|[-> Hb2]]).
  { injection H as <- <-. exists m. split_and!; [split; [done|by rewrite Hx2, Hx]|right; auto|]. intros _. by left. }
  rewrite Hm in H. cbn [is_Some] in H. rewrite bool_decide_true in H by eauto. cbn [negb] in H.
  unfold LocalDiskBackend.delete_blob_if_unreferenced, st_bind in H.
  destruct (on_meta _ s2) as [x s3] eqn:E3. pose proof (count_spec _ _ _ _ _ _ _ _ _ Hb2 E3) as (Hx3&Hb3&Hn).
  assert (local_rel s3 (base.delete p m)) as Hl3 by (split; [done|]; by rewrite Hx3, Hx2, Hx).
  assert (∀ e, hard (RErr e) = true → trouble → meets m (Delete p) (RErr e) s3) as Herr.
  { intros e He Ht. exists (base.delete p m). split_and!; [done|right; auto|done]. }
  assert (meets m (Delete p) RUnit s3) as Hdone.
  { exists (base.delete p m). split_and!; [done| |done]. left. simpl. by rewrite Hm. }
  destruct Hn as [(msg&->&Ht)|(n&->&Hn)].
  { injection H as <- <-. apply Herr; [done|]. by left. }
  destruct (bool_decide_reflect (n = 0%nat)) as [Hn0|Hn0]; [|injection H as <- <-; exact Hdone].
  unfold on_blobs in H. cbn [ObjectMetadata.content_sha256 metadata_of] in H. unfold MetadataStore.content_sha256_hex in *.
  destruct (LocalDiskBackend.remove_blob _ _ _ _) as [x fs4] eqn:E4. injection H as <- <-.
  destruct (remove_blob_spec s3 (base.delete p m) (sha256 (o_data o)) x fs4) as [Hl4 Ht]; [done|apply Hsha|by apply Hn|done|].
  exists (base.delete p m). split; [done|]. destruct x as [[]|e]; (split; [|]).
  - left. simpl. by rewrite Hm.
  - done.
  - right. auto.
  - intros _. right. by apply Ht.
Qed.

Definition local_backend : StorageBackend (backend Fs.t) := LocalDiskBackend.backend_instance sha256 db_fault f cut root.

Lemma local_step s m o r s' :
  local_rel s m → valid D o → @run_op _ local_backend o s = (r, s') →
  ∃ m', local_rel s' m' ∧ fair_step sha256 trouble m o r m'.
Proof.
  intros Hr Hv H.
  assert (meets m o r s' ∧ (lost sha256 m o r → trouble)) as [(m'&Hr'&Hs&Ht) Hl];
    [|exists m'; split; [done|]; by apply step_fair].
  assert (meets m o r s' → (∀ p, o ≠ Get p) → meets m o r s' ∧ (lost sha256 m o r → trouble)) as Hother.
  { intros Hm Hno. split; [done|]. intros (p&obj&->&_). by destruct (Hno p). }
  assert (∀ A (g : A → reply) x s1, blobs s1 = blobs s →
    (∃ m', brel sha256 D local_content s1 m' ∧ step sha256 m o (to_reply g x) m' ∧ (hard (to_reply g x) = true → db_trouble db_fault)) →
    meets m o (to_reply g x) s1) as Hmeta.
  { intros A g x s1 Hx (m1&Hb&Hst&Ht). exists m1. split_and!; [split; [done|]; rewrite Hx; apply Hr|done|].
    intros Hh. left. by apply Ht. }
  destruct Hr as [Hb Hok]. destruct o as [now p d opts|p|p|now q|opts|p]; cbn in H.
  - destruct (LocalDiskBackend.put _ _ _ _ _ _ _ _ _ s) as [x s1] eqn:E. injection H as <- <-. apply Hother; [by eapply local_put|done].
  - destruct (LocalDiskBackend.get _ _ _ _ s) as [x s1] eqn:E. injection H as <- <-. by eapply local_get.
  - destruct (LocalDiskBackend.delete _ _ _ _ s) as [x s1] eqn:E. injection H as <- <-. apply Hother; [by eapply local_delete|done].
  - destruct (LocalDiskBackend.rename _ _ _ s) as [x s1] eqn:E. injection H as <- <-.
    destruct (move_spec _ _ _ _ local_content_ext _ _ _ _ _ _ Hb Hv E) as [Hx Hm]. apply Hother; [by apply Hmeta|done].
  - destruct (LocalDiskBackend.list _ _ s) as [x s1] eqn:E. injection H as <- <-.
    destruct (list_spec _ _ _ _ _ _ _ _ _ Hb E) as (Hx&Hm). apply Hother; [|done]. apply Hmeta; [done|]. eauto.
  - destruct (LocalDiskBackend.exists_ _ _ s) as [x s1] eqn:E. injection H as <- <-.
    destruct (exists_spec _ _ _ _ _ _ _ _ _ Hb E) as (Hx&Hm). apply Hother; [|done]. apply Hmeta; [done|]. eauto.
Qed.

#[export] Instance local_contract : @StorageContract (backend Fs.t) local_backend sha256 D trouble :=
  {| sb_rel := local_rel; sb_step := local_step |}.
End local.

(** ** The bucket *)
Section s3.
Import StorageSpec S3Client.
Context {json : StorageJson} (sha256 : bytes → bytes) (D : bytes → Prop) (db_fault : nat → option string).
Context (net : nat → fate) (presign : string → Z → result string string).
Context (Hsha : ∀ b, hash32 (sha256 b)).
Context (Hinj : ∀ x y, D x → D y → sha256 x = sha256 y → x = y).

Definition s3_content (b : bucket) (r : StorageRow.t) : option bytes := objects b !! StorageRow.object_store_key r.

Lemma s3_content_ext b r r' :
  StorageRow.content_sha256 r = StorageRow.content_sha256 r' →
  StorageRow.object_store_key r = StorageRow.object_store_key r' → s3_content b r = s3_content b r'.
Proof. unfold s3_content. by intros _ ->. Qed.

(** The key of an object ends in its digest. *)
Lemma object_key_inj p q h g :
  hash32 h → hash32 g →
  MetadataStore.object_key_for p (Hex.encode h) = MetadataStore.object_key_for q (Hex.encode g) → h = g.
Proof.
  intros Hh Hg E%(f_equal explode). unfold MetadataStore.object_key_for, Hex.encode in E.
  rewrite !explode_app, !explode_implode in E. apply Hex.chars_of_inj.
  rewrite !(assoc_L (++)) in E. apply app_inj_2 in E as [_ E]; [done|]. by rewrite !Hex.length_chars_of, Hh, Hg.
Qed.

Definition net_trouble : Prop := ∃ n, net n ≠ Served.

(** What every attempt keeps, the retries keep. *)
Lemma retry_inv {S A} (P : S → Prop) (Q : A → S → Prop) (T : StorageError → Prop) (operation : stm S StorageError A) n s r s' :
  (∀ s r s', P s → operation s = (r, s') → P s' ∧ match r with Ok a => Q a s' | Err e => T e end) →
  P s → retry operation n s = (r, s') → P s' ∧ match r with Ok a => Q a s' | Err e => T e end.
Proof.
  intros Hop. revert s. induction n as [|n IH]; intros s Hs H; cbn in H;
    destruct (operation s) as [[a|e] s1] eqn:E; destruct (Hop _ _ _ Hs E) as [Hs1 Hr]; try by simplify_eq.
  destruct (is_transient e); [by eapply IH|by simplify_eq].
Qed.

Definition net_error (e : StorageError) : Prop := hard (RErr e) = true ∧ net_trouble.

Lemma map_sdk_error_hard code text : hard (RErr (map_sdk_error code text)) = true.
Proof. unfold map_sdk_error. by case_match. Qed.

(** A write to one key: the old content or the new one, the new one when it
    succeeded. *)
Lemma send_spec key v (effect : gmap string bytes → gmap string bytes) n b r b' :
  (∀ m, effect m !! key = v ∧ ∀ k, k ≠ key → effect m !! k = m !! k) →
  retry (send net effect) n b = (r, b') →
  (∀ k, k ≠ key → objects b' !! k = objects b !! k)
  ∧ (objects b' !! key = objects b !! key ∨ objects b' !! key = v)
  ∧ match r with Ok _ => objects b' !! key = v | Err e => net_error e end.
Proof.
  intros Heff H.
  destruct (retry_inv (λ c, (∀ k, k ≠ key → objects c !! k = objects b !! k)
                            ∧ (objects c !! key = objects b !! key ∨ objects c !! key = v))
              (λ _ c, objects c !! key = v) net_error (send net effect) n b r b') as [[Ho Hk] Hr]; [|by split; [|left]|done|done].
  clear -Heff. intros c r c' [Ho Hk] H. unfold send in H. destruct (Heff (objects c)) as [He1 He2].
  assert (net (requests c) ≠ Served → net_trouble) as Ht by (intros; by exists (requests c)).
  destruct (net (requests c)) eqn:E; injection H as <- <-; simpl; unfold net_error; split_and!; try done; auto;
    try (intros k Hne; by rewrite He2; auto); try apply map_sdk_error_hard; by apply Ht.
Qed.

Lemma fetch_spec key v n b r b' :
  objects b !! key = Some v → retry (fetch net key) n b = (r, b') →
  objects b' = objects b ∧ match r with Ok x => x = v | Err e => net_error e end.
Proof.
  intros Hv H. apply (retry_inv (λ c, objects c = objects b) (λ x _, x = v) net_error) in H as [Ho Hr]; [by split| |done].
  clear -Hv. intros c r c' Hc H. unfold fetch in H. rewrite Hc, Hv in H.
  assert (net (requests c) ≠ Served → net_trouble) as Ht by (intros; by exists (requests c)).
  destruct (net (requests c)) eqn:E; injection H as <- <-; simpl; unfold net_error; split_and!; try done;
    try apply map_sdk_error_hard; by apply Ht.
Qed.

Abbreviation s3_rel := (brel sha256 D s3_content).
Definition s3_trouble : Prop := db_trouble db_fault ∨ net_trouble.
Definition s3_meets (m : drive) (o : op) (r : reply) (s' : backend bucket) : Prop :=
  ∃ m', s3_rel s' m' ∧ step sha256 m o r m' ∧ (hard r = true → s3_trouble).

Lemma s3_put now p d opts s m r s' :
  s3_rel s m → valid D (Put now p d opts) → S3StorageBackend.put sha256 db_fault net now p d opts s = (r, s') →
  s3_meets m (Put now p d opts) (to_reply RMeta r) s'.
Proof.
  intros Hb (HD&Hnow&Hlen) H. unfold S3StorageBackend.put, st_bind at 1, S3StorageBackend.on_bucket, on_blobs in H.
  set (o := mkObject d (MetadataStore.object_key_for p (MetadataStore.content_sha256_hex sha256 d)) (tags opts) now).
  change (new_metadata sha256 now p d opts) with (metadata_of sha256 p o now) in H.
  change (ObjectMetadata.object_store_key (metadata_of sha256 p o now)) with (o_key o) in H.
  destruct (put_object net (o_key o) d (blobs s)) as [x b1] eqn:E.
  apply (send_spec (o_key o) (Some d)) in E as (Hother&Hself&Hx).
  2:{ intros m0. split; [apply lookup_insert_eq|intros k Hk; by apply lookup_insert_ne]. }
  assert (s3_rel (mkBackend (meta s) b1) m) as Hb1.
  { eapply rel_content_mono; [|exact Hb]. intros row c Hrow Hc. unfold s3_content in *. simpl.
    pose proof (rel_lookup _ _ _ _ _ (StorageRow.path row) Hb) as Hl.
    assert (table_map StorageRow.path (MetadataStore.rows (meta s)) !! StorageRow.path row = Some row) as Et
      by (by apply table_map_Some; [apply Hb|]). rewrite Et in Hl.
    destruct (m !! _) as [o'|]; [|done]. destruct Hl as (_&[Hc' HD' _ _ [Hk [q Hq]] _ _]). unfold s3_content in Hc'.
    destruct (decide (StorageRow.object_store_key row = o_key o)) as [Ek|Ek]; [|by rewrite Hother].
    assert (o_data o' = d) as Ed.
    { apply Hinj; [done..|]. apply (object_key_inj q p); [apply Hsha..|]. exact (eq_trans (eq_sym Hq) (eq_trans (eq_sym Hk) Ek)). }
    rewrite Ek in *. destruct Hself as [->| ->]; [done|]. congruence. }
  destruct x as [[]|e]; cbn [map_err] in H.
  2:{ injection H as <- <-. destruct Hx as [He Ht]. exists m. split_and!; [done|right; auto|]. intros _. by right. }
  unfold st_bind in H.
  assert (storable sha256 D s3_content b1 o) as Hst.
  { split_and!; simpl; try done; [lia..|by exists p|]. intros row _ Hk. unfold s3_content. by rewrite Hk. }
  destruct (on_meta _ _) as [y s2] eqn:Eu.
  pose proof (upsert_spec _ _ _ _ _ _ _ _ _ _ _ Hb1 Hst Hnow Eu) as (Hx2&Hr).
  destruct Hr as [(msg&->&Ht&Hb2)|[-> Hb2]]; injection H as <- <-.
  - exists m. split_and!; [done|right; auto|]. intros _. by left.
  - eexists. split_and!; [exact Hb2| |done]. left. split; [by eexists; split_and!|]. simpl. unfold created_as. done.
Qed.

Lemma s3_get p s m r s' :
  s3_rel s m → S3StorageBackend.get db_fault net p s = (r, s') → s3_meets m (Get p) (to_reply RBytes r) s' ∧ (lost sha256 m (Get p) (to_reply RBytes r) → s3_trouble).
Proof.
  intros Hb H. unfold S3StorageBackend.get, st_bind in H. destruct (require_meta db_fault p s) as [x s1] eqn:E.
  pose proof (require_spec _ _ _ _ _ _ _ _ _ Hb E) as (Hb1&Hx&[(msg&->&Ht)|Hg]).
  { injection H as <- <-. split; [|intros _; by left]. exists m. split_and!; [done|right; auto|]. intros _. by left. }
  destruct (m !! p) as [o|] eqn:Hm; [destruct Hg as [mt ->]|subst x].
  2:{ injection H as <- <-. split; [|intros (q&o&[= <-]&?&_); congruence].
      exists m. split_and!; [done|left; simpl; by rewrite Hm|done]. }
  assert (objects (blobs s1) !! o_key o = Some (o_data o)) as Hc.
  { destruct (stored_storable _ _ _ s3_content_ext _ _ _ _ Hb1 Hm) as (_&_&_&_&Hx1).
    by apply (Hx1 (StorageRow.mk p 0 (MetadataStore.content_sha256_hex sha256 (o_data o)) (o_key o) 0 0 "" "")). }
  unfold S3StorageBackend.on_bucket, on_blobs in H. cbn [ObjectMetadata.object_store_key metadata_of] in H.
  destruct (get_object net (o_key o) (blobs s1)) as [y b2] eqn:E2. apply (fetch_spec _ _ _ _ _ _ Hc) in E2 as [Ho Hy].
  injection H as <- <-. split; [|destruct y; [intros (q&o'&_&_&[=])|intros _; right; by apply Hy]]. exists m. split.
  { eapply rel_content; [|exact Hb1]. intros row _. unfold s3_content. simpl. by rewrite Ho. }
  destruct y as [y|e]; [subst y|destruct Hy as [He Ht]]; (split; [|]).
  - left. simpl. by rewrite Hm.
  - done.
  - right. auto.
  - intros _. by right.
Qed.

Lemma s3_delete p s m r s' :
  s3_rel s m → S3StorageBackend.delete db_fault net p s = (r, s') → s3_meets m (Delete p) (to_reply (λ _, RUnit) r) s'.
Proof.
  intros Hb H. unfold S3StorageBackend.delete, st_bind at 1 in H. destruct (require_meta db_fault p s) as [x s1] eqn:E.
  pose proof (require_spec _ _ _ _ _ _ _ _ _ Hb E) as (Hb1&Hx&[(msg&->&Ht)|Hg]).
  { injection H as <- <-. exists m. split_and!; [done|right; auto|]. intros _. by left. }
  destruct (m !! p) as [o|] eqn:Hm; [destruct Hg as [mt ->]|subst x].
  2:{ injection H as <- <-. exists m. split_and!; [done| |done]. left. simpl. rewrite Hm. split; [done|]. by rewrite delete_id. }
  unfold st_bind at 1 in H. destruct (on_meta (MetadataStore.delete db_fault p) s1) as [x s2] eqn:E2.
  pose proof (delete_spec _ _ _ _ _ _ _ _ _ Hb1 E2) as (Hx2&[(msg&->&Ht&Hb2)|[-> Hb2]]).
  { injection H as <- <-. exists m. split_and!; [done|right; auto|]. intros _. by left. }
  rewrite Hm, bool_decide_true in H by eauto. cbn [negb] in H. unfold st_bind in H.
  destruct (on_meta _ s2) as [x s3] eqn:E3. pose proof (count_spec _ _ _ _ _ _ _ _ _ Hb2 E3) as (Hx3&Hb3&Hn).
  destruct Hn as [(msg&->&Ht)|(n&->&Hn)].
  { injection H as <- <-. exists (base.delete p m). split_and!; [done|right; auto|]. intros _. by left. }
  destruct (bool_decide_reflect (n = 0%nat)) as [Hn0|Hn0].
  2:{ injection H as <- <-. exists (base.delete p m). split_and!; [done| |done]. left. simpl. by rewrite Hm. }
  unfold S3StorageBackend.on_bucket, on_blobs in H. cbn [ObjectMetadata.object_store_key metadata_of] in H.
  destruct (delete_object net (o_key o) (blobs s3)) as [y b4] eqn:E4. injection H as <- <-.
  apply (send_spec (o_key o) None) in E4 as (Hother&_&Hy).
  2:{ intros m0. split; [apply lookup_delete_eq|intros k Hk; by apply lookup_delete_ne]. }
  destruct (stored_storable _ _ _ s3_content_ext _ _ _ _ Hb1 Hm) as (_&_&_&[q Hq]&_).
  exists (base.delete p m). split.
  { eapply rel_content_mono; [|exact Hb3]. intros row c Hrow Hc. unfold s3_content in *. simpl.
    pose proof (rel_lookup _ _ _ _ _ (StorageRow.path row) Hb3) as Hl.
    assert (table_map StorageRow.path (MetadataStore.rows (meta s3)) !! StorageRow.path row = Some row) as Et
      by (by apply table_map_Some; [apply Hb3|]). rewrite Et in Hl.
    destruct (base.delete p m !! _) as [o'|]; [|done]. destruct Hl as (_&[_ _ _ Hs [Hk [q' Hq']] _ _]).
    rewrite Hother; [done|]. intros Ek. apply (Hn Hn0 row Hrow). rewrite Hs.
    apply (f_equal Hex.encode), (object_key_inj q' q); [apply Hsha..|]. exact (eq_trans (eq_sym Hq') (eq_trans (eq_sym Hk) (eq_trans Ek Hq))). }
  destruct y as [[]|e]; [|destruct Hy as [He Ht]]; (split; [|]).
  - left. simpl. by rewrite Hm.
  - done.
  - right. auto.
  - intros _. by right.
Qed.

Definition s3_backend : StorageBackend (backend bucket) := S3StorageBackend.backend_instance sha256 db_fault net presign.

Lemma s3_step s m o r s' :
  s3_rel s m → valid D o → @run_op _ s3_backend o s = (r, s') →
  ∃ m', s3_rel s' m' ∧ fair_step sha256 s3_trouble m o r m'.
Proof.
  intros Hb Hv H.
  assert (s3_meets m o r s' ∧ (lost sha256 m o r → s3_trouble)) as [(m'&Hr'&Hs&Ht) Hl];
    [|exists m'; split; [done|]; by apply step_fair].
  assert (s3_meets m o r s' → (∀ p, o ≠ Get p) → s3_meets m o r s' ∧ (lost sha256 m o r → s3_trouble)) as Hother.
  { intros Hm Hno. split; [done|]. intros (p&obj&->&_). by destruct (Hno p). }
  assert (∀ r', (∃ m', s3_rel s' m' ∧ step sha256 m o r' m' ∧ (hard r' = true → db_trouble db_fault)) → s3_meets m o r' s') as Hmeta.
  { intros r' (m1&?&?&Ht). exists m1. split_and!; [done..|]. intros Hh. left. by apply Ht. }
  destruct o as [now p d opts|p|p|now q|opts|p]; cbn in H.
  - destruct (S3StorageBackend.put _ _ _ _ _ _ _ s) as [x s1] eqn:E. injection H as <- <-. apply Hother; [by eapply s3_put|done].
  - destruct (S3StorageBackend.get _ _ _ s) as [x s1] eqn:E. injection H as <- <-. by eapply s3_get.
  - destruct (S3StorageBackend.delete _ _ _ s) as [x s1] eqn:E. injection H as <- <-. apply Hother; [by eapply s3_delete|done].
  - destruct (S3StorageBackend.rename _ _ _ s) as [x s1] eqn:E. injection H as <- <-.
    destruct (move_spec _ _ _ _ s3_content_ext _ _ _ _ _ _ Hb Hv E) as [Hx Hm]. apply Hother; [by apply Hmeta|done].
  - destruct (S3StorageBackend.list _ _ s) as [x s1] eqn:E. injection H as <- <-.
    destruct (list_spec _ _ _ _ _ _ _ _ _ Hb E) as (Hx&Hm). apply Hother; [|done]. apply Hmeta. eauto.
  - destruct (S3StorageBackend.exists_ _ _ s) as [x s1] eqn:E. injection H as <- <-.
    destruct (exists_spec _ _ _ _ _ _ _ _ _ Hb E) as (Hx&Hm). apply Hother; [|done]. apply Hmeta. eauto.
Qed.

#[export] Instance s3_contract : @StorageContract (backend bucket) s3_backend sha256 D s3_trouble :=
  {| sb_rel := s3_rel; sb_step := s3_step |}.
End s3.

Module StorageTheorems.
Import StorageSpec.

(** A blob directory with nothing in it yet. *)
Definition empty_store (root : string) (fs : Fs.t) : Prop :=
  roomy root fs ∧ ∀ h, hash32 h → blob root fs h = None.

Lemma empty_local_rel {json : StorageJson} sha256 D root fs n :
  empty_store root fs → local_rel sha256 D root (mkBackend (MetadataStore.mk [] n) fs) ∅.
Proof.
  intros [Hroom Hno]. split; [split; [constructor|apply map_Forall2_empty]|]. split; [done|].
  intros h b Hh. simpl. by rewrite Hno.
Qed.


(** A text for tags and policies, and a digest for two contents. *)
#[local] Open Scope positive_scope.
Fixpoint demo_digits (p : positive) : string :=
  match p with xH => "" | xO p => String "0"%char (demo_digits p) | xI p => String "1"%char (demo_digits p) end.
Fixpoint demo_number (s : string) : positive :=
  match s with
  | EmptyString => 1
  | String c s => if Ascii.eqb c "0"%char then (demo_number s)~0 else (demo_number s)~1
  end.
#[local] Open Scope Z_scope.
Lemma demo_number_digits p : demo_number (demo_digits p) = p.
Proof. induction p as [p IH|p IH|]; simpl; by rewrite ?IH. Qed.

#[local] Instance demo_storage_json : StorageJson.
Proof.
  refine {|
    tags_to_json t := demo_digits (encode (map_to_list t));
    tags_from_json s := list_to_map <$> decode (demo_number s);
    lifecycle_to_json l := demo_digits (encode (retain_forever l, manual_delete_only l));
    lifecycle_from_json s := (λ '(a, b), mkLifecycle a b) <$> decode (demo_number s)
  |}.
  - intros t. rewrite demo_number_digits, decode_encode. simpl. by rewrite list_to_map_to_list.
  - intros [a b]. by rewrite demo_number_digits, decode_encode.
Defined.

Definition demo_sha (b : bytes) : bytes := take 32 (b ++ replicate 32 x00).
Definition demo_contents (b : bytes) : Prop := b ∈ [[x41]; [x42]].
Definition demo_ops : list op :=
  [Put 5 "a" [x41] (mkPut None ∅); Put 6 "b" [x41] (mkPut None ∅); Delete "a"; Get "b"; Rename 7 (mkRename "b" "c"); Exists "b"; Get "c"].
Definition demo_local : backend Fs.t := mkBackend (MetadataStore.mk [] 0) (Fs.mk ∅ ∅ 0).
Definition demo_bucket : backend S3Client.bucket := mkBackend (MetadataStore.mk [] 0) (S3Client.mkBucket ∅ 0).

Lemma demo_sha_hash b : hash32 (demo_sha b).
Proof. unfold hash32, demo_sha. rewrite length_take, length_app, length_replicate. lia. Qed.

Lemma demo_sha_inj x y : demo_contents x → demo_contents y → demo_sha x = demo_sha y → x = y.
Proof.
  unfold demo_contents. rewrite !elem_of_cons, !elem_of_nil.
  intros [->|[->|[]]] [->|[->|[]]]; vm_compute; congruence.
Qed.

Lemma demo_ops_valid : Forall (valid demo_contents) demo_ops.
Proof. unfold demo_ops, valid, demo_contents, i64_max. repeat constructor; simpl; try lia; set_solver. Qed.

Abbreviation local_sb := (local_backend demo_sha (λ _, None) (λ _, None) (λ _, 0%nat) "/blobs").
Abbreviation s3_sb := (s3_backend demo_sha (λ _, None) (λ _, S3Client.Served) (λ _ _, Err "")).

Lemma demo_store_empty : empty_store "/blobs" (Fs.mk ∅ ∅ 0).
Proof.
  split; [split|].
  - intros h q _ _. apply lookup_empty.
  - intros h _. split; apply not_elem_of_empty.
  - intros h _. unfold blob. simpl. by rewrite lookup_empty.
Qed.


(** A blob whose file cannot be examined is reported as not found. *)
Example failing_stat_not_found :
  let f n := if bool_decide (n = 6%nat) then Some (Fs.IoError Fs.OtherKind "EIO") else None in
  (@run _ (local_backend demo_sha (λ _, None) f (λ _, 0%nat) "/blobs") [Put 5 "a" [x41] (mkPut None ∅); Get "a"; Get "a"]
     demo_local).1 !! 1%nat = Some (RErr (NotFound (Hex.encode (demo_sha [x41])))).
Proof. vm_compute. reflexivity. Qed.

(** The prefix is a pattern: an underscore admits any character, and letters
    match in either case. *)
Example list_admits_others :
  admits (mkList (Some "a_b/") None) "axb/secret" = true ∧ starts_with "axb/secret" "a_b/" = false
  ∧ admits (mkList (Some "Team/") None) "team/notes" = true ∧ starts_with "team/notes" "Team/" = false.
Proof. vm_compute. done. Qed.

(** Contents left behind: overwriting a path keeps the old one, and in the
    bucket deleting two paths with one content keeps that of the first. *)
Example overwritten_blob_stays :
  Fs.files (blobs (@run _ local_sb [Put 5 "a" [x41] (mkPut None ∅); Put 6 "a" [x42] (mkPut None ∅); Delete "a"] demo_local).2)
    !! Path.components (BlobLayout.blob_path "/blobs" (demo_sha [x41])) = Some [x41].
Proof. vm_compute. reflexivity. Qed.

Example deleted_object_stays :
  S3Client.objects (blobs (@run _ s3_sb [Put 5 "a" [x41] (mkPut None ∅); Put 6 "b" [x41] (mkPut None ∅); Delete "a"; Delete "b"] demo_bucket).2)
    !! MetadataStore.object_key_for "a" (Hex.encode (demo_sha [x41])) = Some [x41].
Proof. vm_compute. reflexivity. Qed.

(** The metadata a put returns says the object was created now; the row keeps
    the time of the first put. *)
Example put_reports_now :
  ∃ m o, (@run _ local_sb [Put 5 "a" [x41] (mkPut None ∅); Put 6 "a" [x42] (mkPut None ∅)] demo_local).1 !! 1%nat = Some (RMeta m)
    ∧ ObjectMetadata.created_at m = 6
    ∧ head (MetadataStore.rows (meta (@run _ local_sb [Put 5 "a" [x41] (mkPut None ∅); Put 6 "a" [x42] (mkPut None ∅)] demo_local).2)) = Some o
    ∧ StorageRow.created_at_ns o = 5.
Proof. do 2 eexists. split_and!; vm_compute; reflexivity. Qed.
End StorageTheorems.
