(* ===== verification/VaultKey.v ===== *)
(** * Keys on a client ([disk-client/src/mtls.rs], [keychain.rs], [vault_key.rs])

    The permission audit and the client's TLS material, the two stores of named
    secrets behind one trait, and the vault key: unlocking, importing, locking,
    resolving. The operating system's keyring and the JSON text of a record are
    classes; permission bits stand beside the file system. *)

From stdpp Require Import prelude gmap strings pretty functions.
From Stdlib Require Import ZArith Lia Strings.Byte Strings.Ascii.
From S2P Require Import Prelude Text PathFacts Types VectorClock Fs BlobStore E2ee.

#[local] Open Scope Z_scope.

(** ** The keyring of the operating system *)
Inductive keyring_error := NoEntry | PlatformFailure (msg : string).

Class Keyring := {
  ring : Type;
  entry_new : string → string → result unit keyring_error;
  set_password : string → string → string → stm ring keyring_error unit;
  get_password : string → string → stm ring keyring_error string;
  delete_credential : string → string → stm ring keyring_error unit
}.

(** ** The machine: files, their permission bits, the keyring *)
Record machine (R : Type) := mkMachine {
  fs : Fs.t;
  modes : list Path.component → Z;
  keys : R
}.
Arguments mkMachine {_} _ _ _.
Arguments fs {_} _.
Arguments modes {_} _ _.
Arguments keys {_} _.

(** ** [mtls.rs] *)
Module Mtls.
Import Path.

Definition MAX_KEY_MODE : Z := 6 * 8 * 8.

Inductive MtlsError :=
  | Io (path : string) (source : Fs.io_error)
  | InsecureKeyPerms (path : string) (mode max : Z)
  | InvalidPem (path : string) (reason : string).

Record Identity := mkIdentity { cert : bytes; key : bytes }.
Record ServerSection := mkServer { client_cert : string; client_key : string; server_ca : option string }.
Record ClientTlsConfig := mkTls { identity : Identity; ca_certificate : option bytes }.

Section mtls.
Context {R : Type} (f : Fs.faults).

Definition on_fs {A E} (wrap : Fs.io_error → E) (m : Fs.io A) : stm (machine R) E A := λ w,
  let '(r, s) := m (fs w) in (map_err wrap r, mkMachine s (modes w) (keys w)).

(** [fs::metadata(path)?.mode()]. *)
Definition metadata_mode (path : string) : stm (machine R) Fs.io_error Z :=
  _ <~ on_fs (λ e, e) (Fs.syscall f) ;;
  λ w, (if Fs.there (fs w) path then Ok (modes w (components path))
        else Err (Fs.IoError Fs.NotFound "no such file"), w).

Definition at_path {A} (path : string) (m : stm (machine R) Fs.io_error A) : stm (machine R) MtlsError A := λ w,
  let '(r, w) := m w in (map_err (Io path) r, w).

Definition audit_key_permissions (path : string) : stm (machine R) MtlsError unit :=
  m <~ at_path path (metadata_mode path) ;;
  let mode := Z.land m (8 * 8 * 8 - 1) in
  if bool_decide (Z.land mode (u32_max - MAX_KEY_MODE) = 0) then st_ret tt
  else st_err (InsecureKeyPerms path mode MAX_KEY_MODE).

Definition read_pem (path : string) : stm (machine R) MtlsError bytes := on_fs (Io path) (Fs.read f path).

Definition sanity_check_pem (path : string) (b : bytes) (expected_tag : string) : result unit MtlsError :=
  if negb (bytes_utf8 b) then Err (InvalidPem path "not valid UTF-8")
  else if contains (String.string_of_list_byte b) ("-----BEGIN " +:+ expected_tag) then Ok tt
  else Err (InvalidPem path ("no `BEGIN " +:+ expected_tag +:+ "` block found")).

Definition load_client_identity (cert_path key_path : string) : stm (machine R) MtlsError Identity :=
  _ <~ audit_key_permissions key_path ;;
  cert_pem <~ read_pem cert_path ;;
  _ <~ st_lift (sanity_check_pem cert_path cert_pem "CERTIFICATE") ;;
  key_pem <~ read_pem key_path ;;
  if negb (bytes_utf8 key_pem) then st_err (InvalidPem key_path "not valid UTF-8")
  else if negb (contains (String.string_of_list_byte key_pem) "PRIVATE KEY-----")
  then st_err (InvalidPem key_path "no `BEGIN ... PRIVATE KEY` block found")
  else st_ret (mkIdentity cert_pem key_pem).

Definition load_server_ca (ca_path : string) : stm (machine R) MtlsError bytes :=
  ca_pem <~ read_pem ca_path ;;
  _ <~ st_lift (sanity_check_pem ca_path ca_pem "CERTIFICATE") ;;
  st_ret ca_pem.

Definition build_client_tls_config (server : ServerSection) : stm (machine R) MtlsError ClientTlsConfig :=
  id <~ load_client_identity (client_cert server) (client_key server) ;;
  match server_ca server with
  | Some ca_path => ca <~ load_server_ca ca_path ;; st_ret (mkTls id (Some ca))
  | None => st_ret (mkTls id None)
  end.
End mtls.
End Mtls.

(** ** [keychain.rs] *)
Module Keychain.
Import Path.

Definition DEFAULT_OS_KEYRING_SERVICE : string := "disk-arcana".

Inductive KeyStoreError :=
  | Io (e : Fs.io_error)
  | PermAudit (e : Mtls.MtlsError)
  | Backend (e : keyring_error)
  | InvalidLabel (label : string).

Definition label_char (c : ascii) : bool :=
  is_ascii_lower c || is_ascii_digit c || bool_decide (c = "."%char) || bool_decide (c = "_"%char)
  || bool_decide (c = "-"%char).

Definition validate_label (label : string) : result unit KeyStoreError :=
  match explode label with
  | [] => Err (InvalidLabel label)
  | first :: _ =>
      if bool_decide (128 < str_len label) then Err (InvalidLabel label)
      else if negb (is_ascii_lower first || is_ascii_digit first) then Err (InvalidLabel label)
      else if forallb label_char (explode label) then Ok tt
      else Err (InvalidLabel label)
  end.

(** The trait, and what a store promises: a map from labels to texts. A store
    that is [blind] may take a label it cannot look at for one with no text. *)
Record KeyStore (W : Type) := mkStore {
  store : string → string → stm W KeyStoreError unit;
  load : string → stm W KeyStoreError (option string);
  delete : string → stm W KeyStoreError unit
}.
Arguments mkStore {_} _ _ _.
Arguments store {_} _ _ _ _.
Arguments load {_} _ _ _.
Arguments delete {_} _ _ _.

Class KeyStoreLaws {W} (k : KeyStore W) (held : W → string → option string) (blind : Prop) := {
  store_law l p w r w' : store k l p w = (r, w') →
    (r = Ok tt → held w' l = Some p) ∧ ∀ l', l' ≠ l → held w' l' = held w l';
  load_law l w r w' : load k l w = (r, w') →
    (∀ o, r = Ok o → o = held w l ∨ (blind ∧ o = None)) ∧ ∀ l', held w' l' = held w l';
  delete_law l w r w' : delete k l w = (r, w') →
    (r = Ok tt → held w' l = None) ∧ ∀ l', l' ≠ l → held w' l' = held w l';
  label_law l w : is_ok (validate_label l) = false →
    held w l = None ∧ (∀ p, store k l p w = (Err (InvalidLabel l), w))
    ∧ load k l w = (Err (InvalidLabel l), w) ∧ delete k l w = (Err (InvalidLabel l), w)
}.

Section stores.
Context {kr : Keyring} (f : Fs.faults) (cut : Fs.cuts) (umask : Z).
Abbreviation m A := (stm (machine ring) KeyStoreError A).

(** *** [FileKeyStore] *)
Definition path_for (dir label : string) : string := join dir (label +:+ ".key").

(** [OpenOptions] with [create], [truncate] and [mode(0o600)]: the mode is that of
    a new file. *)
Definition open_0600 (path : string) : m unit := λ w,
  let fresh := negb (Fs.regular (fs w) path) in
  match Mtls.on_fs Io (Fs.create f false path) w with
  | (Ok _, w) =>
      (Ok tt, mkMachine (fs w)
                (if fresh then <[components path := Z.land (6 * 8 * 8) (u32_max - umask)]> (modes w) else modes w)
                (keys w))
  | (Err e, w) => (Err e, w)
  end.

Definition write_pem_0600 (path pem : string) : m unit :=
  _ <~ match parent path with
       | Some p =>
           if bool_decide (p = "") then st_ret tt
           else there <~ Mtls.on_fs Io (Fs.exists_ f p) ;;
                if (there : bool) then st_ret tt else Mtls.on_fs Io (Fs.create_dir_all f p)
       | None => st_ret tt
       end ;;
  _ <~ open_0600 path ;;
  Mtls.on_fs Io (Fs.write_all f cut path (String.list_byte_of_string pem)).

Definition file_load (dir label : string) : m (option string) :=
  _ <~ st_lift (validate_label label) ;;
  let path := path_for dir label in
  there <~ Mtls.on_fs Io (Fs.exists_ f path) ;;
  if negb there then st_ret None
  else
    _ <~ (λ w, let '(r, w) := Mtls.audit_key_permissions f path w in (map_err PermAudit r, w)) ;;
    b <~ Mtls.on_fs Io (Fs.read f path) ;;
    if bytes_utf8 b then st_ret (Some (String.string_of_list_byte b))
    else st_err (Io (Fs.IoError Fs.OtherKind "invalid utf-8")).

Definition file_store (dir label pem : string) : m unit :=
  _ <~ st_lift (validate_label label) ;; write_pem_0600 (path_for dir label) pem.

Definition file_delete (dir label : string) : m unit :=
  _ <~ st_lift (validate_label label) ;;
  λ w, match Mtls.on_fs (λ e, e) (Fs.remove_file f (path_for dir label)) w with
       | (Ok _, w) => (Ok tt, w)
       | (Err e, w) => match Fs.kind e with Fs.NotFound => (Ok tt, w) | _ => (Err (Io e), w) end
       end.

Definition FileKeyStore (dir : string) : KeyStore (machine ring) :=
  mkStore (file_store dir) (file_load dir) (file_delete dir).

Definition file_new (dir : string) : m (KeyStore (machine ring)) :=
  there <~ Mtls.on_fs Io (Fs.exists_ f dir) ;;
  _ <~ (if (there : bool) then st_ret tt else Mtls.on_fs Io (Fs.create_dir_all f dir)) ;;
  st_ret (FileKeyStore dir).

(** *** [OsKeyStore] *)
Definition on_ring {A} (q : stm ring keyring_error A) : stm (machine ring) keyring_error A := λ w,
  let '(r, k) := q (keys w) in (r, mkMachine (fs w) (modes w) k).

Definition entry (service label : string) : m unit :=
  _ <~ st_lift (validate_label label) ;; st_lift (map_err Backend (entry_new service label)).

Definition os_store (service label pem : string) : m unit :=
  _ <~ entry service label ;;
  λ w, let '(r, w) := on_ring (set_password service label pem) w in (map_err Backend r, w).

Definition os_load (service label : string) : m (option string) :=
  _ <~ entry service label ;;
  λ w, match on_ring (get_password service label) w with
       | (Ok pem, w) => (Ok (Some pem), w)
       | (Err NoEntry, w) => (Ok None, w)
       | (Err e, w) => (Err (Backend e), w)
       end.

Definition os_delete (service label : string) : m unit :=
  _ <~ entry service label ;;
  λ w, match on_ring (delete_credential service label) w with
       | (Ok _, w) | (Err NoEntry, w) => (Ok tt, w)
       | (Err e, w) => (Err (Backend e), w)
       end.

Definition OsKeyStore (service : string) : KeyStore (machine ring) :=
  mkStore (os_store service) (os_load service) (os_delete service).

(** *** Choosing one *)
Definition PROBE_LABEL : string := "__probe__".
Definition PROBE_VALUE : string := "ok".

Definition probe_os_keystore (os : KeyStore (machine ring)) : m unit :=
  _ <~ store os PROBE_LABEL PROBE_VALUE ;;
  got <~ load os PROBE_LABEL ;;
  _ <~ (λ w, (Ok tt, (delete os PROBE_LABEL w).2)) ;;
  if bool_decide (got = Some PROBE_VALUE) then st_ret tt else st_err (Backend NoEntry).

Definition detect_or_file (service fallback_dir : string) : m (KeyStore (machine ring)) := λ w,
  let os := OsKeyStore service in
  match probe_os_keystore os w with
  | (Ok _, w) => (Ok os, w)
  | (Err _, w) => file_new fallback_dir w
  end.
End stores.
End Keychain.

(** ** [vault_key.rs] *)
Record StoredE2eeKey := mkStored { sv : Z; salt : string; skey : string }.

Class KeyJson := {
  key_to_json : StoredE2eeKey → string;
  key_from_json : string → result StoredE2eeKey string;
  key_roundtrip r : 0 ≤ sv r ≤ u8_max → key_from_json (key_to_json r) = Ok r;
  key_json_utf8 r : bytes_utf8 (String.list_byte_of_string (key_to_json r)) = true
}.

Module VaultKey.
Import Keychain.

Inductive VaultKeyError :=
  | E2eeE (e : E2ee.E2eeError)
  | KeyStoreE (e : KeyStoreError)
  | EmptyPassphrase
  | InvalidRecord (why : string).

Inductive VaultLockState := Locked | Unlocked.

Definition e2ee_keystore_label (node_id : string) : result string KeyStoreError :=
  let label := "e2ee." +:+ node_id in
  _ <?- validate_label label ;; Ok label.

Definition as_key {A W} (m : stm W KeyStoreError A) : stm W VaultKeyError A := λ w,
  let '(r, w) := m w in (map_err KeyStoreE r, w).

Section vault_key.
Context {cipher : Cipher} {kr : Keyring} {json : KeyJson}.
Context (f : Fs.faults) (cut : Fs.cuts) (umask : Z) (getenv : string → option string).

Definition open_e2ee_keystore (state_dir : string) : stm (machine ring) VaultKeyError (KeyStore (machine ring)) :=
  as_key (detect_or_file f cut umask DEFAULT_OS_KEYRING_SERVICE (Path.join state_dir "keys")).

Definition load_vault_key_from_env : result (option bytes) E2ee.E2eeError :=
  match getenv "DISK_VAULT_PASSPHRASE" with
  | Some passphrase =>
      if decide (passphrase = "") then Ok None
      else
        salt_hex <?- ok_or (getenv "DISK_VAULT_SALT")
          (E2ee.KeyDerivation "DISK_VAULT_SALT required when DISK_VAULT_PASSPHRASE is set") ;;
        salt <?- ok_or (HexDecode.decode (trim salt_hex)) (E2ee.KeyDerivation "invalid DISK_VAULT_SALT hex") ;;
        key <?- E2ee.derive_from_passphrase (String.list_byte_of_string passphrase) salt ;;
        Ok (Some key)
  | None => Ok None
  end.

(** [serde_json::from_str] and the version check, which two functions share with
    texts of their own. *)
Definition parse_record (parse version blob : string) : result StoredE2eeKey VaultKeyError :=
  record <?- map_err (λ e, InvalidRecord (parse +:+ e)) (key_from_json blob) ;;
  if decide (sv record = 1) then Ok record
  else Err (InvalidRecord (version +:+ pretty (sv record))).

Definition parse_stored_key (blob : string) : result bytes VaultKeyError :=
  record <?- parse_record "parse: " "unsupported version " blob ;;
  key_bytes <?- ok_or (HexDecode.decode (trim (skey record))) (InvalidRecord "invalid key hex") ;;
  if decide (length key_bytes = 32%nat) then Ok key_bytes else Err (InvalidRecord "key length != 32").

Section over_a_store.
Context {W : Type} (st : KeyStore W) (label : string).

Definition load_from : stm W VaultKeyError (option bytes) :=
  blob <~ as_key (load st label) ;;
  match blob with
  | None => st_ret None
  | Some blob => key <~ st_lift (parse_stored_key blob) ;; st_ret (Some key)
  end.

Definition pick_salt (rnd : bytes) (salt_override : option bytes) : stm W VaultKeyError bytes :=
  match salt_override with
  | Some s => if bool_decide (length s < 8)%nat then st_err (E2eeE E2ee.SaltTooShort) else st_ret s
  | None =>
      existing <~ as_key (load st label) ;;
      match existing with
      | Some blob =>
          record <~ st_lift (parse_record "parse stored record: " "unsupported record version " blob) ;;
          st_lift (ok_or (HexDecode.decode (trim (salt record))) (InvalidRecord "invalid salt hex"))
      | None => st_ret rnd
      end
  end.

Definition save (salt key : bytes) : stm W VaultKeyError unit :=
  as_key (store st label (key_to_json (mkStored 1 (Hex.encode salt) (Hex.encode key)))).

Definition unlock_on (passphrase rnd : bytes) (salt_override : option bytes) : stm W VaultKeyError unit :=
  salt <~ pick_salt rnd salt_override ;;
  key <~ st_lift (map_err E2eeE (E2ee.derive_from_passphrase passphrase salt)) ;;
  save salt key.

Definition lock_on : stm W VaultKeyError bool :=
  had <~ as_key (load st label) ;;
  _ <~ as_key (delete st label) ;;
  st_ret (bool_decide (is_Some had)).

Definition status_on : stm W VaultKeyError VaultLockState :=
  had <~ as_key (load st label) ;;
  st_ret (if bool_decide (is_Some had) then Unlocked else Locked).
End over_a_store.

Definition with_store {A} (node_id state_dir : string)
    (k : KeyStore (machine ring) → string → stm (machine ring) VaultKeyError A) : stm (machine ring) VaultKeyError A :=
  label <~ st_lift (map_err KeyStoreE (e2ee_keystore_label node_id)) ;;
  st <~ open_e2ee_keystore state_dir ;;
  k st label.

Definition load_vault_key_from_keystore (node_id state_dir : string) : stm (machine ring) VaultKeyError (option bytes) :=
  with_store node_id state_dir load_from.

Definition resolve_vault_key (node_id state_dir : string) : stm (machine ring) VaultKeyError (option bytes) :=
  key <~ st_lift (map_err E2eeE load_vault_key_from_env) ;;
  match key with
  | Some key => st_ret (Some key)
  | None => load_vault_key_from_keystore node_id state_dir
  end.

(** [rnd] is what [random_salt] draws. *)
Definition unlock_vault_key (passphrase rnd : bytes) (node_id state_dir : string) (salt_override : option bytes)
    : stm (machine ring) VaultKeyError unit :=
  if decide (passphrase = []) then st_err EmptyPassphrase
  else with_store node_id state_dir (λ st label, unlock_on st label passphrase rnd salt_override).

Definition import_vault_key (key rnd : bytes) (node_id state_dir : string) : stm (machine ring) VaultKeyError unit :=
  with_store node_id state_dir (λ st label, save st label rnd key).

Definition lock_vault_key (node_id state_dir : string) : stm (machine ring) VaultKeyError bool :=
  with_store node_id state_dir lock_on.

Definition vault_key_status (node_id state_dir : string) : stm (machine ring) VaultKeyError VaultLockState :=
  with_store node_id state_dir status_on.
End vault_key.
End VaultKey.
