(* ===== verification/VaultKeyProps.v ===== *)
(** * The stores of keys and the vault key: theorems

    Both stores keep the contract of the trait, and through it what unlocking,
    locking and resolving do with the vault key. *)

From stdpp Require Import prelude gmap strings pretty functions.
From Stdlib Require Import ZArith Lia Strings.Byte Strings.Ascii.
From S2P Require Import Prelude Text PathFacts Types VectorClock Fs BlobStore E2ee VaultKey.

#[local] Open Scope Z_scope.
Import Path Keychain VaultKey.

(** ** Labels are names of files *)
Lemma label_chars l : is_ok (validate_label l) = true → l ≠ "" ∧ forallb label_char (explode l) = true.
Proof.
  unfold validate_label. destruct (explode l) eqn:E; [done|]. repeat case_match; try done.
  intros _. split; [|done]. by intros ->.
Qed.

Lemma label_char_sep c : label_char c = true → c ≠ sep.
Proof. intros H ->. by vm_compute in H. Qed.

Lemma key_name_plain l : is_ok (validate_label l) = true → plain_name (l +:+ ".key").
Proof.
  intros [Hne Hc]%label_chars. rewrite forallb_forall in Hc.
  assert (∀ s, (length (explode s) < 4)%nat → l +:+ ".key" ≠ s) as Hlen.
  { intros s Hs <-. rewrite explode_app, length_app in Hs. simpl in Hs. lia. }
  split_and!; [apply Hlen; simpl; lia..|]. unfold sep_free. rewrite explode_app, elem_of_app. intros [H|H].
  - apply (label_char_sep sep); [|done]. by apply Hc, list_elem_of_In.
  - vm_compute in H. set_solver.
Qed.

Lemma path_for_components dir l :
  dir ≠ "" → is_ok (validate_label l) = true → components (path_for dir l) = components dir ++ [Normal (l +:+ ".key")].
Proof. intros. apply components_join_plain; [done|]. by apply key_name_plain. Qed.

Lemma path_for_inj dir l l' :
  dir ≠ "" → is_ok (validate_label l) = true → is_ok (validate_label l') = true →
  components (path_for dir l) = components (path_for dir l') → l = l'.
Proof.
  intros Hd Hl Hl'. rewrite !path_for_components by done. intros H. apply app_inj_1 in H as [_ [= H]]; [|done].
  apply (f_equal explode) in H. rewrite !explode_app in H. apply explode_inj. by apply app_inv_tail in H.
Qed.

(** ** What a computation leaves of the files *)
Section frames.
Context {R : Type}.
Implicit Types P : list component → Prop.

Definition mframe {E A} P (m : stm (machine R) E A) : Prop :=
  ∀ w r w', m w = (r, w') → ∀ q, ¬ P q → Fs.files (fs w') !! q = Fs.files (fs w) !! q.

Lemma mframe_ret {E A} P (a : A) : mframe (E:=E) P (st_ret a).
Proof. by intros w r w' [= <- <-]. Qed.

Lemma mframe_err {E A} P (e : E) : mframe (A:=A) P (st_err e).
Proof. by intros w r w' [= <- <-]. Qed.

Lemma mframe_lift {E A} P (r : result A E) : mframe P (st_lift r).
Proof. by intros w r' w' [= <- <-]. Qed.

Lemma mframe_bind {E A B} P (m : stm (machine R) E A) (k : A → stm (machine R) E B) :
  mframe P m → (∀ a, mframe P (k a)) → mframe P (st_bind m k).
Proof.
  intros Hm Hk w r w' H q Hq. unfold st_bind in H. destruct (m w) as [[a|e] w1] eqn:Em.
  - rewrite (Hk a _ _ _ H q Hq). eauto.
  - simplify_eq. eauto.
Qed.

Lemma mframe_on_fs {E A} P (wrap : Fs.io_error → E) (m : Fs.io A) : Fs.frame P m → mframe P (Mtls.on_fs wrap m).
Proof. intros Hm w r w' H q Hq. unfold Mtls.on_fs in H. destruct (m (fs w)) eqn:Em. simplify_eq/=. eauto. Qed.

Lemma mframe_at {A} P p (m : stm (machine R) Fs.io_error A) : mframe P m → mframe P (Mtls.at_path p m).
Proof. intros Hm w r w' H q Hq. unfold Mtls.at_path in H. destruct (m w) eqn:Em. simplify_eq/=. eauto. Qed.

Lemma mframe_audit P f p : mframe P (Mtls.audit_key_permissions f p).
Proof.
  apply mframe_bind.
  - apply mframe_at, mframe_bind; [apply mframe_on_fs, Fs.frame_syscall|]. by intros _ w r w' [= <- <-].
  - intros m. cbv zeta. case_bool_decide; [apply mframe_ret|apply mframe_err].
Qed.
End frames.

Create HintDb frames.
#[export] Hint Resolve mframe_ret mframe_err mframe_lift mframe_bind mframe_on_fs mframe_audit
  Fs.frame_syscall Fs.frame_create_dir_all Fs.frame_create Fs.frame_write_all Fs.frame_remove_file Fs.frame_read Fs.frame_stat : frames.

(** ** The store of files *)
Section file_store.
Context {kr : Keyring} (f : Fs.faults) (cut : Fs.cuts) (umask : Z) (dir : string).

(** A missing file is what the file system says, not a failure of a call. *)
Definition honest : Prop := ∀ n e, f n = Some e → Fs.kind e ≠ Fs.NotFound.

Definition file_held (w : machine ring) (l : string) : option string :=
  if is_ok (validate_label l)
  then String.string_of_list_byte <$> Fs.files (fs w) !! components (path_for dir l) else None.

Abbreviation at_label l := (λ q, q = components (path_for dir l)).

Lemma open_0600_frame p : mframe (λ q, q = components p) (open_0600 f umask p).
Proof.
  intros w r w' H q Hq. unfold open_0600 in H.
  destruct (Mtls.on_fs Io _ w) as [[[]|e] w1] eqn:E; simplify_eq/=;
    exact (mframe_on_fs _ Io _ (Fs.frame_create f false p) _ _ _ E q Hq).
Qed.

Lemma file_store_frame l p : mframe (at_label l) (file_store f cut umask dir l p).
Proof.
  apply mframe_bind; [auto with frames|]. intros _. apply mframe_bind.
  - destruct (parent _) as [d|]; [|auto with frames]. case_bool_decide; [auto with frames|].
    apply mframe_bind; [apply mframe_on_fs, Fs.frame_stat|]. intros []; auto with frames.
  - intros _. apply mframe_bind; [apply open_0600_frame|]. auto with frames.
Qed.

Lemma file_load_frame P l : mframe P (file_load f dir l).
Proof.
  apply mframe_bind; [auto with frames|]. intros _.
  apply mframe_bind; [apply mframe_on_fs, Fs.frame_stat|]. intros [|]; cbn [negb]; [|apply mframe_ret]. apply mframe_bind.
  { intros w1 r1 w2 H q Hq. destruct (Mtls.audit_key_permissions _ _ _) eqn:E. simplify_eq. eapply mframe_audit; eauto. }
  intros _. apply mframe_bind; [auto with frames|]. intros b. case_match; auto with frames.
Qed.

Lemma file_delete_frame l : mframe (at_label l) (file_delete f dir l).
Proof.
  apply mframe_bind; [auto with frames|]. intros _ w r w' H q Hq.
  destruct (Mtls.on_fs _ _ w) as [[[]|e] w1] eqn:E; [simplify_eq|repeat case_match; simplify_eq];
    exact (mframe_on_fs _ _ _ (Fs.frame_remove_file f _) _ _ _ E q Hq).
Qed.

Lemma held_frame l l' {E A} (m : stm (machine ring) E A) w r w' :
  dir ≠ "" → is_ok (validate_label l) = true → mframe (at_label l) m → m w = (r, w') → l' ≠ l → file_held w' l' = file_held w l'.
Proof.
  intros Hd Hl Hm H Hne. unfold file_held. destruct (is_ok (validate_label l')) eqn:Hl'; [|done].
  f_equal. eapply Hm; [done|]. intros Heq. by apply path_for_inj in Heq.
Qed.

Lemma file_store_ok l p w w' : file_store f cut umask dir l p w = (Ok tt, w') → file_held w' l = Some p.
Proof.
  unfold file_store. intros ([]&w1&[Hl ->]%st_lift_ok&H)%st_bind_ok. unfold file_held. rewrite Hl. simpl.
  unfold write_pem_0600 in H. apply st_bind_ok in H as ([]&w2&_&H). apply st_bind_ok in H as ([]&w3&Ho&Hw).
  unfold open_0600 in Ho. destruct (Mtls.on_fs Io _ w2) as [[[]|e] w4] eqn:E; [|done]. injection Ho as <-.
  unfold Mtls.on_fs in E, Hw. destruct (Fs.create _ _ _ _) as [[[]|] s4] eqn:Ec; [|done]. injection E as <-.
  simpl in Hw. destruct (Fs.write_all _ _ _ _ _) as [[[]|] s5] eqn:Ew; [|done]. injection Hw as <-. simpl.
  apply Fs.create_ok in Ec. apply Fs.write_all_ok in Ew. rewrite Ew, Ec. simpl.
  by rewrite String.string_of_list_byte_of_string.
Qed.

(** A look at a file may fail, and then says that it is not there. *)
Definition blind : Prop := ∃ n, is_Some (f n).

Lemma on_fs_stat {E} (wrap : Fs.io_error → E) P (w : machine ring) r w' :
  Mtls.on_fs wrap (Fs.stat f P) w = (r, w') →
  ∃ b, r = Ok b ∧ Fs.files (fs w') = Fs.files (fs w) ∧ Fs.dirs (fs w') = Fs.dirs (fs w)
    ∧ modes w' = modes w ∧ keys w' = keys w
    ∧ (b = true → P (fs w) = true) ∧ (b = false → P (fs w) = false ∨ blind).
Proof.
  unfold Mtls.on_fs. destruct (Fs.stat f P (fs w)) as [r0 s0] eqn:E0. intros [= <- <-].
  apply Fs.stat_spec in E0 as (Hf&Hd&b&->&Ht&Hn). exists b. split_and!; try done.
  intros Hb. destruct (Hn Hb); [by left|right]. by eexists.
Qed.

Lemma file_load_ok l w o w' : file_load f dir l w = (Ok o, w') → o = file_held w l ∨ (blind ∧ o = None).
Proof.
  unfold file_load. intros ([]&w1&[Hl ->]%st_lift_ok&H)%st_bind_ok. unfold file_held. rewrite Hl. simpl.
  apply st_bind_ok in H as (there&w0&Hex&H). apply on_fs_stat in Hex as (b0&[= <-]&F0&_&_&_&_&Hno).
  destruct there; cbn [negb] in H.
  - left. rewrite <-F0. apply st_bind_ok in H as ([]&w2&Ha&H). apply st_bind_ok in H as (b&w3&Hr&H).
    destruct (Mtls.audit_key_permissions _ _ w0) as [[[]|] w5] eqn:Ea; [|done]. injection Ha as ->.
    pose proof (mframe_audit (λ _, False) f _ _ _ _ Ea (components (path_for dir l)) id) as Hq. clear Ea.
    unfold Mtls.on_fs, Fs.read, st_bind, Fs.syscall in Hr. simpl in Hr.
    repeat case_match; simplify_eq/=. rewrite <- Hq. destruct (Fs.files (fs w2) !! _); simplify_eq/=.
    by injection H as <- <-.
  - injection H as <- <-. destruct (Hno eq_refl) as [Hn|Hb]; [left|by right].
    apply Fs.not_there in Hn as [Hn _]. by rewrite Hn.
Qed.

Lemma file_delete_ok l w w' : honest → file_delete f dir l w = (Ok tt, w') → file_held w' l = None.
Proof.
  intros Hf. unfold file_delete. intros ([]&w1&[Hl ->]%st_lift_ok&H)%st_bind_ok. unfold file_held. rewrite Hl. simpl.
  unfold Mtls.on_fs, Fs.remove_file, st_bind, Fs.syscall, Fs.regular in H. simpl in H.
  destruct (f (Fs.calls (fs w))) as [e|] eqn:Ef; simpl in H.
  - apply Hf in Ef. by destruct (Fs.kind e).
  - case_bool_decide as Hfile; simplify_eq/=.
    + by rewrite lookup_delete_eq.
    + by destruct (Fs.files (fs w) !! _); [destruct Hfile|].
Qed.

#[export] Instance file_laws : dir ≠ "" → honest → KeyStoreLaws (FileKeyStore f cut umask dir) file_held blind.
Proof.
  intros Hd Hf. assert (∀ l, is_ok (validate_label l) = false → validate_label l = Err (InvalidLabel l)) as Hbad.
  { intros l. unfold validate_label. by repeat case_match. }
  split; simpl.
  - intros l p w r w' H. split; [by intros ->; apply file_store_ok in H|]. intros l' Hne.
    destruct (is_ok (validate_label l)) eqn:Hl; [eapply held_frame; eauto using file_store_frame|].
    unfold file_store, st_bind, st_lift in H. rewrite Hbad in H by done. by simplify_eq.
  - intros l w r w' H. split; [by intros o ->; apply file_load_ok in H|]. intros l'. unfold file_held.
    case_match; [|done]. f_equal. by eapply (file_load_frame (λ _, False)); eauto.
  - intros l w r w' H. split; [intros ->; by apply file_delete_ok in H|]. intros l' Hne.
    destruct (is_ok (validate_label l)) eqn:Hl; [eapply held_frame; eauto using file_delete_frame|].
    unfold file_delete, st_bind, st_lift in H. rewrite Hbad in H by done. by simplify_eq.
  - intros l w Hl. unfold file_held, file_store, file_load, file_delete, st_bind, st_lift. rewrite Hl, Hbad by done. done.
Qed.
End file_store.

(** ** The store in the keyring *)
Class KeyringLaws (kr : Keyring) (kept : ring → string → string → option string) := {
  set_law s l p k r k' : set_password s l p k = (r, k') →
    (r = Ok tt → kept k' s l = Some p) ∧ ∀ l', l' ≠ l → kept k' s l' = kept k s l';
  get_law s l k r k' : get_password s l k = (r, k') →
    (∀ p, r = Ok p → kept k s l = Some p) ∧ (r = Err NoEntry → kept k s l = None) ∧ ∀ l', kept k' s l' = kept k s l';
  del_law s l k r k' : delete_credential s l k = (r, k') →
    (r = Ok tt ∨ r = Err NoEntry → kept k' s l = None) ∧ ∀ l', l' ≠ l → kept k' s l' = kept k s l'
}.

Section os_store.
Context {kr : Keyring} {kept : ring → string → string → option string} {laws : KeyringLaws kr kept}.
Context (service : string).

Definition os_held (w : machine ring) (l : string) : option string :=
  if is_ok (validate_label l) then kept (keys w) service l else None.

Lemma entry_ok l w u w' : entry service l w = (Ok u, w') → is_ok (validate_label l) = true ∧ w' = w.
Proof. unfold entry, st_bind, st_lift. destruct (validate_label l); [|done]. by intros [= _ <-]. Qed.

Lemma entry_err l w e w' : entry service l w = (Err e, w') → w' = w.
Proof. unfold entry, st_bind, st_lift. destruct (validate_label l); by intros [= _ <-]. Qed.

Lemma os_held_other w w' l l' :
  l' ≠ l → (∀ l', l' ≠ l → kept (keys w') service l' = kept (keys w) service l') → os_held w' l' = os_held w l'.
Proof. intros Hne Hk. unfold os_held. case_match; [|done]. auto. Qed.

(** The keyring call after the entry was made, or the error of making it. *)
Lemma os_call {A} (k : stm (machine ring) KeyStoreError A) l w r w' :
  (_ <~ entry service l ;; k) w = (r, w') →
  (is_ok (validate_label l) = true ∧ k w = (r, w')) ∨ ((∃ e, r = Err e) ∧ w' = w).
Proof.
  unfold st_bind. destruct (entry service l w) as [[[]|e] w1] eqn:E.
  - apply entry_ok in E as [Hl ->]. eauto.
  - apply entry_err in E as ->. intros [= <- <-]. eauto.
Qed.

#[export] Instance os_laws : KeyStoreLaws (OsKeyStore service) os_held False.
Proof.
  split; simpl.
  - intros l p w r w' [[Hl H]|[[e ->] ->]]%os_call; [|naive_solver]. unfold on_ring in H.
    destruct (set_password service l p (keys w)) as [q k'] eqn:E. apply set_law in E as [Hok Hne]. simplify_eq.
    split; [|intros l' ?; by eapply os_held_other]. intros Hq. unfold os_held. rewrite Hl. apply Hok. by destruct q as [[]|].
  - intros l w r w' [[Hl H]|[[e ->] ->]]%os_call; [|naive_solver]. unfold on_ring in H.
    destruct (get_password service l (keys w)) as [q k'] eqn:E. apply get_law in E as (Hok&Hno&Hne).
    assert (∀ l', os_held w' l' = os_held w l') as Hsame.
    { intros l'. unfold os_held. destruct (is_ok (validate_label l')); [|done]. repeat case_match; simplify_eq/=; apply Hne. }
    split; [|done]. intros o ->. left. unfold os_held. rewrite Hl. repeat case_match; simplify_eq; symmetry; eauto.
  - intros l w r w' [[Hl H]|[[e ->] ->]]%os_call; [|naive_solver]. unfold on_ring in H.
    destruct (delete_credential service l (keys w)) as [q k'] eqn:E. apply del_law in E as [Hok Hne].
    split.
    + intros ->. unfold os_held. rewrite Hl. destruct q as [[]|[]]; simplify_eq/=; auto.
    + intros l' Hl'. destruct q as [[]|[]]; simplify_eq/=; by eapply os_held_other.
  - intros l w Hl. unfold os_held, os_store, os_load, os_delete, entry, st_bind, st_lift. rewrite Hl.
    assert (validate_label l = Err (InvalidLabel l)) as ->; [|done].
    revert Hl. unfold validate_label. by repeat case_match.
Qed.
End os_store.

(** ** The contract over a run *)
Module KeyStoreSpec.
Inductive op := OpStore (label pem : string) | OpLoad (label : string) | OpDelete (label : string).
Inductive answer := Done (r : result unit KeyStoreError) | Got (r : result (option string) KeyStoreError).

Definition exec {W} (k : KeyStore W) (o : op) (w : W) : answer * W :=
  match o with
  | OpStore l p => let '(r, w) := store k l p w in (Done r, w)
  | OpLoad l => let '(r, w) := load k l w in (Got r, w)
  | OpDelete l => let '(r, w) := delete k l w in (Done r, w)
  end.

Fixpoint run {W} (k : KeyStore W) (ops : list op) (w : W) : list answer * W :=
  match ops with
  | [] => ([], w)
  | o :: ops =>
      let '(a, w) := exec k o w in
      let '(answers, w) := run k ops w in (a :: answers, w)
  end.

(** A map of labels: a call that failed may have changed its own label only, a
    load changes nothing and tells what is there, a label the store does not
    take is never there. A blind store may load nothing where there is a text. *)
Inductive step (blind : Prop) (m m' : string → option string) : op → answer → Prop :=
  | stored l p : is_ok (validate_label l) = true → m' l = Some p → (∀ l', l' ≠ l → m' l' = m l') →
      step blind m m' (OpStore l p) (Done (Ok tt))
  | store_failed l p e : (∀ l', l' ≠ l → m' l' = m l') → step blind m m' (OpStore l p) (Done (Err e))
  | loaded l o : o = m l → (∀ l', m' l' = m l') → step blind m m' (OpLoad l) (Got (Ok o))
  | load_blind l : blind → (∀ l', m' l' = m l') → step blind m m' (OpLoad l) (Got (Ok None))
  | load_failed l e : (∀ l', m' l' = m l') → step blind m m' (OpLoad l) (Got (Err e))
  | deleted l : m' l = None → (∀ l', l' ≠ l → m' l' = m l') → step blind m m' (OpDelete l) (Done (Ok tt))
  | delete_failed l e : (∀ l', l' ≠ l → m' l' = m l') → step blind m m' (OpDelete l) (Done (Err e)).

Inductive steps (blind : Prop)
    : (string → option string) → list op → list answer → (string → option string) → Prop :=
  | steps_nil m : steps blind m [] [] m
  | steps_cons m m1 m' o ops a answers :
      step blind m m1 o a → steps blind m1 ops answers m' → steps blind m (o :: ops) (a :: answers) m'.

Section refinement.
Context {W} (k : KeyStore W) (held : W → string → option string) (blind : Prop) {laws : KeyStoreLaws k held blind}.

Lemma exec_refines o w a w' : exec k o w = (a, w') → step blind (held w) (held w') o a.
Proof.
  destruct o as [l p|l|l]; simpl.
  - destruct (store k l p w) as [r w1] eqn:E. intros [= <- <-].
    destruct (is_ok (validate_label l)) eqn:Hl.
    + apply store_law in E as [Hok Hne]. destruct r as [[]|e]; constructor; auto.
    + destruct (label_law l w Hl) as (_&Hs&_). rewrite Hs in E. simplify_eq. by constructor.
  - destruct (load k l w) as [r w1] eqn:E. intros [= <- <-]. apply load_law in E as [Hok Hne].
    destruct r as [o|e]; [|by constructor]. destruct (Hok o eq_refl) as [?|[? ->]]; by constructor.
  - destruct (delete k l w) as [r w1] eqn:E. intros [= <- <-]. apply delete_law in E as [Hok Hne].
    destruct r as [[]|e]; constructor; auto.
Qed.

Lemma run_refines ops w answers w' : run k ops w = (answers, w') → steps blind (held w) ops answers (held w').
Proof.
  revert w answers. induction ops as [|o ops IH]; intros w answers; simpl.
  - intros [= <- <-]. constructor.
  - destruct (exec k o w) as [a w1] eqn:Ea. destruct (run k ops w1) as [as_ w2] eqn:Er. intros [= <- <-].
    econstructor; [by eapply exec_refines|by apply IH].
Qed.
End refinement.
End KeyStoreSpec.

(** ** The vault key over any store that keeps the contract *)
Section over_the_contract.
Context {cipher : Cipher} {json : KeyJson}.
Context {W} (st : KeyStore W) (held : W → string → option string) (blind : Prop) {laws : KeyStoreLaws st held blind}.
Context (label : string) (Hsharp : ¬ blind).

Definition saved (s k : bytes) : string := key_to_json (mkStored 1 (Hex.encode s) (Hex.encode k)).

Lemma parse_record_saved p v s k : parse_record p v (saved s k) = Ok (mkStored 1 (Hex.encode s) (Hex.encode k)).
Proof. unfold parse_record, saved. rewrite key_roundtrip by (simpl; unfold u8_max; lia). done. Qed.

Lemma parse_saved s k : length k = 32%nat → parse_stored_key (saved s k) = Ok k.
Proof.
  intros Hk. unfold parse_stored_key. rewrite parse_record_saved. simpl.
  rewrite trim_encode, HexDecode.decode_encode. simpl. by rewrite decide_True.
Qed.

Lemma as_key_ok {A} (m : stm W KeyStoreError A) w a w' : as_key m w = (Ok a, w') ↔ m w = (Ok a, w').
Proof. unfold as_key. destruct (m w) as [[b|e] w1]; simpl; naive_solver. Qed.

Lemma save_held s k w w' : save st label s k w = (Ok tt, w') → held w' label = Some (saved s k).
Proof. unfold save. rewrite as_key_ok. intros [H _]%store_law. auto. Qed.

Lemma load_sharp l w r w' :
  load st l w = (r, w') → (∀ o, r = Ok o → o = held w l) ∧ ∀ l', held w' l' = held w l'.
Proof. intros [Ho Hs]%load_law. split; [|done]. intros o Hr. by destruct (Ho o Hr) as [?|[? _]]. Qed.

Lemma load_from_held w r w' :
  load_from st label w = (Ok r, w') →
  match held w label with
  | None => r = None
  | Some blob => ∃ k, parse_stored_key blob = Ok k ∧ r = Some k
  end ∧ ∀ l, held w' l = held w l.
Proof.
  unfold load_from. intros (o&w1&[Ho Hs]%as_key_ok%load_sharp&H)%st_bind_ok. specialize (Ho _ eq_refl) as ->.
  destruct (held w label) as [blob|]; [|by injection H as <- <-].
  apply st_bind_ok in H as (k&w2&[Hk ->]%st_lift_ok&[= <- <-]). eauto.
Qed.

Lemma pick_salt_held rnd ov w s w' :
  pick_salt st label rnd ov w = (Ok s, w') →
  (∀ l, held w' l = held w l)
  ∧ match ov with
    | Some s0 => s = s0
    | None => match held w label with
              | None => s = rnd
              | Some blob => ∃ record, parse_record "parse stored record: " "unsupported record version " blob = Ok record
                  ∧ HexDecode.decode (trim (salt record)) = Some s
              end
    end.
Proof.
  unfold pick_salt. destruct ov as [s0|].
  { case_bool_decide; [done|]. by intros [= <- <-]. }
  intros (o&w1&[Ho Hs]%as_key_ok%load_sharp&H)%st_bind_ok. specialize (Ho _ eq_refl) as ->.
  destruct (held w label) as [blob|]; [|by injection H as <- <-].
  apply st_bind_ok in H as (record&w2&[Hr ->]%st_lift_ok&[Hd ->]%st_lift_ok).
  split; [done|]. exists record. split; [done|]. by destruct (HexDecode.decode _); simplify_eq/=.
Qed.

Lemma derive_length p s k : E2ee.derive_from_passphrase p s = Ok k → length k = 32%nat.
Proof.
  unfold E2ee.derive_from_passphrase. case_bool_decide; [done|]. destruct (kdf p s) as [k'|] eqn:E; [|done].
  intros [= <-]. by apply kdf_length in E.
Qed.

(** The salt an unlock takes, from the store as it is. *)
Definition salt_for (rnd : bytes) (ov : option bytes) (w : W) : option bytes :=
  match ov with
  | Some s => Some s
  | None => match held w label with
            | None => Some rnd
            | Some blob =>
                match parse_record "parse stored record: " "unsupported record version " blob with
                | Ok record => HexDecode.decode (trim (salt record))
                | Err _ => None
                end
            end
  end.

Lemma unlock_held p rnd ov w w' :
  unlock_on st label p rnd ov w = (Ok tt, w') →
  ∃ s k, salt_for rnd ov w = Some s ∧ E2ee.derive_from_passphrase p s = Ok k ∧ held w' label = Some (saved s k).
Proof.
  unfold unlock_on. intros (s&w1&[Hs1 Hs]%pick_salt_held&H)%st_bind_ok.
  apply st_bind_ok in H as (k&w2&[Hk ->]%st_lift_ok&Hsave%save_held).
  destruct (E2ee.derive_from_passphrase p s) as [k'|] eqn:Ek; [|done]. injection Hk as ->.
  exists s, k. split_and!; [|done..]. unfold salt_for. destruct ov; [by f_equal|].
  destruct (held w label); [|by f_equal]. destruct Hs as (record&->&->). done.
Qed.

Lemma salt_for_saved rnd s k w : held w label = Some (saved s k) → salt_for rnd None w = Some s.
Proof.
  intros Hw. unfold salt_for. rewrite Hw, parse_record_saved. simpl. by rewrite trim_encode, HexDecode.decode_encode.
Qed.

(** What was unlocked is loaded, also after unlocking again with the same
    passphrase, whatever else failed in between. *)
Lemma unlock_load p rnd ov w w' :
  unlock_on st label p rnd ov w = (Ok tt, w') →
  ∃ s k, salt_for rnd ov w = Some s ∧ E2ee.derive_from_passphrase p s = Ok k
    ∧ (∀ r w2, load_from st label w' = (Ok r, w2) → r = Some k)
    ∧ (∀ rnd' w2 r w3, unlock_on st label p rnd' None w' = (Ok tt, w2) → load_from st label w2 = (Ok r, w3) → r = Some k).
Proof.
  intros (s&k&Hs&Hk&Hh)%unlock_held. exists s, k. split_and!; [done..| |].
  - intros r w2 [Hl _]%load_from_held. rewrite Hh, parse_saved in Hl by eauto using derive_length. naive_solver.
  - intros rnd' w2 r w3 (s'&k'&Hs'&Hk'&Hh')%unlock_held [Hl _]%load_from_held.
    rewrite (salt_for_saved rnd' s k) in Hs' by done. injection Hs' as <-. rewrite Hk in Hk'. injection Hk' as <-.
    rewrite Hh', parse_saved in Hl by eauto using derive_length. by destruct Hl as (k0&[= <-]&->).
Qed.

Lemma lock_held w b w' :
  lock_on st label w = (Ok b, w') → b = bool_decide (is_Some (held w label)) ∧ held w' label = None.
Proof.
  unfold lock_on. intros (o&w1&[Ho Hs]%as_key_ok%load_sharp&H)%st_bind_ok. specialize (Ho _ eq_refl) as ->.
  apply st_bind_ok in H as ([]&w2&[Hd _]%as_key_ok%delete_law&[= <- <-]). auto.
Qed.

Lemma status_held w s w' :
  status_on st label w = (Ok s, w') → s = (if bool_decide (is_Some (held w label)) then Unlocked else Locked)
    ∧ ∀ l, held w' l = held w l.
Proof.
  unfold status_on. intros (o&w1&[Ho Hs]%as_key_ok%load_sharp&H)%st_bind_ok. specialize (Ho _ eq_refl) as ->.
  by injection H as <- <-.
Qed.
End over_the_contract.

(** ** On the machine *)
Section on_the_machine.
Context {kr : Keyring} (f : Fs.faults) (cut : Fs.cuts) (umask : Z) (dir label : string).

(** The probe's label is refused, so its call never reaches the keyring. *)
Lemma probe_refused service w :
  probe_os_keystore (kr:=kr) (OsKeyStore service) w = (Err (InvalidLabel PROBE_LABEL), w).
Proof. reflexivity. Qed.

Definition strict (mode : Z) : Prop := Z.land (Z.land mode (8 * 8 * 8 - 1)) (u32_max - Mtls.MAX_KEY_MODE) = 0.

Lemma created_strict m : strict (Z.land (6 * 8 * 8) m).
Proof.
  unfold strict.
  apply Z.bits_inj_0. intros n. rewrite !Z.land_spec.
  destruct (Z.testbit (6 * 8 * 8) n) eqn:E1, (Z.testbit (u32_max - Mtls.MAX_KEY_MODE) n) eqn:E2;
    rewrite ?andb_false_r; try done.
  assert (Z.testbit (Z.land (6 * 8 * 8) (u32_max - Mtls.MAX_KEY_MODE)) n = true) as H
    by (rewrite Z.land_spec; by rewrite E1, E2).
  change (Z.land (6 * 8 * 8) (u32_max - Mtls.MAX_KEY_MODE)) with 0 in H. by rewrite Z.bits_0 in H.
Qed.

Abbreviation key_path := (components (path_for dir label)).

(** The directory is there, the key's path is free or a file for its owner only. *)
Definition ready (w : machine ring) : Prop :=
  components dir ∈ Fs.dirs (fs w) ∧ (key_path ∉ Fs.dirs (fs w))
  ∧ (is_Some (Fs.files (fs w) !! key_path) → strict (modes w key_path)).

Context (Hquiet : ∀ n, f n = None) (Hdir : dir ≠ "") (Hlabel : validate_label label = Ok tt).

Lemma key_path_eq : key_path = components dir ++ [Normal (label +:+ ".key")].
Proof. apply path_for_components; [done|]. by rewrite Hlabel. Qed.

Lemma key_parent : ∃ q, parent (path_for dir label) = Some q ∧ components q = components dir.
Proof.
  destruct (parent_spec (path_for dir label) (label +:+ ".key")) as (q&Hq&Hc&_).
  { unfold file_name. by rewrite key_path_eq, last_snoc. }
  exists q. split; [done|]. rewrite key_path_eq in Hc. by apply app_inj_tail in Hc as [-> _].
Qed.

Lemma exists_dir s d : components d ∈ Fs.dirs s → Fs.there s d = true.
Proof. intros H. unfold Fs.there. by rewrite (bool_decide_eq_true_2 (_ ∈ _)), orb_true_r. Qed.

(** A look when nothing fails. *)
Lemma look {E} (wrap : Fs.io_error → E) d (w : machine ring) :
  Mtls.on_fs wrap (Fs.exists_ f d) w
  = (Ok (Fs.there (fs w) d), mkMachine (Fs.mk (Fs.files (fs w)) (Fs.dirs (fs w)) (S (Fs.calls (fs w)))) (modes w) (keys w)).
Proof. unfold Mtls.on_fs, Fs.exists_, Fs.stat. by rewrite Hquiet. Qed.

Lemma file_store_total p w :
  ready w → ∃ w', file_store f cut umask dir label p w = (Ok tt, w') ∧ ready w' ∧ keys w' = keys w
    ∧ Fs.files (fs w') = <[key_path := String.list_byte_of_string p]> (Fs.files (fs w)).
Proof.
  intros (Hd&Hp&Hm). destruct key_parent as (q&Hq&Hc).
  assert (Fs.there (fs w) q = true) as Hex by (apply exists_dir; by rewrite Hc).
  assert (removelast key_path = components dir) as Hrm by (by rewrite key_path_eq, removelast_last).
  unfold file_store, write_pem_0600, st_bind at 1, st_lift. rewrite Hlabel, Hq.
  assert (∃ n, (if bool_decide (q = "") then st_ret tt
                else there <~ Mtls.on_fs Io (Fs.exists_ f q) ;;
                     if (there : bool) then st_ret tt else Mtls.on_fs Io (Fs.create_dir_all f q)) w
               = (Ok tt, mkMachine (Fs.mk (Fs.files (fs w)) (Fs.dirs (fs w)) n) (modes w) (keys w))) as [n Hn].
  { case_bool_decide; [exists (Fs.calls (fs w)); by destruct w as [[] ??]|]. unfold st_bind. rewrite look, Hex. by eexists. }
  unfold st_bind at 1. rewrite Hn. unfold st_bind, open_0600, Mtls.on_fs, Fs.create.
  unfold st_bind, Fs.syscall. simpl. rewrite Hquiet. simpl. rewrite bool_decide_eq_false_2 by done.
  unfold Fs.in_dir. simpl. rewrite Hrm, bool_decide_eq_true_2 by done. simpl.
  unfold Fs.write_all. simpl. rewrite Hquiet. simpl. eexists. split; [done|]. simpl.
  rewrite lookup_insert_eq, insert_insert_eq. simpl. split; [|done]. split_and!; [done..|]. simpl. intros _.
  unfold Fs.regular. simpl. destruct (bool_decide_reflect (is_Some (Fs.files (fs w) !! key_path))) as [Hf|Hf]; simpl; [auto|].
  rewrite fn_lookup_insert. apply created_strict.
Qed.

Lemma file_load_total w :
  ready w → (∀ b, Fs.files (fs w) !! key_path = Some b → bytes_utf8 b = true) →
  ∃ w', file_load f dir label w = (Ok (file_held dir w label), w') ∧ ready w' ∧ keys w' = keys w
    ∧ Fs.files (fs w') = Fs.files (fs w).
Proof.
  intros Hr Hu. pose proof Hr as (Hd&Hp&Hm). unfold file_load, file_held, st_bind, st_lift. rewrite Hlabel, look.
  unfold Fs.there, Fs.regular. rewrite (bool_decide_eq_false_2 (key_path ∈ _)), orb_false_r by done.
  destruct (Fs.files (fs w) !! key_path) as [b|] eqn:Hb; simpl;
    [|eexists; split; [done|]; unfold ready; simpl; rewrite Hb; by split_and!].
  unfold Mtls.audit_key_permissions, Mtls.at_path, Mtls.metadata_mode, Mtls.on_fs, Fs.read, st_bind, Fs.syscall. simpl.
  rewrite Hquiet. simpl. unfold Fs.there, Fs.regular. simpl. rewrite Hb. simpl.
  rewrite (bool_decide_eq_true_2 (Z.land _ _ = 0)) by (apply Hm; eauto). simpl. rewrite Hquiet. simpl. rewrite Hb. simpl.
  rewrite Hu by done. simpl. eexists. split; [done|]. simpl. unfold ready. simpl. rewrite Hb. done.
Qed.

Lemma file_delete_total w :
  ready w → ∃ w', file_delete f dir label w = (Ok tt, w') ∧ ready w' ∧ keys w' = keys w
    ∧ Fs.files (fs w') = base.delete key_path (Fs.files (fs w)).
Proof.
  intros (Hd&Hp&Hm). unfold file_delete, st_bind, st_lift. rewrite Hlabel.
  unfold Mtls.on_fs, Fs.remove_file, st_bind, Fs.syscall. simpl. rewrite Hquiet. simpl. unfold Fs.regular. simpl.
  case_bool_decide as Hf; simpl; eexists; (split; [done|]); simpl; unfold ready; simpl; split_and!; try done.
  - rewrite lookup_delete_eq. by intros [].
  - destruct (Fs.files (fs w) !! key_path) eqn:Hb; [by destruct Hf|]. by rewrite delete_id.
Qed.

Lemma file_new_total w :
  (∀ q, q ∈ Fs.prefixes (components dir) → Fs.files (fs w) !! q = None) →
  key_path ∉ Fs.dirs (fs w) → Fs.files (fs w) !! key_path = None →
  ∃ w', file_new f cut umask dir w = (Ok (FileKeyStore f cut umask dir), w') ∧ ready w' ∧ keys w' = keys w
    ∧ Fs.files (fs w') = Fs.files (fs w).
Proof.
  intros Hpre Hp Hnone. unfold file_new.
  assert (components dir ∈ Fs.prefixes (components dir)) as Hself.
  { unfold Fs.prefixes. apply list_elem_of_fmap. exists (length (components dir)).
    rewrite firstn_all. split; [done|]. apply elem_of_seq. lia. }
  unfold st_bind at 1. rewrite look. destruct (Fs.there (fs w) dir) eqn:Hex.
  - eexists. split; [done|]. unfold ready. simpl. rewrite Hnone. split_and!; try done.
    unfold Fs.there, Fs.regular in Hex. rewrite Hpre in Hex by done. simpl in Hex. by apply bool_decide_eq_true in Hex.
  - unfold st_bind, Mtls.on_fs, Fs.create_dir_all, st_bind, Fs.syscall.
    remember (Fs.prefixes (components dir)) as ps eqn:Hps. simpl. rewrite Hquiet. simpl. rewrite bool_decide_eq_false_2.
    2:{ rewrite Exists_exists. intros (q&Hq%list_elem_of_In&[b Hb]). simpl in Hb; by rewrite (Hpre _ Hq) in Hb. }
    simpl. eexists. split; [done|]. simpl. unfold ready. simpl. rewrite Hnone. split_and!; try done.
    { rewrite elem_of_union, elem_of_list_to_set. by left. }
    intros [H%elem_of_list_to_set|]%elem_of_union; [|done]. subst ps. apply Fs.prefixes_length in H. rewrite key_path_eq in H.
    rewrite length_app in H. simpl in H. lia.
Qed.

(** A state that differs in the number of calls made only. *)
Definition ticked (w : machine ring) : machine ring :=
  mkMachine (Fs.mk (Fs.files (fs w)) (Fs.dirs (fs w)) (S (Fs.calls (fs w)))) (modes w) (keys w).

Lemma file_new_again w : ready w → file_new f cut umask dir w = (Ok (FileKeyStore f cut umask dir), ticked w).
Proof. intros (Hd&_). unfold file_new, st_bind at 1. rewrite look, exists_dir by done. done. Qed.
End on_the_machine.

(** ** The vault key on the machine, when no call fails *)
Section lifecycle.
Context {cipher : Cipher} {kr : Keyring} {json : KeyJson}.
Context (f : Fs.faults) (cut : Fs.cuts) (umask : Z) (getenv : string → option string).
Context (node_id state_dir : string).

Abbreviation dir := (join state_dir "keys").
Abbreviation label := ("e2ee." +:+ node_id).
Abbreviation the_store := (FileKeyStore f cut umask (kr:=kr) dir).
Abbreviation ready_here := (ready (kr:=kr) dir label).
Abbreviation path_here := (components (path_for dir label)).

Context (Hquiet : ∀ n, f n = None) (Hdir : dir ≠ "") (Hlabel : validate_label label = Ok tt).

Lemma with_store_new {A} (k : KeyStore (machine ring) → string → stm (machine ring) VaultKeyError A) w w1 :
  file_new f cut umask dir w = (Ok the_store, w1) → with_store f cut umask node_id state_dir k w = k the_store label w1.
Proof.
  intros H. unfold with_store, e2ee_keystore_label, st_bind, st_lift. rewrite Hlabel. simpl.
  unfold open_e2ee_keystore, as_key, detect_or_file. rewrite probe_refused, H. done.
Qed.

Lemma with_store_ready {A} (k : KeyStore (machine ring) → string → stm (machine ring) VaultKeyError A) w :
  ready_here w → with_store f cut umask node_id state_dir k w = k the_store label (ticked w).
Proof. intros Hr. apply with_store_new. by eapply file_new_again. Qed.

(** The state of the machine as far as the key goes: what its file holds. *)
Definition holds (blob : option string) (w : machine ring) : Prop :=
  ready_here w ∧ Fs.files (fs w) !! path_here = String.list_byte_of_string <$> blob
  ∧ (∀ b, blob = Some b → bytes_utf8 (String.list_byte_of_string b) = true).

Lemma holds_ticked blob w : holds blob w → holds blob (ticked w).
Proof. done. Qed.

Lemma load_holds blob w :
  holds blob w → ∃ w', load the_store label w = (Ok blob, w') ∧ holds blob w' ∧ keys w' = keys w.
Proof.
  intros (Hr&Hf&Hu). destruct (file_load_total f dir label Hquiet Hlabel w Hr) as (w'&Hl&Hr'&Hk&Hf').
  { intros b. rewrite Hf. intros (t&Ht&->)%fmap_Some. eauto. }
  exists w'. simpl. rewrite Hl. unfold file_held. rewrite Hlabel, Hf. simpl. split.
  - destruct blob; [|done]. simpl. by rewrite String.string_of_list_byte_of_string.
  - split; [|done]. split; [done|]. by rewrite Hf'.
Qed.

Lemma store_holds blob p w :
  bytes_utf8 (String.list_byte_of_string p) = true → holds blob w →
  ∃ w', store the_store label p w = (Ok tt, w') ∧ holds (Some p) w' ∧ keys w' = keys w.
Proof.
  intros Hp (Hr&_). destruct (file_store_total f cut umask dir label Hquiet Hdir Hlabel p w Hr) as (w'&Hs&Hr'&Hk&Hf).
  exists w'. split_and!; [done| |done]. split_and!; [done| |by intros ? [= <-]]. by rewrite Hf, lookup_insert_eq.
Qed.

Lemma delete_holds blob w :
  holds blob w → ∃ w', delete the_store label w = (Ok tt, w') ∧ holds None w' ∧ keys w' = keys w.
Proof.
  intros (Hr&_). destruct (file_delete_total f dir label Hquiet Hlabel w Hr) as (w'&Hd&Hr'&Hk&Hf).
  exists w'. split_and!; [done| |done]. split_and!; [done| |done]. by rewrite Hf, lookup_delete_eq.
Qed.

(** A fresh machine: nothing but directories on the way to the key's file. *)
Definition fresh (w : machine ring) : Prop :=
  (∀ q, q ∈ Fs.prefixes (components dir) → Fs.files (fs w) !! q = None)
  ∧ (path_here ∉ Fs.dirs (fs w)) ∧ Fs.files (fs w) !! path_here = None.

Lemma with_store_fresh {A} (k : KeyStore (machine ring) → string → stm (machine ring) VaultKeyError A) w :
  fresh w → ∃ w1, holds None w1 ∧ keys w1 = keys w ∧ with_store f cut umask node_id state_dir k w = k the_store label w1.
Proof.
  intros (Hp&Hd&Hn). destruct (file_new_total f cut umask dir label Hquiet Hdir Hlabel w Hp Hd Hn) as (w1&H&Hr&Hk&Hf).
  exists w1. split_and!; [|done|by apply with_store_new]. split_and!; [done|by rewrite Hf, Hn|done].
Qed.

Lemma load_from_holds s k w :
  length k = 32%nat → holds (Some (saved s k)) w →
  ∃ w', load_from the_store label w = (Ok (Some k), w') ∧ holds (Some (saved s k)) w' ∧ keys w' = keys w.
Proof.
  intros Hk Hh. destruct (load_holds _ _ Hh) as (w'&Hl&Hh'&Hkeys). exists w'. split; [|done].
  unfold load_from, st_bind, as_key. rewrite Hl. simpl. unfold st_lift. by rewrite parse_saved.
Qed.

Lemma unlock_holds p rnd ov blob w s k :
  holds blob w →
  match ov, blob with
  | Some s', _ => s = s'
  | None, None => s = rnd
  | None, Some b => ∃ k0, b = saved s k0
  end →
  E2ee.derive_from_passphrase p s = Ok k →
  ∃ w', unlock_on the_store label p rnd ov w = (Ok tt, w') ∧ holds (Some (saved s k)) w' ∧ keys w' = keys w.
Proof.
  intros Hh Hs Hk.
  assert (∃ w1, pick_salt the_store label rnd ov w = (Ok s, w1) ∧ holds blob w1 ∧ keys w1 = keys w) as (w1&Hp&Hh1&Hk1).
  { unfold pick_salt. destruct ov as [s'|].
    - subst s'. exists w. split; [|done]. revert Hk. unfold E2ee.derive_from_passphrase. by case_bool_decide.
    - destruct (load_holds _ _ Hh) as (w1&Hl&Hh1&Hk1). exists w1. split; [|done].
      unfold st_bind, as_key. rewrite Hl. simpl. destruct blob as [b|]; [|by subst].
      destruct Hs as (k0&->). rewrite parse_record_saved. simpl. unfold st_lift. by rewrite trim_encode, HexDecode.decode_encode. }
  destruct (store_holds blob (saved s k) w1) as (w2&Hs2&Hh2&Hk2); [apply key_json_utf8|done|].
  exists w2. split_and!; [|done|congruence].
  unfold unlock_on, st_bind. rewrite Hp. unfold st_lift. rewrite Hk. simpl. unfold save, as_key. fold (saved s k). by rewrite Hs2.
Qed.

Lemma lock_holds blob w :
  holds blob w → ∃ w', lock_on the_store label w = (Ok (bool_decide (is_Some blob)), w') ∧ holds None w' ∧ keys w' = keys w.
Proof.
  intros Hh. destruct (load_holds _ _ Hh) as (w1&Hl&Hh1&Hk1). destruct (delete_holds _ _ Hh1) as (w2&Hd&Hh2&Hk2).
  exists w2. split_and!; [|done|congruence]. unfold lock_on, st_bind, as_key. rewrite Hl. simpl in Hd |- *. by rewrite Hd.
Qed.

Lemma resolve_holds s k w :
  getenv "DISK_VAULT_PASSPHRASE" = None → length k = 32%nat → holds (Some (saved s k)) w →
  ∃ w', resolve_vault_key f cut umask getenv node_id state_dir w = (Ok (Some k), w')
    ∧ holds (Some (saved s k)) w' ∧ keys w' = keys w.
Proof.
  intros He Hk Hh. unfold resolve_vault_key, load_vault_key_from_env, st_bind, st_lift. rewrite He. simpl.
  unfold load_vault_key_from_keystore. rewrite with_store_ready by apply Hh. by apply (load_from_holds s k (ticked w)).
Qed.

Lemma unlock_vault_holds p rnd ov blob w s k :
  p ≠ [] → holds blob w →
  match ov, blob with
  | Some s', _ => s = s'
  | None, None => s = rnd
  | None, Some b => ∃ k0, b = saved s k0
  end →
  E2ee.derive_from_passphrase p s = Ok k →
  ∃ w', unlock_vault_key f cut umask p rnd node_id state_dir ov w = (Ok tt, w')
    ∧ holds (Some (saved s k)) w' ∧ keys w' = keys w.
Proof.
  intros Hp Hh Hs Hk. unfold unlock_vault_key. rewrite decide_False by done.
  rewrite with_store_ready by apply Hh. by apply (unlock_holds p rnd ov blob (ticked w)).
Qed.
End lifecycle.

(** ** Theorems *)
Module VaultKeyTheorems.
Import KeyStoreSpec.

(** Either store refines a map from labels to texts over any sequence of
    calls, whatever fails. A text that was stored under an accepted label is the
    one loaded, until it is stored over or deleted; a call that fails changes no
    other label; a label with a separator, a capital or more than 128 characters
    is never there. This holds of the file store when a failing call is not
    reported as a missing file, but that a look at a file that fails makes the
    store say that there is no key; and of the keyring store when the keyring
    itself keeps its entries apart. *)
Theorem keystores_refine {kr : Keyring} kept (laws : KeyringLaws kr kept) f cut umask dir service ops w :
  dir ≠ "" → honest f →
  (∀ answers w', run (FileKeyStore f cut umask dir) ops w = (answers, w') →
     steps (∃ n, is_Some (f n)) (file_held dir w) ops answers (file_held dir w'))
  ∧ (∀ answers w', run (OsKeyStore service) ops w = (answers, w') →
       steps False (os_held (kept:=kept) service w) ops answers (os_held (kept:=kept) service w')).
Proof.
  intros Hd Hf. split; intros answers w' H.
  - pose proof (file_laws f cut umask dir Hd Hf). by eapply run_refines.
  - by eapply run_refines; [apply os_laws|].
Qed.

(** C36: The life of a vault key on a machine that holds none, with
    DISK_VAULT_PASSPHRASE unset and no failing call. Unlocking with a passphrase
    and a salt, given or drawn, succeeds, and from then on the key derived from
    the two is what [resolve_vault_key] returns; unlocking again with the
    passphrase alone keeps the key, whatever salt would have been drawn; locking
    reports that there was one, and after it there is none. *)
Theorem vault_key_lifecycle {cipher : Cipher} {kr : Keyring} {json : KeyJson} f cut umask getenv node_id state_dir
    p rnd rnd' ov k (w : machine ring) :
  (∀ n, f n = None) → join state_dir "keys" ≠ "" → validate_label ("e2ee." +:+ node_id) = Ok tt →
  getenv "DISK_VAULT_PASSPHRASE" = None → fresh node_id state_dir w →
  p ≠ [] → E2ee.derive_from_passphrase p (default rnd ov) = Ok k →
  ∃ w1 w2 w3 w4 w5 w6,
    unlock_vault_key f cut umask p rnd node_id state_dir ov w = (Ok tt, w1)
    ∧ resolve_vault_key f cut umask getenv node_id state_dir w1 = (Ok (Some k), w2)
    ∧ unlock_vault_key f cut umask p rnd' node_id state_dir None w2 = (Ok tt, w3)
    ∧ resolve_vault_key f cut umask getenv node_id state_dir w3 = (Ok (Some k), w4)
    ∧ lock_vault_key f cut umask node_id state_dir w4 = (Ok true, w5)
    ∧ resolve_vault_key f cut umask getenv node_id state_dir w5 = (Ok None, w6).
Proof.
  intros Hq Hd Hl He Hfresh Hp Hk. pose proof (derive_length _ _ _ Hk) as Hlen. set (s := default rnd ov) in *.
  destruct (with_store_fresh f cut umask node_id state_dir Hq Hd Hl (λ st label, unlock_on st label p rnd ov) w Hfresh)
    as (w0&H0&K0&E0).
  destruct (unlock_holds f cut umask node_id state_dir Hq Hd Hl p rnd ov None w0 s k H0) as (w1&U1&H1&K1);
    [by destruct ov|done|].
  destruct (resolve_holds f cut umask getenv node_id state_dir Hq Hl s k w1 He Hlen H1) as (w2&R2&H2&K2).
  destruct (unlock_vault_holds f cut umask node_id state_dir Hq Hd Hl p rnd' None _ w2 s k Hp H2) as (w3&U3&H3&K3);
    [by eexists|done|].
  destruct (resolve_holds f cut umask getenv node_id state_dir Hq Hl s k w3 He Hlen H3) as (w4&R4&H4&K4).
  destruct (lock_holds f cut umask node_id state_dir Hq Hl _ (ticked w4) H4) as (w5&L5&H5&K5).
  destruct (load_holds f cut umask node_id state_dir Hq Hl _ (ticked w5) H5) as (w6&L6&H6&K6).
  exists w1, w2, w3, w4, w5, w6. split_and!; try done.
  - unfold unlock_vault_key. rewrite decide_False by done. by rewrite E0.
  - unfold lock_vault_key. rewrite with_store_ready by (try done; apply H4). done.
  - unfold resolve_vault_key, load_vault_key_from_env, st_bind, st_lift. rewrite He. simpl.
    unfold load_vault_key_from_keystore. rewrite with_store_ready by (try done; apply H5).
    unfold load_from, st_bind, as_key. by rewrite L6.
Qed.

(** A key that is loaded from a file was readable by its owner only: the
    store returns no text of a file with a permission bit for the group or the
    others. *)
Theorem load_audited {kr : Keyring} f dir label (w w' : machine ring) text :
  file_load f dir label w = (Ok (Some text), w') → strict (modes w (components (path_for dir label))).
Proof.
  unfold file_load. intros ([]&w1&[_ ->]%st_lift_ok&H)%st_bind_ok. cbn beta zeta in H.
  apply st_bind_ok in H as (there&w0&Hex&H). apply on_fs_stat in Hex as (b0&[= <-]&F0&D0&M0&_&Hy&_).
  destruct there; cbn [negb] in H; [|done]. specialize (Hy eq_refl). rewrite <-M0.
  assert (Fs.there (fs w0) (path_for dir label) = true) as Hex by (unfold Fs.there, Fs.regular in *; by rewrite F0, D0).
  apply st_bind_ok in H as ([]&w2&Ha&_).
  unfold Mtls.audit_key_permissions, Mtls.at_path, Mtls.metadata_mode, Mtls.on_fs, st_bind, Fs.syscall in Ha. simpl in Ha.
  destruct (f _); simpl in Ha; [done|].
  change (Fs.there _ _) with (Fs.there (fs w0) (path_for dir label)) in Ha. rewrite Hex in Ha. simpl in Ha.
  case_bool_decide as Hm; [exact Hm|done].
Qed.

(** The keyring of the operating system is never used: the label of the
    probe is one that every store refuses, so [detect_or_file] always falls back
    to files, whatever the keyring would answer. *)
Theorem keyring_never_used {kr : Keyring} f cut umask service dir (w : machine ring) r w' :
  detect_or_file f cut umask service dir w = (r, w') →
  keys w' = keys w ∧ ∀ st, r = Ok st → st = FileKeyStore f cut umask dir.
Proof.
  unfold detect_or_file. rewrite probe_refused. unfold file_new.
  intros [(there&w1&H1&H)|(e&H1&->)]%st_bind_cases; apply on_fs_stat in H1 as (b&[= <-]&_&_&_&K1&_).
  destruct there; [injection H as <- <-; naive_solver|]. revert H.
  unfold st_bind, Mtls.on_fs. destruct (Fs.create_dir_all f dir (fs w1)) as [[[]|e] s]; intros [= <- <-]; naive_solver.
Qed.

(** *** A machine to evaluate on *)
#[local] Instance demo_ring : Keyring := {|
  ring := gmap (string * string) string;
  entry_new _ _ := Ok tt;
  set_password s l p := λ k, (Ok tt, <[(s, l) := p]> k);
  get_password s l := λ k, (ok_or (k !! (s, l)) NoEntry, k);
  delete_credential s l := λ k, (Ok tt, base.delete (s, l) k)
|}.
Definition demo_kept (k : @ring demo_ring) (s l : string) : option string :=
  (k : gmap (string * string) string) !! (s, l).
#[local] Instance demo_ring_laws : KeyringLaws demo_ring demo_kept.
Proof.
  unfold demo_kept. split; simpl; intros.
  - simplify_eq. split; [by rewrite lookup_insert_eq|]. intros l' Hl. by rewrite lookup_insert_ne by congruence.
  - simplify_eq. destruct (_ !! _); simpl; naive_solver.
  - simplify_eq. split; [by rewrite lookup_delete_eq|]. intros l' Hl. by rewrite lookup_delete_ne by congruence.
Qed.

Fixpoint demo_digits (p : positive) : list byte :=
  match p with xH => [] | xO p => x30 :: demo_digits p | xI p => x31 :: demo_digits p end.
Fixpoint demo_number (b : list byte) : positive :=
  match b with [] => xH | x :: b => if Byte.eqb x x30 then xO (demo_number b) else xI (demo_number b) end.

Lemma demo_record_digits p : demo_number (demo_digits p) = p.
Proof. induction p as [p IH|p IH|]; simpl; by rewrite ?IH. Qed.
Lemma demo_digits_utf8 p : bytes_utf8 (demo_digits p) = true.
Proof. induction p; done. Qed.

#[local] Instance demo_key_json : KeyJson.
Proof.
  refine {|
    key_to_json r := String.string_of_list_byte (demo_digits (encode (sv r, salt r, skey r)));
    key_from_json t :=
      match decode (demo_number (String.list_byte_of_string t)) with
      | Some (v, s, k) => Ok (mkStored v s k)
      | None => Err "not a record"
      end
  |}.
  - intros r _. rewrite String.list_byte_of_string_of_list_byte, demo_record_digits, decode_encode. by destruct r.
  - intros r. rewrite String.list_byte_of_string_of_list_byte. apply demo_digits_utf8.
Defined.

#[local] Instance demo_cipher : Cipher.
Proof.
  refine {| seal k n p := Ok (n ++ p); open_ k n c := Some (drop (length n) c);
            kdf p s := Ok (take 32 (p ++ s ++ replicate 32 x00)) |}.
  - intros k n p c [= <-]. by rewrite drop_app_length.
  - intros p s k [= <-]. rewrite length_take, !length_app. change (length _) with 32%nat at 3. lia.
Defined.

Definition demo_machine : machine (@ring demo_ring) := mkMachine (Fs.mk ∅ {[components "/s"]} 0) (λ _, 0) ∅.
Abbreviation quiet := (λ _ : nat, None : option Fs.io_error).
Abbreviation none_cut := (λ _ : nat, 0%nat).
Abbreviation no_env := (λ _ : string, None : option string).
Abbreviation unlock := (unlock_vault_key quiet none_cut 0).
Abbreviation resolve := (resolve_vault_key quiet none_cut 0 no_env "node-a" "/s").

Lemma keystores_refine_witness :
  ∃ answers w', run (FileKeyStore quiet none_cut 0 "/s") [OpStore "a" "x"; OpLoad "a"; OpStore "A" "y"] demo_machine = (answers, w')
    ∧ answers = [Done (Ok tt); Got (Ok (Some "x")); Done (Err (InvalidLabel "A"))]
    ∧ steps (∃ n : nat, is_Some (@None Fs.io_error)) (file_held "/s" demo_machine) [OpStore "a" "x"; OpLoad "a"; OpStore "A" "y"] answers (file_held "/s" w').
Proof.
  destruct (run (FileKeyStore quiet none_cut 0 "/s") [OpStore "a" "x"; OpLoad "a"; OpStore "A" "y"] demo_machine)
    as [answers w'] eqn:H. exists answers, w'. split; [done|]. split.
  - apply (f_equal fst) in H. simpl in H. rewrite <- H. vm_compute. reflexivity.
  - destruct (keystores_refine demo_kept demo_ring_laws quiet none_cut 0 "/s" "svc"
      [OpStore "a" "x"; OpLoad "a"; OpStore "A" "y"] demo_machine) as [Hf _]; [done|intros n e [=]|]. by apply Hf.
Defined.

Lemma vault_key_lifecycle_witness :
  ∃ w1 w2, unlock [x70] (replicate 16 x01) "node-a" "/s" None demo_machine = (Ok tt, w1)
    ∧ resolve w1 = (Ok (Some (x70 :: replicate 16 x01 ++ replicate 15 x00)), w2).
Proof.
  destruct (vault_key_lifecycle quiet none_cut 0 no_env "node-a" "/s" [x70] (replicate 16 x01) (replicate 16 x02) None
    (x70 :: replicate 16 x01 ++ replicate 15 x00) demo_machine) as (w1&w2&_&_&_&_&H1&H2&_);
    [done|done|vm_compute; reflexivity|done| |done|vm_compute; reflexivity|by exists w1, w2].
  split_and!; [intros q _; reflexivity| |reflexivity]. apply (bool_decide_eq_false_1 _). vm_compute. reflexivity.
Defined.

Lemma load_audited_witness :
  ∃ w' text, file_load quiet "/s" "a" (file_store quiet none_cut 0 "/s" "a" "x" demo_machine).2 = (Ok (Some text), w')
    ∧ strict (modes (file_store (kr:=demo_ring) quiet none_cut 0 "/s" "a" "x" demo_machine).2 (components (path_for "/s" "a"))).
Proof.
  destruct (file_load quiet "/s" "a" (file_store quiet none_cut 0 "/s" "a" "x" demo_machine).2) as [r w'] eqn:H.
  assert (r = Ok (Some "x")) as ->.
  { apply (f_equal fst) in H. simpl in H. rewrite <- H. vm_compute. reflexivity. }
  exists w', "x". split; [done|]. by eapply load_audited.
Defined.

Lemma keyring_never_used_witness :
  keys (detect_or_file quiet none_cut 0 "svc" "/s" demo_machine).2 = (∅ : gmap (string * string) string).
Proof.
  destruct (detect_or_file quiet none_cut 0 "svc" "/s" demo_machine) as [r w'] eqn:H.
  destruct (keyring_never_used quiet none_cut 0 "svc" "/s" demo_machine r w' H) as [Hk _]. exact Hk.
Defined.

(** Locking drops the salt with the key, so unlocking again with the same
    passphrase derives another key, and what the first one encrypted stays
    closed. *)
Definition demo_relocked : machine (@ring demo_ring) :=
  let w := (unlock [x70] (replicate 16 x01) "node-a" "/s" None demo_machine).2 in
  let w := (lock_vault_key quiet none_cut 0 "node-a" "/s" w).2 in
  (unlock [x70] (replicate 16 x02) "node-a" "/s" None w).2.
Example relock_changes_key :
  (resolve (unlock [x70] (replicate 16 x01) "node-a" "/s" None demo_machine).2).1
    = Ok (Some (x70 :: replicate 16 x01 ++ replicate 15 x00))
  ∧ (resolve demo_relocked).1 = Ok (Some (x70 :: replicate 16 x02 ++ replicate 15 x00)).
Proof. vm_compute. done. Qed.

(** An imported key is stored with a salt it was not derived from, so the next
    unlock with the vault's passphrase replaces it with another key. *)
Example unlock_replaces_import :
  let w := (import_vault_key quiet none_cut 0 (replicate 32 x09) (replicate 16 x01) "node-a" "/s" demo_machine).2 in
  (resolve w).1 = Ok (Some (replicate 32 x09))
  ∧ (resolve (unlock [x70] (replicate 16 x02) "node-a" "/s" None w).2).1
    = Ok (Some (x70 :: replicate 16 x01 ++ replicate 15 x00)).
Proof. vm_compute. done. Qed.

(** The mode 0600 is that of a new file: over a file others can read, the key is
    written where they can read it, reported as stored, and then refused. *)
Definition demo_loose : machine (@ring demo_ring) :=
  mkMachine (Fs.mk {[components "/s/keys/e2ee.node-a.key" := []]} {[components "/s"; components "/s/keys"]} 0)
    (λ _, 6 * 8 * 8 + 4 * 8 + 4) ∅.
Example loose_mode_kept :
  let '(r, w) := unlock [x70] (replicate 16 x01) "node-a" "/s" (Some (replicate 16 x01)) demo_loose in
  r = Ok tt
  ∧ (resolve w).1 = Err (KeyStoreE (PermAudit (Mtls.InsecureKeyPerms "/s/keys/e2ee.node-a.key" 420 384))).
Proof. vm_compute. done. Qed.

(** A look at the key's file that fails is taken for no key: unlocking again
    with the same passphrase then draws a new salt and replaces the key. *)
Example failing_look_replaces_key :
  let w := (unlock [x70] (replicate 16 x01) "node-a" "/s" None demo_machine).2 in
  let f n := if bool_decide (n = S (Fs.calls (fs w))) then Some (Fs.IoError Fs.OtherKind "EIO") else None in
  let '(r, w') := unlock_vault_key f none_cut 0 [x70] (replicate 16 x02) "node-a" "/s" None w in
  r = Ok tt ∧ (resolve w).1 = Ok (Some (x70 :: replicate 16 x01 ++ replicate 15 x00))
  ∧ (resolve w').1 = Ok (Some (x70 :: replicate 16 x02 ++ replicate 15 x00)).
Proof. vm_compute. done. Qed.
End VaultKeyTheorems.
