(* ===== verification/Stripe.v ===== *)
(** * Stripe events ([disk-core/src/billing/stripe.rs], [stripe_sig.rs] and
      [disk-server/src/billing/webhook.rs])

    The signature header and its check, the subscription event of a body, and
    the handler that writes the plan. HMAC-SHA256 and the JSON parser are
    parameters. *)

From stdpp Require Import prelude gmap strings pretty.
From Stdlib Require Import ZArith Lia Strings.Byte Strings.Ascii.
From S2P Require Import Prelude Text PathFacts Fs BlobStore Sql MetaDb Billing MetaSync MetaSyncProps.
From S2P Require Import Types SyncService Publisher Enforcer Http Accounts Agents AgentsProps.

#[local] Open Scope Z_scope.

(** ** [stripe_sig.rs] *)
Module StripeSig.
Inductive StripeSigError :=
  | MissingHeader
  | MalformedHeader
  | MissingTimestamp
  | MissingV1Signature
  | TimestampSkew (age_secs tolerance_secs : Z)
  | SignatureMismatch
  | InvalidSecret.

Section sig.
Context (hmac : bytes → bytes → bytes).

Definition compute_v1_signature (webhook_secret : string) (timestamp : Z) (body : bytes) : string :=
  Hex.encode (hmac (Publisher.str_bytes webhook_secret)
                (Publisher.str_bytes (pretty timestamp +:+ ".") ++ Lossy.bytes_lossy body)).

(** The loop over the parts: the last time stamp, all signatures; a time stamp
    that is not a number ends it. *)
Fixpoint header_parts (parts : list string) (timestamp : option Z) (v1_sigs : list string)
    : result (option Z * list string) StripeSigError :=
  match parts with
  | [] => Ok (timestamp, v1_sigs)
  | part :: parts =>
      let part := explode (trim part) in
      match strip_prefix (explode "t=") part with
      | Some ts => match Split.parse_i64 (implode ts) with
                   | Some z => header_parts parts (Some z) v1_sigs
                   | None => Err MalformedHeader
                   end
      | None => match strip_prefix (explode "v1=") part with
                | Some sig => header_parts parts timestamp
                                (if decide (sig = []) then v1_sigs else v1_sigs ++ [implode sig])
                | None => header_parts parts timestamp v1_sigs
                end
      end
  end.

Definition parse_signature_header (header : string) : result (Z * list string) StripeSigError :=
  r <?- header_parts (implode <$> split_chars "," (explode header)) None [] ;;
  timestamp <?- ok_or r.1 MissingTimestamp ;;
  if decide (r.2 = []) then Err MissingV1Signature else Ok (timestamp, r.2).

(** [now.saturating_sub(timestamp).unsigned_abs()]. *)
Definition age (now timestamp : Z) : Z := Z.abs (i64_saturating_sub now timestamp).

Definition check_timestamp_skew (now timestamp tolerance_secs : Z) : result unit StripeSigError :=
  if bool_decide (tolerance_secs < age now timestamp)
  then Err (TimestampSkew (age now timestamp) tolerance_secs) else Ok tt.

Definition constant_time_eq_hex (a b : string) : bool := WebhookSig.constant_time_eq a b.

Definition verify_stripe_webhook_signature (now : Z) (signature_header : string) (body : bytes)
    (webhook_secret : string) (tolerance_secs : Z) : result unit StripeSigError :=
  if decide (webhook_secret = "") then Err InvalidSecret
  else
    parsed <?- parse_signature_header signature_header ;;
    let '(timestamp, v1_sigs) := parsed in
    _ <?- check_timestamp_skew now timestamp tolerance_secs ;;
    let expected := compute_v1_signature webhook_secret timestamp body in
    if existsb (λ sig, constant_time_eq_hex sig expected) v1_sigs then Ok tt else Err SignatureMismatch.
End sig.
End StripeSig.

(** ** [stripe.rs] *)
Module StripeEvent.
Inductive StripeParseError :=
  | Json
  | UnsupportedEvent (event_type : string)
  | InactiveSubscription (status : string)
  | MissingLookupKey
  | UnknownLookupKey (key : string).

Record StripePrice := mkPrice { lookup_key : option string }.
Record StripeItem := mkItem { price : StripePrice }.
Record StripeItems := mkItems { items_data : list StripeItem }.
Record StripeSubscription := mkSub { customer : string; id : string; status : string; items : StripeItems }.
Record StripeData := mkData { object : StripeSubscription }.
Record StripeEnvelope := mkEnvelope { event_type : string; data : StripeData }.

Record StripeSubscriptionEvent := mkEvent {
  ev_type : string;
  stripe_customer_id : string;
  stripe_subscription_id : string;
  plan_tier : PlanTier.t
}.

Definition parse_stripe_subscription_event (from_str : string → option StripeEnvelope) (body : string)
    : result StripeSubscriptionEvent StripeParseError :=
  envelope <?- ok_or (from_str body) Json ;;
  if negb (starts_with (event_type envelope) "customer.subscription.")
  then Err (UnsupportedEvent (event_type envelope))
  else
    let sub := object (data envelope) in
    if negb (bool_decide (status sub = "active")) && negb (bool_decide (status sub = "trialing"))
    then Err (InactiveSubscription (status sub))
    else
      key <?- ok_or (item ← head (items_data (items sub)); lookup_key (price item)) MissingLookupKey ;;
      tier <?- ok_or (PlanTier.from_stripe_lookup_key key) (UnknownLookupKey key) ;;
      Ok (mkEvent (event_type envelope) (customer sub) (id sub) tier).
End StripeEvent.

(** ** [webhook.rs] *)
Module StripeWebhook.
Import StripeSig StripeEvent Http.

Definition DEFAULT_STRIPE_TOLERANCE_SECS : Z := 300.

Record WebhookState := mkWebhook {
  mode : BillingMode.t;
  webhook_secret : option string;
  signature_tolerance_secs : Z;
  require_signature_header : bool
}.

Section handler.
Context (hmac : bytes → bytes → bytes) (from_str : string → option StripeEnvelope).

Definition verify_request (self : WebhookState) (now : Z) (headers : gmap string string) (body : bytes)
    : result unit StatusCode :=
  match webhook_secret self, SyncService.header headers "stripe-signature" with
  | Some secret, Some header =>
      map_err (λ _, BAD_REQUEST)
        (verify_stripe_webhook_signature hmac now header body secret (signature_tolerance_secs self))
  | Some _, None => Err BAD_REQUEST
  | None, None => if require_signature_header self then Err BAD_REQUEST else Ok tt
  | None, Some _ => if require_signature_header self then Err INTERNAL_SERVER_ERROR else Ok tt
  end.

(** The event that is written, or the response that says why not. *)
Definition accept (self : WebhookState) (now : Z) (headers : gmap string string) (body : bytes)
    : result StripeSubscriptionEvent (StatusCode * string) :=
  match mode self with
  | BillingMode.Stripe =>
      _ <?- map_err (λ status, (status, if decide (status = INTERNAL_SERVER_ERROR)
                                        then "webhook secret not configured" else "invalid signature"))
              (verify_request self now headers body) ;;
      if negb (bytes_utf8 body) then Err (BAD_REQUEST, "invalid utf-8")
      else map_err (λ _, (BAD_REQUEST, "invalid payload"))
             (parse_stripe_subscription_event from_str (String.string_of_list_byte body))
  | _ => Err (NOT_FOUND, "billing webhooks disabled")
  end.

(** [fault] is what a statement of the plan's upsert fails with; a failed one
    leaves the table as it was. [written_at] is the clock of the upsert. *)
Definition stripe_webhook (self : WebhookState) (now written_at : Z) (fault : option MetaDbError)
    (headers : gmap string string) (body : bytes) : stm MetaDb (StatusCode * string) unit :=
  event <~ st_lift (accept self now headers body) ;;
  λ db,
    let '(r, db) :=
      match fault with
      | Some e => (Err e, db)
      | None => MetaBilling.apply_stripe_subscription written_at None (stripe_customer_id event)
                  (stripe_subscription_id event) (plan_tier event) db
      end in
    (map_err (λ _, (INTERNAL_SERVER_ERROR, "persist failed")) r, db).
End handler.
End StripeWebhook.

Module StripeTheorems.
Import AgentsProps StripeSig StripeEvent StripeWebhook.

Section facts.
Context (hmac : bytes → bytes → bytes) (from_str : string → option StripeEnvelope).

Lemma verify_ok now header body secret tol :
  verify_stripe_webhook_signature hmac now header body secret tol = Ok tt ↔
  secret ≠ "" ∧ ∃ ts sigs, parse_signature_header header = Ok (ts, sigs) ∧ age now ts ≤ tol
    ∧ compute_v1_signature hmac secret ts body ∈ sigs.
Proof.
  unfold verify_stripe_webhook_signature. case_decide as Hs; [split; [done|by intros [? _]]|].
  destruct (parse_signature_header header) as [[ts sigs]|e]; simpl; [|split; [done|by intros (_&?&?&?&_)]].
  unfold check_timestamp_skew. case_bool_decide as Ha; simpl.
  { split; [done|]. intros (_&ts'&sigs'&[= <- <-]&?&_). lia. }
  destruct (existsb _ sigs) eqn:He.
  - apply existsb_exists in He as (sig&Hin%list_elem_of_In&Heq). unfold constant_time_eq_hex in Heq.
    rewrite constant_time_eq_spec in Heq. apply bool_decide_eq_true in Heq as ->.
    split; [|done]. intros _. split; [done|]. exists ts, sigs. split_and!; [done|lia|done].
  - split; [done|]. intros (_&ts'&sigs'&[= <- <-]&_&Hin). exfalso. apply not_true_iff_false in He. apply He.
    apply existsb_exists. eexists. split; [by apply list_elem_of_In|]. unfold constant_time_eq_hex.
    rewrite constant_time_eq_spec. by apply bool_decide_eq_true.
Qed.

Lemma parse_stripe_formatted ts b :
  in_i64 ts → b ≠ [] →
  parse_signature_header (WebhookSig.format_disk_signature_header ts (Hex.encode b)) = Ok (ts, [Hex.encode b]).
Proof.
  intros Hts Hb. unfold parse_signature_header. pose proof (formatted_parts ts b) as H.
  destruct (implode <$> _) as [|p1 [|p2 [|? ?]]]; try discriminate H.
  cbn [fmap list_fmap] in H. injection H as H1 H2. cbn [header_parts]. rewrite H1, H2, strip_part, implode_explode, Split.parse_i64_pretty by done.
  replace (strip_prefix (explode "t=") (explode ("v1=" +:+ Hex.encode b))) with (@None chars) by done.
  rewrite strip_part, implode_explode. rewrite decide_False by (intros He%explode_nil; by apply hex_encode_empty in He).
  cbn [header_parts res_bind fst snd app ok_or]. by rewrite decide_False.
Qed.

Lemma age_exact now ts : in_i64 now → in_i64 ts → 0 ≤ now → 0 ≤ ts → age now ts = Z.abs (now - ts).
Proof. unfold age, i64_saturating_sub, in_i64, i64_min, i64_max. lia. Qed.

Lemma verify_signed self secret now headers body :
  webhook_secret self = Some secret → verify_request hmac self now headers body = Ok tt →
  secret ≠ "" ∧ ∃ header ts sigs, SyncService.header headers "stripe-signature" = Some header
    ∧ parse_signature_header header = Ok (ts, sigs) ∧ age now ts ≤ signature_tolerance_secs self
    ∧ compute_v1_signature hmac secret ts body ∈ sigs.
Proof.
  intros Hs. unfold verify_request. rewrite Hs. destruct (SyncService.header _ _) as [header|]; [|done].
  destruct (verify_stripe_webhook_signature _ _ _ _ _ _) as [[]|] eqn:E; [|done]. intros _.
  apply verify_ok in E as (Hne&ts&sigs&?&?&?). split; [done|]. by exists header, ts, sigs.
Qed.

Lemma accept_inv self now headers body event :
  accept hmac from_str self now headers body = Ok event →
  mode self = BillingMode.Stripe ∧ bytes_utf8 body = true ∧ verify_request hmac self now headers body = Ok tt
  ∧ parse_stripe_subscription_event from_str (String.string_of_list_byte body) = Ok event.
Proof.
  unfold accept. destruct (mode self); [done|done|].
  destruct (verify_request _ _ _ _ _) as [[]|]; [|done]. simpl. destruct (bytes_utf8 body); [|done]. simpl.
  destruct (parse_stripe_subscription_event _ _); [|done]. by intros [= ->].
Qed.

(** The null tenant's row is compared with no other, so its upsert never fails. *)
Lemma apply_null_ok at_ c s tier db :
  ∃ db', MetaBilling.apply_stripe_subscription at_ None c s tier db = (Ok tt, db').
Proof.
  unfold MetaBilling.apply_stripe_subscription, MetaBilling.upsert_billing, st_bind, query, execute. simpl.
  case_bool_decide; [by eexists|]. simpl. unfold insert_row.
  destruct (existsb _ _) eqn:E; [|by eexists]. exfalso.
  apply existsb_exists in E as (r&_&Hr). by vm_compute in Hr.
Qed.

(** What the server formats is visible ASCII. *)
Lemma header_visible headers ts secret body header :
  headers !! "stripe-signature" = Some (WebhookSig.format_disk_signature_header ts (compute_v1_signature hmac secret ts body)) →
  header = WebhookSig.format_disk_signature_header ts (compute_v1_signature hmac secret ts body) →
  SyncService.header headers "stripe-signature" = Some header.
Proof.
  intros Hh ->. unfold SyncService.header. rewrite Hh. cbn [mbind option_bind].
  assert (∀ c, plain_char c → SyncService.visible c = true) as Hp.
  { intros c Hc. unfold plain_char in Hc. unfold SyncService.visible. rewrite bool_decide_eq_true_2 by lia. done. }
  rewrite (proj2 (forallb_forall _ _)); [done|]. intros c Hc%list_elem_of_In. apply Hp.
  unfold WebhookSig.format_disk_signature_header in Hc. rewrite !explode_app in Hc.
  assert (∀ c, c ∈ explode "t=" ∨ c ∈ explode ",v1=" → plain_char c) as Hpre.
  { intros d [Hd|Hd]; revert d Hd; apply Forall_forall; repeat constructor; vm_compute; congruence. }
  rewrite !elem_of_app in Hc. destruct Hc as [Hc|[Hc|[Hc|Hc]]];
    [auto|by apply pretty_plain in Hc|auto|by apply hex_plain in Hc].
Qed.
End facts.

(** A plan changes only by a signed event. When a secret is configured and
    the handler reports success or the database is another one afterwards, the
    request carried a signature header with a time within the tolerance and, among
    its signatures, the code of that time and this body under the secret; the
    body is the event of an active or trial subscription with a known price, and
    the database is the one that event's upsert gives. Every refusal and every
    failing statement leaves the database as it was. *)
Theorem stripe_plan_signed hmac from_str self secret now written_at fault headers body db r db' :
  webhook_secret self = Some secret →
  stripe_webhook hmac from_str self now written_at fault headers body db = (r, db') →
  (∀ e, r = Err e → db' = db)
  ∧ (r = Ok tt ∨ db' ≠ db →
      secret ≠ "" ∧ mode self = BillingMode.Stripe ∧ bytes_utf8 body = true
      ∧ (∃ header ts sigs, SyncService.header headers "stripe-signature" = Some header
          ∧ parse_signature_header header = Ok (ts, sigs) ∧ age now ts ≤ signature_tolerance_secs self
          ∧ compute_v1_signature hmac secret ts body ∈ sigs)
      ∧ ∃ event, parse_stripe_subscription_event from_str (String.string_of_list_byte body) = Ok event
          ∧ (MetaBilling.apply_stripe_subscription written_at None (stripe_customer_id event)
               (stripe_subscription_id event) (plan_tier event) db).2 = db').
Proof.
  intros Hs H. unfold stripe_webhook, st_bind, st_lift in H.
  destruct (accept hmac from_str self now headers body) as [event|e0] eqn:Ha.
  2:{ injection H as <- <-. naive_solver. }
  destruct (accept_inv _ _ _ _ _ _ _ Ha) as (Hm&Hu&Hsig&Hev).
  destruct fault as [e1|]; [injection H as <- <-; naive_solver|].
  destruct (apply_null_ok written_at (stripe_customer_id event) (stripe_subscription_id event) (plan_tier event) db)
    as (db1&H1). rewrite H1 in H. injection H as <- <-. split; [done|]. intros _.
  destruct (verify_signed _ _ _ _ _ _ Hs Hsig) as (Hne&Hs'). split_and!; try done. exists event. by rewrite H1.
Qed.

(** A signed event takes effect. For a server in Stripe mode with a secret, a
    body in UTF-8 of a supported event sent with the header made from the secret
    and the body at a time within the tolerance is accepted, and the plan of the
    deployment without tenants is then the one of the event's price. No tenant's
    plan has changed: whichever customer the event names, the row it is written to
    is that of the null tenant. *)
Theorem stripe_event_applies hmac from_str self secret now written_at ts headers body event dflt db :
  (∀ k m, length (hmac k m) = 32%nat) →
  webhook_secret self = Some secret → secret ≠ "" → mode self = BillingMode.Stripe → bytes_utf8 body = true →
  in_i64 ts → in_i64 now → 0 ≤ ts → 0 ≤ now → Z.abs (now - ts) ≤ signature_tolerance_secs self →
  headers !! "stripe-signature"
    = Some (WebhookSig.format_disk_signature_header ts (compute_v1_signature hmac secret ts body)) →
  parse_stripe_subscription_event from_str (String.string_of_list_byte body) = Ok event →
  MetaSyncTheorems.billing_ok db →
  ∃ db', stripe_webhook hmac from_str self now written_at None headers body db = (Ok tt, db')
    ∧ MetaSyncTheorems.billing_ok db'
    ∧ MetaBilling.get_plan_tier None dflt db' = (Ok (plan_tier event), db')
    ∧ ∀ t, (MetaBilling.get_plan_tier (Some t) dflt db').1 = (MetaBilling.get_plan_tier (Some t) dflt db).1.
Proof.
  intros Hmac Hs Hne Hm Hu Hts Hnow H0 H0' Htol Hh Hev Hok.
  assert (accept hmac from_str self now headers body = Ok event) as Ha.
  { unfold accept, verify_request. rewrite Hm, Hs, (header_visible _ _ _ _ _ _ Hh eq_refl).
    rewrite (proj2 (verify_ok hmac now _ body secret _)); [simpl; by rewrite Hu, Hev|]. split; [done|].
    exists ts, [compute_v1_signature hmac secret ts body]. split_and!; [|by rewrite age_exact|set_solver].
    apply parse_stripe_formatted; [done|]. intros Hn. apply (f_equal length) in Hn. by rewrite Hmac in Hn. }
  destruct (MetaSyncTheorems.plan_tier_roundtrip written_at None (plan_tier event) dflt (stripe_customer_id event)
    (stripe_subscription_id event) db Hok _ (or_intror eq_refl)) as (db'&H1&Hok'&Hg&Ho).
  exists db'. unfold stripe_webhook, st_bind, st_lift. rewrite Ha, H1. split_and!; [done..|].
  intros t. by apply Ho.
Qed.

(** *** A server to evaluate on *)
Definition demo_mac (k m : bytes) : bytes := take 32 (k ++ m ++ replicate 32 x00).
Lemma demo_code_length k m : length (demo_mac k m) = 32%nat.
Proof. unfold demo_mac. rewrite length_take, !length_app. change (length (replicate 32 x00)) with 32%nat. lia. Qed.

Definition demo_sub (status key : string) : StripeEnvelope :=
  StripeEvent.mkEnvelope "customer.subscription.updated"
    (mkData (mkSub "cus_1" "sub_1" status (mkItems [mkItem (mkPrice (Some key))]))).
(** Three bodies: a team plan, a free plan, a cancelled one. *)
Definition demo_from_str (body : string) : option StripeEnvelope :=
  if decide (body = "T") then Some (demo_sub "active" "disk_team")
  else if decide (body = "F") then Some (demo_sub "active" "disk_free")
  else if decide (body = "C") then Some (demo_sub "canceled" "disk_team")
  else None.
Definition demo_server : WebhookState := mkWebhook BillingMode.Stripe (Some "whsec") 300 true.
Definition demo_headers (ts : Z) (body : bytes) : gmap string string :=
  {["stripe-signature" := WebhookSig.format_disk_signature_header ts (compute_v1_signature demo_mac "whsec" ts body)]}.
Abbreviation post := (stripe_webhook demo_mac demo_from_str demo_server).

Lemma stripe_plan_signed_witness :
  ∃ db', post 1003 1003 None (demo_headers 1000 [x54]) [x54] empty_db = (Ok tt, db') ∧ bytes_utf8 [x54] = true.
Proof.
  destruct (post 1003 1003 None (demo_headers 1000 [x54]) [x54] empty_db) as [r db'] eqn:H.
  assert (r = Ok tt) as ->. { apply (f_equal fst) in H. cbn [fst] in H. rewrite <- H. vm_compute. reflexivity. }
  exists db'. split; [done|].
  destruct (stripe_plan_signed demo_mac demo_from_str demo_server "whsec" 1003 1003 None _ _ _ _ _ eq_refl H) as [_ H'].
  destruct (H' (or_introl eq_refl)) as (_&_&Hu&_). exact Hu.
Defined.

Lemma stripe_event_applies_witness :
  ∃ db', post 1003 1003 None (demo_headers 1000 [x54]) [x54] empty_db = (Ok tt, db')
    ∧ MetaBilling.get_plan_tier None PlanTier.Free db' = (Ok PlanTier.Team, db').
Proof.
  destruct (stripe_event_applies demo_mac demo_from_str demo_server "whsec" 1003 1003 1000 (demo_headers 1000 [x54]) [x54]
    (mkEvent "customer.subscription.updated" "cus_1" "sub_1" PlanTier.Team) PlanTier.Free empty_db)
    as (db'&H1&_&H2&_); [apply demo_code_length|done|done|done|done|by vm_compute|by vm_compute|lia|lia|vm_compute; congruence
    |vm_compute; reflexivity|vm_compute; reflexivity|apply NoDup_nil_2|].
  exists db'. split; [exact H1|exact H2].
Defined.

(** A cancellation is refused as a bad request and the paid plan stays. *)
Example cancellation_ignored :
  let db := (post 1003 1003 None (demo_headers 1000 [x54]) [x54] empty_db).2 in
  let '(r, db') := post 1010 1010 None (demo_headers 1009 [x43]) [x43] db in
  r = Err (BAD_REQUEST, "invalid payload")
  ∧ (MetaBilling.get_plan_tier None PlanTier.Free db').1 = Ok PlanTier.Team.
Proof. vm_compute. done. Qed.

(** Events are not numbered: within the tolerance an older one sent again undoes a
    newer one. *)
Example replay_restores_plan :
  let db := (post 1003 1003 None (demo_headers 1000 [x54]) [x54] empty_db).2 in
  let db := (post 1010 1010 None (demo_headers 1009 [x46]) [x46] db).2 in
  (MetaBilling.get_plan_tier None PlanTier.Free db).1 = Ok PlanTier.Free
  ∧ (MetaBilling.get_plan_tier None PlanTier.Free
       (post 1020 1020 None (demo_headers 1000 [x54]) [x54] db).2).1 = Ok PlanTier.Team.
Proof. vm_compute. done. Qed.
End StripeTheorems.
