(* ===== verification/Journal.v ===== *)
(** * The owner-outcome journal ([disk-personal/src/parent_journal.rs])

    A directory with one file per recorded outcome, appended under a lock as a
    pending file that is synced and renamed into place. Every system call may
    fail, a directory is listed in any order, and a power loss takes what was not
    synced. The JSON text of a record is a class. *)

From stdpp Require Import prelude gmap strings.
From Stdlib Require Import ZArith Lia Strings.Byte Strings.Ascii.
From S2P Require Import Prelude Text Publisher Capture Parent Provider.

#[local] Open Scope Z_scope.

(** ** The directory *)
Module JournalDir.
(** A file, whether its bytes and its name were synced, and the name it had
    before when it was renamed since the last sync of the directory. *)
Record File := mkFile {
  f_meta : Disk.Meta; content : bytes; content_synced : bool; name_synced : bool; was : option string
}.
Record t := mk { d_meta : Disk.Meta; files : gmap string File }.

(** What a power loss may leave: a file whose name was synced is there; one whose
    name was not may be gone or have its name from before; bytes that were not
    synced may be any. *)
Definition after_loss (x y : File) : Prop :=
  f_meta y = f_meta x ∧ (content_synced x = true → content y = content x)
  ∧ content_synced y = true ∧ name_synced y = true ∧ was y = None.
Definition power_loss (d d' : t) : Prop :=
  d_meta d' = d_meta d
  ∧ (∀ n x, files d !! n = Some x → name_synced x = true → ∃ y, files d' !! n = Some y ∧ after_loss x y)
  ∧ (∀ n y, files d' !! n = Some y →
       (∃ x, files d !! n = Some x ∧ after_loss x y)
       ∨ (∃ m x, files d !! m = Some x ∧ name_synced x = false ∧ was x = Some n ∧ after_loss x y)).
End JournalDir.

Record LocalRecord := mkLocal { schema_version : string; effect_lease_id : string; outcome : Native.Outcome }.

Class JournalJson := {
  local_to_vec : LocalRecord → bytes;
  local_from_slice : bytes → option LocalRecord;
  local_roundtrip r : Native.id_ok (effect_lease_id r) = true → Native.outcome_ok (outcome r) = true →
    local_from_slice (local_to_vec r) = Some r
}.

Module Journal.
Import JournalDir.

Definition MAX_RECORD : nat := Z.to_nat 16384.
Definition MAX_RECORDS : nat := 128.
Definition SCHEMA : string := "disk-local-owner-journal/1-source".

Inductive JournalError :=
  | UnsafeDirectory | UnsafeEntry | Corrupt | Conflict | Capacity | Pending | Io.

Record DirectoryIdentity := mkIdentity { device : Z; inode : Z; uid : Z }.
Inductive RecordResult := Recorded | Existing.

(** The directory and how many calls were made. *)
Record world := mkWorld { dir : t; calls : nat }.
Abbreviation jm := (stm world JournalError).

(** How a call fails: that a lock is held elsewhere, or how much of a write was
    done. *)
Record failure := mkFailure { would_block : bool; written : nat }.

Section journal.
Context {json : JournalJson}.
(** The process's user and its mask, the identity the journal was opened with,
    the oracles of failing calls and of files that change while they are read,
    what opens besides a regular file, and the order of the entries. *)
Context (euid umask : Z) (identity : DirectoryIdentity) (fault : nat → option failure) (changed : nat → bool).
Context (opens : Disk.Meta → bool) (readdir : gmap string File → list string).

Definition set_files (m : gmap string File) (w : world) : world := mkWorld (mk (d_meta (dir w)) m) (calls w).

Definition tick : jm (option failure) := λ w, (Ok (fault (calls w)), mkWorld (dir w) (S (calls w))).
Definition call : jm unit := x <~ tick ;; match x with Some _ => st_err Io | None => st_ret tt end.
Definition look {A} (f : t → result A JournalError) : jm A := λ w, (f (dir w), w).

Definition dir_safe (m : Disk.Meta) : bool :=
  Disk.is_dir m && bool_decide (Disk.dev m = device identity) && bool_decide (Disk.ino m = inode identity)
  && bool_decide (Disk.uid m = uid identity) && bool_decide (Disk.uid m = euid)
  && bool_decide (Z.land (Disk.mode m) 4095 = 448).
Definition same_dir : jm unit :=
  _ <~ call ;; look (λ d, if dir_safe (d_meta d) then Ok tt else Err UnsafeDirectory).

Definition file_safe (m : Disk.Meta) : bool :=
  Disk.is_file m && bool_decide (Disk.dev m = device identity) && bool_decide (Disk.uid m = uid identity)
  && bool_decide (Z.land (Disk.mode m) 4095 = 384) && bool_decide (Disk.nlink m = 1).
(** The metadata of the open file [name]. *)
Definition checked_file (name : string) : jm File :=
  _ <~ call ;;
  look (λ d, x <?- ok_or (files d !! name) Io ;; if file_safe (f_meta x) then Ok x else Err UnsafeEntry).

Definition from_admitted_handle : jm unit := same_dir.

Definition new_file (d : t) : File :=
  mkFile (Disk.mkMeta (Disk.dev (d_meta d)) 0 euid (Z.land 384 (u32_max - umask)) false true 1) [] false false None.

(** [openat2]: with [create] the name must be free. *)
Definition openat (create : bool) (name : string) : jm unit :=
  _ <~ call ;;
  λ w, match create, files (dir w) !! name with
       | true, Some _ | false, None => (Err Io, w)
       | true, None => (Ok tt, set_files (<[name := new_file (dir w)]> (files (dir w))) w)
       | false, Some x => (if Disk.is_file (f_meta x) || opens (f_meta x) then Ok tt else Err Io, w)
       end.
Definition open (create : bool) (name : string) : jm unit :=
  _ <~ same_dir ;; _ <~ openat create name ;; _ <~ checked_file name ;; st_ret tt.

Definition LOCK : string := "writer.lock".
(** Whether another process holds the lock is for the oracle. *)
Definition lock : jm unit :=
  _ <~ open false LOCK ;;
  x <~ tick ;;
  match x with
  | Some e => st_err (if would_block e then Pending else Io)
  | None => st_ret tt
  end.

Definition read (name : string) : jm bytes :=
  _ <~ open false name ;;
  before <~ checked_file name ;;
  if bool_decide (MAX_RECORD < length (content before))%nat then st_err Capacity
  else
    _ <~ call ;;
    after <~ checked_file name ;;
    λ w, (if changed (calls w) then Err Corrupt else Ok (content after), w).

Definition ScannedRecord : Type := string * bytes * LocalRecord.
Definition sc_name (r : ScannedRecord) : string := r.1.1.
Definition sc_bytes (r : ScannedRecord) : bytes := r.1.2.
Definition receipt (r : ScannedRecord) : string := Native.outcome_owner_receipt (outcome r.2).
Definition sequence (r : ScannedRecord) : Z := Native.local_sequence (outcome r.2).

Definition strip_suffix (suffix s : string) : option string :=
  match strip_prefix (reverse (explode suffix)) (reverse (explode s)) with
  | Some l => Some (implode (reverse l))
  | None => None
  end.
Definition ends_with (s suffix : string) : bool := bool_decide (is_Some (strip_suffix suffix s)).

(** One entry, given the records of those before it. *)
Definition scan_entry (name : string) (records : list ScannedRecord) : jm (list ScannedRecord) :=
  _ <~ call ;;
  if negb (str_utf8 name) then st_err UnsafeEntry
  else if bool_decide (name ∈ ["."; ".."; LOCK]) then st_ret records
  else if ends_with name ".pending" then st_err Pending
  else
    id <~ st_lift (ok_or (strip_suffix ".json" name) UnsafeEntry) ;;
    if negb (Native.id_ok id) then st_err UnsafeEntry
    else if bool_decide (MAX_RECORDS ≤ length records)%nat then st_err Capacity
    else
      b <~ read name ;;
      record <~ st_lift (ok_or (local_from_slice b) Corrupt) ;;
      let x : ScannedRecord := (name, b, record) in
      if bool_decide (schema_version record = SCHEMA) && bool_decide (effect_lease_id record = id)
         && bool_decide (receipt x ∉ receipt <$> records) && bool_decide (sequence x ∉ sequence <$> records)
      then st_ret (records ++ [x])
      else st_err Corrupt.

Fixpoint scan_entries (names : list string) (records : list ScannedRecord) : jm (list ScannedRecord) :=
  match names with
  | [] => st_ret records
  | name :: names => records <~ scan_entry name records ;; scan_entries names records
  end.

Definition by_sequence (x y : ScannedRecord) : bool := bool_decide (sequence x ≤ sequence y).

Definition scan : jm (list ScannedRecord) :=
  _ <~ same_dir ;;
  _ <~ call ;;
  _ <~ call ;;
  names <~ look (λ d, Ok (readdir (files d))) ;;
  records <~ scan_entries names [] ;;
  st_ret (sort_by by_sequence records).

Definition inspect : jm (list LocalRecord) :=
  _ <~ lock ;; records <~ scan ;; st_ret (snd <$> records).

(** What the records say of a lease and an outcome that is to be appended. *)
Fixpoint check_records (lease : string) (o : Native.Outcome) (b : bytes) (records : list ScannedRecord)
    : result (option RecordResult) JournalError :=
  match records with
  | [] => Ok None
  | x :: records =>
      if bool_decide (effect_lease_id x.2 = lease)
      then (if bool_decide (sc_bytes x = b) then Ok (Some Existing) else Err Conflict)
      else if bool_decide (receipt x = Native.outcome_owner_receipt o) || bool_decide (sequence x = Native.local_sequence o)
      then Err Conflict
      else check_records lease o b records
  end.

Definition alter_file (f : File → File) (name : string) (w : world) : world := set_files (alter f name (files (dir w))) w.
Definition append (b : bytes) (x : File) : File := mkFile (f_meta x) (content x ++ b) false (name_synced x) (was x).
Definition mark_content (x : File) : File := mkFile (f_meta x) (content x) true (name_synced x) (was x).
Definition mark_name (x : File) : File := mkFile (f_meta x) (content x) (content_synced x) true None.

Definition write_all (name : string) (b : bytes) : jm unit :=
  x <~ tick ;;
  λ w, match x with
       | Some e => (Err Io, alter_file (append (take (written e) b)) name w)
       | None => (Ok tt, alter_file (append b) name w)
       end.
Definition sync_file (name : string) : jm unit := _ <~ call ;; λ w, (Ok tt, alter_file mark_content name w).
Definition sync_dir : jm unit := _ <~ call ;; λ w, (Ok tt, set_files (mark_name <$> files (dir w)) w).

(** [renameat2] with [NOREPLACE]. *)
Definition moved (name : string) (x : File) : File :=
  mkFile (f_meta x) (content x) (content_synced x) false (Some name).
Definition rename (from to : string) : jm unit :=
  _ <~ call ;;
  λ w, match files (dir w) !! from, files (dir w) !! to with
       | Some x, None => (Ok tt, set_files (<[to := moved from x]> (delete from (files (dir w)))) w)
       | _, _ => (Err Io, w)
       end.

Definition append_record (stem : string) (b : bytes) : jm RecordResult :=
  let pending := stem +:+ ".pending" in
  let final_name := stem +:+ ".json" in
  _ <~ open true pending ;;
  _ <~ write_all pending b ;;
  _ <~ sync_file pending ;;
  _ <~ checked_file pending ;;
  _ <~ rename pending final_name ;;
  _ <~ sync_dir ;;
  st_ret Recorded.

Definition record (lease : string) (o : Native.Outcome) (expected : Native.OriginalEffect) : jm RecordResult :=
  if negb (Native.matches_original_effect o expected) then st_err Conflict
  else
    let b := local_to_vec (mkLocal SCHEMA lease o) in
    if bool_decide (MAX_RECORD < length b)%nat then st_err Capacity
    else
      _ <~ lock ;;
      records <~ scan ;;
      found <~ st_lift (check_records lease o b records) ;;
      match found with
      | Some r => st_ret r
      | None => if bool_decide (MAX_RECORDS ≤ length records)%nat then st_err Capacity else append_record lease b
      end.
End journal.
End Journal.
