(* ===== verification/JournalProps.v ===== *)
(** * The owner-outcome journal: what a scan reads and what an append leaves,
      and the theorems *)

From stdpp Require Import prelude gmap strings sorting.
From Stdlib Require Import ZArith Lia Sorting.Sorted Strings.Byte Strings.Ascii.
From S2P Require Import Prelude Text Publisher Capture Parent ParentTheorems Provider Journal.

#[local] Open Scope Z_scope.
Import JournalDir Journal.

(** ** Names *)
Lemma strip_suffix_app s suffix : strip_suffix suffix (s +:+ suffix) = Some s.
Proof.
  unfold strip_suffix. rewrite explode_app, reverse_app.
  rewrite (proj2 (strip_prefix_spec _ _ _) eq_refl). by rewrite reverse_involutive, implode_explode.
Qed.

Lemma strip_suffix_inv suffix s r : strip_suffix suffix s = Some r → s = r +:+ suffix.
Proof.
  unfold strip_suffix. destruct (strip_prefix _ _) as [l|] eqn:E; [|done]. intros [= <-].
  apply strip_prefix_spec, (f_equal reverse) in E. rewrite reverse_app, !reverse_involutive in E.
  apply explode_inj. by rewrite E, explode_app, explode_implode.
Qed.

(** A name that ends in one of two texts with different last letters does not end in the other. *)
Lemma suffix_other s r suffix suffix' :
  strip_suffix suffix s = Some r → last (explode suffix) ≠ None →
  last (explode suffix') ≠ None → last (explode suffix) ≠ last (explode suffix') → strip_suffix suffix' s = None.
Proof.
  intros ->%strip_suffix_inv H1 H2 Hne. destruct (strip_suffix suffix' _) as [r'|] eqn:E; [|done].
  apply strip_suffix_inv, (f_equal explode), (f_equal last) in E. rewrite !explode_app, !last_app in E.
  destruct (last (explode suffix)); [|done]. destruct (last (explode suffix')); [|done]. congruence.
Qed.

Lemma json_not_pending s r : strip_suffix ".json" s = Some r → ends_with s ".pending" = false.
Proof.
  intros H. unfold ends_with. rewrite (suffix_other s r ".json" ".pending"); [done|done|..]; vm_compute; congruence.
Qed.

Lemma pending_name s : ends_with (s +:+ ".pending") ".pending" = true.
Proof. unfold ends_with. by rewrite strip_suffix_app. Qed.

Lemma sorted_impl {A} (P Q : A → A → Prop) l : (∀ x y, P x y → Q x y) → StronglySorted P l → StronglySorted Q l.
Proof. intros H. induction 1; constructor; [done|]. eapply Forall_impl; eauto. Qed.

(** ** What leaves the directory alone *)
Definition keeps {A} (m : jm A) : Prop := ∀ w r w', m w = (r, w') → dir w' = dir w.

Lemma journal_keeps_ret {A} (a : A) : keeps (st_ret a).
Proof. by intros w r w' [= _ <-]. Qed.
Lemma journal_keeps_err {A} e : keeps (A:=A) (st_err e).
Proof. by intros w r w' [= _ <-]. Qed.
Lemma journal_keeps_lift {A} (x : result A JournalError) : keeps (st_lift x).
Proof. by intros w r w' [= _ <-]. Qed.
Lemma journal_keeps_bind {A B} (m : jm A) (k : A → jm B) : keeps m → (∀ a, keeps (k a)) → keeps (st_bind m k).
Proof.
  intros Hm Hk w r w' H. unfold st_bind in H. destruct (m w) as [[a|e] w1] eqn:E.
  - rewrite (Hk a _ _ _ H). eauto.
  - simplify_eq. eauto.
Qed.
Lemma keeps_look {A} (f : t → result A JournalError) : keeps (look f).
Proof. by intros w r w' [= _ <-]. Qed.
Lemma keeps_tick fault : keeps (tick fault).
Proof. by intros w r w' [= _ <-]. Qed.
Lemma keeps_call fault : keeps (call fault).
Proof. apply journal_keeps_bind; [apply keeps_tick|]. intros []; [apply journal_keeps_err|apply journal_keeps_ret]. Qed.

Create HintDb journal.
#[export] Hint Resolve journal_keeps_ret journal_keeps_err journal_keeps_lift journal_keeps_bind keeps_look keeps_tick keeps_call : journal.

Section journal.
Context {json : JournalJson}.
Context (euid umask : Z) (identity : DirectoryIdentity) (fault : nat → option failure) (changed : nat → bool).
Context (opens : Disk.Meta → bool) (readdir : gmap string File → list string).

Abbreviation open_ := (open euid umask identity fault opens).
Abbreviation scan_ := (scan euid umask identity fault changed opens readdir).
Abbreviation scan_entry_ := (scan_entry euid umask identity fault changed opens).
Abbreviation scan_entries_ := (scan_entries euid umask identity fault changed opens).
Abbreviation read_ := (read euid umask identity fault changed opens).
Abbreviation lock_ := (lock euid umask identity fault opens).
Abbreviation safe := (file_safe identity).

Lemma keeps_same_dir : keeps (same_dir euid identity fault).
Proof. unfold same_dir. auto with journal. Qed.
Lemma keeps_checked name : keeps (checked_file identity fault name).
Proof. unfold checked_file. auto with journal. Qed.
Lemma keeps_openat name : keeps (openat euid umask fault opens false name).
Proof.
  apply journal_keeps_bind; [auto with journal|]. intros _ w r w' H. cbn beta in H. destruct (files (dir w) !! name); by simplify_eq.
Qed.
Lemma keeps_open name : keeps (open_ false name).
Proof.
  apply journal_keeps_bind; [apply keeps_same_dir|]. intros _. apply journal_keeps_bind; [apply keeps_openat|]. intros _.
  apply journal_keeps_bind; [apply keeps_checked|]. auto with journal.
Qed.
Lemma keeps_lock : keeps lock_.
Proof.
  apply journal_keeps_bind; [apply keeps_open|]. intros _. apply journal_keeps_bind; [auto with journal|]. intros []; auto with journal.
Qed.
Lemma keeps_read name : keeps (read_ name).
Proof.
  apply journal_keeps_bind; [apply keeps_open|]. intros _. apply journal_keeps_bind; [apply keeps_checked|]. intros x.
  case_bool_decide; [auto with journal|]. apply journal_keeps_bind; [auto with journal|]. intros _.
  apply journal_keeps_bind; [apply keeps_checked|]. by intros y w r w' [= _ <-].
Qed.
Lemma keeps_scan_entry name records : keeps (scan_entry_ name records).
Proof.
  apply journal_keeps_bind; [auto with journal|]. intros _. destruct (negb _); [auto with journal|].
  destruct (bool_decide (name ∈ _)); [auto with journal|]. destruct (ends_with _ _); [auto with journal|].
  apply journal_keeps_bind; [auto with journal|]. intros id. destruct (negb _); [auto with journal|].
  destruct (bool_decide _); [auto with journal|].
  apply journal_keeps_bind; [apply keeps_read|]. intros b. apply journal_keeps_bind; [auto with journal|]. intros r. cbv zeta.
  case_match; auto with journal.
Qed.
Lemma keeps_scan_entries names records : keeps (scan_entries_ names records).
Proof.
  revert records. induction names as [|n names IH]; intros records; [apply journal_keeps_ret|].
  apply journal_keeps_bind; [apply keeps_scan_entry|auto].
Qed.
Lemma keeps_scan : keeps scan_.
Proof.
  apply journal_keeps_bind; [apply keeps_same_dir|]. intros _. do 2 (apply journal_keeps_bind; [auto with journal|]; intros _).
  apply journal_keeps_bind; [auto with journal|]. intros names. apply journal_keeps_bind; [apply keeps_scan_entries|]. auto with journal.
Qed.
End journal.
#[export] Hint Resolve keeps_same_dir keeps_checked keeps_open keeps_lock keeps_read keeps_scan_entry keeps_scan_entries
  keeps_scan : journal.

(** ** What a scan reads *)
Section scans.
Context {json : JournalJson}.
Context (euid umask : Z) (identity : DirectoryIdentity) (opens : Disk.Meta → bool).
Context (readdir : gmap string File → list string) (Hreaddir : ∀ m, readdir m ≡ₚ (map_to_list m).*1).

Abbreviation safe := (file_safe identity).
Definition special : list string := ["."; ".."; LOCK].
Definition record_name (n : string) : Prop := str_utf8 n = true ∧ (n ∉ special) ∧ ends_with n ".pending" = false.

(** The record [x] is what the file of its name says. *)
Definition entry_of (d : t) (x : ScannedRecord) : Prop :=
  record_name (sc_name x)
  ∧ (∃ f, files d !! sc_name x = Some f ∧ safe (f_meta f) = true ∧ content f = sc_bytes x)
  ∧ (length (sc_bytes x) ≤ MAX_RECORD)%nat ∧ local_from_slice (sc_bytes x) = Some x.2 ∧ schema_version x.2 = SCHEMA
  ∧ strip_suffix ".json" (sc_name x) = Some (effect_lease_id x.2) ∧ Native.id_ok (effect_lease_id x.2) = true.

(** The records are the directory's, no two share a name, a receipt or a number,
    and there are no other entries. *)
Definition good (d : t) (rs : list ScannedRecord) : Prop :=
  dir_safe euid identity (d_meta d) = true ∧ Forall (entry_of d) rs
  ∧ (∀ n, is_Some (files d !! n) → n ∈ special ∨ n ∈ sc_name <$> rs)
  ∧ NoDup (sc_name <$> rs) ∧ NoDup (receipt <$> rs) ∧ NoDup (sequence <$> rs) ∧ (length rs ≤ MAX_RECORDS)%nat.

Lemma good_perm d rs rs' : rs ≡ₚ rs' → good d rs → good d rs'.
Proof.
  intros Hp (?&?&Hn&?&?&?&?). split_and!; [done|by rewrite <- Hp| |by rewrite <- Hp..].
  intros n Hin. destruct (Hn n Hin); [by left|right]. by rewrite <- Hp.
Qed.

Lemma readdir_elem m n : n ∈ readdir m ↔ is_Some (m !! n).
Proof.
  rewrite Hreaddir, list_elem_of_fmap. split.
  - intros ([k x]&->&Hin%elem_of_map_to_list). by exists x.
  - intros [x Hx]. exists (n, x). split; [done|]. by apply elem_of_map_to_list.
Qed.

Section sound.
Context (fault : nat → option failure) (changed : nat → bool).

Lemma same_dir_ok w w' : same_dir euid identity fault w = (Ok tt, w') → dir_safe euid identity (d_meta (dir w)) = true.
Proof.
  unfold same_dir. intros ([]&w1&Hc&H)%st_bind_ok. apply keeps_call in Hc. unfold look in H. rewrite Hc in H.
  by destruct (dir_safe _ _ _).
Qed.

Lemma checked_ok name w x w' :
  checked_file identity fault name w = (Ok x, w') → files (dir w) !! name = Some x ∧ safe (f_meta x) = true.
Proof.
  unfold checked_file. intros ([]&w1&Hc&H)%st_bind_ok. apply keeps_call in Hc. unfold look in H. rewrite Hc in H.
  destruct (files (dir w) !! name) as [y|]; [|done]. simpl in H. by destruct (safe (f_meta y)) eqn:E; simplify_eq.
Qed.

Lemma journal_read_ok name w b w' :
  read euid umask identity fault changed opens name w = (Ok b, w') →
  ∃ f, files (dir w) !! name = Some f ∧ safe (f_meta f) = true ∧ content f = b ∧ (length b ≤ MAX_RECORD)%nat.
Proof.
  unfold read. intros ([]&w1&Ho&H)%st_bind_ok. apply keeps_open in Ho.
  apply st_bind_ok in H as (x&w2&Hx&H). pose proof (keeps_checked _ _ _ _ _ _ Hx) as Hk2.
  apply checked_ok in Hx as [Hx Hsx]. case_bool_decide; [done|].
  apply st_bind_ok in H as ([]&w3&Hc&H). apply keeps_call in Hc.
  apply st_bind_ok in H as (y&w4&Hy&H). apply checked_ok in Hy as [Hy _].
  rewrite Hc, Hk2, Ho in Hy. rewrite Ho in Hx. simplify_eq. destruct (changed _); simplify_eq. exists x. split_and!; try done. lia.
Qed.

Lemma scan_entry_ok name records w rs w' :
  scan_entry euid umask identity fault changed opens name records w = (Ok rs, w') →
  (name ∈ special ∧ rs = records)
  ∨ ∃ x, sc_name x = name ∧ rs = records ++ [x] ∧ entry_of (dir w) x
      ∧ (receipt x ∉ receipt <$> records) ∧ (sequence x ∉ sequence <$> records) ∧ (length records < MAX_RECORDS)%nat.
Proof.
  unfold scan_entry. intros ([]&w1&Hc&H)%st_bind_ok. apply keeps_call in Hc.
  destruct (str_utf8 name) eqn:Hu; [|done]. simpl in H. case_bool_decide as Hsp; [injection H as <- <-; by left|].
  destruct (ends_with name ".pending") eqn:Hpe; [done|].
  apply st_bind_ok in H as (id&w2&[Hid ->]%st_lift_ok&H).
  destruct (strip_suffix ".json" name) as [id'|] eqn:Hsuf; [|done]. injection Hid as ->.
  destruct (Native.id_ok id) eqn:Hok; [|done]. simpl in H. case_bool_decide as Hlen; [done|].
  apply st_bind_ok in H as (b&w3&Hr&H). pose proof (keeps_read _ _ _ _ _ _ _ _ _ _ Hr) as Hk. apply journal_read_ok in Hr as (f&Hf&Hs&Hb&Hl).
  apply st_bind_ok in H as (rec&w4&[Hrec ->]%st_lift_ok&H).
  destruct (local_from_slice b) as [rec'|] eqn:Hfs; [|done]. injection Hrec as ->. cbv zeta in H.
  destruct (_ && _) eqn:Hall; [|done]. injection H as <- <-.
  rewrite !andb_true_iff, !bool_decide_eq_true in Hall. destruct Hall as (((?&?)&?)&?).
  right. exists (name, b, rec). rewrite Hc in Hf. split_and!; try done; [|lia].
  unfold entry_of. simpl. subst id. split_and!; try done. by exists f.
Qed.

Lemma scan_entries_ok names records w rs w' :
  scan_entries euid umask identity fault changed opens names records w = (Ok rs, w') →
  NoDup (receipt <$> records) → NoDup (sequence <$> records) → (length records ≤ MAX_RECORDS)%nat →
  ∃ new, rs = records ++ new ∧ Forall (entry_of (dir w)) new
    ∧ sc_name <$> new = List.filter (λ n, negb (bool_decide (n ∈ special))) names
    ∧ NoDup (receipt <$> rs) ∧ NoDup (sequence <$> rs) ∧ (length rs ≤ MAX_RECORDS)%nat.
Proof.
  revert records w. induction names as [|n names IH]; intros records w H Hr Hq Hl.
  { injection H as <- <-. exists []. by rewrite app_nil_r. }
  cbn [scan_entries] in H. apply st_bind_ok in H as (rs1&w1&H1&H). pose proof (keeps_scan_entry _ _ _ _ _ _ _ _ _ _ _ H1) as Hk.
  apply scan_entry_ok in H1 as [[Hsp ->]|(x&Hn&->&Hx&Hnr&Hnq&Hlt)].
  - destruct (IH _ _ H Hr Hq Hl) as (new&->&Hf&Hnm&?). rewrite Hk in Hf. exists new. split_and!; try done; [|naive_solver..].
    simpl. by rewrite (bool_decide_eq_true_2 (n ∈ special)).
  - destruct (IH _ _ H) as (new&->&Hf&Hnm&?&?&?).
    + rewrite fmap_app. apply NoDup_app. split_and!; [done| |by apply NoDup_singleton]. set_solver.
    + rewrite fmap_app. apply NoDup_app. split_and!; [done| |by apply NoDup_singleton]. set_solver.
    + rewrite length_app. simpl. lia.
    + rewrite Hk in Hf. exists (x :: new). rewrite <- (assoc_L (++)) in *. split_and!; try done; [by constructor|].
      rewrite fmap_cons, Hn, Hnm. cbn [List.filter].
      by rewrite bool_decide_eq_false_2 by (destruct Hx as [(_&Hns&_) _]; by rewrite <- Hn).
Qed.

Lemma scan_good w rs w' :
  scan euid umask identity fault changed opens readdir w = (Ok rs, w') →
  dir w' = dir w ∧ good (dir w) rs ∧ StronglySorted (λ x y, sequence x ≤ sequence y) rs.
Proof.
  intros Hs. split; [by apply keeps_scan in Hs|]. unfold scan in Hs.
  apply st_bind_ok in Hs as ([]&w1&H1&Hs). pose proof (keeps_same_dir _ _ _ _ _ _ H1) as K1. apply same_dir_ok in H1.
  apply st_bind_ok in Hs as ([]&w2&K2%keeps_call&Hs). apply st_bind_ok in Hs as ([]&w3&K3%keeps_call&Hs).
  apply st_bind_ok in Hs as (names&w4&H4&Hs). injection H4 as <- <-.
  apply st_bind_ok in Hs as (rs0&w5&H5&[= <- <-]).
  assert (dir w3 = dir w) as K by congruence. rewrite K in H5.
  destruct (scan_entries_ok _ _ _ _ _ H5) as (new&->&Hf&Hn&Hr&Hq&Hl); [constructor..|simpl; lia|].
  simpl in *. rewrite K in Hf. split.
  - apply (good_perm _ new); [by rewrite sort_by_perm|]. split_and!; try done.
    + intros n Hin%readdir_elem. destruct (decide (n ∈ special)); [by left|right].
      rewrite Hn, list_elem_of_In, List.filter_In, <- list_elem_of_In. by rewrite bool_decide_eq_false_2.
    + rewrite Hn. apply NoDup_ListNoDup, List.NoDup_filter, NoDup_ListNoDup. rewrite Hreaddir. apply NoDup_fst_map_to_list.
  - assert (∀ x y : ScannedRecord, by_sequence x y = true ↔ sequence x ≤ sequence y) as Hle
      by (intros; apply bool_decide_eq_true).
    eapply sorted_impl; [intros x y; apply Hle|]. apply sort_by_sorted.
    + intros x y. unfold by_sequence. rewrite bool_decide_eq_false, bool_decide_eq_true. lia.
    + intros x y z. rewrite !Hle. lia.
Qed.

(** A file left pending is seen, whatever its bytes: nothing is read past it. *)
Lemma pending_scan n w r w' :
  is_Some (files (dir w) !! n) → ends_with n ".pending" = true →
  scan euid umask identity fault changed opens readdir w = (r, w') → ∃ e, r = Err e.
Proof.
  intros Hin Hp H. destruct r as [rs|e]; [|by eexists]. apply scan_good in H as (_&(_&Hf&Hd&_)&_). exfalso.
  destruct (Hd n Hin) as [Hsp|(x&->&Hx)%list_elem_of_fmap].
  - unfold special, LOCK in Hsp. rewrite !elem_of_cons in Hsp.
    destruct Hsp as [->|[->|[->|Hsp]]]; [by vm_compute in Hp..|by apply elem_of_nil in Hsp].
  - rewrite Forall_forall in Hf. destruct (Hf x Hx) as ((_&_&Hp')&_). congruence.
Qed.
End sound.

(** *** When nothing fails, the scan reads every record *)
Section complete.
Context (fault : nat → option failure) (changed : nat → bool).
Context (Hquiet : ∀ n, fault n = None) (Hstable : ∀ n, changed n = false).

Definition runs {A} (m : jm A) (w : world) (a : A) : Prop := ∃ w', m w = (Ok a, w') ∧ dir w' = dir w.

Lemma journal_runs_bind {A B} (m : jm A) (k : A → jm B) w a b :
  runs m w a → (∀ w', dir w' = dir w → runs (k a) w' b) → runs (st_bind m k) w b.
Proof.
  intros (w1&H1&K1) Hk. destruct (Hk w1 K1) as (w2&H2&K2). exists w2. unfold st_bind. rewrite H1. split; [done|congruence].
Qed.
Lemma journal_runs_ret {A} (a : A) w : runs (st_ret a) w a.
Proof. by exists w. Qed.
Lemma journal_runs_lift {A} (x : result A JournalError) a w : x = Ok a → runs (st_lift x) w a.
Proof. intros ->. by exists w. Qed.
Lemma journal_runs_look {A} (f : t → result A JournalError) w a : f (dir w) = Ok a → runs (look f) w a.
Proof. intros H. exists w. unfold look. by rewrite H. Qed.
Lemma runs_call w : runs (call fault) w tt.
Proof. exists (mkWorld (dir w) (S (calls w))). unfold call, st_bind, tick. by rewrite Hquiet. Qed.

Lemma runs_same_dir w : dir_safe euid identity (d_meta (dir w)) = true → runs (same_dir euid identity fault) w tt.
Proof.
  intros H. eapply journal_runs_bind; [apply runs_call|]. intros w' Hw. apply journal_runs_look. by rewrite Hw, H.
Qed.
Lemma runs_checked w n x :
  files (dir w) !! n = Some x → safe (f_meta x) = true → runs (checked_file identity fault n) w x.
Proof.
  intros Hx Hs. eapply journal_runs_bind; [apply runs_call|]. intros w' Hw. apply journal_runs_look. rewrite Hw, Hx. simpl. by rewrite Hs.
Qed.

Lemma runs_open w n x :
  dir_safe euid identity (d_meta (dir w)) = true → files (dir w) !! n = Some x → safe (f_meta x) = true →
  runs (open euid umask identity fault opens false n) w tt.
Proof.
  intros Hd Hx Hs. eapply journal_runs_bind; [by apply runs_same_dir|]. intros w1 H1.
  eapply (journal_runs_bind _ _ _ tt); [|intros w2 H2].
  - eapply journal_runs_bind; [apply runs_call|]. intros w2 H2. exists w2. cbn beta. rewrite H2, H1, Hx.
    assert (Disk.is_file (f_meta x) = true) as ->; [|done].
    unfold file_safe in Hs. rewrite !andb_true_iff in Hs. by destruct Hs as ((((?&_)&_)&_)&_).
  - eapply journal_runs_bind; [apply runs_checked; [by rewrite H2, H1|done]|]. intros; apply journal_runs_ret.
Qed.

Lemma journal_runs_read w n x :
  dir_safe euid identity (d_meta (dir w)) = true → files (dir w) !! n = Some x → safe (f_meta x) = true →
  (length (content x) ≤ MAX_RECORD)%nat → runs (read euid umask identity fault changed opens n) w (content x).
Proof.
  intros Hd Hx Hs Hl. eapply journal_runs_bind; [by eapply runs_open|]. intros w1 H1.
  eapply journal_runs_bind; [apply runs_checked; [by rewrite H1|done]|]. intros w2 H2.
  rewrite bool_decide_eq_false_2 by lia. eapply journal_runs_bind; [apply runs_call|]. intros w3 H3.
  eapply journal_runs_bind; [apply runs_checked; [by rewrite H3, H2, H1|done]|]. intros w4 H4. exists w4. by rewrite Hstable.
Qed.

Lemma runs_special w n records :
  n ∈ special → runs (scan_entry euid umask identity fault changed opens n records) w records.
Proof.
  intros Hn. eapply journal_runs_bind; [apply runs_call|]. intros w1 H1.
  assert (str_utf8 n = true) as ->.
  { unfold special, LOCK in Hn. rewrite !elem_of_cons in Hn.
    destruct Hn as [->|[->|[->|Hn]]]; [by vm_compute..|by apply elem_of_nil in Hn]. }
  simpl. rewrite bool_decide_eq_true_2 by done. apply journal_runs_ret.
Qed.

Lemma runs_scan_entry w x records :
  dir_safe euid identity (d_meta (dir w)) = true → entry_of (dir w) x → (length records < MAX_RECORDS)%nat →
  receipt x ∉ receipt <$> records → sequence x ∉ sequence <$> records →
  runs (scan_entry euid umask identity fault changed opens (sc_name x) records) w (records ++ [x]).
Proof.
  intros Hd ((Hu&Hsp&Hp)&(f&Hf&Hs&Hc)&Hl&Hfs&Hsc&Hsuf&Hid) Hlen Hr Hq.
  eapply journal_runs_bind; [apply runs_call|]. intros w1 H1. rewrite Hu. simpl.
  rewrite (bool_decide_eq_false_2 (sc_name x ∈ _)) by done. rewrite Hp.
  eapply journal_runs_bind; [apply journal_runs_lift; by rewrite Hsuf|]. intros w2 H2. rewrite Hid. simpl.
  rewrite bool_decide_eq_false_2 by lia.
  eapply journal_runs_bind; [eapply (journal_runs_read _ _ f); rewrite ?H2, ?H1, ?Hc; done|]. intros w3 H3. rewrite Hc.
  eapply journal_runs_bind; [apply journal_runs_lift; by rewrite Hfs|]. intros w4 H4. cbv zeta.
  replace (sc_name x, sc_bytes x, x.2) with x by (by destruct x as [[? ?] ?]).
  rewrite !bool_decide_eq_true_2 by done. apply journal_runs_ret.
Qed.

Lemma runs_scan_entries rs names records w :
  good (dir w) rs → NoDup names → Forall (λ n, n ∈ special ∨ n ∈ sc_name <$> rs) names →
  NoDup records → records ⊆ rs → (∀ x, x ∈ records → sc_name x ∉ names) →
  ∃ out, runs (scan_entries euid umask identity fault changed opens names records) w out
    ∧ NoDup out ∧ out ⊆ rs ∧ (∀ x, x ∈ records → x ∈ out) ∧ (∀ x, x ∈ rs → sc_name x ∈ names → x ∈ out).
Proof.
  intros Hg. revert records w Hg. induction names as [|n names IH]; intros records w Hg Hnd Hall Hnr Hsub Hdis.
  { exists records. split_and!; try done; [apply journal_runs_ret|set_solver]. }
  apply NoDup_cons in Hnd as [Hn Hnd]. apply Forall_cons in Hall as [Hh Hall].
  pose proof Hg as (Hd&Hf&_&Hnn&Hrr&Hqq&Hlen). rewrite Forall_forall in Hf.
  assert (∃ out1, runs (scan_entry euid umask identity fault changed opens n records) w out1
    ∧ NoDup out1 ∧ out1 ⊆ rs ∧ (∀ x, x ∈ records → x ∈ out1) ∧ (∀ x, x ∈ out1 → sc_name x ∉ names)
    ∧ (∀ x, x ∈ rs → sc_name x = n → x ∈ out1)) as (out1&(w1&H1&K1)&Hn1&Hs1&Hr1&Hd1&Ha1).
  { destruct (decide (n ∈ special)) as [Hsp|Hsp].
    - exists records. split_and!; try done; [by apply runs_special|set_solver|].
      intros x Hx Hnx. destruct (Hf x Hx) as [(_&Hns&_) _]. by rewrite Hnx in Hns.
    - destruct Hh as [?|(x&->&Hx)%list_elem_of_fmap]; [done|].
      assert (x ∉ records) as Hnew by (intros Hx'; apply (Hdis x Hx'); constructor).
      exists (records ++ [x]). split_and!.
      + apply runs_scan_entry; [done|by apply Hf| | |].
        * apply Nat.lt_le_trans with (length (records ++ [x])); [rewrite length_app; simpl; lia|].
          etrans; [|exact Hlen]. apply submseteq_length, NoDup_submseteq; [|set_solver].
          apply NoDup_app. split_and!; [done|set_solver|apply NoDup_singleton].
        * intros (y&Hy&Hin)%list_elem_of_fmap. assert (x = y); [|by subst].
          by eapply (NoDup_fmap_inj_elem receipt rs); [|done|set_solver|].
        * intros (y&Hy&Hin)%list_elem_of_fmap. assert (x = y); [|by subst].
          by eapply (NoDup_fmap_inj_elem sequence rs); [|done|set_solver|].
      + apply NoDup_app. split_and!; [done|set_solver|apply NoDup_singleton].
      + set_solver.
      + set_solver.
      + intros y [Hy|Hy%list_elem_of_singleton]%elem_of_app; [|by subst]. specialize (Hdis y Hy). set_solver.
      + intros y Hy Hyx. assert (y = x) as ->; [|set_solver]. by eapply (NoDup_fmap_inj_elem sc_name rs). }
  destruct (IH out1 w1) as (out&(w2&H2&K2)&Hno&Hso&Hro&Hao); [by rewrite K1|done..|].
  exists out. split_and!; try done; [|auto|].
  - exists w2. cbn [scan_entries]. unfold st_bind. rewrite H1. split; [done|congruence].
  - intros x Hx [Hx'|Hx']%elem_of_cons; auto.
Qed.

Lemma scan_complete w rs :
  good (dir w) rs → ∃ rs', runs (scan euid umask identity fault changed opens readdir) w rs' ∧ rs' ≡ₚ rs.
Proof.
  intros Hg. pose proof Hg as (Hd&_&Hn&Hnn&_).
  destruct (runs_same_dir w Hd) as (w1&H1&K1). destruct (runs_call w1) as (w2&H2&K2). destruct (runs_call w2) as (w3&H3&K3).
  assert (dir w3 = dir w) as K by congruence.
  destruct (runs_scan_entries rs (readdir (files (dir w))) [] w3) as (out&(w4&H4&K4)&Hno&Hso&_&Hall).
  - by rewrite K.
  - rewrite Hreaddir. apply NoDup_fst_map_to_list.
  - apply Forall_forall. intros n Hin%readdir_elem. auto.
  - constructor.
  - set_solver.
  - set_solver.
  - exists (sort_by by_sequence out). split.
    + exists w4. unfold scan, st_bind. rewrite H1, H2, H3. unfold look. rewrite K, H4. split; [done|congruence].
    + rewrite sort_by_perm. apply NoDup_Permutation; [done|by eapply NoDup_fmap_1|]. intros x. split; [apply Hso|].
      intros Hx. apply Hall; [done|]. apply readdir_elem. destruct Hg as (_&Hf&_). rewrite Forall_forall in Hf.
      destruct (Hf x Hx) as (_&(f&->&_)&_). by eexists.
Qed.
End complete.
End scans.

(** ** What an append leaves *)
Section appends.
Context (euid umask : Z) (identity : DirectoryIdentity) (opens : Disk.Meta → bool) (fault : nat → option failure).
Context (stem : string).
Abbreviation p := (stem +:+ ".pending").
Abbreviation q := (stem +:+ ".json").

Lemma names_differ : p ≠ q.
Proof.
  intros H. pose proof (pending_name stem) as Hp. rewrite H in Hp.
  by rewrite (json_not_pending q stem (strip_suffix_app _ _)) in Hp.
Qed.

(** The directory [d] with the pending file, the directory with the record. *)
Definition pending_in (d d' : t) : Prop := d_meta d' = d_meta d ∧ ∃ x, files d' = <[p := x]> (files d).
Definition recorded_in (b : bytes) (x : File) (d d' : t) : Prop :=
  d_meta d' = d_meta d ∧ files d !! p = None ∧ files d !! q = None ∧ file_safe identity (f_meta x) = true
  ∧ content x = b ∧ content_synced x = true ∧ files d' = <[q := x]> (files d).

Lemma open_new_spec w r w' :
  open euid umask identity fault opens true p w = (r, w') →
  (dir w' = dir w ∧ ∃ e, r = Err e)
  ∨ files (dir w) !! p = None
    ∧ dir w' = mk (d_meta (dir w)) (<[p := new_file euid umask (dir w)]> (files (dir w))).
Proof.
  unfold open, st_bind. destruct (same_dir euid identity fault w) as [[[]|e] w1] eqn:H1;
    pose proof (keeps_same_dir _ _ _ _ _ _ H1) as K1; [|intros [= <- <-]; left; eauto].
  unfold openat, st_bind. destruct (call fault w1) as [[[]|e] w2] eqn:H2; pose proof (keeps_call _ _ _ _ H2) as K2;
    [|intros [= <- <-]; left; split; [congruence|eauto]].
  destruct (files (dir w2) !! p) as [y|] eqn:Hy; [intros [= <- <-]; left; split; [congruence|eauto]|].
  destruct (checked_file identity fault p (set_files _ w2)) as [res w3] eqn:H3. pose proof (keeps_checked _ _ _ _ _ _ H3) as K3.
  intros H. right. rewrite K2, K1 in Hy. split; [done|].
  assert (dir w' = dir w3) as -> by (by destruct res; injection H as <- <-). rewrite K3. simpl. by rewrite K2, K1.
Qed.

Lemma journal_append_spec b w r w' :
  append_record euid umask identity fault opens stem b w = (r, w') →
  (r = Ok Recorded ∧ ∃ x, recorded_in b x (dir w) (mk (d_meta (dir w)) (<[q := x]> (files (dir w))))
     ∧ dir w' = mk (d_meta (dir w)) (mark_name <$> <[q := x]> (files (dir w))))
  ∨ ((∃ e, r = Err e) ∧ (dir w' = dir w ∨ pending_in (dir w) (dir w') ∨ ∃ x, recorded_in b x (dir w) (dir w'))).
Proof.
  unfold append_record. intros H. unfold st_bind at 1 in H.
  destruct (open euid umask identity fault opens true p w) as [[[]|e] w1] eqn:H1; apply open_new_spec in H1.
  2:{ injection H as <- <-. right. split; [eauto|]. destruct H1 as [[-> _]|[Hn ->]]; [by left|].
      right; left. split; [done|by eexists]. }
  destruct H1 as [[_ [? ?]]|[Hn K1]]; [done|].
  unfold st_bind at 1 in H. unfold write_all, st_bind at 1, tick in H.
  destruct (fault (calls w1)) as [e|]; cbn beta iota in H.
  { injection H as <- <-. right. split; [eauto|]. right; left. unfold alter_file, set_files. simpl. rewrite K1. simpl.
    split; [done|]. rewrite alter_insert_eq. by eexists. }
  unfold st_bind at 1 in H. unfold sync_file, st_bind at 1 in H.
  destruct (call fault _) as [[[]|e] w2] eqn:H2; pose proof (keeps_call _ _ _ _ H2) as K2; simpl in K2; rewrite K1 in K2; simpl in K2;
    rewrite alter_insert_eq in K2.
  2:{ injection H as <- <-. right. split; [eauto|]. right; left. rewrite K2. split; [done|by eexists]. }
  unfold st_bind at 1 in H. destruct (checked_file identity fault p _) as [[x|e] w3] eqn:H3;
    pose proof (keeps_checked _ _ _ _ _ _ H3) as K3; simpl in K3; rewrite K2 in K3; simpl in K3; rewrite alter_insert_eq in K3.
  2:{ injection H as <- <-. right. split; [eauto|]. right; left. rewrite K3. split; [done|by eexists]. }
  apply checked_ok in H3 as [Hx Hs]. simpl in Hx. rewrite K2 in Hx. simpl in Hx.
  rewrite alter_insert_eq, lookup_insert_eq in Hx. injection Hx as <-.
  unfold st_bind at 1 in H. unfold rename, st_bind at 1 in H.
  destruct (call fault w3) as [[[]|e] w4] eqn:H4; pose proof (keeps_call _ _ _ _ H4) as K4; rewrite K3 in K4.
  2:{ injection H as <- <-. right. split; [eauto|]. right; left. rewrite K4. split; [done|by eexists]. }
  cbn beta in H. rewrite K4 in H. simpl in H. rewrite lookup_insert_eq, lookup_insert_ne in H by apply names_differ.
  destruct (files (dir w) !! q) as [y|] eqn:Hq.
  { injection H as <- <-. right. split; [eauto|]. right; left. rewrite K4. split; [done|by eexists]. }
  set (x := moved p _) in H.
  assert (recorded_in b x (dir w) (mk (d_meta (dir w)) (<[q := x]> (files (dir w))))) as Hrec by done.
  rewrite delete_insert_id in H by done. unfold st_bind at 1 in H. unfold sync_dir, st_bind at 1 in H.
  destruct (call fault (set_files _ w4)) as [[[]|e] w5] eqn:H5; pose proof (keeps_call _ _ _ _ H5) as K5; simpl in K5.
  - injection H as <- <-. left. split; [done|]. exists x. split; [done|]. unfold set_files. simpl. rewrite K5. simpl. by rewrite K4.
  - injection H as <- <-. right. split; [eauto|]. right; right. exists x. rewrite K5, K4. done.
Qed.
End appends.

Import JournalDir Journal.

(** ** Names of records *)
Lemma ascii_utf8 l : Forall (λ c, ascii_code c ≤ 127) l → utf8_valid (ascii_code <$> l) = true.
Proof.
  induction 1 as [|c l Hc _ IH]; [done|]. rewrite fmap_cons. cbn [utf8_valid].
  rewrite bool_decide_eq_true_2; [done|]. unfold ascii_code in *. lia.
Qed.

Lemma id_ascii s : Native.id_ok s = true → Forall (λ c, ascii_code c ≤ 127) (explode s).
Proof.
  unfold Native.id_ok, Capture.identifier. intros [Hl%bool_decide_eq_true Hf]%andb_true_iff. rewrite forallb_forall in Hf.
  apply Forall_forall. intros c [i Hi]%list_elem_of_lookup. pose proof (lookup_lt_Some _ _ _ Hi) as Hlt.
  specialize (Hf (i, c)). rewrite <- list_elem_of_In in Hf. assert ((i, c) ∈ zip (seq 0 36) (explode s)) as Hin.
  { apply list_elem_of_lookup. exists i. rewrite lookup_zip_with, lookup_seq_lt by lia. simpl. by rewrite Hi. }
  specialize (Hf Hin) as Hc. simpl in Hc. case_bool_decide.
  - apply bool_decide_eq_true in Hc as ->. by vm_compute.
  - unfold Capture.is_lower_hex, is_ascii_digit in Hc. apply orb_true_iff in Hc as [Hc|Hc]; apply bool_decide_eq_true in Hc; lia.
Qed.

Lemma json_record_name lease : Native.id_ok lease = true → record_name (lease +:+ ".json").
Proof.
  intros Hid. split_and!.
  - unfold str_utf8. apply ascii_utf8. rewrite explode_app. apply Forall_app. split; [by apply id_ascii|].
    repeat constructor; by vm_compute.
  - intros Hin. pose proof (strip_suffix_app lease ".json") as H. unfold special, LOCK in Hin. rewrite !elem_of_cons in Hin.
    destruct Hin as [E|[E|[E|Hin]]]; [rewrite E in H; by vm_compute in H..|by apply elem_of_nil in Hin].
  - eapply json_not_pending, strip_suffix_app.
Qed.

Section theorems.
Context {json : JournalJson}.
Context (euid umask : Z) (identity : DirectoryIdentity) (opens : Disk.Meta → bool).
Context (readdir : gmap string File → list string).
Abbreviation good_ := (good euid identity).

Definition new_record (lease : string) (o : Native.Outcome) : ScannedRecord :=
  (lease +:+ ".json", local_to_vec (mkLocal SCHEMA lease o), mkLocal SCHEMA lease o).
Definition leases (rs : list ScannedRecord) : list string := (λ x, effect_lease_id x.2) <$> rs.

(** The records' bytes were synced. *)
Definition settled (d : t) (rs : list ScannedRecord) : Prop :=
  ∀ x f, x ∈ rs → files d !! sc_name x = Some f → content_synced f = true.

Lemma entry_same d d' x :
  (∀ f, files d !! sc_name x = Some f → ∃ f', files d' !! sc_name x = Some f' ∧ f_meta f' = f_meta f ∧ content f' = content f) →
  entry_of identity d x → entry_of identity d' x.
Proof.
  intros Hsame (?&(f&Hf&Hs&Hc)&?). destruct (Hsame f Hf) as (f'&Hf'&Hm&Hc'). split_and!; try done; [|naive_solver..].
  exists f'. split_and!; [done| |]; congruence.
Qed.

Lemma good_new d d' rs lease o x :
  good_ d rs → recorded_in identity lease (local_to_vec (mkLocal SCHEMA lease o)) x d d' →
  Native.id_ok lease = true → Native.outcome_ok o = true →
  (length (local_to_vec (mkLocal SCHEMA lease o)) ≤ MAX_RECORD)%nat → (length rs < MAX_RECORDS)%nat →
  receipt (new_record lease o) ∉ receipt <$> rs → sequence (new_record lease o) ∉ sequence <$> rs →
  good_ d' (new_record lease o :: rs).
Proof.
  intros (Hd&Hf&Hn&Hnn&Hrr&Hqq&Hlen) (Hm&Hp&Hq&Hs&Hc&Hsy&Hfiles) Hid Ho Hb Hlt Hr Hsq.
  assert (Forall (λ y, sc_name y ≠ lease +:+ ".json") rs) as Hfresh.
  { eapply Forall_impl; [exact Hf|]. intros y (_&(f&Hy&_)&_) Heq. by rewrite Heq, Hq in Hy. }
  unfold good. rewrite Hm. split_and!; [done| | | | | |simpl; lia].
  - constructor.
    + split; [by apply json_record_name|]. split_and!; simpl; try done; [|by apply local_roundtrip|apply strip_suffix_app].
      exists x. by rewrite Hfiles, lookup_insert_eq.
    + rewrite Forall_forall in Hf, Hfresh. apply Forall_forall. intros y Hy. apply (entry_same d); [|auto].
      intros f Hfy. exists f. rewrite Hfiles, lookup_insert_ne by (intros E; by apply (Hfresh y Hy)). done.
  - intros n [f Hnf]. rewrite Hfiles in Hnf. destruct (decide (n = lease +:+ ".json")) as [->|Hne].
    + right. constructor.
    + rewrite lookup_insert_ne in Hnf by done. destruct (Hn n ltac:(by eexists)); [by left|right]. by apply elem_of_cons; right.
  - rewrite fmap_cons. apply NoDup_cons. split; [|done]. intros (y&Hy&Hin)%list_elem_of_fmap.
    rewrite Forall_forall in Hfresh. by apply (Hfresh y Hin).
  - rewrite fmap_cons. by apply NoDup_cons.
  - rewrite fmap_cons. by apply NoDup_cons.
Qed.

(** A directory all of whose names were synced loses nothing of its records. *)
Lemma good_loss d d' rs :
  (∀ n f, files d !! n = Some f → name_synced f = true) → settled d rs → power_loss d d' → good_ d rs → good_ d' rs.
Proof.
  intros Hsync Hset (Hm&Hkeep&Hback) (Hd&Hf&Hn&Hrest). unfold good. rewrite Hm. split_and!; [done| | |naive_solver..].
  - rewrite Forall_forall in Hf. apply Forall_forall. intros x Hx. apply (entry_same d); [|auto]. intros f Hfx.
    destruct (Hkeep _ _ Hfx (Hsync _ _ Hfx)) as (y&Hy&Hmy&Hcy&_). exists y. split_and!; [done..|]. apply Hcy. by eapply Hset.
  - intros n [y Hy]. destruct (Hback n y Hy) as [(f&Hfn&_)|(m&f&Hfm&Hns&_)]; [apply Hn; by eexists|].
    by rewrite (Hsync _ _ Hfm) in Hns.
Qed.

Lemma good_marked d rs : good_ d rs → good_ (mk (d_meta d) (mark_name <$> files d)) rs.
Proof.
  intros (Hd&Hf&Hn&Hrest). split_and!; [done| | |naive_solver..].
  - eapply Forall_impl; [exact Hf|]. intros x. apply entry_same. simpl. intros f Hfx.
    exists (mark_name f). by rewrite lookup_fmap, Hfx.
  - simpl. intros n [y Hy]. rewrite lookup_fmap in Hy. destruct (files d !! n) eqn:E; [|done]. apply Hn. by eexists.
Qed.

Lemma recorded_survives lease o b x d rs d' :
  recorded_in identity lease b x d (mk (d_meta d) (<[lease +:+ ".json" := x]> (files d))) →
  good_ (mk (d_meta d) (<[lease +:+ ".json" := x]> (files d))) (new_record lease o :: rs) →
  settled d rs → power_loss (mk (d_meta d) (mark_name <$> <[lease +:+ ".json" := x]> (files d))) d' →
  good_ d' (new_record lease o :: rs).
Proof.
  intros (_&_&_&_&_&Hx&_) Hg%good_marked Hset Hloss. eapply good_loss; [| |exact Hloss|done].
  - intros n f. simpl. rewrite lookup_fmap. by intros (g&_&->)%fmap_Some.
  - intros y f Hy. simpl. rewrite lookup_fmap. intros (g&Hgy&->)%fmap_Some. simpl.
    destruct (decide (sc_name y = lease +:+ ".json")) as [E|E].
    { rewrite E, lookup_insert_eq in Hgy. by injection Hgy as <-. }
    rewrite lookup_insert_ne in Hgy by done. apply elem_of_cons in Hy as [->|Hy]; [done|]. by eapply Hset.
Qed.

Lemma check_records_new lease o b rs :
  check_records lease o b rs = Ok None →
  (lease ∉ leases rs) ∧ (Native.outcome_owner_receipt o ∉ receipt <$> rs) ∧ (Native.local_sequence o ∉ sequence <$> rs).
Proof.
  induction rs as [|x rs IH]; cbn [check_records]; [intros _; split_and!; apply not_elem_of_nil|].
  case_bool_decide; [by case_bool_decide|]. destruct (_ || _) eqn:E; [done|].
  rewrite orb_false_iff, !bool_decide_eq_false in E. intros (?&?&?)%IH. unfold leases in *. rewrite !fmap_cons, !not_elem_of_cons.
  naive_solver.
Qed.

Lemma check_records_found lease o b rs r :
  check_records lease o b rs = Ok (Some r) → r = Existing ∧ ∃ y, y ∈ rs ∧ effect_lease_id y.2 = lease ∧ sc_bytes y = b.
Proof.
  induction rs as [|x rs IH]; simpl; [done|].
  case_bool_decide; [case_bool_decide; [|done]; intros [= <-]; split; [done|]; exists x; set_solver|].
  destruct (_ || _); [done|]. intros (->&y&?&?&?)%IH. split; [done|]. exists y. set_solver.
Qed.
End theorems.

Module JournalTheorems.
Section claims.
Context {json : JournalJson}.
Context (euid umask : Z) (identity : DirectoryIdentity) (fault : nat → option failure) (changed : nat → bool).
Context (opens : Disk.Meta → bool) (readdir : gmap string File → list string).

Lemma open_safe name w w' :
  open euid umask identity fault opens false name w = (Ok tt, w') →
  ∃ x, files (dir w) !! name = Some x ∧ file_safe identity (f_meta x) = true.
Proof.
  unfold open. intros ([]&w1&K1%keeps_same_dir&H)%st_bind_ok. apply st_bind_ok in H as ([]&w2&K2%keeps_openat&H).
  apply st_bind_ok in H as (x&w3&Hx&_). apply checked_ok in Hx as [Hx Hs]. exists x. by rewrite K2, K1 in Hx.
Qed.

Lemma lock_safe w w' :
  lock euid umask identity fault opens w = (Ok tt, w') →
  dir w' = dir w ∧ ∃ x, files (dir w) !! LOCK = Some x ∧ file_safe identity (f_meta x) = true.
Proof.
  intros H. split; [by apply keeps_lock in H|]. unfold lock in H. apply st_bind_ok in H as ([]&w1&Ho&_).
  by apply open_safe in Ho.
Qed.

(** What [record] did when it got past the lock and the scan. *)
Lemma record_cases lease o expected w r w' :
  (∀ m, readdir m ≡ₚ (map_to_list m).*1) →
  record euid umask identity fault changed opens readdir lease o expected w = (r, w') →
  (dir w' = dir w ∧ ∃ e, r = Err e)
  ∨ (is_Some (files (dir w) !! LOCK)
     ∧ (∀ l, files (dir w) !! LOCK = Some l → file_safe identity (f_meta l) = true)
     ∧ (length (local_to_vec (mkLocal SCHEMA lease o)) ≤ MAX_RECORD)%nat
     ∧ ∃ rs, good euid identity (dir w) rs
       ∧ ((dir w' = dir w ∧ r = Ok Existing
           ∧ ∃ y, y ∈ rs ∧ effect_lease_id y.2 = lease ∧ sc_bytes y = local_to_vec (mkLocal SCHEMA lease o))
          ∨ (check_records lease o (local_to_vec (mkLocal SCHEMA lease o)) rs = Ok None ∧ (length rs < MAX_RECORDS)%nat
             ∧ ∃ w1, dir w1 = dir w
               ∧ append_record euid umask identity fault opens lease (local_to_vec (mkLocal SCHEMA lease o)) w1 = (r, w')))).
Proof.
  intros Hperm H. unfold record in H. destruct (negb _); [injection H as <- <-; left; eauto|].
  cbv zeta in H. case_bool_decide as Hb; [injection H as <- <-; left; eauto|].
  unfold st_bind at 1 in H. destruct (lock _ _ _ _ _ w) as [[[]|e] w1] eqn:H1;
    [|apply keeps_lock in H1; injection H as <- <-; left; eauto].
  apply lock_safe in H1 as (K1&l&Hl&Hsl).
  unfold st_bind at 1 in H. destruct (scan _ _ _ _ _ _ _ w1) as [[rs|e] w2] eqn:H2;
    [|apply keeps_scan in H2; injection H as <- <-; left; split; [congruence|eauto]].
  apply scan_good in H2 as (K2&Hg&_); [|done]. rewrite K1 in K2, Hg.
  unfold st_bind, st_lift in H. destruct (check_records _ _ _ rs) as [[res|]|e] eqn:Hc;
    [| |injection H as <- <-; left; eauto].
  - right. split_and!; [by eexists|by intros l' ?; simplify_eq|lia|]. exists rs. split; [done|]. left.
    injection H as <- <-. apply check_records_found in Hc as [-> Hy]. done.
  - case_bool_decide; [injection H as <- <-; left; eauto|].
    right. split_and!; [by eexists|by intros l' ?; simplify_eq|lia|]. exists rs. split; [done|]. right.
    split_and!; [done|lia|]. by exists w2.
Qed.

(** C31: what recording an outcome leaves, whichever calls fail. [Recorded] means
    that the lease, the receipt and the number were new, that the directory now
    holds exactly one more record, readable as what was given, and that it still
    does after a power loss, with all the records that had been synced before.
    [Existing] means that nothing was written and these very bytes are recorded
    for the lease. An error leaves the directory as it was, or with the pending
    file of this lease beside it, or with the record complete but not known to be
    durable; no other entry ever changes. *)
Theorem journal_append lease o expected w r w' :
  (∀ m, readdir m ≡ₚ (map_to_list m).*1) → Native.id_ok lease = true → Native.outcome_ok o = true →
  record euid umask identity fault changed opens readdir lease o expected w = (r, w') →
  match r with
  | Ok Recorded => ∃ rs, good euid identity (dir w) rs ∧ (lease ∉ leases rs)
      ∧ good euid identity (dir w') (new_record lease o :: rs)
      ∧ (settled (dir w) rs → ∀ d, power_loss (dir w') d → good euid identity d (new_record lease o :: rs))
  | Ok Existing => dir w' = dir w
      ∧ ∃ rs y, good euid identity (dir w) rs ∧ y ∈ rs ∧ effect_lease_id y.2 = lease
          ∧ sc_bytes y = local_to_vec (mkLocal SCHEMA lease o)
  | Err _ => dir w' = dir w ∨ pending_in lease (dir w) (dir w')
      ∨ ∃ rs, good euid identity (dir w) rs ∧ good euid identity (dir w') (new_record lease o :: rs)
  end.
Proof.
  intros Hperm Hid Ho H. apply record_cases in H as [[Hd [e ->]]|(_&_&Hb&rs&Hg&[(Hd&->&y&?&?&?)|(Hc&Hlt&w1&K1&Ha)])];
    [by left|split; [done|]; by exists rs, y| |done].
  apply check_records_new in Hc as (Hl&Hr&Hq). rewrite <- K1 in Hg.
  assert (∀ x d, recorded_in identity lease (local_to_vec (mkLocal SCHEMA lease o)) x (dir w1) d →
    good euid identity d (new_record lease o :: rs)) as Hnew by (intros x d Hx; by eapply good_new).
  apply journal_append_spec in Ha as [[-> (x&Hx&Hw')]|[[e ->] [Hd|[Hd|[x Hx]]]]].
  - exists rs. rewrite <- K1. pose proof (Hnew _ _ Hx) as Hgx. apply good_marked in Hgx. simpl in Hgx. rewrite <- Hw' in Hgx.
    split_and!; try done. intros Hset d Hloss. rewrite Hw' in Hloss. eapply recorded_survives; [exact Hx|by apply (Hnew x)|done..].
  - left. congruence.
  - right; left. by rewrite <- K1.
  - right; right. exists rs. rewrite <- K1. eauto.
Qed.

(** A partial append is never guessed complete: while a pending file is in the
    directory, neither recording nor inspecting succeeds, whatever the calls
    answer, and recording leaves the directory as it is. *)
Theorem pending_blocks n lease o expected w :
  (∀ m, readdir m ≡ₚ (map_to_list m).*1) → is_Some (files (dir w) !! n) → ends_with n ".pending" = true →
  (∃ e w', inspect euid umask identity fault changed opens readdir w = (Err e, w') ∧ dir w' = dir w)
  ∧ ∃ e w', record euid umask identity fault changed opens readdir lease o expected w = (Err e, w') ∧ dir w' = dir w.
Proof.
  intros Hperm Hin Hp. split.
  - destruct (inspect _ _ _ _ _ _ _ w) as [r w'] eqn:H. unfold inspect, st_bind in H.
    destruct (lock _ _ _ _ _ w) as [[[]|e] w1] eqn:H1; apply keeps_lock in H1; [|injection H as <- <-; eauto].
    destruct (scan _ _ _ _ _ _ _ w1) as [res w2] eqn:H2. pose proof (keeps_scan _ _ _ _ _ _ _ _ _ _ H2) as K2.
    apply pending_scan with (n := n) in H2 as [e ->]; [|done|by rewrite H1|done]. injection H as <- <-.
    exists e, w2. split; [done|congruence].
  - destruct (record _ _ _ _ _ _ _ _ _ _ w) as [r w'] eqn:H.
    apply record_cases in H as [[Hd [e ->]]|(_&_&_&rs&Hg&_)]; [by eauto| |done]. exfalso.
    destruct Hg as (_&Hf&Hn&_). destruct (Hn n Hin) as [Hsp|(x&->&Hx)%list_elem_of_fmap].
    + unfold special, LOCK in Hsp. rewrite !elem_of_cons in Hsp.
      destruct Hsp as [->|[->|[->|Hsp]]]; [by vm_compute in Hp..|by apply elem_of_nil in Hsp].
    + rewrite Forall_forall in Hf. destruct (Hf x Hx) as ((_&_&Hp')&_). congruence.
Qed.

(** What was recorded is read back. After [Recorded] and a power loss, an
    inspection in which no call fails returns the records from before with the new
    one, in the order of their numbers. *)
Theorem journal_readback fault' changed' lease o expected w w' d k :
  (∀ m, readdir m ≡ₚ (map_to_list m).*1) → Native.id_ok lease = true → Native.outcome_ok o = true →
  (∀ n, fault' n = None) → (∀ n, changed' n = false) →
  (∀ rs, good euid identity (dir w) rs → settled (dir w) rs) →
  record euid umask identity fault changed opens readdir lease o expected w = (Ok Recorded, w') →
  power_loss (dir w') d →
  ∃ rs out w2, good euid identity (dir w) rs
    ∧ inspect euid umask identity fault' changed' opens readdir (mkWorld d k) = (Ok (snd <$> out), w2)
    ∧ out ≡ₚ new_record lease o :: rs ∧ StronglySorted (λ x y, sequence x ≤ sequence y) out.
Proof.
  intros Hperm Hid Ho Hq Hs Hset H Hloss.
  apply record_cases in H as [[_ [? ?]]|(Hin&Hsafe&Hb&rs&Hg&[(_&?&_)|(Hc&Hlt&w1&K1&Ha)])]; [done|done| |done].
  apply check_records_new in Hc as (_&Hr&Hq'). rewrite <- K1 in Hg.
  apply journal_append_spec in Ha as [[_ (x&Hx&Hw')]|[[? ?] _]]; [|done].
  assert (good euid identity d (new_record lease o :: rs)) as Hd.
  { rewrite Hw' in Hloss. eapply recorded_survives; [exact Hx|by eapply good_new|rewrite K1 in Hg |- *; auto|done]. }
  assert (∃ y, files d !! LOCK = Some y ∧ file_safe identity (f_meta y) = true) as (y&Hy&Hsy).
  { destruct Hin as [l Hl]. destruct Hloss as (_&Hkeep&_).
    assert (LOCK ≠ lease +:+ ".json") as Hne
      by (intros E; destruct (json_record_name lease Hid) as (_&Hns&_); apply Hns; rewrite <- E; set_solver).
    destruct (Hkeep LOCK (mark_name l)) as (y&Hy&Hm&_); [|done|].
    - rewrite Hw'. simpl. rewrite lookup_fmap, lookup_insert_ne by done. by rewrite K1, Hl.
    - exists y. rewrite Hm. split; [done|]. exact (Hsafe l Hl). }
  pose proof Hd as (Hds&_).
  destruct (runs_open euid umask identity opens fault' Hq (mkWorld d k) LOCK y Hds Hy Hsy) as (w3&H3&K3).
  set (w4 := mkWorld (dir w3) (S (calls w3))).
  destruct (scan_complete euid umask identity opens readdir Hperm fault' changed' Hq Hs w4 (new_record lease o :: rs))
    as (out&(w5&H5&K5)&Hout); [simpl; by rewrite K3|].
  exists rs, out, w5. split_and!; [by rewrite <- K1| |done|by apply scan_good in H5 as (_&_&?)].
  unfold inspect, lock, st_bind, tick, st_ret. rewrite H3. cbn beta iota. rewrite Hq. cbn beta iota. fold w4. by rewrite H5.
Qed.
End claims.

(** *** A journal to evaluate on *)
Import ParentExample.

#[local] Instance demo_journal_json : JournalJson.
Proof.
  refine {|
    local_to_vec r := put (inl (schema_version r) :: inl (effect_lease_id r) :: outcome_tokens (outcome r));
    local_from_slice b :=
      match get b with
      | Some (inl s :: inl l :: rest) => o ← outcome_of rest; Some (mkLocal s l o)
      | _ => None
      end
  |}.
  intros r _ _. rewrite get_put, outcome_of_tokens. by destruct r.
Defined.

Definition demo_identity : DirectoryIdentity := mkIdentity 1 2 1000.
Definition demo_dir : t :=
  mk (Disk.mkMeta 1 2 1000 448 true false 2)
    {[LOCK := mkFile (Disk.mkMeta 1 3 1000 384 false true 1) [] true true None]}.
Definition demo_readdir (m : gmap string File) : list string := (map_to_list m).*1.
Abbreviation demo_fault := (λ _ : nat, None : option failure).
Abbreviation demo_changed := (λ _ : nat, false).
Abbreviation demo_opens := (λ _ : Disk.Meta, false).
Abbreviation demo_outcome := (note_stored (uuid "6") 7).
Definition demo_record (fault : nat → option failure) (d : t) : result RecordResult JournalError * world :=
  record 1000 0 demo_identity fault demo_changed demo_opens demo_readdir (uuid "a") demo_outcome (note_effect (uuid "6") 7)
    (mkWorld d 0).

Lemma demo_empty rs : good 1000 demo_identity demo_dir rs → rs = [].
Proof.
  intros (_&Hf&_). destruct rs as [|x rs]; [done|]. apply Forall_cons in Hf as [((_&Hns&_)&(f&Hx&_)&_) _]. exfalso. apply Hns.
  unfold demo_dir in Hx. simpl in Hx. apply lookup_singleton_Some in Hx as [<- _]. set_solver.
Qed.

Lemma demo_recorded : ∃ w', demo_record demo_fault demo_dir = (Ok Recorded, w').
Proof.
  destruct (demo_record demo_fault demo_dir) as [r w'] eqn:H. exists w'. f_equal.
  apply (f_equal fst) in H. cbn [fst] in H. rewrite <- H. vm_compute. reflexivity.
Qed.

Lemma journal_append_witness :
  ∃ w', demo_record demo_fault demo_dir = (Ok Recorded, w')
    ∧ ∃ rs, good 1000 demo_identity (dir w') (new_record (uuid "a") demo_outcome :: rs).
Proof.
  destruct demo_recorded as [w' H]. exists w'. split; [exact H|].
  destruct (journal_append 1000 0 demo_identity demo_fault demo_changed demo_opens demo_readdir (uuid "a") demo_outcome
    (note_effect (uuid "6") 7) (mkWorld demo_dir 0) (Ok Recorded) w') as (rs&_&_&Hg&_);
    [done|vm_compute; reflexivity|vm_compute; reflexivity|exact H|]. exists rs. exact Hg.
Defined.

(** Writing the bytes fails part of the way: the pending file stays. *)
Definition demo_broken : world := (demo_record (λ n, if bool_decide (n = 11)%nat then Some (mkFailure false 3) else None) demo_dir).2.

Lemma pending_blocks_witness :
  is_Some (files (dir demo_broken) !! (uuid "a" +:+ ".pending"))
  ∧ ∃ e w', demo_record demo_fault (dir demo_broken) = (Err e, w') ∧ dir w' = dir demo_broken.
Proof.
  assert (is_Some (files (dir demo_broken) !! (uuid "a" +:+ ".pending"))) as Hp by (vm_compute; eauto).
  split; [exact Hp|].
  destruct (pending_blocks 1000 0 demo_identity demo_fault demo_changed demo_opens demo_readdir (uuid "a" +:+ ".pending")
    (uuid "a") demo_outcome (note_effect (uuid "6") 7) (mkWorld (dir demo_broken) 0)) as [_ H];
    [done|exact Hp|apply pending_name|exact H].
Defined.

Lemma power_loss_synced d :
  map_Forall (λ _ f, content_synced f = true ∧ name_synced f = true ∧ was f = None) (files d) → power_loss d d.
Proof.
  intros Hall. split_and!; [done| |].
  - intros n x Hx _. destruct (Hall n x Hx) as (?&?&?). by exists x.
  - intros n y Hy. destruct (Hall n y Hy) as (?&?&?). left. by exists y.
Qed.

Lemma journal_readback_witness :
  ∃ w' out w2, demo_record demo_fault demo_dir = (Ok Recorded, w')
    ∧ inspect 1000 0 demo_identity demo_fault demo_changed demo_opens demo_readdir (mkWorld (dir w') 0) = (Ok (snd <$> out), w2)
    ∧ out ≡ₚ [new_record (uuid "a") demo_outcome].
Proof.
  destruct demo_recorded as [w' H]. exists w'.
  destruct (journal_readback 1000 0 demo_identity demo_fault demo_changed demo_opens demo_readdir demo_fault demo_changed (uuid "a")
    demo_outcome (note_effect (uuid "6") 7) (mkWorld demo_dir 0) w' (dir w') 0) as (rs&out&w2&Hg&Hi&Hout&_);
    [done|vm_compute; reflexivity|vm_compute; reflexivity|done|done| |exact H| |].
  - intros rs Hg%demo_empty. subst rs. intros x f Hx. destruct (not_elem_of_nil x Hx).
  - apply power_loss_synced. replace w' with (demo_record demo_fault demo_dir).2 by (rewrite H; reflexivity).
    apply (bool_decide_eq_true_1 _). vm_compute. reflexivity.
  - apply demo_empty in Hg as ->. exists out, w2. split_and!; [exact H|exact Hi|exact Hout].
Defined.
End JournalTheorems.
