(* ===== verification/Vfs.v ===== *)
(** * The file layer under the inventory ([disk-personal/src/parent_vfs.rs])

    Pages of a closed set of files below an admitted directory, read and written
    under its lock; a write or a sync that failed poisons the directory. Every call
    may fail, a write after any part of its bytes, and a read may come in pieces or
    be interrupted. *)

From stdpp Require Import prelude gmap strings.
From Stdlib Require Import ZArith Lia Strings.Byte Strings.Ascii.
From S2P Require Import Prelude Text Publisher Capture Parent Provider Journal JournalProps.

#[local] Open Scope Z_scope.

Module Vfs.
Import JournalDir.
Import Journal (JournalError, UnsafeDirectory, UnsafeEntry, Capacity, Pending, Io, DirectoryIdentity, device, uid,
  failure, mkFailure, would_block, written, dir_safe, file_safe, new_file, LOCK).

Definition MAX_FILE : Z := 16 * 1024 * 1024.

Inductive Entry := Inventory | RollbackJournal | Object (k : Native.ObjectKey).
Definition name (e : Entry) : string :=
  match e with
  | Inventory => "inventory.sqlite"
  | RollbackJournal => "inventory.sqlite-journal"
  | Object k => Native.k_part_id k +:+ "-" +:+ Native.k_object_id k +:+ "-" +:+ Native.k_object_revision k +:+ ".blob"
  end.

(** The directory, the flag of its handle, how many calls were made. *)
Record world := mkWorld { dir : JournalDir.t; poisoned : bool; calls : nat }.
Abbreviation vm := (stm world JournalError).
Record PageFile := mkPage { file : string; writable : bool }.

(** What one call of [read_at] answers: at most so many bytes, an interruption, a failure. *)
Inductive attempt := Got (n : nat) | Interrupted | Failed.

Section vfs.
Context (euid umask : Z) (identity : DirectoryIdentity) (fault : nat → option failure) (opens : Disk.Meta → bool).

Definition set_dir (d : JournalDir.t) (w : world) : world := mkWorld d (poisoned w) (calls w).
Definition set_file (n : string) (x : File) (w : world) : world :=
  set_dir (mk (d_meta (dir w)) (<[n := x]> (files (dir w)))) w.
Definition poison (w : world) : world := mkWorld (dir w) true (calls w).

Definition tick : vm (option failure) := λ w, (Ok (fault (calls w)), mkWorld (dir w) (poisoned w) (S (calls w))).
Definition call : vm unit := x <~ tick ;; match x with Some _ => st_err Io | None => st_ret tt end.
Definition look {A} (f : JournalDir.t → result A JournalError) : vm A := λ w, (f (dir w), w).

Definition directory_identity : vm unit :=
  _ <~ call ;; look (λ d, if dir_safe euid identity (d_meta d) then Ok tt else Err UnsafeDirectory).

(** [Directory::check] of the open file [n]. *)
Definition check (n : string) : vm File :=
  _ <~ call ;;
  look (λ d, x <?- ok_or (files d !! n) Io ;;
             if negb (file_safe identity (f_meta x)) then Err UnsafeEntry
             else if bool_decide (MAX_FILE < Z.of_nat (length (content x))) then Err Capacity else Ok x).

Definition openat (create : bool) (n : string) : vm unit :=
  _ <~ call ;;
  λ w, match create, files (dir w) !! n with
       | true, Some _ | false, None => (Err Io, w)
       | true, None => (Ok tt, set_file n (new_file euid umask (dir w)) w)
       | false, Some x => (if Disk.is_file (f_meta x) || opens (f_meta x) then Ok tt else Err Io, w)
       end.
Definition open (create : bool) (n : string) : vm unit :=
  _ <~ directory_identity ;; _ <~ openat create n ;; _ <~ check n ;; st_ret tt.

(** The action under the lock; that the lock is free is for the oracle. *)
Definition with_exclusive {A} (action : vm A) : vm A := λ w,
  if poisoned w then (Err Pending, w)
  else
    (_ <~ open false LOCK ;;
     x <~ tick ;;
     _ <~ match x with Some e => st_err (if would_block e then Pending else Io) | None => st_ret tt end ;;
     λ w, match action w with
          | (Ok a, w) => (if poisoned w then Err Pending else Ok a, w)
          | (Err e, w) => (Err e, w)
          end) w.

Definition ready : vm unit := λ w, if poisoned w then (Err Pending, w) else directory_identity w.

Definition open_read (e : Entry) : vm PageFile :=
  _ <~ ready ;; _ <~ open false (name e) ;; st_ret (mkPage (name e) false).
Definition open_inventory_write (rollback : bool) : vm PageFile :=
  _ <~ ready ;;
  let e := if rollback then RollbackJournal else Inventory in
  _ <~ open false (name e) ;; st_ret (mkPage (name e) true).

(** A call after whose failure the directory is poisoned. *)
Definition or_poison {A} (m : vm A) : vm A := λ w,
  match m w with (Ok a, w) => (Ok a, w) | (Err e, w) => (Err e, poison w) end.

Definition create_new (e : Entry) : vm PageFile :=
  _ <~ ready ;; _ <~ or_poison (open true (name e)) ;; st_ret (mkPage (name e) true).

Definition mark_name (x : File) : File := mkFile (f_meta x) (content x) (content_synced x) true None.
Definition sync_directory : vm unit :=
  _ <~ ready ;;
  or_poison (_ <~ call ;; λ w, (Ok tt, set_dir (mk (d_meta (dir w)) (mark_name <$> files (dir w))) w)).

(** [offset + len] may not pass the limit; [checked_add] finds what passes 2^64. *)
Definition range (offset len : Z) : result unit JournalError :=
  if bool_decide (u64_max < offset + len) || bool_decide (MAX_FILE < offset + len) then Err Capacity else Ok tt.

(** The loop of [read_at]: the bytes read so far are the answer's head. [None]: the
    answers ended before the loop did. *)
Fixpoint read_loop (b : bytes) (attempts : list attempt) (offset len count : nat) : option (result nat JournalError) :=
  if bool_decide (len ≤ count)%nat then Some (Ok count)
  else match attempts with
       | [] => None
       | Got n :: attempts =>
           let got := (Nat.min (Nat.max 1 n) (Nat.min (len - count) (length b - (offset + count))))%nat in
           if bool_decide (got = 0)%nat then Some (Ok count) else read_loop b attempts offset len (count + got)
       | Interrupted :: attempts => read_loop b attempts offset len count
       | Failed :: _ => Some (Err Io)
       end.

(** The buffer of [len] bytes after [count] of them were read, zeros after. *)
Definition buffer (b : bytes) (offset len count : nat) : bytes :=
  take count (drop offset b) ++ replicate (len - count) x00.

(** The guards of a call on an open file, and the file. *)
Definition guarded (n : string) (offset len : Z) : vm File :=
  x <~ check n ;; _ <~ st_lift (range offset len) ;; st_ret x.

Definition read_at (p : PageFile) (offset len : Z) (attempts : list attempt) : vm (option (bytes * nat)) :=
  _ <~ ready ;;
  x <~ guarded (file p) offset len ;;
  match read_loop (content x) attempts (Z.to_nat offset) (Z.to_nat len) 0 with
  | None => st_ret None
  | Some (Err e) => st_err e
  | Some (Ok count) => st_ret (Some (buffer (content x) (Z.to_nat offset) (Z.to_nat len) count, count))
  end.

(** Bytes at an offset; a gap before it is zeros. *)
Definition overwrite (b : bytes) (offset : nat) (data : bytes) : bytes :=
  take offset (b ++ replicate (offset - length b) x00) ++ data ++ drop (offset + length data) b.
Definition put (data : bytes) (offset : nat) (x : File) : File :=
  mkFile (f_meta x) (match data with [] => content x | _ => overwrite (content x) offset data end)
    (bool_decide (data = []) && content_synced x) (name_synced x) (was x).

Definition write_all_at (n : string) (offset : nat) (data : bytes) : vm unit :=
  x <~ tick ;;
  λ w, match files (dir w) !! n with
       | None => (Err Io, w)
       | Some y => match x with
                   | Some e => (Err Io, set_file n (put (take (written e) data) offset y) w)
                   | None => (Ok tt, set_file n (put data offset y) w)
                   end
       end.

Definition write_at (p : PageFile) (offset : Z) (data : bytes) : vm unit :=
  _ <~ ready ;;
  if negb (writable p) then st_err UnsafeEntry
  else
    _ <~ guarded (file p) offset (Z.of_nat (length data)) ;;
    or_poison (write_all_at (file p) (Z.to_nat offset) data).

Definition mark_content (x : File) : File := mkFile (f_meta x) (content x) true (name_synced x) (was x).
Definition sync (p : PageFile) : vm unit :=
  _ <~ ready ;;
  or_poison (_ <~ call ;;
             λ w, (Ok tt, set_dir (mk (d_meta (dir w)) (alter mark_content (file p) (files (dir w)))) w)).

(** [metadata] of the open file once more. *)
Definition check_meta (n : string) : vm File := _ <~ call ;; look (λ d, ok_or (files d !! n) Io).
Definition len (p : PageFile) : vm Z :=
  _ <~ ready ;; _ <~ check (file p) ;; x <~ check_meta (file p) ;; st_ret (Z.of_nat (length (content x))).
Definition is_empty (p : PageFile) : vm bool := n <~ len p ;; st_ret (bool_decide (n = 0)).
End vfs.
End Vfs.

(** ** Pages *)
Module VfsTheorems.
Import JournalDir Vfs.

Lemma overwrite_read b o d : take (length d) (drop o (overwrite b o d)) = d.
Proof.
  unfold overwrite. rewrite drop_app_ge by (rewrite length_take; lia).
  assert (length (take o (b ++ replicate (o - length b) x00)) = o) as ->
    by (rewrite length_take, length_app, length_replicate; lia).
  rewrite Nat.sub_diag. by rewrite drop_0, take_app_length.
Qed.

Lemma overwrite_length b o d : length (overwrite b o d) = Nat.max (length b) (o + length d).
Proof.
  unfold overwrite. rewrite !length_app, length_take, length_app, length_replicate, length_drop. lia.
Qed.

Lemma overwrite_other b o d i : (i < length b)%nat → (i < o ∨ o + length d ≤ i)%nat → overwrite b o d !! i = b !! i.
Proof.
  intros Hi Ho. unfold overwrite.
  assert (length (take o (b ++ replicate (o - length b) x00)) = o) as Hl
    by (rewrite length_take, length_app, length_replicate; lia).
  destruct Ho as [Ho|Ho].
  - rewrite lookup_app_l by lia. rewrite lookup_take_lt by done. by rewrite lookup_app_l.
  - rewrite lookup_app_r by lia. rewrite Hl, lookup_app_r by lia. rewrite lookup_drop. f_equal. lia.
Qed.

Lemma vfs_read_loop b attempts o len count n :
  read_loop b attempts o len count = Some (Ok n) → (count ≤ len)%nat →
  (count ≤ n ≤ len)%nat ∧ (n < len → length b ≤ o + n)%nat.
Proof.
  revert count. induction attempts as [|a attempts IH]; intros count; cbn [read_loop].
  - case_bool_decide; [|done]. intros [= <-]. lia.
  - case_bool_decide; [intros [= <-]; lia|]. destruct a as [k| |]; [|auto|done]. case_bool_decide as Hg.
    + intros [= <-] _. lia.
    + intros H' Hc. apply IH in H'; lia.
Qed.

Definition answers (a : attempt) : bool := match a with Got _ => true | _ => false end.
Definition no_failure (a : attempt) : bool := match a with Failed => false | _ => true end.

Lemma read_loop_total b attempts o len count :
  forallb no_failure attempts = true → (len - count < length (List.filter answers attempts))%nat →
  ∃ n, read_loop b attempts o len count = Some (Ok n).
Proof.
  revert count. induction attempts as [|a attempts IH]; intros count Hf Hlen; [simpl in Hlen; lia|].
  cbn [read_loop]. case_bool_decide; [by eexists|]. simpl in Hf, Hlen.
  destruct a as [k| |]; simpl in *; [|by apply IH|done]. case_bool_decide; [by eexists|]. apply IH; [done|]. lia.
Qed.

Lemma read_full b attempts o d n :
  take (length d) (drop o b) = d → read_loop b attempts o (length d) 0 = Some (Ok n) →
  n = length d ∧ buffer b o (length d) n = d.
Proof.
  intros Hd H. apply vfs_read_loop in H as [Hn Hs]; [|lia].
  assert (length d ≤ length b - o)%nat as Hl.
  { apply (f_equal length) in Hd. rewrite length_take, length_drop in Hd. lia. }
  assert (n = length d) as -> by lia. split; [done|]. unfold buffer. rewrite Nat.sub_diag, Hd. apply app_nil_r.
Qed.

Section claims.
Context (euid umask : Z) (identity : Journal.DirectoryIdentity) (fault : nat → option Journal.failure) (opens : Disk.Meta → bool).
Abbreviation write_ := (write_at euid identity fault).
Abbreviation read_ := (read_at euid identity fault).

Definition still {A} (m : vm A) : Prop := ∀ w r w', m w = (r, w') → dir w' = dir w ∧ poisoned w' = poisoned w.
Lemma still_ret {A} (a : A) : still (st_ret a).
Proof. by intros w r w' [= _ <-]. Qed.
Lemma still_err {A} e : still (A:=A) (st_err e).
Proof. by intros w r w' [= _ <-]. Qed.
Lemma still_lift {A} (x : result A Journal.JournalError) : still (st_lift x).
Proof. by intros w r w' [= _ <-]. Qed.
Lemma still_look {A} (f : JournalDir.t → result A Journal.JournalError) : still (look f).
Proof. by intros w r w' [= _ <-]. Qed.
Lemma still_bind {A B} (m : vm A) (k : A → vm B) : still m → (∀ a, still (k a)) → still (st_bind m k).
Proof.
  intros Hm Hk w r w' H. unfold st_bind in H. destruct (m w) as [[a|e] w1] eqn:E; apply Hm in E as [E1 E2].
  - apply Hk in H as [-> ->]. done.
  - by simplify_eq.
Qed.
Lemma still_call : still (call fault).
Proof. apply still_bind; [by intros w r w' [= _ <-]|]. intros []; [apply still_err|apply still_ret]. Qed.
Lemma still_identity : still (directory_identity euid identity fault).
Proof. apply still_bind; [apply still_call|]. intros _. apply still_look. Qed.
Lemma still_check n : still (check identity fault n).
Proof. apply still_bind; [apply still_call|]. intros _. apply still_look. Qed.
Lemma still_ready : still (ready euid identity fault).
Proof. intros w r w' H. unfold ready in H. destruct (poisoned w) eqn:E; [by simplify_eq|]. apply still_identity in H. by rewrite E in H. Qed.
Lemma still_guarded n o l : still (guarded identity fault n o l).
Proof.
  apply still_bind; [apply still_check|]. intros x. apply still_bind; [apply still_lift|]. intros _. apply still_ret.
Qed.
Lemma still_open n : still (open euid umask identity fault opens false n).
Proof.
  apply still_bind; [apply still_identity|]. intros _. apply still_bind.
  - apply still_bind; [apply still_call|]. intros _ w r w' H. cbn beta in H. destruct (files (dir w) !! n); by simplify_eq.
  - intros _. apply still_bind; [apply still_check|]. intros; apply still_ret.
Qed.

Lemma ready_ok w u w' :
  ready euid identity fault w = (Ok u, w') → poisoned w = false ∧ Journal.dir_safe euid identity (d_meta (dir w)) = true.
Proof.
  unfold ready. destruct (poisoned w); [done|]. unfold directory_identity. intros ([]&w1&[K _]%still_call&H)%st_bind_ok.
  unfold look in H. rewrite K in H. by destruct (Journal.dir_safe _ _ _).
Qed.

Lemma ready_quiet w :
  (∀ k, fault k = None) → poisoned w = false → Journal.dir_safe euid identity (d_meta (dir w)) = true →
  ready euid identity fault w = (Ok tt, mkWorld (dir w) (poisoned w) (S (calls w))).
Proof.
  intros Hq Hp Hs. unfold ready. rewrite Hp. unfold directory_identity, call, st_bind, tick. rewrite Hq. simpl.
  unfold look. simpl. by rewrite Hs, Hp.
Qed.

Lemma guarded_quiet n o l w x :
  (∀ k, fault k = None) → files (dir w) !! n = Some x → Journal.file_safe identity (f_meta x) = true →
  Z.of_nat (length (content x)) ≤ MAX_FILE → o + l ≤ MAX_FILE →
  guarded identity fault n o l w = (Ok x, mkWorld (dir w) (poisoned w) (S (calls w))).
Proof.
  intros Hq Hx Hs Hl Hr. unfold guarded, check, call, st_bind, tick. rewrite Hq. simpl. unfold look. simpl. rewrite Hx. simpl.
  rewrite Hs. simpl. rewrite bool_decide_eq_false_2 by lia. unfold st_lift, range.
  rewrite !bool_decide_eq_false_2; [done|lia|]. unfold MAX_FILE, u64_max in *. lia.
Qed.

Lemma guarded_ok n o l w x w' :
  guarded identity fault n o l w = (Ok x, w') → files (dir w) !! n = Some x ∧ o + l ≤ MAX_FILE
    ∧ Z.of_nat (length (content x)) ≤ MAX_FILE ∧ Journal.file_safe identity (f_meta x) = true ∧ dir w' = dir w ∧ poisoned w' = poisoned w.
Proof.
  intros H. pose proof (still_guarded _ _ _ _ _ _ H) as [K1 K2]. unfold guarded, check in H.
  apply st_bind_ok in H as (y&w1&Hy&H). apply st_bind_ok in Hy as ([]&w2&Hc&Hy). apply still_call in Hc as [Hc _].
  unfold look in Hy. rewrite Hc in Hy. destruct (files (dir w) !! n) as [z|]; [|done]. simpl in Hy.
  destruct (Journal.file_safe _ _) eqn:Hsf; [|done]. simpl in Hy. case_bool_decide as Hm; [done|]. injection Hy as -> ->.
  apply st_bind_ok in H as ([]&w3&[Hr _]%st_lift_ok&[= -> _]). unfold range in Hr.
  destruct (_ || _) eqn:E; [done|]. rewrite orb_false_iff, !bool_decide_eq_false in E. split_and!; try done; lia.
Qed.

(** What stops a write, and what a successful one leaves. *)
Lemma write_spec p o d w r w' :
  write_ p o d w = (r, w') →
  ((∃ e, r = Err e) ∧ (dir w' = dir w ∨ poisoned w' = true))
  ∨ (r = Ok tt ∧ poisoned w = false ∧ poisoned w' = false ∧ writable p = true ∧ o + Z.of_nat (length d) ≤ MAX_FILE
     ∧ Journal.dir_safe euid identity (d_meta (dir w)) = true
     ∧ ∃ x, files (dir w) !! file p = Some x ∧ Z.of_nat (length (content x)) ≤ MAX_FILE
       ∧ Journal.file_safe identity (f_meta x) = true
       ∧ dir w' = mk (d_meta (dir w)) (<[file p := put d (Z.to_nat o) x]> (files (dir w)))).
Proof.
  unfold write_at. intros H. unfold st_bind at 1 in H.
  destruct (ready _ _ _ w) as [[[]|e] w1] eqn:H1; pose proof (still_ready _ _ _ H1) as [K1 P1];
    [|injection H as <- <-; left; eauto]. apply ready_ok in H1 as [Hp Hds].
  destruct (writable p); [|injection H as <- <-; left; eauto]. simpl in H. unfold st_bind at 1 in H.
  destruct (guarded _ _ _ _ _ w1) as [[x|e] w2] eqn:H2;
    [|pose proof (still_guarded _ _ _ _ _ _ H2) as [K2 _]; injection H as <- <-; left; split; [eauto|left; congruence]].
  apply guarded_ok in H2 as (Hx&Hr&Hl&Hsf&K2&P2). unfold or_poison, write_all_at, st_bind, tick in H. cbn beta iota in H. simpl in H.
  rewrite K2, Hx in H. destruct (fault (calls w2)); injection H as <- <-; [left; split; [eauto|by right]|].
  right. split_and!; [done|done|simpl; congruence|done|done|done|]. exists x. rewrite <- K1. split_and!; [done..|]. simpl. by rewrite ?K2.
Qed.

(** The file layer stops at the first failure. An operation on a poisoned
    directory, with a new guard or on an open file, is refused and does nothing; a
    write, a creation or a sync that reports an error has changed nothing or has
    poisoned the directory. *)
Theorem vfs_fail_stop e p o d l attempts (w : world) :
  (poisoned w = true →
     (∀ A (action : vm A), with_exclusive euid umask identity fault opens action w = (Err Journal.Pending, w))
     ∧ open_read euid umask identity fault opens e w = (Err Journal.Pending, w)
     ∧ create_new euid umask identity fault opens e w = (Err Journal.Pending, w)
     ∧ sync_directory euid identity fault w = (Err Journal.Pending, w)
     ∧ read_ p o l attempts w = (Err Journal.Pending, w) ∧ write_ p o d w = (Err Journal.Pending, w)
     ∧ sync euid identity fault p w = (Err Journal.Pending, w) ∧ len euid identity fault p w = (Err Journal.Pending, w))
  ∧ (∀ err w', write_ p o d w = (Err err, w') ∨ sync euid identity fault p w = (Err err, w')
        ∨ sync_directory euid identity fault w = (Err err, w') →
       dir w' = dir w ∨ poisoned w' = true)
  ∧ (∀ err w', create_new euid umask identity fault opens e w = (Err err, w') → dir w' = dir w ∨ poisoned w' = true).
Proof.
  split_and!.
  - intros Hp. assert (ready euid identity fault w = (Err Journal.Pending, w)) as Hr by (unfold ready; by rewrite Hp).
    split_and!; [intros A action; unfold with_exclusive; by rewrite Hp|..];
      unfold open_read, create_new, sync_directory, read_at, write_at, sync, len, st_bind; by rewrite Hr.
  - assert (∀ (m : vm unit) err w', (_ <~ ready euid identity fault ;; or_poison m) w = (Err err, w') →
      dir w' = dir w ∨ poisoned w' = true) as Hop.
    { intros m err w' H. unfold st_bind in H. destruct (ready _ _ _ w) as [[[]|e1] w1] eqn:H1;
        pose proof (still_ready _ _ _ H1) as [K1 P1]; [|injection H as <- <-; by left].
      unfold or_poison in H. destruct (m w1) as [[[]|e2] w2]; [done|]. injection H as <- <-. by right. }
    intros err w' [H|[H|H]]; [|by eapply Hop|by eapply Hop].
    apply write_spec in H as [[_ ?]|[? _]]; done.
  - intros err w' H. unfold create_new, st_bind in H. destruct (ready _ _ _ w) as [[[]|e1] w1] eqn:H1;
      pose proof (still_ready _ _ _ H1) as [K1 P1]; [|injection H as <- <-; by left].
    destruct (or_poison _ w1) as [[[]|e2] w2] eqn:H2; [done|]. injection H as <- <-.
    unfold or_poison in H2. destruct (open _ _ _ _ _ _ _ w1) as [[[]|e3] w3]; [done|]. injection H2 as <- <-. by right.
Qed.

(** A page that was written is read back, and the file stays within its limit.
    After a successful write the file was one open for writing, no byte outside the
    range and no other file changed, and its length is at most 16 MiB; every read of
    the range that succeeds, however its bytes arrive, gives the page in full, and a
    read in which no call fails does succeed. *)
Theorem page_roundtrip p o d w w' :
  0 ≤ o → write_ p o d w = (Ok tt, w') →
  writable p = true
  ∧ (∃ x y, files (dir w) !! file p = Some x ∧ files (dir w') !! file p = Some y
      ∧ Z.of_nat (length (content y)) ≤ MAX_FILE
      ∧ ∀ i, (i < length (content x))%nat → (Z.of_nat i < o ∨ o + Z.of_nat (length d) ≤ Z.of_nat i) → content y !! i = content x !! i)
  ∧ (∀ n, n ≠ file p → files (dir w') !! n = files (dir w) !! n)
  ∧ (∀ q attempts b n w2, file q = file p → read_ q o (Z.of_nat (length d)) attempts w' = (Ok (Some (b, n)), w2) →
       b = d ∧ n = length d)
  ∧ ∀ q attempts, file q = file p → (∀ k, fault k = None) → forallb no_failure attempts = true →
      (length d < length (List.filter answers attempts))%nat →
      ∃ w2, read_ q o (Z.of_nat (length d)) attempts w' = (Ok (Some (d, length d)), w2).
Proof.
  intros Ho H. apply write_spec in H as [[[? ?] _]|(_&Hp&Hp'&Hw&Hr&Hds&x&Hx&Hl&Hsf&Hd)]; [done|]. set (y := put d (Z.to_nat o) x).
  assert (files (dir w') !! file p = Some y) as Hy by (rewrite Hd; simpl; by rewrite lookup_insert_eq).
  assert (take (length d) (drop (Z.to_nat o) (content y)) = d) as Hpage.
  { unfold y, put. simpl. destruct d as [|c d]; [done|]. apply overwrite_read. }
  assert (Z.of_nat (length (content y)) ≤ MAX_FILE) as Hly.
  { unfold y, put. simpl. destruct d as [|c d]; [done|]. rewrite overwrite_length. simpl in *. lia. }
  split_and!; [done| | | |].
  - exists x, y. split_and!; [done..|]. intros i Hi Hout. unfold y, put. simpl. destruct d as [|c d]; [done|]. apply overwrite_other; [done|]. lia.
  - intros n Hn. rewrite Hd. simpl. by rewrite lookup_insert_ne.
  - intros q attempts b n w2 Hq Hrd. unfold read_at in Hrd. apply st_bind_ok in Hrd as ([]&w3&[K3 _]%still_ready&Hrd).
    apply st_bind_ok in Hrd as (z&w4&(Hz&_)%guarded_ok&Hrd). rewrite K3, Hq, Hy in Hz. injection Hz as <-.
    rewrite Nat2Z.id in Hrd. destruct (read_loop _ _ _ _ _) as [[k|e]|] eqn:Hlp; [|done|done].
    injection Hrd as <- <- _. apply read_full in Hlp as [Hk Hb]; [|done]. subst k. split; [exact Hb|done].
  - intros q attempts Hq Hquiet Hf Hans.
    destruct (read_loop_total (content y) attempts (Z.to_nat o) (length d) 0 Hf) as [n Hlp]; [lia|].
    pose proof (read_full _ _ _ _ _ Hpage Hlp) as [-> Hb]. eexists. unfold read_at, st_bind.
    rewrite ready_quiet by (done || by rewrite Hd). rewrite (guarded_quiet _ _ _ _ y) by (done || by rewrite Hq).
    by rewrite Nat2Z.id, Hlp, Hb.
Qed.
End claims.
End VfsTheorems.
