(* ===== verification/AuditLog.v ===== *)
(** * Audit events ([disk-server/src/audit/mod.rs], [ops_bot.rs])

    The append-only table of audit events, and the forwarder that posts them to
    an operations service: a bounded channel, a task that takes one event at a
    time, posts it at most three times with a growing pause, and counts what it
    gives up. Producers and the task run concurrently; a step is one [try_send],
    one [recv] or one answer. JSON values, their text and the service's answers
    are parameters. *)

From stdpp Require Import prelude strings sorting.
From Stdlib Require Import ZArith Lia Strings.Byte Sorting.Permutation.
From S2P Require Import Prelude Text Types.

#[local] Open Scope Z_scope.

(** ** [audit/mod.rs] *)
Module Audit.
Inductive AuditKind :=
  | AclRoleMismatch | AclVersionRegress | AclLoadFailure | AclLoadOk | AclReloadDedup | AclFileMissing
  | PublisherSignatureFailure | PublisherReplayDetected | PublisherTimestampSkew | PublisherUploadOk
  | EnrollmentTokenIssued | EnrollmentCompleted | EnrollmentTokenExpired | EnrollmentPending
  | EnrollmentCaMismatch | EnrollmentRevoked | ShareUnknown | ConfigReload.

Definition as_str (k : AuditKind) : string :=
  match k with
  | AclRoleMismatch => "acl.role_mismatch"
  | AclVersionRegress => "acl.version_regress"
  | AclLoadFailure => "acl.load_failure"
  | AclLoadOk => "acl.load_ok"
  | AclReloadDedup => "acl.reload_dedup"
  | AclFileMissing => "acl.file_missing"
  | PublisherSignatureFailure => "publisher.signature_failure"
  | PublisherReplayDetected => "publisher.replay_detected"
  | PublisherTimestampSkew => "publisher.timestamp_skew"
  | PublisherUploadOk => "publisher.upload_ok"
  | EnrollmentTokenIssued => "enrollment.token_issued"
  | EnrollmentCompleted => "enrollment.completed"
  | EnrollmentTokenExpired => "enrollment.token_expired"
  | EnrollmentPending => "enrollment.pending"
  | EnrollmentCaMismatch => "enrollment.ca_mismatch"
  | EnrollmentRevoked => "enrollment.revoked"
  | ShareUnknown => "share.unknown"
  | ConfigReload => "config.reload"
  end.

#[global] Instance AuditKind_eq_dec : EqDecision AuditKind.
Proof. solve_decision. Defined.

#[global] Instance as_str_inj : Inj (=) (=) as_str.
Proof. intros [] []; done. Qed.

Inductive AuditError := Sqlx | Clock.

(** [to_text] is [serde_json::to_string], [empty] the empty object. *)
Class AuditJson := { json : Type; empty_object : json; to_text : json → option string }.

Section audit.
Context {J : AuditJson}.

Record AuditEvent := mkEvent { kind : AuditKind; cert_fp : option bytes; share : option string; payload : json }.

Definition new (k : AuditKind) : AuditEvent := mkEvent k None None empty_object.
Definition with_cert (fp : bytes) (e : AuditEvent) : AuditEvent := mkEvent (kind e) (Some fp) (share e) (payload e).
Definition with_share (s : string) (e : AuditEvent) : AuditEvent := mkEvent (kind e) (cert_fp e) (Some s) (payload e).
(** [p] is what [to_value] makes of the argument. *)
Definition with_payload (p : option json) (e : AuditEvent) : AuditEvent :=
  mkEvent (kind e) (cert_fp e) (share e) (default empty_object p).

Record AuditRow := mkRow {
  row_id : Z; row_ts_ms : Z; row_kind : string; row_cert_fp : option bytes; row_share : option string;
  row_payload_json : string
}.

(** The table and the last id [AUTOINCREMENT] gave. *)
Record AuditTable := mkTable { rows : list AuditRow; seq : Z }.

Definition payload_json (e : AuditEvent) : string := default "{}" (to_text (payload e)).

Definition insert_event (ts_ms : Z) (e : AuditEvent) (t : AuditTable) : AuditTable :=
  mkTable (rows t ++ [mkRow (seq t + 1) (as_i64 ts_ms) (as_str (kind e)) (cert_fp e) (share e) (payload_json e)])
    (seq t + 1).

(** [now] is [None] for a clock before the epoch; a statement that fails
    changes nothing. *)
Definition emit (now : option Z) (fails : bool) (e : AuditEvent) : stm AuditTable AuditError Z := λ t,
  match now with
  | None => (Err Clock, t)
  | Some ts_ms => if fails then (Err Sqlx, t) else let t' := insert_event ts_ms e t in (Ok (seq t'), t')
  end.

Definition of_kind (k : AuditKind) (r : AuditRow) : bool := bool_decide (row_kind r = as_str k).

Definition count_by_kind (k : AuditKind) (t : AuditTable) : Z := Z.of_nat (length (List.filter (of_kind k) (rows t))).

(** [ORDER BY id DESC LIMIT 1]: ids are in the order of the rows. *)
Definition id_geb (a b : AuditRow) : bool := Z.leb (row_id b) (row_id a).
Definition latest (k : AuditKind) (t : AuditTable) : option (Z * string) :=
  (λ r, (row_ts_ms r, row_payload_json r)) <$> head (sort_by id_geb (List.filter (of_kind k) (rows t))).

(** ** [ops_bot.rs] *)
Definition CHANNEL_CAP : nat := 1024.
Definition MAX_RETRIES : Z := 3.
Definition BASE_BACKOFF_MS : Z := 200.

Record OpsEvent := mkOps { ops_kind : string; ops_ts_ms : Z; ops_payload : json }.

(** The channel, the counter, and the task: the event it has in hand with the
    number of the attempt it makes and the pause after it. [slept] are the
    pauses it took, [posted] its requests, [delivered] the events it counts as
    delivered; [offered], [refused] and [given_up] are the events passed to
    [enqueue] of a forwarder with a channel, those that found it full and those
    dropped after the last attempt. *)
Record Forwarder := mkForwarder {
  enabled : bool;
  queue : list OpsEvent;
  dropped_count : Z;
  task : option (OpsEvent * Z * Z);
  slept : list Z;
  posted : list OpsEvent;
  delivered : list OpsEvent;
  offered : list OpsEvent;
  refused : list OpsEvent;
  given_up : list OpsEvent
}.

(** [spawn] with the value of [OPS_BOT_KEY]. *)
Definition spawn (key : option string) : Forwarder :=
  let on := match key with Some k => negb (bool_decide (k = "")) | None => false end in
  mkForwarder on [] 0 None [] [] [] [] [] [].

Definition ops_event (e : AuditEvent) (ts_ms : Z) : OpsEvent := mkOps (as_str (kind e)) ts_ms (payload e).

Definition enqueue (e : AuditEvent) (ts_ms : Z) (f : Forwarder) : Forwarder :=
  if negb (enabled f) then f
  else
    let x := ops_event e ts_ms in
    if bool_decide (length (queue f) < CHANNEL_CAP)%nat
    then mkForwarder true (queue f ++ [x]) (dropped_count f) (task f) (slept f) (posted f) (delivered f)
           (offered f ++ [x]) (refused f) (given_up f)
    else mkForwarder true (queue f) (as_u64 (dropped_count f + 1)) (task f) (slept f) (posted f) (delivered f)
           (offered f ++ [x]) (refused f ++ [x]) (given_up f).

(** [rx.recv().await] of an idle task. *)
Definition recv (f : Forwarder) : option Forwarder :=
  match task f, queue f with
  | None, x :: q =>
      Some (mkForwarder (enabled f) q (dropped_count f) (Some (x, 1, BASE_BACKOFF_MS)) (slept f) (posted f)
              (delivered f) (offered f) (refused f) (given_up f))
  | _, _ => None
  end.

(** [post_event] and the rest of the attempt: an answer below 400 delivers; no
    answer or another one pauses and tries again, or gives up. *)
Definition answered (status : option Z) (f : Forwarder) : option Forwarder :=
  match task f with
  | None => None
  | Some (x, attempt, backoff_ms) =>
      Some (if match status with Some s => bool_decide (s < 400) | None => false end then
              mkForwarder (enabled f) (queue f) (dropped_count f) None (slept f) (posted f ++ [x])
                (delivered f ++ [x]) (offered f) (refused f) (given_up f)
            else if bool_decide (attempt < MAX_RETRIES) then
              mkForwarder (enabled f) (queue f) (dropped_count f) (Some (x, attempt + 1, backoff_ms * 2))
                (slept f ++ [backoff_ms]) (posted f ++ [x]) (delivered f) (offered f) (refused f) (given_up f)
            else
              mkForwarder (enabled f) (queue f) (as_u64 (dropped_count f + 1)) None (slept f) (posted f ++ [x])
                (delivered f) (offered f) (refused f) (given_up f ++ [x]))
  end.

Inductive step (f : Forwarder) : Forwarder → Prop :=
  | step_enqueue e ts : step f (enqueue e ts f)
  | step_recv f' : recv f = Some f' → step f f'
  | step_answer status f' : answered status f = Some f' → step f f'.

Definition emit_with_forwarder (now : option Z) (fails : bool) (e : AuditEvent)
    : stm (AuditTable * Forwarder) AuditError Z := λ s,
  match now with
  | None => (Err Clock, s)
  | Some ts_ms =>
      let f := enqueue e ts_ms s.2 in
      let '(r, t) := emit now fails e s.1 in (r, (t, f))
  end.
End audit.
End Audit.

Module AuditTheorems.
Import Audit.

Section audit.
Context {J : AuditJson}.

(** ** The table *)
Definition table_ok (t : AuditTable) : Prop :=
  StronglySorted Z.lt (row_id <$> rows t) ∧ Forall (λ r, row_id r ≤ seq t) (rows t).

Definition inserted (t : AuditTable) (ts_ms : Z) (e : AuditEvent) : AuditRow :=
  mkRow (seq t + 1) (as_i64 ts_ms) (as_str (kind e)) (cert_fp e) (share e) (payload_json e).

Lemma sorted_snoc (l : list Z) x : StronglySorted Z.lt l → Forall (λ y, y < x) l → StronglySorted Z.lt (l ++ [x]).
Proof.
  induction 1 as [|y l Hl IH Hy]; simpl; intros Hx; [repeat constructor|].
  apply Forall_cons in Hx as [? ?]. constructor; [auto|]. apply Forall_app. auto.
Qed.

Lemma insert_ok ts e t : table_ok t → table_ok (insert_event ts e t).
Proof.
  intros [Hs Hle]. split; cbn.
  - rewrite fmap_app. apply sorted_snoc; [done|]. apply Forall_fmap. eapply Forall_impl; [exact Hle|]. cbn. lia.
  - apply Forall_app. split; [eapply Forall_impl; [exact Hle|]; cbn; lia|]. repeat constructor. cbn. lia.
Qed.

(** The row with the largest id comes first. *)
Lemma head_largest l r :
  Forall (λ x, row_id x < row_id r) l → head (sort_by id_geb (l ++ [r])) = Some r.
Proof.
  induction l as [|x l IH]; [done|]. intros [Hx Hl]%Forall_cons. cbn [app].
  specialize (IH Hl). unfold sort_by in *. cbn [foldr]. destruct (foldr _ [] (l ++ [r])) as [|y k] eqn:Hk; [done|].
  injection IH as ->. cbn. unfold id_geb. rewrite (proj2 (Z.leb_gt _ _)) by lia. done.
Qed.

Lemma filter_inserted k t ts e :
  List.filter (of_kind k) (rows (insert_event ts e t))
  = List.filter (of_kind k) (rows t) ++ (if decide (k = kind e) then [inserted t ts e] else []).
Proof.
  cbn. rewrite List.filter_app. f_equal. cbn. unfold of_kind. cbn. destruct (decide (k = kind e)) as [->|Hk].
  - by rewrite bool_decide_true.
  - rewrite bool_decide_false; [done|]. by intros ?%as_str_inj.
Qed.

(** An audit event is appended and found. Over a table whose ids increase, a
    call that fails changes nothing; one that succeeds adds exactly one row at the
    end, with an id above all others, which the call returns; that row is then the
    latest of its kind, the count of its kind has grown by one, and the other kinds
    are as they were. *)
Theorem audit_appends now fails e t r t' :
  table_ok t → emit now fails e t = (r, t') →
  match r with
  | Err _ => t' = t ∧ (now = None ∨ fails = true)
  | Ok id =>
      ∃ ts, now = Some ts ∧ rows t' = rows t ++ [inserted t ts e] ∧ id = row_id (inserted t ts e)
        ∧ Forall (λ x, row_id x < id) (rows t) ∧ table_ok t'
        ∧ latest (kind e) t' = Some (as_i64 ts, payload_json e)
        ∧ count_by_kind (kind e) t' = count_by_kind (kind e) t + 1
        ∧ ∀ k, k ≠ kind e → latest k t' = latest k t ∧ count_by_kind k t' = count_by_kind k t
  end.
Proof.
  intros Hok. unfold emit. destruct now as [ts|]; [|intros [= <- <-]; auto].
  destruct fails; [intros [= <- <-]; auto|]. intros [= <- <-]. exists ts.
  pose proof (insert_ok ts e t Hok) as Hok'. destruct Hok as [_ Hle].
  assert (Forall (λ x, row_id x < seq t + 1) (rows t)) as Hlt by (eapply Forall_impl; [exact Hle|]; cbn; lia).
  split_and!; try done.
  - unfold latest. rewrite filter_inserted, decide_True by done. rewrite head_largest; [done|].
    rewrite Forall_forall in Hlt |- *. intros x Hx.
    apply list_elem_of_In, filter_In in Hx as [Hx _]. apply Hlt, list_elem_of_In, Hx.
  - unfold count_by_kind. rewrite filter_inserted, decide_True, length_app by done. cbn. lia.
  - intros k Hk. unfold latest, count_by_kind. by rewrite filter_inserted, decide_False, app_nil_r by done.
Qed.

(** ** The forwarder *)
Definition in_hand (f : Forwarder) : list OpsEvent := match task f with Some (x, _, _) => [x] | None => [] end.
Definition attempts_made (f : Forwarder) : Z := match task f with Some (_, a, _) => a - 1 | None => 0 end.

Record inv (f : Forwarder) : Prop := mkInv {
  inv_all : offered f ≡ₚ delivered f ++ given_up f ++ in_hand f ++ queue f ++ refused f;
  inv_order : delivered f ++ in_hand f ++ queue f `sublist_of` offered f;
  inv_dropped : dropped_count f = as_u64 (Z.of_nat (length (refused f) + length (given_up f)));
  inv_cap : (length (queue f) ≤ CHANNEL_CAP)%nat;
  inv_task : ∀ x a b, task f = Some (x, a, b) → 1 ≤ a ≤ MAX_RETRIES ∧ b = BASE_BACKOFF_MS * 2 ^ (a - 1);
  inv_posted : Z.of_nat (length (delivered f)) + MAX_RETRIES * Z.of_nat (length (given_up f)) + attempts_made f
               ≤ Z.of_nat (length (posted f))
               ≤ MAX_RETRIES * Z.of_nat (length (delivered f) + length (given_up f)) + attempts_made f;
  inv_slept : Forall (λ b, b = 200 ∨ b = 400) (slept f)
}.

Lemma inv_spawn key : inv (spawn key).
Proof. split; cbn; try done; try lia; try by constructor. Qed.

Lemma as_u64_succ a : as_u64 (as_u64 a + 1) = as_u64 (a + 1).
Proof. unfold as_u64. by rewrite Z.add_mod_idemp_l. Qed.

Lemma inv_enqueue e ts f : inv f → inv (enqueue e ts f).
Proof.
  intros [H1 H2 H3 H4 H5 H6 H7]. unfold enqueue. destruct (negb _); [by split|]. case_bool_decide as Hc.
  - split; cbn; try done; unfold in_hand, attempts_made in *; cbn in *.
    + rewrite H1. solve_Permutation.
    + rewrite !(assoc_L (++)). apply sublist_app; [|done]. by rewrite <-!(assoc_L (++)).
    + rewrite length_app. cbn. lia.
  - split; cbn; try done; unfold in_hand, attempts_made in *; cbn in *.
    + rewrite H1. solve_Permutation.
    + by apply sublist_inserts_r.
    + rewrite H3, as_u64_succ, length_app. cbn. f_equal. lia.
Qed.

Lemma inv_recv f f' : recv f = Some f' → inv f → inv f'.
Proof.
  unfold recv. destruct (task f) as [|] eqn:Ht; [done|]. destruct (queue f) as [|x q] eqn:Hq; [done|].
  intros [= <-] [H1 H2 H3 H4 H5 H6 H7]. unfold in_hand, attempts_made in *. rewrite Ht, Hq in *.
  split; cbn; unfold in_hand, attempts_made; cbn in *; try done; try lia.
  intros y a b [= <- <- <-]. done.
Qed.

Lemma inv_answered status f f' : answered status f = Some f' → inv f → inv f'.
Proof.
  unfold answered. destruct (task f) as [[[x a] b]|] eqn:Ht; [|done].
  intros [= <-] [H1 H2 H3 H4 H5 H6 H7]. destruct (H5 x a b Ht) as [Ha ->].
  unfold in_hand, attempts_made in *. rewrite Ht in *. unfold MAX_RETRIES, BASE_BACKOFF_MS in *.
  destruct (match status with Some _ => _ | None => _ end); [|case_bool_decide as Hr].
  - split; cbn; unfold in_hand, attempts_made; cbn in *; rewrite ?length_app; unfold MAX_RETRIES; cbn; try done; try lia.
    + rewrite H1. solve_Permutation.
    + by rewrite <-(assoc_L (++)).
  - split; cbn; unfold in_hand, attempts_made; cbn in *; rewrite ?length_app; unfold MAX_RETRIES; cbn; try done; try lia.
    + intros y a' b' [= <- <- <-]. split; [lia|]. replace (a + 1 - 1) with (Z.succ (a - 1)) by lia.
      rewrite Z.pow_succ_r by lia. unfold BASE_BACKOFF_MS. lia.
    + apply Forall_app. split; [done|]. apply Forall_singleton. assert (a = 1 ∨ a = 2) as [-> | ->] by lia; auto.
  - split; cbn; unfold in_hand, attempts_made; cbn in *; rewrite ?length_app; unfold MAX_RETRIES; cbn; try done; try lia.
    + rewrite H1. solve_Permutation.
    + etrans; [|exact H2]. apply sublist_app; [done|]. by apply sublist_cons.
    + rewrite H3, as_u64_succ. f_equal. lia.
Qed.

Lemma inv_steps f f' : rtc step f f' → inv f → inv f'.
Proof.
  induction 1 as [|f g h Hs _ IH]; [done|]. intros Hi. apply IH.
  destruct Hs as [e ts|g Hg|st g Hg]; [by apply inv_enqueue|by eapply inv_recv|by eapply inv_answered].
Qed.

(** No event is lost without being counted. However producers, the channel
    and the task interleave and whatever the service answers, every event offered is
    delivered, in the task's hand, waiting, or counted as dropped, exactly once;
    those that are not dropped keep their order; the channel never holds more than
    1024; and the task has posted an event it gave up exactly three times, no event
    more than three times, with pauses of 200 and 400 milliseconds only. *)
Theorem forwarder_conserves key f :
  rtc step (spawn key) f →
  offered f ≡ₚ delivered f ++ given_up f ++ in_hand f ++ queue f ++ refused f
  ∧ delivered f ++ in_hand f ++ queue f `sublist_of` offered f
  ∧ dropped_count f = as_u64 (Z.of_nat (length (refused f) + length (given_up f)))
  ∧ (length (queue f) ≤ CHANNEL_CAP)%nat
  ∧ Z.of_nat (length (delivered f)) + 3 * Z.of_nat (length (given_up f)) + attempts_made f
      ≤ Z.of_nat (length (posted f)) ≤ 3 * Z.of_nat (length (delivered f) + length (given_up f)) + attempts_made f
  ∧ Forall (λ b, b = 200 ∨ b = 400) (slept f).
Proof. intros Hr. apply inv_steps in Hr; [|apply inv_spawn]. by destruct Hr. Qed.

(** The steps the task still has to make, at most. *)
Definition work (f : Forwarder) : Z :=
  4 * Z.of_nat (length (queue f)) + match task f with Some (_, a, _) => 4 - a | None => 0 end.

(** The task drains its channel. Until nothing is waiting and nothing is in
    hand the task can make a step, and every step it makes lowers a bound of four
    for each event waiting, whatever the service answers; so a burst is finished,
    delivered or dropped, after boundedly many answers. *)
Theorem forwarder_drains f :
  inv f →
  (queue f = [] ∧ task f = None ∨ (∃ f', recv f = Some f') ∨ ∀ status, ∃ f', answered status f = Some f')
  ∧ ∀ f', (recv f = Some f' ∨ ∃ status, answered status f = Some f') → 0 ≤ work f' < work f.
Proof.
  intros Hi. split.
  - unfold recv, answered. destruct (task f) as [[[x a] b]|]; [by right; right; eauto|].
    destruct (queue f); [by left|right; left; eauto].
  - intros f' [H|[st H]].
    + unfold recv in H. destruct (task f) eqn:Ht; [done|]. destruct (queue f) as [|x q] eqn:Hq; [done|].
      injection H as <-. unfold work. cbn. rewrite Ht, Hq. cbn. lia.
    + unfold answered in H. destruct (task f) as [[[x a] b]|] eqn:Ht; [|done].
      destruct (inv_task _ Hi _ _ _ Ht) as [Ha _]. unfold MAX_RETRIES in *. injection H as <-. unfold work. rewrite Ht.
      destruct (match st with Some _ => _ | None => _ end); [|case_bool_decide]; cbn; lia.
Qed.
End audit.

(** Three refusals give an event up; the pauses are the first two backoffs. *)
#[local] Instance text_json : AuditJson := {| json := string; empty_object := "{}"; to_text := Some |}.

Definition refused_thrice : option Forwarder :=
  f ← recv (enqueue (new ShareUnknown) 7 (spawn (Some "key")));
  f ← answered None f;
  f ← answered (Some 500) f;
  answered (Some 429) f.

Example gives_up :
  (λ f, (dropped_count f, length (posted f), slept f, task f)) <$> refused_thrice = Some (1, 3%nat, [200; 400], None).
Proof. reflexivity. Qed.

(** Without a key nothing is forwarded and nothing counted. *)
Example without_key : enqueue (new ShareUnknown) 7 (spawn (Some "")) = spawn None.
Proof. reflexivity. Qed.
End AuditTheorems.
