(* ===== verification/ImportState.v ===== *)
(** * Seeding the index from a directory tree ([disk-client/src/import_state.rs])

    [disk import-state] walks a share that was kept by other means and writes
    one row per regular file. What the walk yields, what [canonicalize] says of
    each entry and what reading it gives are inputs, and so are failing
    statements. *)

From stdpp Require Import prelude gmap strings.
From Stdlib Require Import ZArith Lia Strings.Byte Strings.Ascii.
From S2P Require Import Prelude Text PathFacts VectorClock Types Guard Scanner Sql MetaDb MetaFiles.

#[local] Open Scope Z_scope.

Module ImportState.
Record ImportEntry := mkEntry { relative_path : string; size : Z; content_hash : bytes; mtime_ns : Z }.

Record ImportReport := mkReport {
  files_seen : Z;
  files_imported : Z;
  bytes_total : Z;
  escapes_blocked : Z;
  dry_run : bool;
  entries : list ImportEntry
}.

Inductive ImportError :=
  | RootMissing (path : string)
  | RootNotDir (path : string)
  | Io (path source : string)
  | Walk (msg : string)
  | MetaDb_ (e : MetaDbError).

(** What the file system says of the path given, and of an entry of the walk:
    its canonical path, its metadata (length, modification time, inode) and the
    bytes a read of the canonical path gives. *)
Record root_info := { exists_ : bool; root_canonical : result string string; is_dir : bool }.
Record walked := {
  abs : string;
  is_file : bool;
  canonical : option string;
  metadata : result (Z * Z * Z * Z) string;
  content : result bytes string
}.

Definition canonical_root (from : string) (i : root_info) : result string ImportError :=
  if negb (exists_ i) then Err (RootMissing from)
  else
    canonical <?- map_err (Io from) (root_canonical i) ;;
    if negb (is_dir i) then Err (RootNotDir canonical) else Ok canonical.

Definition mtime_nanos (mtime mtime_nsec : Z) : Z := as_i64 (mtime * 1000000000 + mtime_nsec).

Definition saturating_add_u64 (a b : Z) : Z := Z.min (a + b) (2 ^ 64 - 1).

Section import.
Context {vc : VcCodec} (blake3 : bytes → bytes) (vault_id node_id : string) (now : nat → Z) (fault : nat → option MetaDbError).

(** The file is hashed in pieces; the hash is that of its bytes. *)
Definition hash_file (path : string) (c : result bytes string) : result bytes ImportError :=
  b <?- map_err (Io path) c ;; Ok (blake3 b).

(** What an entry is to the loop. *)
Inductive verdict := Skip | Escape | Import (e : ImportEntry) (meta : FileMeta).

Definition examine (root : string) (r : result walked string) : result verdict ImportError :=
  entry <?- map_err Walk r ;;
  if negb (is_file entry) then Ok Skip
  else
    match canonical entry with
    | None => Ok Skip
    | Some canonical_entry =>
        if negb (Path.path_starts_with canonical_entry root) then Ok Escape
        else
          match Scanner.strip_root root canonical_entry with
          | None => Ok Escape
          | Some rel =>
              if decide (rel = "") then Ok Skip
              else
                m <?- map_err (Io (abs entry)) (metadata entry) ;;
                let '(size, mtime, nsec, ino) := m in
                let mtime_ns := mtime_nanos mtime nsec in
                content_hash <?- hash_file canonical_entry (content entry) ;;
                Ok (Import (mkEntry rel size content_hash mtime_ns)
                      (FileMeta.mk rel content_hash size mtime_ns (Some ino) VC.new false None node_id None None None))
          end
    end.

(** One statement of the index; the [n]-th may fail. *)
Definition upsert (n : nat) (meta : FileMeta) : stm MetaDb ImportError unit := λ db,
  match fault n with
  | Some x => (Err (MetaDb_ x), db)
  | None => let '(r, db) := MetaFiles.upsert_file_scoped (now n) None vault_id meta db in (map_err MetaDb_ r, db)
  end.

Definition saw (e : ImportEntry) (imported : bool) (r : ImportReport) : ImportReport :=
  mkReport (files_seen r + 1) (if imported then files_imported r + 1 else files_imported r)
    (saturating_add_u64 (bytes_total r) (size e)) (escapes_blocked r) (dry_run r) (entries r ++ [e]).
Definition escaped (r : ImportReport) : ImportReport :=
  mkReport (files_seen r) (files_imported r) (bytes_total r) (escapes_blocked r + 1) (dry_run r) (entries r).

Fixpoint walk (root : string) (walker : list (result walked string)) (n : nat) (report : ImportReport)
    : stm MetaDb ImportError ImportReport :=
  match walker with
  | [] => st_ret report
  | entry :: walker =>
      v <~ st_lift (examine root entry) ;;
      match v with
      | Skip => walk root walker n report
      | Escape => walk root walker n (escaped report)
      | Import e meta =>
          if dry_run report then walk root walker n (saw e false report)
          else _ <~ upsert n meta ;; walk root walker (S n) (saw e true report)
      end
  end.

Definition import_state (from : string) (i : root_info) (walker : list (result walked string)) (dry : bool)
    : stm MetaDb ImportError ImportReport :=
  root <~ st_lift (canonical_root from i) ;;
  walk root walker 0 (mkReport 0 0 0 0 dry []).
End import.
End ImportState.

Module ImportTheorems.
Import MetaFiles ImportState.

Section import.
Context {vc : VcCodec} (blake3 : bytes → bytes) (vault_id node_id : string) (now : nat → Z) (fault : nat → option MetaDbError).
Context (root : string).

Abbreviation examine' := (examine blake3 node_id root).
Abbreviation walk' := (walk blake3 vault_id node_id now fault root).

(** The entries of a walk that are to be imported, in its order. *)
Definition plan : list (result walked string) → list ImportEntry :=
  omap (λ r, match examine' r with Ok (Import e _) => Some e | _ => None end).

(** An entry of the plan is a regular file under the root, with the hash of
    what was read. *)
Definition stands_for (e : ImportEntry) (w : walked) : Prop :=
  is_file w = true
  ∧ ∃ q mtime nsec ino b, canonical w = Some q ∧ Path.path_starts_with q root = true
    ∧ Scanner.strip_root root q = Some (relative_path e) ∧ relative_path e ≠ ""
    ∧ metadata w = Ok (size e, mtime, nsec, ino) ∧ mtime_ns e = mtime_nanos mtime nsec
    ∧ content w = Ok b ∧ content_hash e = blake3 b.

(** The index keeps paths with forward slashes. *)
Definition key (e : ImportEntry) : fkey := (None, vault_id, replace_char "\" "/" (relative_path e)).

Definition imported (e : ImportEntry) (r : FileRow.t) : Prop :=
  FileRow.content_hash r = content_hash e ∧ FileRow.size r = as_i64 (size e) ∧ FileRow.mtime_ns r = mtime_ns e
  ∧ FileRow.deleted r = 0 ∧ FileRow.vector_clock r = vc_to_json VC.new.

Lemma examine_import r e m :
  examine' r = Ok (Import e m) →
  (∃ w, r = Ok w ∧ stands_for e w)
  ∧ ∃ ino, m = FileMeta.mk (relative_path e) (content_hash e) (size e) (mtime_ns e) (Some ino) VC.new false None
                 node_id None None None.
Proof.
  unfold examine. destruct r as [w|]; [|done]. cbn. destruct (is_file w) eqn:Hf; [|done]. cbn.
  destruct (canonical w) as [q|] eqn:Hq; [|done]. destruct (Path.path_starts_with q root) eqn:Hs; [|done]. cbn.
  destruct (Scanner.strip_root root q) as [rel|] eqn:Hr; [|done]. case_decide as Hne; [done|].
  destruct (metadata w) as [[[[sz mt] ns] ino]|] eqn:Hm; [|done]. cbn.
  destruct (content w) as [b|] eqn:Hb; [|done]. cbn. intros [= <- <-]. split; [|by exists ino].
  exists w. split; [done|]. split; [done|]. exists q, mt, ns, ino, b. by split_and!.
Qed.

Lemma upsert_cases n e m db r db' :
  files_keyed db →
  (∃ ino, m = FileMeta.mk (relative_path e) (content_hash e) (size e) (mtime_ns e) (Some ino) VC.new false None
                node_id None None None) →
  upsert vault_id now fault n m db = (r, db') →
  files_keyed db'
  ∧ match r with
    | Err _ => db' = db
    | Ok _ => ∃ row, imported e row ∧ file_map db' = <[key e := row]> (file_map db)
    end.
Proof.
  intros Hk [ino ->] H. unfold upsert in H. destruct (fault n); [by injection H as <- <-|].
  destruct (path_as_str (relative_path e)) as [ps|x] eqn:Hp.
  - assert (ps = replace_char "\" "/" (relative_path e)) as ->
      by (unfold path_as_str in Hp; destruct (str_utf8 _); [by injection Hp as <-|done]).
    match type of H with context [upsert_file_scoped _ _ _ ?m db] =>
      destruct (upsert_map (now n) None vault_id m _ db Hk Hp) as (t'&Hu&Hk'&Hm) end.
    rewrite Hu in H. injection H as <- <-. split; [done|].
    eexists. split; [|exact Hm]. unfold upserted. by destruct (file_map db !! _).
  - unfold upsert_file_scoped, st_bind, st_lift in H. cbn [FileMeta.path] in H. rewrite Hp in H.
    by injection H as <- <-.
Qed.

(** What a walk leaves, from where it stands. *)
Record walk_leaves (walker : list (result walked string)) (rep : ImportReport) (db db' : MetaDb)
    (r : result ImportReport ImportError) : Prop := mkLeaves {
  wl_keyed : files_keyed db';
  wl_dry : dry_run rep = true → db' = db;
  wl_rows : ∀ k, file_map db' !! k = file_map db !! k
                 ∨ ∃ e row, e ∈ plan walker ∧ k = key e ∧ file_map db' !! k = Some row ∧ imported e row;
  wl_ok : ∀ rep', r = Ok rep' →
    entries rep' = entries rep ++ plan walker ∧ dry_run rep' = dry_run rep
    ∧ files_seen rep' = files_seen rep + Z.of_nat (length (plan walker))
    ∧ files_imported rep' = files_imported rep + (if dry_run rep then 0 else Z.of_nat (length (plan walker)))
    ∧ bytes_total rep' = foldl saturating_add_u64 (bytes_total rep) (size <$> plan walker)
    ∧ (dry_run rep = false → ∀ e, e ∈ plan walker →
         ∃ e' row, e' ∈ plan walker ∧ key e' = key e ∧ file_map db' !! key e = Some row ∧ imported e' row)
}.

Lemma leaves_refl rep db r : files_keyed db → (∀ rep', r = Ok rep' → rep' = rep) → walk_leaves [] rep db db r.
Proof.
  intros Hk Hr. split; [done|done|by left|]. intros rep' ->%Hr. cbn. rewrite app_nil_r. split_and!; try done; try lia.
  - destruct (dry_run rep); lia.
  - by intros _ e ?%elem_of_nil.
Qed.

Lemma walk_spec walker n rep db r db' :
  files_keyed db → walk' walker n rep db = (r, db') → walk_leaves walker rep db db' r.
Proof.
  revert n rep db. induction walker as [|x walker IH]; intros n rep db Hk H.
  { cbn in H. injection H as <- <-. apply leaves_refl; [done|]. by intros rep' [= ->]. }
  cbn [walk] in H. unfold st_bind at 1, st_lift in H.
  assert (plan (x :: walker) = match examine' x with Ok (Import e _) => e :: plan walker | _ => plan walker end) as Hplan.
  { unfold plan. cbn. by destruct (examine' x) as [[]|]. }
  destruct (examine' x) as [v|err] eqn:Hx.
  2: { injection H as <- <-. by split; [done|done|left|]. }
  destruct v as [| |e m].
  - destruct (IH _ _ _ Hk H). split; rewrite ?Hplan; done.
  - destruct (IH _ _ _ Hk H). split; rewrite ?Hplan; done.
  - destruct (examine_import _ _ _ Hx) as [_ Hm]. destruct (dry_run rep) eqn:Hdry.
    + destruct (IH _ _ _ Hk H) as [W1 W2 W3 W4]. cbn in W1, W2, W3, W4. split; rewrite ?Hplan; [done|intros _; by apply W2| |].
      * intros k. destruct (W3 k) as [?|(e'&row&?&?)]; [by left|right; exists e', row; split; [by right|done]].
      * intros rep' Hr. destruct (W4 rep' Hr) as (E1&E2&E3&E4&E5&_). rewrite Hdry in E2, E4 |- *. cbn.
        rewrite E1, E3, E4, E5, <-(assoc_L (++)). split_and!; try done; cbn; lia.
    + unfold st_bind in H. destruct (upsert _ _ _ n m db) as [[[]|err] db1] eqn:Hu.
      2: { apply (upsert_cases n e) in Hu as [Hk1 ->]; [|done|exact Hm]. injection H as <- <-.
           split; rewrite ?Hplan; [done|done|by left|done]. }
      apply (upsert_cases n e) in Hu as [Hk1 (row&Hrow&Hmap)]; [|done|done].
      destruct (IH _ _ _ Hk1 H) as [W1 W2 W3 W4]. cbn in W1, W2, W3, W4. split; rewrite ?Hplan; [done|by rewrite Hdry| |].
      * intros k. destruct (W3 k) as [Heq|(e'&row'&?&?)]; [|right; exists e', row'; split; [by right|done]].
        rewrite Hmap in Heq. destruct (decide (k = key e)) as [->|Hne].
        -- right. exists e, row. rewrite lookup_insert_eq in Heq. split_and!; try done. by left.
        -- left. by rewrite lookup_insert_ne in Heq.
      * intros rep' Hr. destruct (W4 rep' Hr) as (E1&E2&E3&E4&E5&E6). rewrite Hdry in *. cbn.
        rewrite E1, E3, E4, E5, <-(assoc_L (++)). split_and!; try done; cbn; try lia.
        intros _ e0 [->|He0]%elem_of_cons.
        -- destruct (W3 (key e)) as [Heq|(e'&row'&He'&Hke&Hl&Hi)].
           ++ exists e, row. rewrite Hmap, lookup_insert_eq in Heq. split_and!; try done. by left.
           ++ exists e', row'. split_and!; try done. by right.
        -- destruct (E6 eq_refl e0 He0) as (e'&row'&?&?). exists e', row'. split; [by right|done].
Qed.

Lemma plan_sound walker e : e ∈ plan walker → ∃ w, Ok w ∈ walker ∧ stands_for e w.
Proof.
  intros (x&Hx&He)%list_elem_of_omap. destruct (examine' x) as [[| |e' m]|] eqn:Hex; try done. injection He as ->.
  destruct (examine_import _ _ _ Hex) as [(w&->&Hw) _]. by exists w.
Qed.
End import.

(** An import does what it reports. A dry run leaves the index as it was.
    Whatever fails, a row that changed is that of a planned entry: a regular file
    of the walk whose canonical path lies under the canonical root, with the hash of
    its bytes, its length and an empty clock, alive; no row of another vault or
    another path is touched. A run that succeeds reports exactly the planned entries
    in the order of the walk, their number and the saturated sum of their lengths,
    and after a live run every one of them has such a row. *)
Theorem import_exact {vc : VcCodec} blake3 vault_id node_id now fault from i walker dry db r db' :
  files_keyed db →
  import_state blake3 vault_id node_id now fault from i walker dry db = (r, db') →
  (dry = true → db' = db)
  ∧ (db' = db ∨ ∃ root, canonical_root from i = Ok root
      ∧ ∀ k, file_map db' !! k = file_map db !! k
          ∨ ∃ e w row, e ∈ plan blake3 node_id root walker ∧ Ok w ∈ walker ∧ stands_for blake3 root e w
              ∧ k = key vault_id e ∧ file_map db' !! k = Some row ∧ imported e row)
  ∧ ∀ rep, r = Ok rep →
      ∃ root, canonical_root from i = Ok root
        ∧ entries rep = plan blake3 node_id root walker
        ∧ files_seen rep = Z.of_nat (length (entries rep))
        ∧ files_imported rep = (if dry then 0 else Z.of_nat (length (entries rep)))
        ∧ bytes_total rep = foldl saturating_add_u64 0 (size <$> entries rep)
        ∧ (dry = false → ∀ e, e ∈ entries rep →
             ∃ e' row, e' ∈ entries rep ∧ key vault_id e' = key vault_id e
               ∧ file_map db' !! key vault_id e = Some row ∧ imported e' row).
Proof.
  intros Hk H. unfold import_state, st_bind, st_lift in H.
  destruct (canonical_root from i) as [root|x] eqn:Hr; [|injection H as <- <-; by split_and!; [|left|]].
  destruct (walk_spec _ _ _ _ _ _ _ _ _ _ _ _ Hk H) as [_ W2 W3 W4]. split_and!; [exact W2| |].
  - right. exists root. split; [done|]. intros k. destruct (W3 k) as [?|(e&row&He&?)]; [by left|right].
    destruct (plan_sound _ _ _ _ _ He) as (w&?&?). exists e, w, row. naive_solver.
  - intros rep Hrep. destruct (W4 rep Hrep) as (E1&_&E3&E4&E5&E6). exists root. cbn in *.
    rewrite E3, E4, E5, E1. by split_and!.
Qed.

(** Two files whose names differ only in the slash are one row. *)
Definition demo_walked (q : string) (b : bytes) : result walked string :=
  Ok {| abs := q; is_file := true; canonical := Some q; metadata := Ok (1, 0, 0, 7); content := Ok b |}.
Definition demo_root : root_info := {| exists_ := true; root_canonical := Ok "/s"; is_dir := true |}.
Abbreviation demo_import l dry :=
  (import_state (λ b, b) "v" "n" (λ _, 1) (λ _, None) "/s" demo_root l dry empty_db).

Example backslash_collides :
  let '(r, db) := demo_import [demo_walked "/s/a\b" [x01]; demo_walked "/s/a/b" [x02]] false in
  match r with Ok rep => files_imported rep | Err _ => 0 end = 2 ∧ length (files db) = 1%nat.
Proof. vm_compute. done. Qed.

(** A link out of the share is counted and not read. *)
Example escape_counted :
  let '(r, db) := demo_import [demo_walked "/etc/passwd" [x01]] false in
  match r with Ok rep => (files_seen rep, escapes_blocked rep) | Err _ => (0, 0) end = (0, 1) ∧ files db = [].
Proof. vm_compute. done. Qed.

Lemma import_exact_witness :
  ∃ rep db', demo_import [demo_walked "/s/a" [x01]] false = (Ok rep, db') ∧ files_seen rep = 1 ∧ files_imported rep = 1.
Proof.
  destruct (demo_import [demo_walked "/s/a" [x01]] false) as [r db'] eqn:H.
  destruct (import_exact (λ b, b) "v" "n" (λ _, 1) (λ _, None) "/s" demo_root _ false empty_db r db'
    ltac:(apply NoDup_nil_2) H) as (_&_&Hr).
  destruct r as [rep|x]; [|apply (f_equal fst) in H; vm_compute in H; discriminate].
  destruct (Hr rep eq_refl) as (root&Hroot&He&Hn&Hi&_). exists rep, db'. split; [reflexivity|].
  injection Hroot as <-. rewrite Hi, Hn, He. vm_compute. split; reflexivity.
Defined.
End ImportTheorems.
